(* ===== verification/_CoqProject ===== *)
-Q . S2P
Prelude.v
Encode.v
Random.v
Util.v
Glob.v
Tokenize.v
TokenizeProofs.v
TokenGrammar.v
CompleteProofs.v
CMem.v
CFloat.v
Printf.v
PrintfSpec.v
PrintfConv.v
PrintfMain.v
PrintfMout.v
PrintfTheorems.v
PrintfQuote.v
Hash.v
HashKey.v
HashList.v
HashSpec.v
HashMap.v
OsFile.v
BtreePage.v
BtreeMem.v
BtreeSpace.v
BtreeDefrag.v
BtreeAlloc.v
BtreePageSpec.v
BtreePageProofs.v
OsLocks.v
OsLockSpec.v
OsLockInv.v
OsLockOps.v
OsLockClose.v
OsLockOpen.v
OsLockRefine.v
OsLockTheorems.v
Pager.v
PagerBytes.v
PagerPlayback.v
PagerCache.v
PagerTxn.v
PagerSession.v
PagerWrite.v
PagerCommit.v
PagerRollback.v
PagerSpec.v
PagerAtomic.v
Rbtree.v
RbShape.v
RbRotate.v
RbInsert.v
RbDelete.v
RbOrder.v
RbCursor.v
RbTable.v
RbUpdate.v
RbSpec.v
RbDb.v
RbLog.v
RbClear.v
RbSim.v
RbRefine.v
RbCheck.v
RbTheorems.v
VdbeAux.v
VdbeAuxProofs.v
VdbeMem.v
Vdbe.v
VdbeStack.v
VdbeEffects.v
Expr.v
ExprSpec.v
ExprEmit.v
VdbeRun.v
ExprRun.v
ExprJump.v
ExprCorrect.v
