(* ===== verification/Prelude.v ===== *)
(** A verification of the C code under [src/ext/sqlite-2.8.17/src]: the SQLite 2.8
    library on which the job queue rq keeps its tables.  File names below are
    relative to that directory; [X.v] is a file of this development.

    * The program

    An rq command is a Ruby script that runs SQL through the library.  The text of a
    statement is split into tokens ([tokenize.c]) that drive a generated parser; the
    parser's actions generate bytecode ([build.c], [select.c], ...), which the virtual
    machine ([vdbe.c]) interprets; the machine reads and writes tables through a
    B-tree ([btree.c], or [btree_rb.c] for tables in memory); the B-tree keeps its
    nodes on pages that the page cache ([pager.c]) loads, journals and commits through
    the operating system layer ([os.c]).  Names and schema objects live in hash tables
    ([hash.c]); [util.c], [encode.c] and [random.c] are shared helpers.  The queue is
    shared between processes and hosts, so what has to hold above all is that a
    transaction is atomic when a process dies; the development starts there.

    * The files, and how their definitions correspond to the code

    - This file: C integers as [Z] with their wrap-around, the monad of programs with
      a state ([M], with results [Done], [Crashed] for the death of the process and
      [Stuck] for a failed [assert] or an access outside of an object), its weakest
      preconditions [wp] with the tactics that step through a program, and the lemmas
      on lists that several components use.
    - OsFile.v: [os.c].  A file is its bytes, the bytes that are on the disk, and a
      position; every system call consults a schedule that lets it succeed, fail, or
      be the point where the process dies.
    - OsLocks.v: the locks of [os.c], for several processes: descriptors, [lockInfo] and
      [openCnt] structures with their hash tables, the kernel's locks, and a step per
      call.  OsLockSpec.v is the machine of readers and writers that it promises, with
      the rules for clients and system; OsLockInv.v the invariant, OsLockOps.v,
      OsLockClose.v and OsLockOpen.v the effect of the operations, OsLockRefine.v the
      simulation for any interleaving, OsLockTheorems.v the theorems and what happens
      when the system fails.
    - Pager.v: [pager.c], one definition per function, on a record with the fields of
      [struct Pager] and the files below it.  PagerBytes.v (integers and positions in
      files), PagerPlayback.v (playing a journal back), PagerCache.v (reference counts
      and lists of pages), PagerTxn.v, PagerSession.v, PagerWrite.v and
      PagerCommit.v hold the invariants and the effect of every operation; PagerSpec.v
      states the abstract store (pages, references, one transaction) and proves the
      simulation; PagerAtomic.v has the theorems.
    - BtreePage.v: the page layer of [btree.c], on a record with the fields of
      [struct MemPage]; an entry of [apCell] is an offset in the page or a cell
      elsewhere.  BtreeMem.v (bytes, chains), BtreeSpace.v ([freeSpace], and
      what it means that a page holds cells), BtreeDefrag.v, BtreeAlloc.v and
      BtreePageSpec.v have the effect of the operations;
      BtreePageProofs.v has the theorems.
    - Rbtree.v: [btree_rb.c], tables in memory, one definition per function, on stores
      of nodes, trees and cursors.  RbShape.v (trees as values, and what it means that
      the store holds one), RbRotate.v, RbInsert.v and RbDelete.v (rotations and
      balancing), RbOrder.v (the order of keys), RbCursor.v, RbTable.v and RbUpdate.v
      (moves, search, and the change of one tree); RbSpec.v states what a client is
      promised and what it has to see to; RbDb.v has the invariant of a database and
      of its cursors, RbLog.v and RbClear.v the effect of the functions and of their
      logs, RbSim.v (with rollbacks) and RbRefine.v the simulation, RbCheck.v the
      integrity check and the end; RbTheorems.v has the theorems.
    - Hash.v: [hash.c] on a store of addresses; HashKey.v is the interface of a key
      class with its three instances; HashList.v and HashSpec.v have the invariant
      and the effect of the operations; HashMap.v has the theorems.
    - Tokenize.v: [tokenize.c]; TokenizeProofs.v and CompleteProofs.v have the theorems.
    - CMem.v: the allocator and the string builders of [util.c] on blocks of bytes, with
      their rules; CFloat.v: [double] and [long double], and the numbers and comparisons
      of [util.c].  Printf.v: [printf.c], with the local array [buf], the arguments as a
      tagged list and the consumer [mout].  PrintfSpec.v says what formats mean;
      PrintfConv.v has the effect of the conversions; PrintfMain.v the interpreter for
      any [Consumer], an interface that PrintfMout.v implements twice; PrintfTheorems.v
      and PrintfQuote.v have the theorems and runs that go wrong.
    - VdbeAux.v: the program builder of [vdbeaux.c], with its growing array and its
      labels; VdbeAuxProofs.v has its rules and its theorem.
    - VdbeMem.v, Vdbe.v: [vdbe.c], on a record with the fields of [struct Vdbe]: a stack
      entry is a [Mem] with its flags, its text in [zShort], in a block of the heap or
      elsewhere; one definition per instruction; [vdbe_step] is a round of the loop and
      [sqliteVdbeExec] the loop.  An SQL function is a parameter, a map from the texts
      of its arguments to a result; a cursor is the entry it is at.  VdbeStack.v says
      what values and operators mean, without flags or a heap, and relates a stack of
      values to the machine and its heap ([rep]); VdbeEffects.v has a rule per
      instruction, VdbeRun.v turns them into runs of the loop.
    - Expr.v: the generators of [expr.c] on the builder.  ExprSpec.v has the value of an
      expression and the code that the generators emit, as lists with final addresses;
      ExprEmit.v proves that they emit it, ExprRun.v and ExprJump.v what it does;
      ExprCorrect.v has the theorems.
    - Util.v and Glob.v: [util.c]; Encode.v: [encode.c]; Random.v: [random.c].

    Pointers to structures are names: page numbers for [PgHdr], offsets for what lies
    inside a page, addresses in a finite map for what is allocated.  Lists that the
    code threads through the structures are lists in the model where no operation
    can observe the difference (the lists of the page cache), and links in the store
    where the links are the point (hash tables, cells and free blocks, trees).

    * What the theorems show

    - The page cache implements a transactional store whatever a client that respects
      its contract does ([pager_refines_store]); a transaction is atomic when the
      process dies in any system call ([crash_atomicity]); recovery and rollback do
      what they promise.  Two theorems show states in which the code fails.
    - Processes that share files get the results of readers and writers
      ([os_locks_refine]): a writer is alone, and the kernel's lock of a process is the
      strongest of its files, although POSIX drops it with any [close]
      ([os_locks_exclude]); closing everything releases everything
      ([os_close_releases]).  Examples show the failures the code does not provide for.
    - A page of the B-tree is a list of cells under insertion, deletion and relinking
      ([page_refines_list]); every byte of it belongs to exactly one cell or free block
      ([page_space_invariant]); [initPage] accepts only pages whose cells lie inside
      of the page, but follows a cyclic chain of cells out of its array.
    - Tables in memory are finite maps with cursors at keys and transactions that a
      rollback undoes ([rbtree_refines]); their trees are red-black trees in every
      state a client can get to ([rbtree_wellformed]), so that a search is logarithmic
      ([moveto_logarithmic]), and a scan sees every record in order and ends
      ([rbtree_scan_complete]); [memRbtreeClose] frees everything.  Three examples show
      what happens to a client that does not keep to the rules.
    - A hash table is a finite map under every schedule of allocation failures.
    - Formatted output: the entry points return the text that the format means, in a
      block of its own or cut to a buffer ([mprintf_text], [snprintf_text]); a string
      printed with [%Q] is one token of SQL and reads back ([quoted_literal]).
    - The expression compiler is correct for the machine: the generators emit the
      reference code from any state of the builder ([expression_code_emitted], on top
      of [labels_assembled]: one pass with patches is an assembler with two passes);
      the machine that runs the code leaves the value of the expression on the stack
      and loses no memory ([expression_value]), jumps as SQL's logic with three truth
      values says ([condition_jumps]), and delivers a row ([row_of_expressions]).
    - The tokenizer cuts a text into its tokens and terminates; keywords are found
      exactly; [sqlite_complete] accepts exactly the complete statements.
    - Pattern matching equals the declarative relations, in both directions; number
      tests, case folding, quoting, the codec and the generator of random numbers do
      what their comments say, with the exceptions recorded as findings.

    * Bounds, fuel and assumptions

    Loops that are not structural carry fuel, and running out of it is [Stuck] or
    [None], so that no theorem about the results of a run can be true for lack of fuel:
    [wp] and the equations with [Done] exclude both.  [alloc_loop] has the bound of the
    [assert] in the code, 256; [free_loop] and [init_free] have the size of a page,
    1024, because blocks are in address order; [init_cells] has 67, the 66 entries
    of [apCell] and one; the loops over a text have its length; those over a chain of a
    hash table the count of its bucket; those over a tree its number of nodes.
    An [assert] that fails is [Stuck]: the library is built without [NDEBUG] by
    default.  The host is little-endian, [int] has 32 bits, characters are one byte
    (the ISO8859 build), and the journal is written in format 3, as compiled.
    Allocations succeed or fail as a schedule says where the code handles the failure
    (hash tables, tables in memory), and succeed elsewhere; the theorems on tables in
    memory are about databases with enough memory.

    The theorems on expressions are about builders and machines with enough memory,
    expressions that the parser and the resolution of names have made well-formed
    ([wf]), and values that exist: [eval] is [None] where C leaves the result undefined
    (a shift by 32, the division of the smallest integer by -1, the conversion of a
    real out of range), where a function reports an error, and where a cursor has a
    move pending or its record is corrupt.  The machine's loop has fuel; the theorem on
    rows says that some fuel, and any more, gives the result.

    * Not modelled

    Of the machine: the instructions that move cursors, write tables, run transactions,
    aggregates, lists of keys and files; they work on the tables of [btree.c], of which
    only pages are modelled here.  Of the generators: name resolution and everything
    that generates whole statements; they act on a [Parse] and a schema of several
    hundred fields.  Aggregates, [RAISE] and [IN (SELECT ...)] are in the generator but
    not in [wf].  The parser: it is generated from [parse.y].  The shell, the bindings
    and the drivers of the tests: input and output.  Of the modelled files: the
    Windows and Macintosh branches of [os.c], and threads with process ids of their
    own; who owns the bytes of keys and data, and the text of complaints, of
    [btree_rb.c]; payload on overflow pages, the list of free pages, cursors and
    balancing of [btree.c]. *)
From Stdlib Require Export ZArith Lia.
From Stdlib Require String.
From stdpp Require Export base numbers gmap option list.
Export String.StringSyntax.

#[export] Set Warnings "-clear-no-such-hyp".
#[global] Open Scope Z_scope.

(** * Machine integers *)

(** The value an [unsigned char] holds after [x] is stored in it. *)
Definition wrap8 (x : Z) : Z := x `mod` 256.

(** The value a two's complement 32-bit [int] holds after [x] is stored in it. *)
Definition wrap32 (x : Z) : Z := (x + 2147483648) `mod` 4294967296 - 2147483648.

(** The value of an [unsigned char] lvalue. *)
Definition is_byte (x : Z) : Prop := 0 <= x < 256.

Definition is_int32 (x : Z) : Prop := -2147483648 <= x < 2147483648.

Create HintDb cmodel.
Create Rewrite HintDb cmodel.

Lemma wrap8_byte x : is_byte (wrap8 x).
Proof. unfold wrap8, is_byte. apply Z.mod_pos_bound. lia. Qed.

Lemma wrap8_small x : is_byte x -> wrap8 x = x.
Proof. unfold wrap8, is_byte. apply Z.mod_small. Qed.

Lemma wrap32_int32 x : is_int32 (wrap32 x).
Proof.
  unfold wrap32, is_int32.
  pose proof (Z.mod_pos_bound (x + 2147483648) 4294967296). lia.
Qed.

Lemma wrap32_small x : is_int32 x -> wrap32 x = x.
Proof.
  unfold wrap32, is_int32. intros. rewrite Z.mod_small; lia.
Qed.

(** Subtracting an offset and adding it again is the identity on bytes. *)
Lemma wrap8_sub_add x e : is_byte x -> wrap8 (wrap8 (x - e) + e) = x.
Proof.
  intros Hx. unfold wrap8. rewrite Zplus_mod_idemp_l.
  replace (x - e + e) with x by lia. by apply wrap8_small.
Qed.

(** Bytes put together with shifts. *)
Lemma lor_shift_add a b n : 0 <= n -> 0 <= a < 2 ^ n -> Z.lor (Z.shiftl b n) a = b * 2 ^ n + a.
Proof.
  intros Hn Ha. rewrite Z.shiftl_mul_pow2 by done.
  pose proof (Z.add_lor_land (b * 2 ^ n) a) as H.
  enough (Z.land (b * 2 ^ n) a = 0) by lia. clear H.
  apply Z.bits_inj'. intros k Hk.
  rewrite Z.land_spec, Z.bits_0. destruct (Z.lt_ge_cases k n).
  - rewrite Z.mul_pow2_bits_low by lia. done.
  - destruct (Z.eq_dec a 0) as [->|]; [by rewrite Z.bits_0, andb_false_r|].
    rewrite (Z.bits_above_log2 a); [by rewrite andb_false_r|lia|].
    apply Z.log2_lt_pow2; [lia|]. apply Z.lt_le_trans with (2 ^ n); [lia|].
    apply Z.pow_le_mono_r; lia.
Qed.

#[export] Hint Resolve wrap8_byte wrap32_int32 : cmodel.
#[export] Hint Rewrite wrap8_small wrap32_small using (assumption || lia) : cmodel.

(** * Arrays indexed by C integers *)

Declare Scope cmodel_scope.
Delimit Scope cmodel_scope with C.

(** [a[i]] of an array of integers; out of range it reads 0, and every use
    below is shown or checked to be in range. *)
Definition aget (a : list Z) (i : Z) : Z := nth (Z.to_nat i) a 0.
Definition aset (a : list Z) (i v : Z) : list Z := <[Z.to_nat i := v]> a.

Notation "a '.[' i ']'" := (aget a i)
  (at level 1, i at level 200, left associativity, format "a .[ i ]") : cmodel_scope.
Notation "a '.[' i '<-' v ']'" := (aset a i v)
  (at level 1, i at level 200, v at level 200, left associativity) : cmodel_scope.
#[global] Open Scope cmodel_scope.

Lemma aset_length a i v : length (a.[i <- v]) = length a.
Proof. apply length_insert. Qed.

Lemma aget_aset_eq a i v :
  0 <= i < Z.of_nat (length a) -> (a.[i <- v]).[i] = v.
Proof.
  intros. unfold aget, aset. rewrite nth_lookup.
  rewrite list_lookup_insert_eq by lia. done.
Qed.

Lemma aget_aset_ne a i j v :
  0 <= i -> 0 <= j -> i <> j -> (a.[i <- v]).[j] = a.[j].
Proof.
  intros. unfold aget, aset. rewrite !nth_lookup.
  rewrite list_lookup_insert_ne by lia. done.
Qed.

Lemma aget_lookup a i x : a !! Z.to_nat i = Some x -> a.[i] = x.
Proof. intros H. unfold aget. by rewrite nth_lookup, H. Qed.

Lemma lookup_aget a i :
  0 <= i < Z.of_nat (length a) -> a !! Z.to_nat i = Some (a.[i]).
Proof.
  intros H. destruct (lookup_lt_is_Some_2 a (Z.to_nat i)) as [x Hx]; [lia|].
  rewrite Hx. f_equal. symmetry. by apply aget_lookup.
Qed.

#[export] Hint Rewrite aset_length : cmodel.
#[export] Hint Rewrite aget_aset_eq aget_aset_ne using lia : cmodel.

(** Byte arrays stay byte arrays. *)
Lemma aget_byte a i : Forall is_byte a -> is_byte (a.[i]).
Proof.
  intros H. unfold aget. rewrite nth_lookup.
  destruct (a !! Z.to_nat i) eqn:E; simpl.
  - by eapply Forall_lookup_1 in E.
  - unfold is_byte; lia.
Qed.
#[export] Hint Resolve aget_byte : cmodel.

(** * C strings *)

(** A C string is the list of its bytes without the terminator; reading at or
    past the end of the list gives the terminator. *)
Definition chr (s : list Z) : Z := match s with [] => 0 | c :: _ => c end.

(** The well-formed contents of a C string: bytes other than NUL. *)
Definition cchar (x : Z) : Prop := 0 < x < 256.
Definition cstring (s : list Z) : Prop := Forall cchar s.

Fixpoint bytes_of_string (s : String.string) : list Z :=
  match s with
  | String.EmptyString => []
  | String.String c s => Z.of_N (Ascii.N_of_ascii c) :: bytes_of_string s
  end.

Arguments bytes_of_string _%_string_scope.

Lemma chr_zero s : cstring s -> chr s = 0 -> s = [].
Proof.
  destruct s as [|c s]; [done|]. intros [Hc _]%Forall_cons_1. unfold cchar in Hc.
  simpl. lia.
Qed.

Lemma cstring_tail c s : cstring (c :: s) -> cstring s.
Proof. by intros [_ ?]%Forall_cons_1. Qed.

(** * Automation *)

(** Case analysis on every boolean comparison of the goal and the context. *)
Ltac case_Zb :=
  repeat match goal with
  | |- context [?a =? ?b] => destruct (Z.eqb_spec a b)
  | |- context [?a <? ?b] => destruct (Z.ltb_spec a b)
  | |- context [?a <=? ?b] => destruct (Z.leb_spec a b)
  | H : context [?a =? ?b] |- _ => destruct (Z.eqb_spec a b)
  | H : context [?a <? ?b] |- _ => destruct (Z.ltb_spec a b)
  | H : context [?a <=? ?b] |- _ => destruct (Z.leb_spec a b)
  end.

Ltac csimpl_arrays := autorewrite with cmodel in *.

(** * Swapping two cells *)

Lemma insert_swap_head (l : list Z) j (a b : Z) :
  l !! j = Some b -> b :: <[j := a]> l ≡ₚ a :: l.
Proof.
  revert j. induction l as [|c l IH]; intros [|j] H; simplify_eq/=; [by constructor|].
  rewrite Permutation_swap, (IH j H). apply Permutation_swap.
Qed.

Lemma insert_swap_perm (l : list Z) i j (a b : Z) :
  l !! i = Some a -> l !! j = Some b -> <[i := b]> (<[j := a]> l) ≡ₚ l.
Proof.
  revert i j. induction l as [|c l IH]; intros [|i] [|j] Hi Hj; simplify_eq/=; try done.
  - by apply insert_swap_head.
  - by apply insert_swap_head.
  - by constructor; apply IH.
Qed.

Definition aswap (a : list Z) (i j : Z) : list Z := (a.[j <- a.[i]]).[i <- a.[j]].

Lemma aswap_perm a i j :
  0 <= i < Z.of_nat (length a) -> 0 <= j < Z.of_nat (length a) -> aswap a i j ≡ₚ a.
Proof. intros. unfold aswap, aset. apply insert_swap_perm; by apply lookup_aget. Qed.

Lemma aset_id a i : 0 <= i < Z.of_nat (length a) -> a.[i <- a.[i]] = a.
Proof. intros. unfold aset. apply list_insert_id. by apply lookup_aget. Qed.

Lemma aswap_involutive a i j :
  0 <= i < Z.of_nat (length a) -> 0 <= j < Z.of_nat (length a) ->
  aswap (aswap a i j) i j = a.
Proof.
  intros Hi Hj. unfold aswap.
  destruct (decide (i = j)) as [->|Hne].
  - by rewrite !(aset_id a j) by done.
  - assert (E1 : ((a.[j <- a.[i]]).[i <- a.[j]]).[i] = a.[j])
      by (rewrite aget_aset_eq; rewrite ?aset_length; done).
    assert (E2 : ((a.[j <- a.[i]]).[i <- a.[j]]).[j] = a.[i])
      by (rewrite aget_aset_ne, aget_aset_eq; (done || lia)).
    rewrite E1, E2. unfold aset. apply list_eq. intros k.
    destruct (decide (k = Z.to_nat i)) as [->|Hki].
    + rewrite list_lookup_insert_eq by (rewrite !length_insert; lia).
      symmetry. by apply lookup_aget.
    + rewrite list_lookup_insert_ne by done.
      destruct (decide (k = Z.to_nat j)) as [->|Hkj].
      * rewrite list_lookup_insert_eq by (rewrite !length_insert; lia).
        symmetry. by apply lookup_aget.
      * by rewrite !list_lookup_insert_ne by done.
Qed.

(** * Stateful C code *)

(** What running a piece of C code on a state can lead to: it returns a value,
    the process dies at a system call (the state then holds what the files
    contain), or the code runs into undefined behaviour or a failed [assert]. *)
Inductive outcome (S A : Type) : Type :=
| Done (a : A) (s : S)
| Crashed (s : S)
| Stuck.
Arguments Done {S A} _ _.
Arguments Crashed {S A} _.
Arguments Stuck {S A}.

Definition M (S A : Type) : Type := S -> outcome S A.

#[export] Instance M_ret {S} : MRet (M S) := fun A a s => Done a s.
#[export] Instance M_bind {S} : MBind (M S) := fun A B f m s =>
  match m s with
  | Done a s' => f a s'
  | Crashed s' => Crashed s'
  | Stuck => Stuck
  end.

Definition mget {S} : M S S := fun s => Done s s.
Definition mput {S} (s : S) : M S unit := fun _ => Done tt s.
Definition mstuck {S A} : M S A := fun _ => Stuck.
Definition mcrash {S A} : M S A := fun s => Crashed s.
Definition assert {S} (b : bool) : M S unit := if b then mret tt else mstuck.
Definition mwhen {S} (b : bool) (m : M S unit) : M S unit := if b then m else mret tt.

(** [wp m Q C s]: run from [s], [m] never gets stuck; if it returns, the result
    satisfies [Q]; if the process dies on the way, the state satisfies [C]. *)
Definition wp {S A} (m : M S A) (Q : A -> S -> Prop) (C : S -> Prop) (s : S) : Prop :=
  match m s with
  | Done a s' => Q a s'
  | Crashed s' => C s'
  | Stuck => False
  end.

Lemma wp_ret {S A} (a : A) (Q : A -> S -> Prop) C s : Q a s -> wp (mret a) Q C s.
Proof. done. Qed.

Lemma wp_bind {S A B} (m : M S A) (f : A -> M S B) Q C s :
  wp m (fun a => wp (f a) Q C) C s -> wp (m ≫= f) Q C s.
Proof. unfold wp, mbind, M_bind. by destruct (m s). Qed.

Lemma wp_unbind {S A B} (m : M S A) (f : A -> M S B) Q C s :
  wp (m ≫= f) Q C s -> wp m (fun a => wp (f a) Q C) C s.
Proof. unfold wp, mbind, M_bind. by destruct (m s). Qed.

Lemma wp_mono {S A} (m : M S A) (Q Q' : A -> S -> Prop) (C C' : S -> Prop) s :
  wp m Q C s -> (forall a s', Q a s' -> Q' a s') -> (forall s', C s' -> C' s') ->
  wp m Q' C' s.
Proof. unfold wp. destruct (m s); eauto. Qed.

Lemma wp_assert {S} b (Q : unit -> S -> Prop) C s :
  b = true -> Q tt s -> wp (assert b) Q C s.
Proof. by intros ->. Qed.

Lemma wp_when {S} b (m : M S unit) Q C s :
  (b = true -> wp m Q C s) -> (b = false -> Q tt s) -> wp (mwhen b m) Q C s.
Proof. destruct b; intros H1 H2; [by apply H1|by apply wp_ret, H2]. Qed.

(** A run that returns, read off its [wp]. *)
Lemma wp_done {S A} (m : M S A) Q C s a s' : wp m Q C s -> m s = Done a s' -> Q a s'.
Proof. unfold wp. intros H E. by rewrite E in H. Qed.

(** A piece of code in which the process cannot die returns. *)
Lemma wp_returns {S A} (m : M S A) Q s : wp m Q (fun _ => False) s -> exists a s', m s = Done a s' /\ Q a s'.
Proof. unfold wp. destruct (m s) as [a s'| |]; [eauto|done..]. Qed.

(** * Filters that keep everything *)

Lemma filter_all {A} (P : A -> Prop) `{forall x, Decision (P x)} (l : list A) :
  Forall P l -> filter P l = l.
Proof.
  induction 1 as [|x l Hx Hl IH]; [done|]. rewrite filter_cons, decide_True by done.
  by rewrite IH.
Qed.
