(* ===== verification/Encode.v ===== *)
(** The binary/text codec of [ext/sqlite-2.8.17/src/encode.c].

    [sqlite_encode_binary] turns arbitrary bytes into a NUL-terminated string
    without quotes, [sqlite_decode_binary] undoes it, also when both pointers
    name one buffer.  Buffers are lists of bytes; a read or a write outside a
    buffer, a use of the uninitialised [e] and a failed [assert] give [None]. *)
From S2P Require Import Prelude.

(** * The encoder *)

(** [for(i=n-1; i>=0; i--){ cnt[in[i]]++; }] *)
Definition count_bytes (inp : list Z) : list Z :=
  fold_left (fun cnt x => cnt.[x <- cnt.[x] + 1]) (rev inp) (replicate 256 0).

(** [sum = cnt[i] + cnt[(i+1)&0xff] + cnt[(i+'\'')&0xff]] *)
Definition escape_sum (cnt : list Z) (i : Z) : Z :=
  cnt.[i] + cnt.[Z.land (i + 1) 255] + cnt.[Z.land (i + 39) 255].

(** The search loop over the offsets still to be tried; [e] is [None] while the
    C variable has not been assigned. *)
Fixpoint choose_offset (cnt : list Z) (offsets : list Z) (m : Z) (e : option Z)
    : Z * option Z :=
  match offsets with
  | [] => (m, e)
  | i :: offsets' =>
      if i =? 39 then choose_offset cnt offsets' m e
      else
        let sum := escape_sum cnt i in
        if sum <? m then
          if sum =? 0 then (sum, Some i) else choose_offset cnt offsets' sum (Some i)
        else choose_offset cnt offsets' m e
  end.

(** The bytes one input byte puts into the output buffer. *)
Definition encode_byte (e c : Z) : list Z :=
  let x := wrap8 (c - e) in
  if (x =? 0) || (x =? 1) || (x =? 39) then [1; wrap8 (x + 1)] else [x].

Fixpoint encode_loop (e : Z) (inp : list Z) : list Z :=
  match inp with
  | [] => []
  | c :: inp' => encode_byte e c ++ encode_loop e inp'
  end.

(** [sqlite_encode_binary(in, n, out)] with [n] the length of [inp] and
    [has_out] telling whether [out] is not NULL: the return value and the bytes
    stored at [out]. *)
Definition sqlite_encode_binary (inp : list Z) (has_out : bool)
    : option (Z * list Z) :=
  let n := Z.of_nat (length inp) in
  if n <=? 0 then Some (1, if has_out then [120; 0] else [])
  else
    let cnt := count_bytes inp in
    let '(m, eo) := choose_offset cnt (seqZ 1 255) n None in
    if negb has_out then Some (n + m + 1, [])
    else
      e ← eo;
      let body := encode_loop e inp in
      let j := 1 + Z.of_nat (length body) in
      if j =? n + m + 1 then Some (j, wrap8 e :: body ++ [0]) else None.

(** * The decoder *)

(** The [while] loop: [buf] is the rest of the input buffer. *)
Fixpoint decode_loop (e : Z) (buf : list Z) : option (list Z) :=
  match buf with
  | [] => None
  | c :: buf' =>
      if c =? 0 then Some []
      else if c =? 1 then
        match buf' with
        | [] => None
        | c2 :: buf'' =>
            out ← decode_loop e buf''; Some (wrap8 (wrap8 (c2 - 1) + e) :: out)
        end
      else out ← decode_loop e buf'; Some (wrap8 (c + e) :: out)
  end.

(** [sqlite_decode_binary(in, out)] with separate buffers: the bytes stored at
    [out], whose number is the return value. *)
Definition sqlite_decode_binary (buf : list Z) : option (list Z) :=
  match buf with [] => None | e :: buf' => decode_loop e buf' end.

(** The same code when [in] and [out] point to one buffer: [r] is the offset of
    [in], [i] the number of bytes written so far.  [fuel] bounds the number of
    iterations; every iteration advances [r], so the length of the buffer is
    enough. *)
Fixpoint decode_in_place_loop (fuel : nat) (e : Z) (buf : list Z) (r i : nat)
    : option (list Z * nat) :=
  match fuel with
  | O => None
  | S fuel' =>
      c ← buf !! r;
      if c =? 0 then Some (buf, i)
      else if c =? 1 then
        c2 ← buf !! S r;
        decode_in_place_loop fuel' e (<[i := wrap8 (wrap8 (c2 - 1) + e)]> buf)
          (S (S r)) (S i)
      else decode_in_place_loop fuel' e (<[i := wrap8 (c + e)]> buf) (S r) (S i)
  end.

Definition sqlite_decode_binary_in_place (buf : list Z) : option (list Z * nat) :=
  e ← buf !! 0%nat; decode_in_place_loop (length buf) e buf 1 0.

(** * Counting escapes *)

(** How many escapes byte [c] needs when the offset is [e]. *)
Definition escape1 (e c : Z) : Z :=
  (if c =? e then 1 else 0) + (if c =? Z.land (e + 1) 255 then 1 else 0)
  + (if c =? Z.land (e + 39) 255 then 1 else 0).

Fixpoint sumZ (f : Z -> Z) (l : list Z) : Z :=
  match l with [] => 0 | x :: l => f x + sumZ f l end.

Definition escapes (inp : list Z) (e : Z) : Z := sumZ (escape1 e) inp.

Lemma sumZ_app f l1 l2 : sumZ f (l1 ++ l2) = sumZ f l1 + sumZ f l2.
Proof. induction l1; simpl; lia. Qed.

Lemma sumZ_rev f l : sumZ f (rev l) = sumZ f l.
Proof. induction l; simpl; [done|]. rewrite sumZ_app. simpl. lia. Qed.

Lemma sumZ_add f g l : sumZ (fun x => f x + g x) l = sumZ f l + sumZ g l.
Proof. induction l; simpl; lia. Qed.

Lemma sumZ_le f g l : (forall x, x ∈ l -> f x <= g x) -> sumZ f l <= sumZ g l.
Proof.
  induction l as [|y l IH]; simpl; intros H; [lia|].
  pose proof (H y ltac:(set_solver)). pose proof (IH ltac:(set_solver)). lia.
Qed.

Lemma sumZ_const c l : sumZ (fun _ => c) l = c * Z.of_nat (length l).
Proof. induction l as [|x l IH]; cbn [sumZ length]; [lia|]. rewrite IH. lia. Qed.

Lemma sumZ_exchange (f : Z -> Z -> Z) l1 l2 :
  sumZ (fun a => sumZ (f a) l2) l1 = sumZ (fun b => sumZ (fun a => f a b) l1) l2.
Proof.
  induction l1 as [|a l1 IH]; simpl.
  - induction l2; simpl; lia.
  - rewrite IH, <- sumZ_add. reflexivity.
Qed.

Definition occ (v : Z) : list Z -> Z := sumZ (fun c => if c =? v then 1 else 0).

Lemma count_fold_occ l v : forall cnt,
  length cnt = 256%nat -> is_byte v -> Forall is_byte l ->
  (fold_left (fun cnt x => cnt.[x <- cnt.[x] + 1]) l cnt).[v] = cnt.[v] + occ v l.
Proof.
  unfold is_byte, occ. induction l as [|x l IH]; intros cnt Hlen Hv Hl; simpl; [lia|].
  apply Forall_cons_1 in Hl as [Hx Hl].
  rewrite IH by (rewrite ?aset_length; done).
  destruct (Z.eqb_spec x v) as [->|Hne].
  - rewrite aget_aset_eq by lia. lia.
  - rewrite aget_aset_ne by lia. lia.
Qed.

Lemma count_bytes_occ inp v :
  is_byte v -> Forall is_byte inp -> (count_bytes inp).[v] = occ v inp.
Proof.
  intros Hv Hin. unfold count_bytes.
  rewrite count_fold_occ; [|done|done|by apply Forall_rev].
  unfold occ. rewrite sumZ_rev.
  enough ((replicate 256 0).[v] = 0) by lia.
  unfold aget. rewrite nth_lookup. rewrite lookup_replicate_2; [done|].
  unfold is_byte in Hv. lia.
Qed.

Lemma land_255_byte x : is_byte (Z.land x 255).
Proof.
  change 255 with (Z.ones 8). rewrite Z.land_ones by lia.
  unfold is_byte. apply Z.mod_pos_bound. lia.
Qed.

Lemma escape_sum_escapes inp i :
  is_byte i -> Forall is_byte inp ->
  escape_sum (count_bytes inp) i = escapes inp i.
Proof.
  intros. unfold escape_sum, escapes, escape1.
  rewrite !count_bytes_occ by (done || apply land_255_byte).
  unfold occ. rewrite <- !sumZ_add. reflexivity.
Qed.

Lemma escape1_nonneg e c : 0 <= escape1 e c.
Proof. unfold escape1. case_Zb; lia. Qed.

Lemma escapes_nonneg inp e : 0 <= escapes inp e.
Proof.
  unfold escapes. induction inp as [|c inp IH]; simpl; [lia|].
  pose proof (escape1_nonneg e c). lia.
Qed.

(** The offsets the search may return. *)
Definition offsets : list Z := filter (fun i => i <> 39) (seqZ 1 255).

Lemma escape1_total c : is_byte c -> sumZ (fun e => escape1 e c) offsets <= 3.
Proof.
  intros Hc.
  assert (H : forallb (fun c => sumZ (fun e => escape1 e c) offsets <=? 3)
                (seqZ 0 256) = true) by (vm_compute; reflexivity).
  rewrite forallb_forall in H. specialize (H c).
  rewrite <- list_elem_of_In, elem_of_seqZ in H.
  unfold is_byte in Hc. specialize (H ltac:(lia)). lia.
Qed.

Lemma escapes_average inp :
  Forall is_byte inp -> sumZ (escapes inp) offsets <= 3 * Z.of_nat (length inp).
Proof.
  intros Hin. unfold escapes. rewrite (sumZ_exchange escape1).
  rewrite <- sumZ_const. apply sumZ_le. intros c Hc.
  apply escape1_total. rewrite Forall_forall in Hin. by apply Hin.
Qed.

Lemma offsets_spec i : i ∈ offsets <-> 1 <= i < 256 /\ i <> 39.
Proof. unfold offsets. rewrite list_elem_of_filter, elem_of_seqZ. lia. Qed.

(** What the search loop has found when it stops. *)
Lemma choose_offset_spec inp ofs m0 e0 :
  Forall is_byte inp -> Forall is_byte ofs ->
  let '(m, e) := choose_offset (count_bytes inp) ofs m0 e0 in
  0 <= m0 ->
  0 <= m <= m0 /\
  ((e = e0 /\ m = m0) \/
   exists i, i ∈ ofs /\ i <> 39 /\ e = Some i /\ m = escapes inp i /\ m < m0) /\
  (forall i, i ∈ ofs -> i <> 39 -> m <= escapes inp i).
Proof.
  intros Hin. revert m0 e0.
  induction ofs as [|i ofs IH]; intros m0 e0 His.
  { simpl. intros. split; [lia|]. split; [by left|]. by intros i ?%elem_of_nil. }
  apply Forall_cons_1 in His as [Hi His]. cbn [choose_offset].
  rewrite escape_sum_escapes by done.
  pose proof (escapes_nonneg inp i) as Hnn.
  destruct (Z.eqb_spec i 39) as [->|H39].
  { specialize (IH m0 e0 His). destruct (choose_offset _ ofs m0 e0) as [m e].
    intros Hm0. destruct (IH Hm0) as (? & Hc & Hmin). split; [lia|]. split.
    - destruct Hc as [?|(j & Hj & ?)]; [by left|right]. exists j.
      split; [by right|done].
    - intros j [->|?]%elem_of_cons ?; [done|auto]. }
  destruct (Z.ltb_spec (escapes inp i) m0) as [Hlt|Hge].
  - destruct (Z.eqb_spec (escapes inp i) 0) as [H0|H0].
    { intros _. split; [lia|]. split.
      - right. exists i. split; [by left|]. repeat split; lia.
      - intros j _ _. rewrite H0. apply escapes_nonneg. }
    specialize (IH (escapes inp i) (Some i) His).
    destruct (choose_offset _ ofs _ _) as [m e].
    intros _. destruct (IH ltac:(lia)) as (? & Hc & Hmin). split; [lia|]. split.
    + right. destruct Hc as [[-> ->]|(j & Hj & ? & ? & ? & ?)].
      * exists i. split; [by left|]. repeat split; lia.
      * exists j. split; [by right|]. repeat split; (done || lia).
    + intros j [->|?]%elem_of_cons ?; [lia|auto].
  - specialize (IH m0 e0 His). destruct (choose_offset _ ofs m0 e0) as [m e].
    intros Hm0. destruct (IH Hm0) as (? & Hc & Hmin). split; [lia|]. split.
    + destruct Hc as [?|(j & Hj & ?)]; [by left|right]. exists j.
      split; [by right|done].
    + intros j [->|?]%elem_of_cons ?; [lia|auto].
Qed.

(** The search always finds an offset that needs fewer escapes than there are
    bytes, so [e] is assigned before it is used. *)
Lemma choose_offset_found inp m eo :
  Forall is_byte inp -> inp <> [] ->
  choose_offset (count_bytes inp) (seqZ 1 255) (Z.of_nat (length inp)) None = (m, eo) ->
  exists e, eo = Some e /\ e ∈ offsets /\ m = escapes inp e /\
    (forall i, i ∈ offsets -> m <= escapes inp i) /\
    254 * m <= 3 * Z.of_nat (length inp).
Proof.
  intros Hin Hne Hch.
  assert (Hpos : 0 < Z.of_nat (length inp))
    by (clear Hch; destruct inp; cbn; [done|lia]).
  assert (His : Forall is_byte (seqZ 1 255)).
  { apply Forall_forall. intros i Hi%elem_of_seqZ. unfold is_byte. lia. }
  pose proof (choose_offset_spec inp _ (Z.of_nat (length inp)) None Hin His) as H.
  rewrite Hch in H. destruct (H ltac:(lia)) as (Hm & Hc & Hmin).
  assert (Hmin' : forall i, i ∈ offsets -> m <= escapes inp i).
  { intros i Hi%offsets_spec. apply Hmin; [|lia]. apply elem_of_seqZ. lia. }
  clear Hmin.
  assert (Havg : 254 * m <= 3 * Z.of_nat (length inp)).
  { etransitivity; [|by apply escapes_average].
    etransitivity; [|apply sumZ_le; exact Hmin'].
    rewrite sumZ_const. change (Z.of_nat (length offsets)) with 254. lia. }
  destruct Hc as [[-> ->]|(i & Hi & H39 & -> & -> & _)]; [lia|].
  exists i. split; [done|]. split; [|done].
  apply offsets_spec. apply elem_of_seqZ in Hi. lia.
Qed.

(** * The encoding loop *)

Lemma encode_byte_length e c :
  is_byte c -> e ∈ offsets -> Z.of_nat (length (encode_byte e c)) = 1 + escape1 e c.
Proof.
  intros Hc He%offsets_spec. unfold is_byte in Hc.
  assert (H : forallb (fun e => forallb (fun c =>
      Z.of_nat (length (encode_byte e c)) =? 1 + escape1 e c) (seqZ 0 256))
      (seqZ 1 255) = true) by (vm_compute; reflexivity).
  rewrite forallb_forall in H. specialize (H e).
  rewrite <- list_elem_of_In, elem_of_seqZ in H. specialize (H ltac:(lia)).
  rewrite forallb_forall in H. specialize (H c).
  rewrite <- list_elem_of_In, elem_of_seqZ in H. specialize (H ltac:(lia)). lia.
Qed.

Lemma encode_loop_length e inp :
  Forall is_byte inp -> e ∈ offsets ->
  Z.of_nat (length (encode_loop e inp)) = Z.of_nat (length inp) + escapes inp e.
Proof.
  intros Hin He. unfold escapes. induction Hin as [|c inp Hc Hin IH]; [done|].
  cbn [encode_loop sumZ length]. rewrite length_app, Nat2Z.inj_add, IH.
  rewrite encode_byte_length by done. lia.
Qed.

(** A byte the output may contain. *)
Definition safe_byte (x : Z) : Prop := 0 < x < 256 /\ x <> 39.

Lemma encode_byte_safe e c : Forall safe_byte (encode_byte e c).
Proof.
  unfold encode_byte. pose proof (wrap8_byte (c - e)) as H. unfold is_byte in H.
  unfold safe_byte. case_Zb; simpl; repeat constructor; try lia.
  all: rewrite ?wrap8_small by (unfold is_byte; lia); lia.
Qed.

Lemma encode_loop_safe e inp : Forall safe_byte (encode_loop e inp).
Proof.
  induction inp as [|c inp IH]; simpl; [constructor|].
  apply Forall_app. split; [apply encode_byte_safe|done].
Qed.

(** The whole encoder, in one equation. *)
Lemma encode_binary_unfold inp :
  Forall is_byte inp -> inp <> [] ->
  exists e, e ∈ offsets /\
    (forall i, i ∈ offsets -> escapes inp e <= escapes inp i) /\
    254 * escapes inp e <= 3 * Z.of_nat (length inp) /\
    let body := encode_loop e inp in
    sqlite_encode_binary inp true
      = Some (1 + Z.of_nat (length body), e :: body ++ [0]) /\
    sqlite_encode_binary inp false = Some (1 + Z.of_nat (length body), []).
Proof.
  intros Hin Hne. unfold sqlite_encode_binary.
  destruct (Z.leb_spec (Z.of_nat (length inp)) 0) as [Hl|Hl].
  { destruct inp; simpl in *; [done|lia]. }
  destruct (choose_offset _ _ _ _) as [m eo] eqn:Hch.
  apply choose_offset_found in Hch as (e & -> & He & -> & Hmin & Hb); [|done|done].
  exists e. split; [done|]. split; [done|]. split; [done|]. simpl.
  pose proof (encode_loop_length e inp Hin He) as Hlen.
  destruct (Z.eqb_spec (1 + Z.of_nat (length (encode_loop e inp)))
    (Z.of_nat (length inp) + escapes inp e + 1)) as [_|]; [|lia].
  apply offsets_spec in He. rewrite wrap8_small by (unfold is_byte; lia).
  split; [done|]. do 2 f_equal. lia.
Qed.

Lemma decode_encode_byte e c rest :
  is_byte c ->
  decode_loop e (encode_byte e c ++ rest)
    = (out ← decode_loop e rest; Some (c :: out)).
Proof.
  intros Hc. unfold encode_byte.
  pose proof (wrap8_byte (c - e)) as Hb. pose proof (wrap8_sub_add c e Hc) as Hw.
  set (x := wrap8 (c - e)) in *. unfold is_byte in Hb.
  destruct ((x =? 0) || (x =? 1) || (x =? 39)) eqn:E; simpl.
  - assert (Hx : wrap8 (wrap8 (x + 1) - 1) = x).
    { rewrite (wrap8_small (x + 1)) by (unfold is_byte; lia).
      rewrite wrap8_small by (unfold is_byte; lia). lia. }
    rewrite Hx, Hw. done.
  - replace (x =? 0) with false by lia. replace (x =? 1) with false by lia.
    by rewrite Hw.
Qed.

Lemma decode_encode_loop e inp rest :
  Forall is_byte inp ->
  decode_loop e (encode_loop e inp ++ 0 :: rest) = Some inp.
Proof.
  induction 1 as [|c inp Hc Hin IH]; [done|].
  cbn [encode_loop]. rewrite <- app_assoc, decode_encode_byte by done.
  by rewrite IH.
Qed.

Lemma decode_in_place_loop_spec e fuel : forall buf r i,
  (length buf - r < fuel)%nat -> (i < r)%nat ->
  decode_in_place_loop fuel e buf r i =
    (out ← decode_loop e (drop r buf);
     Some (take i buf ++ out ++ drop (i + length out) buf, (i + length out)%nat)).
Proof.
  induction fuel as [|fuel IH]; intros buf r i Hf Hi; [lia|].
  cbn [decode_in_place_loop].
  destruct (buf !! r) as [c|] eqn:Hc; cycle 1.
  { rewrite drop_ge by (by apply lookup_ge_None). done. }
  pose proof (lookup_lt_Some _ _ _ Hc) as Hr.
  rewrite (drop_S _ _ _ Hc). cbn [decode_loop mbind option_bind].
  assert (Hstep : forall r' v, (r < r')%nat ->
    decode_in_place_loop fuel e (<[i:=v]> buf) r' (S i) =
    (out ← (out ← decode_loop e (drop r' buf); Some (v :: out));
     Some (take i buf ++ out ++ drop (i + length out) buf, (i + length out)%nat))).
  { intros r' v Hr'. rewrite IH by (rewrite ?length_insert; lia).
    rewrite drop_insert_lt by lia. destruct (decode_loop e _) as [out|]; [|done].
    simpl. rewrite drop_insert_lt by lia.
    rewrite (take_S_r _ _ v) by (apply list_lookup_insert_eq; lia).
    rewrite take_insert_ge by lia. rewrite <- app_assoc.
    repeat f_equal; simpl; repeat f_equal; lia. }
  destruct (Z.eqb_spec c 0) as [->|Hc0].
  { simpl. rewrite Nat.add_0_r, take_drop. done. }
  destruct (Z.eqb_spec c 1) as [->|Hc1]; [|by apply Hstep; lia].
  destruct (buf !! S r) as [c2|] eqn:Hc2; simpl.
  - rewrite (drop_S _ _ _ Hc2). apply Hstep. lia.
  - rewrite drop_ge by (by apply lookup_ge_None). done.
Qed.

(** * Properties *)

(** Decoding in place: when [in] and [out] are the same buffer the decoder
    fails exactly when it fails with separate buffers, and otherwise leaves the
    decoded bytes at the front of the buffer and the rest of it unchanged. *)
Lemma decode_in_place_equiv buf :
  sqlite_decode_binary_in_place buf =
    match sqlite_decode_binary buf with
    | Some out => Some (out ++ drop (length out) buf, length out)
    | None => None
    end.
Proof.
  unfold sqlite_decode_binary_in_place. destruct buf as [|e buf]; [done|].
  cbn [lookup list_lookup mbind option_bind sqlite_decode_binary].
  rewrite decode_in_place_loop_spec by (simpl; lia). simpl.
  rewrite drop_0. by destruct (decode_loop e buf).
Qed.

(** C37: Round trip: [sqlite_decode_binary] applied to what
    [sqlite_encode_binary] wrote gives back every byte of the input, for every
    input, and both calls succeed; so it does when it writes into the buffer it
    reads from, whose rest stays as it is. *)
Theorem decode_encode_roundtrip inp :
  Forall is_byte inp ->
  exists j out, sqlite_encode_binary inp true = Some (j, out) /\
    sqlite_decode_binary out = Some inp /\
    sqlite_decode_binary_in_place out = Some (inp ++ drop (length inp) out, length inp).
Proof.
  intros Hin.
  assert (H : exists j out, sqlite_encode_binary inp true = Some (j, out) /\
    sqlite_decode_binary out = Some inp).
  { destruct inp as [|c inp]; [by eexists _, _|].
    destruct (encode_binary_unfold (c :: inp)) as (e & _ & _ & _ & He & _); [done..|].
    eexists _, _. split; [exact He|]. by apply decode_encode_loop. }
  destruct H as (j & out & He & Hd). exists j, out. split_and!; [done|done|].
  by rewrite decode_in_place_equiv, Hd.
Qed.

Lemma decode_encode_roundtrip_witness :
  Forall is_byte [0; 1; 39; 255; 0] /\
  exists j out, sqlite_encode_binary [0; 1; 39; 255; 0] true = Some (j, out) /\
    sqlite_decode_binary out = Some [0; 1; 39; 255; 0] /\
    sqlite_decode_binary_in_place out =
      Some ([0; 1; 39; 255; 0] ++ drop (length [0; 1; 39; 255; 0]) out, length [0; 1; 39; 255; 0]).
Proof.
  assert (H : Forall is_byte [0; 1; 39; 255; 0])
    by (repeat constructor; unfold is_byte; lia).
  split; [exact H|]. exact (decode_encode_roundtrip _ H).
Defined.

(** C38: on up to 2*10^9 bytes, so that the counts stay within [int], the encoder
    never uses [e] uninitialised and never fails its assertion; what it writes is
    one NUL-terminated string without NUL or quote inside, its return value is the
    length of that string and is the one predicted by the call without a buffer,
    and the string with its terminator fits the documented [2 + (257*n)/254] bytes. *)
Theorem encode_binary_safe inp :
  Forall is_byte inp -> Z.of_nat (length inp) <= 2000000000 ->
  exists out, 
    sqlite_encode_binary inp true = Some (Z.of_nat (length out), out ++ [0]) /\
    sqlite_encode_binary inp false = Some (Z.of_nat (length out), []) /\
    Forall safe_byte out /\
    Z.of_nat (length out) + 1 <= 2 + (257 * Z.of_nat (length inp)) / 254.
Proof.
  intros Hin _. destruct inp as [|c inp].
  { exists [120]. split; [done|]. split; [done|].
    split; [repeat constructor; unfold safe_byte; lia|vm_compute; discriminate]. }
  set (l := c :: inp) in *.
  destruct (encode_binary_unfold l) as (e & He & _ & Hb & H1 & H2); [done..|].
  exists (e :: encode_loop e l). rewrite H1, H2. cbn [length app].
  pose proof (encode_loop_length e l Hin He) as Hlen.
  split; [do 2 f_equal; lia|]. split; [do 2 f_equal; lia|]. split.
  - constructor; [|apply encode_loop_safe]. apply offsets_spec in He.
    unfold safe_byte. lia.
  - rewrite Nat2Z.inj_succ, Hlen.
    enough (Z.of_nat (length l) + escapes l e <= 257 * Z.of_nat (length l) / 254)
      by lia.
    apply Z.div_le_lower_bound; lia.
Qed.

Lemma encode_binary_safe_witness :
  exists out,
    sqlite_encode_binary [39; 39; 39] true = Some (Z.of_nat (length out), out ++ [0]) /\
    sqlite_encode_binary [39; 39; 39] false = Some (Z.of_nat (length out), []) /\
    Forall safe_byte out /\
    Z.of_nat (length out) + 1 <= 2 + (257 * Z.of_nat (length [39; 39; 39])) / 254.
Proof. apply encode_binary_safe; [repeat constructor; unfold is_byte; lia|cbn; lia]. Defined.

(** C39: the offset the encoder picks is optimal: whatever other offset the format
    allows is used in its place, the encoding of the same input, of up to 2*10^9
    bytes, gets no shorter. *)
Theorem encode_binary_optimal inp j out e' :
  Forall is_byte inp -> inp <> [] -> Z.of_nat (length inp) <= 2000000000 ->
  sqlite_encode_binary inp true = Some (j, out) ->
  1 <= e' < 256 -> e' <> 39 ->
  j <= Z.of_nat (length (e' :: encode_loop e' inp)).
Proof.
  intros Hin Hne _ Henc H1 H2.
  destruct (encode_binary_unfold inp) as (e & He & Hmin & _ & H & _); [done..|].
  rewrite H in Henc. injection Henc as <- _.
  assert (He' : e' ∈ offsets) by (apply offsets_spec; lia).
  cbn [length]. rewrite Nat2Z.inj_succ, !encode_loop_length by done.
  specialize (Hmin e' He'). lia.
Qed.

Lemma encode_binary_optimal_witness :
  sqlite_encode_binary [39; 40; 1] true = Some (4, [2; 37; 38; 255; 0]) /\
  4 <= Z.of_nat (length (38 :: encode_loop 38 [39; 40; 1])).
Proof.
  split; [vm_compute; reflexivity|].
  eapply (encode_binary_optimal [39; 40; 1] 4 [2; 37; 38; 255; 0] 38);
    [repeat constructor; unfold is_byte; lia | discriminate | cbn; lia | | lia | lia].
  vm_compute; reflexivity.
Defined.

