(* ===== verification/Random.v ===== *)
(** The RC4 pseudo-random number generator of
    [ext/sqlite-2.8.17/src/random.c].

    The static [prng] structure is a record that the functions thread; the seed
    [sqliteOsRandomSeed] delivers (256 [char]s, signed or not) is an argument. *)
From S2P Require Import Prelude.

Record prng := mk_prng {
  isInit : bool;
  pi : Z;
  pj : Z;
  ps : list Z
}.

(** The zero-initialised static structure. *)
Definition prng0 : prng := mk_prng false 0 0 (replicate 256 0).

(** One turn of the second seeding loop, at index [i]. *)
Definition seed_step (k : list Z) (st : Z * list Z) (i : Z) : Z * list Z :=
  let '(j, s) := st in
  let j := wrap8 (j + (s.[i] + k.[i])) in
  let t := s.[j] in
  let s := s.[j <- s.[i]] in
  (j, s.[i <- t]).

(** The [if( !prng.isInit )] block. *)
Definition prng_init (k : list Z) (p : prng) : prng :=
  if isInit p then p
  else
    let '(j, s) := fold_left (seed_step k) (seqZ 0 256) (0, seqZ 0 256) in
    mk_prng true 0 j s.

(** The part of [randomByte] after the initialisation. *)
Definition prng_next (p : prng) : prng * Z :=
  let i := wrap8 (pi p + 1) in
  let t := (ps p).[i] in
  let j := wrap8 (pj p + t) in
  let s := (ps p).[i <- (ps p).[j]] in
  let s := s.[j <- t] in
  let t := wrap8 (t + s.[i]) in
  (mk_prng (isInit p) i j s, s.[t]).

Definition randomByte (k : list Z) (p : prng) : prng * Z := prng_next (prng_init k p).

(** [while( N-- ){ *(zBuf++) = randomByte(); }] *)
Fixpoint sqliteRandomness (k : list Z) (N : nat) (p : prng) : prng * list Z :=
  match N with
  | O => (p, [])
  | S N' =>
      let '(p, b) := randomByte k p in
      let '(p, bs) := sqliteRandomness k N' p in
      (p, b :: bs)
  end.

(** * Invariant *)

(** An initialised generator holds a permutation of the 256 byte values. *)
Record prng_ok (p : prng) : Prop := {
  ok_i : is_byte (pi p);
  ok_j : is_byte (pj p);
  ok_perm : isInit p = true -> ps p ≡ₚ seqZ 0 256
}.

Lemma perm256_length s : s ≡ₚ seqZ 0 256 -> length s = 256%nat.
Proof. intros ->. reflexivity. Qed.

Lemma perm256_bytes s : s ≡ₚ seqZ 0 256 -> Forall is_byte s.
Proof.
  intros ->. apply Forall_forall. intros x Hx%elem_of_seqZ. unfold is_byte. lia.
Qed.

Lemma aswap_256 s i j :
  s ≡ₚ seqZ 0 256 -> is_byte i -> is_byte j -> aswap s i j ≡ₚ seqZ 0 256.
Proof.
  intros Hs Hi Hj. pose proof (perm256_length s Hs) as Hl. unfold is_byte in *.
  rewrite aswap_perm; [done|lia|lia].
Qed.

(** Both loops exchange two cells. *)
Lemma seed_step_swap k j s i :
  seed_step k (j, s) i =
    let j' := wrap8 (j + (s.[i] + k.[i])) in (j', aswap s i j').
Proof. reflexivity. Qed.

Lemma seed_loop_perm k ofs j s :
  Forall is_byte ofs -> is_byte j -> s ≡ₚ seqZ 0 256 ->
  let '(j', s') := fold_left (seed_step k) ofs (j, s) in
  is_byte j' /\ s' ≡ₚ seqZ 0 256.
Proof.
  intros Ho. revert j s. induction Ho as [|i ofs Hi Ho IH]; intros j s Hj Hs; [done|].
  cbn [fold_left]. rewrite seed_step_swap. apply IH; [apply wrap8_byte|].
  apply aswap_256; [done..|apply wrap8_byte].
Qed.

Lemma prng_init_ok k p : prng_ok p -> prng_ok (prng_init k p) /\ isInit (prng_init k p) = true.
Proof.
  intros Hp. unfold prng_init. destruct (isInit p) eqn:E; [done|].
  pose proof (seed_loop_perm k (seqZ 0 256) 0 (seqZ 0 256)) as H.
  destruct (fold_left _ _ _) as [j s].
  destruct H as [Hj Hs]; [|unfold is_byte; lia|done|].
  { apply Forall_forall. intros x Hx%elem_of_seqZ. unfold is_byte. lia. }
  split; [|done]. constructor; simpl; [unfold is_byte; lia|done|done].
Qed.

(** The generator step in closed form. *)
Lemma prng_next_swap p :
  prng_next p =
    let i := wrap8 (pi p + 1) in
    let j := wrap8 (pj p + (ps p).[i]) in
    let s := aswap (ps p) j i in
    (mk_prng (isInit p) i j s, s.[wrap8 ((ps p).[i] + s.[i])]).
Proof. reflexivity. Qed.

Lemma prng_next_ok p :
  prng_ok p -> isInit p = true ->
  prng_ok (prng_next p).1 /\ isInit (prng_next p).1 = true /\ is_byte (prng_next p).2.
Proof.
  intros [Hi Hj Hs] Hin. specialize (Hs Hin). rewrite prng_next_swap. simpl.
  assert (Hs' := aswap_256 (ps p) (wrap8 (pj p + (ps p).[wrap8 (pi p + 1)]))
    (wrap8 (pi p + 1)) Hs (wrap8_byte _) (wrap8_byte _)).
  split; [constructor; simpl; auto with cmodel|]. split; [done|].
  apply aget_byte. by apply perm256_bytes.
Qed.

Lemma randomByte_ok k p :
  prng_ok p ->
  prng_ok (randomByte k p).1 /\ isInit (randomByte k p).1 = true /\
  is_byte (randomByte k p).2.
Proof. intros Hp. apply prng_next_ok; by apply prng_init_ok. Qed.

(** * Properties *)

(** C40: Every state the generator reaches from the static zero state, whatever
    the seed and however many bytes were drawn, still holds a permutation of the
    256 byte values, and exactly the requested number of values, each a byte, is
    delivered. *)
Theorem sqliteRandomness_ok k N p :
  prng_ok p ->
  let '(p', bs) := sqliteRandomness k N p in
  prng_ok p' /\ length bs = N /\ Forall is_byte bs /\
  (N <> O -> ps p' ≡ₚ seqZ 0 256).
Proof.
  revert p. induction N as [|N IH]; intros p Hp; cbn [sqliteRandomness].
  { split; [done|]. split; [done|]. split; [by constructor|done]. }
  destruct (randomByte_ok k p Hp) as (Hok & Hin & Hb).
  destruct (randomByte k p) as [p1 b]. cbn [fst snd] in *.
  specialize (IH p1 Hok). pose proof (ok_perm _ Hok Hin) as Hperm1.
  destruct (sqliteRandomness k N p1) as [p2 bs] eqn:E.
  destruct IH as (? & Hlen & ? & Hperm). split; [done|].
  split; [simpl; lia|]. split; [by constructor|intros _].
  destruct N; [|by apply Hperm]. injection E as <- _. done.
Qed.

Lemma sqliteRandomness_ok_witness :
  let '(p', bs) := sqliteRandomness [7; -3] 3 prng0 in
  prng_ok p' /\ length bs = 3%nat /\ Forall is_byte bs /\
  (3%nat <> O -> ps p' ≡ₚ seqZ 0 256).
Proof.
  apply sqliteRandomness_ok. constructor; simpl; unfold is_byte; [lia|lia|done].
Defined.

(** The generator loses no state: two initialised states that a step takes
    to the same state are equal, so no cycle of the generator is ever entered
    from outside. *)
Lemma prng_next_injective p q :
  prng_ok p -> prng_ok q -> isInit p = true -> isInit q = true ->
  (prng_next p).1 = (prng_next q).1 -> p = q.
Proof.
  intros [Hpi Hpj Hps] [Hqi Hqj Hqs] Hp Hq.
  specialize (Hps Hp). specialize (Hqs Hq).
  pose proof (perm256_length _ Hps) as Hlp. pose proof (perm256_length _ Hqs) as Hlq.
  rewrite !prng_next_swap. simpl. intros [= Hin Hi Hj Hs].
  assert (Hieq : pi p = pi q).
  { unfold is_byte, wrap8 in *. revert Hi. Z.to_euclidean_division_equations. lia. }
  pose proof (wrap8_byte (pi q + 1)) as Bi.
  pose proof (wrap8_byte (pj q + (ps q).[wrap8 (pi q + 1)])) as Bj.
  rewrite Hieq in *. rewrite Hj in Hs.
  assert (Hseq : ps p = ps q).
  { unfold is_byte in Bi, Bj.
    rewrite <- (aswap_involutive (ps p) _ _ ltac:(rewrite Hlp; exact Bj)
      ltac:(rewrite Hlp; exact Bi)), Hs.
    apply aswap_involutive; lia. }
  rewrite Hseq in Hj.
  assert (Hjeq : pj p = pj q).
  { unfold is_byte, wrap8 in *. revert Hj. Z.to_euclidean_division_equations. lia. }
  destruct p, q; simpl in *; congruence.
Qed.

Lemma prng_next_injective_witness :
  mk_prng true 3 5 (seqZ 0 256) = mk_prng true 3 5 (seqZ 0 (250 + 6)).
Proof.
  assert (Hok : prng_ok (mk_prng true 3 5 (seqZ 0 256))).
  { constructor; simpl; unfold is_byte; [lia|lia|done]. }
  exact (prng_next_injective _ _ Hok Hok eq_refl eq_refl eq_refl).
Defined.
