(* ===== verification/Util.v ===== *)
(** The string utilities of [util.c]: case folding and the hash of keywords, the
    case-insensitive comparisons, the tests that classify numeric text, and the
    in-place removal of quotes.  Memory a [char*] points to is the list of its
    bytes; past the end of the list it holds terminators. *)
From S2P Require Import Prelude.

(** * Standard library functions the file calls *)

Fixpoint strlen (z : list Z) : Z :=
  match z with
  | [] => 0
  | c :: z' => if c =? 0 then 0 else 1 + strlen z'
  end.

(** [strcmp] and [memcmp]: the difference of the first bytes that differ. *)
Fixpoint strcmp (a b : list Z) : Z :=
  match a with
  | [] => - chr b
  | c :: a' => if negb (c =? 0) && (c =? chr b) then strcmp a' (tail b) else c - chr b
  end.

Fixpoint memcmp (a b : list Z) (n : nat) : Z :=
  match n with
  | O => 0
  | S n' => if chr a =? chr b then memcmp (tail a) (tail b) n' else chr a - chr b
  end.

Definition isdigit (c : Z) : bool := (48 <=? c) && (c <=? 57).

(** The string a pointer into memory points to. *)
Fixpoint cstr (z : list Z) : list Z :=
  match z with
  | [] => []
  | c :: z' => if c =? 0 then [] else c :: cstr z'
  end.

(** * Case folding and hashing *)

Definition UpperToLower : list Z :=
  [0; 1; 2; 3; 4; 5; 6; 7; 8; 9; 10; 11; 12; 13; 14; 15;
   16; 17; 18; 19; 20; 21; 22; 23; 24; 25; 26; 27; 28; 29; 30; 31;
   32; 33; 34; 35; 36; 37; 38; 39; 40; 41; 42; 43; 44; 45; 46; 47;
   48; 49; 50; 51; 52; 53; 54; 55; 56; 57; 58; 59; 60; 61; 62; 63;
   64; 97; 98; 99; 100; 101; 102; 103; 104; 105; 106; 107; 108; 109; 110; 111;
   112; 113; 114; 115; 116; 117; 118; 119; 120; 121; 122; 91; 92; 93; 94; 95;
   96; 97; 98; 99; 100; 101; 102; 103; 104; 105; 106; 107; 108; 109; 110; 111;
   112; 113; 114; 115; 116; 117; 118; 119; 120; 121; 122; 123; 124; 125; 126; 127;
   128; 129; 130; 131; 132; 133; 134; 135; 136; 137; 138; 139; 140; 141; 142; 143;
   144; 145; 146; 147; 148; 149; 150; 151; 152; 153; 154; 155; 156; 157; 158; 159;
   160; 161; 162; 163; 164; 165; 166; 167; 168; 169; 170; 171; 172; 173; 174; 175;
   176; 177; 178; 179; 180; 181; 182; 183; 184; 185; 186; 187; 188; 189; 190; 191;
   192; 193; 194; 195; 196; 197; 198; 199; 200; 201; 202; 203; 204; 205; 206; 207;
   208; 209; 210; 211; 212; 213; 214; 215; 216; 217; 218; 219; 220; 221; 222; 223;
   224; 225; 226; 227; 228; 229; 230; 231; 232; 233; 234; 235; 236; 237; 238; 239;
   240; 241; 242; 243; 244; 245; 246; 247; 248; 249; 250; 251; 252; 253; 254; 255].

Fixpoint hash_loop (n : nat) (h : Z) (z : list Z) : Z :=
  match n with
  | O => h
  | S n' =>
      hash_loop n' (Z.lxor (Z.lxor (wrap32 (Z.shiftl h 3)) h) (UpperToLower.[chr z])) (tail z)
  end.

Definition sqliteHashNoCase (z : list Z) (n : Z) : Z :=
  let n := if n <=? 0 then strlen z else n in
  Z.land (hash_loop (Z.to_nat n) 0 z) 2147483647.

Fixpoint sqliteStrICmp (a b : list Z) : Z :=
  match a with
  | [] => UpperToLower.[0] - UpperToLower.[chr b]
  | c :: a' =>
      if negb (c =? 0) && (UpperToLower.[c] =? UpperToLower.[chr b])
      then sqliteStrICmp a' (tail b)
      else UpperToLower.[c] - UpperToLower.[chr b]
  end.

Fixpoint strnicmp_loop (N : nat) (a b : list Z) : Z :=
  match N with
  | O => 0
  | S N' =>
      if negb (chr a =? 0) && (UpperToLower.[chr a] =? UpperToLower.[chr b])
      then strnicmp_loop N' (tail a) (tail b)
      else UpperToLower.[chr a] - UpperToLower.[chr b]
  end.

Definition sqliteStrNICmp (a b : list Z) (N : Z) : Z := strnicmp_loop (Z.to_nat N) a b.

(** * Numeric text *)

(** [while( isdigit( *z) ){ z++; }] *)
Fixpoint skip_digits (z : list Z) : list Z :=
  match z with
  | [] => []
  | c :: z' => if isdigit c then skip_digits z' else z
  end.

Definition skip_sign (z : list Z) : list Z :=
  if (chr z =? 45) || (chr z =? 43) then tail z else z.

Definition sqliteIsNumber (z : list Z) : bool :=
  let z := skip_sign z in
  if negb (isdigit (chr z)) then false else
  let z := skip_digits (tail z) in
  let fraction :=
    if chr z =? 46 then
      if negb (isdigit (chr (tail z))) then None else Some (skip_digits (tail z))
    else Some z in
  match fraction with
  | None => false
  | Some z =>
      if (chr z =? 101) || (chr z =? 69) then
        let z := skip_sign (tail z) in
        if negb (isdigit (chr z)) then false else chr (skip_digits z) =? 0
      else chr z =? 0
  end.

(** [for(i=0; (c=zNum[i])>='0' && c<='9'; i++){}] *)
Fixpoint count_digits (z : list Z) : Z :=
  match z with
  | [] => 0
  | c :: z' => if isdigit c then 1 + count_digits z' else 0
  end.

Definition max_int_text : list Z := [50; 49; 52; 55; 52; 56; 51; 54; 52; 55].

Definition sqliteFitsIn32Bits (zNum : list Z) : bool :=
  let zNum := skip_sign zNum in
  let i := count_digits zNum in
  (i <? 10) || ((i =? 10) && (memcmp zNum max_int_text 10 <=? 0)).

(** * Quotes *)

(** The loop of [sqliteDequote] on the buffer [z]. *)
Fixpoint dequote_loop (fuel : nat) (quote i j : Z) (z : list Z) : list Z :=
  match fuel with
  | O => z
  | S fuel' =>
      if z.[i] =? 0 then z
      else if z.[i] =? quote then
        if z.[i + 1] =? quote
        then dequote_loop fuel' quote (i + 2) (j + 1) (z.[j <- quote])
        else z.[j <- 0]
      else dequote_loop fuel' quote (i + 1) (j + 1) (z.[j <- z.[i]])
  end.

Definition sqliteDequote (z : list Z) : list Z :=
  let quote := z.[0] in
  if (quote =? 39) || (quote =? 34) then dequote_loop (length z) quote 1 0 z
  else if quote =? 91 then dequote_loop (length z) 93 1 0 z
  else z.

(** * Lemmas *)

Definition lower (c : Z) : Z := UpperToLower.[c].

(** A fact about every byte is checked by running through the bytes. *)
Lemma forall_bytes (P : Z -> bool) :
  forallb (fun n => P (Z.of_nat n)) (seq 0 256) = true -> forall c, 0 <= c < 256 -> P c = true.
Proof.
  intros H c Hc. rewrite forallb_forall in H.
  specialize (H (Z.to_nat c)). rewrite Z2Nat.id in H by lia. apply H.
  apply in_seq. lia.
Qed.

(** Folding moves the capitals to the small letters and nothing else. *)
Lemma lower_spec c : 0 <= c < 256 -> lower c = if (65 <=? c) && (c <=? 90) then c + 32 else c.
Proof.
  intros Hc. apply Z.eqb_eq.
  apply (forall_bytes (fun c => lower c =? if (65 <=? c) && (c <=? 90) then c + 32 else c));
    [vm_compute; reflexivity|done].
Qed.

Lemma lower_zero c : 0 <= c < 256 -> lower c = 0 -> c = 0.
Proof. intros Hc. rewrite lower_spec by done. case_Zb; simpl; lia. Qed.

Lemma lower_byte c : 0 <= c < 256 -> 0 <= lower c < 256.
Proof. intros Hc. rewrite lower_spec by done. case_Zb; simpl; lia. Qed.

Lemma lower_idemp c : 0 <= c < 256 -> lower (lower c) = lower c.
Proof.
  intros Hc. apply Z.eqb_eq.
  apply (forall_bytes (fun c => lower (lower c) =? lower c)); [vm_compute; reflexivity|done].
Qed.

Lemma lower_cstring a : cstring a -> cstring (map lower a).
Proof.
  intros H. apply Forall_map. eapply Forall_impl; [exact H|].
  intros c Hc. unfold cchar in *. pose proof (lower_byte c). pose proof (lower_zero c). simpl. lia.
Qed.

Lemma chr_byte a : cstring a -> 0 <= chr a < 256.
Proof. destruct a as [|c a]; simpl; [lia|]. intros [Hc _]%Forall_cons_1. unfold cchar in Hc. lia. Qed.

Lemma chr_lower a : chr (map lower a) = lower (chr a).
Proof. by destruct a. Qed.

Lemma cstring_tl a : cstring a -> cstring (tail a).
Proof. destruct a; [done|]. apply cstring_tail. Qed.
#[export] Hint Resolve cstring_tl chr_byte lower_cstring : cmodel.

Lemma strcmp_zero a : forall b, cstring a -> cstring b -> strcmp a b = 0 <-> a = b.
Proof.
  induction a as [|c a IH]; intros b Ha Hb; cbn [strcmp].
  - split; [|by intros <-]. intros H. symmetry. apply chr_zero; [done|lia].
  - destruct (Z.eqb_spec c 0) as [->|Hc].
    { apply Forall_cons_1 in Ha as [Ha _]. unfold cchar in Ha. lia. }
    destruct b as [|d b]; cbn [chr tail negb andb].
    { split; [|done]. case_Zb; [done|lia]. }
    destruct (Z.eqb_spec c d) as [->|Hd].
    + rewrite IH by (by eapply cstring_tail). split; [by intros ->|by intros [= ->]].
    + split; [lia|intros [= ]; lia].
Qed.

Lemma strcmp_antisym a : forall b, cstring a -> cstring b -> strcmp b a = - strcmp a b.
Proof.
  induction a as [|c a IH]; intros b Ha Hb.
  - destruct b as [|d b]; cbn [strcmp chr tail]; [done|].
    pose proof (Forall_cons_1 _ _ _ Hb) as [Hd _]. unfold cchar in Hd.
    case_Zb; cbn [negb andb]; lia.
  - destruct b as [|d b]; cbn [strcmp chr tail].
    + pose proof (Forall_cons_1 _ _ _ Ha) as [Hc _]. unfold cchar in Hc.
      case_Zb; cbn [negb andb]; lia.
    + pose proof (Forall_cons_1 _ _ _ Ha) as [Hc _]. pose proof (Forall_cons_1 _ _ _ Hb) as [Hd _].
      unfold cchar in Hc, Hd. case_Zb; cbn [negb andb]; try lia.
      apply IH; by eapply cstring_tail.
Qed.

Lemma hash_loop_ext n : forall h a b,
  map lower (take n a) = map lower (take n b) -> hash_loop n h a = hash_loop n h b.
Proof.
  induction n as [|n IH]; intros h a b H; [done|]. cbn [hash_loop].
  destruct a as [|c a], b as [|d b]; try done; simpl in H.
  injection H as Hc H. fold (lower c) (lower d) in *. cbn [chr tail].
  unfold lower in Hc. rewrite Hc. by apply IH.
Qed.

(** A name as a hash key: a NUL can only be its last byte. *)
Fixpoint nocase_key (k : list Z) : Prop :=
  match k with
  | [] => True
  | [c] => 0 <= c < 256
  | c :: k' => cchar c /\ nocase_key k'
  end.

Lemma nocase_key_cons c k : nocase_key (c :: k) -> 0 <= c < 256 /\ (c = 0 -> k = []) /\ nocase_key k.
Proof.
  destruct k as [|d k]; simpl; [done|]. unfold cchar. intros [Hc Hk].
  split; [lia|]. split; [lia|done].
Qed.

Lemma cstring_key s : cstring s -> nocase_key (s ++ [0]).
Proof.
  induction s as [|c s IH]; intros H; simpl; [lia|].
  apply Forall_cons_1 in H as [Hc H]. specialize (IH H).
  destruct (s ++ [0]) eqn:E; [by destruct s|]. done.
Qed.

Lemma strnicmp_zero n : forall a b,
  length a = n -> length b = n -> nocase_key a -> nocase_key b ->
  strnicmp_loop n a b = 0 <-> map lower a = map lower b.
Proof.
  induction n as [|n IH]; intros a b Ha Hb Ka Kb.
  - destruct a, b; done.
  - destruct a as [|c a], b as [|d b]; try done. injection Ha as Ha. injection Hb as Hb.
    apply nocase_key_cons in Ka as (Hc & Hca & Ka). apply nocase_key_cons in Kb as (Hd & Hdb & Kb).
    cbn [strnicmp_loop chr tail]. fold (lower c) (lower d).
    destruct (Z.eqb_spec c 0) as [->|Hc0]; cbn [negb andb].
    + rewrite (Hca eq_refl) in *. destruct b; [|by subst n].
      change (lower 0) with 0. simpl. change (lower 0) with 0.
      split; [intros; f_equal; lia|intros [= ]; lia].
    + destruct (Z.eqb_spec (lower c) (lower d)) as [He|He].
      * rewrite IH by done. simpl. split; [by intros ->; rewrite He|by intros [= _ ->]].
      * simpl. split; [lia|by intros [= ]].
Qed.

Lemma strICmp_lower a : forall b, cstring a -> cstring b ->
  sqliteStrICmp a b = strcmp (map lower a) (map lower b).
Proof.
  induction a as [|c a IH]; intros b Ha Hb; cbn [sqliteStrICmp map strcmp].
  - rewrite chr_lower. unfold lower. change (UpperToLower.[0]) with 0. lia.
  - apply Forall_cons_1 in Ha as [Hc Ha]. unfold cchar in Hc.
    rewrite chr_lower. fold (lower c) (lower (chr b)).
    destruct (Z.eqb_spec c 0); [lia|]. destruct (Z.eqb_spec (lower c) 0) as [H0|_].
    { apply lower_zero in H0; lia. }
    cbn [negb andb]. case_Zb; [|done]. rewrite IH by auto with cmodel. by destruct b.
Qed.

(** ** Digits *)

Definition digits (s : list Z) : Prop := s <> [] /\ Forall (fun c => isdigit c = true) s.

Definition dec_value (ds : list Z) : Z := fold_left (fun v c => v * 10 + (c - 48)) ds 0.

Lemma isdigit_spec c : isdigit c = true <-> 48 <= c <= 57.
Proof. unfold isdigit. rewrite andb_true_iff, !Z.leb_le. lia. Qed.

Lemma skip_digits_app ds r :
  Forall (fun c => isdigit c = true) ds -> isdigit (chr r) = false -> skip_digits (ds ++ r) = r.
Proof.
  intros H Hr. induction H as [|c ds Hc _ IH]; simpl.
  - destruct r as [|c r]; [done|]. simpl in *. by rewrite Hr.
  - by rewrite Hc.
Qed.

Lemma skip_digits_split z : exists ds,
  z = ds ++ skip_digits z /\ Forall (fun c => isdigit c = true) ds /\
  isdigit (chr (skip_digits z)) = false.
Proof.
  induction z as [|c z (ds & E & H & Hr)]; [by exists []|].
  simpl. destruct (isdigit c) eqn:Hc.
  - exists (c :: ds). split; [simpl; congruence|]. split; [by constructor|done].
  - exists []. done.
Qed.

Lemma count_digits_app ds r :
  Forall (fun c => isdigit c = true) ds -> isdigit (chr r) = false ->
  count_digits (ds ++ r) = Z.of_nat (length ds).
Proof.
  intros H Hr. induction H as [|c ds Hc _ IH]; cbn [app count_digits length].
  - destruct r as [|c r]; [done|]. simpl in *. by rewrite Hr.
  - rewrite Hc. lia.
Qed.

Lemma dec_value_app ds : forall v, 
  fold_left (fun v c => v * 10 + (c - 48)) ds v = v * 10 ^ Z.of_nat (length ds) + dec_value ds.
Proof.
  unfold dec_value. induction ds as [|c ds IH]; intros v; [simpl; lia|].
  cbn [fold_left length]. rewrite IH, (IH (0 * 10 + (c - 48))).
  rewrite Nat2Z.inj_succ, Z.pow_succ_r by lia. lia.
Qed.

Lemma dec_value_cons c ds :
  dec_value (c :: ds) = (c - 48) * 10 ^ Z.of_nat (length ds) + dec_value ds.
Proof. unfold dec_value at 1. cbn [fold_left]. by rewrite dec_value_app. Qed.

Lemma dec_value_bound ds : Forall (fun c => isdigit c = true) ds ->
  0 <= dec_value ds < 10 ^ Z.of_nat (length ds).
Proof.
  induction 1 as [|c ds Hc _ IH]; [unfold dec_value; simpl; lia|].
  rewrite dec_value_cons. cbn [length]. rewrite Nat2Z.inj_succ, Z.pow_succ_r by lia.
  apply isdigit_spec in Hc. nia.
Qed.

(** [memcmp] on digits of the same length compares the numbers. *)
Lemma memcmp_digits a : forall b r,
  Forall (fun c => isdigit c = true) a -> Forall (fun c => isdigit c = true) b ->
  length a = length b ->
  (memcmp (a ++ r) b (length b) <= 0 <-> dec_value a <= dec_value b).
Proof.
  induction a as [|c a IH]; intros [|d b] r Ha Hb Hl; try done.
  apply Forall_cons_1 in Ha as [Hc Ha]. apply Forall_cons_1 in Hb as [Hd Hb].
  injection Hl as Hl. cbn [app length memcmp chr tail].
  rewrite !dec_value_cons, Hl.
  pose proof (dec_value_bound a Ha) as Ba. pose proof (dec_value_bound b Hb) as Bb. rewrite Hl in Ba.
  apply isdigit_spec in Hc, Hd.
  destruct (Z.eqb_spec c d) as [->|Hne]; [rewrite IH by done; lia|]. nia.
Qed.

(** ** The grammar of numbers *)

Definition sign_text (s : list Z) : Prop := s = [] \/ s = [43] \/ s = [45].

Definition fraction_text (s : list Z) : Prop := s = [] \/ exists ds, s = 46 :: ds /\ digits ds.

Definition exponent_text (s : list Z) : Prop :=
  s = [] \/ exists e sg ds, s = e :: sg ++ ds /\ (e = 101 \/ e = 69) /\ sign_text sg /\ digits ds.

Definition number_text (s : list Z) : Prop :=
  exists sg ds fr ex, s = sg ++ ds ++ fr ++ ex /\
    sign_text sg /\ digits ds /\ fraction_text fr /\ exponent_text ex.

Lemma skip_sign_split z : exists sg, z = sg ++ skip_sign z /\ sign_text sg.
Proof.
  unfold skip_sign. destruct z as [|c z]; [by exists []; split; [|left]|]. cbn [chr tail].
  destruct (Z.eqb_spec c 45) as [->|]; [by exists [45]; split; [|right; right]|].
  destruct (Z.eqb_spec c 43) as [->|]; [by exists [43]; split; [|right; left]|].
  by exists []; split; [|left].
Qed.

Lemma skip_sign_app sg z :
  sign_text sg -> isdigit (chr z) = true -> skip_sign (sg ++ z) = z.
Proof.
  intros [->|[->| ->]] H; [|done..]. apply isdigit_spec in H. unfold skip_sign. simpl.
  case_Zb; simpl; (done || lia).
Qed.

(** One or more digits, taken off the front as the code does. *)
Lemma digits_taken z : isdigit (chr z) = true ->
  exists ds, z = ds ++ skip_digits (tail z) /\ digits ds.
Proof.
  destruct z as [|c z]; [done|]. cbn [chr tail]. intros Hc.
  destruct (skip_digits_split z) as (ds & E & H & _).
  exists (c :: ds). split; [simpl; congruence|]. split; [done|by constructor].
Qed.

Lemma digits_skip ds r : digits ds -> isdigit (chr r) = false ->
  isdigit (chr (ds ++ r)) = true /\ skip_digits (tail (ds ++ r)) = r.
Proof.
  intros [Hne H] Hr. destruct ds as [|c ds]; [done|]. apply Forall_cons_1 in H as [Hc H].
  split; [done|]. by apply skip_digits_app.
Qed.

Lemma exponent_tested z : cstring z ->
  (if (chr z =? 101) || (chr z =? 69) then
     let z := skip_sign (tail z) in
     if negb (isdigit (chr z)) then false else chr (skip_digits z) =? 0
   else chr z =? 0) = true <-> exponent_text z.
Proof.
  intros Hz. destruct ((chr z =? 101) || (chr z =? 69)) eqn:He.
  - destruct z as [|e z]; [done|]. cbn [chr tail] in *. cbv zeta.
    assert (He' : e = 101 \/ e = 69) by (apply orb_true_iff in He; rewrite !Z.eqb_eq in He; done).
    split.
    + intros H. destruct (isdigit (chr (skip_sign z))) eqn:Hd; [cbn [negb] in H|done].
      destruct (skip_sign_split z) as (sg & Ez & Hsg).
      destruct (skip_digits_split (skip_sign z)) as (ds & Ed & Hds & _).
      assert (Hr : skip_digits (skip_sign z) = []).
      { apply chr_zero; [|by apply Z.eqb_eq].
        apply cstring_tail in Hz. unfold cstring in *. rewrite Ez, Ed in Hz.
        by apply Forall_app in Hz as [_ [_ Hz]%Forall_app]. }
      rewrite Hr, app_nil_r in Ed. right. exists e, sg, ds.
      repeat split; [congruence|done|done| |done]. intros ->. by rewrite Ed in Hd.
    + intros [?|(e' & sg & ds & [= <- ->] & _ & Hsg & Hne & Hds)]; [done|].
      assert (Hd : isdigit (chr ds) = true) by (destruct ds; [done|by apply Forall_cons_1 in Hds as [? _]]).
      rewrite (skip_sign_app sg ds Hsg Hd), Hd. cbn [negb].
      rewrite <-(app_nil_r ds), skip_digits_app by done. done.
  - split.
    + intros H%Z.eqb_eq. left. by apply chr_zero.
    + intros [->|(e & sg & ds & -> & [->| ->] & _)]; done.
Qed.

Lemma exponent_text_head z : exponent_text z -> isdigit (chr z) = false /\ chr z <> 46.
Proof. by intros [->|(e & sg & ds & -> & [->| ->] & _)]. Qed.

(** * Theorems *)

(** C35: [sqliteIsNumber] accepts exactly the numbers of the grammar: an optional
    sign, digits, an optional fraction and an optional exponent. *)
Theorem isNumber_grammar z : cstring z -> sqliteIsNumber z = true <-> number_text z.
Proof.
  intros Hz. unfold sqliteIsNumber. cbv zeta. split.
  - intros H. destruct (skip_sign_split z) as (sg & Ez & Hsg).
    destruct (isdigit (chr (skip_sign z))) eqn:Hd; [cbn [negb] in H|done].
    destruct (digits_taken _ Hd) as (ds & Ed & Hds).
    set (r := skip_digits (tail (skip_sign z))) in *.
    assert (Hr : cstring r).
    { unfold cstring in *. rewrite Ez, Ed in Hz. by apply Forall_app in Hz as [_ [_ Hz]%Forall_app]. }
    destruct (Z.eqb_spec (chr r) 46) as [Hp|_].
    + destruct r as [|p r']; [done|]. cbn [chr tail] in *. subst p.
      destruct (isdigit (chr r')) eqn:Hf; [cbn [negb] in H|done].
      destruct (skip_digits_split r') as (fs & Ef & Hfs & _).
      apply exponent_tested in H.
      2: { apply cstring_tail in Hr. unfold cstring in *. rewrite Ef in Hr. by apply Forall_app in Hr as [_ ?]. }
      exists sg, ds, (46 :: fs), (skip_digits r').
      repeat split; [|done|apply Hds..| |done].
      * rewrite Ez at 1. rewrite Ed. simpl. congruence.
      * right. exists fs. repeat split; [|done]. intros ->. simpl in Ef. rewrite <-Ef in H.
        apply exponent_text_head in H as [H _]. congruence.
    + apply exponent_tested in H; [|done]. exists sg, ds, [], r.
      repeat split; [|done|apply Hds..|by left|done]. rewrite Ez at 1. by rewrite Ed.
  - intros (sg & ds & fr & ex & -> & Hsg & Hds & Hfr & Hex).
    destruct (exponent_text_head _ Hex) as [Hx Hx'].
    assert (Hd : isdigit (chr (fr ++ ex)) = false) by (by destruct Hfr as [->|(fs & -> & _)]).
    destruct (digits_skip ds _ Hds Hd) as [H1 H2].
    rewrite (skip_sign_app sg _ Hsg H1), H1, H2. cbn [negb].
    assert (Hc : cstring ex) by (unfold cstring in *; by apply Forall_app in Hz as [_ [_ [_ ?]%Forall_app]%Forall_app]).
    destruct Hfr as [->|(fs & -> & Hfs)]; cbn [app chr tail].
    + destruct (Z.eqb_spec (chr ex) 46); [done|]. by apply exponent_tested.
    + rewrite Z.eqb_refl. destruct (digits_skip fs ex Hfs Hx) as [H3 H4].
      rewrite H3. cbn [negb]. rewrite skip_digits_app by (apply Hfs || done).
      by apply exponent_tested.
Qed.

Lemma isNumber_grammar_witness :
  cstring (bytes_of_string "-12.5e+3") /\
  (sqliteIsNumber (bytes_of_string "-12.5e+3") = true <-> number_text (bytes_of_string "-12.5e+3")).
Proof.
  assert (H : cstring (bytes_of_string "-12.5e+3"))
    by (repeat constructor; unfold cchar; simpl; lia).
  split; [exact H|]. exact (isNumber_grammar _ H).
Defined.

(** [sqliteFitsIn32Bits] answers yes exactly when the number at the start of
    the text has at most ten digits and a magnitude of at most 2147483647; so a
    yes is always right, and a no is right for numbers without leading zeros. *)
Theorem fitsIn32Bits_correct sg ds r :
  sign_text sg -> digits ds -> isdigit (chr r) = false ->
  (sqliteFitsIn32Bits (sg ++ ds ++ r) = true <->
     (length ds <= 10)%nat /\ dec_value ds <= 2147483647) /\
  (chr ds <> 48 -> sqliteFitsIn32Bits (sg ++ ds ++ r) = true <-> dec_value ds <= 2147483647).
Proof.
  intros Hsg Hds Hr. destruct (digits_skip ds r Hds Hr) as [Hd _].
  unfold sqliteFitsIn32Bits. rewrite (skip_sign_app sg _ Hsg Hd). destruct Hds as [Hne Hds].
  rewrite count_digits_app by done.
  pose proof (dec_value_bound ds Hds) as Hb.
  assert (Hlen : forall n, (length ds <= n)%nat -> dec_value ds < 10 ^ Z.of_nat n).
  { intros n Hn. eapply Z.lt_le_trans; [apply Hb|]. apply Z.pow_le_mono_r; lia. }
  assert (Hten : length ds = 10%nat ->
    (memcmp (ds ++ r) max_int_text 10 <=? 0) = true <-> dec_value ds <= 2147483647).
  { intros H10. rewrite Z.leb_le. change 2147483647 with (dec_value max_int_text).
    apply (memcmp_digits ds max_int_text r); [done| |done].
    unfold max_int_text. by repeat constructor. }
  assert (Hall : (Z.of_nat (length ds) <? 10) || ((Z.of_nat (length ds) =? 10) &&
            (memcmp (ds ++ r) max_int_text 10 <=? 0)) = true <->
          (length ds <= 10)%nat /\ dec_value ds <= 2147483647).
  { destruct (Z.ltb_spec (Z.of_nat (length ds)) 10); cbn [orb].
    - split; [intros _|done]. split; [lia|]. specialize (Hlen 9%nat). lia.
    - destruct (Z.eqb_spec (Z.of_nat (length ds)) 10); cbn [andb]; [rewrite Hten by lia|].
      + split; [lia|tauto].
      + split; [done|lia]. }
  split; [done|]. intros H0. rewrite Hall. split; [tauto|]. intros H. split; [|done].
  destruct (decide (length ds <= 10)%nat) as [|Hn]; [done|]. exfalso.
  destruct ds as [|c ds]; [done|]. cbn [chr length] in *.
  apply Forall_cons_1 in Hds as [Hc Hds]. apply isdigit_spec in Hc.
  rewrite dec_value_cons in H. pose proof (dec_value_bound ds Hds).
  assert (10 ^ 10 <= 10 ^ Z.of_nat (length ds)) by (apply Z.pow_le_mono_r; lia). nia.
Qed.

Lemma fitsIn32Bits_correct_witness :
  sqliteFitsIn32Bits (bytes_of_string "-2147483648 ") = true <->
  dec_value (bytes_of_string "2147483648") <= 2147483647.
Proof.
  apply (proj2 (fitsIn32Bits_correct [45] (bytes_of_string "2147483648") [32]
    ltac:(by right; right) ltac:(split; [done|by repeat constructor]) eq_refl)).
  vm_compute. done.
Defined.

(** Two names that [sqliteStrNICmp] finds equal get the same hash from
    [sqliteHashNoCase], and they are equal exactly when folding their case makes
    them the same. *)
Theorem nocase_hash_compatible a b n :
  nocase_key a -> nocase_key b -> 0 < n -> length a = Z.to_nat n -> length b = Z.to_nat n ->
  (sqliteStrNICmp a b n = 0 <-> map lower a = map lower b) /\
  (sqliteStrNICmp a b n = 0 -> sqliteHashNoCase a n = sqliteHashNoCase b n).
Proof.
  intros Ka Kb Hn Ha Hb.
  assert (E : sqliteStrNICmp a b n = 0 <-> map lower a = map lower b)
    by (by apply strnicmp_zero).
  split; [exact E|]. intros H%E. unfold sqliteHashNoCase.
  destruct (Z.leb_spec n 0); [lia|]. f_equal. apply hash_loop_ext.
  by rewrite !take_ge by lia.
Qed.

Lemma nocase_hash_compatible_witness :
  sqliteHashNoCase (bytes_of_string "Select") 6 = sqliteHashNoCase (bytes_of_string "sELECT") 6.
Proof.
  apply (nocase_hash_compatible (bytes_of_string "Select") (bytes_of_string "sELECT") 6);
    vm_compute; (done || intuition congruence).
Defined.

(** ** Quoting *)

(** The text between the quotes of an SQL string: every quote is doubled. *)
Fixpoint doubled (q : Z) (s : list Z) : list Z :=
  match s with
  | [] => []
  | c :: s' => if c =? q then q :: q :: doubled q s' else c :: doubled q s'
  end.

Definition closing (o : Z) : Z := if o =? 91 then 93 else o.

Lemma aget_app_r a b i : 0 <= i -> (a ++ b).[Z.of_nat (length a) + i] = b.[i].
Proof.
  intros Hi. unfold aget. rewrite app_nth2 by lia. f_equal. lia.
Qed.

Lemma aset_app a c b v : (a ++ c :: b).[Z.of_nat (length a) <- v] = a ++ v :: b.
Proof. unfold aset. rewrite Nat2Z.id. by rewrite insert_app_r_alt, Nat.sub_diag. Qed.

Lemma cstr_app s r : cstring s -> cstr (s ++ 0 :: r) = s.
Proof.
  induction s as [|c s IH]; [done|]. intros [Hc H]%Forall_cons_1. unfold cchar in Hc. simpl.
  destruct (Z.eqb_spec c 0); [lia|]. by rewrite IH.
Qed.

(** The state of the loop: [d] is written, [gap] is behind the read position. *)
Lemma aget_gap d gap r i k :
  i = Z.of_nat (length d + length gap) + k -> 0 <= k -> (d ++ gap ++ r).[i] = r.[k].
Proof.
  intros -> Hk. rewrite Nat2Z.inj_add, <-Z.add_assoc. rewrite aget_app_r by lia. by apply aget_app_r.
Qed.

Lemma aset_gap d gap r v :
  gap <> [] -> (d ++ gap ++ r).[Z.of_nat (length d) <- v] = d ++ v :: tail gap ++ r.
Proof. intros Hg. destruct gap; [done|]. apply aset_app. Qed.

Lemma dequote_loop_spec q rest : 0 < q -> forall s fuel d gap,
  cstring s -> (length (doubled q s) < fuel)%nat -> gap <> [] ->
  exists gap', dequote_loop fuel q (Z.of_nat (length d + length gap)) (Z.of_nat (length d))
      (d ++ gap ++ doubled q s ++ q :: 0 :: rest)
    = d ++ s ++ 0 :: gap' ++ 0 :: rest.
Proof.
  intros Hq. induction s as [|c s IH]; intros fuel d gap Hs Hf Hg;
    (destruct fuel as [|fuel]; [simpl in Hf; lia|]).
  - exists (tail gap ++ [q]). cbn [dequote_loop doubled app].
    rewrite !(aget_gap d gap _ _ 0) by lia. rewrite (aget_gap d gap _ _ 1) by lia.
    change ((q :: 0 :: rest).[0]) with q. change ((q :: 0 :: rest).[1]) with 0.
    rewrite (proj2 (Z.eqb_neq q 0)), (proj2 (Z.eqb_neq 0 q)), Z.eqb_refl by lia.
    rewrite aset_gap by done. by rewrite <-app_assoc.
  - apply Forall_cons_1 in Hs as [Hc Hs]. unfold cchar in Hc.
    assert (Hnext : forall (v : Z) (u X : list Z), (length (doubled q s) < fuel)%nat -> u <> [] ->
      d ++ v :: tail gap ++ u ++ X = (d ++ [v]) ++ (tail gap ++ u) ++ X /\
      Z.of_nat (length d) + 1 = Z.of_nat (length (d ++ [v])) /\
      Z.of_nat (length d + length gap) + Z.of_nat (length u) =
        Z.of_nat (length (d ++ [v]) + length (tail gap ++ u)) /\ tail gap ++ u <> []).
    { intros v u X _ Hu. rewrite <-!app_assoc. cbn [app]. rewrite !length_app.
      destruct gap; [done|]. simpl. repeat split; try lia.
      intros [_ ?]%app_eq_nil. done. }
    cbn [doubled] in Hf |- *. cbn [dequote_loop].
    rewrite !(aget_gap d gap _ _ 0), (aget_gap d gap _ _ 1), !aset_gap by (lia || done).
    destruct (Z.eqb_spec c q) as [->|Hcq]; cbn [app length] in Hf |- *.
    + change ((q :: q :: ?r).[0]) with q. change ((q :: q :: ?r).[1]) with q.
      rewrite (proj2 (Z.eqb_neq q 0)), Z.eqb_refl by lia.
      destruct (Hnext q [q; q] (doubled q s ++ q :: 0 :: rest)) as (E1 & E2 & E3 & E4); [lia|done|].
      cbn [app length] in E1, E3. rewrite E1, E2. change 2 with (Z.of_nat 2). rewrite E3.
      edestruct (IH fuel (d ++ [q])) as [gap' ->]; [done|lia|exact E4|].
      exists gap'. by rewrite <-app_assoc.
    + change ((c :: ?r).[0]) with c. rewrite (proj2 (Z.eqb_neq c 0)), (proj2 (Z.eqb_neq c q)) by lia.
      destruct (Hnext c [c] (doubled q s ++ q :: 0 :: rest)) as (E1 & E2 & E3 & E4); [lia|done|].
      cbn [app length] in E1, E3. rewrite E1, E2. change (_ + 1) with (Z.of_nat (length d + length gap) + Z.of_nat 1).
      rewrite E3.
      edestruct (IH fuel (d ++ [c])) as [gap' ->]; [done|lia|exact E4|].
      exists gap'. by rewrite <-app_assoc.
Qed.

Lemma dequote_length fuel : forall q i j y, length (dequote_loop fuel q i j y) = length y.
Proof.
  induction fuel as [|fuel IH]; intros; [done|]. cbn [dequote_loop].
  repeat case_match; rewrite ?IH, ?aset_length; done.
Qed.

Lemma dequote_text o s rest :
  o = 39 \/ o = 34 \/ o = 91 -> cstring s ->
  exists junk, sqliteDequote (o :: doubled (closing o) s ++ closing o :: 0 :: rest) = s ++ 0 :: junk ++ 0 :: rest.
Proof.
  intros Ho Hs. assert (Hq : 0 < closing o) by (destruct Ho as [->|[->| ->]]; done).
  set (z := o :: doubled (closing o) s ++ closing o :: 0 :: rest).
  assert (E : sqliteDequote z = dequote_loop (length z) (closing o) 1 0 z)
    by (destruct Ho as [->|[->| ->]]; reflexivity).
  destruct (dequote_loop_spec (closing o) rest Hq s (length z) [] [o]) as [junk Ej]; [done| |done|].
  { unfold z. cbn [length]. rewrite length_app. simpl. lia. }
  exists junk. by rewrite E.
Qed.

(** C36: Removing the quotes in place undoes quoting, for both kinds of quotes and
    for brackets: the buffer then holds the original string, the terminator is in
    place, and nothing behind the quoted text is touched. *)
Theorem dequote_roundtrip o s rest :
  o = 39 \/ o = 34 \/ o = 91 -> cstring s ->
  exists junk,
    sqliteDequote (o :: doubled (closing o) s ++ closing o :: 0 :: rest) = s ++ 0 :: junk ++ 0 :: rest /\
    length (s ++ 0 :: junk) = length (o :: doubled (closing o) s ++ [closing o]).
Proof.
  intros Ho Hs. destruct (dequote_text o s rest Ho Hs) as [junk E]. exists junk. split; [exact E|].
  apply (f_equal length) in E.
  assert (L : forall z, length (sqliteDequote z) = length z)
    by (intros z; unfold sqliteDequote; repeat case_match; rewrite ?dequote_length; done).
  rewrite L in E. cbn [length app] in *. rewrite !length_app in *. cbn [length] in *.
  rewrite length_app in E. simpl in *. lia.
Qed.

Lemma dequote_roundtrip_witness :
  exists junk,
    sqliteDequote (bytes_of_string "'it''s'" ++ [0; 9]) = bytes_of_string "it's" ++ 0 :: junk ++ [0; 9] /\
    length (bytes_of_string "it's" ++ 0 :: junk) = 7%nat.
Proof.
  apply (dequote_roundtrip 39 (bytes_of_string "it's") [9]); [by left|].
  repeat constructor; unfold cchar; simpl; lia.
Defined.
