(* ===== verification/Glob.v ===== *)
(** Pattern matching, [sqliteGlobCompare] and [sqliteLikeCompare] of [util.c]: the
    functions as the code has them, the relations that say what GLOB and LIKE
    patterns match, and the equivalence of the two. *)
From S2P Require Import Prelude Util.

(** * The functions *)

(** The loop at a star: it moves over stars and single-character wildcards in the
    pattern, whose next character is the first of [p], and takes one character of
    the string for each of the latter.  [None]: the string has run out. *)
Fixpoint star_skip (many one : Z) (p s : list Z) : option (list Z * list Z) :=
  match p with
  | [] => Some (p, s)
  | c :: p' =>
      if (c =? many) || (c =? one) then
        if c =? one then
          if chr s =? 0 then None else star_skip many one p' (tail s)
        else star_skip many one p' s
      else Some (p, s)
  end.

(** [while( *zString && compare(zString)==0 ) zString++; return *zString!=0] *)
Fixpoint scan_class (compare : list Z -> bool) (s : list Z) : bool :=
  match s with
  | [] => false
  | c :: s' => if c =? 0 then false else if compare s then true else scan_class compare s'
  end.

(** The two nested loops that try the rest of the pattern where the string has a
    character that [hit] accepts. *)
Fixpoint scan_char (compare : list Z -> bool) (hit : Z -> bool) (s : list Z) : bool :=
  match s with
  | [] => false
  | c2 :: s' =>
      if c2 =? 0 then false
      else if negb (hit c2) then scan_char compare hit s'
      else if compare s then true
      else scan_char compare hit s'
  end.

(** The loop over the members of a class, for the character [c] of the string:
    whether it was seen and the pattern from the closing bracket on; [None] when
    the pattern ends first. *)
Fixpoint class_loop (c : Z) (p : list Z) (prior_c : Z) (seen : bool) : option (bool * list Z) :=
  match p with
  | [] => None
  | c2 :: p1 =>
      if c2 =? 0 then None
      else if c2 =? 93 then Some (seen, p)
      else
        match p1 with
        | c3 :: p2 =>
            if (c2 =? 45) && negb (c3 =? 93) && negb (c3 =? 0) && (0 <? prior_c)
            then class_loop c p2 0 (if (prior_c <=? c) && (c <=? c3) then true else seen)
            else class_loop c p1 c2 (if c =? c2 then true else seen)
        | [] => class_loop c p1 c2 (if c =? c2 then true else seen)
        end
  end.

(** The case of an opening bracket; [p] follows the bracket.  The result is the
    pattern behind the closing bracket when the class accepts [c]. *)
Definition glob_class (c : Z) (p : list Z) : option (list Z) :=
  let invert := chr p =? 94 in
  let p := if invert then tail p else p in
  let seen := (chr p =? 93) && (c =? 93) in
  let p := if chr p =? 93 then tail p else p in
  match class_loop c p 0 seen with
  | None => None
  | Some (seen, p) => if xorb seen invert then Some (tail p) else None
  end.

Fixpoint glob_loop (fuel : nat) (p s : list Z) : bool :=
  match fuel with
  | O => false
  | S fuel' =>
      let c := chr p in
      if c =? 0 then chr s =? 0
      else if c =? 42 then
        match star_skip 42 63 (tail p) s with
        | None => false
        | Some (p, s) =>
            if chr p =? 0 then true
            else if chr p =? 91 then scan_class (glob_loop fuel' p) s
            else scan_char (glob_loop fuel' p) (fun c2 => c2 =? chr p) s
        end
      else if c =? 63 then
        if chr s =? 0 then false else glob_loop fuel' (tail p) (tail s)
      else if c =? 91 then
        if chr s =? 0 then false else
        match glob_class (chr s) (tail p) with
        | None => false
        | Some p => glob_loop fuel' p (tail s)
        end
      else if negb (c =? chr s) then false
      else glob_loop fuel' (tail p) (tail s)
  end.

Definition sqliteGlobCompare (zPattern zString : list Z) : bool :=
  glob_loop (S (length zPattern)) zPattern zString.

Fixpoint like_loop (fuel : nat) (p s : list Z) : bool :=
  match fuel with
  | O => false
  | S fuel' =>
      let c := UpperToLower.[chr p] in
      if c =? 0 then chr s =? 0
      else if c =? 37 then
        match star_skip 37 95 (tail p) s with
        | None => false
        | Some (p, s) =>
            if chr p =? 0 then true
            else scan_char (like_loop fuel' p)
                   (fun c2 => UpperToLower.[c2] =? UpperToLower.[chr p]) s
        end
      else if c =? 95 then
        if chr s =? 0 then false else like_loop fuel' (tail p) (tail s)
      else if negb (c =? UpperToLower.[chr s]) then false
      else like_loop fuel' (tail p) (tail s)
  end.

Definition sqliteLikeCompare (zPattern zString : list Z) : bool :=
  like_loop (S (length zPattern)) zPattern zString.

(** * What patterns mean *)

(** The ranges a class lists, and the pattern behind it; a hyphen with a character
    on both sides makes a range. *)
Fixpoint class_ranges (p : list Z) (prior : Z) : option (list (Z * Z) * list Z) :=
  match p with
  | [] => None
  | a :: p1 =>
      if a =? 93 then Some ([], p1) else
      match p1 with
      | [] => None
      | b :: rest =>
          if (a =? 45) && negb (b =? 93) && (0 <? prior)
          then option_map (fun x => ((prior, b) :: fst x, snd x)) (class_ranges rest 0)
          else option_map (fun x => ((a, a) :: fst x, snd x)) (class_ranges p1 a)
      end
  end.

(** A whole class behind its opening bracket: inverted or not, its ranges and the
    rest of the pattern.  A closing bracket in the first place is a member. *)
Definition class_text (p : list Z) : option (bool * list (Z * Z) * list Z) :=
  let invert := chr p =? 94 in
  let body := if invert then tail p else p in
  let first := if chr body =? 93 then [(93, 93)] else [] in
  option_map (fun x => (invert, first ++ fst x, snd x))
    (class_ranges (if chr body =? 93 then tail body else body) 0).

Definition in_ranges (c : Z) (rs : list (Z * Z)) : bool :=
  existsb (fun r => (fst r <=? c) && (c <=? snd r)) rs.

Inductive glob_match : list Z -> list Z -> Prop :=
| glob_end : glob_match [] []
| glob_star p u s : glob_match p s -> glob_match (42 :: p) (u ++ s)
| glob_any p c s : glob_match p s -> glob_match (63 :: p) (c :: s)
| glob_in p invert rs p' c s :
    class_text p = Some (invert, rs, p') -> in_ranges c rs = negb invert ->
    glob_match p' s -> glob_match (91 :: p) (c :: s)
| glob_char p c s :
    c ∉ [42; 63; 91] -> glob_match p s -> glob_match (c :: p) (c :: s).

Inductive like_match : list Z -> list Z -> Prop :=
| like_end : like_match [] []
| like_star p u s : like_match p s -> like_match (37 :: p) (u ++ s)
| like_any p c s : like_match p s -> like_match (95 :: p) (c :: s)
| like_char p c d s :
    c ∉ [37; 95] -> lower c = lower d -> like_match p s -> like_match (c :: p) (d :: s).

(** * Classes *)

Lemma in_ranges_cons c r rs :
  in_ranges c (r :: rs) = ((fst r <=? c) && (c <=? snd r)) || in_ranges c rs.
Proof. done. Qed.

Lemma class_loop_ranges c n : forall p prior seen, (length p <= n)%nat -> cstring p ->
  class_loop c p prior seen =
  option_map (fun x => (seen || in_ranges c (fst x), 93 :: snd x)) (class_ranges p prior).
Proof.
  induction n as [|n IH]; intros p prior seen Hn Hp.
  { by destruct p; [|simpl in Hn; lia]. }
  destruct p as [|a p1]; [done|]. simpl in Hn. apply Forall_cons_1 in Hp as [Ha Hp]. unfold cchar in Ha.
  cbn [class_loop class_ranges]. destruct (Z.eqb_spec a 0); [lia|].
  destruct (Z.eqb_spec a 93) as [->|Ha93]; [by rewrite <-(orb_false_r seen) at 1; simpl|].
  destruct p1 as [|b rest]; [done|].
  apply Forall_cons_1 in Hp as [Hb Hp]. unfold cchar in Hb. simpl in Hn.
  destruct (Z.eqb_spec b 0); [lia|]. cbn [negb]. rewrite andb_true_r.
  destruct ((a =? 45) && negb (b =? 93) && (0 <? prior)).
  - rewrite IH by (done || lia). destruct (class_ranges rest 0) as [[rs r]|]; [|done].
    cbn [option_map fst snd]. rewrite in_ranges_cons. cbn [fst snd].
    by destruct ((prior <=? c) && (c <=? b)), seen.
  - rewrite IH by (simpl; (lia || by constructor)).
    destruct (class_ranges (b :: rest) a) as [[rs r]|]; [|done].
    cbn [option_map fst snd]. rewrite in_ranges_cons. cbn [fst snd].
    replace ((a <=? c) && (c <=? a)) with (c =? a) by (case_Zb; simpl; lia).
    by destruct (c =? a), seen.
Qed.

(** The code's test of a class agrees with the ranges of its text. *)
Lemma glob_class_text c p p' : cstring p ->
  glob_class c p = Some p' <->
  exists invert rs, class_text p = Some (invert, rs, p') /\ in_ranges c rs = negb invert.
Proof.
  intros Hp. unfold glob_class, class_text. cbv zeta.
  set (q := if chr p =? 94 then tail p else p).
  assert (Hq : cstring q) by (unfold q; case_match; auto with cmodel).
  assert (Hq' : cstring (if chr q =? 93 then tail q else q)) by (case_match; auto with cmodel).
  rewrite (class_loop_ranges c _ _ _ _ (Nat.le_refl _) Hq').
  destruct (class_ranges _ 0) as [[rs rest]|]; cbn [option_map fst snd];
    [|split; [done|by intros (? & ? & ? & _)]].
  assert (Es : in_ranges c ((if chr q =? 93 then [(93, 93)] else []) ++ rs) =
    ((chr q =? 93) && (c =? 93)) || in_ranges c rs).
  { destruct (chr q =? 93); [|done]. cbn [app andb]. rewrite in_ranges_cons. cbn [fst snd]. f_equal.
    case_Zb; simpl; lia. }
  rewrite <-Es. split.
  - intros H. eexists _, _. split; [|].
    + destruct (xorb _ _) eqn:Ex in H; [|done]. injection H as <-. reflexivity.
    + destruct (xorb _ _) eqn:Ex in H; [|done]. by destruct (in_ranges _ _), (chr p =? 94).
  - intros (inv & rs' & [= <- <- <-] & ->). by destruct (chr p =? 94).
Qed.

Lemma class_ranges_rest n : forall p prior rs p',
  (length p <= n)%nat -> class_ranges p prior = Some (rs, p') -> exists u, u <> [] /\ p = u ++ p'.
Proof.
  induction n as [|n IH]; intros p prior rs p' Hn E; [by destruct p; [|simpl in Hn; lia]|].
  destruct p as [|a p1]; [done|]. simpl in Hn. cbn [class_ranges] in E.
  destruct (Z.eqb_spec a 93) as [->|]; [injection E as <- <-; by exists [93]|].
  destruct p1 as [|b rest]; [done|]. simpl in Hn. case_match.
  - destruct (class_ranges rest 0) as [[r1 q]|] eqn:E1; [|done]. injection E as _ ->.
    apply IH in E1 as (u & _ & ->); [|lia]. by exists (a :: b :: u).
  - destruct (class_ranges (b :: rest) a) as [[r1 q]|] eqn:E1; [|done]. injection E as _ ->.
    apply IH in E1 as (u & _ & ->); [|simpl; lia]. by exists (a :: u).
Qed.

Lemma class_text_rest p inv rs p' : class_text p = Some (inv, rs, p') -> exists u, u <> [] /\ p = u ++ p'.
Proof.
  unfold class_text. cbv zeta. set (q := if chr p =? 94 then tail p else p).
  assert (Hq : exists u, p = u ++ q).
  { unfold q. destruct (chr p =? 94); [|by exists []]. destruct p as [|a p]; [by exists []|by exists [a]]. }
  destruct (class_ranges _ 0) as [[r x]|] eqn:E; [|done]. intros [= _ _ ->].
  apply class_ranges_rest with (n := length (if chr q =? 93 then tail q else q)) in E as (u & Hu & E); [|done].
  assert (Hq' : exists u, q = u ++ (if chr q =? 93 then tail q else q)).
  { destruct (chr q =? 93); [|by exists []]. destruct q as [|a q']; [by exists []|by exists [a]]. }
  destruct Hq' as [u2 Hq']. rewrite E in Hq'. destruct Hq as [u1 Hq]. clearbody q. subst q p. exists (u1 ++ u2 ++ u). rewrite <-!app_assoc.
  split; [|done]. by destruct u1, u2, u.
Qed.

(** * Stars *)

Lemma glob_star_iff p s : glob_match (42 :: p) s <-> exists u t, s = u ++ t /\ glob_match p t.
Proof.
  split; [|intros (u & t & -> & H); by constructor].
  intros H. inversion H as [|? u t| | |? ? ? Hn]; subst; [by exists u, t|]. set_solver.
Qed.

Lemma like_star_iff p s : like_match (37 :: p) s <-> exists u t, s = u ++ t /\ like_match p t.
Proof.
  split; [|intros (u & t & -> & H); by constructor].
  intros H. inversion H as [|? u t| |? ? ? ? Hn]; subst; [by exists u, t|]. set_solver.
Qed.

(** What the rest of a pattern matches behind a star. *)
Definition behind (P : list Z -> Prop) (s : list Z) : Prop := exists u t, s = u ++ t /\ P t.

Lemma behind_nil P : behind P [] <-> P [].
Proof. split; [by intros (u & t & [-> ->]%symmetry%app_nil & H)|by exists [], []]. Qed.

Lemma behind_cons P c s : behind P (c :: s) <-> P (c :: s) \/ behind P s.
Proof.
  split.
  - intros ([|d u] & t & E & H); [left; by rewrite E|injection E as -> ->; right; by exists u, t].
  - intros [H|(u & t & -> & H)]; [by exists [], (c :: s)|by exists (c :: u), t].
Qed.

Lemma behind_behind P s : behind (behind P) s <-> behind P s.
Proof.
  split.
  - intros (u & t & -> & v & w & -> & H). exists (u ++ v), w. by rewrite app_assoc.
  - intros H. by exists [], s.
Qed.

Lemma behind_ext P Q s : (forall t, P t <-> Q t) -> behind P s <-> behind Q s.
Proof. intros H. by split; intros (u & t & -> & Ht); exists u, t; split; try apply H. Qed.

(** A wildcard for one character behind a star can be matched in front of it. *)
Lemma behind_any P Q s : (forall t, P t <-> exists c t', t = c :: t' /\ Q t') ->
  behind P s <-> exists c t, s = c :: t /\ behind Q t.
Proof.
  intros H. split.
  - intros (u & t & -> & (c & t' & -> & HQ)%H). destruct u as [|d u].
    + exists c, t'. split; [done|]. by exists [], t'.
    + exists d, (u ++ c :: t'). split; [done|]. exists (u ++ [c]), t'. by rewrite <-app_assoc.
  - intros (c & t & -> & u & t' & -> & HQ). destruct u as [|d u] using rev_ind.
    + exists [], (c :: t'). split; [done|]. apply H. by exists c, t'.
    + clear IHu. exists (c :: u), (d :: t'). rewrite <-app_assoc. split; [done|]. apply H. by exists d, t'.
Qed.

Section Stars.
Context (many one : Z) (matches : list Z -> list Z -> Prop).
Context (Hone0 : one <> 0) (Hmany0 : many <> 0).
Context (Hmany : forall p s, matches (many :: p) s <-> behind (matches p) s).
Context (Hany : forall p s, matches (one :: p) s <-> exists c t, s = c :: t /\ matches p t).

(** The first loop at a star: the string lost the characters the wildcards
    behind the star took, and the pattern starts with something else. *)
Lemma star_skip_spec p : forall s, cstring p -> cstring s ->
  match star_skip many one p s with
  | Some (p', s') =>
      (behind (matches p) s <-> behind (matches p') s') /\ cstring p' /\ cstring s' /\
      chr p' <> one /\ chr p' <> many /\ (length p' <= length p)%nat
  | None => ~ behind (matches p) s
  end.
Proof.
  induction p as [|c p IH]; intros s Hp Hs; cbn [star_skip]; [simpl; repeat split; auto|].
  destruct (Z.eqb_spec c one) as [->|H1]; [rewrite orb_true_r|].
  - destruct (Z.eqb_spec (chr s) 0) as [Hz|Hz].
    + rewrite (chr_zero s Hs Hz). rewrite behind_nil, Hany. by intros (? & ? & ? & _).
    + destruct s as [|d s]; [done|]. cbn [tail]. apply cstring_tail in Hp as Hp'.
      specialize (IH s Hp' (cstring_tail _ _ Hs)).
      assert (E : behind (matches (one :: p)) (d :: s) <-> behind (matches p) s).
      { rewrite (behind_any _ (matches p)) by apply Hany.
        split; [by intros (? & ? & [= <- <-] & ?)|]. intros. by exists d, s. }
      destruct (star_skip many one p s) as [[p' s']|]; rewrite E; [|done].
      destruct IH as (HI & ? & ? & ? & ? & ?). split; [exact HI|]. repeat split; simpl; auto.
  - destruct (Z.eqb_spec c many) as [->|H2]; cbn [orb].
    + specialize (IH s (cstring_tail _ _ Hp) Hs).
      assert (E : behind (matches (many :: p)) s <-> behind (matches p) s).
      { rewrite (behind_ext _ (behind (matches p))) by apply Hmany. apply behind_behind. }
      destruct (star_skip many one p s) as [[p' s']|]; rewrite E; [|done].
      destruct IH as (HI & ? & ? & ? & ? & ?). split; [exact HI|]. repeat split; simpl; auto.
    + repeat split; auto.
Qed.
End Stars.

(** The second loop at a star tries every position that can match. *)
Lemma scan_char_spec (P : list Z -> Prop) compare hit s :
  cstring s -> (forall t, cstring t -> compare t = true <-> P t) ->
  (forall t, P t -> exists c t', t = c :: t' /\ hit c = true) ->
  scan_char compare hit s = true <-> behind P s.
Proof.
  intros Hs HP Hhit. induction s as [|c s IH]; cbn [scan_char].
  - rewrite behind_nil. split; [done|]. intros H. by destruct (Hhit _ H) as (? & ? & ? & _).
  - apply Forall_cons_1 in Hs as Hc. destruct Hc as [Hc Hs']. unfold cchar in Hc.
    destruct (Z.eqb_spec c 0); [lia|]. rewrite behind_cons, <-HP by done. specialize (IH Hs').
    destruct (hit c) eqn:Hh; cbn [negb].
    + destruct (compare (c :: s)); [by split; [left|]|]. rewrite IH. intuition done.
    + rewrite IH. split; [by right|]. intros [H|?]; [|done].
      apply HP in H; [|done]. apply Hhit in H as (? & ? & [= <- _] & ?). congruence.
Qed.

Lemma scan_class_char compare s : scan_class compare s = scan_char compare (fun _ => true) s.
Proof. induction s as [|c s IH]; [done|]. cbn. by rewrite IH. Qed.

(** * The cases of the relations *)

Lemma glob_nil_iff s : glob_match [] s <-> s = [].
Proof. split; [by inversion 1|intros ->; constructor]. Qed.

Lemma glob_any_iff p s : glob_match (63 :: p) s <-> exists c t, s = c :: t /\ glob_match p t.
Proof.
  split; [|intros (c & t & -> & H); by constructor].
  intros H. inversion H as [| |? c t| |? ? ? Hn]; subst; [by exists c, t|]. set_solver.
Qed.

Lemma glob_in_iff p s : glob_match (91 :: p) s <-> exists c t invert rs p',
  s = c :: t /\ class_text p = Some (invert, rs, p') /\ in_ranges c rs = negb invert /\ glob_match p' t.
Proof.
  split; [|intros (c & t & inv & rs & p' & -> & E & Hr & H); by eapply glob_in].
  intros H. inversion H as [| | |? inv rs p' c t E Hr Ht|? ? ? Hn]; subst;
    [by exists c, t, inv, rs, p'|]. set_solver.
Qed.

Lemma glob_char_iff c p s : c ∉ [42; 63; 91] ->
  glob_match (c :: p) s <-> exists t, s = c :: t /\ glob_match p t.
Proof.
  intros Hc. split; [|intros (t & -> & H); by constructor].
  intros H. inversion H; subst; [set_solver..|by eexists].
Qed.

Lemma like_nil_iff s : like_match [] s <-> s = [].
Proof. split; [by inversion 1|intros ->; constructor]. Qed.

Lemma like_any_iff p s : like_match (95 :: p) s <-> exists c t, s = c :: t /\ like_match p t.
Proof.
  split; [|intros (c & t & -> & H); by constructor].
  intros H. inversion H as [| |? c t|? ? ? ? Hn]; subst; [by exists c, t|]. set_solver.
Qed.

Lemma like_char_iff c p s : c ∉ [37; 95] ->
  like_match (c :: p) s <-> exists d t, s = d :: t /\ lower c = lower d /\ like_match p t.
Proof.
  intros Hc. split; [|intros (d & t & -> & E & H); by constructor].
  intros H. inversion H as [| | |? ? d t]; subst; [set_solver..|by exists d, t].
Qed.

Lemma glob_loop_spec fuel : forall p s, (length p < fuel)%nat -> cstring p -> cstring s ->
  glob_loop fuel p s = true <-> glob_match p s.
Proof.
  induction fuel as [|fuel IH]; intros p s Hf Hp Hs; [lia|]. cbn [glob_loop]. cbv zeta.
  assert (Hend : forall s, cstring s -> (chr s =? 0) = true <-> s = []).
  { intros r Hr. rewrite Z.eqb_eq. split; [by apply chr_zero|by intros ->]. }
  destruct p as [|c p]; cbn [chr tail]; [rewrite glob_nil_iff; by apply Hend|].
  apply Forall_cons_1 in Hp as Hc. destruct Hc as [Hc Hp']. unfold cchar in Hc. cbn [length] in Hf.
  destruct (Z.eqb_spec c 0); [lia|].
  destruct (Z.eqb_spec c 42) as [->|H42].
  { rewrite glob_star_iff. fold (behind (glob_match p) s).
    pose proof (star_skip_spec 42 63 glob_match ltac:(done) ltac:(done)
      glob_star_iff glob_any_iff p s Hp' Hs) as Hskip.
    destruct (star_skip 42 63 p s) as [[p2 s2]|]; [|split; [done|by intros ?%Hskip]].
    destruct Hskip as (-> & Hp2 & Hs2 & H63 & H42 & Hl).
    assert (Hrec : forall t, cstring t -> glob_loop fuel p2 t = true <-> glob_match p2 t)
      by (intros; apply IH; (done || lia)).
    destruct p2 as [|c2 p2]; cbn [chr] in *.
    { split; [|done]. intros _. exists s2, []. by rewrite app_nil_r, glob_nil_iff. }
    apply Forall_cons_1 in Hp2 as [Hc2 _]. unfold cchar in Hc2.
    destruct (Z.eqb_spec c2 0); [lia|].
    destruct (Z.eqb_spec c2 91) as [->|H91].
    - rewrite scan_class_char. apply scan_char_spec; [done|done|].
      intros t (d & t' & ? & ? & ? & -> & _)%glob_in_iff. by exists d, t'.
    - apply scan_char_spec; [done|done|].
      intros t (t' & -> & _)%glob_char_iff; [|set_solver]. exists c2, t'. by rewrite Z.eqb_refl. }
  destruct (Z.eqb_spec c 63) as [->|H63].
  { rewrite glob_any_iff. destruct s as [|d s]; [simpl; split; [done|by intros (? & ? & ? & _)]|].
    apply Forall_cons_1 in Hs as [Hd Hs]. unfold cchar in Hd. cbn [chr tail].
    destruct (Z.eqb_spec d 0); [lia|]. rewrite IH by (done || lia).
    split; [by exists d, s|by intros (? & ? & [= <- <-] & ?)]. }
  destruct (Z.eqb_spec c 91) as [->|H91].
  { rewrite glob_in_iff. destruct s as [|d s].
    { simpl. split; [done|]. by intros (? & ? & ? & ? & ? & ? & _). }
    apply Forall_cons_1 in Hs as [Hd Hs]. unfold cchar in Hd. cbn [chr tail].
    destruct (Z.eqb_spec d 0); [lia|].
    destruct (glob_class d p) as [p'|] eqn:E.
    - apply glob_class_text in E as (inv & rs & E & Hr); [|done].
      destruct (class_text_rest _ _ _ _ E) as (u & Hu & ->).
      rewrite IH; [| |by apply Forall_app in Hp' as [_ ?]|done].
      2: { rewrite length_app in Hf. destruct u; [done|simpl in *; lia]. }
      split; [intros H; by exists d, s, inv, rs, p'|].
      intros (? & ? & ? & ? & ? & [= <- <-] & E2 & _ & H). rewrite E in E2. by injection E2 as <- <- <-.
    - split; [done|]. intros (? & ? & inv & rs & p' & [= <- <-] & E2 & Hr & H).
      assert (glob_class d p = Some p') by (apply glob_class_text; eauto). congruence. }
  rewrite glob_char_iff by set_solver. destruct s as [|d s]; cbn [chr tail].
  { destruct (Z.eqb_spec c 0); [lia|]. split; [done|by intros (? & ? & _)]. }
  apply Forall_cons_1 in Hs as [Hd Hs].
  destruct (Z.eqb_spec c d) as [->|]; cbn [negb].
  - rewrite IH by (done || lia). split; [by exists s|by intros (? & [= <-] & ?)].
  - split; [done|by intros (? & [= <-] & ?)].
Qed.

Lemma like_loop_spec fuel : forall p s, (length p < fuel)%nat -> cstring p -> cstring s ->
  like_loop fuel p s = true <-> like_match p s.
Proof.
  induction fuel as [|fuel IH]; intros p s Hf Hp Hs; [lia|]. cbn [like_loop]. cbv zeta.
  assert (Hend : forall s, cstring s -> (chr s =? 0) = true <-> s = []).
  { intros r Hr. rewrite Z.eqb_eq. split; [by apply chr_zero|by intros ->]. }
  destruct p as [|c p]; cbn [chr tail]; [rewrite like_nil_iff; by apply Hend|].
  apply Forall_cons_1 in Hp as Hc. destruct Hc as [Hc Hp']. unfold cchar in Hc. cbn [length] in Hf.
  fold (lower c). pose proof (lower_spec c ltac:(lia)) as Hlow.
  assert (Hsym : forall k, k = 37 \/ k = 95 -> lower c = k <-> c = k).
  { intros k Hk. rewrite Hlow. case_Zb; simpl; lia. }
  destruct (Z.eqb_spec (lower c) 0) as [H0|_]; [apply lower_zero in H0; lia|].
  destruct (Z.eqb_spec (lower c) 37) as [E|H37]; [|rewrite Hsym in H37 by auto].
  { apply Hsym in E as ->; [|by left]. rewrite like_star_iff. fold (behind (like_match p) s).
    pose proof (star_skip_spec 37 95 like_match ltac:(done) ltac:(done)
      like_star_iff like_any_iff p s Hp' Hs) as Hskip.
    destruct (star_skip 37 95 p s) as [[p2 s2]|]; [|split; [done|by intros ?%Hskip]].
    destruct Hskip as (-> & Hp2 & Hs2 & H95 & H37 & Hl).
    assert (Hrec : forall t, cstring t -> like_loop fuel p2 t = true <-> like_match p2 t)
      by (intros; apply IH; (done || lia)).
    destruct p2 as [|c2 p2]; cbn [chr] in *.
    { split; [|done]. intros _. exists s2, []. by rewrite app_nil_r, like_nil_iff. }
    apply Forall_cons_1 in Hp2 as [Hc2 _]. unfold cchar in Hc2.
    destruct (Z.eqb_spec c2 0); [lia|]. apply scan_char_spec; [done|done|].
    intros t (d & t' & -> & E & _)%like_char_iff; [|set_solver]. exists d, t'.
    split; [done|]. apply Z.eqb_eq. symmetry. exact E. }
  destruct (Z.eqb_spec (lower c) 95) as [E|H95]; [|rewrite Hsym in H95 by auto].
  { apply Hsym in E as ->; [|by right]. rewrite like_any_iff. destruct s as [|d s]; [simpl; split; [done|by intros (? & ? & ? & _)]|].
    apply Forall_cons_1 in Hs as [Hd Hs]. unfold cchar in Hd. cbn [chr tail].
    destruct (Z.eqb_spec d 0); [lia|]. rewrite IH by (done || lia).
    split; [by exists d, s|by intros (? & ? & [= <- <-] & ?)]. }
  rewrite like_char_iff by set_solver. destruct s as [|d s]; cbn [chr tail].
  { change (UpperToLower.[0]) with 0. destruct (Z.eqb_spec (lower c) 0) as [H0|_];
      [apply lower_zero in H0; lia|]. split; [done|by intros (? & ? & ? & _)]. }
  apply Forall_cons_1 in Hs as [Hd Hs]. fold (lower d).
  destruct (Z.eqb_spec (lower c) (lower d)) as [E|E]; cbn [negb].
  - rewrite IH by (done || lia). split; [by exists d, s|by intros (? & ? & [= <- <-] & _ & ?)].
  - split; [done|by intros (? & ? & [= <- <-] & ? & _)].
Qed.

(** * Theorems *)

(** C33: [sqliteGlobCompare] is correct: on C strings it answers yes exactly when
    the GLOB relation holds, for every pattern, and unterminated classes match
    nothing. *)
Theorem glob_correct zPattern zString :
  cstring zPattern -> cstring zString ->
  sqliteGlobCompare zPattern zString = true <-> glob_match zPattern zString.
Proof. intros. apply glob_loop_spec; (done || lia). Qed.

Lemma glob_correct_witness :
  glob_match (bytes_of_string "*[b-d]?]") (bytes_of_string "a-cx]").
Proof.
  apply (glob_correct (bytes_of_string "*[b-d]?]") (bytes_of_string "a-cx]")).
  - repeat constructor; unfold cchar; simpl; lia.
  - repeat constructor; unfold cchar; simpl; lia.
  - vm_compute. reflexivity.
Defined.

(** C34: [sqliteLikeCompare] is correct: on C strings it answers yes exactly when
    the LIKE relation holds, which compares characters without their case. *)
Theorem like_correct zPattern zString :
  cstring zPattern -> cstring zString ->
  sqliteLikeCompare zPattern zString = true <-> like_match zPattern zString.
Proof. intros. apply like_loop_spec; (done || lia). Qed.

Lemma like_correct_witness :
  like_match (bytes_of_string "%s_LECT%") (bytes_of_string "x Select y").
Proof.
  apply (like_correct (bytes_of_string "%s_LECT%") (bytes_of_string "x Select y")).
  - repeat constructor; unfold cchar; simpl; lia.
  - repeat constructor; unfold cchar; simpl; lia.
  - vm_compute. reflexivity.
Defined.
