(* ===== verification/Tokenize.v ===== *)
(** The tokenizer, [tokenize.c]: the table of keywords, the function that finds the
    next token, the loop that feeds the tokens of a text to the parser, and
    [sqlite_complete], which decides whether a text ends a statement.  The parser
    itself is generated from [parse.y] and is a parameter. *)
From S2P Require Import Prelude Util.

(** * Keywords *)

Inductive token_type :=
| TK_ID | TK_SPACE | TK_COMMENT | TK_ILLEGAL | TK_MINUS | TK_LP | TK_RP | TK_SEMI | TK_PLUS
| TK_STAR | TK_SLASH | TK_REM | TK_EQ | TK_LE | TK_NE | TK_LSHIFT | TK_LT | TK_GE | TK_RSHIFT
| TK_GT | TK_BITOR | TK_CONCAT | TK_COMMA | TK_BITAND | TK_BITNOT | TK_STRING | TK_DOT
| TK_INTEGER | TK_FLOAT | TK_VARIABLE | TK_ABORT | TK_AFTER | TK_ALL | TK_AND | TK_AS | TK_ASC
| TK_ATTACH | TK_BEFORE | TK_BEGIN | TK_BETWEEN | TK_BY | TK_CASCADE | TK_CASE | TK_CHECK
| TK_CLUSTER | TK_COLLATE | TK_COMMIT | TK_CONFLICT | TK_CONSTRAINT | TK_COPY | TK_CREATE
| TK_JOIN_KW | TK_DATABASE | TK_DEFAULT | TK_DEFERRED | TK_DEFERRABLE | TK_DELETE
| TK_DELIMITERS | TK_DESC | TK_DETACH | TK_DISTINCT | TK_DROP | TK_END | TK_EACH | TK_ELSE
| TK_EXCEPT | TK_EXPLAIN | TK_FAIL | TK_FOR | TK_FOREIGN | TK_FROM | TK_GLOB | TK_GROUP
| TK_HAVING | TK_IGNORE | TK_IMMEDIATE | TK_IN | TK_INDEX | TK_INITIALLY | TK_INSERT
| TK_INSTEAD | TK_INTERSECT | TK_INTO | TK_IS | TK_ISNULL | TK_JOIN | TK_KEY | TK_LIKE
| TK_LIMIT | TK_MATCH | TK_NOT | TK_NOTNULL | TK_NULL | TK_OF | TK_OFFSET | TK_ON | TK_OR
| TK_ORDER | TK_PRAGMA | TK_PRIMARY | TK_RAISE | TK_REFERENCES | TK_REPLACE | TK_RESTRICT
| TK_ROLLBACK | TK_ROW | TK_SELECT | TK_SET | TK_STATEMENT | TK_TABLE | TK_TEMP | TK_THEN
| TK_TRANSACTION | TK_TRIGGER | TK_UNION | TK_UNIQUE | TK_UPDATE | TK_USING | TK_VACUUM
| TK_VALUES | TK_VIEW | TK_WHEN | TK_WHERE.

Definition keyword (zName : String.string) (t : token_type) : list Z * token_type :=
  (bytes_of_string zName, t).
Arguments keyword _%_string_scope _.

Definition aKeywordTable : list (list Z * token_type) :=
  [keyword "ABORT" TK_ABORT; keyword "AFTER" TK_AFTER; keyword "ALL" TK_ALL; keyword "AND" TK_AND;
   keyword "AS" TK_AS; keyword "ASC" TK_ASC; keyword "ATTACH" TK_ATTACH; keyword "BEFORE" TK_BEFORE;
   keyword "BEGIN" TK_BEGIN; keyword "BETWEEN" TK_BETWEEN; keyword "BY" TK_BY; keyword "CASCADE" TK_CASCADE;
   keyword "CASE" TK_CASE; keyword "CHECK" TK_CHECK; keyword "CLUSTER" TK_CLUSTER; keyword "COLLATE" TK_COLLATE;
   keyword "COMMIT" TK_COMMIT; keyword "CONFLICT" TK_CONFLICT; keyword "CONSTRAINT" TK_CONSTRAINT; keyword "COPY" TK_COPY;
   keyword "CREATE" TK_CREATE; keyword "CROSS" TK_JOIN_KW; keyword "DATABASE" TK_DATABASE; keyword "DEFAULT" TK_DEFAULT;
   keyword "DEFERRED" TK_DEFERRED; keyword "DEFERRABLE" TK_DEFERRABLE; keyword "DELETE" TK_DELETE; keyword "DELIMITERS" TK_DELIMITERS;
   keyword "DESC" TK_DESC; keyword "DETACH" TK_DETACH; keyword "DISTINCT" TK_DISTINCT; keyword "DROP" TK_DROP;
   keyword "END" TK_END; keyword "EACH" TK_EACH; keyword "ELSE" TK_ELSE; keyword "EXCEPT" TK_EXCEPT;
   keyword "EXPLAIN" TK_EXPLAIN; keyword "FAIL" TK_FAIL; keyword "FOR" TK_FOR; keyword "FOREIGN" TK_FOREIGN;
   keyword "FROM" TK_FROM; keyword "FULL" TK_JOIN_KW; keyword "GLOB" TK_GLOB; keyword "GROUP" TK_GROUP;
   keyword "HAVING" TK_HAVING; keyword "IGNORE" TK_IGNORE; keyword "IMMEDIATE" TK_IMMEDIATE; keyword "IN" TK_IN;
   keyword "INDEX" TK_INDEX; keyword "INITIALLY" TK_INITIALLY; keyword "INNER" TK_JOIN_KW; keyword "INSERT" TK_INSERT;
   keyword "INSTEAD" TK_INSTEAD; keyword "INTERSECT" TK_INTERSECT; keyword "INTO" TK_INTO; keyword "IS" TK_IS;
   keyword "ISNULL" TK_ISNULL; keyword "JOIN" TK_JOIN; keyword "KEY" TK_KEY; keyword "LEFT" TK_JOIN_KW;
   keyword "LIKE" TK_LIKE; keyword "LIMIT" TK_LIMIT; keyword "MATCH" TK_MATCH; keyword "NATURAL" TK_JOIN_KW;
   keyword "NOT" TK_NOT; keyword "NOTNULL" TK_NOTNULL; keyword "NULL" TK_NULL; keyword "OF" TK_OF;
   keyword "OFFSET" TK_OFFSET; keyword "ON" TK_ON; keyword "OR" TK_OR; keyword "ORDER" TK_ORDER;
   keyword "OUTER" TK_JOIN_KW; keyword "PRAGMA" TK_PRAGMA; keyword "PRIMARY" TK_PRIMARY; keyword "RAISE" TK_RAISE;
   keyword "REFERENCES" TK_REFERENCES; keyword "REPLACE" TK_REPLACE; keyword "RESTRICT" TK_RESTRICT; keyword "RIGHT" TK_JOIN_KW;
   keyword "ROLLBACK" TK_ROLLBACK; keyword "ROW" TK_ROW; keyword "SELECT" TK_SELECT; keyword "SET" TK_SET;
   keyword "STATEMENT" TK_STATEMENT; keyword "TABLE" TK_TABLE; keyword "TEMP" TK_TEMP; keyword "TEMPORARY" TK_TEMP;
   keyword "THEN" TK_THEN; keyword "TRANSACTION" TK_TRANSACTION; keyword "TRIGGER" TK_TRIGGER; keyword "UNION" TK_UNION;
   keyword "UNIQUE" TK_UNIQUE; keyword "UPDATE" TK_UPDATE; keyword "USING" TK_USING; keyword "VACUUM" TK_VACUUM;
   keyword "VALUES" TK_VALUES; keyword "VIEW" TK_VIEW; keyword "WHEN" TK_WHEN; keyword "WHERE" TK_WHERE].

Definition KEY_HASH_SIZE : Z := 101.

(** The hash table of the keywords: [aiHashTable] and the [iNext] fields, both with
    0 for the end of a chain and the index plus one otherwise. *)
Record keyword_hash := mkKH { aiHashTable : list Z; iNext : list Z }.

(** The chain a name belongs to. *)
Definition keyword_slot (z : list Z) (n : Z) : Z := sqliteHashNoCase z n `mod` KEY_HASH_SIZE.

(** The initialisation, for the keywords from index [i] on. *)
Fixpoint init_keywords (ks : list (list Z * token_type)) (i : Z) (t : keyword_hash) : keyword_hash :=
  match ks with
  | [] => t
  | (zName, _) :: ks =>
      let h := keyword_slot zName (strlen zName) in
      init_keywords ks (i + 1)
        (mkKH (aset (aiHashTable t) h (i + 1)) (iNext t ++ [aget (aiHashTable t) h]))
  end.

Definition the_keywords : keyword_hash :=
  init_keywords aKeywordTable 0 (mkKH (replicate (Z.to_nat KEY_HASH_SIZE) 0) []).

(** The walk along a chain. *)
Fixpoint keyword_chain (fuel : nat) (t : keyword_hash) (i : Z) (z : list Z) (n : Z) : token_type :=
  match fuel with
  | O => TK_ID
  | S fuel' =>
      if i =? 0 then TK_ID else
      match aKeywordTable !! Z.to_nat (i - 1) with
      | None => TK_ID
      | Some (zName, tokenType) =>
          if (strlen zName =? n) && (sqliteStrNICmp zName z n =? 0) then tokenType
          else keyword_chain fuel' t (aget (iNext t) (i - 1)) z n
      end
  end.

Definition sqliteKeywordCode (z : list Z) (n : Z) : token_type :=
  keyword_chain (length aKeywordTable) the_keywords
    (aget (aiHashTable the_keywords) (keyword_slot z n)) z n.

(** * Tokens *)

Definition isIdChar : list Z :=
  [0; 0; 0; 0; 0; 0; 0; 0; 0; 0; 0; 0; 0; 0; 0; 0;
   0; 0; 0; 0; 0; 0; 0; 0; 0; 0; 0; 0; 0; 0; 0; 0;
   0; 0; 0; 0; 0; 0; 0; 0; 0; 0; 0; 0; 0; 0; 0; 0;
   1; 1; 1; 1; 1; 1; 1; 1; 1; 1; 0; 0; 0; 0; 0; 0;
   0; 1; 1; 1; 1; 1; 1; 1; 1; 1; 1; 1; 1; 1; 1; 1;
   1; 1; 1; 1; 1; 1; 1; 1; 1; 1; 1; 0; 0; 0; 0; 1;
   0; 1; 1; 1; 1; 1; 1; 1; 1; 1; 1; 1; 1; 1; 1; 1;
   1; 1; 1; 1; 1; 1; 1; 1; 1; 1; 1; 0; 0; 0; 0; 0].

(** [isIdChar[c]]; the array has 128 elements. *)
Definition id_char (c : Z) : bool := negb (aget isIdChar c =? 0).

Definition high_bit (c : Z) : bool := negb (Z.land c 128 =? 0).

Definition isspace (c : Z) : bool := (c =? 32) || ((9 <=? c) && (c <=? 13)).

(** [for(; p(z[i]); i++){}]: how far it goes; [p] is false at the terminator. *)
Fixpoint count_while (p : Z -> bool) (z : list Z) : Z :=
  match z with
  | [] => 0
  | c :: z' => if p c then 1 + count_while p z' else 0
  end.

(** [for(; z[i] && (z[i]!='/' || z[i-1]!='*'); i++){}]; [last] is [z[i-1]]. *)
Fixpoint comment_loop (last : Z) (z : list Z) : Z :=
  match z with
  | [] => 0
  | c :: z' =>
      if c =? 0 then 0
      else if (c =? 47) && (last =? 42) then 0
      else 1 + comment_loop c z'
  end.

(** The loop over a quoted string, up to its closing delimiter or the end. *)
Fixpoint string_loop (delim : Z) (z : list Z) : Z :=
  match z with
  | [] => 0
  | c :: z' =>
      if c =? 0 then 0
      else if c =? delim then
        match z' with
        | d :: z'' => if d =? delim then 2 + string_loop delim z'' else 0
        | [] => 0
        end
      else 1 + string_loop delim z'
  end.

(** [for(i=1; z[i] && z[i-1]!=']'; i++){}]; [last] is [z[i-1]]. *)
Fixpoint bracket_loop (last : Z) (z : list Z) : Z :=
  match z with
  | [] => 0
  | c :: z' => if (c =? 0) || (last =? 93) then 0 else 1 + bracket_loop c z'
  end.

(** [z[i]] *)
Definition at_ (z : list Z) (i : Z) : Z := chr (drop (Z.to_nat i) z).
Definition from_ (z : list Z) (i : Z) : list Z := drop (Z.to_nat i) z.

(** A number. *)
Definition get_number (z : list Z) : Z * token_type :=
  let i := 1 + count_while isdigit (from_ z 1) in
  let '(i, t) :=
    if (at_ z i =? 46) && isdigit (at_ z (i + 1))
    then (i + 2 + count_while isdigit (from_ z (i + 2)), TK_FLOAT) else (i, TK_INTEGER) in
  if ((at_ z i =? 101) || (at_ z i =? 69)) &&
     (isdigit (at_ z (i + 1)) ||
      (((at_ z (i + 1) =? 43) || (at_ z (i + 1) =? 45)) && isdigit (at_ z (i + 2))))
  then (i + 2 + count_while isdigit (from_ z (i + 2)), TK_FLOAT) else (i, t).

(** One more for the closing character, unless the text ended. *)
Definition closed (z : list Z) (i : Z) : Z := if at_ z i =? 0 then i else i + 1.

(** The length and the type of the token at the start of [z]. *)
Definition sqliteGetToken (z : list Z) : Z * token_type :=
  let c := chr z in
  let c1 := at_ z 1 in
  if (c =? 32) || (c =? 9) || (c =? 10) || (c =? 12) || (c =? 13) then
    (1 + count_while isspace (from_ z 1), TK_SPACE)
  else if c =? 45 then
    if c1 =? 45
    then (2 + count_while (fun x => negb (x =? 0) && negb (x =? 10)) (from_ z 2), TK_COMMENT)
    else (1, TK_MINUS)
  else if c =? 40 then (1, TK_LP)
  else if c =? 41 then (1, TK_RP)
  else if c =? 59 then (1, TK_SEMI)
  else if c =? 43 then (1, TK_PLUS)
  else if c =? 42 then (1, TK_STAR)
  else if c =? 47 then
    if negb (c1 =? 42) || (at_ z 2 =? 0) then (1, TK_SLASH)
    else (closed z (3 + comment_loop (at_ z 2) (from_ z 3)), TK_COMMENT)
  else if c =? 37 then (1, TK_REM)
  else if c =? 61 then (if c1 =? 61 then 2 else 1, TK_EQ)
  else if c =? 60 then
    if c1 =? 61 then (2, TK_LE)
    else if c1 =? 62 then (2, TK_NE)
    else if c1 =? 60 then (2, TK_LSHIFT)
    else (1, TK_LT)
  else if c =? 62 then
    if c1 =? 61 then (2, TK_GE)
    else if c1 =? 62 then (2, TK_RSHIFT)
    else (1, TK_GT)
  else if c =? 33 then
    if negb (c1 =? 61) then (2, TK_ILLEGAL) else (2, TK_NE)
  else if c =? 124 then
    if negb (c1 =? 124) then (1, TK_BITOR) else (2, TK_CONCAT)
  else if c =? 44 then (1, TK_COMMA)
  else if c =? 38 then (1, TK_BITAND)
  else if c =? 126 then (1, TK_BITNOT)
  else if (c =? 39) || (c =? 34) then
    (closed z (1 + string_loop c (from_ z 1)), TK_STRING)
  else if c =? 46 then (1, TK_DOT)
  else if isdigit c then get_number z
  else if c =? 91 then (1 + bracket_loop c (from_ z 1), TK_ID)
  else if c =? 63 then (1, TK_VARIABLE)
  else if negb (high_bit c) && negb (id_char c) then (1, TK_ILLEGAL)
  else
    let i := 1 + count_while (fun x => high_bit x || id_char x) (from_ z 1) in
    (i, sqliteKeywordCode z i).

(** * Messages (main.c) *)

Definition text (s : String.string) : list Z := bytes_of_string s.
Arguments text _%_string_scope.

Definition error_strings : list (list Z) :=
  [text "not an error";
   text "SQL logic error or missing database";
   text "internal SQLite implementation flaw";
   text "access permission denied";
   text "callback requested query abort";
   text "database is locked";
   text "database table is locked";
   text "out of memory";
   text "attempt to write a readonly database";
   text "interrupted";
   text "disk I/O error";
   text "database disk image is malformed";
   text "table or record not found";
   text "database is full";
   text "unable to open database file";
   text "database locking protocol failure";
   text "table contains no data";
   text "database schema has changed";
   text "too much data for one table row";
   text "constraint failed";
   text "datatype mismatch";
   text "library routine called out of sequence";
   text "kernel lacks large file support";
   text "authorization denied";
   text "auxiliary database format error";
   text "bind index out of range";
   text "file is encrypted or is not a database"].

Definition sqlite_error_string (rc : Z) : list Z :=
  if rc <? 0 then text "unknown error"
  else nth (Z.to_nat rc) error_strings (text "unknown error").

(** * Feeding the parser *)

Section RunParser.
(** The state of the generated parser. *)
Context {E : Type}.

(** The fields of [Parse] and of [db] that [sqliteRunParser] uses; a pointer that is
    only tested and released is a [bool]. *)
Record Parse := mkParse {
  p_rc : Z;
  p_sLastToken : list Z;
  p_zTail : list Z;
  p_zErrMsg : option (list Z);
  p_nErr : Z;
  p_pVdbe : bool; p_pNewTable : bool; p_pNewTrigger : bool;
  p_interrupt : bool;            (* db->flags & SQLITE_Interrupt *)
  p_malloc_failed : bool;        (* sqlite_malloc_failed *)
  p_engine : E
}.

(** One call of the parser with a token; [None] is the end of the input. *)
Context (sqliteParser : option token_type -> list Z -> Parse -> Parse).

Definition set_rc (v : Z) (p : Parse) : Parse :=
  mkParse v (p_sLastToken p) (p_zTail p) (p_zErrMsg p) (p_nErr p) (p_pVdbe p) (p_pNewTable p)
    (p_pNewTrigger p) (p_interrupt p) (p_malloc_failed p) (p_engine p).
Definition set_sLastToken (v : list Z) (p : Parse) : Parse :=
  mkParse (p_rc p) v (p_zTail p) (p_zErrMsg p) (p_nErr p) (p_pVdbe p) (p_pNewTable p)
    (p_pNewTrigger p) (p_interrupt p) (p_malloc_failed p) (p_engine p).
Definition set_zTail (v : list Z) (p : Parse) : Parse :=
  mkParse (p_rc p) (p_sLastToken p) v (p_zErrMsg p) (p_nErr p) (p_pVdbe p) (p_pNewTable p)
    (p_pNewTrigger p) (p_interrupt p) (p_malloc_failed p) (p_engine p).
Definition set_zErrMsg (v : option (list Z)) (p : Parse) : Parse :=
  mkParse (p_rc p) (p_sLastToken p) (p_zTail p) v (p_nErr p) (p_pVdbe p) (p_pNewTable p)
    (p_pNewTrigger p) (p_interrupt p) (p_malloc_failed p) (p_engine p).
Definition set_interrupt (v : bool) (p : Parse) : Parse :=
  mkParse (p_rc p) (p_sLastToken p) (p_zTail p) (p_zErrMsg p) (p_nErr p) (p_pVdbe p) (p_pNewTable p)
    (p_pNewTrigger p) v (p_malloc_failed p) (p_engine p).
(** Release what a failed statement left behind. *)
Definition cleanup (p : Parse) : Parse :=
  mkParse (p_rc p) (p_sLastToken p) (p_zTail p) (p_zErrMsg p) (p_nErr p)
    (p_pVdbe p && negb (0 <? p_nErr p)) false false (p_interrupt p) (p_malloc_failed p) (p_engine p).

(** [sqliteSetString(pzErrMsg, ...)]; a NULL [pzErrMsg] is [None]. *)
Definition set_message (m : list Z) (pz : option (option (list Z))) : option (option (list Z)) :=
  match pz with None => None | Some _ => Some (Some m) end.

(** Where the loop leaves off: the rest of the text, [None] when [i] is past the
    terminator; the last token parsed; [nErr]; [pParse] and [*pzErrMsg]. *)
Record stopped := mkStopped {
  st_rest : option (list Z); st_last : option token_type; st_nErr : Z;
  st_parse : Parse; st_msg : option (option (list Z))
}.

Definition unrecognized (z : list Z) (n : Z) : list Z :=
  text "unrecognized token: " ++ [34] ++ take (Z.to_nat n) z ++
  (if n <=? Z.of_nat (length z) then [34] else []).

Fixpoint parse_loop (fuel : nat) (z : list Z) (last : option token_type) (p : Parse)
    (pz : option (option (list Z))) : stopped :=
  let stop := mkStopped (Some z) last 0 p pz in
  match fuel with
  | O => stop
  | S fuel' =>
      if p_malloc_failed p || (chr z =? 0) then stop else
      let '(n, tokenType) := sqliteGetToken z in
      let tok := take (Z.to_nat n) z in
      let p := set_sLastToken tok p in
      let z' := from_ z n in
      let rest := if n <=? Z.of_nat (length z) then Some z' else None in
      match tokenType with
      | TK_SPACE | TK_COMMENT =>
          if p_interrupt p
          then mkStopped rest last 0 (set_rc 9 p) (set_message (text "interrupt") pz)
          else parse_loop fuel' z' last p pz
      | TK_ILLEGAL => mkStopped rest last 1 p (set_message (unrecognized z n) pz)
      | _ =>
          let p := match tokenType with TK_SEMI => set_zTail z' p | _ => p end in
          let p := sqliteParser (Some tokenType) tok p in
          if negb (p_rc p =? 0) then mkStopped rest (Some tokenType) 0 p pz
          else parse_loop fuel' z' (Some tokenType) p pz
      end
  end.

(** The code behind [abort_parse] up to the end of the parse: [None] is a read
    behind the end of the text. *)
Definition finish_input (s : stopped) : option Parse :=
  match st_rest s with
  | None => None
  | Some z =>
      let p := st_parse s in
      if (chr z =? 0) && (st_nErr s =? 0) && (p_rc p =? 0) then
        let p :=
          match st_last s with
          | Some TK_SEMI => p
          | _ => set_zTail z (sqliteParser (Some TK_SEMI) (p_sLastToken p) p)
          end in
        Some (sqliteParser None (p_sLastToken p) p)
      else Some p
  end.

(** The result is [nErr], [pParse] and [*pzErrMsg]. *)
Definition sqliteRunParser (alloc_ok : bool) (zSql : list Z) (p : Parse)
    (pz : option (option (list Z))) : option (Z * Parse * option (option (list Z))) :=
  let p := set_rc 0 (set_interrupt false p) in
  if negb alloc_ok then Some (1, p, set_message (text "out of memory") pz) else
  let p := set_zTail zSql p in
  let s := parse_loop (length zSql) zSql None p pz in
  match finish_input s with
  | None => None
  | Some p =>
      let p :=
        if negb (p_rc p =? 0) && negb (p_rc p =? 101) &&
           match p_zErrMsg p with None => true | Some _ => false end
        then set_zErrMsg (Some (sqlite_error_string (p_rc p))) p else p in
      let '(pz, nErr, p) :=
        match p_zErrMsg p with
        | Some m =>
            (match st_msg s with Some None => Some (Some m) | pz => pz end,
             (if st_nErr s =? 0 then 1 else st_nErr s), set_zErrMsg None p)
        | None => (st_msg s, st_nErr s, p)
        end in
      let p := cleanup p in
      let p := if (0 <? nErr) && ((p_rc p =? 0) || (p_rc p =? 101)) then set_rc 1 p else p in
      Some (nErr, p, pz)
  end.
End RunParser.
Arguments Parse : clear implicits.

(** * Complete statements *)

Inductive tk := tkEXPLAIN | tkCREATE | tkTEMP | tkTRIGGER | tkEND | tkSEMI | tkWS | tkOTHER.

#[export] Instance tk_eq_dec : EqDecision tk.
Proof. solve_decision. Defined.

Definition tk_index (t : tk) : nat :=
  match t with
  | tkEXPLAIN => 0 | tkCREATE => 1 | tkTEMP => 2 | tkTRIGGER => 3
  | tkEND => 4 | tkSEMI => 5 | tkWS => 6 | tkOTHER => 7
  end.

Definition trans : list (list Z) :=
  [[1; 2; 3; 3; 3; 0; 0; 3];
   [3; 2; 3; 3; 3; 0; 1; 3];
   [3; 3; 2; 4; 3; 0; 2; 3];
   [3; 3; 3; 3; 3; 0; 3; 3];
   [4; 4; 4; 4; 4; 5; 4; 4];
   [4; 4; 4; 4; 6; 5; 5; 4];
   [4; 4; 4; 4; 4; 0; 6; 4]].

Definition next_state (state : Z) (t : tk) : Z := nth (tk_index t) (nth (Z.to_nat state) trans []) 0.

(** What one round of the loop finds: a token and the text behind it, a reason to
    return, or a read outside of [isIdChar]. *)
Inductive scanned :=
| Token (t : tk) (rest : list Z)
| Unfinished                     (* return 0 *)
| AtEnd                          (* return state==0 *)
| OutOfBounds.

(** [while( zSql[0] && p(zSql[0]) ){ zSql++; }] *)
Fixpoint skip_while (p : Z -> bool) (z : list Z) : list Z :=
  match z with
  | [] => []
  | c :: z' => if c =? 0 then z else if p c then skip_while p z' else z
  end.

(** Skip up to the end of a comment. *)
Fixpoint skip_comment (z : list Z) : list Z :=
  match z with
  | [] => []
  | c :: z' => if c =? 0 then z else if negb (c =? 42) || negb (chr z' =? 47) then skip_comment z' else z
  end.

(** The end of a word, [None] when a byte is not an index of [isIdChar]. *)
Fixpoint skip_word (z : list Z) : option (list Z) :=
  match z with
  | [] => Some []
  | c :: z' => if 128 <=? c then None else if id_char c then skip_word z' else Some z
  end.

(** The token of a word of [nId] characters at the start of [z]. *)
Definition word_token (z : list Z) (nId : Z) : tk :=
  let named (s : list Z) := (nId =? Z.of_nat (length s)) && (sqliteStrNICmp z s (Z.of_nat (length s)) =? 0) in
  let c := chr z in
  if (c =? 99) || (c =? 67) then if named (text "create") then tkCREATE else tkOTHER
  else if (c =? 116) || (c =? 84) then
    if named (text "trigger") then tkTRIGGER
    else if named (text "temp") then tkTEMP
    else if named (text "temporary") then tkTEMP else tkOTHER
  else if (c =? 101) || (c =? 69) then
    if named (text "end") then tkEND
    else if named (text "explain") then tkEXPLAIN else tkOTHER
  else tkOTHER.

Definition complete_token (z : list Z) : scanned :=
  let c := chr z in
  if c =? 59 then Token tkSEMI (tail z)
  else if (c =? 32) || (c =? 13) || (c =? 9) || (c =? 10) || (c =? 12) then Token tkWS (tail z)
  else if c =? 47 then
    if negb (chr (tail z) =? 42) then Token tkOTHER (tail z) else
    let r := skip_comment (tail (tail z)) in
    if chr r =? 0 then Unfinished else Token tkWS (tail (tail r))
  else if c =? 45 then
    if negb (chr (tail z) =? 45) then Token tkOTHER (tail z) else
    let r := skip_while (fun x => negb (x =? 10)) z in
    if chr r =? 0 then AtEnd else Token tkWS (tail r)
  else if c =? 91 then
    let r := skip_while (fun x => negb (x =? 93)) (tail z) in
    if chr r =? 0 then Unfinished else Token tkOTHER (tail r)
  else if (c =? 34) || (c =? 39) then
    let r := skip_while (fun x => negb (x =? c)) (tail z) in
    if chr r =? 0 then Unfinished else Token tkOTHER (tail r)
  else if 128 <=? c then OutOfBounds
  else if id_char c then
    match skip_word (tail z) with
    | None => OutOfBounds
    | Some r => Token (word_token z (Z.of_nat (length z) - Z.of_nat (length r))) r
    end
  else Token tkOTHER (tail z).

Fixpoint complete_loop (fuel : nat) (state : Z) (z : list Z) : option bool :=
  match fuel with
  | O => None
  | S fuel' =>
      if chr z =? 0 then Some (state =? 0) else
      match complete_token z with
      | Token t rest => complete_loop fuel' (next_state state t) rest
      | Unfinished => Some false
      | AtEnd => Some (state =? 0)
      | OutOfBounds => None
      end
  end.

Definition sqlite_complete (zSql : list Z) : option bool := complete_loop (S (length zSql)) 0 zSql.
