(* ===== verification/TokenizeProofs.v ===== *)
(** The theorems about the tokenizer: the keyword hash finds exactly the keywords,
    every token lies inside the text, the parser gets exactly the tokens of the
    text, and [sqlite_complete] accepts exactly the complete statements. *)
From S2P Require Import Prelude Util Tokenize.

(** * Keywords *)

(** The indices on a chain. *)
Fixpoint chain_of (fuel : nat) (i : Z) : list nat :=
  match fuel with
  | O => []
  | S fuel' => if i =? 0 then [] else Z.to_nat (i - 1) :: chain_of fuel' (aget (iNext the_keywords) (i - 1))
  end.

Definition slot_chain (h : Z) : list nat := chain_of 100 (aget (aiHashTable the_keywords) h).

(** Every keyword is on the chain of its slot, the chains stay inside the table,
    and no two keywords are the same. *)
Definition keywords_placed : bool :=
  forallb (fun i => match aKeywordTable !! i with
                    | Some (k, _) => bool_decide (i ∈ slot_chain (keyword_slot k (strlen k)))
                    | None => false
                    end) (seq 0 100) &&
  forallb (fun h => forallb (fun i => (i <? 100)%nat) (slot_chain (Z.of_nat h))) (seq 0 101) &&
  bool_decide (NoDup (map (fun k => map lower (fst k)) aKeywordTable)) &&
  forallb (fun k => forallb (fun c => (0 <? c) && (c <? 256)) (fst k)) aKeywordTable.

Lemma keywords_placed_true : keywords_placed = true.
Proof. vm_compute. reflexivity. Qed.

Lemma table_length : length aKeywordTable = 100%nat.
Proof. vm_compute. reflexivity. Qed.

#[local] Opaque the_keywords aKeywordTable.

Lemma keyword_name k t : (k, t) ∈ aKeywordTable -> cstring k.
Proof.
  intros Hk. pose proof keywords_placed_true as H. unfold keywords_placed in H.
  rewrite !andb_true_iff in H. destruct H as [_ H]. rewrite forallb_forall in H.
  specialize (H (k, t) (proj1 (list_elem_of_In _ _) Hk)). rewrite forallb_forall in H.
  apply Forall_forall. intros c Hc%list_elem_of_In. specialize (H c Hc).
  rewrite andb_true_iff, !Z.ltb_lt in H. exact H.
Qed.

Lemma keyword_unique i j k k' t t' :
  aKeywordTable !! i = Some (k, t) -> aKeywordTable !! j = Some (k', t') ->
  map lower k = map lower k' -> i = j.
Proof.
  intros Hi Hj E. pose proof keywords_placed_true as H. unfold keywords_placed in H.
  rewrite !andb_true_iff in H. destruct H as [[_ H] _]. apply bool_decide_eq_true in H.
  eapply (NoDup_lookup _ _ _ (map lower k) H); rewrite list_lookup_fmap.
  - by rewrite Hi.
  - rewrite Hj. simpl. by rewrite E.
Qed.

Lemma keyword_on_chain i k t :
  aKeywordTable !! i = Some (k, t) -> i ∈ slot_chain (keyword_slot k (strlen k)).
Proof.
  intros Hi. pose proof keywords_placed_true as H. unfold keywords_placed in H.
  rewrite !andb_true_iff in H. destruct H as [[[H _] _] _]. rewrite forallb_forall in H.
  specialize (H i). rewrite Hi in H. apply bool_decide_eq_true in H; [done|].
  apply in_seq. apply lookup_lt_Some in Hi. rewrite table_length in Hi. lia.
Qed.

Lemma chain_in_table h i : 0 <= h < 101 -> i ∈ slot_chain h -> is_Some (aKeywordTable !! i).
Proof.
  intros Hh Hi. pose proof keywords_placed_true as H. unfold keywords_placed in H.
  rewrite !andb_true_iff in H. destruct H as [[[_ H] _] _]. rewrite forallb_forall in H.
  assert (Hs : In (Z.to_nat h) (seq 0 101)) by (apply in_seq; lia).
  specialize (H _ Hs). rewrite Z2Nat.id, forallb_forall in H by lia. apply list_elem_of_In in Hi.
  specialize (H i Hi). apply Nat.ltb_lt in H. apply lookup_lt_is_Some_2. by rewrite table_length.
Qed.

Lemma strlen_cstring k : cstring k -> strlen k = Z.of_nat (length k).
Proof.
  induction 1 as [|c k Hc _ IH]; [done|]. unfold cchar in Hc. cbn [strlen length].
  destruct (Z.eqb_spec c 0); lia.
Qed.

Lemma strnicmp_take n : forall a b, strnicmp_loop n a b = strnicmp_loop n a (take n b).
Proof.
  induction n as [|n IH]; intros a b; [done|]. destruct b as [|d b]; [done|].
  cbn [strnicmp_loop take chr tail]. by rewrite IH.
Qed.

Lemma hash_take n : forall h z, hash_loop n h z = hash_loop n h (take n z).
Proof. intros h z. apply hash_loop_ext. by rewrite take_take, Nat.min_id. Qed.

(** The keyword with the name [w], case aside. *)
Definition is_keyword (w k : list Z) : bool := bool_decide (map lower k = map lower w).

Definition keyword_spec (w : list Z) : token_type :=
  match find (fun k => is_keyword w (fst k)) aKeywordTable with
  | Some (_, t) => t
  | None => TK_ID
  end.

(** What the walk along the chain tests. *)
Lemma keyword_test k t z n : (k, t) ∈ aKeywordTable ->
  0 < n -> length (take (Z.to_nat n) z) = Z.to_nat n -> cstring (take (Z.to_nat n) z) ->
  (strlen k =? n) && (sqliteStrNICmp k z n =? 0) = is_keyword (take (Z.to_nat n) z) k.
Proof.
  intros Hk Hn Hl Hz. pose proof (keyword_name k t Hk) as Hc. rewrite strlen_cstring by done.
  unfold sqliteStrNICmp, is_keyword. rewrite strnicmp_take. set (w := take (Z.to_nat n) z) in *.
  assert (Hkey : forall s, cstring s -> nocase_key s).
  { induction s as [|c s IH]; [done|]. intros H. apply Forall_cons_1 in H as [Hc0 H].
    specialize (IH H). destruct s; [unfold cchar in Hc0; simpl; lia|done]. }
  destruct (Z.eqb_spec (Z.of_nat (length k)) n) as [E|E]; cbn [andb].
  - assert (Hi : strnicmp_loop (Z.to_nat n) k w = 0 <-> map lower k = map lower w)
      by (apply strnicmp_zero; auto; lia).
    apply Bool.eq_iff_eq_true. by rewrite Z.eqb_eq, bool_decide_eq_true.
  - symmetry. apply bool_decide_eq_false. intros E2%(f_equal length). rewrite !length_map in E2. lia.
Qed.

Lemma keyword_chain_find z n fuel : forall i,
  (forall j, j ∈ chain_of fuel i -> is_Some (aKeywordTable !! j)) ->
  keyword_chain fuel the_keywords i z n =
  match find (fun j => match aKeywordTable !! j with
                       | Some (k, _) => (strlen k =? n) && (sqliteStrNICmp k z n =? 0)
                       | None => false end) (chain_of fuel i) with
  | Some j => match aKeywordTable !! j with Some (_, t) => t | None => TK_ID end
  | None => TK_ID
  end.
Proof.
  induction fuel as [|fuel IH]; intros i Hin; [done|]. cbn [keyword_chain chain_of] in *.
  destruct (i =? 0); [done|]. cbn [find].
  destruct (Hin (Z.to_nat (i - 1))) as [[k t] Hk]; [left|]. rewrite Hk.
  destruct ((strlen k =? n) && (sqliteStrNICmp k z n =? 0)); [by rewrite Hk|].
  apply IH. intros j Hj. apply Hin. by right.
Qed.

Lemma slot_range z n : 0 <= keyword_slot z n < 101.
Proof. unfold keyword_slot, KEY_HASH_SIZE. apply Z.mod_pos_bound. lia. Qed.

Lemma keyword_slot_take k t z n : (k, t) ∈ aKeywordTable -> 0 < n ->
  length (take (Z.to_nat n) z) = Z.to_nat n -> is_keyword (take (Z.to_nat n) z) k = true ->
  keyword_slot k (strlen k) = keyword_slot z n.
Proof.
  intros Hk Hn Hl E%bool_decide_eq_true. rewrite strlen_cstring by (by eapply keyword_name).
  pose proof (f_equal length E) as El. rewrite !length_map in El.
  unfold keyword_slot, sqliteHashNoCase. replace (Z.of_nat (length k)) with n by lia.
  destruct (Z.leb_spec n 0); [lia|]. do 2 f_equal. rewrite (hash_take _ _ z).
  apply hash_loop_ext. rewrite E || idtac. rewrite take_ge by lia. rewrite E. by rewrite take_take, Nat.min_id.
Qed.

#[local] Opaque slot_chain.

Lemma keyword_code z n :
  0 < n -> length (take (Z.to_nat n) z) = Z.to_nat n -> cstring (take (Z.to_nat n) z) ->
  sqliteKeywordCode z n = keyword_spec (take (Z.to_nat n) z).
Proof.
  intros Hn Hl Hz. set (w := take (Z.to_nat n) z) in *.
  unfold sqliteKeywordCode. rewrite table_length, keyword_chain_find.
  2: { intros j Hj. by eapply chain_in_table; [apply (slot_range z n)|]. }
  change (chain_of 100 _) with (slot_chain (keyword_slot z n)). unfold keyword_spec.
  assert (Htest : forall j k t, aKeywordTable !! j = Some (k, t) ->
    (strlen k =? n) && (sqliteStrNICmp k z n =? 0) = is_keyword w k).
  { intros j k t Hj%list_elem_of_lookup_2. by eapply keyword_test. }
  destruct (find (fun k => is_keyword w (fst k)) aKeywordTable) as [[k t]|] eqn:Ef.
  - apply find_some in Ef as [Hin Hk]. apply list_elem_of_In, list_elem_of_lookup in Hin as [i Hi].
    simpl in Hk. pose proof (keyword_on_chain i k t Hi) as Hc.
    rewrite (keyword_slot_take k t z n) in Hc; [|by eapply list_elem_of_lookup_2|done..].
    destruct (find _ (slot_chain (keyword_slot z n))) as [j|] eqn:Ej.
    + apply find_some in Ej as [_ Hj]. destruct (aKeywordTable !! j) as [[k' t']|] eqn:Ek; [|done].
      rewrite (Htest _ _ _ Ek) in Hj. apply bool_decide_eq_true in Hk, Hj.
      assert (i = j) as -> by (eapply keyword_unique; [exact Hi|exact Ek|congruence]).
      rewrite Hi in Ek. by injection Ek as -> ->.
    + exfalso. apply list_elem_of_In in Hc. pose proof (find_none _ _ Ej i Hc) as Hno.
      clear Ej. cbv beta in Hno. rewrite Hi, (Htest _ _ _ Hi) in Hno. congruence.
  - destruct (find _ (slot_chain (keyword_slot z n))) as [j|] eqn:Ej; [|done]. exfalso.
    apply find_some in Ej as [_ Hj]. destruct (aKeywordTable !! j) as [[k' t']|] eqn:Ek; [|done].
    rewrite (Htest _ _ _ Ek) in Hj. apply list_elem_of_lookup_2, list_elem_of_In in Ek.
    pose proof (find_none _ _ Ef _ Ek) as Hno. cbv beta in Hno. cbn [fst] in Hno. congruence.
Qed.

(** C26: [sqliteKeywordCode] is right about every word: it gives the token of the
    keyword with that name, case aside, and [TK_ID] for all other words; its hash
    table loses no keyword. *)
Theorem keyword_correct z n :
  0 < n -> length (take (Z.to_nat n) z) = Z.to_nat n -> cstring (take (Z.to_nat n) z) ->
  sqliteKeywordCode z n = keyword_spec (take (Z.to_nat n) z).
Proof. apply keyword_code. Qed.

Lemma keyword_correct_witness :
  sqliteKeywordCode (bytes_of_string "Select*") 6 = keyword_spec (bytes_of_string "Select") /\
  keyword_spec (bytes_of_string "Select") = TK_SELECT.
Proof.
  split; [|vm_compute; reflexivity].
  apply (keyword_correct (bytes_of_string "Select*") 6); [lia|reflexivity|].
  repeat constructor; unfold cchar; simpl; lia.
Defined.

(** * Tokens stay inside the text *)

Lemma count_while_bound p z : 0 <= count_while p z <= Z.of_nat (length z).
Proof. induction z as [|c z IH]; cbn [count_while length]; [lia|]. destruct (p c); lia. Qed.

Lemma comment_bound z : forall last, 0 <= comment_loop last z <= Z.of_nat (length z).
Proof.
  induction z as [|c z IH]; intros last; cbn [comment_loop length]; [lia|].
  specialize (IH c). repeat case_match; lia.
Qed.

Lemma string_bound delim n : forall z, (length z <= n)%nat ->
  0 <= string_loop delim z <= Z.of_nat (length z).
Proof.
  induction n as [|n IH]; intros z Hn; destruct z as [|c z]; try (simpl in *; lia).
  cbn [string_loop length] in *. destruct (c =? 0); [lia|]. destruct (c =? delim).
  - destruct z as [|d z]; [lia|]. cbn [length] in *. destruct (d =? delim); [|lia].
    specialize (IH z). lia.
  - specialize (IH z). lia.
Qed.

Lemma bracket_bound z : forall last, 0 <= bracket_loop last z <= Z.of_nat (length z).
Proof.
  induction z as [|c z IH]; intros last; cbn [bracket_loop length]; [lia|].
  specialize (IH c). destruct ((c =? 0) || (last =? 93)); lia.
Qed.

Lemma from_length z i : 0 <= i -> Z.of_nat (length (from_ z i)) = Z.max 0 (Z.of_nat (length z) - i).
Proof. intros. unfold from_. rewrite length_drop. lia. Qed.

(** A character that is not the terminator is inside the text. *)
Lemma at_inside z i : 0 <= i -> at_ z i <> 0 -> i < Z.of_nat (length z).
Proof.
  intros Hi H. pose proof (from_length z i Hi) as E. unfold at_ in H. fold (from_ z i) in H.
  destruct (from_ z i) eqn:F; [done|]. cbn [length] in E. lia.
Qed.

Lemma isdigit_nonzero c : isdigit c = true -> c <> 0.
Proof. intros H%isdigit_spec. lia. Qed.

Lemma closed_bound z i : 0 <= i <= Z.of_nat (length z) -> i <= closed z i <= Z.of_nat (length z).
Proof.
  intros Hi. unfold closed. destruct (Z.eqb_spec (at_ z i) 0) as [|H]; [lia|].
  apply at_inside in H; lia.
Qed.

(** Turn the tests of the code into facts about characters, and those into facts
    about the length of the text. *)
Ltac inside :=
  repeat match goal with
  | H : _ || _ = true |- _ => apply orb_true_iff in H as [H|H]
  | H : _ && _ = true |- _ => apply andb_true_iff in H as [? ?]
  | H : (at_ _ _ =? _) = true |- _ => apply Z.eqb_eq in H
  | H : isdigit (at_ _ _) = true |- _ => apply isdigit_nonzero in H
  end;
  repeat match goal with
  | H : at_ ?z ?i = ?k |- _ =>
      match k with Z.pos _ => idtac end;
      assert (at_ z i <> 0) by lia; clear H
  | H : at_ ?z ?i <> 0 |- _ => apply at_inside in H; [|lia]
  end.

Lemma number_bound z : z <> [] -> 1 <= fst (get_number z) <= Z.of_nat (length z).
Proof.
  intros Hz. assert (1 <= Z.of_nat (length z)) by (destruct z; [done|simpl; lia]).
  unfold get_number. pose proof (count_while_bound isdigit (from_ z 1)) as H1.
  rewrite from_length in H1 by lia.
  set (i0 := 1 + count_while isdigit (from_ z 1)) in *. assert (Hi0 : 1 <= i0 <= Z.of_nat (length z)) by lia.
  clearbody i0. clear H1.
  assert (Hi : forall i, 1 <= i <= Z.of_nat (length z) -> at_ z (i + 1) <> 0 ->
    1 <= i + 2 + count_while isdigit (from_ z (i + 2)) <= Z.of_nat (length z)).
  { intros i Hi H1. apply at_inside in H1; [|lia].
    pose proof (count_while_bound isdigit (from_ z (i + 2))) as H2. rewrite from_length in H2 by lia. lia. }
  assert (Hexp : forall i t, 1 <= i <= Z.of_nat (length z) ->
    1 <= fst (if ((at_ z i =? 101) || (at_ z i =? 69)) &&
     (isdigit (at_ z (i + 1)) ||
      (((at_ z (i + 1) =? 43) || (at_ z (i + 1) =? 45)) && isdigit (at_ z (i + 2))))
     then (i + 2 + count_while isdigit (from_ z (i + 2)), TK_FLOAT) else (i, t)) <= Z.of_nat (length z)).
  { intros i t Hb. destruct (_ && _) eqn:E; [|done]. cbn [fst]. apply Hi; [done|].
    apply andb_true_iff in E as [_ [E%isdigit_nonzero|[E _]%andb_true_iff]%orb_true_iff]; [done|].
    apply orb_true_iff in E as [E%Z.eqb_eq|E%Z.eqb_eq]; lia. }
  destruct ((at_ z i0 =? 46) && isdigit (at_ z (i0 + 1))) eqn:E; [|by apply Hexp].
  apply andb_true_iff in E as [_ E%isdigit_nonzero]. by apply Hexp, Hi.
Qed.

(** The tests that precede a result of the tokenizer, one by one. *)
Ltac token_cases :=
  repeat match goal with
  | |- context [fst (if ?b then _ else _)] => destruct b eqn:?
  end; cbn [fst].

Lemma token_bound z : z <> [] ->
  1 <= fst (sqliteGetToken z) /\ (fst (sqliteGetToken z) <= Z.of_nat (length z) \/ z = [33]).
Proof.
  intros Hz. assert (Hl : 1 <= Z.of_nat (length z)) by (destruct z; [done|simpl; lia]).
  assert (Hc : forall p k, 1 <= k <= Z.of_nat (length z) ->
    1 <= k + count_while p (from_ z k) <= Z.of_nat (length z)).
  { intros p k Hk. pose proof (count_while_bound p (from_ z k)) as H. rewrite from_length in H by lia. lia. }
  unfold sqliteGetToken. cbv zeta. token_cases.
  all: try (split; [lia|left; lia]).
  all: try (pose proof (number_bound z Hz); split; [lia|left; lia]).
  all: try (match goal with |- context [1 + count_while ?p _] =>
    pose proof (Hc p 1 ltac:(lia)); split; [lia|left; lia] end).
  all: try (inside; match goal with |- context [2 + count_while ?p _] =>
    pose proof (Hc p 2 ltac:(lia)); split; [lia|left; lia] end).
  all: try (inside; split; [lia|left; lia]).
  - (* a comment *)
    assert (Hr : at_ z 2 <> 0).
    { intros E. rewrite E, orb_true_r in *. discriminate. }
    apply at_inside in Hr; [|lia].
    pose proof (comment_bound (from_ z 3) (at_ z 2)) as Hb. rewrite from_length in Hb by lia.
    pose proof (closed_bound z (3 + comment_loop (at_ z 2) (from_ z 3))). split; [lia|left; lia].
  - (* == *) destruct (at_ z 1 =? 61) eqn:E; inside; split; try lia; left; lia.
  - (* ! *)
    split; [lia|]. destruct z as [|c [|d z]]; [done|right|left; simpl; lia].
    match goal with H : (chr [c] =? 33) = true |- _ => apply Z.eqb_eq in H; simpl in H; by subst end.
  - (* != *)
    match goal with H : negb (at_ z 1 =? 61) = false |- _ =>
      apply negb_false_iff in H end.
    inside. split; [lia|left; lia].
  - (* || *)
    match goal with H : negb (at_ z 1 =? 124) = false |- _ =>
      apply negb_false_iff in H end.
    inside. split; [lia|left; lia].
  - (* a string *)
    pose proof (string_bound (chr z) (length (from_ z 1)) (from_ z 1) ltac:(lia)) as Hb.
    rewrite from_length in Hb by lia.
    pose proof (closed_bound z (1 + string_loop (chr z) (from_ z 1))). split; [lia|left; lia].
  - (* a bracketed name *)
    pose proof (bracket_bound (from_ z 1) (chr z)) as Hb. rewrite from_length in Hb by lia.
    split; [lia|left; lia].
Qed.

(** * The tokens of a text *)

(** All tokens with their texts; [None] when one is illegal. *)
Fixpoint tokens (fuel : nat) (z : list Z) : option (list (token_type * list Z)) :=
  match fuel with
  | O => if chr z =? 0 then Some [] else None
  | S fuel' =>
      if chr z =? 0 then Some [] else
      let '(n, t) := sqliteGetToken z in
      match t with
      | TK_ILLEGAL => None
      | _ => option_map (cons (t, take (Z.to_nat n) z)) (tokens fuel' (from_ z n))
      end
  end.

Definition significant (x : token_type * list Z) : bool :=
  match fst x with TK_SPACE | TK_COMMENT => false | _ => true end.

(** The cases of one more token, however many kinds there are. *)
Lemma tokens_step fuel z n t : cstring z -> z <> [] -> sqliteGetToken z = (n, t) ->
  tokens (S fuel) z =
  match t with
  | TK_ILLEGAL => None
  | _ => option_map (cons (t, take (Z.to_nat n) z)) (tokens fuel (from_ z n))
  end.
Proof.
  intros Hz Hne E. cbn [tokens]. destruct (Z.eqb_spec (chr z) 0) as [H|_]; [by apply chr_zero in H|].
  by rewrite E.
Qed.

Lemma illegal_or_not t : t = TK_ILLEGAL \/ t <> TK_ILLEGAL.
Proof. destruct t; first [left; reflexivity | right; discriminate]. Qed.

(** A legal token is a non-empty prefix of the text. *)
Lemma legal_token z n t : cstring z -> z <> [] -> sqliteGetToken z = (n, t) -> t <> TK_ILLEGAL ->
  1 <= n <= Z.of_nat (length z) /\ cstring (from_ z n) /\
  (length (from_ z n) < length z)%nat /\ take (Z.to_nat n) z ++ from_ z n = z.
Proof.
  intros Hz Hne E Ht. pose proof (token_bound z Hne) as [H1 H2]. rewrite E in *. cbn [fst] in *.
  assert (Hn : 1 <= n <= Z.of_nat (length z)).
  { split; [done|]. destruct H2 as [?| ->]; [done|]. vm_compute in E. by injection E as _ <-. }
  split; [done|]. split; [by apply Forall_drop|]. split; [|apply take_drop].
  pose proof (from_length z n ltac:(lia)). lia.
Qed.

Lemma tokens_step_some fuel z ts : cstring z -> z <> [] -> tokens (S fuel) z = Some ts ->
  exists n t ts', sqliteGetToken z = (n, t) /\ t <> TK_ILLEGAL /\
    tokens fuel (from_ z n) = Some ts' /\ ts = (t, take (Z.to_nat n) z) :: ts'.
Proof.
  intros Hz Hne H. destruct (sqliteGetToken z) as [n t] eqn:E. exists n, t.
  rewrite (tokens_step fuel z n t Hz Hne E) in H.
  assert (Ht : t <> TK_ILLEGAL) by (by intros ->).
  destruct (tokens fuel (from_ z n)) as [ts'|]; [exists ts'|by destruct t].
  repeat split; try done. by destruct t; first [done | injection H as <-].
Qed.

(** * What the parser gets *)

Section Feed.
Context {E : Type} (step : option token_type -> list Z -> E -> E)
  (sqliteParser : option token_type -> list Z -> Parse E -> Parse E).

(** No error and no interruption so far. *)
Definition healthy_parse (p : Parse E) : Prop :=
  p_rc p = 0 /\ p_interrupt p = false /\ p_malloc_failed p = false /\ p_zErrMsg p = None.

(** A parser that accepts everything; what it does to its own state is [step]. *)
Context (Hstep : forall t x p, p_engine (sqliteParser t x p) = step t x (p_engine p))
  (Haccept : forall t x p, healthy_parse p -> healthy_parse (sqliteParser t x p))
  (Hlast : forall t x p, p_sLastToken (sqliteParser t x p) = p_sLastToken p).

Definition feed (ts : list (token_type * list Z)) (e : E) : E :=
  fold_left (fun e x => step (Some (fst x)) (snd x) e) (List.filter significant ts) e.

Definition last_significant (ts : list (token_type * list Z)) (d : option token_type) : option token_type :=
  fold_left (fun _ x => Some (fst x)) (List.filter significant ts) d.

Lemma parse_loop_feed fuel : forall z ts p last pz,
  cstring z -> tokens fuel z = Some ts -> healthy_parse p ->
  exists p', parse_loop sqliteParser fuel z last p pz =
      mkStopped (Some []) (last_significant ts last) 0 p' pz /\
    healthy_parse p' /\ p_engine p' = feed ts (p_engine p) /\
    p_sLastToken p' = List.last (map snd ts) (p_sLastToken p).
Proof.
  induction fuel as [|fuel IH]; intros z ts p last pz Hz H Hp.
  { cbn [tokens] in H. destruct (Z.eqb_spec (chr z) 0) as [H0|]; [|done].
    apply chr_zero in H0 as ->; [|done]. injection H as <-. by exists p. }
  destruct (decide (z = [])) as [->|Hne].
  { injection H as <-. exists p. cbn [parse_loop chr]. by rewrite orb_true_r. }
  pose proof H as (n & t & ts' & Eg & Ht & H' & ->)%tokens_step_some; [|done..].
  destruct (legal_token z n t Hz Hne Eg Ht) as (Hn & Hz' & Hl & _). cbn [parse_loop].
  destruct (Z.eqb_spec (chr z) 0) as [H0|_]; [by apply chr_zero in H0|].
  pose proof Hp as (Hrc & Hint & Hmal & Herr). rewrite Hmal, Eg. cbn [orb]. cbv zeta.
  set (tok := take (Z.to_nat n) z). set (q := set_sLastToken tok p).
  assert (Hq : healthy_parse q) by done.
  assert (Hlast' : forall d, List.last (map snd ((t, tok) :: ts')) d = List.last (map snd ts') tok).
  { intros d. simpl. destruct (map snd ts') as [|x xs] eqn:Ex; [done|].
    clear. revert x. induction xs as [|y xs IHx]; intros x; [done|]. simpl in *. by rewrite IHx. }
  assert (Hskip : significant (t, tok) = false ->
    exists p', parse_loop sqliteParser fuel (from_ z n) last q pz =
      mkStopped (Some []) (last_significant ((t, tok) :: ts') last) 0 p' pz /\
    healthy_parse p' /\ p_engine p' = feed ((t, tok) :: ts') (p_engine p) /\
    p_sLastToken p' = List.last (map snd ((t, tok) :: ts')) (p_sLastToken p)).
  { intros Hs. destruct (IH (from_ z n) ts' q last pz Hz' H' Hq) as (p' & E1 & E2 & E3 & E4).
    exists p'. unfold last_significant, feed. cbn [List.filter]. rewrite Hs, Hlast'. done. }
  assert (Htake : forall q', healthy_parse q' -> p_engine q' = p_engine p -> p_sLastToken q' = tok ->
    significant (t, tok) = true ->
    exists p', (if negb (p_rc (sqliteParser (Some t) tok q') =? 0)
      then mkStopped (if n <=? Z.of_nat (length z) then Some (from_ z n) else None) (Some t) 0
             (sqliteParser (Some t) tok q') pz
      else parse_loop sqliteParser fuel (from_ z n) (Some t) (sqliteParser (Some t) tok q') pz) =
      mkStopped (Some []) (last_significant ((t, tok) :: ts') last) 0 p' pz /\
    healthy_parse p' /\ p_engine p' = feed ((t, tok) :: ts') (p_engine p) /\
    p_sLastToken p' = List.last (map snd ((t, tok) :: ts')) (p_sLastToken p)).
  { intros q' Hq' Ee El Hs. pose proof (Haccept (Some t) tok q' Hq') as Hq2.
    destruct Hq2 as (Hrc2 & Hq2'). rewrite Hrc2. cbn [Z.eqb negb].
    destruct (IH (from_ z n) ts' (sqliteParser (Some t) tok q') (Some t) pz Hz' H') as (p' & E1 & E2 & E3 & E4);
      [by split|].
    exists p'. unfold last_significant, feed. cbn [List.filter]. rewrite Hs, Hlast'. cbn [fold_left fst snd].
    rewrite E3, E4, Hstep, Hlast, Ee, El. done. }
  destruct t; try (by apply Hskip); try (by apply Htake).
  all: try (change (p_interrupt q) with (p_interrupt p); rewrite Hint; by apply Hskip).
  done.
Qed.

(** The parser's own state at the end of a text with the tokens [ts]. *)
Definition fed (ts : list (token_type * list Z)) (last : list Z) (e : E) : E :=
  let e := feed ts e in
  let x := List.last (map snd ts) last in
  let e := match last_significant ts None with Some TK_SEMI => e | _ => step (Some TK_SEMI) x e end in
  step None x e.

(** [sqliteRunParser] hands a parser that reports no error exactly the
    significant tokens of the text, in order, then a semicolon unless the last one
    was a semicolon, then the end of the input; and it reports no error itself. *)
Theorem run_parser_feeds zSql ts p pz :
  cstring zSql -> tokens (length zSql) zSql = Some ts ->
  p_malloc_failed p = false -> p_zErrMsg p = None ->
  exists p', sqliteRunParser sqliteParser true zSql p pz = Some (0, p', pz) /\
    p_engine p' = fed ts (p_sLastToken p) (p_engine p).
Proof.
  intros Hz Ht Hm He. unfold sqliteRunParser. cbn [negb].
  set (q := set_zTail zSql _). assert (Hq : healthy_parse q) by done.
  destruct (parse_loop_feed (length zSql) zSql ts q None pz Hz Ht Hq) as (p1 & -> & Hp1 & E1 & L1).
  unfold finish_input. cbn [st_rest st_parse st_nErr st_last st_msg chr].
  destruct Hp1 as (Hrc & Hp1). rewrite Hrc. cbn [Z.eqb andb].
  set (p2 := match last_significant ts None with Some TK_SEMI => p1 | _ => _ end).
  assert (H2 : healthy_parse p2 /\ p_sLastToken p2 = p_sLastToken p1 /\
    p_engine p2 = match last_significant ts None with
      | Some TK_SEMI => p_engine p1
      | _ => step (Some TK_SEMI) (p_sLastToken p1) (p_engine p1) end).
  { assert (Ha : healthy_parse (set_zTail [] (sqliteParser (Some TK_SEMI) (p_sLastToken p1) p1)) /\
      p_sLastToken (set_zTail [] (sqliteParser (Some TK_SEMI) (p_sLastToken p1) p1)) = p_sLastToken p1 /\
      p_engine (set_zTail [] (sqliteParser (Some TK_SEMI) (p_sLastToken p1) p1)) =
        step (Some TK_SEMI) (p_sLastToken p1) (p_engine p1)).
    { split; [apply Haccept; by split|]. split; [apply Hlast|apply Hstep]. }
    unfold p2. by destruct (last_significant ts None) as [[]|]. }
  destruct H2 as (H2 & L2 & E2).
  pose proof (Haccept None (p_sLastToken p2) p2 H2) as (Hrc3 & _ & _ & Herr3).
  rewrite Hrc3. cbn [Z.eqb negb andb]. rewrite Herr3. eexists. split; [reflexivity|].
  transitivity (p_engine (sqliteParser None (p_sLastToken p2) p2)); [reflexivity|].
  rewrite Hstep, L2, L1, E2, L1, E1. reflexivity.
Qed.
End Feed.

(** A parser that records what it gets. *)
Definition recorder (t : option token_type) (x : list Z) (p : Parse (list (option token_type))) :
    Parse (list (option token_type)) :=
  mkParse (p_rc p) (p_sLastToken p) (p_zTail p) (p_zErrMsg p) (p_nErr p) (p_pVdbe p) (p_pNewTable p)
    (p_pNewTrigger p) (p_interrupt p) (p_malloc_failed p) (p_engine p ++ [t]).

Lemma run_parser_feeds_witness :
  exists p', sqliteRunParser recorder true (bytes_of_string "select 1") 
      (mkParse 0 [] [] None 0 false false false false false []) None = Some (0, p', None) /\
    p_engine p' = [Some TK_SELECT; Some TK_INTEGER; Some TK_SEMI; None].
Proof.
  apply (run_parser_feeds (fun t _ e => e ++ [t]) recorder ltac:(done) ltac:(done) ltac:(done)
    (bytes_of_string "select 1")
    [(TK_SELECT, bytes_of_string "select"); (TK_SPACE, [32]); (TK_INTEGER, [49])]).
  - repeat constructor; unfold cchar; simpl; lia.
  - vm_compute. reflexivity.
  - reflexivity.
  - reflexivity.
Defined.

(** * What comes out, whatever the parser does *)

Section Outcome.
Context {E : Type} (sqliteParser : option token_type -> list Z -> Parse E -> Parse E).

(** Where the loop stops: it may have put a message only if it stopped for an error,
    and it reads behind the terminator only for an exclamation mark at the end. *)
Definition message_kept (pz pz' : option (option (list Z))) : Prop :=
  pz' = pz \/ exists m, pz' = set_message m pz.

Definition stops_well (z : list Z) (pz : option (option (list Z))) (s : stopped (E := E)) : Prop :=
  message_kept pz (st_msg s) /\
  (st_nErr s = 0 \/ st_nErr s = 1 /\ exists m, st_msg s = set_message m pz) /\
  (st_rest s = None -> exists u, z = u ++ [33]).

Lemma stops_at z pz (rest : option (list Z)) last p :
  (rest = None -> exists u, z = u ++ [33]) -> stops_well z pz (mkStopped rest last 0 p pz).
Proof. intros H. split; [by left|]. split; [by left|done]. Qed.

Lemma stops_message z pz (rest : option (list Z)) last nErr p m :
  (rest = None -> exists u, z = u ++ [33]) -> nErr = 0 \/ nErr = 1 ->
  stops_well z pz (mkStopped rest last nErr p (set_message m pz)).
Proof.
  intros H Hn. split; [right; by eexists|]. split; [|done].
  destruct Hn as [->| ->]; [by left|right]. split; [done|]. by eexists.
Qed.

Lemma parse_loop_stops fuel : forall z last p pz, cstring z ->
  stops_well z pz (parse_loop sqliteParser fuel z last p pz).
Proof.
  induction fuel as [|fuel IH]; intros z last p pz Hz; cbn [parse_loop]; [by apply stops_at|].
  destruct (p_malloc_failed p); cbn [orb]; [by apply stops_at|].
  destruct (Z.eqb_spec (chr z) 0) as [_|H0]; [by apply stops_at|].
  assert (Hne : z <> []) by (by intros ->).
  destruct (sqliteGetToken z) as [n t] eqn:Eg. pose proof (token_bound z Hne) as [Hn1 Hn2]. rewrite Eg in Hn1, Hn2.
  cbn [fst] in Hn1, Hn2. set (rest := if n <=? Z.of_nat (length z) then _ else None).
  assert (Hrest : rest = None -> exists u, z = u ++ [33]).
  { unfold rest. destruct (Z.leb_spec n (Z.of_nat (length z))); [done|]. intros _.
    destruct Hn2 as [?| ->]; [lia|by exists []]. }
  clearbody rest.
  assert (Hgo : forall last p, stops_well z pz (parse_loop sqliteParser fuel (from_ z n) last p pz)).
  { intros last' p'. destruct (IH (from_ z n) last' p' pz) as (H1 & H2 & H3); [by apply Forall_drop|].
    split; [done|]. split; [done|]. intros Hr. destruct (H3 Hr) as [u Eu]. exists (take (Z.to_nat n) z ++ u).
    rewrite <-app_assoc, <-Eu. unfold from_. by rewrite take_drop. }
  clear IH Hn2. set (p1 := set_sLastToken _ p).
  destruct t; cbv zeta; try (apply stops_message; [done|by right]);
    match goal with |- stops_well _ _ (if ?b then _ else _) => destruct b end;
    first [apply Hgo | by apply stops_at | apply stops_message; [done|by left]].
Qed.

(** C28: whatever the generated parser does, [sqliteRunParser], when it has memory for
    the parser, reports 0 exactly when the result code it leaves is SQLITE_OK or
    SQLITE_DONE, and otherwise leaves a message if it was given room for one that is
    still empty; it leaves no message, table or trigger in the parser's state, and no
    program if the parser counted an error; and it stays inside every text that does
    not end in an exclamation mark. *)
Theorem run_parser_outcome zSql p pz : cstring zSql ->
  match sqliteRunParser sqliteParser true zSql p pz with
  | None => exists u, zSql = u ++ [33]
  | Some (nErr, p', pz') =>
      (nErr = 0 <-> p_rc p' = 0 \/ p_rc p' = 101) /\ 0 <= nErr /\
      (nErr <> 0 -> pz = Some None -> exists m, pz' = Some (Some m)) /\
      (pz = None -> pz' = None) /\
      p_zErrMsg p' = None /\ p_pNewTable p' = false /\ p_pNewTrigger p' = false /\
      (0 < p_nErr p' -> p_pVdbe p' = false)
  end.
Proof.
  intros Hz. unfold sqliteRunParser. cbn [negb].
  set (q := set_zTail zSql _).
  pose proof (parse_loop_stops (length zSql) zSql None q pz Hz) as (Hmsg & Hn & Hrest).
  set (s := parse_loop sqliteParser (length zSql) zSql None q pz) in *. clearbody s.
  destruct (finish_input sqliteParser s) as [p1|] eqn:Ef.
  2: { apply Hrest. unfold finish_input in Ef. destruct (st_rest s) as [z'|]; [|done].
       by destruct ((chr z' =? 0) && (st_nErr s =? 0) && (p_rc (st_parse s) =? 0)). }
  clear Hrest Ef q Hz.
  assert (Hkeep : pz = None -> st_msg s = None) by (intros ->; by destruct Hmsg as [->|[m ->]]).
  assert (Hsome : forall m, pz = Some None ->
    exists m', match st_msg s with Some None => Some (Some m) | pz => pz end = Some (Some m')).
  { intros m ->. destruct Hmsg as [->|[m' ->]]; by eexists. }
  match goal with |- context [if ?b then set_zErrMsg ?m p1 else p1] => set (p2 := if b then set_zErrMsg m p1 else p1) end.
  assert (H2 : p_rc p2 = p_rc p1 /\ (p_zErrMsg p2 = None -> p_rc p1 = 0 \/ p_rc p1 = 101)).
  { unfold p2. destruct (Z.eqb_spec (p_rc p1) 0), (Z.eqb_spec (p_rc p1) 101), (p_zErrMsg p1) eqn:E1;
      cbn [negb andb]; (split; [done|]); auto; cbn; congruence. }
  destruct H2 as [Hrc H2]. clearbody p2.
  destruct (p_zErrMsg p2) as [m|] eqn:Em.
  - assert (Hn1 : (if st_nErr s =? 0 then 1 else st_nErr s) = 1) by (by destruct Hn as [->|[-> _]]).
    rewrite Hn1. cbn -[Z.eqb]. rewrite Hrc.
    destruct (Z.eqb_spec (p_rc p1) 0) as [E0|E0], (Z.eqb_spec (p_rc p1) 101) as [E1|E1]; cbn [orb];
      cbn; rewrite ?Hrc; (split; [lia|]); (split; [lia|]); (split; [by intros _; apply Hsome|]);
      (split; [by intros ->; rewrite (Hkeep eq_refl)|]); repeat (split; [done|]); cbn;
      intros Hp; apply Z.ltb_lt in Hp; by rewrite Hp, andb_false_r.
  - specialize (H2 eq_refl). cbn -[Z.eqb Z.ltb]. rewrite Hrc.
    assert (Hok : (p_rc p1 =? 0) || (p_rc p1 =? 101) = true) by lia. rewrite Hok, andb_true_r.
    assert (Hv : 0 < p_nErr p2 -> p_pVdbe p2 && negb (0 <? p_nErr p2) = false).
    { intros Hp%Z.ltb_lt. by rewrite Hp, andb_false_r. }
    destruct Hn as [-> | [-> [m Hm]]]; cbn.
    + rewrite Hrc. split; [done|]. split; [done|]. split; [done|]. split; [by intros ->; apply Hkeep|].
      by repeat (split; [done|]).
    + split; [lia|]. split; [lia|]. split; [intros _ ->; rewrite Hm; by eexists|].
      split; [by intros ->; apply Hkeep|]. by repeat (split; [done|]).
Qed.
End Outcome.

Lemma run_parser_outcome_witness :
  exists m p', sqliteRunParser recorder true (text "select $")
      (mkParse 0 [] [] None 0 false true false false false []) (Some None) = Some (1, p', Some (Some m)) /\
    m = text "unrecognized token: " ++ [34; 36; 34] /\ p_rc p' = 1 /\ p_pNewTable p' = false.
Proof.
  pose proof (run_parser_outcome recorder (text "select $")
    (mkParse 0 [] [] None 0 false true false false false []) (Some None)) as H.
  destruct (sqliteRunParser recorder true (text "select $") _ _) as [[[nErr p'] pz']|] eqn:E; [|by vm_compute in E].
  assert (Hz : cstring (text "select $")) by (repeat constructor; unfold cchar; simpl; lia).
  destruct (H Hz) as (_ & _ & _ & _ & _ & Ht & _). vm_compute in E. injection E as <- <- <-.
  by eexists _, _.
Defined.

(** An exclamation mark that is not followed by an equals sign is an illegal token
    of two characters, so at the end of a text it covers the terminator, and
    [sqliteRunParser] goes on to read the byte behind it. *)
Theorem run_parser_overrun E (sqliteParser : option token_type -> list Z -> Parse E -> Parse E) p pz :
  p_malloc_failed p = false ->
  sqliteGetToken [33] = (2, TK_ILLEGAL) /\ sqliteRunParser sqliteParser true [33] p pz = None.
Proof.
  intros Hm. split; [vm_compute; reflexivity|]. unfold sqliteRunParser. cbn [negb length].
  unfold parse_loop. cbn [p_malloc_failed set_zTail set_rc set_interrupt]. rewrite Hm.
  replace (sqliteGetToken [33]) with (2, TK_ILLEGAL) by (vm_compute; reflexivity). reflexivity.
Qed.

Lemma run_parser_overrun_witness :
  sqliteRunParser recorder true [33] (mkParse 0 [] [] None 0 false false false false false []) None = None.
Proof. apply (run_parser_overrun _ recorder). reflexivity. Defined.
