(* ===== verification/TokenGrammar.v ===== *)
(** The lexical grammar of SQL texts, as a relation between a token, the text behind it
    and its type, and that [sqliteGetToken] finds exactly the tokens of the grammar. *)
From S2P Require Import Prelude Util Tokenize TokenizeProofs.

(** * The grammar *)

(** An operator, the characters behind it that would make it another token, and its
    type. *)
Definition operators : list (list Z * list Z * token_type) :=
  [(text "-", text "-", TK_MINUS); (text "(", [], TK_LP); (text ")", [], TK_RP);
   (text ";", [], TK_SEMI); (text "+", [], TK_PLUS); (text "*", [], TK_STAR); (text "%", [], TK_REM);
   (text "=", text "=", TK_EQ); (text "==", [], TK_EQ);
   (text "<", text "=><", TK_LT); (text "<=", [], TK_LE); (text "<>", [], TK_NE); (text "<<", [], TK_LSHIFT);
   (text ">", text "=>", TK_GT); (text ">=", [], TK_GE); (text ">>", [], TK_RSHIFT);
   (text "!=", [], TK_NE); (text "|", text "|", TK_BITOR); (text "||", [], TK_CONCAT);
   (text ",", [], TK_COMMA); (text "&", [], TK_BITAND); (text "~", [], TK_BITNOT);
   (text ".", [], TK_DOT); (text "?", [], TK_VARIABLE)].

(** No end of a comment in a text. *)
Fixpoint no_close (s : list Z) : bool :=
  match s with
  | c :: s' => negb ((c =? 42) && (chr s' =? 47)) && no_close s'
  | [] => true
  end.

Definition word_char (c : Z) : bool := high_bit c || id_char c.
Definition digits (s : list Z) : Prop := s <> [] /\ Forall (fun c => isdigit c = true) s.

(** The parts of a number behind its first digits; what is in front of such a part. *)
Inductive fraction : list Z -> Prop :=
| no_fraction : fraction []
| a_fraction s : digits s -> fraction (46 :: s).

Inductive exponent : list Z -> Prop :=
| no_exponent : exponent []
| an_exponent e sign s : e = 101 \/ e = 69 -> sign ∈ [[]; [43]; [45]] -> digits s -> exponent (e :: sign ++ s).

Definition fraction_ahead (r : list Z) : bool := (chr r =? 46) && isdigit (chr (tail r)).
Definition exponent_ahead (r : list Z) : bool :=
  ((chr r =? 101) || (chr r =? 69)) &&
  (isdigit (chr (tail r)) ||
   (((chr (tail r) =? 43) || (chr (tail r) =? 45)) && isdigit (chr (tail (tail r))))).

(** [token x r t]: the text [x] is a token of type [t] when [r] follows; a token is as
    long as it can be. *)
Inductive token : list Z -> list Z -> token_type -> Prop :=
| t_space c s r : c ∈ [32; 9; 10; 12; 13] -> Forall (fun c => isspace c = true) s -> isspace (chr r) = false ->
    token (c :: s) r TK_SPACE
| t_line_comment s r : Forall (fun c => c <> 10) s -> r = [] \/ chr r = 10 -> token (text "--" ++ s) r TK_COMMENT
| t_comment s r : no_close (s ++ text "*") = true -> token (text "/*" ++ s ++ text "*/") r TK_COMMENT
| t_open_comment s : s <> [] -> no_close s = true -> token (text "/*" ++ s) [] TK_COMMENT
| t_slash r : chr r <> 42 \/ r = text "*" -> token (text "/") r TK_SLASH
| t_operator x f t r : (x, f, t) ∈ operators -> chr r ∉ f -> token x r t
| t_string q s r : q ∈ text "'" ++ [34] -> chr r <> q -> token (q :: doubled q s ++ [q]) r TK_STRING
| t_open_string q s : q ∈ text "'" ++ [34] -> token (q :: doubled q s) [] TK_STRING
| t_integer s r : digits s -> isdigit (chr r) = false -> fraction_ahead r = false -> exponent_ahead r = false ->
    token s r TK_INTEGER
| t_float s f e r : digits s -> fraction f -> exponent e -> f ++ e <> [] -> isdigit (chr r) = false ->
    (e = [] -> exponent_ahead r = false) -> token (s ++ f ++ e) r TK_FLOAT
| t_name s r : Forall (fun c => c <> 93) s -> token (text "[" ++ s ++ text "]") r TK_ID
| t_open_name s : Forall (fun c => c <> 93) s -> token (text "[" ++ s) [] TK_ID
| t_word c s r : word_char c = true -> isdigit c = false -> Forall (fun c => word_char c = true) s ->
    word_char (chr r) = false -> token (c :: s) r (keyword_spec (c :: s)).


(** * Loops of the tokenizer *)

Lemma count_while_app p s r : Forall (fun c => p c = true) s -> (r <> [] -> p (chr r) = false) ->
  count_while p (s ++ r) = Z.of_nat (length s).
Proof.
  intros Hs Hr. induction Hs as [|c s Hc _ IH]; cbn [app count_while length].
  - destruct r as [|c r]; [done|]. specialize (Hr ltac:(done)). cbn in *. by rewrite Hr.
  - rewrite Hc, IH. lia.
Qed.


Lemma string_loop_doubled q s r : cstring s -> q <> 0 -> chr r <> q ->
  string_loop q (doubled q s ++ q :: r) = Z.of_nat (length (doubled q s)).
Proof.
  intros Hs Hq Hr. induction Hs as [|c s Hc _ IH]; cbn [doubled app string_loop length].
  - destruct (Z.eqb_spec q 0); [done|]. rewrite Z.eqb_refl. destruct r as [|d r]; [done|].
    simpl in Hr. by destruct (Z.eqb_spec d q).
  - unfold cchar in Hc. destruct (Z.eqb_spec c q) as [->|Hne]; cbn [app string_loop length].
    + destruct (Z.eqb_spec q 0); [done|]. rewrite Z.eqb_refl, IH. lia.
    + destruct (Z.eqb_spec c 0); [lia|]. destruct (Z.eqb_spec c q); [done|]. rewrite IH. lia.
Qed.

Lemma string_loop_open q s : cstring s -> q <> 0 ->
  string_loop q (doubled q s) = Z.of_nat (length (doubled q s)).
Proof.
  intros Hs Hq. induction Hs as [|c s Hc _ IH]; [done|].
  cbn [doubled]. unfold cchar in Hc. destruct (Z.eqb_spec c q) as [->|Hne]; cbn [app string_loop length].
  - destruct (Z.eqb_spec q 0); [done|]. rewrite Z.eqb_refl, IH. lia.
  - destruct (Z.eqb_spec c 0); [lia|]. destruct (Z.eqb_spec c q); [done|]. rewrite IH. lia.
Qed.


Lemma comment_loop_closed s r : forall a z, a :: z = s ++ 42 :: 47 :: r -> cstring z -> no_close (s ++ [42]) = true ->
  comment_loop a z = Z.of_nat (length s).
Proof.
  induction s as [|x s IH]; intros a z E Hz Hs; cbn [app] in E; injection E as -> ->; [done|].
  cbn [app no_close length] in *. apply andb_true_iff in Hs as [Hx Hs].
  destruct (s ++ 42 :: 47 :: r) as [|b z] eqn:E; [by destruct s|].
  apply Forall_cons_1 in Hz as [Hb Hz]. unfold cchar in Hb.
  assert (Hbs : chr (s ++ [42]) = b) by (destruct s; by injection E).
  rewrite Hbs in Hx. cbn [comment_loop]. destruct (Z.eqb_spec b 0); [lia|].
  rewrite andb_comm. destruct ((x =? 42) && (b =? 47)); [done|].
  rewrite (IH b z) by done. lia.
Qed.

Lemma comment_loop_open z : forall a, cstring z -> no_close (a :: z) = true -> comment_loop a z = Z.of_nat (length z).
Proof.
  induction z as [|b z IH]; intros a Hz Hc; [done|]. cbn [no_close] in Hc. apply andb_true_iff in Hc as [Ha Hc].
  apply Forall_cons_1 in Hz as [Hb Hz]. unfold cchar in Hb. cbn [comment_loop length]. cbn [chr] in Ha.
  destruct (Z.eqb_spec b 0); [lia|]. rewrite andb_comm. destruct ((a =? 42) && (b =? 47)); [done|].
  rewrite IH by done. lia.
Qed.


Lemma bracket_loop_closed s r : forall a, a <> 93 -> cstring s -> Forall (fun c => c <> 93) s ->
  bracket_loop a (s ++ 93 :: r) = Z.of_nat (length s) + 1.
Proof.
  induction s as [|c s IH]; intros a Ha Hs Hc; cbn [app bracket_loop length].
  - destruct (Z.eqb_spec a 93); [done|]. cbn [orb]. destruct r as [|d r]; [done|]. cbn [bracket_loop].
    by rewrite orb_true_r.
  - apply Forall_cons_1 in Hs as [H0 Hs]. apply Forall_cons_1 in Hc as [H1 Hc]. unfold cchar in H0.
    destruct (Z.eqb_spec c 0); [lia|]. destruct (Z.eqb_spec a 93); [done|]. cbn [orb]. rewrite IH by done. lia.
Qed.

Lemma bracket_loop_open s : forall a, a <> 93 -> cstring s -> Forall (fun c => c <> 93) s ->
  bracket_loop a s = Z.of_nat (length s).
Proof.
  induction s as [|c s IH]; intros a Ha Hs Hc; cbn [bracket_loop length]; [done|].
  apply Forall_cons_1 in Hs as [H0 Hs]. apply Forall_cons_1 in Hc as [H1 Hc]. unfold cchar in H0.
  destruct (Z.eqb_spec c 0); [lia|]. destruct (Z.eqb_spec a 93); [done|]. cbn [orb]. rewrite IH by done. lia.
Qed.

(** ** Positions *)

Lemma at_behind s r k : 0 <= k -> at_ (s ++ r) (Z.of_nat (length s) + k) = chr (drop (Z.to_nat k) r).
Proof. intros. unfold at_. rewrite Z2Nat.inj_add, Nat2Z.id, drop_app_add by lia. done. Qed.

Lemma from_behind s r k : 0 <= k -> from_ (s ++ r) (Z.of_nat (length s) + k) = drop (Z.to_nat k) r.
Proof. intros. unfold from_. by rewrite Z2Nat.inj_add, Nat2Z.id, drop_app_add by lia. Qed.

Lemma at_length s r : at_ (s ++ r) (Z.of_nat (length s)) = chr r.
Proof. rewrite <-(Z.add_0_r (Z.of_nat _)), at_behind by lia. done. Qed.

Lemma chr_tail r : chr (drop 1 r) = chr (tail r).
Proof. by destruct r. Qed.
Lemma chr_tail2 r : chr (drop 2 r) = chr (tail (tail r)).
Proof. by destruct r as [|? []]. Qed.

Lemma fraction_ahead_at s r :
  (at_ (s ++ r) (Z.of_nat (length s)) =? 46) && isdigit (at_ (s ++ r) (Z.of_nat (length s) + 1)) = fraction_ahead r.
Proof. rewrite at_length, at_behind by lia. change (Z.to_nat 1) with 1%nat. by rewrite chr_tail. Qed.

Lemma exponent_ahead_at s r (i := Z.of_nat (length s)) (z := s ++ r) :
  ((at_ z i =? 101) || (at_ z i =? 69)) &&
  (isdigit (at_ z (i + 1)) || (((at_ z (i + 1) =? 43) || (at_ z (i + 1) =? 45)) && isdigit (at_ z (i + 2)))) =
  exponent_ahead r.
Proof.
  unfold z, i. rewrite at_length, !at_behind by lia. change (Z.to_nat 1) with 1%nat. change (Z.to_nat 2) with 2%nat.
  by rewrite chr_tail, chr_tail2.
Qed.

(** ** Numbers *)

Lemma digit_not_special c : isdigit c = true -> c <> 46 /\ c <> 101 /\ c <> 69 /\ c <> 43 /\ c <> 45.
Proof. intros H%isdigit_spec. lia. Qed.

Lemma digits_cons s : digits s -> exists d s', s = d :: s' /\ isdigit d = true /\ Forall (fun c => isdigit c = true) s'.
Proof. intros [Hne Hs]. destruct s as [|d s]; [done|]. apply Forall_cons_1 in Hs as [? ?]. by exists d, s. Qed.

(** The part of the code for the exponent. *)
Lemma exponent_step u e r t (z := u ++ e ++ r) (i := Z.of_nat (length u)) :
  exponent e -> isdigit (chr r) = false -> (e = [] -> exponent_ahead r = false) ->
  (if ((at_ z i =? 101) || (at_ z i =? 69)) &&
     (isdigit (at_ z (i + 1)) ||
      (((at_ z (i + 1) =? 43) || (at_ z (i + 1) =? 45)) && isdigit (at_ z (i + 2))))
   then (i + 2 + count_while isdigit (from_ z (i + 2)), TK_FLOAT) else (i, t)) =
  (Z.of_nat (length (u ++ e)), if e is [] then t else TK_FLOAT).
Proof.
  intros He Hr H0. unfold z, i. rewrite exponent_ahead_at.
  assert (Hc : forall s, Forall (fun c => isdigit c = true) s -> count_while isdigit (s ++ r) = Z.of_nat (length s))
    by (intros s Hs; by apply count_while_app).
  destruct He as [|x sign s Hx Hsign Hs]; [cbn [app]; rewrite (H0 eq_refl), app_nil_r; done|].
  destruct (digits_cons s Hs) as (d & s' & -> & Hd & Hs').
  assert (Ha : exponent_ahead ((x :: sign ++ d :: s') ++ r) = true).
  { unfold exponent_ahead. set_unfold.
    destruct Hx as [-> | ->], Hsign as [->|[->|[->|[]]]]; cbn; rewrite ?Hd, ?orb_true_r; done. }
  rewrite Ha, from_behind by lia. change (Z.to_nat 2) with 2%nat. f_equal. rewrite length_app.
  set_unfold. destruct Hsign as [->|Hsign].
  - cbn [app length]. rewrite !skipn_cons, drop_0, Hc by done. lia.
  - assert (E : exists y, sign = [y]) by (destruct Hsign as [->|[->|[]]]; by eexists). destruct E as [y ->].
    cbn [app length]. rewrite !skipn_cons, drop_0. pose proof (Hc (d :: s') ltac:(by constructor)) as E. cbn [app length] in E. rewrite E. lia.
Qed.

Lemma get_number_found s f e r : digits s -> fraction f -> exponent e -> isdigit (chr r) = false ->
  (f ++ e = [] -> fraction_ahead r = false) -> (e = [] -> exponent_ahead r = false) ->
  get_number (s ++ f ++ e ++ r) =
    (Z.of_nat (length (s ++ f ++ e)), match f, e with [], [] => TK_INTEGER | _, _ => TK_FLOAT end).
Proof.
  intros Hs Hf He Hr Hf0 He0. unfold get_number. cbv zeta.
  assert (Hher : isdigit (chr (e ++ r)) = false).
  { destruct He as [|x sign t Hx _ _]; [done|]. by destruct Hx as [-> | ->]. }
  assert (Hher' : fraction_ahead (e ++ r) = false \/ e = []).
  { destruct He as [|x sign t Hx _ _]; [by right|left]. unfold fraction_ahead. by destruct Hx as [-> | ->]. }
  assert (Hi : 1 + count_while isdigit (from_ (s ++ f ++ e ++ r) 1) = Z.of_nat (length s)).
  { destruct (digits_cons s Hs) as (d & s' & -> & _ & Hs'). unfold from_. cbn [app length].
    change (Z.to_nat 1) with 1%nat. rewrite !skipn_cons, drop_0, count_while_app; [lia|done|]. intros _.
    destruct Hf; [exact Hher|done]. }
  rewrite Hi, fraction_ahead_at. destruct Hf as [|s2 Hs2].
  - cbn [app] in *. assert (Hno : fraction_ahead (e ++ r) = false).
    { destruct Hher' as [|E]; [done|]. rewrite E in *. by apply Hf0. }
    rewrite Hno. rewrite (exponent_step s e r TK_INTEGER He Hr He0). done.
  - destruct (digits_cons s2 Hs2) as (d & s' & -> & Hd & Hs').
    assert (Ha : fraction_ahead ((46 :: d :: s') ++ e ++ r) = true) by (unfold fraction_ahead; cbn; by rewrite Hd).
    rewrite Ha, from_behind by lia. change (Z.to_nat 2) with 2%nat. cbn [app].
    rewrite !skipn_cons, drop_0, count_while_app by done.
    replace (Z.of_nat (length s) + 2 + Z.of_nat (length s')) with (Z.of_nat (length (s ++ 46 :: d :: s')))
      by (rewrite length_app; cbn [length]; lia).
    assert (Ez : s ++ 46 :: d :: s' ++ e ++ r = (s ++ 46 :: d :: s') ++ e ++ r) by (by rewrite <-app_assoc).
    rewrite Ez, (exponent_step (s ++ 46 :: d :: s') e r TK_FLOAT He Hr He0). rewrite <-app_assoc. by destruct e.
Qed.

(** * The tokenizer follows the grammar *)

Ltac other_char c k := destruct (Z.eqb_spec c k); [subst; try done|]; cbn [orb andb negb].

Lemma at_1 c z : at_ (c :: z) 1 = chr z.
Proof. done. Qed.

Lemma from_1 c z : from_ (c :: z) 1 = z.
Proof. done. Qed.

Lemma closed_inside s d r : d <> 0 -> closed (s ++ d :: r) (Z.of_nat (length s)) = Z.of_nat (length s) + 1.
Proof. intros Hd. unfold closed. rewrite at_length. cbn [chr]. by destruct (Z.eqb_spec d 0). Qed.

Lemma closed_end s : closed s (Z.of_nat (length s)) = Z.of_nat (length s).
Proof. pose proof (at_length s []) as E. rewrite app_nil_r in E. unfold closed. by rewrite E. Qed.

(** Run the tests of the tokenizer on characters that are known. *)
Ltac token_head :=
  unfold sqliteGetToken;
  cbn -[sqliteKeywordCode get_number closed comment_loop count_while string_loop bracket_loop from_ at_ length high_bit id_char];
  rewrite ?at_1; cbn [chr Z.eqb Pos.eqb negb orb andb].

Definition found (x r : list Z) (t : token_type) : Prop := sqliteGetToken (x ++ r) = (Z.of_nat (length x), t).

Lemma space_found c s r : c ∈ [32; 9; 10; 12; 13] -> Forall (fun c => isspace c = true) s -> isspace (chr r) = false ->
  found (c :: s) r TK_SPACE.
Proof.
  intros Hc Hs Hr. unfold found, sqliteGetToken. cbn [app chr]. rewrite from_1, count_while_app by done.
  set_unfold. destruct Hc as [->|[->|[->|[->|[->|[]]]]]]; cbn [Z.eqb Pos.eqb orb]; f_equal; cbn [length]; lia.
Qed.

Lemma line_comment_found s r : cstring s -> Forall (fun c => c <> 10) s -> r = [] \/ chr r = 10 ->
  found (text "--" ++ s) r TK_COMMENT.
Proof.
  intros Hz Hs Hr. unfold found. token_head. f_equal. cbn [length]. unfold from_. change (Z.to_nat 2) with 2%nat.
  rewrite !skipn_cons, drop_0, count_while_app; [lia| |].
  - apply Forall_forall. intros c Hc. unfold cstring in Hz. rewrite Forall_forall in Hz, Hs. specialize (Hz c Hc). specialize (Hs c Hc).
    unfold cchar in Hz. destruct (Z.eqb_spec c 0), (Z.eqb_spec c 10); (lia || done).
  - intros Hne. destruct Hr as [->|Hr]; [done|]. by rewrite Hr.
Qed.

Lemma comment_found s r : cstring (s ++ 42 :: 47 :: r) -> no_close (s ++ text "*") = true ->
  found (text "/*" ++ s ++ text "*/") r TK_COMMENT.
Proof.
  intros Hz Hs. unfold found.
  destruct (s ++ 42 :: 47 :: r) as [|a z] eqn:E; [by destruct s|].
  assert (Ez : (text "/*" ++ s ++ text "*/") ++ r = 47 :: 42 :: a :: z).
  { rewrite <-E. change (text "/*") with [47; 42]. change (text "*/") with [42; 47].
    rewrite <-!app_assoc. done. }
  rewrite Ez. apply Forall_cons_1 in Hz as [Ha Hz]. unfold cchar in Ha.
  pose proof (comment_loop_closed s r a z (eq_sym E) Hz Hs) as L.
  token_head. change (at_ (47 :: 42 :: a :: z) 2) with a. change (from_ (47 :: 42 :: a :: z) 3) with z.
  destruct (Z.eqb_spec a 0); [lia|]. rewrite L. f_equal.
  assert (Es : 47 :: 42 :: a :: z = (47 :: 42 :: s ++ [42]) ++ 47 :: r) by (cbn [app]; rewrite <-E, <-app_assoc; done).
  rewrite Es. replace (3 + Z.of_nat (length s)) with (Z.of_nat (length (47 :: 42 :: s ++ [42])))
    by (cbn [length]; rewrite length_app; cbn [length]; lia).
  rewrite closed_inside by done. change (text "/*") with [47; 42]. change (text "*/") with [42; 47].
  cbn [app length]. rewrite !length_app. cbn [length]. lia.
Qed.

Lemma open_comment_found s : s <> [] -> cstring s -> no_close s = true -> found (text "/*" ++ s) [] TK_COMMENT.
Proof.
  intros Hne Hz Hs. unfold found. rewrite app_nil_r. destruct s as [|a z]; [done|].
  apply Forall_cons_1 in Hz as [Ha Hz]. unfold cchar in Ha. pose proof (comment_loop_open z a Hz Hs) as L.
  change (text "/*" ++ a :: z) with (47 :: 42 :: a :: z).
  token_head. change (at_ (47 :: 42 :: a :: z) 2) with a. change (from_ (47 :: 42 :: a :: z) 3) with z.
  destruct (Z.eqb_spec a 0); [lia|]. rewrite L. f_equal.
  replace (3 + Z.of_nat (length z)) with (Z.of_nat (length (47 :: 42 :: a :: z))) by (cbn [length]; lia).
  apply closed_end.
Qed.

Lemma slash_found r : chr r <> 42 \/ r = text "*" -> found (text "/") r TK_SLASH.
Proof.
  intros Hr. unfold found. destruct Hr as [Hr| ->]; [|done]. token_head.
  by destruct (Z.eqb_spec (chr r) 42).
Qed.

Lemma operator_found x f t r : (x, f, t) ∈ operators -> chr r ∉ f -> found x r t.
Proof.
  assert (H : Forall (fun o => forall r, chr r ∉ o.1.2 -> found o.1.1 r o.2) operators).
  { let o := eval vm_compute in operators in change operators with o.
    repeat (apply Forall_cons_2; [intros u Hu; cbn in Hu; unfold found; token_head;
      repeat match goal with |- context [chr u =? ?k] =>
        destruct (Z.eqb_spec (chr u) k) as [Ek|]; [exfalso; apply Hu; rewrite Ek; repeat constructor|] end;
      reflexivity|]).
    apply Forall_nil_2. }
  rewrite Forall_forall in H. intros Hin Hr. exact (H _ Hin r Hr).
Qed.

Lemma quote_cases q : q ∈ text "'" ++ [34] -> q = 39 \/ q = 34.
Proof. change (text "'" ++ [34]) with [39; 34]. set_unfold. tauto. Qed.

Lemma string_found q s r : q ∈ text "'" ++ [34] -> cstring s -> chr r <> q -> found (q :: doubled q s ++ [q]) r TK_STRING.
Proof.
  intros Hq%quote_cases Hs Hr. unfold found. assert (Hq0 : q <> 0) by lia.
  pose proof (string_loop_doubled q s r Hs Hq0 Hr) as L. set (d := doubled q s) in *.
  assert (Ez : (q :: d ++ [q]) ++ r = (q :: d) ++ q :: r) by (cbn [app]; by rewrite <-app_assoc).
  rewrite Ez. transitivity (closed ((q :: d) ++ q :: r) (1 + string_loop q (d ++ q :: r)), TK_STRING).
  { destruct Hq as [-> | ->]; by token_head. }
  rewrite L. f_equal. replace (1 + Z.of_nat (length d)) with (Z.of_nat (length (q :: d))) by (cbn [length]; lia).
  rewrite closed_inside by done. cbn [length]. rewrite length_app. cbn [length]. lia.
Qed.

Lemma open_string_found q s : q ∈ text "'" ++ [34] -> cstring s -> found (q :: doubled q s) [] TK_STRING.
Proof.
  intros Hq%quote_cases Hs. unfold found. rewrite app_nil_r. assert (Hq0 : q <> 0) by lia.
  pose proof (string_loop_open q s Hs Hq0) as L. set (d := doubled q s) in *.
  transitivity (closed (q :: d) (1 + string_loop q d), TK_STRING).
  { destruct Hq as [-> | ->]; by token_head. }
  rewrite L. f_equal. replace (1 + Z.of_nat (length d)) with (Z.of_nat (length (q :: d))) by (cbn [length]; lia).
  apply closed_end.
Qed.

Lemma name_found s r : cstring s -> Forall (fun c => c <> 93) s -> found (text "[" ++ s ++ text "]") r TK_ID.
Proof.
  intros Hz Hs. unfold found. change (text "[") with [91]. change (text "]") with [93].
  assert (Ez : ([91] ++ s ++ [93]) ++ r = 91 :: s ++ 93 :: r) by (cbn [app]; by rewrite <-app_assoc).
  rewrite Ez. token_head. rewrite from_1, bracket_loop_closed by done. f_equal. cbn [app length].
  rewrite length_app. cbn [length]. lia.
Qed.

Lemma open_name_found s : cstring s -> Forall (fun c => c <> 93) s -> found (text "[" ++ s) [] TK_ID.
Proof.
  intros Hz Hs. unfold found. rewrite app_nil_r. change (text "[" ++ s) with (91 :: s). token_head.
  rewrite from_1, bracket_loop_open by done. f_equal. cbn [length]. lia.
Qed.

(** The tests in front of a number or a word fail. *)
Lemma number_found s f e r : digits s -> fraction f -> exponent e -> isdigit (chr r) = false ->
  (f ++ e = [] -> fraction_ahead r = false) -> (e = [] -> exponent_ahead r = false) ->
  found (s ++ f ++ e) r (match f, e with [], [] => TK_INTEGER | _, _ => TK_FLOAT end).
Proof.
  intros Hs Hf He Hr Hf0 He0. unfold found. rewrite <-!app_assoc.
  rewrite <-(get_number_found s f e r Hs Hf He Hr Hf0 He0).
  destruct (digits_cons s Hs) as (d & s' & -> & Hd & _). cbn [app]. set (z := d :: _).
  unfold sqliteGetToken. change (chr z) with d. rewrite Hd. apply isdigit_spec in Hd.
  repeat match goal with |- context [d =? ?k] => destruct (Z.eqb_spec d k); [lia|] end. done.
Qed.

Lemma word_found c s r : cstring (c :: s) -> word_char c = true -> isdigit c = false ->
  Forall (fun c => word_char c = true) s -> word_char (chr r) = false -> found (c :: s) r (keyword_spec (c :: s)).
Proof.
  intros Hz Hc Hd Hs Hr. unfold found.
  assert (Hn : 1 + count_while (fun x => high_bit x || id_char x) (from_ ((c :: s) ++ r) 1) = Z.of_nat (length (c :: s))).
  { cbn [app]. rewrite from_1. rewrite count_while_app by done. cbn [length]. lia. }
  assert (Ht : take (Z.to_nat (Z.of_nat (length (c :: s)))) ((c :: s) ++ r) = c :: s)
    by (rewrite Nat2Z.id; apply take_app_length).
  assert (Hk : sqliteKeywordCode ((c :: s) ++ r) (Z.of_nat (length (c :: s))) = keyword_spec (c :: s)).
  { rewrite <-Ht at 3. apply keyword_code; rewrite ?Ht; [cbn [length]; lia|by rewrite Nat2Z.id|done]. }
  unfold sqliteGetToken. rewrite Hn, Hk. change (chr ((c :: s) ++ r)) with c. rewrite Hd.
  assert (Hw : negb (high_bit c) && negb (id_char c) = false).
  { unfold word_char in Hc. by destruct (high_bit c), (id_char c). }
  rewrite Hw. clear - Hc.
  repeat match goal with |- context [c =? ?k] => destruct (Z.eqb_spec c k) as [->|]; [discriminate Hc|] end. done.
Qed.

(** The type of a word is one of the table, or an identifier. *)
Lemma keyword_legal w : keyword_spec w <> TK_ILLEGAL.
Proof.
  unfold keyword_spec. destruct (find _ _) as [[k t]|] eqn:E; [|done]. apply find_some in E as [E _].
  assert (H : forallb (fun k => if snd k is TK_ILLEGAL then false else true) aKeywordTable = true) by (vm_compute; reflexivity).
  rewrite forallb_forall in H. specialize (H _ E). simpl in H. by intros ->.
Qed.

Lemma doubled_cstring q s : cstring (doubled q s) -> cstring s.
Proof.
  unfold cstring. induction s as [|c s IH]; [done|]. cbn [doubled]. destruct (c =? q) eqn:E.
  - apply Z.eqb_eq in E as ->. intros [Hq [_ H]%Forall_cons_1]%Forall_cons_1. constructor; [done|by apply IH].
  - intros [Hc H]%Forall_cons_1. constructor; [done|by apply IH].
Qed.

Lemma operators_legal : Forall (fun o => o.1.1 <> [] /\ o.2 <> TK_ILLEGAL) operators.
Proof.
  let o := eval vm_compute in operators in change operators with o.
  repeat (apply Forall_cons_2; [by split|]). apply Forall_nil_2.
Qed.

(** A token of the grammar is the one that the tokenizer finds. *)
Lemma token_found x r t : token x r t -> cstring (x ++ r) -> found x r t /\ t <> TK_ILLEGAL /\ x <> [].
Proof.
  intros H Hz. assert (Hx : cstring x) by (by apply Forall_app in Hz as [? _]).
  destruct H as [c s r Hc Hs Hr|s r Hs Hr|s r Hs|s Hne Hs|r Hr|x f t r Hin Hr|q s r Hq Hr|q s Hq|s r Hs Hr Hf He
    |s f e r Hs Hf He Hne Hr Hx0|s r Hs|s Hs|c s r Hc Hd Hs Hr].
  - split; [by apply space_found|done].
  - split; [|done]. apply line_comment_found; [|done..]. by apply Forall_app in Hx as [_ ?].
  - split; [|done]. apply comment_found; [|done]. unfold cstring in *.
    rewrite !Forall_app in Hz. destruct Hz as [(_ & Hz & _) Hr]. rewrite Forall_app. split; [done|].
    repeat (constructor; [unfold cchar; lia|]). done.
  - split; [|done]. apply open_comment_found; [done| |done]. by apply Forall_app in Hx as [_ ?].
  - split; [by apply slash_found|done].
  - split; [by eapply operator_found|]. pose proof operators_legal as H. rewrite Forall_forall in H.
    destruct (H _ Hin). done.
  - split; [|done]. apply string_found; [done| |done]. apply Forall_cons_1 in Hx as [_ [Hx _]%Forall_app].
    by eapply doubled_cstring.
  - split; [|done]. apply open_string_found; [done|]. apply Forall_cons_1 in Hx as [_ Hx]. by eapply doubled_cstring.
  - split; [|split; [done|apply Hs]]. pose proof (number_found s [] [] r Hs no_fraction no_exponent Hr) as H.
    cbn [app] in H. rewrite app_nil_r in H. by apply H.
  - split; [|split; [done|]].
    + pose proof (number_found s f e r Hs Hf He Hr) as H.
      replace TK_FLOAT with (match f, e with [], [] => TK_INTEGER | _, _ => TK_FLOAT end) by (by destruct f, e).
      by apply H.
    + destruct Hs as [Hs _]. by destruct s.
  - split; [|done]. apply name_found; [|done]. unfold cstring in Hx. by rewrite !Forall_app in Hx; destruct Hx as (_ & ? & _).
  - split; [|done]. apply open_name_found; [|done]. by apply Forall_app in Hx as [_ ?].
  - split; [by apply word_found|]. split; [apply keyword_legal|done].
Qed.

(** ** Every text begins with a token, or with one that is illegal *)














(** * Whole texts *)

Lemma token_unique z x r t x' r' t' : cstring z -> z = x ++ r -> token x r t -> z = x' ++ r' -> token x' r' t' ->
  x = x' /\ r = r' /\ t = t'.
Proof.
  intros Hz E H E' H'. destruct (token_found x r t H) as (F & _); [by rewrite <-E|].
  destruct (token_found x' r' t' H') as (F' & _); [by rewrite <-E'|].
  unfold found in F, F'. rewrite <-E in F. rewrite <-E' in F'. rewrite F in F'. injection F' as Hl ->.
  apply Nat2Z.inj in Hl. rewrite E in E'. apply app_inj_1 in E' as [-> ->]; done.
Qed.




