(* ===== verification/CompleteProofs.v ===== *)
(** [sqlite_complete] accepts exactly the texts that consist of complete statements:
    the language of its state machine is the one its comment describes. *)
From S2P Require Import Prelude Util Tokenize.

(** * The language *)

Definition trigger_end : list tk := [tkSEMI; tkEND; tkSEMI].

(** [; END ;] occurs. *)
Definition closes (ts : list tk) : Prop := exists a b, ts = a ++ trigger_end ++ b.

(** The start of a trigger definition: an optional EXPLAIN, CREATE, any number of
    TEMP and TEMPORARY, and TRIGGER. *)
Definition trigger_head (ts : list tk) : Prop :=
  exists ex temps, (ex = [] \/ ex = [tkEXPLAIN]) /\ Forall (eq tkTEMP) temps /\
    ts = ex ++ tkCREATE :: temps ++ [tkTRIGGER].

(** A trigger definition ends with the first [; END ;]; any other statement ends
    with the first semicolon. *)
Inductive statement : list tk -> Prop :=
| trigger_statement h body :
    trigger_head h -> ~ closes (body ++ [tkSEMI; tkEND]) -> statement (h ++ body ++ trigger_end)
| plain_statement body :
    tkSEMI ∉ body -> (forall h r, trigger_head h -> body <> h ++ r) -> statement (body ++ [tkSEMI]).

Inductive complete_text : list tk -> Prop :=
| complete_nil : complete_text []
| complete_cons s ts : statement s -> complete_text ts -> complete_text (s ++ ts).

(** * The state machine *)

Definition run (q : Z) (ts : list tk) : Z := fold_left next_state ts q.

Lemma run_app q a b : run q (a ++ b) = run (run q a) b.
Proof. apply fold_left_app. Qed.

Definition state_ok (q : Z) : Prop := 0 <= q <= 6.

Lemma next_ok q t : state_ok q -> state_ok (next_state q t).
Proof.
  unfold state_ok. intros Hq.
  assert (q = 0 \/ q = 1 \/ q = 2 \/ q = 3 \/ q = 4 \/ q = 5 \/ q = 6) as Hc by lia.
  destruct Hc as [->|[->|[->|[->|[->|[->| ->]]]]]]; destruct t; vm_compute; split; discriminate.
Qed.

(** White space does not change the state. *)
Lemma next_ws q : state_ok q -> next_state q tkWS = q.
Proof.
  unfold state_ok. intros Hq.
  assert (q = 0 \/ q = 1 \/ q = 2 \/ q = 3 \/ q = 4 \/ q = 5 \/ q = 6) as Hc by lia.
  by destruct Hc as [->|[->|[->|[->|[->|[->| ->]]]]]].
Qed.

Definition no_ws (ts : list tk) : list tk := filter (fun t => t <> tkWS) ts.

Lemma run_ws ts : forall q, state_ok q -> run q ts = run q (no_ws ts).
Proof.
  induction ts as [|t ts IH]; intros q Hq; [done|]. unfold no_ws. rewrite filter_cons.
  destruct (decide (t = tkWS)) as [->|Ht].
  - rewrite decide_False by auto. cbn [run fold_left]. rewrite next_ws by done. by apply IH.
  - rewrite decide_True by done. cbn [run fold_left]. apply IH. by apply next_ok.
Qed.

(** ** Inside a plain statement *)

Lemma run_plain body : tkSEMI ∉ body -> tkWS ∉ body -> run 3 body = 3.
Proof.
  induction body as [|t body IH]; [done|]. intros [H1 H2]%not_elem_of_cons [H3 H4]%not_elem_of_cons.
  cbn [run fold_left]. replace (next_state 3 t) with 3 by (by destruct t). by apply IH.
Qed.

Lemma plain_ends ts : run 3 ts = 0 -> exists body rest,
  ts = body ++ tkSEMI :: rest /\ tkSEMI ∉ body /\ run 0 rest = 0.
Proof.
  induction ts as [|t ts IH]; intros H; [done|]. cbn [run fold_left] in H.
  destruct (decide (t = tkSEMI)) as [->|Ht].
  - exists [], ts. split; [done|]. split; [apply not_elem_of_nil|done].
  - replace (next_state 3 t) with 3 in H by (by destruct t).
    destruct (IH H) as (body & rest & -> & Hb & Hr). exists (t :: body), rest.
    split; [done|]. split; [|done]. intros [E|?]%elem_of_cons; [by symmetry in E|done].
Qed.

(** ** Inside a trigger *)

Lemma closes_snoc ts t : closes (ts ++ [t]) <-> closes ts \/ t = tkSEMI /\ exists a, ts = a ++ [tkSEMI; tkEND].
Proof.
  split.
  - intros (a & b & E). destruct b as [|x b _] using rev_ind.
    + rewrite app_nil_r in E. unfold trigger_end in E.
      change [tkSEMI; tkEND; tkSEMI] with ([tkSEMI; tkEND] ++ [tkSEMI]) in E. rewrite app_assoc in E.
      apply app_inj_tail in E as [-> ->]. right. split; [done|]. by exists a.
    + rewrite !app_assoc in E. apply app_inj_tail in E as [-> ->]. left. exists a, b. by rewrite app_assoc.
  - intros [(a & b & ->)|(-> & a & ->)].
    + exists a, (b ++ [t]). by rewrite <-!app_assoc.
    + exists a, []. rewrite app_nil_r. by rewrite <-app_assoc.
Qed.

(** What the machine knows about the part of a trigger it has read. *)
Definition trigger_state (ts : list tk) (q : Z) : Prop :=
  (q = 6 /\ exists a, ts = a ++ [tkSEMI; tkEND]) \/
  (q = 5 /\ exists a, ts = a ++ [tkSEMI]) \/
  (q = 4 /\ (forall a, ts <> a ++ [tkSEMI]) /\ (forall a, ts <> a ++ [tkSEMI; tkEND])).

Lemma snoc_two {A} (ts a : list A) t x y : ts ++ [t] = a ++ [x; y] -> t = y /\ exists a', ts = a' ++ [x].
Proof.
  change [x; y] with ([x] ++ [y]). rewrite app_assoc. intros [-> ->]%app_inj_tail. split; [done|by exists a].
Qed.

Lemma trigger_step ts q t : trigger_state ts q -> t <> tkWS ->
  next_state q t = 0 /\ closes (ts ++ [t]) \/
  trigger_state (ts ++ [t]) (next_state q t) /\ ~ (t = tkSEMI /\ exists a, ts = a ++ [tkSEMI; tkEND]).
Proof.
  intros Hq Ht.
  assert (H4 : t <> tkSEMI -> (t <> tkEND \/ forall a, ts <> a ++ [tkSEMI]) -> trigger_state (ts ++ [t]) 4).
  { intros Hs He. right; right. split; [done|]. split.
    - intros a [_ ->]%app_inj_tail. done.
    - intros a [-> (a' & ->)]%snoc_two. destruct He as [?|He]; [done|by apply (He a')]. }
  assert (H5 : trigger_state (ts ++ [tkSEMI]) 5) by (right; left; split; [done|by exists ts]).
  destruct Hq as [[-> (a & Ea)]|[[-> (a & Ea)]|(-> & Hn & Hn2)]].
  - destruct (decide (t = tkSEMI)) as [->|Hs].
    + left. split; [done|]. apply closes_snoc. right. split; [done|by exists a].
    + right. split; [|by intros [? _]]. replace (next_state 6 t) with 4 by (by destruct t).
      apply H4; [done|]. right. intros a' E. rewrite Ea in E.
      change [tkSEMI; tkEND] with ([tkSEMI] ++ [tkEND]) in E. rewrite app_assoc in E.
      by apply app_inj_tail in E as [_ ?].
  - right. split.
    + destruct (decide (t = tkSEMI)) as [->|Hs]; [exact H5|].
      destruct (decide (t = tkEND)) as [->|He].
      * left. split; [done|]. exists a. by rewrite Ea, <-app_assoc.
      * replace (next_state 5 t) with 4 by (by destruct t). apply H4; [done|by left].
    + intros [_ (a' & E)]. rewrite Ea in E. change [tkSEMI; tkEND] with ([tkSEMI] ++ [tkEND]) in E.
      rewrite app_assoc in E. by apply app_inj_tail in E as [_ ?].
  - right. split.
    + destruct (decide (t = tkSEMI)) as [->|Hs]; [exact H5|].
      replace (next_state 4 t) with 4 by (by destruct t). apply H4; [done|by right].
    + intros [_ (a' & E)]. by apply (Hn2 a').
Qed.

Lemma trigger_state_nil : trigger_state [] 4.
Proof. right; right. split; [done|]. split; intros a E; by destruct a. Qed.

(** As long as the trigger is not closed, the machine stays in its states. *)
Lemma run_trigger ts : tkWS ∉ ts -> ~ closes ts -> trigger_state ts (run 4 ts).
Proof.
  induction ts as [|t ts IH] using rev_ind; intros Hw Hc; [apply trigger_state_nil|].
  rewrite run_app. cbn [run fold_left].
  assert (Hc' : ~ closes ts) by (intros ?; apply Hc, closes_snoc; by left).
  destruct (trigger_step ts (run 4 ts) t) as [[_ H]|[H _]]; [|set_solver|done|done].
  apply IH; [set_solver|done].
Qed.

Lemma trigger_ends ts : forall u q, trigger_state u q -> ~ closes u -> tkWS ∉ ts -> run q ts = 0 ->
  exists body rest, u ++ ts = body ++ trigger_end ++ rest /\ ~ closes (body ++ [tkSEMI; tkEND]) /\ run 0 rest = 0.
Proof.
  induction ts as [|t ts IH]; intros u q Hq Hu Hw H.
  { destruct Hq as [[-> _]|[[-> _]|[-> _]]]; done. }
  cbn [run fold_left] in H. apply not_elem_of_cons in Hw as [Hwt Hw].
  destruct (trigger_step u q t Hq ltac:(done)) as [[E Hc]|[Hq' Hn]].
  - rewrite E in H. apply closes_snoc in Hc as [?|(-> & a & ->)]; [done|].
    exists a, ts. split; [by rewrite <-!app_assoc|]. by split.
  - destruct (IH (u ++ [t]) _ Hq') as (body & rest & E & Hb & Hr); [|done|done|].
    + by intros [?|?]%closes_snoc.
    + exists body, rest. split; [|done]. by rewrite <-E, <-app_assoc.
Qed.

(** ** The start of a statement *)

Definition create_head (ts : list tk) : Prop :=
  exists ex temps, (ex = [] \/ ex = [tkEXPLAIN]) /\ Forall (eq tkTEMP) temps /\ ts = ex ++ tkCREATE :: temps.

(** What the machine knows about a statement without a semicolon so far. *)
Definition start_state (ts : list tk) (q : Z) : Prop :=
  (q = 0 /\ ts = []) \/ (q = 1 /\ ts = [tkEXPLAIN]) \/ (q = 2 /\ create_head ts) \/ q = 3 \/
  (q = 4 /\ exists h r, trigger_head h /\ ts = h ++ r).

Lemma create_more ts : create_head ts -> create_head (ts ++ [tkTEMP]).
Proof.
  intros (ex & temps & Hex & Ht & ->). exists ex, (temps ++ [tkTEMP]). split; [done|].
  split; [apply Forall_app; split; [done|by repeat constructor]|by rewrite <-app_assoc].
Qed.

Lemma start_step ts q t : start_state ts q -> t <> tkSEMI -> t <> tkWS ->
  start_state (ts ++ [t]) (next_state q t).
Proof.
  intros [[-> ->]|[[-> ->]|[[-> Hc]|[->|(-> & h & r & Hh & ->)]]]] Hs Hw.
  - destruct t; try done; unfold start_state; try (right; right; right; left; reflexivity).
    + right; left. done.
    + right; right; left. split; [done|]. exists [], []. split; [by left|]. split; [constructor|done].
  - destruct t; try done; unfold start_state; try (right; right; right; left; reflexivity).
    right; right; left. split; [done|]. exists [tkEXPLAIN], []. split; [by right|]. split; [constructor|done].
  - destruct t; try done; unfold start_state; try (right; right; right; left; reflexivity).
    + right; right; left. split; [done|by apply create_more].
    + right; right; right; right. split; [done|]. exists (ts ++ [tkTRIGGER]), []. rewrite app_nil_r.
      split; [|done]. destruct Hc as (ex & temps & Hex & Ht & ->). exists ex, temps.
      split; [done|]. split; [done|]. by rewrite <-app_assoc.
  - replace (next_state 3 t) with 3 by (by destruct t). right; right; right; by left.
  - replace (next_state 4 t) with 4 by (by destruct t). right; right; right; right. split; [done|].
    exists h, (r ++ [t]). by rewrite <-app_assoc.
Qed.

Lemma run_start ts : tkSEMI ∉ ts -> tkWS ∉ ts -> start_state ts (run 0 ts).
Proof.
  induction ts as [|t ts IH] using rev_ind; intros Hs Hw; [by left|].
  rewrite run_app. cbn [run fold_left]. apply start_step; [apply IH|..]; set_solver.
Qed.

Lemma run_temps temps : Forall (eq tkTEMP) temps -> run 2 temps = 2.
Proof. by induction 1 as [|t temps <- _ IH]. Qed.

Lemma run_create ex temps : ex = [] \/ ex = [tkEXPLAIN] -> Forall (eq tkTEMP) temps ->
  run 0 (ex ++ tkCREATE :: temps) = 2.
Proof. intros [->| ->] Ht; cbn [app run fold_left]; by apply run_temps. Qed.

Lemma run_head h : trigger_head h -> run 0 h = 4.
Proof.
  intros (ex & temps & Hex & Ht & ->).
  change (ex ++ tkCREATE :: temps ++ [tkTRIGGER]) with (ex ++ (tkCREATE :: temps) ++ [tkTRIGGER]).
  rewrite app_assoc, run_app, run_create by done. done.
Qed.

Lemma run_four r : tkSEMI ∉ r -> run 4 r = 4.
Proof.
  induction r as [|t r IH]; [done|]. intros [H1 H2]%not_elem_of_cons. cbn [run fold_left].
  replace (next_state 4 t) with 4 by (by destruct t). by apply IH.
Qed.

Lemma no_head body : tkSEMI ∉ body -> run 0 body <> 4 -> forall h r, trigger_head h -> body <> h ++ r.
Proof.
  intros Hs Hn h r Hh ->. apply Hn. rewrite run_app, run_head by done. apply run_four. set_solver.
Qed.

(** ** Both directions *)

Lemma run_statement s : statement s -> tkWS ∉ s -> run 0 s = 0.
Proof.
  intros [h body Hh Hc|body Hs Hh] Hw.
  - rewrite run_app, run_head by done.
    change trigger_end with ([tkSEMI; tkEND] ++ [tkSEMI]). rewrite app_assoc, run_app.
    assert (Hq : trigger_state (body ++ [tkSEMI; tkEND]) (run 4 (body ++ [tkSEMI; tkEND])))
      by (apply run_trigger; [set_solver|done]).
    destruct Hq as [[-> _]|[[_ (a & E)]|(_ & _ & H)]]; [done| |by destruct (H body)].
    change [tkSEMI; tkEND] with ([tkSEMI] ++ [tkEND]) in E. rewrite app_assoc in E.
    by apply app_inj_tail in E as [_ ?].
  - rewrite run_app. pose proof (run_start body Hs ltac:(set_solver)) as Hq.
    destruct Hq as [[-> _]|[[-> _]|[[-> _]|[->|(_ & h & r & H1 & H2)]]]]; try done.
    by destruct (Hh h r H1).
Qed.

Lemma plain_from body t rest q : run 0 body = q -> next_state q t = 3 -> tkSEMI ∉ body -> t <> tkSEMI ->
  tkWS ∉ rest -> run 3 rest = 0 -> exists s rest', body ++ t :: rest = s ++ rest' /\ s <> [] /\
    statement s /\ run 0 rest' = 0.
Proof.
  intros Hq Hn Hs Ht Hw H. destruct (plain_ends rest H) as (b & r & -> & Hb & Hr).
  exists ((body ++ t :: b) ++ [tkSEMI]), r. split; [by rewrite <-!app_assoc|].
  split; [by destruct body|]. split; [|done].
  assert (Hsb : tkSEMI ∉ body ++ t :: b) by set_solver.
  apply plain_statement; [done|]. apply no_head; [done|].
  rewrite run_app, Hq. cbn [run fold_left]. rewrite Hn. change (run 3 b <> 4).
  rewrite run_plain; [done|done|set_solver].
Qed.

Lemma semi_from body rest q : run 0 body = q -> q <> 4 -> tkSEMI ∉ body -> run 0 rest = 0 ->
  exists s rest', body ++ tkSEMI :: rest = s ++ rest' /\ s <> [] /\ statement s /\ run 0 rest' = 0.
Proof.
  intros Hq Hn Hs Hr. exists (body ++ [tkSEMI]), rest. split; [by rewrite <-app_assoc|].
  split; [by destruct body|]. split; [|done].
  apply plain_statement; [done|]. apply no_head; [done|congruence].
Qed.

Lemma create_from ts : forall ex temps, ex = [] \/ ex = [tkEXPLAIN] -> Forall (eq tkTEMP) temps ->
  tkWS ∉ ts -> run 2 ts = 0 ->
  exists s rest, (ex ++ tkCREATE :: temps) ++ ts = s ++ rest /\ s <> [] /\ statement s /\ run 0 rest = 0.
Proof.
  induction ts as [|t ts IH]; intros ex temps Hex Ht Hw H; [done|].
  pose proof (run_create ex temps Hex Ht) as Hrun.
  assert (Hs : tkSEMI ∉ ex ++ tkCREATE :: temps).
  { intros [Hi|[Hi|Hi]%elem_of_cons]%elem_of_app; [destruct Hex; set_solver|done|].
    rewrite Forall_forall in Ht. by apply Ht in Hi. }
  apply not_elem_of_cons in Hw as [Hwt Hw]. cbn [run fold_left] in H.
  destruct t; try done; try (eapply plain_from; [exact Hrun|done|done|done|done|exact H]).
  - assert (Ht' : Forall (eq tkTEMP) (temps ++ [tkTEMP])) by (apply Forall_app; split; [done|by repeat constructor]).
    destruct (IH ex (temps ++ [tkTEMP]) Hex Ht' Hw H) as (s & rest & E & ?). exists s, rest.
    split; [|done]. rewrite <-E, <-!app_assoc. cbn [app]. by rewrite <-app_assoc.
  - destruct (trigger_ends ts [] 4 trigger_state_nil) as (body & rest & E & Hb & Hr);
      [by intros (a & b & E); destruct a|done|done|].
    cbn [app] in E. exists ((ex ++ tkCREATE :: temps ++ [tkTRIGGER]) ++ body ++ trigger_end), rest.
    split; [rewrite E, <-!app_assoc; cbn [app]; by rewrite <-!app_assoc|].
    split; [by destruct ex|]. split; [|done]. apply trigger_statement; [|done]. by exists ex, temps.
  - eapply semi_from; [exact Hrun|done|done|exact H].
Qed.

Lemma first_statement ts : ts <> [] -> tkWS ∉ ts -> run 0 ts = 0 ->
  exists s rest, ts = s ++ rest /\ s <> [] /\ statement s /\ run 0 rest = 0.
Proof.
  intros Hne Hw H. destruct ts as [|t ts]; [done|]. apply not_elem_of_cons in Hw as [Hwt Hw].
  cbn [run fold_left] in H.
  destruct t; try done; try (apply (plain_from [] _ ts 0); [reflexivity|reflexivity|apply not_elem_of_nil|done|done|exact H]).
  - destruct ts as [|t2 ts]; [done|]. apply not_elem_of_cons in Hw as [Hwt2 Hw]. cbn [fold_left] in H.
    destruct t2; try done; try (apply (plain_from [tkEXPLAIN] _ ts 1); [reflexivity|reflexivity|set_solver|done|done|exact H]).
    + apply (create_from ts [tkEXPLAIN] []); [by right|constructor|done|exact H].
    + apply (semi_from [tkEXPLAIN] ts 1); [reflexivity|done|set_solver|exact H].
  - apply (create_from ts [] []); [by left|constructor|done|exact H].
  - apply (semi_from [] ts 0); [reflexivity|done|apply not_elem_of_nil|exact H].
Qed.

Lemma run_language n : forall ts, (length ts <= n)%nat -> tkWS ∉ ts -> run 0 ts = 0 <-> complete_text ts.
Proof.
  induction n as [|n IH]; intros ts Hn Hw.
  { destruct ts; [|simpl in Hn; lia]. split; [intros _; constructor|done]. }
  split.
  - intros H. destruct (decide (ts = [])) as [->|Hne]; [constructor|].
    destruct (first_statement ts Hne Hw H) as (s & rest & -> & Hs0 & Hs & Hr). constructor; [done|].
    apply IH; [|set_solver|done]. rewrite length_app in Hn. destruct s; [done|simpl in Hn; lia].
  - intros H. inversion H as [|s rest Hs Hr]; subst; [done|].
    rewrite run_app, run_statement by (done || set_solver). apply IH; [|set_solver|done].
    rewrite length_app in Hn. assert (s <> []) by (destruct Hs as [h ?|b ?]; [by destruct h, body|by destruct b]).
    destruct s; [done|simpl in Hn; lia].
Qed.

(** * The scanner *)

(** The tokens of a text as [sqlite_complete] sees them: [None] when a comment, a
    quoted name or a string is not closed, or a byte is out of range. *)
Fixpoint words (fuel : nat) (z : list Z) : option (list tk) :=
  match fuel with
  | O => None
  | S fuel' =>
      if chr z =? 0 then Some [] else
      match complete_token z with
      | Token t rest => option_map (cons t) (words fuel' rest)
      | AtEnd => Some []
      | Unfinished | OutOfBounds => None
      end
  end.

Lemma complete_loop_words fuel : forall q z, state_ok q ->
  complete_loop fuel q z = Some true <-> exists ts, words fuel z = Some ts /\ run q ts = 0.
Proof.
  assert (Hq : forall q, (Some (q =? 0) = Some true) <-> exists ts : list tk, Some [] = Some ts /\ run q ts = 0).
  { intros q. split.
    - intros [= E%Z.eqb_eq]. by exists [].
    - intros (ts & E & H). injection E as <-. cbn in H. by rewrite H. }
  induction fuel as [|fuel IH]; intros q z Hok; cbn [complete_loop words]; [split; [done|by intros (? & ? & _)]|].
  destruct (chr z =? 0); [apply Hq|].
  destruct (complete_token z) as [t rest| | |]; [|split; [done|by intros (? & ? & _)]|apply Hq|split; [done|by intros (? & ? & _)]].
  rewrite IH by (by apply next_ok). split.
  - intros (ts & -> & H). by exists (t :: ts).
  - destruct (words fuel rest) as [ts|]; [|by intros (? & ? & _)]. intros (? & [= <-] & H). by exists ts.
Qed.

(** * Termination and memory *)

Definition ascii_text (z : list Z) : Prop := Forall (fun c => 0 < c < 128) z.

(** [r] is what is left of [z] behind some of its characters. *)
Definition suffix_of_text (r z : list Z) : Prop := exists u, z = u ++ r.

Lemma suffix_refl z : suffix_of_text z z.
Proof. by exists []. Qed.
Lemma suffix_cons c r z : suffix_of_text r z -> suffix_of_text r (c :: z).
Proof. intros (u & ->). by exists (c :: u). Qed.
Lemma suffix_tail r z : suffix_of_text r z -> suffix_of_text (tail r) z.
Proof. intros (u & ->). destruct r as [|c r]; [by exists u|]. exists (u ++ [c]). by rewrite <-app_assoc. Qed.

Lemma suffix_ascii r z : suffix_of_text r z -> ascii_text z -> ascii_text r.
Proof. intros (u & ->) [_ H]%Forall_app. exact H. Qed.
Lemma suffix_length r z : suffix_of_text r z -> (length r <= length z)%nat.
Proof. intros (u & ->). rewrite length_app. lia. Qed.

Create HintDb text.
#[local] Hint Resolve suffix_refl suffix_cons suffix_tail : text.

Lemma skip_while_suffix p z : suffix_of_text (skip_while p z) z.
Proof. induction z as [|c z IH]; cbn [skip_while]; [auto with text|]. repeat case_match; auto with text. Qed.
Lemma skip_comment_suffix z : suffix_of_text (skip_comment z) z.
Proof. induction z as [|c z IH]; cbn [skip_comment]; [auto with text|]. repeat case_match; auto with text. Qed.
Lemma skip_word_suffix z : ascii_text z -> exists r, skip_word z = Some r /\ suffix_of_text r z.
Proof.
  induction z as [|c z IH]; intros H; cbn [skip_word]; [eauto with text|].
  apply Forall_cons_1 in H as [Hc H]. destruct (Z.leb_spec 128 c); [lia|].
  destruct (IH H) as (r & Hr & Hs). destruct (id_char c); [exists r|eexists]; eauto with text.
Qed.
#[local] Hint Resolve skip_while_suffix skip_comment_suffix : text.

Lemma suffix_trans a b z : suffix_of_text a b -> suffix_of_text b z -> suffix_of_text a z.
Proof. intros (u & ->) (v & ->). exists (v ++ u). by rewrite app_assoc. Qed.

(** Every round takes at least one character of an ASCII text. *)
Lemma complete_token_progress c z : ascii_text (c :: z) ->
  match complete_token (c :: z) with
  | Token _ rest => suffix_of_text rest z
  | Unfinished | AtEnd => True
  | OutOfBounds => False
  end.
Proof.
  intros H. apply Forall_cons_1 in H as [Hc H]. unfold complete_token. cbn [chr tail]. cbv zeta.
  destruct (c =? 59); [auto with text|].
  destruct ((c =? 32) || (c =? 13) || (c =? 9) || (c =? 10) || (c =? 12)); [auto with text|].
  destruct (c =? 47).
  { destruct (negb (chr z =? 42)); [auto with text|].
    destruct (chr (skip_comment (tail z)) =? 0); [done|].
    do 2 apply suffix_tail. eapply suffix_trans; auto with text. }
  destruct (Z.eqb_spec c 45) as [->|].
  { destruct (negb (chr z =? 45)); [auto with text|].
    change (skip_while ?p (45 :: z)) with (skip_while p z).
    match goal with |- context [chr ?r =? 0] => destruct (chr r =? 0) end; auto with text. }
  destruct (c =? 91); [match goal with |- context [chr ?r =? 0] => destruct (chr r =? 0) end; auto with text|].
  destruct ((c =? 34) || (c =? 39)); [match goal with |- context [chr ?r =? 0] => destruct (chr r =? 0) end; auto with text|].
  destruct (Z.leb_spec 128 c); [lia|].
  destruct (id_char c); [|auto with text].
  destruct (skip_word_suffix z H) as (r & -> & Hr). done.
Qed.

(** The loop ends within as many rounds as there are characters. *)
Lemma complete_total z : ascii_text z -> exists b, sqlite_complete z = Some b.
Proof.
  unfold sqlite_complete. generalize 0 as q. remember (S (length z)) as fuel eqn:Ef.
  assert (Hf : (length z < fuel)%nat) by lia. clear Ef. revert z Hf.
  induction fuel as [|fuel IH]; intros z Hf q Hz; [lia|]. cbn [complete_loop].
  destruct z as [|c z]; [by eexists|]. cbn [chr]. destruct (c =? 0); [by eexists|].
  pose proof (complete_token_progress c z Hz) as Hp. destruct (complete_token (c :: z)); [|by eexists..|done].
  pose proof (suffix_length _ _ Hp). apply IH; [simpl in Hf; lia|].
  eapply suffix_ascii; [exact Hp|]. by apply Forall_cons_1 in Hz as [_ ?].
Qed.

(** C29: [sqlite_complete] says yes exactly to the texts whose words, white space and
    comments aside, are a sequence of complete statements: a trigger definition
    ends with the first [; END ;], every other statement with its first semicolon.  On ASCII texts it returns, and
    never reads outside of its table. *)
Theorem complete_correct z :
  (sqlite_complete z = Some true <->
   exists ts, words (S (length z)) z = Some ts /\ complete_text (no_ws ts)) /\
  (ascii_text z -> exists b, sqlite_complete z = Some b).
Proof.
  split; [|apply complete_total].
  unfold sqlite_complete. rewrite complete_loop_words by (unfold state_ok; lia).
  assert (E : forall ts, run 0 ts = 0 <-> complete_text (no_ws ts)).
  { intros ts. rewrite run_ws by (unfold state_ok; lia). apply (run_language (length (no_ws ts))); [done|].
    unfold no_ws. rewrite list_elem_of_filter. by intros [? _]. }
  split; intros (ts & Hw & H); exists ts; split; try done; by apply E.
Qed.

Lemma complete_correct_witness : exists b, sqlite_complete (bytes_of_string "select 'a;b' -- x") = Some b.
Proof. apply complete_correct. repeat constructor; simpl; lia. Defined.

(** A byte above 127 at the start of a word makes [sqlite_complete] index
    [isIdChar], which has 128 elements, out of its bounds. *)
Theorem complete_reads_outside c z : 128 <= c < 256 -> sqlite_complete (c :: z) = None.
Proof.
  intros Hc. unfold sqlite_complete. cbn [complete_loop chr]. unfold complete_token. cbn [chr].
  repeat match goal with |- context [c =? ?k] => destruct (Z.eqb_spec c k); [lia|] end.
  destruct (Z.leb_spec 128 c); [done|lia].
Qed.

Lemma complete_reads_outside_witness : sqlite_complete [195; 169; 59] = None.
Proof. apply (complete_reads_outside 195 [169; 59]). lia. Defined.
