(* ===== verification/CMem.v ===== *)
(** Memory as the string routines of [util.c] see it: blocks of bytes that are allocated,
    resized and freed, the functions that allocate them ([sqliteMalloc],
    [sqliteRealloc], [sqliteStrDup], [sqliteSetNString], ...) of the build without
    MEMORY_DEBUG, and rules for code that uses them. A byte that was never written is
    [None]; reading one, an access outside a block and a second free are [Stuck]. *)
From S2P Require Import Prelude Util.

(** * The heap *)

(** [mallocs] holds the results of the allocations to come: [false] is a NULL; when
    the list runs out, every allocation succeeds. *)
Record mem := mkMem {
  blocks : gmap positive (list (option Z));
  mallocs : list bool;
  sqlite_malloc_failed : Z
}.

(** Where a [char*] points: to a constant string or to the start of a block. *)
Inductive cptr := Const (s : list Z) | Heap (p : positive).

Definition set_blocks (b : gmap positive (list (option Z))) (m : mem) : mem :=
  mkMem b (mallocs m) (sqlite_malloc_failed m).

Definition new_block (b : list (option Z)) : M mem positive := fun m =>
  let p := fresh (dom (blocks m)) in Done p (set_blocks (<[p := b]> (blocks m)) m).

Definition malloc_ok : M mem bool := fun m =>
  match mallocs m with
  | [] => Done true m
  | b :: bs => Done b (mkMem (blocks m) bs (sqlite_malloc_failed m))
  end.

Definition malloc_fails (n : Z) : M mem unit := fun m =>
  Done tt (mkMem (blocks m) (mallocs m) (sqlite_malloc_failed m + (if 0 <? n then 1 else 0))).

Definition get_block (p : positive) : M mem (list (option Z)) := fun m =>
  match blocks m !! p with Some b => Done b m | None => Stuck end.

Definition put_block (p : positive) (b : list (option Z)) : M mem unit := fun m =>
  match blocks m !! p with
  | Some _ => Done tt (set_blocks (<[p := b]> (blocks m)) m)
  | None => Stuck
  end.

Definition free (p : positive) : M mem unit := fun m =>
  match blocks m !! p with
  | Some _ => Done tt (set_blocks (delete p (blocks m)) m)
  | None => Stuck
  end.

(** [realloc] of a block: it moves, or it fails and stays. *)
Definition realloc (p : positive) (n : Z) : M mem (option positive) :=
  b ← get_block p;
  ok ← malloc_ok;
  if ok : bool then
    free p;;
    q ← new_block (take (Z.to_nat n) b ++ replicate (Z.to_nat n - length b) None);
    mret (Some q)
  else mret None.

(** [p[i]] *)
Definition load (p : positive) (i : Z) : M mem Z :=
  b ← get_block p;
  match b !! Z.to_nat i with
  | Some (Some v) => if 0 <=? i then mret v else mstuck
  | _ => mstuck
  end.

(** [memcpy(&p[i], l, n)] with the [n] bytes [l] *)
Definition store_raw (p : positive) (i : Z) (l : list (option Z)) : M mem unit :=
  b ← get_block p;
  assert ((0 <=? i) && (i + Z.of_nat (length l) <=? Z.of_nat (length b)));;
  put_block p (take (Z.to_nat i) b ++ l ++ drop (Z.to_nat i + length l) b).

Definition store_bytes (p : positive) (i : Z) (l : list Z) : M mem unit :=
  store_raw p i (map Some l).

(** [memcpy(p, q, n)] between two blocks *)
Definition memcpy (p q : positive) (n : Z) : M mem unit :=
  b ← get_block q;
  assert (n <=? Z.of_nat (length b));;
  store_raw p 0 (take (Z.to_nat n) b).

(** The bytes before the first NUL of a block, if they are all written. *)
Fixpoint block_str (b : list (option Z)) : option (list Z) :=
  match b with
  | Some c :: b' => if c =? 0 then Some [] else cons c <$> block_str b'
  | _ => None
  end.

(** The first [n] bytes of a block, if they are all written. *)
Fixpoint block_bytes (n : nat) (b : list (option Z)) : option (list Z) :=
  match n with
  | O => Some []
  | S n' =>
      match b with
      | Some c :: b' => cons c <$> block_bytes n' b'
      | _ => None
      end
  end.

(** The string a pointer points to. *)
Definition read_str (z : cptr) : M mem (list Z) :=
  match z with
  | Const s => mret (cstr s)
  | Heap p => b ← get_block p; match block_str b with Some s => mret s | None => mstuck end
  end.

(** [n] bytes from where a pointer points to; a constant string has its terminator. *)
Definition read_bytes (z : cptr) (n : Z) : M mem (list Z) :=
  b ← match z with Const s => mret (map Some (s ++ [0])) | Heap p => get_block p end;
  match block_bytes (Z.to_nat n) b with Some s => mret s | None => mstuck end.

(** * The allocator of util.c *)

Definition sqliteMalloc (n : Z) : M mem (option positive) :=
  ok ← malloc_ok;
  if ok : bool then p ← new_block (replicate (Z.to_nat n) (Some 0)); mret (Some p)
  else malloc_fails n;; mret None.

Definition sqliteMallocRaw (n : Z) : M mem (option positive) :=
  ok ← malloc_ok;
  if ok : bool then p ← new_block (replicate (Z.to_nat n) None); mret (Some p)
  else malloc_fails n;; mret None.

Definition sqliteFree (p : option positive) : M mem unit :=
  match p with Some p => free p | None => mret tt end.

Definition sqliteRealloc (p : option positive) (n : Z) : M mem (option positive) :=
  match p with
  | None => sqliteMalloc n
  | Some p =>
      if n =? 0 then sqliteFree (Some p);; mret None
      else
        p2 ← realloc p n;
        (if p2 is Some _ then mret tt else malloc_fails 1);;
        mret p2
  end.

Definition sqliteStrDup (z : option cptr) : M mem (option positive) :=
  match z with
  | None => mret None
  | Some z =>
      s ← read_str z;
      zNew ← sqliteMallocRaw (strlen s + 1);
      match zNew with
      | Some p => store_bytes p 0 (s ++ [0]);; mret zNew
      | None => mret None
      end
  end.

Definition sqliteStrNDup (z : option cptr) (n : Z) : M mem (option positive) :=
  match z with
  | None => mret None
  | Some z =>
      zNew ← sqliteMallocRaw (n + 1);
      match zNew with
      | Some p => s ← read_bytes z n; store_bytes p 0 s;; store_bytes p n [0];; mret zNew
      | None => mret None
      end
  end.

(** [while( (z = va_arg(ap, const char* ))!=0 ){ nByte += strlen(z); }] *)
Fixpoint strings_size (zs : list cptr) (nByte : Z) : M mem Z :=
  match zs with
  | [] => mret nByte
  | z :: zs' => s ← read_str z; strings_size zs' (nByte + strlen s)
  end.

(** The loop of [strcpy]: it leaves [zResult] at the terminator. *)
Fixpoint copy_strings (p : positive) (off : Z) (zs : list cptr) : M mem unit :=
  match zs with
  | [] => mret tt
  | z :: zs' =>
      s ← read_str z;
      store_bytes p off (s ++ [0]);;
      copy_strings p (off + strlen s) zs'
  end.

(** The result is the new value of [*pz]. *)
Definition sqliteSetString (pz : option positive) (zs : list cptr) : M mem (option positive) :=
  nByte ← strings_size zs 1;
  sqliteFree pz;;
  zResult ← sqliteMallocRaw nByte;
  match zResult with
  | None => mret None
  | Some p => store_bytes p 0 [0];; copy_strings p 0 zs;; mret zResult
  end.

(** The bytes [strncpy] copies: up to [n] of the string, and NULs behind it. *)
Fixpoint strncpy_bytes (n : nat) (b : list (option Z)) : option (list Z) :=
  match n with
  | O => Some []
  | S n' =>
      match b with
      | Some c :: b' => if c =? 0 then Some (replicate n 0) else cons c <$> strncpy_bytes n' b'
      | _ => None
      end
  end.

Definition strncpy (p : positive) (off : Z) (z : cptr) (n : Z) : M mem unit :=
  b ← match z with Const s => mret (map Some (s ++ [0])) | Heap q => get_block q end;
  match strncpy_bytes (Z.to_nat n) b with
  | Some s => store_bytes p off s
  | None => mstuck
  end.

(** [n = va_arg(ap, int); if( n<=0 ) n = strlen(z);] *)
Definition nstring_size (z : cptr) (n : Z) : M mem Z :=
  if n <=? 0 then s ← read_str z; mret (strlen s) else mret n.

Fixpoint nstrings_size (zs : list (cptr * Z)) (nByte : Z) : M mem Z :=
  match zs with
  | [] => mret nByte
  | (z, n) :: zs' => n ← nstring_size z n; nstrings_size zs' (nByte + n)
  end.

Fixpoint copy_nstrings (p : positive) (off : Z) (zs : list (cptr * Z)) : M mem unit :=
  match zs with
  | [] => store_bytes p off [0]
  | (z, n) :: zs' =>
      n ← nstring_size z n;
      strncpy p off z n;;
      copy_nstrings p (off + n) zs'
  end.

Definition sqliteSetNString (pz : option positive) (zs : list (cptr * Z)) : M mem (option positive) :=
  nByte ← nstrings_size zs 0;
  sqliteFree pz;;
  zResult ← sqliteMallocRaw (nByte + 1);
  match zResult with
  | None => mret None
  | Some p => copy_nstrings p 0 zs;; mret zResult
  end.

(** Rules for code that allocates, frees, reads and writes blocks of memory. *)

(** Running to the end: the process does not die in these functions. *)
Abbreviation returns m Q s := (wp m Q (fun _ => False) s).

Lemma returns_mono {S A} (m : M S A) (Q Q' : A -> S -> Prop) s :
  returns m Q s -> (forall a s', Q a s' -> Q' a s') -> returns m Q' s.
Proof. intros H HQ. by eapply wp_mono. Qed.

(** The bytes of a C string in a block, with what lies behind the terminator. *)
Definition holds_str (b : list (option Z)) (s : list Z) : Prop :=
  exists rest, b = map Some (s ++ [0]) ++ rest.

Lemma block_str_holds b s : cstring s -> holds_str b s -> block_str b = Some s.
Proof.
  intros Hs (rest & ->). induction s as [|c s IH]; [done|].
  apply Forall_cons_1 in Hs as [Hc Hs]. unfold cchar in Hc. simpl.
  destruct (Z.eqb_spec c 0); [lia|]. by rewrite IH.
Qed.

Lemma block_bytes_app s rest : block_bytes (length s) (map Some s ++ rest) = Some s.
Proof. induction s as [|c s IH]; [done|]. simpl. by rewrite IH. Qed.

Lemma block_bytes_take n s rest : (n <= length s)%nat ->
  block_bytes n (map Some s ++ rest) = Some (take n s).
Proof.
  revert n. induction s as [|c s IH]; intros [|n] H; [done|simpl in H; lia|done|].
  simpl in *. by rewrite IH by lia.
Qed.

Lemma cstr_id s : cstring s -> cstr s = s.
Proof.
  induction s as [|c s IH]; [done|]. intros [Hc H]%Forall_cons_1. unfold cchar in Hc. simpl.
  destruct (Z.eqb_spec c 0); [lia|]. by rewrite IH.
Qed.

Lemma strlen_length s : cstring s -> strlen s = Z.of_nat (length s).
Proof.
  induction s as [|c s IH]; [done|]. intros [Hc H]%Forall_cons_1. unfold cchar in Hc. cbn [strlen length].
  destruct (Z.eqb_spec c 0); [lia|]. rewrite IH by done. lia.
Qed.

(** A pointer to the string [s] in the memory [h]. *)
Definition points_to_str (h : mem) (z : cptr) (s : list Z) : Prop :=
  cstring s /\
  match z with
  | Const t => t = s
  | Heap p => exists b, blocks h !! p = Some b /\ holds_str b s
  end.

Section rules.
Context {A : Type} (h : mem).

Lemma wp_read_str z s (Q : list Z -> mem -> Prop) C :
  points_to_str h z s -> Q s h -> wp (read_str z) Q C h.
Proof.
  intros [Hs Hz] H. destruct z as [t|p].
  - subst t. unfold wp, read_str. simpl. by rewrite cstr_id.
  - destruct Hz as (b & Hb & Hh). unfold wp, read_str, mbind, M_bind, get_block.
    rewrite Hb, (block_str_holds b s) by done. done.
Qed.

Lemma wp_read_bytes z s n (Q : list Z -> mem -> Prop) C :
  points_to_str h z s -> 0 <= n <= Z.of_nat (length s) ->
  Q (take (Z.to_nat n) s) h -> wp (read_bytes z n) Q C h.
Proof.
  intros [Hs Hz] Hn H.
  assert (Hb : forall rest, block_bytes (Z.to_nat n) (map Some (s ++ [0]) ++ rest) = Some (take (Z.to_nat n) s)).
  { intros rest. rewrite block_bytes_take by (rewrite length_app; simpl; lia).
    by rewrite take_app_le by lia. }
  destruct z as [t|p].
  - subst t. unfold wp, read_bytes, mbind, M_bind. specialize (Hb []). rewrite app_nil_r in Hb.
    simpl. by rewrite Hb.
  - destruct Hz as (b & Hb' & rest & ->). unfold wp, read_bytes, mbind, M_bind, get_block.
    rewrite Hb', Hb. done.
Qed.

Lemma wp_get_block p b (Q : list (option Z) -> mem -> Prop) C :
  blocks h !! p = Some b -> Q b h -> wp (get_block p) Q C h.
Proof. unfold wp, get_block. by intros ->. Qed.

Lemma mem_wp_free p b (Q : unit -> mem -> Prop) C :
  blocks h !! p = Some b -> Q tt (set_blocks (delete p (blocks h)) h) -> wp (free p) Q C h.
Proof. unfold wp, free. by intros ->. Qed.

Lemma wp_new_block b (Q : positive -> mem -> Prop) C :
  (forall p, blocks h !! p = None -> Q p (set_blocks (<[p := b]> (blocks h)) h)) ->
  wp (new_block b) Q C h.
Proof. intros H. unfold wp, new_block. apply H. apply not_elem_of_dom, is_fresh. Qed.

Lemma wp_store_raw p i l b (Q : unit -> mem -> Prop) C :
  blocks h !! p = Some b -> 0 <= i -> i + Z.of_nat (length l) <= Z.of_nat (length b) ->
  Q tt (set_blocks (<[p := take (Z.to_nat i) b ++ l ++ drop (Z.to_nat i + length l) b]> (blocks h)) h) ->
  wp (store_raw p i l) Q C h.
Proof.
  intros Hb Hi Hl H. unfold store_raw. apply wp_bind. eapply wp_get_block; [done|].
  apply wp_bind, wp_assert; [lia|]. unfold wp, put_block. by rewrite Hb.
Qed.

Lemma wp_store_bytes p i l b (Q : unit -> mem -> Prop) C :
  blocks h !! p = Some b -> 0 <= i -> i + Z.of_nat (length l) <= Z.of_nat (length b) ->
  Q tt (set_blocks (<[p := take (Z.to_nat i) b ++ map Some l ++ drop (Z.to_nat i + length l) b]>
          (blocks h)) h) ->
  wp (store_bytes p i l) Q C h.
Proof.
  intros Hb Hi Hl H. unfold store_bytes.
  apply wp_store_raw with b; rewrite ?length_map; done.
Qed.

Lemma mem_wp_malloc_ok (Q : bool -> mem -> Prop) C :
  mallocs h = [] -> Q true h -> wp malloc_ok Q C h.
Proof. unfold wp, malloc_ok. by intros ->. Qed.

Lemma wp_memcpy p q n b bq (Q : unit -> mem -> Prop) C :
  blocks h !! q = Some bq -> blocks h !! p = Some b -> 0 <= n ->
  n <= Z.of_nat (length bq) -> n <= Z.of_nat (length b) ->
  Q tt (set_blocks (<[p := take (Z.to_nat n) bq ++ drop (Z.to_nat n) b]> (blocks h)) h) ->
  wp (memcpy p q n) Q C h.
Proof.
  intros Hq Hp Hn H1 H2 H. unfold memcpy. apply wp_bind. eapply wp_get_block; [done|].
  apply wp_bind, wp_assert; [lia|]. eapply wp_store_raw; [done|lia| |].
  - rewrite length_take. lia.
  - rewrite length_take. replace (Z.to_nat 0 + _)%nat with (Z.to_nat n) by lia. done.
Qed.
End rules.

(** The allocator, when there is memory. *)
Section allocator.
Context (h : mem) (Hok : mallocs h = []).

Lemma mem_wp_sqliteMalloc n (Q : option positive -> mem -> Prop) C :
  (forall p, blocks h !! p = None ->
     Q (Some p) (set_blocks (<[p := replicate (Z.to_nat n) (Some 0)]> (blocks h)) h)) ->
  wp (sqliteMalloc n) Q C h.
Proof.
  intros H. apply wp_bind, mem_wp_malloc_ok; [done|]. apply wp_bind, wp_new_block.
  intros p Hp. by apply wp_ret, H.
Qed.

Lemma mem_wp_sqliteMallocRaw n (Q : option positive -> mem -> Prop) C :
  (forall p, blocks h !! p = None ->
     Q (Some p) (set_blocks (<[p := replicate (Z.to_nat n) None]> (blocks h)) h)) ->
  wp (sqliteMallocRaw n) Q C h.
Proof.
  intros H. apply wp_bind, mem_wp_malloc_ok; [done|]. apply wp_bind, wp_new_block.
  intros p Hp. by apply wp_ret, H.
Qed.

Lemma wp_realloc p n b (Q : option positive -> mem -> Prop) C :
  blocks h !! p = Some b ->
  (forall q, delete p (blocks h) !! q = None ->
     Q (Some q) (set_blocks (<[q := take (Z.to_nat n) b ++ replicate (Z.to_nat n - length b) None]>
       (delete p (blocks h))) h)) ->
  wp (realloc p n) Q C h.
Proof.
  intros Hb H. apply wp_bind. eapply wp_get_block; [done|].
  apply wp_bind, mem_wp_malloc_ok; [done|]. apply wp_bind. eapply mem_wp_free; [done|].
  apply wp_bind, wp_new_block. intros q Hq. by apply wp_ret, H.
Qed.
End allocator.
