(* ===== verification/CFloat.v ===== *)
(** The floating point types of C on x86-64: [double] is binary64 and [long double] the
    80-bit format of the x87, with the rounding of IEEE 754 to nearest even, as the
    Standard Library's [SpecFloat] specifies it; and the numeric text of [util.c]. *)
From S2P Require Import Prelude Util.
From Stdlib Require Export SpecFloat.

(** A value in another format: the conversion rounds. *)
Definition convert (prec emax : Z) (x : spec_float) : spec_float :=
  match x with
  | S754_finite s m e => binary_round prec emax s m e
  | _ => x
  end.

(** A non-negative integer constant. *)
Definition of_Z (prec emax n : Z) : spec_float := binary_normalize prec emax n 0 false.

(** * double *)

Definition dbl_prec : Z := 53.
Definition dbl_emax : Z := 1024.
Definition dadd : spec_float -> spec_float -> spec_float := SFadd dbl_prec dbl_emax.
Definition dsub : spec_float -> spec_float -> spec_float := SFsub dbl_prec dbl_emax.
Definition dmul : spec_float -> spec_float -> spec_float := SFmul dbl_prec dbl_emax.
Definition ddiv : spec_float -> spec_float -> spec_float := SFdiv dbl_prec dbl_emax.
Definition dint : Z -> spec_float := of_Z dbl_prec dbl_emax.

(** The constants [0.1] and [1e-8]: the quotient is the double nearest to them. *)
Definition d0_1 : spec_float := ddiv (dint 1) (dint 10).
Definition d1em8 : spec_float := ddiv (dint 1) (dint 100000000).
Definition d0_5 : spec_float := ddiv (dint 1) (dint 2).

(** * long double *)

Definition ld_prec : Z := 64.
Definition ld_emax : Z := 16384.
Definition ldadd : spec_float -> spec_float -> spec_float := SFadd ld_prec ld_emax.
Definition ldsub : spec_float -> spec_float -> spec_float := SFsub ld_prec ld_emax.
Definition ldmul : spec_float -> spec_float -> spec_float := SFmul ld_prec ld_emax.
Definition lddiv : spec_float -> spec_float -> spec_float := SFdiv ld_prec ld_emax.
Definition ldint : Z -> spec_float := of_Z ld_prec ld_emax.

Definition to_ld : spec_float -> spec_float := convert ld_prec ld_emax.
Definition to_double : spec_float -> spec_float := convert dbl_prec dbl_emax.

(** [(int)x]: undefined when the truncated value is no [int]. *)
Definition to_int (x : spec_float) : option Z :=
  match x with
  | S754_zero _ => Some 0
  | S754_finite s m e =>
      let n := if 0 <=? e then Z.pos m * 2 ^ e else Z.pos m / 2 ^ (- e) in
      let n := if s then - n else n in
      if (-2147483648 <=? n) && (n <? 2147483648) then Some n else None
  | _ => None
  end.

(** Numeric text and sort keys in [util.c]: the conversion [sqliteAtoF] in the arithmetic
    of [long double], the comparison of values [sqliteCompare], and the comparison of
    sort keys [sqliteSortCompare], with the orders they define. *)

(** * The conversion of text *)

(** [while( isdigit( *z) ){ v1 = v1*10.0 + ( *z - '0'); z++; }] *)
Fixpoint atof_digits (z : list Z) (v1 : spec_float) : list Z * spec_float :=
  match z with
  | [] => (z, v1)
  | c :: z' => if isdigit c then atof_digits z' (ldadd (ldmul v1 (ldint 10)) (ldint (c - 48))) else (z, v1)
  end.

(** The same loop behind the point, with the divisor. *)
Fixpoint atof_fraction (z : list Z) (v1 divisor : spec_float) : list Z * spec_float * spec_float :=
  match z with
  | [] => (z, v1, divisor)
  | c :: z' =>
      if isdigit c
      then atof_fraction z' (ldadd (ldmul v1 (ldint 10)) (ldint (c - 48))) (ldmul divisor (ldint 10))
      else (z, v1, divisor)
  end.

Fixpoint atof_exponent (z : list Z) (eval : Z) : list Z * Z :=
  match z with
  | [] => (z, eval)
  | c :: z' => if isdigit c then atof_exponent z' (wrap32 (eval * 10 + c - 48)) else (z, eval)
  end.

(** [while( eval>=step ){ scale *= factor; eval -= step; }] *)
Fixpoint scale_while (fuel : nat) (step : Z) (factor : spec_float) (eval : Z) (scale : spec_float) : Z * spec_float :=
  match fuel with
  | O => (eval, scale)
  | S fuel' =>
      if step <=? eval then scale_while fuel' step factor (eval - step) (ldmul scale factor)
      else (eval, scale)
  end.

(** The constants [1.0e+64], ... are doubles. *)
Definition ten_to (n : Z) : spec_float := to_ld (dint (10 ^ n)).

Definition scale_of (eval : Z) : spec_float :=
  let '(eval, scale) := scale_while (Z.to_nat (eval / 64 + 1)) 64 (ten_to 64) eval (ldint 1) in
  let '(eval, scale) := scale_while 4 16 (ten_to 16) eval scale in
  let '(eval, scale) := scale_while 4 4 (ten_to 4) eval scale in
  snd (scale_while 4 1 (ten_to 1) eval scale).

(** The result and the text behind the number, [*pzEnd]. *)
Definition sqliteAtoF (z : list Z) : spec_float * list Z :=
  let neg := chr z =? 45 in
  let z := if neg || (chr z =? 43) then tail z else z in
  let '(z, v1) := atof_digits z (S754_zero false) in
  let '(z, v1) :=
    if chr z =? 46 then
      let '(z, v1, divisor) := atof_fraction (tail z) v1 (ldint 1) in (z, lddiv v1 divisor)
    else (z, v1) in
  let '(z, v1) :=
    if (chr z =? 101) || (chr z =? 69) then
      let z := tail z in
      let eneg := chr z =? 45 in
      let z := if eneg || (chr z =? 43) then tail z else z in
      let '(z, eval) := atof_exponent z 0 in
      (z, if eneg then lddiv v1 (scale_of eval) else ldmul v1 (scale_of eval))
    else (z, v1) in
  (to_double (if neg then SFopp v1 else v1), z).

(** * Comparisons *)

(** Values of an expression; [None] is a NULL pointer. *)
Definition sqliteCompare (atext btext : option (list Z)) : Z :=
  match atext, btext with
  | None, _ => -1
  | _, None => 1
  | Some a, Some b =>
      if sqliteIsNumber a then
        if negb (sqliteIsNumber b) then -1
        else
          let rA := fst (sqliteAtoF a) in
          let rB := fst (sqliteAtoF b) in
          if SFltb rA rB then -1 else if SFltb rB rA then 1 else 0
      else if sqliteIsNumber b then 1
      else strcmp a b
  end.

(** What an iteration of [sqliteSortCompare] decides for a pair of elements: the
    result, or that the loop goes on. *)
Definition compare_element (dir : Z) (a b : list Z) : Z :=
  if (dir =? 65) || (dir =? 68) then strcmp a b
  else if sqliteIsNumber a then
    if negb (sqliteIsNumber b) then -1
    else
      let rA := fst (sqliteAtoF a) in
      let rB := fst (sqliteAtoF b) in
      if SFltb rA rB then -1 else if SFltb rB rA then 1 else 0
  else if sqliteIsNumber b then 1
  else strcmp a b.

(** [if( dir=='-' || dir=='D' ) res = -res;] *)
Definition directed (dir res : Z) : Z := if (dir =? 45) || (dir =? 68) then - res else res.

(** [a += strlen(&a[1]) + 2] *)
Definition next_element (a : list Z) : list Z := drop (Z.to_nat (strlen (tail a) + 2)) a.

(** [None]: the assertion [a[0]==b[0]] has failed. *)
Fixpoint sort_compare_loop (fuel : nat) (a b : list Z) : option Z :=
  match fuel with
  | O => None
  | S fuel' =>
      if (chr a =? 0) || (chr b =? 0) then Some 0
      else if (chr a =? 78) || (chr b =? 78) then
        if chr a =? chr b then sort_compare_loop fuel' (drop 2 a) (drop 2 b)
        else Some (if chr a =? 78 then directed (chr b) (-1) else directed (chr a) 1)
      else if negb (chr a =? chr b) then None
      else
        let res := compare_element (chr a) (tail a) (tail b) in
        if res =? 0 then sort_compare_loop fuel' (next_element a) (next_element b)
        else Some (directed (chr a) res)
  end.

Definition sqliteSortCompare (a b : list Z) : option Z := sort_compare_loop (S (length a)) a b.
