(* ===== verification/Printf.v ===== *)
(** The formatted output of [printf.c]: the conversions of [vxprintf] in its buffer
    [buf], the consumer [mout] that collects the text in a string that can grow, and
    the entry points [sqliteMPrintf], [sqlite_mprintf] and [sqlite_snprintf].  The
    arguments are a list of values tagged with their C type; taking one with the
    wrong type is [Stuck], as is every access outside [buf].  The [sqlite_malloc_failed]
    counter and [long] are those of a 64-bit Unix. *)
From S2P Require Import Prelude Util CMem CFloat.

(** * Conversions *)

Inductive conversion :=
| etRADIX | etFLOAT | etEXP | etGENERIC | etSIZE | etSTRING | etDYNSTRING | etPERCENT
| etCHARX | etERROR | etCHARLIT | etSQLESCAPE | etSQLESCAPE2 | etTOKEN | etSRCLIST.

Record et_info := mkInfo {
  fmttype : Z; base : Z; flags : Z; type : conversion;
  charset : option (list Z); i_prefix : option (list Z)
}.

Definition FLAG_SIGNED : Z := 1.
Definition FLAG_INTERN : Z := 2.

Definition info (c : String.string) (b f : Z) (t : conversion) (cs : String.string)
    (p : String.string) : et_info :=
  let str s := if bytes_of_string s is [] then None else Some (bytes_of_string s) in
  mkInfo (chr (bytes_of_string c)) b f t (str cs) (str p).
Arguments info _%_string_scope _ _ _ _%_string_scope _%_string_scope.

Definition fmtinfo : list et_info :=
  [info "d" 10 1 etRADIX "0123456789" "";
   info "s" 0 0 etSTRING "" "";
   info "z" 0 2 etDYNSTRING "" "";
   info "q" 0 0 etSQLESCAPE "" "";
   info "Q" 0 0 etSQLESCAPE2 "" "";
   info "c" 0 0 etCHARX "" "";
   info "o" 8 0 etRADIX "01234567" "0";
   info "u" 10 0 etRADIX "0123456789" "";
   info "x" 16 0 etRADIX "0123456789abcdef" "x0";
   info "X" 16 0 etRADIX "0123456789ABCDEF" "X0";
   info "f" 0 1 etFLOAT "" "";
   info "e" 0 1 etEXP "e" "";
   info "E" 0 1 etEXP "E" "";
   info "g" 0 1 etGENERIC "e" "";
   info "G" 0 1 etGENERIC "E" "";
   info "i" 10 1 etRADIX "0123456789" "";
   info "n" 0 0 etSIZE "" "";
   info "%" 0 0 etPERCENT "" "";
   info "p" 10 0 etRADIX "0123456789" "";
   info "T" 0 2 etTOKEN "" "";
   info "S" 0 2 etSRCLIST "" ""].

Definition etBUFSIZE : Z := 1000.
Definition etSPACESIZE : Z := 50.

(** * The state *)

Record SrcList_item := mkSrcItem { zDatabase : option cptr; zName : cptr }.

(** An argument of the variable argument list. *)
Inductive arg :=
| AInt (v : Z)
| ALong (v : Z)
| ADouble (v : spec_float)
| AStr (z : option cptr)
| AIntPtr (p : Z)
| AToken (z : cptr) (n : Z)
| ASrcList (a : list SrcList_item).

(** The reallocation functions [base_vprintf] is called with. *)
Inductive reallocator := printf_realloc | libc_realloc.

Record sgMprintf := mkSg {
  zBase : positive; zText : option positive;
  nChar : Z; nTotal : Z; nAlloc : Z; xRealloc : option reallocator
}.

(** [buf] is a local array of [vxprintf]; [ints] are the integers that [%n] stored. *)
Record PW := mkPW {
  pm : mem; sM : sgMprintf; ap : list arg; buf : list Z; ints : list (Z * Z)
}.

Definition set_pm (v : mem) (w : PW) : PW := mkPW v (sM w) (ap w) (buf w) (ints w).
Definition set_sM (v : sgMprintf) (w : PW) : PW := mkPW (pm w) v (ap w) (buf w) (ints w).
Definition set_ap (v : list arg) (w : PW) : PW := mkPW (pm w) (sM w) v (buf w) (ints w).
Definition set_buf (v : list Z) (w : PW) : PW := mkPW (pm w) (sM w) (ap w) v (ints w).
Definition set_ints (v : list (Z * Z)) (w : PW) : PW := mkPW (pm w) (sM w) (ap w) (buf w) v.

Definition onmem {A} (m : M mem A) : M PW A := fun w =>
  match m (pm w) with
  | Done a m' => Done a (set_pm m' w)
  | Crashed m' => Crashed (set_pm m' w)
  | Stuck => Stuck
  end.

Definition upd_sM (f : sgMprintf -> sgMprintf) : M PW unit := fun w =>
  Done tt (set_sM (f (sM w)) w).

Definition set_zText (v : option positive) (s : sgMprintf) : sgMprintf :=
  mkSg (zBase s) v (nChar s) (nTotal s) (nAlloc s) (xRealloc s).
Definition set_nChar (v : Z) (s : sgMprintf) : sgMprintf :=
  mkSg (zBase s) (zText s) v (nTotal s) (nAlloc s) (xRealloc s).
Definition set_nTotal (v : Z) (s : sgMprintf) : sgMprintf :=
  mkSg (zBase s) (zText s) (nChar s) v (nAlloc s) (xRealloc s).
Definition set_nAlloc (v : Z) (s : sgMprintf) : sgMprintf :=
  mkSg (zBase s) (zText s) (nChar s) (nTotal s) v (xRealloc s).

(** A result of [int] arithmetic: an overflow is undefined in C. *)
Definition as_int (x : Z) : M PW Z :=
  assert ((-2147483648 <=? x) && (x <=? 2147483647));; mret x.

(** [va_arg] *)
Definition va_next : M PW arg := fun w =>
  match ap w with a :: r => Done a (set_ap r w) | [] => Stuck end.
Definition va_int : M PW Z := a ← va_next; match a with AInt v => mret v | _ => mstuck end.
Definition va_long : M PW Z := a ← va_next; match a with ALong v => mret v | _ => mstuck end.
Definition va_double : M PW spec_float :=
  a ← va_next; match a with ADouble v => mret v | _ => mstuck end.
Definition va_str : M PW (option cptr) :=
  a ← va_next; match a with AStr z => mret z | _ => mstuck end.

(** [buf[i]], [buf[i] = v] *)
Definition bget (i : Z) : M PW Z := fun w =>
  if (0 <=? i) && (i <? etBUFSIZE) then Done ((buf w).[i]) w else Stuck.
Definition bput (i v : Z) : M PW unit := fun w =>
  if (0 <=? i) && (i <? etBUFSIZE) then Done tt (set_buf ((buf w).[i <- v]) w) else Stuck.

(** [*(bufpt++) = c] for each byte of a list *)
Fixpoint bput_list (i : Z) (l : list Z) : M PW Z :=
  match l with
  | [] => mret i
  | c :: l' => bput i c;; bput_list (i + 1) l'
  end.

(** [*(--bufpt) = c], [n] times *)
Fixpoint bput_down (n : nat) (i c : Z) : M PW Z :=
  match n with
  | O => mret i
  | S n' => bput (i - 1) c;; bput_down n' (i - 1) c
  end.

(** [*(--bufpt) = x] for each byte of a list *)
Fixpoint bput_back (i : Z) (l : list Z) : M PW Z :=
  match l with
  | [] => mret i
  | x :: l' => bput (i - 1) x;; bput_back (i - 1) l'
  end.

(** * Floating point *)

(** The loops that bring [realvalue] into the range of one digit before the point:
    multiply while the test holds. *)
Fixpoint scale_loop (fuel : nat) (test : spec_float -> Z -> bool) (factor : spec_float) (step : Z)
    (v : spec_float) (exp : Z) : option (spec_float * Z) :=
  match fuel with
  | O => None
  | S fuel' =>
      if test v exp then scale_loop fuel' test factor step (ldmul v factor) (exp + step)
      else Some (v, exp)
  end.

Definition ld_1e8 : spec_float := ldint 100000000.
Definition ld_1em8 : spec_float := to_ld d1em8.
Definition ld_0_1 : spec_float := to_ld d0_1.

Definition normalize (v : spec_float) : option (spec_float * Z) :=
  '(v, exp) ← scale_loop 360 (fun v exp => SFleb ld_1e8 v && (exp <=? 350)) ld_1em8 8 v 0;
  '(v, exp) ← scale_loop 360 (fun v exp => SFleb (ldint 10) v && (exp <=? 350)) ld_0_1 1 v exp;
  '(v, exp) ← scale_loop 360 (fun v exp => SFltb v ld_1em8 && (-350 <=? exp)) ld_1e8 (-8) v exp;
  scale_loop 360 (fun v exp => SFltb v (ldint 1) && (-350 <=? exp)) (ldint 10) (-1) v exp.

Definition et_getdigit (val : spec_float) (cnt : Z) : M PW (Z * spec_float * Z) :=
  if 16 <=? cnt then mret (48, val, cnt + 1)
  else match to_int val with
       | Some digit => mret (digit + 48, ldmul (ldsub val (ldint digit)) (ldint 10), cnt + 1)
       | None => mstuck
       end.

(** [*(bufpt++) = et_getdigit(&realvalue,&nsd)], [n] times *)
Fixpoint put_digits (n : nat) (i : Z) (val : spec_float) (cnt : Z) : M PW (Z * spec_float * Z) :=
  match n with
  | O => mret (i, val, cnt)
  | S n' =>
      '(c, val, cnt) ← et_getdigit val cnt;
      bput i c;;
      put_digits n' (i + 1) val cnt
  end.

(** [while( bufpt>=buf && *bufpt=='0' ) *(bufpt--) = 0;] *)
Fixpoint trim_zeros (fuel : nat) (i : Z) : M PW Z :=
  match fuel with
  | O => mstuck
  | S fuel' =>
      if i <? 0 then mret i
      else c ← bget i; if c =? 48 then bput i 0;; trim_zeros fuel' (i - 1) else mret i
  end.

Definition trim_point (i : Z) : M PW Z :=
  if i <? 0 then mret i
  else c ← bget i; if c =? 46 then bput i 0;; mret (i - 1) else mret i.

Definition trim (i : Z) : M PW Z := i ← trim_zeros (Z.to_nat i + 2) i; trim_point i.

(** The text with a decimal point and without an exponent; the results are the
    addresses behind it. *)
Definition put_fixed (prefix : Z) (flag_dp flag_rtz : bool) (precision exp : Z) (v : spec_float) : M PW Z :=
  i ← bput_list 0 (if prefix =? 0 then [] else [prefix]);
  '(i, v, nsd, exp) ← (if exp <? 0 then i ← bput_list i [48]; mret (i, v, 0, exp)
                       else '(i, v, nsd) ← put_digits (Z.to_nat (exp + 1)) i v 0; mret (i, v, nsd, -1));
  i ← bput_list i (if flag_dp : bool then [46] else []);
  let zeros := Z.to_nat (Z.min (- (exp + 1)) precision) in
  i ← bput_list i (replicate zeros 48);
  '(i, v, nsd) ← put_digits (Z.to_nat (precision - Z.of_nat zeros)) i v nsd;
  bput i 0;;
  i ← (if flag_rtz && flag_dp then trim (i - 1) else mret (i - 1));
  mret (i + 1).

(** The text with an exponent. *)
Definition put_exponent (exp : Z) (charset : option (list Z)) (i : Z) : M PW Z :=
  letter ← (match charset with Some cs => mret (chr cs) | None => mstuck end);
  i ← bput_list i [letter; if exp <? 0 then 45 else 43];
  let exp := Z.abs exp in
  i ← bput_list i (if 100 <=? exp then [exp / 100 + 48] else []);
  let exp := if 100 <=? exp then exp `mod` 100 else exp in
  bput_list i [exp / 10 + 48; exp `mod` 10 + 48].

Definition put_exp (prefix : Z) (flag_dp flag_rtz flag_exp : bool) (charset : option (list Z))
    (precision exp : Z) (v : spec_float) : M PW Z :=
  i ← bput_list 0 (if prefix =? 0 then [] else [prefix]);
  '(i, v, nsd) ← put_digits 1 i v 0;
  i ← bput_list i (if flag_dp : bool then [46] else []);
  '(i, v, nsd) ← put_digits (Z.to_nat precision) i v nsd;
  i ← (if flag_rtz && flag_dp then trim (i - 1) else mret (i - 1));
  let i := i + 1 in
  if negb (exp =? 0) || flag_exp then put_exponent exp charset i else mret i.

(** Move the text behind the sign to the right and fill the gap with zeros. *)
Fixpoint shift_right (n : nat) (i nPad : Z) : M PW unit :=
  match n with
  | O => mret tt
  | S n' => c ← bget (i - nPad); bput i c;; shift_right n' (i - 1) nPad
  end.

Definition zeropad (prefix length width : Z) : M PW unit :=
  let nPad := width - length in
  shift_right (Z.to_nat (width - nPad + 1)) width nPad;;
  bput_list (if prefix =? 0 then 0 else 1) (replicate (Z.to_nat nPad) 48);;
  mret tt.

(** * Fields *)

(** Where [bufpt] points to. *)
Inductive bufptr := BNull | InBuf (i : Z) | At (z : cptr).

Record fieldspec := mkSpec {
  flag_leftjustify : bool; flag_plussign : bool; flag_blanksign : bool;
  flag_alternateform : bool; flag_zeropad : bool; flag_long : bool;
  width : Z; precision : Z
}.

(** What a conversion leaves in [bufpt], [length], [width] and [zExtra]. *)
Record field := mkField {
  f_bufpt : bufptr; f_length : Z; f_width : Z; f_zExtra : option positive
}.

Definition sign_char (fl : fieldspec) (neg : bool) : Z :=
  if neg then 45
  else if flag_plussign fl then 43
  else if flag_blanksign fl then 32 else 0.

Fixpoint radix_loop (fuel : nat) (cset : list Z) (base longvalue i : Z) : M PW Z :=
  match fuel with
  | O => mstuck
  | S fuel' =>
      bput (i - 1) (cset.[longvalue `mod` base]);;
      let longvalue := longvalue / base in
      if 0 <? longvalue then radix_loop fuel' cset base longvalue (i - 1) else mret (i - 1)
  end.

Definition wrap64u (x : Z) : Z := x `mod` 18446744073709551616.

Definition conv_radix (fl : fieldspec) (infop : et_info) : M PW field :=
  v ← (if flag_long fl then va_long else va_int);
  let longvalue := wrap64u v in
  let alternateform := flag_alternateform fl && negb (longvalue =? 0) in
  let signed := Z.land (flags infop) FLAG_SIGNED =? FLAG_SIGNED in
  let neg := signed && (9223372036854775808 <=? longvalue) in
  let longvalue := if neg then wrap64u (- longvalue) else longvalue in
  let prefix := if signed then sign_char fl neg else 0 in
  let w := width fl - (if prefix =? 0 then 0 else 1) in
  let precision := if flag_zeropad fl && (precision fl <? w) then w else precision fl in
  let top := etBUFSIZE - 1 in
  cset ← (match charset infop with Some cs => mret cs | None => mstuck end);
  i ← radix_loop 64 cset (base infop) longvalue top;
  i ← bput_down (Z.to_nat (precision - (top - i))) i 48;
  i ← (if prefix =? 0 then mret i else bput_down 1 i prefix);
  i ← (match i_prefix infop with
       | Some pre =>
           if alternateform : bool then
             c ← bget i;
             if c =? chr pre then mret i
             else bput_back i pre
           else mret i
       | None => mret i
       end);
  mret (mkField (InBuf i) (top - i) (width fl) None).

Definition conv_float (fl : fieldspec) (infop : et_info) : M PW field :=
  v ← va_double;
  let precision := if precision fl <? 0 then 6 else precision fl in
  let precision := if etBUFSIZE - 10 <? precision then etBUFSIZE - 10 else precision in
  let neg := SFltb v (S754_zero false) in
  let realvalue := to_ld (if neg then SFopp v else v) in
  let prefix := sign_char fl neg in
  let generic := if type infop is etGENERIC then true else false in
  let precision := if generic && (0 <? precision) then precision - 1 else precision in
  let rounder := to_ld (Nat.iter (Z.to_nat precision) (fun r => dmul r d0_1) d0_5) in
  let realvalue := if type infop is etFLOAT then ldadd realvalue rounder else realvalue in
  match (if SFltb (S754_zero false) realvalue then normalize realvalue else Some (realvalue, 0)) with
  | None => mstuck
  | Some (realvalue, exp) =>
      if (350 <? exp) || (exp <? -350) then
        mret (mkField (At (Const (bytes_of_string "NaN"))) 3 (width fl) None)
      else
        let '(realvalue, exp) :=
          if type infop is etFLOAT then (realvalue, exp) else
          let v := ldadd realvalue rounder in
          if SFleb (ldint 10) v then (ldmul v ld_0_1, exp + 1) else (v, exp) in
        let flag_exp := if type infop is etEXP then true else false in
        let flag_rtz := generic && negb (flag_alternateform fl) in
        let to_exp := (exp <? -4) || (precision <? exp) in
        let fixed := if generic then negb to_exp else negb flag_exp in
        let precision := if generic && negb to_exp then precision - exp else precision in
        let flag_dp := (0 <? precision) || flag_alternateform fl in
        length ← (if fixed && (exp + precision <? etBUFSIZE - 30)
                  then put_fixed prefix flag_dp flag_rtz precision exp realvalue
                  else put_exp prefix flag_dp flag_rtz flag_exp (charset infop) precision exp realvalue);
        if flag_zeropad fl && negb (flag_leftjustify fl) && (length <? width fl) then
          zeropad prefix length (width fl);;
          mret (mkField (InBuf 0) (width fl) (width fl) None)
        else mret (mkField (InBuf 0) length (width fl) None)
  end.

Definition conv_charx (fl : fieldspec) (c : Z) : M PW field :=
  bput 0 c;;
  if 0 <=? precision fl then
    bput_list 1 (replicate (Z.to_nat (precision fl - 1)) c);;
    mret (mkField (InBuf 0) (precision fl) (width fl) None)
  else mret (mkField (InBuf 0) 1 (width fl) None).

(** [if( precision>=0 && precision<length ) length = precision;] *)
Definition limit (fl : fieldspec) (length : Z) : Z :=
  if (0 <=? precision fl) && (precision fl <? length) then precision fl else length.

Definition conv_string (fl : fieldspec) (xtype : conversion) : M PW field :=
  bufpt ← va_str;
  let zExtra := match bufpt, xtype with Some (Heap p), etDYNSTRING => Some p | _, _ => None end in
  let bufpt := default (Const []) bufpt in
  s ← onmem (read_str bufpt);
  length ← as_int (strlen s);
  mret (mkField (At bufpt) (limit fl length) (width fl) zExtra).

(** The bytes of a string with the quotes doubled. *)
Fixpoint double_quotes (s : list Z) : list Z :=
  match s with
  | [] => []
  | c :: s' => if c =? 39 then c :: c :: double_quotes s' else c :: double_quotes s'
  end.

Fixpoint count_quotes (s : list Z) : Z :=
  match s with
  | [] => 0
  | c :: s' => (if c =? 39 then 1 else 0) + count_quotes s'
  end.

(** [None]: there is no memory, and [vxprintf] returns -1. *)
Definition conv_escape (fl : fieldspec) (xtype : conversion) : M PW (option field) :=
  a ← va_str;
  let q2 := if xtype is etSQLESCAPE2 then true else false in
  let isnull := if a is None then true else false in
  s ← (match a with
       | Some z => onmem (read_str z)
       | None => mret (bytes_of_string (if q2 then "NULL" else "(NULL)"))
       end);
  let quote := if negb isnull && q2 then [39] else [] in
  n ← as_int (count_quotes s + strlen s + 1 + (if negb isnull && q2 then 2 else 0));
  let text := quote ++ double_quotes s ++ quote in
  let length := limit fl (Z.of_nat (length text)) in
  if etBUFSIZE <? n then
    bufpt ← onmem (sqliteMalloc n);
    match bufpt with
    | None => mret None
    | Some p =>
        onmem (store_bytes p 0 (text ++ [0]));;
        mret (Some (mkField (At (Heap p)) length (width fl) (Some p)))
    end
  else
    bput_list 0 (text ++ [0]);;
    mret (Some (mkField (InBuf 0) length (width fl) None)).

(** * The interpreter of formats *)

Section Vxprintf.
(** The consumer of the text. *)
Context (func : list Z -> M PW unit).

Definition conv_token : M PW unit :=
  a ← va_next;
  match a with
  | AToken z n => s ← onmem (read_bytes z n); func s
  | _ => mstuck
  end.

Definition conv_srclist : M PW unit :=
  a ← va_next;
  match a with
  | ASrcList l =>
      k ← va_int;
      match l !! Z.to_nat k with
      | Some pItem =>
          assert (0 <=? k);;
          db ← (match zDatabase pItem with Some z => onmem (read_str z) | None => mret [] end);
          (if db is [] then mret tt else func db;; func [46]);;
          s ← onmem (read_str (zName pItem));
          func s
      | None => mstuck
      end
  | _ => mstuck
  end.

(** The text of a field. *)
Definition field_text (b : bufptr) (length : Z) : M PW (list Z) :=
  match b with
  | BNull => mstuck
  | At z => onmem (read_bytes z length)
  | InBuf i => fun w =>
      if (0 <=? i) && (i + length <=? etBUFSIZE)
      then Done (take (Z.to_nat length) (drop (Z.to_nat i) (buf w))) w else Stuck
  end.

Fixpoint put_spaces (fuel : nat) (nspace : Z) : M PW unit :=
  match fuel with
  | O => mstuck
  | S fuel' =>
      if etSPACESIZE <=? nspace then
        func (replicate (Z.to_nat etSPACESIZE) 32);; put_spaces fuel' (nspace - etSPACESIZE)
      else if 0 <? nspace then func (replicate (Z.to_nat nspace) 32)
      else mret tt
  end.

Definition pad (nspace : Z) : M PW unit :=
  if 0 <? nspace then put_spaces (S (Z.to_nat nspace)) nspace else mret tt.

(** The output of a field; the result is what it adds to [count]. *)
Definition put_field (left : bool) (f : field) : M PW Z :=
  let nspace := f_width f - f_length f in
  (if left then mret tt else pad nspace);;
  (if 0 <? f_length f then s ← field_text (f_bufpt f) (f_length f); func s else mret tt);;
  (if left then pad nspace else mret tt);;
  (match f_zExtra f with Some p => onmem (free p) | None => mret tt end);;
  mret (Z.max 0 nspace + Z.max 0 (f_length f)).

(** Flags, width, precision and modifier of a conversion. *)
Definition set_flag (c : Z) (fl : fieldspec) : option fieldspec :=
  let '(mkSpec l p b a z g w r) := fl in
  if c =? 45 then Some (mkSpec true p b a z g w r)
  else if c =? 43 then Some (mkSpec l true b a z g w r)
  else if c =? 32 then Some (mkSpec l p true a z g w r)
  else if c =? 35 then Some (mkSpec l p b true z g w r)
  else if c =? 48 then Some (mkSpec l p b a true g w r)
  else None.

Fixpoint parse_flags (fmt : list Z) (fl : fieldspec) : list Z * fieldspec :=
  match fmt with
  | [] => (fmt, fl)
  | c :: fmt' =>
      match set_flag c fl with
      | Some fl => parse_flags fmt' fl
      | None => (fmt, fl)
      end
  end.

(** [while( c>='0' && c<='9' ){ n = n*10 + c - '0'; c = *++fmt; }] *)
Fixpoint parse_number (fmt : list Z) (n : Z) : list Z * Z :=
  match fmt with
  | [] => (fmt, n)
  | c :: fmt' => if isdigit c then parse_number fmt' (wrap32 (n * 10 + c - 48)) else (fmt, n)
  end.

Definition set_width (w : Z) (fl : fieldspec) : fieldspec :=
  let '(mkSpec l p b a z g _ r) := fl in mkSpec l p b a z g w r.
Definition set_precision (r : Z) (fl : fieldspec) : fieldspec :=
  let '(mkSpec l p b a z g w _) := fl in mkSpec l p b a z g w r.
Definition set_long (g : bool) (fl : fieldspec) : fieldspec :=
  let '(mkSpec l p b a z _ w r) := fl in mkSpec l p b a z g w r.

Definition parse_width (fmt : list Z) (fl : fieldspec) : M PW (list Z * fieldspec) :=
  '(fmt, w, fl) ←
    (if chr fmt =? 42 then
       w ← va_int;
       mret (tail fmt, (if w <? 0 then wrap32 (- w) else w),
             if w <? 0 then default fl (set_flag 45 fl) else fl)
     else let '(fmt, w) := parse_number fmt 0 in mret (fmt, w, fl));
  mret (fmt, set_width (if etBUFSIZE - 10 <? w then etBUFSIZE - 10 else w) fl).

Definition parse_precision (fmt : list Z) (fl : fieldspec) : M PW (list Z * fieldspec) :=
  if chr fmt =? 46 then
    let fmt := tail fmt in
    '(fmt, p) ←
      (if chr fmt =? 42 then
         p ← va_int; mret (tail fmt, if p <? 0 then wrap32 (- p) else p)
       else mret (parse_number fmt 0));
    mret (fmt, set_precision (if etBUFSIZE - 40 <? p then etBUFSIZE - 40 else p) fl)
  else mret (fmt, set_precision (-1) fl).

Definition parse_modifier (fmt : list Z) (fl : fieldspec) : list Z * fieldspec :=
  if chr fmt =? 108 then (tail fmt, set_long true fl) else (fmt, set_long false fl).

(** The entry of [fmtinfo] for a character, and the class of the conversion. *)
Fixpoint find_info (tbl : list et_info) (c : Z) : option et_info :=
  match tbl with
  | [] => None
  | i :: tbl' => if c =? fmttype i then Some i else find_info tbl' c
  end.

Definition conversion_of (useExtended : bool) (c : Z) : conversion * et_info :=
  match find_info fmtinfo c with
  | Some i =>
      (if useExtended || (Z.land (flags i) FLAG_INTERN =? 0) then type i else etERROR, i)
  | None => (etERROR, mkInfo 0 0 0 etERROR None None)
  end.

(** What follows a conversion: a field to put out, with the rest of the format and
    the new [count], or the return from [vxprintf]. *)
Inductive converted := Field (f : field) (fmt : list Z) (count : Z) | Return (v : Z).

(** The switch over the conversions; [fmt] points to the conversion character, [old]
    is what the previous conversion has left. *)
Definition convert_arg (useExtended : bool) (fl : fieldspec) (fmt : list Z) (old : field) (count : Z)
    : M PW converted :=
  let c := chr fmt in
  let '(xtype, infop) := conversion_of useExtended c in
  let simple (m : M PW field) := f ← m; mret (Field f (tail fmt) count) in
  match xtype with
  | etRADIX => simple (conv_radix fl infop)
  | etFLOAT | etEXP | etGENERIC => simple (conv_float fl infop)
  | etSIZE =>
      a ← va_next;
      match a with
      | AIntPtr p =>
          (fun w => Done tt (set_ints (ints w ++ [(p, count)]) w));;
          mret (Field (mkField (f_bufpt old) 0 0 None) (tail fmt) count)
      | _ => mstuck
      end
  | etPERCENT => simple (bput 0 37;; mret (mkField (InBuf 0) 1 (width fl) None))
  | etCHARX => simple (c ← va_int; conv_charx fl (wrap8 c))
  | etCHARLIT => f ← conv_charx fl (chr (tail fmt)); mret (Field f (tail (tail fmt)) count)
  | etSTRING | etDYNSTRING => simple (conv_string fl xtype)
  | etSQLESCAPE | etSQLESCAPE2 =>
      f ← conv_escape fl xtype;
      mret (match f with Some f => Field f (tail fmt) count | None => Return (-1) end)
  | etTOKEN => simple (conv_token;; mret (mkField (f_bufpt old) 0 0 None))
  | etSRCLIST => simple (conv_srclist;; mret (mkField (f_bufpt old) 0 0 None))
  | etERROR =>
      bput 0 37;; bput 1 c;;
      func (if c =? 0 then [37] else [37; 0]);;
      count ← as_int (count + (if c =? 0 then 1 else 2));
      mret (Field (mkField (f_bufpt old) (f_length old) (width fl) None) (tail fmt) count)
  end.

(** The literal text at the start of a format. *)
Fixpoint literal (fmt : list Z) : list Z * list Z :=
  match fmt with
  | [] => ([], [])
  | c :: fmt' => if c =? 37 then ([], fmt) else let '(l, r) := literal fmt' in (c :: l, r)
  end.

Definition no_flags : fieldspec := mkSpec false false false false false false 0 (-1).

(** The loop over the format; [old] is [bufpt] and [length].  The local variable
    [errorflag] is only set where the loop ends. *)
Fixpoint vxprintf_loop (fuel : nat) (useExtended : bool) (fmt : list Z) (old : field) (count : Z) : M PW Z :=
  match fuel with
  | O => mstuck
  | S fuel' =>
      if chr fmt =? 0 then mret count else
      let '(text, rest) := literal fmt in
      let amt := Z.of_nat (length text) in
      (if chr fmt =? 37 then mret tt else func text);;
      let old := if chr fmt =? 37 then old else mkField (At (Const fmt)) (f_length old) 0 None in
      count ← as_int (count + amt);
      if chr rest =? 0 then mret count else
      let fmt := tail rest in
      if chr fmt =? 0 then func [37];; mret (-1) else
      let '(fmt, fl) := parse_flags fmt no_flags in
      '(fmt, fl) ← parse_width fmt fl;
      '(fmt, fl) ← parse_precision fmt fl;
      let '(fmt, fl) := parse_modifier fmt fl in
      r ← convert_arg useExtended fl fmt old count;
      match r with
      | Return v => mret v
      | Field f fmt count =>
          n ← put_field (flag_leftjustify fl) f;
          count ← as_int (count + n);
          vxprintf_loop fuel' useExtended fmt f count
      end
  end.

Definition vxprintf (useExtended : bool) (fmt : list Z) : M PW Z :=
  func [];;
  vxprintf_loop (S (length fmt)) useExtended fmt (mkField BNull 0 0 None) 0.

End Vxprintf.

(** * The consumer and the entry points *)

(** A call through [xRealloc]. *)
Definition call_xRealloc (f : reallocator) (p : option positive) (n : Z) : M mem (option positive) :=
  match f, p with
  | printf_realloc, _ => sqliteRealloc p n
  | libc_realloc, Some p => realloc p n
  | libc_realloc, None =>
      ok ← malloc_ok;
      if ok : bool then q ← new_block (replicate (Z.to_nat n) None); mret (Some q) else mret None
  end.

Definition get_sM : M PW sgMprintf := fun w => Done (sM w) w.

(** The text does not fit: take more memory for it. *)
Definition mout_grow (f : reallocator) (nNewChar : Z) : M PW unit :=
  pM ← get_sM;
  n ← as_int (nChar pM + nNewChar * 2 + 1);
  upd_sM (set_nAlloc n);;
  if decide (zText pM = Some (zBase pM)) then
    z ← onmem (call_xRealloc f None n);
    upd_sM (set_zText z);;
    match z with
    | Some p => if nChar pM =? 0 then mret tt else onmem (memcpy p (zBase pM) (nChar pM))
    | None => mret tt
    end
  else
    z ← onmem (call_xRealloc f (zText pM) n);
    upd_sM (set_zText z).

(** Add the first [nNewChar] bytes of the text, and the terminator. *)
Definition mout_write (zNewText : list Z) (nNewChar : Z) : M PW unit :=
  pM ← get_sM;
  match zText pM with
  | None => mret tt
  | Some p =>
      (if 0 <? nNewChar then
         onmem (store_bytes p (nChar pM) (take (Z.to_nat nNewChar) zNewText));;
         upd_sM (set_nChar (nChar pM + nNewChar))
       else mret tt);;
      pM ← get_sM;
      onmem (store_bytes p (nChar pM) [0])
  end.

Definition mout (zNewText : list Z) : M PW unit :=
  let nNewChar := Z.of_nat (length zNewText) in
  pM ← get_sM;
  nTotal ← as_int (nTotal pM + nNewChar);
  upd_sM (set_nTotal nTotal);;
  need ← as_int (nChar pM + nNewChar + 1);
  nNewChar ←
    (if nAlloc pM <? need then
       match xRealloc pM with
       | None => as_int (nAlloc pM - nChar pM - 1)
       | Some f => mout_grow f nNewChar;; mret nNewChar
       end
     else mret nNewChar);
  mout_write zNewText nNewChar.

(** Run on an [sgMprintf] and local variables of its own; the results are the string
    and what [%n] has stored. *)
Definition with_sM (s : sgMprintf) (args : list arg) (locals : list Z) (m : M PW unit)
    : M mem (option positive * list (Z * Z)) := fun h =>
  match m (mkPW h s args locals []) with
  | Done _ w => Done (zText (sM w), ints w) (pm w)
  | Crashed w => Crashed (pm w)
  | Stuck => Stuck
  end.

(** The end of [base_vprintf]: a string of its own, of the right size. *)
Definition final_string (f : reallocator) : M PW unit :=
  s ← get_sM;
  if decide (zText s = Some (zBase s)) then
    size ← as_int (nChar s + 1);
    z ← onmem (call_xRealloc f None size);
    upd_sM (set_zText z);;
    match z with
    | Some p => onmem (memcpy p (zBase s) size)
    | None => mstuck
    end
  else
    most ← as_int (nChar s + 10);
    if most <? nAlloc s then
      z ← onmem (call_xRealloc f (zText s) (nChar s + 1));
      upd_sM (set_zText z)
    else mret tt.

(** [locals] is what the local array [buf] of [vxprintf] holds when it is called. *)
Definition base_vprintf (locals : list Z) (f : option reallocator) (useInternal : bool)
    (zInitBuf : positive) (nInitBuf : Z) (zFormat : list Z) (args : list arg)
    : M mem (option positive * list (Z * Z)) :=
  with_sM (mkSg zInitBuf (Some zInitBuf) 0 0 nInitBuf f) args locals
    (vxprintf mout useInternal zFormat;;
     match f with Some f => final_string f | None => mret tt end).

(** A function with an array [zBase] of [n] bytes. *)
Definition with_array {A} (n : Z) (m : positive -> M mem A) : M mem A :=
  zBase ← new_block (replicate (Z.to_nat n) None);
  r ← m zBase;
  free zBase;;
  mret r.

Definition sqliteVMPrintf (locals zFormat : list Z) (args : list arg)
    : M mem (option positive * list (Z * Z)) :=
  with_array 1000 (fun zBase => base_vprintf locals (Some printf_realloc) true zBase 1000 zFormat args).

Definition sqliteMPrintf (locals zFormat : list Z) (args : list arg)
    : M mem (option positive * list (Z * Z)) :=
  with_array 1000 (fun zBase => base_vprintf locals (Some printf_realloc) true zBase 1000 zFormat args).

Definition sqlite_mprintf (locals zFormat : list Z) (args : list arg)
    : M mem (option positive * list (Z * Z)) :=
  with_array 200 (fun zBuf => base_vprintf locals (Some libc_realloc) false zBuf 200 zFormat args).

Definition sqlite_vmprintf (locals zFormat : list Z) (args : list arg)
    : M mem (option positive * list (Z * Z)) :=
  with_array 200 (fun zBuf => base_vprintf locals (Some libc_realloc) false zBuf 200 zFormat args).

Definition sqlite_snprintf (locals : list Z) (n : Z) (zBuf : positive) (zFormat : list Z) (args : list arg)
    : M mem (option positive * list (Z * Z)) :=
  base_vprintf locals None false zBuf n zFormat args.
