(* ===== verification/PrintfSpec.v ===== *)
(** What formatted output means, without buffers and memory: the text of a number,
    of a string and of a quoted string in a field, formats as lists of items, and the
    format string that an item is written as. *)
From S2P Require Import Prelude Util CMem Printf.

(** * Numbers *)

(** The digits of [n], [cs] being the characters of the digits. *)
Fixpoint numeral_loop (fuel : nat) (cs : list Z) (base n : Z) (acc : list Z) : list Z :=
  match fuel with
  | O => acc
  | S fuel' =>
      let acc := cs.[n `mod` base] :: acc in
      if 0 <? n / base then numeral_loop fuel' cs base (n / base) acc else acc
  end.

Definition numeral (cs : list Z) (base n : Z) : list Z := numeral_loop 64 cs base n [].

Definition zeros (n : Z) : list Z := replicate (Z.to_nat n) 48.
Definition spaces (n : Z) : list Z := replicate (Z.to_nat n) 32.

(** ** The text of an integer conversion *)

Section Integer.
Context (fl : fieldspec) (infop : et_info) (cs : list Z) (v : Z).

Definition is_signed : bool := Z.land (flags infop) FLAG_SIGNED =? FLAG_SIGNED.

(** The magnitude that is printed: the value itself, or for the conversions without a
    sign the value as an [unsigned long]. *)
Definition magnitude : Z := if is_signed then Z.abs v else wrap64u v.

Definition sign_text_of : list Z :=
  if is_signed then
    (if v <? 0 then [45] else if flag_plussign fl then [43] else if flag_blanksign fl then [32] else [])
  else [].

Definition min_digits : Z :=
  let w := width fl - Z.of_nat (length sign_text_of) in
  if flag_zeropad fl && (precision fl <? w) then w else precision fl.

Definition int_body : list Z :=
  let ds := numeral cs (base infop) magnitude in
  sign_text_of ++ zeros (min_digits - Z.of_nat (length ds)) ++ ds.

Definition int_text : list Z :=
  match i_prefix infop with
  | Some pre =>
      if flag_alternateform fl && negb (v =? 0) && negb (chr int_body =? chr pre)
      then reverse pre ++ int_body else int_body
  | None => int_body
  end.
End Integer.

(** * Strings *)

(** A string cut to the precision. *)
Definition cut (fl : fieldspec) (s : list Z) : list Z :=
  if 0 <=? precision fl then take (Z.to_nat (precision fl)) s else s.

(** The text of [%q] and [%Q]. *)
Definition escaped (xtype : conversion) (a : option (list Z)) : list Z :=
  match xtype, a with
  | etSQLESCAPE2, Some s => [39] ++ double_quotes s ++ [39]
  | _, Some s => double_quotes s
  | etSQLESCAPE2, None => bytes_of_string "NULL"
  | _, None => bytes_of_string "(NULL)"
  end.

Definition char_text (fl : fieldspec) (c : Z) : list Z :=
  if 0 <=? precision fl then replicate (Z.to_nat (precision fl)) c else [c].

(** * Fields *)

(** A text in its field. *)
Definition in_field (fl : fieldspec) (t : list Z) : list Z :=
  let pad := spaces (width fl - Z.of_nat (length t)) in
  if flag_leftjustify fl then t ++ pad else pad ++ t.

(** The argument of an item: what is printed, and the values the program passes. *)
Inductive value :=
| VInt (v : Z)
| VLong (v : Z)
| VChar (c : Z)
| VStr (z : cptr) (s : list Z)
| VNull
| VNone.

Definition value_arg (v : value) : list arg :=
  match v with
  | VInt v => [AInt v]
  | VLong v => [ALong v]
  | VChar c => [AInt c]
  | VStr z _ => [AStr (Some z)]
  | VNull => [AStr None]
  | VNone => []
  end.

(** The width and the precision of an item: a constant, or a [*] and an argument. *)
Inductive number := Absent | Constant (ds : list Z) | Star (v : Z).

Inductive item :=
| Lit (s : list Z)
| Conv (left plus blank alt zero : bool) (w p : number) (letter : Z) (v : value).

Definition flag_chars (left plus blank alt zero : bool) : list Z :=
  (if left then [45] else []) ++ (if plus then [43] else []) ++ (if blank then [32] else []) ++
  (if alt then [35] else []) ++ (if zero then [48] else []).

Definition number_chars (n : number) : list Z :=
  match n with Absent => [] | Constant ds => ds | Star _ => [42] end.

Definition number_args (n : number) : list arg :=
  match n with Star v => [AInt v] | _ => [] end.

Definition number_value (n : number) : Z :=
  match n with Absent => 0 | Constant ds => dec_value ds | Star v => Z.abs v end.

(** The item in the format. *)
Definition item_chars (i : item) : list Z :=
  match i with
  | Lit s => s
  | Conv l p b a z w r c v =>
      [37] ++ flag_chars l p b a z ++ number_chars w ++
      (if r is Absent then [] else [46] ++ number_chars r) ++
      (if v is VLong _ then [108] else []) ++ [c]
  end.

Definition item_args (i : item) : list arg :=
  match i with
  | Lit _ => []
  | Conv _ _ _ _ _ w r _ v => number_args w ++ number_args r ++ value_arg v
  end.

(** The field an item asks for. *)
Definition item_spec (l p b a z : bool) (w r : number) (long : bool) : fieldspec :=
  mkSpec (l || (if w is Star v then v <? 0 else false)) p b a z long
    (Z.min 990 (number_value w)) (if r is Absent then -1 else Z.min 960 (number_value r)).

(** The text of the value of an item. *)
Definition value_text (ext : bool) (fl : fieldspec) (c : Z) (v : value) : list Z :=
  let '(xtype, infop) := conversion_of ext c in
  match v with
  | VInt v | VLong v => int_text fl infop (default [] (charset infop)) v
  | VChar c => char_text fl (wrap8 c)
  | VStr _ s => cut fl (match xtype with etSTRING => s | _ => escaped xtype (Some s) end)
  | VNull => cut fl (match xtype with etSTRING => [] | _ => escaped xtype None end)
  | VNone => [37]
  end.

Definition item_text (ext : bool) (i : item) : list Z :=
  match i with
  | Lit s => s
  | Conv l p b a z w r c v =>
      let fl := item_spec l p b a z w r (if v is VLong _ then true else false) in
      in_field fl (value_text ext fl c v)
  end.

Definition format_chars (l : list item) : list Z := l ≫= item_chars.
Definition format_args (l : list item) : list arg := l ≫= item_args.
Definition format_text (ext : bool) (l : list item) : list Z := l ≫= item_text ext.

(** ** Well-formed items *)

Definition number_ok (n : number) : Prop :=
  match n with
  | Absent => True
  | Constant ds => Forall (fun c => isdigit c = true) ds /\ dec_value ds <= 2147483647
  | Star v => -2147483648 < v < 2147483648
  end.

(** The type of value a conversion takes. *)
Definition letter_ok (ext : bool) (c : Z) (v : value) : Prop :=
  match (conversion_of ext c).1, v with
  | etRADIX, VInt v => -2147483648 <= v < 2147483648
  | etRADIX, VLong v => -9223372036854775808 <= v < 9223372036854775808
  | etCHARX, VChar _ => True
  | etSTRING, (VStr _ _ | VNull) => True
  | (etSQLESCAPE | etSQLESCAPE2), (VStr _ _ | VNull) => True
  | etPERCENT, VNone => True
  | _, _ => False
  end.

Definition item_ok (ext : bool) (h : mem) (i : item) : Prop :=
  match i with
  | Lit s => s <> [] /\ Forall (fun c => cchar c /\ c <> 37) s
  | Conv l p b a z w r c v =>
      number_ok w /\ number_ok r /\
      (if w is Constant ds then ds <> [] /\ chr ds <> 48 else True) /\
      cchar c /\ letter_ok ext c v /\
      match v with
      | VStr z s => points_to_str h z s /\ Z.of_nat (length s) <= 1000000000
      | _ => True
      end
  end.

(** Two literals in a row are one literal. *)
Fixpoint no_adjacent (l : list item) : Prop :=
  match l with
  | Lit _ :: ((Lit _ :: _) as r) => False
  | _ :: r => no_adjacent r
  | [] => True
  end.

(** ** Items whose text standard [sprintf] defines, too *)

Definition at_most (n : Z) (w : number) : Prop :=
  match w with Absent => True | _ => number_value w <= n end.

(** The width is at most 990, the precision at most 960 and not negative. *)
Definition standard_field (w r : number) : Prop :=
  at_most 990 w /\ at_most 960 r /\ (if r is Star v then 0 <= v else True).

(** An integer: no negative [int] for the conversions without a sign, and not the
    least [long], which has no magnitude; the flag [0] not with [-], not with a
    precision and not with [#]; no precision 0 for the value 0; and no [%p]. *)
Definition standard_int (infop : et_info) (left alt zero : bool) (r : number) (long : bool) (v : Z) : Prop :=
  (is_signed infop = false -> long = false -> 0 <= v) /\ -9223372036854775808 < v /\
  (zero = true -> left = false /\ alt = false /\ r = Absent) /\
  (v = 0 -> if r is Absent then True else 0 < number_value r) /\ fmttype infop <> 112.

(** A string or a character: no flag but [-], and a precision for [%s] only. *)
Definition standard_text (plus blank alt zero : bool) (r : number) (xtype : conversion) : Prop :=
  plus = false /\ blank = false /\ alt = false /\ zero = false /\
  (xtype = etSTRING \/ r = Absent).

Definition standard (ext : bool) (i : item) : Prop :=
  match i with
  | Lit _ => True
  | Conv l p b a z w r c v =>
      standard_field w r /\
      let '(xtype, infop) := conversion_of ext c in
      let l := l || (if w is Star v then v <? 0 else false) in
      match v with
      | VInt v => standard_int infop l a z r false v
      | VLong v => standard_int infop l a z r true v
      | _ => standard_text p b a z r xtype
      end
  end.

(** What the theorems about the entry points ask of a format. *)
Definition format_ok (ext : bool) (h : mem) (l : list item) : Prop :=
  Forall (fun i => item_ok ext h i /\ standard ext i) l /\ no_adjacent l.

Lemma format_ok_items ext h l : format_ok ext h l -> Forall (item_ok ext h) l.
Proof. intros [H _]. eapply Forall_impl; [exact H|]. by intros i [? _]. Qed.
