(* ===== verification/PrintfConv.v ===== *)
(** The conversion buffer of [vxprintf], with rules for the code that fills it, and the
    conversions one by one: the text each leaves for the field. *)
From S2P Require Import Prelude Util CMem CFloat Printf PrintfSpec.

(** * Rules *)

Ltac psimpl := cbn [pm sM ap buf ints set_pm set_sM set_ap set_buf set_ints
  f_bufpt f_length f_width f_zExtra] in *.

Section rules.
Context {A : Type} (C : PW -> Prop) (w : PW).

Lemma wp_onmem (m : M mem A) (Q : A -> PW -> Prop) :
  wp m (fun a h => Q a (set_pm h w)) (fun _ => False) (pm w) -> wp (onmem m) Q C w.
Proof. unfold wp, onmem. by destruct (m (pm w)). Qed.

Lemma wp_bput i v (Q : unit -> PW -> Prop) :
  0 <= i < etBUFSIZE -> Q tt (set_buf ((buf w).[i <- v]) w) -> wp (bput i v) Q C w.
Proof.
  intros Hi H. unfold wp, bput. destruct (Z.leb_spec 0 i), (Z.ltb_spec i etBUFSIZE); (lia || done).
Qed.

Lemma wp_bget i (Q : Z -> PW -> Prop) :
  0 <= i < etBUFSIZE -> Q ((buf w).[i]) w -> wp (bget i) Q C w.
Proof.
  intros Hi H. unfold wp, bget. destruct (Z.leb_spec 0 i), (Z.ltb_spec i etBUFSIZE); (lia || done).
Qed.

Lemma wp_as_int x (Q : Z -> PW -> Prop) :
  -2147483648 <= x <= 2147483647 -> Q x w -> wp (as_int x) Q C w.
Proof. intros Hx H. unfold as_int. apply wp_bind, wp_assert; [lia|]. by apply wp_ret. Qed.

Lemma wp_va_next a r (Q : arg -> PW -> Prop) : ap w = a :: r -> Q a (set_ap r w) -> wp va_next Q C w.
Proof. unfold wp, va_next. by intros ->. Qed.

Lemma wp_va_int v r (Q : Z -> PW -> Prop) :
  ap w = AInt v :: r -> Q v (set_ap r w) -> wp va_int Q C w.
Proof. intros E H. apply wp_bind. eapply wp_va_next; [done|]. done. Qed.

Lemma wp_va_long v r (Q : Z -> PW -> Prop) :
  ap w = ALong v :: r -> Q v (set_ap r w) -> wp va_long Q C w.
Proof. intros E H. apply wp_bind. eapply wp_va_next; [done|]. done. Qed.

Lemma wp_va_str z r (Q : option cptr -> PW -> Prop) :
  ap w = AStr z :: r -> Q z (set_ap r w) -> wp va_str Q C w.
Proof. intros E H. apply wp_bind. eapply wp_va_next; [done|]. done. Qed.

Lemma wp_va_double v r (Q : spec_float -> PW -> Prop) :
  ap w = ADouble v :: r -> Q v (set_ap r w) -> wp va_double Q C w.
Proof. intros E H. apply wp_bind. eapply wp_va_next; [done|]. done. Qed.
End rules.

(** * The buffer *)

(** [s] is in front of the address [i]. *)
Definition left_at (i : Z) (s b : list Z) : Prop :=
  length b = 1000%nat /\ i = Z.of_nat (length s) /\ exists r, b = s ++ r.

(** [s] begins at the address [i] and ends in front of the last byte. *)
Definition right_at (i : Z) (s b : list Z) : Prop :=
  length b = 1000%nat /\ i = 999 - Z.of_nat (length s) /\
  exists l r, b = l ++ s ++ [r] /\ Z.of_nat (length l) = i.

Lemma left_nil b : length b = 1000%nat -> left_at 0 [] b.
Proof. intros H. split; [done|]. split; [done|]. by exists b. Qed.

Lemma left_put i s b c : left_at i s b -> i < 1000 -> left_at (i + 1) (s ++ [c]) (b.[i <- c]).
Proof.
  intros (Hb & Hi & r & E) Hlt. split; [by rewrite aset_length|].
  split; [rewrite length_app; simpl; lia|].
  destruct r as [|x r]; [subst b; rewrite app_nil_r in Hb; lia|].
  exists r. subst b i. rewrite <-app_assoc. simpl. apply aset_app.
Qed.

Lemma right_nil b : length b = 1000%nat -> right_at 999 [] b.
Proof.
  intros H. split; [done|]. split; [done|].
  destruct (exists_last (l := b)) as (l & r & E); [by destruct b|].
  exists l, r. split; [done|]. subst b. rewrite length_app in H. simpl in H. lia.
Qed.

Lemma right_put i s b c : right_at i s b -> 0 < i -> right_at (i - 1) (c :: s) (b.[i - 1 <- c]).
Proof.
  intros (Hb & Hi & l & r & E & Hl) Hlt. split; [by rewrite aset_length|].
  split; [simpl; lia|].
  destruct (exists_last (l := l)) as (l' & x & El); [by intros ->; simpl in Hl; lia|].
  subst l. rewrite length_app in Hl. simpl in Hl. exists l', r. split; [|lia].
  subst b. rewrite <-app_assoc. cbn [app].
  replace (i - 1) with (Z.of_nat (length l')) by lia. by rewrite aset_app.
Qed.

Lemma left_get i s b : left_at i s b -> forall k, 0 <= k < i -> b.[k] = s.[k].
Proof.
  intros (Hb & Hi & r & ->) k Hk. unfold aget. rewrite app_nth1; [done|lia].
Qed.

Lemma right_get i s b : right_at i s b -> s <> [] -> b.[i] = chr s.
Proof.
  intros (Hb & Hi & l & r & -> & Hl) Hs. unfold aget. rewrite <-Hl, Nat2Z.id.
  rewrite app_nth2 by lia. rewrite Nat.sub_diag. by destruct s.
Qed.

(** A list of bytes put into the buffer. *)
Lemma wp_bput_list l : forall i s w (Q : Z -> PW -> Prop) C,
  left_at i s (buf w) -> i + Z.of_nat (length l) <= 1000 ->
  (forall b, left_at (i + Z.of_nat (length l)) (s ++ l) b -> Q (i + Z.of_nat (length l)) (set_buf b w)) ->
  wp (bput_list i l) Q C w.
Proof.
  induction l as [|c l IH]; intros i s w Q C Hs Hi H.
  - simpl in *. rewrite Z.add_0_r, app_nil_r in H. apply wp_ret. destruct w. by apply H.
  - cbn [bput_list length] in *. apply wp_bind.
    assert (0 <= i) by (destruct Hs as (_ & -> & _); lia).
    apply wp_bput; [unfold etBUFSIZE; lia|].
    eapply IH; [cbn [buf set_buf]; apply left_put; [done|lia]|lia|].
    intros b Hb. rewrite <-app_assoc in Hb. cbn [app] in Hb.
    replace (i + 1 + Z.of_nat (length l)) with (i + Z.of_nat (S (length l))) in * by lia.
    by apply H.
Qed.

Lemma wp_bput_down n : forall i s c w (Q : Z -> PW -> Prop) C,
  right_at i s (buf w) -> Z.of_nat n <= i ->
  (forall b, right_at (i - Z.of_nat n) (replicate n c ++ s) b -> Q (i - Z.of_nat n) (set_buf b w)) ->
  wp (bput_down n i c) Q C w.
Proof.
  induction n as [|n IH]; intros i s c w Q C Hs Hi H.
  - simpl in *. rewrite Z.sub_0_r in H. apply wp_ret. destruct w. by apply H.
  - cbn [bput_down]. apply wp_bind.
    assert (i <= 999) by (destruct Hs as (_ & -> & _); lia).
    apply wp_bput; [unfold etBUFSIZE; lia|].
    eapply IH; [cbn [buf set_buf]; apply right_put; [done|lia]|lia|].
    intros b Hb. replace (i - 1 - Z.of_nat n) with (i - Z.of_nat (S n)) in * by lia.
    apply H. cbn [replicate app]. by rewrite app_comm_cons, replicate_cons_app, <-app_assoc.
Qed.

Lemma wp_bput_back l : forall i s w (Q : Z -> PW -> Prop) C,
  right_at i s (buf w) -> Z.of_nat (length l) <= i ->
  (forall b, right_at (i - Z.of_nat (length l)) (reverse l ++ s) b ->
     Q (i - Z.of_nat (length l)) (set_buf b w)) ->
  wp (bput_back i l) Q C w.
Proof.
  induction l as [|c l IH]; intros i s w Q C Hs Hi H.
  - simpl in *. rewrite Z.sub_0_r in H. apply wp_ret. destruct w. by apply H.
  - cbn [bput_back length] in *. apply wp_bind.
    assert (i <= 999) by (destruct Hs as (_ & -> & _); lia).
    apply wp_bput; [unfold etBUFSIZE; lia|].
    eapply IH; [cbn [buf set_buf]; apply right_put; [done|lia]|lia|].
    intros b Hb. replace (i - 1 - Z.of_nat (length l)) with (i - Z.of_nat (S (length l))) in * by lia.
    apply H. rewrite reverse_cons, <-app_assoc. done.
Qed.

(** The conversions of [vxprintf] one by one: the text each leaves for the field. *)

(** * Fields *)

(** Reading the field [f] gives the text [t]. *)
Definition field_is (f : field) (t : list Z) (w : PW) : Prop :=
  f_length f = Z.of_nat (length t) /\
  (t <> [] -> forall (Q : list Z -> PW -> Prop) C, Q t w -> wp (field_text (f_bufpt f) (f_length f)) Q C w).

Lemma field_in_buf i t w n z :
  0 <= i -> i + Z.of_nat (length t) <= 1000 -> take (length t) (drop (Z.to_nat i) (buf w)) = t ->
  field_is (mkField (InBuf i) (Z.of_nat (length t)) n z) t w.
Proof.
  intros Hi Hl Ht. split; [done|]. intros _ Q C H. psimpl. unfold wp, field_text, etBUFSIZE.
  destruct (Z.leb_spec 0 i); [|lia]. destruct (Z.leb_spec (i + Z.of_nat (length t)) 1000); [|lia].
  simpl. rewrite Nat2Z.id, Ht. done.
Qed.

Lemma field_right i t b w n z :
  right_at i t b -> buf w = b -> 0 <= i -> field_is (mkField (InBuf i) (999 - i) n z) t w.
Proof.
  intros (Hb & Hi & l & r & E & Hl) Hw H0. replace (999 - i) with (Z.of_nat (length t)) by lia.
  apply field_in_buf; [lia|lia|]. rewrite Hw, E, <-Hl, Nat2Z.id, drop_app_length.
  by rewrite take_app_length.
Qed.

Lemma field_left i t b w n z :
  left_at i t b -> buf w = b -> field_is (mkField (InBuf 0) i n z) t w.
Proof.
  intros (Hb & -> & r & E) Hw. apply field_in_buf; [lia| |].
  - rewrite E, length_app in Hb. lia.
  - rewrite Hw, E. change (Z.to_nat 0) with 0%nat. by rewrite drop_0, take_app_length.
Qed.

(** What a conversion leaves: the text in the field, and perhaps a new block [zExtra]
    that holds it; [src] are the blocks of the argument. *)
Definition conv_post (fl : fieldspec) (t : list Z) (src : positive -> Prop) (r : list arg) (w : PW)
    (f : field) (w' : PW) : Prop :=
  f_width f = width fl /\ field_is f t w' /\
  exists b, length b = 1000%nat /\
    match f_zExtra f with
    | None => w' = set_buf b (set_ap r w) /\ (forall p, f_bufpt f = At (Heap p) -> src p)
    | Some p =>
        f_bufpt f = At (Heap p) /\ blocks (pm w) !! p = None /\
        exists blk, w' = set_buf b (set_pm (set_blocks (<[p := blk]> (blocks (pm w))) (pm w)) (set_ap r w))
    end.

(** The field in the buffer. *)
Lemma conv_post_buf fl t src r w i n b :
  length b = 1000%nat -> field_is (mkField (InBuf i) n (width fl) None) t (set_buf b (set_ap r w)) ->
  conv_post fl t src r w (mkField (InBuf i) n (width fl) None) (set_buf b (set_ap r w)).
Proof. intros Hb Hf. split; [done|]. split; [done|]. by exists b. Qed.

(** * Integers *)

Lemma numeral_loop_app fuel cs base : forall n acc,
  numeral_loop fuel cs base n acc = numeral_loop fuel cs base n [] ++ acc.
Proof.
  induction fuel as [|fuel IH]; intros n acc; [done|]. cbn [numeral_loop].
  destruct (0 <? n / base); [|done]. rewrite IH, (IH _ [_]), <-app_assoc. done.
Qed.

Lemma numeral_loop_length fuel cs base : forall n acc,
  (length (numeral_loop fuel cs base n acc) <= fuel + length acc)%nat.
Proof.
  induction fuel as [|fuel IH]; intros n acc; [simpl; lia|]. cbn [numeral_loop].
  destruct (0 <? n / base); [|simpl; lia]. specialize (IH (n / base) (cs.[n `mod` base] :: acc)).
  simpl in IH. lia.
Qed.

Lemma wp_radix_loop cs base fuel : 2 <= base -> forall n i s w (Q : Z -> PW -> Prop) C,
  0 <= n < base ^ Z.of_nat fuel -> (0 < fuel)%nat -> right_at i s (buf w) -> Z.of_nat fuel <= i ->
  (forall j b, right_at j (numeral_loop fuel cs base n s) b -> Q j (set_buf b w)) ->
  wp (radix_loop fuel cs base n i) Q C w.
Proof.
  intros Hbase. induction fuel as [|fuel IH]; intros n i s w Q C Hn Hf Hs Hi H; [lia|].
  cbn [radix_loop numeral_loop] in *. apply wp_bind.
  assert (i <= 999) by (destruct Hs as (_ & -> & _); lia).
  apply wp_bput; [unfold etBUFSIZE; lia|].
  pose proof (right_put i s _ (cs.[n `mod` base]) Hs ltac:(lia)) as Hs'.
  destruct (Z.ltb_spec 0 (n / base)) as [Hq|Hq].
  - rewrite Nat2Z.inj_succ, Z.pow_succ_r in Hn by lia.
    assert (n / base < base ^ Z.of_nat fuel) by (apply Z.div_lt_upper_bound; lia).
    assert ((0 < fuel)%nat).
    { destruct fuel; [|lia]. change (base ^ Z.of_nat 0) with 1 in *. lia. }
    eapply IH; [|done|exact Hs'|lia|]; [lia|]. intros j b Hb. by apply (H j b).
  - apply wp_ret. by apply H.
Qed.

(** What the conversions need of the widths, for the buffer to be large enough. *)
Definition spec_ok (fl : fieldspec) : Prop := width fl <= 990 /\ precision fl <= 960.

(** The entries of [fmtinfo] for integers. *)
Record radix_info (i : et_info) (cs : list Z) : Prop := {
  ri_charset : charset i = Some cs;
  ri_base : 8 <= base i;
  ri_prefix : match i_prefix i with Some pre => (length pre <= 2)%nat | None => True end
}.

Lemma sign_text_char fl i v :
  let neg := is_signed i && (v <? 0) in
  let c := if is_signed i then sign_char fl neg else 0 in
  sign_text_of fl i v = if c =? 0 then [] else [c].
Proof.
  unfold sign_text_of, sign_char. destruct (is_signed i); [|done]. cbn [andb].
  destruct (v <? 0); [done|]. by destruct (flag_plussign fl), (flag_blanksign fl).
Qed.

Lemma magnitude_bound i v : -9223372036854775808 <= v < 9223372036854775808 ->
  0 <= magnitude i v < 18446744073709551616.
Proof.
  intros Hv. unfold magnitude, wrap64u. destruct (is_signed i); [lia|]. apply Z.mod_pos_bound. lia.
Qed.

(** The sign bit and the negation of a [long]. *)
Lemma long_sign i v : -9223372036854775808 <= v < 9223372036854775808 ->
  is_signed i && (9223372036854775808 <=? wrap64u v) = is_signed i && (v <? 0) /\
  (if is_signed i && (9223372036854775808 <=? wrap64u v) then wrap64u (- wrap64u v) else wrap64u v)
    = magnitude i v.
Proof.
  intros Hv. unfold magnitude.
  assert (E : wrap64u v = if v <? 0 then v + 18446744073709551616 else v).
  { unfold wrap64u. destruct (Z.ltb_spec v 0); [|by rewrite Z.mod_small by lia].
    symmetry. apply (Z.mod_unique_pos v _ (-1)); lia. }
  destruct (is_signed i); cbn [andb]; [|done]. rewrite E.
  destruct (Z.ltb_spec v 0).
  - destruct (Z.leb_spec 9223372036854775808 (v + 18446744073709551616)); [|lia].
    split; [done|]. symmetry. apply (Z.mod_unique_pos _ _ (-1)); lia.
  - destruct (Z.leb_spec 9223372036854775808 v); [lia|]. split; [done|]. lia.
Qed.

Lemma wrap64u_zero v : -9223372036854775808 <= v < 9223372036854775808 ->
  (wrap64u v =? 0) = (v =? 0).
Proof.
  intros Hv. unfold wrap64u. destruct (Z.eqb_spec v 0) as [->|Hne]; [done|].
  apply Z.eqb_neq. intros H. apply Z.mod_divide in H as [k Hk]; lia.
Qed.

Lemma numeral_loop_nonempty fuel cs base : forall n acc,
  acc <> [] -> numeral_loop fuel cs base n acc <> [].
Proof.
  induction fuel as [|fuel IH]; intros n acc H; [done|]. cbn [numeral_loop].
  destruct (0 <? n / base); [by apply IH|done].
Qed.

Lemma numeral_step fuel cs base n : (0 < fuel)%nat -> numeral_loop fuel cs base n [] =
  if 0 <? n / base then numeral_loop (pred fuel) cs base (n / base) [cs.[n `mod` base]]
  else [cs.[n `mod` base]].
Proof. intros H. destruct fuel; [lia|done]. Qed.

Lemma numeral_nonempty cs base n : numeral cs base n <> [].
Proof.
  unfold numeral. rewrite numeral_step by lia.
  destruct (0 <? n / base); [by apply numeral_loop_nonempty|done].
Qed.

Lemma wp_conv_radix fl i cs v w r src (Q : field -> PW -> Prop) C :
  spec_ok fl -> radix_info i cs -> length (buf w) = 1000%nat ->
  -9223372036854775808 <= v < 9223372036854775808 ->
  ap w = (if flag_long fl then ALong v else AInt v) :: r ->
  (forall f w', conv_post fl (int_text fl i cs v) src r w f w' -> Q f w') ->
  wp (conv_radix fl i) Q C w.
Proof.
  intros [Hw Hp] [Hcs Hbase Hpre] Hbuf Hv Hap H. unfold conv_radix. apply wp_bind.
  assert (Hva : wp (if flag_long fl then va_long else va_int)
    (fun x w' => x = v /\ w' = set_ap r w) C w).
  { destruct (flag_long fl); [eapply wp_va_long|eapply wp_va_int]; done. }
  eapply wp_mono; [exact Hva| |done]. intros x w' [-> ->]. cbv zeta.
  fold (is_signed i). destruct (long_sign i v Hv) as [-> ->]. rewrite wrap64u_zero by done.
  pose proof (sign_text_char fl i v) as Hsign. cbv zeta in Hsign.
  set (c := if is_signed i then sign_char fl (is_signed i && (v <? 0)) else 0) in *. clearbody c.
  assert (Hlen : Z.of_nat (length (sign_text_of fl i v)) = if c =? 0 then 0 else 1)
    by (rewrite Hsign; by destruct (c =? 0)).
  rewrite <-Hlen. fold (min_digits fl i v). rewrite Hcs. apply wp_bind, wp_ret.
  assert (Hmin : min_digits fl i v <= 990) by (unfold min_digits; cbv zeta; destruct (_ && _); lia).
  apply wp_bind. eapply wp_radix_loop with (s := []); [lia| |lia|by apply right_nil|done|].
  { pose proof (magnitude_bound i v Hv). split; [lia|].
    change (Z.of_nat 64) with 64. assert (18446744073709551616 < 8 ^ 64) by done.
    assert (8 ^ 64 <= base i ^ 64) by (apply Z.pow_le_mono_l; lia). lia. }
  fold (numeral cs (base i) (magnitude i v)).
  set (ds := numeral cs (base i) (magnitude i v)).
  assert (Hds : (length ds <= 64)%nat).
  { pose proof (numeral_loop_length 64 cs (base i) (magnitude i v) []) as L. unfold ds, numeral.
    rewrite Nat.add_0_r in L. exact L. }
  intros j b Hj. assert (Ej : j = 999 - Z.of_nat (length ds)) by apply Hj.
  apply wp_bind. unfold etBUFSIZE. replace (1000 - 1 - j) with (Z.of_nat (length ds)) by lia.
  eapply wp_bput_down; [exact Hj|lia|]. fold (zeros (min_digits fl i v - Z.of_nat (length ds))).
  intros b1 Hb1. apply wp_bind.
  assert (Hsg : (length (sign_text_of fl i v) <= 1)%nat) by (rewrite Hsign; by destruct (c =? 0); simpl; lia).
  set (body := int_body fl i cs v).
  assert (Hbody : (length body <= 991)%nat /\ body <> []).
  { unfold body, int_body. fold ds. rewrite !length_app. unfold zeros. rewrite length_replicate.
    split; [lia|]. intros [_ [_ E]%app_nil]%app_nil. by apply numeral_nonempty in E. }
  eapply wp_mono with (Q := fun j w' => exists b, right_at j body b /\ w' = set_buf b (set_ap r w));
    [|clear Hj Ej Hb1|done].
  { assert (Eb : body = (if c =? 0 then [] else [c]) ++ zeros (min_digits fl i v - Z.of_nat (length ds)) ++ ds)
      by (unfold body, int_body; by rewrite Hsign).
    rewrite Eb. destruct (c =? 0).
    - apply wp_ret. by exists b1.
    - eapply wp_bput_down; [exact Hb1|lia|]. intros b2 Hb2. by exists b2. }
  intros j' w' (b2 & Hj' & ->). apply wp_bind.
  assert (Ej' : j' = 999 - Z.of_nat (length body)) by apply Hj'.
  eapply wp_mono with (Q := fun j w' => exists b, right_at j (int_text fl i cs v) b /\ w' = set_buf b (set_ap r w));
    [| |done].
  { unfold int_text. fold body. destruct (i_prefix i) as [pre|]; [|by apply wp_ret; exists b2].
    destruct (flag_alternateform fl && negb (v =? 0)); cbn [andb]; [|by apply wp_ret; exists b2].
    apply wp_bind, wp_bget; [unfold etBUFSIZE; lia|]. psimpl.
    rewrite (right_get _ _ _ Hj') by apply Hbody. destruct (chr body =? chr pre); cbn [negb].
    { apply wp_ret. by exists b2. }
    eapply wp_bput_back; [exact Hj'|lia|]. intros b3 Hb3. by exists b3. }
  intros j3 w3 (b3 & Hj3 & ->). apply wp_ret.
  assert (Hlen3 : (length (int_text fl i cs v) <= 993)%nat).
  { unfold int_text. fold body. destruct (i_prefix i); [|lia].
    destruct (_ && _); [rewrite length_app, length_reverse; lia|lia]. }
  assert (Ej3 : j3 = 999 - Z.of_nat (length (int_text fl i cs v))) by apply Hj3.
  apply H, conv_post_buf; [apply Hj3|]. by eapply field_right; [exact Hj3|done|lia].
Qed.

(** * Strings *)

Lemma wp_conv_percent fl src w (Q : field -> PW -> Prop) C :
  length (buf w) = 1000%nat ->
  (forall f w', conv_post fl [37] src (ap w) w f w' -> Q f w') ->
  wp (bput 0 37;; mret (mkField (InBuf 0) 1 (width fl) None)) Q C w.
Proof.
  intros Hb H. apply wp_bind, wp_bput; [unfold etBUFSIZE; lia|]. apply wp_ret, H.
  pose proof (left_put _ _ _ 37 (left_nil _ Hb) ltac:(lia)) as Hl.
  assert (E : set_buf ((buf w).[0 <- 37]) w = set_buf ((buf w).[0 <- 37]) (set_ap (ap w) w)) by done.
  rewrite E. apply conv_post_buf; [apply Hl|]. by eapply field_left.
Qed.

Lemma wp_conv_charx fl c src w (Q : field -> PW -> Prop) C :
  spec_ok fl -> length (buf w) = 1000%nat ->
  (forall f w', conv_post fl (char_text fl c) src (ap w) w f w' -> Q f w') ->
  wp (conv_charx fl c) Q C w.
Proof.
  intros [Hw Hp] Hb H. unfold conv_charx. apply wp_bind, wp_bput; [unfold etBUFSIZE; lia|].
  pose proof (left_put _ _ _ c (left_nil _ Hb) ltac:(lia)) as Hl. cbn [app Z.add] in Hl.
  assert (E : forall b, set_buf b w = set_buf b (set_ap (ap w) w)) by done.
  unfold char_text in H. destruct (Z.leb_spec 0 (precision fl)).
  - apply wp_bind. eapply wp_bput_list; [exact Hl|rewrite length_replicate; lia|].
    rewrite length_replicate. intros b Hb'. apply wp_ret, H. psimpl. rewrite E.
    apply conv_post_buf; [apply Hb'|].
    destruct (decide (precision fl = 0)) as [->|Hne]; [by split|].
    assert (Es : [c] ++ replicate (Z.to_nat (precision fl - 1)) c = replicate (Z.to_nat (precision fl)) c).
    { replace (Z.to_nat (precision fl)) with (S (Z.to_nat (precision fl - 1))) by lia. done. }
    rewrite Es in Hb'.
    replace (1 + Z.of_nat (Z.to_nat (precision fl - 1))) with (precision fl) in Hb' by lia.
    by eapply field_left.
  - apply wp_ret, H. psimpl. rewrite E. apply conv_post_buf; [apply Hl|]. by eapply field_left.
Qed.

Lemma cut_limit fl s : Z.of_nat (length (cut fl s)) = limit fl (Z.of_nat (length s)).
Proof.
  unfold cut, limit. destruct (Z.leb_spec 0 (precision fl)); cbn [andb]; [|done].
  rewrite length_take. destruct (Z.ltb_spec (precision fl) (Z.of_nat (length s))); lia.
Qed.

Lemma cut_take fl s : cut fl s = take (length (cut fl s)) s.
Proof.
  unfold cut. destruct (0 <=? precision fl); [|by rewrite firstn_all].
  rewrite length_take. destruct (decide (Z.to_nat (precision fl) <= length s)%nat).
  - by rewrite Nat.min_l by lia.
  - rewrite Nat.min_r by lia. rewrite firstn_all. by rewrite take_ge by lia.
Qed.

Lemma cut_length_le fl s : (length (cut fl s) <= length s)%nat.
Proof. unfold cut. destruct (0 <=? precision fl); [rewrite length_take; lia|done]. Qed.

(** A field that is the front of a string in memory. *)
Lemma field_at_str fl z s w n x : points_to_str (pm w) z s ->
  field_is (mkField (At z) (limit fl (Z.of_nat (length s))) n x) (cut fl s) w.
Proof.
  intros Hz. split; [psimpl; by rewrite cut_limit|]. intros _ Q C H. psimpl.
  pose proof (cut_limit fl s). pose proof (cut_length_le fl s).
  cbn [field_text]. apply wp_onmem. eapply wp_read_bytes; [exact Hz|lia|].
  replace (Z.to_nat (limit fl (Z.of_nat (length s)))) with (length (cut fl s)) by lia.
  rewrite <-cut_take. by destruct w.
Qed.

Definition value_str (v : value) : list Z := match v with VStr _ s => s | _ => [] end.
Definition value_src (v : value) (p : positive) : Prop :=
  match v with VStr (Heap q) _ => p = q | _ => False end.
Definition is_str (v : value) (h : mem) : Prop :=
  match v with VStr z s => points_to_str h z s | VNull => True | _ => False end.

Lemma wp_conv_string fl v r w (Q : field -> PW -> Prop) C :
  length (buf w) = 1000%nat -> is_str v (pm w) -> Z.of_nat (length (value_str v)) <= 1000000000 ->
  ap w = value_arg v ++ r ->
  (forall f w', conv_post fl (cut fl (value_str v)) (value_src v) r w f w' -> Q f w') ->
  wp (conv_string fl etSTRING) Q C w.
Proof.
  intros Hb Hs Hlen Hap H. unfold conv_string. apply wp_bind.
  destruct v as [| | |z s| |]; try done; (eapply wp_va_str; [exact Hap|]); cbv zeta;
    apply wp_bind, wp_onmem; psimpl.
  - eapply wp_read_str; [exact Hs|]. cbn [value_str] in *.
    rewrite strlen_length by apply Hs. apply wp_bind, wp_as_int; [lia|]. apply wp_ret. psimpl.
    apply H. psimpl. destruct w; psimpl. cbn.
    replace (match z with Heap _ | _ => None end) with (@None positive) by (by destruct z).
    split; [done|]. split; [by apply field_at_str|]. psimpl. eexists. split; [done|]. split; [done|].
    intros p [= ->]. done.
  - apply wp_ret, wp_bind, wp_as_int; [done|]. apply wp_ret, H. psimpl. destruct w; psimpl. cbn.
    split; [done|]. split; [apply (field_at_str fl (Const []) []); by split; [apply Forall_nil|]|].
    psimpl. eexists. split; [done|]. split; [done|]. by intros p [=].
Qed.

Lemma double_quotes_length s : Z.of_nat (length (double_quotes s)) = Z.of_nat (length s) + count_quotes s.
Proof.
  induction s as [|c s IH]; [done|]. cbn [double_quotes count_quotes length].
  destruct (c =? 39); cbn [length]; lia.
Qed.

Lemma double_quotes_cstring s : cstring s -> cstring (double_quotes s).
Proof.
  induction 1 as [|c s Hc _ IH]; [constructor|]. cbn [double_quotes].
  destruct (c =? 39); [apply Forall_cons_2; [done|]|]; by apply Forall_cons_2.
Qed.

Lemma count_quotes_nonneg s : 0 <= count_quotes s.
Proof. induction s as [|c s IH]; simpl; [lia|]. destruct (c =? 39); lia. Qed.

Lemma count_quotes_le s : count_quotes s <= Z.of_nat (length s).
Proof. induction s as [|c s IH]; simpl; [lia|]. destruct (c =? 39); lia. Qed.

Definition value_opt (v : value) : option (list Z) :=
  match v with VStr _ s => Some s | _ => None end.

(** The text that [conv_escape] builds. *)
Lemma escape_text xtype v h : is_str v h ->
  xtype = etSQLESCAPE \/ xtype = etSQLESCAPE2 ->
  let q2 := if xtype is etSQLESCAPE2 then true else false in
  let isnull := if v is VNull then true else false in
  let s := match v with VStr _ s => s | _ => bytes_of_string (if q2 then "NULL" else "(NULL)") end in
  let quote := if negb isnull && q2 then [39] else [] in
  let t := escaped xtype (value_opt v) in
  quote ++ double_quotes s ++ quote = t /\ cstring t /\
  Z.of_nat (length t) + 1 = count_quotes s + strlen s + 1 + (if negb isnull && q2 then 2 else 0).
Proof.
  intros Hs Hx. cbv zeta. destruct v as [| | |z s| |]; try done.
  - destruct Hs as [Hs _]. pose proof (double_quotes_length s).
    pose proof (double_quotes_cstring s Hs). rewrite (strlen_length s Hs).
    destruct Hx as [-> | ->]; cbn [value_opt escaped negb andb app].
    + rewrite app_nil_r. split; [done|]. split; [done|]. lia.
    + split; [done|]. split.
      * apply Forall_cons_2; [unfold cchar; lia|]. apply Forall_app_2; [done|].
        by apply Forall_cons_2; [unfold cchar; lia|].
      * cbn [length]. rewrite length_app. cbn [length]. lia.
  - destruct Hx as [-> | ->]; cbn; (split; [done|]); (split; [|done]);
      repeat (apply Forall_cons_2; [unfold cchar; lia|]); apply Forall_nil_2.
Qed.

Lemma escaped_length xtype a :
  Z.of_nat (length (escaped xtype a)) <= 2 * Z.of_nat (length (default [] a)) + 6.
Proof.
  destruct a as [s|]; [|destruct xtype; vm_compute; discriminate]. simpl default.
  pose proof (double_quotes_length s). pose proof (count_quotes_le s).
  destruct xtype; cbn [escaped]; rewrite ?length_app; simpl; lia.
Qed.

Lemma wp_conv_escape fl xtype v r w (Q : option field -> PW -> Prop) C :
  xtype = etSQLESCAPE \/ xtype = etSQLESCAPE2 ->
  mallocs (pm w) = [] -> length (buf w) = 1000%nat -> is_str v (pm w) ->
  Z.of_nat (length (value_str v)) <= 1000000000 -> ap w = value_arg v ++ r ->
  (forall f w', conv_post fl (cut fl (escaped xtype (value_opt v))) (value_src v) r w f w' ->
     Q (Some f) w') ->
  wp (conv_escape fl xtype) Q C w.
Proof.
  intros Hx Hm Hb Hs Hlen Hap H. unfold conv_escape.
  destruct (escape_text xtype v _ Hs Hx) as (Et & Hct & Hn).
  pose proof (escaped_length xtype (value_opt v)) as Hmost.
  set (q2 := if xtype is etSQLESCAPE2 then true else false) in *.
  set (isnull := if v is VNull then true else false) in *.
  set (t := escaped xtype (value_opt v)) in *. clearbody t q2.
  apply wp_bind. eapply wp_mono with (Q := fun a w' => a = (if v is VStr z _ then Some z else None) /\ w' = set_ap r w);
    [destruct v as [| | |z s| |]; try done; (eapply wp_va_str; [exact Hap|done])| |done].
  intros a w' [-> ->]. cbv zeta.
  replace (if (if v is VStr z _ then Some z else None) is None then true else false) with isnull
    by (destruct v; done).
  apply wp_bind. eapply wp_mono with (Q := fun s w' =>
      s = (match v with VStr _ s => s | _ => bytes_of_string (if q2 then "NULL" else "(NULL)") end)
      /\ w' = set_ap r w).
  { destruct v as [| | |z s| |]; try done.
    apply wp_onmem. eapply wp_read_str; [exact Hs|]. by destruct w. }
  2: done.
  intros s w' [-> ->]. rewrite <-Hn, Et. unfold etBUFSIZE.
  apply wp_bind, wp_as_int.
  { clear - Hmost Hlen Hs. destruct v; try done; cbn [value_opt value_str from_option id length] in *; lia. }
  destruct (Z.ltb_spec 1000 (Z.of_nat (length t) + 1)).
  - apply wp_bind, wp_onmem. apply mem_wp_sqliteMalloc; [done|]. intros p Hp.
    apply wp_bind, wp_onmem. psimpl. eapply wp_store_bytes; psimpl.
    + cbn [set_blocks blocks]. apply lookup_insert_eq.
    + lia.
    + rewrite length_app, length_replicate. simpl. lia.
    + cbn [set_blocks blocks mallocs sqlite_malloc_failed]. rewrite insert_insert_eq.
      rewrite drop_ge by (rewrite length_replicate, length_app; simpl; lia).
      change (Z.to_nat 0) with 0%nat. rewrite take_0, app_nil_r. cbn [app].
      apply wp_ret, H. psimpl. split; [done|]. split.
      * apply field_at_str. split; [done|]. cbn [pm set_pm set_ap blocks].
        unfold set_blocks. cbn [blocks]. eexists. rewrite lookup_insert_eq. split; [done|]. exists []. by rewrite app_nil_r.
      * exists (buf w). split; [done|]. cbn [f_zExtra]. split; [done|]. split; [done|]. by exists (map Some (t ++ [0])).
  - apply wp_bind. eapply wp_bput_list; [by apply left_nil|rewrite length_app; simpl; lia|].
    rewrite length_app. cbn [app]. intros b Hl. apply wp_ret, H. psimpl.
    assert (Hb' : length b = 1000%nat) by apply Hl.
    apply conv_post_buf; [done|]. rewrite <-cut_limit. apply field_in_buf; [lia| |].
    + pose proof (cut_length_le fl t). lia.
    + psimpl. destruct Hl as (_ & _ & x & ->). change (Z.to_nat 0) with 0%nat. rewrite drop_0.
      rewrite <-!app_assoc, take_app_le by apply cut_length_le. by rewrite <-cut_take.
Qed.
