(* ===== verification/PrintfMain.v ===== *)
(** The interpreter of formats, for every consumer of its text: what a consumer
    promises, and that [vxprintf] hands the consumer the text that the format
    means. *)
From S2P Require Import Prelude Util CMem CFloat Printf PrintfConv PrintfSpec.

(** * Consumers *)

(** The blocks of the string that is built. *)
Definition owned (s : sgMprintf) (p : positive) : Prop := zBase s = p \/ zText s = Some p.

#[export] Instance owned_dec s p : Decision (owned s p).
Proof. unfold owned. apply _. Defined.

(** The rest of the memory. *)
Definition rest (h : mem) (s : sgMprintf) : gmap positive (list (option Z)) :=
  filter (fun kv => ~ owned s kv.1) (blocks h).
Definition outside (w : PW) : mem := mkMem (rest (pm w) (sM w)) [] 0.

(** Nothing but the string changes. *)
Record framed (w w' : PW) : Prop := {
  fr_ap : ap w' = ap w;
  fr_buf : buf w' = buf w;
  fr_ints : ints w' = ints w;
  fr_mallocs : mallocs (pm w') = mallocs (pm w);
  fr_rest : rest (pm w') (sM w') = rest (pm w) (sM w)
}.

(** A consumer keeps the text it was given, when it is not longer than [most], which
    its [int]s can count: [emitted h s out] says that [s] with the memory [h] stands
    for the text [out]; [started h s] is what the first call, with an empty text,
    needs. *)
Class Consumer (func : list Z -> M PW unit) := {
  most : Z;
  most_int : most <= 2147483647;
  emitted : mem -> sgMprintf -> list Z -> Prop;
  emitted_owned h s out p : emitted h s out -> owned s p -> is_Some (blocks h !! p);
  emitted_frame h h' s out :
    emitted h s out -> (forall p, owned s p -> blocks h' !! p = blocks h !! p) ->
    mallocs h' = mallocs h -> emitted h' s out;
  started : mem -> sgMprintf -> Prop;
  func_starts w : started (pm w) (sM w) ->
    returns (func []) (fun _ w' => emitted (pm w') (sM w') [] /\ framed w w') w;
  func_emits w out t : emitted (pm w) (sM w) out -> Z.of_nat (length (out ++ t)) <= most ->
    returns (func t) (fun _ w' => emitted (pm w') (sM w') (out ++ t) /\ framed w w') w
}.

Lemma framed_refl w : framed w w.
Proof. by split. Qed.

Lemma framed_trans w1 w2 w3 : framed w1 w2 -> framed w2 w3 -> framed w1 w3.
Proof. intros [] []. split; congruence. Qed.

Lemma rest_lookup h s p b : rest h s !! p = Some b <-> blocks h !! p = Some b /\ ~ owned s p.
Proof. unfold rest. by rewrite map_lookup_filter_Some. Qed.

(** * Fields *)

(** A field is read from the buffer or from one block. *)
Lemma field_keeps f t w w' :
  field_is f t w -> buf w' = buf w ->
  (forall p, f_bufpt f = At (Heap p) -> blocks (pm w') !! p = blocks (pm w) !! p) ->
  field_is f t w'.
Proof.
  intros [Hl Hf] Hb Hp. split; [done|]. intros Ht Q C H.
  assert (Hf' := Hf Ht (fun s _ => s = t) (fun _ => False) eq_refl). clear Hf.
  destruct (f_bufpt f) as [|i|[s|p]]; cbn [field_text] in *.
  - done.
  - unfold wp in *. destruct (_ && _); [|done]. rewrite Hb. by rewrite Hf'.
  - unfold wp, onmem, read_bytes, mbind, M_bind in *. cbn in *.
    destruct (block_bytes _ _); [|done]. cbn in *. subst t. by destruct w'.
  - specialize (Hp p eq_refl). unfold wp, onmem, read_bytes, get_block, mbind, M_bind in *. cbn in *.
    rewrite Hp. destruct (blocks (pm w) !! p); [|done].
    destruct (block_bytes _ _); [|done]. cbn in *. subst t. by destruct w'.
Qed.

(** * Reading a format *)

(** A character that ends flags, width, precision and modifier. *)
Definition plain (c : Z) : Prop :=
  c <> 45 /\ c <> 43 /\ c <> 32 /\ c <> 35 /\ isdigit c = false /\ c <> 42 /\ c <> 46 /\ c <> 108 /\ c <> 0.

Lemma plain_no_flag c fl : plain c -> set_flag c fl = None.
Proof.
  intros (? & ? & ? & ? & Hd & _). destruct fl. unfold set_flag.
  assert (c <> 48) by (intros ->; done). case_Zb; done.
Qed.

(** Every entry of the table has such a character, and those for integers fit the
    buffer. *)
Definition plainb (c : Z) : bool :=
  forallb (fun x => negb (c =? x)) [45; 43; 32; 35; 42; 46; 108; 0] && negb (isdigit c).

Definition radixb (i : et_info) : bool :=
  match type i, charset i with
  | etRADIX, Some _ => (8 <=? base i) && (length (default [] (i_prefix i)) <=? 2)%nat
  | etRADIX, None => false
  | _, _ => true
  end.

Lemma fmtinfo_checked : forallb (fun i => plainb (fmttype i) && radixb i) fmtinfo = true.
Proof. vm_compute. reflexivity. Qed.

Lemma find_info_in c tbl i : find_info tbl c = Some i -> In i tbl /\ fmttype i = c.
Proof.
  induction tbl as [|j tbl IH]; [done|]. cbn [find_info]. destruct (Z.eqb_spec c (fmttype j)).
  - intros [= <-]. split; [by left|done].
  - intros H. apply IH in H as [? ?]. split; [by right|done].
Qed.

Lemma conversion_info ext c x i : conversion_of ext c = (x, i) -> x <> etERROR ->
  plain c /\ (x = etRADIX -> radix_info i (default [] (charset i))).
Proof.
  unfold conversion_of. destruct (find_info fmtinfo c) as [j|] eqn:E; [|by intros [= <-]].
  intros [= Hx ->] Hne. apply find_info_in in E as [Hin <-].
  pose proof fmtinfo_checked as Hall. rewrite forallb_forall in Hall. specialize (Hall i Hin).
  apply andb_true_iff in Hall as [Hp Hr]. split.
  - unfold plainb in Hp. apply andb_true_iff in Hp as [Hp Hd]. rewrite forallb_forall in Hp.
    assert (Hn : forall x, In x [45; 43; 32; 35; 42; 46; 108; 0] -> fmttype i <> x).
    { intros y Hy. specialize (Hp y Hy). destruct (Z.eqb_spec (fmttype i) y); done. }
    unfold plain. apply negb_true_iff in Hd.
    repeat split; try done; apply Hn; simpl; tauto.
  - intros ->. unfold radixb in Hr. destruct (_ || _) in Hx; [|done]. rewrite Hx in Hr.
    destruct (charset i) as [cs|] eqn:Ec; [|done]. apply andb_true_iff in Hr as [Hb Hl].
    split; [done|lia|]. destruct (i_prefix i); [|done]. by apply Nat.leb_le in Hl.
Qed.

Lemma parse_flags_chars l p b a z c fmt :
  set_flag c (mkSpec l p b a z false 0 (-1)) = None ->
  parse_flags (flag_chars l p b a z ++ c :: fmt) no_flags = (c :: fmt, mkSpec l p b a z false 0 (-1)).
Proof. intros H. destruct l, p, b, a, z; cbn [flag_chars app parse_flags]; cbn; cbn in H; by rewrite H. Qed.

Lemma parse_number_digits ds : forall n c fmt,
  Forall (fun c => isdigit c = true) ds -> isdigit c = false -> 0 <= n ->
  fold_left (fun v c => v * 10 + (c - 48)) ds n <= 2147483647 ->
  parse_number (ds ++ c :: fmt) n = (c :: fmt, fold_left (fun v c => v * 10 + (c - 48)) ds n).
Proof.
  induction ds as [|d ds IH]; intros n c fmt Hds Hc Hn Hm; cbn [app parse_number fold_left] in *.
  - by rewrite Hc.
  - apply Forall_cons_1 in Hds as [Hd Hds]. rewrite Hd. apply isdigit_spec in Hd.
    assert (Hle : n * 10 + (d - 48) <= 2147483647).
    { rewrite dec_value_app in Hm. pose proof (dec_value_bound ds Hds).
      assert (1 <= 10 ^ Z.of_nat (length ds)) by (change 1 with (10 ^ 0); apply Z.pow_le_mono_r; lia).
      nia. }
    rewrite wrap32_small by (unfold is_int32; lia).
    replace (n * 10 + d - 48) with (n * 10 + (d - 48)) by lia. apply IH; (done || lia).
Qed.

Lemma wrap32_abs v : -2147483648 < v < 2147483648 -> (if v <? 0 then wrap32 (- v) else v) = Z.abs v.
Proof. intros. destruct (Z.ltb_spec v 0); [rewrite wrap32_small by (unfold is_int32; lia)|]; lia. Qed.

(** Width and precision. *)
Lemma wp_parse_width l p b a z w n c fmt r (Q : list Z * fieldspec -> PW -> Prop) C :
  number_ok n -> isdigit c = false -> c <> 42 -> ap w = number_args n ++ r ->
  Q (c :: fmt, mkSpec (l || (if n is Star v then v <? 0 else false)) p b a z false
       (Z.min 990 (number_value n)) (-1)) (set_ap r w) ->
  wp (parse_width (number_chars n ++ c :: fmt) (mkSpec l p b a z false 0 (-1))) Q C w.
Proof.
  intros Hn Hd Hc Hap H. unfold parse_width. apply wp_bind.
  assert (Hmin : forall x, (if etBUFSIZE - 10 <? x then etBUFSIZE - 10 else x) = Z.min 990 x).
  { intros x. change (etBUFSIZE - 10) with 990. destruct (Z.ltb_spec 990 x); lia. }
  destruct n as [|ds|v]; cbn [number_chars number_args number_value app chr tail] in *.
  - destruct (Z.eqb_spec c 42); [done|]. cbn [parse_number]. rewrite Hd.
    apply wp_ret, wp_ret. rewrite orb_false_r in H. rewrite Hmin. destruct w; cbn in *. by subst.
  - destruct Hn as [Hds Hm].
    assert (Hhd : (chr (ds ++ c :: fmt) =? 42) = false).
    { destruct ds as [|d ds]; cbn; [by apply Z.eqb_neq|]. apply Forall_cons_1 in Hds as [Hd' _].
      apply isdigit_spec in Hd'. apply Z.eqb_neq. lia. }
    rewrite Hhd, parse_number_digits by (done || lia). fold (dec_value ds).
    apply wp_ret, wp_ret. rewrite orb_false_r in H. rewrite Hmin. destruct w; cbn in *. by subst.
  - cbn. apply wp_bind. eapply wp_va_int; [exact Hap|]. rewrite (wrap32_abs v) by done.
    apply wp_ret, wp_ret. rewrite Hmin. destruct (v <? 0); cbn [orb] in *;
      by rewrite ?orb_true_r, ?orb_false_r in H.
Qed.

Lemma wp_parse_precision l p b a z w n wd c fmt r (Q : list Z * fieldspec -> PW -> Prop) C :
  number_ok n -> isdigit c = false -> c <> 42 -> c <> 46 -> ap w = number_args n ++ r ->
  Q (c :: fmt, mkSpec l p b a z false wd (if n is Absent then -1 else Z.min 960 (number_value n)))
    (set_ap r w) ->
  wp (parse_precision ((if n is Absent then [] else [46] ++ number_chars n) ++ c :: fmt)
        (mkSpec l p b a z false wd (-1))) Q C w.
Proof.
  intros Hn Hd Hc Hc' Hap H. unfold parse_precision.
  assert (Hmin : forall x, (if etBUFSIZE - 40 <? x then etBUFSIZE - 40 else x) = Z.min 960 x).
  { intros x. change (etBUFSIZE - 40) with 960. destruct (Z.ltb_spec 960 x); lia. }
  destruct n as [|ds|v]; cbn [number_chars number_args number_value app chr tail] in *.
  - destruct (Z.eqb_spec c 46); [done|]. apply wp_ret. destruct w; cbn in *. by subst.
  - cbn [Z.eqb Pos.eqb]. destruct Hn as [Hds Hm].
    assert (Hhd : (chr (ds ++ c :: fmt) =? 42) = false).
    { destruct ds as [|d ds]; cbn; [by apply Z.eqb_neq|]. apply Forall_cons_1 in Hds as [Hd' _].
      apply isdigit_spec in Hd'. apply Z.eqb_neq. lia. }
    cbv zeta. rewrite Hhd, parse_number_digits by (done || lia). fold (dec_value ds).
    apply wp_bind, wp_ret, wp_ret. rewrite Hmin. destruct w; cbn in *. by subst.
  - cbn. apply wp_bind, wp_bind. eapply wp_va_int; [exact Hap|]. rewrite (wrap32_abs v) by done.
    apply wp_ret, wp_ret. rewrite Hmin. done.
Qed.

Lemma parse_modifier_long (long : bool) l p b a z wd pr c fmt : c <> 108 ->
  parse_modifier ((if long then [108] else []) ++ c :: fmt) (mkSpec l p b a z false wd pr)
    = (c :: fmt, mkSpec l p b a z long wd pr).
Proof.
  intros Hc. unfold parse_modifier. destruct long; cbn [app chr tail]; [done|].
  by destruct (Z.eqb_spec c 108).
Qed.

(** The characters of a conversion in front of its letter. *)
Definition precision_chars (r : number) : list Z := if r is Absent then [] else [46] ++ number_chars r.
Definition modifier_chars (long : bool) : list Z := if long then [108] else [].

Lemma modifier_head long c fmt : plain c -> exists c' fmt',
  modifier_chars long ++ c :: fmt = c' :: fmt' /\
  isdigit c' = false /\ c' <> 42 /\ c' <> 46 /\ (forall fl, set_flag c' fl = None).
Proof.
  intros Hc. destruct long; [exists 108, (c :: fmt); repeat split; try done; by intros []|].
  exists c, fmt. split; [done|]. split; [apply Hc|]. split; [apply Hc|]. split; [apply Hc|].
  intros fl. by apply plain_no_flag.
Qed.

Lemma precision_head r long c fmt : plain c -> exists c' fmt',
  precision_chars r ++ modifier_chars long ++ c :: fmt = c' :: fmt' /\
  isdigit c' = false /\ c' <> 42 /\ (forall fl, set_flag c' fl = None).
Proof.
  intros Hc. destruct r as [|ds|v].
  - destruct (modifier_head long c fmt Hc) as (c' & fmt' & E & ? & ? & ? & ?). by exists c', fmt'.
  - eexists 46, _. split; [done|]. repeat split; try done; by intros [].
  - eexists 46, _. split; [done|]. repeat split; try done; by intros [].
Qed.

Lemma width_head n r long c fmt : plain c -> (if n is Constant ds then ds <> [] /\ chr ds <> 48 else True) ->
  number_ok n -> exists c' fmt',
  number_chars n ++ precision_chars r ++ modifier_chars long ++ c :: fmt = c' :: fmt' /\
  (forall fl, set_flag c' fl = None).
Proof.
  intros Hc Hn Hok. destruct n as [|ds|v]; cbn [number_chars app].
  - destruct (precision_head r long c fmt Hc) as (c' & fmt' & E & ? & ? & ?). by exists c', fmt'.
  - destruct Hn as [Hne H0]. destruct ds as [|d ds]; [done|]. eexists d, _. split; [done|].
    destruct Hok as [[Hd _]%Forall_cons_1 _]. apply isdigit_spec in Hd. simpl in H0.
    intros fl. destruct fl. unfold set_flag. case_Zb; (done || lia).
  - eexists 42, _. split; [done|]. by intros [].
Qed.

(** What the code reads between the percent sign and the letter. *)
Lemma wp_read_spec {A} l p b a z n r long c fmt args w (k : list Z -> fieldspec -> M PW A) (Q : A -> PW -> Prop) C :
  plain c -> (if n is Constant ds then ds <> [] /\ chr ds <> 48 else True) ->
  number_ok n -> number_ok r -> ap w = number_args n ++ number_args r ++ args ->
  wp (k (c :: fmt) (item_spec l p b a z n r long)) Q C (set_ap args w) ->
  wp (let '(fmt, fl) := parse_flags (flag_chars l p b a z ++ number_chars n ++ precision_chars r ++
                          modifier_chars long ++ c :: fmt) no_flags in
      '(fmt, fl) ← parse_width fmt fl;
      '(fmt, fl) ← parse_precision fmt fl;
      let '(fmt, fl) := parse_modifier fmt fl in
      k fmt fl) Q C w.
Proof.
  intros Hc Hne Hn Hr Hap H.
  destruct (width_head n r long c fmt Hc Hne Hn) as (c1 & f1 & E1 & H1).
  rewrite E1, parse_flags_chars by done. rewrite <-E1.
  destruct (precision_head r long c fmt Hc) as (c2 & f2 & E2 & H2 & H2' & _).
  rewrite E2. apply wp_bind. eapply wp_parse_width; [done..|exact Hap|].
  rewrite <-E2. destruct (modifier_head long c fmt Hc) as (c3 & f3 & E3 & H3 & H3' & H3'' & _).
  rewrite E3. apply wp_bind. eapply wp_parse_precision; [done..|psimpl; reflexivity|].
  rewrite <-E3. unfold modifier_chars. rewrite parse_modifier_long by apply Hc. by destruct w.
Qed.

Section consumer.
Context (func : list Z -> M PW unit) `{HC : Consumer func}.

(** [m] hands the consumer the text [t]. *)
Definition emits {A} (m : M PW A) (a : A) (t : list Z) : Prop :=
  forall w out, emitted (pm w) (sM w) out -> Z.of_nat (length (out ++ t)) <= most ->
  returns m (fun r w' => r = a /\ emitted (pm w') (sM w') (out ++ t) /\ framed w w') w.

Lemma emits_ret {A} (a : A) : emits (mret a) a [].
Proof.
  intros w out H _. apply wp_ret. rewrite app_nil_r. split; [done|]. split; [done|]. apply framed_refl.
Qed.

Lemma emits_func t : emits (func t) tt t.
Proof. intros w out H L. eapply returns_mono; [by apply func_emits|]. by intros [] w' H'. Qed.

Lemma emits_bind {A B} (m : M PW A) (k : A -> M PW B) a b t1 t2 :
  emits m a t1 -> emits (k a) b t2 -> emits (m ≫= k) b (t1 ++ t2).
Proof.
  intros Hm Hk w out H L. rewrite app_assoc in L. apply wp_bind. eapply returns_mono.
  { apply Hm; [done|]. rewrite length_app in L. lia. }
  intros a' w1 (-> & H1 & F1). eapply returns_mono; [by apply Hk|].
  intros b' w2 (-> & H2 & F2). rewrite <-app_assoc in H2. split; [done|]. split; [done|].
  by eapply framed_trans.
Qed.

Lemma spaces_add m n : 0 <= m -> 0 <= n -> spaces (m + n) = spaces m ++ spaces n.
Proof. intros. unfold spaces. rewrite Z2Nat.inj_add by done. apply replicate_add. Qed.

Lemma emits_put_spaces fuel : forall n, 0 <= n < Z.of_nat fuel -> emits (put_spaces func fuel n) tt (spaces n).
Proof.
  induction fuel as [|fuel IH]; intros n Hn; [lia|]. cbn [put_spaces].
  change etSPACESIZE with 50. destruct (Z.leb_spec 50 n).
  - replace (spaces n) with (spaces 50 ++ spaces (n - 50)) by (rewrite <-spaces_add by lia; f_equal; lia).
    eapply emits_bind; [apply emits_func|]. apply IH. lia.
  - destruct (Z.ltb_spec 0 n); [apply emits_func|]. replace n with 0 by lia. apply emits_ret.
Qed.

Lemma emits_pad n : emits (pad func n) tt (spaces n).
Proof.
  unfold pad. destruct (Z.ltb_spec 0 n); [apply emits_put_spaces; lia|].
  replace (spaces n) with (@nil Z); [apply emits_ret|]. unfold spaces. by replace (Z.to_nat n) with 0%nat by lia.
Qed.

(** What the interpreter keeps between two conversions. *)
Definition ready (w : PW) (out : list Z) : Prop :=
  emitted (pm w) (sM w) out /\ length (buf w) = 1000%nat /\ mallocs (pm w) = [].

Lemma length_spaces n : Z.of_nat (length (spaces n)) = Z.max 0 n.
Proof. unfold spaces. rewrite length_replicate. lia. Qed.

Lemma in_field_length fl t :
  Z.of_nat (length (in_field fl t)) = Z.max 0 (width fl - Z.of_nat (length t)) + Z.of_nat (length t).
Proof. unfold in_field. destruct (flag_leftjustify fl); rewrite length_app; pose proof (length_spaces (width fl - Z.of_nat (length t))); lia. Qed.

(** Writing the text of a field. *)
Lemma emits_text f t w out : field_is f t w -> emitted (pm w) (sM w) out -> Z.of_nat (length (out ++ t)) <= most ->
  returns (if 0 <? f_length f then s ← field_text (f_bufpt f) (f_length f); func s else mret tt)
    (fun _ w' => emitted (pm w') (sM w') (out ++ t) /\ framed w w') w.
Proof.
  intros Hf H L. destruct Hf as [Hl Hf]. rewrite Hl in *.
  destruct t as [|c t]; cbn [length] in *.
  { apply wp_ret. rewrite app_nil_r. split; [done|]. apply framed_refl. }
  destruct (Z.ltb_spec 0 (Z.of_nat (S (length t)))); [|lia].
  apply wp_bind, Hf; [done|]. by apply func_emits.
Qed.

Lemma wp_put_field fl f t w out :
  f_width f = width fl -> field_is f t w ->
  emitted (pm w) (sM w) out -> Z.of_nat (length (out ++ in_field fl t)) <= most ->
  (forall p, f_bufpt f = At (Heap p) -> is_Some (rest (pm w) (sM w) !! p)) ->
  (forall p, f_zExtra f = Some p -> is_Some (rest (pm w) (sM w) !! p)) ->
  returns (put_field func (flag_leftjustify fl) f)
    (fun n w' => n = Z.of_nat (length (in_field fl t)) /\ emitted (pm w') (sM w') (out ++ in_field fl t) /\
       ap w' = ap w /\ buf w' = buf w /\ ints w' = ints w /\ mallocs (pm w') = mallocs (pm w) /\
       rest (pm w') (sM w') = match f_zExtra f with
                              | Some p => delete p (rest (pm w) (sM w))
                              | None => rest (pm w) (sM w)
                              end) w.
Proof.
  intros Hw Hf H L Hb Hx. unfold put_field. rewrite Hw.
  assert (Hl : f_length f = Z.of_nat (length t)) by apply Hf.
  set (n := width fl - f_length f).
  assert (Hlead : Z.of_nat (length ((out ++ if flag_leftjustify fl then [] else spaces n) ++ t)) <= most).
  { unfold in_field in L. rewrite <-Hl in L. fold n in L.
    destruct (flag_leftjustify fl); rewrite !length_app in *; simpl; lia. }
  assert (Hpad : Z.of_nat (length (out ++ if flag_leftjustify fl then [] else spaces n)) <= most)
    by (rewrite length_app in Hlead; lia).
  apply wp_bind. eapply returns_mono with (Q := fun _ w' =>
    emitted (pm w') (sM w') (out ++ if flag_leftjustify fl then [] else spaces n) /\ framed w w'); [|].
  { clear L Hlead. destruct (flag_leftjustify fl).
    - eapply returns_mono; [by apply (emits_ret tt)|]. by intros _ w' (_ & ?).
    - eapply returns_mono; [by apply emits_pad|]. by intros _ w' (_ & ?). }
  intros _ w1 [H1 F1]. apply wp_bind.
  assert (Hf1 : field_is f t w1).
  { eapply field_keeps; [exact Hf|apply F1|]. intros p Hp. destruct (Hb p Hp) as [b Eb].
    pose proof (rest_lookup (pm w1) (sM w1) p b) as R1. rewrite (fr_rest _ _ F1) in R1.
    apply rest_lookup in Eb as Eb'. by rewrite (proj1 (proj1 R1 Eb)), (proj1 Eb'). }
  eapply returns_mono; [by eapply emits_text|]. intros _ w2 [H2 F2].
  apply wp_bind. eapply returns_mono with (Q := fun _ w' => emitted (pm w') (sM w') (out ++ in_field fl t) /\ framed w w');
    [|].
  { pose proof (framed_trans _ _ _ F1 F2) as F. unfold in_field. subst n. rewrite Hl in *.
    unfold in_field in L. rewrite <-Hl in L.
    destruct (flag_leftjustify fl).
    - eapply returns_mono.
      { apply emits_pad; [exact H2|]. by rewrite app_nil_r, <-app_assoc, <-Hl. }
      intros _ w' (_ & H3 & F3). rewrite app_nil_r, <-app_assoc in H3. split; [done|]. by eapply framed_trans.
    - eapply returns_mono; [apply (emits_ret tt); [exact H2|by rewrite app_nil_r]|]. intros _ w' (_ & H3 & F3).
      rewrite app_nil_r, <-app_assoc in H3. split; [done|]. by eapply framed_trans. }
  intros _ w3 [H3 F3]. apply wp_bind.
  assert (En : Z.max 0 n + Z.max 0 (f_length f) = Z.of_nat (length (in_field fl t)))
    by (rewrite in_field_length; subst n; lia).
  destruct (f_zExtra f) as [p|] eqn:Ex.
  - destruct (Hx p eq_refl) as [b Eb]. rewrite <-(fr_rest _ _ F3) in Eb.
    apply rest_lookup in Eb as [Eb Hno].
    apply wp_onmem. eapply mem_wp_free; [exact Eb|]. apply wp_ret. psimpl.
    split; [done|]. split.
    { eapply emitted_frame; [exact H3| |done]. intros q Hq. cbn.
      apply lookup_delete_ne. intros ->. done. }
    split; [apply F3|]. split; [apply F3|]. split; [apply F3|]. split; [apply F3|].
    rewrite <-(fr_rest _ _ F3). unfold rest. cbn. apply map_filter_delete.
  - apply wp_ret, wp_ret. split; [done|]. split; [done|]. by destruct F3.
Qed.

(** ** The conversions *)

Definition is_long (v : value) : bool := if v is VLong _ then true else false.

Lemma wp_convert_arg ext fl c v fmt old count r w (Q : converted -> PW -> Prop) C :
  spec_ok fl -> flag_long fl = is_long v -> letter_ok ext c v ->
  (if v is VStr z s then points_to_str (pm w) z s else True) ->
  Z.of_nat (length (value_str v)) <= 1000000000 ->
  length (buf w) = 1000%nat -> mallocs (pm w) = [] -> ap w = value_arg v ++ r ->
  (forall f w', conv_post fl (value_text ext fl c v) (value_src v) r w f w' ->
     Q (Field f fmt count) w') ->
  wp (convert_arg func ext fl (c :: fmt) old count) Q C w.
Proof.
  intros Hsp Hlong Hok Hs Hlen Hb Hm Hap H. unfold convert_arg, letter_ok, value_text in *. cbn [chr tail].
  destruct (conversion_of ext c) as [x i] eqn:Ec. cbn [fst] in Hok.
  assert (Hinfo : x = etRADIX -> radix_info i (default [] (charset i))).
  { intros ->. by apply (conversion_info ext c etRADIX i Ec). }
  assert (Hval : forall v', ap w = (if flag_long fl then ALong v' else AInt v') :: r ->
    -9223372036854775808 <= v' < 9223372036854775808 -> x = etRADIX ->
    (forall f w', conv_post fl (int_text fl i (default [] (charset i)) v') (value_src v) r w f w' ->
      Q (Field f fmt count) w') ->
    wp (f ← conv_radix fl i; mret (Field f fmt count)) Q C w).
  { intros v' Hap' Hv' Hx Hk. apply wp_bind.
    eapply wp_conv_radix; [done|by apply Hinfo|done|done|exact Hap'|].
    intros f w' Hf. by apply wp_ret, Hk. }
  destruct x, v as [v|v|ch|z s| |]; try done; cbn [is_long value_arg] in *.
  - apply (Hval v); [by rewrite Hlong|lia|done|done].
  - apply (Hval v); [by rewrite Hlong|lia|done|done].
  - apply wp_bind. eapply wp_conv_string with (v := VStr z s); [done..|]. intros f w' Hf. by apply wp_ret, H.
  - apply wp_bind. eapply wp_conv_string with (v := VNull); [done..|]. intros f w' Hf. by apply wp_ret, H.
  - apply wp_bind. eapply wp_conv_percent; [done|]. intros f w' Hf. apply wp_ret, H.
    cbn [app] in Hap. by rewrite Hap in Hf.
  - apply wp_bind, wp_bind. eapply wp_va_int; [exact Hap|]. eapply wp_conv_charx; [done|done|].
    intros f w' Hf. by apply wp_ret, H.
  - apply wp_bind. eapply wp_conv_escape with (v := VStr z s); [by left|done..|].
    intros f w' Hf. by apply wp_ret, H.
  - apply wp_bind. eapply wp_conv_escape with (v := VNull); [by left|done..|].
    intros f w' Hf. by apply wp_ret, H.
  - apply wp_bind. eapply wp_conv_escape with (v := VStr z s); [by right|done..|].
    intros f w' Hf. by apply wp_ret, H.
  - apply wp_bind. eapply wp_conv_escape with (v := VNull); [by right|done..|].
    intros f w' Hf. by apply wp_ret, H.
Qed.

(** The part of an iteration behind the literal text. *)
Definition after_literal (fuel : nat) (ext : bool) (rest : list Z) (old : field) (count : Z) : M PW Z :=
  if chr rest =? 0 then mret count else
  let fmt := tail rest in
  if chr fmt =? 0 then func [37];; mret (-1) else
  let '(fmt, fl) := parse_flags fmt no_flags in
  '(fmt, fl) ← parse_width fmt fl;
  '(fmt, fl) ← parse_precision fmt fl;
  let '(fmt, fl) := parse_modifier fmt fl in
  r ← convert_arg func ext fl fmt old count;
  match r with
  | Return v => mret v
  | Field f fmt count =>
      n ← put_field func (flag_leftjustify fl) f;
      count ← as_int (count + n);
      vxprintf_loop func fuel ext fmt f count
  end.

Lemma literal_app s t : Forall (fun c => cchar c /\ c <> 37) s -> t = [] \/ chr t = 37 ->
  literal (s ++ t) = (s, t).
Proof.
  intros Hs Ht. induction Hs as [|c s [Hc Hp] _ IH]; cbn [app literal].
  - destruct t as [|c t]; [done|]. destruct Ht as [?|Ht]; [done|]. simpl in Ht. by subst.
  - destruct (Z.eqb_spec c 37); [done|]. by rewrite IH.
Qed.

(** The memory behind a conversion and its field is as before. *)
Lemma conv_post_frame fl t v r w out f w' :
  conv_post fl t (value_src v) r w f w' -> ready w out ->
  (if v is VStr z s then points_to_str (outside w) z s else True) ->
  emitted (pm w') (sM w') out /\ length (buf w') = 1000%nat /\ mallocs (pm w') = [] /\ ap w' = r /\
  ints w' = ints w /\ sM w' = sM w /\
  (forall p, f_bufpt f = At (Heap p) -> is_Some (rest (pm w') (sM w') !! p)) /\
  (forall p, f_zExtra f = Some p -> is_Some (rest (pm w') (sM w') !! p)) /\
  match f_zExtra f with
  | Some p => delete p (rest (pm w') (sM w'))
  | None => rest (pm w') (sM w')
  end = rest (pm w) (sM w).
Proof.
  intros (Hw & Hf & b & Hb & Hx) (He & Hbuf & Hm) Hv.
  destruct (f_zExtra f) as [q|].
  - destruct Hx as (Hp & Hq & blk & ->). cbn.
    assert (Hno : ~ owned (sM w) q).
    { intros Ho. destruct (emitted_owned _ _ _ _ He Ho) as [? E]. congruence. }
    assert (Hin : rest (set_blocks (<[q := blk]> (blocks (pm w))) (pm w)) (sM w) !! q = Some blk).
    { apply rest_lookup. split; [|done]. apply lookup_insert_eq. }
    split; [|split; [done|]; split; [done|]; split; [done|]; split; [done|]; split; [done|]; split; [|split]].
    + eapply emitted_frame; [exact He| |done]. intros p Hp'. cbn. apply lookup_insert_ne. by intros ->.
    + intros p Ep. rewrite Hp in Ep. injection Ep as <-. by eexists.
    + intros p [= <-]. by eexists.
    + unfold rest. cbn. rewrite map_filter_insert_True by done. apply delete_insert_id.
      apply map_lookup_filter_None. by left.
  - destruct Hx as (-> & Hsrc). cbn. repeat (split; [done|]). split; [|by split].
    intros p Hp. apply Hsrc in Hp. destruct v as [| | |z s| |]; try done. destruct z as [|q]; [done|].
    cbn in Hp. subst q. destruct Hv as (_ & blk & Hblk & _). by eexists.
Qed.

(** What running the rest of a format has to give. *)
Definition runs_to (m : M PW Z) (w : PW) (out : list Z) (n : Z) (t : list Z) (r : list arg) : Prop :=
  returns m (fun n' w' => n' = n /\ ready w' (out ++ t) /\ ap w' = r /\ ints w' = ints w /\
    rest (pm w') (sM w') = rest (pm w) (sM w)) w.

(** The text [t] fits behind [out], whose characters [count] counts. *)
Definition fits (out t : list Z) (count : Z) : Prop :=
  count = Z.of_nat (length out) /\ Z.of_nat (length (out ++ t)) <= most.

Lemma fits_behind out t1 t2 count : fits out (t1 ++ t2) count ->
  Z.of_nat (length (out ++ t1)) <= most /\ -2147483648 <= count + Z.of_nat (length t1) <= 2147483647 /\
  fits (out ++ t1) t2 (count + Z.of_nat (length t1)).
Proof.
  intros [-> L]. pose proof most_int. rewrite app_assoc in L.
  assert (L1 : Z.of_nat (length (out ++ t1)) <= most) by (rewrite length_app in L; lia).
  split; [done|]. split; [rewrite length_app in L1; lia|]. split; [|done]. rewrite length_app. lia.
Qed.

Lemma conv_step fuel ext l r : forall lf pl bl al ze wi pr c v old count w out,
  (forall old count w out, Forall (item_ok ext (outside w)) l -> ready w out ->
     ap w = format_args l ++ r -> fits out (format_text ext l) count ->
     runs_to (vxprintf_loop func fuel ext (format_chars l) old count) w out
       (count + Z.of_nat (length (format_text ext l))) (format_text ext l) r) ->
  Forall (item_ok ext (outside w)) (Conv lf pl bl al ze wi pr c v :: l) -> ready w out ->
  ap w = format_args (Conv lf pl bl al ze wi pr c v :: l) ++ r ->
  fits out (format_text ext (Conv lf pl bl al ze wi pr c v :: l)) count ->
  runs_to (after_literal fuel ext (format_chars (Conv lf pl bl al ze wi pr c v :: l)) old count) w out
    (count + Z.of_nat (length (format_text ext (Conv lf pl bl al ze wi pr c v :: l))))
    (format_text ext (Conv lf pl bl al ze wi pr c v :: l)) r.
Proof.
  intros lf pl bl al ze wi pr c v old count w out IH Hl Hr Hap Hfits.
  apply Forall_cons_1 in Hl as [(Hwi & Hpr & Hne & Hc & Hok & Hstr) Hl].
  assert (Hplain : plain c).
  { unfold letter_ok in Hok. destruct (conversion_of ext c) as [x i] eqn:E.
    apply (conversion_info ext c x i E). intros ->. by destruct v. }
  set (fl := item_spec lf pl bl al ze wi pr (is_long v)).
  unfold runs_to, after_literal, format_chars. cbn [mbind list_bind]. fold (format_chars l).
  cbn [item_chars]. fold (precision_chars pr). rewrite <-!app_assoc. cbn [app chr tail].
  change (37 =? 0) with false. cbv iota.
  replace (if v is VLong _ then [108] else []) with (modifier_chars (is_long v)) by (by destruct v).
  assert (Hhead : (chr (flag_chars lf pl bl al ze ++ number_chars wi ++ precision_chars pr ++
    modifier_chars (is_long v) ++ c :: format_chars l) =? 0) = false).
  { apply Z.eqb_neq. destruct (width_head wi pr (is_long v) c (format_chars l) Hplain Hne Hwi) as (c' & f' & E & Hf').
    destruct lf, pl, bl, al, ze; cbn; try done. rewrite E. cbn. intros ->.
    destruct wi as [|[|d ds]|]; cbn in E, Hne; [|by destruct Hne| |done].
    - destruct pr; cbn in E; [|done..]. destruct (is_long v); cbn in E; [done|]. injection E as -> _.
      by destruct Hplain as (_ & _ & _ & _ & _ & _ & _ & _ & ?).
    - injection E as -> _. destruct Hwi as [[Hd _]%Forall_cons_1 _]. done. }
  rewrite Hhead. unfold format_args in Hap. cbn [mbind list_bind item_args] in Hap.
  fold (format_args l) in Hap. rewrite <-!app_assoc in Hap.
  eapply (wp_read_spec lf pl bl al ze wi pr (is_long v)); [done..|exact Hap|].
  fold fl. apply wp_bind. destruct Hr as (He & Hb & Hm).
  assert (Hstr' : if v is VStr z s then points_to_str (pm w) z s else True).
  { destruct v as [| | |z s| |]; try done. destruct Hstr as [[Hs Hz] _]. split; [done|].
    destruct z as [|p]; [done|]. destruct Hz as (blk & Eb & Hh). exists blk.
    by apply rest_lookup in Eb as [? _]. }
  assert (Hlen : Z.of_nat (length (value_str v)) <= 1000000000)
    by (destruct v; try done; by destruct Hstr).
  assert (Hsp : spec_ok fl)
    by (unfold spec_ok, fl, item_spec; cbn [width precision]; split; [lia|destruct pr; lia]).
  eapply wp_convert_arg; [exact Hsp|done|done|done|done|done|done|reflexivity|].
  intros f w1 Hpost. pose proof Hpost as (Hfw & Hfi & _).
  assert (Hpost' : conv_post fl (value_text ext fl c v) (value_src v) (format_args l ++ r) w f w1) by exact Hpost.
  apply (conv_post_frame fl _ v _ w out) in Hpost' as (He1 & Hb1 & Hm1 & Ha1 & Hi1 & Hs1 & Hp1 & Hx1 & Hr1);
    [|done|destruct v; try done; by destruct Hstr].
  change (fits out (in_field fl (value_text ext fl c v) ++ format_text ext l) count) in Hfits.
  apply fits_behind in Hfits as (Hout & Hint & Hfits).
  apply wp_bind. eapply returns_mono; [by apply (wp_put_field fl f (value_text ext fl c v) w1 out)|].
  intros n w2 (-> & He2 & Ha2 & Hb2 & Hi2 & Hm2 & Hr2). rewrite Hr1 in Hr2.
  apply wp_bind, wp_as_int; [done|].
  eapply returns_mono; [apply (IH f _ w2 (out ++ in_field fl (value_text ext fl c v)))|].
  - unfold outside. by rewrite Hr2.
  - split; [done|]. split; congruence.
  - congruence.
  - exact Hfits.
  - intros n w3 (-> & Hr3 & Ha3 & Hi3 & Hrest3).
    unfold format_text in *. cbn [mbind list_bind item_text].
    replace (if v is VLong _ then true else false) with (is_long v) by done. fold fl.
    rewrite length_app, Nat2Z.inj_add, app_assoc. split; [lia|]. split; [done|].
    split; [done|]. split; [congruence|]. by rewrite Hrest3.
Qed.

Lemma no_adjacent_tail i l : no_adjacent (i :: l) -> no_adjacent l.
Proof. destruct i; [|done]. by destruct l as [|[] l]. Qed.

Lemma vxprintf_loop_text ext r : forall fuel l old count w out,
  Forall (item_ok ext (outside w)) l -> no_adjacent l -> (length (format_chars l) < fuel)%nat ->
  ready w out -> ap w = format_args l ++ r -> fits out (format_text ext l) count ->
  runs_to (vxprintf_loop func fuel ext (format_chars l) old count) w out
    (count + Z.of_nat (length (format_text ext l))) (format_text ext l) r.
Proof.
  induction fuel as [|fuel IH]; intros l old count w out Hl Hadj Hf Hr Hap Hfits; [lia|].
  destruct l as [|[s|lf pl bl al ze wi pr c v] l].
  - change (runs_to (mret count) w out (count + 0) [] r). apply wp_ret.
    rewrite (app_nil_r out). split; [lia|].
    split; [exact Hr|]. by split.
  - pose proof (Forall_cons_1 _ _ _ Hl) as [[Hne Hs] Hl'].
    assert (Hhd : exists c s', s = c :: s' /\ cchar c /\ c <> 37).
    { destruct s as [|c s]; [done|]. apply Forall_cons_1 in Hs as [? _]. by exists c, s. }
    destruct Hhd as (c & s' & Es & Hc & Hc').
    assert (E : vxprintf_loop func (S fuel) ext (format_chars (Lit s :: l)) old count =
      (func s;; count ← as_int (count + Z.of_nat (length s));
       after_literal fuel ext (format_chars l)
        (mkField (At (Const (format_chars (Lit s :: l)))) (f_length old) 0 None) count)).
    { cbn [vxprintf_loop]. unfold format_chars at 1 2 3 5. cbn [mbind list_bind item_chars].
      fold (format_chars l). rewrite literal_app; [|done|].
      - subst s. cbn [app chr]. unfold cchar in Hc. destruct (Z.eqb_spec c 0); [lia|].
        by destruct (Z.eqb_spec c 37).
      - destruct l as [|[] l]; [by left|done|by right]. }
    rewrite E. unfold runs_to. apply wp_bind. destruct Hr as (He & Hb & Hm).
    change (fits out (s ++ format_text ext l) count) in Hfits.
    apply fits_behind in Hfits as (Hout & Hint & Hfits).
    eapply returns_mono; [by apply func_emits|]. intros _ w1 [He1 [Ha1 Hb1 Hi1 Hm1 Hr1]].
    apply wp_bind, wp_as_int; [done|].
    assert (Hr' : ready w1 (out ++ s)) by (split; [done|split; congruence]).
    assert (Hl1 : Forall (item_ok ext (outside w1)) l) by (unfold outside; by rewrite Hr1).
    assert (Ha1' : ap w1 = format_args l ++ r) by (by rewrite Ha1, Hap).
    destruct l as [|[s2|lf pl bl al ze wi pr c2 v] l].
    + change (format_text ext [Lit s]) with (s ++ []). rewrite (app_nil_r s).
      apply wp_ret. split; [done|].
      split; [exact Hr'|]. split; [done|]. split; congruence.
    + done.
    + eapply returns_mono; [apply conv_step; [|done|exact Hr'|exact Ha1'|exact Hfits]|].
      * intros old' count' w' out' Hl2 Hr2 Hap2 Hf2. apply IH; [done| | |done|done|done].
        -- eapply no_adjacent_tail, no_adjacent_tail. exact Hadj.
        -- clear - Hf. unfold format_chars in *. cbn [mbind list_bind item_chars] in Hf.
           rewrite !length_app in Hf. simpl in Hf. lia.
      * intros n w2 (-> & Hr2 & Ha2 & Hi2 & Hr2').
        unfold format_text. cbn [mbind list_bind item_text]. fold (format_text ext l).
        set (t := format_text ext (Conv lf pl bl al ze wi pr c2 v :: l)) in *.
        rewrite (length_app s), Nat2Z.inj_add, (app_assoc out s). split; [unfold t, format_text in *; cbn [mbind list_bind item_text] in *; lia|].
        split; [exact Hr2|]. split; [done|]. split; congruence.
  - assert (E : vxprintf_loop func (S fuel) ext (format_chars (Conv lf pl bl al ze wi pr c v :: l)) old count =
      (mret tt;; count ← as_int (count + 0);
       after_literal fuel ext (format_chars (Conv lf pl bl al ze wi pr c v :: l)) old count))
      by reflexivity.
    rewrite E, Z.add_0_r. unfold runs_to. apply wp_bind, wp_ret. apply wp_bind, wp_as_int.
    { pose proof most_int. destruct Hfits as [-> L]. rewrite length_app in L. lia. }
    apply conv_step; [|done..].
    intros old' count' w' out' Hl2 Hr2 Hap2 Hf2. apply IH; [done|by eapply no_adjacent_tail| |done|done|done].
    clear - Hf. unfold format_chars in *. cbn [mbind list_bind item_chars] in Hf.
    rewrite !length_app in Hf. simpl in Hf. lia.
Qed.

(** [vxprintf] gives the consumer the text of the format and returns its length. *)
Lemma vxprintf_text ext l r w :
  Forall (item_ok ext (outside w)) l -> no_adjacent l ->
  started (pm w) (sM w) -> length (buf w) = 1000%nat -> mallocs (pm w) = [] ->
  ap w = format_args l ++ r -> Z.of_nat (length (format_text ext l)) <= most ->
  runs_to (vxprintf func ext (format_chars l)) w [] (Z.of_nat (length (format_text ext l)))
    (format_text ext l) r.
Proof.
  intros Hl Hadj Hs Hb Hm Hap L. unfold runs_to, vxprintf. apply wp_bind.
  eapply returns_mono; [by apply func_starts|]. intros _ w1 [He1 [Ha1 Hb1 Hi1 Hm1 Hr1]].
  eapply returns_mono; [apply vxprintf_loop_text with (r := r) (out := []); [| |lia| |congruence|]|].
  - unfold outside. by rewrite Hr1.
  - done.
  - split; [exact He1|]. split; congruence.
  - by split.
  - intros n w2 (-> & Hr2 & Ha2 & Hi2 & Hr2'). split; [lia|].
    split; [exact Hr2|]. split; [done|]. split; congruence.
Qed.

End consumer.
