(* ===== verification/PrintfMout.v ===== *)
(** The consumer [mout]: it is a [Consumer] on a buffer of fixed size, where it keeps
    the front of the text, and on a string that grows, where it keeps all of it. *)
From S2P Require Import Prelude Util CMem CFloat Printf PrintfConv PrintfSpec PrintfMain.

(** * Writing *)

Lemma two_stores (b : list (option Z)) (out t : list Z) :
  (length out + length t + 1 <= length b)%nat -> take (length out) b = map Some out ->
  let b1 := take (length out) b ++ map Some t ++ drop (length out + length t) b in
  take (length out + length t) b1 ++ map Some [0] ++ drop (length out + length t + 1) b1 =
  map Some (out ++ t ++ [0]) ++ drop (length out + length t + 1) b.
Proof.
  intros Hl Ht. cbv zeta. rewrite Ht. rewrite (app_assoc (map Some out)), <-map_app.
  rewrite <-(length_app out t). set (u := out ++ t) in *.
  assert (Hu : length (map Some u) = length u) by apply length_map.
  rewrite take_app_le, take_ge by lia.
  rewrite drop_app_ge by lia. rewrite Hu, drop_drop.
  replace (length u + (length u + 1 - length u))%nat with (length u + 1)%nat by lia.
  rewrite (app_assoc out t [0]). fold u. rewrite (map_app Some u [0]), <-app_assoc. done.
Qed.

Lemma rest_ext h h' s s' :
  (forall k b, blocks h' !! k = Some b /\ ~ owned s' k <-> blocks h !! k = Some b /\ ~ owned s k) ->
  rest h' s' = rest h s.
Proof.
  intros H. apply map_eq. intros k. apply option_eq. intros b. by rewrite !rest_lookup.
Qed.

(** The write into the block [p] of the string. *)
Lemma wp_mout_write p b out t n w (Q : unit -> PW -> Prop) C :
  zText (sM w) = Some p -> blocks (pm w) !! p = Some b ->
  nChar (sM w) = Z.of_nat (length out) -> take (length out) b = map Some out ->
  0 <= n -> length (take (Z.to_nat n) t) = Z.to_nat n -> Z.of_nat (length out) + n + 1 <= Z.of_nat (length b) ->
  (forall s h, s = set_nChar (Z.of_nat (length (out ++ take (Z.to_nat n) t))) (sM w) ->
     h = set_blocks (<[p := map Some ((out ++ take (Z.to_nat n) t) ++ [0]) ++
            drop (length (out ++ take (Z.to_nat n) t) + 1) b]> (blocks (pm w))) (pm w) ->
     Q tt (set_pm h (set_sM s w))) ->
  wp (mout_write t n) Q C w.
Proof.
  intros Hz Hp Hn Hb H0 Ht Hl H. set (t' := take (Z.to_nat n) t) in *.
  assert (Hlen : length (out ++ t') = (length out + Z.to_nat n)%nat) by (rewrite length_app; lia).
  unfold mout_write. apply wp_bind. change (wp get_sM ?Q ?C ?w) with (Q (sM w) w). cbv beta.
  rewrite Hz. apply wp_bind. destruct (Z.ltb_spec 0 n).
  - apply wp_bind, wp_onmem. fold t'. eapply wp_store_bytes; [exact Hp|lia|lia|].
    match goal with |- wp (upd_sM ?f) ?Q ?C ?w => change (Q tt (set_sM (f (sM w)) w)) end. cbv beta.
    apply wp_bind. change (wp get_sM ?Q ?C ?w) with (Q (sM w) w). cbv beta.
    apply wp_onmem. cbn [sM set_sM set_pm pm set_nChar nChar]. rewrite Hn, Nat2Z.id.
    eapply wp_store_bytes; [cbn; by rewrite lookup_insert_eq|lia| |].
    + rewrite !length_app, length_take, length_map, length_drop. simpl. lia.
    + apply H; [cbn; unfold set_nChar; f_equal; lia|].
      unfold set_blocks. cbn [blocks mallocs sqlite_malloc_failed]. f_equal. rewrite insert_insert_eq. f_equal.
      replace (Z.to_nat (Z.of_nat (length out) + n)) with (length out + length t')%nat by lia.
      change (length [0]) with 1%nat. rewrite two_stores by (done || lia).
      rewrite <-app_assoc, Hlen. do 2 f_equal. lia.
  - assert (n = 0) by lia. subst n. assert (Et : t' = []) by done. rewrite Et, app_nil_r in *.
    apply wp_ret. apply wp_bind. change (wp get_sM ?Q ?C ?w) with (Q (sM w) w). cbv beta.
    apply wp_onmem. rewrite Hn. eapply wp_store_bytes; [exact Hp|lia|simpl; lia|].
    assert (Ew : set_sM (set_nChar (Z.of_nat (length out)) (sM w)) w = w)
      by (rewrite <-Hn; by destruct w as [? [] ? ? ?]).
    specialize (H _ _ eq_refl eq_refl). rewrite Ew in H.
    rewrite Nat2Z.id, Hb. replace (Z.to_nat 0) with 0%nat in H by done.
    rewrite map_app, <-app_assoc in H. exact H.
Qed.

(** The state after the first steps of [mout]. *)
Lemma wp_mout t n w (Q : unit -> PW -> Prop) C :
  let s := set_nTotal (nTotal (sM w) + Z.of_nat (length t)) (sM w) in
  n = Z.of_nat (length t) ->
  0 <= nTotal (sM w) <= 2147483647 - n -> 0 <= nChar s <= 2147483646 - n ->
  (nAlloc s < nChar s + n + 1 ->
     match xRealloc s with
     | None => 0 <= nAlloc s <= 2147483647 /\
         wp (mout_write t (nAlloc s - nChar s - 1)) Q C (set_sM s w)
     | Some f => wp (mout_grow f n;; mout_write t n) Q C (set_sM s w)
     end) ->
  (nChar s + n + 1 <= nAlloc s -> wp (mout_write t n) Q C (set_sM s w)) ->
  wp (mout t) Q C w.
Proof.
  intros s -> HT HC H1 H2. change (nChar s) with (nChar (sM w)) in *.
  change (nAlloc s) with (nAlloc (sM w)) in *. change (xRealloc s) with (xRealloc (sM w)) in *.
  unfold mout. apply wp_bind. change (wp get_sM ?Q ?C ?w) with (Q (sM w) w). cbv beta.
  apply wp_bind, wp_as_int; [lia|]. apply wp_bind.
  change (wp (upd_sM ?f) ?Q ?C ?w) with (Q tt (set_sM (f (sM w)) w)). cbv beta. fold s.
  apply wp_bind, wp_as_int; [lia|]. apply wp_bind.
  destruct (Z.ltb_spec (nAlloc (sM w)) (nChar (sM w) + Z.of_nat (length t) + 1)) as [H|H].
  - specialize (H1 H). destruct (xRealloc (sM w)).
    + apply wp_bind. apply wp_unbind in H1. eapply wp_mono; [exact H1| |done].
      intros [] w' H'. apply wp_ret. exact H'.
    + destruct H1 as [Ha H1]. apply wp_as_int; [lia|]. exact H1.
  - by apply wp_ret, H2.
Qed.

(** * A buffer of fixed size *)

Section fixed.
Context (p : positive) (n : Z) (b0 : list (option Z)).
Context (Hn : 1 <= n <= 2147483647) (Hb0 : n <= Z.of_nat (length b0)).

(** What is kept of the text, and the buffer then. *)
Definition kept (out : list Z) : list Z := take (Z.to_nat (n - 1)) out.
Definition fixed_block (out : list Z) : list (option Z) :=
  map Some (kept out ++ [0]) ++ drop (length (kept out) + 1) b0.

Definition fixed_emitted (h : mem) (s : sgMprintf) (out : list Z) : Prop :=
  s = mkSg p (Some p) (Z.of_nat (length (kept out))) (Z.of_nat (length out)) n None /\
  blocks h !! p = Some (fixed_block out).

Definition fixed_started (h : mem) (s : sgMprintf) : Prop :=
  s = mkSg p (Some p) 0 0 n None /\ blocks h !! p = Some b0.

Lemma kept_length out : (length (kept out) = Nat.min (Z.to_nat (n - 1)) (length out))%nat.
Proof. unfold kept. apply length_take. Qed.

Lemma kept_app out t : exists m, 0 <= m /\ m = Z.min (Z.of_nat (length t)) (n - 1 - Z.of_nat (length (kept out))) /\
  kept (out ++ t) = kept out ++ take (Z.to_nat m) t /\ length (take (Z.to_nat m) t) = Z.to_nat m.
Proof.
  pose proof (kept_length out) as Hk. set (k := length (kept out)) in *. clearbody k.
  eexists. split; [|split; [reflexivity|]]; [lia|].
  rewrite length_take. split; [|lia]. unfold kept. rewrite take_app. f_equal.
  destruct (decide (length out <= Z.to_nat (n - 1))%nat).
  - destruct (decide (length t <= Z.to_nat (n - 1) - length out)%nat).
    + rewrite (take_ge t) by lia. symmetry. apply take_ge. lia.
    + f_equal. lia.
  - replace (Z.to_nat (n - 1) - length out)%nat with 0%nat by lia.
    replace (Z.to_nat _) with 0%nat by lia. by rewrite !take_0.
Qed.

Lemma fixed_step b out t w :
  sM w = mkSg p (Some p) (Z.of_nat (length (kept out))) (Z.of_nat (length out)) n None ->
  blocks (pm w) !! p = Some b -> take (length (kept out)) b = map Some (kept out) ->
  drop (length (kept out) + 1) b = drop (length (kept out) + 1) b0 -> length b = length b0 ->
  Z.of_nat (length (out ++ t)) <= 2147483646 ->
  returns (mout t) (fun _ w' => fixed_emitted (pm w') (sM w') (out ++ t) /\ framed w w') w.
Proof.
  intros Hs Hp Hk Hd Hl Hmost. pose proof (kept_length out) as Hkl.
  rewrite length_app in Hmost.
  destruct (kept_app out t) as (m & Hm0 & Hm & Ek & Ht).
  assert (Hw : forall Q : unit -> PW -> Prop, Q = (fun _ w' => fixed_emitted (pm w') (sM w') (out ++ t) /\ framed w w') ->
    returns (mout_write t m) Q (set_sM (set_nTotal (Z.of_nat (length out) + Z.of_nat (length t)) (sM w)) w)).
  { intros Q ->. rewrite Hs. eapply wp_mout_write; [done|exact Hp|done|exact Hk|done|exact Ht|cbn; lia|].
    rewrite <-Ek. intros s h -> ->. split.
    - split; cbn; [by rewrite length_app, Nat2Z.inj_add|].
      rewrite lookup_insert_eq. unfold fixed_block. do 2 f_equal.
      replace (length (kept (out ++ t)) + 1)%nat with
        (length (kept out) + 1 + (length (kept (out ++ t)) - length (kept out)))%nat
        by (rewrite Ek, length_app; lia).
      assert (Edd : forall c (l : list (option Z)), drop (length (kept out) + 1 + c) l =
        drop c (drop (length (kept out) + 1) l)) by (intros; by rewrite drop_drop).
      by rewrite !Edd, Hd.
    - split; try done. apply rest_ext. intros k x. rewrite Hs. unfold owned. cbn.
      split; intros [Hx Hno]; (split; [|done]).
      + rewrite lookup_insert_ne in Hx; [done|]. intros ->. apply Hno. by left.
      + rewrite lookup_insert_ne; [done|]. intros ->. apply Hno. by left. }
  eapply wp_mout; [reflexivity|rewrite Hs; cbn; lia|rewrite Hs; cbn; lia|..]; rewrite Hs; cbn; rewrite <-Hs; intros H.
  - split; [lia|]. replace (n - Z.of_nat (length (kept out)) - 1) with m by lia. by apply Hw.
  - replace (Z.of_nat (length t)) with m at 1 by lia. by apply Hw.
Qed.

Definition fixed_consumer : Consumer mout.
Proof.
  refine {| most := 2147483646; emitted := fixed_emitted; started := fixed_started |}.
  - done.
  - intros h s out q [-> Hp] [<-|[= <-]]; by eexists.
  - intros h h' s out [-> Hp] Hsame _. split; [done|]. rewrite Hsame; [done|by left].
  - intros w [Hs Hp]. assert (Ek : kept [] = []) by (unfold kept; by rewrite take_nil).
    by eapply (fixed_step b0 [] []); rewrite ?Ek.
  - intros w out t [Hs Hp] L. eapply (fixed_step (fixed_block out)); [exact Hs|exact Hp|..|exact L].
    + unfold fixed_block. rewrite map_app, <-app_assoc.
      by rewrite take_app_le, take_ge by (rewrite length_map; lia).
    + unfold fixed_block. rewrite drop_app_ge by (rewrite length_map, length_app; simpl; lia).
      rewrite length_map, length_app. change (length [0]) with 1%nat.
      by replace (_ + 1 - _)%nat with 0%nat by lia.
    + unfold fixed_block. pose proof (kept_length out).
      rewrite length_app, length_map, length_app, length_drop. simpl. lia.
Defined.
End fixed.

(** * A string that grows *)

Section growing.
Context (z : positive) (f : reallocator).

(** The block of the string has the text [out] in front; the array it began in is
    still there. *)
Definition holds_text (h : mem) (s : sgMprintf) (out : list Z) (p : positive) (b : list (option Z)) : Prop :=
  zBase s = z /\ xRealloc s = Some f /\ nChar s = Z.of_nat (length out) /\ mallocs h = [] /\
  is_Some (blocks h !! z) /\ zText s = Some p /\ blocks h !! p = Some b /\
  take (length out) b = map Some out /\ Z.of_nat (length b) = nAlloc s /\ (length out < length b)%nat.

Definition growing_emitted (h : mem) (s : sgMprintf) (out : list Z) : Prop :=
  nTotal s = Z.of_nat (length out) /\
  exists p b, holds_text h s out p b /\ exists slack, b = map Some (out ++ [0]) ++ slack.

Definition growing_started (h : mem) (s : sgMprintf) : Prop :=
  nTotal s = 0 /\ exists p b, holds_text h s [] p b.

Lemma wp_call_new g h n (Q : option positive -> mem -> Prop) C :
  mallocs h = [] ->
  (forall q c, blocks h !! q = None -> length c = Z.to_nat n ->
     Q (Some q) (set_blocks (<[q := c]> (blocks h)) h)) ->
  wp (call_xRealloc g None n) Q C h.
Proof.
  intros Hm H. destruct g; cbn [call_xRealloc sqliteRealloc].
  - apply mem_wp_sqliteMalloc; [done|]. intros q Hq. apply H; [done|]. apply length_replicate.
  - apply wp_bind, mem_wp_malloc_ok; [done|]. apply wp_bind, wp_new_block. intros q Hq.
    apply wp_ret, H; [done|]. apply length_replicate.
Qed.

Lemma wp_call_resize g h p n b (Q : option positive -> mem -> Prop) C :
  mallocs h = [] -> 0 < n -> blocks h !! p = Some b ->
  (forall q, delete p (blocks h) !! q = None ->
     Q (Some q) (set_blocks (<[q := take (Z.to_nat n) b ++ replicate (Z.to_nat n - length b) None]>
       (delete p (blocks h))) h)) ->
  wp (call_xRealloc g (Some p) n) Q C h.
Proof.
  intros Hm Hn Hp H. destruct g; cbn [call_xRealloc sqliteRealloc].
  - destruct (Z.eqb_spec n 0); [lia|]. apply wp_bind. eapply wp_realloc; [done|done|].
    intros q Hq. apply wp_bind, wp_ret, wp_ret. by apply H.
  - by eapply wp_realloc.
Qed.

Lemma take_resized n (b : list (option Z)) k : (k <= n)%nat -> (k <= length b)%nat ->
  take k (take n b ++ replicate (n - length b) None) = take k b.
Proof.
  intros H1 H2. rewrite take_app_le by (rewrite length_take; lia). rewrite take_take. f_equal. lia.
Qed.

Lemma length_resized n (b : list (option Z)) : (length (take n b ++ replicate (n - length b) None) = n)%nat.
Proof. rewrite length_app, length_take, length_replicate. lia. Qed.

Lemma wp_mout_grow p b out n w (Q : unit -> PW -> Prop) C :
  holds_text (pm w) (sM w) out p b -> 0 < n -> Z.of_nat (length out) + n <= 1073741823 ->
  (forall q b' h s, holds_text h s out q b' -> nAlloc s = Z.of_nat (length out) + n * 2 + 1 ->
     nTotal s = nTotal (sM w) -> rest h s = rest (pm w) (sM w) -> Q tt (set_pm h (set_sM s w))) ->
  wp (mout_grow f n) Q C w.
Proof.
  intros (Hz & Hx & Hn & Hm & [bz Hbz] & Hp & Hb & Ht & Hl & Hlt) H0 Hmost H. unfold mout_grow.
  apply wp_bind. change (wp get_sM ?Q ?C ?w) with (Q (sM w) w). cbv beta.
  rewrite Hn. apply wp_bind, wp_as_int; [lia|]. set (n' := Z.of_nat (length out) + n * 2 + 1) in *.
  apply wp_bind. change (wp (upd_sM ?g) ?Q ?C ?w) with (Q tt (set_sM (g (sM w)) w)). cbv beta.
  rewrite Hz, Hp. destruct (decide (Some p = Some z)) as [[= ->]|Hne].
  - rewrite Hbz in Hb. injection Hb as ->.
    apply wp_bind, wp_onmem. apply wp_call_new; [done|]. intros q c Hq Hc. cbn in Hq.
    assert (Hqz : q <> z) by congruence.
    apply wp_bind. change (wp (upd_sM ?g) ?Q ?C ?w) with (Q tt (set_sM (g (sM w)) w)). cbv beta.
    assert (Hpost : forall c', length c' = Z.to_nat n' -> take (length out) c' = map Some out ->
      Q tt (set_pm (set_blocks (<[q := c']> (blocks (pm w))) (pm w))
              (set_sM (set_zText (Some q) (set_nAlloc n' (sM w))) w))).
    { intros c' Hc' Ht'. apply (H q c'); [|done|done|].
      - repeat split; cbn; try done.
        + rewrite lookup_insert_ne by done. by eexists.
        + by rewrite lookup_insert_eq.
        + lia.
        + lia.
      - apply rest_ext. intros k x. unfold owned. cbn. rewrite Hz, Hp. split; intros [Hk Hno].
        + rewrite lookup_insert_ne in Hk by (intros ->; apply Hno; by right).
          split; [done|]. intros [?|[= ?]]; apply Hno; by left.
        + assert (k <> q) by congruence. rewrite lookup_insert_ne by done. split; [done|].
          intros [?|[= ?]]; [apply Hno; by left|congruence]. }
    destruct (Z.eqb_spec (Z.of_nat (length out)) 0) as [E0|E0].
    + apply wp_ret. assert (out = []) by (destruct out; [done|simpl in E0; lia]). subst out.
      apply (Hpost c); [done|by rewrite take_0].
    + apply wp_onmem. eapply wp_memcpy; cbn.
      * rewrite lookup_insert_ne by done. exact Hbz.
      * by rewrite lookup_insert_eq.
      * lia.
      * lia.
      * lia.
      * rewrite insert_insert_eq, Nat2Z.id.
        assert (Hlo : length (take (length out) b) = length out) by (rewrite length_take; lia).
        apply Hpost.
        -- rewrite length_app, length_drop. lia.
        -- rewrite take_app_le by lia. rewrite take_take. by rewrite Nat.min_id.
  - assert (Hpz : p <> z) by congruence.
    apply wp_bind, wp_onmem. eapply wp_call_resize; [done|lia|exact Hb|]. intros q Hq. cbn in Hq.
    change (wp (upd_sM ?g) ?Q ?C ?w) with (Q tt (set_sM (g (sM w)) w)). cbv beta.
    assert (Hqz : q <> z).
    { intros ->. rewrite lookup_delete_ne in Hq by done. congruence. }
    apply (H q (take (Z.to_nat n') b ++ replicate (Z.to_nat n' - length b) None)); [|done|done|].
    + repeat split; cbn; try done.
      * rewrite lookup_insert_ne, lookup_delete_ne by done. by eexists.
      * by rewrite lookup_insert_eq.
      * rewrite take_resized by lia. exact Ht.
      * rewrite length_resized. lia.
      * rewrite length_resized. lia.
    + apply rest_ext. intros k x. unfold owned. cbn. rewrite Hz, Hp. split; intros [Hk Hno].
      * rewrite lookup_insert_ne in Hk by (intros ->; apply Hno; by right).
        destruct (decide (k = p)) as [->|Hkp]; [by rewrite lookup_delete_eq in Hk|].
        rewrite lookup_delete_ne in Hk by done. split; [done|].
        intros [?|[= ?]]; [apply Hno; by left|congruence].
      * assert (k <> p) by (intros ->; apply Hno; by right).
        assert (k <> q) by (intros ->; rewrite lookup_delete_ne in Hq by done; congruence).
        rewrite lookup_insert_ne, lookup_delete_ne by done. split; [done|].
        intros [?|[= ?]]; [apply Hno; by left|congruence].
Qed.

Lemma growing_step p b out t w : holds_text (pm w) (sM w) out p b ->
  nTotal (sM w) = Z.of_nat (length out) -> Z.of_nat (length (out ++ t)) <= 1073741823 ->
  returns (mout t) (fun _ w' => growing_emitted (pm w') (sM w') (out ++ t) /\ framed w w') w.
Proof.
  intros Hh Htot Hmost.
  assert (Hw : forall p b h s, holds_text h s out p b ->
    nTotal s = Z.of_nat (length (out ++ t)) -> rest h s = rest (pm w) (sM w) ->
    Z.of_nat (length out) + Z.of_nat (length t) + 1 <= nAlloc s ->
    returns (mout_write t (Z.of_nat (length t)))
      (fun _ w' => growing_emitted (pm w') (sM w') (out ++ t) /\ framed w w') (set_pm h (set_sM s w))).
  { assert (Hmw : mallocs (pm w) = []) by apply Hh. clear Hh p b.
    intros p b h s (Hz & Hx & Hn & Hm & Hbz & Hp & Hb & Ht & Hl & Hlt) Hts Hr Ha.
    eapply wp_mout_write; [exact Hp|exact Hb|exact Hn|exact Ht|lia|by rewrite Nat2Z.id, firstn_all|lia|].
    rewrite Nat2Z.id, firstn_all. intros s' h' -> ->. cbn. split.
    - split; [exact Hts|]. exists p, (map Some ((out ++ t) ++ [0]) ++ drop (length (out ++ t) + 1) b). split; [|by eexists]. repeat split; cbn; try done.
      + destruct (decide (z = p)) as [->|]; [rewrite lookup_insert_eq; by eexists|].
        by rewrite lookup_insert_ne.
      + by rewrite lookup_insert_eq.
      + rewrite map_app, <-app_assoc, take_app_le by (rewrite length_map; lia).
        by rewrite take_ge by (rewrite length_map; lia).
      + rewrite !length_app, length_map, length_drop, !length_app. simpl. lia.
      + rewrite !length_app, length_map, !length_app. simpl. lia.
    - split; try done; [cbn; congruence|]. rewrite <-Hr. apply rest_ext. intros k x. unfold owned. cbn.
      rewrite Hp. split; intros [Hk Hno]; (split; [|done]).
      + by rewrite lookup_insert_ne in Hk by (intros ->; apply Hno; by right).
      + by rewrite lookup_insert_ne by (intros ->; apply Hno; by right). }
  pose proof Hh as (Hz & Hx & Hn & Hm & _ & _ & _ & _ & Hl & Hlt).
  set (s := set_nTotal (nTotal (sM w) + Z.of_nat (length t)) (sM w)).
  assert (Hs : holds_text (pm (set_sM s w)) (sM (set_sM s w)) out p b) by exact Hh.
  rewrite length_app in Hmost.
  assert (Hts : nTotal s = Z.of_nat (length (out ++ t))) by (cbn; rewrite length_app; lia).
  eapply wp_mout; [reflexivity|lia|cbn; lia|..]; fold s; intros H.
  - change (xRealloc s) with (xRealloc (sM w)). rewrite Hx. apply wp_bind.
    change (nAlloc s) with (nAlloc (sM w)) in H. change (nChar s) with (nChar (sM w)) in H.
    eapply wp_mout_grow; [exact Hs|lia|lia|]. intros q b' h s' Hh' Ha Ht' Hr.
    eapply (Hw q b' h s'); [done|by rewrite Ht'| |lia]. rewrite Hr. done.
  - change (nAlloc s) with (nAlloc (sM w)) in H. change (nChar s) with (nChar (sM w)) in H.
    eapply (Hw p b (pm w) s); [exact Hh|done|done|]. change (nAlloc s) with (nAlloc (sM w)). lia.
Qed.

Definition growing_consumer : Consumer mout.
Proof.
  refine {| most := 1073741823; emitted := growing_emitted; started := growing_started |}.
  - done.
  - intros h s out q (_ & p & b & (Hz & _ & _ & _ & Hbz & Hp & Hb & _) & _) [E|E].
    + rewrite <-E, Hz. done.
    + rewrite Hp in E. injection E as <-. by eexists.
  - intros h h' s out (Htot & p & b & (Hz & Hx & Hn & Hm & Hbz & Hp & Hb & Ht & Hl & Hlt) & Hs) Hsame Hmal.
    split; [done|]. exists p, b. split; [|exact Hs]. split; [done|]. split; [done|]. split; [done|].
    split; [congruence|]. split; [rewrite Hsame by (by left); exact Hbz|]. split; [done|].
    split; [rewrite Hsame by (by right); exact Hb|done].
  - intros w (Htot & p & b & Hh). by apply (growing_step p b [] [] w Hh).
  - intros w out t (Htot & p & b & Hh & _) L. exact (growing_step p b out t w Hh Htot L).
Defined.
End growing.
