(* ===== verification/PrintfTheorems.v ===== *)
(** What the entry points of [printf.c] return, and that SQL text built with [%Q]
    reads back as one string literal. *)
From S2P Require Import Prelude Util CMem CFloat Printf PrintfConv PrintfSpec.
From S2P Require Import PrintfMain PrintfMout.

(** * Into a buffer of the caller *)

Lemma rest_fixed h p n k t x : rest h (mkSg p (Some p) k t n x) = delete p (blocks h).
Proof.
  apply map_eq. intros q. apply option_eq. intros b. rewrite rest_lookup. unfold owned. cbn.
  rewrite lookup_delete_Some. split.
  - intros [Hb Hno]. split; [intros ->; apply Hno; by left|done].
  - intros [Hne Hb]. split; [done|]. by intros [?|[= ?]].
Qed.

Lemma with_sM_returns s args locals m h (Q : option positive * list (Z * Z) -> mem -> Prop) :
  returns m (fun _ w => Q (zText (sM w), ints w) (pm w)) (mkPW h s args locals []) ->
  returns (with_sM s args locals m) Q h.
Proof. unfold wp, with_sM. by destruct (m _). Qed.

(** C31: [sqlite_snprintf] never writes behind the [n] bytes of its buffer: it leaves
    the first [n-1] bytes of the formatted text and a terminator there, and the rest of
    the buffer and of the memory as it was.  The formats are those of [format_ok]
    without the internal conversions, the arguments are not in the buffer, memory is
    available (a [%q] needs it), and the text is shorter than 2^31-1 bytes. *)
Theorem snprintf_text locals n p b0 h l :
  1 <= n <= 2147483647 -> n <= Z.of_nat (length b0) -> blocks h !! p = Some b0 -> mallocs h = [] ->
  length locals = 1000%nat ->
  format_ok false (mkMem (delete p (blocks h)) [] 0) l ->
  Z.of_nat (length (format_text false l)) <= 2147483646 ->
  returns (sqlite_snprintf locals n p (format_chars l) (format_args l))
    (fun r h' =>
       let kept := take (Z.to_nat (n - 1)) (format_text false l) in
       r = (Some p, []) /\
       blocks h' = <[p := map Some (kept ++ [0]) ++ drop (length kept + 1) b0]> (blocks h)) h.
Proof.
  intros Hn Hb Hp Hm Hl Hok Hmost. pose proof (format_ok_items _ _ _ Hok) as Hitems.
  unfold sqlite_snprintf, base_vprintf.
  apply with_sM_returns, wp_bind.
  eapply returns_mono; [apply (vxprintf_text mout (HC := fixed_consumer p n b0 Hn Hb) false l [])|].
  - unfold outside. cbn [pm sM]. by rewrite (rest_fixed h p n 0 0 None).
  - apply Hok.
  - by split.
  - done.
  - done.
  - by rewrite app_nil_r.
  - exact Hmost.
  - intros r w' (-> & (He & _ & _) & _ & Hi & Hr). apply wp_ret.
    change (fixed_emitted p n b0 (pm w') (sM w') (format_text false l)) in He.
    destruct He as [Es Eb]. rewrite Es in *. cbn [zText]. rewrite Hi. cbn [ints]. split; [done|].
    rewrite (rest_fixed _ p n _ _ None) in Hr. cbn [pm sM] in Hr.
    rewrite (rest_fixed h p n 0 0 None) in Hr.
    unfold fixed_block, kept in Eb. rewrite <-(insert_delete_id _ _ _ Eb), Hr.
    by rewrite insert_delete_eq.
Qed.

(** The format [%s is '%q', %05d] with arguments, as in a program. *)
Definition sample_items : list item :=
  [Conv false false false false false Absent Absent 115 (VStr (Const [110; 97]) [110; 97]);
   Lit [32; 61; 32];
   Conv false false false false false Absent Absent 81 (VStr (Const [105; 116; 39; 115]) [105; 116; 39; 115]);
   Lit [44];
   Conv false false false false true (Constant [53]) Absent 100 (VInt (-42))].

Lemma sample_ok h : format_ok false h sample_items.
Proof.
  split; [|done].
  unfold sample_items, item_ok, number_ok, letter_ok, points_to_str, cstring, cchar,
    standard, standard_field, standard_int, standard_text, at_most.
  repeat apply Forall_cons_2; try apply Forall_nil_2; cbn; repeat split;
    repeat apply Forall_cons_2; try apply Forall_nil_2; try done; try lia; by (left + right).
Qed.

Lemma snprintf_text_witness :
  format_chars sample_items = bytes_of_string "%s = %Q,%05d" /\
  returns (sqlite_snprintf (replicate 1000 0) 10 1 (format_chars sample_items) (format_args sample_items))
    (fun r h' => r = (Some 1%positive, []) /\
       blocks h' !! 1%positive = Some (map Some (bytes_of_string "na = 'it'" ++ [0]) ++ replicate 2 None))
    (mkMem {[1%positive := replicate 12 None]} [] 0).
Proof.
  split; [reflexivity|].
  eapply returns_mono.
  - apply (snprintf_text (replicate 1000 0) 10 1 (replicate 12 None)
      (mkMem {[1%positive := replicate 12 None]} [] 0) sample_items);
      [lia|simpl; lia|reflexivity|reflexivity|apply length_replicate|apply sample_ok|done].
  - intros r h' [-> E]. split; [done|]. rewrite E. cbn [blocks]. rewrite lookup_insert_eq.
    vm_compute. reflexivity.
Defined.

(** * Into memory of its own *)

(** The blocks are those behind the string and its own. *)
Lemma blocks_of_rest h s z p b :
  zBase s = z -> zText s = Some p -> p <> z -> blocks h !! p = Some b ->
  delete z (blocks h) = <[p := b]> (rest h s).
Proof.
  intros Hz Hp Hne Hb. apply map_eq. intros k. apply option_eq. intros x.
  rewrite lookup_delete_Some, lookup_insert_Some, rest_lookup. unfold owned. rewrite Hz, Hp. split.
  - intros [Hk Hx]. destruct (decide (k = p)) as [->|Hkp]; [left; split; congruence|right].
    split; [done|]. split; [done|]. intros [?|[= ?]]; congruence.
  - intros [[<- <-]|(Hk & Hx & Hno)]; [done|]. split; [intros ->; apply Hno; by left|done].
Qed.

(** [s] has the text in a block that is not the array. *)
Definition own_string (z : positive) (t : list Z) (w : PW) : Prop :=
  exists p slack, zBase (sM w) = z /\ zText (sM w) = Some p /\ p <> z /\ is_Some (blocks (pm w) !! z) /\
    blocks (pm w) !! p = Some (map Some (t ++ [0]) ++ slack) /\ (length slack < 10)%nat.

Lemma wp_final_string z g t w :
  growing_emitted z g (pm w) (sM w) t -> Z.of_nat (length t) <= 1073741823 ->
  returns (final_string g) (fun _ w' => own_string z t w' /\ ints w' = ints w /\
    rest (pm w') (sM w') = rest (pm w) (sM w)) w.
Proof.
  intros (_ & p & b & (Hz & Hx & Hn & Hm & [bz Hbz] & Hp & Hb & Ht & Hl & Hlt) & slack & Es) Hmost.
  assert (Hlb : length b = (length t + 1 + length slack)%nat).
  { rewrite Es, length_app, length_map, length_app. simpl. lia. }
  unfold final_string. apply wp_bind. change (wp get_sM ?Q ?C ?w) with (Q (sM w) w). cbv beta.
  rewrite Hz, Hp, Hn. destruct (decide (Some p = Some z)) as [[= ->]|Hne].
  - rewrite Hbz in Hb. injection Hb as ->.
    apply wp_bind, wp_as_int; [lia|].
    apply wp_bind, wp_onmem. apply wp_call_new; [done|]. intros q c Hq Hc.
    assert (Hqz : q <> z) by congruence.
    apply wp_bind. change (wp (upd_sM ?g) ?Q ?C ?w) with (Q tt (set_sM (g (sM w)) w)). cbv beta.
    apply wp_onmem. eapply wp_memcpy; cbn.
    + rewrite lookup_insert_ne by done. exact Hbz.
    + by rewrite lookup_insert_eq.
    + lia.
    + lia.
    + lia.
    + rewrite insert_insert_eq. split; [|split; [done|]].
      * exists q, []. cbn. split; [done|]. split; [done|]. split; [done|].
        rewrite lookup_insert_ne by done. split; [by eexists|]. rewrite lookup_insert_eq.
        split; [|lia]. f_equal. rewrite (drop_ge c) by lia. rewrite Es.
        rewrite take_app_le, take_ge by (rewrite length_map, length_app; simpl; lia). done.
      * apply rest_ext. intros k x. unfold owned. cbn. rewrite Hz, Hp. split; intros [Hk Hno].
        -- rewrite lookup_insert_ne in Hk by (intros ->; apply Hno; by right).
           split; [done|]. intros [?|[= ?]]; apply Hno; by left.
        -- assert (k <> q) by congruence. rewrite lookup_insert_ne by done. split; [done|].
           intros [?|[= ?]]; [apply Hno; by left|congruence].
  - assert (Hpz : p <> z) by congruence. apply wp_bind, wp_as_int; [lia|].
    destruct (Z.ltb_spec (Z.of_nat (length t) + 10) (nAlloc (sM w))) as [Hbig|Hsmall].
    + apply wp_bind, wp_onmem. eapply wp_call_resize; [done|lia|exact Hb|]. intros q Hq.
      change (wp (upd_sM ?g) ?Q ?C ?w) with (Q tt (set_sM (g (sM w)) w)). cbv beta.
      assert (Hqz : q <> z).
      { intros ->. rewrite lookup_delete_ne in Hq by done. congruence. }
      split; [|split; [done|]].
      * exists q, []. cbn. split; [done|]. split; [done|]. split; [done|].
        rewrite lookup_insert_ne, lookup_delete_ne by done. split; [by eexists|].
        rewrite lookup_insert_eq. split; [|lia]. f_equal. rewrite app_nil_r.
        replace (Z.to_nat (Z.of_nat (length t) + 1) - length b)%nat with 0%nat by lia.
        rewrite app_nil_r, Es, take_app_le, take_ge by (rewrite length_map, length_app; simpl; lia). done.
      * apply rest_ext. intros k x. unfold owned. cbn. rewrite Hz, Hp. split; intros [Hk Hno].
        -- rewrite lookup_insert_ne in Hk by (intros ->; apply Hno; by right).
           destruct (decide (k = p)) as [->|Hkp]; [by rewrite lookup_delete_eq in Hk|].
           rewrite lookup_delete_ne in Hk by done. split; [done|].
           intros [?|[= ?]]; [apply Hno; by left|congruence].
        -- assert (k <> p) by (intros ->; apply Hno; by right).
           assert (k <> q) by (intros ->; rewrite lookup_delete_ne in Hq by done; congruence).
           rewrite lookup_insert_ne, lookup_delete_ne by done. split; [done|].
           intros [?|[= ?]]; [apply Hno; by left|congruence].
    + apply wp_ret. split; [|done]. exists p, slack. rewrite Es in Hb.
      split_and!; try done. lia.
Qed.

(** [base_vprintf] with an array of its own, as all the entry points have it. *)
Lemma mprintf_returns ext g n locals h l :
  0 < n -> mallocs h = [] -> length locals = 1000%nat ->
  format_ok ext h l -> Z.of_nat (length (format_text ext l)) <= 1073741823 ->
  returns (with_array n (fun zBuf => base_vprintf locals (Some g) ext zBuf n (format_chars l) (format_args l)))
    (fun r h' => exists q slack, r = (Some q, []) /\ blocks h !! q = None /\ (length slack < 10)%nat /\
       blocks h' = <[q := map Some (format_text ext l ++ [0]) ++ slack]> (blocks h)) h.
Proof.
  intros Hn Hm Hl Hfmt Hmost. pose proof (format_ok_items _ _ _ Hfmt) as Hok.
  unfold with_array. apply wp_bind, wp_new_block. intros z Hz.
  set (h1 := set_blocks (<[z := replicate (Z.to_nat n) None]> (blocks h)) h).
  set (s0 := mkSg z (Some z) 0 0 n (Some g)).
  assert (Hr0 : rest h1 s0 = blocks h).
  { apply map_eq. intros k. apply option_eq. intros b. rewrite rest_lookup. unfold owned, h1. cbn. split.
    - intros [Hk Hno]. by rewrite lookup_insert_ne in Hk by (intros ->; apply Hno; by left).
    - intros Hk. assert (k <> z) by congruence. rewrite lookup_insert_ne by done. split; [done|].
      intros [?|[= ?]]; congruence. }
  apply wp_bind. unfold base_vprintf. apply with_sM_returns. fold s0. apply wp_bind.
  eapply returns_mono; [apply (vxprintf_text mout (HC := growing_consumer z g) ext l [])|].
  - unfold outside. cbn [pm sM]. rewrite Hr0. eapply Forall_impl; [exact Hok|]. intros i Hi.
    destruct i as [|lf pl bl al ze wi pr c v]; [exact Hi|]. cbn in *.
    destruct Hi as (? & ? & ? & ? & ? & Hv). repeat (split; [done|]).
    destruct v as [| | |zs s| |]; try done.
  - apply Hfmt.
  - split; [done|]. exists z, (replicate (Z.to_nat n) None). unfold holds_text. cbn.
    rewrite lookup_insert_eq, length_replicate. split_and!; first [done|lia|by eexists].
  - done.
  - done.
  - by rewrite app_nil_r.
  - exact Hmost.
  - intros r w (-> & (He & _ & _) & _ & Hi & Hr). change (growing_emitted z g (pm w) (sM w) (format_text ext l)) in He.
    eapply returns_mono; [by apply wp_final_string|].
    intros _ w' ((p & slack & Hz' & Hp & Hpz & [bz Hbz] & Hb & Hsl) & Hi' & Hr'). cbn [pm sM] in Hr.
    rewrite Hr0 in Hr. apply wp_bind. eapply mem_wp_free; [exact Hbz|]. apply wp_ret.
    exists p, slack. rewrite Hp, Hi', Hi. cbn [ints]. split; [done|].
    rewrite Hr in Hr'. pose proof (blocks_of_rest _ _ z p _ Hz' Hp Hpz Hb) as E.
    split; [|split; [done|]].
    + apply eq_None_not_Some. intros [x Hx]. rewrite <-Hr' in Hx. apply rest_lookup in Hx as [_ Hno].
      apply Hno. right. done.
    + cbn [set_blocks blocks]. by rewrite E, Hr'.
Qed.

(** C30: [sqlite_mprintf] and [sqliteMPrintf] return a new block with the whole formatted
    text and a terminator, and leave no other block behind, when there is memory.  The
    formats are those of [format_ok], and the text is shorter than 2^30 bytes, which
    [mout] doubles in an [int]. *)
Theorem mprintf_text locals h l :
  mallocs h = [] -> length locals = 1000%nat ->
  (format_ok false h l -> Z.of_nat (length (format_text false l)) <= 1073741823 ->
   returns (sqlite_mprintf locals (format_chars l) (format_args l))
     (fun r h' => exists q slack, r = (Some q, []) /\ blocks h !! q = None /\ (length slack < 10)%nat /\
       blocks h' = <[q := map Some (format_text false l ++ [0]) ++ slack]> (blocks h)) h) /\
  (format_ok true h l -> Z.of_nat (length (format_text true l)) <= 1073741823 ->
   returns (sqliteMPrintf locals (format_chars l) (format_args l))
     (fun r h' => exists q slack, r = (Some q, []) /\ blocks h !! q = None /\ (length slack < 10)%nat /\
       blocks h' = <[q := map Some (format_text true l ++ [0]) ++ slack]> (blocks h)) h).
Proof.
  intros Hm Hl. split; intros Hok Hmost; by apply mprintf_returns.
Qed.

Lemma mprintf_text_witness :
  format_chars sample_items = bytes_of_string "%s = %Q,%05d" /\
  returns (sqlite_mprintf (replicate 1000 0) (format_chars sample_items) (format_args sample_items))
    (fun r h' => exists q slack, r = (Some q, []) /\ (length slack < 10)%nat /\
       blocks h' = <[q := map Some (bytes_of_string "na = 'it''s',-0042" ++ [0]) ++ slack]> ∅)
    (mkMem ∅ [] 0).
Proof.
  split; [reflexivity|].
  eapply returns_mono.
  - apply (proj1 (mprintf_text (replicate 1000 0) (mkMem ∅ [] 0) sample_items eq_refl
      (length_replicate 1000 0))); [apply sample_ok|done].
  - intros r h' (q & slack & Hr & _ & Hs & E). exists q, slack. split; [exact Hr|]. split; [exact Hs|].
    exact E.
Defined.
