(* ===== verification/PrintfQuote.v ===== *)
(** SQL text built with [%Q]: the literal reads back as one token and gives the string
    again; and what the formatting code does on formats and values it does not
    expect, on concrete inputs. *)
From S2P Require Import Prelude Util Tokenize CMem CFloat Printf PrintfSpec.
From S2P Require Import PrintfMain PrintfMout PrintfTheorems.

Lemma double_quotes_doubled s : double_quotes s = doubled 39 s.
Proof. induction s as [|c s IH]; [done|]. simpl. destruct (Z.eqb_spec c 39) as [->|]; by rewrite IH. Qed.

Lemma string_loop_quoted s r : cstring s -> chr r <> 39 ->
  string_loop 39 (double_quotes s ++ 39 :: r) = Z.of_nat (length (double_quotes s)).
Proof.
  intros Hs Hr. induction Hs as [|c s Hc _ IH]; cbn [double_quotes app string_loop length].
  - destruct r as [|d r]; [done|]. simpl in Hr. cbn [Z.eqb Pos.eqb]. by destruct (Z.eqb_spec d 39).
  - unfold cchar in Hc. destruct (Z.eqb_spec c 39) as [->|Hne]; cbn [app string_loop length].
    + cbn [Z.eqb Pos.eqb]. rewrite IH. lia.
    + destruct (Z.eqb_spec c 0); [lia|]. destruct (Z.eqb_spec c 39); [done|]. rewrite IH. lia.
Qed.

(** The item [%Q], its text, and where it stands in a format. *)
Definition percent_Q (z : cptr) (s : list Z) : item :=
  Conv false false false false false Absent Absent 81 (VStr z s).

Definition quoted (s : list Z) : list Z := [39] ++ double_quotes s ++ [39].

Lemma percent_Q_text ext l1 z s l2 :
  format_text ext (l1 ++ percent_Q z s :: l2) = format_text ext l1 ++ quoted s ++ format_text ext l2.
Proof. unfold format_text. rewrite bind_app. cbn [mbind list_bind]. f_equal. by destruct ext. Qed.

(** The text of [%Q] is one token. *)
Lemma quoted_token s r : cstring s -> chr r <> 39 ->
  sqliteGetToken (quoted s ++ r) = (Z.of_nat (length (quoted s)), TK_STRING).
Proof.
  intros Hs Hr. unfold quoted. set (q := double_quotes s).
  assert (E : sqliteGetToken (([39] ++ q ++ [39]) ++ r) =
    (closed (39 :: q ++ 39 :: r) (1 + string_loop 39 (q ++ 39 :: r)), TK_STRING))
    by (cbn [app]; by rewrite <-app_assoc).
  pose proof (string_loop_quoted s r Hs Hr) as L. fold q in L. rewrite E, L. f_equal.
  unfold closed, at_. replace (Z.to_nat (1 + Z.of_nat (length q))) with (S (length q)) by lia.
  cbn [drop]. rewrite drop_app_length. cbn [chr]. cbn [Z.eqb Pos.eqb].
  cbn [app length]. rewrite length_app. simpl. lia.
Qed.

Lemma quoted_dequote s rest : cstring s ->
  exists junk, sqliteDequote (quoted s ++ 0 :: rest) = s ++ 0 :: junk ++ 0 :: rest.
Proof.
  intros Hs. destruct (dequote_text 39 s rest ltac:(by left) Hs) as (junk & E). exists junk.
  rewrite <-E. unfold quoted. cbn [app]. f_equal. f_equal. change (closing 39) with 39.
  by rewrite double_quotes_doubled, <-app_assoc.
Qed.

(** C32: In the SQL text that [sqlite_mprintf] or [sqliteMPrintf] builds, what [%Q] has
    printed for a string is one string token of the tokenizer, unless the text goes on
    with a quote, and [sqliteDequote] turns that token into the string again: no
    string can end the literal early.  The format is any one of [format_ok] around the
    [%Q]; there is memory, and the text is shorter than 2^30 bytes. *)
Theorem quoted_literal (ext : bool) locals h z s l1 l2 :
  let l := l1 ++ percent_Q z s :: l2 in
  mallocs h = [] -> length locals = 1000%nat ->
  format_ok ext h l -> Z.of_nat (length (format_text ext l)) <= 1073741823 ->
  chr (format_text ext l2) <> 39 ->
  returns ((if ext then sqliteMPrintf else sqlite_mprintf) locals (format_chars l) (format_args l))
    (fun r h' => exists p sql slack,
       r = (Some p, []) /\ blocks h' !! p = Some (map Some (sql ++ [0]) ++ slack) /\
       let here := drop (length (format_text ext l1)) sql in
       let '(n, t) := sqliteGetToken here in
       t = TK_STRING /\
       exists junk, sqliteDequote (take (Z.to_nat n) here ++ [0]) = s ++ 0 :: junk ++ [0]) h.
Proof.
  intros l Hm Hl Hok Hmost Hr.
  assert (Hs : cstring s).
  { destruct Hok as [H _]. apply Forall_app in H as [_ [[(_ & _ & _ & _ & _ & Hz & _) _] _]%Forall_cons_1].
    apply Hz. }
  assert (H : forall n g, 0 < n -> returns (with_array n (fun zBuf =>
      base_vprintf locals (Some g) ext zBuf n (format_chars l) (format_args l)))
    (fun r h' => exists p sql slack,
       r = (Some p, []) /\ blocks h' !! p = Some (map Some (sql ++ [0]) ++ slack) /\
       let here := drop (length (format_text ext l1)) sql in
       let '(n, t) := sqliteGetToken here in
       t = TK_STRING /\
       exists junk, sqliteDequote (take (Z.to_nat n) here ++ [0]) = s ++ 0 :: junk ++ [0]) h).
  { intros n g Hn. eapply returns_mono; [by apply mprintf_returns|].
    intros r h' (p & slack & -> & _ & _ & E). exists p, (format_text ext l), slack.
    split; [done|]. split; [by rewrite E, lookup_insert_eq|].
    unfold l. rewrite percent_Q_text, drop_app_length. cbv zeta.
    rewrite quoted_token by done. split; [done|].
    rewrite Nat2Z.id, take_app_length. by apply quoted_dequote. }
  destruct ext; by apply H.
Qed.

(** [INSERT INTO t VALUES(%Q)] with the string [it's]. *)
Lemma quoted_literal_witness :
  let l1 := [Lit (bytes_of_string "INSERT INTO t VALUES(")] in
  let s := bytes_of_string "it's" in
  let l := l1 ++ percent_Q (Const s) s :: [Lit (bytes_of_string ")")] in
  format_chars l = bytes_of_string "INSERT INTO t VALUES(%Q)" /\
  returns (sqlite_mprintf (replicate 1000 0) (format_chars l) (format_args l))
    (fun r h' => exists p sql slack,
       r = (Some p, []) /\ blocks h' !! p = Some (map Some (sql ++ [0]) ++ slack) /\
       let here := drop (length (format_text false l1)) sql in
       let '(n, t) := sqliteGetToken here in
       t = TK_STRING /\
       exists junk, sqliteDequote (take (Z.to_nat n) here ++ [0]) = s ++ 0 :: junk ++ [0]) (mkMem ∅ [] 0).
Proof.
  intros l1 s l. split; [reflexivity|].
  apply (quoted_literal false (replicate 1000 0) (mkMem ∅ [] 0) (Const s) s l1 [Lit (bytes_of_string ")")]);
    [reflexivity|apply length_replicate| |done|done].
  split; [|done].
  unfold item_ok, number_ok, letter_ok, points_to_str, cstring, cchar, standard, standard_field, standard_text.
  repeat apply Forall_cons_2; try apply Forall_nil_2; cbn; repeat split;
    repeat apply Forall_cons_2; try apply Forall_nil_2; try done; try lia; by (left + right).
Defined.

(** * Runs the code does not expect *)

Definition run_mprintf (mallocs : list bool) (fmt : list Z) (args : list arg) : option (list (option Z)) :=
  match sqlite_mprintf (replicate 1000 0) fmt args (mkMem ∅ mallocs 0) with
  | Done (Some p, _) h => blocks h !! p
  | _ => None
  end.

Definition str_arg (s : String.string) : arg := AStr (Some (Const (bytes_of_string s))).
Arguments str_arg _%_string_scope.

(** The precision of [%q] counts the doubled quotes and can cut between the two. *)
Example precision_cuts_escape :
  run_mprintf [] (bytes_of_string "'%.2q'") [str_arg "a'"] = Some (map Some (bytes_of_string "'a''" ++ [0])).
Proof. vm_compute. reflexivity. Qed.

(** An unknown conversion puts out a percent sign, a NUL and the field before it. *)
Example unknown_conversion_repeats :
  run_mprintf [] (bytes_of_string "%s%y") [str_arg "ab"] = Some (map Some [97; 98; 37; 0; 97; 98; 0]).
Proof. vm_compute. reflexivity. Qed.

(** With text in between, it reads as many bytes of the format as the field was long. *)
Example unknown_conversion_overrun :
  sqlite_mprintf (replicate 1000 0) (bytes_of_string "%s,%y") [str_arg "a long string"] (mkMem ∅ [] 0) = Stuck.
Proof. vm_compute. reflexivity. Qed.

(** A [%f] that is too long for [buf] goes to the code for [%e], whose letter is taken
    from a NULL [charset]. *)
Example long_float_null :
  sqlite_mprintf (replicate 1000 0) (bytes_of_string "%.700f")
    [ADouble (S754_finite false 6723909169344563 (944))] (mkMem ∅ [] 0) = Stuck.
Proof. vm_compute. reflexivity. Qed.

(** Infinity is printed as NaN. *)
Example infinity_text :
  run_mprintf [] (bytes_of_string "%g") [ADouble (S754_infinity false)] = Some (map Some (bytes_of_string "NaN" ++ [0])).
Proof. vm_compute. reflexivity. Qed.

(** A [%u] of a negative [int] prints 64 bits. *)
Example negative_unsigned :
  run_mprintf [] (bytes_of_string "%u") [AInt (-1)] =
    Some (map Some (bytes_of_string "18446744073709551615" ++ [0])).
Proof. vm_compute. reflexivity. Qed.

(** Where [sprintf] differs: it ignores the flag [0] with [-] or a precision, prints
    nothing for a zero with the precision 0, counts the prefix of [%#08x] in the width,
    and takes a negative precision argument as none. *)
Example zero_flag_left :
  run_mprintf [] (bytes_of_string "%-05d|%05.3d") [AInt 42; AInt 42] =
    Some (map Some (bytes_of_string "00042|00042" ++ [0])).
Proof. vm_compute. reflexivity. Qed.

Example zero_precision_zero :
  run_mprintf [] (bytes_of_string "%.0d") [AInt 0] = Some (map Some (bytes_of_string "0" ++ [0])).
Proof. vm_compute. reflexivity. Qed.

Example prefix_beyond_width :
  run_mprintf [] (bytes_of_string "%#08x") [AInt 66] = Some (map Some (bytes_of_string "0x00000042" ++ [0])).
Proof. vm_compute. reflexivity. Qed.

Example negative_precision :
  run_mprintf [] (bytes_of_string "%.*s") [AInt (-2); str_arg "abc"] =
    Some (map Some (bytes_of_string "ab" ++ [0])).
Proof. vm_compute. reflexivity. Qed.

(** Without memory for the result, the text is copied to address 0. *)
Example no_memory_for_result :
  sqlite_mprintf (replicate 1000 0) (bytes_of_string "abc") [] (mkMem ∅ [false] 0) = Stuck.
Proof. vm_compute. reflexivity. Qed.

(** When the string cannot grow, but there is memory again at the end, the result is a
    block that was never written, without a terminator. *)
Example unwritten_result :
  run_mprintf [false] (bytes_of_string "%190d%20d") [AInt 1; AInt 2] = Some (replicate 191 None).
Proof. vm_compute. reflexivity. Qed.
