(* ===== verification/Hash.v ===== *)
(** The hash table of [hash.c]: elements on one doubly-linked list, buckets that
    point into it.  The elements live in a store of addresses, so that the links,
    the bucket pointers and the freed elements are the code's.  A key is the list of
    the bytes [pKey] points to with its length; the table of a class that copies its
    keys owns them, the others rely on the caller not to change them. *)
From S2P Require Import Prelude Util.

(** * Data *)

Definition SQLITE_HASH_INT : Z := 1.
Definition SQLITE_HASH_STRING : Z := 3.
Definition SQLITE_HASH_BINARY : Z := 4.

Definition addr : Type := positive.

Record HashElem := mkElem {
  next : option addr; prev : option addr;
  data : Z;                      (* a pointer, 0 for NULL *)
  pKey : list Z; nKey : Z
}.

Record bucket := mkBucket { bcount : Z; chain : option addr }.

Record Hash := mkHash {
  keyClass : Z; copyKey : bool; count : Z; first : option addr; htsize : Z;
  ht : list bucket               (* the empty list stands for NULL *)
}.

(** A hash table with the store its elements are in, and the results of the calls
    of [sqliteMalloc] to come: [false] is a NULL; when the list runs out, every call
    succeeds. *)
Record HW := mkHW { tbl : Hash; heap : gmap addr HashElem; mallocs : list bool }.

Definition set_next (v : option addr) (x : HashElem) : HashElem :=
  mkElem v (prev x) (data x) (pKey x) (nKey x).
Definition set_prev (v : option addr) (x : HashElem) : HashElem :=
  mkElem (next x) v (data x) (pKey x) (nKey x).
Definition set_data (v : Z) (x : HashElem) : HashElem :=
  mkElem (next x) (prev x) v (pKey x) (nKey x).

Definition set_count (v : Z) (h : Hash) : Hash :=
  mkHash (keyClass h) (copyKey h) v (first h) (htsize h) (ht h).
Definition set_first (v : option addr) (h : Hash) : Hash :=
  mkHash (keyClass h) (copyKey h) (count h) v (htsize h) (ht h).
Definition set_table (n : Z) (t : list bucket) (h : Hash) : Hash :=
  mkHash (keyClass h) (copyKey h) (count h) (first h) n t.

(** * Access to the store *)

Definition tget {A} (f : Hash -> A) : M HW A := fun w => Done (f (tbl w)) w.
Definition tupd (f : Hash -> Hash) : M HW unit := fun w =>
  Done tt (mkHW (f (tbl w)) (heap w) (mallocs w)).
Definition deref (e : addr) : M HW HashElem := fun w =>
  match heap w !! e with Some x => Done x w | None => Stuck end.
Definition upd_elem (e : addr) (f : HashElem -> HashElem) : M HW unit := fun w =>
  match heap w !! e with
  | Some x => Done tt (mkHW (tbl w) (<[e := f x]> (heap w)) (mallocs w))
  | None => Stuck
  end.
Definition free (e : addr) : M HW unit := fun w =>
  match heap w !! e with
  | Some _ => Done tt (mkHW (tbl w) (delete e (heap w)) (mallocs w))
  | None => Stuck
  end.

(** Whether a call of [sqliteMalloc] succeeds. *)
Definition malloc_ok : M HW bool := fun w =>
  match mallocs w with
  | [] => Done true w
  | b :: bs => Done b (mkHW (tbl w) (heap w) bs)
  end.

(** [sqliteMalloc( sizeof(HashElem) )] gives a zeroed element at a new address. *)
Definition new_elem : M HW (option addr) := fun w =>
  let e := fresh (dom (heap w)) in
  Done (Some e) (mkHW (tbl w) (<[e := mkElem None None 0 [] 0]> (heap w)) (mallocs w)).

Definition malloc_elem : M HW (option addr) :=
  ok ← malloc_ok;
  if ok : bool then new_elem else mret None.

(** [pH->ht[h]] *)
Definition get_bucket (h : Z) : M HW bucket := fun w =>
  match ht (tbl w) !! Z.to_nat h with Some b => Done b w | None => Stuck end.
Definition set_bucket (h : Z) (b : bucket) : M HW unit :=
  tupd (fun t => set_table (htsize t) (<[Z.to_nat h := b]> (ht t)) t).

(** * Keys *)

Definition intHash (pKey : list Z) (nKey : Z) : Z :=
  Z.lxor (Z.lxor nKey (wrap32 (Z.shiftl nKey 8))) (Z.shiftr nKey 8).
Definition intCompare (pKey1 : list Z) (n1 : Z) (pKey2 : list Z) (n2 : Z) : Z := wrap32 (n2 - n1).

Definition strHash (pKey : list Z) (nKey : Z) : Z := sqliteHashNoCase pKey nKey.
Definition strCompare (pKey1 : list Z) (n1 : Z) (pKey2 : list Z) (n2 : Z) : Z :=
  if negb (n1 =? n2) then wrap32 (n2 - n1) else sqliteStrNICmp pKey1 pKey2 n1.

(** A [char] is signed. *)
Definition signed_char (c : Z) : Z := if c <? 128 then c else c - 256.

Fixpoint binHash_loop (n : nat) (h : Z) (z : list Z) : Z :=
  match n with
  | O => h
  | S n' =>
      binHash_loop n' (Z.lxor (Z.lxor (wrap32 (Z.shiftl h 3)) h) (signed_char (chr z))) (tail z)
  end.
Definition binHash (pKey : list Z) (nKey : Z) : Z :=
  Z.land (binHash_loop (Z.to_nat nKey) 0 pKey) 2147483647.
Definition binCompare (pKey1 : list Z) (n1 : Z) (pKey2 : list Z) (n2 : Z) : Z :=
  if negb (n1 =? n2) then wrap32 (n2 - n1) else memcmp pKey1 pKey2 (Z.to_nat n1).

Definition hashFunction (keyClass : Z) : option (list Z -> Z -> Z) :=
  if keyClass =? SQLITE_HASH_INT then Some intHash
  else if keyClass =? SQLITE_HASH_STRING then Some strHash
  else if keyClass =? SQLITE_HASH_BINARY then Some binHash
  else None.

Definition compareFunction (keyClass : Z) : option (list Z -> Z -> list Z -> Z -> Z) :=
  if keyClass =? SQLITE_HASH_INT then Some intCompare
  else if keyClass =? SQLITE_HASH_STRING then Some strCompare
  else if keyClass =? SQLITE_HASH_BINARY then Some binCompare
  else None.

(** Calling through one of the function pointers; a NULL one is not called. *)
Definition xHash (p : list Z) (n : Z) : M HW Z :=
  c ← tget keyClass;
  match hashFunction c with Some f => mret (f p n) | None => mstuck end.
Definition xCompare (p1 : list Z) (n1 : Z) (p2 : list Z) (n2 : Z) : M HW Z :=
  c ← tget keyClass;
  match compareFunction c with Some f => mret (f p1 n1 p2 n2) | None => mstuck end.

(** * Operations *)

Definition sqliteHashInit (keyClass : Z) (copy : bool) : option Hash :=
  if (SQLITE_HASH_INT <=? keyClass) && (keyClass <=? SQLITE_HASH_BINARY) then
    Some (mkHash keyClass
      (copy && ((keyClass =? SQLITE_HASH_STRING) || (keyClass =? SQLITE_HASH_BINARY))) 0 None 0 [])
  else None.

(** The loop of [sqliteHashClear]; the fuel is the number of elements there are. *)
Fixpoint clear_loop (fuel : nat) (elem : option addr) : M HW unit :=
  match elem with
  | None => mret tt
  | Some e =>
      match fuel with
      | O => mstuck
      | S fuel' => x ← deref e; free e;; clear_loop fuel' (next x)
      end
  end.

Definition sqliteHashClear : M HW unit :=
  elem ← tget first;
  tupd (set_first None);;
  tupd (set_table 0 []);;
  w ← mget;
  clear_loop (size (heap w)) elem;;
  tupd (set_count 0).

(** Put the element [e] in front of the first element [x] of its bucket, or in front
    of the whole list when the bucket is empty. *)
Definition link_elem (e : addr) (x : option addr) : M HW unit :=
  match x with
  | Some x =>
      b ← deref x;
      upd_elem e (set_next (Some x));;
      upd_elem e (set_prev (prev b));;
      match prev b with
      | Some q => upd_elem q (set_next (Some e))
      | None => tupd (set_first (Some e))
      end;;
      upd_elem x (set_prev (Some e))
  | None =>
      f ← tget first;
      upd_elem e (set_next f);;
      match f with
      | Some q => upd_elem q (set_prev (Some e))
      | None => mret tt
      end;;
      upd_elem e (set_prev None);;
      tupd (set_first (Some e))
  end.

(** Link an element and enter it into its bucket. *)
Definition enter_bucket (e : addr) (h : Z) : M HW unit :=
  b ← get_bucket h;
  link_elem e (chain b);;
  b ← get_bucket h;
  set_bucket h (mkBucket (bcount b + 1) (Some e)).

Fixpoint rehash_loop (fuel : nat) (new_size : Z) (elem : option addr) : M HW unit :=
  match elem with
  | None => mret tt
  | Some e =>
      match fuel with
      | O => mstuck
      | S fuel' =>
          x ← deref e;
          hraw ← xHash (pKey x) (nKey x);
          enter_bucket e (Z.land hraw (new_size - 1));;
          rehash_loop fuel' new_size (next x)
      end
  end.

Definition rehash (new_size : Z) : M HW unit :=
  assert (Z.land new_size (new_size - 1) =? 0);;
  ok ← malloc_ok;
  if negb ok then mret tt else
  tupd (set_table new_size (replicate (Z.to_nat new_size) (mkBucket 0 None)));;
  elem ← tget first;
  tupd (set_first None);;
  w ← mget;
  rehash_loop (size (heap w)) new_size elem.

(** The search of [findElementGivenHash]; [n] is what is left of the bucket's count. *)
Fixpoint find_loop (n : nat) (elem : option addr) (p : list Z) (k : Z) : M HW (option addr) :=
  match n, elem with
  | S n', Some e =>
      x ← deref e;
      c ← xCompare (pKey x) (nKey x) p k;
      if c =? 0 then mret (Some e) else find_loop n' (next x) p k
  | _, _ => mret None
  end.

Definition findElementGivenHash (p : list Z) (k h : Z) : M HW (option addr) :=
  t ← tget ht;
  match t with
  | [] => mret None
  | _ => b ← get_bucket h; find_loop (Z.to_nat (bcount b)) (chain b) p k
  end.

Definition removeElementGivenHash (e : addr) (h : Z) : M HW unit :=
  x ← deref e;
  match prev x with
  | Some q => upd_elem q (set_next (next x))
  | None => tupd (set_first (next x))
  end;;
  match next x with
  | Some q => upd_elem q (set_prev (prev x))
  | None => mret tt
  end;;
  b ← get_bucket h;
  mwhen (bool_decide (chain b = Some e)) (set_bucket h (mkBucket (bcount b) (next x)));;
  b ← get_bucket h;
  set_bucket h (mkBucket (bcount b - 1) (chain b));;
  b ← get_bucket h;
  mwhen (bcount b <=? 0) (set_bucket h (mkBucket (bcount b) None));;
  free e;;
  c ← tget count;
  tupd (set_count (c - 1)).

Definition sqliteHashFind (p : list Z) (k : Z) : M HW Z :=
  t ← tget ht;
  match t with
  | [] => mret 0
  | _ =>
      hraw ← xHash p k;
      size ← tget htsize;
      assert (Z.land size (size - 1) =? 0);;
      e ← findElementGivenHash p k (Z.land hraw (size - 1));
      match e with
      | Some e => x ← deref e; mret (data x)
      | None => mret 0
      end
  end.

(** The part of [sqliteHashInsert] after the key was not found. *)
Definition insert_new (p : list Z) (k hraw d : Z) : M HW Z :=
  e ← malloc_elem;
  match e with
  | None => mret d
  | Some e =>
      copy ← tget copyKey;
      ok ← (if copy : bool then malloc_ok else mret true);
      if negb ok then free e;; mret d else
      upd_elem e (fun x => mkElem (next x) (prev x) (data x) p k);;
      c ← tget count;
      tupd (set_count (c + 1));;
      size ← tget htsize;
      mwhen (size =? 0) (rehash 8);;
      size ← tget htsize;
      if size =? 0 then
        tupd (set_count 0);; free e;; mret d
      else
        c ← tget count;
        mwhen (size <? c) (rehash (size * 2));;
        size ← tget htsize;
        assert (Z.land size (size - 1) =? 0);;
        enter_bucket e (Z.land hraw (size - 1));;
        upd_elem e (set_data d);;
        mret 0
  end.

Definition sqliteHashInsert (p : list Z) (k d : Z) : M HW Z :=
  hraw ← xHash p k;
  size ← tget htsize;
  assert (Z.land size (size - 1) =? 0);;
  elem ← findElementGivenHash p k (Z.land hraw (size - 1));
  match elem with
  | Some e =>
      x ← deref e;
      (if d =? 0 then removeElementGivenHash e (Z.land hraw (size - 1))
       else upd_elem e (set_data d));;
      mret (data x)
  | None => if d =? 0 then mret 0 else insert_new p k hraw d
  end.
