(* ===== verification/HashKey.v ===== *)
(** What the hash table asks of a key class, as an interface, and the three classes
    of [hash.c] that provide it. *)
From S2P Require Import Prelude Util Hash.

(** Keys of the class [c] are equal when [norm] makes them the same; the comparison
    function decides that, and the hash function respects it. *)
Class KeyClass (c : Z) := {
  key_ok : list Z -> Z -> Prop;
  norm : list Z -> Z -> list Z;
  kc_hash : list Z -> Z -> Z;
  kc_compare : list Z -> Z -> list Z -> Z -> Z;
  kc_hash_eq : hashFunction c = Some kc_hash;
  kc_compare_eq : compareFunction c = Some kc_compare;
  kc_compare_norm p n q m : key_ok p n -> key_ok q m ->
    kc_compare p n q m = 0 <-> norm p n = norm q m;
  kc_hash_norm p n q m : key_ok p n -> key_ok q m ->
    norm p n = norm q m -> kc_hash p n = kc_hash q m
}.
Arguments key_ok c {_} _ _.
Arguments norm c {_} _ _.
Arguments kc_hash c {_} _ _.
Arguments kc_compare c {_} _ _ _ _.
#[global] Hint Mode KeyClass + : typeclass_instances.

(** The lengths of C objects. *)
Definition key_size (p : list Z) (n : Z) : Prop := 0 <= n < 2147483648 /\ length p = Z.to_nat n.

Lemma wrap32_diff a b :
  is_int32 a -> is_int32 b -> wrap32 (b - a) = 0 <-> a = b.
Proof.
  unfold is_int32, wrap32. intros. split; [|intros ->; replace (b - b) with 0 by lia; done].
  intros E.
  assert (H1 : (b - a + 2147483648) mod 4294967296 = 2147483648) by lia.
  pose proof (Z.div_mod (b - a + 2147483648) 4294967296). lia.
Qed.

Lemma key_size_int32 p n : key_size p n -> is_int32 n.
Proof. unfold key_size, is_int32. lia. Qed.

#[export] Program Instance int_keys : KeyClass SQLITE_HASH_INT := {|
  key_ok := fun _ n => is_int32 n;
  norm := fun _ n => [n];
  kc_hash := intHash;
  kc_compare := intCompare
|}.
Next Obligation. done. Qed.
Next Obligation. done. Qed.
Next Obligation.
  intros p n q m Hn Hm. unfold intCompare. rewrite wrap32_diff by done.
  split; [by intros ->|by intros [= ->]].
Qed.
Next Obligation. intros p n q m _ _ [= ->]. done. Qed.

#[export] Program Instance string_keys : KeyClass SQLITE_HASH_STRING := {|
  key_ok := fun p n => key_size p n /\ 0 < n /\ nocase_key p;
  norm := fun p _ => map lower p;
  kc_hash := strHash;
  kc_compare := strCompare
|}.
Next Obligation. done. Qed.
Next Obligation. done. Qed.
Next Obligation.
  intros p n q m (Sp & Hn & Kp) (Sq & Hm & Kq). unfold strCompare.
  destruct (Z.eqb_spec n m) as [->|Hne]; cbn [negb].
  - unfold sqliteStrNICmp. destruct Sp as [_ Lp], Sq as [_ Lq]. by apply strnicmp_zero.
  - rewrite wrap32_diff by (by eapply key_size_int32). split; [done|].
    intros E%(f_equal length). rewrite !length_map in E. destruct Sp, Sq. lia.
Qed.
Next Obligation.
  intros p n q m (Sp & Hn & Kp) (Sq & Hm & Kq) E.
  assert (n = m) as <-.
  { apply (f_equal length) in E. rewrite !length_map in E. destruct Sp, Sq. lia. }
  unfold strHash, sqliteHashNoCase. destruct (Z.leb_spec n 0); [lia|]. f_equal.
  apply hash_loop_ext. destruct Sp, Sq. by rewrite !take_ge by lia.
Qed.

Lemma memcmp_zero n : forall a b, length a = n -> length b = n -> memcmp a b n = 0 <-> a = b.
Proof.
  induction n as [|n IH]; intros a b Ha Hb; [by destruct a, b|].
  destruct a as [|c a], b as [|d b]; try done. cbn [memcmp chr tail].
  destruct (Z.eqb_spec c d) as [->|Hne].
  - rewrite IH by (simpl in *; lia). split; [by intros ->|by intros [= ->]].
  - split; [lia|by intros [= ? _]].
Qed.

#[export] Program Instance binary_keys : KeyClass SQLITE_HASH_BINARY := {|
  key_ok := key_size;
  norm := fun p _ => p;
  kc_hash := binHash;
  kc_compare := binCompare
|}.
Next Obligation. done. Qed.
Next Obligation. done. Qed.
Next Obligation.
  intros p n q m Sp Sq. unfold binCompare.
  destruct (Z.eqb_spec n m) as [->|Hne]; cbn [negb].
  - destruct Sp, Sq. by apply memcmp_zero.
  - rewrite wrap32_diff by (by eapply key_size_int32). split; [done|].
    intros ->. destruct Sp, Sq. lia.
Qed.
Next Obligation.
  intros p n q m [Hn Lp] [Hm Lq] ->. rewrite Lp in Lq. by replace m with n by lia.
Qed.
