(* ===== verification/HashList.v ===== *)
(** The doubly-linked list of the hash table: what it means that the store holds a
    list of elements, and what linking and unlinking an element does to it. *)
From S2P Require Import Prelude Util Hash.

(** * Splits of lists *)

Lemma split_app {A} (a r l1 l2 : list A) (y : A) :
  a ++ r = l1 ++ y :: l2 ->
  (exists a', a = l1 ++ y :: a' /\ l2 = a' ++ r) \/ (exists a', l1 = a ++ a' /\ r = a' ++ y :: l2).
Proof.
  revert l1. induction a as [|c a IH]; intros l1 H; [right; by exists l1|].
  destruct l1 as [|d l1]; simpl in H.
  - injection H as -> <-. left. by exists a.
  - injection H as -> H. apply IH in H as [(a' & -> & ->)|(a' & -> & ->)]; [left|right]; by exists a'.
Qed.

Lemma last_in {A} (l : list A) y : last l = Some y -> y ∈ l.
Proof. intros (l' & ->)%last_Some. set_solver. Qed.

Lemma head_in {A} (l : list A) y : head l = Some y -> y ∈ l.
Proof. destruct l; [done|]. intros [= ->]. set_solver. Qed.

Lemma nodup_mid {A} (a b : list A) y : NoDup (a ++ y :: b) -> y ∉ a /\ y ∉ b /\ NoDup (a ++ b).
Proof.
  rewrite NoDup_app, NoDup_cons, NoDup_app. intros (Ha & Hd & Hy & Hb).
  split; [|split; [done|]]; [intros H; apply (Hd y H); set_solver|].
  split; [done|]. split; [|done]. intros x Hx. specialize (Hd x Hx). set_solver.
Qed.

Lemma nodup_split {A} (a b a' b' : list A) y :
  NoDup (a ++ y :: b) -> a ++ y :: b = a' ++ y :: b' -> a = a' /\ b = b'.
Proof.
  intros (Ha & Hb & _)%nodup_mid E. apply split_app in E as [(r & -> & _)|(r & -> & E)]; [set_solver|].
  destruct r as [|z r]; [injection E as ->; by rewrite app_nil_r|]. injection E as -> ->. set_solver.
Qed.

(** * Elements in the store *)

Section Linked.
(** The key of each element. *)
Context (κ : addr -> list Z * Z).

Definition elem_at (hp : gmap addr HashElem) (e : addr) (n p : option addr) : Prop :=
  exists x, hp !! e = Some x /\ next x = n /\ prev x = p /\ (pKey x, nKey x) = κ e.

Definition linked (hp : gmap addr HashElem) (l : list addr) : Prop :=
  forall l1 e l2, l = l1 ++ e :: l2 -> elem_at hp e (head l2) (last l1).

(** Only the links forward. *)
Definition forward (hp : gmap addr HashElem) (l : list addr) : Prop :=
  forall l1 e l2, l = l1 ++ e :: l2 -> exists p, elem_at hp e (head l2) p.

Lemma linked_forward hp l : linked hp l -> forward hp l.
Proof. intros H l1 e l2 ->. eexists. by apply H. Qed.

Lemma forward_cons hp e l : forward hp (e :: l) ->
  (exists p, elem_at hp e (head l) p) /\ forward hp l.
Proof. intros H. split; [by apply (H [])|]. intros l1 y l2 ->. by apply (H (e :: l1)). Qed.

Lemma forward_ext hp hp' l : (forall e, e ∈ l -> hp' !! e = hp !! e) -> forward hp l -> forward hp' l.
Proof.
  intros He H l1 e l2 ->. destruct (H l1 e l2 eq_refl) as (p & x & Hx & ?).
  exists p, x. rewrite He by set_solver. done.
Qed.

(** What changes at [y] when the elements around a place in the list, [a] before
    it and [b] behind it, get new neighbours. *)
Definition adjust (a b : list addr) (n p : option addr) (y : addr) (x : HashElem) : HashElem :=
  if decide (last a = Some y) then set_next n x
  else if decide (head b = Some y) then set_prev p x else x.

Lemma adjust_key a b n p y x : (pKey (adjust a b n p y x), nKey (adjust a b n p y x)) = (pKey x, nKey x).
Proof. unfold adjust. repeat case_decide; done. Qed.
Lemma adjust_data a b n p y x : data (adjust a b n p y x) = data x.
Proof. unfold adjust. repeat case_decide; done. Qed.

(** The elements of [a] and of [b] after such a change. *)
Lemma adjusted_before hp hp' a b l1 y a' old n p :
  a = l1 ++ y :: a' -> NoDup (a ++ b) ->
  elem_at hp y (head (a' ++ old)) (last l1) ->
  hp' !! y = adjust a b n p y <$> hp !! y ->
  elem_at hp' y (if a' then n else head a') (last l1).
Proof.
  intros -> Hnd (x & Hx & Hn & Hp & Hk) E. rewrite Hx in E. eexists. split; [exact E|].
  rewrite adjust_key. unfold adjust. destruct a' as [|z a'].
  - rewrite decide_True by (by rewrite last_snoc). done.
  - rewrite decide_False.
    2: { intros Hl. rewrite last_app_cons, last_cons_cons in Hl. apply last_in in Hl.
         rewrite <-app_assoc in Hnd. cbn [app] in Hnd. apply nodup_mid in Hnd as (_ & Hy & _).
         set_solver. }
    rewrite decide_False; [done|].
    intros Hh%head_in. rewrite <-app_assoc in Hnd. cbn [app] in Hnd.
    apply nodup_mid in Hnd as (_ & Hy & _). set_solver.
Qed.

Lemma adjusted_behind hp hp' a b b' y l2 old n p :
  b = b' ++ y :: l2 -> NoDup (a ++ b) ->
  elem_at hp y (head l2) (last (old ++ b')) ->
  hp' !! y = adjust a b n p y <$> hp !! y ->
  elem_at hp' y (head l2) (if b' then p else last b').
Proof.
  intros -> Hnd (x & Hx & Hn & Hp & Hk) E. rewrite Hx in E. eexists. split; [exact E|].
  rewrite adjust_key. unfold adjust.
  rewrite decide_False.
  2: { intros Hl%last_in. rewrite app_assoc in Hnd. apply nodup_mid in Hnd as (Hy & _). set_solver. }
  destruct b' as [|z b']; [by rewrite decide_True|].
  rewrite decide_False; [|].
  - rewrite last_app_cons in Hp. done.
  - intros [= ->]. rewrite app_assoc in Hnd. apply nodup_mid in Hnd as (Hy & _). set_solver.
Qed.

Lemma linked_insert hp hp' a b e :
  linked hp (a ++ b) -> NoDup (a ++ b) ->
  elem_at hp' e (head b) (last a) ->
  (forall y, y ∈ a ++ b -> hp' !! y = adjust a b (Some e) (Some e) y <$> hp !! y) ->
  linked hp' (a ++ e :: b).
Proof.
  intros Hl Hnd He Ho l1 y l2 H. apply split_app in H as [(a' & Ha & ->)|(a' & -> & H)].
  - assert (Hy : elem_at hp y (head (a' ++ b)) (last l1)).
    { apply Hl. rewrite Ha, <-app_assoc. done. }
    pose proof (adjusted_before hp hp' a b l1 y a' b (Some e) (Some e) Ha Hnd Hy) as R.
    destruct a'; apply R, Ho; rewrite Ha; set_solver.
  - destruct a' as [|z a']; simpl in H; injection H as <- H; [subst; by rewrite app_nil_r|].
    assert (Hy : elem_at hp y (head l2) (last (a ++ a'))).
    { apply Hl. rewrite H, <-app_assoc. done. }
    pose proof (adjusted_behind hp hp' a b a' y l2 a (Some e) (Some e) H Hnd Hy) as R.
    rewrite last_app_cons. destruct a'; [|rewrite last_cons_cons]; apply R, Ho; rewrite H; set_solver.
Qed.

Lemma linked_remove hp hp' a b e :
  linked hp (a ++ e :: b) -> NoDup (a ++ e :: b) ->
  (forall y, y ∈ a ++ b -> hp' !! y = adjust a b (head b) (last a) y <$> hp !! y) ->
  linked hp' (a ++ b).
Proof.
  intros Hl Hnd Ho l1 y l2 H. apply nodup_mid in Hnd as (_ & _ & Hnd).
  apply split_app in H as [(a' & Ha & ->)|(a' & -> & H)].
  - assert (Hy : elem_at hp y (head (a' ++ e :: b)) (last l1)).
    { apply Hl. rewrite Ha, <-app_assoc. done. }
    pose proof (adjusted_before hp hp' a b l1 y a' _ (head b) (last a) Ha Hnd Hy) as R.
    destruct a'; apply R, Ho; rewrite Ha; set_solver.
  - assert (Hy : elem_at hp y (head l2) (last ((a ++ [e]) ++ a'))).
    { apply Hl. rewrite H, <-!app_assoc. done. }
    pose proof (adjusted_behind hp hp' a b a' y l2 _ (head b) (last a) H Hnd Hy) as R.
    destruct a' as [|z a']; [rewrite app_nil_r|rewrite last_app_cons];
      apply R, Ho; rewrite H; set_solver.
Qed.
End Linked.
