(* ===== verification/HashSpec.v ===== *)
(** The chains of the hash table: the invariant that makes every bucket a
    contiguous part of the doubly-linked list, and what entering, rehashing,
    searching and removing elements do to it. *)
From S2P Require Import Prelude Util Hash HashKey HashList.

(** * Stepping through the code *)

Lemma wp_tget {A} (f : Hash -> A) Q C w : Q (f (tbl w)) w -> wp (tget f) Q C w.
Proof. done. Qed.
Lemma wp_tupd f (Q : unit -> HW -> Prop) C w :
  Q tt (mkHW (f (tbl w)) (heap w) (mallocs w)) -> wp (tupd f) Q C w.
Proof. done. Qed.
Lemma wp_deref e x Q C w : heap w !! e = Some x -> Q x w -> wp (deref e) Q C w.
Proof. unfold wp, deref. by intros ->. Qed.
Lemma wp_upd_elem e f x (Q : unit -> HW -> Prop) C w : heap w !! e = Some x ->
  Q tt (mkHW (tbl w) (<[e := f x]> (heap w)) (mallocs w)) -> wp (upd_elem e f) Q C w.
Proof. unfold wp, upd_elem. by intros ->. Qed.
Lemma wp_free e x (Q : unit -> HW -> Prop) C w : heap w !! e = Some x ->
  Q tt (mkHW (tbl w) (delete e (heap w)) (mallocs w)) -> wp (free e) Q C w.
Proof. unfold wp, free. by intros ->. Qed.
Lemma wp_get_bucket h b Q C w : ht (tbl w) !! Z.to_nat h = Some b -> Q b w -> wp (get_bucket h) Q C w.
Proof. unfold wp, get_bucket. by intros ->. Qed.
Lemma wp_mget Q C (w : HW) : Q w w -> wp mget Q C w.
Proof. done. Qed.

Ltac hstep :=
  match goal with
  | |- wp (_ ≫= _) _ _ _ => apply wp_bind
  | |- wp (mret _) _ _ _ => apply wp_ret
  | |- wp (tget _) _ _ _ => apply wp_tget
  | |- wp (tupd _) _ _ _ => apply wp_tupd
  | |- wp (set_bucket _ _) _ _ _ => apply wp_tupd
  | |- wp mget _ _ _ => apply wp_mget
  end; cbn [tbl heap mallocs].
Ltac hsteps := repeat hstep.

(** * Buckets *)

(** The bucket of a key in a table of [size] buckets, [size] a power of two. *)
Definition masked (h size : Z) : Z := Z.land h (size - 1).

Lemma masked_range h k : 0 <= k -> 0 <= masked h (2 ^ k) < 2 ^ k.
Proof.
  intros Hk. unfold masked. replace (2 ^ k - 1) with (Z.ones k) by (rewrite Z.ones_equiv; lia).
  rewrite Z.land_ones by done. apply Z.mod_pos_bound. lia.
Qed.

Lemma power_mask k : 0 <= k -> Z.land (2 ^ k) (2 ^ k - 1) = 0.
Proof.
  intros Hk. replace (2 ^ k - 1) with (Z.ones k) by (rewrite Z.ones_equiv; lia).
  rewrite Z.land_ones by done. apply Z.mod_same. lia.
Qed.

Section Table.
Context (c : Z) `{KeyClass c}.

(** The key of each element. *)
Implicit Types κ : addr -> list Z * Z.

Definition slot κ (size : Z) (e : addr) : nat := Z.to_nat (masked (kc_hash c (κ e).1 (κ e).2) size).

(** The elements of one bucket. *)
Definition seg κ (size : Z) (h : nat) (l : list addr) : list addr :=
  filter (fun e => slot κ size e = h) l.

(** Each bucket is a contiguous part of the list, counted and pointed to. *)
Definition buckets κ (size : Z) (t : list bucket) (l : list addr) : Prop :=
  forall h b, t !! h = Some b ->
    bcount b = Z.of_nat (length (seg κ size h l)) /\ chain b = head (seg κ size h l) /\
    exists l1 l2, l = l1 ++ seg κ size h l ++ l2.

Lemma seg_app κ size h l1 l2 : seg κ size h (l1 ++ l2) = seg κ size h l1 ++ seg κ size h l2.
Proof. unfold seg. by rewrite filter_app. Qed.

Lemma seg_in κ size h l e : e ∈ seg κ size h l <-> slot κ size e = h /\ e ∈ l.
Proof. unfold seg. by rewrite list_elem_of_filter. Qed.

Lemma seg_cons κ size h e l :
  seg κ size h (e :: l) = if decide (slot κ size e = h) then e :: seg κ size h l else seg κ size h l.
Proof. unfold seg. by rewrite filter_cons. Qed.

Lemma seg_other κ size h a e b : slot κ size e <> h ->
  seg κ size h (a ++ e :: b) = seg κ size h (a ++ b).
Proof. intros He. by rewrite !seg_app, seg_cons, decide_False. Qed.

(** A bucket stays contiguous when an element of another bucket is added in
    front of the list or of an element that is not in the bucket. *)
Lemma contiguous_insert κ size h a e b l1 l2 :
  slot κ size e <> h -> NoDup (a ++ b) ->
  (a = [] \/ exists x b', b = x :: b' /\ slot κ size x <> h) ->
  a ++ b = l1 ++ seg κ size h (a ++ b) ++ l2 ->
  exists l1 l2, a ++ e :: b = l1 ++ seg κ size h (a ++ e :: b) ++ l2.
Proof.
  intros He Hnd Hc E. rewrite seg_other by done.
  assert (Hs : forall x, slot κ size x <> h -> x ∉ seg κ size h (a ++ b)) by (intros x Hx; by rewrite seg_in; intros [? _]).
  set (s := seg κ size h (a ++ b)) in *. clearbody s.
  destruct Hc as [->|(x & b' & -> & Hx)].
  - exists (e :: l1), l2. simpl in *. by rewrite <-E.
  - apply Hs in Hx. symmetry in E. apply split_app in E as [(r & -> & ->)|(r & -> & E)].
    + exists (a ++ e :: x :: r), l2. by rewrite <-app_assoc.
    + apply split_app in E as [(r' & -> & _)|(r' & -> & ->)]; [set_solver|].
      exists l1, (r' ++ e :: x :: b'). by rewrite <-!app_assoc.
Qed.

Lemma contiguous_remove κ size h a e b l1 l2 :
  slot κ size e <> h ->
  a ++ e :: b = l1 ++ seg κ size h (a ++ e :: b) ++ l2 ->
  exists l1 l2, a ++ b = l1 ++ seg κ size h (a ++ b) ++ l2.
Proof.
  intros He E. rewrite seg_other in E by done.
  assert (Hs : e ∉ seg κ size h (a ++ b)) by (by rewrite seg_in; intros [? _]).
  set (s := seg κ size h (a ++ b)) in *. clearbody s.
  symmetry in E. apply split_app in E as [(r & -> & ->)|(r & -> & E)].
  - exists (a ++ r), l2. by rewrite <-app_assoc.
  - apply split_app in E as [(r' & -> & _)|(r' & -> & ->)]; [set_solver|].
    exists l1, (r' ++ b). by rewrite <-!app_assoc.
Qed.

(** The elements of a bucket that is a part of the list. *)
Lemma seg_middle κ size h l1 s l2 :
  NoDup (l1 ++ s ++ l2) -> s = seg κ size h (l1 ++ s ++ l2) ->
  seg κ size h l1 = [] /\ seg κ size h s = s /\ seg κ size h l2 = [].
Proof.
  intros Hnd E.
  assert (Hin : forall l, (forall e, e ∈ l -> e ∈ l1 ++ s ++ l2 /\ e ∉ s) -> seg κ size h l = []).
  { intros l Hl. destruct (seg κ size h l) as [|e q] eqn:Eq; [done|].
    assert (He : e ∈ seg κ size h l) by (rewrite Eq; set_solver).
    apply seg_in in He as [Hh He]. destruct (Hl e He) as [Hi Hn]. destruct Hn. rewrite E.
    by apply seg_in. }
  apply NoDup_app in Hnd as (_ & H1 & Hnd). apply NoDup_app in Hnd as (_ & H2 & _).
  split; [|split].
  - apply Hin. intros e He. specialize (H1 e He). set_solver.
  - unfold seg. apply filter_all, Forall_forall. intros e He. rewrite E in He.
    by apply seg_in in He as [? _].
  - apply Hin. intros e He. split; [set_solver|]. intros Hs. by apply (H2 e Hs).
Qed.

(** * What the operations leave alone *)

(** The elements outside [S] are unchanged, and the others keep their data and
    keys; so do the fields of the table that are not part of the chains. *)
Record quiet (S : list addr) (w w' : HW) : Prop := {
  q_class : keyClass (tbl w') = keyClass (tbl w);
  q_copy : copyKey (tbl w') = copyKey (tbl w);
  q_count : count (tbl w') = count (tbl w);
  q_out : forall y, y ∉ S -> heap w' !! y = heap w !! y;
  q_data : forall y, data <$> heap w' !! y = data <$> heap w !! y
}.

Lemma quiet_refl S w : quiet S w w.
Proof. done. Qed.

Lemma quiet_trans S w1 w2 w3 : quiet S w1 w2 -> quiet S w2 w3 -> quiet S w1 w3.
Proof.
  intros [] []. split; try congruence.
  intros y Hy. rewrite q_out1, q_out0; done.
Qed.

Lemma quiet_mono S S' w w' : (forall y, y ∈ S -> y ∈ S') -> quiet S w w' -> quiet S' w w'.
Proof. intros HS []. split; auto. Qed.

(** The heap after the neighbours of a place were adjusted. *)
Lemma adjusted_data a b n p (hp hp' : gmap addr HashElem) y :
  hp' !! y = adjust a b n p y <$> hp !! y -> data <$> hp' !! y = data <$> hp !! y.
Proof. intros ->. destruct (hp !! y); [|done]. simpl. by rewrite adjust_data. Qed.

Lemma adjust_other a b n p y x : y ∉ a ++ b -> adjust a b n p y x = x.
Proof.
  intros Hy. unfold adjust. rewrite decide_False, decide_False; [done| |].
  - intros ?%head_in. set_solver.
  - intros ?%last_in. set_solver.
Qed.

(** ** Linking an element between [a] and [b] *)

Lemma wp_link κ w a b e xe x (Q : unit -> HW -> Prop) C :
  linked κ (heap w) (a ++ b) -> NoDup (a ++ b) -> e ∉ a ++ b ->
  heap w !! e = Some xe -> (pKey xe, nKey xe) = κ e -> first (tbl w) = head (a ++ b) ->
  (x = head b /\ b <> [] \/ x = None /\ a = []) ->
  (forall w', linked κ (heap w') (a ++ e :: b) -> first (tbl w') = head (a ++ e :: b) ->
     htsize (tbl w') = htsize (tbl w) -> ht (tbl w') = ht (tbl w) -> mallocs w' = mallocs w ->
     quiet (e :: a ++ b) w w' -> Q tt w') ->
  wp (link_elem e x) Q C w.
Proof.
  intros Hl Hnd He Hxe Hk Hf Hx HQ.
  assert (Hwrap : forall w' n p,
    heap w' !! e = Some (set_prev p (set_next n xe)) -> n = head b -> p = last a ->
    (forall y, y <> e -> heap w' !! y = adjust a b (Some e) (Some e) y <$> heap w !! y) ->
    first (tbl w') = head (a ++ e :: b) ->
    tbl w' = set_first (first (tbl w')) (tbl w) -> mallocs w' = mallocs w -> Q tt w').
  { intros w' n p He' -> -> Ho Hf' Ht Hm. apply HQ; try done; try (by rewrite Ht).
    - eapply linked_insert; [exact Hl|done| |].
      + eexists. split; [exact He'|done].
      + intros y Hy. apply Ho. set_solver.
    - split; try (by rewrite Ht).
      + intros y Hy. rewrite Ho by set_solver.
        destruct (heap w !! y); [|done]. simpl. by rewrite adjust_other by set_solver.
      + intros y. destruct (decide (y = e)) as [->|Hne]; [by rewrite He', Hxe|].
        eapply adjusted_data. by apply Ho. }
  destruct Hx as [[-> Hb]|[-> ->]].
  - destruct b as [|x b]; [done|]. cbn [head link_elem].
    destruct (Hl a x b eq_refl) as (xx & Hxx & Hxn & Hxp & Hxk).
    apply nodup_mid in Hnd as Hmid. destruct Hmid as (Hxa & Hxb & _).
    assert (Hex : e <> x) by set_solver.
    hsteps. eapply wp_deref; [exact Hxx|]. hsteps.
    eapply wp_upd_elem; [exact Hxe|]. hsteps.
    eapply wp_upd_elem; [cbn [heap]; apply lookup_insert_eq|]. hsteps. cbn [heap tbl mallocs].
    rewrite Hxp. destruct (last a) as [q|] eqn:Hq.
    + apply last_Some in Hq as [a' ->].
      destruct (Hl a' q (x :: b)) as (xq & Hxq & _); [by rewrite <-app_assoc|].
      assert (q <> e /\ q <> x) as [Hqe Hqx] by set_solver.
      eapply wp_upd_elem; [cbn [heap]; by rewrite !lookup_insert_ne by done|]. hsteps.
      eapply wp_upd_elem; [cbn [heap]; by rewrite !lookup_insert_ne by done|].
      eapply Hwrap; cbn [heap tbl mallocs first].
      * by rewrite !lookup_insert_ne, lookup_insert_eq by done.
      * done.
      * done.
      * intros y Hy. unfold adjust. rewrite last_snoc. cbn [head].
        destruct (decide (y = x)) as [->|Hyx].
        { rewrite lookup_insert_eq, Hxx. cbn [fmap option_fmap option_map].
          rewrite decide_False by congruence. by rewrite decide_True. }
        rewrite lookup_insert_ne by done. destruct (decide (y = q)) as [->|Hyq].
        { rewrite lookup_insert_eq, Hxq. cbn [fmap option_fmap option_map]. by rewrite decide_True. }
        rewrite !lookup_insert_ne by done. destruct (heap w !! y); [|done].
        cbn [fmap option_fmap option_map]. by rewrite !decide_False by congruence.
      * rewrite Hf. rewrite <-!app_assoc. by destruct a'.
      * by destruct (tbl w).
      * done.
    + apply last_None in Hq as ->. hsteps.
      eapply wp_upd_elem; [cbn [heap]; by rewrite !lookup_insert_ne by done|].
      eapply Hwrap; cbn [heap tbl mallocs].
      * by rewrite lookup_insert_ne, lookup_insert_eq by done.
      * done.
      * done.
      * intros y Hy. unfold adjust. cbn [last head].
        destruct (decide (y = x)) as [->|Hyx].
        { rewrite lookup_insert_eq, Hxx. cbn [fmap option_fmap option_map].
          by rewrite decide_False, decide_True by congruence. }
        rewrite !lookup_insert_ne by done. destruct (heap w !! y); [|done].
        cbn [fmap option_fmap option_map]. by rewrite !decide_False by congruence.
      * done.
      * done.
      * done.
  - cbn [link_elem app] in *. hsteps. rewrite Hf.
    eapply wp_upd_elem; [exact Hxe|]. hsteps.
    destruct b as [|q b]; cbn [head].
    + hsteps. eapply wp_upd_elem; [cbn [heap]; apply lookup_insert_eq|]. hsteps.
      apply (Hwrap _ None None); cbn [heap tbl mallocs]; try done; [by rewrite lookup_insert_eq|].
      intros y Hy. rewrite !lookup_insert_ne by done.
      destruct (heap w !! y); [|done]. simpl. by rewrite adjust_other by set_solver.
    + destruct (Hl [] q b eq_refl) as (xq & Hxq & _).
      assert (Hqe : q <> e) by set_solver.
      eapply wp_upd_elem; [cbn [heap]; by rewrite lookup_insert_ne|]. hsteps.
      eapply wp_upd_elem; [cbn [heap]; by rewrite lookup_insert_ne, lookup_insert_eq|]. hsteps.
      apply (Hwrap _ (Some q) None); cbn [heap tbl mallocs]; try done; [by rewrite lookup_insert_eq|].
      intros y Hy. unfold adjust. cbn [last head].
      rewrite lookup_insert_ne by done. destruct (decide (y = q)) as [->|Hyq].
      { rewrite lookup_insert_eq, Hxq. cbn [fmap option_fmap option_map].
        by rewrite decide_False, decide_True by congruence. }
      rewrite !lookup_insert_ne by done. destruct (heap w !! y); [|done].
      cbn [fmap option_fmap option_map]. by rewrite !decide_False by congruence.
Qed.

(** ** Entering an element into its bucket *)

Lemma buckets_enter κ size t a b e bk :
  NoDup (a ++ b) -> buckets κ size t (a ++ b) -> t !! slot κ size e = Some bk ->
  (a = [] /\ seg κ size (slot κ size e) b = [] \/
   exists s l2, b = s ++ l2 /\ s <> [] /\ s = seg κ size (slot κ size e) (a ++ b)) ->
  buckets κ size (<[slot κ size e := mkBucket (bcount bk + 1) (Some e)]> t) (a ++ e :: b).
Proof.
  intros Hnd Hb Ht Hab h b' Hh. set (h0 := slot κ size e) in *.
  assert (Hlt : (h0 < length t)%nat) by (eapply lookup_lt_Some; exact Ht).
  destruct (decide (h = h0)) as [->|Hne].
  - rewrite list_lookup_insert_eq in Hh by done. injection Hh as <-. cbn [bcount chain].
    destruct (Hb _ _ Ht) as (Hc & _ & _).
    assert (E : seg κ size h0 (a ++ e :: b) = e :: seg κ size h0 (a ++ b)).
    { rewrite !seg_app, seg_cons, decide_True by done.
      destruct Hab as [[-> _]|(s & l2 & -> & _ & Hs)]; [done|].
      destruct (seg_middle κ size h0 a s l2 Hnd Hs) as (-> & _). done. }
    rewrite E, Hc. split; [simpl; lia|]. split; [done|].
    destruct Hab as [[-> Hs]|(s & l2 & -> & _ & Hs)].
    + exists [], b. simpl. by rewrite Hs.
    + exists a, l2. rewrite <-Hs. done.
  - rewrite list_lookup_insert_ne in Hh by done. destruct (Hb _ _ Hh) as (Hc & Hch & l1 & l2 & E).
    rewrite seg_other by done. split; [done|]. split; [done|]. rewrite <-(seg_other κ size h a e b) by done.
    eapply contiguous_insert; [done|done| |exact E].
    destruct Hab as [[-> _]|(s & l3 & -> & Hs0 & Hs)]; [by left|right].
    destruct s as [|x s]; [done|]. exists x, (s ++ l3). split; [done|].
    assert (Hx : x ∈ seg κ size h0 (a ++ (x :: s) ++ l3)) by (rewrite <-Hs; set_solver).
    apply seg_in in Hx as [-> _]. done.
Qed.

Record chained κ (w : HW) (l : list addr) : Prop := {
  ch_class : keyClass (tbl w) = c;
  ch_nodup : NoDup l;
  ch_first : first (tbl w) = head l;
  ch_linked : linked κ (heap w) l;
  ch_buckets : buckets κ (htsize (tbl w)) (ht (tbl w)) l
}.

(** The table has [2 ^ k] buckets. *)
Definition sized (w : HW) : Prop :=
  exists k, 0 <= k /\ htsize (tbl w) = 2 ^ k /\ length (ht (tbl w)) = Z.to_nat (2 ^ k).

Lemma sized_slot κ w e : sized w -> is_Some (ht (tbl w) !! slot κ (htsize (tbl w)) e).
Proof.
  intros (k & Hk & -> & Hl). apply lookup_lt_is_Some_2. rewrite Hl. unfold slot.
  pose proof (masked_range (kc_hash c (κ e).1 (κ e).2) k Hk). lia.
Qed.

Lemma wp_enter κ w l e xe (Q : unit -> HW -> Prop) C :
  chained κ w l -> sized w -> e ∉ l -> heap w !! e = Some xe -> (pKey xe, nKey xe) = κ e ->
  (forall w' l', chained κ w' l' -> l' ≡ₚ e :: l -> sized w' -> mallocs w' = mallocs w ->
     htsize (tbl w') = htsize (tbl w) -> quiet (e :: l) w w' -> Q tt w') ->
  wp (enter_bucket e (masked (kc_hash c (κ e).1 (κ e).2) (htsize (tbl w)))) Q C w.
Proof.
  intros [Hcl Hnd Hf Hl Hb] Hsz He Hxe Hk HQ.
  destruct (sized_slot κ w e Hsz) as [bk Hbk].
  destruct (Hb _ _ Hbk) as (Hc & Hch & l1 & l2 & Hseg).
  set (h := slot κ (htsize (tbl w)) e) in *.
  unfold enter_bucket. hsteps. eapply wp_get_bucket; [exact Hbk|]. hsteps.
  assert (Hab : exists a b, l = a ++ b /\
    (chain bk = head b /\ b <> [] \/ chain bk = None /\ a = []) /\
    (a = [] /\ seg κ (htsize (tbl w)) h b = [] \/
     exists s l2, b = s ++ l2 /\ s <> [] /\ s = seg κ (htsize (tbl w)) h (a ++ b))).
  { destruct (seg κ (htsize (tbl w)) h l) as [|x s] eqn:Es.
    - exists [], l. split; [done|]. split; [by right|by left].
    - exists l1, ((x :: s) ++ l2). split; [done|]. split; [left; by rewrite Hch|].
      right. exists (x :: s), l2. by rewrite <-Hseg, Es. }
  clear l1 l2 Hseg. destruct Hab as (a & b & -> & Hx & Hs).
  eapply wp_link; [exact Hl|done|done|exact Hxe|done|done|exact Hx|].
  intros w' Hl' Hf' Hsz' Ht' Hm' [Hq1 Hq2 Hq3 Hq4 Hq5]. hsteps.
  eapply wp_get_bucket; [rewrite Ht'; exact Hbk|]. hsteps.
  eapply (HQ _ (a ++ e :: b)); cbn [tbl heap mallocs].
  - split; cbn; try congruence.
    + rewrite <-Permutation_middle. by constructor.
    + done.
    + rewrite Ht', Hsz'. apply buckets_enter; done.
  - by rewrite Permutation_middle.
  - destruct Hsz as (k & ? & ? & ?). exists k. cbn. rewrite length_insert. by rewrite Hsz', Ht'.
  - done.
  - done.
  - by split.
Qed.

(** ** Rehashing *)

Lemma wp_xHash p n (Q : Z -> HW -> Prop) C w :
  keyClass (tbl w) = c -> Q (kc_hash c p n) w -> wp (xHash p n) Q C w.
Proof. intros Hc HQ. unfold xHash. hsteps. rewrite Hc, kc_hash_eq. by apply wp_ret. Qed.

Lemma wp_xCompare p n q m (Q : Z -> HW -> Prop) C w :
  keyClass (tbl w) = c -> Q (kc_compare c p n q m) w -> wp (xCompare p n q m) Q C w.
Proof. intros Hc HQ. unfold xCompare. hsteps. rewrite Hc, kc_compare_eq. by apply wp_ret. Qed.

(** Some elements [d] are entered into the new table, [r] are still to come. *)
Lemma wp_rehash_loop κ r : forall fuel w d (Q : unit -> HW -> Prop) C,
  (length r <= fuel)%nat -> chained κ w d -> sized w -> forward κ (heap w) r -> NoDup (r ++ d) ->
  (forall w' l, chained κ w' l -> l ≡ₚ r ++ d -> sized w' -> mallocs w' = mallocs w ->
     htsize (tbl w') = htsize (tbl w) -> quiet (r ++ d) w w' -> Q tt w') ->
  wp (rehash_loop fuel (htsize (tbl w)) (head r)) Q C w.
Proof.
  induction r as [|e r IH]; intros fuel w d Q C Hf Hch Hsz Hr Hnd HQ.
  { destruct fuel; cbn [rehash_loop head]; apply wp_ret, (HQ w d); done. }
  destruct fuel as [|fuel]; [simpl in Hf; lia|]. cbn [rehash_loop head].
  apply forward_cons in Hr as [(p & xe & Hxe & Hn & Hp & Hk) Hr].
  hsteps. eapply wp_deref; [exact Hxe|]. hsteps.
  eapply wp_xHash; [by eapply ch_class|]. hsteps.
  cbn [app] in Hnd. apply NoDup_cons in Hnd as [He Hnd].
  replace (kc_hash c (pKey xe) (nKey xe)) with (kc_hash c (κ e).1 (κ e).2) by (by rewrite <-Hk).
  eapply wp_enter; [exact Hch|done|set_solver|exact Hxe|done|].
  intros w' d' Hch' Hd' Hsz' Hm' Hs' Hq'. rewrite Hn, <-Hs'.
  apply (IH fuel w' d'); [simpl in Hf; lia|done|done| | |].
  - eapply forward_ext; [|exact Hr]. intros y Hy. apply (q_out _ _ _ Hq').
    intros [->|Hyd]%elem_of_cons; [set_solver|].
    apply NoDup_app in Hnd as (_ & Hnd & _). by apply (Hnd y Hy).
  - rewrite Hd'. rewrite <-Permutation_middle. by constructor.
  - intros w2 l Hch2 Hl Hsz2 Hm2 Hs2 Hq2.
    apply (HQ w2 l); [done| |done|congruence|congruence|].
    + rewrite Hl, Hd'. by rewrite <-Permutation_middle.
    + eapply quiet_trans; eapply quiet_mono; [|exact Hq'| |exact Hq2]; [set_solver|].
      intros y Hy. rewrite Hd' in Hy. set_solver.
Qed.

Lemma linked_fuel κ hp l : linked κ hp l -> NoDup l -> (length l <= size hp)%nat.
Proof.
  intros Hl Hnd. rewrite <-size_dom, <-(size_list_to_set (C := gset addr)) by done.
  apply subseteq_size. intros e (l1 & l2 & ->)%elem_of_list_to_set%list_elem_of_split.
  destruct (Hl l1 e l2 eq_refl) as (x & Hx & _). apply elem_of_dom. eauto.
Qed.

Lemma wp_rehash κ w l k (Q : unit -> HW -> Prop) C :
  chained κ w l -> 0 <= k ->
  (forall bs, mallocs w = false :: bs -> Q tt (mkHW (tbl w) (heap w) bs)) ->
  (hd true (mallocs w) = true -> forall w' l', chained κ w' l' -> l' ≡ₚ l -> sized w' ->
     htsize (tbl w') = 2 ^ k -> mallocs w' = tail (mallocs w) -> quiet l w w' -> Q tt w') ->
  wp (rehash (2 ^ k)) Q C w.
Proof.
  intros [Hcl Hnd Hf Hl Hb] Hk Hfail HQ. unfold rehash. hsteps.
  apply wp_assert; [by rewrite power_mask|]. hsteps.
  assert (Hgo : forall bs, bs = tail (mallocs w) -> hd true (mallocs w) = true ->
    wp (tupd (set_table (2 ^ k) (replicate (Z.to_nat (2 ^ k)) (mkBucket 0 None)));;
        elem ← tget first; tupd (set_first None);; w ← mget;
        rehash_loop (size (heap w)) (2 ^ k) elem) Q C (mkHW (tbl w) (heap w) bs)).
  { intros bs -> Hhd. specialize (HQ Hhd). hsteps. cbn. rewrite Hf.
    set (w1 := mkHW (set_first None (set_table (2 ^ k) _ (tbl w))) (heap w) (tail (mallocs w))).
    change (2 ^ k) with (htsize (tbl w1)) at 1.
    apply (wp_rehash_loop κ l _ w1 []); [by eapply linked_fuel| | |by eapply linked_forward| |].
    - split; try done; [constructor|by intros [] ? ?|].
      intros h b (-> & _)%lookup_replicate. split; [done|]. split; [done|]. by exists [], [].
    - exists k. split; [done|]. split; [done|]. cbn. by rewrite length_replicate.
    - by rewrite app_nil_r.
    - intros w' l' Hch Hp Hsz Hm Hs [Hq1 Hq2 Hq3 Hq4 Hq5]. rewrite app_nil_r in Hp, Hq4.
      apply (HQ w' l'); try done. }
  unfold malloc_ok, wp. destruct (mallocs w) as [|[] bs] eqn:Em; cbn [tbl heap mallocs negb].
  - replace w with (mkHW (tbl w) (heap w) (mallocs w)) by (by destruct w). rewrite Em. by apply (Hgo []).
  - by apply (Hgo bs).
  - by apply Hfail.
Qed.

(** ** Searching *)

(** What a search for the key [q] among [s] gives. *)
Definition found κ (s : list addr) (q : list Z) (r : option addr) : Prop :=
  match r with
  | Some e => e ∈ s /\ norm c (κ e).1 (κ e).2 = q
  | None => forall e, e ∈ s -> norm c (κ e).1 (κ e).2 <> q
  end.

Lemma wp_find_loop κ w p n : keyClass (tbl w) = c -> key_ok c p n ->
  forall s l1 l2 (Q : option addr -> HW -> Prop) C,
  linked κ (heap w) (l1 ++ s ++ l2) -> (forall e, e ∈ s -> key_ok c (κ e).1 (κ e).2) ->
  (forall r, found κ s (norm c p n) r -> Q r w) ->
  wp (find_loop (length s) (head (s ++ l2)) p n) Q C w.
Proof.
  intros Hc Hp. induction s as [|e s IH]; intros l1 l2 Q C Hl Hk HQ.
  { cbn [length find_loop app]. apply wp_ret, HQ. by intros e ?%elem_of_nil. }
  cbn [length find_loop app head]. destruct (Hl l1 e (s ++ l2)) as (x & Hx & Hn & _ & Hkx); [done|].
  hsteps. eapply wp_deref; [exact Hx|]. hsteps. apply wp_xCompare; [done|]. hsteps.
  specialize (Hk e ltac:(set_solver)) as Hke. rewrite <-Hkx in Hke.
  assert (E : kc_compare c (pKey x) (nKey x) p n = 0 <-> norm c (κ e).1 (κ e).2 = norm c p n)
    by (rewrite <-Hkx; by apply kc_compare_norm).
  destruct (Z.eqb_spec (kc_compare c (pKey x) (nKey x) p n) 0) as [H0|H0].
  - apply wp_ret, HQ. split; [set_solver|by apply E].
  - rewrite Hn. apply (IH (l1 ++ [e]) l2); [by rewrite <-app_assoc|intros; apply Hk; set_solver|].
    intros r Hr. apply HQ. destruct r as [e'|]; simpl in *.
    + destruct Hr. split; [set_solver|done].
    + intros e' [->|He']%elem_of_cons; [tauto|by apply Hr].
Qed.

Definition keys_ok κ (l : list addr) : Prop :=
  (forall e, e ∈ l -> key_ok c (κ e).1 (κ e).2) /\
  (forall e e', e ∈ l -> e' ∈ l ->
     norm c (κ e).1 (κ e).2 = norm c (κ e').1 (κ e').2 -> e = e').

(** A table is empty without buckets, or it has a power of two of them. *)
Definition table_size (w : HW) (l : list addr) : Prop :=
  sized w \/ htsize (tbl w) = 0 /\ ht (tbl w) = [] /\ l = [].

Lemma table_mask w l : table_size w l -> (Z.land (htsize (tbl w)) (htsize (tbl w) - 1) =? 0) = true.
Proof.
  intros [(k & Hk & -> & _)|(-> & _)]; [|done]. by rewrite power_mask.
Qed.

Lemma slot_norm κ size e p n : key_ok c (κ e).1 (κ e).2 -> key_ok c p n ->
  norm c (κ e).1 (κ e).2 = norm c p n -> slot κ size e = Z.to_nat (masked (kc_hash c p n) size).
Proof. intros He Hp E. unfold slot. by rewrite (kc_hash_norm _ _ p n He Hp E). Qed.

Lemma sized_ht w : sized w -> exists b t, ht (tbl w) = b :: t.
Proof.
  intros (k & Hk & _ & Hl). destruct (ht (tbl w)); [simpl in Hl|eauto].
  pose proof (Z.pow_pos_nonneg 2 k). lia.
Qed.

Lemma wp_find_element κ w l p n (Q : option addr -> HW -> Prop) C :
  chained κ w l -> table_size w l -> keys_ok κ l -> key_ok c p n ->
  (forall r, found κ l (norm c p n) r -> Q r w) ->
  wp (findElementGivenHash p n (masked (kc_hash c p n) (htsize (tbl w)))) Q C w.
Proof.
  intros [Hcl Hnd Hf Hl Hb] Hsz [Hk Hinj] Hp HQ. unfold findElementGivenHash. hsteps.
  destruct Hsz as [Hsz|(_ & -> & ->)]; [|apply wp_ret, HQ; by intros e ?%elem_of_nil].
  destruct (sized_ht w Hsz) as (b0 & t0 & Et). rewrite Et. clear b0 t0 Et.
  destruct (sized_slot (fun _ => (p, n)) w 1%positive Hsz) as [b Hbk]. unfold slot in Hbk. simpl in Hbk.
  destruct (Hb _ _ Hbk) as (Hc & Hch & l1 & l2 & Hseg).
  hsteps. eapply wp_get_bucket; [exact Hbk|]. rewrite Hc, Hch, Nat2Z.id.
  set (s := seg _ _ _ _) in *.
  assert (Hhead : head s = head (s ++ l2) \/ s = []) by (destruct s; [by right|by left]).
  assert (HQ' : forall r, found κ s (norm c p n) r -> Q r w).
  { intros r Hr. apply HQ. destruct r as [e|]; simpl in *.
    - destruct Hr as [He Hn]. split; [|done]. by apply seg_in in He as [_ He].
    - intros e He Hn. apply (Hr e); [|done]. apply seg_in. split; [|done].
      apply slot_norm; auto. }
  destruct Hhead as [->| ->]; [|apply wp_ret, HQ'; by intros e ?%elem_of_nil].
  eapply (wp_find_loop κ w p n Hcl Hp s l1 l2); [by rewrite <-Hseg| |done].
  intros e He. apply Hk. by apply seg_in in He as [_ He].
Qed.

(** ** Removing *)

Lemma buckets_remove κ size t a b e bk :
  NoDup (a ++ e :: b) -> buckets κ size t (a ++ e :: b) -> t !! slot κ size e = Some bk ->
  let chain' := if decide (chain bk = Some e) then head b else chain bk in
  let n := bcount bk - 1 in
  buckets κ size (<[slot κ size e := mkBucket n (if n <=? 0 then None else chain')]> t) (a ++ b).
Proof.
  intros Hnd Hb Ht chain' n h b' Hh. set (h0 := slot κ size e) in *.
  assert (Hlt : (h0 < length t)%nat) by (eapply lookup_lt_Some; exact Ht).
  destruct (decide (h = h0)) as [->|Hne].
  - rewrite list_lookup_insert_eq in Hh by done. injection Hh as <-. cbn [bcount chain].
    destruct (Hb _ _ Ht) as (Hc & Hch & l1 & l2 & E).
    assert (Es : seg κ size h0 (a ++ e :: b) = seg κ size h0 a ++ e :: seg κ size h0 b).
    { by rewrite seg_app, seg_cons, decide_True. }
    rewrite Es in E, Hc, Hch. rewrite <-!app_assoc in E. cbn [app] in E. rewrite app_assoc in E.
    destruct (nodup_split _ _ _ _ _ Hnd E) as [Ha Hb2]. apply nodup_mid in Hnd as (Hea & _ & _).
    assert (Hsa : forall x, x ∈ seg κ size h0 a -> x ∈ a) by (intros x Hx; by apply seg_in in Hx as [_ ?]).
    rewrite seg_app. unfold n, chain'. rewrite Hc, Hch.
    set (sa := seg κ size h0 a) in *. set (sb := seg κ size h0 b) in *.
    split; [rewrite !length_app; simpl; lia|]. split; [|exists l1, l2; rewrite Ha, Hb2, <-!app_assoc; done].
    rewrite length_app. cbn [length]. destruct sa as [|x sa]; cbn [app head length] in *.
    + rewrite decide_True by done. rewrite Hb2.
      destruct sb as [|y sb]; [done|]. simpl. destruct (Z.leb_spec (Z.of_nat (S (S (length sb))) - 1) 0); [lia|done].
    + rewrite decide_False by (intros [= ->]; apply Hea, Hsa; set_solver).
      destruct (Z.leb_spec (Z.of_nat (S (length sa) + S (length sb)) - 1) 0); [lia|done].
  - rewrite list_lookup_insert_ne in Hh by done. destruct (Hb _ _ Hh) as (Hc & Hch & l1 & l2 & E).
    rewrite seg_other in Hc, Hch by done. split; [done|]. split; [done|].
    by eapply contiguous_remove.
Qed.

(** The neighbours of a removed element are linked to each other. *)
Lemma wp_neighbours κ w a b e (k : M HW unit) (Q : unit -> HW -> Prop) C :
  linked κ (heap w) (a ++ e :: b) -> NoDup (a ++ e :: b) -> first (tbl w) = head (a ++ e :: b) ->
  (forall f hp, f = head (a ++ b) ->
     (forall y, hp !! y = adjust a b (head b) (last a) y <$> heap w !! y) ->
     wp k Q C (mkHW (set_first f (tbl w)) hp (mallocs w))) ->
  wp (match last a with
      | Some q => upd_elem q (set_next (head b))
      | None => tupd (set_first (head b))
      end;;
      match head b with
      | Some q => upd_elem q (set_prev (last a))
      | None => mret tt
      end;; k) Q C w.
Proof.
  intros Hl Hnd Hf HQ. apply nodup_mid in Hnd as (_ & _ & Hnd'). apply wp_bind.
  assert (Hfa : forall y, y ∈ a -> exists xy, heap w !! y = Some xy).
  { intros y (l1 & l2 & ->)%list_elem_of_split.
    destruct (Hl l1 y (l2 ++ e :: b)) as (xy & ? & _); [by rewrite <-app_assoc|eauto]. }
  assert (Hfb : forall y, head b = Some y -> exists xy, heap w !! y = Some xy).
  { intros y Hy. destruct b as [|z b']; [done|]. injection Hy as ->.
    destruct (Hl (a ++ [e]) y b') as (xy & ? & _); [by rewrite <-app_assoc|eauto]. }
  destruct (last a) as [q|] eqn:Hq.
  - assert (Hqa : q ∈ a) by (by apply last_in). destruct (Hfa q Hqa) as [xq Hxq].
    assert (Hqb : head b <> Some q).
    { intros Hh%head_in. apply NoDup_app in Hnd' as (_ & Hd & _). by apply (Hd q). }
    eapply wp_upd_elem; [exact Hxq|]. hsteps.
    destruct (head b) as [z|] eqn:Hz.
    + destruct (Hfb z eq_refl) as [xz Hxz]. assert (z <> q) by congruence.
      eapply wp_upd_elem; [cbn [heap]; by rewrite lookup_insert_ne|]. cbn [tbl heap mallocs].
      replace (tbl w) with (set_first (first (tbl w)) (tbl w)) at 1 by (by destruct (tbl w)).
      apply HQ; [rewrite Hf; by destruct a|]. intros y. unfold adjust. rewrite Hz, Hq.
      destruct (decide (y = z)) as [->|Hyz].
      { rewrite lookup_insert_eq, Hxz. simpl. by rewrite decide_False, decide_True by congruence. }
      rewrite lookup_insert_ne by done. destruct (decide (y = q)) as [->|Hyq].
      { rewrite lookup_insert_eq, Hxq. simpl. by rewrite decide_True. }
      rewrite lookup_insert_ne by done. destruct (heap w !! y); [|done]. simpl.
      by rewrite !decide_False by congruence.
    + hsteps.
      replace (tbl w) with (set_first (first (tbl w)) (tbl w)) at 1 by (by destruct (tbl w)).
      apply HQ; [rewrite Hf; by destruct a|]. intros y. unfold adjust. rewrite Hz, Hq.
      destruct (decide (y = q)) as [->|Hyq].
      { rewrite lookup_insert_eq, Hxq. simpl. by rewrite decide_True. }
      rewrite lookup_insert_ne by done. destruct (heap w !! y); [|done]. simpl.
      by rewrite !decide_False by congruence.
  - apply last_None in Hq as ->. hsteps.
    destruct (head b) as [z|] eqn:Hz.
    + destruct (Hfb z eq_refl) as [xz Hxz].
      eapply wp_upd_elem; [exact Hxz|]. cbn [tbl heap mallocs].
      apply HQ; [done|]. intros y. unfold adjust. rewrite Hz. cbn [last].
      destruct (decide (y = z)) as [->|Hyz].
      { rewrite lookup_insert_eq, Hxz. simpl. by rewrite decide_True. }
      rewrite lookup_insert_ne by done. destruct (heap w !! y); [|done]. simpl.
      by repeat rewrite decide_False by congruence.
    + hsteps. apply HQ; [done|]. intros y. unfold adjust. rewrite Hz. cbn [last].
      destruct (heap w !! y); [|done]. simpl. by repeat rewrite decide_False by congruence.
Qed.

(** The bucket of a removed element, whose successor is [n]. *)
Lemma wp_unbucket w e h bk n (k : M HW unit) (Q : unit -> HW -> Prop) C :
  ht (tbl w) !! Z.to_nat h = Some bk ->
  wp k Q C (mkHW (set_table (htsize (tbl w))
    (<[Z.to_nat h := mkBucket (bcount bk - 1) (if bcount bk - 1 <=? 0 then None
        else if decide (chain bk = Some e) then n else chain bk)]> (ht (tbl w))) (tbl w))
    (heap w) (mallocs w)) ->
  wp (b ← get_bucket h;
      mwhen (bool_decide (chain b = Some e)) (set_bucket h (mkBucket (bcount b) n));;
      b ← get_bucket h;
      set_bucket h (mkBucket (bcount b - 1) (chain b));;
      b ← get_bucket h;
      mwhen (bcount b <=? 0) (set_bucket h (mkBucket (bcount b) None));; k) Q C w.
Proof.
  intros Hbk Hk. assert (Hlt : (Z.to_nat h < length (ht (tbl w)))%nat) by (eapply lookup_lt_Some; exact Hbk).
  assert (Hset : forall t b, t = <[Z.to_nat h := b]> (ht (tbl w)) -> t !! Z.to_nat h = Some b).
  { intros t b ->. by apply list_lookup_insert_eq. }
  hsteps. eapply wp_get_bucket; [exact Hbk|]. hsteps.
  set (ch := if decide (chain bk = Some e) then n else chain bk) in *.
  assert (Hrest : wp (b ← get_bucket h;
      set_bucket h (mkBucket (bcount b - 1) (chain b));;
      b ← get_bucket h;
      mwhen (bcount b <=? 0) (set_bucket h (mkBucket (bcount b) None));; k) Q C
    (mkHW (set_table (htsize (tbl w)) (<[Z.to_nat h := mkBucket (bcount bk) ch]> (ht (tbl w))) (tbl w))
       (heap w) (mallocs w))).
  { hsteps. eapply wp_get_bucket; [cbn [tbl ht set_table]; eapply Hset; reflexivity|]. hsteps.
    cbn [bcount chain].
    eapply wp_get_bucket; [cbn [tbl ht set_table]; rewrite list_insert_insert_eq; eapply Hset; reflexivity|].
    cbn [bcount chain set_table ht htsize]. rewrite list_insert_insert_eq. hsteps.
    apply wp_when; intros Hle; rewrite Hle in Hk; [|exact Hk].
    hsteps. cbn. rewrite list_insert_insert_eq. exact Hk. }
  apply wp_when; unfold ch in *.
  - intros Hd%bool_decide_eq_true. rewrite decide_True in Hrest by done.
    apply wp_tupd. exact Hrest.
  - intros Hd%bool_decide_eq_false. rewrite decide_False in Hrest by done.
    replace w with (mkHW (tbl w) (heap w) (mallocs w)) at 1 by (by destruct w).
    replace (mkBucket (bcount bk) (chain bk)) with bk in Hrest by (by destruct bk).
    rewrite list_insert_id in Hrest by done.
    replace (set_table (htsize (tbl w)) (ht (tbl w)) (tbl w)) with (tbl w) in Hrest by (by destruct (tbl w)).
    exact Hrest.
Qed.

Lemma wp_remove κ w a b e (Q : unit -> HW -> Prop) C :
  chained κ w (a ++ e :: b) -> sized w ->
  (forall w', chained κ w' (a ++ b) -> sized w' -> mallocs w' = mallocs w ->
     count (tbl w') = count (tbl w) - 1 -> copyKey (tbl w') = copyKey (tbl w) ->
     (forall y, data <$> heap w' !! y = data <$> delete e (heap w) !! y) -> Q tt w') ->
  wp (removeElementGivenHash e (masked (kc_hash c (κ e).1 (κ e).2) (htsize (tbl w)))) Q C w.
Proof.
  intros [Hcl Hnd Hf Hl Hb] Hsz HQ.
  destruct (sized_slot κ w e Hsz) as [bk Hbk].
  pose proof (buckets_remove κ _ _ a b e bk Hnd Hb Hbk) as Hb'. cbv zeta in Hb'.
  destruct (Hl a e b eq_refl) as (xe & Hxe & Hn & Hp & Hk).
  pose proof (nodup_mid a b e Hnd) as (Hea & Heb & Hnd').
  unfold removeElementGivenHash. apply wp_bind. eapply wp_deref; [exact Hxe|]. rewrite Hn, Hp.
  eapply (wp_neighbours κ w a b e _ Q C Hl Hnd Hf). intros f hp Hfh Hhp.
  eapply wp_unbucket; [exact Hbk|]. cbn [tbl heap mallocs].
  set (t := <[_ := _]> _) in *.
  assert (Hhe : hp !! e = Some xe).
  { rewrite Hhp, Hxe. simpl. by rewrite adjust_other by (by intros [|]%elem_of_app). }
  hsteps. eapply wp_free; [exact Hhe|]. hsteps. apply HQ; cbn [tbl heap mallocs].
  - split; try done.
    eapply linked_remove; [exact Hl|done|]. intros y Hy. cbn [heap].
    rewrite lookup_delete_ne by (intros <-; by apply elem_of_app in Hy as [|]). apply Hhp.
  - destruct Hsz as (k & ? & ? & ?). exists k. cbn. unfold t. by rewrite length_insert.
  - done.
  - done.
  - done.
  - intros y. destruct (decide (y = e)) as [->|Hy]; [by rewrite !lookup_delete_eq|].
    rewrite !lookup_delete_ne by done. eapply adjusted_data, Hhp.
Qed.

End Table.
