(* ===== verification/HashMap.v ===== *)
(** The hash table implements a finite map from keys to pointers: the invariant of
    a whole table, the effect of its operations on the map, and what happens when
    memory runs out. *)
From S2P Require Import Prelude Util Hash HashKey HashList HashSpec.

Section Map.
Context (c : Z) `{KeyClass c}.
Implicit Types κ : addr -> list Z * Z.

(** The table [w] with the elements [l] and their keys [κ] holds the map [m], from
    keys up to their equality to data pointers, and owns nothing else. *)
Record rep κ (l : list addr) (w : HW) (m : gmap (list Z) Z) : Prop := {
  t_chained : chained c κ w l;
  t_size : table_size w l;
  t_keys : keys_ok c κ l;
  t_count : count (tbl w) = Z.of_nat (length l);
  t_heap : forall y, is_Some (heap w !! y) <-> y ∈ l;
  t_map : forall q d, m !! q = Some d <->
    exists e, e ∈ l /\ norm c (κ e).1 (κ e).2 = q /\ data <$> heap w !! e = Some d;
  t_data : forall q d, m !! q = Some d -> d <> 0
}.

Definition table_ok (w : HW) (m : gmap (list Z) Z) : Prop := exists κ l, rep κ l w m.

Lemma seg_ext κ κ' size h l :
  (forall e, e ∈ l -> κ' e = κ e) -> seg c κ' size h l = seg c κ size h l.
Proof.
  induction l as [|e l IH]; intros Hκ; [done|]. rewrite !seg_cons, IH by (intros; apply Hκ; set_solver).
  unfold slot. by rewrite Hκ by set_solver.
Qed.

(** The links and the keys of [l] are all that [chained] looks at. *)
Lemma chained_ext κ κ' w w' l :
  (forall e, e ∈ l -> κ' e = κ e) -> (forall e, e ∈ l -> heap w' !! e = heap w !! e) ->
  keyClass (tbl w') = keyClass (tbl w) -> first (tbl w') = first (tbl w) ->
  htsize (tbl w') = htsize (tbl w) -> ht (tbl w') = ht (tbl w) ->
  chained c κ w l -> chained c κ' w' l.
Proof.
  intros Hκ Hh E1 E2 E3 E4 [Hc Hnd Hf Hl Hb]. split; try congruence.
  - intros l1 e l2 ->. destruct (Hl l1 e l2 eq_refl) as (x & Hx & Hn & Hp & Hk).
    exists x. rewrite Hh, Hκ by set_solver. done.
  - rewrite E3, E4. intros h b Hhb. rewrite (seg_ext κ κ') by done. by apply Hb.
Qed.

(** Only the table and the store matter. *)
Lemma rep_same κ l w w' m : tbl w' = tbl w -> heap w' = heap w -> rep κ l w m -> rep κ l w' m.
Proof.
  intros Et Eh []. split; rewrite ?Et, ?Eh; try done.
  - eapply chained_ext; [done|..|done]; by rewrite ?Et, ?Eh.
  - unfold table_size, sized in *. by rewrite Et.
Qed.

(** ** Looking up *)

Lemma found_map κ l w m q r : rep κ l w m -> found c κ l q r ->
  match r with
  | Some e => e ∈ l /\ norm c (κ e).1 (κ e).2 = q /\ exists x, heap w !! e = Some x /\ m !! q = Some (data x)
  | None => m !! q = None
  end.
Proof.
  intros Hr Hf. destruct r as [e|]; simpl in Hf.
  - destruct Hf as [He Hq]. destruct (proj2 (t_heap _ _ _ _ Hr e) He) as [x Hx].
    split; [done|]. split; [done|]. exists x. split; [done|]. apply (t_map _ _ _ _ Hr).
    exists e. by rewrite Hx.
  - destruct (m !! q) as [d|] eqn:E; [|done]. apply (t_map _ _ _ _ Hr) in E as (e & He & Hq & _).
    by destruct (Hf e He).
Qed.

Lemma wp_find w m p n (Q : Z -> HW -> Prop) C :
  table_ok w m -> key_ok c p n -> Q (default 0 (m !! norm c p n)) w -> wp (sqliteHashFind p n) Q C w.
Proof.
  intros (κ & l & Hr) Hp HQ. pose proof Hr as [Hch Hsz Hk _ Hh Hm _].
  unfold sqliteHashFind. hsteps. destruct (ht (tbl w)) as [|b0 t0] eqn:Et.
  - apply wp_ret. destruct Hsz as [Hsz|(_ & _ & ->)].
    { destruct (sized_ht w Hsz) as (? & ? & ?). congruence. }
    destruct (m !! norm c p n) as [d|] eqn:E; [|done]. apply Hm in E as (e & ?%elem_of_nil & _). done.
  - clear b0 t0 Et. hsteps. apply (wp_xHash c); [by eapply ch_class|]. hsteps.
    apply wp_assert; [by eapply table_mask|]. hsteps.
    apply (wp_find_element c κ w l); [done..|]. intros r Hf.
    pose proof (found_map _ _ _ _ _ _ Hr Hf) as Hfm. destruct r as [e|].
    + destruct Hfm as (_ & _ & x & Hx & E). rewrite E in HQ. hsteps. eapply wp_deref; [exact Hx|].
      by apply wp_ret.
    + rewrite Hfm in HQ. by apply wp_ret.
Qed.

(** ** Replacing and removing *)

Lemma rep_replace κ l w m e x d :
  rep κ l w m -> e ∈ l -> heap w !! e = Some x -> d <> 0 ->
  rep κ l (mkHW (tbl w) (<[e := set_data d x]> (heap w)) (mallocs w))
    (<[norm c (κ e).1 (κ e).2 := d]> m).
Proof.
  intros [Hch Hsz Hk Hc Hh Hm Hd] He Hx Hd0. split; cbn [tbl heap]; try done.
  - destruct Hch as [Hcl Hnd Hf Hl Hb]. split; try done. cbn [heap].
    intros l1 y l2 E. destruct (Hl l1 y l2 E) as (z & Hz & ?).
    destruct (decide (y = e)) as [->|Hne].
    + exists (set_data d x). rewrite lookup_insert_eq. assert (z = x) as -> by congruence. done.
    + exists z. by rewrite lookup_insert_ne by done.
  - intros y. destruct (decide (y = e)) as [->|Hne].
    + rewrite lookup_insert_eq. by split; [|eauto].
    + by rewrite lookup_insert_ne by done.
  - destruct Hk as [Hk1 Hinj]. intros q d'.
    destruct (decide (q = norm c (κ e).1 (κ e).2)) as [->|Hq].
    + rewrite lookup_insert_eq. split.
      * intros [= <-]. exists e. by rewrite lookup_insert_eq.
      * intros (y & Hy & E & Hyd). apply Hinj in E as ->; [|done..].
        by rewrite lookup_insert_eq in Hyd.
    + rewrite lookup_insert_ne by done. rewrite Hm.
      split; intros (y & Hy & E & Hyd); exists y; (rewrite lookup_insert_ne in * by congruence); done.
  - intros q d'. rewrite lookup_insert_Some. intros [[_ <-]|[_ ?]]; [done|eauto].
Qed.

Lemma rep_delete κ a b e w w' m :
  rep κ (a ++ e :: b) w m -> chained c κ w' (a ++ b) -> table_size w' (a ++ b) ->
  count (tbl w') = count (tbl w) - 1 ->
  (forall y, data <$> heap w' !! y = data <$> delete e (heap w) !! y) ->
  rep κ (a ++ b) w' (delete (norm c (κ e).1 (κ e).2) m).
Proof.
  intros [Hch Hsz [Hk Hinj] Hc Hh Hm Hd] Hch' Hsz' Hc' Hdata.
  pose proof (nodup_mid a b e (ch_nodup _ _ _ _ Hch)) as (Hea & Heb & _).
  assert (Hsub : forall y, y ∈ a ++ b <-> y ∈ a ++ e :: b /\ y <> e) by (intros y; set_solver).
  split; try done.
  - split; [intros y Hy; apply Hk; set_solver|intros y y' Hy Hy'; apply Hinj; set_solver].
  - rewrite Hc', Hc, !length_app. cbn [length]. lia.
  - intros y. rewrite Hsub, <-Hh, <-(fmap_is_Some data), Hdata, fmap_is_Some.
    destruct (decide (y = e)) as [->|Hy].
    + rewrite lookup_delete_eq. split; [by intros []|by intros []].
    + rewrite lookup_delete_ne by done. tauto.
  - intros q d. rewrite lookup_delete_Some, Hm. split.
    + intros (Hne & y & Hy & E & Hyd). assert (y <> e) by congruence. exists y.
      rewrite Hdata, lookup_delete_ne by done. split; [by apply Hsub|done].
    + intros (y & [Hy Hye]%Hsub & E & Hyd). rewrite Hdata, lookup_delete_ne in Hyd by done. split.
      * intros E2. apply Hye, Hinj; [done|set_solver|congruence].
      * by exists y.
  - intros q d [_ ?]%lookup_delete_Some. eauto.
Qed.

(** ** Adding *)

Definition with_key κ (e : addr) (k : list Z * Z) : addr -> list Z * Z :=
  fun y => if decide (y = e) then k else κ y.

Lemma with_key_eq κ e k : with_key κ e k e = k.
Proof. unfold with_key. by rewrite decide_True. Qed.
Lemma with_key_ne κ e k y : y <> e -> with_key κ e k y = κ y.
Proof. intros. unfold with_key. by rewrite decide_False. Qed.

Lemma rep_insert κ l w m e p n d l' w' :
  rep κ l w m -> e ∉ l -> key_ok c p n -> m !! norm c p n = None -> d <> 0 ->
  l' ≡ₚ e :: l -> chained c (with_key κ e (p, n)) w' l' -> sized w' ->
  count (tbl w') = count (tbl w) + 1 ->
  (forall y, data <$> heap w' !! y = if decide (y = e) then Some d else data <$> heap w !! y) ->
  rep (with_key κ e (p, n)) l' w' (<[norm c p n := d]> m).
Proof.
  intros [Hch Hsz [Hk Hinj] Hc Hh Hm Hd] He Hp Hnew Hd0 Hl' Hch' Hsz' Hc' Hdata.
  assert (Hfresh : forall y, y ∈ l -> norm c (κ y).1 (κ y).2 <> norm c p n).
  { intros y Hy E. destruct (proj2 (Hh y) Hy) as [x Hx].
    assert (m !! norm c p n = Some (data x)) by (apply Hm; exists y; by rewrite Hx). congruence. }
  assert (Hin : forall y, y ∈ l' <-> y = e \/ y ∈ l) by (intros y; rewrite Hl'; set_solver).
  assert (Hne : forall y, y ∈ l -> y <> e) by (intros y Hy ->; done).
  split; try done; [by left| | | | |].
  - split.
    + intros y [->|Hy]%Hin; [by rewrite with_key_eq|rewrite with_key_ne by auto; auto].
    + intros y y' [->|Hy]%Hin [->|Hy']%Hin; rewrite ?with_key_eq, ?with_key_ne by auto; cbn [fst snd]; try done.
      * intros E. by destruct (Hfresh y' Hy').
      * intros E. by destruct (Hfresh y Hy).
      * by apply Hinj.
  - rewrite Hc', Hc, Hl'. simpl. lia.
  - intros y. rewrite Hin, <-Hh, <-(fmap_is_Some data), Hdata.
    case_decide as Hy; [subst|rewrite fmap_is_Some]; [|naive_solver]. split; [by left|eauto].
  - intros q d'. rewrite lookup_insert_Some, Hm. split.
    + intros [[<- <-]|(Hq & y & Hy & E & Hyd)].
      * exists e. rewrite with_key_eq, Hdata, decide_True by done. split; [by apply Hin; left|done].
      * exists y. rewrite with_key_ne, Hdata, decide_False by auto. split; [by apply Hin; right|done].
    + intros (y & [->|Hy]%Hin & E & Hyd); rewrite Hdata in Hyd.
      * rewrite with_key_eq in E. rewrite decide_True in Hyd by done. left. by simplify_eq.
      * rewrite with_key_ne in E by auto. rewrite decide_False in Hyd by auto. right.
        split; [|by exists y]. intros Eq. apply (Hfresh y Hy). congruence.
  - intros q d'. rewrite lookup_insert_Some. intros [[_ <-]|[_ ?]]; [done|eauto].
Qed.

Lemma wp_hash_malloc (Q : bool -> HW -> Prop) C w :
  (hd true (mallocs w) = true -> Q true (mkHW (tbl w) (heap w) (tail (mallocs w)))) ->
  (hd true (mallocs w) = false -> Q false (mkHW (tbl w) (heap w) (tail (mallocs w)))) ->
  wp malloc_ok Q C w.
Proof.
  intros Ht Hf. unfold wp, malloc_ok. destruct (mallocs w) as [|[] bs] eqn:E.
  - cbn in Ht. specialize (Ht eq_refl). by destruct w as [t h ms]; cbn in *; subst.
  - by apply Ht.
  - by apply Hf.
Qed.

(** Whether one of the next [n] allocations fails. *)
Definition one_fails (n : nat) (ms : list bool) : bool := existsb negb (take n ms).

Lemma one_fails_S n ms : one_fails (S n) ms = negb (hd true ms) || one_fails n (tail ms).
Proof. destruct ms as [|b ms]; [by destruct n|done]. Qed.

(** What a new entry cannot do without: the element, the copy of the key, and the first
    table of buckets. *)
Definition needed (t : Hash) : nat :=
  1 + (if copyKey t then 1 else 0) + (if htsize t =? 0 then 1 else 0).

(** What [sqliteHashInsert] does with a new entry: it returns the data and changes
    nothing when an allocation it needs fails, and adds the entry otherwise, also
    when there is no memory for a larger table of buckets. *)
Definition inserted (w : HW) (m : gmap (list Z) Z) (q : list Z) (d r : Z) (w' : HW) : Prop :=
  if one_fails (needed (tbl w)) (mallocs w) then r = d /\ tbl w' = tbl w /\ heap w' = heap w
  else r = 0 /\ table_ok w' (<[q := d]> m).

(** The last part of [insert_new]: the table has room, the element has its key. *)
Lemma wp_enter_new κ κ' l l1 w w1 m e x p n d (Q : Z -> HW -> Prop) C :
  rep κ l w m -> e ∉ l -> key_ok c p n -> m !! norm c p n = None -> d <> 0 ->
  κ' = with_key κ e (p, n) -> l1 ≡ₚ l -> chained c κ' w1 l1 -> sized w1 ->
  heap w1 !! e = Some x -> (pKey x, nKey x) = (p, n) ->
  count (tbl w1) = count (tbl w) + 1 ->
  (forall y, y <> e -> data <$> heap w1 !! y = data <$> heap w !! y) ->
  (forall w', table_ok w' (<[norm c p n := d]> m) -> Q 0 w') ->
  wp (size ← tget htsize;
      assert (Z.land size (size - 1) =? 0);;
      enter_bucket e (masked (kc_hash c p n) size);;
      upd_elem e (set_data d);;
      mret 0) Q C w1.
Proof.
  intros Hr He Hp Hm Hd0 Hκ Hl1 Hch Hsz Hx Hkx Hc Hdata HQ. hsteps.
  apply wp_assert; [apply (table_mask w1 l1); by left|]. hsteps.
  assert (Hke : κ' e = (p, n)) by (rewrite Hκ; apply with_key_eq).
  replace (kc_hash c p n) with (kc_hash c (κ' e).1 (κ' e).2) by (by rewrite Hke).
  eapply (wp_enter c κ' w1 l1 e x); [done|done|by rewrite Hl1|done|congruence|].
  intros w2 l2 Hch2 Hl2 Hsz2 Hm2 Hs2 [Q1 Q2 Q3 Q4 Q5].
  assert (exists x2, heap w2 !! e = Some x2) as [x2 Hx2].
  { specialize (Q5 e). rewrite Hx in Q5. destruct (heap w2 !! e); [eauto|done]. }
  hsteps. eapply wp_upd_elem; [exact Hx2|]. apply wp_ret, HQ.
  exists κ', l2. rewrite Hκ. eapply (rep_insert κ l w m e p n d l2); try done.
  - by rewrite Hl2, Hl1.
  - rewrite <-Hκ. destruct Hch2 as [Hcl Hnd Hf Hl Hb]. split; try done. cbn [heap].
    intros a y b E. destruct (Hl a y b E) as (z & Hz & ?).
    destruct (decide (y = e)) as [->|Hne].
    + exists (set_data d x2). rewrite lookup_insert_eq. assert (z = x2) as -> by congruence. done.
    + exists z. by rewrite lookup_insert_ne by done.
  - cbn. lia.
  - intros y. cbn [heap]. case_decide as Hy; [subst; by rewrite lookup_insert_eq|].
    rewrite lookup_insert_ne by done. rewrite Q5. by apply Hdata.
Qed.

(** The table [w1] with the new element [e] in the store but not in a chain. *)
Record waiting κ' (w w1 : HW) (l l1 : list addr) (e : addr) (x : HashElem) : Prop := {
  wa_perm : l1 ≡ₚ l;
  wa_chained : chained c κ' w1 l1;
  wa_elem : heap w1 !! e = Some x;
  wa_count : count (tbl w1) = count (tbl w) + 1;
  wa_data : forall y, y <> e -> data <$> heap w1 !! y = data <$> heap w !! y
}.

Lemma waiting_rehashed κ' w w1 w2 l l1 l2 e x :
  waiting κ' w w1 l l1 e x -> e ∉ l -> chained c κ' w2 l2 -> l2 ≡ₚ l1 -> quiet l1 w1 w2 ->
  waiting κ' w w2 l l2 e x.
Proof.
  intros [Hp Hch He Hc Hd] Hel Hch2 Hp2 [Q1 Q2 Q3 Q4 Q5]. split; try done.
  - by rewrite Hp2.
  - rewrite Q4; [done|by rewrite Hp].
  - by rewrite Q3.
  - intros y Hy. rewrite Q5. by apply Hd.
Qed.

Lemma waiting_same κ' w w1 w2 l l1 e x :
  tbl w2 = tbl w1 -> heap w2 = heap w1 -> waiting κ' w w1 l l1 e x -> waiting κ' w w2 l l1 e x.
Proof.
  intros Et Eh [Hp Hch He Hc Hd]. split; rewrite ?Et, ?Eh; try done.
  eapply chained_ext; [done|..|exact Hch]; by rewrite ?Et, ?Eh.
Qed.

(** Growing the table when it is full, and the rest. *)
Lemma wp_resize κ κ' l l1 w w1 m e x p n d (Q : Z -> HW -> Prop) C :
  rep κ l w m -> e ∉ l -> key_ok c p n -> m !! norm c p n = None -> d <> 0 ->
  κ' = with_key κ e (p, n) -> (pKey x, nKey x) = (p, n) ->
  waiting κ' w w1 l l1 e x -> sized w1 ->
  (forall w', table_ok w' (<[norm c p n := d]> m) -> Q 0 w') ->
  wp (size ← tget htsize;
      if size =? 0 then tupd (set_count 0);; free e;; mret d
      else
        c0 ← tget count;
        mwhen (size <? c0) (rehash (size * 2));;
        size ← tget htsize;
        assert (Z.land size (size - 1) =? 0);;
        enter_bucket e (masked (kc_hash c p n) size);;
        upd_elem e (set_data d);;
        mret 0) Q C w1.
Proof.
  intros Hr He Hp Hm Hd0 Hκ Hkx Hw Hsz HQ. hsteps.
  pose proof Hsz as (k & Hk & Hs & _).
  destruct (Z.eqb_spec (htsize (tbl w1)) 0) as [H0|_]; [pose proof (Z.pow_pos_nonneg 2 k); lia|].
  assert (Hend : forall w2 l2, waiting κ' w w2 l l2 e x -> sized w2 ->
    wp (size ← tget htsize;
        assert (Z.land size (size - 1) =? 0);;
        enter_bucket e (masked (kc_hash c p n) size);;
        upd_elem e (set_data d);; mret 0) Q C w2).
  { intros w2 l2 [Hp2 Hch2 He2 Hc2 Hd2] Hsz2. by eapply (wp_enter_new κ κ' l l2 w w2). }
  hsteps. apply wp_when; intros Hfull.
  - rewrite Hs, Z.mul_comm, <-Z.pow_succ_r by done.
    apply (wp_rehash c κ' w1 l1); [apply Hw|lia| |].
    + intros bs _. apply (Hend _ l1); [|exact Hsz]. by apply (waiting_same κ' w w1).
    + intros _ w2 l2 Hch2 Hl2 Hsz2 _ _ Hq. apply (Hend _ l2); [|done].
      by eapply waiting_rehashed.
  - by eapply Hend.
Qed.

Lemma wp_insert_new κ l w m p n d (Q : Z -> HW -> Prop) C :
  rep κ l w m -> key_ok c p n -> m !! norm c p n = None -> d <> 0 ->
  (forall r w', inserted w m (norm c p n) d r w' -> Q r w') ->
  wp (insert_new p n (kc_hash c p n) d) Q C w.
Proof.
  intros Hr Hp Hm Hd0 HQ.
  assert (Hold : forall w', tbl w' = tbl w -> heap w' = heap w ->
    one_fails (needed (tbl w)) (mallocs w) = true -> Q d w').
  { intros w' Et Eh Hf. apply HQ. unfold inserted. by rewrite Hf. }
  assert (Hnew : one_fails (needed (tbl w)) (mallocs w) = false ->
    forall w', table_ok w' (<[norm c p n := d]> m) -> Q 0 w').
  { intros Hf w' Hw'. apply HQ. unfold inserted. by rewrite Hf. }
  unfold needed in Hold, Hnew. cbn [Nat.add] in Hold, Hnew. rewrite one_fails_S in Hold, Hnew.
  unfold insert_new, malloc_elem.
  apply wp_bind, wp_bind, wp_hash_malloc; intros Ha1; rewrite Ha1 in Hold, Hnew; cbn [negb orb] in Hold, Hnew;
    [|by apply wp_ret, wp_ret, Hold].
  set (w0 := mkHW _ _ _). set (e := fresh (dom (heap w))).
  assert (Hfresh : heap w !! e = None) by (apply not_elem_of_dom, is_fresh).
  assert (He : e ∉ l) by (intros [? ?]%(t_heap _ _ _ _ Hr); congruence).
  unfold wp at 1, new_elem. cbn [heap tbl mallocs w0]. fold e.
  set (hp1 := <[e := _]> (heap w)).
  assert (Hrest : forall ms,
    (forall w', tbl w' = tbl w -> heap w' = heap w ->
       one_fails (if htsize (tbl w) =? 0 then 1 else 0) ms = true -> Q d w') ->
    (one_fails (if htsize (tbl w) =? 0 then 1 else 0) ms = false ->
       forall w', table_ok w' (<[norm c p n := d]> m) -> Q 0 w') ->
    wp (upd_elem e (fun x => mkElem (next x) (prev x) (data x) p n);;
        c0 ← tget count; tupd (set_count (c0 + 1));;
        size ← tget htsize; mwhen (size =? 0) (rehash 8);;
        size ← tget htsize;
        if size =? 0 then tupd (set_count 0);; free e;; mret d
        else
          c0 ← tget count; mwhen (size <? c0) (rehash (size * 2));;
          size ← tget htsize; assert (Z.land size (size - 1) =? 0);;
          enter_bucket e (masked (kc_hash c p n) size);; upd_elem e (set_data d);; mret 0)
      Q C (mkHW (tbl w) hp1 ms)).
  { clear Hold Hnew. intros ms Hold Hnew. hsteps. eapply wp_upd_elem; [apply lookup_insert_eq|]. hsteps.
    cbn [tbl heap mallocs next prev data]. unfold hp1. rewrite insert_insert_eq.
    set (x := mkElem None None 0 p n). set (κ' := with_key κ e (p, n)).
    set (w1 := mkHW _ _ _).
    assert (Hw : waiting κ' w w1 l l e x).
    { split; try done.
      - eapply (chained_ext κ κ' w); [| |done..|apply Hr].
        + intros y Hy. apply with_key_ne. by intros ->.
        + intros y Hy. cbn [heap w1]. rewrite lookup_insert_ne; [done|]. by intros <-.
      - apply lookup_insert_eq.
      - intros y Hy. cbn [heap w1]. by rewrite lookup_insert_ne. }
    apply wp_when; intros H0.
    - apply Z.eqb_eq in H0. assert (Hz : htsize (tbl w) = 0) by exact H0. change 8 with (2 ^ 3).
      apply (wp_rehash c κ' w1 l); [apply Hw|lia| |].
      + intros bs Hbs. hsteps. unfold w1. cbn [tbl htsize set_count]. rewrite Hz. cbn [Z.eqb]. hsteps. eapply wp_free; [apply lookup_insert_eq|]. apply wp_ret.
        apply Hold; cbn [tbl heap].
        * pose proof (t_count _ _ _ _ Hr) as Hc.
          assert (l = []) as ->.
          { destruct (t_size _ _ _ _ Hr) as [(k & Hk & Hs & _)|(_ & _ & ?)]; [|done].
            pose proof (Z.pow_pos_nonneg 2 k). lia. }
          destruct (tbl w) as [? ? ? ? ? ?]. cbn in Hc. by subst.
        * by rewrite delete_insert_id.
        * rewrite (proj2 (Z.eqb_eq _ _) Hz), one_fails_S.
          change (mallocs w1) with ms in Hbs. by rewrite Hbs.
      + intros Hbs w2 l2 Hch2 Hl2 Hsz2 _ _ Hq.
        apply (wp_resize κ κ' l l2 w w2 m e x); try done;
          [|apply Hnew; rewrite (proj2 (Z.eqb_eq _ _) Hz), one_fails_S; change (mallocs w1) with ms in Hbs;
            rewrite Hbs; done]. by apply (waiting_rehashed κ' w w1 w2 l l l2).
    - apply (wp_resize κ κ' l l w w1 m e x); try done.
      2:{ apply Hnew. change (htsize (tbl w) =? 0 = false) in H0. by rewrite H0. }
      apply Z.eqb_neq in H0. destruct (t_size _ _ _ _ Hr) as [Hs|(? & _)]; [exact Hs|by destruct H0]. }
  hsteps. destruct (copyKey (tbl w)); cbn [Nat.add] in Hold, Hnew.
  - rewrite one_fails_S in Hold, Hnew.
    apply wp_hash_malloc; cbn [tbl heap mallocs]; intros Ha2; rewrite Ha2 in Hold, Hnew;
      cbn [negb orb] in Hold, Hnew |- *.
    + by apply Hrest.
    + hsteps. eapply wp_free; [apply lookup_insert_eq|]. apply wp_ret.
      apply Hold; [done| |done]. cbn [heap]. unfold hp1. by rewrite delete_insert_id.
  - apply wp_ret. cbn [negb]. by apply Hrest.
Qed.

(** What [sqliteHashInsert] returns and leaves, on every branch. *)
Definition insert_result (w : HW) (m : gmap (list Z) Z) (q : list Z) (d r : Z) (w' : HW) : Prop :=
  match m !! q with
  | Some old => r = old /\ table_ok w' (if d =? 0 then delete q m else <[q := d]> m)
  | None => if d =? 0 then r = 0 /\ table_ok w' m else inserted w m q d r w'
  end.

Lemma wp_insert w m p n d (Q : Z -> HW -> Prop) C :
  table_ok w m -> key_ok c p n ->
  (forall r w', insert_result w m (norm c p n) d r w' -> Q r w') ->
  wp (sqliteHashInsert p n d) Q C w.
Proof.
  intros (κ & l & Hr) Hp HQ. pose proof Hr as [Hch Hsz Hk _ _ _ _].
  unfold sqliteHashInsert. hsteps. apply (wp_xHash c); [apply Hch|]. hsteps.
  apply wp_assert; [by eapply table_mask|]. hsteps.
  apply (wp_find_element c κ w l); [done..|]. intros r Hf.
  pose proof (found_map _ _ _ _ _ _ Hr Hf) as Hfm. unfold insert_result in HQ. destruct r as [e|].
  - destruct Hfm as (He & Hn & x & Hx & Em). rewrite Em, <-Hn in HQ.
    hsteps. eapply wp_deref; [exact Hx|]. hsteps. destruct (Z.eqb_spec d 0) as [->|Hd].
    + pose proof He as (a & b & ->)%list_elem_of_split.
      assert (Hs : sized w) by (destruct Hsz as [?|(_ & _ & ?)]; [done|by destruct a]).
      specialize (proj1 Hk e He) as Hke.
      replace (kc_hash c p n) with (kc_hash c (κ e).1 (κ e).2) by (by apply kc_hash_norm).
      eapply (wp_remove c κ w a b e); [done|done|].
      intros w' Hch' Hs' _ Hc' _ Hdata. apply wp_ret, HQ. split; [done|]. exists κ, (a ++ b).
      eapply rep_delete; try done. by left.
    + eapply wp_upd_elem; [exact Hx|]. apply wp_ret, HQ. split; [done|]. exists κ, l.
      by apply rep_replace.
  - rewrite Hfm in HQ. destruct (Z.eqb_spec d 0) as [->|Hd].
    + apply wp_ret, HQ. split; [done|]. by exists κ, l.
    + by apply (wp_insert_new κ l w m).
Qed.

(** ** Clearing *)

Lemma wp_clear_loop κ r : forall fuel w (Q : unit -> HW -> Prop) C,
  (length r <= fuel)%nat -> forward κ (heap w) r -> NoDup r ->
  (forall hp, (forall y, y ∈ r -> hp !! y = None) -> (forall y, y ∉ r -> hp !! y = heap w !! y) ->
     Q tt (mkHW (tbl w) hp (mallocs w))) ->
  wp (clear_loop fuel (head r)) Q C w.
Proof.
  induction r as [|e r IH]; intros fuel w Q C Hf Hfw Hnd HQ.
  { destruct fuel; cbn [clear_loop head]; apply wp_ret; destruct w; apply HQ; try done;
      by intros y ?%elem_of_nil. }
  destruct fuel as [|fuel]; [simpl in Hf; lia|]. cbn [clear_loop head].
  apply forward_cons in Hfw as [(p & xe & Hxe & Hn & Hp & Hk) Hfw].
  apply NoDup_cons in Hnd as [He Hnd].
  hsteps. eapply wp_deref; [exact Hxe|]. hsteps. eapply wp_free; [exact Hxe|].
  rewrite Hn. apply IH; [simpl in Hf; lia| |done|].
  - eapply forward_ext; [|exact Hfw]. intros y Hy. cbn [heap]. rewrite lookup_delete_ne; [done|]. by intros <-.
  - cbn [tbl heap mallocs]. intros hp H1 H2. apply HQ.
    + intros y [->|Hy]%elem_of_cons; [|by apply H1]. rewrite H2 by done. apply lookup_delete_eq.
    + intros y [Hne Hy]%not_elem_of_cons. rewrite H2 by done. by rewrite lookup_delete_ne.
Qed.

Lemma rep_empty w κ : keyClass (tbl w) = c -> count (tbl w) = 0 -> first (tbl w) = None ->
  htsize (tbl w) = 0 -> ht (tbl w) = [] -> heap w = ∅ -> rep κ [] w ∅.
Proof.
  intros H1 H2 H3 H4 H5 H6. split; try done.
  - split; try done; [constructor|by intros [] ? ?|]. rewrite H5. intros h b. by rewrite lookup_nil.
  - right. done.
  - split; [by intros e ?%elem_of_nil|by intros e e' ?%elem_of_nil].
  - intros y. rewrite H6, lookup_empty. split; [by intros []|by intros ?%elem_of_nil].
  - intros q d. rewrite lookup_empty. split; [done|by intros (e & ?%elem_of_nil & _)].
Qed.

Lemma wp_clear w m (Q : unit -> HW -> Prop) C :
  table_ok w m -> (forall w', table_ok w' ∅ -> heap w' = ∅ -> Q tt w') -> wp sqliteHashClear Q C w.
Proof.
  intros (κ & l & Hr) HQ. pose proof Hr as [[Hcl Hnd Hf Hl _] _ _ _ Hh _ _].
  unfold sqliteHashClear. hsteps. rewrite Hf.
  apply (wp_clear_loop κ); [by eapply linked_fuel|by eapply linked_forward|done|].
  cbn [tbl heap mallocs]. intros hp H1 H2. hsteps.
  assert (Hhp : hp = ∅).
  { apply map_empty. intros y. destruct (decide (y ∈ l)) as [Hy|Hy]; [by apply H1|].
    rewrite H2 by done. destruct (heap w !! y) eqn:E; [|done]. destruct Hy. apply Hh. eauto. }
  apply HQ; [|done]. exists κ, []. by apply rep_empty.
Qed.
End Map.

(** * Sequences of calls *)

Inductive hash_op :=
| HFind (p : list Z) (n : Z)
| HInsert (p : list Z) (n d : Z)
| HClear.

Definition run_hash_op (o : hash_op) : M HW Z :=
  match o with
  | HFind p n => sqliteHashFind p n
  | HInsert p n d => sqliteHashInsert p n d
  | HClear => sqliteHashClear;; mret 0
  end.

Fixpoint run_hash_ops (os : list hash_op) : M HW (list Z) :=
  match os with
  | [] => mret []
  | o :: os => r ← run_hash_op o; rs ← run_hash_ops os; mret (r :: rs)
  end.

(** The same calls on a finite map. *)
Definition map_op (c : Z) `{KeyClass c} (o : hash_op) (m : gmap (list Z) Z) : Z * gmap (list Z) Z :=
  match o with
  | HFind p n => (default 0 (m !! norm c p n), m)
  | HInsert p n d =>
      (default 0 (m !! norm c p n), if d =? 0 then delete (norm c p n) m else <[norm c p n := d]> m)
  | HClear => (0, ∅)
  end.

Fixpoint map_ops (c : Z) `{KeyClass c} (os : list hash_op) (m : gmap (list Z) Z) : list Z :=
  match os with
  | [] => []
  | o :: os => (map_op c o m).1 :: map_ops c os (map_op c o m).2
  end.

Definition op_key_ok (c : Z) `{KeyClass c} (o : hash_op) : Prop :=
  match o with
  | HFind p n | HInsert p n _ => key_ok c p n
  | HClear => True
  end.

(** A piece of code that lets every allocation succeed when none is set to fail. *)
Definition plenty {A} (m : M HW A) : Prop :=
  forall w a w', m w = Done a w' -> mallocs w = [] -> mallocs w' = [].

Lemma plenty_ret {A} (a : A) : plenty (mret a).
Proof. intros w a' w' E. by injection E as _ <-. Qed.
Lemma plenty_bind {A B} (m : M HW A) (f : A -> M HW B) :
  plenty m -> (forall a, plenty (f a)) -> plenty (m ≫= f).
Proof.
  intros Hm Hf w b w' E H. unfold mbind, M_bind in E.
  destruct (m w) as [a w1| |] eqn:Ea; [|done..]. eapply Hf; [exact E|]. by eapply Hm.
Qed.
Lemma plenty_get {A} (f : Hash -> A) : plenty (tget f).
Proof. intros w a' w' E. by injection E as _ <-. Qed.
Lemma plenty_upd f : plenty (tupd f).
Proof. intros w a' w' E. by injection E as _ <-. Qed.
Lemma plenty_mget : plenty mget.
Proof. intros w a' w' E. by injection E as _ <-. Qed.
Lemma plenty_stuck {A} : plenty (@mstuck HW A).
Proof. by intros w ? ?. Qed.
Lemma plenty_deref e : plenty (deref e).
Proof. intros w a w'. unfold deref. destruct (heap w !! e); [|done]. by intros [= _ ->]. Qed.
Lemma plenty_upd_elem e f : plenty (upd_elem e f).
Proof. intros w a w'. unfold upd_elem. destruct (heap w !! e); [|done]. by intros [= _ <-]. Qed.
Lemma plenty_free e : plenty (free e).
Proof. intros w a w'. unfold free. destruct (heap w !! e); [|done]. by intros [= _ <-]. Qed.
Lemma plenty_get_bucket h : plenty (get_bucket h).
Proof. intros w a w'. unfold get_bucket. destruct (ht (tbl w) !! Z.to_nat h); [|done]. by intros [= _ ->]. Qed.
Lemma plenty_malloc : plenty malloc_ok.
Proof. intros w a w' E H. unfold malloc_ok in E. rewrite H in E. by injection E as _ <-. Qed.
Lemma plenty_new_elem : plenty new_elem.
Proof. intros w a' w' E. by injection E as _ <-. Qed.
Lemma plenty_assert b : plenty (assert b).
Proof. destruct b; [apply plenty_ret|apply plenty_stuck]. Qed.
Lemma plenty_when b m : plenty m -> plenty (mwhen b m).
Proof. destruct b; [done|]. intros _. apply plenty_ret. Qed.

Create HintDb plenty.
#[export] Hint Resolve plenty_ret plenty_bind plenty_get plenty_upd plenty_mget plenty_stuck
  plenty_deref plenty_upd_elem plenty_free plenty_get_bucket plenty_malloc plenty_new_elem
  plenty_assert plenty_when : plenty.

(** Walk through the code. *)
Ltac plenty_tac :=
  repeat first
    [ progress intros | progress cbv zeta
    | match goal with |- plenty (_ ≫= _) => apply plenty_bind end
    | match goal with |- plenty (mwhen _ _) => apply plenty_when end
    | solve [auto with plenty]
    | case_match ].

Lemma plenty_link e x : plenty (link_elem e x).
Proof. unfold link_elem. plenty_tac. Qed.
Lemma plenty_enter e h : plenty (enter_bucket e h).
Proof. unfold enter_bucket, set_bucket. plenty_tac. apply plenty_link. Qed.
#[export] Hint Resolve plenty_link plenty_enter : plenty.
Lemma plenty_hash p n : plenty (xHash p n).
Proof. unfold xHash. plenty_tac. Qed.
Lemma plenty_compare p n q m : plenty (xCompare p n q m).
Proof. unfold xCompare. plenty_tac. Qed.
#[export] Hint Resolve plenty_hash plenty_compare : plenty.
Lemma plenty_rehash_loop fuel : forall size e, plenty (rehash_loop fuel size e).
Proof. induction fuel; intros; cbn [rehash_loop]; plenty_tac. Qed.
Lemma plenty_find_loop n : forall e p k, plenty (find_loop n e p k).
Proof. induction n; intros; cbn [find_loop]; plenty_tac. Qed.
Lemma plenty_clear_loop fuel : forall e, plenty (clear_loop fuel e).
Proof. induction fuel; intros; cbn [clear_loop]; plenty_tac. Qed.
#[export] Hint Resolve plenty_rehash_loop plenty_find_loop plenty_clear_loop : plenty.
Lemma plenty_rehash size : plenty (rehash size).
Proof. unfold rehash. plenty_tac. Qed.
Lemma plenty_find p k h : plenty (findElementGivenHash p k h).
Proof. unfold findElementGivenHash. plenty_tac. Qed.
Lemma plenty_remove e h : plenty (removeElementGivenHash e h).
Proof. unfold removeElementGivenHash, set_bucket. plenty_tac. Qed.
#[export] Hint Resolve plenty_rehash plenty_find plenty_remove : plenty.

Lemma plenty_op o : plenty (run_hash_op o).
Proof.
  destruct o; unfold run_hash_op, sqliteHashFind, sqliteHashInsert, sqliteHashClear, insert_new, malloc_elem;
    plenty_tac.
Qed.

(** One call on a table that never runs out of memory. *)
Lemma wp_hash_op c `{KeyClass c} o w m (Q : Z -> HW -> Prop) C :
  table_ok c w m -> mallocs w = [] -> op_key_ok c o ->
  (forall w', table_ok c w' (map_op c o m).2 -> mallocs w' = [] -> Q (map_op c o m).1 w') ->
  wp (run_hash_op o) Q C w.
Proof.
  intros Ht Hm Hk HQ.
  assert (Hwp : wp (run_hash_op o) (fun r w' => r = (map_op c o m).1 /\ table_ok c w' (map_op c o m).2)
    (fun _ => False) w).
  { destruct o as [p n|p n d|]; cbn [run_hash_op map_op fst snd].
    - by apply (wp_find c w m).
    - apply (wp_insert c w m); [done|done|]. intros r w'. unfold insert_result.
      destruct (m !! norm c p n) eqn:E; cbn [default]; [done|].
      destruct (Z.eqb_spec d 0) as [->|Hd].
      + intros [-> ?]. split; [done|]. by rewrite delete_id.
      + unfold inserted, one_fails. rewrite Hm, take_nil. done.
    - hsteps. apply (wp_clear c w m); [done|]. intros w' Hw' _. by apply wp_ret. }
  unfold wp in *. destruct (run_hash_op o w) as [r w'| |] eqn:E; [|done..].
  destruct Hwp as [-> Hw']. apply HQ; [done|]. by eapply plenty_op.
Qed.

Lemma wp_hash_ops c `{KeyClass c} os : forall w m,
  table_ok c w m -> mallocs w = [] -> Forall (op_key_ok c) os ->
  wp (run_hash_ops os) (fun rs _ => rs = map_ops c os m) (fun _ => False) w.
Proof.
  induction os as [|o os IH]; intros w m Ht Hm Hk; cbn [run_hash_ops map_ops]; [by apply wp_ret|].
  apply Forall_cons_1 in Hk as [Ho Hk]. hsteps.
  apply (wp_hash_op c o w m); [done..|]. intros w' Ht' Hm'. hsteps.
  eapply wp_mono; [by apply (IH w' _ Ht' Hm' Hk)| |done]. by intros rs w2 ->.
Qed.

Lemma init_rep c `{KeyClass c} copy h ms κ :
  sqliteHashInit c copy = Some h -> rep c κ [] (mkHW h ∅ ms) ∅.
Proof.
  unfold sqliteHashInit. case_match; [|done]. intros [= <-]. by apply rep_empty.
Qed.

(** * Theorems *)

(** C22: The hash table implements a finite map.  Whatever calls are made on a table
    that was just initialised, with keys of its class and allocations that succeed,
    every call returns, none of them touches memory it does not own, and the results
    are those of the same calls on a map from keys, equal up to their case in the
    string class, to pointers. *)
Theorem hash_refines_map c `{KeyClass c} copy h os :
  sqliteHashInit c copy = Some h -> Forall (op_key_ok c) os ->
  exists w', run_hash_ops os (mkHW h ∅ []) = Done (map_ops c os ∅) w'.
Proof.
  intros Hi Hk. destruct (wp_returns (run_hash_ops os) (fun rs _ => rs = map_ops c os ∅) (mkHW h ∅ []))
    as (rs & w' & E & ->); [|by exists w'].
  apply wp_hash_ops; [|done|done]. exists (fun _ => ([], 0)), []. by eapply init_rep.
Qed.

Definition demo_ops : list hash_op :=
  [HInsert (bytes_of_string "abc") 3 7; HInsert (bytes_of_string "ABC") 3 8;
   HFind (bytes_of_string "aBc") 3; HInsert (bytes_of_string "abc") 3 0; HFind (bytes_of_string "abc") 3].

Lemma hash_refines_map_witness :
  exists w', run_hash_ops demo_ops (mkHW (mkHash 3 true 0 None 0 []) ∅ []) = Done [0; 7; 8; 8; 0] w'.
Proof.
  destruct (hash_refines_map SQLITE_HASH_STRING true (mkHash 3 true 0 None 0 []) demo_ops) as [w' E].
  - reflexivity.
  - unfold demo_ops. repeat constructor; cbn; unfold key_size, cchar; simpl; lia.
  - exists w'. etransitivity; [exact E|]. f_equal.
Defined.

(** The table of buckets is too small for another entry. *)
Definition grows (t : Hash) : bool := negb (htsize t =? 0) && (htsize t <? count t + 1).

(** The allocations a new entry makes as long as none fails. *)
Definition attempts (t : Hash) : nat := needed t + (if grows t then 1 else 0).

Lemma one_fails_add n ms : one_fails (n + 1) ms = one_fails n ms || negb (nth n ms true).
Proof.
  revert ms. induction n as [|n IH]; intros ms; cbn [Nat.add]; rewrite one_fails_S.
  - destruct ms; [done|]. cbn. by rewrite orb_false_r.
  - rewrite IH, one_fails_S, orb_assoc. by destruct ms as [|b ms]; [destruct n|].
Qed.

(** What the comment of [sqliteHashInsert] promises of [m], the contents before. *)
Definition insert_promise c `{KeyClass c} (w : HW) (m : gmap (list Z) Z) (q : list Z) (d r : Z) (w' : HW) : Prop :=
  match m !! q with
  | Some old => r = old /\ table_ok c w' (if d =? 0 then delete q m else <[q := d]> m)
  | None =>
      if d =? 0 then r = 0 /\ table_ok c w' m
      else if one_fails (attempts (tbl w)) (mallocs w) then r = d /\ tbl w' = tbl w /\ heap w' = heap w
      else r = 0 /\ table_ok c w' (<[q := d]> m)
  end.

(** C23: [sqliteHashInsert] on every branch: it replaces or removes the entry of a key
    the table has and returns the old data; removing a key the table lacks does
    nothing and returns NULL; a new entry is added and NULL returned when every
    allocation it makes succeeds, and when one fails (the element, the copy of the key,
    the first table of buckets) the new data is returned and the table is unchanged.
    A failing allocation of a larger table of buckets is left out: the entry is added
    all the same ([hash_grow_failure]). *)
Theorem hash_insert_correct c `{KeyClass c} w m p n d :
  table_ok c w m -> key_ok c p n ->
  (grows (tbl w) = true -> nth (needed (tbl w)) (mallocs w) true = true) ->
  exists r w', sqliteHashInsert p n d w = Done r w' /\ insert_promise c w m (norm c p n) d r w'.
Proof.
  intros Ht Hk Hg. apply wp_returns. apply (wp_insert c w m p n d _ _ Ht Hk).
  intros r w'. unfold insert_result, insert_promise, inserted, attempts.
  destruct (grows (tbl w)); [|by rewrite Nat.add_0_r].
  by rewrite one_fails_add, Hg, orb_false_r.
Qed.

Lemma hash_insert_correct_witness :
  exists w', sqliteHashInsert [] 5 9 (mkHW (mkHash 1 false 0 None 0 []) ∅ [true; false]) = Done 9 w' /\
    tbl w' = mkHash 1 false 0 None 0 [] /\ heap w' = ∅.
Proof.
  destruct (hash_insert_correct SQLITE_HASH_INT (mkHW (mkHash 1 false 0 None 0 []) ∅ [true; false]) ∅ [] 5 9)
    as (r & w' & E & Hr).
  - exists (fun _ => ([], 0)), []. by apply (init_rep SQLITE_HASH_INT false).
  - cbn. unfold is_int32. lia.
  - vm_compute. discriminate.
  - exists w'. destruct Hr as (-> & H1 & H2). split; [exact E|]. split; [exact H1|exact H2].
Defined.

(** The ninth entry of a table with eight buckets, without memory for sixteen: it is
    added and NULL is returned, where the comment promises the new data and a table
    that is unchanged. *)
Example hash_grow_failure :
  match run_hash_ops ((fun k => HInsert [] k (k + 100)) <$> [1; 2; 3; 4; 5; 6; 7; 8])
    (mkHW (mkHash 1 false 0 None 0 []) ∅ []) with
  | Done _ w =>
      match sqliteHashInsert [] 9 109 (mkHW (tbl w) (heap w) [true; false]) with
      | Done r w' => (r, count (tbl w'), htsize (tbl w')) = (0, 9, 8) /\
          (r ← (match sqliteHashFind [] 9 w' with Done r _ => Some r | _ => None end); Some r) = Some 109
      | _ => False
      end
  | _ => False
  end.
Proof. vm_compute. auto. Qed.

(** C24: [sqliteHashClear] frees every element exactly once and leaves an empty table. *)
Theorem hash_clear_frees c `{KeyClass c} w m :
  table_ok c w m ->
  exists w', sqliteHashClear w = Done tt w' /\ table_ok c w' ∅ /\ heap w' = ∅.
Proof.
  intros Ht. destruct (wp_returns sqliteHashClear (fun _ w' => table_ok c w' ∅ /\ heap w' = ∅) w)
    as ([] & w' & E & H'); [|by exists w'].
  by apply (wp_clear c w m).
Qed.

Lemma hash_clear_frees_witness :
  exists w', sqliteHashClear (mkHW (mkHash 1 false 0 None 0 []) ∅ []) = Done tt w' /\ heap w' = ∅.
Proof.
  destruct (hash_clear_frees SQLITE_HASH_INT (mkHW (mkHash 1 false 0 None 0 []) ∅ []) ∅) as (w' & E & _ & Hh).
  - exists (fun _ => ([], 0)), []. by apply (init_rep SQLITE_HASH_INT false).
  - exists w'. split; [exact E|exact Hh].
Defined.
