(* ===== verification/OsFile.v ===== *)
(** The file primitives of [ext/sqlite-2.8.17/src/os.c] (Unix branches) that the
    pager calls, over a model of the files themselves.

    A file is its bytes, the bytes known to have reached the disk at the last
    [fsync], and the position of the descriptor.  Every system call may fail or
    be the point where the process dies: what happens is read from a schedule
    that is part of the state, so that a theorem about all states is a theorem
    about all ways the calls can go wrong. *)
From S2P Require Import Prelude.

(** * Result codes (sqlite.h.in) *)

Definition SQLITE_OK : Z := 0.
Definition SQLITE_ERROR : Z := 1.
Definition SQLITE_INTERNAL : Z := 2.
Definition SQLITE_PERM : Z := 3.
Definition SQLITE_BUSY : Z := 5.
Definition SQLITE_NOMEM : Z := 7.
Definition SQLITE_IOERR : Z := 10.
Definition SQLITE_CORRUPT : Z := 11.
Definition SQLITE_FULL : Z := 13.
Definition SQLITE_CANTOPEN : Z := 14.
Definition SQLITE_PROTOCOL : Z := 15.
Definition SQLITE_DONE : Z := 101.

(** * Files *)

Record file := mk_file {
  f_data : list Z;     (** the bytes any process reads *)
  f_synced : list Z;   (** the bytes at the last successful [fsync] *)
  f_pos : nat          (** the descriptor's read/write position *)
}.

(** [write(2)] of [bs] at [pos]: a gap is filled with zeros. *)
Definition splice (data : list Z) (pos : nat) (bs : list Z) : list Z :=
  take pos data ++ replicate (pos - length data) 0 ++ bs ++ drop (pos + length bs) data.

Definition file_write (f : file) (bs : list Z) : file :=
  if decide (bs = []) then f
  else mk_file (splice (f_data f) (f_pos f) bs) (f_synced f) (f_pos f + length bs).

(** The bytes [read(2)] delivers. *)
Definition file_read (f : file) (n : nat) : list Z := take n (drop (f_pos f) (f_data f)).

(** [ftruncate(2)] cuts a file or extends it with zeros. *)
Definition resize (data : list Z) (n : nat) : list Z :=
  take n data ++ replicate (n - length data) 0.

(** What the next system call does. *)
Inductive fault :=
| F_ok
| F_err (k : nat)     (** it fails, a transfer after [k] bytes *)
| F_crash (k : nat).  (** the process dies in it, a transfer after [k] bytes *)

(** The strength of the lock the process holds on the database file. *)
Inductive lock := NoLock | ReadLock | WriteLock.
#[export] Instance lock_eq_dec : EqDecision lock.
Proof. solve_decision. Defined.

(** The files of one database. *)
Record disk := mk_disk {
  d_db : file;             (** the database file *)
  d_journal : file;        (** the rollback journal *)
  d_jexists : bool;        (** the journal has a directory entry *)
  d_ckpt : file;           (** the checkpoint journal, a nameless temporary file *)
  d_lock : lock;
  d_random : list Z;       (** 32-bit values the random number generator delivers *)
  d_faults : list fault    (** what the coming system calls do; then they succeed *)
}.

Inductive fileid := FD | JFD | CPFD.

Definition get_file (i : fileid) (d : disk) : file :=
  match i with FD => d_db d | JFD => d_journal d | CPFD => d_ckpt d end.

Definition set_file (i : fileid) (f : file) (d : disk) : disk :=
  let '(mk_disk db j je cp l r fs) := d in
  match i with
  | FD => mk_disk f j je cp l r fs
  | JFD => mk_disk db f je cp l r fs
  | CPFD => mk_disk db j je f l r fs
  end.

Definition set_jexists (b : bool) (d : disk) : disk :=
  let '(mk_disk db j je cp l r fs) := d in mk_disk db j b cp l r fs.
Definition set_lock (k : lock) (d : disk) : disk :=
  let '(mk_disk db j je cp l r fs) := d in mk_disk db j je cp k r fs.
Definition set_random (k : list Z) (d : disk) : disk :=
  let '(mk_disk db j je cp l r fs) := d in mk_disk db j je cp l k fs.
Definition set_faults (k : list fault) (d : disk) : disk :=
  let '(mk_disk db j je cp l r fs) := d in mk_disk db j je cp l r k.

(** * System calls *)

(** A call that has no effect on the files when it fails or dies early, and the
    effect [f] otherwise: [F_crash 0] dies before it, [F_crash (S _)] after it. *)
Definition os_call (err : Z) (f : disk -> disk) : M disk Z := fun d =>
  match d_faults d with
  | [] => Done SQLITE_OK (f d)
  | F_ok :: fs => Done SQLITE_OK (f (set_faults fs d))
  | F_err _ :: fs => Done err (set_faults fs d)
  | F_crash O :: fs => Crashed (set_faults fs d)
  | F_crash (S _) :: fs => Crashed (f (set_faults fs d))
  end.

(** How much of a [write] of [n] bytes is in the file when the process dies in
    it.  A write within one 512-byte sector is atomic (pager.c relies on it, see
    the comment before [sqlitepager_set_safety_level]). *)
Definition torn (n k : nat) : nat :=
  if Nat.leb n 512 then match k with O => O | S _ => n end else k.

(** [sqliteOsWrite]: the loop stops at the first short [write]; [SQLITE_FULL]
    means that not all bytes were written. *)
Definition sqliteOsWrite (i : fileid) (bs : list Z) : M disk Z := fun d =>
  let put (k : nat) (d : disk) := set_file i (file_write (get_file i d) (take k bs)) d in
  match d_faults d with
  | [] => Done SQLITE_OK (put (length bs) d)
  | F_ok :: fs => Done SQLITE_OK (put (length bs) (set_faults fs d))
  | F_err k :: fs => Done SQLITE_FULL (put (k `min` (length bs - 1))%nat (set_faults fs d))
  | F_crash k :: fs => Crashed (put (torn (length bs) k) (set_faults fs d))
  end.

(** [sqliteOsRead]: [SQLITE_OK] only if all [amt] bytes were read. *)
Definition sqliteOsRead (i : fileid) (amt : nat) : M disk (Z * list Z) := fun d =>
  let read (k : nat) (d : disk) :=
    let f := get_file i d in
    let got := file_read f k in
    (got, set_file i (mk_file (f_data f) (f_synced f) (f_pos f + length got)) d) in
  let whole (d : disk) :=
    let '(got, d') := read amt d in
    Done (if Nat.eqb (length got) amt then SQLITE_OK else SQLITE_IOERR, got) d' in
  match d_faults d with
  | [] => whole d
  | F_ok :: fs => whole (set_faults fs d)
  | F_err k :: fs =>
      let '(got, d') := read (k `min` (amt - 1))%nat (set_faults fs d) in
      Done (SQLITE_IOERR, got) d'
  | F_crash _ :: fs => Crashed (set_faults fs d)
  end.

Definition sqliteOsSeek (i : fileid) (off : nat) : M disk unit := fun d =>
  let f := get_file i d in
  Done tt (set_file i (mk_file (f_data f) (f_synced f) off) d).

Definition sqliteOsSync (i : fileid) : M disk Z :=
  os_call SQLITE_IOERR (fun d =>
    let f := get_file i d in set_file i (mk_file (f_data f) (f_data f) (f_pos f)) d).

Definition sqliteOsTruncate (i : fileid) (nByte : nat) : M disk Z :=
  os_call SQLITE_IOERR (fun d =>
    let f := get_file i d in
    set_file i (mk_file (resize (f_data f) nByte) (f_synced f) (f_pos f)) d).

Definition sqliteOsFileSize (i : fileid) : M disk (Z * nat) := fun d =>
  match os_call SQLITE_IOERR (fun d => d) d with
  | Done rc d' => Done (rc, length (f_data (get_file i d'))) d'
  | Crashed d' => Crashed d'
  | Stuck => Stuck
  end.

(** Opening the journal exclusively: it must not exist. *)
Definition sqliteOsOpenExclusive_journal (delFlag : bool) : M disk Z := fun d =>
  if d_jexists d then Done SQLITE_CANTOPEN d
  else os_call SQLITE_CANTOPEN
    (fun d => set_jexists (negb delFlag) (set_file JFD (mk_file [] [] 0) d)) d.

(** Opening a fresh temporary file for the checkpoint journal. *)
Definition sqliteOsOpenExclusive_ckpt : M disk Z :=
  os_call SQLITE_CANTOPEN (set_file CPFD (mk_file [] [] 0)).

Definition sqliteOsOpenReadOnly_journal : M disk Z := fun d =>
  if d_jexists d then
    os_call SQLITE_CANTOPEN
      (fun d => set_file JFD (mk_file (f_data (d_journal d)) (f_synced (d_journal d)) 0) d) d
  else Done SQLITE_CANTOPEN d.

(** [sqliteOsDelete] ignores the result of [unlink], and so does its caller. *)
Definition sqliteOsDelete_journal : M disk Z := os_call SQLITE_OK (set_jexists false).

Definition sqliteOsFileExists_journal : M disk bool := fun d => Done (d_jexists d) d.

(** * Locks, as one holder sees them

    Whether another process lets the call succeed is left to the schedule;
    OsLocks.v has the locks of several processes. *)
Definition sqliteOsReadLock : M disk Z := os_call SQLITE_BUSY (set_lock ReadLock).
Definition sqliteOsWriteLock : M disk Z := os_call SQLITE_BUSY (set_lock WriteLock).
Definition sqliteOsUnlock : M disk Z := os_call SQLITE_BUSY (set_lock NoLock).

(** [sqliteMalloc] delivers memory or NULL. *)
Definition sqliteMalloc : M disk bool := fun d =>
  match d_faults d with
  | [] => Done true d
  | F_ok :: fs => Done true (set_faults fs d)
  | F_err _ :: fs => Done false (set_faults fs d)
  | F_crash _ :: fs => Crashed (set_faults fs d)
  end.

(** [sqliteRandomness(4, &x)] *)
Definition os_random32 : M disk Z := fun d =>
  match d_random d with
  | [] => Done 0 d
  | r :: rs => Done (r `mod` 4294967296) (set_random rs d)
  end.

(** * What the calls guarantee

    [no_err]: no system call fails, though the process may die in any of them. *)
Definition no_err (d : disk) : Prop :=
  Forall (fun f => match f with F_err _ => False | _ => True end) (d_faults d).

Definition no_faults (d : disk) : Prop := d_faults d = [].

Lemma no_faults_no_err d : no_faults d -> no_err d.
Proof. unfold no_faults, no_err. intros ->. constructor. Qed.

Lemma set_faults_id d : set_faults (d_faults d) d = d.
Proof. by destruct d. Qed.

Lemma no_err_tail d f fs : no_err d -> d_faults d = f :: fs -> no_err (set_faults fs d).
Proof.
  unfold no_err. intros H E. rewrite E in H. apply Forall_cons_1 in H as [_ H].
  by destruct d.
Qed.

(** Rules for a call under [no_err]: the continuation holds for the effect on the
    disk with any shorter schedule, and the crash condition before and after. *)
Lemma wp_os_call err f (Q : Z -> disk -> Prop) (C : disk -> Prop) d :
  no_err d ->
  (forall fs, no_err (set_faults fs d) ->
     Q SQLITE_OK (f (set_faults fs d)) /\ C (set_faults fs d) /\ C (f (set_faults fs d))) ->
  wp (os_call err f) Q C d.
Proof.
  intros Hn H. unfold wp, os_call. destruct (d_faults d) as [|[|k|[|k]] fs] eqn:E.
  - rewrite <- (set_faults_id d) in Hn |- *. by apply H.
  - by apply H, (no_err_tail _ _ _ Hn E).
  - unfold no_err in Hn. rewrite E in Hn. by apply Forall_cons_1 in Hn as [[] _].
  - by apply H, (no_err_tail _ _ _ Hn E).
  - by apply H, (no_err_tail _ _ _ Hn E).
Qed.

Definition write_file (i : fileid) (bs : list Z) (d : disk) : disk :=
  set_file i (file_write (get_file i d) bs) d.

Lemma wp_write i bs (Q : Z -> disk -> Prop) (C : disk -> Prop) d :
  no_err d ->
  (forall fs, no_err (set_faults fs d) ->
     Q SQLITE_OK (write_file i bs (set_faults fs d)) /\
     forall k, C (write_file i (take (torn (length bs) k) bs) (set_faults fs d))) ->
  wp (sqliteOsWrite i bs) Q C d.
Proof.
  intros Hn H. unfold wp, sqliteOsWrite. fold write_file.
  destruct (d_faults d) as [|[|k|k] fs] eqn:E.
  - rewrite <- (set_faults_id d) in Hn |- *. rewrite take_ge by done. by apply H.
  - rewrite take_ge by done. by apply H, (no_err_tail _ _ _ Hn E).
  - unfold no_err in Hn. rewrite E in Hn. by apply Forall_cons_1 in Hn as [[] _].
  - by apply H, (no_err_tail _ _ _ Hn E).
Qed.

(** The descriptor after [n] bytes were read. *)
Definition advance (i : fileid) (n : nat) (d : disk) : disk :=
  let f := get_file i d in
  set_file i (mk_file (f_data f) (f_synced f) (f_pos f + n)) d.

Lemma wp_read i n (Q : Z * list Z -> disk -> Prop) (C : disk -> Prop) d :
  no_err d ->
  (forall fs, no_err (set_faults fs d) ->
     let got := file_read (get_file i d) n in
     Q (if Nat.eqb (length got) n then SQLITE_OK else SQLITE_IOERR, got)
       (advance i (length got) (set_faults fs d)) /\
     C (set_faults fs d)) ->
  wp (sqliteOsRead i n) Q C d.
Proof.
  intros Hn H. unfold wp, sqliteOsRead.
  assert (Hf : forall fs, get_file i (set_faults fs d) = get_file i d)
    by (intros; destruct i, d; done).
  destruct (d_faults d) as [|[|k|k] fs] eqn:E.
  - pose proof (H (d_faults d)) as H'. rewrite set_faults_id in H'.
    apply H' in Hn. by apply Hn.
  - rewrite Hf. destruct (H fs (no_err_tail _ _ _ Hn E)) as [H1 _].
    unfold advance in H1. rewrite Hf in H1. exact H1.
  - unfold no_err in Hn. rewrite E in Hn. by apply Forall_cons_1 in Hn as [[] _].
  - by apply H, (no_err_tail _ _ _ Hn E).
Qed.

Lemma wp_seek i off (Q : unit -> disk -> Prop) C d :
  (let f := get_file i d in Q tt (set_file i (mk_file (f_data f) (f_synced f) off) d)) ->
  wp (sqliteOsSeek i off) Q C d.
Proof. done. Qed.

Lemma wp_filesize i (Q : Z * nat -> disk -> Prop) (C : disk -> Prop) d :
  no_err d ->
  (forall fs, no_err (set_faults fs d) ->
     Q (SQLITE_OK, length (f_data (get_file i d))) (set_faults fs d) /\
     C (set_faults fs d)) ->
  wp (sqliteOsFileSize i) Q C d.
Proof.
  intros Hn H. unfold wp, sqliteOsFileSize.
  assert (Hf : forall fs, get_file i (set_faults fs d) = get_file i d)
    by (intros; destruct i, d; done).
  pose proof (wp_os_call SQLITE_IOERR (fun d => d)
    (fun rc d' => Q (rc, length (f_data (get_file i d'))) d') C d Hn) as W.
  unfold wp in W. destruct (os_call _ _ d); apply W; intros fs Hfs.
  all: rewrite Hf; destruct (H fs Hfs); auto.
Qed.

Lemma wp_malloc (Q : bool -> disk -> Prop) (C : disk -> Prop) d :
  no_err d ->
  (forall fs, no_err (set_faults fs d) -> Q true (set_faults fs d) /\ C (set_faults fs d)) ->
  wp sqliteMalloc Q C d.
Proof.
  intros Hn H. unfold wp, sqliteMalloc. destruct (d_faults d) as [|[|k|k] fs] eqn:E.
  - rewrite <- (set_faults_id d) in Hn |- *. by apply H.
  - by apply H, (no_err_tail _ _ _ Hn E).
  - unfold no_err in Hn. rewrite E in Hn. by apply Forall_cons_1 in Hn as [[] _].
  - by apply H, (no_err_tail _ _ _ Hn E).
Qed.

Lemma wp_file_exists (Q : bool -> disk -> Prop) C d :
  Q (d_jexists d) d -> wp sqliteOsFileExists_journal Q C d.
Proof. done. Qed.

(** A journal opened for reading is read from its start. *)
Definition rewound (d : disk) : disk :=
  set_file JFD (mk_file (f_data (d_journal d)) (f_synced (d_journal d)) 0) d.

Lemma wp_open_readonly (Q : Z -> disk -> Prop) (C : disk -> Prop) d :
  no_err d -> d_jexists d = true ->
  (forall fs, no_err (set_faults fs d) ->
     Q SQLITE_OK (rewound (set_faults fs d)) /\ C (set_faults fs d) /\
     C (rewound (set_faults fs d))) ->
  wp sqliteOsOpenReadOnly_journal Q C d.
Proof.
  intros Hn Hj H. unfold wp, sqliteOsOpenReadOnly_journal. rewrite Hj.
  by apply (wp_os_call SQLITE_CANTOPEN rewound Q C d).
Qed.

(** A fresh journal. *)
Definition fresh_journal (d : disk) : disk := set_jexists true (set_file JFD (mk_file [] [] 0) d).

Lemma wp_open_exclusive (Q : Z -> disk -> Prop) (C : disk -> Prop) d :
  no_err d -> d_jexists d = false ->
  (forall fs, no_err (set_faults fs d) ->
     Q SQLITE_OK (fresh_journal (set_faults fs d)) /\ C (set_faults fs d) /\
     C (fresh_journal (set_faults fs d))) ->
  wp (sqliteOsOpenExclusive_journal false) Q C d.
Proof.
  intros Hn Hj H. unfold wp, sqliteOsOpenExclusive_journal. rewrite Hj.
  by apply (wp_os_call SQLITE_CANTOPEN fresh_journal Q C d).
Qed.

Lemma file_write_nil f : file_write f [] = f.
Proof. done. Qed.

Lemma file_write_data f bs : bs <> [] -> f_data (file_write f bs) = splice (f_data f) (f_pos f) bs.
Proof. intros. unfold file_write. by rewrite decide_False. Qed.

Lemma file_write_pos f bs : f_pos (file_write f bs) = (f_pos f + length bs)%nat.
Proof. unfold file_write. case_decide; [subst; cbn; lia|done]. Qed.
