(* ===== verification/BtreePage.v ===== *)
(** The page layer of the B-tree, btree.c: byte order, cells, the space of a page. *)
From S2P Require Import Prelude OsFile.

(** * Sizes *)

Definition SQLITE_USABLE_SIZE : Z := 1024.
Definition sizeof_PageHdr : Z := 8.
Definition sizeof_CellHdr : Z := 12.
Definition sizeof_FreeBlk : Z := 4.
Definition sizeof_Pgno : Z := 4.
Definition ROUNDUP (X : Z) : Z := Z.land (X + 3) (Z.lnot 3).
Definition MIN_CELL_SIZE : Z := sizeof_CellHdr + 4.
Definition MX_CELL : Z := (SQLITE_USABLE_SIZE - sizeof_PageHdr) / MIN_CELL_SIZE.
Definition USABLE_SPACE : Z := SQLITE_USABLE_SIZE - sizeof_PageHdr.
Definition MX_LOCAL_PAYLOAD : Z :=
  Z.land (USABLE_SPACE / 4 - (sizeof_CellHdr + sizeof_Pgno)) (Z.lnot 3).

(** * Byte order *)

(** [unsigned short] and [unsigned int] values in memory; the host is little-endian. *)
Definition load16 (d : list Z) (i : Z) : Z := d.[i] + 256 * d.[i + 1].
Definition store16 (d : list Z) (i v : Z) : list Z :=
  (d.[i <- v `mod` 256]).[i + 1 <- (v / 256) `mod` 256].

Definition swab16 (x : Z) : Z :=
  Z.lor (Z.shiftl (Z.land x 255) 8) (Z.land (Z.shiftr x 8) 255).
Definition swab32 (x : Z) : Z :=
  Z.lor (Z.lor (Z.lor (Z.shiftl (Z.land x 255) 24) (Z.shiftl (Z.land x 65280) 8))
    (Z.land (Z.shiftr x 8) 65280)) (Z.land (Z.shiftr x 24) 255).

(** * A page in memory *)

(** An entry of [apCell]: a cell of the page, by its index in [aDisk], or, on an
    overfull page, a cell whose bytes are outside of the page. *)
Inductive cell_ref :=
| OnPage (idx : Z)
| Elsewhere (cell : list Z).

(** [apCell] holds the first [nCell] entries of the array.  [writeable] is what
    [sqlitepager_iswriteable] says of the page; [parent_refs] are the pages on
    which [sqlitepager_ref] was called. *)
Record MemPage := mkMemPage {
  aDisk : list Z;
  isInit : bool;
  idxShift : bool;
  isOverfull : bool;
  pParent : option Z;
  nFree : Z;
  apCell : list cell_ref;
  writeable : bool;
  parent_refs : list Z
}.

Definition nCell (p : MemPage) : Z := Z.of_nat (length (apCell p)).

Definition set_aDisk (v : list Z) (p : MemPage) : MemPage :=
  mkMemPage v (isInit p) (idxShift p) (isOverfull p) (pParent p) (nFree p) (apCell p) (writeable p) (parent_refs p).
Definition set_isInit (v : bool) (p : MemPage) : MemPage :=
  mkMemPage (aDisk p) v (idxShift p) (isOverfull p) (pParent p) (nFree p) (apCell p) (writeable p) (parent_refs p).
Definition set_idxShift (v : bool) (p : MemPage) : MemPage :=
  mkMemPage (aDisk p) (isInit p) v (isOverfull p) (pParent p) (nFree p) (apCell p) (writeable p) (parent_refs p).
Definition set_isOverfull (v : bool) (p : MemPage) : MemPage :=
  mkMemPage (aDisk p) (isInit p) (idxShift p) v (pParent p) (nFree p) (apCell p) (writeable p) (parent_refs p).
Definition set_nFree (v : Z) (p : MemPage) : MemPage :=
  mkMemPage (aDisk p) (isInit p) (idxShift p) (isOverfull p) (pParent p) v (apCell p) (writeable p) (parent_refs p).
Definition set_apCell (v : list cell_ref) (p : MemPage) : MemPage :=
  mkMemPage (aDisk p) (isInit p) (idxShift p) (isOverfull p) (pParent p) (nFree p) v (writeable p) (parent_refs p).
Definition set_parent (v : Z) (p : MemPage) : MemPage :=
  mkMemPage (aDisk p) (isInit p) (idxShift p) (isOverfull p) (Some v) (nFree p) (apCell p) (writeable p)
    (parent_refs p ++ [v]).

Definition pget {A} (f : MemPage -> A) : M MemPage A := fun p => Done (f p) p.
Definition pupd (f : MemPage -> MemPage) : M MemPage unit := fun p => Done tt (f p).

(** [n] bytes at index [i] of the page, which they must not leave. *)
Definition inside (i n : Z) : bool := (0 <=? i) && (0 <=? n) && (i + n <=? SQLITE_USABLE_SIZE).
Definition bytes_at (d : list Z) (i n : Z) : list Z := take (Z.to_nat n) (drop (Z.to_nat i) d).

Definition ld16 (i : Z) : M MemPage Z :=
  assert (inside i 2);; pget (fun p => load16 (aDisk p) i).
Definition st16 (i v : Z) : M MemPage unit :=
  assert (inside i 2);; pupd (fun p => set_aDisk (store16 (aDisk p) i v) p).
Definition ld_bytes (i n : Z) : M MemPage (list Z) :=
  assert (inside i n);; pget (fun p => bytes_at (aDisk p) i n).
(** [memcpy] to index [i] of the page. *)
Definition write_at (d : list Z) (i : Z) (b : list Z) : list Z :=
  take (Z.to_nat i) d ++ b ++ drop (Z.to_nat i + length b) d.
Definition st_bytes (i : Z) (b : list Z) : M MemPage unit :=
  assert (inside i (Z.of_nat (length b)));; pupd (fun p => set_aDisk (write_at (aDisk p) i b) p).

(** The indices of [PageHdr.firstCell], [PageHdr.firstFree], [CellHdr.iNext],
    [FreeBlk.iSize] and [FreeBlk.iNext]. *)
Definition firstCell : Z := 4.
Definition firstFree : Z := 6.
Definition cell_iNext (o : Z) : Z := o + 6.
Definition blk_iSize (o : Z) : Z := o.
Definition blk_iNext (o : Z) : Z := o + 2.

Section Page.
(** [Btree.needSwab] *)
Context (needSwab : bool).

Definition SWAB16 (X : Z) : Z := if needSwab then swab16 (X `mod` 65536) else X `mod` 65536.
Definition SWAB32 (X : Z) : Z := if needSwab then swab32 X else X.

(** [NKEY] and [NDATA] of the header that starts the cell [c]. *)
Definition NKEY (c : list Z) : Z := SWAB16 (load16 c 4) + c.[8] * 65536.
Definition NDATA (c : list Z) : Z := SWAB16 (load16 c 10) + c.[9] * 65536.

Definition cellSize (c : list Z) : Z :=
  let n := NKEY c + NDATA c in
  let n := if MX_LOCAL_PAYLOAD <? n then MX_LOCAL_PAYLOAD + sizeof_Pgno else ROUNDUP n in
  n + sizeof_CellHdr.

(** The cell an entry of [apCell] points to. *)
Definition cell_at (r : cell_ref) : M MemPage (list Z) :=
  match r with
  | OnPage o => ld_bytes o sizeof_CellHdr
  | Elsewhere c => mret c
  end.

(** The loop of [defragmentPage] over the cells that are left; [newPage] is what has
    been copied so far, [moved] the entries that have been changed.  The two
    assertions on the address of the cell fail for a cell outside of the page. *)
Fixpoint defrag_loop (cells : list cell_ref) (newPage : list Z) (moved : list cell_ref) : M MemPage (list Z) :=
  match cells with
  | [] => mret newPage
  | OnPage o :: cells' =>
      assert ((0 <? o) && (o <? SQLITE_USABLE_SIZE));;
      h ← ld_bytes o sizeof_CellHdr;
      let n := cellSize h in
      let pc := Z.of_nat (length newPage) in
      st16 (cell_iNext o) (SWAB16 (pc + n));;
      c ← ld_bytes o n;
      assert (pc + n <=? SQLITE_USABLE_SIZE);;
      let moved := moved ++ [OnPage pc] in
      pupd (set_apCell (moved ++ cells'));;
      defrag_loop cells' (newPage ++ c) moved
  | Elsewhere _ :: _ => mstuck
  end.

Definition defragmentPage : M MemPage unit :=
  w ← pget writeable; assert w;;
  i ← pget isInit; assert i;;
  st16 firstCell (SWAB16 sizeof_PageHdr);;
  hdr ← ld_bytes 0 sizeof_PageHdr;
  cells ← pget apCell;
  newPage ← defrag_loop cells hdr [];
  let pc := Z.of_nat (length newPage) in
  f ← pget nFree;
  assert (f =? SQLITE_USABLE_SIZE - pc);;
  st_bytes 0 newPage;;
  cells ← pget apCell;
  match last cells with
  | Some (OnPage o) => st16 (cell_iNext o) 0
  | Some (Elsewhere _) => mstuck
  | None => mret tt
  end;;
  st16 (blk_iSize pc) (SWAB16 (SQLITE_USABLE_SIZE - pc));;
  st16 (blk_iNext pc) 0;;
  st16 firstFree (SWAB16 pc);;
  assert (0 <=? SQLITE_USABLE_SIZE - pc - sizeof_FreeBlk);;
  st_bytes (pc + sizeof_FreeBlk) (replicate (Z.to_nat (SQLITE_USABLE_SIZE - pc - sizeof_FreeBlk)) 0).

(** The search of [allocateSpace]; the fuel is what [assert( cnt++ < ... )] leaves.
    The result is [pIdx], [p] and [iSize]. *)
Fixpoint alloc_loop (fuel : nat) (pIdx p nByte : Z) : M MemPage (Z * Z * Z) :=
  raw ← ld16 (blk_iSize p);
  let iSize := SWAB16 raw in
  if nByte <=? iSize then mret (pIdx, p, iSize) else
  match fuel with
  | O => mstuck
  | S fuel' =>
      nx ← ld16 (blk_iNext p);
      pIdx ← (if nx =? 0 then defragmentPage;; mret firstFree else mret (blk_iNext p));
      raw ← ld16 pIdx;
      alloc_loop fuel' pIdx (SWAB16 raw) nByte
  end.

Definition allocateSpace (nByte : Z) : M MemPage Z :=
  w ← pget writeable; assert w;;
  assert (nByte =? ROUNDUP nByte);;
  i ← pget isInit; assert i;;
  f ← pget nFree; o ← pget isOverfull;
  if (f <? nByte) || o then mret 0 else
  raw ← ld16 firstFree;
  '(pIdx, p, iSize) ← alloc_loop (Z.to_nat (SQLITE_USABLE_SIZE / 4)) firstFree (SWAB16 raw) nByte;
  start ← (
    if iSize =? nByte then
      raw ← ld16 pIdx;
      nx ← ld16 (blk_iNext p);
      st16 pIdx nx;;
      mret (SWAB16 raw)
    else
      raw ← ld16 pIdx;
      let start := SWAB16 raw in
      let pNew := start + nByte in
      nx ← ld16 (blk_iNext p);
      st16 (blk_iNext pNew) nx;;
      st16 (blk_iSize pNew) (SWAB16 (iSize - nByte));;
      st16 pIdx (SWAB16 (start + nByte));;
      mret start);
  f ← pget nFree;
  pupd (set_nFree (f - nByte));;
  mret start.

(** The loop of [freeSpace].  [None]: the space was added to a block and the
    function returned; otherwise [pIdx] and [idx].  The loop does not end when the
    free blocks form a cycle; the fuel is the size of a page. *)
Fixpoint free_loop (fuel : nat) (pIdx start size : Z) : M MemPage (option (Z * Z)) :=
  raw ← ld16 pIdx;
  let idx := SWAB16 raw in
  if negb (negb (idx =? 0) && (idx <? start)) then mret (Some (pIdx, idx)) else
  match fuel with
  | O => mstuck
  | S fuel' =>
      raw ← ld16 (blk_iSize idx);
      let iSize := SWAB16 raw in
      if idx + iSize =? start then
        st16 (blk_iSize idx) (SWAB16 (iSize + size));;
        nx ← ld16 (blk_iNext idx);
        (if idx + iSize + size =? SWAB16 nx then
           let pNext := idx + iSize + size in
           nsz ← ld16 (blk_iSize pNext);
           (if needSwab then
              st16 (blk_iSize idx) (swab16 ((swab16 nsz + iSize + size) `mod` 65536))
            else
              own ← ld16 (blk_iSize idx);
              st16 (blk_iSize idx) ((own + nsz) `mod` 65536));;
           nnx ← ld16 (blk_iNext pNext);
           st16 (blk_iNext idx) nnx
         else mret tt);;
        f ← pget nFree;
        pupd (set_nFree (f + size));;
        mret None
      else free_loop fuel' (blk_iNext idx) start size
  end.

Definition freeSpace (start size : Z) : M MemPage unit :=
  let end_ := start + size in
  w ← pget writeable; assert w;;
  assert (size =? ROUNDUP size);;
  assert (start =? ROUNDUP start);;
  i ← pget isInit; assert i;;
  r ← free_loop (Z.to_nat SQLITE_USABLE_SIZE) firstFree start size;
  match r with
  | None => mret tt
  | Some (pIdx, idx) =>
      (if negb (idx =? end_) then
         st16 (blk_iSize start) (SWAB16 size);;
         st16 (blk_iNext start) (SWAB16 idx)
       else
         nsz ← ld16 (blk_iSize idx);
         st16 (blk_iSize start) (SWAB16 (size + SWAB16 nsz));;
         nnx ← ld16 (blk_iNext idx);
         st16 (blk_iNext start) nnx);;
      st16 pIdx (SWAB16 start);;
      f ← pget nFree;
      pupd (set_nFree (f + size))
  end.

(** The loop of [initPage] over the cells; the result is [freeSpace], or nothing on
    a format error.  [apCell] has room for [MX_CELL+2] entries. *)
Fixpoint init_cells (fuel : nat) (idx freeSpace : Z) : M MemPage (option Z) :=
  if idx =? 0 then mret (Some freeSpace) else
  match fuel with
  | O => mstuck
  | S fuel' =>
      if SQLITE_USABLE_SIZE - MIN_CELL_SIZE <? idx then mret None else
      if idx <? sizeof_PageHdr then mret None else
      if negb (idx =? ROUNDUP idx) then mret None else
      pCell ← ld_bytes idx sizeof_CellHdr;
      let sz := cellSize pCell in
      if SQLITE_USABLE_SIZE <? idx + sz then mret None else
      cells ← pget apCell;
      assert (Z.of_nat (length cells) <? MX_CELL + 2);;
      pupd (set_apCell (cells ++ [OnPage idx]));;
      raw ← ld16 (cell_iNext idx);
      init_cells fuel' (SWAB16 raw) (freeSpace - sz)
  end.

(** The loop over the free blocks: whether there is no format error. *)
Fixpoint init_free (fuel : nat) (idx : Z) : M MemPage bool :=
  if idx =? 0 then mret true else
  match fuel with
  | O => mstuck
  | S fuel' =>
      if SQLITE_USABLE_SIZE - sizeof_FreeBlk <? idx then mret false else
      if idx <? sizeof_PageHdr then mret false else
      sz ← ld16 (blk_iSize idx);
      f ← pget nFree;
      pupd (set_nFree (f + SWAB16 sz));;
      raw ← ld16 (blk_iNext idx);
      let iNext := SWAB16 raw in
      if (0 <? iNext) && (iNext <=? idx) then mret false else
      init_free fuel' iNext
  end.

Definition initPage (parent : option Z) : M MemPage Z :=
  pp ← pget pParent;
  match pp with
  | Some _ => assert (bool_decide (pp = parent));; mret SQLITE_OK
  | None =>
      match parent with Some v => pupd (set_parent v) | None => mret tt end;;
      i ← pget isInit;
      if (i : bool) then mret SQLITE_OK else
      pupd (set_isInit true);;
      pupd (set_apCell []);;
      raw ← ld16 firstCell;
      r ← init_cells (Z.to_nat (MX_CELL + 3)) (SWAB16 raw) USABLE_SPACE;
      match r with
      | None => mret SQLITE_CORRUPT
      | Some freeSpace =>
          pupd (set_nFree 0);;
          raw ← ld16 firstFree;
          ok ← init_free (Z.to_nat SQLITE_USABLE_SIZE) (SWAB16 raw);
          if negb ok then mret SQLITE_CORRUPT else
          n ← pget nCell; f ← pget nFree;
          if (n =? 0) && (f =? 0) then mret SQLITE_OK else
          if negb (f =? freeSpace) then mret SQLITE_CORRUPT else mret SQLITE_OK
      end
  end.

Definition zeroPage : M MemPage unit :=
  w ← pget writeable; assert w;;
  pupd (set_aDisk (replicate (Z.to_nat SQLITE_USABLE_SIZE) 0));;
  st16 firstCell 0;;
  st16 firstFree (SWAB16 sizeof_PageHdr);;
  st16 (blk_iNext sizeof_PageHdr) 0;;
  pupd (set_nFree (SQLITE_USABLE_SIZE - sizeof_PageHdr));;
  f ← pget nFree;
  st16 (blk_iSize sizeof_PageHdr) (SWAB16 f);;
  pupd (set_apCell []);;
  pupd (set_isOverfull false).

(** * Cells on a page *)

(** [Addr(pPage->apCell[idx]) - Addr(pPage)] has no meaning for a cell outside of
    the page. *)
Definition dropCell (idx : nat) (sz : Z) : M MemPage unit :=
  cells ← pget apCell;
  match cells !! idx with
  | None => mstuck
  | Some r =>
      c ← cell_at r;
      assert (sz =? cellSize c);;
      w ← pget writeable; assert w;;
      match r with
      | OnPage o => freeSpace o sz
      | Elsewhere _ => mstuck
      end;;
      cells ← pget apCell;
      pupd (set_apCell (delete idx cells));;
      pupd (set_idxShift true)
  end.

Definition insertCell (i : nat) (pCell : list Z) (sz : Z) : M MemPage unit :=
  cells ← pget apCell;
  assert (bool_decide (i <= length cells)%nat);;
  assert (sz =? cellSize pCell);;
  w ← pget writeable; assert w;;
  idx ← allocateSpace sz;
  cells ← pget apCell;
  assert (Z.of_nat (length cells) <? MX_CELL + 2);;
  (if idx <=? 0 then
     pupd (set_isOverfull true);;
     pupd (set_apCell (take i cells ++ Elsewhere pCell :: drop i cells))
   else
     st_bytes idx (take (Z.to_nat sz) pCell);;
     pupd (set_apCell (take i cells ++ OnPage idx :: drop i cells)));;
  pupd (set_idxShift true).

(** The loop of [relinkCellList]; the result is the last value of [pIdx]. *)
Fixpoint relink_loop (cells : list cell_ref) (pIdx : Z) : M MemPage Z :=
  match cells with
  | [] => mret pIdx
  | OnPage idx :: cells' =>
      assert ((0 <? idx) && (idx <? SQLITE_USABLE_SIZE));;
      st16 pIdx (SWAB16 idx);;
      relink_loop cells' (cell_iNext idx)
  | Elsewhere _ :: _ => mstuck
  end.

Definition relinkCellList : M MemPage unit :=
  w ← pget writeable; assert w;;
  cells ← pget apCell;
  pIdx ← relink_loop cells firstCell;
  st16 pIdx 0.
End Page.

(** [copyPage(pTo, pFrom)]: what [pTo] holds afterwards; the entries of [apCell] are
    indices, so they need no adjustment. *)
Definition copyPage (pTo pFrom : MemPage) : MemPage :=
  mkMemPage (aDisk pFrom) true (idxShift pTo) (isOverfull pFrom) None (nFree pFrom) (apCell pFrom)
    (writeable pTo) (parent_refs pTo).
