(* ===== verification/BtreeMem.v ===== *)
(** The bytes of a page: reading back what was stored, regions that do not meet, and
    the chains of cells and of free blocks. *)
From S2P Require Import Prelude OsFile BtreePage.
From Stdlib Require Import Zify.

#[local] Ltac Zify.zify_post_hook ::= Z.to_euclidean_division_equations.

(** * Running code on a page *)

Lemma wp_pget {A} (f : MemPage -> A) (R : A -> MemPage -> Prop) C p : R (f p) p -> wp (pget f) R C p.
Proof. done. Qed.
Lemma wp_pupd f (R : unit -> MemPage -> Prop) C p : R tt (f p) -> wp (pupd f) R C p.
Proof. done. Qed.

Lemma inside_true i n : 0 <= i -> 0 <= n -> i + n <= SQLITE_USABLE_SIZE -> inside i n = true.
Proof. intros. unfold inside. rewrite !andb_true_iff, !Z.leb_le. lia. Qed.

Lemma wp_ld16 i (R : Z -> MemPage -> Prop) C p :
  0 <= i -> i + 2 <= 1024 -> R (load16 (aDisk p) i) p -> wp (ld16 i) R C p.
Proof. intros. unfold ld16. apply wp_bind, wp_assert; [by apply inside_true|done]. Qed.

Lemma wp_st16 i v (R : unit -> MemPage -> Prop) C p :
  0 <= i -> i + 2 <= 1024 -> R tt (set_aDisk (store16 (aDisk p) i v) p) -> wp (st16 i v) R C p.
Proof. intros. unfold st16. apply wp_bind, wp_assert; [by apply inside_true|done]. Qed.

Lemma wp_ld_bytes i n (R : list Z -> MemPage -> Prop) C p :
  0 <= i -> 0 <= n -> i + n <= 1024 -> R (bytes_at (aDisk p) i n) p -> wp (ld_bytes i n) R C p.
Proof. intros. unfold ld_bytes. apply wp_bind, wp_assert; [by apply inside_true|done]. Qed.

Lemma wp_st_bytes i b (R : unit -> MemPage -> Prop) C p :
  0 <= i -> i + Z.of_nat (length b) <= 1024 ->
  R tt (set_aDisk (write_at (aDisk p) i b) p) -> wp (st_bytes i b) R C p.
Proof. intros. unfold st_bytes. apply wp_bind, wp_assert; [apply inside_true; lia || done|done]. Qed.

(** One step of a piece of code; arithmetic side conditions are left. *)
Ltac pstep :=
  match goal with
  | |- wp (_ ≫= _) _ _ _ => apply wp_bind
  | |- wp (mret _) _ _ _ => apply wp_ret
  | |- wp (pget _) _ _ _ => apply wp_pget
  | |- wp (pupd _) _ _ _ => apply wp_pupd
  | |- wp (assert _) _ _ _ => apply wp_assert
  | |- wp (ld16 _) _ _ _ => apply wp_ld16
  | |- wp (st16 _ _) _ _ _ => apply wp_st16
  | |- wp (ld_bytes _ _) _ _ _ => apply wp_ld_bytes
  | |- wp (st_bytes _ _) _ _ _ => apply wp_st_bytes
  end.

(** The indices of the fields, in numbers. *)
Ltac offsets := unfold blk_iSize, blk_iNext, cell_iNext, firstFree, firstCell in *.

(** * Sixteen-bit values *)

Definition mem_ok (d : list Z) : Prop := length d = 1024%nat /\ Forall is_byte d.

Lemma mem_ok_check d :
  Nat.eqb (length d) 1024 && forallb (fun x => (0 <=? x) && (x <? 256)) d = true -> mem_ok d.
Proof.
  intros [Hl Hb]%andb_true_iff. split; [by apply Nat.eqb_eq|]. apply Forall_forall. intros x Hx.
  pose proof (proj1 (List.forallb_forall _ _) Hb x ltac:(by apply list_elem_of_In)) as H. cbn beta in H.
  rewrite andb_true_iff, Z.leb_le, Z.ltb_lt in H. unfold is_byte. lia.
Qed.

Lemma mem_byte d i : mem_ok d -> is_byte (d.[i]).
Proof. intros [_ H]. by apply aget_byte. Qed.

Definition u16 (x : Z) : Prop := 0 <= x < 65536.

Lemma load16_u16 d i : mem_ok d -> u16 (load16 d i).
Proof.
  intros H. pose proof (mem_byte d i H). pose proof (mem_byte d (i + 1) H).
  unfold load16, u16, is_byte in *. lia.
Qed.

Lemma store16_ok d i v : mem_ok d -> mem_ok (store16 d i v).
Proof.
  intros [Hl Hb]. unfold store16. split; [by rewrite !aset_length|].
  unfold aset. apply Forall_insert; [apply Forall_insert; [done|]|]; apply wrap8_byte.
Qed.
#[export] Hint Resolve store16_ok : cmodel.

Lemma store16_get d i v k : mem_ok d -> 0 <= i -> i + 2 <= 1024 -> 0 <= k ->
  (store16 d i v).[k] =
    if k =? i + 1 then (v / 256) `mod` 256 else if k =? i then v `mod` 256 else d.[k].
Proof.
  intros [Hl _] Hi Hi2 Hk. unfold store16.
  destruct (Z.eqb_spec k (i + 1)) as [->|].
  { apply aget_aset_eq. rewrite aset_length. lia. }
  rewrite aget_aset_ne by lia. destruct (Z.eqb_spec k i) as [->|]; [apply aget_aset_eq; lia|].
  by rewrite aget_aset_ne by lia.
Qed.

Lemma load16_store16 d i v : mem_ok d -> 0 <= i -> i + 2 <= 1024 -> u16 v ->
  load16 (store16 d i v) i = v.
Proof.
  intros Hd Hi Hi2 Hv. unfold load16. rewrite !store16_get by (done || lia).
  rewrite Z.eqb_refl. destruct (Z.eqb_spec i (i + 1)); [lia|]. rewrite Z.eqb_refl.
  unfold u16 in Hv. lia.
Qed.

(** Two memories that agree from [lo] up to [hi]. *)
Definition same_on (d d' : list Z) (lo hi : Z) : Prop := forall k, lo <= k < hi -> d'.[k] = d.[k].

Lemma same_on_refl d lo hi : same_on d d lo hi.
Proof. done. Qed.
Lemma same_on_trans d d1 d2 lo hi : same_on d d1 lo hi -> same_on d1 d2 lo hi -> same_on d d2 lo hi.
Proof. intros H1 H2 k Hk. by rewrite H2, H1. Qed.
Lemma same_on_sub d d' lo hi lo' hi' : same_on d d' lo hi -> lo <= lo' -> hi' <= hi -> same_on d d' lo' hi'.
Proof. intros H ?? k Hk. apply H. lia. Qed.
Lemma store16_same d i v lo hi : mem_ok d -> 0 <= i -> i + 2 <= 1024 -> 0 <= lo ->
  i + 2 <= lo \/ hi <= i -> same_on d (store16 d i v) lo hi.
Proof.
  intros Hd Hi Hi2 Hlo H k Hk. rewrite store16_get by (done || lia).
  destruct (Z.eqb_spec k (i + 1)); [lia|]. destruct (Z.eqb_spec k i); [lia|done].
Qed.
Lemma load16_same d d' i : same_on d d' i (i + 2) -> load16 d' i = load16 d i.
Proof. intros H. unfold load16. rewrite !H by lia. done. Qed.

(** * Byte order *)

Lemma swab16_spec x : u16 x -> swab16 x = (x `mod` 256) * 256 + x / 256.
Proof.
  intros Hx. unfold swab16, u16 in *. change 255 with (Z.ones 8). rewrite !Z.land_ones by lia.
  rewrite Z.shiftr_div_pow2 by lia. change (2 ^ 8) with 256.
  rewrite (lor_shift_add ((x / 256) `mod` 256) (x `mod` 256) 8) by lia. change (2 ^ 8) with 256.
  rewrite (Z.mod_small (x / 256)) by lia. lia.
Qed.

Section Order.
Context (sw : bool).

Lemma SWAB16_u16 x : u16 (SWAB16 sw x).
Proof.
  assert (H : u16 (x `mod` 65536)) by (unfold u16; lia). unfold SWAB16.
  destruct sw; [|done]. rewrite swab16_spec by done. unfold u16 in *. lia.
Qed.

Lemma SWAB16_twice x : u16 x -> SWAB16 sw (SWAB16 sw x) = x.
Proof.
  intros Hx. assert (E : x `mod` 65536 = x) by (unfold u16 in Hx; lia). unfold SWAB16.
  rewrite E. destruct sw; [|done].
  assert (Hy : u16 (swab16 x)) by (rewrite swab16_spec by done; unfold u16 in *; lia).
  rewrite (Z.mod_small (swab16 x)) by (unfold u16 in Hy; lia).
  rewrite (swab16_spec (swab16 x)), swab16_spec by done. unfold u16 in Hx. lia.
Qed.

(** The value of a two-byte field in the byte order of the database. *)
Definition fld (d : list Z) (i : Z) : Z := SWAB16 sw (load16 d i).

Lemma fld_u16 d i : u16 (fld d i).
Proof. apply SWAB16_u16. Qed.

Lemma fld_same d d' i : same_on d d' i (i + 2) -> fld d' i = fld d i.
Proof. intros H. unfold fld. by rewrite (load16_same d d' i). Qed.

Lemma fld_store d i v : mem_ok d -> 0 <= i -> i + 2 <= 1024 -> u16 v ->
  fld (store16 d i (SWAB16 sw v)) i = v.
Proof.
  intros. unfold fld. rewrite load16_store16 by (done || apply SWAB16_u16). by apply SWAB16_twice.
Qed.

Lemma fld_store_other d i v j : mem_ok d -> 0 <= i -> i + 2 <= 1024 -> 0 <= j ->
  i + 2 <= j \/ j + 2 <= i -> fld (store16 d i v) j = fld d j.
Proof. intros. apply fld_same, store16_same; (done || lia). Qed.

Lemma SWAB16_0 : SWAB16 sw 0 = 0.
Proof. by destruct sw. Qed.
Lemma fld_store_0 d i : mem_ok d -> 0 <= i -> i + 2 <= 1024 -> fld (store16 d i 0) i = 0.
Proof. intros. rewrite <-SWAB16_0 at 1. apply fld_store; (done || unfold u16; lia). Qed.

(** Raw values are stored in the byte order of the database. *)
Lemma raw_load d i : mem_ok d -> load16 d i = SWAB16 sw (fld d i).
Proof. intros H. unfold fld. symmetry. by apply SWAB16_twice, load16_u16. Qed.
End Order.

(** * Pieces of memory *)

Lemma bytes_at_length d i n : mem_ok d -> 0 <= i -> 0 <= n -> i + n <= 1024 ->
  Z.of_nat (length (bytes_at d i n)) = n.
Proof. intros [Hl _] ???. unfold bytes_at. rewrite length_take, length_drop. lia. Qed.

Lemma bytes_at_get d i n k : mem_ok d -> 0 <= i -> 0 <= k < n -> (bytes_at d i n).[k] = d.[i + k].
Proof.
  intros [Hl _] Hi Hk. unfold bytes_at, aget. rewrite !nth_lookup.
  rewrite lookup_take_lt, lookup_drop by lia. by replace (Z.to_nat i + Z.to_nat k)%nat with (Z.to_nat (i + k)) by lia.
Qed.

Lemma bytes_at_bytes d i n : mem_ok d -> Forall is_byte (bytes_at d i n).
Proof. intros [_ H]. unfold bytes_at. by apply Forall_take, Forall_drop. Qed.

Lemma aget_app_left (a b : list Z) k : 0 <= k < Z.of_nat (length a) -> (a ++ b).[k] = a.[k].
Proof. intros. unfold aget. by rewrite !nth_lookup, lookup_app_l by lia. Qed.
Lemma aget_app_right (a b : list Z) k : Z.of_nat (length a) <= k -> (a ++ b).[k] = b.[k - Z.of_nat (length a)].
Proof. intros. unfold aget. rewrite !nth_lookup, lookup_app_r by lia. do 2 f_equal. lia. Qed.

(** Lists of the same length are equal when their elements are. *)
Lemma aget_ext a b : length a = length b -> (forall k, 0 <= k < Z.of_nat (length a) -> a.[k] = b.[k]) -> a = b.
Proof.
  intros Hl H. apply list_eq. intros n. destruct (decide (n < length a)%nat) as [Hn|Hn].
  - pose proof (H (Z.of_nat n) ltac:(lia)) as E.
    rewrite <-(Nat2Z.id n), !lookup_aget by lia. by rewrite E.
  - by rewrite !lookup_ge_None_2 by lia.
Qed.

Lemma bytes_at_same d d' i n : mem_ok d -> mem_ok d' -> 0 <= i -> 0 <= n -> i + n <= 1024 ->
  same_on d d' i (i + n) -> bytes_at d' i n = bytes_at d i n.
Proof.
  intros Hd Hd' Hi Hn Hin H.
  pose proof (bytes_at_length d i n Hd Hi Hn Hin). pose proof (bytes_at_length d' i n Hd' Hi Hn Hin).
  apply aget_ext; [lia|]. intros k Hk. rewrite !bytes_at_get by (done || lia). apply H. lia.
Qed.

Lemma write_at_ok d i b : mem_ok d -> Forall is_byte b -> 0 <= i -> i + Z.of_nat (length b) <= 1024 ->
  mem_ok (write_at d i b).
Proof.
  intros [Hl Hb] Hbb Hi Hin. unfold write_at. split.
  - rewrite !length_app, length_take, length_drop. lia.
  - apply Forall_app; split; [by apply Forall_take|]. apply Forall_app; split; [done|by apply Forall_drop].
Qed.

Lemma write_at_get d i b k : mem_ok d -> 0 <= i -> i + Z.of_nat (length b) <= 1024 -> 0 <= k ->
  (write_at d i b).[k] = if (i <=? k) && (k <? i + Z.of_nat (length b)) then b.[k - i] else d.[k].
Proof.
  intros [Hl _] Hi Hin Hk. unfold write_at, aget. rewrite !nth_lookup.
  destruct (Z.leb_spec i k), (Z.ltb_spec k (i + Z.of_nat (length b))); cbn [andb].
  - rewrite lookup_app_r by (rewrite length_take; lia). rewrite length_take.
    rewrite lookup_app_l by lia. do 2 f_equal. lia.
  - rewrite lookup_app_r by (rewrite length_take; lia). rewrite length_take.
    rewrite lookup_app_r by lia. rewrite lookup_drop. do 2 f_equal. lia.
  - rewrite lookup_app_l by (rewrite length_take; lia). by rewrite lookup_take_lt by lia.
  - lia.
Qed.

Lemma write_at_in d i b k : mem_ok d -> 0 <= i -> i + Z.of_nat (length b) <= 1024 ->
  i <= k < i + Z.of_nat (length b) -> (write_at d i b).[k] = b.[k - i].
Proof.
  intros. rewrite write_at_get by (done || lia).
  destruct (Z.leb_spec i k), (Z.ltb_spec k (i + Z.of_nat (length b))); cbn [andb]; lia || done.
Qed.

Lemma write_at_same d i b lo hi : mem_ok d -> 0 <= i -> i + Z.of_nat (length b) <= 1024 -> 0 <= lo ->
  hi <= i \/ i + Z.of_nat (length b) <= lo -> same_on d (write_at d i b) lo hi.
Proof.
  intros Hd Hi Hin Hlo H k Hk. rewrite write_at_get by (done || lia).
  destruct (Z.leb_spec i k), (Z.ltb_spec k (i + Z.of_nat (length b))); cbn [andb]; lia || done.
Qed.

Lemma write_at_bytes d i b : mem_ok d -> Forall is_byte b -> 0 <= i -> i + Z.of_nat (length b) <= 1024 ->
  bytes_at (write_at d i b) i (Z.of_nat (length b)) = b.
Proof.
  intros Hd Hb Hi Hin. pose proof (write_at_ok d i b Hd Hb Hi Hin) as Hw.
  pose proof (bytes_at_length (write_at d i b) i (Z.of_nat (length b)) Hw Hi ltac:(lia) Hin).
  apply aget_ext; [lia|]. intros k Hk. rewrite bytes_at_get by (done || lia).
  rewrite write_at_get by (done || lia).
  destruct (Z.leb_spec i (i + k)), (Z.ltb_spec (i + k) (i + Z.of_nat (length b))); cbn [andb]; try lia.
  f_equal. lia.
Qed.

(** * Regions *)

(** A region is its first index and its size. *)
Definition region : Type := Z * Z.

(** Whether index [k] is in the region, as a number. *)
Definition covers (k : Z) (r : region) : Z := if (fst r <=? k) && (k <? fst r + snd r) then 1 else 0.
(** How many of the regions index [k] is in. *)
Definition occ (k : Z) (rs : list region) : Z := foldr (fun r n => covers k r + n) 0 rs.
Definition total (rs : list region) : Z := foldr (fun r n => snd r + n) 0 rs.

Lemma covers_spec k r : covers k r = 1 /\ fst r <= k < fst r + snd r \/
                        covers k r = 0 /\ ~ (fst r <= k < fst r + snd r).
Proof. unfold covers. destruct (Z.leb_spec (fst r) k), (Z.ltb_spec k (fst r + snd r)); simpl; lia. Qed.
Lemma occ_nonneg k rs : 0 <= occ k rs.
Proof. induction rs as [|r rs IH]; simpl; [lia|]. pose proof (covers_spec k r). lia. Qed.
Lemma occ_app k rs rs' : occ k (rs ++ rs') = occ k rs + occ k rs'.
Proof. induction rs as [|r rs IH]; simpl; lia. Qed.
Lemma total_app rs rs' : total (rs ++ rs') = total rs + total rs'.
Proof. induction rs as [|r rs IH]; simpl; lia. Qed.
Lemma occ_in k r rs : r ∈ rs -> covers k r <= occ k rs.
Proof.
  induction 1 as [r rs|r r' rs H IH]; simpl.
  - pose proof (occ_nonneg k rs). lia.
  - pose proof (covers_spec k r'). lia.
Qed.

(** Two regions that do not meet. *)
Definition apart (a b : region) : Prop := fst a + snd a <= fst b \/ fst b + snd b <= fst a.

Lemma occ_apart a b rs rs' : (forall k, occ k (rs ++ rs') <= 1) -> a ∈ rs -> b ∈ rs' ->
  0 < snd a -> 0 < snd b -> apart a b.
Proof.
  intros H Ha Hb Hsa Hsb. unfold apart.
  destruct (Z.leb_spec (fst a + snd a) (fst b)) as [|H1]; [lia|].
  destruct (Z.leb_spec (fst b + snd b) (fst a)) as [|H2]; [lia|]. exfalso.
  set (k := Z.max (fst a) (fst b)). specialize (H k). rewrite occ_app in H.
  pose proof (occ_in k a rs Ha). pose proof (occ_in k b rs' Hb).
  pose proof (covers_spec k a). pose proof (covers_spec k b). lia.
Qed.

Lemma occ_apart_split a b l m r : (forall k, occ k (l ++ a :: m ++ b :: r) <= 1) ->
  0 < snd a -> 0 < snd b -> apart a b.
Proof.
  intros H. apply (occ_apart a b (l ++ [a]) (m ++ b :: r)); [|set_solver..].
  intros k. specialize (H k). by rewrite <-app_assoc.
Qed.

(** * Free blocks *)

(** A block of a page: in the page, behind the header, aligned. *)
Definition placed (r : region) : Prop :=
  8 <= fst r /\ 0 < snd r /\ fst r `mod` 4 = 0 /\ snd r `mod` 4 = 0 /\ fst r + snd r <= 1024.

(** Free blocks in the order of their addresses, all of them from [lo] on. *)
Fixpoint ascending (lo : Z) (fs : list region) : Prop :=
  match fs with
  | [] => True
  | r :: fs => lo <= fst r /\ placed r /\ ascending (fst r + snd r) fs
  end.

Lemma ascending_mono lo lo' fs : ascending lo fs -> lo' <= lo -> ascending lo' fs.
Proof. destruct fs as [|r fs]; simpl; [done|]. intros (? & ? & ?) ?. split; [lia|done]. Qed.
Lemma ascending_placed lo fs : ascending lo fs -> Forall placed fs.
Proof. revert lo. induction fs as [|r fs IH]; intros lo; [done|]. intros (? & ? & ?). constructor; eauto. Qed.
Lemma ascending_app lo fs gs : ascending lo (fs ++ gs) -> ascending lo fs.
Proof.
  revert lo. induction fs as [|r fs IH]; intros lo; [done|]. simpl. intros (? & ? & ?). eauto.
Qed.
Lemma ascending_bound lo fs r : ascending lo fs -> r ∈ fs -> lo <= fst r.
Proof.
  revert lo. induction fs as [|x fs IH]; intros lo H Hr; [by apply elem_of_nil in Hr|].
  destruct H as (? & Hx & Hfs). apply elem_of_cons in Hr as [->|Hr]; [done|].
  specialize (IH _ Hfs Hr). unfold placed in Hx. lia.
Qed.
(** The indices an ascending list covers. *)
Lemma ascending_occ lo fs k : ascending lo fs -> occ k fs <= 1 /\ (k < lo -> occ k fs = 0).
Proof.
  revert lo. induction fs as [|r fs IH]; intros lo; simpl; [lia|]. intros (? & Hr & Hfs).
  destruct (IH _ Hfs) as [H1 H2]. pose proof (covers_spec k r). unfold placed in Hr. lia.
Qed.
(** Blocks of at least four bytes fit into a page only so often. *)
Lemma ascending_length lo fs : ascending lo fs -> lo <= 1024 -> lo + 4 * Z.of_nat (length fs) <= 1024.
Proof.
  revert lo. induction fs as [|r fs IH]; intros lo; simpl length; [simpl; lia|]. intros (? & Hr & Hfs) ?.
  unfold placed in Hr. specialize (IH _ Hfs). lia.
Qed.

Section Chains.
Context (sw : bool).

(** The blocks [fs], reached from the link at index [at_], with the sizes the page
    says; the link that follows the last of them is not looked at. *)
Fixpoint fpath (d : list Z) (at_ : Z) (fs : list region) : Prop :=
  match fs with
  | [] => True
  | r :: fs => fld sw d at_ = fst r /\ fld sw d (blk_iSize (fst r)) = snd r /\ fpath d (blk_iNext (fst r)) fs
  end.
Fixpoint link_end (at_ : Z) (fs : list region) : Z :=
  match fs with [] => at_ | r :: fs => link_end (blk_iNext (fst r)) fs end.
(** The chain of free blocks that starts with the link at [at_]. *)
Definition links (d : list Z) (at_ : Z) (fs : list region) : Prop :=
  fpath d at_ fs /\ fld sw d (link_end at_ fs) = 0.

(** The chain of cells that starts with the link at [at_]. *)
Fixpoint cell_links (d : list Z) (at_ : Z) (cs : list Z) : Prop :=
  match cs with
  | [] => fld sw d at_ = 0
  | o :: cs => fld sw d at_ = o /\ cell_links d (cell_iNext o) cs
  end.

Lemma links_nil d at_ : links d at_ [] <-> fld sw d at_ = 0.
Proof. unfold links. simpl. tauto. Qed.
Lemma links_cons d at_ r fs :
  links d at_ (r :: fs) <->
  fld sw d at_ = fst r /\ fld sw d (blk_iSize (fst r)) = snd r /\ links d (blk_iNext (fst r)) fs.
Proof. unfold links. simpl. tauto. Qed.

Lemma links_zero d at_ lo fs : ascending lo fs -> links d at_ fs -> fld sw d at_ = 0 -> fs = [].
Proof.
  destruct fs as [|r fs]; [done|]. intros (_ & Hr & _) [(E & _) _] E0. unfold placed in Hr. lia.
Qed.

(** A chain survives changes elsewhere. *)
Lemma links_same d d' at_ fs lo : ascending lo fs -> same_on d d' at_ (at_ + 2) ->
  Forall (fun r => same_on d d' (fst r) (fst r + 4)) fs -> links d at_ fs -> links d' at_ fs.
Proof.
  intros Ha H0 H. revert at_ lo H0 Ha. induction H as [|r fs Hr Hfs IH]; intros at_ lo H0 Ha.
  { rewrite !links_nil. by rewrite (fld_same sw d d'). }
  rewrite !links_cons. intros (E1 & E2 & E3). destruct Ha as (? & Hp & Ha).
  unfold blk_iSize, blk_iNext in *.
  rewrite (fld_same sw d d' at_) by done.
  rewrite (fld_same sw d d' (fst r)) by (eapply same_on_sub; [exact Hr|lia|lia]).
  split; [done|]. split; [done|]. eapply IH; [|done|done]. eapply same_on_sub; [exact Hr|lia|lia].
Qed.

(** ... in particular below its blocks. *)
Lemma links_below d d' at_ fs lo : ascending lo fs -> at_ + 2 <= lo \/ fs = [] ->
  same_on d d' at_ (at_ + 2) -> (forall hi, same_on d d' lo hi) -> links d at_ fs -> links d' at_ fs.
Proof.
  intros Ha _ H0 H Hl. eapply links_same; try done. apply Forall_forall. intros r Hr.
  pose proof (ascending_bound lo fs r Ha Hr). eapply same_on_sub; [apply (H (fst r + 4))|lia|lia].
Qed.
End Chains.
