(* ===== verification/BtreeSpace.v ===== *)
(** [freeSpace]: the search for the place of a block in the chain of free blocks, and
    joining blocks that meet; sizes rounded up; cells as byte strings, and what it
    means that a page holds them. *)
From S2P Require Import Prelude OsFile BtreePage BtreeMem.
From Stdlib Require Import Zify.

#[local] Ltac Zify.zify_post_hook ::= Z.to_euclidean_division_equations.

Lemma ROUNDUP_id x : x `mod` 4 = 0 -> ROUNDUP x = x.
Proof.
  intros H. unfold ROUNDUP. change 3 with (Z.ones 2). rewrite <-Z.ldiff_land, Z.ldiff_ones_r by lia.
  rewrite Z.shiftr_div_pow2, Z.shiftl_mul_pow2 by lia. change (2 ^ 2) with 4. change (Z.ones 2) with 3. lia.
Qed.

Lemma ROUNDUP_aligned x : ROUNDUP x `mod` 4 = 0 /\ x <= ROUNDUP x < x + 4.
Proof.
  unfold ROUNDUP. change 3 with (Z.ones 2). rewrite <-Z.ldiff_land, Z.ldiff_ones_r by lia.
  rewrite Z.shiftr_div_pow2, Z.shiftl_mul_pow2 by lia. change (2 ^ 2) with 4. change (Z.ones 2) with 3. lia.
Qed.

Section Space.
Context (sw : bool).

(** No two free blocks are next to each other. *)
Fixpoint spaced (lo : Z) (fs : list region) : Prop :=
  match fs with [] => True | r :: fs => lo < fst r /\ spaced (fst r + snd r) fs end.

(** What [freeSpace] does to a chain of free blocks [fs] from [lo] on: the new chain
    covers the region [r] as well. *)
Record freed (r : region) (lo : Z) (fs fs' : list region) : Prop := {
  fr_asc : ascending lo fs';
  fr_occ : forall k, occ k fs' = occ k fs + covers k r;
  fr_total : total fs' = total fs + snd r;
  fr_spaced : forall lo', lo' < fst r -> spaced lo' fs -> spaced lo' fs'
}.

(** The second half of [freeSpace]. *)
Definition free_finish (start size : Z) (r : option (Z * Z)) : M MemPage unit :=
  match r with
  | None => mret tt
  | Some (pIdx, idx) =>
      (if negb (idx =? start + size) then
         st16 (blk_iSize start) (SWAB16 sw size);;
         st16 (blk_iNext start) (SWAB16 sw idx)
       else
         nsz ← ld16 (blk_iSize idx);
         st16 (blk_iSize start) (SWAB16 sw (size + SWAB16 sw nsz));;
         nnx ← ld16 (blk_iNext idx);
         st16 (blk_iNext start) nnx);;
      st16 pIdx (SWAB16 sw start);;
      f ← pget nFree;
      pupd (set_nFree (f + size))
  end.

(** The page after the free: only free space has changed. *)
Record after_free (r : region) (lo at_ : Z) (fs : list region) (p p' : MemPage) (fs' : list region) (d' : list Z) : Prop := {
  af_page : p' = set_nFree (nFree p + snd r) (set_aDisk d' p);
  af_mem : mem_ok d';
  af_links : links sw d' at_ fs';
  af_freed : freed r lo fs fs';
  af_below : same_on (aDisk p) d' 0 at_ /\ same_on (aDisk p) d' (at_ + 2) lo;
  af_same : forall k, lo <= k -> occ k fs + covers k r = 0 -> d'.[k] = (aDisk p).[k]
}.

(** A block that is written at [o] and linked at [at_]. *)
Lemma linked_block d at_ o s n : mem_ok d -> 0 <= at_ -> at_ + 2 <= o -> 0 <= o -> o + 4 <= 1024 ->
  u16 s -> u16 n ->
  let d' := store16 (store16 (store16 d (blk_iSize o) (SWAB16 sw s)) (blk_iNext o) (SWAB16 sw n)) at_ (SWAB16 sw o) in
  mem_ok d' /\ fld sw d' at_ = o /\ fld sw d' (blk_iSize o) = s /\ fld sw d' (blk_iNext o) = n /\
  forall lo hi, 0 <= lo -> (hi <= at_ \/ at_ + 2 <= lo) -> (hi <= o \/ o + 4 <= lo) -> same_on d d' lo hi.
Proof.
  intros Hd Ha Hao Ho Ho2 Hs Hn d'. unfold d', blk_iSize, blk_iNext in *.
  split; [by repeat apply store16_ok|].
  split; [apply fld_store; auto with cmodel; unfold u16; lia|].
  split; [by rewrite !fld_store_other, fld_store by (auto with cmodel; lia)|].
  split; [by rewrite fld_store_other, fld_store by (auto with cmodel; lia)|].
  intros lo hi Hlo H1 H2.
  eapply same_on_trans; [|apply store16_same; auto with cmodel; lia].
  eapply same_on_trans; [|apply store16_same; auto with cmodel; lia].
  apply store16_same; auto with cmodel; lia.
Qed.

(** A chain whose first block has been rewritten; behind it comes what the link at
    [at0] used to lead to. *)
Lemma links_cons_same d d' at_ at0 lo r fs : ascending lo (r :: fs) ->
  fld sw d' at_ = fst r -> fld sw d' (blk_iSize (fst r)) = snd r ->
  fld sw d' (blk_iNext (fst r)) = fld sw d at0 ->
  (forall hi, same_on d d' (fst r + snd r) hi) ->
  links sw d at0 fs -> links sw d' at_ (r :: fs).
Proof.
  intros (Hlo & Hr & Ha) E1 E2 E3 Hs Hl. apply links_cons. split; [done|]. split; [done|].
  destruct fs as [|r2 fs]; [apply links_nil; apply links_nil in Hl; congruence|].
  apply links_cons in Hl as (F1 & F2 & F3). apply links_cons.
  destruct Ha as (Hr2 & Hp2 & Ha2). unfold placed in Hp2. unfold blk_iSize, blk_iNext in *.
  split; [congruence|]. split.
  { rewrite (fld_same sw d d'); [done|]. eapply same_on_sub; [apply (Hs (fst r2 + 2))|lia|lia]. }
  eapply (links_same sw d d'); [exact Ha2| | |done].
  - eapply same_on_sub; [apply (Hs (fst r2 + 2 + 2))|lia|lia].
  - apply Forall_forall. intros x Hx. pose proof (ascending_bound _ _ _ Ha2 Hx).
    eapply same_on_sub; [apply (Hs (fst x + 4))|lia|lia].
Qed.

(** The new block goes in front of the blocks [fs]. *)
Lemma wp_free_front at_ lo fs start size p C :
  mem_ok (aDisk p) -> links sw (aDisk p) at_ fs -> ascending lo fs -> 0 <= at_ -> at_ + 2 <= lo ->
  lo <= start -> placed (start, size) -> ascending (start + size) fs ->
  wp (free_finish start size (Some (at_, fld sw (aDisk p) at_)))
    (fun _ p' => exists fs' d', after_free (start, size) lo at_ fs p p' fs' d') C p.
Proof.
  intros Hm Hl Ha Hat Hat2 Hlo Hp Ha'. pose proof Hp as (Hp1 & Hp2 & Hp3 & Hp4 & Hp5). cbn [fst snd] in *.
  unfold free_finish. pose proof (fld_u16 sw (aDisk p) at_) as Hu. offsets.
  destruct (Z.eqb_spec (fld sw (aDisk p) at_) (start + size)) as [E|E]; cbn [negb].
  - destruct fs as [|r fs]; [apply links_nil in Hl; lia|]. apply links_cons in Hl as (F1 & F2 & F3).
    assert (Er : fst r = start + size) by congruence. offsets.
    destruct Ha' as (_ & Hr & Ha'). pose proof Hr as (R1 & R2 & R3 & R4 & R5). rewrite F1, Er.
    do 3 pstep; offsets; [lia..|]. fold (fld sw (aDisk p) (start + size)). rewrite <-Er, F2.
    do 2 pstep; offsets; [lia..|]. do 2 pstep; offsets; [lia..|]. cbn [aDisk set_aDisk].
    rewrite (raw_load sw (store16 _ _ _)) by auto with cmodel. rewrite fld_store_other by (done || lia).
    pstep; [lia..|]. do 2 pstep; [lia..|]. cbn [aDisk set_aDisk]. do 3 pstep.
    set (n := fld sw (aDisk p) (fst r + 2)) in *.
    destruct (linked_block (aDisk p) at_ start (size + snd r) n Hm) as (D1 & D2 & D3 & D4 & D5);
      [lia..| |apply fld_u16|]; [unfold u16; lia|]. offsets.
    set (d' := store16 (store16 (store16 _ _ _) _ _) _ _) in *.
    assert (Hnew : ascending lo ((start, size + snd r) :: fs)).
    { split; [done|]. cbn [fst snd]. split; [unfold placed; simpl; lia|].
      eapply ascending_mono; [exact Ha'|lia]. }
    exists ((start, size + snd r) :: fs), d'. split; [done|done|..].
    + apply (links_cons_same (aDisk p) d' at_ (fst r + 2) lo); try done. cbn [fst snd].
      intros hi. apply D5; lia.
    + split; [done|..]; simpl.
      * intros k. pose proof (covers_spec k r). pose proof (covers_spec k (start, size)).
        pose proof (covers_spec k (start, size + snd r)). simpl in *. lia.
      * lia.
      * intros lo' Hls (_ & Hsp). split; [done|]. by replace (start + (size + snd r)) with (fst r + snd r) by lia.
    + split; apply D5; lia.
    + simpl. intros k Hk Hoc. pose proof (covers_spec k (start, size)). pose proof (covers_spec k r).
      pose proof (occ_nonneg k fs). cbn [fst snd] in *. apply (D5 k (k + 1)); lia.
  - do 3 pstep; offsets; [lia..|]. cbn [aDisk set_aDisk].
    pstep; [lia..|]. do 2 pstep; [lia..|]. cbn [aDisk set_aDisk]. do 3 pstep.
    set (n := fld sw (aDisk p) at_) in *.
    destruct (linked_block (aDisk p) at_ start size n Hm) as (D1 & D2 & D3 & D4 & D5);
      [lia..| |done|]; [unfold u16; lia|]. offsets.
    set (d' := store16 (store16 (store16 _ _ _) _ _) _ _) in *.
    assert (Hnew : ascending lo ((start, size) :: fs)) by done.
    exists ((start, size) :: fs), d'. split; [done|done|..].
    + apply (links_cons_same (aDisk p) d' at_ at_ lo); try done. cbn [fst snd].
      intros hi. apply D5; lia.
    + split; [done|..]; simpl; [lia..|]. intros lo' Hls Hsp. split; [done|].
      destruct fs as [|r fs]; [done|]. apply links_cons in Hl as (F1 & _). destruct Ha' as (? & _).
      split; [unfold n in E; lia|]. by destruct Hsp.
    + split; apply D5; lia.
    + simpl. intros k Hk Hoc. pose proof (covers_spec k (start, size)).
      pose proof (occ_nonneg k fs). cbn [fst snd] in *. apply (D5 k (k + 1)); lia.
Qed.

(** The block [r] at the head of the chain has grown to [size']; the chain goes on
    with [tail], which the link at [at0] used to lead to. *)
Lemma merged_after at_ lo r fs tail at0 size' start size d' p :
  mem_ok d' -> ascending lo (r :: fs) -> 0 <= at_ -> at_ + 2 <= lo -> fld sw (aDisk p) at_ = fst r ->
  fld sw d' (blk_iSize (fst r)) = size' -> fld sw d' (blk_iNext (fst r)) = fld sw (aDisk p) at0 ->
  (forall lo hi, 0 <= lo -> hi <= fst r \/ fst r + 4 <= lo -> same_on (aDisk p) d' lo hi) ->
  links sw (aDisk p) at0 tail -> placed (fst r, size') -> ascending (fst r + size') tail ->
  (forall k, covers k (fst r, size') + occ k tail = covers k r + occ k fs + covers k (start, size)) ->
  size' + total tail = snd r + total fs + size ->
  (spaced (fst r + snd r) fs -> spaced (fst r + size') tail) ->
  after_free (start, size) lo at_ (r :: fs) p (set_nFree (nFree p + size) (set_aDisk d' p)) ((fst r, size') :: tail) d'.
Proof.
  intros Hm Ha Hat Hat2 F1 E2 E3 Hs Hl Hp Ha' Hocc Htot Hsp.
  pose proof Ha as (Hlo & Hr & _). unfold placed in Hp, Hr. cbn [fst snd] in *.
  assert (Hnew : ascending lo ((fst r, size') :: tail)) by (split; [done|]; split; done).
  split; [done|done|..].
  - apply (links_cons_same (aDisk p) d' at_ at0 lo); try done; cbn [fst snd].
    + rewrite (fld_same sw (aDisk p) d'); [done|]. apply Hs; lia.
    + intros hi. apply Hs; lia.
  - split; [done|..]; cbn [occ total foldr fst snd] in *.
    + intros k. specialize (Hocc k). unfold occ in *. lia.
    + unfold total in *. lia.
    + intros lo' _ (? & ?). split; [done|auto].
  - split; apply Hs; lia.
  - intros k Hk Hz. cbn [occ foldr] in Hz. pose proof (covers_spec k r).
    pose proof (covers_spec k (start, size)). pose proof (occ_nonneg k fs). unfold occ in *.
    apply (Hs k (k + 1)); lia.
Qed.

(** The space is added to the end of the block [r], and the block behind it, if it is
    next to it then, as well. *)
Lemma wp_free_merge at_ lo r fs start size p C :
  mem_ok (aDisk p) -> links sw (aDisk p) at_ (r :: fs) -> ascending lo (r :: fs) -> 0 <= at_ -> at_ + 2 <= lo ->
  fst r + snd r = start -> placed (start, size) -> ascending (start + size) fs ->
  let idx := fst r in let iSize := snd r in
  wp (st16 (blk_iSize idx) (SWAB16 sw (iSize + size));;
      nx ← ld16 (blk_iNext idx);
      (if idx + iSize + size =? SWAB16 sw nx then
         nsz ← ld16 (blk_iSize (idx + iSize + size));
         (if sw then
            st16 (blk_iSize idx) (swab16 ((swab16 nsz + iSize + size) `mod` 65536))
          else
            own ← ld16 (blk_iSize idx);
            st16 (blk_iSize idx) ((own + nsz) `mod` 65536));;
         nnx ← ld16 (blk_iNext (idx + iSize + size));
         st16 (blk_iNext idx) nnx
       else mret tt);;
      f ← pget nFree;
      pupd (set_nFree (f + size));;
      mret (None : option (Z * Z)))
    (fun o p' => o = None /\ exists fs' d', after_free (start, size) lo at_ (r :: fs) p p' fs' d') C p.
Proof.
  intros Hm Hl Ha Hat Hat2 Er Hp Ha'. pose proof Hp as (Hp1 & Hp2 & Hp3 & Hp4 & Hp5). cbn [fst snd] in *.
  pose proof Ha as (Hlo & Hr & _). pose proof Hr as (R1 & R2 & R3 & R4 & R5).
  apply links_cons in Hl as (F1 & F2 & F3). cbv zeta. offsets.
  assert (Hu : u16 (snd r + size)) by (unfold u16; lia).
  set (d1 := store16 (aDisk p) (fst r) (SWAB16 sw (snd r + size))).
  assert (M1 : mem_ok d1) by (unfold d1; auto with cmodel).
  assert (N1 : fld sw d1 (fst r + 2) = fld sw (aDisk p) (fst r + 2)) by (apply fld_store_other; (done || lia)).
  do 2 pstep; offsets; [lia..|]. do 2 pstep; offsets; [lia..|]. cbn [aDisk set_aDisk].
  fold d1. fold (fld sw d1 (fst r + 2)). rewrite N1.
  pose proof (fld_u16 sw (aDisk p) (fst r + 2)) as Hn. set (n := fld sw (aDisk p) (fst r + 2)) in *.
  pstep. destruct (Z.eqb_spec (fst r + snd r + size) n) as [En|En].
  - destruct fs as [|r2 fs]; [apply links_nil in F3; fold n in F3; lia|].
    apply links_cons in F3 as (G1 & G2 & G3). fold n in G1. offsets.
    destruct Ha' as (_ & Hr2 & Ha'). pose proof Hr2 as (S1 & S2 & S3 & S4 & S5).
    rewrite !En, G1.
    assert (Hu2 : u16 (snd r + size + snd r2)) by (unfold u16; lia).
    assert (N2 : fld sw d1 (fst r2) = snd r2) by (rewrite <-G2; apply fld_store_other; (done || lia)).
    do 2 pstep; offsets; [lia..|]. cbn [aDisk set_aDisk]. fold d1.
    pstep. apply wp_unbind. 
    assert (Hstep : forall R : unit -> MemPage -> Prop,
      R tt (set_aDisk (store16 d1 (fst r) (SWAB16 sw (snd r + size + snd r2))) p) ->
      wp (if sw then st16 (fst r) (swab16 ((swab16 (load16 d1 (fst r2)) + snd r + size) `mod` 65536))
          else own ← ld16 (fst r); st16 (fst r) ((own + load16 d1 (fst r2)) `mod` 65536)) R C
         (set_aDisk d1 p)).
    { intros R HR. revert N2 HR. unfold fld. unfold u16 in Hu2.
      assert (L1 : load16 d1 (fst r) = SWAB16 sw (snd r + size)) by (apply load16_store16; (done || lia || apply SWAB16_u16)).
      pose proof (load16_u16 d1 (fst r2) M1) as Hx. unfold SWAB16 in L1 |- *.
      rewrite (Z.mod_small (load16 _ _)) by done. rewrite (Z.mod_small (snd r + size + snd r2)) by lia.
      rewrite (Z.mod_small (snd r + size)) in L1 by done.
      destruct sw; intros N2 HR.
      - pstep; [lia..|]. cbn [aDisk set_aDisk]. rewrite N2. rewrite Z.mod_small by lia.
        by replace (snd r2 + snd r + size) with (snd r + size + snd r2) by lia.
      - do 2 pstep; [lia..|]. cbn [aDisk set_aDisk]. rewrite L1, N2. pstep; [lia..|].
        cbn [aDisk set_aDisk]. by rewrite Z.mod_small by lia. }
    apply wp_bind, Hstep. clear Hstep. cbn [aDisk set_aDisk].
    pstep. pstep; [lia..|]. cbn [aDisk set_aDisk]. pstep; [lia..|]. cbn [aDisk set_aDisk].
    rewrite (raw_load sw (store16 _ _ _)) by auto with cmodel. rewrite fld_store_other by (done || lia).
    replace (fld sw d1 (fst r2 + 2)) with (fld sw (aDisk p) (fst r2 + 2)) by (symmetry; apply fld_store_other; done || lia).
    do 5 pstep. split; [done|].
    set (d2 := store16 d1 (fst r) _). assert (M2 : mem_ok d2) by (unfold d2; auto with cmodel).
    set (d3 := store16 d2 (fst r + 2) _).
    exists ((fst r, snd r + size + snd r2) :: fs), d3.
    change (after_free (start, size) lo at_ (r :: r2 :: fs) p (set_nFree (nFree p + size) (set_aDisk d3 p))
      ((fst r, snd r + size + snd r2) :: fs) d3).
    apply (merged_after at_ lo r (r2 :: fs) fs (fst r2 + 2)); try done; offsets.
    + unfold d3. auto with cmodel.
    + unfold d3. rewrite fld_store_other by (done || lia). apply fld_store; (done || lia).
    + apply fld_store; (done || lia || apply fld_u16).
    + intros lo' hi' ??. unfold d3, d2, d1.
      do 2 (eapply same_on_trans; [|apply store16_same; auto with cmodel; lia]). apply store16_same; (done || lia).
    + unfold placed. simpl. lia.
    + eapply ascending_mono; [exact Ha'|lia].
    + intros k. unfold occ; cbn [foldr]; fold (occ k fs). pose proof (covers_spec k r). pose proof (covers_spec k r2).
      pose proof (covers_spec k (start, size)). pose proof (covers_spec k (fst r, snd r + size + snd r2)).
      cbn [fst snd] in *. lia.
    + unfold total. simpl. lia.
    + intros (_ & Hsp). by replace (fst r + (snd r + size + snd r2)) with (fst r2 + snd r2) by lia.
  - do 5 pstep. split; [done|]. exists ((fst r, snd r + size) :: fs), d1.
    change (after_free (start, size) lo at_ (r :: fs) p (set_nFree (nFree p + size) (set_aDisk d1 p))
      ((fst r, snd r + size) :: fs) d1).
    apply (merged_after at_ lo r fs fs (fst r + 2)); try done; offsets.
    + apply fld_store; (done || lia).
    + intros lo' hi' ??. apply store16_same; (done || lia).
    + unfold placed. simpl. lia.
    + eapply ascending_mono; [exact Ha'|lia].
    + intros k. pose proof (covers_spec k r).
      pose proof (covers_spec k (start, size)). pose proof (covers_spec k (fst r, snd r + size)).
      cbn [fst snd] in *. lia.
    + lia.
    + intros Hsp. destruct fs as [|r2 fs]; [done|]. destruct Hsp as (Hs1 & Hs2). split; [|done].
      apply links_cons in F3 as (G1 & _). destruct Ha' as (? & _). offsets. unfold n in En. lia.
Qed.

(** A block in front of a chain is not affected by a free further on. *)
Lemma after_free_pass at_ lo r fs rg p p' fs' d' :
  ascending lo (r :: fs) -> 0 <= at_ -> at_ + 2 <= lo -> fst r + snd r < fst rg ->
  fld sw (aDisk p) at_ = fst r -> fld sw (aDisk p) (blk_iSize (fst r)) = snd r ->
  after_free rg (fst r + snd r) (blk_iNext (fst r)) fs p p' fs' d' ->
  after_free rg lo at_ (r :: fs) p p' (r :: fs') d'.
Proof.
  intros (Hlo & Hr & Ha) Hat Hat2 Hgap F1 F2 [A1 A2 A3 A4 A5 A6]. pose proof Hr as (R1 & R2 & R3 & R4 & R5).
  destruct A5 as [B1 B2]. offsets. destruct A4 as [C1 C2 C3 C4].
  assert (E : forall lo' hi', 0 <= lo' -> hi' <= fst r + 2 -> same_on (aDisk p) d' lo' hi').
  { intros ????. eapply same_on_sub; [exact B1|lia|lia]. }
  split; [done|done|..].
  - apply links_cons. offsets. rewrite !(fld_same sw (aDisk p) d') by (apply E; lia). done.
  - split.
    + split; [done|]. split; [done|]. done.
    + intros k. simpl. rewrite C2. unfold occ. simpl. lia.
    + unfold total in *. simpl. lia.
    + intros lo' Hl (Hs1 & Hs2). split; [done|]. auto.
  - split; apply E; lia.
  - intros k Hk Hz. simpl in Hz. pose proof (covers_spec k r). pose proof (covers_spec k rg).
    pose proof (occ_nonneg k fs). destruct (Z.ltb_spec k (fst r + snd r)) as [Hlt|Hge].
    + destruct (Z.ltb_spec k (fst r)); [apply B1; lia|lia].
    + apply A6; lia.
Qed.

Lemma wp_free_loop fuel at_ lo fs start size p C :
  mem_ok (aDisk p) -> links sw (aDisk p) at_ fs -> ascending lo fs -> 0 <= at_ -> at_ + 2 <= lo ->
  lo <= start -> placed (start, size) -> (forall k, occ k fs + covers k (start, size) <= 1) ->
  (length fs <= fuel)%nat ->
  wp (free_loop sw fuel at_ start size ≫= free_finish start size)
    (fun _ p' => exists fs' d', after_free (start, size) lo at_ fs p p' fs' d') C p.
Proof.
  intros Hm Hl Ha Hat Hat2 Hlo Hp Hocc Hf. revert at_ lo fs Hl Ha Hat Hat2 Hlo Hocc Hf.
  pose proof Hp as (Hp1 & Hp2 & Hp3 & Hp4 & Hp5). cbn [fst snd] in *.
  induction fuel as [|fuel IH]; intros at_ lo fs Hl Ha Hat Hat2 Hlo Hocc Hf;
    pstep; cbn [free_loop]; pstep; (pstep; [lia..|]); fold (fld sw (aDisk p) at_).
  - destruct fs; [|simpl in Hf; lia]. pose proof Hl as E. apply links_nil in E. rewrite E at 1. cbn [Z.eqb negb andb].
    pstep. by apply (wp_free_front at_ lo []).
  - destruct fs as [|r fs].
    { pose proof Hl as E. apply links_nil in E. rewrite E at 1. cbn [Z.eqb negb andb].
      pstep. by apply (wp_free_front at_ lo []). }
    pose proof Hl as (F1 & F2 & F3)%links_cons. pose proof Ha as (Hlo1 & Hr & Ha').
    pose proof Hr as (R1 & R2 & R3 & R4 & R5).
    assert (Hap : fst r + snd r <= start \/ start + size <= fst r).
    { destruct (occ_apart (start, size) r [(start, size)] (r :: fs)); [|set_solver..|simpl; lia|simpl; lia|simpl in *; lia|simpl in *; lia].
      intros k. specialize (Hocc k). rewrite occ_app. simpl in *. lia. }
    destruct (Z.eqb_spec (fld sw (aDisk p) at_) 0); [lia|]. cbn [negb andb].
    destruct (Z.ltb_spec (fld sw (aDisk p) at_) start) as [Hlt|Hge]; cbn [negb].
    + rewrite F1. do 2 pstep; offsets; [lia..|]. fold (fld sw (aDisk p) (fst r)). rewrite F2.
      destruct (Z.eqb_spec (fst r + snd r) start) as [Et|Et].
      * eapply wp_mono; [apply (wp_free_merge at_ lo r fs start size p C); try done; try lia| |done].
        { rewrite <-Et in Hocc |- *. destruct fs as [|r2 fs]; [done|].
          destruct Ha' as (G1 & G2 & G3). split; [|done].
          pose proof G2 as (? & ? & _).
          destruct (occ_apart (fst r + snd r, size) r2 [(fst r + snd r, size)] (r :: r2 :: fs)); [|set_solver..|simpl; lia|done|simpl in *; lia|simpl in *; lia].
          intros k. specialize (Hocc k). rewrite occ_app. simpl in *. lia. }
        intros o p' (-> & H). by apply wp_ret.
      * apply wp_unbind. eapply wp_mono; [apply (IH (fst r + 2) (fst r + snd r) fs); try done; try lia| |done].
        { intros k. specialize (Hocc k). simpl in Hocc. pose proof (covers_spec k r). lia. }
        { simpl in Hf. lia. }
        intros _ p' (fs' & d' & H). exists (r :: fs'), d'. apply after_free_pass; (done || simpl; lia).
    + pstep. apply (wp_free_front at_ lo (r :: fs)); try done. split; [lia|done].
Qed.
End Space.

(** Cells as byte strings, and what it means that a page holds a list of cells. *)

#[local] Ltac Zify.zify_post_hook ::= Z.to_euclidean_division_equations.

(** The bytes of a cell but for [iNext], which links the cells of a page. *)
Definition text (c : list Z) : list Z := take 6 c ++ drop 8 c.

Lemma text_length c : (8 <= length c)%nat -> Z.of_nat (length (text c)) = Z.of_nat (length c) - 2.
Proof. intros H. unfold text. rewrite length_app, length_take, length_drop. lia. Qed.

Lemma text_get c k : (8 <= length c)%nat -> 0 <= k -> (text c).[k] = c.[if k <? 6 then k else k + 2].
Proof.
  intros H Hk. unfold text, aget. rewrite !nth_lookup. destruct (Z.ltb_spec k 6).
  - rewrite lookup_app_l by (rewrite length_take; lia). by rewrite lookup_take_lt by lia.
  - rewrite lookup_app_r by (rewrite length_take; lia). rewrite length_take, lookup_drop.
    do 2 f_equal. lia.
Qed.

(** The texts of two cells agree when the cells do, but for two bytes. *)
Lemma text_ext c c' : length c = length c' -> (8 <= length c)%nat ->
  (forall k, 0 <= k < Z.of_nat (length c) -> k < 6 \/ 8 <= k -> c.[k] = c'.[k]) -> text c = text c'.
Proof.
  intros Hl H8 H. pose proof (text_length c H8). pose proof (text_length c' ltac:(lia)).
  apply aget_ext; [lia|]. intros k Hk. rewrite !text_get by lia. apply H; case_Zb; lia.
Qed.

Section Cells.
Context (sw : bool).

Lemma cellSize_ext c c' : (forall k, 0 <= k < 12 -> k < 6 \/ 8 <= k -> c.[k] = c'.[k]) ->
  cellSize sw c = cellSize sw c'.
Proof.
  intros H. unfold cellSize, NKEY, NDATA, load16. change (4 + 1) with 5. change (10 + 1) with 11.
  by rewrite (H 4), (H 5), (H 8), (H 9), (H 10), (H 11) by lia.
Qed.

Lemma cellSize_text c c' : (12 <= length c)%nat -> (12 <= length c')%nat -> text c = text c' ->
  cellSize sw c = cellSize sw c'.
Proof.
  intros H1 H2 E. apply cellSize_ext. intros k Hk Hk6.
  destruct (Z.ltb_spec k 6).
  - pose proof (text_get c k ltac:(lia) ltac:(lia)) as E1. pose proof (text_get c' k ltac:(lia) ltac:(lia)) as E2.
    rewrite E in E1. destruct (Z.ltb_spec k 6); [congruence|lia].
  - pose proof (text_get c (k - 2) ltac:(lia) ltac:(lia)) as E1.
    pose proof (text_get c' (k - 2) ltac:(lia) ltac:(lia)) as E2.
    rewrite E in E1. replace (k - 2 + 2) with k in * by lia. destruct (Z.ltb_spec (k - 2) 6); [lia|congruence].
Qed.

(** * Cells of a page *)

Definition tsize (t : list Z) : Z := Z.of_nat (length t) + 2.

(** The cell with the text [t] is at index [o]. *)
Record cell_on (d : list Z) (o : Z) (t : list Z) : Prop := {
  co_placed : placed (o, tsize t);
  co_min : MIN_CELL_SIZE <= tsize t;
  co_size : cellSize sw (bytes_at d o (tsize t)) = tsize t;
  co_text : text (bytes_at d o (tsize t)) = t
}.

(** A cell as the caller of [insertCell] passes it. *)
Record whole_cell (c : list Z) (t : list Z) : Prop := {
  wc_bytes : Forall is_byte c;
  wc_size : cellSize sw c = tsize t;
  wc_length : tsize t <= Z.of_nat (length c);
  wc_min : MIN_CELL_SIZE <= tsize t;
  wc_text : text (take (Z.to_nat (tsize t)) c) = t
}.

Definition cell_holds (d : list Z) (r : cell_ref) (t : list Z) : Prop :=
  match r with
  | OnPage o => cell_on d o t
  | Elsewhere c => whole_cell c t
  end.

(** The regions of the page that its cells take. *)
Fixpoint regions (l : list cell_ref) (ts : list (list Z)) : list region :=
  match l, ts with
  | OnPage o :: l, t :: ts => (o, tsize t) :: regions l ts
  | Elsewhere _ :: l, _ :: ts => regions l ts
  | _, _ => []
  end.

(** The page [p] holds the cells [ts], in this order, and its free blocks are [fs];
    together they take all of the page. *)
Record page_holds (p : MemPage) (ts : list (list Z)) (fs : list region) : Prop := {
  ph_mem : mem_ok (aDisk p);
  ph_init : isInit p = true;
  ph_cells : Forall2 (cell_holds (aDisk p)) (apCell p) ts;
  ph_links : links sw (aDisk p) firstFree fs;
  ph_asc : ascending 8 fs;
  ph_occ : forall k, occ k (regions (apCell p) ts) + occ k fs <= 1;
  ph_total : total (regions (apCell p) ts) + total fs = USABLE_SPACE;
  ph_nFree : nFree p = total fs;
  ph_over : isOverfull p = false -> Forall (fun r => match r with OnPage _ => True | Elsewhere _ => False end) (apCell p)
}.

Lemma cell_on_same d d' o t : mem_ok d -> mem_ok d' -> same_on d d' o (o + 6) ->
  same_on d d' (o + 8) (o + tsize t) -> cell_on d o t -> cell_on d' o t.
Proof.
  intros Hd Hd' H1 H2 [Hp Hmin Hs Ht]. pose proof Hp as (P1 & P2 & P3 & P4 & P5). cbn [fst snd] in *.
  unfold MIN_CELL_SIZE, sizeof_CellHdr in Hmin.
  assert (E : forall k, 0 <= k < tsize t -> k < 6 \/ 8 <= k ->
    (bytes_at d' o (tsize t)).[k] = (bytes_at d o (tsize t)).[k]).
  { intros k Hk [H|H]; rewrite !bytes_at_get by (done || lia); [apply H1|apply H2]; lia. }
  pose proof (bytes_at_length d o (tsize t) Hd ltac:(lia) ltac:(lia) ltac:(lia)).
  pose proof (bytes_at_length d' o (tsize t) Hd' ltac:(lia) ltac:(lia) ltac:(lia)).
  split; [done|done|..].
  - rewrite <-Hs at 2. apply cellSize_ext. intros. apply E; lia.
  - rewrite <-Ht at 2. apply text_ext; [lia|lia|]. intros. apply E; lia.
Qed.

(** Reading the header of a cell is enough to know its size. *)
Lemma cell_on_header d o t : mem_ok d -> cell_on d o t ->
  cellSize sw (bytes_at d o sizeof_CellHdr) = tsize t.
Proof.
  intros Hd [Hp Hmin Hs Ht]. pose proof Hp as (P1 & P2 & P3 & P4 & P5). cbn [fst snd] in *.
  unfold MIN_CELL_SIZE, sizeof_CellHdr in *. rewrite <-Hs. apply cellSize_ext.
  intros k Hk _. by rewrite !bytes_at_get by (done || lia).
Qed.

Lemma regions_in d l ts o t : Forall2 (cell_holds d) l ts ->
  (exists i, l !! i = Some (OnPage o) /\ ts !! i = Some t) -> (o, tsize t) ∈ regions l ts.
Proof.
  intros H (i & Hi & Ht). revert i Hi Ht. induction H as [|r u l ts Hr H IH]; intros [|i] Hi Ht; simplify_eq/=.
  - set_solver.
  - destruct r; [apply elem_of_cons; right|]; eauto.
Qed.

(** Changes outside of the cells. *)
Lemma cells_same d d' l ts : mem_ok d -> mem_ok d' ->
  (forall k, 8 <= k -> 0 < occ k (regions l ts) -> d'.[k] = d.[k]) ->
  Forall2 (cell_holds d) l ts -> Forall2 (cell_holds d') l ts.
Proof.
  intros Hd Hd' H Hl. revert H. induction Hl as [|r t l ts Hr Hl IH]; intros H; [done|].
  constructor.
  - destruct r as [o|c]; [|done]. cbn [cell_holds regions] in *. pose proof (co_placed _ _ _ Hr) as (P1 & P2 & P3 & P4 & P5).
    cbn [fst snd] in *. eapply cell_on_same; [exact Hd|done|..|done];
      intros k Hk; apply H; try lia; unfold occ; cbn [foldr]; pose proof (occ_nonneg k (regions l ts));
      pose proof (covers_spec k (o, tsize t)) as Hc; cbn [fst snd] in Hc; unfold occ in *;
      pose proof (co_min _ _ _ Hr); unfold MIN_CELL_SIZE, sizeof_CellHdr in *; lia.
  - apply IH. intros k Hk Hoc. apply H; [done|]. destruct r as [o|c]; [|done]. cbn [regions]. unfold occ in *.
    cbn [foldr]. pose proof (covers_spec k (o, tsize t)). lia.
Qed.

Lemma region_of_cell d l ts r : Forall2 (cell_holds d) l ts -> r ∈ regions l ts -> placed r /\ 16 <= snd r.
Proof.
  induction 1 as [|x t l ts Hr H IH]; simpl; [by intros ?%elem_of_nil|]. destruct x; [|done].
  intros [->|Hin]%elem_of_cons; [|auto]. split; [by apply Hr|].
  pose proof (co_min _ _ _ Hr) as Hm. unfold MIN_CELL_SIZE, sizeof_CellHdr in Hm. simpl. lia.
Qed.

Lemma regions_app l l' ts ts' : length l = length ts ->
  regions (l ++ l') (ts ++ ts') = regions l ts ++ regions l' ts'.
Proof.
  revert ts. induction l as [|r l IH]; intros [|t ts] H; simplify_eq/=; [done|].
  destruct r; simpl; by rewrite IH.
Qed.

(** Each index belongs to a cell or to a free block, when it is not in the header. *)
Lemma occ_positive k rs : 0 < occ k rs -> exists r, r ∈ rs /\ covers k r = 1.
Proof.
  induction rs as [|r rs IH]; simpl; [lia|]. intros H. destruct (covers_spec k r) as [[E ?]|[E ?]].
  - exists r. set_solver.
  - destruct IH as (x & ? & ?); [unfold occ in *; lia|]. exists x. set_solver.
Qed.
End Cells.
