(* ===== verification/BtreeDefrag.v ===== *)
(** [defragmentPage]: the cells move to the front of the page and stay what they are. *)
From S2P Require Import Prelude OsFile BtreePage BtreeMem BtreeSpace.
From Stdlib Require Import Zify.

#[local] Ltac Zify.zify_post_hook ::= Z.to_euclidean_division_equations.

(** Where cells with the texts [ts] are when they are stored one after the other. *)
Fixpoint packed (pc : Z) (ts : list (list Z)) : list Z :=
  match ts with [] => [] | t :: ts => pc :: packed (pc + tsize t) ts end.
Fixpoint packed_end (pc : Z) (ts : list (list Z)) : Z :=
  match ts with [] => pc | t :: ts => packed_end (pc + tsize t) ts end.

Definition on_page (r : cell_ref) : Prop := match r with OnPage _ => True | Elsewhere _ => False end.

Section Defrag.
Context (sw : bool).

(** The copies that [defragmentPage] makes, the first of them at [pc]. *)
Inductive copies : Z -> list (list Z) -> list (list Z) -> Prop :=
| copies_nil pc : copies pc [] []
| copies_cons pc c cps t ts :
    Forall is_byte c -> Z.of_nat (length c) = tsize t -> text c = t -> MIN_CELL_SIZE <= tsize t ->
    tsize t `mod` 4 = 0 -> cellSize sw c = tsize t ->
    copies (pc + tsize t) cps ts -> copies pc (c :: cps) (t :: ts).

Lemma copies_end pc cps ts : copies pc cps ts -> packed_end pc ts = pc + Z.of_nat (length (concat cps)).
Proof. induction 1; simpl; [lia|]. rewrite length_app. lia. Qed.

Lemma total_regions d l ts pc : Forall2 (cell_holds sw d) l ts -> Forall on_page l ->
  packed_end pc ts = pc + total (regions l ts).
Proof.
  intros H. revert pc. induction H as [|r t l ts Hr H IH]; intros pc Ho; simpl; [lia|].
  apply Forall_cons_1 in Ho as [Hor Ho]. destruct r; [|done]. simpl. rewrite IH by done.
  unfold total. simpl. lia.
Qed.

Lemma wp_defrag_loop l ts newPage moved p C :
  mem_ok (aDisk p) -> Forall2 (cell_holds sw (aDisk p)) l ts -> Forall on_page l ->
  (forall k, occ k (regions l ts) <= 1) ->
  Z.of_nat (length newPage) + total (regions l ts) <= 1024 -> Forall is_byte newPage ->
  apCell p = moved ++ l ->
  wp (defrag_loop sw l newPage moved)
    (fun np p' => exists cps d', np = newPage ++ concat cps /\ Forall is_byte np /\
       copies (Z.of_nat (length newPage)) cps ts /\ mem_ok d' /\
       (forall k, 0 <= k -> occ k (regions l ts) = 0 -> d'.[k] = (aDisk p).[k]) /\
       p' = set_apCell (moved ++ map OnPage (packed (Z.of_nat (length newPage)) ts)) (set_aDisk d' p)) C p.
Proof.
  intros Hm H. revert newPage moved p Hm H. revert ts.
  induction l as [|r l IH]; intros ts newPage moved p Hm H Ho Hocc Hlen Hb Hap; inversion H as [|? t ? ts' Hr Hl]; subst; clear H.
  - cbn [defrag_loop]. apply wp_ret. exists [], (aDisk p). rewrite app_nil_r. split; [done|].
    split; [done|]. split; [constructor|]. split; [done|]. split; [done|].
    rewrite app_nil_r in Hap. simpl. rewrite app_nil_r. destruct p. simpl in *. by subst.
  - apply Forall_cons_1 in Ho as [Hor Ho]. destruct r as [o|]; [|done]. cbn [cell_holds] in Hr.
    pose proof (co_placed _ _ _ _ Hr) as (P1 & P2 & P3 & P4 & P5). pose proof (co_min _ _ _ _ Hr) as Hmin.
    cbn [fst snd] in *. unfold MIN_CELL_SIZE, sizeof_CellHdr in Hmin. cbn [defrag_loop regions] in *.
    pstep. pstep; [apply andb_true_iff; rewrite !Z.ltb_lt; unfold SQLITE_USABLE_SIZE; lia|].
    pstep. pstep; [unfold sizeof_CellHdr; lia..|]. rewrite (cell_on_header sw) with (t := t) by done.
    set (pc := Z.of_nat (length newPage)) in *. offsets.
    assert (Htot : 0 <= total (regions l ts')).
    { clear -Hl. induction Hl as [|r t l ts Hr H IH]; [done|]. destruct r; [|done]. unfold total in *. simpl.
      unfold tsize. lia. }
    unfold total in Hlen. cbn [foldr snd] in Hlen. fold (total (regions l ts')) in Hlen.
    pstep. pstep; [unfold cell_iNext; lia..|].
    set (d1 := store16 (aDisk p) (cell_iNext o) (SWAB16 sw (pc + tsize t))). offsets.
    assert (M1 : mem_ok d1) by (unfold d1; auto with cmodel).
    assert (Hr1 : cell_on sw d1 o t).
    { apply (cell_on_same sw (aDisk p)); try done; apply store16_same; (done || lia). }
    pstep. pstep; [lia..|]. pstep. pstep; [apply Z.leb_le; unfold SQLITE_USABLE_SIZE; lia|].
    do 2 pstep. cbn [aDisk set_aDisk]. set (c := bytes_at d1 o (tsize t)).
    assert (Lc : Z.of_nat (length c) = tsize t) by (apply bytes_at_length; (done || lia)).
    assert (Ec : Z.of_nat (length (newPage ++ c)) = pc + tsize t) by (rewrite length_app; unfold pc; lia).
    change (store16 (aDisk p) (o + 6) (SWAB16 sw (pc + tsize t))) with d1. fold c. eapply wp_mono; [apply (IH ts')|..]; cbn [aDisk set_aDisk set_apCell apCell].
    + done.
    + apply (cells_same sw (aDisk p)); try done. intros k Hk Hoc. apply (store16_same _ _ _ k (k + 1)); try done; try lia.
      specialize (Hocc k). unfold occ in Hocc, Hoc. cbn [foldr] in Hocc.
      pose proof (covers_spec k (o, tsize t)). cbn [fst snd] in *. lia.
    + done.
    + intros k. specialize (Hocc k). unfold occ in *. cbn [foldr] in Hocc. pose proof (covers_spec k (o, tsize t)). lia.
    + rewrite Ec. lia.
    + apply Forall_app. split; [done|]. by apply bytes_at_bytes.
    + by rewrite <-app_assoc.
    + intros np p' (cps & d' & -> & Hnb & Hcp & Hm' & Hsame & ->). exists (c :: cps), d'.
      split; [by rewrite <-app_assoc|]. split; [done|]. rewrite Ec in Hcp |- *.
      split.
      { constructor; try done; [by apply bytes_at_bytes|by apply Hr1|by apply Hr1]. }
      split; [done|]. split.
      { intros k Hk Hoc. unfold occ in Hoc. cbn [foldr] in Hoc. fold (occ k (regions l ts')) in Hoc.
        pose proof (covers_spec k (o, tsize t)). pose proof (occ_nonneg k (regions l ts')). cbn [fst snd] in *.
        rewrite Hsame by lia. apply (store16_same _ _ _ k (k + 1)); try done; lia. }
      simpl. by rewrite <-app_assoc.
    + done.
Qed.

(** In a memory that has the copies at [pc], the cells are at the packed places. *)
Lemma copies_hold D pc cps ts : copies pc cps ts -> mem_ok D -> 8 <= pc -> pc `mod` 4 = 0 ->
  pc + Z.of_nat (length (concat cps)) <= 1024 ->
  (forall k, 0 <= k < Z.of_nat (length (concat cps)) -> D.[pc + k] = (concat cps).[k]) ->
  Forall2 (cell_holds sw D) (map OnPage (packed pc ts)) ts.
Proof.
  intros Hc HD. induction Hc as [|pc c cps t ts Hb Hl Ht Hmin Hal Hs Hc IH]; intros Hpc Hpa Hlen Hk; [constructor|].
  cbn [concat] in *. rewrite length_app in *. unfold MIN_CELL_SIZE, sizeof_CellHdr in Hmin.
  assert (E : bytes_at D pc (tsize t) = c).
  { pose proof (bytes_at_length D pc (tsize t) HD ltac:(lia) ltac:(lia) ltac:(lia)).
    apply aget_ext; [lia|]. intros k Hk'. rewrite bytes_at_get by (done || lia). rewrite Hk by lia.
    unfold aget. rewrite !nth_lookup, lookup_app_l by lia. done. }
  constructor.
  - simpl. split; rewrite ?E; try done. unfold placed. simpl. lia.
  - apply IH; try lia. intros k Hk'.
    replace (pc + tsize t + k) with (pc + (tsize t + k)) by lia. rewrite Hk by lia.
    unfold aget. rewrite !nth_lookup, lookup_app_r by lia. do 2 f_equal. lia.
Qed.

Lemma packed_end_mod pc cps ts : copies pc cps ts -> pc `mod` 4 = 0 -> packed_end pc ts `mod` 4 = 0.
Proof. induction 1; simpl; intros; [done|]. apply IHcopies. lia. Qed.

Lemma packed_regions pc ts : forall k, 0 < occ k (regions (map OnPage (packed pc ts)) ts) -> pc <= k < packed_end pc ts.
Proof.
  intros k. revert pc. induction ts as [|t ts IH]; intros pc; simpl; [lia|]. intros H.
  assert (Hle : forall pc ts, pc <= packed_end pc ts).
  { clear. intros pc ts. revert pc. induction ts as [|t ts IH]; intros pc; simpl; [lia|].
    specialize (IH (pc + tsize t)). unfold tsize in *. lia. }
  pose proof (covers_spec k (pc, tsize t)) as Hc. cbn [fst snd] in Hc. pose proof (Hle (pc + tsize t) ts).
  destruct (Z.ltb_spec 0 (occ k (regions (map OnPage (packed (pc + tsize t) ts)) ts))) as [H1|H1].
  - apply IH in H1. unfold tsize in *. lia.
  - unfold occ in *. lia.
Qed.

Lemma packed_occ pc ts k : occ k (regions (map OnPage (packed pc ts)) ts) <= 1.
Proof.
  revert pc. induction ts as [|t ts IH]; intros pc; simpl; [lia|].
  pose proof (covers_spec k (pc, tsize t)) as Hc. cbn [fst snd] in Hc. specialize (IH (pc + tsize t)).
  destruct (Z.ltb_spec 0 (occ k (regions (map OnPage (packed (pc + tsize t) ts)) ts))) as [H1|H1].
  - apply packed_regions in H1. unfold occ in *. lia.
  - pose proof (occ_nonneg k (regions (map OnPage (packed (pc + tsize t) ts)) ts)). unfold occ in *. lia.
Qed.

Lemma last_packed pc ts o : last (packed pc ts) = Some o -> exists t, (o, tsize t) ∈ regions (map OnPage (packed pc ts)) ts.
Proof.
  revert pc. induction ts as [|t ts IH]; intros pc; simpl; [done|]. intros H.
  destruct ts as [|t2 ts]; [exists t; simpl in *; simplify_eq; set_solver|].
  change (last (packed (pc + tsize t) (t2 :: ts)) = Some o) in H. apply IH in H as (x & Hx).
  exists x. apply elem_of_cons. by right.
Qed.

Lemma packed_end_ge pc ts : pc <= packed_end pc ts.
Proof.
  revert pc. induction ts as [|t ts IH]; intros pc; simpl; [lia|]. specialize (IH (pc + tsize t)).
  unfold tsize in *. lia.
Qed.

(** A store that leaves the texts of the cells alone. *)
Lemma store_link_holds D l ts o t v : mem_ok D -> Forall2 (cell_holds sw D) l ts ->
  (forall k, occ k (regions l ts) <= 1) -> (o, tsize t) ∈ regions l ts ->
  Forall2 (cell_holds sw (store16 D (o + 6) v)) l ts.
Proof.
  intros HD H. induction H as [|r u l ts Hr H IH]; intros Hocc Hin; [constructor|].
  assert (Hocc' : forall k, occ k (regions l ts) <= 1).
  { intros k. specialize (Hocc k). destruct r; [|done]. unfold occ in *. simpl in Hocc.
    pose proof (covers_spec k (idx, tsize u)). lia. }
  destruct r as [o2|c]; [|constructor; [done|by apply IH]].
  pose proof (co_placed _ _ _ _ Hr) as (P1 & P2 & P3 & P4 & P5). pose proof (co_min _ _ _ _ Hr) as Hmin.
  unfold MIN_CELL_SIZE, sizeof_CellHdr in Hmin. cbn [fst snd regions] in *.
  apply elem_of_cons in Hin as [Heq|Hin].
  - injection Heq as -> Hsz. constructor.
    + apply (cell_on_same sw D); auto with cmodel; apply store16_same; auto with cmodel; lia.
    + apply (cells_same sw D); auto with cmodel. intros k Hk Hpos. specialize (Hocc k). unfold occ in *.
      simpl in Hocc. pose proof (covers_spec k (o2, tsize u)) as Hc. cbn [fst snd] in Hc.
      apply (store16_same _ _ _ k (k + 1)); auto with cmodel; lia.
  - destruct (region_of_cell _ _ _ _ _ H Hin) as ((Q1 & Q2 & Q3 & Q4 & Q5) & Q6). cbn [fst snd] in *.
    constructor; [|by apply IH].
    assert (Hap : apart (o2, tsize u) (o, tsize t)).
    { apply (occ_apart _ _ [(o2, tsize u)] (regions l ts)); [done|set_solver|done|simpl; lia|simpl; lia]. }
    unfold apart in Hap. cbn [fst snd] in Hap.
    apply (cell_on_same sw D); auto with cmodel; apply store16_same; auto with cmodel; lia.
Qed.

Lemma on_pages_packed pc ts : Forall on_page (map OnPage (packed pc ts)).
Proof. revert pc. induction ts as [|t ts IH]; intros pc; [done|]. constructor; [done|apply IH]. Qed.

Lemma holds_on_page p ts fs : page_holds sw p ts fs -> isOverfull p = false -> Forall on_page (apCell p).
Proof. intros H Ho. apply (ph_over _ _ _ _ H Ho). Qed.

(** After [defragmentPage] the cells are packed and one block has all the free space. *)
Lemma wp_defragmentPage p ts fs C :
  page_holds sw p ts fs -> writeable p = true -> isOverfull p = false -> 0 < nFree p ->
  let pc := packed_end 8 ts in
  wp (defragmentPage sw) (fun _ p' => exists d',
      p' = set_apCell (map OnPage (packed 8 ts)) (set_aDisk d' p) /\
      same_on (aDisk p) d' 0 4 /\ pc = 1024 - nFree p /\
      page_holds sw p' ts [(pc, nFree p)]) C p.
Proof.
  intros H Hw Ho Hfree pc. pose proof (holds_on_page _ _ _ H Ho) as Hon.
  destruct H as [Hm Hi Hc Hl Ha Hocc Htot Hnf _].
  assert (Hpc : pc = 1024 - nFree p).
  { unfold pc. rewrite (total_regions (aDisk p) (apCell p)) by done. rewrite Hnf.
    unfold USABLE_SPACE, SQLITE_USABLE_SIZE, sizeof_PageHdr in Htot. lia. }
  assert (Hocc1 : forall k, occ k (regions (apCell p) ts) <= 1).
  { intros k. specialize (Hocc k). pose proof (occ_nonneg k fs). lia. }
  unfold defragmentPage. do 4 pstep; [done|]. do 4 pstep; [done|].
  pstep. pstep; offsets; [lia..|]. set (d0 := store16 (aDisk p) 4 _).
  assert (M0 : mem_ok d0) by (unfold d0; auto with cmodel).
  pstep. pstep; [unfold sizeof_PageHdr; lia..|]. cbn [aDisk set_aDisk].
  set (hdr := bytes_at d0 0 sizeof_PageHdr).
  assert (Hhl : Z.of_nat (length hdr) = 8) by (apply bytes_at_length; unfold sizeof_PageHdr; (done || lia)).
  do 3 pstep. cbn [apCell set_aDisk]. apply wp_unbind.
  assert (Hsame0 : forall k, 8 <= k -> d0.[k] = (aDisk p).[k]).
  { intros k Hk. apply (store16_same _ _ _ k (k + 1)); try done; lia. }
  assert (Hc0 : Forall2 (cell_holds sw d0) (apCell p) ts).
  { apply (cells_same sw (aDisk p)); try done. intros k Hk _. by apply Hsame0. }
  apply wp_bind. eapply wp_mono.
  { apply (wp_defrag_loop (apCell p) ts hdr [] (set_aDisk d0 p)); try done.
    - rewrite Hhl. pose proof (total_regions (aDisk p) (apCell p) ts 8 Hc Hon). fold pc in H. lia.
    - by apply bytes_at_bytes. }
  2: done.
  intros np p1 (cps & d1 & Enp & Hnb & Hcp & M1 & Hsame1 & ->). rewrite Hhl in Hcp |- *. cbn [app].
  pose proof (copies_end _ _ _ Hcp) as Hend. fold pc in Hend.
  assert (Hnl : Z.of_nat (length np) = pc) by (rewrite Enp, length_app; lia). rewrite Hnl.
  assert (Hpc8 : 8 <= pc /\ pc `mod` 4 = 0).
  { split; [apply packed_end_ge|by eapply packed_end_mod]. }
  do 2 pstep. cbn [nFree set_apCell set_aDisk]. pstep.
  pstep; [apply Z.eqb_eq; unfold SQLITE_USABLE_SIZE; lia|].
  pstep. pstep; [lia..|]. cbn [aDisk set_apCell set_aDisk]. set (d2 := write_at d1 0 np).
  assert (M2 : mem_ok d2) by (apply write_at_ok; (done || lia)).
  assert (Hc2 : Forall2 (cell_holds sw d2) (map OnPage (packed 8 ts)) ts).
  { apply (copies_hold d2 8 cps); try done; [lia|]. intros k Hk. unfold d2.
    rewrite write_at_in by (done || lia). rewrite Enp, aget_app_right by lia. f_equal. lia. }
  assert (Hlow2 : same_on (aDisk p) d2 0 4).
  { intros k Hk. unfold d2. rewrite write_at_in by (done || lia). rewrite Enp, aget_app_left by lia.
    unfold hdr. rewrite bytes_at_get by (try done; unfold sizeof_PageHdr; lia).
    replace (0 + (k - 0)) with k by lia. apply (store16_same _ _ _ k (k + 1)); try done; lia. }
  do 2 pstep. cbn [apCell set_apCell set_aDisk]. pstep.
  set (l := map OnPage (packed 8 ts)) in *.
  match goal with |- wp ?m ?R _ ?q => assert (Hlast : forall R' : unit -> MemPage -> Prop,
    (forall d3, mem_ok d3 -> Forall2 (cell_holds sw d3) l ts -> same_on (aDisk p) d3 0 4 ->
       R' tt (set_apCell l (set_aDisk d3 p))) -> wp m R' C q) end.
  { intros R' HR. unfold l. rewrite fmap_last. destruct (last (packed 8 ts)) as [o|] eqn:El; cbn [fmap option_fmap option_map].
    - apply last_packed in El as (t & Hin).
      destruct (region_of_cell _ _ _ _ _ Hc2 Hin) as ((Q1 & Q2 & Q3 & Q4 & Q5) & Q6). cbn [fst snd] in *.
      pstep; offsets; [lia..|]. cbn [aDisk set_apCell set_aDisk].
      apply (HR (store16 d2 (o + 6) 0)); [auto with cmodel| |].
      + eapply store_link_holds; try done. intros k. apply packed_occ.
      + eapply same_on_trans; [exact Hlow2|]. apply store16_same; (done || lia).
    - apply wp_ret. by apply (HR d2). }
  apply Hlast. clear Hlast. intros d3 M3 Hc3 Hlow3. cbn beta.
  do 2 pstep; offsets; [lia..|]. do 2 pstep; [lia..|]. do 2 pstep; [lia..|]. cbn [aDisk set_apCell set_aDisk].
  pstep. pstep; [apply Z.leb_le; unfold SQLITE_USABLE_SIZE, sizeof_FreeBlk; lia|].
  unfold SQLITE_USABLE_SIZE, sizeof_FreeBlk.
  set (zeros := replicate (Z.to_nat (1024 - pc - 4)) 0).
  assert (Hz : Z.of_nat (length zeros) = 1024 - pc - 4) by (unfold zeros; rewrite length_replicate; lia).
  pstep; [lia..|]. cbn [aDisk set_apCell set_aDisk].
  set (d4 := store16 d3 pc _). assert (M4 : mem_ok d4) by (unfold d4; auto with cmodel).
  set (d5 := store16 d4 (pc + 2) 0). assert (M5 : mem_ok d5) by (unfold d5; auto with cmodel).
  set (d6 := store16 d5 6 _). assert (M6 : mem_ok d6) by (unfold d6; auto with cmodel).
  set (d7 := write_at d6 (pc + 4) zeros).
  assert (M7 : mem_ok d7).
  { apply write_at_ok; [done| |lia|lia]. apply Forall_replicate. unfold is_byte. lia. }
  assert (Hsame : forall lo hi, 0 <= lo -> hi <= pc -> hi <= 6 \/ 8 <= lo -> same_on d3 d7 lo hi).
  { intros lo hi ???. eapply same_on_trans; [|apply write_at_same; (done || lia)].
    do 2 (eapply same_on_trans; [|apply store16_same; (done || lia)]). apply store16_same; (done || lia). }
  assert (Hf : forall i, 0 <= i -> i <= pc + 2 -> fld sw d7 i = fld sw d6 i).
  { intros i ??. apply fld_same, write_at_same; (done || lia). }
  exists d7. split; [done|]. split; [eapply same_on_trans; [exact Hlow3|apply Hsame; lia]|]. split; [done|].
  split; cbn [aDisk isInit apCell nFree isOverfull set_apCell set_aDisk]; try done.
  - apply (cells_same sw d3); try done. intros k Hk Hpos. unfold l in Hpos. apply packed_regions in Hpos.
    apply (Hsame k (k + 1)); (lia || unfold pc; lia).
  - apply links_cons. cbn [fst snd]. unfold blk_iSize, blk_iNext. rewrite links_nil. offsets. rewrite !Hf by lia.
    unfold d6. rewrite (fld_store_other sw d5 6 _ pc), (fld_store_other sw d5 6 _ (pc + 2)) by (done || lia).
    split; [apply fld_store; (done || lia || (unfold u16; lia))|]. split.
    + unfold d5. rewrite fld_store_other by (done || lia). unfold d4.
      rewrite fld_store by (done || lia || (unfold u16; lia)). lia.
    + by apply fld_store_0; try lia.
  - cbn [ascending]. unfold placed. cbn [fst snd]. rewrite Hnf.
    assert (total fs `mod` 4 = 0) by (rewrite <-Hnf; lia). lia.
  - intros k. fold l. pose proof (packed_occ 8 ts k). fold l in H. pose proof (packed_regions 8 ts k) as Hr. fold l pc in Hr.
    unfold occ at 2. cbn [foldr]. pose proof (covers_spec k (pc, nFree p)) as Hcv. cbn [fst snd] in Hcv.
    pose proof (occ_nonneg k (regions l ts)). destruct (Z.ltb_spec 0 (occ k (regions l ts))) as [Hlt|Hlt]; [specialize (Hr Hlt)|]; lia.
  - pose proof (total_regions d7 l ts 8) as Ht. fold pc in Ht. unfold total at 2. cbn [foldr snd].
    unfold USABLE_SPACE, SQLITE_USABLE_SIZE, sizeof_PageHdr. rewrite Ht in Hpc; [lia| |apply on_pages_packed].
    apply (cells_same sw d3); try done. intros k Hk Hpos. unfold l in Hpos. apply packed_regions in Hpos.
    apply (Hsame k (k + 1)); (lia || unfold pc; lia).
  - unfold total. simpl. lia.
  - intros _. apply on_pages_packed.
Qed.
End Defrag.
