(* ===== verification/BtreeAlloc.v ===== *)
(** [allocateSpace] and [freeSpace] on a page that holds cells. *)
From S2P Require Import Prelude OsFile BtreePage BtreeMem BtreeSpace BtreeDefrag.
From Stdlib Require Import Zify.

#[local] Ltac Zify.zify_post_hook ::= Z.to_euclidean_division_equations.

(** * Taking space from a chain of blocks *)

Lemma ascending_split lo pre r post : ascending lo (pre ++ r :: post) ->
  placed r /\ lo <= fst r /\ ascending (fst r + snd r) post.
Proof.
  revert lo. induction pre as [|x pre IH]; intros lo; simpl; [tauto|].
  intros (Hlo & Hx & H). destruct (IH _ H) as (H1 & H2 & H3). unfold placed in Hx. split; [done|]. split; [lia|done].
Qed.

Lemma ascending_put lo pre r post mid : ascending lo (pre ++ r :: post) -> ascending (fst r) mid ->
  ascending lo (pre ++ mid).
Proof.
  intros H Hm. revert lo H. induction pre as [|x pre IH]; intros lo; simpl.
  - intros (Hlo & _). by eapply ascending_mono.
  - intros (Hlo & Hx & H). split; [done|]. split; [done|]. by apply IH.
Qed.

Lemma spaced_put lo pre r post mid : ascending lo (pre ++ r :: post) -> spaced lo (pre ++ r :: post) ->
  (forall lo', lo' < fst r -> spaced lo' mid) -> spaced lo (pre ++ mid).
Proof.
  revert lo. induction pre as [|x pre IH]; intros lo; simpl.
  - intros _ (Hlo & _) Hm. by apply Hm.
  - intros (_ & _ & Ha) (Hlo & Hs) Hm. split; [done|]. by apply IH.
Qed.

Lemma spaced_split lo pre r post : spaced lo (pre ++ r :: post) -> spaced (fst r + snd r) post.
Proof.
  revert lo. induction pre as [|x pre IH]; intros lo; simpl; [tauto|]. intros (_ & H). by eapply IH.
Qed.

Lemma link_end_bounds at_ lo pre r post : ascending lo (pre ++ r :: post) -> at_ + 2 <= lo ->
  at_ <= link_end at_ pre /\ link_end at_ pre + 2 <= fst r.
Proof.
  revert at_ lo. induction pre as [|x pre IH]; intros at_ lo; simpl.
  - intros (Hlo & _). lia.
  - intros (Hlo & Hx & H) Hat. unfold placed in Hx.
    destruct (IH (blk_iNext (fst x)) _ H) as [H1 H2]; offsets; lia.
Qed.

Section Alloc.
Context (sw : bool).

Lemma links_split d at_ pre fs : links sw d at_ (pre ++ fs) -> links sw d (link_end at_ pre) fs.
Proof.
  revert at_. induction pre as [|x pre IH]; intros at_; [done|].
  intros (_ & _ & H)%links_cons. by apply IH.
Qed.

(** The part of a chain behind [pre] is replaced. *)
Lemma links_replace d d' at_ lo pre r post mid : ascending lo (pre ++ r :: post) -> 0 <= at_ -> at_ + 2 <= lo ->
  links sw d at_ (pre ++ r :: post) ->
  (forall k, 0 <= k < fst r -> ~ (link_end at_ pre <= k < link_end at_ pre + 2) -> d'.[k] = d.[k]) ->
  links sw d' (link_end at_ pre) mid -> links sw d' at_ (pre ++ mid).
Proof.
  revert at_ lo. induction pre as [|x pre IH]; intros at_ lo; [done|].
  intros Ha Hat Hlo Hl Hsame Hm. pose proof Ha as (H1 & Hx & Ha'). simpl in Hl.
  apply links_cons in Hl as (F1 & F2 & F3). cbn [app]. apply links_cons. unfold placed in Hx.
  destruct (link_end_bounds (blk_iNext (fst x)) (fst x + snd x) pre r post) as [E1 E2]; [done|offsets; lia|].
  pose proof (ascending_split _ _ _ _ Ha') as (_ & G1 & _). cbn [link_end] in Hsame. offsets.
  rewrite !(fld_same sw d d') by (intros k Hk; apply Hsame; lia). split; [done|]. split; [done|].
  apply (IH _ (fst x + snd x)); try done; lia.
Qed.

Lemma raw_zero d i : mem_ok d -> load16 d i = 0 <-> fld sw d i = 0.
Proof.
  intros H. unfold fld. split; intros E; [by rewrite E, SWAB16_0|].
  pose proof (SWAB16_twice sw (load16 d i) (load16_u16 d i H)) as E2. by rewrite E, SWAB16_0 in E2.
Qed.

(** The block from which [allocateSpace] takes [n] bytes: what [freeSpace] may leave
    of the page has moved, but the page holds the same cells. *)
Record found (p p' : MemPage) (ts : list (list Z)) (fs : list region) (n : Z)
    (pre : list region) (r : region) (post : list region) : Prop := {
  fd_page : exists l d', p' = set_apCell l (set_aDisk d' p) /\ same_on (aDisk p) d' 0 4;
  fd_holds : page_holds sw p' ts (pre ++ r :: post);
  fd_fits : n <= snd r;
  fd_spaced : spaced 7 fs -> spaced 7 (pre ++ r :: post)
}.

Lemma wp_alloc_loop fuel p ts pre r post n C :
  page_holds sw p ts (pre ++ r :: post) -> writeable p = true -> isOverfull p = false ->
  0 < n <= nFree p -> (length post < fuel)%nat \/ n <= snd r ->
  wp (alloc_loop sw fuel (link_end firstFree pre) (fst r) n)
    (fun x p' => exists pre' r' post', found p p' ts (pre ++ r :: post) n pre' r' post' /\
       x = (link_end firstFree pre', fst r', snd r')) C p.
Proof.
  revert p pre r post. induction fuel as [|fuel IH]; intros p pre r post H Hw Ho Hn Hf;
    pose proof H as [Hm Hi Hc Hl Ha Hocc Htot Hnf Hov];
    pose proof (ascending_split _ _ _ _ Ha) as ((R1 & R2 & R3 & R4 & R5) & _ & Hpost);
    pose proof (links_split _ _ _ _ Hl) as (F1 & F2 & F3)%links_cons;
    cbn [alloc_loop]; pstep; (pstep; offsets; [lia..|]); fold (fld sw (aDisk p) (fst r)); rewrite F2;
    destruct (Z.leb_spec n (snd r)) as [Hfit|Hfit]; try lia.
  1,2: apply wp_ret; exists pre, r, post; split; [|done]; split; try done;
    exists (apCell p), (aDisk p); split; [by destruct p|done].
  destruct Hf as [Hf|]; [|lia].
  do 2 pstep; offsets; [lia..|]. destruct (Z.eqb_spec (load16 (aDisk p) (fst r + 2)) 0) as [E0|E0].
  - do 2 pstep. eapply wp_mono; [apply (wp_defragmentPage sw p ts (pre ++ r :: post)); try done; lia|..]; [|done].
    intros _ p1 (d' & -> & Hlow & Hpc & H1). cbn [nFree]. apply wp_ret.
    set (p1 := set_apCell _ _) in *. set (rest := (packed_end 8 ts, nFree p)) in *.
    pose proof (ph_links _ _ _ _ H1) as (G1 & G2 & G3)%links_cons.
    do 2 pstep; [lia..|]. fold (fld sw (aDisk p1) 6). offsets. rewrite G1.
    eapply wp_mono; [apply (IH p1 [] rest [] H1)|..]; [done|done|done|right; simpl; lia| |done].
    intros x p2 (pre' & r' & post' & [[l2 (d2 & -> & D2)] D3 D4 D5] & ->). exists pre', r', post'.
    split; [|done]. split; [| done|done|].
    + exists l2, d2. split; [done|]. by eapply same_on_trans.
    + intros _. apply D5. simpl. split; [|done]. pose proof (packed_end_ge 8 ts). lia.
  - rewrite (raw_zero _ (fst r + 2)) in E0 by done.
    destruct post as [|r2 post]; [apply links_nil in F3; offsets; congruence|].
    apply links_cons in F3 as (F3 & _). offsets.
    do 3 pstep. pstep; offsets; [lia..|]. fold (fld sw (aDisk p) (fst r + 2)). rewrite F3.
    assert (Ee : fst r + 2 = link_end 6 (pre ++ [r])).
    { clear. generalize 6. induction pre as [|x pre IHp]; intros z; [done|]. simpl. apply IHp. }
    rewrite Ee. assert (Ea : pre ++ r :: r2 :: post = (pre ++ [r]) ++ r2 :: post) by (by rewrite <-app_assoc).
    rewrite Ea in H |- *. apply (IH p (pre ++ [r]) r2 post H); try done. left. simpl in Hf. lia.
Qed.

(** A page on which the region [h] is neither free nor part of a cell. *)
Record page_hole (p : MemPage) (ts : list (list Z)) (fs : list region) (h : region) : Prop := {
  pl_mem : mem_ok (aDisk p);
  pl_init : isInit p = true;
  pl_cells : Forall2 (cell_holds sw (aDisk p)) (apCell p) ts;
  pl_links : links sw (aDisk p) firstFree fs;
  pl_asc : ascending 8 fs;
  pl_placed : placed h;
  pl_occ : forall k, occ k (regions (apCell p) ts) + occ k fs + covers k h <= 1;
  pl_total : total (regions (apCell p) ts) + total fs + snd h = USABLE_SPACE;
  pl_nFree : nFree p = total fs;
  pl_over : isOverfull p = false -> Forall on_page (apCell p)
}.

(** What taking [n] bytes leaves of the block [r]. *)
Definition remainder (r : region) (n : Z) : list region :=
  if snd r =? n then [] else [(fst r + n, snd r - n)].

Lemma remainder_asc r n post : placed r -> 0 < n -> n `mod` 4 = 0 -> n <= snd r ->
  ascending (fst r + snd r) post -> ascending (fst r) (remainder r n ++ post).
Proof.
  intros (R1 & R2 & R3 & R4 & R5) Hn Ha Hle Hp. unfold remainder. destruct (Z.eqb_spec (snd r) n).
  - eapply ascending_mono; [exact Hp|lia].
  - simpl. split; [lia|]. split; [unfold placed; simpl; lia|].
    by replace (fst r + n + (snd r - n)) with (fst r + snd r) by lia.
Qed.

Lemma remainder_occ r n k : 0 < n <= snd r -> occ k (remainder r n) + covers k (fst r, n) = covers k r.
Proof.
  intros H. unfold remainder. destruct (Z.eqb_spec (snd r) n) as [<-|].
  - simpl. by destruct r.
  - unfold occ. cbn [foldr]. pose proof (covers_spec k (fst r + n, snd r - n)).
    pose proof (covers_spec k (fst r, n)). pose proof (covers_spec k r). cbn [fst snd] in *. lia.
Qed.

Lemma remainder_total r n : total (remainder r n) = snd r - n.
Proof. unfold remainder, total. destruct (Z.eqb_spec (snd r) n); simpl; lia. Qed.

Lemma remainder_spaced r n post lo : 0 < n <= snd r -> lo < fst r -> spaced (fst r + snd r) post ->
  ascending (fst r + snd r) post -> spaced lo (remainder r n ++ post).
Proof.
  intros Hn Hlo Hs Ha. unfold remainder. destruct (Z.eqb_spec (snd r) n).
  - destruct post as [|x post]; [done|]. destruct Hs as (H1 & H2). split; [lia|done].
  - split; [simpl; lia|]. simpl. by replace (fst r + n + (snd r - n)) with (fst r + snd r) by lia.
Qed.

(** The second half of [allocateSpace]. *)
Definition take_block (pIdx q iSize nByte : Z) : M MemPage Z :=
  if iSize =? nByte then
    raw ← ld16 pIdx;
    nx ← ld16 (blk_iNext q);
    st16 pIdx nx;;
    mret (SWAB16 sw raw)
  else
    raw ← ld16 pIdx;
    let start := SWAB16 sw raw in
    let pNew := start + nByte in
    nx ← ld16 (blk_iNext q);
    st16 (blk_iNext pNew) nx;;
    st16 (blk_iSize pNew) (SWAB16 sw (iSize - nByte));;
    st16 pIdx (SWAB16 sw (start + nByte));;
    mret start.

(** The memory after a block has been taken, and where only the free list changed. *)
Lemma wp_take_block p pre r post n C :
  mem_ok (aDisk p) -> links sw (aDisk p) firstFree (pre ++ r :: post) -> ascending 8 (pre ++ r :: post) ->
  0 < n -> n `mod` 4 = 0 -> n <= snd r ->
  wp (take_block (link_end firstFree pre) (fst r) (snd r) n)
    (fun start p' => exists d', p' = set_aDisk d' p /\ mem_ok d' /\ start = fst r /\
       links sw d' firstFree (pre ++ remainder r n ++ post) /\
       forall k, 0 <= k -> ~ (link_end firstFree pre <= k < link_end firstFree pre + 2) ->
         ~ (fst r <= k < fst r + snd r) -> d'.[k] = (aDisk p).[k]) C p.
Proof.
  intros Hm Hl Ha Hn Hal Hle. pose proof (ascending_split _ _ _ _ Ha) as ((R1 & R2 & R3 & R4 & R5) & _ & Hpost).
  pose proof (links_split _ _ _ _ Hl) as Hl2. pose proof Hl2 as (F1 & F2 & F3)%links_cons.
  destruct (link_end_bounds firstFree 8 pre r post Ha) as [E1 E2]; [unfold firstFree; lia|].
  offsets. set (e := link_end 6 pre) in *. unfold take_block, remainder.
  assert (Hsub : forall d', mem_ok d' -> (forall k, 0 <= k -> ~ (e <= k < e + 2) -> ~ (fst r <= k < fst r + snd r) ->
    d'.[k] = (aDisk p).[k]) -> forall mid, links sw d' e mid -> links sw d' 6 (pre ++ mid)).
  { intros d' Hd' Hs mid Hmid. apply (links_replace (aDisk p) d' 6 8 pre r post); try done; [lia..|].
    intros k Hk He. apply Hs; (done || lia). }
  assert (Htail : forall d' e', (forall k, 0 <= k -> ~ (e <= k < e + 2) -> ~ (fst r <= k < fst r + snd r) ->
    d'.[k] = (aDisk p).[k]) -> fld sw d' e' = fld sw (aDisk p) (fst r + 2) -> links sw d' e' post).
  { intros d' e' Hs Eq. destruct post as [|r2 post]; [apply links_nil; apply links_nil in F3; congruence|].
    apply links_cons in F3 as (G1 & G2 & G3). destruct Hpost as (Hr2 & (S1 & S2 & S3 & S4 & S5) & Hpost).
    apply links_cons. offsets. split; [congruence|].
    rewrite (fld_same sw (aDisk p)) by (intros k Hk; apply Hs; lia). split; [done|].
    eapply (links_same sw (aDisk p) d'); [exact Hpost| | |done].
    - intros k Hk; apply Hs; lia.
    - apply Forall_forall. intros x Hx k Hk. pose proof (ascending_bound _ _ _ Hpost Hx). apply Hs; lia. }
  destruct (Z.eqb_spec (snd r) n) as [En|En].
  - do 2 pstep; offsets; [lia..|]. do 2 pstep; offsets; [lia..|]. do 2 pstep; [lia..|].
    fold (fld sw (aDisk p) e). rewrite F1, (raw_load sw) by done. pstep.
    set (d' := store16 (aDisk p) e _). assert (M' : mem_ok d') by (unfold d'; auto with cmodel).
    assert (Hs : forall k, 0 <= k -> ~ (e <= k < e + 2) -> ~ (fst r <= k < fst r + snd r) -> d'.[k] = (aDisk p).[k]).
    { intros k Hk He _. apply (store16_same _ _ _ k (k + 1)); try done; lia. }
    exists d'. split; [done|]. split; [done|]. split; [done|]. split; [|done].
    apply Hsub; try done. cbn [app]. apply Htail; [done|]. apply fld_store; (done || lia || apply fld_u16).
  - do 2 pstep; offsets; [lia..|]. fold (fld sw (aDisk p) e). rewrite F1.
    do 2 pstep; offsets; [lia..|]. rewrite (raw_load sw) by done.
    do 2 pstep; offsets; [lia..|]. do 2 pstep; [lia..|]. do 2 pstep; [lia..|]. cbn [aDisk set_aDisk]. pstep.
    set (nx := fld sw (aDisk p) (fst r + 2)).
    set (d1 := store16 (aDisk p) (fst r + n + 2) _). assert (M1 : mem_ok d1) by (unfold d1; auto with cmodel).
    set (d2 := store16 d1 (fst r + n) _). assert (M2 : mem_ok d2) by (unfold d2; auto with cmodel).
    set (d3 := store16 d2 e _). assert (M3 : mem_ok d3) by (unfold d3; auto with cmodel).
    assert (Hs : forall k, 0 <= k -> ~ (e <= k < e + 2) -> ~ (fst r <= k < fst r + snd r) -> d3.[k] = (aDisk p).[k]).
    { intros k Hk He Hr. unfold d3, d2, d1. rewrite !(store16_get _ _ _ k) by (auto with cmodel; lia).
      case_Zb; lia. }
    exists d3. split; [done|]. split; [done|]. split; [done|]. split; [|done].
    apply Hsub; try done. cbn [app]. apply links_cons. offsets. cbn [fst snd].
    split; [apply fld_store; (done || lia || (unfold u16; lia))|]. split.
    + unfold d3. rewrite fld_store_other by (done || lia). apply fld_store; (done || lia || (unfold u16; lia)).
    + apply Htail; [done|]. unfold d3, d2. rewrite !fld_store_other by (done || lia).
      apply fld_store; (done || lia || apply fld_u16).
Qed.

Lemma occ_remainder pre r post n k : 0 < n <= snd r ->
  occ k (pre ++ remainder r n ++ post) + covers k (fst r, n) = occ k (pre ++ r :: post).
Proof.
  intros H. rewrite !occ_app. unfold occ at 5. cbn [foldr]. fold (occ k post).
  pose proof (remainder_occ r n k H). lia.
Qed.

Lemma total_remainder pre r post n : total (pre ++ remainder r n ++ post) + n = total (pre ++ r :: post).
Proof.
  rewrite !total_app, remainder_total. unfold total at 4. cbn [foldr]. fold (total post). lia.
Qed.

(** An index of a cell is neither in a free block nor in a link between free blocks. *)
Lemma cell_not_link lo pre r post k rs : ascending lo (pre ++ r :: post) -> firstFree + 2 <= lo ->
  (forall k, occ k rs + occ k (pre ++ r :: post) <= 1) -> 0 < occ k rs -> lo <= k ->
  ~ (link_end firstFree pre <= k < link_end firstFree pre + 2) /\ ~ (fst r <= k < fst r + snd r).
Proof.
  intros Ha Hlo Hocc Hk Hlk. specialize (Hocc k). rewrite occ_app in Hocc. unfold occ at 3 in Hocc. cbn [foldr] in Hocc.
  fold (occ k post) in Hocc. pose proof (occ_nonneg k pre) as Hpre. pose proof (occ_nonneg k post).
  pose proof (covers_spec k r). split; [|lia]. intros Hl.
  destruct (decide (pre = [])) as [->|Hne]; [simpl in Hl; lia|].
  assert (exists pre' x, pre = pre' ++ [x]) as (pre' & x & ->).
  { destruct (exists_last Hne) as (a & b & ->). eauto. }
  rewrite occ_app in Hpre, Hocc.
  assert (El : link_end firstFree (pre' ++ [x]) = fst x + 2).
  { clear. generalize firstFree. induction pre' as [|y l IH]; intros z; [done|]. simpl. apply IH. }
  rewrite El in Hl. rewrite <-app_assoc in Ha. cbn [app] in Ha.
  pose proof (ascending_split _ _ _ _ Ha) as ((X1 & X2 & X3 & X4 & X5) & _ & _).
  pose proof (occ_nonneg k pre'). unfold occ at 3 in Hocc. cbn [foldr] in Hocc.
  pose proof (covers_spec k x). lia.
Qed.

(** [allocateSpace] finds space whenever there are enough free bytes. *)
Lemma wp_allocateSpace p ts fs n C :
  page_holds sw p ts fs -> writeable p = true -> isOverfull p = false -> 0 < n -> n `mod` 4 = 0 ->
  n <= nFree p ->
  wp (allocateSpace sw n) (fun start p' => exists l d' fs',
      p' = set_nFree (nFree p - n) (set_apCell l (set_aDisk d' p)) /\ same_on (aDisk p) d' 0 4 /\
      page_hole p' ts fs' (start, n) /\ (spaced 7 fs -> spaced 7 fs')) C p.
Proof.
  intros H Hw Ho Hn Hal Hle. unfold allocateSpace. do 4 pstep; [done|].
  pstep. pstep; [apply Z.eqb_eq; symmetry; by apply ROUNDUP_id|]. do 4 pstep; [apply H|]. do 4 pstep.
  rewrite Ho. destruct (Z.ltb_spec (nFree p) n); [lia|]. cbn [orb].
  destruct fs as [|r fs]; [pose proof (ph_nFree _ _ _ _ H) as E; simpl in E; lia|].
  pose proof (ph_links _ _ _ _ H) as (F1 & F2 & F3)%links_cons.
  do 2 pstep; offsets; [lia..|]. fold (fld sw (aDisk p) 6). rewrite F1.
  pstep. eapply wp_mono; [apply (wp_alloc_loop _ p ts [] r fs n); try done; try lia| |done].
  { left. pose proof (ascending_length 8 (r :: fs) (ph_asc _ _ _ _ H) ltac:(lia)). simpl in *.
    unfold SQLITE_USABLE_SIZE. lia. }
  intros x p1 (pre & r1 & post & [[l (d1 & Ep1 & D1)] D3 D4 D5] & ->). cbn [app] in *. subst p1.
  set (p1 := set_apCell _ _) in *. destruct D3 as [Hm Hi Hc Hl Ha Hocc Htot Hnf Hov].
  pstep. change (if snd r1 =? n then _ else _) with (take_block (link_end firstFree pre) (fst r1) (snd r1) n).
  eapply wp_mono; [apply (wp_take_block p1 pre r1 post n); try done| |done].
  intros start p2 (d2 & -> & M2 & -> & L2 & Hsame). do 5 pstep. cbn [nFree set_aDisk set_apCell p1].
  pose proof (ascending_split _ _ _ _ Ha) as (Hr & Hr8 & Hpost). pose proof Hr as (R1 & R2 & R3 & R4 & R5).
  exists l, d2, (pre ++ remainder r1 n ++ post). split; [done|].
  destruct (link_end_bounds firstFree 8 pre r1 post Ha) as [E1 E2]; [unfold firstFree; lia|]. offsets.
  split. { eapply same_on_trans; [exact D1|]. intros k Hk. apply Hsame; lia. }
  split.
  - split; cbn [aDisk isInit apCell nFree isOverfull set_nFree set_apCell set_aDisk]; try done.
    + apply (cells_same sw (aDisk p1)); try done. intros k Hk Hpos.
      destruct (cell_not_link 8 pre r1 post k _ Ha ltac:(unfold firstFree; lia) Hocc Hpos Hk). apply Hsame; (done || lia).
    + eapply ascending_put; [exact Ha|]. by apply remainder_asc.
    + unfold placed. cbn [fst snd]. lia.
    + intros k. specialize (Hocc k). pose proof (occ_remainder pre r1 post n k ltac:(lia)). unfold region in *. lia.
    + pose proof (total_remainder pre r1 post n). cbn [snd]. lia.
    + pose proof (total_remainder pre r1 post n). simpl in Hnf. lia.
  - intros Hs. specialize (D5 Hs). eapply (spaced_put 7); [eapply ascending_mono; [exact Ha|lia]|exact D5|]. intros lo' Hlo.
    apply remainder_spaced; [lia|done|by apply (spaced_split 7 pre r1 post)|done].
Qed.
End Alloc.
