(* ===== verification/BtreePageSpec.v ===== *)
(** Pages as lists of cells: freeing, dropping, inserting and relinking cells; empty
    pages, and reading a page back from its bytes. *)
From S2P Require Import Prelude OsFile BtreePage BtreeMem BtreeSpace BtreeDefrag BtreeAlloc.
From Stdlib Require Import Zify.

#[local] Ltac Zify.zify_post_hook ::= Z.to_euclidean_division_equations.

Definition insert_at {A} (i : nat) (x : A) (l : list A) : list A := take i l ++ x :: drop i l.

Section Spec.
Context (sw : bool).

(** ** Freeing *)

Lemma wp_freeSpace p fs start size C :
  mem_ok (aDisk p) -> isInit p = true -> writeable p = true -> links sw (aDisk p) firstFree fs ->
  ascending 8 fs -> placed (start, size) -> (forall k, occ k fs + covers k (start, size) <= 1) ->
  wp (freeSpace sw start size)
    (fun _ p' => exists fs' d', after_free sw (start, size) 8 firstFree fs p p' fs' d') C p.
Proof.
  intros Hm Hi Hw Hl Ha Hp Hocc. pose proof Hp as (P1 & P2 & P3 & P4 & P5). cbn [fst snd] in *.
  unfold freeSpace. do 4 pstep; [done|].
  pstep. pstep; [apply Z.eqb_eq; symmetry; by apply ROUNDUP_id|].
  pstep. pstep; [apply Z.eqb_eq; symmetry; by apply ROUNDUP_id|]. do 4 pstep; [done|].
  change (wp (free_loop sw (Z.to_nat SQLITE_USABLE_SIZE) firstFree start size ≫= free_finish sw start size)
    (fun _ p' => exists fs' d', after_free sw (start, size) 8 firstFree fs p p' fs' d') C p).
  apply wp_free_loop; try done; unfold firstFree; try lia.
  pose proof (ascending_length 8 fs Ha ltac:(lia)). unfold SQLITE_USABLE_SIZE. lia.
Qed.

(** ** The regions of the cells when a cell comes or goes *)

Lemma regions_split d l ts i r t : Forall2 (cell_holds sw d) l ts -> l !! i = Some r -> ts !! i = Some t ->
  regions l ts = regions (take i l) (take i ts) ++ regions [r] [t] ++ regions (drop (S i) l) (drop (S i) ts) /\
  regions (delete i l) (delete i ts) = regions (take i l) (take i ts) ++ regions (drop (S i) l) (drop (S i) ts).
Proof.
  intros H Hl Ht. pose proof (Forall2_length _ _ _ H) as Hlen.
  assert (Hl' : length (take i l) = length (take i ts)) by (rewrite !length_take; lia). split.
  - rewrite <-(take_drop_middle l i r Hl) at 1. rewrite <-(take_drop_middle ts i t Ht) at 1.
    rewrite regions_app by done. f_equal. destruct r; [|done]. done.
  - rewrite !delete_take_drop. by rewrite regions_app.
Qed.

Lemma regions_insert l ts i r t : length l = length ts ->
  exists a b, regions l ts = a ++ b /\ regions (insert_at i r l) (insert_at i t ts) = a ++ regions [r] [t] ++ b.
Proof.
  intros Hlen. assert (Hl' : length (take i l) = length (take i ts)) by (rewrite !length_take; lia).
  exists (regions (take i l) (take i ts)), (regions (drop i l) (drop i ts)). split.
  - by rewrite <-regions_app, !take_drop by done.
  - unfold insert_at. rewrite regions_app by done. f_equal. by destruct r.
Qed.

Lemma Forall2_insert_at {A B} (R : A -> B -> Prop) l ts i r t :
  Forall2 R l ts -> R r t -> Forall2 R (insert_at i r l) (insert_at i t ts).
Proof.
  intros H Hr. unfold insert_at. apply Forall2_app; [by apply Forall2_take|].
  constructor; [done|by apply Forall2_drop].
Qed.

Lemma Forall_insert_at {A} (P : A -> Prop) l i x : Forall P l -> P x -> Forall P (insert_at i x l).
Proof.
  intros H Hx. unfold insert_at. apply Forall_app. split; [by apply Forall_take|].
  constructor; [done|by apply Forall_drop].
Qed.

(** ** dropCell *)

Lemma wp_dropCell p ts fs i o t C :
  page_holds sw p ts fs -> writeable p = true -> apCell p !! i = Some (OnPage o) -> ts !! i = Some t ->
  wp (dropCell sw i (tsize t)) (fun _ p' => exists fs' d',
      p' = set_idxShift true (set_apCell (delete i (apCell p)) (set_nFree (nFree p + tsize t) (set_aDisk d' p))) /\
      same_on (aDisk p) d' 0 4 /\ page_holds sw p' (delete i ts) fs' /\ (spaced 7 fs -> spaced 7 fs')) C p.
Proof.
  intros [Hm Hi Hc Hl Ha Hocc Htot Hnf Hov] Hw Hr Ht.
  assert (Hcell : cell_on sw (aDisk p) o t) by (by eapply (Forall2_lookup_lr _ _ _ _ _ _ Hc Hr Ht)).
  pose proof (co_placed _ _ _ _ Hcell) as Hpl. pose proof Hpl as (P1 & P2 & P3 & P4 & P5).
  pose proof (co_min _ _ _ _ Hcell) as Hmin. unfold MIN_CELL_SIZE, sizeof_CellHdr in Hmin. cbn [fst snd] in *.
  destruct (regions_split _ _ _ _ _ _ Hc Hr Ht) as [E1 E2]. rewrite E1 in Hocc, Htot.
  unfold dropCell. do 2 pstep. rewrite Hr. cbn [cell_at].
  do 2 pstep; [unfold sizeof_CellHdr; lia..|]. rewrite (cell_on_header sw _ _ t) by done.
  pstep. pstep; [by apply Z.eqb_refl|]. do 4 pstep; [done|]. pstep.
  eapply wp_mono; [apply (wp_freeSpace p fs o (tsize t)); try done| |done].
  { intros k. specialize (Hocc k). rewrite !occ_app in Hocc. cbn [regions] in Hocc. unfold occ at 2 in Hocc. cbn [foldr] in Hocc.
    pose proof (occ_nonneg k (regions (take i (apCell p)) (take i ts))).
    pose proof (occ_nonneg k (regions (drop (S i) (apCell p)) (drop (S i) ts))). lia. }
  intros _ p1 (fs' & d' & [-> A2 A3 [B1 B2 B3 B4] [S1 S2] A6]). do 5 pstep. cbn [apCell set_nFree set_aDisk snd fst].
  exists fs', d'. split; [done|]. split; [eapply same_on_sub; [exact S1|lia|unfold firstFree; lia]|].
  split; [|intros Hs; apply B4; [simpl; lia|done]].
  assert (Hsplit : forall k, occ k (regions (delete i (apCell p)) (delete i ts)) + occ k fs + covers k (o, tsize t) <= 1).
  { intros k. specialize (Hocc k). rewrite E2. rewrite !occ_app in *. cbn [regions] in Hocc. unfold occ at 2 in Hocc.
    cbn [foldr] in Hocc. lia. }
  split; cbn [aDisk isInit apCell nFree isOverfull set_idxShift set_apCell set_nFree set_aDisk]; try done.
  - apply (cells_same sw (aDisk p)); try done; [|by apply Forall2_delete]. intros k Hk Hpos. apply A6; [done|].
    specialize (Hsplit k). pose proof (occ_nonneg k fs). pose proof (covers_spec k (o, tsize t)). lia.
  - intros k. rewrite B2. specialize (Hsplit k). lia.
  - rewrite B3, E2. rewrite !total_app in *. unfold total at 2 in Htot. cbn [regions foldr] in Htot. cbn [snd]. simpl in Htot. lia.
  - rewrite B3, Hnf. done.
  - intros Ho. apply Forall_delete. by apply Hov.
Qed.

(** ** insertCell *)

Lemma whole_cell_on d o c t : mem_ok d -> whole_cell sw c t -> placed (o, tsize t) ->
  cell_on sw (write_at d o (take (Z.to_nat (tsize t)) c)) o t.
Proof.
  intros Hd [Hb Hs Hl Hmin Ht] Hp. pose proof Hp as (P1 & P2 & P3 & P4 & P5). cbn [fst snd] in *.
  unfold MIN_CELL_SIZE, sizeof_CellHdr in *.
  assert (El : Z.of_nat (length (take (Z.to_nat (tsize t)) c)) = tsize t) by (rewrite length_take; lia).
  assert (Eb : bytes_at (write_at d o (take (Z.to_nat (tsize t)) c)) o (tsize t) = take (Z.to_nat (tsize t)) c).
  { rewrite <-El at 2. apply write_at_bytes; try done; [by apply Forall_take|lia|lia]. }
  split; [done|done| |]; rewrite Eb; [|done].
  rewrite <-Hs. apply cellSize_ext. intros k Hk _. unfold aget. rewrite !nth_lookup, lookup_take_lt by lia. done.
Qed.

(** The cell fits on the page: it is stored there. *)
Lemma wp_insertCell p ts fs i c t C :
  page_holds sw p ts fs -> writeable p = true -> isOverfull p = false -> whole_cell sw c t ->
  tsize t `mod` 4 = 0 -> tsize t <= nFree p -> (i <= length ts)%nat -> nCell p < MX_CELL + 2 ->
  wp (insertCell sw i c (tsize t)) (fun _ p' => exists fs',
      page_holds sw p' (insert_at i t ts) fs' /\ writeable p' = true /\ isOverfull p' = false /\
      nFree p' = nFree p - tsize t /\ same_on (aDisk p) (aDisk p') 0 4 /\ (spaced 7 fs -> spaced 7 fs')) C p.
Proof.
  intros H Hw Ho Hwc Hal Hfit Hi Hcap. pose proof (Forall2_length _ _ _ (ph_cells _ _ _ _ H)) as Hlen.
  pose proof (wc_min _ _ _ Hwc) as Hmin. unfold MIN_CELL_SIZE, sizeof_CellHdr in Hmin.
  unfold insertCell. do 2 pstep. pstep. pstep; [apply bool_decide_eq_true; lia|].
  pstep. pstep; [apply Z.eqb_eq; symmetry; apply Hwc|]. do 4 pstep; [done|].
  pstep. eapply wp_mono; [apply (wp_allocateSpace sw p ts fs (tsize t)); (done || lia)| |done].
  intros start p1 (l & d1 & fs1 & -> & Hlow & [Mm Mi Mc Ml Ma Mp Mocc Mtot Mnf Mov] & Hsp).
  pose proof Mp as (P1 & P2 & P3 & P4 & P5). cbn [fst snd aDisk isInit apCell nFree isOverfull set_nFree set_apCell set_aDisk] in *.
  pose proof (Forall2_length _ _ _ Mc) as Hl1.
  do 2 pstep. pstep. pstep; [apply Z.ltb_lt; unfold nCell in Hcap; cbn [apCell set_nFree set_apCell]; lia|].
  pstep. destruct (Z.leb_spec start 0); [lia|].
  pose proof (wc_length _ _ _ Hwc) as Hcl.
  assert (El : Z.of_nat (length (take (Z.to_nat (tsize t)) c)) = tsize t) by (rewrite length_take; lia).
  do 2 pstep; [lia..|]. do 2 pstep. cbn [apCell set_nFree set_apCell set_aDisk aDisk].
  change (take i l ++ OnPage start :: drop i l) with (insert_at i (OnPage start) l).
  set (d2 := write_at d1 start _).
  assert (M2 : mem_ok d2).
  { apply write_at_ok; [done|apply Forall_take, Hwc|lia|lia]. }
  assert (Hsame : forall lo hi, 0 <= lo -> hi <= start \/ start + tsize t <= lo -> same_on d1 d2 lo hi).
  { intros lo hi ??. apply write_at_same; (done || lia). }
  destruct (regions_insert l ts i (OnPage start) t Hl1) as (a & b & E1 & E2).
  assert (Hocc2 : forall k, occ k (regions (insert_at i (OnPage start) l) (insert_at i t ts)) =
    occ k (regions l ts) + covers k (start, tsize t)).
  { intros k. rewrite E1, E2, !occ_app. cbn [regions]. unfold occ at 2. cbn [foldr]. lia. }
  exists fs1. split; [|split; [done|split; [done|split; [done|split]]]].
  - split; cbn [aDisk isInit apCell nFree isOverfull set_idxShift set_apCell set_nFree set_aDisk]; try done.
    + apply Forall2_insert_at.
      * apply (cells_same sw d1); try done. intros k Hk Hpos. apply (Hsame k (k + 1)); [lia| |lia].
        specialize (Mocc k). pose proof (occ_nonneg k fs1). pose proof (covers_spec k (start, tsize t)) as Hc.
        cbn [fst snd] in Hc. lia.
      * by apply whole_cell_on.
    + eapply (links_same sw d1); [exact Ma| | |done].
      * apply Hsame; unfold firstFree; lia.
      * apply Forall_forall. intros x Hx. apply list_elem_of_In in Hx as Hx'.
        assert (Hap : apart x (start, tsize t)).
        { pose proof (ascending_placed _ _ Ma) as Hpl. rewrite Forall_forall in Hpl. pose proof (Hpl x Hx) as (X1 & X2 & _).
          apply (occ_apart _ _ fs1 [(start, tsize t)]); [|done|set_solver|done|simpl; lia].
          intros k. specialize (Mocc k). rewrite occ_app. unfold occ at 2. cbn [foldr].
          pose proof (occ_nonneg k (regions l ts)). lia. }
        pose proof (ascending_placed _ _ Ma) as Hpl. rewrite Forall_forall in Hpl. pose proof (Hpl x Hx) as (X1 & X2 & X3 & X4 & X5).
        unfold apart in Hap. cbn [fst snd] in Hap. apply Hsame; lia.
    + intros k. rewrite Hocc2. specialize (Mocc k). lia.
    + rewrite E2. rewrite E1 in Mtot. rewrite !total_app in *. unfold total at 2. cbn [regions foldr snd]. lia.
    + intros _. apply Forall_insert_at; [by apply Mov|done].
  - eapply same_on_trans; [exact Hlow|]. apply Hsame; lia.
  - done.
Qed.

(** Without enough free bytes, or on an overfull page, nothing is allocated. *)
Lemma wp_allocateSpace_none p n C :
  isInit p = true -> writeable p = true -> n `mod` 4 = 0 -> nFree p < n \/ isOverfull p = true ->
  wp (allocateSpace sw n) (fun r p' => r = 0 /\ p' = p) C p.
Proof.
  intros Hi Hw Hal Hfit. unfold allocateSpace. do 4 pstep; [done|].
  pstep. pstep; [apply Z.eqb_eq; symmetry; by apply ROUNDUP_id|]. do 4 pstep; [done|]. do 4 pstep.
  assert (E : (nFree p <? n) || isOverfull p = true) by (apply orb_true_iff; rewrite Z.ltb_lt; tauto).
  rewrite E. by pstep.
Qed.

(** The cell does not fit, or the page is overfull already: the page refers to it. *)
Lemma wp_insertCell_overfull p ts fs i c t C :
  page_holds sw p ts fs -> writeable p = true -> whole_cell sw c t ->
  tsize t `mod` 4 = 0 -> nFree p < tsize t \/ isOverfull p = true -> (i <= length ts)%nat -> nCell p < MX_CELL + 2 ->
  wp (insertCell sw i c (tsize t)) (fun _ p' =>
      p' = set_idxShift true (set_apCell (insert_at i (Elsewhere c) (apCell p)) (set_isOverfull true p)) /\
      page_holds sw p' (insert_at i t ts) fs) C p.
Proof.
  intros H Hw Hwc Hal Hfit Hi Hcap. pose proof (Forall2_length _ _ _ (ph_cells _ _ _ _ H)) as Hlen.
  unfold insertCell. do 2 pstep. pstep. pstep; [apply bool_decide_eq_true; lia|].
  pstep. pstep; [apply Z.eqb_eq; symmetry; apply Hwc|]. do 4 pstep; [done|].
  pstep. eapply wp_mono; [apply (wp_allocateSpace_none p (tsize t)); (done || apply H)| |done].
  intros r p1 [-> ->]. do 2 pstep. pstep. pstep; [apply Z.ltb_lt; done|].
  change (0 <=? 0) with true. cbn iota. repeat pstep.
  split; [done|]. destruct H as [Hm Hin Hc Hl Ha Hocc Htot Hnf Hov].
  cbn [apCell set_isOverfull]. change (take i (apCell p) ++ Elsewhere c :: drop i (apCell p)) with (insert_at i (Elsewhere c) (apCell p)).
  destruct (regions_insert (apCell p) ts i (Elsewhere c) t Hlen) as (a & b & E1 & E2).
  split; cbn [aDisk isInit apCell nFree isOverfull set_idxShift set_apCell set_isOverfull]; try done.
  - by apply Forall2_insert_at.
  - intros k. rewrite E2. specialize (Hocc k). by rewrite E1 in Hocc.
  - rewrite E2. by rewrite E1 in Htot.
Qed.

(** ** relinkCellList *)

Definition offset (r : cell_ref) : Z := match r with OnPage o => o | Elsewhere _ => 0 end.

Lemma occ_two a b rs k : a ∈ rs -> b ∈ rs -> a <> b -> covers k a + covers k b <= occ k rs.
Proof.
  induction rs as [|r rs IH]; intros Ha Hb Hne; [by apply elem_of_nil in Ha|].
  unfold occ. cbn [foldr]. fold (occ k rs). pose proof (occ_nonneg k rs).
  pose proof (covers_spec k a). pose proof (covers_spec k b). pose proof (covers_spec k r).
  apply elem_of_cons in Ha as [->|Ha]; apply elem_of_cons in Hb as [->|Hb]; try done.
  - pose proof (occ_in k b rs Hb). lia.
  - pose proof (occ_in k a rs Ha). lia.
  - specialize (IH Ha Hb Hne). lia.
Qed.

Lemma regions_apart rs a b : (forall k, occ k rs <= 1) -> a ∈ rs -> b ∈ rs -> a <> b ->
  0 < snd a -> 0 < snd b -> apart a b.
Proof.
  intros H Ha Hb Hne Hsa Hsb. unfold apart.
  destruct (Z.leb_spec (fst a + snd a) (fst b)) as [|H1]; [lia|].
  destruct (Z.leb_spec (fst b + snd b) (fst a)) as [|H2]; [lia|]. exfalso.
  set (k := Z.max (fst a) (fst b)). specialize (H k). pose proof (occ_two a b rs k Ha Hb Hne).
  pose proof (covers_spec k a). pose proof (covers_spec k b). lia.
Qed.

Lemma cells_NoDup d l ts : Forall2 (cell_holds sw d) l ts -> Forall on_page l ->
  (forall k, occ k (regions l ts) <= 1) -> NoDup l.
Proof.
  intros H. induction H as [|r t l ts Hr H IH]; intros Ho Hocc; [constructor|].
  apply Forall_cons_1 in Ho as [Hor Ho]. destruct r as [o|]; [|done].
  pose proof (co_placed _ _ _ _ Hr) as (P1 & P2 & _). cbn [fst snd regions] in *. constructor.
  - intros [i Hi]%list_elem_of_lookup. destruct (Forall2_lookup_l _ _ _ _ _ H Hi) as (t2 & Ht2 & Hc2).
    pose proof (co_placed _ _ _ _ Hc2) as (Q1 & Q2 & _). cbn [fst snd] in *.
    assert (Hin : (o, tsize t2) ∈ regions l ts) by (eapply (regions_in sw); [done|eauto]).
    specialize (Hocc o). unfold occ in Hocc. cbn [foldr] in Hocc. fold (occ o (regions l ts)) in Hocc.
    pose proof (occ_in o _ _ Hin). pose proof (covers_spec o (o, tsize t)). pose proof (covers_spec o (o, tsize t2)).
    cbn [fst snd] in *. lia.
  - apply IH; [done|]. intros k. specialize (Hocc k). unfold occ in *. cbn [foldr] in Hocc.
    pose proof (covers_spec k (o, tsize t)). lia.
Qed.

Lemma cell_region d l ts o : Forall2 (cell_holds sw d) l ts -> OnPage o ∈ l ->
  exists t, (o, tsize t) ∈ regions l ts.
Proof.
  intros H [i Hi]%list_elem_of_lookup. destruct (Forall2_lookup_l _ _ _ _ _ H Hi) as (t & Ht & _).
  exists t. eapply (regions_in sw); [done|eauto].
Qed.

(** A link: that of the page header or that of a cell which is not among [l]. *)
Definition link_of (L : list cell_ref) (Ts : list (list Z)) (l : list cell_ref) (at_ : Z) : Prop :=
  at_ = firstCell \/ exists o t, at_ = cell_iNext o /\ (o, tsize t) ∈ regions L Ts /\ OnPage o ∉ l.

Lemma wp_relink_loop L Ts l at_ p C :
  mem_ok (aDisk p) -> Forall2 (cell_holds sw (aDisk p)) L Ts -> (forall k, occ k (regions L Ts) <= 1) ->
  Forall on_page l -> l ⊆ L -> NoDup l -> link_of L Ts l at_ ->
  wp (relink_loop sw l at_ ≫= fun pIdx => st16 pIdx 0) (fun _ p' => exists d',
      p' = set_aDisk d' p /\ mem_ok d' /\ Forall2 (cell_holds sw d') L Ts /\
      cell_links sw d' at_ (map offset l) /\
      forall k, 0 <= k -> ~ (at_ <= k < at_ + 2) -> (forall o, OnPage o ∈ l -> ~ (o + 6 <= k < o + 8)) ->
        d'.[k] = (aDisk p).[k]) C p.
Proof.
  intros Hm HL Hocc. revert at_ p Hm HL. induction l as [|r l IH]; intros at_ p Hm HL Hon Hsub Hnd Hat.
  all: assert (Hst : forall v, mem_ok (store16 (aDisk p) at_ v) /\ Forall2 (cell_holds sw (store16 (aDisk p) at_ v)) L Ts).
  1, 3: intros v; split; [auto with cmodel|]; destruct Hat as [->|(o & t & -> & Hin & _)];
    [apply (cells_same sw (aDisk p)); auto with cmodel; intros k Hk _; apply (store16_same _ _ _ k (k + 1));
       auto with cmodel; unfold firstCell; lia
    |by eapply store_link_holds].
  all: assert (Hrange : 0 <= at_ /\ at_ + 2 <= 1024).
  1, 3: destruct Hat as [->|(o & t & -> & Hin & _)]; [unfold firstCell; lia|];
    destruct (region_of_cell _ _ _ _ _ HL Hin) as ((Q1 & Q2 & Q3 & Q4 & Q5) & Q6); cbn [fst snd] in *; offsets; lia.
  - cbn [relink_loop map]. do 2 pstep. pstep; [lia..|]. destruct (Hst 0) as [M1 H1].
    eexists. split; [done|]. split; [done|]. split; [done|]. split; [cbn [cell_links]; apply fld_store_0; (done || lia)|].
    intros k Hk Hn _. apply (store16_same _ _ _ k (k + 1)); try done; lia.
  - apply Forall_cons_1 in Hon as [Hor Hon]. destruct r as [o|]; [|done]. apply NoDup_cons in Hnd as [Hni Hnd].
    destruct (cell_region _ _ _ o HL) as (t & Hin); [apply Hsub, elem_of_cons; by left|].
    destruct (region_of_cell _ _ _ _ _ HL Hin) as ((Q1 & Q2 & Q3 & Q4 & Q5) & Q6). cbn [fst snd] in *.
    cbn [relink_loop]. pstep. pstep. pstep; [apply andb_true_iff; rewrite !Z.ltb_lt; unfold SQLITE_USABLE_SIZE; lia|].
    do 2 pstep; [lia..|]. destruct (Hst (SWAB16 sw o)) as [M1 H1]. set (d1 := store16 _ _ _) in *.
    apply wp_unbind. eapply wp_mono; [apply (IH (cell_iNext o) (set_aDisk d1 p)); try done| |done].
    + intros x Hx. apply Hsub, elem_of_cons. by right.
    + right. by exists o, t.
    + intros _ p' (d' & -> & M2 & H2 & Hl2 & Hf). cbn [aDisk set_aDisk] in Hf. exists d'. split; [done|]. split; [done|]. split; [done|].
      assert (Hkeep : same_on d1 d' at_ (at_ + 2)).
      { intros k Hk. apply Hf; [lia|..].
        - destruct Hat as [->|(o1 & t1 & -> & Hin1 & Hn1)]; [offsets; lia|].
          assert (o1 <> o) by (intros ->; apply Hn1, elem_of_cons; by left).
          destruct (region_of_cell _ _ _ _ _ HL Hin1) as ((S1 & S2 & S3 & S4 & S5) & S6). cbn [fst snd] in *.
          destruct (regions_apart _ _ _ Hocc Hin Hin1); cbn [fst snd] in *; try congruence; offsets; lia.
        - intros o2 Ho2. destruct (cell_region _ _ _ o2 HL) as (t2 & Hin2); [apply Hsub, elem_of_cons; by right|].
          destruct (region_of_cell _ _ _ _ _ HL Hin2) as ((T1 & T2 & T3 & T4 & T5) & T6). cbn [fst snd] in *.
          destruct Hat as [->|(o1 & t1 & -> & Hin1 & Hn1)]; [offsets; lia|].
          assert (o1 <> o2) by (intros ->; apply Hn1, elem_of_cons; by right).
          destruct (region_of_cell _ _ _ _ _ HL Hin1) as ((S1 & S2 & S3 & S4 & S5) & S6). cbn [fst snd] in *.
          destruct (regions_apart _ _ _ Hocc Hin2 Hin1); cbn [fst snd] in *; try congruence; offsets; lia. }
      split.
      { cbn [map cell_links offset]. split; [|done]. rewrite (fld_same sw d1) by done.
        apply fld_store; (done || lia || (unfold u16; lia)). }
      intros k Hk Hn Ho. rewrite Hf; [|done| |].
      * apply (store16_same _ _ _ k (k + 1)); try done; lia.
      * intros Hk2. apply (Ho o); [apply elem_of_cons; by left|offsets; lia].
      * intros o2 Ho2. apply Ho, elem_of_cons. by right.
Qed.

Lemma wp_relinkCellList p ts fs C :
  page_holds sw p ts fs -> writeable p = true -> isOverfull p = false ->
  wp (relinkCellList sw) (fun _ p' => exists d', p' = set_aDisk d' p /\ page_holds sw p' ts fs /\
      same_on (aDisk p) d' 0 4 /\ cell_links sw d' firstCell (map offset (apCell p))) C p.
Proof.
  intros [Hm Hi Hc Hl Ha Hocc Htot Hnf Hov] Hw Ho.
  assert (Hocc1 : forall k, occ k (regions (apCell p) ts) <= 1).
  { intros k. specialize (Hocc k). pose proof (occ_nonneg k fs). lia. }
  pose proof (Hov Ho) as Hon. change (Forall on_page (apCell p)) in Hon.
  unfold relinkCellList. do 4 pstep; [done|]. do 2 pstep.
  eapply wp_mono; [apply (wp_relink_loop (apCell p) ts (apCell p) firstCell p); try done| |done].
  { by eapply cells_NoDup. }
  { by left. }
  intros _ p' (d' & -> & M' & H' & Hl' & Hf).
  assert (Hlink : forall k o, OnPage o ∈ apCell p -> o + 6 <= k < o + 8 ->
    8 <= k /\ 0 < occ k (regions (apCell p) ts)).
  { intros k o Hin Hk. destruct (cell_region _ _ _ o Hc Hin) as (t & Hr).
    destruct (region_of_cell _ _ _ _ _ Hc Hr) as ((Q1 & Q2 & Q3 & Q4 & Q5) & Q6). cbn [fst snd] in *.
    pose proof (occ_in k _ _ Hr). pose proof (covers_spec k (o, tsize t)). cbn [fst snd] in *. lia. }
  exists d'. split; [done|]. split.
  - split; cbn [aDisk isInit apCell nFree isOverfull set_aDisk]; try done.
    eapply (links_same sw (aDisk p) d'); [exact Ha| | |done].
    + intros k Hk. offsets. apply Hf; [lia..|]. intros o Hin Hk2. destruct (Hlink k o Hin Hk2). lia.
    + apply Forall_forall. intros x Hx k Hk. pose proof (ascending_placed _ _ Ha) as Hpl. rewrite Forall_forall in Hpl.
      pose proof (Hpl x Hx) as (X1 & X2 & X3 & X4 & X5). apply Hf; [lia|offsets; lia|].
      intros o Hin Hk2. destruct (Hlink k o Hin Hk2) as [_ Hpos]. specialize (Hocc k).
      pose proof (occ_in k _ _ Hx). pose proof (covers_spec k x). lia.
  - split; [|done]. intros k Hk. apply Hf; [lia|offsets; lia|]. intros o Hin Hk2.
    destruct (Hlink k o Hin Hk2). lia.
Qed.
End Spec.

(** [zeroPage] and [initPage]: an empty page, and reading a page back from its bytes. *)

#[local] Ltac Zify.zify_post_hook ::= Z.to_euclidean_division_equations.

Section Init.
Context (sw : bool).

Lemma zeros_ok : mem_ok (replicate (Z.to_nat SQLITE_USABLE_SIZE) 0).
Proof. split; [by rewrite length_replicate|]. apply Forall_replicate. unfold is_byte. lia. Qed.

Lemma wp_zeroPage p C : isInit p = true -> writeable p = true ->
  wp (zeroPage sw) (fun _ p' => page_holds sw p' [] [(8, 1016)] /\ writeable p' = true /\
      isOverfull p' = false /\ cell_links sw (aDisk p') firstCell [] /\ pParent p' = pParent p) C p.
Proof.
  intros Hi Hw. unfold zeroPage. do 4 pstep; [done|]. do 2 pstep. set (d0 := replicate _ _). pose proof zeros_ok as M0.
  change (mem_ok d0) in M0. do 2 pstep; offsets; [lia..|]. cbn [aDisk set_aDisk].
  do 2 pstep; [lia..|]. do 2 pstep; [unfold sizeof_PageHdr; lia..|]. do 2 pstep. do 2 pstep.
  do 2 pstep; [unfold sizeof_PageHdr; lia..|]. do 2 pstep. pstep. cbn [aDisk set_aDisk nFree set_nFree].
  unfold sizeof_PageHdr, SQLITE_USABLE_SIZE. change (1024 - 8) with 1016.
  set (d1 := store16 d0 4 0). assert (M1 : mem_ok d1) by (unfold d1; auto with cmodel).
  set (d2 := store16 d1 6 _). assert (M2 : mem_ok d2) by (unfold d2; auto with cmodel).
  set (d3 := store16 d2 (8 + 2) 0). assert (M3 : mem_ok d3) by (unfold d3; auto with cmodel).
  set (d4 := store16 d3 8 _). assert (M4 : mem_ok d4) by (unfold d4; auto with cmodel).
  split; [|split; [done|split; [done|split; [|done]]]].
  - split; cbn [aDisk isInit apCell nFree isOverfull set_nFree set_apCell set_isOverfull set_aDisk]; try done.
    + apply links_cons. cbn [fst snd]. offsets. rewrite links_nil. unfold d4, d3.
      do 2 rewrite (fld_store_other sw _ _ _ 6) by (done || lia).
      rewrite (fld_store_other sw (store16 d2 (8 + 2) 0) 8 _ (8 + 2)) by (done || lia).
      split; [apply fld_store; (done || lia || (unfold u16; lia))|].
      split; [apply fld_store; (done || lia || (unfold u16; lia))|]. apply fld_store_0; (done || lia).
    + intros k. simpl. pose proof (covers_spec k (8, 1016)). lia.
  - cbn [cell_links aDisk set_isOverfull set_apCell set_aDisk set_nFree]. unfold d4, d3, d2.
    do 3 rewrite (fld_store_other sw _ _ _ 4) by (done || lia). apply fld_store_0; (done || lia).
Qed.

(** ** initPage *)

(** The bytes of a page with the cells [l], whose texts are [ts], and the free blocks
    [fs]. *)
Record page_image (d : list Z) (l : list cell_ref) (ts : list (list Z)) (fs : list region) : Prop := {
  pi_mem : mem_ok d;
  pi_cells : Forall2 (cell_holds sw d) l ts;
  pi_on : Forall on_page l;
  pi_cell_links : cell_links sw d firstCell (map offset l);
  pi_links : links sw d firstFree fs;
  pi_asc : ascending 8 fs;
  pi_occ : forall k, occ k (regions l ts) + occ k fs <= 1;
  pi_total : total (regions l ts) + total fs = USABLE_SPACE
}.

Lemma total_min d l ts : Forall2 (cell_holds sw d) l ts -> Forall on_page l ->
  16 * Z.of_nat (length l) <= total (regions l ts).
Proof.
  induction 1 as [|r t l ts Hr H IH]; intros Ho; [done|]. apply Forall_cons_1 in Ho as [Hor Ho]. destruct r; [|done].
  specialize (IH Ho). pose proof (co_min _ _ _ _ Hr) as Hm. unfold MIN_CELL_SIZE, sizeof_CellHdr in Hm.
  unfold total in *. cbn [regions foldr length snd]. lia.
Qed.

Lemma wp_init_cells d l ts fuel at_ done_ f p C : aDisk p = d ->
  mem_ok d -> Forall2 (cell_holds sw d) l ts -> Forall on_page l -> cell_links sw d at_ (map offset l) ->
  apCell p = done_ -> (length l < fuel)%nat -> Z.of_nat (length done_ + length l) <= 64 ->
  wp (init_cells sw fuel (fld sw d at_) f)
    (fun r p' => r = Some (f - total (regions l ts)) /\ p' = set_apCell (done_ ++ l) p) C p.
Proof.
  intros Hd Hm H. revert fuel at_ done_ f p Hd. induction H as [|r t l ts Hr H IH];
    intros fuel at_ done_ f p Hd Ho Hl Hap Hfuel Hcap.
  - cbn [cell_links map] in Hl. destruct fuel; cbn [init_cells]; rewrite Hl; cbn [Z.eqb]; apply wp_ret;
      (split; [f_equal; unfold total; simpl; lia|]); rewrite app_nil_r; destruct p; simpl in *; by subst.
  - apply Forall_cons_1 in Ho as [Hor Ho]. destruct r as [o|]; [|done]. cbn [map cell_links offset] in Hl. destruct Hl as [E Hl].
    pose proof (co_placed _ _ _ _ Hr) as (P1 & P2 & P3 & P4 & P5). pose proof (co_min _ _ _ _ Hr) as Hmin.
    unfold MIN_CELL_SIZE, sizeof_CellHdr in Hmin. cbn [fst snd] in *. rewrite E.
    destruct fuel as [|fuel]; [simpl in Hfuel; lia|]. cbn [init_cells].
    destruct (Z.eqb_spec o 0); [lia|]. destruct (Z.ltb_spec (SQLITE_USABLE_SIZE - MIN_CELL_SIZE) o) as [Hbad|_];
      [unfold SQLITE_USABLE_SIZE, MIN_CELL_SIZE, sizeof_CellHdr in Hbad; lia|].
    destruct (Z.ltb_spec o sizeof_PageHdr) as [Hbad|_]; [unfold sizeof_PageHdr in Hbad; lia|].
    rewrite ROUNDUP_id, Z.eqb_refl by done. cbn [negb].
    do 2 pstep; [unfold sizeof_CellHdr; lia..|]. rewrite Hd, (cell_on_header sw d o t) by done.
    destruct (Z.ltb_spec SQLITE_USABLE_SIZE (o + tsize t)) as [Hbad|_]; [unfold SQLITE_USABLE_SIZE in Hbad; lia|].
    do 2 pstep. pstep. pstep; [apply Z.ltb_lt; change (MX_CELL + 2) with 65; subst done_; simpl in Hcap; lia|].
    do 2 pstep. do 2 pstep; offsets; [lia..|]. cbn [aDisk set_apCell]. rewrite Hd. fold (fld sw d (o + 6)).
    eapply wp_mono; [apply (IH fuel (o + 6) (done_ ++ [OnPage o]))| |done]; try done.
    + cbn [apCell set_apCell]. by rewrite Hap.
    + simpl in Hfuel. lia.
    + rewrite length_app. simpl in *. lia.
    + intros r p' [-> ->]. split; [f_equal; unfold total; cbn [regions foldr snd]; lia|].
      rewrite <-app_assoc. done.
Qed.

Lemma wp_init_free d fs fuel at_ lo p C : aDisk p = d -> mem_ok d -> ascending lo fs -> links sw d at_ fs ->
  lo <= 1024 -> Z.of_nat (length fs) < Z.of_nat fuel ->
  wp (init_free sw fuel (fld sw d at_)) (fun ok p' => ok = true /\ p' = set_nFree (nFree p + total fs) p) C p.
Proof.
  intros Hd Hm. revert fuel at_ lo p Hd. induction fs as [|r fs IH]; intros fuel at_ lo p Hd Ha Hl Hlo Hfuel.
  - apply links_nil in Hl. destruct fuel; cbn [init_free]; rewrite Hl; cbn [Z.eqb]; apply wp_ret;
      (split; [done|]); unfold total; simpl; rewrite Z.add_0_r; by destruct p.
  - apply links_cons in Hl as (F1 & F2 & F3). destruct Ha as (Hlo1 & (P1 & P2 & P3 & P4 & P5) & Ha).
    destruct fuel as [|fuel]; [simpl in Hfuel; lia|]. rewrite F1. cbn [init_free].
    destruct (Z.eqb_spec (fst r) 0); [lia|].
    destruct (Z.ltb_spec (SQLITE_USABLE_SIZE - sizeof_FreeBlk) (fst r)) as [Hbad|_];
      [unfold SQLITE_USABLE_SIZE, sizeof_FreeBlk in Hbad; lia|].
    destruct (Z.ltb_spec (fst r) sizeof_PageHdr) as [Hbad|_]; [unfold sizeof_PageHdr in Hbad; lia|]. offsets.
    do 2 pstep; offsets; [lia..|]. rewrite Hd. fold (fld sw d (fst r)). rewrite F2. do 4 pstep.
    do 2 pstep; offsets; [lia..|]. cbn [aDisk set_nFree]. rewrite Hd. fold (fld sw d (fst r + 2)).
    assert (Hnext : (0 <? fld sw d (fst r + 2)) && (fld sw d (fst r + 2) <=? fst r) = false).
    { destruct fs as [|r2 fs]; [apply links_nil in F3; by rewrite F3|].
      apply links_cons in F3 as (G1 & _). destruct Ha as (Hr2 & _). apply andb_false_intro2, Z.leb_gt. lia. }
    rewrite Hnext. eapply wp_mono; [apply (IH fuel (fst r + 2) (fst r + snd r))| |done]; try done; try lia.
    { simpl in Hfuel. lia. }
    intros ok p' [-> ->]. split; [done|]. cbn [nFree set_nFree]. unfold total. cbn [foldr].
    rewrite Z.add_assoc. done.
Qed.

(** Reading a page back gives the cells and the free space it was written with. *)
Lemma wp_initPage d l ts fs parent p C :
  page_image d l ts fs -> aDisk p = d -> isInit p = false -> pParent p = None ->
  wp (initPage sw parent) (fun rc p' => rc = SQLITE_OK /\ aDisk p' = d /\ isInit p' = true /\ apCell p' = l /\
      nFree p' = total fs /\ writeable p' = writeable p /\ isOverfull p' = isOverfull p /\ pParent p' = parent /\
      page_holds sw p' ts fs) C p.
Proof.
  intros [Hm Hc Hon Hcl Hl Ha Hocc Htot] Hd Hi Hp. unfold initPage. do 2 pstep. rewrite Hp.
  pose proof (total_min d l ts Hc Hon) as Hlen.
  assert (Hfs : 0 <= total fs).
  { clear -Ha. revert Ha. generalize 8. induction fs as [|r fs IH]; intros lo Ha; [done|].
    destruct Ha as (? & (? & ? & _) & Ha). specialize (IH _ Ha). unfold total in *. simpl. lia. }
  unfold USABLE_SPACE, SQLITE_USABLE_SIZE, sizeof_PageHdr in Htot.
  set (q := match parent with Some v => set_parent v p | None => p end).
  assert (Hq : aDisk q = d /\ isInit q = false /\ writeable q = writeable p /\ isOverfull q = isOverfull p /\ pParent q = parent).
  { unfold q. by destruct parent. }
  destruct Hq as (Qd & Qi & Qw & Qo & Qp).
  assert (Hset : forall R : unit -> MemPage -> Prop, R tt q ->
    wp (match parent with Some v => pupd (set_parent v) | None => mret tt end) R C p).
  { intros R HR. unfold q in HR. destruct parent; [by apply wp_pupd|by apply wp_ret]. }
  pstep. apply Hset. clear Hset. do 2 pstep. rewrite Qi. do 4 pstep. do 2 pstep; offsets; [lia..|].
  cbn [aDisk set_apCell set_isInit]. rewrite Qd. fold (fld sw d 4).
  pstep. eapply wp_mono; [apply (wp_init_cells d l ts _ 4 [])| |done]; try done.
  { change (Z.to_nat (MX_CELL + 3)) with 66%nat. lia. }
  { simpl. lia. }
  intros r p1 [-> ->]. do 2 pstep. do 2 pstep; [lia..|]. cbn [aDisk set_apCell set_isInit set_nFree]. rewrite Qd. fold (fld sw d 6).
  pstep. eapply wp_mono; [apply (wp_init_free d fs _ 6 8)| |done]; try done.
  { pose proof (ascending_length 8 fs Ha ltac:(lia)). unfold SQLITE_USABLE_SIZE. lia. }
  intros ok p2 [-> ->]. cbn [negb]. do 2 pstep. do 2 pstep. cbn [nFree set_nFree].
  set (p3 := set_nFree (0 + total fs) _).
  assert (Hn : nFree p3 = total fs) by done.
  assert (Hfin : forall R : Z -> MemPage -> Prop, R SQLITE_OK p3 ->
    wp (if (nCell p3 =? 0) && (0 + total fs =? 0) then mret SQLITE_OK
        else if negb (0 + total fs =? USABLE_SPACE - total (regions l ts)) then mret SQLITE_CORRUPT else mret SQLITE_OK) R C p3).
  { intros R HR. destruct ((nCell p3 =? 0) && (0 + total fs =? 0)); [by apply wp_ret|].
    destruct (Z.eqb_spec (0 + total fs) (USABLE_SPACE - total (regions l ts))) as [|Hne]; [by apply wp_ret|].
    unfold USABLE_SPACE, SQLITE_USABLE_SIZE, sizeof_PageHdr in Hne. lia. }
  apply Hfin. clear Hfin. split; [done|]. split; [done|]. split; [done|]. split; [done|]. split; [done|].
  split; [done|]. split; [done|]. split; [done|].
  split; cbn [aDisk isInit apCell nFree isOverfull set_isInit set_apCell set_nFree p3]; rewrite ?Qd; try done.
Qed.
End Init.
