(* ===== verification/BtreePageProofs.v ===== *)
(** The theorems about the pages of the B-tree. *)
From S2P Require Import Prelude OsFile BtreePage BtreeMem BtreeSpace BtreeDefrag BtreeAlloc BtreePageSpec.
From Stdlib Require Import Zify.

#[local] Ltac Zify.zify_post_hook ::= Z.to_euclidean_division_equations.

(** * A page as a list of cells *)

Section Ops.
Context (sw : bool).

(** The cells of a page, in the order of [apCell], without their links. *)
Definition cells_of (p : MemPage) : list (list Z) :=
  map (fun r => match r with
    | OnPage o => text (bytes_at (aDisk p) o (cellSize sw (bytes_at (aDisk p) o sizeof_CellHdr)))
    | Elsewhere c => text (take (Z.to_nat (cellSize sw c)) c)
    end) (apCell p).

Lemma holds_cells_of p ts fs : page_holds sw p ts fs -> cells_of p = ts.
Proof.
  intros [Hm _ Hc _ _ _ _ _ _]. unfold cells_of. revert Hm Hc. generalize (aDisk p). intros d Hm Hc.
  induction Hc as [|r t l ts Hr Hc IH]; [done|]. cbn [map]. f_equal; [|done]. destruct r as [o|c]; cbn [cell_holds] in Hr.
  - rewrite (cell_on_header sw d o t) by done. apply Hr.
  - rewrite (wc_size _ _ _ Hr). apply Hr.
Qed.

(** The changes that btree.c makes to a page between two calls of [relinkCellList]. *)
Inductive page_op :=
| Insert (i : nat) (pCell : list Z) (sz : Z)
| Drop (i : nat) (sz : Z).

Definition run_op (o : page_op) : M MemPage unit :=
  match o with
  | Insert i c sz => insertCell sw i c sz
  | Drop i sz => dropCell sw i sz
  end.

Fixpoint run_ops (os : list page_op) : M MemPage unit :=
  match os with [] => mret tt | o :: os => run_op o;; run_ops os end.

(** The same changes on a list of cells. *)
Definition list_op (o : page_op) (ts : list (list Z)) : list (list Z) :=
  match o with
  | Insert i c sz => insert_at i (text (take (Z.to_nat sz) c)) ts
  | Drop i _ => delete i ts
  end.

Definition list_ops (os : list page_op) (ts : list (list Z)) : list (list Z) :=
  fold_left (fun ts o => list_op o ts) os ts.

Definition used (ts : list (list Z)) : Z := foldr (fun t n => tsize t + n) 0 ts.

(** The caller passes the size of the cell, and the cell fits on the page. *)
Definition cell_ok (c : list Z) (sz : Z) : bool :=
  forallb (fun x => (0 <=? x) && (x <? 256)) c && (cellSize sw c =? sz) &&
  (sz <=? Z.of_nat (length c)) && (MIN_CELL_SIZE <=? sz).
Definition op_ok (ts : list (list Z)) (o : page_op) : bool :=
  match o with
  | Insert i c sz => cell_ok c sz && (Z.of_nat i <=? Z.of_nat (length ts)) && (used ts + sz <=? USABLE_SPACE)
  | Drop i sz => match ts !! i with Some t => tsize t =? sz | None => false end
  end.
Fixpoint ops_ok (ts : list (list Z)) (os : list page_op) : bool :=
  match os with [] => true | o :: os => op_ok ts o && ops_ok (list_op o ts) os end.

Lemma cellSize_aligned c : cellSize sw c `mod` 4 = 0.
Proof.
  unfold cellSize. cbv zeta. destruct (MX_LOCAL_PAYLOAD <? NKEY sw c + NDATA sw c).
  - reflexivity.
  - destruct (ROUNDUP_aligned (NKEY sw c + NDATA sw c)) as [H _]. unfold sizeof_CellHdr. lia.
Qed.

Lemma cell_ok_whole c sz : cell_ok c sz = true ->
  let t := text (take (Z.to_nat sz) c) in whole_cell sw c t /\ tsize t = sz /\ sz `mod` 4 = 0.
Proof.
  unfold cell_ok. rewrite !andb_true_iff, Z.eqb_eq, !Z.leb_le. intros [[[Hb Hs] Hl] Hmin].
  set (t := text (take (Z.to_nat sz) c)).
  unfold MIN_CELL_SIZE, sizeof_CellHdr in Hmin.
  assert (El : length (take (Z.to_nat sz) c) = Z.to_nat sz) by (rewrite length_take; lia).
  assert (Et : tsize t = sz).
  { unfold tsize, t. rewrite text_length by lia. rewrite El. lia. }
  split; [|split; [done|rewrite <-Hs; apply cellSize_aligned]].
  split; rewrite ?Et; try done.
  apply Forall_forall. intros x Hx. pose proof (proj1 (List.forallb_forall _ _) Hb x ltac:(by apply list_elem_of_In)) as Hx'. cbn beta in Hx'.
  rewrite andb_true_iff, Z.leb_le, Z.ltb_lt in Hx'. unfold is_byte. lia.
Qed.

(** A page that is not overfull, with coalesced free space, holds [ts]. *)
Definition settled (p : MemPage) (ts : list (list Z)) : Prop :=
  writeable p = true /\ isOverfull p = false /\ exists fs, page_holds sw p ts fs /\ spaced 7 fs.

Lemma used_regions d l ts : Forall2 (cell_holds sw d) l ts -> Forall on_page l -> total (regions l ts) = used ts.
Proof.
  induction 1 as [|r t l ts Hr H IH]; intros Ho; [done|]. apply Forall_cons_1 in Ho as [Hor Ho].
  destruct r; [|done]. unfold total, used in *. cbn [regions foldr snd]. rewrite IH by done. done.
Qed.

Lemma settled_nFree p ts : settled p ts -> nFree p = USABLE_SPACE - used ts.
Proof.
  intros (_ & Ho & fs & H & _). rewrite (ph_nFree _ _ _ _ H).
  rewrite <-(used_regions _ _ _ (ph_cells _ _ _ _ H)) by (by eapply holds_on_page).
  pose proof (ph_total _ _ _ _ H). lia.
Qed.

Lemma settled_nCell p ts : settled p ts -> nCell p <= 63 /\ nCell p = Z.of_nat (length ts).
Proof.
  intros (_ & Ho & fs & H & _). pose proof (total_min sw _ _ _ (ph_cells _ _ _ _ H) (holds_on_page sw _ _ _ H Ho)).
  pose proof (ph_total _ _ _ _ H) as Ht. pose proof (ph_asc _ _ _ _ H) as Ha.
  assert (0 <= total fs).
  { clear -Ha. revert Ha. generalize 8. induction fs as [|r fs IH]; intros lo Ha; [done|].
    destruct Ha as (? & (? & ? & _) & Ha). specialize (IH _ Ha). unfold total in *. simpl. lia. }
  unfold nCell. rewrite (Forall2_length _ _ _ (ph_cells _ _ _ _ H)) in *.
  unfold USABLE_SPACE, SQLITE_USABLE_SIZE, sizeof_PageHdr in Ht. lia.
Qed.

Lemma wp_run_op p ts o C : settled p ts -> op_ok ts o = true ->
  wp (run_op o) (fun _ p' => settled p' (list_op o ts)) C p.
Proof.
  intros Hs Ho. pose proof (settled_nFree p ts Hs) as Hf. destruct (settled_nCell p ts Hs) as [Hn1 Hn2].
  destruct Hs as (Hw & Hov & fs & H & Hsp). destruct o as [i c sz|i sz]; cbn [run_op list_op op_ok] in *.
  - rewrite !andb_true_iff, !Z.leb_le in Ho. destruct Ho as [[Hc Hi] Hu].
    destruct (cell_ok_whole c sz Hc) as (Hwc & Et & Hal). set (t := text (take (Z.to_nat sz) c)) in *. rewrite <-Et in Hal |- *.
    eapply wp_mono; [apply (wp_insertCell sw p ts fs i c t); try done; try lia| |done].
    { change (MX_CELL + 2) with 65. lia. }
    intros _ p' (fs' & H' & Hw' & Ho' & _ & _ & Hsp'). split; [done|]. split; [done|]. exists fs'. auto.
  - destruct (ts !! i) as [t|] eqn:Et; [|done]. apply Z.eqb_eq in Ho as <-.
    destruct (Forall2_lookup_r _ _ _ _ _ (ph_cells _ _ _ _ H) Et) as (r & Hr & _).
    pose proof (holds_on_page sw _ _ _ H Hov) as Hon. rewrite Forall_lookup in Hon. specialize (Hon i r Hr).
    destruct r as [x|]; [|done].
    eapply wp_mono; [apply (wp_dropCell sw p ts fs i x t); done| |done].
    intros _ p' (fs' & d' & -> & _ & H' & Hsp'). split; [done|]. split; [done|]. exists fs'. auto.
Qed.

Lemma wp_run_ops p ts os C : settled p ts -> ops_ok ts os = true ->
  wp (run_ops os) (fun _ p' => settled p' (list_ops os ts)) C p.
Proof.
  revert p ts. induction os as [|o os IH]; intros p ts Hs Ho; [by apply wp_ret|].
  cbn [run_ops ops_ok] in *. apply andb_true_iff in Ho as [Ho Hos]. apply wp_bind.
  eapply wp_mono; [exact (wp_run_op p ts o C Hs Ho)| |done]. intros [] p' Hs'. by apply IH.
Qed.

Lemma wp_zero_ops p os C : isInit p = true -> writeable p = true -> ops_ok [] os = true ->
  wp (zeroPage sw;; run_ops os) (fun _ p' => settled p' (list_ops os [])) C p.
Proof.
  intros Hi Hw Ho. apply wp_bind. eapply wp_mono; [by apply (wp_zeroPage sw p)| |done].
  intros _ p1 (H & Hw1 & Ho1 & _). apply wp_run_ops; [|done]. split; [done|]. split; [done|].
  exists [(8, 1016)]. split; [done|]. simpl. lia.
Qed.
End Ops.

(** * Theorems *)

(** C13: A page implements a list of cells.  Whatever cells are inserted into an empty
    page and dropped from it, as long as they fit, every call returns and the page
    then holds the cells of the same changes on a list; and after [relinkCellList]
    the bytes alone say so: [initPage] on a copy of them accepts the page and finds
    the same cells in the same order, and the same number of free bytes. *)
Theorem page_refines_list sw os p :
  isInit p = true -> writeable p = true -> ops_ok sw [] os = true ->
  exists p', (zeroPage sw;; run_ops sw os;; relinkCellList sw) p = Done tt p' /\
    cells_of sw p' = list_ops os [] /\
    forall q parent, aDisk q = aDisk p' -> isInit q = false -> pParent q = None ->
      exists q', initPage sw parent q = Done SQLITE_OK q' /\ aDisk q' = aDisk p' /\ apCell q' = apCell p' /\
        nFree q' = nFree p' /\ cells_of sw q' = list_ops os [].
Proof.
  intros Hi Hw Ho.
  destruct (wp_returns (zeroPage sw;; run_ops sw os;; relinkCellList sw)
    (fun _ p' => settled sw p' (list_ops os []) /\ cell_links sw (aDisk p') firstCell (map offset (apCell p'))) p)
    as ([] & p' & E & (Hs & Hl)).
  { apply wp_bind. pose proof (wp_unbind _ _ _ _ _ (wp_zero_ops sw p os (fun _ => False) Hi Hw Ho)) as H.
    eapply wp_mono; [exact H| |done]. intros [] p1 H1. apply wp_bind. eapply wp_mono; [exact H1| |done].
    intros [] p2 (Hw2 & Ho2 & fs & H2 & Hsp).
    eapply wp_mono; [by apply (wp_relinkCellList sw p2 (list_ops os []) fs (fun _ => False))| |done].
    intros [] p3 (d' & -> & H3 & _ & Hl). split; [|done]. split; [done|]. split; [done|]. by exists fs. }
  exists p'. split; [done|]. destruct Hs as (Hw' & Ho' & fs & H & Hsp). split; [by eapply holds_cells_of|].
  intros q parent Hd Hqi Hqp. pose proof (holds_on_page sw _ _ _ H Ho') as Hon.
  assert (Him : page_image sw (aDisk p') (apCell p') (list_ops os []) fs) by (by destruct H).
  destruct (wp_returns (initPage sw parent) _ q (wp_initPage sw _ _ _ _ parent q _ Him Hd Hqi Hqp)) as (rc & q' & Eq & R).
  destruct R as (-> & R1 & _ & R2 & R3 & _ & _ & _ & R4). exists q'. split; [done|]. split; [done|]. split; [done|].
  split; [by rewrite R3, (ph_nFree _ _ _ _ H)|]. by eapply holds_cells_of.
Qed.

(** A new page with room for its auxiliary data, and a cell with a four byte key. *)
Definition blank_page : MemPage := mkMemPage [] true false false None 0 [] true [].
Definition small_cell (k : Z) : list Z := [0; 0; 0; 0; 4; 0; 7; 7; 0; 0; 2; 0; k; 0; 0; 0; 65; 66; 99; 99].

Lemma page_refines_list_witness :
  exists p', (zeroPage false;; run_ops false [Insert 0 (small_cell 1) 20; Insert 1 (small_cell 2) 20; Drop 0 20];;
              relinkCellList false) blank_page = Done tt p' /\
    cells_of false p' = [text (small_cell 2)].
Proof.
  destruct (page_refines_list false [Insert 0 (small_cell 1) 20; Insert 1 (small_cell 2) 20; Drop 0 20] blank_page)
    as (p' & E & H & _); [reflexivity|reflexivity|vm_compute; reflexivity|]. exists p'. split; [exact E|exact H].
Defined.

(** * Every byte of a page belongs to one cell or to one free block *)

Definition sum_over (f : Z -> Z) (ks : list Z) : Z := foldr (fun k n => f k + n) 0 ks.

Lemma sum_over_add f g ks : sum_over (fun k => f k + g k) ks = sum_over f ks + sum_over g ks.
Proof. induction ks as [|k ks IH]; simpl; [done|]. unfold sum_over in *. lia. Qed.

Lemma sum_over_le f ks b : Forall (fun k => f k <= b) ks -> sum_over f ks <= b * Z.of_nat (length ks).
Proof. induction 1 as [|k ks Hk H IH]; [simpl; lia|]. unfold sum_over in *. cbn [foldr length]. lia. Qed.

Lemma sum_covers r n lo : sum_over (fun k => covers k r) (seqZ lo (Z.of_nat n)) =
  Z.max 0 (Z.min (lo + Z.of_nat n) (fst r + snd r) - Z.max lo (fst r)) \/ snd r < 0.
Proof.
  destruct (Z.ltb_spec (snd r) 0); [by right|left]. revert lo. induction n as [|n IH]; intros lo.
  - simpl. lia.
  - rewrite seqZ_cons by lia. unfold sum_over in *. cbn [foldr].
    replace (Z.pred (Z.of_nat (S n))) with (Z.of_nat n) by lia. rewrite IH. unfold Z.succ.
    pose proof (covers_spec lo r). lia.
Qed.

Lemma sum_occ rs : Forall placed rs -> sum_over (fun k => occ k rs) (seqZ 8 1016) = total rs.
Proof.
  induction 1 as [|r rs Hr H IH].
  - assert (E : forall ks, sum_over (fun k => occ k []) ks = 0).
    { intros ks. unfold sum_over. induction ks as [|k ks IH]; [done|]. cbn [foldr]. by rewrite IH. }
    apply E.
  - change (sum_over (fun k => covers k r + occ k rs) (seqZ 8 1016) = snd r + total rs).
    rewrite sum_over_add, IH. f_equal. destruct Hr as (P1 & P2 & P3 & P4 & P5).
    destruct (sum_covers r (Z.to_nat 1016) 8) as [E|E]; [|lia]. rewrite Z2Nat.id in E by lia. rewrite E. lia.
Qed.

Lemma occ_exact rs : Forall placed rs -> (forall k, occ k rs <= 1) -> total rs = 1016 ->
  forall k, 8 <= k < 1024 -> occ k rs = 1.
Proof.
  intros Hp Hocc Ht k Hk. destruct (Z.eq_dec (occ k rs) 1) as [|Hne]; [done|exfalso].
  assert (H0 : occ k rs = 0) by (pose proof (Hocc k); pose proof (occ_nonneg k rs); lia).
  pose proof (sum_occ rs Hp) as E. rewrite Ht in E.
  assert (Hsp : seqZ 8 1016 = seqZ 8 (k - 8) ++ seqZ k (1024 - k)).
  { replace 1016 with ((k - 8) + (1024 - k)) by lia. rewrite seqZ_app by lia. do 2 f_equal. lia. }
  rewrite Hsp, (seqZ_cons k) in E by lia.
  assert (Happ : forall f a b, sum_over f (a ++ b) = sum_over f a + sum_over f b).
  { intros f a b. induction a as [|x a IH]; simpl; [done|]. unfold sum_over in *. lia. }
  rewrite Happ in E. unfold sum_over at 2 in E. cbn [foldr] in E. rewrite H0 in E.
  fold (sum_over (fun k => occ k rs) (seqZ (Z.succ k) (Z.pred (1024 - k)))) in E.
  pose proof (sum_over_le (fun k => occ k rs) (seqZ 8 (k - 8)) 1) as L1.
  pose proof (sum_over_le (fun k => occ k rs) (seqZ (Z.succ k) (Z.pred (1024 - k))) 1) as L2.
  rewrite !length_seqZ in *. specialize (L1 ltac:(by apply Forall_forall)). specialize (L2 ltac:(by apply Forall_forall)).
  lia.
Qed.

(** C14: The space of a page is accounted for.  After any insertions and deletions that
    fit, the free blocks are linked in the order of their addresses, no two of them
    are next to each other, [nFree] is the sum of their sizes and what the cells
    leave of the page, and every byte behind the header belongs to exactly one
    cell or free block. *)
Theorem page_space_invariant sw os p p' :
  isInit p = true -> writeable p = true -> ops_ok sw [] os = true ->
  (zeroPage sw;; run_ops sw os) p = Done tt p' ->
  exists fs, links sw (aDisk p') firstFree fs /\ ascending 8 fs /\ spaced 7 fs /\
    nFree p' = total fs /\ nFree p' = USABLE_SPACE - used (list_ops os []) /\
    forall k, 8 <= k < SQLITE_USABLE_SIZE -> occ k (regions (apCell p') (cells_of sw p') ++ fs) = 1.
Proof.
  intros Hi Hw Ho E. pose proof (wp_done _ _ _ _ _ _ (wp_zero_ops sw p os (fun _ => False) Hi Hw Ho) E) as Hs.
  cbn beta in Hs. pose proof (settled_nFree _ _ _ Hs) as Hf. destruct Hs as (_ & _ & fs & H & Hsp).
  exists fs. split; [apply H|]. split; [apply H|]. split; [done|]. split; [apply H|]. split; [done|].
  rewrite (holds_cells_of sw p' _ _ H). apply occ_exact.
  - apply Forall_app. split; [|eapply ascending_placed, H]. apply Forall_forall. intros r Hr.
    by eapply region_of_cell in Hr as [? _]; [|apply H].
  - intros k. rewrite occ_app. apply H.
  - rewrite total_app. apply H.
Qed.

(** The page that a piece of code leaves. *)
Definition page_after (m : M MemPage unit) : MemPage :=
  match m blank_page with Done _ p => p | _ => blank_page end.

Lemma page_space_invariant_witness :
  let p' := page_after (zeroPage true;; run_ops true [Insert 0 (replicate 8 0 ++ [0; 0; 0; 4] ++ replicate 9 1) 16]) in
  exists fs, links true (aDisk p') firstFree fs /\ nFree p' = total fs.
Proof.
  intros p'.
  destruct (page_space_invariant true [Insert 0 (replicate 8 0 ++ [0; 0; 0; 4] ++ replicate 9 1) 16] blank_page p')
    as (fs & H1 & _ & _ & H2 & _); [reflexivity|reflexivity|vm_compute; reflexivity|vm_compute; reflexivity|].
  exists fs. split; [exact H1|exact H2].
Defined.

(** C15: [allocateSpace], on any writeable page that holds cells [ts] and whose free blocks
    are not adjacent, be it overfull or not: on an overfull page, or with fewer free
    bytes than asked for, it returns 0 and changes nothing; otherwise it returns a
    region of the page that no cell and no free block touches, even if it has to move
    the cells to find one, and the cells and their order stay the same. *)
Theorem allocateSpace_correct sw p ts fs n :
  page_holds sw p ts fs -> spaced 7 fs -> writeable p = true -> 0 < n -> n `mod` 4 = 0 ->
  (nFree p < n \/ isOverfull p = true -> allocateSpace sw n p = Done 0 p) /\
  (n <= nFree p -> isOverfull p = false -> exists start p' fs', allocateSpace sw n p = Done start p' /\
     placed (start, n) /\ cells_of sw p' = ts /\ nFree p' = nFree p - n /\
     links sw (aDisk p') firstFree fs' /\ ascending 8 fs' /\ spaced 7 fs' /\
     Forall (fun r => apart r (start, n)) (regions (apCell p') ts ++ fs')).
Proof.
  intros H Hsp Hw Hn Hal. split.
  - intros Hno. destruct (wp_returns (allocateSpace sw n) _ p
      (wp_allocateSpace_none sw p n _ (ph_init _ _ _ _ H) Hw Hal Hno)) as (r & p' & E & -> & ->). exact E.
  - intros Hle Ho. destruct (wp_returns (allocateSpace sw n) _ p (wp_allocateSpace sw p ts fs n _ H Hw Ho Hn Hal Hle))
      as (start & p' & E & l & d' & fs' & -> & _ & Hh & Hsp').
    eexists start, _, fs'. split; [exact E|]. set (p1 := set_nFree _ _) in *.
    destruct Hh as [Mm Mi Mc Ml Ma Mp Mocc Mtot Mnf Mov]. pose proof Mp as (P1 & P2 & _). cbn [fst snd] in *.
    split; [done|]. split; [|split; [done|split; [done|split; [done|split; [auto|]]]]].
    + unfold cells_of. revert Mm Mc. generalize (aDisk p1). intros d Hd Hc. clear -Hd Hc.
      induction Hc as [|r t l' ts Hr Hc IH]; [done|]. cbn [map]. f_equal; [|done]. destruct r as [o|c]; cbn [cell_holds] in Hr.
      * rewrite (cell_on_header sw d o t) by done. apply Hr.
      * rewrite (wc_size _ _ _ Hr). apply Hr.
    + apply Forall_forall. intros r Hr. apply (occ_apart _ _ (regions (apCell p1) ts ++ fs') [(start, n)]).
      * intros k. specialize (Mocc k). rewrite !occ_app. unfold occ at 3. cbn [foldr]. lia.
      * done.
      * apply elem_of_cons. by left.
      * apply elem_of_app in Hr as [Hr|Hr].
        { eapply region_of_cell in Hr as [_ ?]; [|exact Mc]. lia. }
        { pose proof (ascending_placed _ _ Ma) as Hpl. rewrite Forall_forall in Hpl. pose proof (Hpl r Hr) as (_ & ? & _). done. }
      * done.
Qed.

Lemma allocateSpace_correct_witness :
  (exists start p', allocateSpace false 1000 (page_after (zeroPage false)) = Done start p' /\ cells_of false p' = []) /\
  let over := set_isOverfull true (page_after (zeroPage false)) in allocateSpace false 1000 over = Done 0 over.
Proof.
  assert (Hs : settled false (page_after (zeroPage false)) []).
  { refine (wp_done (zeroPage false;; run_ops false []) _ _ blank_page tt _ (wp_zero_ops false blank_page [] (fun _ => False) eq_refl eq_refl eq_refl) _).
    vm_compute. reflexivity. }
  destruct Hs as (Hw & Ho & fs & H & Hsp). split.
  - destruct (allocateSpace_correct false (page_after (zeroPage false)) [] fs 1000) as [_ Hok]; [done|done|done|done|done|].
    destruct Hok as (start & p' & fs' & E & _ & Hc & _); [vm_compute; discriminate|done|]. exists start, p'. split; [exact E|exact Hc].
  - intros over. destruct (allocateSpace_correct false over [] fs 1000) as [Hno _]; [|done|done|done|done|].
    + destruct H. by split.
    + apply Hno. right. reflexivity.
Defined.

(** A cell that does not fit makes the page overfull: [insertCell] then leaves the
    bytes of the page alone and refers to the caller's cell, at the right place in
    the order. *)
Theorem insertCell_overfull sw p ts fs i c sz :
  page_holds sw p ts fs -> writeable p = true -> cell_ok sw c sz = true ->
  nFree p < sz \/ isOverfull p = true -> (i <= length ts)%nat -> nCell p < MX_CELL + 2 ->
  exists p', insertCell sw i c sz p = Done tt p' /\ isOverfull p' = true /\ aDisk p' = aDisk p /\
    cells_of sw p' = insert_at i (text (take (Z.to_nat sz) c)) ts.
Proof.
  intros H Hw Hc Hfit Hi Hcap. destruct (cell_ok_whole sw c sz Hc) as (Hwc & Et & Hal).
  set (t := text (take (Z.to_nat sz) c)) in *. rewrite <-Et in Hfit, Hal |- *.
  destruct (wp_returns (insertCell sw i c (tsize t)) _ p (wp_insertCell_overfull sw p ts fs i c t _ H Hw Hwc Hal Hfit Hi Hcap))
    as ([] & p' & E & -> & H'). eexists. split; [exact E|]. split; [done|]. split; [done|].
  by eapply holds_cells_of.
Qed.

Lemma insertCell_overfull_witness :
  exists p', insertCell false 0 (small_cell 1) 20 (set_isOverfull true (page_after (zeroPage false))) = Done tt p' /\
    isOverfull p' = true.
Proof.
  destruct (insertCell_overfull false (set_isOverfull true (page_after (zeroPage false))) [] [(8, 1016)] 0 (small_cell 1) 20)
    as (p' & E & Ho & _).
  - assert (Hs : settled false (page_after (zeroPage false)) []).
    { refine (wp_done (zeroPage false;; run_ops false []) _ _ blank_page tt _ (wp_zero_ops false blank_page [] (fun _ => False) eq_refl eq_refl eq_refl) _).
      vm_compute. reflexivity. }
    destruct (wp_returns (zeroPage false) _ blank_page (wp_zeroPage false blank_page (fun _ => False) eq_refl eq_refl))
      as ([] & q & E & H & _). assert (Eq : q = page_after (zeroPage false)) by (unfold page_after; by rewrite E).
    subst q. destruct H. by split.
  - reflexivity.
  - vm_compute. reflexivity.
  - right. reflexivity.
  - simpl. lia.
  - vm_compute. reflexivity.
  - exists p'. split; [exact E|exact Ho].
Defined.

(** * Pages that nobody has checked *)

(** [m] returns a result and a page that satisfy [QD], or gets stuck and then [QS]. *)
Definition runs {A} (m : M MemPage A) (QD : A -> MemPage -> Prop) (QS : Prop) (p : MemPage) : Prop :=
  match m p with Done a p' => QD a p' | Crashed _ => False | Stuck => QS end.

Lemma runs_bind {A B} (m : M MemPage A) (f : A -> M MemPage B) QD QS p :
  runs m (fun a p' => runs (f a) QD QS p') QS p -> runs (m ≫= f) QD QS p.
Proof. unfold runs, mbind, M_bind. by destruct (m p). Qed.

Lemma runs_wp {A} (m : M MemPage A) QD QS p : wp m QD (fun _ => False) p -> runs m QD QS p.
Proof. unfold runs, wp. by destruct (m p). Qed.

Lemma runs_assert b (QD : unit -> MemPage -> Prop) (QS : Prop) p :
  (b = true -> QD tt p) -> (b = false -> QS) -> runs (assert b) QD QS p.
Proof. destruct b; intros H1 H2; [exact (H1 eq_refl)|exact (H2 eq_refl)]. Qed.

Section Unchecked.
Context (sw : bool).

(** A cell that [initPage] accepts, and the chain of such cells from a link on. *)
Definition cell_inside (d : list Z) (o : Z) : Prop :=
  8 <= o /\ o `mod` 4 = 0 /\ o <= 1008 /\ o + cellSize sw (bytes_at d o sizeof_CellHdr) <= 1024.
Fixpoint cell_walk (d : list Z) (at_ : Z) (os : list Z) : Prop :=
  match os with
  | [] => True
  | o :: os => fld sw d at_ = o /\ cell_inside d o /\ cell_walk d (cell_iNext o) os
  end.
Definition sizes_at (d : list Z) (os : list Z) : Z :=
  foldr (fun o n => cellSize sw (bytes_at d o sizeof_CellHdr) + n) 0 os.

Lemma ROUNDUP_test o : (o =? ROUNDUP o) = true <-> o `mod` 4 = 0.
Proof.
  rewrite Z.eqb_eq. split; [|intros; by rewrite ROUNDUP_id]. destruct (ROUNDUP_aligned o) as [H _]. by intros ->.
Qed.

Lemma init_cells_cases fuel at_ f d p : aDisk p = d -> mem_ok d -> (1 <= fuel)%nat ->
  (length (apCell p) + fuel = 66)%nat ->
  runs (init_cells sw fuel (fld sw d at_) f)
    (fun r p' => exists os, cell_walk d at_ os /\ (length (apCell p) + length os <= 65)%nat /\
       p' = set_apCell (apCell p ++ map OnPage os) p /\ (forall f', r = Some f' -> f' = f - sizes_at d os) /\
       forall os', length os' = fuel -> ~ cell_walk d at_ os')
    (exists os', length os' = fuel /\ cell_walk d at_ os') p.
Proof.
  intros Hd Hm. revert at_ f p Hd. induction fuel as [|fuel IH]; intros at_ f p Hd Hfuel Hlen; [lia|].
  set (o := fld sw d at_). cbn [init_cells].
  assert (Hstop : forall r, (forall f', r = Some f' -> f' = f) -> ~ cell_inside d o ->
    runs (mret r) (fun r p' => exists os, cell_walk d at_ os /\ (length (apCell p) + length os <= 65)%nat /\
       p' = set_apCell (apCell p ++ map OnPage os) p /\ (forall f', r = Some f' -> f' = f - sizes_at d os) /\
       forall os', length os' = S fuel -> ~ cell_walk d at_ os')
    (exists os', length os' = S fuel /\ cell_walk d at_ os') p).
  { intros r Hr Hno. exists []. split; [done|]. split; [simpl; lia|]. split; [rewrite app_nil_r; by destruct p|].
    split; [intros f' E; rewrite (Hr f' E); simpl; lia|]. intros [|o' os'] Hl Hw; [done|].
    destruct Hw as (E & Hin & _). fold o in E. subst o'. done. }
  destruct (Z.eqb_spec o 0) as [E0|E0].
  { apply Hstop; [by intros ? [= ->]|]. unfold cell_inside. lia. }
  destruct (Z.ltb_spec (SQLITE_USABLE_SIZE - MIN_CELL_SIZE) o) as [H1|H1];
    unfold SQLITE_USABLE_SIZE, MIN_CELL_SIZE, sizeof_CellHdr in H1.
  { apply Hstop; [done|]. unfold cell_inside. lia. }
  destruct (Z.ltb_spec o sizeof_PageHdr) as [H2|H2]; unfold sizeof_PageHdr in H2.
  { apply Hstop; [done|]. unfold cell_inside. lia. }
  destruct (o =? ROUNDUP o) eqn:E3; cbn [negb].
  2: { apply Hstop; [done|]. unfold cell_inside. intros (_ & Hal & _). apply ROUNDUP_test in Hal. congruence. }
  apply ROUNDUP_test in E3. apply runs_bind, runs_wp. apply wp_ld_bytes; [lia|unfold sizeof_CellHdr; lia..|]. rewrite Hd.
  destruct (Z.ltb_spec SQLITE_USABLE_SIZE (o + cellSize sw (bytes_at d o sizeof_CellHdr))) as [H4|H4];
    unfold SQLITE_USABLE_SIZE in H4.
  { apply Hstop; [done|]. unfold cell_inside. lia. }
  assert (Hin : cell_inside d o) by (unfold cell_inside; lia).
  apply runs_bind, runs_wp, wp_pget. apply runs_bind, runs_assert; intros E5;
    [apply Z.ltb_lt in E5|apply Z.ltb_ge in E5]; change (MX_CELL + 2) with 65 in E5.
  2: { exists [o]. assert (fuel = 0%nat) as -> by lia. split; [done|]. by split. }
  apply runs_bind, runs_wp, wp_pupd. apply runs_bind, runs_wp. apply wp_ld16; offsets; [lia..|].
  cbn [aDisk set_apCell]. rewrite Hd. fold (fld sw d (o + 6)).
  specialize (IH (o + 6) (f - cellSize sw (bytes_at d o sizeof_CellHdr)) (set_apCell (apCell p ++ [OnPage o]) p) Hd).
  cbn [apCell set_apCell] in IH. rewrite length_app in IH. simpl in IH.
  specialize (IH ltac:(lia) ltac:(lia)). revert IH. unfold runs.
  destruct (init_cells sw fuel (fld sw d (o + 6)) _ _) as [r p'| |]; [| done|].
  - intros (os & Hw & Hl & -> & Hr & Hno). exists (o :: os). split; [done|]. simpl length.
    split; [lia|]. split; [rewrite <-app_assoc; done|]. split.
    + intros f' E. rewrite (Hr f' E). unfold sizes_at. simpl. lia.
    + intros [|o' os'] Hl' Hw'; [done|]. destruct Hw' as (E & _ & Hw'). fold o in E. subst o'.
      apply (Hno os'); [simpl in Hl'; lia|done].
  - intros (os' & Hl & Hw). exists (o :: os'). split; [simpl; lia|]. done.
Qed.

Lemma wp_init_free_any fuel idx p C : mem_ok (aDisk p) -> 0 <= idx ->
  idx = 0 \/ (1 <= fuel)%nat /\ 1024 < idx + Z.of_nat fuel ->
  wp (init_free sw fuel idx) (fun _ p' => exists v, p' = set_nFree v p) C p.
Proof.
  intros Hm. assert (Hself : exists v, p = set_nFree v p) by (exists (nFree p); by destruct p).
  assert (G : forall fuel idx q, 0 <= idx -> idx = 0 \/ (1 <= fuel)%nat /\ 1024 < idx + Z.of_nat fuel ->
    (exists v, q = set_nFree v p) -> wp (init_free sw fuel idx) (fun _ p' => exists v, p' = set_nFree v p) C q); [|eauto].
  clear fuel idx. induction fuel as [|fuel IH]; intros idx q Hi Hf [v ->]; cbn [init_free];
    (destruct (Z.eqb_spec idx 0); [by apply wp_ret; exists v|]); [lia|].
  destruct (Z.ltb_spec (SQLITE_USABLE_SIZE - sizeof_FreeBlk) idx) as [H1|H1]; [by apply wp_ret; exists v|].
  unfold SQLITE_USABLE_SIZE, sizeof_FreeBlk in H1.
  destruct (Z.ltb_spec idx sizeof_PageHdr) as [H2|H2]; [by apply wp_ret; exists v|]. unfold sizeof_PageHdr in H2.
  do 2 pstep; offsets; [lia..|]. do 4 pstep. do 2 pstep; offsets; [lia..|]. cbn [aDisk set_nFree nFree].
  fold (fld sw (aDisk p) (idx + 2)). pose proof (fld_u16 sw (aDisk p) (idx + 2)) as Hu. unfold u16 in Hu.
  set (nx := fld sw (aDisk p) (idx + 2)) in *.
  destruct ((0 <? nx) && (nx <=? idx)) eqn:En; [apply wp_ret; by eexists|].
  apply IH; [lia| |by eexists]. apply andb_false_iff in En as [En%Z.ltb_ge|En%Z.leb_gt]; lia.
Qed.

(** The part of [initPage] behind the parent. *)
Definition init_body : M MemPage Z :=
  i ← pget isInit;
  if (i : bool) then mret SQLITE_OK else
  pupd (set_isInit true);;
  pupd (set_apCell []);;
  raw ← ld16 firstCell;
  r ← init_cells sw (Z.to_nat (MX_CELL + 3)) (SWAB16 sw raw) USABLE_SPACE;
  match r with
  | None => mret SQLITE_CORRUPT
  | Some freeSpace =>
      pupd (set_nFree 0);;
      raw ← ld16 firstFree;
      ok ← init_free sw (Z.to_nat SQLITE_USABLE_SIZE) (SWAB16 sw raw);
      if negb ok then mret SQLITE_CORRUPT else
      n ← pget nCell; f ← pget nFree;
      if (n =? 0) && (f =? 0) then mret SQLITE_OK else
      if negb (f =? freeSpace) then mret SQLITE_CORRUPT else mret SQLITE_OK
  end.

(** What a page that [initPage] accepts looks like. *)
Definition accepted (d : list Z) (p' : MemPage) : Prop :=
  exists os, apCell p' = map OnPage os /\ (length os <= 65)%nat /\ cell_walk d firstCell os /\
    (os = [] /\ nFree p' = 0 \/ nFree p' + sizes_at d os = USABLE_SPACE).

(** More cells on the chain than [apCell] has room for. *)
Definition overflows (d : list Z) : Prop := exists os, length os = 66%nat /\ cell_walk d firstCell os.

Lemma init_body_cases q : mem_ok (aDisk q) -> isInit q = false ->
  runs init_body (fun rc p' => aDisk p' = aDisk q /\ ~ overflows (aDisk q) /\ (rc = SQLITE_OK -> accepted (aDisk q) p'))
    (overflows (aDisk q)) q.
Proof.
  intros Hm Hi. unfold init_body. apply runs_bind, runs_wp, wp_pget. rewrite Hi.
  do 2 apply runs_bind, runs_wp, wp_pupd. apply runs_bind, runs_wp. apply wp_ld16; offsets; [lia..|].
  cbn [aDisk set_apCell set_isInit]. fold (fld sw (aDisk q) 4). apply runs_bind.
  set (q1 := set_apCell [] (set_isInit true q)). change (Z.to_nat (MX_CELL + 3)) with 66%nat.
  pose proof (init_cells_cases 66 4 USABLE_SPACE (aDisk q) q1 eq_refl Hm ltac:(lia) eq_refl) as H.
  revert H. unfold runs at 1 2. destruct (init_cells sw 66 _ USABLE_SPACE q1) as [r p1| |]; [|tauto|tauto].
  intros (os & Hw & Hl & -> & Hr & Hno).
  assert (Hno' : ~ overflows (aDisk q)) by (intros (os' & E & H); by apply (Hno os')).
  destruct r as [freeSpace|]; [|by apply runs_wp, wp_ret]. specialize (Hr _ eq_refl).
  apply runs_bind, runs_wp, wp_pupd. apply runs_bind, runs_wp. apply wp_ld16; offsets; [lia..|].
  cbn [aDisk set_apCell set_isInit set_nFree q1]. fold (fld sw (aDisk q) 6). apply runs_bind, runs_wp.
  pose proof (fld_u16 sw (aDisk q) 6) as Hu. unfold u16 in Hu.
  eapply wp_mono; [apply (wp_init_free_any _ _ _ (fun _ => False)); try done; [lia|]| |done].
  { unfold SQLITE_USABLE_SIZE. destruct (Z.eq_dec (fld sw (aDisk q) 6) 0); [by left|right; lia]. }
  intros ok p2 [v ->]. apply runs_wp. destruct ok; cbn [negb]; [|by apply wp_ret]. do 4 pstep. cbn [nFree set_nFree].
  destruct ((nCell _ =? 0) && (v =? 0)) eqn:E0.
  - apply wp_ret. split; [done|]. split; [done|]. intros _. exists os. split; [done|]. split; [simpl in Hl; lia|]. split; [done|].
    apply andb_true_iff in E0 as [E1%Z.eqb_eq E2%Z.eqb_eq]. left. split; [|done]. unfold nCell in E1.
    cbn in E1. rewrite length_fmap in E1. destruct os; [done|simpl in E1; lia].
  - destruct (Z.eqb_spec v freeSpace) as [->|]; cbn [negb]; apply wp_ret; (split; [done|]); (split; [done|]); [|done].
    intros _. exists os. split; [done|]. split; [simpl in Hl; lia|]. split; [done|]. right. cbn [nFree set_nFree]. lia.
Qed.

Lemma initPage_cases parent p : mem_ok (aDisk p) -> isInit p = false -> pParent p = None ->
  runs (initPage sw parent)
    (fun rc p' => aDisk p' = aDisk p /\ ~ overflows (aDisk p) /\ (rc = SQLITE_OK -> accepted (aDisk p) p'))
    (overflows (aDisk p)) p.
Proof.
  intros Hm Hi Hp. unfold initPage. apply runs_bind, runs_wp, wp_pget. rewrite Hp.
  apply runs_bind, runs_wp. destruct parent as [v|].
  - apply wp_pupd. by apply (init_body_cases (set_parent v p)).
  - apply wp_ret. by apply (init_body_cases p).
Qed.
End Unchecked.


Definition page_of (d : list Z) : MemPage := mkMemPage d false false false None 0 [] true [].


(** [initPage] does not check how many cells the chain has: on a page that it has
    not seen yet it writes behind the end of [apCell] exactly when the chain goes
    through more than [MX_CELL+2] cells that lie in the page, which a chain that
    comes back to one of its cells does. *)
Theorem initPage_overflow sw parent p :
  mem_ok (aDisk p) -> isInit p = false -> pParent p = None ->
  initPage sw parent p = Stuck <-> overflows sw (aDisk p).
Proof.
  intros Hm Hi Hp. pose proof (initPage_cases sw parent p Hm Hi Hp) as H. unfold runs in H.
  destruct (initPage sw parent p) as [rc p'| |]; [|done|done]. destruct H as (_ & H & _). by split.
Qed.

(** A page whose only cell is linked to itself. *)
Definition looping_page : list Z :=
  [0; 0; 0; 0; 8; 0; 0; 0] ++ [0; 0; 0; 0; 4; 0; 8; 0; 0; 0; 0; 0; 1; 2; 3; 4] ++ replicate (Z.to_nat 1000) 0.

Lemma initPage_overflow_witness : initPage false None (page_of looping_page) = Stuck.
Proof.
  apply (initPage_overflow false None (page_of looping_page)); [|reflexivity|reflexivity|].
  - apply mem_ok_check. vm_compute. reflexivity.
  - exists (replicate 66 8). split; [reflexivity|]. vm_compute. repeat split; discriminate.
Defined.
