(* ===== verification/OsLocks.v ===== *)
(** The locks of [os.c] (Unix branches): file descriptors, the inode tables
    [lockHash] and [openHash], and the kernel's locks that processes compete for.

    POSIX gives a process at most one lock per inode, overrides it without asking, and
    drops it when the process closes any descriptor of the inode.  The code counts the
    locks of a process itself in a [lockInfo] per inode, and in an [openCnt] per inode
    the descriptors whose close has to wait.  These structures live in stores of
    addresses, so that a use of something that was freed is [Stuck]; so is a failed
    [assert] and a read behind the end of [aPending].  The hash tables are the finite
    maps that HashMap.v proves [hash.c] to implement. *)
From S2P Require Import Prelude OsFile.

Definition SQLITE_NOLFS : Z := 22.

(** * What the kernel keeps *)

(** [st_dev] and [st_ino]. *)
Abbreviation inode := (Z * Z)%type.

Record kfd := mkKfd { k_inode : inode; k_writable : bool }.

Inductive ltype := F_RDLCK | F_WRLCK.
#[export] Instance ltype_eq_dec : EqDecision ltype.
Proof. solve_decision. Defined.

(** The locks on whole files; a process has at most one per inode. *)
Abbreviation klocks := (gmap (inode * Z) ltype).

(** What the environment answers during one call. *)
Record env := mkEnv {
  e_open : option inode;     (** the file that [open] opens with [O_CREAT], if it can *)
  e_eisdir : bool;           (** [errno] after that is [EISDIR] *)
  e_open_ro : option inode;  (** the file that [open] opens with [O_RDONLY], if it can *)
  e_access : bool;           (** [access] finds the file *)
  e_fstat : bool;            (** [fstat] succeeds *)
  e_mallocs : list bool;     (** the results of the allocations; then they succeed *)
  e_fcntl : option bool      (** [fcntl] fails for another reason than a conflict, [Some true]: [EINVAL] *)
}.

(** * Data *)

Record lockKey := mkLockKey { lk_dev : Z; lk_ino : Z; lk_pid : Z }.
Record openKey := mkOpenKey { ok_dev : Z; ok_ino : Z }.

#[export] Instance lockKey_eq_dec : EqDecision lockKey.
Proof. solve_decision. Defined.
#[export] Instance openKey_eq_dec : EqDecision openKey.
Proof. solve_decision. Defined.
#[export] Program Instance lockKey_countable : Countable lockKey :=
  inj_countable' (fun k => (lk_dev k, lk_ino k, lk_pid k)) (fun '(d, i, p) => mkLockKey d i p) _.
Next Obligation. by intros []. Qed.
#[export] Program Instance openKey_countable : Countable openKey :=
  inj_countable' (fun k => (ok_dev k, ok_ino k)) (fun '(d, i) => mkOpenKey d i) _.
Next Obligation. by intros []. Qed.

Definition ptr : Type := positive.

Record lockInfo := mkLockInfo { li_key : lockKey; cnt : Z; li_nRef : Z }.

(** [aPending] has the contents of the allocation, [None] where it was never written. *)
Record openCnt := mkOpenCnt {
  oc_key : openKey; oc_nRef : Z; nLock : Z; nPending : Z; aPending : list (option Z)
}.

Record OsFile := mkOsFile {
  pOpen : option ptr; pLock : option ptr; fd : Z; locked : bool; dirfd : Z
}.

(** A process: its descriptors and the static variables and the heap of the library. *)
Record proc := mkProc {
  fds : list (option kfd);
  lockHash : gmap lockKey ptr; openHash : gmap openKey ptr;
  lockInfos : gmap ptr lockInfo; openCnts : gmap ptr openCnt;
  files : gmap ptr OsFile;
  inMutex : bool
}.

(** The state of a running call. *)
Record W := mkW { getpid : Z; w_proc : proc; w_locks : klocks; w_env : env }.

Definition set_fds (v : list (option kfd)) (p : proc) : proc :=
  mkProc v (lockHash p) (openHash p) (lockInfos p) (openCnts p) (files p) (inMutex p).
Definition set_lockHash (v : gmap lockKey ptr) (p : proc) : proc :=
  mkProc (fds p) v (openHash p) (lockInfos p) (openCnts p) (files p) (inMutex p).
Definition set_openHash (v : gmap openKey ptr) (p : proc) : proc :=
  mkProc (fds p) (lockHash p) v (lockInfos p) (openCnts p) (files p) (inMutex p).
Definition set_lockInfos (v : gmap ptr lockInfo) (p : proc) : proc :=
  mkProc (fds p) (lockHash p) (openHash p) v (openCnts p) (files p) (inMutex p).
Definition set_openCnts (v : gmap ptr openCnt) (p : proc) : proc :=
  mkProc (fds p) (lockHash p) (openHash p) (lockInfos p) v (files p) (inMutex p).
Definition set_files (v : gmap ptr OsFile) (p : proc) : proc :=
  mkProc (fds p) (lockHash p) (openHash p) (lockInfos p) (openCnts p) v (inMutex p).
Definition set_inMutex (v : bool) (p : proc) : proc :=
  mkProc (fds p) (lockHash p) (openHash p) (lockInfos p) (openCnts p) (files p) v.

Definition set_cnt (v : Z) (l : lockInfo) : lockInfo := mkLockInfo (li_key l) v (li_nRef l).
Definition set_li_nRef (v : Z) (l : lockInfo) : lockInfo := mkLockInfo (li_key l) (cnt l) v.

Definition set_oc_nRef (v : Z) (o : openCnt) : openCnt :=
  mkOpenCnt (oc_key o) v (nLock o) (nPending o) (aPending o).
Definition set_nLock (v : Z) (o : openCnt) : openCnt :=
  mkOpenCnt (oc_key o) (oc_nRef o) v (nPending o) (aPending o).
Definition set_nPending (v : Z) (o : openCnt) : openCnt :=
  mkOpenCnt (oc_key o) (oc_nRef o) (nLock o) v (aPending o).
Definition set_aPending (v : list (option Z)) (o : openCnt) : openCnt :=
  mkOpenCnt (oc_key o) (oc_nRef o) (nLock o) (nPending o) v.

Definition set_pOpen (v : ptr) (f : OsFile) : OsFile :=
  mkOsFile (Some v) (pLock f) (fd f) (locked f) (dirfd f).
Definition set_pLock (v : ptr) (f : OsFile) : OsFile :=
  mkOsFile (pOpen f) (Some v) (fd f) (locked f) (dirfd f).
Definition set_fd (v : Z) (f : OsFile) : OsFile :=
  mkOsFile (pOpen f) (pLock f) v (locked f) (dirfd f).
Definition set_locked (v : bool) (f : OsFile) : OsFile :=
  mkOsFile (pOpen f) (pLock f) (fd f) v (dirfd f).
Definition set_dirfd (v : Z) (f : OsFile) : OsFile :=
  mkOsFile (pOpen f) (pLock f) (fd f) (locked f) v.

(** * Access to the state *)

Definition pget {A} (f : proc -> A) : M W A := fun w => Done (f (w_proc w)) w.
Definition pupd (f : proc -> proc) : M W unit := fun w =>
  Done tt (mkW (getpid w) (f (w_proc w)) (w_locks w) (w_env w)).
Definition eget {A} (f : env -> A) : M W A := fun w => Done (f (w_env w)) w.

Definition nonnull (p : option ptr) : M W ptr :=
  match p with Some a => mret a | None => mstuck end.

Definition the_lock (a : ptr) : M W lockInfo := fun w =>
  match lockInfos (w_proc w) !! a with Some l => Done l w | None => Stuck end.
Definition the_open (a : ptr) : M W openCnt := fun w =>
  match openCnts (w_proc w) !! a with Some o => Done o w | None => Stuck end.
(** The caller provides the [OsFile]; what it holds before it is opened does not matter. *)
Definition raw_file : OsFile := mkOsFile None None (-1) false (-1).
Definition the_file (id : ptr) : M W OsFile :=
  pget (fun p => default raw_file (files p !! id)).

Definition upd_lock (a : ptr) (f : lockInfo -> lockInfo) : M W unit :=
  l ← the_lock a; pupd (fun p => set_lockInfos (<[a := f l]> (lockInfos p)) p).
Definition upd_open (a : ptr) (f : openCnt -> openCnt) : M W unit :=
  o ← the_open a; pupd (fun p => set_openCnts (<[a := f o]> (openCnts p)) p).
Definition upd_file (id : ptr) (f : OsFile -> OsFile) : M W unit :=
  x ← the_file id; pupd (fun p => set_files (<[id := f x]> (files p)) p).

Definition free_lock (a : ptr) : M W unit :=
  _ ← the_lock a; pupd (fun p => set_lockInfos (delete a (lockInfos p)) p).
Definition free_open (a : ptr) : M W unit :=
  _ ← the_open a; pupd (fun p => set_openCnts (delete a (openCnts p)) p).

(** Whether an allocation succeeds. *)
Definition malloc_ok : M W bool := fun w =>
  match e_mallocs (w_env w) with
  | [] => Done true w
  | b :: bs =>
      let e := w_env w in
      Done b (mkW (getpid w) (w_proc w) (w_locks w)
        (mkEnv (e_open e) (e_eisdir e) (e_open_ro e) (e_access e) (e_fstat e) bs (e_fcntl e)))
  end.

(** [sqliteMallocRaw] and the assignments to the fields that follow it. *)
Definition malloc_lock (l : lockInfo) : M W (option ptr) :=
  ok ← malloc_ok;
  if ok : bool then
    a ← pget (fun p => fresh (dom (lockInfos p)));
    pupd (fun p => set_lockInfos (<[a := l]> (lockInfos p)) p);; mret (Some a)
  else mret None.
Definition malloc_open (o : openCnt) : M W (option ptr) :=
  ok ← malloc_ok;
  if ok : bool then
    a ← pget (fun p => fresh (dom (openCnts p)));
    pupd (fun p => set_openCnts (<[a := o]> (openCnts p)) p);; mret (Some a)
  else mret None.

(** [sqliteHashInsert] on the two tables: the old pointer, or the new one when there
    is no memory for it. *)
Definition lockHash_insert (k : lockKey) (data : option ptr) : M W (option ptr) :=
  h ← pget lockHash;
  match h !! k, data with
  | Some old, Some a => pupd (fun p => set_lockHash (<[k := a]> (lockHash p)) p);; mret (Some old)
  | Some old, None => pupd (fun p => set_lockHash (delete k (lockHash p)) p);; mret (Some old)
  | None, None => mret None
  | None, Some a =>
      ok ← malloc_ok;
      if ok : bool then pupd (fun p => set_lockHash (<[k := a]> (lockHash p)) p);; mret None
      else mret (Some a)
  end.
Definition openHash_insert (k : openKey) (data : option ptr) : M W (option ptr) :=
  h ← pget openHash;
  match h !! k, data with
  | Some old, Some a => pupd (fun p => set_openHash (<[k := a]> (openHash p)) p);; mret (Some old)
  | Some old, None => pupd (fun p => set_openHash (delete k (openHash p)) p);; mret (Some old)
  | None, None => mret None
  | None, Some a =>
      ok ← malloc_ok;
      if ok : bool then pupd (fun p => set_openHash (<[k := a]> (openHash p)) p);; mret None
      else mret (Some a)
  end.

(** * System calls *)

(** A new descriptor is the lowest one that is not in use. *)
Fixpoint fd_alloc (k : kfd) (l : list (option kfd)) : nat * list (option kfd) :=
  match l with
  | [] => (O, [Some k])
  | None :: l' => (O, Some k :: l')
  | Some x :: l' => let '(n, l'') := fd_alloc k l' in (S n, Some x :: l'')
  end.

Definition fd_lookup (n : Z) (l : list (option kfd)) : option kfd :=
  if n <? 0 then None else mjoin (l !! Z.to_nat n).

Definition sys_open (what : env -> option inode) (writable : bool) : M W Z :=
  o ← eget what;
  match o with
  | None => mret (-1)
  | Some i =>
      l ← pget fds;
      let '(n, l') := fd_alloc (mkKfd i writable) l in
      pupd (set_fds l');; mret (Z.of_nat n)
  end.

(** [close]: the process loses its lock on the inode, whoever holds it. *)
Definition sys_close (n : Z) : M W unit := fun w =>
  match fd_lookup n (fds (w_proc w)) with
  | None => Done tt w
  | Some k =>
      Done tt (mkW (getpid w) (set_fds (<[Z.to_nat n := None]> (fds (w_proc w))) (w_proc w))
        (delete (k_inode k, getpid w) (w_locks w)) (w_env w))
  end.

Definition sys_fstat (n : Z) : M W (option inode) :=
  ok ← eget e_fstat;
  l ← pget fds;
  if ok : bool then mret (k_inode <$> fd_lookup n l) else mret None.

(** A lock of another process that excludes a lock of type [t]. *)
Definition conflicts (i : inode) (p : Z) (t : ltype) (ls : klocks) : Prop :=
  map_Exists (fun k t' => k.1 = i /\ k.2 <> p /\ (t = F_WRLCK \/ t' = F_WRLCK)) ls.
#[export] Instance conflicts_dec i p t ls : Decision (conflicts i p t ls).
Proof. unfold conflicts. apply _. Defined.

(** [fcntl(fd, F_SETLK, &lock)] over the whole file, [None] for [F_UNLCK]: [None] when
    it succeeds, and whether [errno] is [EINVAL] when it does not. *)
Definition sys_setlk (n : Z) (t : option ltype) : M W (option bool) := fun w =>
  match fd_lookup n (fds (w_proc w)), e_fcntl (w_env w) with
  | None, _ => Done (Some false) w
  | Some _, Some b => Done (Some b) w
  | Some k, None =>
      let key := (k_inode k, getpid w) in
      let set ls := mkW (getpid w) (w_proc w) ls (w_env w) in
      match t with
      | None => Done None (set (delete key (w_locks w)))
      | Some t =>
          if bool_decide (t = F_WRLCK) && negb (k_writable k) then Done (Some false) w
          else if bool_decide (conflicts (k_inode k) (getpid w) t (w_locks w))
          then Done (Some false) w
          else Done None (set (<[key := t]> (w_locks w)))
      end
  end.

(** * The mutex *)

Definition sqliteOsEnterMutex : M W unit :=
  b ← pget inMutex;
  assert (negb b);;
  pupd (set_inMutex true).

Definition sqliteOsLeaveMutex : M W unit :=
  b ← pget inMutex;
  assert b;;
  pupd (set_inMutex false).

(** * The structures of an inode *)

Definition releaseLockInfo (pLock : ptr) : M W unit :=
  upd_lock pLock (fun l => set_li_nRef (li_nRef l - 1) l);;
  l ← the_lock pLock;
  mwhen (li_nRef l =? 0) (lockHash_insert (li_key l) None;; free_lock pLock).

Definition releaseOpenCnt (pOpen : ptr) : M W unit :=
  upd_open pOpen (fun o => set_oc_nRef (oc_nRef o - 1) o);;
  o ← the_open pOpen;
  mwhen (oc_nRef o =? 0) (openHash_insert (oc_key o) None;; free_open pOpen).

(** The first half of [findLockInfo], [None] for an error. *)
Definition find_lock (key1 : lockKey) : M W (option ptr) :=
  h ← pget lockHash;
  match h !! key1 with
  | None =>
      r ← malloc_lock (mkLockInfo key1 0 1);
      match r with
      | None => mret None
      | Some pLock =>
          pOld ← lockHash_insert key1 (Some pLock);
          match pOld with
          | Some o => assert (bool_decide (o = pLock));; free_lock pLock;; mret None
          | None => mret (Some pLock)
          end
      end
  | Some pLock => upd_lock pLock (fun l => set_li_nRef (li_nRef l + 1) l);; mret (Some pLock)
  end.

(** The second half. *)
Definition find_open (key2 : openKey) (pLock : ptr) : M W (option ptr) :=
  h ← pget openHash;
  match h !! key2 with
  | None =>
      r ← malloc_open (mkOpenCnt key2 1 0 0 []);
      match r with
      | None => releaseLockInfo pLock;; mret None
      | Some pOpen =>
          pOld ← openHash_insert key2 (Some pOpen);
          match pOld with
          | Some o =>
              assert (bool_decide (o = pOpen));;
              free_open pOpen;; releaseLockInfo pLock;; mret None
          | None => mret (Some pOpen)
          end
      end
  | Some pOpen => upd_open pOpen (fun o => set_oc_nRef (oc_nRef o + 1) o);; mret (Some pOpen)
  end.

(** [ppLock] and [ppOpen] are always the fields of the file [id]. *)
Definition findLockInfo (n : Z) (id : ptr) : M W Z :=
  st ← sys_fstat n;
  match st with
  | None => mret 1
  | Some (dev, ino) =>
      w ← mget;
      r ← find_lock (mkLockKey dev ino (getpid w));
      match r with
      | None => mret 1
      | Some pLock =>
          upd_file id (set_pLock pLock);;
          r ← find_open (mkOpenKey dev ino) pLock;
          match r with
          | None => mret 1
          | Some pOpen => upd_file id (set_pOpen pOpen);; mret 0
          end
      end
  end.

(** * Opening *)

(** What the three functions do once [open] has succeeded: on an error the descriptor is
    closed; [undo] is what else is done then. *)
Definition open_finish (id : ptr) (undo : M W unit) : M W Z :=
  sqliteOsEnterMutex;;
  f ← the_file id;
  rc ← findLockInfo (fd f) id;
  sqliteOsLeaveMutex;;
  if negb (rc =? 0) then
    f ← the_file id;
    sys_close (fd f);;
    undo;;
    mret SQLITE_NOMEM
  else
    upd_file id (set_locked false);;
    mret SQLITE_OK.

(** The result has what is stored in [*pReadonly]. *)
Definition sqliteOsOpenReadWrite (id : ptr) : M W (Z * option bool) :=
  upd_file id (set_dirfd (-1));;
  n ← sys_open e_open true;
  upd_file id (set_fd n);;
  isdir ← eget e_eisdir;
  if (n <? 0) && isdir then mret (SQLITE_CANTOPEN, None)
  else if n <? 0 then
    n ← sys_open e_open_ro false;
    upd_file id (set_fd n);;
    if n <? 0 then mret (SQLITE_CANTOPEN, None)
    else rc ← open_finish id (mret tt); mret (rc, Some true)
  else rc ← open_finish id (mret tt); mret (rc, Some false).

(** [unlink] removes the name; the file, its descriptors and its locks stay. *)
Definition sqliteOsOpenExclusive (id : ptr) : M W Z :=
  there ← eget e_access;
  if there : bool then mret SQLITE_CANTOPEN else
  upd_file id (set_dirfd (-1));;
  n ← sys_open e_open true;
  upd_file id (set_fd n);;
  if n <? 0 then mret SQLITE_CANTOPEN
  else open_finish id (mret tt).

Definition sqliteOsOpenReadOnly (id : ptr) : M W Z :=
  upd_file id (set_dirfd (-1));;
  n ← sys_open e_open_ro false;
  upd_file id (set_fd n);;
  if n <? 0 then mret SQLITE_CANTOPEN
  else open_finish id (mret tt).

Definition sqliteOsOpenDirectory (id : ptr) : M W Z :=
  f ← the_file id;
  if fd f <? 0 then mret SQLITE_CANTOPEN else
  assert (dirfd f <? 0);;
  n ← sys_open e_open_ro false;
  upd_file id (set_dirfd n);;
  if n <? 0 then mret SQLITE_CANTOPEN else mret SQLITE_OK.

(** * Locking *)

(** The code after a failed [fcntl]: [EINVAL] means that large files are not supported. *)
Definition lock_error (einval : bool) : Z := if einval then SQLITE_NOLFS else SQLITE_BUSY.

Definition sqliteOsReadLock (id : ptr) : M W Z :=
  sqliteOsEnterMutex;;
  f ← the_file id;
  pl ← nonnull (pLock f);
  l ← the_lock pl;
  po ← nonnull (pOpen f);
  rc ←
    (if 0 <? cnt l then
       mwhen (negb (locked f))
         (upd_lock pl (fun l => set_cnt (cnt l + 1) l);;
          upd_file id (set_locked true);;
          upd_open po (fun o => set_nLock (nLock o + 1) o));;
       mret SQLITE_OK
     else if locked f || (cnt l =? 0) then
       s ← sys_setlk (fd f) (Some F_RDLCK);
       match s with
       | Some einval => mret (lock_error einval)
       | None =>
           mwhen (negb (locked f))
             (upd_open po (fun o => set_nLock (nLock o + 1) o);;
              upd_file id (set_locked true));;
           upd_lock pl (set_cnt 1);;
           mret SQLITE_OK
       end
     else mret SQLITE_BUSY);
  sqliteOsLeaveMutex;;
  mret rc.

Definition sqliteOsWriteLock (id : ptr) : M W Z :=
  sqliteOsEnterMutex;;
  f ← the_file id;
  pl ← nonnull (pLock f);
  l ← the_lock pl;
  po ← nonnull (pOpen f);
  rc ←
    (if (cnt l =? 0) || ((cnt l =? 1) && locked f) then
       s ← sys_setlk (fd f) (Some F_WRLCK);
       match s with
       | Some einval => mret (lock_error einval)
       | None =>
           mwhen (negb (locked f))
             (upd_open po (fun o => set_nLock (nLock o + 1) o);;
              upd_file id (set_locked true));;
           upd_lock pl (set_cnt (-1));;
           mret SQLITE_OK
       end
     else mret SQLITE_BUSY);
  sqliteOsLeaveMutex;;
  mret rc.

(** The loop over the [n] elements of [aPending]. *)
Fixpoint close_pending (n : nat) (l : list (option Z)) : M W unit :=
  match n, l with
  | O, _ => mret tt
  | S n, Some d :: l => sys_close d;; close_pending n l
  | S _, _ => mstuck
  end.

Definition sqliteOsUnlock (id : ptr) : M W Z :=
  f ← the_file id;
  if negb (locked f) then mret SQLITE_OK else
  sqliteOsEnterMutex;;
  pl ← nonnull (pLock f);
  l ← the_lock pl;
  assert (negb (cnt l =? 0));;
  rc ←
    (if 1 <? cnt l then upd_lock pl (fun l => set_cnt (cnt l - 1) l);; mret SQLITE_OK
     else
       s ← sys_setlk (fd f) None;
       match s with
       | Some einval => mret (lock_error einval)
       | None => upd_lock pl (set_cnt 0);; mret SQLITE_OK
       end);
  mwhen (rc =? SQLITE_OK)
    (po ← nonnull (pOpen f);
     upd_open po (fun o => set_nLock (nLock o - 1) o);;
     o ← the_open po;
     assert (0 <=? nLock o);;
     mwhen ((nLock o =? 0) && (0 <? nPending o))
       (close_pending (Z.to_nat (nPending o)) (aPending o);;
        upd_open po (fun o => set_aPending [] (set_nPending 0 o))));;
  sqliteOsLeaveMutex;;
  upd_file id (set_locked false);;
  mret rc.

(** The part of [sqliteOsClose] between [EnterMutex] and [LeaveMutex]. *)
Definition close_fd (id : ptr) : M W unit :=
  f ← the_file id;
  po ← nonnull (pOpen f);
  o ← the_open po;
  (if negb (nLock o =? 0) then
     upd_open po (fun o => set_nPending (nPending o + 1) o);;
     ok ← malloc_ok;
     mwhen ok
       (upd_open po (fun o =>
          let n := Z.to_nat (nPending o) in
          set_aPending (<[(n - 1)%nat := Some (fd f)]>
            (aPending o ++ replicate (n - length (aPending o)) None)) o))
   else sys_close (fd f));;
  pl ← nonnull (pLock f);
  releaseLockInfo pl;;
  releaseOpenCnt po.

Definition sqliteOsClose (id : ptr) : M W Z :=
  sqliteOsUnlock id;;
  f ← the_file id;
  mwhen (0 <=? dirfd f) (sys_close (dirfd f));;
  upd_file id (set_dirfd (-1));;
  sqliteOsEnterMutex;;
  close_fd id;;
  sqliteOsLeaveMutex;;
  mret SQLITE_OK.

(** * Processes *)

Inductive call :=
| OpenReadWrite (id : ptr) | OpenExclusive (id : ptr) | OpenReadOnly (id : ptr)
| OpenDirectory (id : ptr)
| LockRead (id : ptr) | LockWrite (id : ptr) | Unlock (id : ptr) | Close (id : ptr).

Arguments OpenReadWrite id%_positive_scope.
Arguments OpenExclusive id%_positive_scope.
Arguments OpenReadOnly id%_positive_scope.
Arguments OpenDirectory id%_positive_scope.
Arguments LockRead id%_positive_scope.
Arguments LockWrite id%_positive_scope.
Arguments Unlock id%_positive_scope.
Arguments Close id%_positive_scope.

Definition run_call (c : call) : M W Z :=
  match c with
  | OpenReadWrite id => r ← sqliteOsOpenReadWrite id; mret r.1
  | OpenExclusive id => sqliteOsOpenExclusive id
  | OpenReadOnly id => sqliteOsOpenReadOnly id
  | OpenDirectory id => sqliteOsOpenDirectory id
  | LockRead id => sqliteOsReadLock id
  | LockWrite id => sqliteOsWriteLock id
  | Unlock id => sqliteOsUnlock id
  | Close id => sqliteOsClose id
  end.

Record sys := mkSys { procs : gmap Z proc; s_locks : klocks }.

Inductive event :=
| E_start (p : Z) (l : list (option kfd))  (** a process starts, with descriptors open already *)
| E_call (p : Z) (c : call) (e : env)
| E_exit (p : Z).                          (** it ends, or is killed *)

Definition new_proc (l : list (option kfd)) : proc := mkProc l ∅ ∅ ∅ ∅ ∅ false.

(** A call of a process; calls of different processes are interleaved call by call. *)
Definition exec (s : sys) (ev : event) : outcome sys Z :=
  match ev with
  | E_start p l => Done 0 (mkSys (<[p := new_proc l]> (procs s)) (s_locks s))
  | E_exit p =>
      Done 0 (mkSys (delete p (procs s)) (filter (fun x => x.1.2 <> p) (s_locks s)))
  | E_call p c e =>
      match procs s !! p with
      | None => Stuck
      | Some pr =>
          match run_call c (mkW p pr (s_locks s) e) with
          | Done rc w => Done rc (mkSys (<[p := w_proc w]> (procs s)) (w_locks w))
          | Crashed _ | Stuck => Stuck
          end
      end
  end.

Fixpoint exec_all (s : sys) (evs : list event) : outcome sys (list Z) :=
  match evs with
  | [] => Done [] s
  | ev :: evs =>
      match exec s ev with
      | Done rc s' =>
          match exec_all s' evs with
          | Done rcs s'' => Done (rc :: rcs) s''
          | Crashed s'' => Crashed s''
          | Stuck => Stuck
          end
      | Crashed s' => Crashed s'
      | Stuck => Stuck
      end
  end.

Definition sys0 : sys := mkSys ∅ ∅.
