(* ===== verification/OsLockSpec.v ===== *)
(** What the locks of [os.c] promise: a machine of readers and writers.

    The abstract state is the open files of all processes with the lock each of them
    holds.  A file can be read-locked when no other open file of its inode is
    write-locked, and write-locked when none is locked; which process an open file
    belongs to matters only for the system calls that are made and can fail. *)
From S2P Require Import Prelude OsFile OsLocks.

(** * Open files *)

(** [h_dir]: the directory was opened too. *)
Record ahandle := mkH { h_inode : inode; h_writable : bool; h_mode : lock; h_dir : bool }.

Definition set_mode (m : lock) (h : ahandle) : ahandle :=
  mkH (h_inode h) (h_writable h) m (h_dir h).
Definition set_dir (h : ahandle) : ahandle :=
  mkH (h_inode h) (h_writable h) (h_mode h) true.

(** The open files, by process and address of the [OsFile]. *)
Abbreviation handles := (gmap (Z * ptr) ahandle).

(** [started]: the running processes, with the descriptors they started with. *)
Record astate := mkA { started : gmap Z (list (option kfd)); opened : handles }.

Definition a0 : astate := mkA ∅ ∅.

(** ** Counting *)

Definition count_h (P : Z * ptr -> ahandle -> bool) (hs : handles) : nat :=
  size (filter (fun x => P x.1 x.2 = true) hs).

Definition of_inode (p : Z) (i : inode) (k : Z * ptr) (h : ahandle) : bool :=
  bool_decide (k.1 = p) && bool_decide (h_inode h = i).

(** The open files of process [p] on inode [i], the locked ones, the write-locked ones. *)
Definition n_open (p : Z) (i : inode) : handles -> nat := count_h (of_inode p i).
Definition n_mode (P : lock -> Prop) `{forall m, Decision (P m)} (p : Z) (i : inode) : handles -> nat :=
  count_h (fun k h => of_inode p i k h && bool_decide (P (h_mode h))).

Definition is_write (m : lock) : Prop := m = WriteLock.
Definition is_read (m : lock) : Prop := m = ReadLock.
Definition is_locked (m : lock) : Prop := m <> NoLock.
#[export] Instance is_write_dec m : Decision (is_write m).
Proof. unfold is_write. apply _. Defined.
#[export] Instance is_read_dec m : Decision (is_read m).
Proof. unfold is_read. apply _. Defined.
#[export] Instance is_locked_dec m : Decision (is_locked m).
Proof. unfold is_locked. apply _. Defined.

Abbreviation n_write := (n_mode is_write).
Abbreviation n_read := (n_mode is_read).
Abbreviation n_locked := (n_mode is_locked).

Lemma count_new P hs k h :
  hs !! k = None -> count_h P (<[k := h]> hs) = (Nat.b2n (P k h) + count_h P hs)%nat.
Proof.
  intros E. unfold count_h. destruct (P k h) eqn:EP; simpl.
  - rewrite map_filter_insert_True by done.
    rewrite map_size_insert_None; [done|]. apply map_lookup_filter_None. by left.
  - rewrite map_filter_insert_False by (simpl; congruence). by rewrite delete_id.
Qed.

Lemma count_remove P hs k h :
  hs !! k = Some h -> count_h P hs = (Nat.b2n (P k h) + count_h P (delete k hs))%nat.
Proof.
  intros E. rewrite <- (insert_delete_id hs k h) at 1 by done.
  apply count_new. apply lookup_delete_eq.
Qed.

Lemma count_update P hs k h h' :
  hs !! k = Some h ->
  (Nat.b2n (P k h) + count_h P (<[k := h']> hs) = Nat.b2n (P k h') + count_h P hs)%nat.
Proof.
  intros E. rewrite <- insert_delete_eq, count_new by apply lookup_delete_eq.
  rewrite (count_remove P hs k h E). lia.
Qed.

Lemma count_empty P : count_h P ∅ = O.
Proof. unfold count_h. by rewrite map_filter_empty, map_size_empty. Qed.

Lemma count_none P hs : count_h P hs = O <-> forall k h, hs !! k = Some h -> P k h = false.
Proof.
  unfold count_h. rewrite map_size_empty_iff, map_empty. setoid_rewrite map_lookup_filter_None.
  split.
  - intros H k h E. destruct (H k) as [H0|H0]; [congruence|].
    specialize (H0 h E). simpl in H0. by apply not_true_is_false in H0.
  - intros H k. right. intros h E. simpl. by rewrite (H k h E).
Qed.

Lemma count_ext P Q hs hs' :
  (forall k h, hs !! k = Some h /\ P k h = true <-> hs' !! k = Some h /\ Q k h = true) ->
  count_h P hs = count_h Q hs'.
Proof.
  intros H. unfold count_h. f_equal. apply map_eq. intros k. apply option_eq. intros h.
  rewrite !map_lookup_filter_Some. apply H.
Qed.

Lemma count_le P Q hs :
  (forall k h, hs !! k = Some h -> P k h = true -> Q k h = true) -> (count_h P hs <= count_h Q hs)%nat.
Proof.
  intros H. unfold count_h. apply map_subseteq_size. apply map_filter_subseteq_ext.
  intros k h E HP. by apply (H k h).
Qed.

(** ** The machine *)

(** Another open file of the inode has a lock as [P] says, in the same process or in
    another one. *)
Definition other_here (P : lock -> Prop) (p : Z) (id : ptr) (i : inode) (hs : handles) : Prop :=
  map_Exists (fun k h => k.1 = p /\ k.2 <> id /\ h_inode h = i /\ P (h_mode h)) hs.
Definition other_process (P : lock -> Prop) (p : Z) (i : inode) (hs : handles) : Prop :=
  map_Exists (fun k h => k.1 <> p /\ h_inode h = i /\ P (h_mode h)) hs.

#[export] Instance other_here_dec P `{forall m, Decision (P m)} p id i hs :
  Decision (other_here P p id i hs).
Proof. unfold other_here. apply _. Defined.
#[export] Instance other_process_dec P `{forall m, Decision (P m)} p i hs :
  Decision (other_process P p i hs).
Proof. unfold other_process. apply _. Defined.

(** The file a call opens, and whether for writing. *)
Definition opens (c : call) (e : env) : option (inode * bool) :=
  match c with
  | OpenReadWrite _ =>
      match e_open e with
      | Some i => Some (i, true)
      | None => if e_eisdir e then None else i ← e_open_ro e; Some (i, false)
      end
  | OpenExclusive _ => if e_access e then None else i ← e_open e; Some (i, true)
  | OpenReadOnly _ => i ← e_open_ro e; Some (i, false)
  | _ => None
  end.

(** The first open file of a process on an inode needs four allocations. *)
Definition enough_memory (e : env) : bool := forallb (fun b => b) (take 4 (e_mallocs e)).

Definition do_open (hs : handles) (p : Z) (id : ptr) (c : call) (e : env) : Z * handles :=
  match opens c e with
  | None => (SQLITE_CANTOPEN, hs)
  | Some (i, w) =>
      if (0 <? n_open p i hs)%nat || enough_memory e
      then (SQLITE_OK, <[(p, id) := mkH i w NoLock false]> hs)
      else (SQLITE_NOMEM, hs)
  end.

Definition do_read (hs : handles) (p : Z) (id : ptr) (h : ahandle) (e : env) : Z * handles :=
  let grant := (SQLITE_OK, <[(p, id) := set_mode ReadLock h]> hs) in
  let i := h_inode h in
  if bool_decide (other_here is_write p id i hs) then (SQLITE_BUSY, hs)
  else if bool_decide (h_mode h = ReadLock \/ other_here is_read p id i hs) then grant
  else match e_fcntl e with
       | Some b => (lock_error b, hs)
       | None => if bool_decide (other_process is_write p i hs) then (SQLITE_BUSY, hs) else grant
       end.

Definition do_write (hs : handles) (p : Z) (id : ptr) (h : ahandle) (e : env) : Z * handles :=
  let i := h_inode h in
  if bool_decide (h_mode h = WriteLock \/ other_here is_locked p id i hs) then (SQLITE_BUSY, hs)
  else match e_fcntl e with
       | Some b => (lock_error b, hs)
       | None =>
           if negb (h_writable h) || bool_decide (other_process is_locked p i hs)
           then (SQLITE_BUSY, hs)
           else (SQLITE_OK, <[(p, id) := set_mode WriteLock h]> hs)
       end.

Definition do_call (hs : handles) (p : Z) (c : call) (e : env) : Z * handles :=
  match c with
  | OpenReadWrite id | OpenExclusive id | OpenReadOnly id => do_open hs p id c e
  | OpenDirectory id =>
      match hs !! (p, id), e_open_ro e with
      | Some h, Some _ => (SQLITE_OK, <[(p, id) := set_dir h]> hs)
      | _, _ => (SQLITE_CANTOPEN, hs)
      end
  | LockRead id => match hs !! (p, id) with Some h => do_read hs p id h e | None => (SQLITE_OK, hs) end
  | LockWrite id => match hs !! (p, id) with Some h => do_write hs p id h e | None => (SQLITE_OK, hs) end
  | Unlock id =>
      (SQLITE_OK, match hs !! (p, id) with
                  | Some h => <[(p, id) := set_mode NoLock h]> hs
                  | None => hs
                  end)
  | Close id => (SQLITE_OK, delete (p, id) hs)
  end.

Definition astep (a : astate) (ev : event) : Z * astate :=
  match ev with
  | E_start p l => (0, mkA (<[p := l]> (started a)) (opened a))
  | E_exit p => (0, mkA (delete p (started a)) (filter (fun x => x.1.1 <> p) (opened a)))
  | E_call p c e => let '(rc, hs) := do_call (opened a) p c e in (rc, mkA (started a) hs)
  end.

Fixpoint astep_all (a : astate) (evs : list event) : list Z * astate :=
  match evs with
  | [] => ([], a)
  | ev :: evs =>
      let '(rc, a') := astep a ev in
      let '(rcs, a'') := astep_all a' evs in (rc :: rcs, a'')
  end.

(** ** The rules for the clients and the system *)

(** Files are opened once, and used between opening and closing; a directory is opened
    at most once per file. *)
Definition entitled (a : astate) (ev : event) : Prop :=
  match ev with
  | E_start p _ => started a !! p = None
  | E_exit p => is_Some (started a !! p)
  | E_call p c _ =>
      is_Some (started a !! p) /\
      match c with
      | OpenReadWrite id | OpenExclusive id | OpenReadOnly id => opened a !! (p, id) = None
      | OpenDirectory id => match opened a !! (p, id) with Some h => h_dir h = false | None => False end
      | LockRead id | LockWrite id | Unlock id | Close id => is_Some (opened a !! (p, id))
      end
  end.

(** The system: an inode is a directory or not; [fstat] on a new descriptor does not
    fail; removing a lock does not fail; there is memory for the list of descriptors
    whose close has to wait. *)
Definition system_ok (is_dir : inode -> bool) (ev : event) : Prop :=
  match ev with
  | E_start _ _ | E_exit _ => True
  | E_call _ c e =>
      match c with
      | OpenReadWrite _ | OpenExclusive _ | OpenReadOnly _ =>
          e_fstat e = true /\ match opens c e with Some (i, _) => is_dir i = false | None => True end
      | OpenDirectory _ => match e_open_ro e with Some i => is_dir i = true | None => True end
      | LockRead _ | LockWrite _ => True
      | Unlock _ => e_fcntl e = None
      | Close _ => e_fcntl e = None /\ hd true (e_mallocs e) = true
      end
  end.

Fixpoint allowed (is_dir : inode -> bool) (a : astate) (evs : list event) : Prop :=
  match evs with
  | [] => True
  | ev :: evs =>
      entitled a ev /\ system_ok is_dir ev /\ allowed is_dir (astep a ev).2 evs
  end.

#[export] Instance entitled_dec a ev : Decision (entitled a ev).
Proof. destruct ev as [p l|p c e|p]; simpl; [apply _|destruct c; repeat case_match; apply _|apply _]. Defined.
#[export] Instance system_ok_dec is_dir ev : Decision (system_ok is_dir ev).
Proof. destruct ev as [p l|p c e|p]; simpl; [apply _|destruct c; repeat case_match; apply _|apply _]. Defined.
#[export] Instance allowed_dec is_dir a evs : Decision (allowed is_dir a evs).
Proof. revert a. induction evs; intros b; simpl; apply _. Defined.

(** ** Mutual exclusion *)

(** An open file that is write-locked is the only locked one of its inode. *)
Definition exclusive (hs : handles) : Prop :=
  forall k k' h h', hs !! k = Some h -> hs !! k' = Some h' -> k <> k' ->
    h_inode h = h_inode h' -> h_mode h = WriteLock -> h_mode h' = NoLock.

Lemma exclusive_delete hs k : exclusive hs -> exclusive (delete k hs).
Proof.
  intros H k1 k2 h1 h2 H1 H2. apply lookup_delete_Some in H1 as [_ H1], H2 as [_ H2].
  by apply H.
Qed.

Lemma exclusive_filter P `{forall x, Decision (P x)} hs :
  exclusive hs -> exclusive (filter P hs).
Proof.
  intros H0 k1 k2 h1 h2 H1 H2. apply map_lookup_filter_Some in H1 as [H1 _], H2 as [H2 _].
  by apply H0.
Qed.

(** A file may be put in a mode that its neighbours allow. *)
Lemma exclusive_insert hs k h :
  exclusive hs ->
  (forall k' h', hs !! k' = Some h' -> k' <> k -> h_inode h' = h_inode h ->
    (h_mode h = WriteLock -> h_mode h' = NoLock) /\ (h_mode h' = WriteLock -> h_mode h = NoLock)) ->
  exclusive (<[k := h]> hs).
Proof.
  intros H HN k1 k2 h1 h2 H1 H2 Hne Hi.
  apply lookup_insert_Some in H1 as [[<- <-]|[N1 H1]], H2 as [[<- <-]|[N2 H2]]; [done|..].
  - by apply (HN k2 h2).
  - by apply (HN k1 h1).
  - by apply (H k1 k2).
Qed.

Lemma exclusive_mode hs k h h' :
  exclusive hs -> hs !! k = Some h -> h_inode h' = h_inode h ->
  (h_mode h' = h_mode h \/ h_mode h' = NoLock \/ h_mode h' = ReadLock /\ h_mode h = WriteLock) ->
  exclusive (<[k := h']> hs).
Proof.
  intros H E Ei Em. apply exclusive_insert; [done|]. intros k2 h2 E2 N Ei2.
  assert (A1 : h_mode h = WriteLock -> h_mode h2 = NoLock) by (apply (H k k2); congruence).
  assert (A2 : h_mode h2 = WriteLock -> h_mode h = NoLock) by (apply (H k2 k); congruence).
  destruct Em as [->|[->|[-> Em]]]; [done|done|].
  rewrite (A1 Em). done.
Qed.

(** Nobody else in this process and in the others. *)
Lemma others_split (P : lock -> Prop) p id i hs k h :
  hs !! k = Some h -> k <> (p, id) -> h_inode h = i -> P (h_mode h) ->
  other_here P p id i hs \/ other_process P p i hs.
Proof.
  intros E N Ei HP. destruct (decide (k.1 = p)) as [Ep|Ep].
  - left. exists k, h. split; [done|]. split_and!; try done. intros E2. apply N.
    destruct k. simpl in *. congruence.
  - right. by exists k, h.
Qed.

Lemma do_call_exclusive hs p c e : exclusive hs ->
  match c with
  | OpenReadWrite id | OpenExclusive id | OpenReadOnly id => hs !! (p, id) = None
  | _ => True
  end -> exclusive (do_call hs p c e).2.
Proof.
  intros H HE.
  assert (HO : forall id i w, exclusive (<[(p, id) := mkH i w NoLock false]> hs))
    by (intros; by apply exclusive_insert).
  assert (HR : forall id h, hs !! (p, id) = Some h -> exclusive (do_read hs p id h e).2).
  { intros id h E. unfold do_read. case_bool_decide as B1; [done|].
    assert (HG : (h_mode h = NoLock -> ~ other_process is_write p (h_inode h) hs) ->
      exclusive (<[(p, id) := set_mode ReadLock h]> hs)).
    { intros HN. apply exclusive_insert; [done|]. simpl. intros k' h' E' N Ei.
      split; [done|]. intros Em.
      destruct (others_split is_write p id _ hs k' h' E' N Ei Em) as [C|C]; [done|].
      destruct (h_mode h) eqn:Eh; [by destruct (HN eq_refl)| |];
        specialize (H k' (p, id) h' h E' E N Ei Em); congruence. }
    case_bool_decide as B2.
    - apply HG. intros Em. destruct B2 as [B2|([q id'] & h' & E' & Eq & N & Ei & Em')];
        [congruence|]. intros (k2 & h2 & E2 & N2 & Ei2 & Em2). simpl in *. subst q.
      specialize (H k2 (p, id') h2 h' E2 E'). unfold is_read, is_write in *.
      assert (h_mode h' = NoLock); [|congruence]. apply H; [by intros ->|congruence|done].
    - destruct (e_fcntl e); [done|]. case_bool_decide as B3; [done|]. by apply HG. }
  assert (HW : forall id h, hs !! (p, id) = Some h -> exclusive (do_write hs p id h e).2).
  { intros id h E. unfold do_write. case_bool_decide as B1; [done|].
    destruct (e_fcntl e); [done|]. destruct (h_writable h); simpl; [|done].
    case_bool_decide as B2; [done|]. simpl. apply exclusive_insert; [done|]. simpl.
    intros k' h' E' N Ei.
    assert (Em : h_mode h' = NoLock); [|by rewrite Em].
    destruct (decide (h_mode h' = NoLock)) as [|Em]; [done|].
    destruct (others_split is_locked p id _ hs k' h' E' N Ei Em) as [C|C]; [|done].
    destruct B1. by right. }
  destruct c; simpl; try (unfold do_open; destruct (opens _ e) as [[i w]|]; [|done];
    by destruct ((0 <? n_open p i hs)%nat || enough_memory e); [apply HO|]).
  - destruct (hs !! (p, id)) as [h|] eqn:E; [|done]. destruct (e_open_ro e); [|done]. simpl.
    apply (exclusive_mode hs _ h); auto.
  - destruct (hs !! (p, id)) as [h|] eqn:E; [by apply HR|done].
  - destruct (hs !! (p, id)) as [h|] eqn:E; [by apply HW|done].
  - destruct (hs !! (p, id)) as [h|] eqn:E; [|done]. apply (exclusive_mode hs _ h); simpl; auto.
  - by apply exclusive_delete.
Qed.
