(* ===== verification/OsLockInv.v ===== *)
(** What the structures of [os.c] hold when certain files are open: the invariant that
    ties the inode tables, the descriptors and the kernel's locks to the abstract state. *)
From S2P Require Import Prelude OsFile OsLocks OsLockSpec.

(** * Counting locks *)

Lemma count_pos P hs : (0 < count_h P hs)%nat -> exists k h, hs !! k = Some h /\ P k h = true.
Proof.
  unfold count_h. intros H.
  destruct (map_choose (filter (fun x => P x.1 x.2 = true) hs)) as (k & h & E).
  - intros E. rewrite E, map_size_empty in H. lia.
  - apply map_lookup_filter_Some in E as [E1 E2]. eauto.
Qed.

Lemma of_inode_true p i k h : of_inode p i k h = true <-> k.1 = p /\ h_inode h = i.
Proof. unfold of_inode. by rewrite andb_true_iff, !bool_decide_eq_true. Qed.

Section modes.
Context (P : lock -> Prop) `{forall m, Decision (P m)}.

Lemma n_mode_true p i k h :
  of_inode p i k h && bool_decide (P (h_mode h)) = true <->
  (k.1 = p /\ h_inode h = i) /\ P (h_mode h).
Proof. by rewrite andb_true_iff, of_inode_true, bool_decide_eq_true. Qed.

(** The other files that are in a mode are those counted besides oneself. *)
Lemma n_mode_other p id h hs : hs !! (p, id) = Some h ->
  (other_here P p id (h_inode h) hs <->
   (Nat.b2n (bool_decide (P (h_mode h))) < n_mode P p (h_inode h) hs)%nat).
Proof.
  intros E. unfold n_mode. rewrite (count_remove _ hs (p, id) h E).
  assert (Eo : of_inode p (h_inode h) (p, id) h = true) by by apply of_inode_true.
  rewrite Eo. simpl. split.
  - intros (k & h' & E' & Ek & N & Ei & HP). enough (0 < count_h (fun k h0 => of_inode p (h_inode h) k h0
      && bool_decide (P (h_mode h0))) (delete (p, id) hs))%nat by lia.
    destruct (decide (count_h (fun k h0 => of_inode p (h_inode h) k h0
      && bool_decide (P (h_mode h0))) (delete (p, id) hs) = O)) as [C|C]; [|lia].
    exfalso. apply (count_none) with (k := k) (h := h') in C.
    + cbv beta in C. apply not_true_iff_false in C. apply C. by apply n_mode_true.
    + apply lookup_delete_Some. split; [|done]. intros <-. by apply N.
  - intros HC. destruct (count_pos (fun k h0 => of_inode p (h_inode h) k h0 && bool_decide (P (h_mode h0)))
      (delete (p, id) hs)) as ([q id'] & h' & E' & HP); [lia|].
    apply n_mode_true in HP as [[Ek Ei] HP]. simpl in Ek. subst q.
    apply lookup_delete_Some in E' as [N E'].
    exists (p, id'), h'. split; [done|]. split_and!; simpl; try done. congruence.
Qed.

Lemma n_mode_update p i q id h h' hs : hs !! (q, id) = Some h -> h_inode h' = h_inode h ->
  (Nat.b2n (bool_decide (q = p /\ h_inode h = i /\ P (h_mode h))) + n_mode P p i (<[(q, id) := h']> hs)
   = Nat.b2n (bool_decide (q = p /\ h_inode h = i /\ P (h_mode h'))) + n_mode P p i hs)%nat.
Proof.
  intros E Ei.
  assert (EB : forall h0, h_inode h0 = h_inode h ->
    bool_decide (q = p /\ h_inode h0 = i /\ P (h_mode h0)) =
    of_inode p i (q, id) h0 && bool_decide (P (h_mode h0))).
  { intros h0 E0. apply eq_bool_prop_intro. rewrite bool_decide_spec, Is_true_true, n_mode_true.
    simpl. tauto. }
  rewrite (EB h eq_refl).
  assert (EB' := EB h' Ei). rewrite Ei in EB'. rewrite EB'.
  exact (count_update (fun k h => of_inode p i k h && bool_decide (P (h_mode h))) hs _ _ h' E).
Qed.
End modes.

Lemma n_open_update p i q id h h' hs : hs !! (q, id) = Some h -> h_inode h' = h_inode h ->
  n_open p i (<[(q, id) := h']> hs) = n_open p i hs.
Proof.
  intros E Ei. unfold n_open.
  pose proof (count_update (of_inode p i) hs (q, id) h h' E) as HC.
  unfold of_inode in HC at 1 3. rewrite Ei in HC. lia.
Qed.

Lemma n_mode_le P `{forall m, Decision (P m)} p i hs : (n_mode P p i hs <= n_open p i hs)%nat.
Proof. apply count_le. intros k h _ HP. apply andb_true_iff in HP. tauto. Qed.

Lemma n_write_le p i hs : (n_write p i hs <= n_locked p i hs)%nat.
Proof.
  apply count_le. intros k h _. rewrite !n_mode_true. unfold is_write, is_locked.
  intros [? E]. split; [done|]. by rewrite E.
Qed.

Lemma n_open_pos p id h hs : hs !! (p, id) = Some h -> (0 < n_open p (h_inode h) hs)%nat.
Proof.
  intros E. unfold n_open. rewrite (count_remove _ hs (p, id) h E).
  replace (of_inode p (h_inode h) (p, id) h) with true by (symmetry; by apply of_inode_true).
  simpl. lia.
Qed.

(** A writer is alone. *)
Lemma exclusive_counts hs p i : exclusive hs ->
  (n_write p i hs = 0 /\ n_locked p i hs = n_read p i hs)%nat \/
  (n_write p i hs = 1 /\ n_locked p i hs = 1 /\ n_read p i hs = 0)%nat.
Proof.
  intros HX. destruct (decide (n_write p i hs = O)) as [E0|E0].
  - left. split; [done|]. apply count_ext. intros k h. rewrite !n_mode_true.
    split; intros [E [Hk Hm]]; (split; [done|]); (split; [done|]).
    + unfold is_read, is_locked in *. destruct (h_mode h) eqn:Em; [done|done|].
      apply count_none with (k := k) (h := h) in E0; [|done]. cbv beta in E0.
      apply not_true_iff_false in E0. destruct E0. by apply n_mode_true.
    + unfold is_read, is_locked in *. congruence.
  - right. destruct (count_pos (fun k h => of_inode p i k h && bool_decide (is_write (h_mode h))) hs)
      as (k & h & E & HP); [unfold n_mode in E0; lia|].
    apply n_mode_true in HP as [[Ek Ei] Em].
    assert (HR : forall P `{forall m, Decision (P m)}, ~ P NoLock ->
      n_mode P p i hs = Nat.b2n (bool_decide (P WriteLock))).
    { intros P ? HN. unfold n_mode. rewrite (count_remove _ hs k h E).
      replace (of_inode p i k h) with true by (symmetry; by apply of_inode_true).
      rewrite Em. simpl. rewrite (proj2 (count_none _ _)); [lia|].
      intros k' h' [N E']%lookup_delete_Some. apply not_true_iff_false. rewrite n_mode_true.
      intros [[Ek' Ei'] HP]. apply HN.
      rewrite <- (HX k k' h h' E E' N); [done|congruence|done]. }
    split_and!; rewrite HR; unfold is_write, is_locked, is_read; try congruence;
      by case_bool_decide.
Qed.

(** * What the structures count *)

Definition want_cnt (p : Z) (i : inode) (hs : handles) : Z :=
  if (0 <? n_write p i hs)%nat then -1 else Z.of_nat (n_locked p i hs).

Definition want_klock (p : Z) (i : inode) (hs : handles) : option ltype :=
  if (0 <? n_write p i hs)%nat then Some F_WRLCK
  else if (0 <? n_locked p i hs)%nat then Some F_RDLCK else None.

Definition lock_inode (k : lockKey) : inode := (lk_dev k, lk_ino k).
Definition open_inode (k : openKey) : inode := (ok_dev k, ok_ino k).
Definition lkey (p : Z) (i : inode) : lockKey := mkLockKey i.1 i.2 p.
Definition okey (i : inode) : openKey := mkOpenKey i.1 i.2.

Definition want_lock (p : Z) (hs : handles) (k : lockKey) : option lockInfo :=
  let i := lock_inode k in
  if bool_decide (lk_pid k = p) && (0 <? n_open p i hs)%nat
  then Some (mkLockInfo k (want_cnt p i hs) (Z.of_nat (n_open p i hs))) else None.

Definition want_open (p : Z) (hs : handles) (pd : inode -> list Z) (k : openKey) : option openCnt :=
  let i := open_inode k in
  if (0 <? n_open p i hs)%nat
  then Some (mkOpenCnt k (Z.of_nat (n_open p i hs)) (Z.of_nat (n_locked p i hs))
               (Z.of_nat (length (pd i))) (Some <$> pd i)) else None.

(** * Tables *)

Section tables.
Context {K V : Type} `{Countable K} (key : V -> K).

(** The table finds every structure there is by its key, and nothing else. *)
Definition tbl_ok (h : gmap K ptr) (s : gmap ptr V) : Prop :=
  forall k a, h !! k = Some a <-> exists v, s !! a = Some v /\ key v = k.

Definition view (h : gmap K ptr) (s : gmap ptr V) (k : K) : option V := h !! k ≫= fun a => s !! a.

Lemma view_some h s k v : tbl_ok h s -> view h s k = Some v ->
  exists a, h !! k = Some a /\ s !! a = Some v /\ key v = k.
Proof.
  intros T E. unfold view in E. destruct (h !! k) as [a|] eqn:Eh; [|done]. simpl in E.
  exists a. split_and!; [done|done|]. apply T in Eh as (v' & E' & <-). congruence.
Qed.

Lemma view_none h s k : tbl_ok h s -> view h s k = None -> h !! k = None.
Proof.
  intros T E. unfold view in E. destruct (h !! k) as [a|] eqn:Eh; [|done]. simpl in E.
  apply T in Eh as (v' & E' & _). congruence.
Qed.

Lemma tbl_inj h s k k' a : tbl_ok h s -> h !! k = Some a -> h !! k' = Some a -> k = k'.
Proof. intros T (v & E & <-)%T (v' & E' & <-)%T. congruence. Qed.

Lemma tbl_update h s k a v : tbl_ok h s -> h !! k = Some a -> key v = k ->
  tbl_ok h (<[a := v]> s) /\
  forall k', view h (<[a := v]> s) k' = if decide (k' = k) then Some v else view h s k'.
Proof.
  intros T E Ek. split.
  - intros k' a'. rewrite (T k' a'). destruct (decide (a' = a)) as [->|N].
    + rewrite lookup_insert_eq. apply T in E as (v0 & E0 & E1).
      split; intros (v' & E2 & E3); eexists; (split; [done|]); congruence.
    + by rewrite lookup_insert_ne.
  - intros k'. unfold view. case_decide as D.
    + subst. rewrite E. simpl. by rewrite lookup_insert_eq.
    + destruct (h !! k') as [a'|] eqn:E'; [|done]. simpl. apply lookup_insert_ne.
      intros <-. apply D. by apply (tbl_inj h s k' k a).
Qed.

Lemma tbl_new h s k a v : tbl_ok h s -> h !! k = None -> s !! a = None -> key v = k ->
  tbl_ok (<[k := a]> h) (<[a := v]> s) /\
  forall k', view (<[k := a]> h) (<[a := v]> s) k' = if decide (k' = k) then Some v else view h s k'.
Proof.
  intros T E Ea Ek.
  assert (N : forall k', h !! k' <> Some a) by (intros k' (v' & E' & _)%T; congruence).
  split.
  - intros k' a'. destruct (decide (a' = a)) as [->|Na].
    + rewrite lookup_insert_eq. split.
      * intros [[<- _]|[_ E']]%lookup_insert_Some; [eauto|by destruct (N k')].
      * intros (v' & [= <-] & <-). subst k. apply lookup_insert_eq.
    + rewrite (lookup_insert_ne s) by done. rewrite <- (T k' a').
      rewrite lookup_insert_Some. split; [intros [[_ ?]|[_ ?]]; congruence|].
      intros E'. right. split; [congruence|done].
  - intros k'. unfold view. case_decide as D.
    + subst k'. rewrite lookup_insert_eq. simpl. by rewrite lookup_insert_eq.
    + rewrite lookup_insert_ne by done. destruct (h !! k') as [a'|] eqn:E'; [|done]. simpl.
      apply lookup_insert_ne. intros <-. by apply (N k').
Qed.

Lemma tbl_delete h s k a : tbl_ok h s -> h !! k = Some a ->
  tbl_ok (delete k h) (delete a s) /\
  forall k', view (delete k h) (delete a s) k' = if decide (k' = k) then None else view h s k'.
Proof.
  intros T E. split.
  - intros k' a'. rewrite lookup_delete_Some. rewrite (T k' a'). split.
    + intros [N (v & E1 & E2)]. exists v. split; [|done]. apply lookup_delete_Some. split; [|done].
      intros <-. apply N. apply (tbl_inj h s k k' a); [done|done|]. apply T. eauto.
    + intros (v & [N E1]%lookup_delete_Some & E2). split; [|eauto]. intros <-.
      apply T in E as (v' & E3 & E4). assert (h !! k = Some a') by (apply T; eauto).
      assert (h !! k = Some a) by (apply T; eauto). congruence.
  - intros k'. unfold view. case_decide as D.
    + subst k'. by rewrite lookup_delete_eq.
    + rewrite lookup_delete_ne by done. destruct (h !! k') as [a'|] eqn:E'; [|done]. simpl.
      apply lookup_delete_ne. intros <-. apply D. by apply (tbl_inj h s k' k a).
Qed.

Lemma tbl_empty h s : tbl_ok h s -> (forall k, view h s k = None) -> h = ∅ /\ s = ∅.
Proof.
  intros T HV. assert (E : h = ∅) by (apply map_empty; intros k; by apply (view_none h s)).
  split; [done|]. apply map_empty. intros a. destruct (s !! a) as [v|] eqn:Ea; [|done].
  assert (E' : h !! key v = Some a) by (apply T; eauto). by rewrite E, lookup_empty in E'.
Qed.
End tables.

(** * Descriptors *)

(** What a descriptor is for. *)
Inductive user := U_base | U_file (id : ptr) | U_dir (id : ptr) | U_pend (i : inode).

(** Every open descriptor has exactly one use, and the file that its use asks for. *)
Record fds_ok (l : list (option kfd)) (U : Z -> user -> Prop) (K : Z -> user -> kfd -> Prop) : Prop := {
  fo_uniq n u u' : U n u -> U n u' -> u = u';
  fo_open n u : U n u -> exists k, fd_lookup n l = Some k /\ K n u k;
  fo_used n k : fd_lookup n l = Some k -> exists u, U n u
}.

Lemma fd_lookup_nat n l : fd_lookup (Z.of_nat n) l = mjoin (l !! n).
Proof. unfold fd_lookup. case_Zb; [lia|]. by rewrite Nat2Z.id. Qed.

Lemma fd_lookup_nonneg n l k : fd_lookup n l = Some k -> 0 <= n.
Proof. unfold fd_lookup. by case_Zb. Qed.

Lemma fd_alloc_lookup k l : forall n l', fd_alloc k l = (n, l') ->
  mjoin (l !! n) = None /\
  forall m, mjoin (l' !! m) = if decide (m = n) then Some k else mjoin (l !! m).
Proof.
  induction l as [|[x|] l IH]; simpl; intros n l' E.
  - injection E as <- <-. split; [done|]. by intros [|m].
  - destruct (fd_alloc k l) as [n1 l1] eqn:E1. injection E as <- <-.
    destruct (IH _ _ eq_refl) as [H1 H2]. split; [done|]. intros [|m]; [done|]. simpl.
    rewrite H2. repeat case_decide; try done; congruence.
  - injection E as <- <-. split; [done|]. by intros [|m].
Qed.

Lemma fd_alloc_spec k l n l' : fd_alloc k l = (n, l') ->
  fd_lookup (Z.of_nat n) l = None /\
  forall m, fd_lookup m l' = if decide (m = Z.of_nat n) then Some k else fd_lookup m l.
Proof.
  intros E. destruct (fd_alloc_lookup k l n l' E) as [H1 H2]. split; [by rewrite fd_lookup_nat|].
  intros m. unfold fd_lookup. case_Zb; [case_decide; [lia|done]|]. rewrite H2.
  repeat case_decide; try done; lia.
Qed.

Lemma fd_close_lookup n l m : 0 <= n ->
  fd_lookup m (<[Z.to_nat n := None]> l) = if decide (m = n) then None else fd_lookup m l.
Proof.
  intros Hn. unfold fd_lookup. case_Zb; [by case_decide|]. case_decide as D.
  - subst m. destruct (decide (Z.to_nat n < length l)%nat).
    + by rewrite list_lookup_insert_eq.
    + by rewrite list_insert_ge, lookup_ge_None_2 by lia.
  - rewrite list_lookup_insert_ne by lia. done.
Qed.

Section descriptors.
Context (l : list (option kfd)) (U : Z -> user -> Prop) (K : Z -> user -> kfd -> Prop).
Context (OK : fds_ok l U K).

Lemma fds_same (U' : Z -> user -> Prop) (K' : Z -> user -> kfd -> Prop) :
  (forall n u, U' n u <-> U n u) -> (forall n u k, U n u -> K n u k -> K' n u k) -> fds_ok l U' K'.
Proof.
  intros HU HK. split.
  - intros n u u'. rewrite !HU. apply (fo_uniq _ _ _ OK).
  - intros n u Hu. apply HU in Hu. destruct (fo_open _ _ _ OK n u Hu) as (k & E & Hk). eauto.
  - intros n k E. setoid_rewrite HU. by apply (fo_used _ _ _ OK n k).
Qed.

(** [open] *)
Lemma fds_add n l' u0 k0 (U' : Z -> user -> Prop) (K' : Z -> user -> kfd -> Prop) :
  fd_lookup n l = None ->
  (forall m, fd_lookup m l' = if decide (m = n) then Some k0 else fd_lookup m l) ->
  (forall m u, U' m u <-> U m u \/ m = n /\ u = u0) ->
  (forall m u k, U m u -> K m u k -> K' m u k) -> K' n u0 k0 -> fds_ok l' U' K'.
Proof.
  intros En El HU HK H0.
  assert (Hn : forall u, ~ U n u).
  { intros u Hu. destruct (fo_open _ _ _ OK n u Hu) as (k & E & _). congruence. }
  split.
  - intros m u u' [H1|[-> ->]]%HU [H2|[? ->]]%HU; subst; try done.
    + by apply (fo_uniq _ _ _ OK m).
    + by destruct (Hn u).
    + by destruct (Hn u').
  - intros m u [H1|[-> ->]]%HU.
    + destruct (fo_open _ _ _ OK m u H1) as (k & E & Hk). exists k. split; [|eauto].
      rewrite El. case_decide; [congruence|done].
    + exists k0. split; [|done]. rewrite El. by case_decide.
  - intros m k. rewrite El. case_decide as D.
    + intros _. exists u0. apply HU. by right.
    + intros E. destruct (fo_used _ _ _ OK m k E) as [u Hu]. exists u. apply HU. by left.
Qed.

(** [close] *)
Lemma fds_remove n u0 (U' : Z -> user -> Prop) (K' : Z -> user -> kfd -> Prop) :
  U n u0 -> (forall m u, U' m u <-> U m u /\ (m <> n \/ u <> u0)) ->
  (forall m u k, U' m u -> K m u k -> K' m u k) -> fds_ok (<[Z.to_nat n := None]> l) U' K'.
Proof.
  intros H0 HU HK.
  destruct (fo_open _ _ _ OK n u0 H0) as (k0 & E0 & _). apply fd_lookup_nonneg in E0.
  assert (Hn : forall m u, U' m u -> m <> n).
  { intros m u [H1 [H2|H2]]%HU ->; [done|]. apply H2. by apply (fo_uniq _ _ _ OK n). }
  split.
  - intros m u u' [H1 _]%HU [H2 _]%HU. by apply (fo_uniq _ _ _ OK m).
  - intros m u Hu. pose proof (Hn m u Hu). pose proof Hu as [Hu' _]%HU.
    destruct (fo_open _ _ _ OK m u Hu') as (k & E & Hk). exists k. split; [|eauto].
    rewrite fd_close_lookup by done. by case_decide.
  - intros m k. rewrite fd_close_lookup by done. case_decide as D; [done|]. intros E.
    destruct (fo_used _ _ _ OK m k E) as [u Hu]. exists u. apply HU. auto.
Qed.

(** The use of a descriptor changes. *)
Lemma fds_rename n u0 u1 (U' : Z -> user -> Prop) (K' : Z -> user -> kfd -> Prop) :
  U n u0 -> (forall m u, U' m u <-> U m u /\ (m <> n \/ u <> u0) \/ m = n /\ u = u1) ->
  (forall m u k, U m u -> m <> n \/ u <> u0 -> K m u k -> K' m u k) -> (forall k, K n u0 k -> K' n u1 k) -> fds_ok l U' K'.
Proof.
  intros H0 HU HK HK1.
  assert (Hn : forall m u, U' m u -> m = n -> u = u1).
  { intros m u [[H1 [H2|H2]]|[_ ->]]%HU ->; [done| |done]. destruct H2. by apply (fo_uniq _ _ _ OK n). }
  split.
  - intros m u u' H1 H2. destruct (decide (m = n)) as [->|N].
    + by rewrite (Hn n u), (Hn n u').
    + apply HU in H1 as [[H1 _]|[? _]]; [|done]. apply HU in H2 as [[H2 _]|[? _]]; [|done].
      by apply (fo_uniq _ _ _ OK m).
  - intros m u [[H1 H2]|[-> ->]]%HU.
    + destruct (fo_open _ _ _ OK m u H1) as (k & E & Hk). eauto.
    + destruct (fo_open _ _ _ OK n u0 H0) as (k & E & Hk). eauto.
  - intros m k E. destruct (fo_used _ _ _ OK m k E) as [u Hu].
    destruct (decide (m = n)) as [->|N].
    + exists u1. apply HU. by right.
    + exists u. apply HU. left. auto.
Qed.
End descriptors.

(** * The invariant *)

Section invariant.
Context (is_dir : inode -> bool) (p : Z) (base : list (option kfd)).

Definition uses (fl : gmap ptr OsFile) (hs : handles) (pd : inode -> list Z) (n : Z) (u : user) : Prop :=
  match u with
  | U_base => is_Some (fd_lookup n base)
  | U_file id => exists h f, hs !! (p, id) = Some h /\ fl !! id = Some f /\ fd f = n
  | U_dir id =>
      exists h f, hs !! (p, id) = Some h /\ fl !! id = Some f /\ h_dir h = true /\ dirfd f = n
  | U_pend i => n ∈ pd i
  end.

Definition kind (hs : handles) (n : Z) (u : user) (k : kfd) : Prop :=
  match u with
  | U_base => fd_lookup n base = Some k
  | U_file id => exists h, hs !! (p, id) = Some h /\ k = mkKfd (h_inode h) (h_writable h)
  | U_dir id => is_dir (k_inode k) = true
  | U_pend i => k_inode k = i
  end.

Definition file_ok (pr : proc) (id : ptr) (h : ahandle) : Prop :=
  exists f, files pr !! id = Some f /\
    pLock f = lockHash pr !! lkey p (h_inode h) /\ pOpen f = openHash pr !! okey (h_inode h) /\
    locked f = bool_decide (is_locked (h_mode h)) /\ (h_dir h = false -> dirfd f = -1).

Record proc_ok (hs : handles) (pd : inode -> list Z) (pr : proc) : Prop := {
  pk_mutex : inMutex pr = false;
  pk_locks : tbl_ok li_key (lockHash pr) (lockInfos pr);
  pk_opens : tbl_ok oc_key (openHash pr) (openCnts pr);
  pk_want_lock k : view (lockHash pr) (lockInfos pr) k = want_lock p hs k;
  pk_want_open k : view (openHash pr) (openCnts pr) k = want_open p hs pd k;
  pk_file id h : hs !! (p, id) = Some h -> file_ok pr id h;
  pk_pend i : n_locked p i hs = O -> pd i = [];
  pk_nodup i : NoDup (pd i);
  pk_fds : fds_ok (fds pr) (uses (files pr) hs pd) (kind hs)
}.
End invariant.

Definition locks_ok (kl : klocks) (hs : handles) : Prop :=
  forall q i, kl !! (i, q) = want_klock q i hs.

Definition no_dirs (is_dir : inode -> bool) (hs : handles) : Prop :=
  forall k h, hs !! k = Some h -> is_dir (h_inode h) = false.
