(* ===== verification/OsLockOps.v ===== *)
(** The operations of [os.c] on open files, one by one, against the machine of
    readers and writers: read locks and write locks. *)
From S2P Require Import Prelude OsFile OsLocks OsLockSpec OsLockInv.

(** * Running the code *)

Ltac lsimpl := cbn [w_proc w_locks w_env getpid fds lockHash openHash lockInfos openCnts files
  inMutex set_fds set_lockHash set_openHash set_lockInfos set_openCnts set_files set_inMutex
  pLock pOpen fd locked dirfd set_pLock set_pOpen set_fd set_locked set_dirfd li_key cnt li_nRef
  set_cnt set_li_nRef oc_key oc_nRef nLock nPending aPending set_oc_nRef set_nLock set_nPending
  set_aPending k_inode k_writable negb andb orb].

Section rules.
Context {A : Type} (C : W -> Prop) (w : W).

Lemma os_wp_pget (f : proc -> A) (Q : A -> W -> Prop) : Q (f (w_proc w)) w -> wp (pget f) Q C w.
Proof. done. Qed.
Lemma wp_eget (f : env -> A) (Q : A -> W -> Prop) : Q (f (w_env w)) w -> wp (eget f) Q C w.
Proof. done. Qed.
Lemma os_wp_mget (Q : W -> W -> Prop) : Q w w -> wp mget Q C w.
Proof. done. Qed.
Lemma os_wp_pupd f (Q : unit -> W -> Prop) :
  Q tt (mkW (getpid w) (f (w_proc w)) (w_locks w) (w_env w)) -> wp (pupd f) Q C w.
Proof. done. Qed.
Lemma os_wp_nonnull x a (Q : ptr -> W -> Prop) : x = Some a -> Q a w -> wp (nonnull x) Q C w.
Proof. by intros ->. Qed.
Lemma wp_the_lock a l (Q : lockInfo -> W -> Prop) :
  lockInfos (w_proc w) !! a = Some l -> Q l w -> wp (the_lock a) Q C w.
Proof. unfold wp, the_lock. by intros ->. Qed.
Lemma wp_the_open a l (Q : openCnt -> W -> Prop) :
  openCnts (w_proc w) !! a = Some l -> Q l w -> wp (the_open a) Q C w.
Proof. unfold wp, the_open. by intros ->. Qed.
Lemma wp_the_file id (Q : OsFile -> W -> Prop) :
  Q (default raw_file (files (w_proc w) !! id)) w -> wp (the_file id) Q C w.
Proof. done. Qed.
Lemma wp_upd_lock a l f (Q : unit -> W -> Prop) :
  lockInfos (w_proc w) !! a = Some l ->
  Q tt (mkW (getpid w) (set_lockInfos (<[a := f l]> (lockInfos (w_proc w))) (w_proc w))
          (w_locks w) (w_env w)) ->
  wp (upd_lock a f) Q C w.
Proof. intros E H. apply wp_bind. by apply (wp_the_lock a l). Qed.
Lemma wp_upd_open a l f (Q : unit -> W -> Prop) :
  openCnts (w_proc w) !! a = Some l ->
  Q tt (mkW (getpid w) (set_openCnts (<[a := f l]> (openCnts (w_proc w))) (w_proc w))
          (w_locks w) (w_env w)) ->
  wp (upd_open a f) Q C w.
Proof. intros E H. apply wp_bind. by apply (wp_the_open a l). Qed.
Lemma wp_upd_file id f (Q : unit -> W -> Prop) :
  Q tt (mkW (getpid w)
          (set_files (<[id := f (default raw_file (files (w_proc w) !! id))]> (files (w_proc w)))
             (w_proc w)) (w_locks w) (w_env w)) ->
  wp (upd_file id f) Q C w.
Proof. done. Qed.

Lemma os_wp_enter (Q : unit -> W -> Prop) : inMutex (w_proc w) = false ->
  Q tt (mkW (getpid w) (set_inMutex true (w_proc w)) (w_locks w) (w_env w)) ->
  wp sqliteOsEnterMutex Q C w.
Proof. intros E H. unfold wp, sqliteOsEnterMutex, mbind, M_bind, pget. by rewrite E. Qed.
Lemma wp_leave (Q : unit -> W -> Prop) : inMutex (w_proc w) = true ->
  Q tt (mkW (getpid w) (set_inMutex false (w_proc w)) (w_locks w) (w_env w)) ->
  wp sqliteOsLeaveMutex Q C w.
Proof. intros E H. unfold wp, sqliteOsLeaveMutex, mbind, M_bind, pget. by rewrite E. Qed.
End rules.

(** Steps that need no choice; lookups are found among the hypotheses. *)
Ltac lookup_tac :=
  lsimpl; first [eassumption | rewrite lookup_insert_eq; reflexivity
                | rewrite lookup_insert_ne by congruence; eassumption].

Ltac lstep :=
  match goal with
  | |- wp (_ ≫= _) _ _ _ => apply wp_bind
  | |- wp (mret _) _ _ _ => apply wp_ret
  | |- wp (pget _) _ _ _ => apply os_wp_pget
  | |- wp (eget _) _ _ _ => apply wp_eget
  | |- wp mget _ _ _ => apply os_wp_mget
  | |- wp (pupd _) _ _ _ => apply os_wp_pupd
  | |- wp (nonnull _) _ _ _ => eapply os_wp_nonnull; [eassumption|]
  | |- wp (the_lock _) _ _ _ => eapply wp_the_lock; [lookup_tac|]
  | |- wp (the_open _) _ _ _ => eapply wp_the_open; [lookup_tac|]
  | |- wp (the_file _) _ _ _ => apply wp_the_file
  | |- wp (upd_lock _ _) _ _ _ => eapply wp_upd_lock; [lookup_tac|]
  | |- wp (upd_open _ _) _ _ _ => eapply wp_upd_open; [lookup_tac|]
  | |- wp (upd_file _ _) _ _ _ => apply wp_upd_file
  | |- wp sqliteOsEnterMutex _ _ _ => apply os_wp_enter; [lsimpl; done|]
  | |- wp sqliteOsLeaveMutex _ _ _ => apply wp_leave; [lsimpl; done|]
  end.
Ltac found :=
  repeat match goal with
  | |- context [default _ (<[?k := ?x]> ?m !! ?k)] => rewrite (lookup_insert_eq m k x)
  | E : ?m !! ?k = Some _ |- context [default _ (?m !! ?k)] => rewrite E
  | |- context [default ?d (Some ?x)] => change (default d (Some x)) with x
  end.
Ltac lsteps := repeat (lstep; lsimpl; found; lsimpl).

(** The state as one record. *)
Ltac flat :=
  unfold set_fds, set_lockHash, set_openHash, set_lockInfos, set_openCnts, set_files, set_inMutex,
    set_cnt, set_li_nRef, set_oc_nRef, set_nLock, set_nPending, set_aPending; lsimpl.

(** * Counting at other inodes *)

Definition same_counts (q : Z) (j : inode) (hs hs' : handles) : Prop :=
  n_open q j hs' = n_open q j hs /\ n_write q j hs' = n_write q j hs /\
  n_locked q j hs' = n_locked q j hs.

Definition agree_off (p : Z) (i : inode) (hs hs' : handles) : Prop :=
  forall q j, (q, j) <> (p, i) -> same_counts q j hs hs'.

Lemma of_inode_off p i q j id h : (q, j) <> (p, i) -> h_inode h = i -> of_inode q j (p, id) h = false.
Proof.
  intros N E. apply not_true_iff_false. rewrite of_inode_true. simpl. intros [-> E2]. congruence.
Qed.

Lemma agree_update p id h h' hs : hs !! (p, id) = Some h -> h_inode h' = h_inode h ->
  agree_off p (h_inode h) hs (<[(p, id) := h']> hs).
Proof.
  intros E Ei q j N.
  assert (HC : forall P, (forall k h, of_inode q j k h = false -> P k h = false) ->
    count_h P (<[(p, id) := h']> hs) = count_h P hs).
  { intros P HP. pose proof (count_update P hs (p, id) h h' E) as HC.
    rewrite !HP in HC by by apply (of_inode_off p (h_inode h)). done. }
  split_and!; apply HC; intros k0 h0 H0; by rewrite ?H0.
Qed.

Lemma agree_new p id h hs : hs !! (p, id) = None -> agree_off p (h_inode h) hs (<[(p, id) := h]> hs).
Proof.
  intros E q j N.
  assert (HC : forall P, (forall k h, of_inode q j k h = false -> P k h = false) ->
    count_h P (<[(p, id) := h]> hs) = count_h P hs).
  { intros P HP. rewrite count_new by done. by rewrite HP by by apply (of_inode_off p (h_inode h)). }
  split_and!; apply HC; intros k0 h0 H0; by rewrite ?H0.
Qed.

Lemma agree_delete p id h hs : hs !! (p, id) = Some h -> agree_off p (h_inode h) hs (delete (p, id) hs).
Proof.
  intros E q j N.
  assert (HC : forall P, (forall k h, of_inode q j k h = false -> P k h = false) ->
    count_h P (delete (p, id) hs) = count_h P hs).
  { intros P HP. rewrite (count_remove P hs (p, id) h E).
    by rewrite HP by by apply (of_inode_off p (h_inode h)). }
  split_and!; apply HC; intros k0 h0 H0; by rewrite ?H0.
Qed.

Lemma want_klock_same q j hs hs' : same_counts q j hs hs' -> want_klock q j hs' = want_klock q j hs.
Proof. intros (E1 & E2 & E3). unfold want_klock. by rewrite E2, E3. Qed.

(** The kernel's locks after a change at one inode of one process. *)
Lemma locks_change p i kl kl' hs hs' :
  locks_ok kl hs -> agree_off p i hs hs' ->
  (forall k, k <> (i, p) -> kl' !! k = kl !! k) -> kl' !! (i, p) = want_klock p i hs' ->
  locks_ok kl' hs'.
Proof.
  intros HL HA HK HI q j. destruct (decide ((q, j) = (p, i))) as [[= -> ->]|N]; [done|].
  rewrite HK by congruence. rewrite (want_klock_same q j hs hs'); [apply HL|by apply HA].
Qed.

Lemma locks_insert p i kl t hs hs' : locks_ok kl hs -> agree_off p i hs hs' ->
  want_klock p i hs' = Some t -> locks_ok (<[(i, p) := t]> kl) hs'.
Proof.
  intros HL HA E. apply (locks_change p i kl _ hs); try done.
  - intros k N. by apply lookup_insert_ne.
  - by rewrite lookup_insert_eq.
Qed.

Lemma locks_delete p i kl hs hs' : locks_ok kl hs -> agree_off p i hs hs' ->
  want_klock p i hs' = None -> locks_ok (delete (i, p) kl) hs'.
Proof.
  intros HL HA E. apply (locks_change p i kl _ hs); try done.
  - intros k N. by apply lookup_delete_ne.
  - by rewrite lookup_delete_eq.
Qed.

Lemma locks_keep p i kl hs hs' : locks_ok kl hs -> agree_off p i hs hs' ->
  want_klock p i hs' = want_klock p i hs -> locks_ok kl hs'.
Proof. intros HL HA E. apply (locks_change p i kl _ hs); try done. rewrite E. apply HL. Qed.

(** * One's own file among the counted *)

Lemma own_write m : Nat.b2n (bool_decide (is_write m)) = match m with WriteLock => 1%nat | _ => O end.
Proof. by destruct m. Qed.
Lemma own_read m : Nat.b2n (bool_decide (is_read m)) = match m with ReadLock => 1%nat | _ => O end.
Proof. by destruct m. Qed.
Lemma own_locked m : Nat.b2n (bool_decide (is_locked m)) = match m with NoLock => O | _ => 1%nat end.
Proof. by destruct m. Qed.

Section own.
Context (p : Z) (id : ptr) (h : ahandle) (hs : handles) (E : hs !! (p, id) = Some h).

Lemma n_mode_own P `{forall m, Decision (P m)} h' : h_inode h' = h_inode h ->
  (Nat.b2n (bool_decide (P (h_mode h))) + n_mode P p (h_inode h) (<[(p, id) := h']> hs)
   = Nat.b2n (bool_decide (P (h_mode h'))) + n_mode P p (h_inode h) hs)%nat.
Proof.
  intros Ei. pose proof (n_mode_update P p (h_inode h) p id h h' hs E Ei) as HC.
  assert (EB : forall m, bool_decide (p = p /\ h_inode h = h_inode h /\ P m) = bool_decide (P m))
    by (intros m; apply bool_decide_ext; tauto).
  by rewrite !EB in HC.
Qed.

(** All counts of the inode of a file, before and after its mode changes. *)
Lemma counts_own h' : h_inode h' = h_inode h ->
  let w m := match m with WriteLock => 1%nat | _ => O end in
  let r m := match m with ReadLock => 1%nat | _ => O end in
  let l m := match m with NoLock => O | _ => 1%nat end in
  let i := h_inode h in let hs' := <[(p, id) := h']> hs in
  (w (h_mode h) + n_write p i hs' = w (h_mode h') + n_write p i hs /\
   r (h_mode h) + n_read p i hs' = r (h_mode h') + n_read p i hs /\
   l (h_mode h) + n_locked p i hs' = l (h_mode h') + n_locked p i hs /\
   w (h_mode h) <= n_write p i hs /\ r (h_mode h) <= n_read p i hs /\
   l (h_mode h) <= n_locked p i hs /\ n_locked p i hs <= n_open p i hs)%nat.
Proof.
  intros Ei. simpl.
  pose proof (n_mode_own is_write h' Ei) as H1. pose proof (n_mode_own is_read h' Ei) as H2.
  pose proof (n_mode_own is_locked h' Ei) as H3.
  rewrite !own_write in H1. rewrite !own_read in H2. rewrite !own_locked in H3.
  assert (HP : forall P `{forall m, Decision (P m)},
    (Nat.b2n (bool_decide (P (h_mode h))) <= n_mode P p (h_inode h) hs)%nat).
  { intros P ?. unfold n_mode. rewrite (count_remove _ hs (p, id) h E).
    replace (of_inode p (h_inode h) (p, id) h) with true by (symmetry; by apply of_inode_true).
    simpl. lia. }
  pose proof (HP is_write _) as H4. pose proof (HP is_read _) as H5. pose proof (HP is_locked _) as H6.
  rewrite own_write in H4. rewrite own_read in H5. rewrite own_locked in H6.
  pose proof (n_mode_le is_locked p (h_inode h) hs). split_and!; done.
Qed.

Lemma other_here_write : other_here is_write p id (h_inode h) hs <->
  (match h_mode h with WriteLock => 1 | _ => 0 end < n_write p (h_inode h) hs)%nat.
Proof. by rewrite (n_mode_other is_write p id h hs E), own_write. Qed.
Lemma other_here_read : other_here is_read p id (h_inode h) hs <->
  (match h_mode h with ReadLock => 1 | _ => 0 end < n_read p (h_inode h) hs)%nat.
Proof. by rewrite (n_mode_other is_read p id h hs E), own_read. Qed.
Lemma other_here_locked : other_here is_locked p id (h_inode h) hs <->
  (match h_mode h with NoLock => 0 | _ => 1 end < n_locked p (h_inode h) hs)%nat.
Proof. by rewrite (n_mode_other is_locked p id h hs E), own_locked. Qed.
End own.

(** What the kernel sees of the other processes. *)
Lemma want_klock_write q j hs : exclusive hs ->
  (want_klock q j hs = Some F_WRLCK <-> exists k h, hs !! k = Some h /\ k.1 = q /\ h_inode h = j /\ h_mode h = WriteLock).
Proof.
  intros HX. unfold want_klock. split.
  - case_match eqn:E; [|by case_match]. intros _. apply Nat.ltb_lt in E.
    destruct (count_pos (fun k h => of_inode q j k h && bool_decide (is_write (h_mode h))) hs E)
      as (k & h & E1 & E2).
    apply n_mode_true in E2 as [[E2 E3] E4]. eauto 10.
  - intros ([q' id] & h & E & E1 & <- & E3). simpl in E1. subst q'.
    destruct (counts_own q id h hs E h eq_refl) as (_ & _ & _ & H1 & _). rewrite E3 in H1.
    rewrite (proj2 (Nat.ltb_lt _ _)); [done|lia].
Qed.

Lemma want_klock_locked q j hs :
  (is_Some (want_klock q j hs) <-> exists k h, hs !! k = Some h /\ k.1 = q /\ h_inode h = j /\ h_mode h <> NoLock).
Proof.
  unfold want_klock. split.
  - intros HS. assert (E : (0 < n_locked q j hs)%nat).
    { destruct (Nat.ltb_spec 0 (n_locked q j hs)) as [|H0]; [done|].
      destruct (Nat.ltb_spec 0 (n_write q j hs)) as [H1|]; [|by destruct HS].
      pose proof (n_write_le q j hs). lia. }
    destruct (count_pos (fun k h => of_inode q j k h && bool_decide (is_locked (h_mode h))) hs E)
      as (k & h & E1 & E2).
    apply n_mode_true in E2 as [[E2 E3] E4]. eauto 10.
  - intros ([q' id] & h & E & E1 & <- & E3). simpl in E1. subst q'.
    destruct (counts_own q id h hs E h eq_refl) as (_ & _ & _ & _ & _ & H1 & _).
    destruct (0 <? n_write q (h_inode h) hs)%nat; [done|].
    rewrite (proj2 (Nat.ltb_lt _ _)); [done|]. destruct (h_mode h); [done|lia..].
Qed.

Lemma conflicts_spec i p t kl hs : locks_ok kl hs -> exclusive hs ->
  (conflicts i p t kl <->
   match t with F_RDLCK => other_process is_write p i hs | F_WRLCK => other_process is_locked p i hs end).
Proof.
  intros HL HX. unfold conflicts, other_process, map_Exists. destruct t; split.
  - intros ([j q] & t & E & Ej & N & [?|Et]); [done|]. simpl in *. subst j t.
    rewrite HL in E. apply want_klock_write in E as (k & h & E & Ek & Ei & Em); [|done].
    exists k, h. split; [done|]. split_and!; congruence.
  - intros (k & h & E & N & Ei & Em). exists (i, k.1), F_WRLCK.
    split; [|simpl; auto]. rewrite HL. apply want_klock_write; eauto 10.
  - intros ([j q] & t & E & Ej & N & _). simpl in *. subst j. rewrite HL in E.
    destruct (proj1 (want_klock_locked q i hs)) as (k & h & E1 & E2 & E3 & E4); [by rewrite E|].
    exists k, h. split; [done|]. split_and!; congruence.
  - intros (k & h & E & N & Ei & Em).
    destruct (proj2 (want_klock_locked k.1 i hs)) as [t Et]; [eauto 10|].
    exists (i, k.1), t. split; [by rewrite HL|]. simpl; auto.
Qed.

(** * Changing a process *)

Section process.
Context (is_dir : inode -> bool) (p : Z) (base : list (option kfd)).

(** A change that leaves the other inodes alone. *)
Lemma proc_change i hs hs' pd pd' pr pr' :
  proc_ok is_dir p base hs pd pr -> agree_off p i hs hs' ->
  inMutex pr' = false ->
  tbl_ok li_key (lockHash pr') (lockInfos pr') ->
  (forall k, view (lockHash pr') (lockInfos pr') k =
     if decide (k = lkey p i) then want_lock p hs' k else view (lockHash pr) (lockInfos pr) k) ->
  tbl_ok oc_key (openHash pr') (openCnts pr') ->
  (forall k, view (openHash pr') (openCnts pr') k =
     if decide (k = okey i) then want_open p hs' pd' k else view (openHash pr) (openCnts pr) k) ->
  (forall id h, hs' !! (p, id) = Some h -> file_ok p pr' id h) ->
  (forall j, j <> i -> pd' j = pd j) ->
  (n_locked p i hs' = O -> pd' i = []) -> NoDup (pd' i) ->
  fds_ok (fds pr') (uses p base (files pr') hs' pd') (kind is_dir p base hs') ->
  proc_ok is_dir p base hs' pd' pr'.
Proof.
  intros OK HA M1 T1 V1 T2 V2 HF HP HP1 HP2 HU. constructor; try done.
  - intros k. rewrite V1. case_decide as D; [done|].
    rewrite (pk_want_lock _ _ _ _ _ _ OK). unfold want_lock.
    case_bool_decide as B; [|done]. destruct k as [d n q]. simpl in *. subst q.
    destruct (HA p (d, n)) as (E1 & E2 & E3);
      [intros [= E]; apply D; unfold lkey; by rewrite <- E|].
    unfold lock_inode, want_cnt. simpl. by rewrite E1, E2, E3.
  - intros k. rewrite V2. case_decide as D; [done|].
    rewrite (pk_want_open _ _ _ _ _ _ OK). unfold want_open. destruct k as [d n]. simpl in *.
    assert (N : (d, n) <> i) by (intros E; apply D; unfold okey; by rewrite <- E).
    destruct (HA p (d, n)) as (E1 & E2 & E3); [congruence|].
    unfold open_inode. simpl. by rewrite E1, E3, HP.
  - intros j Hj. destruct (decide (j = i)) as [->|N]; [by apply HP1|].
    rewrite HP by done. apply (pk_pend _ _ _ _ _ _ OK). destruct (HA p j) as (_ & _ & E); congruence.
  - intros j. destruct (decide (j = i)) as [->|N]; [done|].
    rewrite HP by done. apply (pk_nodup _ _ _ _ _ _ OK).
Qed.

(** The structures of an open file. *)
Lemma proc_located hs pd pr id h : proc_ok is_dir p base hs pd pr -> hs !! (p, id) = Some h ->
  let i := h_inode h in
  exists f la oa,
    files pr !! id = Some f /\ pLock f = Some la /\ pOpen f = Some oa /\
    locked f = bool_decide (is_locked (h_mode h)) /\ (h_dir h = false -> dirfd f = -1) /\
    lockHash pr !! lkey p i = Some la /\
    lockInfos pr !! la = Some (mkLockInfo (lkey p i) (want_cnt p i hs) (Z.of_nat (n_open p i hs))) /\
    openHash pr !! okey i = Some oa /\
    openCnts pr !! oa = Some (mkOpenCnt (okey i) (Z.of_nat (n_open p i hs))
      (Z.of_nat (n_locked p i hs)) (Z.of_nat (length (pd i))) (Some <$> pd i)).
Proof.
  intros OK E i. pose proof (n_open_pos p id h hs E) as HN. fold i in HN.
  destruct (pk_file _ _ _ _ _ _ OK id h E) as (f & Ef & E1 & E2 & E3 & E4).
  pose proof (pk_want_lock _ _ _ _ _ _ OK (lkey p i)) as V1.
  pose proof (pk_want_open _ _ _ _ _ _ OK (okey i)) as V2.
  assert (L1 : lock_inode (lkey p i) = i) by (unfold lock_inode; by destruct i).
  assert (L2 : open_inode (okey i) = i) by (unfold open_inode; by destruct i).
  unfold want_lock in V1. unfold want_open in V2. cbv zeta in V1, V2. rewrite L1 in V1. rewrite L2 in V2.
  rewrite bool_decide_true in V1 by done. rewrite (proj2 (Nat.ltb_lt _ _) HN) in V1, V2. simpl in V1.
  apply (view_some li_key) in V1 as (la & A1 & A2 & _); [|by apply (pk_locks _ _ _ _ _ _ OK)].
  apply (view_some oc_key) in V2 as (oa & B1 & B2 & _); [|by apply (pk_opens _ _ _ _ _ _ OK)].
  exists f, la, oa. fold i in E1, E2. split_and!; try done; congruence.
Qed.

Lemma want_lock_at i hs : (0 < n_open p i hs)%nat ->
  want_lock p hs (lkey p i) = Some (mkLockInfo (lkey p i) (want_cnt p i hs) (Z.of_nat (n_open p i hs))).
Proof.
  intros HN. unfold want_lock. cbv zeta.
  replace (lock_inode (lkey p i)) with i by (unfold lock_inode; by destruct i).
  rewrite bool_decide_true by done. by rewrite (proj2 (Nat.ltb_lt _ _) HN).
Qed.

Lemma want_open_at i hs pd : (0 < n_open p i hs)%nat ->
  want_open p hs pd (okey i) = Some (mkOpenCnt (okey i) (Z.of_nat (n_open p i hs))
    (Z.of_nat (n_locked p i hs)) (Z.of_nat (length (pd i))) (Some <$> pd i)).
Proof.
  intros HN. unfold want_open. cbv zeta.
  replace (open_inode (okey i)) with i by (unfold open_inode; by destruct i).
  by rewrite (proj2 (Nat.ltb_lt _ _) HN).
Qed.

(** A file changes its mode: the counters follow; descriptors that wait may be closed. *)
Lemma proc_mode hs pd pd' pr fds' id h m f la oa : let i := h_inode h in
  let hs' := <[(p, id) := set_mode m h]> hs in
  proc_ok is_dir p base hs pd pr -> hs !! (p, id) = Some h ->
  files pr !! id = Some f -> lockHash pr !! lkey p i = Some la -> openHash pr !! okey i = Some oa ->
  (forall j, j <> i -> pd' j = pd j) -> (n_locked p i hs' = O -> pd' i = []) -> NoDup (pd' i) ->
  fds_ok fds' (uses p base (files pr) hs pd') (kind is_dir p base hs) ->
  proc_ok is_dir p base hs' pd'
    (mkProc fds' (lockHash pr) (openHash pr)
       (<[la := mkLockInfo (lkey p i) (want_cnt p i hs') (Z.of_nat (n_open p i hs))]> (lockInfos pr))
       (<[oa := mkOpenCnt (okey i) (Z.of_nat (n_open p i hs)) (Z.of_nat (n_locked p i hs'))
                  (Z.of_nat (length (pd' i))) (Some <$> pd' i)]> (openCnts pr))
       (<[id := set_locked (bool_decide (is_locked m)) f]> (files pr)) false).
Proof.
  intros i hs' OK E Ef El Eo HP HP1 HP2 HF.
  assert (En : n_open p i hs' = n_open p i hs) by by apply (n_open_update p i p id h).
  pose proof (n_open_pos p id h hs E) as HN. fold i in HN.
  destruct (tbl_update li_key (lockHash pr) (lockInfos pr) (lkey p i) la
    (mkLockInfo (lkey p i) (want_cnt p i hs') (Z.of_nat (n_open p i hs)))) as [T1 V1];
    [by apply (pk_locks _ _ _ _ _ _ OK)|done|done|].
  destruct (tbl_update oc_key (openHash pr) (openCnts pr) (okey i) oa
    (mkOpenCnt (okey i) (Z.of_nat (n_open p i hs)) (Z.of_nat (n_locked p i hs'))
      (Z.of_nat (length (pd' i))) (Some <$> pd' i))) as [T2 V2];
    [by apply (pk_opens _ _ _ _ _ _ OK)|done|done|].
  apply (proc_change i hs hs' pd pd' pr); try done.
  - by apply agree_update.
  - simpl. intros k. rewrite V1. case_decide as D; [|done]. subst k.
    rewrite want_lock_at by lia. by rewrite En.
  - simpl. intros k. rewrite V2. case_decide as D; [|done]. subst k.
    rewrite want_open_at by lia. by rewrite En.
  - intros id' h' E'. unfold hs' in E'. unfold file_ok. simpl.
    apply lookup_insert_Some in E' as [[[= <-] <-]|[N E']].
    + destruct (pk_file _ _ _ _ _ _ OK id h E) as (f' & Ef' & E1 & E2 & E3 & E4).
      rewrite Ef in Ef'. injection Ef' as <-. eexists. rewrite lookup_insert_eq.
      split; [done|]. simpl. auto.
    + rewrite lookup_insert_ne by congruence. by apply (pk_file _ _ _ _ _ _ OK).
  - simpl. eapply fds_same; [exact HF|..].
    + intros n [|id'|id'|j]; simpl; try done; unfold hs';
        (destruct (decide (id' = id)) as [->|N];
         [rewrite !lookup_insert_eq, E, Ef|by rewrite !lookup_insert_ne by congruence]);
        split; intros (h' & f' & [= <-] & [= <-] & H'); by do 2 eexists.
    + intros n [|id'|id'|j] k; simpl; try done. intros _ (h' & E' & ->). unfold hs'.
      destruct (decide (id' = id)) as [->|N].
      * rewrite lookup_insert_eq. rewrite E in E'. injection E' as <-. by eexists.
      * rewrite lookup_insert_ne by congruence. eauto.
Qed.
End process.

(** * Locks *)

Lemma want_cnt_0 p i hs : n_write p i hs = O -> want_cnt p i hs = Z.of_nat (n_locked p i hs).
Proof. unfold want_cnt. by intros ->. Qed.
Lemma want_cnt_1 p i hs : n_write p i hs = 1%nat -> want_cnt p i hs = -1.
Proof. unfold want_cnt. by intros ->. Qed.

Lemma want_klock_r p i hs : n_write p i hs = O -> (0 < n_locked p i hs)%nat ->
  want_klock p i hs = Some F_RDLCK.
Proof. unfold want_klock. intros -> H. simpl. by rewrite (proj2 (Nat.ltb_lt _ _) H). Qed.
Lemma want_klock_w p i hs : n_write p i hs = 1%nat -> want_klock p i hs = Some F_WRLCK.
Proof. unfold want_klock. by intros ->. Qed.
Lemma want_klock_u p i hs : n_write p i hs = O -> n_locked p i hs = O -> want_klock p i hs = None.
Proof. unfold want_klock. by intros -> ->. Qed.

Lemma proc_eq is_dir p base hs pd pr pr' :
  proc_ok is_dir p base hs pd pr -> pr = pr' -> proc_ok is_dir p base hs pd pr'.
Proof. by intros ? <-. Qed.

Lemma unmutex pr : inMutex pr = false -> set_inMutex false (set_inMutex true pr) = pr.
Proof. destruct pr as [? ? ? ? ? ? []]; [done|by intros _]. Qed.

(** The result of a call is the one of the machine, and the state still represents it. *)
Definition result_ok (is_dir : inode -> bool) (p : Z) (base : list (option kfd)) (r : Z * handles)
    (rc : Z) (w : W) : Prop :=
  rc = r.1 /\ exists pd, proc_ok is_dir p base r.2 pd (w_proc w) /\ locks_ok (w_locks w) r.2.

Lemma set_locked_id f b : locked f = b -> set_locked b f = f.
Proof. destruct f. by simpl; intros ->. Qed.

(** Two processes whose structures differ in a counter. *)
Ltac same_proc :=
  unfold set_inMutex, set_openCnts, set_files, set_lockInfos, set_nLock, set_cnt; lsimpl;
  f_equal;
  match goal with
  | |- <[_ := _]> _ = <[_ := _]> _ => f_equal; f_equal
  | H : files ?s !! ?a = _ |- files ?s = <[?a := _]> _ =>
      symmetry; apply insert_id; rewrite H; f_equal; symmetry; apply set_locked_id; assumption
  | H : ?s !! ?a = _ |- ?s = <[?a := _]> ?s =>
      symmetry; apply insert_id; rewrite H; f_equal; f_equal
  end.

Ltac counters :=
  same_proc; repeat rewrite want_cnt_0 by lia; repeat rewrite want_cnt_1 by lia; try lia.

Section calls.
Context (is_dir : inode -> bool) (p : Z) (base : list (option kfd)).
Context (hs : handles) (pd : inode -> list Z) (pr : proc) (kl : klocks) (e : env).
Context (OK : proc_ok is_dir p base hs pd pr) (KL : locks_ok kl hs) (HX : exclusive hs).

Lemma proc_fd id h f : hs !! (p, id) = Some h -> files pr !! id = Some f ->
  fd_lookup (fd f) (fds pr) = Some (mkKfd (h_inode h) (h_writable h)).
Proof.
  intros E Ef. destruct (fo_open _ _ _ (pk_fds _ _ _ _ _ _ OK) (fd f) (U_file id)) as (k & Ek & h' & E' & Hk).
  - simpl. eauto.
  - congruence.
Qed.

Lemma result_same r rc w : r = (rc, hs) -> w_proc w = pr -> w_locks w = kl ->
  result_ok is_dir p base r rc w.
Proof. intros -> E1 E2. split; [done|]. exists pd. simpl. rewrite E1, E2. auto. Qed.

(** [fcntl] on an open file. *)
Lemma wp_setlk w n k t Q : fd_lookup n (fds (w_proc w)) = Some k -> w_locks w = kl -> getpid w = p ->
  (forall b, e_fcntl (w_env w) = Some b -> Q (Some b) w) ->
  (e_fcntl (w_env w) = None ->
   match t with
   | None => Q None (mkW (getpid w) (w_proc w) (delete (k_inode k, p) kl) (w_env w))
   | Some F_RDLCK =>
       if bool_decide (other_process is_write p (k_inode k) hs) then Q (Some false) w
       else Q None (mkW (getpid w) (w_proc w) (<[(k_inode k, p) := F_RDLCK]> kl) (w_env w))
   | Some F_WRLCK =>
       if negb (k_writable k) || bool_decide (other_process is_locked p (k_inode k) hs)
       then Q (Some false) w
       else Q None (mkW (getpid w) (w_proc w) (<[(k_inode k, p) := F_WRLCK]> kl) (w_env w))
   end) ->
  wp (sys_setlk n t) Q (fun _ => False) w.
Proof.
  intros En El Ep H1 H2. unfold wp, sys_setlk. rewrite En, El, Ep.
  destruct (e_fcntl (w_env w)) as [b|]; [by apply H1|]. specialize (H2 eq_refl). rewrite Ep in H2.
  destruct t as [[|]|]; [..|done].
  - rewrite bool_decide_false by done. simpl.
    rewrite (bool_decide_ext _ _ (conflicts_spec (k_inode k) p F_RDLCK kl hs KL HX)).
    by case_bool_decide.
  - rewrite bool_decide_true by done. destruct (k_writable k); simpl in *; [|done].
    rewrite (bool_decide_ext _ _ (conflicts_spec (k_inode k) p F_WRLCK kl hs KL HX)).
    by case_bool_decide.
Qed.

(** The lock is granted: [w] has the counters of the new mode. *)
Lemma grant_ok id h m f la oa w : let i := h_inode h in
  let hs' := <[(p, id) := set_mode m h]> hs in
  hs !! (p, id) = Some h -> m <> NoLock ->
  files pr !! id = Some f -> lockHash pr !! lkey p i = Some la -> openHash pr !! okey i = Some oa ->
  w_proc w = mkProc (fds pr) (lockHash pr) (openHash pr)
     (<[la := mkLockInfo (lkey p i) (want_cnt p i hs') (Z.of_nat (n_open p i hs))]> (lockInfos pr))
     (<[oa := mkOpenCnt (okey i) (Z.of_nat (n_open p i hs)) (Z.of_nat (n_locked p i hs'))
                (Z.of_nat (length (pd i))) (Some <$> pd i)]> (openCnts pr))
     (<[id := set_locked true f]> (files pr)) false ->
  locks_ok (w_locks w) hs' ->
  result_ok is_dir p base (SQLITE_OK, hs') SQLITE_OK w.
Proof.
  intros i hs' E Em Ef El Eo Ew HL. split; [done|]. exists pd. split; [|done]. simpl. rewrite Ew.
  replace true with (bool_decide (is_locked m)) by by apply bool_decide_true.
  apply (proc_mode _ _ _ _ pd); try done;
    [|by apply (pk_nodup _ _ _ _ _ _ OK)|by apply (pk_fds _ _ _ _ _ _ OK)]. intros HN. exfalso.
  pose proof (counts_own p id h hs E (set_mode m h) eq_refl) as HC. cbv zeta in HC. simpl in HC.
  destruct m; [done|..]; destruct (h_mode h); lia.
Qed.

Lemma read_lock_ok id h : hs !! (p, id) = Some h ->
  wp (sqliteOsReadLock id) (result_ok is_dir p base (do_read hs p id h e)) (fun _ => False) (mkW p pr kl e).
Proof.
  intros E.
  destruct (proc_located is_dir p base hs pd pr id h OK E)
    as (f & la & oa & Ef & EL & EO & Elk & Edir & Hl & Ll & Ho & Lo).
  pose proof (counts_own p id h hs E (set_mode ReadLock h) eq_refl) as HC. cbv zeta beta in HC. simpl in HC.
  pose proof (exclusive_counts hs p (h_inode h) HX) as HX'.
  pose proof (other_here_write p id h hs E) as OW. pose proof (other_here_read p id h hs E) as OR.
  unfold sqliteOsReadLock. pose proof (pk_mutex _ _ _ _ _ _ OK) as HM.
  lsteps. unfold do_read.
  destruct HX' as [[W0 L0]|(W1 & L1 & R0)].
  - rewrite (bool_decide_false (other_here is_write p id (h_inode h) hs)) by (rewrite OW, W0; lia).
    rewrite (want_cnt_0 p (h_inode h) hs W0). destruct (Z.ltb_spec 0 (Z.of_nat (n_locked p (h_inode h) hs))).
    + destruct (h_mode h) eqn:Em; [| |lia].
      * rewrite (bool_decide_true (_ \/ _)) by (right; apply OR; lia).
        rewrite Elk. change (bool_decide (is_locked NoLock)) with false. lsimpl.
        unfold mwhen. lsteps. apply (grant_ok id h ReadLock f la oa); try done; lsimpl.
        -- counters.
        -- apply (locks_keep p (h_inode h) kl hs); [done|by apply agree_update|].
           rewrite !want_klock_r by lia. done.
      * rewrite (bool_decide_true (_ \/ _)) by by left.
        rewrite Elk. change (bool_decide (is_locked ReadLock)) with true. lsimpl.
        unfold mwhen. lsteps. rewrite unmutex by done.
        apply result_same; [|done..]. f_equal. apply insert_id.
        rewrite E. destruct h. simpl in *. by subst.
    + assert (Em : h_mode h = NoLock) by (destruct (h_mode h); [done|lia..]).
      rewrite (bool_decide_false (_ \/ _)) by (rewrite Em, OR; intros [?|?]; [done|lia]).
      replace (Z.of_nat (n_locked p (h_inode h) hs) =? 0) with true by (symmetry; apply Z.eqb_eq; lia).
      rewrite orb_true_r. apply wp_bind.
      apply (wp_setlk _ _ (mkKfd (h_inode h) (h_writable h))); lsimpl; [exact (proc_fd id h f E Ef)|done|done|..].
      * intros b ->. lsteps. rewrite unmutex by done. by apply result_same.
      * intros ->. lsimpl. destruct (bool_decide (other_process is_write p (h_inode h) hs)); lsteps.
        -- rewrite unmutex by done. by apply result_same.
        -- rewrite Elk, Em. change (bool_decide (is_locked NoLock)) with false. lsimpl.
           unfold mwhen. lsteps. rewrite Em in HC. simpl in HC. apply (grant_ok id h ReadLock f la oa); try done; lsimpl.
           ++ counters.
           ++ apply (locks_insert p (h_inode h) kl _ hs); [done|by apply agree_update|].
              by rewrite want_klock_r by lia.
  - rewrite (want_cnt_1 p (h_inode h) hs W1). change (0 <? -1) with false. change (-1 =? 0) with false.
    rewrite orb_false_r, Elk. destruct (h_mode h) eqn:Em; [|lia|].
    + rewrite (bool_decide_true (other_here is_write p id (h_inode h) hs)) by (apply OW; lia).
      change (bool_decide (is_locked NoLock)) with false. lsimpl. lsteps. rewrite unmutex by done.
      by apply result_same.
    + rewrite (bool_decide_false (other_here is_write p id (h_inode h) hs)) by (rewrite OW; lia).
      rewrite (bool_decide_false (_ \/ _)) by (rewrite OR; intros [?|?]; [done|lia]).
      change (bool_decide (is_locked WriteLock)) with true. lsimpl. apply wp_bind.
      apply (wp_setlk _ _ (mkKfd (h_inode h) (h_writable h))); lsimpl; [exact (proc_fd id h f E Ef)|done|done|..].
      * intros b ->. lsteps. rewrite unmutex by done. by apply result_same.
      * intros ->. lsimpl. destruct (bool_decide (other_process is_write p (h_inode h) hs)); lsteps.
        -- rewrite unmutex by done. by apply result_same.
        -- unfold mwhen. lsteps. apply (grant_ok id h ReadLock f la oa); try done; lsimpl.
           ++ counters.
           ++ apply (locks_insert p (h_inode h) kl _ hs); [done|by apply agree_update|].
              by rewrite want_klock_r by lia.
Qed.

Lemma write_lock_ok id h : hs !! (p, id) = Some h ->
  wp (sqliteOsWriteLock id) (result_ok is_dir p base (do_write hs p id h e)) (fun _ => False) (mkW p pr kl e).
Proof.
  intros E.
  destruct (proc_located is_dir p base hs pd pr id h OK E)
    as (f & la & oa & Ef & EL & EO & Elk & Edir & Hl & Ll & Ho & Lo).
  pose proof (counts_own p id h hs E (set_mode WriteLock h) eq_refl) as HC. cbv zeta beta in HC. simpl in HC.
  pose proof (exclusive_counts hs p (h_inode h) HX) as HX'.
  pose proof (other_here_locked p id h hs E) as OL.
  unfold sqliteOsWriteLock. pose proof (pk_mutex _ _ _ _ _ _ OK) as HM.
  lsteps. unfold do_write.
  destruct (bool_decide (h_mode h = WriteLock \/ other_here is_locked p id (h_inode h) hs)) eqn:B.
  - apply bool_decide_eq_true in B. rewrite OL in B.
    replace ((want_cnt p (h_inode h) hs =? 0) || (want_cnt p (h_inode h) hs =? 1) && locked f) with false.
    + lsteps. rewrite unmutex by done. by apply result_same.
    + symmetry. rewrite Elk. destruct HX' as [[W0 L0]|(W1 & L1 & R0)].
      * rewrite want_cnt_0 by lia. destruct (h_mode h) eqn:Em; [|..|lia].
        -- destruct B as [?|B]; [done|]. case_Zb; try lia; done.
        -- destruct B as [?|B]; [done|]. case_Zb; try lia; done.
      * by rewrite want_cnt_1 by lia.
  - apply bool_decide_eq_false in B. rewrite OL in B.
    assert (B1 : h_mode h <> WriteLock) by tauto.
    assert (B2 : ~ (match h_mode h with NoLock => 0 | _ => 1 end < n_locked p (h_inode h) hs)%nat) by tauto.
    clear B. destruct HX' as [[W0 L0]|(W1 & L1 & R0)]; [|destruct (h_mode h); [lia|lia|done]].
    replace ((want_cnt p (h_inode h) hs =? 0) || (want_cnt p (h_inode h) hs =? 1) && locked f) with true.
    2:{ symmetry. rewrite want_cnt_0, Elk by lia. destruct (h_mode h); [|..|done].
        - replace (n_locked p (h_inode h) hs) with O by lia. done.
        - replace (n_locked p (h_inode h) hs) with 1%nat by lia. done. }
    apply wp_bind.
    apply (wp_setlk _ _ (mkKfd (h_inode h) (h_writable h))); lsimpl;
      [exact (proc_fd id h f E Ef)|done|done|..].
    + intros b ->. lsteps. rewrite unmutex by done. by apply result_same.
    + intros ->. lsimpl.
      destruct (negb (h_writable h) || bool_decide (other_process is_locked p (h_inode h) hs)); lsteps.
      * rewrite unmutex by done. by apply result_same.
      * rewrite Elk. destruct (h_mode h) eqn:Em; [..|done].
        -- change (bool_decide (is_locked NoLock)) with false. unfold mwhen. lsimpl. lsteps.
           apply (grant_ok id h WriteLock f la oa); try done; lsimpl; [counters|].
           apply (locks_insert p (h_inode h) kl _ hs); [done|by apply agree_update|].
           by rewrite want_klock_w by lia.
        -- change (bool_decide (is_locked ReadLock)) with true. unfold mwhen. lsimpl. lsteps.
           apply (grant_ok id h WriteLock f la oa); try done; lsimpl; [counters|].
           apply (locks_insert p (h_inode h) kl _ hs); [done|by apply agree_update|].
           by rewrite want_klock_w by lia.
Qed.
End calls.
