(* ===== verification/OsLockClose.v ===== *)
(** Unlocking and closing a file of [os.c]: descriptors whose close had to wait are
    closed when the last lock of the process on the inode goes away. *)
From S2P Require Import Prelude OsFile OsLocks OsLockSpec OsLockInv OsLockOps.

(** * Closing descriptors *)

Lemma os_wp_close w n k Q C : fd_lookup n (fds (w_proc w)) = Some k ->
  Q tt (mkW (getpid w) (set_fds (<[Z.to_nat n := None]> (fds (w_proc w))) (w_proc w))
          (delete (k_inode k, getpid w) (w_locks w)) (w_env w)) ->
  wp (sys_close n) Q C w.
Proof. intros E H. unfold wp, sys_close. by rewrite E. Qed.

Lemma wp_malloc_true w Q C : hd true (e_mallocs (w_env w)) = true ->
  (forall e, Q true (mkW (getpid w) (w_proc w) (w_locks w) e)) -> wp malloc_ok Q C w.
Proof.
  intros H HQ. unfold wp, malloc_ok. destruct (e_mallocs (w_env w)) as [|b bs].
  - destruct w. apply HQ.
  - simpl in H. subst b. apply HQ.
Qed.

Section pending.
Context (K : Z -> user -> kfd -> Prop) (i : inode) (p : Z) (e : env) (kl : klocks).
Context (HK : forall n k, K n (U_pend i) k -> k_inode k = i) (HN : kl !! (i, p) = None).

(** The loop closes exactly the descriptors of the list. *)
Lemma close_pending_ok ps Q : forall U pr, fds_ok (fds pr) U K -> NoDup ps ->
  (forall n, n ∈ ps -> U n (U_pend i)) ->
  (forall fds', fds_ok fds' (fun n u => U n u /\ (n ∉ ps \/ u <> U_pend i)) K ->
    Q tt (mkW p (set_fds fds' pr) kl e)) ->
  wp (close_pending (length ps) (Some <$> ps)) Q (fun _ => False) (mkW p pr kl e).
Proof.
  induction ps as [|n ps IH]; intros U pr OK ND HU HQ; simpl.
  - apply wp_ret. specialize (HQ (fds pr)). destruct pr. apply HQ.
    apply (fds_same _ _ _ OK); [|done]. intros n u. set_solver.
  - apply NoDup_cons in ND as [Hn ND]. apply wp_bind.
    destruct (fo_open _ _ _ OK n (U_pend i)) as (k & Ek & Hk); [apply HU; set_solver|].
    apply (os_wp_close _ _ k); [done|]. lsimpl. rewrite (HK n k Hk), delete_id by done.
    apply (IH (fun m u => U m u /\ (m <> n \/ u <> U_pend i))); [..|done| |].
    + lsimpl. apply (fds_remove _ _ _ OK n (U_pend i)); [apply HU; set_solver|done|done].
    + intros m Hm. split; [apply HU; set_solver|]. left. by intros ->.
    + intros fds' H'. apply (HQ fds'). apply (fds_same _ _ _ H'); [|done].
      intros m u. rewrite not_elem_of_cons. tauto.
Qed.
End pending.

Section close.
Context (is_dir : inode -> bool) (p : Z) (base : list (option kfd)).

(** * Unlocking *)

Section unlock.
Context (hs : handles) (pd : inode -> list Z) (pr : proc) (kl : klocks) (e : env).
Context (OK : proc_ok is_dir p base hs pd pr) (KL : locks_ok kl hs) (HX : exclusive hs).

(** The descriptors after the loop of [sqliteOsUnlock] ran. *)
Lemma pending_fds i fds' :
  let pd' j := if decide (j = i) then [] else pd j in
  fds_ok fds' (fun n u => uses p base (files pr) hs pd n u /\ (n ∉ pd i \/ u <> U_pend i))
    (kind is_dir p base hs) ->
  fds_ok fds' (uses p base (files pr) hs pd') (kind is_dir p base hs).
Proof.
  intros pd' H. apply (fds_same _ _ _ H); [|done].
  intros n [|id|id|j]; simpl; try (split; [intros; split; [done|by right]|tauto]).
  unfold pd'. simpl. case_decide as D.
  - subst j. split; [by intros ?%elem_of_nil|tauto].
  - split; [|tauto]. intros Hn. split; [done|]. right. congruence.
Qed.

Definition unlock_post (hs' : handles) (rc : Z) (w : W) : Prop :=
  result_ok is_dir p base (SQLITE_OK, hs') rc w /\ getpid w = p /\ w_env w = e.

Lemma unlock_post_intro id h f la oa pd' fds' kl' :
  let i := h_inode h in let hs' := <[(p, id) := set_mode NoLock h]> hs in
  hs !! (p, id) = Some h ->
  files pr !! id = Some f -> lockHash pr !! lkey p i = Some la -> openHash pr !! okey i = Some oa ->
  (forall j, j <> i -> pd' j = pd j) -> (n_locked p i hs' = O -> pd' i = []) -> NoDup (pd' i) ->
  fds_ok fds' (uses p base (files pr) hs pd') (kind is_dir p base hs) ->
  locks_ok kl' hs' ->
  forall pr', pr' = mkProc fds' (lockHash pr) (openHash pr)
       (<[la := mkLockInfo (lkey p i) (want_cnt p i hs') (Z.of_nat (n_open p i hs))]> (lockInfos pr))
       (<[oa := mkOpenCnt (okey i) (Z.of_nat (n_open p i hs)) (Z.of_nat (n_locked p i hs'))
                  (Z.of_nat (length (pd' i))) (Some <$> pd' i)]> (openCnts pr))
       (<[id := set_locked false f]> (files pr)) false ->
  unlock_post hs' SQLITE_OK (mkW p pr' kl' e).
Proof.
  intros i hs' E Ef El Eo HP HP1 HP2 HF HL pr' ->. split; [|done]. split; [done|]. exists pd'.
  split; [|done]. change false with (bool_decide (is_locked NoLock)) at 1.
  by apply (proc_mode is_dir p base hs pd pd').
Qed.

Lemma unlock_ok id h : hs !! (p, id) = Some h -> e_fcntl e = None ->
  wp (sqliteOsUnlock id) (unlock_post (<[(p, id) := set_mode NoLock h]> hs)) (fun _ => False)
    (mkW p pr kl e).
Proof.
  intros E HE.
  destruct (proc_located is_dir p base hs pd pr id h OK E)
    as (f & la & oa & Ef & EL & EO & Elk & Edir & Hl & Ll & Ho & Lo).
  pose proof (counts_own p id h hs E (set_mode NoLock h) eq_refl) as HC. cbv zeta beta in HC. simpl in HC.
  pose proof (exclusive_counts hs p (h_inode h) HX) as HX'.
  pose proof (pk_mutex _ _ _ _ _ _ OK) as HM.
  unfold sqliteOsUnlock. lsteps. rewrite Elk.
  destruct (decide (h_mode h = NoLock)) as [Em|Em].
  { rewrite Em. change (bool_decide (is_locked NoLock)) with false. lsimpl. lsteps.
    split; [|done]. split; [done|]. exists pd. simpl. rewrite insert_id; [done|].
    rewrite E. destruct h. simpl in *. by subst. }
  rewrite bool_decide_true by done. lsimpl. lsteps.
  assert (HL1 : (S (n_locked p (h_inode h) (<[(p, id) := set_mode NoLock h]> hs)) = n_locked p (h_inode h) hs)%nat)
    by (destruct (h_mode h); [done|lia..]).
  assert (HC0 : want_cnt p (h_inode h) hs <> 0)
    by (destruct HX' as [[W0 L0]|(W1 & L1 & R0)]; [rewrite want_cnt_0 by lia; lia|by rewrite want_cnt_1]).
  apply wp_assert; [case_Zb; [lia|done]|]. lsteps.
  assert (HW : n_write p (h_inode h) (<[(p, id) := set_mode NoLock h]> hs) = O)
    by (destruct (h_mode h); [done|lia..]).
  destruct (Z.ltb_spec 1 (want_cnt p (h_inode h) hs)) as [H1|H1].
  - destruct HX' as [[W0 L0]|(W1 & L1 & R0)]; [|rewrite want_cnt_1 in H1 by done; lia].
    rewrite want_cnt_0 in H1 by lia.
    lsteps. unfold mwhen. simpl (SQLITE_OK =? SQLITE_OK). lsimpl. lsteps.
    apply wp_assert; [case_Zb; [done|lia]|].
    replace (Z.of_nat (n_locked p (h_inode h) hs) - 1 =? 0) with false by (symmetry; apply Z.eqb_neq; lia).
    lsimpl. lsteps.
    apply (unlock_post_intro id h f la oa pd (fds pr)); try done.
    + intros HN. lia.
    + apply (pk_nodup _ _ _ _ _ _ OK).
    + apply (pk_fds _ _ _ _ _ _ OK).
    + apply (locks_keep p (h_inode h) kl hs); [done|by apply agree_update|].
      rewrite !want_klock_r by lia. done.
    + counters.
  - assert (HL0 : n_locked p (h_inode h) hs = 1%nat).
    { destruct HX' as [[W0 L0]|(W1 & L1 & R0)]; [|done]. rewrite want_cnt_0 in H1, HC0 by lia. lia. }
    apply wp_bind.
    apply (wp_setlk p hs kl KL HX _ _ (mkKfd (h_inode h) (h_writable h)));
      lsimpl; [exact (proc_fd is_dir p base hs pd pr OK id h f E Ef)|done|done|congruence|].
    intros _. lsteps. unfold mwhen. simpl (SQLITE_OK =? SQLITE_OK). lsimpl. lsteps.
    rewrite HL0. apply wp_assert; [done|]. simpl (Z.of_nat 1 - 1 =? 0). lsimpl.
    assert (KL' : locks_ok (delete (h_inode h, p) kl) (<[(p, id) := set_mode NoLock h]> hs)).
    { apply (locks_delete p (h_inode h) kl hs); [done|by apply agree_update|].
      apply want_klock_u; lia. }
    set (pd' := fun j => if decide (j = h_inode h) then [] else pd j).
    assert (Epd : pd' (h_inode h) = []) by (unfold pd'; by rewrite decide_True).
    destruct (decide (pd (h_inode h) = [])) as [Ep|Ep].
    + replace (0 <? Z.of_nat (length (pd (h_inode h)))) with false by (by rewrite Ep). lsimpl. lsteps.
      apply (unlock_post_intro id h f la oa pd (fds pr)); try done.
      * apply (pk_nodup _ _ _ _ _ _ OK).
      * apply (pk_fds _ _ _ _ _ _ OK).
      * counters.
    + replace (0 <? Z.of_nat (length (pd (h_inode h)))) with true
        by (symmetry; apply Z.ltb_lt; destruct (pd (h_inode h)); [done|simpl; lia]).
      lsimpl. lsteps. rewrite Nat2Z.id.
      eapply (close_pending_ok (kind is_dir p base hs) (h_inode h) p e); lsimpl.
      * intros m k Hk. exact Hk.
      * apply lookup_delete_eq.
      * apply (pk_fds _ _ _ _ _ _ OK).
      * apply (pk_nodup _ _ _ _ _ _ OK).
      * intros m Hm. exact Hm.
      * intros fds' HF. lsteps.
        apply (unlock_post_intro id h f la oa pd' fds'); try done.
        -- intros j Hj. unfold pd'. by rewrite decide_False.
        -- rewrite Epd. apply NoDup_nil_2.
        -- by apply pending_fds.
        -- rewrite Epd, insert_insert_eq. unfold set_aPending, set_nPending. counters.
Qed.
End unlock.

(** * Releasing the structures *)

Lemma lockHash_remove w k a Q : lockHash (w_proc w) !! k = Some a ->
  Q (Some a) (mkW (getpid w) (set_lockHash (delete k (lockHash (w_proc w))) (w_proc w)) (w_locks w) (w_env w)) ->
  wp (lockHash_insert k None) Q (fun _ => False) w.
Proof. intros E H. unfold lockHash_insert. lsteps. rewrite E. by lsteps. Qed.

Lemma openHash_remove w k a Q : openHash (w_proc w) !! k = Some a ->
  Q (Some a) (mkW (getpid w) (set_openHash (delete k (openHash (w_proc w))) (w_proc w)) (w_locks w) (w_env w)) ->
  wp (openHash_insert k None) Q (fun _ => False) w.
Proof. intros E H. unfold openHash_insert. lsteps. rewrite E. by lsteps. Qed.

(** What is left of a structure with [n] references when one is released. *)
Definition less_ref {V} (n : nat) (v : V) : option V := if decide (n = 1%nat) then None else Some v.

Lemma release_lock_ok w a k c n Q : let pr := w_proc w in
  tbl_ok li_key (lockHash pr) (lockInfos pr) -> lockHash pr !! k = Some a -> (0 < n)%nat ->
  lockInfos pr !! a = Some (mkLockInfo k c (Z.of_nat n)) ->
  (forall lh ls, tbl_ok li_key lh ls ->
    (forall k', view lh ls k' = if decide (k' = k) then less_ref n (mkLockInfo k c (Z.of_nat (n - 1)))
                                else view (lockHash pr) (lockInfos pr) k') ->
    (forall k', (k' <> k \/ n <> 1%nat) -> lh !! k' = lockHash pr !! k') ->
    Q tt (mkW (getpid w) (set_lockHash lh (set_lockInfos ls pr)) (w_locks w) (w_env w))) ->
  wp (releaseLockInfo a) Q (fun _ => False) w.
Proof.
  intros pr T Eh Hn Es HQ. unfold releaseLockInfo. lsteps. unfold mwhen, less_ref in *.
  destruct (decide (n = 1%nat)) as [->|N].
  - simpl (Z.of_nat 1 - 1 =? 0). lsimpl. apply wp_bind. apply (lockHash_remove _ _ a); [done|].
    unfold free_lock. lsteps. rewrite delete_insert_eq.
    destruct (tbl_delete li_key _ _ k a T Eh) as [T' V'].
    specialize (HQ _ _ T' V'). fold pr. destruct pr. apply HQ. intros k' [?|?]; [|done].
    by apply lookup_delete_ne.
  - replace (Z.of_nat n - 1 =? 0) with false by (symmetry; apply Z.eqb_neq; lia). lsteps.
    destruct (tbl_update li_key _ _ k a (mkLockInfo k c (Z.of_nat (n - 1))) T Eh eq_refl) as [T' V'].
    specialize (HQ _ _ T' V'). fold pr. unfold set_li_nRef. lsimpl.
    replace (Z.of_nat n - 1) with (Z.of_nat (n - 1)) by lia. destruct pr. by apply HQ.
Qed.

Lemma release_open_ok w a k c np ap n Q : let pr := w_proc w in
  tbl_ok oc_key (openHash pr) (openCnts pr) -> openHash pr !! k = Some a -> (0 < n)%nat ->
  openCnts pr !! a = Some (mkOpenCnt k (Z.of_nat n) c np ap) ->
  (forall lh ls, tbl_ok oc_key lh ls ->
    (forall k', view lh ls k' = if decide (k' = k) then less_ref n (mkOpenCnt k (Z.of_nat (n - 1)) c np ap)
                                else view (openHash pr) (openCnts pr) k') ->
    (forall k', (k' <> k \/ n <> 1%nat) -> lh !! k' = openHash pr !! k') ->
    Q tt (mkW (getpid w) (set_openHash lh (set_openCnts ls pr)) (w_locks w) (w_env w))) ->
  wp (releaseOpenCnt a) Q (fun _ => False) w.
Proof.
  intros pr T Eh Hn Es HQ. unfold releaseOpenCnt. lsteps. unfold mwhen, less_ref in *.
  destruct (decide (n = 1%nat)) as [->|N].
  - simpl (Z.of_nat 1 - 1 =? 0). lsimpl. apply wp_bind. apply (openHash_remove _ _ a); [done|].
    unfold free_open. lsteps. rewrite delete_insert_eq.
    destruct (tbl_delete oc_key _ _ k a T Eh) as [T' V'].
    specialize (HQ _ _ T' V'). fold pr. destruct pr. apply HQ. intros k' [?|?]; [|done].
    by apply lookup_delete_ne.
  - replace (Z.of_nat n - 1 =? 0) with false by (symmetry; apply Z.eqb_neq; lia). lsteps.
    destruct (tbl_update oc_key _ _ k a (mkOpenCnt k (Z.of_nat (n - 1)) c np ap) T Eh eq_refl) as [T' V'].
    specialize (HQ _ _ T' V'). fold pr. unfold set_oc_nRef. lsimpl.
    replace (Z.of_nat n - 1) with (Z.of_nat (n - 1)) by lia. destruct pr. by apply HQ.
Qed.

(** * Closing the directory *)

Lemma want_lock_same hs hs' i : same_counts p i hs hs' ->
  want_lock p hs' (lkey p i) = want_lock p hs (lkey p i).
Proof.
  intros (E1 & E2 & E3). unfold want_lock, want_cnt. cbv zeta.
  replace (lock_inode (lkey p i)) with i by (unfold lock_inode; by destruct i). by rewrite E1, E2, E3.
Qed.

Lemma want_open_same hs hs' pd i : same_counts p i hs hs' ->
  want_open p hs' pd (okey i) = want_open p hs pd (okey i).
Proof.
  intros (E1 & E2 & E3). unfold want_open. cbv zeta.
  replace (open_inode (okey i)) with i by (unfold open_inode; by destruct i). by rewrite E1, E3.
Qed.

Lemma same_counts_mode hs id h h' : hs !! (p, id) = Some h -> h_inode h' = h_inode h ->
  h_mode h' = h_mode h -> same_counts p (h_inode h) hs (<[(p, id) := h']> hs).
Proof.
  intros E Ei Em. pose proof (counts_own p id h hs E h' Ei) as HC. cbv zeta beta in HC.
  rewrite Em in HC. split_and!; [by apply (n_open_update p _ p id h h')|lia|lia].
Qed.

Lemma no_dir_lock hs kl k : locks_ok kl hs -> no_dirs is_dir hs -> is_dir k = true -> kl !! (k, p) = None.
Proof.
  intros KL ND Hk. rewrite KL. destruct (want_klock p k hs) eqn:E; [|done].
  destruct (proj1 (want_klock_locked p k hs)) as (k' & h & E1 & E2 & E3 & E4); [by rewrite E|].
  pose proof (ND k' h E1). congruence.
Qed.

Definition unset_dir (h : ahandle) : ahandle := mkH (h_inode h) (h_writable h) (h_mode h) false.

(** Changing only whether the directory is open. *)
Lemma proc_dir hs pd pr id h h' f n fds' : proc_ok is_dir p base hs pd pr -> hs !! (p, id) = Some h ->
  files pr !! id = Some f ->
  h_inode h' = h_inode h -> h_writable h' = h_writable h -> h_mode h' = h_mode h ->
  (h_dir h' = false -> n = -1) ->
  fds_ok fds' (uses p base (<[id := set_dirfd n f]> (files pr)) (<[(p, id) := h']> hs) pd)
    (kind is_dir p base (<[(p, id) := h']> hs)) ->
  proc_ok is_dir p base (<[(p, id) := h']> hs) pd
    (mkProc fds' (lockHash pr) (openHash pr) (lockInfos pr) (openCnts pr)
       (<[id := set_dirfd n f]> (files pr)) (inMutex pr)).
Proof.
  intros OK E Ef E1 E2 E3 Hn HF. pose proof (same_counts_mode hs id h h' E E1 E3) as SC.
  apply (proc_change is_dir p base (h_inode h) hs _ pd pd pr); try done.
  - by apply agree_update.
  - apply (pk_mutex _ _ _ _ _ _ OK).
  - apply (pk_locks _ _ _ _ _ _ OK).
  - intros k. case_decide; [|done]. subst k. simpl.
    rewrite (want_lock_same hs) by done. apply (pk_want_lock _ _ _ _ _ _ OK).
  - apply (pk_opens _ _ _ _ _ _ OK).
  - intros k. case_decide; [|done]. subst k. simpl.
    rewrite (want_open_same hs) by done. apply (pk_want_open _ _ _ _ _ _ OK).
  - intros id2 h2 H2. unfold file_ok. simpl.
    apply lookup_insert_Some in H2 as [[[= <-] <-]|[N H2]].
    + destruct (pk_file _ _ _ _ _ _ OK id h E) as (f0 & Ef0 & A1 & A2 & A3 & A4).
      rewrite Ef in Ef0. injection Ef0 as <-. eexists. rewrite lookup_insert_eq, E1, E3. simpl. auto.
    + rewrite lookup_insert_ne by congruence. by apply (pk_file _ _ _ _ _ _ OK).
  - intros HN. apply (pk_pend _ _ _ _ _ _ OK). destruct SC as (_ & _ & SC). congruence.
  - apply (pk_nodup _ _ _ _ _ _ OK).
Qed.

(** Replacing [h] and [f] by ones with the same descriptor and no directory. *)
Lemma uses_unset hs pd fl id h f m u : hs !! (p, id) = Some h -> fl !! id = Some f ->
  uses p base (<[id := set_dirfd (-1) f]> fl) (<[(p, id) := unset_dir h]> hs) pd m u <->
  uses p base fl hs pd m u /\ u <> U_dir id.
Proof.
  intros E Ef. destruct u as [|id'|id'|j]; simpl; try (split; [intros; split; [done|congruence]|tauto]).
  - destruct (decide (id' = id)) as [->|N].
    + rewrite !lookup_insert_eq, E, Ef. split.
      * intros (h' & f' & [= <-] & [= <-] & H). split; [eauto|done].
      * intros [(h' & f' & [= <-] & [= <-] & H) _]. eauto.
    + rewrite !lookup_insert_ne by congruence. split; [intros; split; [done|congruence]|tauto].
  - destruct (decide (id' = id)) as [->|N].
    + rewrite !lookup_insert_eq. split; [by intros (h' & f' & [= <-] & [= <-] & H & _)|by intros []].
    + rewrite !lookup_insert_ne by congruence. split; [intros; split; [done|congruence]|tauto].
Qed.

Lemma kind_mode hs id h h' : hs !! (p, id) = Some h ->
  h_inode h' = h_inode h -> h_writable h' = h_writable h -> forall m u k,
  kind is_dir p base hs m u k -> kind is_dir p base (<[(p, id) := h']> hs) m u k.
Proof.
  intros E E1 E2 m [|id'|id'|j] k; simpl; try done. intros (h0 & E0 & ->).
  destruct (decide (id' = id)) as [->|N].
  - rewrite lookup_insert_eq. rewrite E in E0. injection E0 as <-. exists h'. by rewrite E1, E2.
  - rewrite lookup_insert_ne by congruence. eauto.
Qed.

Lemma close_dir_ok hs pd pr kl e id h f Q : proc_ok is_dir p base hs pd pr -> locks_ok kl hs ->
  no_dirs is_dir hs -> hs !! (p, id) = Some h -> files pr !! id = Some f ->
  (forall pr', proc_ok is_dir p base (<[(p, id) := unset_dir h]> hs) pd pr' ->
    files pr' !! id = Some (set_dirfd (-1) f) ->
    locks_ok kl (<[(p, id) := unset_dir h]> hs) -> Q tt (mkW p pr' kl e)) ->
  wp (mwhen (0 <=? dirfd f) (sys_close (dirfd f)) ≫= fun _ => upd_file id (set_dirfd (-1))) Q
    (fun _ => False) (mkW p pr kl e).
Proof.
  intros OK KL ND E Ef HQ.
  assert (KL' : locks_ok kl (<[(p, id) := unset_dir h]> hs)).
  { apply (locks_keep p (h_inode h) kl hs); [done|by apply agree_update|].
    apply want_klock_same. by apply same_counts_mode. }
  assert (HF : forall fds',
    fds_ok fds' (fun m u => uses p base (files pr) hs pd m u /\ u <> U_dir id) (kind is_dir p base hs) ->
    Q tt (mkW p (mkProc fds' (lockHash pr) (openHash pr) (lockInfos pr) (openCnts pr)
       (<[id := set_dirfd (-1) f]> (files pr)) (inMutex pr)) kl e)).
  { intros fds' HF. apply HQ; [|by simpl; rewrite lookup_insert_eq|done].
    apply (proc_dir hs pd pr id h); try done. apply (fds_same _ _ _ HF).
    - intros m u. by apply uses_unset.
    - intros m u k _. by apply (kind_mode hs id h). }
  pose proof (pk_fds _ _ _ _ _ _ OK) as FO.
  destruct (h_dir h) eqn:Ed.
  - assert (U : uses p base (files pr) hs pd (dirfd f) (U_dir id)) by (simpl; eauto 6).
    destruct (fo_open _ _ _ FO _ _ U) as (k & Ek & Hk). simpl in Hk.
    pose proof (fd_lookup_nonneg _ _ _ Ek) as Hd.
    rewrite (proj2 (Z.leb_le _ _) Hd). unfold mwhen. apply wp_bind. lsimpl. apply (os_wp_close _ _ k); [done|]. lsimpl.
    rewrite delete_id by by apply (no_dir_lock hs). lsteps. unfold set_files, set_fds. lsimpl.
    apply HF. apply (fds_remove _ _ _ FO (dirfd f) (U_dir id)); [done| |done].
    intros m u. split; [intros [? ?]; auto|]. intros [H1 [H2|H2]]; [|done]. split; [done|].
    intros ->. destruct H1 as (h' & f' & E1 & E2 & _ & <-). congruence.
  - destruct (pk_file _ _ _ _ _ _ OK id h E) as (f' & Ef' & _ & _ & _ & Hd).
    rewrite Ef in Ef'. injection Ef' as <-. rewrite (Hd Ed). change (0 <=? -1) with false.
    unfold mwhen. lsimpl. lsteps.
    unfold set_files. lsimpl. apply HF. apply (fds_same _ _ _ FO); [|done].
    intros m u. split; [by intros []|]. intros H1. split; [done|]. intros ->.
    destruct H1 as (h' & f' & E1 & E2 & E3 & _). congruence.
Qed.

(** * Closing the file *)

Section last.
Context (hs : handles) (id : ptr) (h : ahandle).
Context (E : hs !! (p, id) = Some h) (Em : h_mode h = NoLock) (Ed : h_dir h = false).

Lemma counts_delete : let i := h_inode h in let hs' := delete (p, id) hs in
  (n_open p i hs = S (n_open p i hs') /\ n_locked p i hs = n_locked p i hs' /\
   n_write p i hs = n_write p i hs')%nat.
Proof.
  cbv zeta. assert (EO : of_inode p (h_inode h) (p, id) h = true) by by apply of_inode_true.
  unfold n_open, n_mode. rewrite !(count_remove _ hs (p, id) h E), EO, Em.
  split_and!; [done|by rewrite (bool_decide_false (is_locked NoLock)) by (by intros [])|done].
Qed.

Lemma want_klock_delete : want_klock p (h_inode h) (delete (p, id) hs) = want_klock p (h_inode h) hs.
Proof. destruct counts_delete as (_ & E2 & E3). unfold want_klock. by rewrite E2, E3. Qed.

Lemma want_lock_delete c : c = want_cnt p (h_inode h) hs -> let n := n_open p (h_inode h) hs in
  less_ref n (mkLockInfo (lkey p (h_inode h)) c (Z.of_nat (n - 1))) =
  want_lock p (delete (p, id) hs) (lkey p (h_inode h)).
Proof.
  intros ->. cbv zeta. destruct counts_delete as (E1 & E2 & E3). rewrite E1.
  unfold less_ref, want_lock, want_cnt. cbv zeta.
  replace (lock_inode (lkey p (h_inode h))) with (h_inode h) by (unfold lock_inode; by destruct (h_inode h)).
  rewrite E2, E3, bool_decide_true by done. simpl (_ && _).
  destruct (n_open p (h_inode h) (delete (p, id) hs)); [done|]. rewrite decide_False by lia. simpl.
  done.
Qed.

Lemma want_open_delete pd pd' : (n_open p (h_inode h) hs = 1%nat \/ pd = pd' (h_inode h)) ->
  let n := n_open p (h_inode h) hs in
  less_ref n (mkOpenCnt (okey (h_inode h)) (Z.of_nat (n - 1)) (Z.of_nat (n_locked p (h_inode h) hs))
    (Z.of_nat (length pd)) (Some <$> pd)) =
  want_open p (delete (p, id) hs) pd' (okey (h_inode h)).
Proof.
  intros Hpd. cbv zeta. destruct counts_delete as (E1 & E2 & E3). rewrite E1 in *.
  unfold less_ref, want_open. cbv zeta.
  replace (open_inode (okey (h_inode h))) with (h_inode h) by (unfold open_inode; by destruct (h_inode h)).
  rewrite E2. destruct (n_open p (h_inode h) (delete (p, id) hs)); [done|]. rewrite decide_False by lia.
  destruct Hpd as [?| ->]; [lia|]. done.
Qed.

Lemma other_open id' h' : delete (p, id) hs !! (p, id') = Some h' ->
  hs !! (p, id') = Some h' /\ id' <> id /\ (h_inode h' = h_inode h -> n_open p (h_inode h) hs <> 1%nat).
Proof.
  intros H. pose proof H as H1. apply lookup_delete_Some in H1 as [N H1].
  split; [done|]. split; [congruence|]. intros Ei.
  pose proof (n_open_pos p id' h' _ H) as HN. rewrite Ei in HN.
  destruct counts_delete as (E1 & _). lia.
Qed.

(** The structures after both releases, whatever became of the descriptor. *)
Lemma proc_close pd pd' pr fds' lh ls oh os : proc_ok is_dir p base hs pd pr ->
  tbl_ok li_key lh ls ->
  (forall k, view lh ls k = if decide (k = lkey p (h_inode h))
     then want_lock p (delete (p, id) hs) k else view (lockHash pr) (lockInfos pr) k) ->
  (forall k, k <> lkey p (h_inode h) \/ n_open p (h_inode h) hs <> 1%nat -> lh !! k = lockHash pr !! k) ->
  tbl_ok oc_key oh os ->
  (forall k, view oh os k = if decide (k = okey (h_inode h))
     then want_open p (delete (p, id) hs) pd' k else view (openHash pr) (openCnts pr) k) ->
  (forall k, k <> okey (h_inode h) \/ n_open p (h_inode h) hs <> 1%nat -> oh !! k = openHash pr !! k) ->
  (forall j, j <> h_inode h -> pd' j = pd j) ->
  (n_locked p (h_inode h) hs = O -> pd' (h_inode h) = []) -> NoDup (pd' (h_inode h)) ->
  fds_ok fds' (uses p base (files pr) (delete (p, id) hs) pd') (kind is_dir p base (delete (p, id) hs)) ->
  proc_ok is_dir p base (delete (p, id) hs) pd' (mkProc fds' lh oh ls os (files pr) false).
Proof.
  intros OK T1 V1 L1 T2 V2 L2 HP HP1 HP2 HF. destruct counts_delete as (E1 & E2 & E3).
  apply (proc_change is_dir p base (h_inode h) hs _ pd pd' pr); try done.
  - by apply agree_delete.
  - intros id' h' H. destruct (other_open id' h' H) as (H1 & N & HN).
    destruct (pk_file _ _ _ _ _ _ OK id' h' H1) as (f & Ef & A1 & A2 & A3 & A4).
    exists f. simpl. split_and!; try done.
    + rewrite A1. symmetry. apply L1. destruct (decide (h_inode h' = h_inode h)) as [D|D]; [auto|].
      left. intros C. apply D. unfold lkey in C. destruct (h_inode h'), (h_inode h). simpl in C. congruence.
    + rewrite A2. symmetry. apply L2. destruct (decide (h_inode h' = h_inode h)) as [D|D]; [auto|].
      left. intros C. apply D. unfold okey in C. destruct (h_inode h'), (h_inode h). simpl in C. congruence.
  - intros HN. apply HP1. congruence.
Qed.

(** The uses that are left. *)
Lemma uses_delete pd pr f m u : proc_ok is_dir p base hs pd pr -> files pr !! id = Some f ->
  uses p base (files pr) (delete (p, id) hs) pd m u <->
  uses p base (files pr) hs pd m u /\ (m <> fd f \/ u <> U_file id).
Proof.
  intros OK Ef. destruct u as [|id'|id'|j]; simpl;
    try (split; [intros; split; [done|right; congruence]|tauto]).
  - destruct (decide (id' = id)) as [->|N].
    + rewrite lookup_delete_eq. split; [by intros (? & ? & ? & _)|].
      intros [(h' & f' & E1 & E2 & <-) [?|?]]; congruence.
    + rewrite lookup_delete_ne by congruence. split; [intros; split; [done|right; congruence]|tauto].
  - destruct (decide (id' = id)) as [->|N].
    + rewrite lookup_delete_eq. split; [by intros (? & ? & ? & _)|].
      intros [(h' & f' & E1 & E2 & E3 & _) _]. congruence.
    + rewrite lookup_delete_ne by congruence. split; [intros; split; [done|right; congruence]|tauto].
Qed.

Lemma kind_delete m u k f pd fl : fl !! id = Some f -> (m <> fd f \/ u <> U_file id) ->
  uses p base fl hs pd m u ->
  kind is_dir p base hs m u k -> kind is_dir p base (delete (p, id) hs) m u k.
Proof.
  intros Ef Hm Hu. destruct u as [|id'|id'|j]; simpl; try done. intros (h' & E' & ->).
  destruct (decide (id' = id)) as [->|N].
  - destruct Hu as (h2 & f2 & E2 & Ef2 & <-). destruct Hm; congruence.
  - rewrite lookup_delete_ne by congruence. eauto.
Qed.

(** The descriptor is closed, or put on the list of those that wait. *)
Lemma close_fd_ok pd pr kl e Q : proc_ok is_dir p base hs pd pr -> locks_ok kl hs ->
  hd true (e_mallocs e) = true ->
  (forall pd' pr' e', proc_ok is_dir p base (delete (p, id) hs) pd' (set_inMutex false pr') ->
    inMutex pr' = true -> locks_ok kl (delete (p, id) hs) -> Q tt (mkW p pr' kl e')) ->
  wp (close_fd id) Q (fun _ => False) (mkW p (set_inMutex true pr) kl e).
Proof.
  intros OK KL HM HQ.
  destruct (proc_located is_dir p base hs pd pr id h OK E)
    as (f & la & oa & Ef & EL & EO & Elk & Edir & Hl & Ll & Ho & Lo).
  destruct counts_delete as (E1 & E2 & E3). pose proof (n_write_le p (h_inode h) hs) as HW.
  pose proof (pk_fds _ _ _ _ _ _ OK) as FO.
  assert (UF : uses p base (files pr) hs pd (fd f) (U_file id)) by (simpl; eauto).
  assert (KL' : locks_ok kl (delete (p, id) hs)).
  { apply (locks_keep p (h_inode h) kl hs); [done|by apply agree_delete|by apply want_klock_delete]. }
  unfold close_fd. lsteps.
  destruct (decide (n_locked p (h_inode h) hs = O)) as [Z0|Z0].
  - rewrite Z0. change (Z.of_nat 0 =? 0) with true. lsimpl.
    apply (os_wp_close _ _ (mkKfd (h_inode h) (h_writable h)));
      [exact (proc_fd is_dir p base hs pd pr OK id h f E Ef)|]. lsimpl.
    rewrite delete_id by (rewrite KL; by rewrite want_klock_u by lia). lsteps.
    apply (release_lock_ok _ la (lkey p (h_inode h)) (want_cnt p (h_inode h) hs) (n_open p (h_inode h) hs));
      lsimpl; [apply (pk_locks _ _ _ _ _ _ OK)|done|lia|done|].
    intros lh ls T1 V1 L1.
    apply (release_open_ok _ oa (okey (h_inode h)) (Z.of_nat (n_locked p (h_inode h) hs))
      (Z.of_nat (length (pd (h_inode h)))) (Some <$> pd (h_inode h)) (n_open p (h_inode h) hs));
      lsimpl; [apply (pk_opens _ _ _ _ _ _ OK)|done|lia|done|].
    intros oh os T2 V2 L2.
    apply (HQ pd); [|done|done]. unfold set_openHash, set_openCnts, set_lockHash, set_lockInfos, set_fds, set_inMutex.
    lsimpl. apply (proc_close pd pd pr); try done.
    + intros k. rewrite V1. case_decide; [|done]. subst k. by apply want_lock_delete.
    + intros k. rewrite V2. case_decide; [|done]. subst k. apply want_open_delete. by right.
    + intros _. by apply (pk_pend _ _ _ _ _ _ OK).
    + apply (pk_nodup _ _ _ _ _ _ OK).
    + apply (fds_remove _ (fun m u => uses p base (files pr) hs pd m u) (kind is_dir p base hs) FO
        (fd f) (U_file id)); [done|intros m u; by apply uses_delete|].
      intros m u k Hu Hk. apply (uses_delete pd pr f) in Hu as [Hu Hm]; [|done..].
      by apply (kind_delete m u k f pd (files pr)).
  - replace (Z.of_nat (n_locked p (h_inode h) hs) =? 0) with false by (symmetry; apply Z.eqb_neq; lia).
    assert (N1 : n_open p (h_inode h) hs <> 1%nat).
    { pose proof (n_mode_le is_locked p (h_inode h) (delete (p, id) hs)). lia. }
    set (ps := pd (h_inode h) ++ [fd f]).
    assert (Eps : <[(Z.to_nat (Z.of_nat (length (pd (h_inode h))) + 1) - 1)%nat := Some (fd f)]>
        ((Some <$> pd (h_inode h)) ++ replicate (Z.to_nat (Z.of_nat (length (pd (h_inode h))) + 1)
          - length (Some <$> pd (h_inode h))) None) = Some <$> ps).
    { replace (Z.to_nat (Z.of_nat (length (pd (h_inode h))) + 1)) with (S (length (pd (h_inode h)))) by lia.
      rewrite length_fmap. replace (S (length (pd (h_inode h))) - length (pd (h_inode h)))%nat with 1%nat by lia.
      unfold ps. rewrite fmap_app. simpl.
      rewrite <- (length_fmap Some (pd (h_inode h))) at 1.
      by rewrite Nat.sub_0_r, insert_app_r_alt, Nat.sub_diag by lia. }
    lsimpl. lsteps. apply wp_malloc_true; [done|]. intros e'. unfold mwhen. lsimpl. lsteps.
    rewrite insert_insert_eq, Eps. unfold set_nPending. lsimpl.
    apply (release_lock_ok _ la (lkey p (h_inode h)) (want_cnt p (h_inode h) hs) (n_open p (h_inode h) hs));
      lsimpl; [apply (pk_locks _ _ _ _ _ _ OK)|done|lia|done|].
    intros lh ls T1 V1 L1.
    destruct (tbl_update oc_key (openHash pr) (openCnts pr) (okey (h_inode h)) oa
      (mkOpenCnt (okey (h_inode h)) (Z.of_nat (n_open p (h_inode h) hs)) (Z.of_nat (n_locked p (h_inode h) hs))
        (Z.of_nat (length (pd (h_inode h))) + 1) (Some <$> ps)))
      as [T2 V2]; [apply (pk_opens _ _ _ _ _ _ OK)|done|done|].
    apply (release_open_ok _ oa (okey (h_inode h)) (Z.of_nat (n_locked p (h_inode h) hs))
      (Z.of_nat (length (pd (h_inode h))) + 1) (Some <$> ps) (n_open p (h_inode h) hs));
      lsimpl; [done|done|lia|by rewrite lookup_insert_eq|].
    intros oh os T3 V3 L3.
    set (pd' := fun j => if decide (j = h_inode h) then ps else pd j).
    assert (Epd : pd' (h_inode h) = ps) by (unfold pd'; by rewrite decide_True).
    apply (HQ pd'); [|done|done].
    unfold set_openHash, set_openCnts, set_lockHash, set_lockInfos, set_fds, set_inMutex.
    lsimpl. apply (proc_close pd pd' pr); try done.
    + intros k. rewrite V1. case_decide; [|done]. subst k. by apply want_lock_delete.
    + intros k. rewrite V3. case_decide as D.
      * subst k. rewrite <- (want_open_delete ps pd') by by right.
      unfold ps. rewrite length_app. simpl. by rewrite Nat2Z.inj_add.
      * rewrite V2. by rewrite decide_False.
    + intros j Hj. unfold pd'. by rewrite decide_False.
    + rewrite Epd. unfold ps. apply NoDup_app. split; [apply (pk_nodup _ _ _ _ _ _ OK)|].
      split; [|apply NoDup_singleton]. intros n Hn ->%list_elem_of_singleton.
      pose proof (fo_uniq _ _ _ FO (fd f) (U_file id) (U_pend (h_inode h)) UF Hn). done.
    + apply (fds_rename _ _ (kind is_dir p base hs) FO (fd f) (U_file id) (U_pend (h_inode h))); [done|..].
      * intros m u. rewrite <- (uses_delete pd pr f m u) by done.
        destruct u as [|id'|id'|j]; simpl; try (split; [tauto|intros [?|[_ ?]]; [done|congruence]]).
        unfold pd'. case_decide as D.
        -- subst j. unfold ps. rewrite elem_of_app, list_elem_of_singleton.
           split; [intros [?| ->]; auto|intros [?|[-> _]]; auto].
        -- split; [tauto|intros [?|[_ ?]]; [done|congruence]].
      * intros m u k Hu Hm Hk. by apply (kind_delete m u k f pd (files pr)).
      * simpl. intros k (h' & E' & ->). simpl. congruence.
Qed.
End last.

Lemma delete_insert_same {V} (hs : gmap (Z * ptr) V) k v : delete k (<[k := v]> hs) = delete k hs.
Proof. by rewrite delete_insert_eq. Qed.

Lemma close_ok hs pd pr kl e id h : proc_ok is_dir p base hs pd pr -> locks_ok kl hs ->
  exclusive hs -> no_dirs is_dir hs -> hs !! (p, id) = Some h ->
  e_fcntl e = None -> hd true (e_mallocs e) = true ->
  wp (sqliteOsClose id) (result_ok is_dir p base (SQLITE_OK, delete (p, id) hs)) (fun _ => False)
    (mkW p pr kl e).
Proof.
  intros OK KL HX ND E HE HM. unfold sqliteOsClose. apply wp_bind.
  set (h1 := set_mode NoLock h). set (hs1 := <[(p, id) := h1]> hs).
  assert (E1 : hs1 !! (p, id) = Some h1) by apply lookup_insert_eq.
  assert (ND1 : no_dirs is_dir hs1).
  { intros k h0 [[<- <-]|[_ H]]%lookup_insert_Some; [apply (ND _ _ E)|by apply (ND k)]. }
  eapply wp_mono; [by apply (unlock_ok hs pd pr kl e OK KL HX id h)| |done].
  intros rc w ((_ & pd1 & OK1 & KL1) & Ep & Ee). destruct w as [p1 pr1 kl1 e1].
  cbn [getpid w_env w_proc w_locks snd] in Ep, Ee, OK1, KL1. subst p1 e1.
  fold h1 in OK1, KL1. fold hs1 in OK1, KL1.
  destruct (proc_located is_dir p base hs1 pd1 pr1 id h1 OK1 E1) as (f & la & oa & Ef & _).
  do 2 lstep. lsimpl. found.
  assert (HC : forall pr', proc_ok is_dir p base (<[(p, id) := unset_dir h1]> hs1) pd1 pr' ->
    files pr' !! id = Some (set_dirfd (-1) f) ->
    locks_ok kl1 (<[(p, id) := unset_dir h1]> hs1) ->
    wp (sqliteOsEnterMutex;; close_fd id;; sqliteOsLeaveMutex;; mret SQLITE_OK)
      (result_ok is_dir p base (SQLITE_OK, delete (p, id) hs)) (fun _ => False) (mkW p pr' kl1 e)).
  { intros pr2 OK2 _ KL2. pose proof (pk_mutex _ _ _ _ _ _ OK2) as HM2.
    do 2 lstep. lsimpl. apply wp_bind.
    apply (close_fd_ok (<[(p, id) := unset_dir h1]> hs1) id (unset_dir h1) (lookup_insert_eq _ _ _) eq_refl eq_refl pd1 pr2 kl1 e); try done.
    unfold hs1. rewrite insert_insert_eq, delete_insert_same.
    intros pd' pr' e' OK' HM' KL'. lsteps. split; [done|]. by exists pd'. }
  pose proof (close_dir_ok hs1 pd1 pr1 kl1 e id h1 f
    (fun _ w => wp (sqliteOsEnterMutex;; close_fd id;; sqliteOsLeaveMutex;; mret SQLITE_OK)
      (result_ok is_dir p base (SQLITE_OK, delete (p, id) hs)) (fun _ => False) w) OK1 KL1 ND1 E1 Ef HC) as HD.
  apply wp_unbind in HD. apply wp_bind. eapply wp_mono; [exact HD| |done].
  intros [] w' Hw. by apply wp_bind.
Qed.
End close.
