(* ===== verification/OsLockOpen.v ===== *)
(** Opening a file of [os.c]: the structures of its inode are found or made, and when
    there is no memory for them, everything is as before. *)
From S2P Require Import Prelude OsFile OsLocks OsLockSpec OsLockInv OsLockOps OsLockClose.

(** * Allocation *)

Definition with_mallocs (e : env) (bs : list bool) : env :=
  mkEnv (e_open e) (e_eisdir e) (e_open_ro e) (e_access e) (e_fstat e) bs (e_fcntl e).

Lemma wp_malloc_ok w Q C :
  Q (hd true (e_mallocs (w_env w)))
    (mkW (getpid w) (w_proc w) (w_locks w) (with_mallocs (w_env w) (tl (e_mallocs (w_env w))))) ->
  wp malloc_ok Q C w.
Proof.
  unfold wp, malloc_ok. intros H. destruct (e_mallocs (w_env w)) as [|b bs] eqn:E; [|exact H].
  destruct w as [p pr kl e]. simpl in *.
  replace (with_mallocs e []) with e in H by (destruct e; simpl in E; by subst). exact H.
Qed.

Definition have (bs : list bool) (n : nat) : bool := forallb (fun b => b) (take n bs).

Lemma have_S bs n : have bs (S n) = hd true bs && have (tl bs) n.
Proof. unfold have. destruct bs as [|b bs]; simpl; [by rewrite take_nil|done]. Qed.

(** * The two halves of [findLockInfo] *)

Lemma find_lock_old w k a l Q C : lockHash (w_proc w) !! k = Some a ->
  lockInfos (w_proc w) !! a = Some l ->
  Q (Some a) (mkW (getpid w)
    (set_lockInfos (<[a := set_li_nRef (li_nRef l + 1) l]> (lockInfos (w_proc w))) (w_proc w))
    (w_locks w) (w_env w)) ->
  wp (find_lock k) Q C w.
Proof. intros E1 E2 HQ. unfold find_lock. lsteps. rewrite E1. lsteps. exact HQ. Qed.

Lemma find_open_old w k pl a o Q C : openHash (w_proc w) !! k = Some a ->
  openCnts (w_proc w) !! a = Some o ->
  Q (Some a) (mkW (getpid w)
    (set_openCnts (<[a := set_oc_nRef (oc_nRef o + 1) o]> (openCnts (w_proc w))) (w_proc w))
    (w_locks w) (w_env w)) ->
  wp (find_open k pl) Q C w.
Proof. intros E1 E2 HQ. unfold find_open. lsteps. rewrite E1. lsteps. exact HQ. Qed.

Lemma fresh_none {V} (s : gmap ptr V) : s !! fresh (dom s) = None.
Proof. apply not_elem_of_dom, is_fresh. Qed.

Lemma find_lock_new p pr kl e k Q C : lockHash pr !! k = None ->
  let a := fresh (dom (lockInfos pr)) in let bs := e_mallocs e in
  (have bs 2 = true ->
   Q (Some a) (mkW p (set_lockHash (<[k := a]> (lockHash pr))
     (set_lockInfos (<[a := mkLockInfo k 0 1]> (lockInfos pr)) pr)) kl (with_mallocs e (tl (tl bs))))) ->
  (have bs 2 = false -> forall e', Q None (mkW p pr kl e')) ->
  wp (find_lock k) Q C (mkW p pr kl e).
Proof.
  intros E a bs H1 H2. rewrite !have_S in H1, H2. unfold find_lock, malloc_lock. lsteps. rewrite E.
  lsteps. apply wp_malloc_ok. lsimpl. fold bs.
  destruct (hd true bs) eqn:B1; simpl in H1, H2; [|lsteps; by apply H2]. lsteps. fold a.
  unfold lockHash_insert. lsteps. rewrite E. lsteps. apply wp_malloc_ok. lsimpl.
  simpl (e_mallocs _). fold bs. destruct (hd true (tl bs)) eqn:B2; simpl in H1, H2.
  - lsteps. exact (H1 eq_refl).
  - lsteps. apply wp_assert; [by apply bool_decide_true|]. unfold free_lock. lsteps.
    rewrite delete_insert_id by apply fresh_none. destruct pr. by apply H2.
Qed.

Lemma find_open_new p pr kl e k pl Q C : openHash pr !! k = None ->
  let a := fresh (dom (openCnts pr)) in let bs := e_mallocs e in
  (have bs 2 = true ->
   Q (Some a) (mkW p (set_openHash (<[k := a]> (openHash pr))
     (set_openCnts (<[a := mkOpenCnt k 1 0 0 []]> (openCnts pr)) pr)) kl (with_mallocs e (tl (tl bs))))) ->
  (have bs 2 = false -> forall e', wp (releaseLockInfo pl) (fun _ => Q None) C (mkW p pr kl e')) ->
  wp (find_open k pl) Q C (mkW p pr kl e).
Proof.
  intros E a bs H1 H2. rewrite !have_S in H1, H2. unfold find_open, malloc_open. lsteps. rewrite E.
  lsteps. apply wp_malloc_ok. lsimpl. fold bs.
  destruct (hd true bs) eqn:B1; simpl in H1, H2;
    [|lsteps; eapply wp_mono; [by apply H2|intros [] w' Hw; exact Hw|done]]. lsteps. fold a.
  unfold openHash_insert. lsteps. rewrite E. lsteps. apply wp_malloc_ok. lsimpl.
  simpl (e_mallocs _). fold bs. destruct (hd true (tl bs)) eqn:B2; simpl in H1, H2.
  - lsteps. exact (H1 eq_refl).
  - lsteps. apply wp_assert; [by apply bool_decide_true|]. unfold free_open. lsteps.
    rewrite delete_insert_id by apply fresh_none. destruct pr.
    eapply wp_mono; [by apply H2|intros [] w' Hw; exact Hw|done].
Qed.

Section opening.
Context (is_dir : inode -> bool) (p : Z) (base : list (option kfd)).
Context (hs : handles) (pd : inode -> list Z) (pr : proc) (kl : klocks) (id : ptr).
Context (OK : proc_ok is_dir p base hs pd pr) (KL : locks_ok kl hs) (EN : hs !! (p, id) = None).

(** The tables when the files [hs'] are open; [hs'] differs from [hs] at [i]. *)
Record tables_for (i : inode) (hs' : handles) (lh : gmap lockKey ptr) (ls : gmap ptr lockInfo)
    (oh : gmap openKey ptr) (os : gmap ptr openCnt) : Prop := {
  tf_locks : tbl_ok li_key lh ls;
  tf_lock k : view lh ls k =
    if decide (k = lkey p i) then want_lock p hs' k else view (lockHash pr) (lockInfos pr) k;
  tf_opens : tbl_ok oc_key oh os;
  tf_open k : view oh os k =
    if decide (k = okey i) then want_open p hs' pd k else view (openHash pr) (openCnts pr) k;
  tf_lh id' h : hs !! (p, id') = Some h -> lh !! lkey p (h_inode h) = lockHash pr !! lkey p (h_inode h);
  tf_oh id' h : hs !! (p, id') = Some h -> oh !! okey (h_inode h) = openHash pr !! okey (h_inode h)
}.

Lemma found_at i : (0 < n_open p i hs)%nat ->
  exists la oa, lockHash pr !! lkey p i = Some la /\
    lockInfos pr !! la = Some (mkLockInfo (lkey p i) (want_cnt p i hs) (Z.of_nat (n_open p i hs))) /\
    openHash pr !! okey i = Some oa /\
    openCnts pr !! oa = Some (mkOpenCnt (okey i) (Z.of_nat (n_open p i hs))
      (Z.of_nat (n_locked p i hs)) (Z.of_nat (length (pd i))) (Some <$> pd i)).
Proof.
  intros HN. pose proof (pk_want_lock _ _ _ _ _ _ OK (lkey p i)) as V1.
  pose proof (pk_want_open _ _ _ _ _ _ OK (okey i)) as V2.
  rewrite want_lock_at in V1 by done. rewrite want_open_at in V2 by done.
  apply (view_some li_key) in V1 as (la & A1 & A2 & _); [|by apply (pk_locks _ _ _ _ _ _ OK)].
  apply (view_some oc_key) in V2 as (oa & B1 & B2 & _); [|by apply (pk_opens _ _ _ _ _ _ OK)].
  by exists la, oa.
Qed.

Lemma want_lock_0 hs0 i : n_open p i hs0 = O -> want_lock p hs0 (lkey p i) = None.
Proof.
  intros E. unfold want_lock. cbv zeta.
  replace (lock_inode (lkey p i)) with i by (unfold lock_inode; by destruct i).
  by rewrite E, andb_false_r.
Qed.
Lemma want_open_0 hs0 pd0 i : n_open p i hs0 = O -> want_open p hs0 pd0 (okey i) = None.
Proof.
  intros E. unfold want_open. cbv zeta.
  replace (open_inode (okey i)) with i by (unfold open_inode; by destruct i). by rewrite E.
Qed.

Lemma absent_at i : n_open p i hs = O -> lockHash pr !! lkey p i = None /\ openHash pr !! okey i = None.
Proof.
  intros HN. split.
  - apply (view_none li_key _ (lockInfos pr)); [by apply (pk_locks _ _ _ _ _ _ OK)|].
    rewrite (pk_want_lock _ _ _ _ _ _ OK). by apply want_lock_0.
  - apply (view_none oc_key _ (openCnts pr)); [by apply (pk_opens _ _ _ _ _ _ OK)|].
    rewrite (pk_want_open _ _ _ _ _ _ OK). by apply want_open_0.
Qed.

Lemma lkey_inj i j : lkey p i = lkey p j -> i = j.
Proof. unfold lkey. destruct i, j. simpl. congruence. Qed.
Lemma okey_inj i j : okey i = okey j -> i = j.
Proof. unfold okey. destruct i, j. simpl. congruence. Qed.

(** The counts with the new file. *)
Lemma counts_new i w : let hs' := <[(p, id) := mkH i w NoLock false]> hs in
  n_open p i hs' = S (n_open p i hs) /\ n_locked p i hs' = n_locked p i hs /\
  n_write p i hs' = n_write p i hs.
Proof.
  cbv zeta. set (h := mkH i w NoLock false).
  assert (EO : of_inode p i (p, id) h = true) by by apply of_inode_true.
  unfold n_open, n_mode. rewrite !count_new, EO by done.
  split_and!; [done|by rewrite (bool_decide_false (is_locked (h_mode h))) by (by intros [])|done].
Qed.

(** No other file of the inode is open. *)
Lemma other_inode i id' h : n_open p i hs = O -> hs !! (p, id') = Some h -> h_inode h <> i.
Proof. intros HN H <-. pose proof (n_open_pos p id' h hs H). lia. Qed.

(** Tables in which only the counts of references of the inode went up. *)
Lemma tables_old i w la oa : (0 < n_open p i hs)%nat ->
  lockHash pr !! lkey p i = Some la -> openHash pr !! okey i = Some oa ->
  tables_for i (<[(p, id) := mkH i w NoLock false]> hs) (lockHash pr)
    (<[la := mkLockInfo (lkey p i) (want_cnt p i hs) (Z.of_nat (n_open p i hs) + 1)]> (lockInfos pr))
    (openHash pr)
    (<[oa := mkOpenCnt (okey i) (Z.of_nat (n_open p i hs) + 1)
      (Z.of_nat (n_locked p i hs)) (Z.of_nat (length (pd i))) (Some <$> pd i)]> (openCnts pr)).
Proof.
  intros HN Hl Ho. destruct (counts_new i w) as (E1 & E2 & E3).
  destruct (tbl_update li_key _ _ _ la (mkLockInfo (lkey p i) (want_cnt p i hs) (Z.of_nat (n_open p i hs) + 1))
    (pk_locks _ _ _ _ _ _ OK) Hl eq_refl) as [T1 V1].
  destruct (tbl_update oc_key _ _ _ oa (mkOpenCnt (okey i) (Z.of_nat (n_open p i hs) + 1)
      (Z.of_nat (n_locked p i hs)) (Z.of_nat (length (pd i))) (Some <$> pd i))
    (pk_opens _ _ _ _ _ _ OK) Ho eq_refl) as [T2 V2].
  split; try done.
  - intros k. rewrite V1. case_decide; [|done]. subst k. rewrite want_lock_at by lia.
    unfold want_cnt. rewrite E1, E2, E3. do 2 f_equal. lia.
  - intros k. rewrite V2. case_decide; [|done]. subst k. rewrite want_open_at by lia.
    rewrite E1, E2. do 2 f_equal. lia.
Qed.

(** Tables with new structures. *)
Lemma tables_new i w la oa : n_open p i hs = O ->
  lockInfos pr !! la = None -> openCnts pr !! oa = None ->
  tables_for i (<[(p, id) := mkH i w NoLock false]> hs)
    (<[lkey p i := la]> (lockHash pr)) (<[la := mkLockInfo (lkey p i) 0 1]> (lockInfos pr))
    (<[okey i := oa]> (openHash pr)) (<[oa := mkOpenCnt (okey i) 1 0 0 []]> (openCnts pr)).
Proof.
  intros HN Hl Ho. destruct (counts_new i w) as (E1 & E2 & E3). destruct (absent_at i HN) as [A1 A2].
  pose proof (n_mode_le is_locked p i hs). pose proof (n_write_le p i hs).
  destruct (tbl_new li_key _ _ (lkey p i) la (mkLockInfo (lkey p i) 0 1)
    (pk_locks _ _ _ _ _ _ OK) A1 Hl eq_refl) as [T1 V1].
  destruct (tbl_new oc_key _ _ (okey i) oa (mkOpenCnt (okey i) 1 0 0 [])
    (pk_opens _ _ _ _ _ _ OK) A2 Ho eq_refl) as [T2 V2].
  assert (Epd : pd i = []) by (apply (pk_pend _ _ _ _ _ _ OK); lia).
  split; try done.
  - intros k. rewrite V1. case_decide; [|done]. subst k. rewrite want_lock_at by lia.
    rewrite want_cnt_0 by lia. rewrite E1, E2. do 2 f_equal; lia.
  - intros k. rewrite V2. case_decide; [|done]. subst k. rewrite want_open_at by lia.
    rewrite E1, E2, Epd. simpl. do 2 f_equal; lia.
  - intros id' h Hh. apply lookup_insert_ne. intros C. by apply (other_inode i id' h), eq_sym, lkey_inj.
  - intros id' h Hh. apply lookup_insert_ne. intros C. by apply (other_inode i id' h), eq_sym, okey_inj.
Qed.

(** ** findLockInfo *)

(** A process that has opened [n], with the [OsFile] half filled in. *)
Definition half_open (l : list (option kfd)) lh oh ls os (f : OsFile) (m : bool) : proc :=
  mkProc l lh oh ls os (<[id := f]> (files pr)) m.

Lemma tables_same i lh ls oh os :
  tbl_ok li_key lh ls ->
  (forall k, view lh ls k = view (lockHash pr) (lockInfos pr) k) ->
  (forall k, k <> lkey p i -> lh !! k = lockHash pr !! k) ->
  tbl_ok oc_key oh os -> (forall k, view oh os k = view (openHash pr) (openCnts pr) k) ->
  oh = openHash pr -> n_open p i hs = O ->
  tables_for i hs lh ls oh os.
Proof.
  intros T1 V1 L1 T2 V2 -> HN. split; try done.
  - intros k. rewrite V1. case_decide; [|done]. apply (pk_want_lock _ _ _ _ _ _ OK).
  - intros k. rewrite V2. case_decide; [|done]. apply (pk_want_open _ _ _ _ _ _ OK).
  - intros id' h Hh. apply L1. intros C. by apply (other_inode i id' h HN Hh), lkey_inj.
Qed.

Lemma findLockInfo_ok i w l n f e Q :
  fd_lookup n l = Some (mkKfd i w) -> e_fstat e = true ->
  let st l := half_open l (lockHash pr) (openHash pr) (lockInfos pr) (openCnts pr) f true in
  let enough := (0 <? n_open p i hs)%nat || have (e_mallocs e) 4 in
  (enough = true -> forall lh oh ls os a b e',
     tables_for i (<[(p, id) := mkH i w NoLock false]> hs) lh ls oh os ->
     lh !! lkey p i = Some a -> oh !! okey i = Some b ->
     Q 0 (mkW p (half_open l lh oh ls os (set_pOpen b (set_pLock a f)) true) kl e')) ->
  (enough = false -> forall lh oh ls os f' e',
     tables_for i hs lh ls oh os -> fd f' = fd f ->
     Q 1 (mkW p (half_open l lh oh ls os f' true) kl e')) ->
  wp (findLockInfo n id) Q (fun _ => False) (mkW p (st l) kl e).
Proof.
  intros En Ef st enough H1 H0. subst st enough. unfold half_open in *. unfold findLockInfo, sys_fstat. lsteps. rewrite Ef. lsteps.
  rewrite En. simpl. destruct i as [dev ino] eqn:Ei. lsteps.
  change (mkLockKey dev ino p) with (lkey p (dev, ino)). change (mkOpenKey dev ino) with (okey (dev, ino)).
  rewrite <- Ei in *. clear Ei dev ino.
  pose proof (pk_locks _ _ _ _ _ _ OK) as T1. pose proof (pk_opens _ _ _ _ _ _ OK) as T2.
  destruct (Nat.ltb_spec 0 (n_open p i hs)) as [HN|HN].
  - destruct (found_at i HN) as (la & oa & Hl & Ll & Ho & Lo).
    eapply find_lock_old; [exact Hl|exact Ll|]. lsimpl. lsteps.
    eapply find_open_old; [exact Ho|exact Lo|]. lsimpl. lsteps.
    rewrite !insert_insert_eq. flat. apply (H1 eq_refl); [|done|done]. by apply tables_old.
  - assert (HN0 : n_open p i hs = O) by lia. clear HN.
    destruct (absent_at i HN0) as [A1 A2]. simpl in H1, H0.
    replace (have (e_mallocs e) 4) with (have (e_mallocs e) 2 && have (tl (tl (e_mallocs e))) 2) in H1, H0
      by by rewrite !have_S, andb_true_r, !andb_assoc.
    apply find_lock_new; [done|..]; lsimpl.
    + intros B1. rewrite B1 in H1, H0. simpl in H1, H0. lsteps.
      set (la := fresh (dom (lockInfos pr))).
      assert (Hla : lockInfos pr !! la = None) by apply fresh_none.
      apply find_open_new; [done|..]; lsimpl; simpl (e_mallocs _).
      * intros B2. lsteps. rewrite !insert_insert_eq. flat.
        apply (H1 B2); [|apply lookup_insert_eq|apply lookup_insert_eq].
        apply tables_new; [done|done|apply fresh_none].
      * intros B2 e'.
        destruct (tbl_new li_key _ _ (lkey p i) la (mkLockInfo (lkey p i) 0 1) T1 A1 Hla eq_refl) as [T3 V3].
        apply (release_lock_ok _ la (lkey p i) 0 1); lsimpl;
          [exact T3|apply lookup_insert_eq|lia|apply lookup_insert_eq|].
        intros lh ls T4 V4 L4. lsteps. flat. rewrite insert_insert_eq. apply (H0 B2); [|done].
        apply tables_same; try done.
        -- intros k. rewrite V4. case_decide as D; [|by rewrite V3, decide_False].
           subst k. unfold view. by rewrite A1.
        -- intros k Hk. rewrite L4 by by left. by apply lookup_insert_ne.
    + intros B1 e'. rewrite B1 in H0. simpl in H0. lsteps. flat. apply (H0 eq_refl); [|done]. by apply tables_same.
Qed.

(** ** Opening *)

Lemma fds_ext l l' U K : fds_ok l U K -> (forall m, fd_lookup m l' = fd_lookup m l) -> fds_ok l' U K.
Proof.
  intros H HE. split.
  - apply (fo_uniq _ _ _ H).
  - intros n u Hu. rewrite HE. by apply (fo_open _ _ _ H).
  - intros n k. rewrite HE. apply (fo_used _ _ _ H).
Qed.

(** The [OsFile] of a file that is not open is of no use. *)
Lemma uses_other f m u : uses p base (<[id := f]> (files pr)) hs pd m u <-> uses p base (files pr) hs pd m u.
Proof.
  destruct u as [|id'|id'|j]; simpl; try done.
  - destruct (decide (id' = id)) as [->|N]; [|by rewrite lookup_insert_ne by congruence].
    rewrite EN. split; by intros (? & ? & ? & _).
  - destruct (decide (id' = id)) as [->|N]; [|by rewrite lookup_insert_ne by congruence].
    rewrite EN. split; by intros (? & ? & ? & _).
Qed.

Lemma uses_new f i w m u : dirfd f = -1 ->
  uses p base (<[id := f]> (files pr)) (<[(p, id) := mkH i w NoLock false]> hs) pd m u <->
  uses p base (files pr) hs pd m u \/ m = fd f /\ u = U_file id.
Proof.
  intros Hd. destruct u as [|id'|id'|j]; simpl; try (split; [tauto|intros [?|[_ ?]]; [done|congruence]]).
  - destruct (decide (id' = id)) as [->|N].
    + rewrite !lookup_insert_eq, EN. split.
      * intros (h & f' & [= <-] & [= <-] & <-). by right.
      * intros [(? & ? & ? & _)|[-> _]]; [done|]. eauto.
    + rewrite !lookup_insert_ne by congruence. split; [tauto|intros [?|[_ ?]]; [done|congruence]].
  - destruct (decide (id' = id)) as [->|N].
    + rewrite !lookup_insert_eq, EN. split.
      * by intros (h & f' & [= <-] & [= <-] & ? & _).
      * intros [(? & ? & ? & _)|[_ ?]]; congruence.
    + rewrite !lookup_insert_ne by congruence. split; [tauto|intros [?|[_ ?]]; [done|congruence]].
Qed.

Lemma kind_new i w m u k : kind is_dir p base hs m u k ->
  kind is_dir p base (<[(p, id) := mkH i w NoLock false]> hs) m u k.
Proof.
  destruct u as [|id'|id'|j]; simpl; try done. intros (h & E & ->).
  rewrite lookup_insert_ne by congruence. eauto.
Qed.

(** A process whose tables are for [hs']. *)
Lemma proc_tables i hs' l lh ls oh os fl :
  tables_for i hs' lh ls oh os -> agree_off p i hs hs' ->
  n_locked p i hs' = n_locked p i hs ->
  (forall id' h, hs' !! (p, id') = Some h -> file_ok p (mkProc l lh oh ls os fl false) id' h) ->
  fds_ok l (uses p base fl hs' pd) (kind is_dir p base hs') ->
  proc_ok is_dir p base hs' pd (mkProc l lh oh ls os fl false).
Proof.
  intros [T1 V1 T2 V2 L1 L2] HA HL HF HU.
  apply (proc_change is_dir p base i hs hs' pd pd pr); try done.
  - rewrite HL. apply (pk_pend _ _ _ _ _ _ OK).
  - apply (pk_nodup _ _ _ _ _ _ OK).
Qed.

(** The files that were open before still find their structures. *)
Lemma other_file_ok i hs' l lh ls oh os f id' h : tables_for i hs' lh ls oh os ->
  hs !! (p, id') = Some h -> file_ok p (mkProc l lh oh ls os (<[id := f]> (files pr)) false) id' h.
Proof.
  intros [T1 V1 T2 V2 L1 L2] E.
  destruct (pk_file _ _ _ _ _ _ OK id' h E) as (f' & Ef & A1 & A2 & A3 & A4).
  exists f'. simpl. rewrite lookup_insert_ne by (intros ->; congruence).
  split_and!; try done; [rewrite (L1 id' h E)|rewrite (L2 id' h E)]; done.
Qed.

Lemma open_finish_ok i w n l f e :
  fd_alloc (mkKfd i w) (fds pr) = (n, l) -> fd f = Z.of_nat n -> dirfd f = -1 -> e_fstat e = true ->
  wp (open_finish id (mret tt))
    (result_ok is_dir p base
       (if (0 <? n_open p i hs)%nat || have (e_mallocs e) 4
        then (SQLITE_OK, <[(p, id) := mkH i w NoLock false]> hs) else (SQLITE_NOMEM, hs)))
    (fun _ => False)
    (mkW p (half_open l (lockHash pr) (openHash pr) (lockInfos pr) (openCnts pr) f false) kl e).
Proof.
  intros Ea Ef Ed He. destruct (fd_alloc_spec _ _ _ _ Ea) as [En El].
  assert (EL : fd_lookup (fd f) l = Some (mkKfd i w)) by (rewrite Ef, El; by rewrite decide_True).
  pose proof (pk_fds _ _ _ _ _ _ OK) as FO. destruct (counts_new i w) as (C1 & C2 & C3).
  unfold open_finish, half_open. lstep. lstep. flat. lstep. lstep. lsimpl. rewrite lookup_insert_eq.
  change (default raw_file (Some f)) with f. lstep.
  apply (findLockInfo_ok i w l (fd f) f e); [done|done|..]; intros HE.
  - intros lh oh ls os a b e' TF Ha Hb. rewrite HE. unfold half_open. lsteps. flat.
    change (negb (0 =? 0)) with false. lsimpl. lsteps. flat.
    split; [done|]. exists pd. simpl. rewrite insert_insert_eq.
    pose proof (agree_new p id (mkH i w NoLock false) hs EN) as HA. split.
    + apply (proc_tables i); [exact TF|exact HA|done|..].
      * intros id' h' [[[= <-] <-]|[N E]]%lookup_insert_Some; [|by eapply other_file_ok].
        eexists. simpl. rewrite lookup_insert_eq. split; [done|]. simpl. by rewrite Ha, Hb.
      * apply (fds_add _ _ _ FO (Z.of_nat n) _ (U_file id) (mkKfd i w)); [done|done|..].
        -- intros m u. rewrite uses_new by done. simpl. by rewrite Ef.
        -- intros m u k _. apply kind_new.
        -- simpl. exists (mkH i w NoLock false). by rewrite lookup_insert_eq.
    + apply (locks_keep p i kl hs); [done|exact HA|]. unfold want_klock. by rewrite C2, C3.
  - intros lh oh ls os f' e' TF Ef'. rewrite HE. apply orb_false_iff in HE as [HN _].
    apply Nat.ltb_ge in HN. unfold half_open. lsteps. flat.
    change (negb (1 =? 0)) with true. lsimpl. lsteps. rewrite Ef'.
    apply (os_wp_close _ _ (mkKfd i w)); [done|]. flat. lsteps. flat.
    rewrite delete_id.
    2:{ rewrite KL. pose proof (n_mode_le is_locked p i hs). pose proof (n_write_le p i hs).
        apply want_klock_u; lia. }
    split; [done|]. exists pd. simpl. split; [|done].
    apply (proc_tables i); [done|by intros q j _; split_and!|done|..].
    + intros id' h' E. by eapply other_file_ok.
    + apply (fds_ext (fds pr)).
      * apply (fds_same _ _ _ FO); [|done]. intros m u. apply uses_other.
      * intros m. rewrite fd_close_lookup, El by lia. rewrite Ef.
        case_decide; [by subst m|done].
Qed.

Lemma proc_other_file f : proc_ok is_dir p base hs pd
  (mkProc (fds pr) (lockHash pr) (openHash pr) (lockInfos pr) (openCnts pr) (<[id := f]> (files pr)) false).
Proof.
  destruct OK as [M1 T1 T2 V1 V2 F1 P1 P2 D1]. split; try done.
  - intros id' h E. destruct (F1 id' h E) as (f' & Ef & H). exists f'. simpl.
    rewrite lookup_insert_ne by (intros ->; congruence). done.
  - apply (fds_same _ _ _ D1); [|done]. intros m u. apply uses_other.
Qed.

Lemma wp_sys_open w what wr Q C :
  (what (w_env w) = None -> Q (-1) w) ->
  (forall i n l, what (w_env w) = Some i -> fd_alloc (mkKfd i wr) (fds (w_proc w)) = (n, l) ->
    Q (Z.of_nat n) (mkW (getpid w) (set_fds l (w_proc w)) (w_locks w) (w_env w))) ->
  wp (sys_open what wr) Q C w.
Proof.
  intros H0 H1. unfold sys_open. lsteps. destruct (what (w_env w)) as [i|] eqn:E; [|lsteps; by apply H0].
  lsteps. destruct (fd_alloc (mkKfd i wr) (fds (w_proc w))) as [n l] eqn:Ea. lsteps. by apply (H1 i).
Qed.

Lemma cantopen_ok f e : result_ok is_dir p base (SQLITE_CANTOPEN, hs) SQLITE_CANTOPEN
  (mkW p (mkProc (fds pr) (lockHash pr) (openHash pr) (lockInfos pr) (openCnts pr)
            (<[id := f]> (files pr)) false) kl e).
Proof. split; [done|]. exists pd. split; [apply proc_other_file|done]. Qed.

(** What the machine does in the three functions. *)
Lemma do_open_some c e i w : opens c e = Some (i, w) ->
  do_open hs p id c e = if (0 <? n_open p i hs)%nat || have (e_mallocs e) 4
    then (SQLITE_OK, <[(p, id) := mkH i w NoLock false]> hs) else (SQLITE_NOMEM, hs).
Proof. unfold do_open. by intros ->. Qed.

(** After [open] succeeded and the descriptor is stored. *)
Ltac opened :=
  match goal with Ea : fd_alloc _ _ = (?n, _) |- _ =>
    replace (Z.of_nat n <? 0) with false by (symmetry; apply Z.ltb_ge; lia)
  end; lsimpl; flat; rewrite ?insert_insert_eq.

Lemma open_read_only_ok e : e_fstat e = true ->
  wp (sqliteOsOpenReadOnly id) (result_ok is_dir p base (do_open hs p id (OpenReadOnly id) e))
    (fun _ => False) (mkW p pr kl e).
Proof.
  intros He. unfold sqliteOsOpenReadOnly. pose proof (pk_mutex _ _ _ _ _ _ OK) as HM.
  lsteps. apply wp_sys_open; lsimpl.
  - intros E. lsteps. change (-1 <? 0) with true. lsimpl. lsteps. flat.
    rewrite insert_insert_eq, HM. unfold do_open, opens. rewrite E. apply cantopen_ok.
  - intros i n l E Ea. lsteps. opened.
    rewrite (do_open_some _ e i false) by (simpl; by rewrite E). rewrite HM.
    by apply (open_finish_ok i false n l).
Qed.

Lemma open_exclusive_ok e : e_fstat e = true ->
  wp (sqliteOsOpenExclusive id) (result_ok is_dir p base (do_open hs p id (OpenExclusive id) e))
    (fun _ => False) (mkW p pr kl e).
Proof.
  intros He. unfold sqliteOsOpenExclusive. pose proof (pk_mutex _ _ _ _ _ _ OK) as HM.
  lsteps. destruct (e_access e) eqn:EA.
  { lsteps. unfold do_open, opens. rewrite EA. split; [done|]. by exists pd. }
  lsteps. apply wp_sys_open; lsimpl.
  - intros E. lsteps. change (-1 <? 0) with true. lsimpl. lsteps. flat.
    rewrite insert_insert_eq, HM. unfold do_open, opens. rewrite EA, E. apply cantopen_ok.
  - intros i n l E Ea. lsteps. opened.
    rewrite (do_open_some _ e i true) by (simpl; by rewrite EA, E). rewrite HM.
    by apply (open_finish_ok i true n l).
Qed.

Lemma open_read_write_ok e : e_fstat e = true ->
  wp (sqliteOsOpenReadWrite id) (fun r => result_ok is_dir p base (do_open hs p id (OpenReadWrite id) e) r.1)
    (fun _ => False) (mkW p pr kl e).
Proof.
  intros He. unfold sqliteOsOpenReadWrite. pose proof (pk_mutex _ _ _ _ _ _ OK) as HM.
  lsteps. apply wp_sys_open; lsimpl.
  - intros E. lsteps. change (-1 <? 0) with true. lsimpl.
    destruct (e_eisdir e) eqn:EE.
    { lsteps. flat. rewrite insert_insert_eq, HM. unfold do_open, opens. rewrite E, EE. apply cantopen_ok. }
    lsteps. apply wp_sys_open; lsimpl.
    + intros E2. lsteps. change (-1 <? 0) with true. lsimpl. lsteps. flat.
      rewrite !insert_insert_eq, HM. unfold do_open, opens. rewrite E, EE, E2. apply cantopen_ok.
    + intros i n l E2 Ea. lsteps. opened. apply wp_bind.
      rewrite (do_open_some _ e i false) by (simpl; by rewrite E, EE, E2). rewrite HM.
      eapply wp_mono; [by apply (open_finish_ok i false n l)| |done].
      intros rc w Hw. by lsteps.
  - intros i n l E Ea. lsteps. opened. apply wp_bind.
    rewrite (do_open_some _ e i true) by (simpl; by rewrite E). rewrite HM.
    eapply wp_mono; [by apply (open_finish_ok i true n l)| |done].
    intros rc w Hw. by lsteps.
Qed.
End opening.

(** ** Opening the directory *)

Section directory.
Context (is_dir : inode -> bool) (p : Z) (base : list (option kfd)).

Lemma uses_dir hs pd fl id h f n m u : hs !! (p, id) = Some h -> fl !! id = Some f -> h_dir h = false ->
  uses p base (<[id := set_dirfd n f]> fl) (<[(p, id) := set_dir h]> hs) pd m u <->
  uses p base fl hs pd m u \/ m = n /\ u = U_dir id.
Proof.
  intros E Ef Ed. destruct u as [|id'|id'|j]; simpl; try (split; [tauto|intros [?|[_ ?]]; [done|congruence]]).
  - destruct (decide (id' = id)) as [->|N].
    + rewrite !lookup_insert_eq, E, Ef. split.
      * intros (h' & f' & [= <-] & [= <-] & H). left. eauto.
      * intros [(h' & f' & [= <-] & [= <-] & H)|[_ ?]]; [eauto|congruence].
    + rewrite !lookup_insert_ne by congruence. split; [tauto|intros [?|[_ ?]]; [done|congruence]].
  - destruct (decide (id' = id)) as [->|N].
    + rewrite !lookup_insert_eq, E, Ef. split.
      * intros (h' & f' & [= <-] & [= <-] & _ & <-). by right.
      * intros [(h' & f' & [= <-] & _ & ? & _)|[-> _]]; [congruence|]. eauto 6.
    + rewrite !lookup_insert_ne by congruence. split; [tauto|intros [?|[_ ?]]; [done|congruence]].
Qed.

Lemma open_directory_ok hs pd pr kl e id h : proc_ok is_dir p base hs pd pr -> locks_ok kl hs ->
  hs !! (p, id) = Some h -> h_dir h = false -> (forall i, e_open_ro e = Some i -> is_dir i = true) ->
  wp (sqliteOsOpenDirectory id) (result_ok is_dir p base (do_call hs p (OpenDirectory id) e))
    (fun _ => False) (mkW p pr kl e).
Proof.
  intros OK KL E Ed HD. unfold sqliteOsOpenDirectory.
  destruct (proc_located is_dir p base hs pd pr id h OK E)
    as (f & la & oa & Ef & EL & EO & Elk & Edir & _).
  pose proof (proc_fd is_dir p base hs pd pr OK id h f E Ef) as EF. apply fd_lookup_nonneg in EF.
  lsteps. rewrite (proj2 (Z.ltb_ge _ _) EF). rewrite (Edir Ed). lsteps. apply wp_assert; [done|].
  apply wp_bind. apply wp_sys_open; lsimpl.
  - intros EO'. lsteps. change (-1 <? 0) with true. lsimpl. lsteps. simpl. rewrite E, EO'.
    split; [done|]. exists pd. simpl. rewrite insert_id; [by destruct pr|].
    rewrite Ef. f_equal. destruct f. simpl in *. by rewrite (Edir Ed).
  - intros i n l EO' Ea. lsteps.
    replace (Z.of_nat n <? 0) with false by (symmetry; apply Z.ltb_ge; lia). lsteps. flat.
    simpl. rewrite E, EO'. split; [done|]. exists pd. simpl.
    destruct (fd_alloc_spec _ _ _ _ Ea) as [En El]. split.
    + apply (proc_dir is_dir p base hs pd pr id h (set_dir h) f); try done.
      apply (fds_add _ _ _ (pk_fds _ _ _ _ _ _ OK) (Z.of_nat n) _ (U_dir id) (mkKfd i false)); [done|done|..].
      * intros m u. by apply uses_dir.
      * intros m u k _. by apply (kind_mode is_dir p base hs id h).
      * simpl. by apply HD.
    + apply (locks_keep p (h_inode h) kl hs); [done|by apply agree_update|].
      apply want_klock_same. by apply same_counts_mode.
Qed.
End directory.
