(* ===== verification/OsLockRefine.v ===== *)
(** The locks of [os.c] refine the machine of readers and writers, whatever the
    processes do and however their calls are interleaved. *)
From S2P Require Import Prelude OsFile OsLocks OsLockSpec OsLockInv OsLockOps OsLockClose OsLockOpen.

(** * One call *)

Lemma call_ok is_dir p base hs pd pr kl c e a : proc_ok is_dir p base hs pd pr -> locks_ok kl hs ->
  exclusive hs -> no_dirs is_dir hs -> opened a = hs ->
  entitled a (E_call p c e) -> system_ok is_dir (E_call p c e) ->
  wp (run_call c) (result_ok is_dir p base (do_call hs p c e)) (fun _ => False) (mkW p pr kl e).
Proof.
  intros OK KL HX ND <- [_ HE] HS. destruct c as [id|id|id|id|id|id|id|id]; simpl in *.
  - destruct HS as [He _]. apply wp_bind. eapply wp_mono; [by apply (open_read_write_ok is_dir p base (opened a) pd)| |done].
    intros r w Hw. exact Hw.
  - destruct HS as [He _]. by apply (open_exclusive_ok is_dir p base (opened a) pd).
  - destruct HS as [He _]. by apply (open_read_only_ok is_dir p base (opened a) pd).
  - destruct (opened a !! (p, id)) as [h|] eqn:E; [|done].
    pose proof (open_directory_ok is_dir p base (opened a) pd pr kl e id h OK KL E HE) as HD.
    simpl in HD. rewrite E in HD. apply HD. intros i Ei. by rewrite Ei in HS.
  - destruct HE as [h E]. rewrite E. by apply (read_lock_ok is_dir p base (opened a) pd).
  - destruct HE as [h E]. rewrite E. by apply (write_lock_ok is_dir p base (opened a) pd).
  - destruct HE as [h E]. rewrite E.
    eapply wp_mono; [by apply (unlock_ok is_dir p base (opened a) pd _ _ _ OK KL HX id h)| |done].
    intros rc w Hw. apply Hw.
  - destruct HE as [h E], HS as [HS1 HS2]. by apply (close_ok is_dir p base (opened a) pd _ _ _ id h).
Qed.

(** * Other processes *)

(** The files of a process. *)
Definition same_files (q : Z) (hs hs' : handles) : Prop := forall id, hs' !! (q, id) = hs !! (q, id).

Lemma same_files_counts q hs hs' j : same_files q hs hs' -> same_counts q j hs hs'.
Proof.
  intros H. assert (HC : forall P : Z * ptr -> ahandle -> bool, (forall k h, P k h = true -> k.1 = q) ->
    count_h P hs' = count_h P hs).
  { intros P HP. apply count_ext. intros [q' id] h. split; intros [E Hk]; (split; [|done]);
      pose proof (HP _ _ Hk) as Eq; simpl in Eq; subst q'; [by rewrite <- H|by rewrite H]. }
  split_and!; apply HC; intros k h; rewrite ?n_mode_true, ?of_inode_true; tauto.
Qed.

Lemma proc_frame is_dir q base hs hs' pd pr : same_files q hs hs' ->
  proc_ok is_dir q base hs pd pr -> proc_ok is_dir q base hs' pd pr.
Proof.
  intros H [M1 T1 T2 V1 V2 F1 P1 P2 D1].
  assert (HC : forall j, same_counts q j hs hs') by (intros j; by apply same_files_counts).
  split; try done.
  - intros k. rewrite V1. unfold want_lock, want_cnt. cbv zeta.
    by destruct (HC (lock_inode k)) as (-> & -> & ->).
  - intros k. rewrite V2. unfold want_open. cbv zeta.
    by destruct (HC (open_inode k)) as (-> & _ & ->).
  - intros id h E. apply F1. by rewrite <- H.
  - intros i Hi. apply P1. destruct (HC i) as (_ & _ & E). congruence.
  - apply (fds_same _ _ _ D1).
    + intros n [|id|id|j]; simpl; try done; by rewrite H.
    + intros n [|id|id|j] k; simpl; try done. by rewrite H.
Qed.

Lemma do_call_others p c e hs q : q <> p -> same_files q hs (do_call hs p c e).2.
Proof.
  intros N id. assert (NI : forall id0, (p, id0) <> (q, id)) by congruence.
  assert (HI : forall id0 h, <[(p, id0) := h]> hs !! (q, id) = hs !! (q, id))
    by (intros; by apply lookup_insert_ne).
  destruct c; simpl; unfold do_open, do_read, do_write; repeat (case_match; simpl; try done);
    by apply lookup_delete_ne.
Qed.

(** * The simulation *)

Record rel (is_dir : inode -> bool) (s : sys) (a : astate) : Prop := {
  rel_started p : is_Some (procs s !! p) <-> is_Some (started a !! p);
  rel_proc p pr base : procs s !! p = Some pr -> started a !! p = Some base ->
    exists pd, proc_ok is_dir p base (opened a) pd pr;
  rel_locks : locks_ok (s_locks s) (opened a);
  rel_exclusive : exclusive (opened a);
  rel_dirs : no_dirs is_dir (opened a);
  rel_running k h : opened a !! k = Some h -> is_Some (started a !! k.1)
}.

Lemma rel_init is_dir : rel is_dir sys0 a0.
Proof.
  split; unfold sys0, a0; simpl.
  - intros p. by rewrite !lookup_empty.
  - intros p pr base. by rewrite lookup_empty.
  - intros q i. rewrite lookup_empty. unfold want_klock, n_mode. by rewrite !count_empty.
  - intros k k' h h'. by rewrite lookup_empty.
  - intros k h. by rewrite lookup_empty.
  - intros k h. by rewrite lookup_empty.
Qed.

Lemma no_files_counts p i hs : (forall id, hs !! (p, id) = None) ->
  n_open p i hs = O /\ n_locked p i hs = O /\ n_write p i hs = O.
Proof.
  intros H. assert (HC : forall P, (forall k h, P k h = true -> k.1 = p) -> count_h P hs = O).
  { intros P HP. apply count_none. intros [q id] h E. apply not_true_is_false. intros Hk.
    pose proof (HP _ _ Hk) as <-. simpl in *. by rewrite H in E. }
  split_and!; apply HC; intros k h; rewrite ?n_mode_true, ?of_inode_true; tauto.
Qed.

(** A process that starts. *)
Lemma new_proc_ok is_dir p l hs : (forall id, hs !! (p, id) = None) ->
  proc_ok is_dir p l hs (fun _ => []) (new_proc l).
Proof.
  intros H. pose proof (fun i => no_files_counts p i hs H) as HC. unfold new_proc. split; simpl; try done.
  - intros k a. rewrite lookup_empty. setoid_rewrite lookup_empty. split; [done|by intros (? & ? & _)].
  - intros k a. rewrite lookup_empty. setoid_rewrite lookup_empty. split; [done|by intros (? & ? & _)].
  - intros k. unfold view, want_lock. rewrite lookup_empty. simpl. cbv zeta.
    destruct (HC (lock_inode k)) as (-> & _). by rewrite andb_false_r.
  - intros k. unfold view, want_open. rewrite lookup_empty. simpl. cbv zeta.
    by destruct (HC (open_inode k)) as (-> & _).
  - intros id h E. by rewrite H in E.
  - intros i. apply NoDup_nil_2.
  - assert (HU : forall n u, uses p l ∅ hs (fun _ => []) n u -> u = U_base /\ is_Some (fd_lookup n l)).
    { intros n [|id|id|j]; simpl; [done|by intros (? & ? & ? & ? & _); rewrite H in *
        |by intros (? & ? & ? & ? & _); rewrite H in *|by intros ?%elem_of_nil]. }
    split.
    + by intros n u u' [-> _]%HU [-> _]%HU.
    + intros n u [-> [k E]]%HU. exists k. by rewrite E.
    + intros n k E. exists U_base. simpl. by rewrite E.
Qed.

Lemma do_call_dirs is_dir p c e a : no_dirs is_dir (opened a) ->
  system_ok is_dir (E_call p c e) -> no_dirs is_dir (do_call (opened a) p c e).2.
Proof.
  intros ND HS.
  assert (HI : forall id h h', opened a !! (p, id) = Some h -> h_inode h' = h_inode h ->
    no_dirs is_dir (<[(p, id) := h']> (opened a))).
  { intros id h h' E Ei k h0 [[<- <-]|[_ H]]%lookup_insert_Some; [rewrite Ei; by apply (ND _ _ E)|by apply (ND k)]. }
  assert (HO : forall id, e_fstat e = true /\ match opens c e with Some (i, _) => is_dir i = false | None => True end ->
    no_dirs is_dir (do_open (opened a) p id c e).2).
  { intros id [_ H]. unfold do_open. destruct (opens c e) as [[i w]|]; [|done].
    case_match; [|done]. simpl. intros k h0 [[<- <-]|[_ E]]%lookup_insert_Some; [done|by apply (ND k)]. }
  destruct c as [id|id|id|id|id|id|id|id]; simpl in *; try (by apply HO);
    try (destruct (opened a !! (p, id)) as [h|] eqn:E; [|done]).
  - destruct (e_open_ro e); [|done]. by apply (HI id h).
  - unfold do_read. repeat (case_match; simpl; try done); by apply (HI id h).
  - unfold do_write. repeat (case_match; simpl; try done); by apply (HI id h).
  - by apply (HI id h).
  - intros k h0 [_ H]%lookup_delete_Some. by apply (ND k).
Qed.

Lemma do_call_exclusive' a p c e : entitled a (E_call p c e) -> exclusive (opened a) ->
  exclusive (do_call (opened a) p c e).2.
Proof. intros [_ HE] HX. apply do_call_exclusive; [done|]. by destruct c. Qed.

(** Only the calling process gets files. *)
Lemma do_call_running p c e hs k h : (do_call hs p c e).2 !! k = Some h ->
  k.1 = p \/ hs !! k = Some h.
Proof.
  intros E. destruct k as [q id]. destruct (decide (q = p)) as [->|N]; [by left|].
  right. by rewrite <- (do_call_others p c e hs q N id).
Qed.

Section simulation.
Context (is_dir : inode -> bool).

Lemma step_call s a p c e : rel is_dir s a -> entitled a (E_call p c e) ->
  system_ok is_dir (E_call p c e) ->
  exists s', exec s (E_call p c e) = Done (astep a (E_call p c e)).1 s' /\
    rel is_dir s' (astep a (E_call p c e)).2.
Proof.
  intros R HE HS. pose proof HE as [[base Eb] _].
  destruct (proj2 (rel_started _ _ _ R p)) as [pr Ep]; [by rewrite Eb|].
  destruct (rel_proc _ _ _ R p pr base Ep Eb) as [pd OK].
  pose proof (rel_exclusive _ _ _ R) as HX.
  destruct (wp_returns _ _ _ (call_ok is_dir p base (opened a) pd pr (s_locks s) c e a OK
    (rel_locks _ _ _ R) HX (rel_dirs _ _ _ R) eq_refl HE HS)) as (rc & w & Er & -> & pd' & OK' & KL').
  unfold exec, astep. rewrite Ep, Er. destruct (do_call (opened a) p c e) as [rc hs'] eqn:Ed.
  pose proof (do_call_dirs is_dir p c e a (rel_dirs _ _ _ R) HS) as ND. rewrite Ed in ND.
  pose proof (do_call_exclusive' a p c e HE HX) as HX'. rewrite Ed in HX'.
  eexists. split; [done|]. simpl in *. split; simpl; try done.
  - intros q. rewrite <- (rel_started _ _ _ R q).
    destruct (decide (q = p)) as [->|N]; [by rewrite lookup_insert_eq, Ep|by rewrite lookup_insert_ne].
  - intros q prq baseq [[<- <-]|[N Eq]]%lookup_insert_Some Ebq.
    + rewrite Eb in Ebq. injection Ebq as <-. by exists pd'.
    + destruct (rel_proc _ _ _ R q prq baseq Eq Ebq) as [pdq OKq]. exists pdq.
      apply (proc_frame is_dir q baseq (opened a)); [|done].
      pose proof (do_call_others p c e (opened a) q (not_eq_sym N)) as HO. by rewrite Ed in HO.
  - intros k h E. destruct (do_call_running p c e (opened a) k h) as [->|E'];
      [by rewrite Ed|by rewrite Eb|by apply (rel_running _ _ _ R k h)].
Qed.

Lemma step_start s a p l : rel is_dir s a -> entitled a (E_start p l) ->
  rel is_dir (mkSys (<[p := new_proc l]> (procs s)) (s_locks s)) (mkA (<[p := l]> (started a)) (opened a)).
Proof.
  intros R HE. simpl in HE.
  assert (HN : forall id, opened a !! (p, id) = None).
  { intros id. destruct (opened a !! (p, id)) as [h|] eqn:E; [|done].
    apply (rel_running _ _ _ R) in E as [x E]. simpl in E. congruence. }
  split; simpl; try apply R.
  - intros q. destruct (decide (q = p)) as [->|N]; [by rewrite !lookup_insert_eq|].
    rewrite !lookup_insert_ne by done. apply (rel_started _ _ _ R).
  - intros q prq baseq [[<- <-]|[N Eq]]%lookup_insert_Some.
    + rewrite lookup_insert_eq. intros [= <-]. exists (fun _ => []). by apply new_proc_ok.
    + rewrite lookup_insert_ne by done. by apply (rel_proc _ _ _ R).
  - intros k h E. destruct (decide (k.1 = p)) as [->|N]; [by rewrite lookup_insert_eq|].
    rewrite lookup_insert_ne by done. by apply (rel_running _ _ _ R k h).
Qed.

Lemma step_exit s a p : rel is_dir s a ->
  rel is_dir (mkSys (delete p (procs s)) (filter (fun x => x.1.2 <> p) (s_locks s)))
    (mkA (delete p (started a)) (filter (fun x => x.1.1 <> p) (opened a))).
Proof.
  intros R. set (hs' := filter (fun x => x.1.1 <> p) (opened a)).
  assert (HP : forall id, hs' !! (p, id) = None).
  { intros id. apply map_lookup_filter_None. right. intros h E H. by apply H. }
  assert (HQ : forall q, q <> p -> same_files q (opened a) hs').
  { intros q N id. apply option_eq. intros h. unfold hs'. rewrite map_lookup_filter_Some. simpl. tauto. }
  split; simpl.
  - intros q. destruct (decide (q = p)) as [->|N]; [by rewrite !lookup_delete_eq|].
    rewrite !lookup_delete_ne by done. apply (rel_started _ _ _ R).
  - intros q prq baseq [N Eq]%lookup_delete_Some. rewrite lookup_delete_ne by done. intros Eb.
    destruct (rel_proc _ _ _ R q prq baseq Eq Eb) as [pd OK]. exists pd.
    apply (proc_frame is_dir q baseq (opened a)); [by apply HQ|done].
  - intros q i. destruct (decide (q = p)) as [->|N].
    + destruct (no_files_counts p i hs' HP) as (_ & E1 & E2). rewrite want_klock_u by done.
      apply map_lookup_filter_None. right. intros t E H. by apply H.
    + rewrite (want_klock_same q i (opened a) hs') by by apply same_files_counts, HQ.
      rewrite <- (rel_locks _ _ _ R). apply option_eq. intros t. rewrite map_lookup_filter_Some. simpl. tauto.
  - by apply exclusive_filter, R.
  - intros k h [E _]%map_lookup_filter_Some. by apply (rel_dirs _ _ _ R k).
  - intros k h [E N]%map_lookup_filter_Some. simpl in N. rewrite lookup_delete_ne by done.
    by apply (rel_running _ _ _ R k h).
Qed.

Lemma step_rel s a ev : rel is_dir s a -> entitled a ev -> system_ok is_dir ev ->
  exists s', exec s ev = Done (astep a ev).1 s' /\ rel is_dir s' (astep a ev).2.
Proof.
  intros R HE HS. destruct ev as [p l|p c e|p].
  - eexists. split; [done|]. by apply step_start.
  - by apply step_call.
  - eexists. split; [done|]. by apply step_exit.
Qed.

Lemma run_rel evs : forall s a, rel is_dir s a -> allowed is_dir a evs ->
  exists s', exec_all s evs = Done (astep_all a evs).1 s' /\ rel is_dir s' (astep_all a evs).2.
Proof.
  induction evs as [|ev evs IH]; intros s a R HA; simpl; [eauto|].
  destruct HA as (HE & HS & HA). destruct (step_rel s a ev R HE HS) as (s1 & E1 & R1).
  rewrite E1. destruct (astep a ev) as [rc a1]. simpl in *.
  destruct (IH s1 a1 R1 HA) as (s2 & E2 & R2). rewrite E2.
  destruct (astep_all a1 evs) as [rcs a2]. simpl in *. eauto.
Qed.

(** The state after allowed events from the beginning. *)
Lemma os_run_start evs rcs s : allowed is_dir a0 evs -> exec_all sys0 evs = Done rcs s ->
  rel is_dir s (astep_all a0 evs).2.
Proof.
  intros HA E. destruct (run_rel evs sys0 a0 (rel_init is_dir) HA) as (s' & E' & R).
  rewrite E in E'. by injection E' as _ <-.
Qed.
End simulation.
