(* ===== verification/OsLockTheorems.v ===== *)
(** What the locks of [os.c] guarantee: the results of the calls, mutual exclusion in the
    kernel and in the counters, and that everything is released; and what happens when
    the system fails in a way that the code does not provide for. *)
From S2P Require Import Prelude OsFile OsLocks OsLockSpec OsLockInv OsLockOps OsLockClose OsLockOpen OsLockRefine.

(** * A run to try the theorems on *)

Definition is_dir1 (i : inode) : bool := bool_decide (i = (1, 2)).
Definition quiet : env := mkEnv (Some (1, 7)) false (Some (1, 2)) false true [] None.

(** Two processes work on inode (1, 7); the first one opens it twice, and closes one of
    its files while the other one is locked. *)
Definition session1 : list event :=
  [E_start 10 []; E_start 20 [];
   E_call 10 (OpenReadWrite 1) quiet; E_call 10 (OpenReadWrite 2) quiet; E_call 20 (OpenReadWrite 1) quiet;
   E_call 10 (LockRead 1) quiet; E_call 10 (LockRead 2) quiet; E_call 20 (LockWrite 1) quiet;
   E_call 20 (LockRead 1) quiet; E_call 10 (LockWrite 1) quiet; E_call 20 (Unlock 1) quiet;
   E_call 10 (OpenDirectory 2) quiet; E_call 10 (Close 2) quiet; E_call 10 (LockWrite 1) quiet;
   E_call 20 (LockRead 1) quiet].

(** The first process ends its work too. *)
Definition session2 : list event :=
  session1 ++ [E_call 10 (LockRead 1) quiet; E_call 10 (Close 1) quiet; E_call 20 (LockWrite 1) quiet].

Lemma session1_allowed : allowed is_dir1 a0 session1.
Proof. apply (bool_decide_unpack _). vm_compute. exact I. Qed.
Lemma session2_allowed : allowed is_dir1 a0 session2.
Proof. apply (bool_decide_unpack _). vm_compute. exact I. Qed.

(** * The theorems *)

(** C5: Processes start and exit, and open, lock, unlock and close files, call by call in any
    order.  A process uses a file between opening and closing it and opens its directory at
    most once, and the system keeps to [system_ok]:
    [fstat] on a new descriptor does not fail, removing a lock (in an unlock or a close)
    does not fail, there is memory for the list of descriptors whose close has to wait,
    and a directory is not opened as a file; opening a file, getting a lock and every
    other allocation may fail.  Then every call returns what the machine of readers and
    writers returns:
    no [assert] fails, no freed structure is used, and a lock is refused exactly when
    another open file of the inode, in the same process or in another one, has a
    conflicting lock, when the file was opened for reading only, or when the system
    call fails. *)
Theorem os_locks_refine is_dir evs : allowed is_dir a0 evs ->
  exists s, exec_all sys0 evs = Done (astep_all a0 evs).1 s.
Proof.
  intros HA. destruct (run_rel is_dir evs sys0 a0 (rel_init is_dir) HA) as (s & E & _). by exists s.
Qed.

Lemma os_locks_refine_witness :
  allowed is_dir1 a0 session2 /\
  (exists s, exec_all sys0 session2 = Done (astep_all a0 session2).1 s) /\
  (astep_all a0 session2).1 = [0; 0; 0; 0; 0; 0; 0; 5; 0; 5; 0; 0; 0; 0; 5; 0; 0; 0].
Proof.
  split; [apply session2_allowed|]. split; [apply (os_locks_refine is_dir1 session2 session2_allowed)|].
  vm_compute. reflexivity.
Defined.

(** The lock the kernel must have for the open files of a process on an inode. *)
Definition strongest (hs : handles) (p : Z) (i : inode) (t : option ltype) : Prop :=
  (t = Some F_WRLCK <-> exists id h, hs !! (p, id) = Some h /\ h_inode h = i /\ h_mode h = WriteLock) /\
  (is_Some t <-> exists id h, hs !! (p, id) = Some h /\ h_inode h = i /\ h_mode h <> NoLock).

(** C6: After any events of C5 (under [system_ok]: no failing [fstat], no failing removal of
    a lock, memory in close) a write-locked file is the only locked file of its inode in
    all processes; the lock the kernel has for a process on an inode is exactly the
    strongest one of its open files, so that closing one file never loses the lock of
    another and no lock outlives its file; and every open file still has its descriptor
    and knows whether it is locked. *)
Theorem os_locks_exclude is_dir evs rcs s : allowed is_dir a0 evs -> exec_all sys0 evs = Done rcs s ->
  let hs := opened (astep_all a0 evs).2 in
  exclusive hs /\
  (forall p i, strongest hs p i (s_locks s !! (i, p))) /\
  (forall p pr id h, procs s !! p = Some pr -> hs !! (p, id) = Some h ->
     exists f, files pr !! id = Some f /\ locked f = bool_decide (h_mode h <> NoLock) /\
       fd_lookup (fd f) (fds pr) = Some (mkKfd (h_inode h) (h_writable h))).
Proof.
  intros HA E hs. pose proof (os_run_start is_dir evs rcs s HA E) as R. fold hs in R.
  split; [apply (rel_exclusive _ _ _ R)|]. split.
  - intros p i. rewrite (rel_locks _ _ _ R). split.
    + rewrite want_klock_write by apply (rel_exclusive _ _ _ R). split.
      * intros ([q id] & h & H1 & H2 & H3 & H4). simpl in H2. subst q. eauto 6.
      * intros (id & h & H1 & H3 & H4). exists (p, id), h. auto.
    + rewrite want_klock_locked. split.
      * intros ([q id] & h & H1 & H2 & H3 & H4). simpl in H2. subst q. eauto 6.
      * intros (id & h & H1 & H3 & H4). exists (p, id), h. auto.
  - intros p pr id h Ep Eh. destruct (proj1 (rel_started _ _ _ R p)) as [base Eb]; [by rewrite Ep|].
    destruct (rel_proc _ _ _ R p pr base Ep Eb) as [pd OK].
    destruct (pk_file _ _ _ _ _ _ OK id h Eh) as (f & Ef & _ & _ & El & _). exists f.
    split; [done|]. split; [exact El|]. by apply (proc_fd is_dir p base _ pd pr OK id h).
Qed.

Definition final (evs : list event) : sys :=
  match exec_all sys0 evs with Done _ s => s | _ => sys0 end.

Lemma os_locks_exclude_witness :
  allowed is_dir1 a0 session1 /\ exec_all sys0 session1 = Done (astep_all a0 session1).1 (final session1) /\
  s_locks (final session1) !! ((1, 7), 10) = Some F_WRLCK /\
  s_locks (final session1) !! ((1, 7), 20) = None /\
  exclusive (opened (astep_all a0 session1).2).
Proof.
  assert (E : exec_all sys0 session1 = Done (astep_all a0 session1).1 (final session1))
    by (vm_compute; reflexivity).
  split; [apply session1_allowed|]. split; [exact E|].
  split; [vm_compute; reflexivity|]. split; [vm_compute; reflexivity|].
  apply (os_locks_exclude is_dir1 session1 _ _ session1_allowed E).
Defined.

(** C7: When, after events of C5 (under [system_ok]: no failing [fstat], no failing removal
    of a lock, memory in close), a process has closed its files, both hash tables are empty, every [lockInfo]
    and [openCnt] was freed, and the descriptors that are open are those it started
    with: also the ones whose close had to wait were closed. *)
Theorem os_close_releases is_dir evs rcs s p pr base : allowed is_dir a0 evs ->
  exec_all sys0 evs = Done rcs s -> procs s !! p = Some pr ->
  started (astep_all a0 evs).2 !! p = Some base ->
  (forall id, opened (astep_all a0 evs).2 !! (p, id) = None) ->
  lockHash pr = ∅ /\ openHash pr = ∅ /\ lockInfos pr = ∅ /\ openCnts pr = ∅ /\ inMutex pr = false /\
  forall n, fd_lookup n (fds pr) = fd_lookup n base.
Proof.
  intros HA E Ep Eb HN. pose proof (os_run_start is_dir evs rcs s HA E) as R.
  set (hs := opened (astep_all a0 evs).2) in *.
  destruct (rel_proc _ _ _ R p pr base Ep Eb) as [pd OK]. fold hs in OK.
  assert (HC : forall i, n_open p i hs = O) by (intros i; by apply (no_files_counts p i hs HN)).
  assert (HP : forall i, pd i = []).
  { intros i. apply (pk_pend _ _ _ _ _ _ OK). pose proof (n_mode_le is_locked p i hs). specialize (HC i). lia. }
  destruct (tbl_empty li_key (lockHash pr) (lockInfos pr)) as [E1 E2]; [apply (pk_locks _ _ _ _ _ _ OK)|..].
  { intros k. rewrite (pk_want_lock _ _ _ _ _ _ OK). unfold want_lock. cbv zeta.
    by rewrite HC, andb_false_r. }
  destruct (tbl_empty oc_key (openHash pr) (openCnts pr)) as [E3 E4]; [apply (pk_opens _ _ _ _ _ _ OK)|..].
  { intros k. rewrite (pk_want_open _ _ _ _ _ _ OK). unfold want_open. cbv zeta. by rewrite HC. }
  split_and!; try done; [apply (pk_mutex _ _ _ _ _ _ OK)|]. intros n. pose proof (pk_fds _ _ _ _ _ _ OK) as FO.
  assert (HU : forall u, uses p base (files pr) hs pd n u -> u = U_base).
  { intros [|id|id|j]; simpl; [done|by intros (? & ? & ? & _); rewrite HN in *
      |by intros (? & ? & ? & _); rewrite HN in *|by rewrite HP; intros ?%elem_of_nil]. }
  apply option_eq. intros k. split.
  - intros Ek. destruct (fo_used _ _ _ FO n k Ek) as [u Hu]. rewrite (HU u Hu) in Hu.
    destruct (fo_open _ _ _ FO n U_base Hu) as (k' & Ek' & Hk'). simpl in Hk'. congruence.
  - intros Ek. destruct (fo_open _ _ _ FO n U_base) as (k' & Ek' & Hk'); [by exists k|].
    simpl in Hk'. congruence.
Qed.

Lemma os_close_releases_witness :
  allowed is_dir1 a0 session2 /\ exec_all sys0 session2 = Done (astep_all a0 session2).1 (final session2) /\
  exists pr, procs (final session2) !! 10 = Some pr /\ lockInfos pr = ∅ /\
    forall n, fd_lookup n (fds pr) = fd_lookup n [].
Proof.
  assert (E : exec_all sys0 session2 = Done (astep_all a0 session2).1 (final session2))
    by (vm_compute; reflexivity).
  split; [apply session2_allowed|]. split; [exact E|].
  destruct (procs (final session2) !! 10) as [pr|] eqn:Ep; [|vm_compute in Ep; discriminate Ep].
  exists pr. split; [reflexivity|].
  assert (HN : forall id, opened (astep_all a0 session2).2 !! (10, id) = None).
  { intros id. replace (opened (astep_all a0 session2).2)
      with ({[ (20, 1%positive) := mkH (1, 7) true WriteLock false ]} : handles)
      by (vm_compute; reflexivity). by apply lookup_singleton_ne. }
  destruct (os_close_releases is_dir1 session2 _ _ 10 pr [] session2_allowed E Ep) as (_ & _ & H & _ & _ & H');
    [vm_compute; reflexivity|exact HN|]. split; [exact H|exact H'].
Defined.

(** What one process sees of the locks, and OsFile.v models: a lock call succeeds and
    changes the lock of the file, or it fails and changes nothing. *)
Lemma lock_call_view hs p id h e :
  (do_read hs p id h e = (SQLITE_OK, <[(p, id) := set_mode ReadLock h]> hs) \/
   exists rc, do_read hs p id h e = (rc, hs) /\ rc <> SQLITE_OK) /\
  (do_write hs p id h e = (SQLITE_OK, <[(p, id) := set_mode WriteLock h]> hs) \/
   exists rc, do_write hs p id h e = (rc, hs) /\ rc <> SQLITE_OK).
Proof.
  assert (HB : SQLITE_BUSY <> SQLITE_OK) by done.
  assert (HL : forall b, lock_error b <> SQLITE_OK) by by intros [].
  unfold do_read, do_write. split; repeat case_match; eauto.
Qed.

(** * When the system fails *)

Definition results (evs : list event) : option (list Z) :=
  match exec_all sys0 evs with Done rcs _ => Some rcs | _ => None end.

(** [fstat] fails on the new descriptor: [close] then drops the lock that the process holds
    through another file, and a second process gets a write lock too. *)
Example fstat_failure_loses_lock :
  let evs := [E_start 10 []; E_start 20 []; E_call 10 (OpenReadWrite 1) quiet; E_call 10 (LockWrite 1) quiet;
    E_call 20 (OpenReadWrite 1) quiet; E_call 20 (LockWrite 1) quiet;
    E_call 10 (OpenReadWrite 2) (mkEnv (Some (1, 7)) false None false false [] None);
    E_call 20 (LockWrite 1) quiet] in
  results evs = Some [0; 0; 0; 0; 0; SQLITE_BUSY; SQLITE_NOMEM; 0] /\
  (pr ← procs (final evs) !! 10; locked <$> files pr !! 1%positive) = Some true /\
  (pr ← procs (final evs) !! 20; locked <$> files pr !! 1%positive) = Some true.
Proof. vm_compute. auto. Qed.

(** There is no memory for the list of the descriptors that wait: the count has gone up all
    the same, and the loop of [sqliteOsUnlock] reads behind the list. *)
Example close_without_memory_overrun :
  let evs := [E_start 10 []; E_call 10 (OpenReadWrite 1) quiet; E_call 10 (OpenReadWrite 2) quiet;
    E_call 10 (LockRead 1) quiet;
    E_call 10 (Close 2) (mkEnv None false None false true [false] None)] in
  results evs = Some [0; 0; 0; 0; 0] /\ exec_all sys0 (evs ++ [E_call 10 (Unlock 1) quiet]) = Stuck.
Proof. vm_compute. auto. Qed.

(** Removing the lock fails while a file is closed: the descriptor is put on the list of
    those that wait, the list is freed with the last file, and the lock stays for as long
    as the process lives. *)
Example unlock_failure_leaks_lock :
  let evs := [E_start 10 []; E_start 20 []; E_call 10 (OpenReadWrite 1) quiet; E_call 10 (LockWrite 1) quiet;
    E_call 10 (Close 1) (mkEnv None false None false true [] (Some false));
    E_call 20 (OpenReadWrite 1) quiet; E_call 20 (LockWrite 1) quiet] in
  results evs = Some [0; 0; 0; 0; 0; 0; SQLITE_BUSY] /\
  (pr ← procs (final evs) !! 10; Some (lockInfos pr, openCnts pr, fds pr)) =
    Some (∅, ∅, [Some (mkKfd (1, 7) true)]).
Proof. vm_compute. auto. Qed.

(** A file that is write-locked cannot be write-locked again. *)
Example write_lock_twice_is_busy :
  results [E_start 10 []; E_call 10 (OpenReadWrite 1) quiet; E_call 10 (LockWrite 1) quiet;
    E_call 10 (LockWrite 1) quiet] = Some [0; 0; 0; SQLITE_BUSY].
Proof. vm_compute. reflexivity. Qed.
