(* ===== verification/Pager.v ===== *)
(** The page cache and its transactions: [ext/sqlite-2.8.17/src/pager.c].

    The state is the [Pager] structure with its pages together with the files
    of the database (OsFile.v).  A page is named by its page number: the
    pointers [pNextAll], [pNextFree], [pNextCkpt] and the hash chains are
    represented by the ordered lists they link ([pAll], [pFree], [pCkpt]), and
    the bitmaps [aInJournal] and [aInCkpt] by the sets of their bits.  The
    journal is written in format 3, the default, and read in all three formats.
    [assert]s and the [#ifndef NDEBUG] blocks are part of the model (the default
    build keeps them): a failed one makes the run [Stuck].  The destructor
    callback, the codec and the extra bytes behind a page are not modelled. *)
From S2P Require Import Prelude OsFile.

(** * Constants and state *)

Definition SQLITE_PAGE_SIZE : nat := Z.to_nat 1024.

Definition SQLITE_UNLOCK : Z := 0.
Definition SQLITE_READLOCK : Z := 1.
Definition SQLITE_WRITELOCK : Z := 2.

Definition PAGER_ERR_FULL : Z := 1.
Definition PAGER_ERR_MEM : Z := 2.
Definition PAGER_ERR_LOCK : Z := 4.
Definition PAGER_ERR_CORRUPT : Z := 8.
Definition PAGER_ERR_DISK : Z := 16.

Definition aJournalMagic1 : list Z := [217; 213; 5; 249; 32; 161; 99; 212].
Definition aJournalMagic2 : list Z := [217; 213; 5; 249; 32; 161; 99; 213].
Definition aJournalMagic3 : list Z := [217; 213; 5; 249; 32; 161; 99; 214].

Definition JOURNAL_HDR_SZ (X : Z) : nat := 8 + 4 + (if 3 <=? X then 2 * 4 else 0).
Definition JOURNAL_PG_SZ (X : Z) : nat :=
  SQLITE_PAGE_SIZE + 4 + (if 3 <=? X then 4 else 0).
Definition journal_format : Z := 3.

(** One page of the cache. *)
Record PgHdr := mkPgHdr {
  pgno : Z;
  pgData : list Z;
  nRef : Z;
  inJournal : bool;
  inCkpt : bool;
  dirty : bool;
  pgNeedSync : bool;
  pgAlwaysRollback : bool
}.

Definition pg_set_pgno (v : Z) (x : PgHdr) : PgHdr :=
  mkPgHdr v (pgData x) (nRef x) (inJournal x) (inCkpt x) (dirty x) (pgNeedSync x)
    (pgAlwaysRollback x).
Definition pg_set_pgData (v : list Z) (x : PgHdr) : PgHdr :=
  mkPgHdr (pgno x) v (nRef x) (inJournal x) (inCkpt x) (dirty x) (pgNeedSync x)
    (pgAlwaysRollback x).
Definition pg_set_nRef (v : Z) (x : PgHdr) : PgHdr :=
  mkPgHdr (pgno x) (pgData x) v (inJournal x) (inCkpt x) (dirty x) (pgNeedSync x)
    (pgAlwaysRollback x).
Definition pg_set_inJournal (v : bool) (x : PgHdr) : PgHdr :=
  mkPgHdr (pgno x) (pgData x) (nRef x) v (inCkpt x) (dirty x) (pgNeedSync x)
    (pgAlwaysRollback x).
Definition pg_set_inCkpt (v : bool) (x : PgHdr) : PgHdr :=
  mkPgHdr (pgno x) (pgData x) (nRef x) (inJournal x) v (dirty x) (pgNeedSync x)
    (pgAlwaysRollback x).
Definition pg_set_dirty (v : bool) (x : PgHdr) : PgHdr :=
  mkPgHdr (pgno x) (pgData x) (nRef x) (inJournal x) (inCkpt x) v (pgNeedSync x)
    (pgAlwaysRollback x).
Definition pg_set_pgNeedSync (v : bool) (x : PgHdr) : PgHdr :=
  mkPgHdr (pgno x) (pgData x) (nRef x) (inJournal x) (inCkpt x) (dirty x) v (pgAlwaysRollback x).
Definition pg_set_pgAlwaysRollback (v : bool) (x : PgHdr) : PgHdr :=
  mkPgHdr (pgno x) (pgData x) (nRef x) (inJournal x) (inCkpt x) (dirty x) (pgNeedSync x) v.

(** The open page cache.  [pFree] is the list from [pFirst] to [pLast]. *)
Record Pager := mkPager {
  dbSize : Z;
  origDbSize : Z;
  ckptSize : Z;
  ckptJSize : nat;
  nRec : nat;
  cksumInit : Z;
  ckptNRec : nat;
  nPage : Z;
  pnRef : Z;
  mxPage : Z;
  nHit : Z;
  nMiss : Z;
  nOvfl : Z;
  journalOpen : bool;
  journalStarted : bool;
  useJournal : bool;
  ckptOpen : bool;
  ckptInUse : bool;
  ckptAutoopen : bool;
  noSync : bool;
  fullSync : bool;
  state : Z;
  errMask : Z;
  tempFile : bool;
  readOnly : bool;
  needSync : bool;
  dirtyFile : bool;
  alwaysRollback : bool;
  aInJournal : option (gset Z);
  aInCkpt : option (gset Z);
  pFree : list Z;
  pFirstSynced : option Z;
  pAll : list PgHdr;
  pCkpt : list Z
}.

Definition set_dbSize (v : Z) (x : Pager) : Pager :=
  mkPager v (origDbSize x) (ckptSize x) (ckptJSize x) (nRec x) (cksumInit x) (ckptNRec x)
    (nPage x) (pnRef x) (mxPage x) (nHit x) (nMiss x) (nOvfl x) (journalOpen x)
    (journalStarted x) (useJournal x) (ckptOpen x) (ckptInUse x) (ckptAutoopen x) (noSync x)
    (fullSync x) (state x) (errMask x) (tempFile x) (readOnly x) (needSync x) (dirtyFile x)
    (alwaysRollback x) (aInJournal x) (aInCkpt x) (pFree x) (pFirstSynced x) (pAll x) (pCkpt x).
Definition set_origDbSize (v : Z) (x : Pager) : Pager :=
  mkPager (dbSize x) v (ckptSize x) (ckptJSize x) (nRec x) (cksumInit x) (ckptNRec x) (nPage x)
    (pnRef x) (mxPage x) (nHit x) (nMiss x) (nOvfl x) (journalOpen x) (journalStarted x)
    (useJournal x) (ckptOpen x) (ckptInUse x) (ckptAutoopen x) (noSync x) (fullSync x) (state x)
    (errMask x) (tempFile x) (readOnly x) (needSync x) (dirtyFile x) (alwaysRollback x)
    (aInJournal x) (aInCkpt x) (pFree x) (pFirstSynced x) (pAll x) (pCkpt x).
Definition set_ckptSize (v : Z) (x : Pager) : Pager :=
  mkPager (dbSize x) (origDbSize x) v (ckptJSize x) (nRec x) (cksumInit x) (ckptNRec x)
    (nPage x) (pnRef x) (mxPage x) (nHit x) (nMiss x) (nOvfl x) (journalOpen x)
    (journalStarted x) (useJournal x) (ckptOpen x) (ckptInUse x) (ckptAutoopen x) (noSync x)
    (fullSync x) (state x) (errMask x) (tempFile x) (readOnly x) (needSync x) (dirtyFile x)
    (alwaysRollback x) (aInJournal x) (aInCkpt x) (pFree x) (pFirstSynced x) (pAll x) (pCkpt x).
Definition set_ckptJSize (v : nat) (x : Pager) : Pager :=
  mkPager (dbSize x) (origDbSize x) (ckptSize x) v (nRec x) (cksumInit x) (ckptNRec x) (nPage x)
    (pnRef x) (mxPage x) (nHit x) (nMiss x) (nOvfl x) (journalOpen x) (journalStarted x)
    (useJournal x) (ckptOpen x) (ckptInUse x) (ckptAutoopen x) (noSync x) (fullSync x) (state x)
    (errMask x) (tempFile x) (readOnly x) (needSync x) (dirtyFile x) (alwaysRollback x)
    (aInJournal x) (aInCkpt x) (pFree x) (pFirstSynced x) (pAll x) (pCkpt x).
Definition set_nRec (v : nat) (x : Pager) : Pager :=
  mkPager (dbSize x) (origDbSize x) (ckptSize x) (ckptJSize x) v (cksumInit x) (ckptNRec x)
    (nPage x) (pnRef x) (mxPage x) (nHit x) (nMiss x) (nOvfl x) (journalOpen x)
    (journalStarted x) (useJournal x) (ckptOpen x) (ckptInUse x) (ckptAutoopen x) (noSync x)
    (fullSync x) (state x) (errMask x) (tempFile x) (readOnly x) (needSync x) (dirtyFile x)
    (alwaysRollback x) (aInJournal x) (aInCkpt x) (pFree x) (pFirstSynced x) (pAll x) (pCkpt x).
Definition set_cksumInit (v : Z) (x : Pager) : Pager :=
  mkPager (dbSize x) (origDbSize x) (ckptSize x) (ckptJSize x) (nRec x) v (ckptNRec x) (nPage x)
    (pnRef x) (mxPage x) (nHit x) (nMiss x) (nOvfl x) (journalOpen x) (journalStarted x)
    (useJournal x) (ckptOpen x) (ckptInUse x) (ckptAutoopen x) (noSync x) (fullSync x) (state x)
    (errMask x) (tempFile x) (readOnly x) (needSync x) (dirtyFile x) (alwaysRollback x)
    (aInJournal x) (aInCkpt x) (pFree x) (pFirstSynced x) (pAll x) (pCkpt x).
Definition set_ckptNRec (v : nat) (x : Pager) : Pager :=
  mkPager (dbSize x) (origDbSize x) (ckptSize x) (ckptJSize x) (nRec x) (cksumInit x) v
    (nPage x) (pnRef x) (mxPage x) (nHit x) (nMiss x) (nOvfl x) (journalOpen x)
    (journalStarted x) (useJournal x) (ckptOpen x) (ckptInUse x) (ckptAutoopen x) (noSync x)
    (fullSync x) (state x) (errMask x) (tempFile x) (readOnly x) (needSync x) (dirtyFile x)
    (alwaysRollback x) (aInJournal x) (aInCkpt x) (pFree x) (pFirstSynced x) (pAll x) (pCkpt x).
Definition set_nPage (v : Z) (x : Pager) : Pager :=
  mkPager (dbSize x) (origDbSize x) (ckptSize x) (ckptJSize x) (nRec x) (cksumInit x)
    (ckptNRec x) v (pnRef x) (mxPage x) (nHit x) (nMiss x) (nOvfl x) (journalOpen x)
    (journalStarted x) (useJournal x) (ckptOpen x) (ckptInUse x) (ckptAutoopen x) (noSync x)
    (fullSync x) (state x) (errMask x) (tempFile x) (readOnly x) (needSync x) (dirtyFile x)
    (alwaysRollback x) (aInJournal x) (aInCkpt x) (pFree x) (pFirstSynced x) (pAll x) (pCkpt x).
Definition set_pnRef (v : Z) (x : Pager) : Pager :=
  mkPager (dbSize x) (origDbSize x) (ckptSize x) (ckptJSize x) (nRec x) (cksumInit x)
    (ckptNRec x) (nPage x) v (mxPage x) (nHit x) (nMiss x) (nOvfl x) (journalOpen x)
    (journalStarted x) (useJournal x) (ckptOpen x) (ckptInUse x) (ckptAutoopen x) (noSync x)
    (fullSync x) (state x) (errMask x) (tempFile x) (readOnly x) (needSync x) (dirtyFile x)
    (alwaysRollback x) (aInJournal x) (aInCkpt x) (pFree x) (pFirstSynced x) (pAll x) (pCkpt x).
Definition set_mxPage (v : Z) (x : Pager) : Pager :=
  mkPager (dbSize x) (origDbSize x) (ckptSize x) (ckptJSize x) (nRec x) (cksumInit x)
    (ckptNRec x) (nPage x) (pnRef x) v (nHit x) (nMiss x) (nOvfl x) (journalOpen x)
    (journalStarted x) (useJournal x) (ckptOpen x) (ckptInUse x) (ckptAutoopen x) (noSync x)
    (fullSync x) (state x) (errMask x) (tempFile x) (readOnly x) (needSync x) (dirtyFile x)
    (alwaysRollback x) (aInJournal x) (aInCkpt x) (pFree x) (pFirstSynced x) (pAll x) (pCkpt x).
Definition set_nHit (v : Z) (x : Pager) : Pager :=
  mkPager (dbSize x) (origDbSize x) (ckptSize x) (ckptJSize x) (nRec x) (cksumInit x)
    (ckptNRec x) (nPage x) (pnRef x) (mxPage x) v (nMiss x) (nOvfl x) (journalOpen x)
    (journalStarted x) (useJournal x) (ckptOpen x) (ckptInUse x) (ckptAutoopen x) (noSync x)
    (fullSync x) (state x) (errMask x) (tempFile x) (readOnly x) (needSync x) (dirtyFile x)
    (alwaysRollback x) (aInJournal x) (aInCkpt x) (pFree x) (pFirstSynced x) (pAll x) (pCkpt x).
Definition set_nMiss (v : Z) (x : Pager) : Pager :=
  mkPager (dbSize x) (origDbSize x) (ckptSize x) (ckptJSize x) (nRec x) (cksumInit x)
    (ckptNRec x) (nPage x) (pnRef x) (mxPage x) (nHit x) v (nOvfl x) (journalOpen x)
    (journalStarted x) (useJournal x) (ckptOpen x) (ckptInUse x) (ckptAutoopen x) (noSync x)
    (fullSync x) (state x) (errMask x) (tempFile x) (readOnly x) (needSync x) (dirtyFile x)
    (alwaysRollback x) (aInJournal x) (aInCkpt x) (pFree x) (pFirstSynced x) (pAll x) (pCkpt x).
Definition set_nOvfl (v : Z) (x : Pager) : Pager :=
  mkPager (dbSize x) (origDbSize x) (ckptSize x) (ckptJSize x) (nRec x) (cksumInit x)
    (ckptNRec x) (nPage x) (pnRef x) (mxPage x) (nHit x) (nMiss x) v (journalOpen x)
    (journalStarted x) (useJournal x) (ckptOpen x) (ckptInUse x) (ckptAutoopen x) (noSync x)
    (fullSync x) (state x) (errMask x) (tempFile x) (readOnly x) (needSync x) (dirtyFile x)
    (alwaysRollback x) (aInJournal x) (aInCkpt x) (pFree x) (pFirstSynced x) (pAll x) (pCkpt x).
Definition set_journalOpen (v : bool) (x : Pager) : Pager :=
  mkPager (dbSize x) (origDbSize x) (ckptSize x) (ckptJSize x) (nRec x) (cksumInit x)
    (ckptNRec x) (nPage x) (pnRef x) (mxPage x) (nHit x) (nMiss x) (nOvfl x) v
    (journalStarted x) (useJournal x) (ckptOpen x) (ckptInUse x) (ckptAutoopen x) (noSync x)
    (fullSync x) (state x) (errMask x) (tempFile x) (readOnly x) (needSync x) (dirtyFile x)
    (alwaysRollback x) (aInJournal x) (aInCkpt x) (pFree x) (pFirstSynced x) (pAll x) (pCkpt x).
Definition set_journalStarted (v : bool) (x : Pager) : Pager :=
  mkPager (dbSize x) (origDbSize x) (ckptSize x) (ckptJSize x) (nRec x) (cksumInit x)
    (ckptNRec x) (nPage x) (pnRef x) (mxPage x) (nHit x) (nMiss x) (nOvfl x) (journalOpen x) v
    (useJournal x) (ckptOpen x) (ckptInUse x) (ckptAutoopen x) (noSync x) (fullSync x) (state x)
    (errMask x) (tempFile x) (readOnly x) (needSync x) (dirtyFile x) (alwaysRollback x)
    (aInJournal x) (aInCkpt x) (pFree x) (pFirstSynced x) (pAll x) (pCkpt x).
Definition set_useJournal (v : bool) (x : Pager) : Pager :=
  mkPager (dbSize x) (origDbSize x) (ckptSize x) (ckptJSize x) (nRec x) (cksumInit x)
    (ckptNRec x) (nPage x) (pnRef x) (mxPage x) (nHit x) (nMiss x) (nOvfl x) (journalOpen x)
    (journalStarted x) v (ckptOpen x) (ckptInUse x) (ckptAutoopen x) (noSync x) (fullSync x)
    (state x) (errMask x) (tempFile x) (readOnly x) (needSync x) (dirtyFile x)
    (alwaysRollback x) (aInJournal x) (aInCkpt x) (pFree x) (pFirstSynced x) (pAll x) (pCkpt x).
Definition set_ckptOpen (v : bool) (x : Pager) : Pager :=
  mkPager (dbSize x) (origDbSize x) (ckptSize x) (ckptJSize x) (nRec x) (cksumInit x)
    (ckptNRec x) (nPage x) (pnRef x) (mxPage x) (nHit x) (nMiss x) (nOvfl x) (journalOpen x)
    (journalStarted x) (useJournal x) v (ckptInUse x) (ckptAutoopen x) (noSync x) (fullSync x)
    (state x) (errMask x) (tempFile x) (readOnly x) (needSync x) (dirtyFile x)
    (alwaysRollback x) (aInJournal x) (aInCkpt x) (pFree x) (pFirstSynced x) (pAll x) (pCkpt x).
Definition set_ckptInUse (v : bool) (x : Pager) : Pager :=
  mkPager (dbSize x) (origDbSize x) (ckptSize x) (ckptJSize x) (nRec x) (cksumInit x)
    (ckptNRec x) (nPage x) (pnRef x) (mxPage x) (nHit x) (nMiss x) (nOvfl x) (journalOpen x)
    (journalStarted x) (useJournal x) (ckptOpen x) v (ckptAutoopen x) (noSync x) (fullSync x)
    (state x) (errMask x) (tempFile x) (readOnly x) (needSync x) (dirtyFile x)
    (alwaysRollback x) (aInJournal x) (aInCkpt x) (pFree x) (pFirstSynced x) (pAll x) (pCkpt x).
Definition set_ckptAutoopen (v : bool) (x : Pager) : Pager :=
  mkPager (dbSize x) (origDbSize x) (ckptSize x) (ckptJSize x) (nRec x) (cksumInit x)
    (ckptNRec x) (nPage x) (pnRef x) (mxPage x) (nHit x) (nMiss x) (nOvfl x) (journalOpen x)
    (journalStarted x) (useJournal x) (ckptOpen x) (ckptInUse x) v (noSync x) (fullSync x)
    (state x) (errMask x) (tempFile x) (readOnly x) (needSync x) (dirtyFile x)
    (alwaysRollback x) (aInJournal x) (aInCkpt x) (pFree x) (pFirstSynced x) (pAll x) (pCkpt x).
Definition set_noSync (v : bool) (x : Pager) : Pager :=
  mkPager (dbSize x) (origDbSize x) (ckptSize x) (ckptJSize x) (nRec x) (cksumInit x)
    (ckptNRec x) (nPage x) (pnRef x) (mxPage x) (nHit x) (nMiss x) (nOvfl x) (journalOpen x)
    (journalStarted x) (useJournal x) (ckptOpen x) (ckptInUse x) (ckptAutoopen x) v (fullSync x)
    (state x) (errMask x) (tempFile x) (readOnly x) (needSync x) (dirtyFile x)
    (alwaysRollback x) (aInJournal x) (aInCkpt x) (pFree x) (pFirstSynced x) (pAll x) (pCkpt x).
Definition set_fullSync (v : bool) (x : Pager) : Pager :=
  mkPager (dbSize x) (origDbSize x) (ckptSize x) (ckptJSize x) (nRec x) (cksumInit x)
    (ckptNRec x) (nPage x) (pnRef x) (mxPage x) (nHit x) (nMiss x) (nOvfl x) (journalOpen x)
    (journalStarted x) (useJournal x) (ckptOpen x) (ckptInUse x) (ckptAutoopen x) (noSync x) v
    (state x) (errMask x) (tempFile x) (readOnly x) (needSync x) (dirtyFile x)
    (alwaysRollback x) (aInJournal x) (aInCkpt x) (pFree x) (pFirstSynced x) (pAll x) (pCkpt x).
Definition set_state (v : Z) (x : Pager) : Pager :=
  mkPager (dbSize x) (origDbSize x) (ckptSize x) (ckptJSize x) (nRec x) (cksumInit x)
    (ckptNRec x) (nPage x) (pnRef x) (mxPage x) (nHit x) (nMiss x) (nOvfl x) (journalOpen x)
    (journalStarted x) (useJournal x) (ckptOpen x) (ckptInUse x) (ckptAutoopen x) (noSync x)
    (fullSync x) v (errMask x) (tempFile x) (readOnly x) (needSync x) (dirtyFile x)
    (alwaysRollback x) (aInJournal x) (aInCkpt x) (pFree x) (pFirstSynced x) (pAll x) (pCkpt x).
Definition set_errMask (v : Z) (x : Pager) : Pager :=
  mkPager (dbSize x) (origDbSize x) (ckptSize x) (ckptJSize x) (nRec x) (cksumInit x)
    (ckptNRec x) (nPage x) (pnRef x) (mxPage x) (nHit x) (nMiss x) (nOvfl x) (journalOpen x)
    (journalStarted x) (useJournal x) (ckptOpen x) (ckptInUse x) (ckptAutoopen x) (noSync x)
    (fullSync x) (state x) v (tempFile x) (readOnly x) (needSync x) (dirtyFile x)
    (alwaysRollback x) (aInJournal x) (aInCkpt x) (pFree x) (pFirstSynced x) (pAll x) (pCkpt x).
Definition set_tempFile (v : bool) (x : Pager) : Pager :=
  mkPager (dbSize x) (origDbSize x) (ckptSize x) (ckptJSize x) (nRec x) (cksumInit x)
    (ckptNRec x) (nPage x) (pnRef x) (mxPage x) (nHit x) (nMiss x) (nOvfl x) (journalOpen x)
    (journalStarted x) (useJournal x) (ckptOpen x) (ckptInUse x) (ckptAutoopen x) (noSync x)
    (fullSync x) (state x) (errMask x) v (readOnly x) (needSync x) (dirtyFile x)
    (alwaysRollback x) (aInJournal x) (aInCkpt x) (pFree x) (pFirstSynced x) (pAll x) (pCkpt x).
Definition set_readOnly (v : bool) (x : Pager) : Pager :=
  mkPager (dbSize x) (origDbSize x) (ckptSize x) (ckptJSize x) (nRec x) (cksumInit x)
    (ckptNRec x) (nPage x) (pnRef x) (mxPage x) (nHit x) (nMiss x) (nOvfl x) (journalOpen x)
    (journalStarted x) (useJournal x) (ckptOpen x) (ckptInUse x) (ckptAutoopen x) (noSync x)
    (fullSync x) (state x) (errMask x) (tempFile x) v (needSync x) (dirtyFile x)
    (alwaysRollback x) (aInJournal x) (aInCkpt x) (pFree x) (pFirstSynced x) (pAll x) (pCkpt x).
Definition set_needSync (v : bool) (x : Pager) : Pager :=
  mkPager (dbSize x) (origDbSize x) (ckptSize x) (ckptJSize x) (nRec x) (cksumInit x)
    (ckptNRec x) (nPage x) (pnRef x) (mxPage x) (nHit x) (nMiss x) (nOvfl x) (journalOpen x)
    (journalStarted x) (useJournal x) (ckptOpen x) (ckptInUse x) (ckptAutoopen x) (noSync x)
    (fullSync x) (state x) (errMask x) (tempFile x) (readOnly x) v (dirtyFile x)
    (alwaysRollback x) (aInJournal x) (aInCkpt x) (pFree x) (pFirstSynced x) (pAll x) (pCkpt x).
Definition set_dirtyFile (v : bool) (x : Pager) : Pager :=
  mkPager (dbSize x) (origDbSize x) (ckptSize x) (ckptJSize x) (nRec x) (cksumInit x)
    (ckptNRec x) (nPage x) (pnRef x) (mxPage x) (nHit x) (nMiss x) (nOvfl x) (journalOpen x)
    (journalStarted x) (useJournal x) (ckptOpen x) (ckptInUse x) (ckptAutoopen x) (noSync x)
    (fullSync x) (state x) (errMask x) (tempFile x) (readOnly x) (needSync x) v
    (alwaysRollback x) (aInJournal x) (aInCkpt x) (pFree x) (pFirstSynced x) (pAll x) (pCkpt x).
Definition set_alwaysRollback (v : bool) (x : Pager) : Pager :=
  mkPager (dbSize x) (origDbSize x) (ckptSize x) (ckptJSize x) (nRec x) (cksumInit x)
    (ckptNRec x) (nPage x) (pnRef x) (mxPage x) (nHit x) (nMiss x) (nOvfl x) (journalOpen x)
    (journalStarted x) (useJournal x) (ckptOpen x) (ckptInUse x) (ckptAutoopen x) (noSync x)
    (fullSync x) (state x) (errMask x) (tempFile x) (readOnly x) (needSync x) (dirtyFile x) v
    (aInJournal x) (aInCkpt x) (pFree x) (pFirstSynced x) (pAll x) (pCkpt x).
Definition set_aInJournal (v : option (gset Z)) (x : Pager) : Pager :=
  mkPager (dbSize x) (origDbSize x) (ckptSize x) (ckptJSize x) (nRec x) (cksumInit x)
    (ckptNRec x) (nPage x) (pnRef x) (mxPage x) (nHit x) (nMiss x) (nOvfl x) (journalOpen x)
    (journalStarted x) (useJournal x) (ckptOpen x) (ckptInUse x) (ckptAutoopen x) (noSync x)
    (fullSync x) (state x) (errMask x) (tempFile x) (readOnly x) (needSync x) (dirtyFile x)
    (alwaysRollback x) v (aInCkpt x) (pFree x) (pFirstSynced x) (pAll x) (pCkpt x).
Definition set_aInCkpt (v : option (gset Z)) (x : Pager) : Pager :=
  mkPager (dbSize x) (origDbSize x) (ckptSize x) (ckptJSize x) (nRec x) (cksumInit x)
    (ckptNRec x) (nPage x) (pnRef x) (mxPage x) (nHit x) (nMiss x) (nOvfl x) (journalOpen x)
    (journalStarted x) (useJournal x) (ckptOpen x) (ckptInUse x) (ckptAutoopen x) (noSync x)
    (fullSync x) (state x) (errMask x) (tempFile x) (readOnly x) (needSync x) (dirtyFile x)
    (alwaysRollback x) (aInJournal x) v (pFree x) (pFirstSynced x) (pAll x) (pCkpt x).
Definition set_pFree (v : list Z) (x : Pager) : Pager :=
  mkPager (dbSize x) (origDbSize x) (ckptSize x) (ckptJSize x) (nRec x) (cksumInit x)
    (ckptNRec x) (nPage x) (pnRef x) (mxPage x) (nHit x) (nMiss x) (nOvfl x) (journalOpen x)
    (journalStarted x) (useJournal x) (ckptOpen x) (ckptInUse x) (ckptAutoopen x) (noSync x)
    (fullSync x) (state x) (errMask x) (tempFile x) (readOnly x) (needSync x) (dirtyFile x)
    (alwaysRollback x) (aInJournal x) (aInCkpt x) v (pFirstSynced x) (pAll x) (pCkpt x).
Definition set_pFirstSynced (v : option Z) (x : Pager) : Pager :=
  mkPager (dbSize x) (origDbSize x) (ckptSize x) (ckptJSize x) (nRec x) (cksumInit x)
    (ckptNRec x) (nPage x) (pnRef x) (mxPage x) (nHit x) (nMiss x) (nOvfl x) (journalOpen x)
    (journalStarted x) (useJournal x) (ckptOpen x) (ckptInUse x) (ckptAutoopen x) (noSync x)
    (fullSync x) (state x) (errMask x) (tempFile x) (readOnly x) (needSync x) (dirtyFile x)
    (alwaysRollback x) (aInJournal x) (aInCkpt x) (pFree x) v (pAll x) (pCkpt x).
Definition set_pAll (v : list PgHdr) (x : Pager) : Pager :=
  mkPager (dbSize x) (origDbSize x) (ckptSize x) (ckptJSize x) (nRec x) (cksumInit x)
    (ckptNRec x) (nPage x) (pnRef x) (mxPage x) (nHit x) (nMiss x) (nOvfl x) (journalOpen x)
    (journalStarted x) (useJournal x) (ckptOpen x) (ckptInUse x) (ckptAutoopen x) (noSync x)
    (fullSync x) (state x) (errMask x) (tempFile x) (readOnly x) (needSync x) (dirtyFile x)
    (alwaysRollback x) (aInJournal x) (aInCkpt x) (pFree x) (pFirstSynced x) v (pCkpt x).
Definition set_pCkpt (v : list Z) (x : Pager) : Pager :=
  mkPager (dbSize x) (origDbSize x) (ckptSize x) (ckptJSize x) (nRec x) (cksumInit x)
    (ckptNRec x) (nPage x) (pnRef x) (mxPage x) (nHit x) (nMiss x) (nOvfl x) (journalOpen x)
    (journalStarted x) (useJournal x) (ckptOpen x) (ckptInUse x) (ckptAutoopen x) (noSync x)
    (fullSync x) (state x) (errMask x) (tempFile x) (readOnly x) (needSync x) (dirtyFile x)
    (alwaysRollback x) (aInJournal x) (aInCkpt x) (pFree x) (pFirstSynced x) (pAll x) v.

Record World := mkWorld { pg : Pager; dk : disk }.

(** * Access to the state *)

Definition on_disk {A} (m : M disk A) : M World A := fun w =>
  match m (dk w) with
  | Done a d => Done a (mkWorld (pg w) d)
  | Crashed d => Crashed (mkWorld (pg w) d)
  | Stuck => Stuck
  end.

Definition upd (f : Pager -> Pager) : M World unit := fun w => Done tt (mkWorld (f (pg w)) (dk w)).
Definition get {A} (f : Pager -> A) : M World A := fun w => Done (f (pg w)) w.

(** The page a [PgHdr] pointer refers to; a dangling pointer is stuck. *)
Definition find_page (p : Z) (l : list PgHdr) : option PgHdr :=
  head (filter (fun h => pgno h = p) l).

Definition get_page (p : Z) : M World PgHdr := fun w =>
  match find_page p (pAll (pg w)) with Some h => Done h w | None => Stuck end.

Definition map_page (p : Z) (f : PgHdr -> PgHdr) (l : list PgHdr) : list PgHdr :=
  map (fun h => if pgno h =? p then f h else h) l.

Definition upd_page (p : Z) (f : PgHdr -> PgHdr) : M World unit :=
  upd (fun x => set_pAll (map_page p f (pAll x)) x).

Definition upd_all_pages (f : PgHdr -> PgHdr) : M World unit :=
  upd (fun x => set_pAll (map f (pAll x)) x).

(** An unsigned 32-bit integer. *)
Definition u32 (x : Z) : Z := x `mod` 4294967296.

Definition zero_page : list Z := replicate SQLITE_PAGE_SIZE 0.

Definition page_offset (p : Z) : nat := (Z.to_nat (p - 1) * SQLITE_PAGE_SIZE)%nat.

(** * 32-bit integers in the journal *)

Definition be32 (v : Z) : list Z :=
  [Z.land (Z.shiftr v 24) 255; Z.land (Z.shiftr v 16) 255;
   Z.land (Z.shiftr v 8) 255; Z.land v 255].

Definition get_be32 (ac : list Z) : Z :=
  Z.lor (Z.lor (Z.lor (Z.shiftl (ac.[0]) 24) (Z.shiftl (ac.[1]) 16))
    (Z.shiftl (ac.[2]) 8)) (ac.[3]).

Definition get_le32 (ac : list Z) : Z := get_be32 (reverse ac).

Definition read32bits (format : Z) (i : fileid) : M World (Z * Z) :=
  '(rc, ac) ← on_disk (sqliteOsRead i 4);
  mret (rc, if (rc =? SQLITE_OK) && (1 <? format) then get_be32 ac else get_le32 ac).

Definition write32bits (i : fileid) (val : Z) : M World Z :=
  on_disk (sqliteOsWrite i (be32 val)).

(** * Error codes, checkpoint list, lookup *)

Definition errcode_of (m : Z) : Z :=
  let rc := SQLITE_OK in
  let rc := if Z.land m PAGER_ERR_LOCK =? 0 then rc else SQLITE_PROTOCOL in
  let rc := if Z.land m PAGER_ERR_DISK =? 0 then rc else SQLITE_IOERR in
  let rc := if Z.land m PAGER_ERR_FULL =? 0 then rc else SQLITE_FULL in
  let rc := if Z.land m PAGER_ERR_MEM =? 0 then rc else SQLITE_NOMEM in
  if Z.land m PAGER_ERR_CORRUPT =? 0 then rc else SQLITE_CORRUPT.

Definition pager_errcode : M World Z := m ← get errMask; mret (errcode_of m).

Definition or_errMask (bits : Z) : M World unit :=
  upd (fun x => set_errMask (Z.lor (errMask x) bits) x).

Definition page_add_to_ckpt_list (p : Z) : M World unit :=
  h ← get_page p;
  if inCkpt h then mret tt
  else
    upd (fun x => set_pCkpt (p :: pCkpt x) x);;
    upd_page p (pg_set_inCkpt true).

Definition page_remove_from_ckpt_list (p : Z) : M World unit :=
  h ← get_page p;
  if negb (inCkpt h) then mret tt
  else
    upd (fun x => set_pCkpt (filter (fun q => q <> p) (pCkpt x)) x);;
    upd_page p (pg_set_inCkpt false).

Definition pager_lookup (p : Z) : M World (option PgHdr) := fun w =>
  Done (find_page p (pAll (pg w))) w.

(** The loop over the list [pCkpt] links: a page of the list that [pager_reset]
    has freed is a dangling pointer. *)
Fixpoint ckpt_unlink (l : list Z) : M World unit :=
  match l with
  | [] => mret tt
  | p :: l' =>
      h ← get_page p;
      assert (inCkpt h);;
      upd_page p (pg_set_inCkpt false);;
      ckpt_unlink l'
  end.

(** [sqlitepager_ckpt_commit]; it always returns [SQLITE_OK]. *)
Definition sqlitepager_ckpt_commit : M World Z :=
  inUse ← get ckptInUse;
  mwhen inUse
    (on_disk (sqliteOsSeek CPFD 0);;
     upd (set_ckptNRec 0);;
     upd (set_ckptInUse false);;
     upd (set_aInCkpt None);;
     l ← get pCkpt;
     ckpt_unlink l;;
     upd (set_pCkpt []));;
  upd (set_ckptAutoopen false);;
  mret SQLITE_OK.

(** Closing a file drops no lock of another file: only the directory entry of
    the journal matters here. *)
Definition pager_unwritelock : M World Z :=
  st ← get state;
  if st <? SQLITE_WRITELOCK then mret SQLITE_OK
  else
    sqlitepager_ckpt_commit;;
    co ← get ckptOpen;
    mwhen co (upd (set_ckptOpen false));;
    jo ← get journalOpen;
    (if (jo : bool) then
      upd (set_journalOpen false);;
      on_disk sqliteOsDelete_journal;;
      upd (set_aInJournal None);;
      upd_all_pages (fun h => pg_set_inJournal false (pg_set_dirty false
        (pg_set_pgNeedSync false h)))
    else
      df ← get dirtyFile; uj ← get useJournal;
      assert (negb df || negb uj));;
    rc ← on_disk sqliteOsReadLock;
    (if rc =? SQLITE_OK then upd (set_state SQLITE_READLOCK)
     else upd (set_state SQLITE_UNLOCK));;
    mret rc.

(** u32 arithmetic: the sum wraps around. *)
Definition pager_cksum (init p : Z) : Z := (init + p) `mod` 4294967296.

(** * Playback *)

Definition pager_playback_one_page (jfd : fileid) (format : Z) : M World Z :=
  '(rc, p) ← read32bits format jfd;
  if negb (rc =? SQLITE_OK) then mret rc else
  '(rc, aData) ← on_disk (sqliteOsRead jfd SQLITE_PAGE_SIZE);
  if negb (rc =? SQLITE_OK) then mret rc else
  if p =? 0 then mret SQLITE_DONE else
  sz ← get dbSize;
  if sz `mod` 4294967296 <? p then mret SQLITE_OK else
  let restore : M World Z :=
    pPg ← pager_lookup p;
    on_disk (sqliteOsSeek FD (page_offset p));;
    rc ← on_disk (sqliteOsWrite FD aData);
    match pPg with
    | None => mret rc
    | Some h =>
        assert ((nRef h =? 0) || (pgno h =? 1));;
        upd_page p (fun h => pg_set_pgData aData (pg_set_dirty false
          (pg_set_pgNeedSync false h)));;
        mret rc
    end in
  if 3 <=? format then
    '(rc, cksum) ← read32bits format jfd;
    if negb (rc =? SQLITE_OK) then mret rc else
    init ← get cksumInit;
    if negb (pager_cksum init p =? cksum) then mret SQLITE_DONE else restore
  else restore.

(** [for(i=0; i<nRec; i++)]; [SQLITE_DONE] ends the loop without an error. *)
Fixpoint playback_loop (n : nat) (format : Z) : M World Z :=
  match n with
  | O => mret SQLITE_OK
  | S n' =>
      rc ← pager_playback_one_page JFD format;
      if negb (rc =? SQLITE_OK) then mret (if rc =? SQLITE_DONE then SQLITE_OK else rc)
      else playback_loop n' format
  end.

(** The loop over [pAll] that reads dirty pages back. *)
Fixpoint refetch_loop (ps : list Z) : M World Z :=
  match ps with
  | [] => mret SQLITE_OK
  | p :: ps' =>
      h ← get_page p;
      if negb (dirty h) then refetch_loop ps' else
      orig ← get origDbSize;
      '(rc, zBuf) ← (if p <=? orig then
          on_disk (sqliteOsSeek FD (page_offset p));;
          on_disk (sqliteOsRead FD SQLITE_PAGE_SIZE)
        else mret (SQLITE_OK, zero_page));
      if negb (rc =? SQLITE_OK) then mret rc else
      upd_page p (fun h => pg_set_pgData zBuf (pg_set_dirty false
        (pg_set_pgNeedSync false h)));;
      refetch_loop ps'
  end.

(** The part of [pager_playback] before [end_playback]. *)
Definition playback_body (useJournalSize : bool) : M World Z :=
  jo ← get journalOpen;
  assert jo;;
  on_disk (sqliteOsSeek JFD 0);;
  '(rc, szJ) ← on_disk (sqliteOsFileSize JFD);
  if negb (rc =? SQLITE_OK) then mret rc else
  if Nat.ltb szJ (8 + 4) then mret SQLITE_OK else
  '(rc, aMagic) ← on_disk (sqliteOsRead JFD 8);
  if negb (rc =? SQLITE_OK) then mret SQLITE_PROTOCOL else
  let format :=
    if decide (aMagic = aJournalMagic3) then 3
    else if decide (aMagic = aJournalMagic2) then 2
    else if decide (aMagic = aJournalMagic1) then 1 else 0 in
  if format =? 0 then mret SQLITE_PROTOCOL else
  if (3 <=? format) && Nat.ltb szJ (8 + 3 * 4) then mret SQLITE_OK else
  '(rc, nrec) ← (if 3 <=? format then
      '(rc, nrec) ← read32bits format JFD;
      if negb (rc =? SQLITE_OK) then mret (rc, 0) else
      '(rc, init) ← read32bits format JFD;
      upd (set_cksumInit init);;
      if negb (rc =? SQLITE_OK) then mret (rc, 0) else
      mret (SQLITE_OK,
        if (nrec =? 4294967295) || useJournalSize
        then Z.of_nat ((szJ - JOURNAL_HDR_SZ 3) / JOURNAL_PG_SZ 3)
        else wrap32 nrec)
    else
      let n := ((szJ - JOURNAL_HDR_SZ 2) / JOURNAL_PG_SZ 2)%nat in
      assert (Nat.eqb (n * JOURNAL_PG_SZ 2 + JOURNAL_HDR_SZ 2) szJ);;
      mret (SQLITE_OK, Z.of_nat n));
  if negb (rc =? SQLITE_OK) then mret rc else
  '(rc, mxPg) ← read32bits format JFD;
  if negb (rc =? SQLITE_OK) then mret rc else
  orig ← get origDbSize;
  assert ((orig =? 0) || (orig `mod` 4294967296 =? mxPg));;
  rc ← on_disk (sqliteOsTruncate FD (SQLITE_PAGE_SIZE * Z.to_nat mxPg));
  if negb (rc =? SQLITE_OK) then mret rc else
  upd (set_dbSize (wrap32 mxPg));;
  rc ← playback_loop (Z.to_nat nrec) format;
  if negb (rc =? SQLITE_OK) then mret rc else
  all ← get pAll;
  refetch_loop (map pgno all).

Definition pager_playback (useJournalSize : bool) : M World Z :=
  rc ← playback_body useJournalSize;
  if negb (rc =? SQLITE_OK) then
    pager_unwritelock;;
    or_errMask PAGER_ERR_CORRUPT;;
    mret SQLITE_CORRUPT
  else pager_unwritelock.

(** The two loops of [pager_ckpt_playback] over one journal. *)
Fixpoint ckpt_loop (n : nat) (i : fileid) (format : Z) : M World Z :=
  match n with
  | O => mret SQLITE_OK
  | S n' =>
      rc ← pager_playback_one_page i format;
      assert (negb (rc =? SQLITE_DONE));;
      if negb (rc =? SQLITE_OK) then mret rc else ckpt_loop n' i format
  end.

Definition pager_ckpt_playback : M World Z :=
  size ← get ckptSize;
  on_disk (sqliteOsTruncate FD (SQLITE_PAGE_SIZE * Z.to_nat size));;
  upd (set_dbSize size);;
  inUse ← get ckptInUse; jo ← get journalOpen;
  assert (inUse && jo);;
  on_disk (sqliteOsSeek CPFD 0);;
  n ← get ckptNRec;
  rc ← (rc ← ckpt_loop n CPFD 2;
        if negb (rc =? SQLITE_OK) then mret rc else
        jsize ← get ckptJSize;
        on_disk (sqliteOsSeek JFD jsize);;
        '(rc, szJ) ← on_disk (sqliteOsFileSize JFD);
        if negb (rc =? SQLITE_OK) then mret rc else
        ckpt_loop ((szJ - jsize) / JOURNAL_PG_SZ journal_format) JFD journal_format);
  if negb (rc =? SQLITE_OK) then
    or_errMask PAGER_ERR_CORRUPT;;
    mret SQLITE_CORRUPT
  else mret rc.

(** * Configuration *)

Definition sqlitepager_set_cachesize (mx : Z) : M World unit :=
  (if 0 <=? mx then
     upd (fun x => set_noSync (tempFile x) x);;
     upd (fun x => if noSync x then x else set_needSync false x)
   else upd (set_noSync true));;
  let mx := Z.abs mx in
  mwhen (10 <? mx) (upd (set_mxPage mx)).

Definition sqlitepager_set_safety_level (level : Z) : M World unit :=
  upd (fun x => set_noSync ((level =? 1) || tempFile x) x);;
  upd (fun x => set_fullSync ((level =? 3) && negb (tempFile x)) x);;
  upd (fun x => if noSync x then x else set_needSync false x).

(** The structure [sqlitepager_open] builds once the file is open: the memory
    is zeroed before the assignments. *)
Definition sqlitepager_open (mxPage : Z) (useJournal tempFile readOnly : bool) : Pager :=
  mkPager (-1) 0 0 0 0 0 0 0 0 (if 5 <? mxPage then mxPage else 10) 0 0 0
    false false useJournal false false false
    (tempFile || negb useJournal) false SQLITE_UNLOCK 0 tempFile readOnly
    false false false None None [] None [] [].

Definition sqlitepager_pagecount : M World Z :=
  sz ← get dbSize;
  if 0 <=? sz then mret sz else
  '(rc, n) ← on_disk (sqliteOsFileSize FD);
  if negb (rc =? SQLITE_OK) then or_errMask PAGER_ERR_DISK;; mret 0 else
  let n := Z.of_nat (n / SQLITE_PAGE_SIZE) in
  st ← get state;
  mwhen (negb (st =? SQLITE_UNLOCK)) (upd (set_dbSize n));;
  mret n.

(** * Rollback, reset, close *)

Definition sqlitepager_rollback : M World Z :=
  df ← get dirtyFile; jo ← get journalOpen;
  if negb df || negb jo then
    rc ← pager_unwritelock;
    upd (set_dbSize (-1));;
    mret rc
  else
    em ← get errMask;
    st ← get state;
    if negb (em =? 0) && negb (em =? PAGER_ERR_FULL) then
      mwhen (SQLITE_WRITELOCK <=? st) (pager_playback true;; mret tt);;
      pager_errcode
    else if negb (st =? SQLITE_WRITELOCK) then mret SQLITE_OK
    else
      rc ← pager_playback true;
      (if negb (rc =? SQLITE_OK) then
         or_errMask PAGER_ERR_CORRUPT;;
         upd (set_dbSize (-1));;
         mret SQLITE_CORRUPT
       else
         upd (set_dbSize (-1));;
         mret rc).

Definition pager_reset : M World unit :=
  upd (fun x => set_pFree [] (set_pFirstSynced None (set_pAll [] (set_nPage 0 x))));;
  st ← get state;
  mwhen (SQLITE_WRITELOCK <=? st) (sqlitepager_rollback;; mret tt);;
  on_disk sqliteOsUnlock;;
  upd (fun x => set_state SQLITE_UNLOCK (set_dbSize (-1) (set_pnRef 0 x)));;
  jo ← get journalOpen;
  assert (negb jo).

Definition sqlitepager_close : M World Z :=
  st ← get state;
  (if st =? SQLITE_WRITELOCK then
     sqlitepager_rollback;;
     on_disk sqliteOsUnlock;;
     jo ← get journalOpen;
     assert (negb jo)
   else if st =? SQLITE_READLOCK then on_disk sqliteOsUnlock;; mret tt
   else mret tt);;
  upd (set_pAll []);;
  jo ← get journalOpen;
  assert (negb jo);;
  mret SQLITE_OK.

(** * Writing back *)

Definition syncJournal : M World Z :=
  ns ← get needSync;
  if (ns : bool) then
    tf ← get tempFile;
    rc ← (if (tf : bool) then mret SQLITE_OK else
      jo ← get journalOpen;
      assert jo;;
      n ← get nRec;
      '(rc, jSz) ← on_disk (sqliteOsFileSize JFD);
      if negb (rc =? SQLITE_OK) then mret rc else
      assert (Nat.eqb (n * JOURNAL_PG_SZ journal_format
                       + JOURNAL_HDR_SZ journal_format) jSz);;
      fs ← get fullSync;
      rc ← (if (fs : bool) then on_disk (sqliteOsSync JFD) else mret SQLITE_OK);
      if negb (rc =? SQLITE_OK) then mret rc else
      on_disk (sqliteOsSeek JFD 8);;
      rc ← write32bits JFD (Z.of_nat n);
      if negb (rc =? SQLITE_OK) then mret rc else
      on_disk (sqliteOsSeek JFD
        (JOURNAL_HDR_SZ journal_format + n * JOURNAL_PG_SZ journal_format));;
      rc ← on_disk (sqliteOsSync JFD);
      if negb (rc =? SQLITE_OK) then mret rc else
      upd (set_journalStarted true);;
      mret SQLITE_OK);
    if negb (rc =? SQLITE_OK) then mret rc else
    upd (set_needSync false);;
    upd_all_pages (pg_set_pgNeedSync false);;
    upd (fun x => set_pFirstSynced (head (pFree x)) x);;
    mret SQLITE_OK
  else
    all ← get pAll;
    assert (forallb (fun h => negb (pgNeedSync h)) all);;
    first ← get pFree; synced ← get pFirstSynced;
    assert (bool_decide (synced = head first));;
    mret SQLITE_OK.

(** The list linked by [pDirty] is given by its page numbers. *)
Fixpoint pager_write_pagelist (ps : list Z) : M World Z :=
  match ps with
  | [] => mret SQLITE_OK
  | p :: ps' =>
      h ← get_page p;
      assert (dirty h);;
      on_disk (sqliteOsSeek FD (page_offset p));;
      rc ← on_disk (sqliteOsWrite FD (pgData h));
      if negb (rc =? SQLITE_OK) then mret rc else
      upd_page p (pg_set_dirty false);;
      pager_write_pagelist ps'
  end.

Definition pager_get_all_dirty_pages : M World (list Z) :=
  all ← get pAll;
  mret (fold_left (fun l h => if dirty h then pgno h :: l else l) all []).

Definition sqlitepager_truncate (nPage : Z) : M World Z :=
  sz ← get dbSize;
  (if sz <? 0 then sqlitepager_pagecount;; mret tt else mret tt);;
  em ← get errMask;
  if negb (em =? 0) then pager_errcode else
  sz ← get dbSize;
  if sz `mod` 4294967296 <=? nPage then mret SQLITE_OK else
  syncJournal;;
  rc ← on_disk (sqliteOsTruncate FD (SQLITE_PAGE_SIZE * Z.to_nat nPage));
  mwhen (rc =? SQLITE_OK) (upd (set_dbSize nPage));;
  mret rc.

(** * References *)

(** The first page after the head of [l] that needs no sync. *)
Definition next_synced (pages : list PgHdr) (l : list Z) : option Z :=
  head (filter (fun p => Is_true (match find_page p pages with
                                  | Some h => negb (pgNeedSync h)
                                  | None => false
                                  end)) l).

(** The part of a list after [p]. *)
Fixpoint after (p : Z) (l : list Z) : list Z :=
  match l with
  | [] => []
  | q :: l' => if q =? p then l' else after p l'
  end.

(** Taking a page off the free list: [pFirstSynced] moves on if it was there. *)
Definition unlink_free (p : Z) : M World unit :=
  upd (fun x =>
    let x := if bool_decide (pFirstSynced x = Some p)
             then set_pFirstSynced (next_synced (pAll x) (after p (pFree x))) x else x in
    set_pFree (filter (fun q => q <> p) (pFree x)) x).

(** The macro [page_ref] and [_page_ref]. *)
Definition page_ref (p : Z) : M World unit :=
  h ← get_page p;
  mwhen (nRef h =? 0)
    (unlink_free p;; upd (fun x => set_pnRef (pnRef x + 1) x));;
  upd_page p (fun h => pg_set_nRef (nRef h + 1) h).

Definition sqlitepager_ref (p : Z) : M World Z := page_ref p;; mret SQLITE_OK.

Definition sqlitepager_unref (p : Z) : M World Z :=
  h ← get_page p;
  assert (0 <? nRef h);;
  upd_page p (fun h => pg_set_nRef (nRef h - 1) h);;
  mwhen (nRef h - 1 =? 0)
    (upd (fun x => set_pFree (pFree x ++ [p]) x);;
     upd (fun x => if negb (pgNeedSync h) && bool_decide (pFirstSynced x = None)
                   then set_pFirstSynced (Some p) x else x);;
     upd (fun x => set_pnRef (pnRef x - 1) x);;
     n ← get pnRef;
     assert (0 <=? n);;
     mwhen (n =? 0) pager_reset);;
  mret SQLITE_OK.

(** * Acquiring a page *)

(** The hot-journal branch of [sqlitepager_get]; [Some rc] is an early return. *)
Definition get_first_lock : M World (option Z) :=
  rc ← on_disk sqliteOsReadLock;
  if negb (rc =? SQLITE_OK) then mret (Some rc) else
  upd (set_state SQLITE_READLOCK);;
  uj ← get useJournal; ex ← on_disk sqliteOsFileExists_journal;
  if negb (uj && ex) then mret None else
  rc ← on_disk sqliteOsWriteLock;
  if negb (rc =? SQLITE_OK) then
    rc2 ← on_disk sqliteOsUnlock;
    mret (Some (if negb (rc2 =? SQLITE_OK) then SQLITE_INTERNAL else rc))
  else
  upd (set_state SQLITE_WRITELOCK);;
  rc ← on_disk sqliteOsOpenReadOnly_journal;
  if negb (rc =? SQLITE_OK) then
    rc ← on_disk sqliteOsUnlock;
    assert (rc =? SQLITE_OK);;
    mret (Some SQLITE_BUSY)
  else
  upd (set_journalOpen true);;
  upd (set_journalStarted false);;
  rc ← pager_playback false;
  mret (if negb (rc =? SQLITE_OK) then Some rc else None).

(** Finding the page to recycle and writing it back; [inr rc] is a failure
    after the rollback. *)
Definition get_recycle : M World (Z + Z) :=
  synced ← get pFirstSynced;
  victim ← (match synced with
    | Some v => mret (inl v)
    | None =>
        rc ← syncJournal;
        if negb (rc =? SQLITE_OK) then
          sqlitepager_rollback;; mret (inr SQLITE_IOERR)
        else
          l ← get pFree;
          match l with v :: _ => mret (inl v) | [] => mstuck end
    end);
  match victim with
  | inr rc => mret (inr rc)
  | inl v =>
      h ← get_page v;
      assert (nRef h =? 0);;
      rc ← (if dirty h then
              assert (negb (pgNeedSync h));; pager_write_pagelist [v]
            else mret SQLITE_OK);
      if negb (rc =? SQLITE_OK) then
        sqlitepager_rollback;; mret (inr SQLITE_IOERR)
      else
        h ← get_page v;
        assert (negb (dirty h));;
        mwhen (pgAlwaysRollback h) (upd (set_alwaysRollback true));;
        unlink_free v;;
        upd (fun x => set_nOvfl (nOvfl x + 1) x);;
        mret (inl v)
  end.

(** The memory a page image is loaded into: a new one at the head of [pAll], or
    the recycled one, which keeps its place in [pAll] and its content until it is
    read over. *)
Definition get_install (p : Z) (recycled : option Z) : M World unit :=
  x ← get (fun x => x);
  let inJ := match aInJournal x with
             | Some s => (p <=? origDbSize x) && bool_decide (p ∈ s)
             | None => false
             end in
  assert (match aInJournal x with
          | Some _ => negb (p <=? origDbSize x) || journalOpen x
          | None => true
          end);;
  let inC := match aInCkpt x with
             | Some s => (p <=? ckptSize x) && bool_decide (p ∈ s)
             | None => false
             end in
  (match recycled with
   | None =>
       upd (set_pAll (mkPgHdr p zero_page 0 false false false false false :: pAll x));;
       upd (fun x => set_nPage (nPage x + 1) x)
   | Some v =>
       upd_page v (fun h => mkPgHdr p (pgData h) 0 false (inCkpt h) (dirty h)
         (pgNeedSync h) (pgAlwaysRollback h));;
       upd (fun x => set_pCkpt (map (fun q => if q =? v then p else q) (pCkpt x)) x)
   end);;
  upd_page p (fun h => pg_set_inJournal inJ (pg_set_pgNeedSync false h));;
  (if (inC : bool) then page_add_to_ckpt_list p else page_remove_from_ckpt_list p);;
  upd_page p (fun h => pg_set_dirty false (pg_set_nRef 1 h));;
  upd (fun x => set_pnRef (pnRef x + 1) x).

(** Loading the content of the page; [SQLITE_OK] or an early return.  The product
    [pgno*SQLITE_PAGE_SIZE] is one of unsigned 32-bit integers and wraps. *)
Definition get_load (p : Z) : M World Z :=
  sz ← get dbSize;
  (if sz <? 0 then sqlitepager_pagecount;; mret tt else mret tt);;
  em ← get errMask;
  if negb (em =? 0) then
    sqlitepager_unref p;;
    pager_errcode
  else
  sz ← get dbSize;
  if sz <? p then upd_page p (pg_set_pgData zero_page);; mret SQLITE_OK
  else
    on_disk (sqliteOsSeek FD (page_offset p));;
    '(rc, bs) ← on_disk (sqliteOsRead FD SQLITE_PAGE_SIZE);
    upd_page p (fun h => pg_set_pgData (splice (pgData h) 0 bs) h);;
    if rc =? SQLITE_OK then mret SQLITE_OK
    else
      '(rc2, fileSize) ← on_disk (sqliteOsFileSize FD);
      if negb (rc2 =? SQLITE_OK)
         || (u32 (p * Z.of_nat SQLITE_PAGE_SIZE) <=? Z.of_nat fileSize)
      then sqlitepager_unref p;; mret rc
      else upd_page p (pg_set_pgData zero_page);; mret SQLITE_OK.

Definition sqlitepager_get (p : Z) : M World Z :=
  assert (negb (p =? 0));;
  em ← get errMask;
  if negb (Z.land em (Z.lnot PAGER_ERR_FULL) =? 0) then pager_errcode else
  n ← get pnRef;
  early ← (if n =? 0 then get_first_lock else mret None);
  match early with
  | Some rc => mret rc
  | None =>
      pPg ← (if n =? 0 then mret None else pager_lookup p);
      match pPg with
      | Some _ =>
          upd (fun x => set_nHit (nHit x + 1) x);;
          page_ref p;;
          mret SQLITE_OK
      | None =>
          upd (fun x => set_nMiss (nMiss x + 1) x);;
          x ← get (fun x => x);
          if (nPage x <? mxPage x) || bool_decide (pFree x = []) then
            ok ← on_disk sqliteMalloc;
            if negb ok then
              pager_unwritelock;;
              or_errMask PAGER_ERR_MEM;;
              mret SQLITE_NOMEM
            else get_install p None;; get_load p
          else
            victim ← get_recycle;
            match victim with
            | inr rc => mret rc
            | inl v => get_install p (Some v);; get_load p
            end
      end
  end.

Definition sqlitepager_lookup (p : Z) : M World (option Z) :=
  assert (negb (p =? 0));;
  em ← get errMask;
  if negb (Z.land em (Z.lnot PAGER_ERR_FULL) =? 0) then mret None else
  pPg ← pager_lookup p;
  match pPg with
  | None => mret None
  | Some _ => page_ref p;; mret (Some p)
  end.

(** * Checkpoints and the journal *)

Definition sqlitepager_ckpt_begin : M World Z :=
  jo ← get journalOpen;
  if negb jo then upd (set_ckptAutoopen true);; mret SQLITE_OK else
  inUse ← get ckptInUse;
  assert (negb inUse);;
  ok ← on_disk sqliteMalloc;
  if negb ok then on_disk sqliteOsReadLock;; mret SQLITE_NOMEM else
  upd (set_aInCkpt (Some ∅));;
  n ← get nRec;
  let jsize := (n * JOURNAL_PG_SZ journal_format + JOURNAL_HDR_SZ journal_format)%nat in
  rc ← ('(rc, jSz) ← on_disk (sqliteOsFileSize JFD);
        if negb (rc =? SQLITE_OK) then mret rc else
        assert (Nat.eqb jSz jsize);;
        upd (set_ckptJSize jsize);;
        upd (fun x => set_ckptSize (dbSize x) x);;
        co ← get ckptOpen;
        if (co : bool) then mret SQLITE_OK else
        rc ← on_disk sqliteOsOpenExclusive_ckpt;
        if negb (rc =? SQLITE_OK) then mret rc else
        upd (set_ckptOpen true);;
        upd (set_ckptNRec 0);;
        mret SQLITE_OK);
  if negb (rc =? SQLITE_OK) then upd (set_aInCkpt None);; mret rc else
  upd (set_ckptInUse true);;
  mret SQLITE_OK.

Definition sqlitepager_ckpt_rollback : M World Z :=
  inUse ← get ckptInUse;
  rc ← (if (inUse : bool) then
          rc ← pager_ckpt_playback; sqlitepager_ckpt_commit;; mret rc
        else mret SQLITE_OK);
  upd (set_ckptAutoopen false);;
  mret rc.

Definition pager_open_journal : M World Z :=
  st ← get state; jo ← get journalOpen; uj ← get useJournal;
  assert (st =? SQLITE_WRITELOCK);; assert (negb jo);; assert uj;;
  sqlitepager_pagecount;;
  ok ← on_disk sqliteMalloc;
  if negb ok then
    on_disk sqliteOsReadLock;; upd (set_state SQLITE_READLOCK);; mret SQLITE_NOMEM
  else
  upd (set_aInJournal (Some ∅));;
  tf ← get tempFile;
  rc ← on_disk (sqliteOsOpenExclusive_journal tf);
  if negb (rc =? SQLITE_OK) then
    upd (set_aInJournal None);;
    on_disk sqliteOsReadLock;; upd (set_state SQLITE_READLOCK);; mret SQLITE_CANTOPEN
  else
  upd (fun x => set_journalOpen true (set_journalStarted false (set_needSync false
    (set_alwaysRollback false (set_nRec 0 x)))));;
  em ← get errMask;
  if negb (em =? 0) then pager_errcode else
  upd (fun x => set_origDbSize (dbSize x) x);;
  rc ← on_disk (sqliteOsWrite JFD aJournalMagic3);
  rc ← (if negb (rc =? SQLITE_OK) then mret rc else
        ns ← get noSync; write32bits JFD (if (ns : bool) then 4294967295 else 0));
  rc ← (if negb (rc =? SQLITE_OK) then mret rc else
        r ← on_disk os_random32; upd (set_cksumInit r);; write32bits JFD r);
  rc ← (if negb (rc =? SQLITE_OK) then mret rc else
        sz ← get dbSize; write32bits JFD sz);
  auto ← get ckptAutoopen;
  rc ← (if (auto : bool) && (rc =? SQLITE_OK) then sqlitepager_ckpt_begin else mret rc);
  if negb (rc =? SQLITE_OK) then
    rc ← pager_unwritelock;
    mret (if rc =? SQLITE_OK then SQLITE_FULL else rc)
  else mret rc.

Definition sqlitepager_begin (p : Z) : M World Z :=
  h ← get_page p;
  assert (0 <? nRef h);;
  st ← get state;
  assert (negb (st =? SQLITE_UNLOCK));;
  if st =? SQLITE_READLOCK then
    x ← get (fun x => x);
    assert (bool_decide (aInJournal x = None));;
    rc ← on_disk sqliteOsWriteLock;
    if negb (rc =? SQLITE_OK) then mret rc else
    upd (set_state SQLITE_WRITELOCK);;
    upd (set_dirtyFile false);;
    if useJournal x && negb (tempFile x) then pager_open_journal else mret SQLITE_OK
  else mret SQLITE_OK.

(** [aInCkpt[pgno/8] |= 1<<(pgno&7)]; without a bitmap it would write through a
    null pointer. *)
Definition mark_ckpt (p : Z) : M World unit :=
  a ← get aInCkpt;
  match a with
  | Some s => upd (set_aInCkpt (Some ({[ p ]} ∪ s)))
  | None => mstuck
  end.

Definition mark_journal (p : Z) : M World unit :=
  a ← get aInJournal;
  match a with
  | Some s => upd (set_aInJournal (Some ({[ p ]} ∪ s)))
  | None => mstuck
  end.

(** One record of the main journal: page number, data and checksum leave in one
    [write]. *)
Definition journal_record (init p : Z) (data : list Z) : list Z :=
  be32 p ++ data ++ be32 (pager_cksum init p).

(** The journalling of a page that is not in the journal yet. *)
Definition write_to_journal (p : Z) : M World Z :=
  h ← get_page p;
  x ← get (fun x => x);
  rc ← (if p <=? origDbSize x then
          rc ← on_disk (sqliteOsWrite JFD (journal_record (cksumInit x) p (pgData h)));
          if negb (rc =? SQLITE_OK) then
            sqlitepager_rollback;; or_errMask PAGER_ERR_FULL;; mret rc
          else
            upd (fun x => set_nRec (nRec x + 1)%nat x);;
            mark_journal p;;
            upd_page p (fun h => pg_set_inJournal true (pg_set_pgNeedSync (negb (noSync x)) h));;
            mwhen (ckptInUse x) (mark_ckpt p;; page_add_to_ckpt_list p);;
            mret SQLITE_OK
        else
          upd_page p (pg_set_pgNeedSync (negb (journalStarted x) && negb (noSync x)));;
          mret SQLITE_OK);
  if negb (rc =? SQLITE_OK) then mret rc else
  h ← get_page p;
  mwhen (pgNeedSync h) (upd (set_needSync true));;
  mret SQLITE_OK.

Definition write_to_ckpt (p : Z) : M World Z :=
  h ← get_page p;
  x ← get (fun x => x);
  assert (inJournal h || (origDbSize x <? p));;
  rc ← on_disk (sqliteOsWrite CPFD (be32 p ++ pgData h));
  if negb (rc =? SQLITE_OK) then
    sqlitepager_rollback;; or_errMask PAGER_ERR_FULL;; mret rc
  else
    upd (fun x => set_ckptNRec (ckptNRec x + 1)%nat x);;
    mark_ckpt p;;
    page_add_to_ckpt_list p;;
    mret SQLITE_OK.

Definition sqlitepager_write (p : Z) : M World Z :=
  em ← get errMask;
  if negb (em =? 0) then pager_errcode else
  ro ← get readOnly;
  if (ro : bool) then mret SQLITE_PERM else
  upd_page p (pg_set_dirty true);;
  h ← get_page p;
  inUse ← get ckptInUse;
  if inJournal h && (inCkpt h || negb inUse) then
    upd (set_dirtyFile true);; mret SQLITE_OK
  else
  st ← get state;
  assert (negb (st =? SQLITE_UNLOCK));;
  rc ← sqlitepager_begin p;
  if negb (rc =? SQLITE_OK) then mret rc else
  st ← get state;
  assert (st =? SQLITE_WRITELOCK);;
  x ← get (fun x => x);
  rc ← (if negb (journalOpen x) && useJournal x then pager_open_journal else mret SQLITE_OK);
  if negb (rc =? SQLITE_OK) then mret rc else
  x ← get (fun x => x);
  assert (journalOpen x || negb (useJournal x));;
  upd (set_dirtyFile true);;
  h ← get_page p;
  rc ← (if negb (inJournal h) && useJournal x then write_to_journal p else mret SQLITE_OK);
  if negb (rc =? SQLITE_OK) then mret rc else
  h ← get_page p;
  x ← get (fun x => x);
  rc ← (if ckptInUse x && negb (inCkpt h) && (p <=? ckptSize x)
        then write_to_ckpt p else mret SQLITE_OK);
  if negb (rc =? SQLITE_OK) then mret rc else
  upd (fun x => if dbSize x <? p then set_dbSize p x else x);;
  mret SQLITE_OK.

Definition sqlitepager_iswriteable (p : Z) : M World bool :=
  h ← get_page p; mret (dirty h).

(** What the client does with a page it may write: it stores new content. *)
Definition store_page (p : Z) (data : list Z) : M World unit :=
  h ← get_page p; upd_page p (pg_set_pgData data).

Definition sqlitepager_overwrite (p : Z) (data : list Z) : M World Z :=
  rc ← sqlitepager_get p;
  if negb (rc =? SQLITE_OK) then mret rc else
  rc ← sqlitepager_write p;
  (if rc =? SQLITE_OK then store_page p data else mret tt);;
  sqlitepager_unref p;;
  mret rc.

(** [pPg->alwaysRollback = 1] comes before the test for NULL. *)
Definition sqlitepager_dont_write (p : Z) : M World unit :=
  h ← get_page p;
  upd_page p (pg_set_pgAlwaysRollback true);;
  x ← get (fun x => x);
  mwhen (dirty h && negb (ckptInUse x) &&
         negb ((dbSize x =? p) && (origDbSize x <? dbSize x)))
    (upd_page p (pg_set_dirty false)).

Definition sqlitepager_dont_rollback (p : Z) : M World unit :=
  h ← get_page p;
  x ← get (fun x => x);
  if negb (state x =? SQLITE_WRITELOCK) || negb (journalOpen x) then mret tt else
  if pgAlwaysRollback h || alwaysRollback x then mret tt else
  mwhen (negb (inJournal h) && (p <=? origDbSize x))
    (mark_journal p;;
     upd_page p (pg_set_inJournal true);;
     mwhen (ckptInUse x) (mark_ckpt p;; page_add_to_ckpt_list p));;
  h ← get_page p;
  mwhen (ckptInUse x && negb (inCkpt h) && (p <=? ckptSize x))
    (assert (inJournal h || (origDbSize x <? p));;
     mark_ckpt p;;
     page_add_to_ckpt_list p).

(** * Commit *)

Definition commit_abort : M World Z :=
  rc ← sqlitepager_rollback;
  mret (if rc =? SQLITE_OK then SQLITE_FULL else rc).

Definition sqlitepager_commit : M World Z :=
  em ← get errMask;
  if em =? PAGER_ERR_FULL then
    rc ← sqlitepager_rollback;
    mret (if rc =? SQLITE_OK then SQLITE_FULL else rc)
  else if negb (em =? 0) then pager_errcode else
  st ← get state;
  if negb (st =? SQLITE_WRITELOCK) then mret SQLITE_ERROR else
  df ← get dirtyFile;
  if negb df then
    ns ← get needSync;
    assert (negb ns);;
    rc ← pager_unwritelock;
    upd (set_dbSize (-1));;
    mret rc
  else
  jo ← get journalOpen;
  assert jo;;
  rc ← syncJournal;
  if negb (rc =? SQLITE_OK) then commit_abort else
  ps ← pager_get_all_dirty_pages;
  rc ← (if bool_decide (ps = []) then mret SQLITE_OK else
        rc ← pager_write_pagelist ps;
        if negb (rc =? SQLITE_OK) then mret rc else
        ns ← get noSync;
        if (ns : bool) then mret SQLITE_OK else on_disk (sqliteOsSync FD));
  if negb (rc =? SQLITE_OK) then commit_abort else
  rc ← pager_unwritelock;
  upd (set_dbSize (-1));;
  mret rc.

Definition sqlitepager_isreadonly : M World bool := get readOnly.

Definition sqlitepager_stats : M World (list Z) :=
  get (fun x => [pnRef x; nPage x; mxPage x; dbSize x; state x; errMask x;
                 nHit x; nMiss x; nOvfl x]).
