(* ===== verification/PagerBytes.v ===== *)
(** The byte-level facts the pager proofs share: big-endian integers, page
    positions inside a file, and the layout of the journal. *)
From S2P Require Import Prelude OsFile Pager.

(** * 32-bit integers *)

Definition is_u32 (v : Z) : Prop := 0 <= v < 4294967296.

Lemma be32_length v : length (be32 v) = 4%nat.
Proof. reflexivity. Qed.

Lemma be32_mod v i :
  0 <= i -> Z.land (Z.shiftr v i) 255 = (v / 2 ^ i) `mod` 256.
Proof.
  intros. rewrite Z.shiftr_div_pow2 by done.
  change 255 with (Z.ones 8). rewrite Z.land_ones by lia. done.
Qed.

Lemma get_be32_app v rest : is_u32 v -> get_be32 (be32 v ++ rest) = v.
Proof.
  unfold is_u32. intros Hv. unfold get_be32, be32, aget.
  change (Z.to_nat 0) with 0%nat. change (Z.to_nat 1) with 1%nat.
  change (Z.to_nat 2) with 2%nat. change (Z.to_nat 3) with 3%nat. cbn [nth app].
  rewrite !be32_mod by lia.
  change 255 with (Z.ones 8). rewrite Z.land_ones by lia.
  set (a := (v / 2 ^ 24) `mod` 256). set (b := (v / 2 ^ 16) `mod` 256).
  set (c := (v / 2 ^ 8) `mod` 256). set (d := v `mod` 2 ^ 8).
  assert (0 <= a < 256) by (apply Z.mod_pos_bound; lia).
  assert (0 <= b < 256) by (apply Z.mod_pos_bound; lia).
  assert (0 <= c < 256) by (apply Z.mod_pos_bound; lia).
  assert (0 <= d < 256) by (apply Z.mod_pos_bound; lia).
  rewrite <- Z.lor_assoc, (lor_shift_add d c 8) by lia.
  rewrite <- Z.lor_assoc, (lor_shift_add (c * 2 ^ 8 + d) b 16) by lia.
  rewrite lor_shift_add by lia.
  subst a b c d. clear -Hv. Z.to_euclidean_division_equations. lia.
Qed.

Lemma get_be32_be32 v : is_u32 v -> get_be32 (be32 v) = v.
Proof. intros. rewrite <- (app_nil_r (be32 v)). by apply get_be32_app. Qed.

(** * Pages of a file *)

#[global] Opaque SQLITE_PAGE_SIZE.
Abbreviation PSZ := SQLITE_PAGE_SIZE.

Lemma PSZ_pos : (0 < PSZ)%nat.
Proof. apply Nat.ltb_lt. vm_compute. reflexivity. Qed.

(** Page [p] of a file, shorter than a page if the file ends in it. *)
Definition page (data : list Z) (p : Z) : list Z := take PSZ (drop (page_offset p) data).

Lemma page_offset_succ p : 1 <= p -> (page_offset p + PSZ)%nat = (Z.to_nat p * PSZ)%nat.
Proof. intros. unfold page_offset. replace (Z.to_nat p) with (S (Z.to_nat (p - 1))) by lia. lia. Qed.

Lemma page_offset_lt p q : 1 <= p -> p < q -> (page_offset p + PSZ <= page_offset q)%nat.
Proof. intros. rewrite page_offset_succ by done. unfold page_offset. apply Nat.mul_le_mono_r. lia. Qed.

Lemma page_offset_le p size : 1 <= p <= size -> (page_offset p + PSZ <= Z.to_nat size * PSZ)%nat.
Proof. intros. rewrite page_offset_succ by lia. apply Nat.mul_le_mono_r. lia. Qed.

Lemma page_length data p size :
  1 <= p <= size -> (Z.to_nat size * PSZ <= length data)%nat -> length (page data p) = PSZ.
Proof.
  intros Hp Hl. pose proof (page_offset_le p size Hp).
  unfold page. rewrite length_take, length_drop. lia.
Qed.

(** Reading a byte of a page. *)
Lemma page_lookup data p i :
  page data p !! i = if decide (i < PSZ)%nat then data !! (page_offset p + i)%nat else None.
Proof.
  unfold page. case_decide.
  - rewrite lookup_take_lt by done. apply lookup_drop.
  - apply lookup_take_ge. lia.
Qed.

(** Two files of whole pages are equal when their pages are. *)
Lemma pages_ext a b size :
  length a = (Z.to_nat size * PSZ)%nat -> length b = (Z.to_nat size * PSZ)%nat ->
  (forall p, 1 <= p <= size -> page a p = page b p) -> a = b.
Proof.
  intros Ha Hb H. apply list_eq. intros i. pose proof PSZ_pos as HP.
  destruct (decide (i < Z.to_nat size * PSZ)%nat) as [Hi|Hi]; cycle 1.
  { rewrite !lookup_ge_None_2 by lia. done. }
  set (k := (i / PSZ)%nat). set (r := (i mod PSZ)%nat).
  assert (Hir : i = (k * PSZ + r)%nat) by (subst k r; pose proof (Nat.div_mod_eq i PSZ); lia).
  assert (Hr : (r < PSZ)%nat) by (subst r; apply Nat.mod_upper_bound; lia).
  assert (Hk : (k < Z.to_nat size)%nat) by (subst k; apply Nat.Div0.div_lt_upper_bound; lia).
  specialize (H (Z.of_nat k + 1) ltac:(lia)).
  apply (f_equal (fun l => l !! r)) in H. rewrite !page_lookup in H.
  rewrite !decide_True in H by done. unfold page_offset in H.
  replace (Z.to_nat (Z.of_nat k + 1 - 1)) with k in H by lia. by rewrite <- Hir in H.
Qed.

(** * [splice] and [resize] *)

Lemma splice_length data pos bs :
  length (splice data pos bs) = if decide (bs = []) then Nat.max (length data) pos
                                else Nat.max (length data) (pos + length bs).
Proof.
  unfold splice. rewrite !length_app, length_take, length_replicate, length_drop.
  case_decide; subst; simpl; lia.
Qed.

Lemma splice_lookup_in data pos bs i :
  (pos <= i < pos + length bs)%nat -> splice data pos bs !! i = bs !! (i - pos)%nat.
Proof.
  intros Hi. unfold splice. rewrite lookup_app_r by (rewrite length_take; lia).
  rewrite length_take. rewrite lookup_app_r by (rewrite length_replicate; lia).
  rewrite length_replicate. rewrite lookup_app_l by lia. f_equal. lia.
Qed.

Lemma splice_lookup_out data pos bs i :
  (i < length data)%nat -> (i < pos \/ pos + length bs <= i)%nat ->
  splice data pos bs !! i = data !! i.
Proof.
  intros Hl Hi. unfold splice. destruct (decide (i < pos)%nat) as [Hlt|Hge].
  - rewrite lookup_app_l by (rewrite length_take; lia). by apply lookup_take_lt.
  - rewrite lookup_app_r by (rewrite length_take; lia).
    rewrite length_take. rewrite lookup_app_r by (rewrite length_replicate; lia).
    rewrite length_replicate. rewrite lookup_app_r by lia.
    rewrite lookup_drop. f_equal. lia.
Qed.

(** Appending. *)
Lemma splice_end data bs : splice data (length data) bs = data ++ bs.
Proof.
  unfold splice. rewrite take_ge, drop_ge, Nat.sub_diag by lia. simpl.
  by rewrite app_nil_r.
Qed.

Lemma splice_nil data pos : (pos <= length data)%nat -> splice data pos [] = data.
Proof.
  intros. unfold splice. simpl. replace (pos - length data)%nat with 0%nat by lia.
  simpl. rewrite Nat.add_0_r. apply take_drop.
Qed.

(** Writing inside page [q] leaves the other pages alone. *)
Lemma page_splice_other data q p bs :
  1 <= p -> 1 <= q -> p <> q -> (length bs <= PSZ)%nat ->
  (page_offset p + PSZ <= length data)%nat ->
  page (splice data (page_offset q) bs) p = page data p.
Proof.
  intros Hp Hq Hne Hb Hl. apply list_eq. intros i. rewrite !page_lookup.
  case_decide; [|done]. apply splice_lookup_out; [lia|].
  destruct (decide (p < q)).
  - left. pose proof (page_offset_lt p q). lia.
  - right. pose proof (page_offset_lt q p). lia.
Qed.

Lemma page_splice_same data q bs :
  length bs = PSZ -> page (splice data (page_offset q) bs) q = bs.
Proof.
  intros Hb. apply list_eq. intros i. rewrite page_lookup. case_decide.
  - rewrite splice_lookup_in by lia. f_equal. lia.
  - symmetry. apply lookup_ge_None_2. lia.
Qed.

(** A torn write of what a page already holds changes nothing. *)
Lemma page_splice_prefix data q k :
  (page_offset q + PSZ <= length data)%nat ->
  page (splice data (page_offset q) (take k (page data q))) q = page data q.
Proof.
  intros Hl. apply list_eq. intros i. rewrite !page_lookup. case_decide; [|done].
  set (bs := take k (page data q)).
  assert (Hbs : length bs = (k `min` PSZ)%nat).
  { subst bs. unfold page. rewrite length_take, length_take, length_drop. lia. }
  destruct (decide (i < length bs)%nat) as [Hi|Hi].
  - rewrite splice_lookup_in by lia. replace (page_offset q + i - page_offset q)%nat with i by lia.
    subst bs. rewrite lookup_take_lt by lia. rewrite page_lookup, decide_True by done. done.
  - apply splice_lookup_out; lia.
Qed.

Lemma resize_length data n : length (resize data n) = n.
Proof. unfold resize. rewrite length_app, length_take, length_replicate. lia. Qed.

Lemma page_resize data p size :
  1 <= p <= size -> (page_offset p + PSZ <= length data)%nat ->
  page (resize data (PSZ * Z.to_nat size)) p = page data p.
Proof.
  intros Hp Hl. pose proof (page_offset_le p size Hp).
  apply list_eq. intros i. rewrite !page_lookup. case_decide; [|done].
  unfold resize. rewrite lookup_app_l by (rewrite length_take; lia).
  apply lookup_take_lt. lia.
Qed.

(** * Pages as a client reads them

    A page the file does not reach reads as zeros. *)
Definition fpage (data : list Z) (p : Z) : list Z := resize (page data p) PSZ.

Lemma fpage_length data p : length (fpage data p) = PSZ.
Proof. apply resize_length. Qed.

Lemma page_le data p : (length (page data p) <= PSZ)%nat.
Proof. unfold page. rewrite length_take. lia. Qed.

Lemma fpage_page data p : length (page data p) = PSZ -> fpage data p = page data p.
Proof.
  intros H. unfold fpage, resize. rewrite take_ge by lia.
  replace (PSZ - length (page data p))%nat with 0%nat by lia. apply app_nil_r.
Qed.

Lemma fpage_lookup data p i :
  fpage data p !! i =
    if decide (i < PSZ)%nat then Some (default 0 (data !! (page_offset p + i)%nat)) else None.
Proof.
  case_decide as Hi.
  2:{ apply lookup_ge_None. rewrite fpage_length. lia. }
  unfold fpage, resize. rewrite take_ge by apply page_le.
  destruct (decide (i < length (page data p))%nat) as [Hl|Hl].
  - rewrite lookup_app_l by done. rewrite page_lookup, decide_True by done.
    destruct (lookup_lt_is_Some_2 (page data p) i Hl) as [b Hb].
    rewrite page_lookup, decide_True in Hb by done. by rewrite Hb.
  - rewrite lookup_app_r by lia. rewrite lookup_replicate_2 by lia.
    assert (E : page data p !! i = None) by (apply lookup_ge_None; lia).
    rewrite page_lookup, decide_True in E by done. by rewrite E.
Qed.

Lemma splice_default data pos bs i :
  (i < pos \/ pos + length bs <= i)%nat ->
  default 0 (splice data pos bs !! i) = default 0 (data !! i).
Proof.
  intros Hi. destruct (decide (i < length data)%nat) as [Hl|Hl].
  { by rewrite splice_lookup_out by lia. }
  rewrite (lookup_ge_None_2 data i) by lia. unfold splice. cbn.
  destruct (decide (i < pos)%nat) as [Hp|Hp].
  - rewrite lookup_app_r by (rewrite length_take; lia). rewrite length_take.
    rewrite lookup_app_l by (rewrite length_replicate; lia).
    by rewrite lookup_replicate_2 by lia.
  - rewrite lookup_ge_None_2; [done|].
    rewrite !length_app, length_take, length_replicate, length_drop. lia.
Qed.

Lemma fpage_splice_other data q p bs :
  1 <= p -> 1 <= q -> p <> q -> (length bs <= PSZ)%nat ->
  fpage (splice data (page_offset q) bs) p = fpage data p.
Proof.
  intros Hp Hq Hne Hb. apply list_eq. intros i. rewrite !fpage_lookup.
  case_decide; [|done]. f_equal. apply splice_default.
  destruct (Z.lt_total p q) as [Hlt|[?|Hlt]]; [|done|].
  - pose proof (page_offset_lt p q). lia.
  - pose proof (page_offset_lt q p). lia.
Qed.

Lemma fpage_splice_same data q bs :
  length bs = PSZ -> fpage (splice data (page_offset q) bs) q = bs.
Proof.
  intros Hb. rewrite fpage_page; rewrite page_splice_same; done.
Qed.

Lemma fpage_beyond data p :
  (length data <= page_offset p)%nat -> fpage data p = replicate PSZ 0.
Proof.
  intros Hl. unfold fpage, page. rewrite drop_ge by done. unfold resize.
  by rewrite take_nil, Nat.sub_0_r.
Qed.
