(* ===== verification/PagerPlayback.v ===== *)
(** Playing a journal back: what [pager_playback] of [pager.c] does to the
    database file and to the cache, with the process allowed to die in any
    system call on the way.

    Throughout, [orig] is the content of the database file before the
    transaction and [size] its number of pages; [D] holds the pages whose
    content the client has given up ([sqlitepager_dont_rollback]). *)
From S2P Require Import Prelude OsFile Pager PagerBytes.

(** * Stepping through pager code *)

Lemma wp_on_disk {A} (m : M disk A) (Q : A -> World -> Prop) (C : World -> Prop) x d :
  wp m (fun a d' => Q a (mkWorld x d')) (fun d' => C (mkWorld x d')) d ->
  wp (on_disk m) Q C (mkWorld x d).
Proof. unfold wp, on_disk. simpl. by destruct (m d). Qed.

Lemma wp_get {A} (f : Pager -> A) (Q : A -> World -> Prop) C w :
  Q (f (pg w)) w -> wp (get f) Q C w.
Proof. done. Qed.

Lemma wp_upd f (Q : unit -> World -> Prop) C w :
  Q tt (mkWorld (f (pg w)) (dk w)) -> wp (upd f) Q C w.
Proof. done. Qed.

Lemma wp_get_page p h (Q : PgHdr -> World -> Prop) C w :
  find_page p (pAll (pg w)) = Some h -> Q h w -> wp (get_page p) Q C w.
Proof. unfold wp, get_page. by intros ->. Qed.

Lemma wp_pager_lookup p (Q : option PgHdr -> World -> Prop) C w :
  Q (find_page p (pAll (pg w))) w -> wp (pager_lookup p) Q C w.
Proof. done. Qed.

Lemma wp_upd_page p f (Q : unit -> World -> Prop) C w :
  Q tt (mkWorld (set_pAll (map_page p f (pAll (pg w))) (pg w)) (dk w)) ->
  wp (upd_page p f) Q C w.
Proof. done. Qed.

Lemma wp_upd_all_pages f (Q : unit -> World -> Prop) C w :
  Q tt (mkWorld (set_pAll (map f (pAll (pg w))) (pg w)) (dk w)) ->
  wp (upd_all_pages f) Q C w.
Proof. done. Qed.

(** One step of straight-line pager code. *)
Ltac wstep :=
  match goal with
  | |- wp (_ ≫= _) _ _ _ => apply wp_bind
  | |- wp (mret _) _ _ _ => apply wp_ret
  | |- wp (get _) _ _ _ => apply wp_get
  | |- wp (upd _) _ _ _ => apply wp_upd
  | |- wp (upd_page _ _) _ _ _ => apply wp_upd_page
  | |- wp (upd_all_pages _) _ _ _ => apply wp_upd_all_pages
  | |- wp (pager_lookup _) _ _ _ => apply wp_pager_lookup
  | |- wp (assert _) _ _ _ => apply wp_assert
  | |- wp (on_disk _) _ _ _ => apply wp_on_disk
  | |- wp (sqliteOsSeek _ _) _ _ _ => apply wp_seek
  end; cbn [pg dk].
Ltac wsteps := repeat wstep.

(** The bytes still to be read. *)
Definition ahead (f : file) : list Z := drop (f_pos f) (f_data f).

Lemma advance_ahead f chunk rest :
  ahead f = chunk ++ rest ->
  ahead (mk_file (f_data f) (f_synced f) (f_pos f + length chunk)) = rest.
Proof.
  unfold ahead. cbn [f_pos f_data]. intros H. rewrite <- drop_drop, H. apply drop_app_length.
Qed.

Lemma wp_read_exact i chunk rest (Q : Z * list Z -> disk -> Prop) (C : disk -> Prop) d :
  no_err d -> ahead (get_file i d) = chunk ++ rest ->
  (forall fs, no_err (set_faults fs d) ->
     Q (SQLITE_OK, chunk) (advance i (length chunk) (set_faults fs d)) /\
     C (set_faults fs d)) ->
  wp (sqliteOsRead i (length chunk)) Q C d.
Proof.
  intros Hn Ha H. apply wp_read; [done|]. intros fs Hfs.
  assert (Hr : file_read (get_file i d) (length chunk) = chunk).
  { unfold file_read. unfold ahead in Ha. rewrite Ha. apply take_app_length. }
  cbv zeta. rewrite Hr, Nat.eqb_refl. by apply H.
Qed.

Lemma wp_read32 fmt i v rest (Q : Z * Z -> World -> Prop) (C : World -> Prop) x d :
  1 < fmt -> is_u32 v -> no_err d -> ahead (get_file i d) = be32 v ++ rest ->
  (forall fs, no_err (set_faults fs d) ->
     Q (SQLITE_OK, v) (mkWorld x (advance i 4 (set_faults fs d))) /\
     C (mkWorld x (set_faults fs d))) ->
  wp (read32bits fmt i) Q C (mkWorld x d).
Proof.
  intros Hf Hv Hn Ha H. unfold read32bits. wsteps.
  apply (wp_read_exact i (be32 v) rest); [done|done|]. intros fs Hfs.
  destruct (H fs Hfs) as [H1 H2]. split; [|done]. wsteps.
  rewrite Z.eqb_refl. replace (1 <? fmt) with true by lia.
  cbn [andb]. rewrite get_be32_be32 by done. exact H1.
Qed.

(** * The cache as a list of pages with distinct numbers *)

Lemma find_page_Some p l h : find_page p l = Some h -> h ∈ l /\ pgno h = p.
Proof.
  unfold find_page. intros H.
  assert (Hin : h ∈ filter (fun h => pgno h = p) l).
  { destruct (filter _ l); [done|]. simplify_eq/=. by left. }
  apply list_elem_of_filter in Hin. tauto.
Qed.

Lemma find_page_None p l : find_page p l = None <-> p ∉ map pgno l.
Proof.
  unfold find_page. induction l as [|h l IH]; [split; [intros _; apply not_elem_of_nil|done]|].
  rewrite filter_cons. cbn [map]. rewrite not_elem_of_cons. destruct (decide (pgno h = p)).
  - split; [done|]. intros [[] _]. done.
  - rewrite IH. naive_solver.
Qed.

Lemma find_page_split p l h :
  find_page p l = Some h ->
  exists l1 l2, l = (l1 ++ h :: l2) /\ p ∉ map pgno l1 /\ pgno h = p.
Proof.
  induction l as [|g l IH]; [done|]. unfold find_page. rewrite filter_cons.
  destruct (decide (pgno g = p)) as [E|E].
  - intros [= ->]. exists [], l. split; [done|]. split; [apply not_elem_of_nil|done].
  - intros H. destruct (IH H) as (l1 & l2 & -> & Hn & Hp). exists (g :: l1), l2.
    split; [done|]. split; [|done]. cbn. by apply not_elem_of_cons.
Qed.

Lemma find_page_unique l h :
  NoDup (map pgno l) -> h ∈ l -> find_page (pgno h) l = Some h.
Proof.
  intros Hnd Hin. destruct (find_page (pgno h) l) as [g|] eqn:E.
  - apply find_page_split in E as (l1 & l2 & -> & Hn & Hp). f_equal.
    apply elem_of_app in Hin as [Hin|[->|Hin]%elem_of_cons]; [|done|].
    + destruct Hn. apply list_elem_of_In, in_map, list_elem_of_In, Hin.
    + rewrite map_app in Hnd. cbn in Hnd. apply NoDup_app in Hnd as (_ & _ & Hnd).
      apply NoDup_cons in Hnd as [Hg _]. destruct Hg. rewrite Hp.
      apply list_elem_of_In, in_map, list_elem_of_In, Hin.
  - apply find_page_None in E. destruct E.
    apply list_elem_of_In, in_map, list_elem_of_In, Hin.
Qed.

Lemma map_page_absent p f l : p ∉ map pgno l -> map_page p f l = l.
Proof.
  unfold map_page. induction l as [|h l IH]; [done|].
  cbn [map]. rewrite not_elem_of_cons. intros [Hp Hl].
  rewrite (proj2 (Z.eqb_neq _ _)) by done. by rewrite IH.
Qed.

Lemma map_page_split p f l1 h l2 :
  NoDup (map pgno (l1 ++ h :: l2)) -> pgno h = p ->
  map_page p f (l1 ++ h :: l2) = l1 ++ f h :: l2.
Proof.
  intros Hnd <-. rewrite map_app in Hnd. cbn in Hnd.
  apply NoDup_app in Hnd as (_ & H1 & [H2 _]%NoDup_cons).
  unfold map_page. rewrite map_app. cbn [map]. rewrite Z.eqb_refl.
  fold (map_page (pgno h) f l1). fold (map_page (pgno h) f l2).
  rewrite !map_page_absent; [done|done|].
  intros Hin. apply (H1 _ Hin). by left.
Qed.

Lemma map_page_pgno p f l :
  (forall h, pgno (f h) = pgno h) -> map pgno (map_page p f l) = map pgno l.
Proof.
  intros Hf. unfold map_page. rewrite map_map. apply map_ext. intros h.
  by destruct (pgno h =? p).
Qed.

Lemma map_page_in p f l g :
  g ∈ map_page p f l ->
  exists h, h ∈ l /\ (g = h /\ pgno h <> p \/ g = f h /\ pgno h = p).
Proof.
  unfold map_page. intros Hg.
  apply list_elem_of_In, in_map_iff in Hg as (h & <- & Hh).
  exists h. split; [by apply list_elem_of_In|].
  destruct (Z.eqb_spec (pgno h) p); auto.
Qed.

(** * Journals *)

Definition journal_header (f init size : Z) : list Z :=
  aJournalMagic3 ++ be32 f ++ be32 init ++ be32 size.

Lemma journal_header_length f init size : length (journal_header f init size) = 20%nat.
Proof. reflexivity. Qed.

Lemma JOURNAL_PG_SZ_3 : JOURNAL_PG_SZ 3 = (PSZ + 8)%nat.
Proof. unfold JOURNAL_PG_SZ. simpl. lia. Qed.

(** Pages with the checks of their copies in the cache undone. *)
Definition restore (dta : list Z) (h : PgHdr) : PgHdr :=
  pg_set_pgData dta (pg_set_dirty false (pg_set_pgNeedSync false h)).

Section Playback.

Context (orig : list Z) (size : Z) (D : gset Z).
Context (Hsize : 0 <= size <= 1073741823).
Context (Horig : length orig = (Z.to_nat size * PSZ)%nat).

Definition in_db (p : Z) : Prop := 1 <= p <= size.

Lemma orig_page_length p : in_db p -> length (page orig p) = PSZ.
Proof. intros Hp. by apply (page_length _ _ size); [|rewrite Horig]. Qed.

(** The records of pages [ps], each with its original content. *)
Definition records (init : Z) (ps : list Z) : list Z :=
  flat_map (fun p => journal_record init p (page orig p)) ps.

Definition good_recs (ps : list Z) : Prop := NoDup ps /\ Forall in_db ps.

Lemma record_length init p : in_db p -> length (journal_record init p (page orig p)) = (PSZ + 8)%nat.
Proof.
  intros Hp. unfold journal_record. rewrite !length_app, !be32_length, orig_page_length by done. lia.
Qed.

Lemma records_length init ps :
  Forall in_db ps -> length (records init ps) = (length ps * (PSZ + 8))%nat.
Proof.
  induction 1 as [|p ps Hp Hps IH]; [done|]. cbn [records flat_map length].
  rewrite length_app, record_length by done. fold (records init ps). rewrite IH. lia.
Qed.

Lemma records_app init ps qs : records init (ps ++ qs) = records init ps ++ records init qs.
Proof. unfold records. apply flat_map_app. Qed.

(** A file in which every page that still matters and is not among [cnt] has its
    original content. *)
Definition intact (cnt : list Z) (db : list Z) : Prop :=
  forall p, in_db p -> p ∉ D -> p ∉ cnt -> page db p = page orig p.

Definition restored_cache (ps : list Z) (l : list PgHdr) : list PgHdr :=
  map (fun h => if decide (pgno h ∈ ps) then restore (page orig (pgno h)) h else h) l.

Lemma restored_cache_cons p ps l :
  restored_cache ps (map_page p (restore (page orig p)) l) = restored_cache (p :: ps) l.
Proof.
  unfold restored_cache, map_page. rewrite map_map. apply map_ext. intros h.
  destruct (Z.eqb_spec (pgno h) p) as [E|Hne].
  - cbn [pgno restore pg_set_pgData pg_set_dirty pg_set_pgNeedSync]. rewrite E.
    rewrite (decide_True (P := p ∈ p :: ps)) by (by left).
    destruct (decide (p ∈ ps)); [|done]. by destruct h.
  - destruct (decide (pgno h ∈ ps)) as [Hin|Hin].
    + by rewrite decide_True by (by right).
    + rewrite decide_False; [done|]. by intros [?|?]%elem_of_cons.
Qed.

(** Only unreferenced pages and page 1 may be rolled back. *)
Definition rollbackable (l : list PgHdr) : Prop :=
  Forall (fun h => nRef h = 0 \/ pgno h = 1) l.

Lemma rollbackable_restored ps l : rollbackable l -> rollbackable (restored_cache ps l).
Proof.
  unfold rollbackable, restored_cache. rewrite Forall_map. intros Hl.
  apply (Forall_impl _ _ _ Hl). intros h H. cbn. by destruct (decide _).
Qed.

(** What may change while records are played back: the database file, the
    position in the journal, the schedule. *)
Record frame (d d' : disk) : Prop := {
  fr_jdata : f_data (d_journal d') = f_data (d_journal d);
  fr_jexists : d_jexists d' = d_jexists d
}.

Ltac frames :=
  repeat match goal with H : frame _ _ |- _ => destruct H end;
  split; cbn in *; congruence.

Lemma frame_refl d : frame d d.
Proof. done. Qed.

Lemma frame_trans d1 d2 d3 : frame d1 d2 -> frame d2 d3 -> frame d1 d3.
Proof. intros [] []. split; congruence. Qed.

(** One good record. *)
Lemma wp_playback_one p rest x d (Q : Z -> World -> Prop) (C : World -> Prop) :
  no_err d -> in_db p -> dbSize x = size ->
  ahead (d_journal d) = journal_record (cksumInit x) p (page orig p) ++ rest ->
  is_u32 (cksumInit x) ->
  rollbackable (pAll x) ->
  (forall d' k, frame d d' ->
     f_data (d_db d') = splice (f_data (d_db d)) (page_offset p) (take k (page orig p)) ->
     C (mkWorld x d')) ->
  (forall d', frame d d' -> f_data (d_db d') = f_data (d_db d) -> C (mkWorld x d')) ->
  (forall d', no_err d' -> frame d d' -> ahead (d_journal d') = rest ->
     f_data (d_db d') = splice (f_data (d_db d)) (page_offset p) (page orig p) ->
     Q SQLITE_OK (mkWorld (set_pAll (map_page p (restore (page orig p)) (pAll x)) x) d')) ->
  wp (pager_playback_one_page JFD 3) Q C (mkWorld x d).
Proof.
  intros Hn Hp Hdb Ha Hinit Href HC HC0 HQ. pose proof Hp as [Hp1 Hp2].
  pose proof (orig_page_length p Hp) as Hlen.
  unfold journal_record in Ha. rewrite <- !app_assoc in Ha.
  unfold pager_playback_one_page. wsteps.
  eapply (wp_read32 _ _ p); [lia|unfold is_u32; lia|done|exact Ha|].
  intros fs1 Hn1. split; [|apply HC0; by destruct d].
  cbn [negb Z.eqb SQLITE_OK]. wsteps.
  destruct d as [[db dbs dbp] [J Js jp] je cp lk rnd fs].
  cbn [set_faults advance get_file set_file d_journal f_data f_synced f_pos d_db] in *.
  rewrite <- Hlen.
  apply (advance_ahead (mk_file J Js jp)) in Ha. cbn [f_data f_synced f_pos] in Ha.
  eapply wp_read_exact; [done|exact Ha|].
  intros fs2 Hn2. split; [|by apply HC0].
  cbn [negb Z.eqb SQLITE_OK set_faults advance get_file set_file d_journal f_data f_synced f_pos].
  rewrite (proj2 (Z.eqb_neq p 0)) by lia. wsteps.
  rewrite Hdb, Z.mod_small by lia.
  rewrite (proj2 (Z.ltb_ge size p)) by lia.
  change (3 <=? 3) with true. cbn iota. wsteps.
  apply (advance_ahead (mk_file J Js _)) in Ha. cbn [f_data f_synced f_pos] in Ha.
  eapply (wp_read32 _ _ (pager_cksum (cksumInit x) p)); [lia| |done|exact Ha|].
  { unfold is_u32, pager_cksum. apply Z.mod_pos_bound. lia. }
  intros fs3 Hn3. split; [|by apply HC0].
  cbn [negb Z.eqb SQLITE_OK set_faults advance get_file set_file d_journal f_data f_synced f_pos].
  wsteps. rewrite Z.eqb_refl. cbn [negb]. wsteps.
  apply (advance_ahead (mk_file J Js _)) in Ha. cbn [f_data f_synced f_pos] in Ha.
  cbn [set_file get_file d_db f_data f_synced].
  apply wp_write; [done|]. intros fs4 Hn4.
  cbn [set_faults write_file get_file set_file].
  assert (Hw : forall bs, f_data (file_write (mk_file db dbs (page_offset p)) bs)
      = if decide (bs = []) then db else splice db (page_offset p) bs).
  { intros bs. unfold file_write. by case_decide. }
  split.
  2:{ intros k. destruct (decide (take (torn (length (page orig p)) k) (page orig p) = [])) as [E|E].
      - apply HC0; [done|]. cbn [d_db]. by rewrite Hw, decide_True.
      - eapply HC; [done|]. cbn [d_db]. by rewrite Hw, decide_False. }
  assert (Hne : page orig p <> []).
  { intros E. rewrite E in Hlen. pose proof PSZ_pos. simpl in Hlen. lia. }
  destruct (find_page p (pAll x)) as [h|] eqn:Hf.
  - wsteps.
    + destruct (find_page_Some _ _ _ Hf) as [Hin <-].
      apply Forall_forall with (x := h) in Href; [|done].
      destruct Href as [->| ->]; [done|by rewrite orb_true_r].
    + apply HQ; [done|done|exact Ha|]. cbn [d_db]. by rewrite Hw, decide_False.
  - wsteps. rewrite map_page_absent in HQ by (by apply find_page_None).
    assert (Hx : set_pAll (pAll x) x = x) by (by destruct x). rewrite Hx in HQ.
    apply HQ; [done|done|exact Ha|]. cbn [d_db]. by rewrite Hw, decide_False.
Qed.

(** How far a database file may have been restored when the process dies:
    pages outside [ps] are as before, pages of [ps] that were intact still are. *)
Record progress (ps : list Z) (db db' : list Z) : Prop := {
  pr_length : length db' = (Z.to_nat size * PSZ)%nat;
  pr_other : forall q, in_db q -> q ∉ ps -> page db' q = page db q;
  pr_intact : forall q, in_db q -> q ∈ ps -> page db q = page orig q -> page db' q = page orig q
}.

Lemma progress_refl ps db : length db = (Z.to_nat size * PSZ)%nat -> progress ps db db.
Proof. by split. Qed.

Lemma progress_trans ps db1 db2 db3 :
  progress ps db1 db2 -> progress ps db2 db3 -> progress ps db1 db3.
Proof.
  intros [H1 H2 H3] [H4 H5 H6]. split; [done| |].
  - intros q Hq Hn. rewrite H5, H2; done.
  - intros q Hq Hi E. auto.
Qed.

Lemma progress_mono ps qs db db' :
  (forall q, q ∈ ps -> q ∈ qs) -> progress ps db db' -> progress qs db db'.
Proof.
  intros Hsub [H1 H2 H3]. split; [done| |].
  - intros q Hq Hn. apply H2; [done|]. by intros ?%Hsub.
  - intros q Hq Hi E. destruct (decide (q ∈ ps)); [by apply H3|]. by rewrite H2.
Qed.

Lemma progress_splice p k db :
  in_db p -> length db = (Z.to_nat size * PSZ)%nat ->
  progress [p] db (splice db (page_offset p) (take k (page orig p))).
Proof.
  intros Hp Hl. pose proof Hp as [Hp1 Hp2].
  pose proof (page_offset_le p size Hp) as Ho.
  pose proof (orig_page_length p Hp) as Hlen.
  split.
  - rewrite splice_length, length_take, Hlen. case_decide; lia.
  - intros q [Hq1 Hq2] Hn. apply page_splice_other; [done|done|set_solver| |].
    + rewrite length_take. lia.
    + pose proof (page_offset_le q size). lia.
  - intros q _ ->%list_elem_of_singleton E. rewrite <- E. apply page_splice_prefix. lia.
Qed.

Lemma progress_intact ps cnt db db' :
  intact cnt db -> progress ps db db' -> intact cnt db'.
Proof.
  intros Hi [H1 H2 H3] p Hp HD Hc. destruct (decide (p ∈ ps)).
  - apply H3; [done..|]. by apply Hi.
  - rewrite H2 by done. by apply Hi.
Qed.

(** The whole loop over [length ps] good records. *)
Lemma wp_playback_loop ps : forall rest x d (Q : Z -> World -> Prop) (C : World -> Prop),
  no_err d -> Forall in_db ps -> dbSize x = size -> is_u32 (cksumInit x) ->
  rollbackable (pAll x) -> length (f_data (d_db d)) = (Z.to_nat size * PSZ)%nat ->
  ahead (d_journal d) = records (cksumInit x) ps ++ rest ->
  (forall x' d', frame d d' -> progress ps (f_data (d_db d)) (f_data (d_db d')) ->
     C (mkWorld x' d')) ->
  (forall d', no_err d' -> frame d d' ->
     length (f_data (d_db d')) = (Z.to_nat size * PSZ)%nat ->
     (forall q, in_db q -> q ∉ ps -> page (f_data (d_db d')) q = page (f_data (d_db d)) q) ->
     (forall q, q ∈ ps -> page (f_data (d_db d')) q = page orig q) ->
     Q SQLITE_OK (mkWorld (set_pAll (restored_cache ps (pAll x)) x) d')) ->
  wp (playback_loop (length ps) 3) Q C (mkWorld x d).
Proof.
  induction ps as [|p ps IH]; intros rest x d Q C Hn Hps Hdb Hinit Href Hl Ha HC HQ.
  { cbn [playback_loop length]. wsteps.
    replace (mkWorld x d) with (mkWorld (set_pAll (restored_cache [] (pAll x)) x) d).
    - apply HQ; [done|apply frame_refl|done|done|]. by intros q ?%elem_of_nil.
    - f_equal. unfold restored_cache. rewrite map_ext with (g := fun h => h).
      + rewrite map_id. by destruct x.
      + intros h. by rewrite decide_False by apply not_elem_of_nil. }
  apply Forall_cons_1 in Hps as [Hp Hps].
  pose proof (orig_page_length p Hp) as Hlen.
  cbn [length playback_loop]. wsteps.
  cbn [records flat_map] in Ha. rewrite <- app_assoc in Ha.
  eapply wp_playback_one; [done|done|done|exact Ha|done|done| | |].
  { intros d' k Hfr E. apply HC; [done|]. rewrite E.
    apply (progress_mono [p]); [set_solver|]. by apply progress_splice. }
  { intros d' Hfr E. apply HC; [done|]. rewrite E. by apply progress_refl. }
  intros d1 Hn1 Hfr1 Ha1 Hd1. cbn [negb Z.eqb SQLITE_OK].
  assert (Hpr : progress [p] (f_data (d_db d)) (f_data (d_db d1))).
  { rewrite Hd1, <- (take_ge (page orig p) PSZ) by lia. by apply progress_splice. }
  assert (Hpp : page (f_data (d_db d1)) p = page orig p).
  { rewrite Hd1. by apply page_splice_same. }
  apply (IH rest); [done|done|done|done| |apply Hpr|exact Ha1| |].
  - cbn [pAll set_pAll]. unfold rollbackable, map_page. rewrite Forall_map.
    apply (Forall_impl _ _ _ Href). intros h Hh. cbn. by destruct (pgno h =? p).
  - intros x' d' Hfr' Hpr'. apply HC; [by eapply frame_trans|].
    eapply progress_trans; [eapply progress_mono; [|exact Hpr]; set_solver|].
    eapply progress_mono; [|exact Hpr']. set_solver.
  - intros d' Hn' Hfr' Hl' Hother Hin.
    cbn [pAll set_pAll]. rewrite restored_cache_cons.
    replace (set_pAll (restored_cache (p :: ps) (pAll x)) (set_pAll _ x))
      with (set_pAll (restored_cache (p :: ps) (pAll x)) x) by (by destruct x).
    apply HQ; [done|by eapply frame_trans|done| |].
    + intros q Hq [Hqp Hqs]%not_elem_of_cons. rewrite Hother by done.
      apply Hpr; [done|]. by rewrite list_elem_of_singleton.
    + intros q Hq. destruct (decide (q ∈ ps)) as [Hqs|Hqs]; [by apply Hin|].
      apply elem_of_cons in Hq as [->|?]; [|done]. by rewrite Hother.
Qed.

(** ** Dirty pages are read back *)

Definition refetched (db : list Z) (h : PgHdr) : PgHdr :=
  if dirty h then restore (if pgno h <=? size then page db (pgno h) else zero_page) h else h.

Lemma refetched_pgno db h : pgno (refetched db h) = pgno h.
Proof. unfold refetched. by destruct (dirty h). Qed.

Lemma wp_read_page p x d (Q : Z * list Z -> World -> Prop) (C : World -> Prop) :
  no_err d -> in_db p -> (Z.to_nat size * PSZ <= length (f_data (d_db d)))%nat ->
  (forall d', frame d d' -> f_data (d_db d') = f_data (d_db d) -> C (mkWorld x d')) ->
  (forall d', no_err d' -> frame d d' -> d_journal d' = d_journal d ->
     f_data (d_db d') = f_data (d_db d) ->
     Q (SQLITE_OK, page (f_data (d_db d)) p) (mkWorld x d')) ->
  wp (on_disk (sqliteOsSeek FD (page_offset p));; on_disk (sqliteOsRead FD PSZ)) Q C
    (mkWorld x d).
Proof.
  intros Hn Hp Hl HC HQ. wsteps.
  destruct d as [[db dbs dbp] J je cp lk rnd fs].
  cbn [set_file get_file d_db d_journal f_data f_synced] in *.
  rewrite <- (page_length db p size Hp Hl).
  eapply (wp_read_exact FD (page db p) (drop PSZ (drop (page_offset p) db))); [done| |].
  { unfold ahead, page. cbn. by rewrite take_drop. }
  intros fs' Hn'. split; [by apply HQ|by apply HC].
Qed.

Lemma wp_refetch_loop l2 : forall l1 x d (Q : Z -> World -> Prop) (C : World -> Prop),
  no_err d -> pAll x = map (refetched (f_data (d_db d))) l1 ++ l2 ->
  NoDup (map pgno (l1 ++ l2)) -> Forall (fun h => 1 <= pgno h) l2 ->
  origDbSize x = size \/ Forall (fun h => dirty h = false) l2 ->
  (Z.to_nat size * PSZ <= length (f_data (d_db d)))%nat ->
  (forall x' d', frame d d' -> f_data (d_db d') = f_data (d_db d) -> C (mkWorld x' d')) ->
  (forall d', no_err d' -> frame d d' -> f_data (d_db d') = f_data (d_db d) ->
     Q SQLITE_OK
       (mkWorld (set_pAll (map (refetched (f_data (d_db d))) (l1 ++ l2)) x) d')) ->
  wp (refetch_loop (map pgno l2)) Q C (mkWorld x d).
Proof.
  induction l2 as [|h l2 IH]; intros l1 x d Q C Hn Hall Hnd Hpos Hos Hl HC HQ.
  { cbn [map refetch_loop]. wsteps. rewrite app_nil_r in *.
    specialize (HQ d Hn (frame_refl d) eq_refl). rewrite <- Hall in HQ. by destruct x. }
  apply Forall_cons_1 in Hpos as [Hh Hpos]. cbn [map refetch_loop]. wsteps.
  assert (Hnd' : NoDup (map pgno (map (refetched (f_data (d_db d))) l1 ++ h :: l2))).
  { rewrite map_app, map_map, (map_ext _ pgno) by (intros; apply refetched_pgno).
    by rewrite <- map_app. }
  eapply (wp_get_page _ h).
  { cbn [pg]. rewrite Hall. apply find_page_unique; [done|]. set_solver. }
  destruct (dirty h) eqn:Hd; cbn [negb].
  2:{ apply (IH (l1 ++ [h])); [done| |by rewrite <- app_assoc|done| |done|done|].
      - rewrite map_app, Hall, <- app_assoc. cbn. unfold refetched at 3. by rewrite Hd.
      - destruct Hos as [?|Hos]; [by left|right]. by apply Forall_cons_1 in Hos as [_ ?].
      - intros d' H1 H2 H3. rewrite <- app_assoc. by apply HQ. }
  destruct Hos as [Hos|Hos]; [|apply Forall_cons_1 in Hos as [Hos _]; congruence].
  wsteps. rewrite Hos.
  assert (Hcont : forall d' dta, no_err d' -> frame d d' ->
    f_data (d_db d') = f_data (d_db d) ->
    dta = (if pgno h <=? size then page (f_data (d_db d)) (pgno h) else zero_page) ->
    wp (upd_page (pgno h) (fun h => pg_set_pgData dta (pg_set_dirty false
          (pg_set_pgNeedSync false h)));; refetch_loop (map pgno l2)) Q C (mkWorld x d')).
  { intros d' dta Hn' Hfr E ->. wsteps. rewrite Hall.
    fold (restore (if pgno h <=? size then page (f_data (d_db d)) (pgno h) else zero_page)).
    rewrite map_page_split by done.
    apply (IH (l1 ++ [h])); [done| |by rewrite <- app_assoc|done|by left|by rewrite E| |].
    - rewrite E, map_app, <- app_assoc. cbn. unfold refetched at 3. by rewrite Hd.
    - intros x' d'' H1 H2. apply HC; [by eapply frame_trans|congruence].
    - intros d'' H1 H2 H3. rewrite E, <- app_assoc.
      replace (set_pAll (map _ _) (set_pAll _ x))
        with (set_pAll (map (refetched (f_data (d_db d))) (l1 ++ h :: l2)) x)
        by (by destruct x).
      apply HQ; [done|by eapply frame_trans|congruence]. }
  destruct (Z.leb_spec (pgno h) size) as [Hle|Hgt].
  - apply wp_read_page; [done|split; lia|done|by intros; apply HC|].
    intros d' H1 H2 _ H3. cbn [negb Z.eqb SQLITE_OK].
    by apply Hcont.
  - wsteps. cbn [negb Z.eqb SQLITE_OK]. by apply Hcont.
Qed.

(** * What a dead process leaves behind *)

(** How many of [n] records the count field [f] of the header stands for. *)
Definition counted (f : Z) (n m : nat) : Prop :=
  (f = 4294967295 /\ m = n) \/ (f = Z.of_nat m /\ (m <= n)%nat).

(** A disk from which the original content can be recovered: there is no journal
    and the file is intact; or the journal's header is incomplete and the file
    is intact; or the journal restores every page that is not intact. *)
Inductive recoverable (d : disk) : Prop :=
| rec_clean :
    d_jexists d = false ->
    length (f_data (d_db d)) = (Z.to_nat size * PSZ)%nat ->
    intact [] (f_data (d_db d)) -> recoverable d
| rec_header k f init :
    d_jexists d = true -> (k < 20)%nat ->
    f_data (d_journal d) = take k (journal_header f init size) ->
    length (f_data (d_db d)) = (Z.to_nat size * PSZ)%nat ->
    intact [] (f_data (d_db d)) -> recoverable d
| rec_journal f init ps tail m :
    d_jexists d = true ->
    f_data (d_journal d) = journal_header f init size ++ records init ps ++ tail ->
    (length tail < PSZ + 8)%nat -> is_u32 init -> good_recs ps -> counted f (length ps) m ->
    (Z.to_nat size * PSZ <= length (f_data (d_db d)))%nat ->
    intact (take m ps) (f_data (d_db d)) -> recoverable d.

(** No more records than pages. *)
Lemma good_recs_length ps : good_recs ps -> (length ps <= Z.to_nat size)%nat.
Proof.
  intros [Hnd Hin]. rewrite <- (length_seqZ 1 size).
  apply submseteq_length, NoDup_submseteq; [done|].
  intros p Hp. rewrite Forall_forall in Hin. apply elem_of_seqZ.
  destruct (Hin p Hp). lia.
Qed.

Lemma good_recs_take m ps : good_recs ps -> good_recs (take m ps).
Proof.
  intros [Hnd Hin]. split.
  - eapply (NoDup_app (take m ps) (drop m ps)). by rewrite take_drop.
  - by apply Forall_take.
Qed.

Lemma good_recs_in_db ps : good_recs ps -> Forall in_db ps.
Proof. by intros [_ ?]. Qed.

(** The number of records [pager_playback] computes from the file size. *)
Lemma journal_size_records n tail :
  (tail < PSZ + 8)%nat ->
  ((20 + (n * (PSZ + 8) + tail) - JOURNAL_HDR_SZ 3) / JOURNAL_PG_SZ 3)%nat = n.
Proof.
  intros Ht. rewrite JOURNAL_PG_SZ_3. change (JOURNAL_HDR_SZ 3) with 20%nat.
  replace (20 + (n * (PSZ + 8) + tail) - 20)%nat with (tail + n * (PSZ + 8))%nat by lia.
  rewrite Nat.div_add by lia. rewrite Nat.div_small by lia. done.
Qed.

(** How many of the records are played back. *)
Definition played (useJournalSize : bool) (f : Z) (n m : nat) : nat :=
  if (f =? 4294967295) || useJournalSize then n else m.

Lemma played_ge ujs f n m : counted f n m -> (m <= played ujs f n m <= n)%nat.
Proof. unfold played. intros [[-> ->]|[-> ?]]; destruct ujs; case_Zb; simpl; lia. Qed.

(** The state [playback_body] ends in. *)
Definition played_pager (init : Z) (ps : list Z) (db : list Z) (x : Pager) : Pager :=
  set_pAll (map (refetched db) (restored_cache ps (pAll x)))
    (set_dbSize size (set_cksumInit init x)).

(** The size of the file at the last transaction must not contradict the
    journal. *)
Definition orig_ok (x : Pager) : Prop :=
  origDbSize x = size \/
  (origDbSize x = 0 /\ Forall (fun h => dirty h = false) (pAll x)).

Lemma restored_cache_clean ps l :
  Forall (fun h => dirty h = false) l ->
  Forall (fun h => dirty h = false) (restored_cache ps l).
Proof.
  unfold restored_cache. rewrite Forall_map. intros H.
  apply (Forall_impl _ _ _ H). intros h Hh. cbn. by destruct (decide _).
Qed.

Lemma restored_cache_pgno ps l : map pgno (restored_cache ps l) = map pgno l.
Proof.
  unfold restored_cache. rewrite map_map. apply map_ext. intros h. by destruct (decide _).
Qed.

Lemma wp_playback_body ujs f init ps tail m x d (Q : Z -> World -> Prop) (C : World -> Prop) :
  no_err d -> journalOpen x = true -> d_jexists d = true ->
  f_data (d_journal d) = journal_header f init size ++ records init ps ++ tail ->
  (length tail < PSZ + 8)%nat -> is_u32 init -> good_recs ps -> counted f (length ps) m ->
  (Z.to_nat size * PSZ <= length (f_data (d_db d)))%nat ->
  intact (take m ps) (f_data (d_db d)) ->
  orig_ok x -> NoDup (map pgno (pAll x)) -> Forall (fun h => 1 <= pgno h) (pAll x) ->
  rollbackable (pAll x) ->
  (forall x' d', recoverable d' -> C (mkWorld x' d')) ->
  (forall d', no_err d' -> frame d d' ->
     length (f_data (d_db d')) = (Z.to_nat size * PSZ)%nat ->
     intact [] (f_data (d_db d')) ->
     let ps' := take (played ujs f (length ps) m) ps in
     (forall q, q ∈ ps' -> page (f_data (d_db d')) q = page orig q) ->
     Q SQLITE_OK (mkWorld (played_pager init ps' (f_data (d_db d')) x) d')) ->
  wp (playback_body ujs) Q C (mkWorld x d).
Proof.
  intros Hn Hjo Hje HJ Htail Hinit Hgood Hcnt Hl Hint Horg Hnd Hpos Href HC HQ.
  pose proof (good_recs_length ps Hgood) as Hps.
  assert (Hfu : is_u32 f).
  { unfold is_u32. destruct Hcnt as [[-> _]|[-> ?]]; lia. }
  assert (HR : forall x' d', frame d d' ->
      (Z.to_nat size * PSZ <= length (f_data (d_db d')))%nat ->
      intact (take m ps) (f_data (d_db d')) -> C (mkWorld x' d')).
  { intros x' d' [F1 F2] H1 H2. apply HC.
    apply (rec_journal _ f init ps tail m); (congruence || done). }
  unfold playback_body. wsteps; [exact Hjo|].
  destruct d as [[db dbs dbp] [J Js jp] je cp lk rnd fs].
  cbn [set_file get_file d_db d_journal f_data f_synced d_jexists] in *.
  apply wp_filesize; [done|]. intros fs1 Hn1.
  cbn [set_faults get_file d_journal f_data].
  split; [|by apply HR]. cbn [negb Z.eqb SQLITE_OK].
  assert (HJl : length J = (20 + (length ps * (PSZ + 8) + length tail))%nat).
  { rewrite HJ, !length_app, records_length by by apply good_recs_in_db. done. }
  replace (Nat.ltb (length J) (8 + 4)) with false by (symmetry; apply Nat.ltb_ge; lia).
  wsteps.
  assert (Ha : ahead (mk_file J Js 0) = aJournalMagic3 ++ be32 f ++ be32 init ++ be32 size
      ++ records init ps ++ tail).
  { unfold ahead. cbn [f_pos f_data]. rewrite drop_0, HJ. unfold journal_header.
    by rewrite <- !app_assoc. }
  change (sqliteOsRead JFD 8) with (sqliteOsRead JFD (length aJournalMagic3)).
  eapply wp_read_exact; [done|exact Ha|]. intros fs2 Hn2. split; [|by apply HR].
  cbn [negb Z.eqb SQLITE_OK set_faults advance get_file set_file d_journal f_data f_synced f_pos].
  apply (advance_ahead (mk_file J Js 0)) in Ha. cbn [f_data f_synced f_pos] in Ha.
  rewrite decide_True by done. change (3 =? 0) with false. change (3 <=? 3) with true.
  replace (Nat.ltb (length J) (8 + 3 * 4)) with false by (symmetry; apply Nat.ltb_ge; lia).
  cbn [andb]. cbn iota. wsteps.
  eapply (wp_read32 _ _ f); [lia|done|done|exact Ha|]. intros fs3 Hn3. split; [|by apply HR].
  cbn [negb Z.eqb SQLITE_OK set_faults advance get_file set_file d_journal f_data f_synced f_pos].
  apply (advance_ahead (mk_file J Js _)) in Ha. cbn [f_data f_synced f_pos] in Ha.
  wsteps.
  eapply (wp_read32 _ _ init); [lia|done|done|exact Ha|]. intros fs4 Hn4. split; [|by apply HR].
  cbn [negb Z.eqb SQLITE_OK set_faults advance get_file set_file d_journal f_data f_synced f_pos].
  apply (advance_ahead (mk_file J Js _)) in Ha. cbn [f_data f_synced f_pos] in Ha.
  wsteps. cbn [negb Z.eqb SQLITE_OK].
  replace (if (f =? 4294967295) || ujs
      then Z.of_nat ((length J - JOURNAL_HDR_SZ 3) / JOURNAL_PG_SZ 3) else wrap32 f)
    with (Z.of_nat (played ujs f (length ps) m)).
  2:{ unfold played. destruct ((f =? 4294967295) || ujs) eqn:E.
      - rewrite HJl. by rewrite journal_size_records.
      - destruct Hcnt as [[-> _]|[-> ?]]; [done|].
        rewrite wrap32_small; [done|]. unfold is_int32. lia. }
  wsteps.
  eapply (wp_read32 _ _ size); [lia|unfold is_u32; lia|done|exact Ha|].
  intros fs5 Hn5. split; [|by apply HR].
  cbn [negb Z.eqb SQLITE_OK set_faults advance get_file set_file d_journal f_data f_synced f_pos].
  apply (advance_ahead (mk_file J Js _)) in Ha. cbn [f_data f_synced f_pos] in Ha.
  wsteps.
  { unfold orig_ok in Horg. cbn [origDbSize set_cksumInit].
    destruct Horg as [->|[-> _]]; [|done]. rewrite Z.mod_small by lia.
    by rewrite Z.eqb_refl, orb_true_r. }
  assert (Hrs : intact (take m ps) (resize db (PSZ * Z.to_nat size))).
  { intros p Hp HD Hc. pose proof Hp as [? ?]. pose proof (page_offset_le p size Hp).
    rewrite page_resize by (done || lia). by apply Hint. }
  assert (Hrl : length (resize db (PSZ * Z.to_nat size)) = (Z.to_nat size * PSZ)%nat)
    by (rewrite resize_length; lia).
  apply wp_os_call; [done|]. intros fs6 Hn6.
  cbn [set_faults get_file set_file d_db f_data f_synced f_pos].
  split; [|split; [by apply HR|apply HR; [done|cbn [d_db f_data]; lia|done]]].
  cbn [negb Z.eqb SQLITE_OK]. wsteps.
  rewrite wrap32_small by (unfold is_int32; lia).
  rewrite Nat2Z.id. set (n := played ujs f (length ps) m) in *.
  assert (Hmn : (m <= n <= length ps)%nat) by by apply played_ge.
  set (ps' := take n ps) in *.
  assert (Hps' : length ps' = n) by (subst ps'; rewrite length_take; lia).
  assert (Hgood' : good_recs ps') by by apply good_recs_take.
  replace n with (length ps') at 1.
  rewrite <- (take_drop n ps), records_app, <- app_assoc in Ha. fold ps' in Ha.
  eapply (wp_playback_loop ps'); [done|by apply good_recs_in_db|done|done|done|done|exact Ha| |].
  { intros x' d' Hfr Hpr. cbn [d_db f_data] in Hpr.
    apply HR; [frames|rewrite (pr_length _ _ _ Hpr); lia|].
    by eapply progress_intact. }
  intros d7 Hn7 Hfr7 Hl7 Hother7 Hin7. cbn [negb Z.eqb SQLITE_OK d_db f_data] in *.
  assert (Hint7 : intact [] (f_data (d_db d7))).
  { intros q Hq HD _. destruct (decide (q ∈ ps')) as [Hqi|Hqn]; [by apply Hin7|].
    rewrite Hother7 by done. apply Hrs; [done..|]. intros Hqm. apply Hqn. subst ps'.
    replace n with (m + (n - m))%nat by lia. rewrite <- take_take_drop.
    apply elem_of_app. by left. }
  wsteps. cbn [pAll set_pAll].
  eapply (wp_refetch_loop _ []); [done|done| | | | | |].
  - cbn [app]. by rewrite restored_cache_pgno.
  - unfold restored_cache. rewrite Forall_map. apply (Forall_impl _ _ _ Hpos).
    intros h Hh. cbn. by destruct (decide _).
  - destruct Horg as [?|[_ ?]]; [by left|right]. by apply restored_cache_clean.
  - lia.
  - intros x' d' Hfr' E. apply HR; [frames|rewrite E; lia|].
    rewrite E. intros q Hq HD _. apply Hint7; [done|done|]. apply not_elem_of_nil.
  - intros d' Hn' Hfr' E. cbn [app]. rewrite <- E.
    replace (set_pAll _ (set_pAll _ _)) with (played_pager init ps' (f_data (d_db d')) x)
      by (by destruct x).
    apply HQ; [done|frames|by rewrite E|by rewrite E|].
    intros q Hq. rewrite E. by apply Hin7.
Qed.

End Playback.
