(* ===== verification/PagerCache.v ===== *)
(** The page cache of [pager.c] as a data structure: reference counts, the free
    list with [pFirstSynced], and what the operations that maintain them
    promise.  [look x p] is the cached page with number [p]; the lemmas describe
    every operation by its effect on [look], and by [core], the part of the pager
    that is not cache management. *)
From S2P Require Import Prelude OsFile Pager PagerBytes PagerPlayback.

Definition look (x : Pager) (p : Z) : option PgHdr := find_page p (pAll x).

Definition core (x : Pager) : Pager :=
  set_pAll [] (set_pFree [] (set_pFirstSynced None (set_nPage 0
    (set_pnRef 0 (set_nHit 0 (set_nMiss 0 (set_nOvfl 0
    (set_alwaysRollback false x)))))))).

(** * Lookup after a change of the page list *)

Lemma find_page_map q f l :
  (forall h, pgno (f h) = pgno h) -> find_page q (map f l) = f <$> find_page q l.
Proof.
  intros Hf. unfold find_page. induction l as [|h l IH]; [done|].
  cbn [map]. rewrite !filter_cons, Hf. by case_decide.
Qed.

Lemma find_page_map_page p q f l :
  (forall h, pgno (f h) = pgno h) ->
  find_page q (map_page p f l) = if decide (q = p) then f <$> find_page p l else find_page q l.
Proof.
  intros Hf. unfold map_page. rewrite find_page_map by (intros h; by destruct (pgno h =? p)).
  destruct (find_page q l) as [h|] eqn:E; cbn.
  - apply find_page_Some in E as E'. destruct E' as [_ <-].
    case_decide as Hq; [|by rewrite (proj2 (Z.eqb_neq _ _))].
    subst. by rewrite E, Z.eqb_refl.
  - case_decide as Hq; [|done]. subst. by rewrite E.
Qed.

Lemma find_page_cons q h l :
  find_page q (h :: l) = if decide (pgno h = q) then Some h else find_page q l.
Proof. unfold find_page. rewrite filter_cons. by case_decide. Qed.

Lemma look_set_pAll l x p : look (set_pAll l x) p = find_page p l.
Proof. done. Qed.

Lemma look_pgno x p h : look x p = Some h -> pgno h = p.
Proof. intros H. by apply find_page_Some in H as [_ ?]. Qed.

Lemma Forall_look (P : PgHdr -> Prop) x :
  NoDup (map pgno (pAll x)) -> (forall p h, look x p = Some h -> P h) -> Forall P (pAll x).
Proof.
  intros Hnd H. apply Forall_forall. intros h Hh.
  apply (H (pgno h)). by apply find_page_unique.
Qed.

Lemma look_Forall (P : PgHdr -> Prop) x p h : Forall P (pAll x) -> look x p = Some h -> P h.
Proof.
  rewrite Forall_forall. intros H Hl. apply H. by apply find_page_Some in Hl as [? _].
Qed.

Lemma look_nil x p : pAll x = [] -> look x p = None.
Proof. unfold look. by intros ->. Qed.

(** Renaming the page [v] to [p]. *)
Lemma find_page_rename v p h' l q :
  NoDup (map pgno l) -> p ∉ map pgno l -> pgno h' = p ->
  find_page q (map_page v (fun _ => h') l) =
    if decide (q = p) then (fun _ => h') <$> find_page v l
    else if decide (q = v) then None else find_page q l.
Proof.
  intros Hnd Hp Hh'. induction l as [|h l IH]; [by repeat case_decide|].
  cbn [map] in Hnd, Hp. apply NoDup_cons in Hnd as [Hh Hnd].
  apply not_elem_of_cons in Hp as [Hph Hp]. specialize (IH Hnd Hp).
  unfold map_page in *. cbn [map]. rewrite !find_page_cons.
  destruct (Z.eqb_spec (pgno h) v) as [Ev|Hv].
  - rewrite Hh', (decide_True (P := pgno h = v)) by done. subst v.
    rewrite (map_ext_in _ (fun h => h)), map_id.
    2:{ intros g Hg. rewrite (proj2 (Z.eqb_neq _ _)); [done|]. intros E. apply Hh.
        rewrite <- E. by apply list_elem_of_In, in_map. }
    destruct (decide (q = p)) as [->|Hq]; [by rewrite decide_True|].
    rewrite decide_False by congruence. destruct (decide (q = pgno h)) as [->|Hqh].
    + by apply find_page_None.
    + by rewrite (decide_False (P := pgno h = q)) by congruence.
  - rewrite (decide_False (P := pgno h = v)) by done.
    destruct (decide (pgno h = q)) as [<-|Hq]; [|done].
    by rewrite decide_False, decide_False by congruence.
Qed.

(** * The invariant of the cache *)

(** The number of referenced pages. *)
Definition refd (l : list PgHdr) : nat := length (filter (fun h => 0 < nRef h) l).

Definition held (h : PgHdr) : nat := if decide (0 < nRef h) then 1 else 0.

Lemma refd_cons h l : refd (h :: l) = (held h + refd l)%nat.
Proof. unfold refd, held. rewrite filter_cons. by case_decide. Qed.

Lemma refd_map_page p f l h :
  NoDup (map pgno l) -> find_page p l = Some h ->
  (refd (map_page p f l) + held h = refd l + held (f h))%nat.
Proof.
  intros Hnd Hf. apply find_page_split in Hf as (l1 & l2 & -> & Hn & Hp).
  rewrite map_page_split by done.
  assert (Happ : forall a b, refd (a ++ b) = (refd a + refd b)%nat).
  { intros. unfold refd. by rewrite filter_app, length_app. }
  rewrite !Happ, !refd_cons. lia.
Qed.

Record cache_ok (x : Pager) : Prop := {
  c_nd : NoDup (map pgno (pAll x));
  c_pages : forall p h, look x p = Some h ->
    1 <= p /\ length (pgData h) = PSZ /\ 0 <= nRef h /\ inCkpt h = false;
  c_ndfree : NoDup (pFree x);
  c_free : forall v, v ∈ pFree x -> exists h, look x v = Some h /\ nRef h = 0;
  c_fs : forall v, pFirstSynced x = Some v ->
    v ∈ pFree x /\ exists h, look x v = Some h /\ pgNeedSync h = false;
  c_cnt : pnRef x = Z.of_nat (refd (pAll x))
}.

(** Either a sync of the journal is due, or every page may be written. *)
Definition sync_ok (x : Pager) : Prop :=
  (needSync x = true /\ journalOpen x = true) \/
  ((forall p h, look x p = Some h -> pgNeedSync h = false) /\ pFirstSynced x = head (pFree x)).

Lemma cache_ok_empty x :
  pAll x = [] -> pFree x = [] -> pFirstSynced x = None -> pnRef x = 0 ->
  cache_ok x /\ sync_ok x.
Proof.
  intros E1 E2 E3 E4. split; [split|right]; rewrite ?E1, ?E2, ?E3, ?E4; try done.
  - constructor.
  - intros p h. by rewrite look_nil.
  - constructor.
  - by intros v ?%elem_of_nil.
  - split; [|done]. intros p h. by rewrite look_nil.
Qed.

Lemma free_nRef x p h : cache_ok x -> p ∈ pFree x -> look x p = Some h -> nRef h = 0.
Proof. intros H Hp Hh. destruct (c_free _ H p Hp) as (g & Hg & ?). congruence. Qed.

(** Changing a page that is not on the free list. *)
Lemma upd_page_ok x p h f n :
  cache_ok x -> look x p = Some h -> p ∉ pFree x ->
  (forall g, pgno (f g) = pgno g) -> length (pgData (f h)) = PSZ -> 0 <= nRef (f h) ->
  inCkpt (f h) = false ->
  n + Z.of_nat (held h) = pnRef x + Z.of_nat (held (f h)) ->
  cache_ok (set_pnRef n (set_pAll (map_page p f (pAll x)) x)).
Proof.
  intros [H1 H2 H3 H4 H5 H6] Hl Hfree Hp Hd Hr Hc Hn.
  assert (Hlook : forall q, look (set_pnRef n (set_pAll (map_page p f (pAll x)) x)) q =
      if decide (q = p) then Some (f h) else look x q).
  { intros q. unfold look. cbn. rewrite find_page_map_page by done.
    case_decide; [|done]. unfold look in Hl. by rewrite Hl. }
  assert (Hnot : forall v, v ∈ pFree x -> look (set_pnRef n (set_pAll (map_page p f (pAll x)) x)) v = look x v).
  { intros v Hv. rewrite Hlook, decide_False; [done|]. by intros ->. }
  split; cbn [pAll pFree pFirstSynced pnRef set_pAll set_pnRef].
  - by rewrite map_page_pgno.
  - intros q g. rewrite Hlook. case_decide as E; [|apply H2]. intros [= <-]. subst.
    by destruct (H2 p h Hl).
  - done.
  - intros v Hv. rewrite Hnot by done. by apply H4.
  - intros v Hv. destruct (H5 v Hv) as [Hvf ?]. split; [done|]. by rewrite Hnot.
  - pose proof (refd_map_page p f (pAll x) h H1 Hl). lia.
Qed.

(** * The free list *)

Definition unlink (p : Z) (x : Pager) : Pager :=
  let x := if bool_decide (pFirstSynced x = Some p)
           then set_pFirstSynced (next_synced (pAll x) (after p (pFree x))) x else x in
  set_pFree (filter (fun q => q <> p) (pFree x)) x.

Lemma after_in p q l : q ∈ after p l -> q ∈ l.
Proof.
  induction l as [|r l IH]; [done|]. cbn [after]. destruct (r =? p).
  - intros H. by right.
  - intros H. right. by apply IH.
Qed.

Lemma after_not_self p l : NoDup l -> p ∉ after p l.
Proof.
  induction 1 as [|r l Hr Hl IH]; [apply not_elem_of_nil|]. cbn [after].
  destruct (Z.eqb_spec r p) as [->|]; done.
Qed.

Lemma next_synced_spec pages l v :
  next_synced pages l = Some v ->
  v ∈ l /\ exists h, find_page v pages = Some h /\ pgNeedSync h = false.
Proof.
  unfold next_synced. intros H.
  match type of H with head (filter ?P l) = _ =>
    assert (Hv : v ∈ filter P l) by (destruct (filter P l); [done|]; simplify_eq/=; by left)
  end.
  apply list_elem_of_filter in Hv as [Hv Hin]. split; [done|].
  destruct (find_page v pages) as [h|]; [|done]. exists h. split; [done|].
  by destruct (pgNeedSync h).
Qed.

Lemma unlink_pFree p x : pFree (unlink p x) = filter (fun q => q <> p) (pFree x).
Proof. unfold unlink. destruct (bool_decide _); by destruct x. Qed.

Lemma unlink_fs p x :
  pFirstSynced (unlink p x) =
    if bool_decide (pFirstSynced x = Some p) then next_synced (pAll x) (after p (pFree x))
    else pFirstSynced x.
Proof. unfold unlink. destruct (bool_decide _); by destruct x. Qed.

(** What [unlink] leaves alone. *)
Lemma unlink_rest p x :
  pAll (unlink p x) = pAll x /\ core (unlink p x) = core x /\ pnRef (unlink p x) = pnRef x /\
  nPage (unlink p x) = nPage x.
Proof. unfold unlink. destruct (bool_decide _); by destruct x. Qed.

Lemma core_needSync x y : core x = core y -> needSync x = needSync y.
Proof. intros H. by apply (f_equal needSync) in H. Qed.
Lemma core_journalOpen x y : core x = core y -> journalOpen x = journalOpen y.
Proof. intros H. by apply (f_equal journalOpen) in H. Qed.

(** When no page needs a sync, the first synced free page is the first one. *)
Lemma unlink_head p x :
  cache_ok x -> (forall p h, look x p = Some h -> pgNeedSync h = false) ->
  pFirstSynced x = head (pFree x) ->
  pFirstSynced (unlink p x) = head (pFree (unlink p x)).
Proof.
  intros Hok Hns Hhead. pose proof (c_ndfree _ Hok) as Hnd. pose proof (c_free _ Hok) as Hfree.
  rewrite unlink_fs, unlink_pFree, Hhead.
  destruct (pFree x) as [|v l]; [done|]. rewrite filter_cons. cbn [head].
  apply NoDup_cons in Hnd as [Hv Hnd].
  case_bool_decide as E.
  - injection E as ->. rewrite decide_False by auto.
    cbn [after]. rewrite Z.eqb_refl. unfold next_synced. f_equal.
    rewrite !filter_all; [done| |].
    + apply Forall_forall. intros q Hq ->. by apply Hv.
    + apply Forall_forall. intros q Hq. destruct (Hfree q) as (h & Hh & _); [by right|].
      pose proof (Hns q h Hh) as Hs. unfold look in Hh. by rewrite Hh, Hs.
  - rewrite decide_True by congruence. done.
Qed.

Lemma unlink_ok p x : cache_ok x -> cache_ok (unlink p x).
Proof.
  intros [H1 H2 H3 H4 H5 H6]. destruct (unlink_rest p x) as (Ea & _ & En & _).
  assert (El : forall q, look (unlink p x) q = look x q) by (intros; unfold look; by rewrite Ea).
  split; rewrite ?Ea, ?En; try done.
  - intros q h. rewrite El. apply H2.
  - rewrite unlink_pFree. by apply NoDup_filter.
  - intros v. rewrite unlink_pFree, list_elem_of_filter, El. intros [_ ?]. by apply H4.
  - intros v. rewrite unlink_fs, unlink_pFree, list_elem_of_filter, El. case_bool_decide as E.
    + intros [Hv Hh]%next_synced_spec. split; [|done].
      split; [|by eapply after_in]. intros ->. by eapply after_not_self.
    + intros Hv. destruct (H5 v Hv) as [? ?]. split; [split; [congruence|done]|done].
Qed.

Lemma unlink_sync p x : cache_ok x -> sync_ok x -> sync_ok (unlink p x).
Proof.
  intros Hok [[H1 H2]|[H1 H2]]; destruct (unlink_rest p x) as (Ea & Ec & _).
  - left. by rewrite (core_needSync _ _ Ec), (core_journalOpen _ _ Ec).
  - right. unfold look. rewrite Ea. split; [done|]. by apply unlink_head.
Qed.

Lemma unlink_not_free p x : p ∉ pFree (unlink p x).
Proof. rewrite unlink_pFree, list_elem_of_filter. by intros [? _]. Qed.

Lemma wp_unlink_free p x d (Q : unit -> World -> Prop) (C : World -> Prop) :
  Q tt (mkWorld (unlink p x) d) -> wp (unlink_free p) Q C (mkWorld x d).
Proof. done. Qed.

(** * Taking and dropping references *)

(** [x'] is [x] with page [p] being [h']. *)
Definition looks (p : Z) (h' : PgHdr) (x x' : Pager) : Prop :=
  forall q, look x' q = if decide (q = p) then Some h' else look x q.

Lemma looks_map_page p f h x y :
  look x p = Some h -> (forall g, pgno (f g) = pgno g) -> pAll y = map_page p f (pAll x) ->
  looks p (f h) x y.
Proof.
  intros Hl Hf E q. unfold look in *. rewrite E, find_page_map_page by done.
  case_decide; [|done]. by rewrite Hl.
Qed.

(** A change of a page that keeps [pgNeedSync] keeps [sync_ok]. *)
Lemma looks_sync_ok p h h' x x' :
  look x p = Some h -> pgNeedSync h' = pgNeedSync h -> looks p h' x x' ->
  needSync x' = needSync x -> journalOpen x' = journalOpen x ->
  pFree x' = pFree x -> pFirstSynced x' = pFirstSynced x ->
  sync_ok x -> sync_ok x'.
Proof.
  intros Hl Hs Hlk E1 E2 E3 E4 [[? ?]|[Hn Hh]]; [left; split; congruence|right].
  split; [|congruence]. intros q g. rewrite Hlk. case_decide; [|apply Hn].
  intros [= <-]. rewrite Hs. by apply (Hn p).
Qed.

Lemma set_pnRef_id x : set_pnRef (pnRef x) x = x.
Proof. by destruct x. Qed.

(** The reference count of page [p] changes to [n], the total to [t]. *)
Lemma set_nRef_ok x p h n t :
  cache_ok x -> look x p = Some h -> p ∉ pFree x -> 0 <= n ->
  t + Z.of_nat (held h) = pnRef x + (if 0 <? n then 1 else 0) ->
  let x' := set_pnRef t (set_pAll (map_page p (fun h => pg_set_nRef n h) (pAll x)) x) in
  cache_ok x' /\ (sync_ok x -> sync_ok x') /\ core x' = core x /\ looks p (pg_set_nRef n h) x x' /\ pnRef x' = t.
Proof.
  intros Hok Hl Hfree Hn Ht x'.
  destruct (c_pages _ Hok p h Hl) as (Hp1 & Hd & Hr & Hc).
  assert (Hlk : looks p (pg_set_nRef n h) x x')
    by exact (looks_map_page p (pg_set_nRef n) h x x' Hl (fun _ => eq_refl) eq_refl).
  split; [|split; [|split; [|split]]]; [| |by destruct x|done|by destruct x].
  - apply (upd_page_ok x p h (pg_set_nRef n)); [done..|].
    rewrite Ht. unfold held at 1. cbn. case_Zb; case_decide; lia.
  - intros Hs. by apply (looks_sync_ok p h (pg_set_nRef n h) x).
Qed.

Lemma map_page_ext p f g l : (forall h, h ∈ l -> pgno h = p -> f h = g h) ->
  map_page p f l = map_page p g l.
Proof.
  intros H. apply map_ext_in. intros h Hh. apply list_elem_of_In in Hh.
  destruct (Z.eqb_spec (pgno h) p); auto.
Qed.

Lemma look_map_page_const x p h f :
  cache_ok x -> look x p = Some h ->
  map_page p f (pAll x) = map_page p (fun _ => f h) (pAll x).
Proof.
  intros Hok Hl. apply map_page_ext. intros g Hg Hp.
  apply (find_page_unique _ _ (c_nd _ Hok)) in Hg. rewrite Hp in Hg.
  unfold look in Hl. congruence.
Qed.

Lemma wp_page_ref p h x d (Q : unit -> World -> Prop) (C : World -> Prop) :
  cache_ok x -> look x p = Some h ->
  (forall x', cache_ok x' -> (sync_ok x -> sync_ok x') -> core x' = core x -> 0 < pnRef x' ->
     looks p (pg_set_nRef (nRef h + 1) h) x x' -> Q tt (mkWorld x' d)) ->
  wp (page_ref p) Q C (mkWorld x d).
Proof.
  intros Hok Hl HQ. unfold page_ref. wsteps. apply (wp_get_page _ h); [done|]. wsteps.
  destruct (c_pages _ Hok p h Hl) as (_ & _ & Hr & _).
  assert (Hfin : forall y, cache_ok y -> (sync_ok x -> sync_ok y) -> pAll y = pAll x -> core y = core x ->
      p ∉ pFree y -> pnRef y = pnRef x ->
      Q tt (mkWorld (set_pnRef (pnRef x + (if nRef h =? 0 then 1 else 0))
        (set_pAll (map_page p (fun h => pg_set_nRef (nRef h + 1) h) (pAll x)) y)) d)).
  { intros y Hy Hsy Ea Ec Hf En.
    assert (Hly : look y p = Some h) by (unfold look in *; by rewrite Ea).
    destruct (set_nRef_ok y p h (nRef h + 1) (pnRef x + (if nRef h =? 0 then 1 else 0)))
      as (H1 & H2 & H3 & H4 & H5); [done..|lia| |].
    { rewrite En. unfold held. case_Zb; case_decide; lia. }
    rewrite (look_map_page_const y p h) in H1, H2, H3, H4, H5 by done.
    rewrite (look_map_page_const x p h) by done. rewrite <- Ea.
    apply HQ; [done|by auto|congruence| |].
    - rewrite H5, (c_cnt _ Hok). case_Zb; [lia|].
      pose proof (refd_map_page p (fun h => h) (pAll x) h (c_nd _ Hok) Hl) as Hrf.
      apply find_page_split in Hl as (l1 & l2 & -> & _).
      unfold refd. rewrite filter_app, length_app, filter_cons, decide_True by lia. cbn. lia.
    - intros q. rewrite H4. case_decide; [done|]. unfold look. by rewrite Ea. }
  apply wp_when; intros E.
  - wsteps. apply wp_unlink_free. wsteps. cbn [pAll set_pnRef].
    destruct (unlink_rest p x) as (Ea & Ec & En & _). rewrite Ea, En.
    replace (set_pAll _ (set_pnRef _ (unlink p x))) with
      (set_pnRef (pnRef x + 1) (set_pAll (map_page p (fun h => pg_set_nRef (nRef h + 1) h) (pAll x))
        (unlink p x))) by (by destruct (unlink p x)).
    rewrite E in Hfin. apply Hfin; [by apply unlink_ok|intros; by apply unlink_sync|done..| |done].
    apply unlink_not_free.
  - wsteps. rewrite E, Z.add_0_r in Hfin.
    replace (set_pAll _ x) with (set_pnRef (pnRef x)
      (set_pAll (map_page p (fun h => pg_set_nRef (nRef h + 1) h) (pAll x)) x)) by (by destruct x).
    apply Hfin; [done..| |done]. intros Hin. pose proof (free_nRef _ _ _ Hok Hin Hl). lia.
Qed.

(** Some other page is referenced, or this one more than once. *)
Lemma refd_last l p h :
  NoDup (map pgno l) -> find_page p l = Some h -> 0 < nRef h -> (1 <= refd l)%nat.
Proof.
  intros Hnd Hf Hr. pose proof (refd_map_page p (pg_set_nRef 0) l h Hnd Hf) as H.
  unfold held in H. rewrite decide_True in H by done. cbn in H.
  destruct (decide (0 < 0)); lia.
Qed.

(** Dropping a reference, unless it is the last one of the whole pager; then
    [pager_reset] runs on the state before the total was decremented. *)
Lemma wp_unref p h x d (Q : Z -> World -> Prop) (C : World -> Prop) :
  cache_ok x -> look x p = Some h -> 0 < nRef h ->
  (forall x', cache_ok x' -> (sync_ok x -> sync_ok x') -> core x' = core x -> 0 < pnRef x' ->
     looks p (pg_set_nRef (nRef h - 1) h) x x' -> Q SQLITE_OK (mkWorld x' d)) ->
  (forall x', core x' = core x -> nRef h = 1 -> pnRef x = 1 ->
     wp pager_reset (fun _ => Q SQLITE_OK) C (mkWorld x' d)) ->
  wp (sqlitepager_unref p) Q C (mkWorld x d).
Proof.
  intros Hok Hl Hr HQ HR. unfold sqlitepager_unref. wsteps.
  apply (wp_get_page _ h); [done|]. wsteps; [lia|].
  pose proof (refd_last _ p h (c_nd _ Hok) Hl Hr) as Hpos. pose proof (c_cnt _ Hok) as Hcnt.
  assert (Hfree : p ∉ pFree x) by (intros Hin; pose proof (free_nRef _ _ _ Hok Hin Hl); lia).
  apply wp_when; intros E.
  2:{ wsteps. rewrite (look_map_page_const x p h) by done.
      replace (set_pAll _ x) with (set_pnRef (pnRef x)
        (set_pAll (map_page p (fun _ => pg_set_nRef (nRef h - 1) h) (pAll x)) x)) by (by destruct x).
      destruct (set_nRef_ok x p h (nRef h - 1) (pnRef x))
        as (H1 & H2 & H3 & H4 & H5); [done..|lia| |].
      { unfold held. case_Zb; case_decide; lia. }
      rewrite (look_map_page_const x p h) in H1, H2, H3, H4, H5 by done.
      apply HQ; [done..|rewrite H5, (c_cnt _ Hok); lia|done]. }
  wsteps; [destruct (negb _ && _); cbn; lia|]. rewrite (look_map_page_const x p h) by done.
  set (y := set_pnRef (pnRef x - 1)
    (set_pAll (map_page p (fun _ => pg_set_nRef (nRef h - 1) h) (pAll x)) x)).
  destruct (set_nRef_ok x p h (nRef h - 1) (pnRef x - 1))
    as (H1 & H2 & H3 & H4 & H5); [done..|lia| |].
  { rewrite (c_cnt _ Hok). unfold held. case_Zb; case_decide; lia. }
  rewrite (look_map_page_const x p h) in H1, H2, H3, H4, H5 by done. fold y in H1, H2, H3, H4, H5.
  set (fs := if negb (pgNeedSync h) && bool_decide (pFirstSynced x = None)
             then Some p else pFirstSynced x).
  set (z := set_pFirstSynced fs (set_pFree (pFree x ++ [p]) y)).
  match goal with |- wp _ _ _ (mkWorld ?w _) => replace w with z end.
  2:{ subst z y fs. destruct x; cbn. by destruct (negb _ && _). }
  assert (Hlz : forall q, look z q = look y q) by done.
  assert (Hz : cache_ok z).
  { destruct H1 as [G1 G2 G3 G4 G5 G6].
    assert (Hyp : look y p = Some (pg_set_nRef (nRef h - 1) h)) by (rewrite H4; by rewrite decide_True).
    split; [exact G1|exact G2| | | |exact G6]; cbn [pFree z set_pFirstSynced set_pFree pFirstSynced].
    - apply NoDup_app. split; [exact G3|]. split; [|apply NoDup_singleton].
      intros q Hq ->%list_elem_of_singleton. done.
    - intros v [Hv | ->%list_elem_of_singleton]%elem_of_app; rewrite Hlz; [by apply G4|].
      exists (pg_set_nRef (nRef h - 1) h). split; [done|]. cbn. lia.
    - intros v Hv. rewrite Hlz, elem_of_app, list_elem_of_singleton. subst fs.
      destruct (pgNeedSync h) eqn:En; [|case_bool_decide].
      + destruct (G5 v) as [? ?]; [exact Hv|]. auto.
      + injection Hv as <-. split; [by right|]. eauto.
      + destruct (G5 v) as [? ?]; [exact Hv|]. auto. }
  assert (Hsz : sync_ok x -> sync_ok z).
  { intros Hs. destruct (H2 Hs) as [[? ?]|[G1 G2]]; [by left|right]. split; [exact G1|].
    cbn [z pFirstSynced pFree set_pFirstSynced set_pFree]. subst fs.
    assert (pFirstSynced x = head (pFree x)) as -> by exact G2.
    assert (pgNeedSync h = false) as ->.
    { apply (G1 p (pg_set_nRef (nRef h - 1) h)). rewrite H4. by rewrite decide_True. }
    by destruct (pFree x). }
  assert (Hcz : core z = core x) by (rewrite <- H3; by destruct y).
  match goal with |- context [mwhen (?n =? 0) _] => replace n with (pnRef z) end.
  apply wp_when; intros E2.
  - eapply wp_mono; [apply (HR z Hcz)| |done]; [lia|change ((pnRef x - 1 =? 0) = true) in E2; lia|]. intros [] w' Hw. by wsteps.
  - wsteps. apply HQ; [done..| |].
    + rewrite (c_cnt _ Hz) in E2 |- *. lia.
    + intros q. rewrite Hlz. apply H4.
Qed.

(** * Bringing a page into the cache *)

(** The number of the page is new to the cache, no statement checkpoint is open,
    and a journalled page of the database has an open journal. *)
Record installable (p : Z) (x : Pager) : Prop := {
  in_new : look x p = None;
  in_pos : 1 <= p;
  in_ckpt : aInCkpt x = None /\ pCkpt x = [];
  in_jo : aInJournal x <> None -> journalOpen x = true
}.

Definition injournal (p : Z) (x : Pager) : bool :=
  match aInJournal x with
  | Some s => (p <=? origDbSize x) && bool_decide (p ∈ s)
  | None => false
  end.

(** A page that has just been installed. *)
Definition fresh (p : Z) (x : Pager) (dta : list Z) (ar : bool) : PgHdr :=
  mkPgHdr p dta 1 (injournal p x) false false false ar.

Lemma map_page_rename p v f g l :
  p ∉ map pgno l -> (forall h, pgno (g h) = p) ->
  map_page p f (map_page v g l) = map_page v (fun h => f (g h)) l.
Proof.
  intros Hp Hg. unfold map_page. rewrite map_map. apply map_ext_in. intros h Hh.
  destruct (pgno h =? v); [by rewrite Hg, Z.eqb_refl|].
  rewrite (proj2 (Z.eqb_neq _ _)); [done|]. intros E. apply Hp. rewrite <- E.
  by apply list_elem_of_In, in_map.
Qed.

Lemma zero_page_length : length zero_page = PSZ.
Proof. unfold zero_page. apply length_replicate. Qed.

Lemma map_page_head p f h l :
  pgno h = p -> p ∉ map pgno l -> map_page p f (h :: l) = f h :: l.
Proof.
  intros E Hn. unfold map_page. cbn [map]. rewrite E, Z.eqb_refl. f_equal.
  by apply map_page_absent.
Qed.

(** The new page at the head of the list. *)
Lemma push_ok p h x :
  cache_ok x -> sync_ok x -> look x p = None -> pgno h = p -> 1 <= p ->
  length (pgData h) = PSZ -> nRef h = 1 -> inCkpt h = false -> pgNeedSync h = false ->
  let x' := set_pnRef (pnRef x + 1) (set_nPage (nPage x + 1) (set_pAll (h :: pAll x) x)) in
  cache_ok x' /\ sync_ok x' /\ looks p h x x'.
Proof.
  intros [H1 H2 H3 H4 H5 H6] Hs Hl Hp Hp1 Hd Hr Hc Hns x'.
  assert (Hlk : looks p h x x').
  { intros q. unfold look. cbn. rewrite find_page_cons. repeat case_decide; congruence. }
  assert (Hsome : forall v g, look x v = Some g -> look x' v = Some g).
  { intros v g Hg. rewrite Hlk, decide_False; congruence. }
  split; [split|split; [|done]].
  - cbn. apply NoDup_cons. split; [|done]. rewrite Hp. by apply find_page_None.
  - intros q g. rewrite Hlk. case_decide; [|apply H2]. intros [= <-]. subst q. rewrite Hr.
    repeat split; done || lia.
  - done.
  - intros v Hv. destruct (H4 v Hv) as (g & Hg & ?). exists g. split; [by apply Hsome|done].
  - intros v Hv. destruct (H5 v Hv) as [? (g & Hg & ?)]. split; [done|].
    exists g. split; [by apply Hsome|done].
  - cbn [x' pnRef pAll set_pnRef set_nPage set_pAll]. rewrite refd_cons, H6. unfold held. rewrite decide_True by lia. lia.
  - destruct Hs as [?|[G1 G2]]; [by left|right]. split; [|done].
    intros q g. rewrite Hlk. case_decide; [by intros [= <-]|apply G1].
Qed.

Lemma wp_install_none p x d (Q : unit -> World -> Prop) (C : World -> Prop) :
  cache_ok x -> sync_ok x -> installable p x ->
  (forall x', cache_ok x' -> sync_ok x' -> core x' = core x -> 0 < pnRef x' ->
     looks p (fresh p x zero_page false) x x' -> Q tt (mkWorld x' d)) ->
  wp (get_install p None) Q C (mkWorld x d).
Proof.
  intros Hok Hs [Hl Hp [Hc1 Hc2] Hjo] HQ. unfold get_install.
  assert (Hn : p ∉ map pgno (pAll x)) by by apply find_page_None.
  wsteps.
  { destruct (aInJournal x) eqn:E; [|done]. rewrite Hjo by done. by rewrite orb_true_r. }
  fold (injournal p x). rewrite Hc1. cbn [pAll set_pAll set_nPage].
  unfold page_remove_from_ckpt_list. wsteps.
  eapply wp_get_page; [cbn [pg pAll set_pAll set_nPage]|].
  { rewrite map_page_head by done. rewrite find_page_cons. by rewrite decide_True. }
  cbn [negb inCkpt pg_set_inJournal pg_set_pgNeedSync]. wsteps.
  cbn [pAll set_pAll set_nPage]. rewrite !map_page_head by done.
  destruct (push_ok p (fresh p x zero_page false) x) as (H1 & H2 & H3);
    [done..|apply zero_page_length|done|done|done|].
  match goal with |- Q tt (mkWorld ?w d) => replace w with
    (set_pnRef (pnRef x + 1) (set_nPage (nPage x + 1)
      (set_pAll (fresh p x zero_page false :: pAll x) x))) by (by destruct x) end.
  apply HQ; [done|done|by destruct x| |done].
  cbn. rewrite (c_cnt _ Hok). lia.
Qed.

(** The page [v] becomes page [p]. *)
Lemma rename_ok p v h h' x :
  cache_ok x -> sync_ok x -> look x p = None -> look x v = Some h -> v ∉ pFree x ->
  nRef h = 0 -> pgno h' = p -> 1 <= p -> length (pgData h') = PSZ -> nRef h' = 1 ->
  inCkpt h' = false -> pgNeedSync h' = false ->
  let x' := set_pnRef (pnRef x + 1) (set_pAll (map_page v (fun _ => h') (pAll x)) x) in
  cache_ok x' /\ sync_ok x' /\
  (forall q, look x' q = if decide (q = p) then Some h' else if decide (q = v) then None
                         else look x q).
Proof.
  intros [H1 H2 H3 H4 H5 H6] Hs Hl Hlv Hf Hr0 Hp Hp1 Hd Hr Hc Hns x'.
  assert (Hn : p ∉ map pgno (pAll x)) by by apply find_page_None.
  assert (Hlk : forall q, look x' q = if decide (q = p) then Some h'
      else if decide (q = v) then None else look x q).
  { intros q. unfold look. cbn. rewrite (find_page_rename v p) by done.
    unfold look in Hlv. by rewrite Hlv. }
  assert (Hfree : forall w, w ∈ pFree x -> look x' w = look x w).
  { intros w Hw. rewrite Hlk. destruct (H4 w Hw) as (g & Hg & _).
    rewrite !decide_False; [done|congruence|congruence]. }
  split; [split|split; [|done]].
  - cbn. unfold look in Hlv. apply find_page_split in Hlv as (l1 & l2 & E & Hn1 & Hv).
    rewrite E in *. rewrite map_page_split by done. rewrite map_app in *. cbn in *.
    rewrite Hp. apply NoDup_app in H1 as (G1 & G2 & [G3 G4]%NoDup_cons).
    apply NoDup_app. split; [done|]. split.
    + intros q Hq [->|Hq2]%elem_of_cons; [set_solver|]. apply (G2 q); [done|]. by right.
    + apply NoDup_cons. split; [set_solver|done].
  - intros q g. rewrite Hlk. case_decide; [|case_decide; [done|apply H2]].
    intros [= <-]. subst q. rewrite Hr. repeat split; done || lia.
  - done.
  - intros w Hw. rewrite Hfree by done. by apply H4.
  - intros w Hw. destruct (H5 w Hw) as [? ?]. split; [done|]. by rewrite Hfree.
  - cbn [x' pnRef pAll set_pnRef set_pAll].
    pose proof (refd_map_page v (fun _ => h') (pAll x) h H1 Hlv) as Hrf.
    unfold held in Hrf. rewrite Hr0, Hr, decide_False, decide_True in Hrf by lia. lia.
  - destruct Hs as [?|[G1 G2]]; [by left|right]. split; [|done].
    intros q g. rewrite Hlk. case_decide; [by intros [= <-]|case_decide; [done|apply G1]].
Qed.

Lemma wp_install_some p v h x d (Q : unit -> World -> Prop) (C : World -> Prop) :
  cache_ok x -> sync_ok x -> installable p x ->
  look x v = Some h -> v ∉ pFree x -> nRef h = 0 ->
  (forall x' ar, cache_ok x' -> sync_ok x' -> core x' = core x -> 0 < pnRef x' ->
     (forall q, look x' q = if decide (q = p) then Some (fresh p x (pgData h) ar)
                            else if decide (q = v) then None else look x q) ->
     Q tt (mkWorld x' d)) ->
  wp (get_install p (Some v)) Q C (mkWorld x d).
Proof.
  intros Hok Hs [Hl Hp [Hc1 Hc2] Hjo] Hlv Hf Hr HQ. unfold get_install.
  assert (Hn : p ∉ map pgno (pAll x)) by by apply find_page_None.
  destruct (c_pages _ Hok v h Hlv) as (_ & Hd & _ & Hc).
  wsteps.
  { destruct (aInJournal x) eqn:E; [|done]. rewrite Hjo by done. by rewrite orb_true_r. }
  fold (injournal p x). rewrite Hc1. cbn [pAll pCkpt set_pAll set_pCkpt]. rewrite Hc2. cbn [map].
  unfold page_remove_from_ckpt_list. wsteps.
  rewrite map_page_rename by done.
  eapply wp_get_page; [cbn [pg pAll set_pAll set_pCkpt]|].
  { rewrite (look_map_page_const x v h) by done. rewrite (find_page_rename v p) by (done || apply c_nd, Hok).
    rewrite decide_True by done. unfold look in Hlv. by rewrite Hlv. }
  cbn [negb inCkpt pg_set_inJournal pg_set_pgNeedSync]. rewrite Hc. cbn [negb]. wsteps.
  cbn [pAll set_pAll set_pCkpt]. rewrite map_page_rename by done.
  rewrite (look_map_page_const x v h) by done.
  destruct (rename_ok p v h (fresh p x (pgData h) (pgAlwaysRollback h)) x) as (H1 & H2 & H3); [done..|].
  match goal with |- Q tt (mkWorld ?w d) => replace w with
    (set_pnRef (pnRef x + 1) (set_pAll (map_page v (fun _ => fresh p x (pgData h) (pgAlwaysRollback h))
      (pAll x)) x)) end.
  2:{ unfold fresh. rewrite <- Hc. destruct x; simpl in *. subst. by destruct h. }
  eapply HQ; [done|done|by destruct x| |done].
  cbn. rewrite (c_cnt _ Hok). lia.
Qed.
