(* ===== verification/PagerTxn.v ===== *)
(** What [sqlitepager_get] loads into a cached page, and transactions of the page cache:
    the invariant of a running transaction, what every client operation does to it,
    rollback, commit and the recovery from a journal a dead process left behind. *)
From S2P Require Import Prelude OsFile Pager PagerBytes PagerPlayback PagerCache.

(** The contents of the files stay the same, and so does the journal's position. *)
Record same_files (d d' : disk) : Prop := {
  sf_db : f_data (d_db d') = f_data (d_db d);
  sf_journal : d_journal d' = d_journal d;
  sf_jexists : d_jexists d' = d_jexists d
}.

Lemma same_files_refl d : same_files d d.
Proof. done. Qed.

Lemma same_files_trans d1 d2 d3 : same_files d1 d2 -> same_files d2 d3 -> same_files d1 d3.
Proof. intros [] []. split; congruence. Qed.

Lemma same_files_frame d d' : same_files d d' -> frame d d'.
Proof. intros []. split; congruence. Qed.

Lemma same_files_faults d fs : same_files d (set_faults fs d).
Proof. by destruct d. Qed.

(** The file consists of [k] pages. *)
Definition npages (k : Z) (db : list Z) : Prop := 0 <= k /\ length db = (Z.to_nat k * PSZ)%nat.

Lemma npages_inj k k' db : npages k db -> npages k' db -> k = k'.
Proof. intros [? H] [? H']. pose proof PSZ_pos. nia. Qed.

Lemma npages_div k db : npages k db -> Z.of_nat (length db / PSZ) = k.
Proof. intros [? ->]. pose proof PSZ_pos. rewrite Nat.div_mul by lia. lia. Qed.

(** The number of pages [sqlitepager_pagecount] arrives at. *)
Definition known_size (k : Z) (x : Pager) : Z := if dbSize x <? 0 then k else dbSize x.

Lemma wp_pagecount k x d (Q : Z -> World -> Prop) (C : World -> Prop) :
  no_err d -> npages k (f_data (d_db d)) -> state x <> SQLITE_UNLOCK ->
  (forall d', no_err d' -> same_files d d' ->
     Q (known_size k x) (mkWorld (set_dbSize (known_size k x) x) d')) ->
  (forall d', same_files d d' -> C (mkWorld x d')) ->
  wp sqlitepager_pagecount Q C (mkWorld x d).
Proof.
  intros Hn Hk Hst HQ HC. unfold sqlitepager_pagecount, known_size in *. wsteps.
  destruct (Z.leb_spec 0 (dbSize x)) as [Hs|Hs].
  - wsteps. rewrite (proj2 (Z.ltb_ge _ _)) in HQ by done.
    specialize (HQ d Hn (same_files_refl d)). by destruct x.
  - rewrite (proj2 (Z.ltb_lt _ _)) in HQ by done. wsteps.
    apply wp_filesize; [done|]. intros fs Hfs.
    split; [|apply HC, same_files_faults]. cbn [negb Z.eqb SQLITE_OK]. wsteps.
    cbn [get_file]. rewrite (npages_div k) by done.
    rewrite (proj2 (Z.eqb_neq _ _)) by done. apply wp_when; [|done]. intros _. wsteps.
    apply HQ; [done|apply same_files_faults].
Qed.

(** The page is read, or zeroed when the file does not hold it. *)
Lemma wp_load k p h x d (Q : Z -> World -> Prop) (C : World -> Prop) :
  no_err d -> npages k (f_data (d_db d)) -> state x <> SQLITE_UNLOCK ->
  errMask x = 0 -> (0 <= dbSize x -> k <= dbSize x) ->
  look x p = Some h -> 1 <= p -> p <= 4194303 \/ known_size k x = k ->
  length (pgData h) = PSZ -> NoDup (map pgno (pAll x)) ->
  (forall d', no_err d' -> same_files d d' ->
     Q SQLITE_OK (mkWorld (set_pAll (map_page p (pg_set_pgData (fpage (f_data (d_db d)) p)) (pAll x))
        (set_dbSize (known_size k x) x)) d')) ->
  (forall x' d', same_files d d' -> C (mkWorld x' d')) ->
  wp (get_load p) Q C (mkWorld x d).
Proof.
  intros Hn Hk Hst Hem Hsz Hl Hp Hpmax Hlen Hnd HQ HC. unfold get_load. wsteps.
  apply (wp_mono _ (fun (_ : unit) w => exists d', no_err d' /\ same_files d d' /\
    w = mkWorld (set_dbSize (known_size k x) x) d') _ C); [| |done].
  { unfold known_size. destruct (Z.ltb_spec (dbSize x) 0) as [Hs|Hs].
    - wsteps. eapply (wp_pagecount k); [done..| |by intros; apply HC]. intros d' H1 H2. wsteps.
      exists d'. unfold known_size. by rewrite (proj2 (Z.ltb_lt _ _)).
    - wsteps. exists d. split; [done|]. split; [apply same_files_refl|]. by destruct x. }
  intros _ w (d1 & Hn1 & Hf1 & ->). wsteps. cbn [errMask set_dbSize]. rewrite Hem.
  cbn [negb Z.eqb]. wsteps. cbn [dbSize set_dbSize pAll].
  assert (Hle : k <= known_size k x).
  { unfold known_size. case_Zb; lia. }
  destruct Hk as [Hk0 Hk]. pose proof Hf1 as [Hdb _ _].
  assert (Hzero : k < p -> fpage (f_data (d_db d)) p = zero_page).
  { intros Hkp. apply fpage_beyond. rewrite Hk. unfold page_offset.
    apply Nat.mul_le_mono_r. lia. }
  destruct (Z.ltb_spec (known_size k x) p) as [Hpk|Hpk].
  { wsteps. rewrite Hzero in HQ by lia. by apply HQ. }
  wsteps.
  assert (Hn2 : forall f, no_err (set_file FD f d1)) by (intros; by destruct d1).
  apply wp_read; [apply Hn2|]. intros fs2 Hfs2 got.
  assert (Hgot : got = page (f_data (d_db d)) p) by (subst got; unfold file_read, page; rewrite <- Hdb; by destruct d1).
  clearbody got.
  assert (Hsf : forall g fs i, same_files d (set_faults fs (set_file FD (mk_file (f_data (d_db d1)) g i) d1))).
  { intros. destruct Hf1, d1; split; cbn in *; congruence. }
  split; [|apply HC; apply Hsf].
  wsteps. cbn [pAll set_dbSize].
  destruct (Nat.eqb_spec (length got) PSZ) as [Hg|Hg].
  - rewrite Z.eqb_refl. wsteps.
    rewrite (map_page_ext _ _ (pg_set_pgData (fpage (f_data (d_db d)) p))).
    + apply HQ; [by destruct d1|]. destruct Hf1, d1; split; cbn in *; congruence.
    + intros g Hgin Hgp. f_equal. rewrite fpage_page by congruence. rewrite <- Hgot.
      assert (g = h) as ->.
      { apply (find_page_unique _ _ Hnd) in Hgin. rewrite Hgp in Hgin. unfold look in Hl. congruence. }
      unfold splice. cbn [take]. rewrite Hlen, Hg. cbn [Nat.sub Nat.add replicate app].
      rewrite drop_ge by lia. apply app_nil_r.
  - cbn [Z.eqb SQLITE_IOERR SQLITE_OK]. wsteps.
    apply wp_filesize; [by destruct d1|]. intros fs3 Hfs3.
    split; [|apply HC; destruct Hf1, d1; split; cbn in *; congruence].
    assert (Hbig : k < p).
    { destruct (Z.lt_ge_cases k p) as [?|Hge]; [done|]. destruct Hg. rewrite Hgot.
      apply (page_length _ _ k); lia. }
    cbn [negb Z.eqb SQLITE_OK orb].
    assert (Hfl : length (f_data (get_file FD (advance FD (length got) (set_faults fs2
        (set_file FD (mk_file (f_data (get_file FD d1)) (f_synced (get_file FD d1)) (page_offset p)) d1)))))
        = (Z.to_nat k * PSZ)%nat).
    { rewrite <- Hk, <- Hdb. by destruct d1. }
    rewrite Hfl. assert (Hp32 : u32 (p * Z.of_nat PSZ) = p * Z.of_nat PSZ).
    { destruct Hpmax as [?|?]; [|lia]. unfold u32. change (Z.of_nat PSZ) with 1024. apply Z.mod_small. lia. }
    rewrite Hp32, Nat2Z.inj_mul, Z2Nat.id by done.
    destruct (Z.leb_spec (p * Z.of_nat PSZ) (k * Z.of_nat PSZ)) as [Hbad|_].
    { pose proof PSZ_pos. nia. }
    wsteps. cbn [pAll set_pAll set_dbSize].
    replace (map_page p (pg_set_pgData zero_page) (map_page p _ (pAll x))) with
      (map_page p (pg_set_pgData (fpage (f_data (d_db d)) p)) (pAll x)).
    2:{ rewrite Hzero by lia. unfold map_page. rewrite map_map. apply map_ext. intros g.
        destruct (Z.eqb_spec (pgno g) p) as [E|E]; cbn; [by rewrite (proj2 (Z.eqb_eq _ _))|].
        by rewrite (proj2 (Z.eqb_neq _ _)). }
    replace (set_pAll _ (set_pAll _ (set_dbSize (known_size k x) x))) with
      (set_pAll (map_page p (pg_set_pgData (fpage (f_data (d_db d)) p)) (pAll x))
        (set_dbSize (known_size k x) x)) by (by destruct x).
    apply HQ; [by destruct d1|]. destruct Hf1, d1; split; cbn in *; congruence.
Qed.

(** Transactions of the page cache: the invariant of a running transaction, what every
    client operation does to it, rollback, commit and the recovery from a journal a
    dead process left behind. *)

(** What a client sees of a cached page. *)
Definition page_view (h : PgHdr) : Z * Z * list Z := (pgno h, nRef h, pgData h).

(** The fields unlocking does not touch. *)
Definition cfg (x : Pager) :=
  ((useJournal x, tempFile x, readOnly x, noSync x), (pFree x, pFirstSynced x, pnRef x),
   (errMask x, origDbSize x, needSync x, mxPage x, nPage x)).

(** No statement checkpoint is in use. *)
Definition plain (x : Pager) : Prop :=
  ckptInUse x = false /\ ckptAutoopen x = false /\ aInCkpt x = None /\ pCkpt x = [].

(** A page no transaction has a claim on. *)
Definition unmarked (h : PgHdr) : Prop :=
  dirty h = false /\ inJournal h = false /\ pgNeedSync h = false.

Section Txn.

Context (orig : list Z) (size : Z) (D : gset Z).
Context (Hsize : 0 <= size <= 1073741823).
Context (Horig : length orig = (Z.to_nat size * PSZ)%nat).

Abbreviation in_db := (in_db size).
Abbreviation intact := (intact orig size D).
Abbreviation recoverable := (recoverable orig size D).
Abbreviation records := (records orig).
Abbreviation good_recs := (good_recs size).

(** * Ending a transaction *)

(** The files as [pager_unwritelock] leaves them at each point. *)
Record unlocking (d d' : disk) : Prop := {
  ul_db : f_data (d_db d') = f_data (d_db d);
  ul_j : frame d d' \/ d_jexists d' = false
}.

(** The pager [pager_unwritelock] leaves. *)
Record unlocked (x x' : Pager) : Prop := {
  un_state : state x' = SQLITE_READLOCK;
  un_jo : journalOpen x' = false;
  un_cfg : cfg x' = cfg x;
  un_dbs : dbSize x' = dbSize x;
  un_inj : aInJournal x' = None;
  un_ckpt : ckptInUse x' = false;
  un_pages : map page_view (pAll x') = map page_view (pAll x);
  un_clean : Forall unmarked (pAll x');
  un_plain : plain x -> plain x' /\ map inCkpt (pAll x') = map inCkpt (pAll x)
}.

Lemma wp_ckpt_commit x d (Q : Z -> World -> Prop) (C : World -> Prop) :
  ckptInUse x = false ->
  (forall x' d', d_db d' = d_db d -> d_journal d' = d_journal d ->
     d_jexists d' = d_jexists d -> d_faults d' = d_faults d ->
     state x' = state x -> journalOpen x' = journalOpen x -> cfg x' = cfg x ->
     dbSize x' = dbSize x -> ckptInUse x' = false ->
     map page_view (pAll x') = map page_view (pAll x) ->
     (plain x -> plain x' /\ map inCkpt (pAll x') = map inCkpt (pAll x)) ->
     Q SQLITE_OK (mkWorld x' d')) ->
  wp sqlitepager_ckpt_commit Q C (mkWorld x d).
Proof.
  intros Hck HQ. unfold sqlitepager_ckpt_commit. wsteps. rewrite Hck.
  apply wp_when; intros E; [done|].
  wsteps. apply HQ; try (by destruct x). intros (H1 & H2 & H3 & H4). by destruct x.
Qed.

Lemma wp_unwritelock x d (Q : Z -> World -> Prop) (C : World -> Prop) :
  no_err d -> state x = SQLITE_WRITELOCK -> journalOpen x = true -> ckptInUse x = false ->
  (forall x' d', unlocking d d' -> C (mkWorld x' d')) ->
  (forall x' d', no_err d' -> unlocking d d' -> d_jexists d' = false ->
     d_lock d' = ReadLock -> unlocked x x' -> Q SQLITE_OK (mkWorld x' d')) ->
  wp pager_unwritelock Q C (mkWorld x d).
Proof.
  intros Hn Hst Hjo Hck HC HQ. unfold pager_unwritelock. wsteps.
  rewrite Hst. change (SQLITE_WRITELOCK <? SQLITE_WRITELOCK) with false. cbn iota. wsteps.
  apply wp_ckpt_commit; [done|]. intros x1 d1 E1 E2 E3 E4 E5 E6 E7 E8 E9 E10 E11. wsteps.
  assert (Hn1 : no_err d1) by (unfold no_err in *; by rewrite E4).
  apply (wp_mono _ (fun (_ : unit) w' => exists x2, w' = mkWorld x2 d1 /\ journalOpen x2 = true /\
    cfg x2 = cfg x /\ dbSize x2 = dbSize x /\ ckptInUse x2 = false /\
    map page_view (pAll x2) = map page_view (pAll x) /\
    (plain x -> plain x2 /\ map inCkpt (pAll x2) = map inCkpt (pAll x))) _ C); [| |done].
  { apply wp_when; intros E; [wsteps|]; eexists; (split; [reflexivity|]);
      unfold cfg in *; destruct x1, x; simpl in *;
      (split; [congruence|]; split; [congruence|]; split; [congruence|];
       split; [congruence|]; split; [congruence|exact E11]). }
  intros [] w' (x2 & -> & Hjo2 & He2 & Hd2 & Hck2 & Hp2 & Hpl2). wsteps. rewrite Hjo2. wsteps.
  apply wp_os_call; [done|]. intros fs2 Hn2. split; [|split].
  2:{ apply HC. split; [|left; split]; destruct d, d1; simpl in *; congruence. }
  2:{ apply HC. split; [|right]; destruct d, d1; simpl in *; congruence. }
  wsteps. apply wp_os_call; [by destruct d1|]. intros fs3 Hn3. split; [|split].
  2,3: apply HC; split; [|right]; destruct d, d1; simpl in *; congruence.
  wsteps. apply HQ; [by destruct d1| | by destruct d1 | by destruct d1 | ].
  { split; [|right]; destruct d, d1; simpl in *; congruence. }
  split; [done|done|by destruct x2|by destruct x2|done|by destruct x2| | |].
  - rewrite <- Hp2. destruct x2. simpl. rewrite map_map. apply map_ext. by intros [].
  - destruct x2. simpl. rewrite Forall_map. apply Forall_true. by intros [].
  - intros Hpl. destruct (Hpl2 Hpl) as [? <-]. split; [by destruct x2|].
    destruct x2. simpl. rewrite map_map. apply map_ext. by intros [].
Qed.

(** What remains in place after a process died while unlocking. *)
Lemma unlocking_recoverable d d' :
  length (f_data (d_db d)) = (Z.to_nat size * PSZ)%nat -> intact [] (f_data (d_db d)) ->
  recoverable d -> unlocking d d' -> recoverable d'.
Proof.
  intros Hl Hi Hr [E [[Fj Fe]|Hje]]; cycle 1.
  { apply rec_clean; [done|by rewrite E|by rewrite E]. }
  inversion Hr.
  - apply rec_clean; [congruence|by rewrite E|by rewrite E].
  - eapply rec_header; [congruence|done|by rewrite Fj|by rewrite E|by rewrite E].
  - eapply rec_journal; [congruence|by rewrite Fj|done..|by rewrite E|by rewrite E].
Qed.

(** The result of a complete playback, for the file and for the cache. *)
Record rolled_back (x x' : Pager) (d' : disk) : Prop := {
  rb_jexists : d_jexists d' = false;
  rb_length : length (f_data (d_db d')) = (Z.to_nat size * PSZ)%nat;
  rb_db : intact [] (f_data (d_db d'));
  rb_lock : d_lock d' = ReadLock;
  rb_state : state x' = SQLITE_READLOCK;
  rb_jo : journalOpen x' = false;
  rb_cfg : cfg x' = cfg x;
  rb_dbs : dbSize x' = size \/ dbSize x' = dbSize x;
  rb_inj : aInJournal x' = None;
  rb_ckpt : ckptInUse x' = false;
  rb_clean : Forall unmarked (pAll x');
  rb_plain : plain x -> plain x' /\ map inCkpt (pAll x') = map inCkpt (pAll x)
}.

Lemma recoverable_after_playback f init ps tail m d d' :
  d_jexists d = true ->
  f_data (d_journal d) = journal_header f init size ++ records init ps ++ tail ->
  (length tail < PSZ + 8)%nat ->
  is_u32 init -> good_recs ps -> counted f (length ps) m ->
  frame d d' -> length (f_data (d_db d')) = (Z.to_nat size * PSZ)%nat ->
  intact [] (f_data (d_db d')) -> recoverable d'.
Proof.
  intros Hje HJ Ht Hinit Hg Hc [Fj Fe] Hl Hi.
  apply (rec_journal _ _ _ _ f init ps tail m); [congruence|by rewrite Fj|done..|lia|].
  intros p Hp HD _. apply Hi; [done|done|apply not_elem_of_nil].
Qed.

(** A complete journal is played back: [useJournalSize] as [sqlitepager_rollback]
    and [sqlitepager_get] call it. *)
Lemma wp_playback ujs f init ps tail m x d (Q : Z -> World -> Prop) (C : World -> Prop) :
  no_err d -> state x = SQLITE_WRITELOCK -> journalOpen x = true -> ckptInUse x = false ->
  d_jexists d = true ->
  f_data (d_journal d) = journal_header f init size ++ records init ps ++ tail ->
  (length tail < PSZ + 8)%nat -> is_u32 init -> good_recs ps -> counted f (length ps) m ->
  (Z.to_nat size * PSZ <= length (f_data (d_db d)))%nat ->
  intact (take m ps) (f_data (d_db d)) ->
  orig_ok size x -> NoDup (map pgno (pAll x)) -> Forall (fun h => 1 <= pgno h) (pAll x) ->
  rollbackable (pAll x) ->
  (forall x' d', recoverable d' -> C (mkWorld x' d')) ->
  (forall x' d', no_err d' -> rolled_back x x' d' ->
     map page_view (pAll x') =
       map page_view (map (refetched size (f_data (d_db d')))
         (restored_cache orig (take (played ujs f (length ps) m) ps) (pAll x))) ->
     Q SQLITE_OK (mkWorld x' d')) ->
  wp (pager_playback ujs) Q C (mkWorld x d).
Proof.
  intros Hn Hst Hjo Hck Hje HJ Ht Hinit Hg Hc Hl Hint Horg Hnd Hpos Href HC HQ.
  unfold pager_playback. wsteps.
  eapply (wp_playback_body orig size D Hsize Horig ujs f init ps tail m); [done..|].
  intros d1 Hn1 Hfr1 Hl1 Hi1 ps' Hps'. cbn [negb Z.eqb SQLITE_OK].
  assert (Hr1 : recoverable d1) by by eapply recoverable_after_playback.
  apply wp_unwritelock; [done|by destruct x|by destruct x|by destruct x| |].
  - intros x' d' Hu. apply HC. by eapply unlocking_recoverable.
  - intros x' d' Hn' Hu Hje' Hlk [U1 U2 U3 Ud U6 U7 U4 U5 U8].
    apply HQ; [done| |].
    + split; [done|by rewrite (ul_db _ _ Hu)|by rewrite (ul_db _ _ Hu)|done..| | |done|done|done|].
      * rewrite U3. by destruct x.
      * left. rewrite Ud. by destruct x.
      * intros Hpl. destruct U8 as [? E]; [by destruct x|]. split; [done|]. rewrite E.
        unfold played_pager, restored_cache. cbn. rewrite !map_map. apply map_ext. intros h.
        unfold refetched. by repeat case_match.
    + rewrite U4, (ul_db _ _ Hu). by destruct x.
Qed.

(** A journal whose header was not finished is ignored. *)
Lemma wp_playback_header ujs k f init x d (Q : Z -> World -> Prop) (C : World -> Prop) :
  no_err d -> state x = SQLITE_WRITELOCK -> journalOpen x = true -> ckptInUse x = false ->
  d_jexists d = true -> (k < 20)%nat -> f_data (d_journal d) = take k (journal_header f init size) ->
  length (f_data (d_db d)) = (Z.to_nat size * PSZ)%nat -> intact [] (f_data (d_db d)) ->
  (forall x' d', recoverable d' -> C (mkWorld x' d')) ->
  (forall x' d', no_err d' -> rolled_back x x' d' ->
     map page_view (pAll x') = map page_view (pAll x) ->
     Q SQLITE_OK (mkWorld x' d')) ->
  wp (pager_playback ujs) Q C (mkWorld x d).
Proof.
  intros Hn Hst Hjo Hck Hje Hk HJ Hl Hint HC HQ.
  assert (HR : forall d', frame d d' -> f_data (d_db d') = f_data (d_db d) -> recoverable d').
  { intros d' [Fj Fe] E. apply (rec_header _ _ _ _ k f init); [congruence|done|congruence| |];
      by rewrite E. }
  assert (Hend : forall d', no_err d' -> frame d d' -> f_data (d_db d') = f_data (d_db d) ->
    wp pager_unwritelock Q C (mkWorld x d')).
  { intros d' Hn' Hfr E. apply wp_unwritelock; [done..| |].
    - intros x2 d2 Hu. apply HC. eapply unlocking_recoverable; [..|exact Hu].
      + by rewrite E.
      + by rewrite E.
      + by apply HR.
    - intros x2 d2 Hn2 Hu Hje2 Hlk [U1 U2 U3 Ud U6 U7 U4 U5 U8]. apply HQ; [done| |done].
      destruct Hu as [Hu _].
      split; [done|by rewrite Hu, E|by rewrite Hu, E|done|done|done|done|by right|done..]. }
  unfold pager_playback, playback_body. wsteps; [exact Hjo|].
  destruct d as [[db dbs dbp] [J Js jp] je cp lk rnd fs].
  cbn [set_file get_file d_db d_journal f_data f_synced d_jexists] in *.
  apply wp_filesize; [done|]. intros fs1 Hn1.
  cbn [set_faults get_file d_journal f_data].
  split; [|by apply HC, HR]. cbn [negb Z.eqb SQLITE_OK].
  assert (HJl : length J = k).
  { rewrite HJ, length_take, journal_header_length. lia. }
  destruct (Nat.ltb_spec (length J) (8 + 4)) as [Hs|Hs].
  { wsteps. cbn [negb Z.eqb SQLITE_OK]. by apply Hend. }
  wsteps.
  assert (Ha : ahead (mk_file J Js 0) = aJournalMagic3 ++ drop 8 J).
  { unfold ahead. cbn [f_pos f_data]. rewrite drop_0, <- (take_drop 8 J) at 1. f_equal.
    rewrite HJ, take_take, Nat.min_l by lia. reflexivity. }
  change (sqliteOsRead JFD 8) with (sqliteOsRead JFD (length aJournalMagic3)).
  eapply wp_read_exact; [done|exact Ha|]. intros fs2 Hn2. split; [|by apply HC, HR].
  cbn [negb Z.eqb SQLITE_OK set_faults advance get_file set_file d_journal f_data f_synced f_pos].
  rewrite decide_True by done. change (3 =? 0) with false. change (3 <=? 3) with true.
  replace (Nat.ltb (length J) (8 + 3 * 4)) with true by (symmetry; apply Nat.ltb_lt; lia).
  cbn [andb]. cbn iota. wsteps. cbn [negb Z.eqb SQLITE_OK]. by apply Hend.
Qed.

End Txn.
