(* ===== verification/PagerSession.v ===== *)
(** A session of one client with the page cache: the states between two calls
    ([rested], [reading], [writing]) and what every operation does to them when
    no system call fails, with the process allowed to die in any of them. *)
From S2P Require Import Prelude OsFile Pager PagerBytes PagerPlayback PagerCache PagerTxn.

(** Rewriting with the equality of a field of two pagers with the same core. *)
Ltac core_same f H :=
  match type of H with core ?a = core ?b =>
    let E := fresh "E" in
    assert (E : f a = f b) by exact (f_equal f H); rewrite E; clear E
  end.

(** A database with a journal, opened for writing, in a healthy state. *)
Record healthy (x : Pager) : Prop := {
  hl_uj : useJournal x = true;
  hl_tf : tempFile x = false;
  hl_ro : readOnly x = false;
  hl_err : errMask x = 0;
  hl_plain : plain x
}.

(** What a client sees: the references to a page, its content, whether it may be
    stored to. *)
Definition refcount (x : Pager) (q : Z) : Z :=
  match look x q with Some h => nRef h | None => 0 end.
Definition view (x : Pager) (d : disk) (q : Z) : list Z :=
  match look x q with Some h => pgData h | None => fpage (f_data (d_db d)) q end.
Definition isdirty (x : Pager) (q : Z) : bool :=
  match look x q with Some h => dirty h | None => false end.

(** A client that holds a page other than [p] cannot tell the states apart. *)
Definition kept (p : Z) (x : Pager) (d : disk) (x' : Pager) (d' : disk) : Prop :=
  forall q, q <> p -> 1 <= q -> refcount x' q = refcount x q /\ view x' d' q = view x d q /\
    (0 < refcount x q -> isdirty x' q = isdirty x q).

Lemma kept_refl p x d : kept p x d x d.
Proof. done. Qed.

Lemma kept_trans p x1 d1 x2 d2 x3 d3 :
  kept p x1 d1 x2 d2 -> kept p x2 d2 x3 d3 -> kept p x1 d1 x3 d3.
Proof.
  intros H1 H2 q Hq Hq1. destruct (H1 q Hq Hq1) as (A1 & A2 & A3), (H2 q Hq Hq1) as (B1 & B2 & B3).
  split; [congruence|]. split; [congruence|]. intros Hr. rewrite B3 by congruence. auto.
Qed.

Lemma counted_mode (ns sy : bool) f n m :
  (ns = true /\ sy = false /\ f = 4294967295 /\ m = n) \/ (ns = false /\ f = Z.of_nat m /\ (m <= n)%nat) ->
  counted f n m.
Proof. unfold counted. tauto. Qed.

Section Session.

Context (orig : list Z) (size : Z) (D : gset Z).
Context (Hsize : 0 <= size <= 1073741823).
Context (Horig : length orig = (Z.to_nat size * PSZ)%nat).

Abbreviation in_db := (in_db size).
Abbreviation intact := (intact orig size D).
Abbreviation recoverable := (recoverable orig size D).
Abbreviation records := (records orig).
Abbreviation good_recs := (good_recs size).

(** No lock, no page. *)
Record rested (x : Pager) (d : disk) : Prop := {
  re_healthy : healthy x;
  re_state : state x = SQLITE_UNLOCK;
  re_empty : pAll x = [] /\ pFree x = [] /\ pFirstSynced x = None /\ pnRef x = 0;
  re_jo : journalOpen x = false;
  re_inj : aInJournal x = None;
  re_dbs : dbSize x = -1;
  re_orig : origDbSize x = 0 \/ d_jexists d = false
}.

(** A read lock: the file holds the committed content and so does the cache. *)
Record reading (x : Pager) (d : disk) : Prop := {
  rd_healthy : healthy x;
  rd_state : state x = SQLITE_READLOCK;
  rd_jo : journalOpen x = false;
  rd_inj : aInJournal x = None;
  rd_je : d_jexists d = false;
  rd_db : f_data (d_db d) = orig;
  rd_dbs : dbSize x = -1 \/ dbSize x = size;
  rd_pages : forall q h, look x q = Some h ->
    unmarked h /\ pgData h = fpage (f_data (d_db d)) q
}.

(** A write lock and an open journal, whose header counts [m] of the records for
    the pages [ps]; [s] is the bitmap [aInJournal]. *)
Record writing (f : Z) (ps : list Z) (m : nat) (s : gset Z) (x : Pager) (d : disk) : Prop := {
  wr_healthy : healthy x;
  wr_state : state x = SQLITE_WRITELOCK;
  wr_jo : journalOpen x = true;
  wr_je : d_jexists d = true;
  wr_orig : origDbSize x = size;
  wr_dbs : size <= dbSize x <= 1073741823;
  wr_journal : f_data (d_journal d) =
    journal_header f (cksumInit x) size ++ records (cksumInit x) ps;
  wr_pos : f_pos (d_journal d) = length (f_data (d_journal d));
  wr_init : is_u32 (cksumInit x);
  wr_good : good_recs ps;
  wr_nrec : nRec x = length ps;
  wr_mode : (noSync x = true /\ needSync x = false /\ f = 4294967295 /\ m = length ps) \/
            (noSync x = false /\ f = Z.of_nat m /\ (m <= length ps)%nat);
  wr_len : exists k, npages k (f_data (d_db d)) /\ size <= k <= dbSize x;
  wr_db : intact (take m ps) (f_data (d_db d));
  wr_out : forall p, in_db p -> p ∉ s -> page (f_data (d_db d)) p = page orig p;
  wr_inj : aInJournal x = Some s;
  wr_s : forall p, p ∈ s -> in_db p /\ (p ∈ ps \/ p ∈ D);
  wr_ps : forall p, p ∈ ps -> p ∈ s;
  wr_pages : forall q h, look x q = Some h ->
    inJournal h = bool_decide (q ∈ s) /\
    (dirty h = false -> pgData h = fpage (f_data (d_db d)) q) /\
    (dirty h = true -> q <= dbSize x /\ (in_db q -> q ∈ s));
  wr_unsynced : forall p, p ∈ drop m ps -> exists h, look x p = Some h /\ pgNeedSync h = true;
  wr_dirtyFile : dirtyFile x = false ->
    needSync x = false /\ ps = [] /\ length (f_data (d_db d)) = (Z.to_nat size * PSZ)%nat /\
    (forall q h, look x q = Some h -> dirty h = false)
}.

Definition session (x : Pager) (d : disk) : Prop :=
  reading x d \/ exists f ps m s, writing f ps m s x d.

Lemma orig_npages : npages size orig.
Proof. split; [lia|done]. Qed.

Lemma npages_ge k db : npages k db -> size <= k -> (Z.to_nat size * PSZ <= length db)%nat.
Proof. intros [? ->] ?. apply Nat.mul_le_mono_r. lia. Qed.

(** Whatever happens to the pager, the files of a session can be recovered. *)
Lemma writing_files f ps m s x d d' :
  writing f ps m s x d -> f_data (d_journal d') = f_data (d_journal d) ->
  d_jexists d' = d_jexists d -> (length (f_data (d_db d)) <= length (f_data (d_db d')))%nat ->
  intact (take m ps) (f_data (d_db d')) -> recoverable d'.
Proof.
  intros [] E1 E2 Hl Hi. destruct wr_len0 as (k & Hk & Hks).
  apply (rec_journal _ _ _ _ f (cksumInit x) ps [] m); [congruence| |simpl; lia|done..| | |done].
  - by rewrite E1, app_nil_r.
  - by eapply counted_mode.
  - etransitivity; [|exact Hl]. apply (npages_ge k); [done|lia].
Qed.

Lemma session_recoverable x d d' : session x d -> same_files d d' -> recoverable d'.
Proof.
  intros [H|(f & ps & m & s & H)] [E1 E2 E3].
  - destruct H. apply rec_clean; rewrite ?E1, ?E3, ?rd_db0; try done.
  - apply (writing_files _ _ _ _ _ _ _ H); [by rewrite E2|done|by rewrite E1|].
    rewrite E1. apply H.
Qed.

Lemma session_healthy x d : session x d -> healthy x.
Proof. intros [[]|(f & ps & m & s & [])]; done. Qed.

(** A session depends on the files' contents only. *)
Lemma session_same_files x d d' : session x d -> same_files d d' -> session x d'.
Proof.
  intros [H|(f & ps & m & s & H)] [E1 E2 E3].
  - left. destruct H. split; rewrite ?E1, ?E2, ?E3; done.
  - right. exists f, ps, m, s. destruct H. split; rewrite ?E1, ?E2, ?E3; done.
Qed.

(** The pages held by the file, as [sqlitepager_pagecount] counts them. *)
Lemma session_size x d : session x d ->
  exists k, npages k (f_data (d_db d)) /\ size <= k /\ (0 <= dbSize x -> k <= dbSize x) /\
    state x <> SQLITE_UNLOCK /\ size <= known_size k x.
Proof.
  intros [H|(f & ps & m & s & H)]; destruct H; unfold known_size.
  - exists size. split; [rewrite rd_db0; apply orig_npages|]. rewrite rd_state0. split_and!; try done; case_Zb; lia.
  - destruct wr_len0 as (k & ? & ?). exists k. rewrite wr_state0.
    split_and!; try done; case_Zb; lia.
Qed.

(** ** Changes of the cache alone *)

(** What a transaction knows of a page. *)
Definition claims (h : PgHdr) := (pgData h, inJournal h, dirty h, pgNeedSync h).

(** The pages of [x'] are pages of [x] or pages that have just been loaded, and
    no page that waits for a sync is missing. *)
Definition recached (x x' : Pager) (d : disk) : Prop :=
  (forall q h, look x' q = Some h ->
     (exists g, look x q = Some g /\ claims h = claims g) \/
     claims h = (fpage (f_data (d_db d)) q, injournal q x, false, false)) /\
  (forall q g, look x q = Some g -> pgNeedSync g = true ->
     exists h, look x' q = Some h /\ pgNeedSync h = true).

Lemma healthy_core x x' z : core x' = core (set_dbSize z x) -> healthy x -> healthy x'.
Proof.
  intros Hc [H1 H2 H3 H4 (H5 & H6 & H7 & H8)].
  destruct x, x'; unfold core in Hc; cbn in *. by simplify_eq.
Qed.

Lemma reading_recached x x' d z :
  core x' = core (set_dbSize z x) -> z = -1 \/ z = size -> recached x x' d ->
  reading x d -> reading x' d.
Proof.
  intros Hc Hz [Hr1 Hr2] []. split; try done.
  all: try (destruct x, x'; unfold core in Hc; cbn in *; by simplify_eq).
  - by eapply healthy_core.
  - intros q h Hl. destruct (Hr1 q h Hl) as [(g & Hg & E)|E].
    + destruct (rd_pages0 q g Hg) as [(U1 & U2 & U3) Ed]. unfold claims in E.
      injection E as E1 E2 E3 E4. repeat split; congruence.
    + unfold claims, injournal in E. rewrite rd_inj0 in E.
      injection E as E1 E2 E3 E4. repeat split; congruence.
Qed.

Lemma writing_recached f ps m s x x' d :
  core x' = core x -> recached x x' d -> writing f ps m s x d -> writing f ps m s x' d.
Proof.
  intros Hc [Hr1 Hr2] [].
  assert (Ef : (cksumInit x', dbSize x', noSync x', needSync x', dirtyFile x', nRec x') =
    (cksumInit x, dbSize x, noSync x, needSync x, dirtyFile x, nRec x)).
  { destruct x, x'; unfold core in Hc; cbn in *; by simplify_eq. }
  injection Ef as F1 F2 F3 F4 F5 F6.
  split; rewrite ?F1, ?F2, ?F3, ?F4, ?F5, ?F6; try done.
  all: try (destruct x, x'; unfold core in Hc; cbn in *; by simplify_eq).
  - apply (healthy_core x x' (dbSize x)); [|done]. by destruct x.
  - intros q h Hl. destruct (Hr1 q h Hl) as [(g & Hg & E)|E]; unfold claims in E.
    + destruct (wr_pages0 q g Hg) as (P1 & P2 & P3). injection E as E1 E2 E3 E4.
      rewrite E1, E2, E3. done.
    + injection E as E1 E2 E3 E4. rewrite E2, E3. split; [|done].
      unfold injournal. rewrite wr_inj0, wr_orig0.
      destruct (Z.leb_spec q size); cbn [andb]; [done|]. symmetry. apply bool_decide_eq_false.
      intros [[? ?] _]%wr_s0. lia.
  - intros p Hp. destruct (wr_unsynced0 p Hp) as (g & Hg & Hn). by apply (Hr2 p g).
  - intros Hdf. destruct (wr_dirtyFile0 Hdf) as (W1 & W2 & W3 & W4). split_and!; [done..|].
    intros q h Hl. destruct (Hr1 q h Hl) as [(g & Hg & E)|E]; unfold claims in E.
    + injection E as E1 E2 E3 E4. rewrite E3. by apply (W4 q).
    + by injection E.
Qed.

Lemma session_recached x x' d k :
  npages k (f_data (d_db d)) ->
  core x' = core x \/ core x' = core (set_dbSize (known_size k x) x) -> recached x x' d ->
  session x d -> session x' d.
Proof.
  intros Hk Hc Hr [H|(f & ps & m & s & H)].
  - assert (k = size) as ->.
    { eapply npages_inj; [done|]. rewrite (rd_db _ _ H). apply orig_npages. }
    left. destruct Hc as [Hc|Hc].
    + apply (reading_recached x x' d (dbSize x)); [by destruct x|apply H|done|done].
    + apply (reading_recached x x' d (known_size size x)); [done| |done|done].
      unfold known_size. case_Zb; [by right|apply H].
  - right. exists f, ps, m, s. apply (writing_recached _ _ _ _ x); [|done|done].
    destruct Hc as [Hc|Hc]; [done|]. rewrite Hc. unfold known_size.
    pose proof (wr_dbs _ _ _ _ _ _ H). rewrite (proj2 (Z.ltb_ge _ _)) by lia. by destruct x.
Qed.

(** A page whose claims stay. *)
Lemma recached_looks p h h' x x' d :
  look x p = Some h -> claims h' = claims h -> looks p h' x x' -> recached x x' d.
Proof.
  intros Hl Hc Hlk. split; intros q g; rewrite ?Hlk.
  - case_decide as E; [|by eauto]. intros [= <-]. left. exists h. by subst.
  - intros Hg Hn. destruct (decide (q = p)) as [->|E].
    + exists h'. split; [done|]. injection Hc as _ _ _ ->. congruence.
    + by exists g.
Qed.

(** * References *)

(** Between two calls. *)
Record live (x : Pager) (d : disk) : Prop := {
  lv_cache : cache_ok x;
  lv_sync : sync_ok x;
  lv_session : session x d
}.

(** A state reached from [x] by changing only the reference count of [p] to [n]. *)
Record rereferenced (p n : Z) (x : Pager) (d : disk) (x' : Pager) : Prop := {
  rr_live : live x' d;
  rr_kept : kept p x d x' d;
  rr_refs : refcount x' p = n;
  rr_view : view x' d p = view x d p;
  rr_dirty : isdirty x' p = isdirty x p;
  rr_pnRef : 0 < pnRef x'
}.

Lemma looks_rereferenced p h n x x' d :
  live x d -> cache_ok x' -> sync_ok x' -> core x' = core x -> 0 < pnRef x' ->
  look x p = Some h -> looks p (pg_set_nRef n h) x x' -> rereferenced p n x d x'.
Proof.
  intros [Hok Hs Hse] Hok' Hs' Hc Hpos Hl Hlk.
  assert (Hp : look x' p = Some (pg_set_nRef n h)) by (rewrite Hlk; by rewrite decide_True).
  split; [split; [done|done|]| | | | |done].
  - destruct (session_size x d Hse) as (k & Hk & _).
    apply (session_recached x x' d k); [done|by left| |done].
    by apply (recached_looks p h (pg_set_nRef n h)).
  - intros q Hq _. unfold refcount, view, isdirty. rewrite Hlk, decide_False by done. done.
  - unfold refcount. by rewrite Hp.
  - unfold view. by rewrite Hp, Hl.
  - unfold isdirty. by rewrite Hp, Hl.
Qed.

Lemma wp_ref p h x d (Q : unit -> World -> Prop) (C : World -> Prop) :
  live x d -> look x p = Some h ->
  (forall x', rereferenced p (nRef h + 1) x d x' -> Q tt (mkWorld x' d)) ->
  wp (page_ref p) Q C (mkWorld x d).
Proof.
  intros Hlv Hl HQ. pose proof Hlv as [Hok Hs _].
  apply (wp_page_ref p h); [done..|]. intros x' H1 H2 H3 H4 H5. apply HQ.
  apply (looks_rereferenced p h); auto.
Qed.

(** * Syncing the journal *)

Definition synced_pager (x : Pager) : Pager :=
  set_pFirstSynced (head (pFree x))
    (set_pAll (map (pg_set_pgNeedSync false) (pAll x)) (set_needSync false (set_journalStarted true x))).

Lemma look_synced x q : look (synced_pager x) q = pg_set_pgNeedSync false <$> look x q.
Proof. unfold look. cbn. by apply find_page_map. Qed.

Lemma refd_map f l : (forall h, nRef (f h) = nRef h) -> refd (map f l) = refd l.
Proof.
  intros Hf. induction l as [|h l IH]; [done|]. cbn [map]. rewrite !refd_cons, IH.
  unfold held. by rewrite Hf.
Qed.

Lemma synced_cache_ok x : cache_ok x -> cache_ok (synced_pager x) /\ sync_ok (synced_pager x).
Proof.
  intros [H1 H2 H3 H4 H5 H6]. split; [split|right; split; [|done]]; try done.
  - cbn. rewrite map_map. exact H1.
  - intros q h. rewrite look_synced. intros (g & Hg & ->)%fmap_Some. by apply (H2 q g).
  - intros v Hv. destruct (H4 v Hv) as (g & Hg & ?). rewrite look_synced, Hg. by eexists.
  - cbn. intros v Hv. assert (Hin : v ∈ pFree x) by (destruct (pFree x); [done|]; simplify_eq/=; by left).
    split; [done|]. destruct (H4 v Hin) as (g & Hg & ?). rewrite look_synced, Hg. by eexists.
  - cbn [synced_pager pnRef pAll set_pAll set_needSync set_journalStarted set_pFirstSynced].
    by rewrite H6, refd_map.
  - intros q h. rewrite look_synced. by intros (g & Hg & ->)%fmap_Some.
Qed.

(** Overwriting the record count in the header. *)
Lemma splice_count f f' init rest :
  splice (journal_header f init size ++ rest) 8 (be32 f') = journal_header f' init size ++ rest.
Proof. reflexivity. Qed.

Lemma take_short_write f' k : take (torn (length (be32 f')) k) (be32 f') = [] \/
  take (torn (length (be32 f')) k) (be32 f') = be32 f'.
Proof. rewrite be32_length. unfold torn. cbn [Nat.leb]. destruct k; [by left|by right]. Qed.

Lemma records_size init ps : good_recs ps ->
  length (records init ps) = (length ps * JOURNAL_PG_SZ journal_format)%nat.
Proof.
  intros [_ Hin]. unfold journal_format. rewrite JOURNAL_PG_SZ_3.
  by apply (records_length orig size).
Qed.

(** The state after a sync: all records are counted. *)
Lemma synced_writing f ps m s x d d' :
  writing f ps m s x d -> noSync x = false ->
  f_data (d_db d') = f_data (d_db d) -> d_jexists d' = d_jexists d ->
  f_data (d_journal d') =
    journal_header (Z.of_nat (length ps)) (cksumInit x) size ++ records (cksumInit x) ps ->
  f_pos (d_journal d') = length (f_data (d_journal d')) ->
  writing (Z.of_nat (length ps)) ps (length ps) s (synced_pager x) d'.
Proof.
  intros [] Hns E1 E2 E3 E4. split; try (by destruct x); rewrite ?E1; try done.
  - destruct wr_healthy0. by split.
  - by rewrite E2.
  - right. by split_and!.
  - intros p Hp HD Hn. apply wr_db0; [done..|]. intros Hin. apply Hn.
    rewrite take_ge by done. rewrite <- (take_drop m ps). apply elem_of_app. by left.
  - intros q h. rewrite look_synced. intros (g & Hg & ->)%fmap_Some. by apply (wr_pages0 q g).
  - rewrite drop_all. by intros p ?%elem_of_nil.
  - intros Hdf. destruct (wr_dirtyFile0 Hdf) as (W1 & W2 & W3 & W4).
    split_and!; [done..|]. intros q h. rewrite look_synced.
    intros (g & Hg & ->)%fmap_Some. by apply (W4 q g).
Qed.

(** [syncJournal] counts the records and clears the way for every page. *)
Record synced (f : Z) (ps : list Z) (m : nat) (s : gset Z) (x : Pager) (d : disk)
    (x' : Pager) (d' : disk) : Prop := {
  sy_writing : writing f ps m s x' d';
  sy_all : drop m ps = [];
  sy_cache : cache_ok x' /\ sync_ok x';
  sy_look : forall q, look x' q = pg_set_pgNeedSync false <$> look x q;
  sy_first : pFirstSynced x' = head (pFree x');
  sy_rest : pFree x' = pFree x /\ pnRef x' = pnRef x /\ noSync x' = noSync x;
  sy_db : f_data (d_db d') = f_data (d_db d)
}.

Lemma not_synced f ps m s x d :
  writing f ps m s x d -> cache_ok x -> sync_ok x -> needSync x = false ->
  (forall q h, look x q = Some h -> pgNeedSync h = false) /\ pFirstSynced x = head (pFree x) /\
  synced f ps m s x d x d.
Proof.
  intros Hw Hok Hs Hn. pose proof Hs as [[? ?]|[Hs1 Hs2]]; [congruence|].
  split; [done|]. split; [done|]. split; try done.
  - destruct (drop m ps) as [|p l] eqn:E; [done|].
    destruct (wr_unsynced _ _ _ _ _ _ Hw p) as (h & Hl & Hns); [rewrite E; by left|].
    rewrite (Hs1 p h Hl) in Hns. done.
  - intros q. destruct (look x q) as [h|] eqn:E; [|done]. cbn. f_equal.
    pose proof (Hs1 q h E) as Hh. destruct h. cbn in *. by subst.
Qed.

Lemma wp_syncJournal f ps m s x d (Q : Z -> World -> Prop) (C : World -> Prop) :
  no_err d -> writing f ps m s x d -> cache_ok x -> sync_ok x ->
  (forall x' d', recoverable d' -> C (mkWorld x' d')) ->
  (forall f' m' x' d', no_err d' -> synced f' ps m' s x d x' d' ->
     Q SQLITE_OK (mkWorld x' d')) ->
  wp syncJournal Q C (mkWorld x d).
Proof.
  intros Hn Hw Hok Hs HC HQ. unfold syncJournal. wsteps.
  destruct (needSync x) eqn:Hns.
  2:{ destruct (not_synced _ _ _ _ _ _ Hw Hok Hs Hns) as (H1 & H2 & H3).
      wsteps; [| |by eapply HQ].
      - apply forallb_forall. intros h Hh. apply list_elem_of_In in Hh.
        by rewrite (look_Forall _ _ _ h (Forall_look _ _ (c_nd _ Hok) H1)
          (find_page_unique _ _ (c_nd _ Hok) Hh)).
      - by apply bool_decide_eq_true. }
  assert (Hsy : noSync x = false) by (destruct (wr_mode _ _ _ _ _ _ Hw) as [(_ & ? & _)|[? _]]; congruence).
  pose proof Hw as []. wsteps. rewrite (hl_tf _ wr_healthy0). wsteps; [done|].
  assert (HC' : forall x' d', f_data (d_journal d') = f_data (d_journal d) ->
      d_jexists d' = d_jexists d -> f_data (d_db d') = f_data (d_db d) -> C (mkWorld x' d')).
  { intros x' d' E1 E2 E3. apply HC. by apply (writing_files f ps m s x d); rewrite ?E3. }
  assert (HC2 : forall x' d', f_data (d_journal d') =
        journal_header (Z.of_nat (length ps)) (cksumInit x) size ++ records (cksumInit x) ps ->
      d_jexists d' = d_jexists d -> f_data (d_db d') = f_data (d_db d) -> C (mkWorld x' d')).
  { intros x' d' E1 E2 E3. apply HC.
    set (d2 := set_file JFD (mk_file (f_data (d_journal d')) [] (length (f_data (d_journal d')))) d').
    assert (Hw2 : writing (Z.of_nat (length ps)) ps (length ps) s (synced_pager x) d2)
      by (apply (synced_writing f ps m s x d); [done|done|subst d2; by destruct d'..]).
    apply (writing_files _ _ _ _ _ _ _ Hw2); subst d2; destruct d' as [[] []]; try done.
    apply Hw2. }
  apply wp_filesize; [done|]. intros fs1 Hn1. split; [|apply HC'; by destruct d].
  cbn [negb Z.eqb SQLITE_OK]. rewrite wr_nrec0. wsteps.
  { apply Nat.eqb_eq. cbn [get_file]. rewrite wr_journal0, length_app, records_size by done.
    rewrite journal_header_length. change (JOURNAL_HDR_SZ journal_format) with 20%nat. lia. }
  apply (wp_mono _ (fun rc w => exists d', w = mkWorld x d' /\ rc = SQLITE_OK /\ no_err d' /\
    f_data (d_journal d') = f_data (d_journal d) /\ d_jexists d' = d_jexists d /\
    f_data (d_db d') = f_data (d_db d)) _ C); [| |done].
  { destruct (fullSync x); wsteps.
    - apply wp_os_call; [done|]. intros fs2 Hn2. split; [|split; apply HC'; by destruct d].
      eexists. split; [reflexivity|]. by destruct d.
    - eexists. split; [reflexivity|]. by destruct d. }
  intros rc w (d2 & -> & -> & Hn2 & J2 & X2 & B2). cbn [negb Z.eqb SQLITE_OK]. unfold write32bits.
  wsteps. apply wp_write; [by destruct d2|]. intros fs3 Hn3. split.
  2:{ intros k. destruct (take_short_write (Z.of_nat (length ps)) k) as [-> | ->].
      - unfold write_file. rewrite file_write_nil.
        apply HC'; destruct d2 as [? []]; cbn in *; congruence.
      - apply HC2; destruct d2 as [? []]; cbn in *; [|congruence..].
        rewrite J2, wr_journal0. apply splice_count. }
  cbn [negb Z.eqb SQLITE_OK]. wsteps.
  match goal with |- wp (sqliteOsSync JFD) _ _ ?dd => set (d3 := dd) end.
  assert (J3 : f_data (d_journal d3) =
      journal_header (Z.of_nat (length ps)) (cksumInit x) size ++ records (cksumInit x) ps).
  { subst d3. destruct d2 as [? []]; cbn in *. rewrite J2, wr_journal0. apply splice_count. }
  assert (X3 : d_jexists d3 = d_jexists d) by (subst d3; destruct d2; cbn in *; congruence).
  assert (B3 : f_data (d_db d3) = f_data (d_db d)) by (subst d3; destruct d2; cbn in *; congruence).
  assert (P3 : f_pos (d_journal d3) = length (f_data (d_journal d3))).
  { rewrite J3, length_app, records_size by done. by subst d3; destruct d2. }
  assert (Hn3' : no_err d3) by (subst d3; by destruct d2).
  clearbody d3. apply wp_os_call; [done|]. intros fs4 Hn4.
  split; [|split; apply HC2; destruct d3; cbn in *; congruence].
  cbn [negb Z.eqb SQLITE_OK]. wsteps. cbn [negb Z.eqb SQLITE_OK]. wsteps.
  match goal with |- Q _ (mkWorld ?y ?dd) =>
    replace y with (synced_pager x) by (by destruct x); set (d4 := dd) end.
  destruct (synced_cache_ok x Hok) as [K1 K2].
  apply (HQ (Z.of_nat (length ps)) (length ps)); [by subst d4; destruct d3|].
  split; [|by rewrite drop_all|done|apply look_synced|done|by destruct x|by subst d4; destruct d3].
  apply (synced_writing f ps m s x d); [done|done|subst d4; destruct d3; cbn in *; congruence..].
Qed.

(** * Writing a dirty page back *)

(** Page [p] may be overwritten in the database file. *)
Definition expendable (ps : list Z) (m : nat) (p : Z) : Prop :=
  in_db p -> p ∈ D \/ p ∈ take m ps.

Definition cleaned (p : Z) (x : Pager) : Pager := set_pAll (map_page p (pg_set_dirty false) (pAll x)) x.

Record written (p : Z) (dta : list Z) (d d' : disk) : Prop := {
  wn_db : f_data (d_db d') = splice (f_data (d_db d)) (page_offset p) dta;
  wn_j : d_journal d' = d_journal d;
  wn_je : d_jexists d' = d_jexists d
}.

Lemma cleaned_look p h x q :
  look x p = Some h -> look (cleaned p x) q = if decide (q = p) then Some (pg_set_dirty false h) else look x q.
Proof. intros Hl. apply (looks_map_page p (pg_set_dirty false) h x); done. Qed.

Lemma cleaned_ok p h x : cache_ok x -> sync_ok x -> look x p = Some h ->
  cache_ok (cleaned p x) /\ sync_ok (cleaned p x).
Proof.
  intros Hok Hs Hl. pose proof (cleaned_look p h x) as Hlk.
  assert (Hsame : forall q g, look x q = Some g -> exists g', look (cleaned p x) q = Some g' /\
    nRef g' = nRef g /\ pgNeedSync g' = pgNeedSync g).
  { intros q g Hg. rewrite Hlk by done. case_decide; [subst q; replace g with h by congruence|]; eauto. }
  destruct Hok as [H1 H2 H3 H4 H5 H6]. split; [split|]; try done.
  - cbn. by rewrite map_page_pgno.
  - intros q g. rewrite Hlk by done. case_decide; [|apply H2]. intros [= <-]. subst q. by apply (H2 p h).
  - intros v Hv. destruct (H4 v Hv) as (g & Hg & ?). destruct (Hsame v g Hg) as (g' & ? & ? & ?).
    exists g'. split; [done|congruence].
  - intros v Hv. destruct (H5 v Hv) as (? & g & Hg & ?). destruct (Hsame v g Hg) as (g' & ? & ? & ?).
    split; [done|]. exists g'. split; [done|congruence].
  - cbn [pnRef pAll cleaned set_pAll]. rewrite H6. f_equal. symmetry. apply refd_map. intros g.
    by destruct (pgno g =? p).
  - apply (looks_sync_ok p h (pg_set_dirty false h) x); try done. intros q. by apply Hlk.
Qed.

Lemma written_writing f ps m s x d p h d' :
  writing f ps m s x d -> cache_ok x -> look x p = Some h -> dirty h = true ->
  expendable ps m p -> written p (pgData h) d d' ->
  writing f ps m s (cleaned p x) d' /\ (forall q, 1 <= q -> view (cleaned p x) d' q = view x d q).
Proof.
  intros Hw Hok Hl Hd He [E1 E2 E3]. pose proof Hw as [].
  destruct (c_pages _ Hok p h Hl) as (Hp & Hlen & _).
  assert (Hoth : forall q, 1 <= q -> q <> p -> fpage (f_data (d_db d')) q = fpage (f_data (d_db d)) q).
  { intros q Hq Hne. rewrite E1. apply fpage_splice_other; (done || lia). }
  assert (Hsame : fpage (f_data (d_db d')) p = pgData h).
  { rewrite E1. by apply fpage_splice_same. }
  split.
  2:{ intros q Hq. unfold view. rewrite (cleaned_look p h) by done. case_decide.
      - subst q. by rewrite Hl.
      - destruct (look x q); [done|]. by apply Hoth. }
  destruct (wr_pages0 p h Hl) as (_ & _ & Hdp). destruct (Hdp Hd) as [Hsz Hin].
  destruct wr_len0 as (k & [Hk0 Hk] & Hks).
  assert (Hlen' : length (f_data (d_db d')) = (Z.to_nat (Z.max k p) * PSZ)%nat).
  { rewrite E1, splice_length, decide_False, Hk, Hlen.
    2:{ intros E. rewrite E in Hlen. pose proof PSZ_pos. cbn in Hlen. lia. }
    rewrite page_offset_succ by lia. destruct (Z.max_spec k p) as [[? ->]|[? ->]];
      pose proof PSZ_pos; nia. }
  assert (Hpage : forall q, in_db q -> q <> p -> page (f_data (d_db d')) q = page (f_data (d_db d)) q).
  { intros q [? ?] Hq. rewrite E1. apply page_splice_other; [done|done|congruence|lia|]. rewrite Hk.
    transitivity (Z.to_nat size * PSZ)%nat; [by apply page_offset_le|].
    apply Nat.mul_le_mono_r. lia. }
  split; try done.
  - destruct wr_healthy0. by split.
  - by rewrite E3.
  - by rewrite E2.
  - by rewrite E2.
  - exists (Z.max k p). split; [|cbn; lia]. split; [lia|done].
  - intros q Hq HD Hn. destruct (decide (q = p)) as [->|Hne].
    { destruct (He Hq) as [?|?]; done. }
    rewrite <- (wr_db0 q) by done. by apply Hpage.
  - intros q Hq Hn. rewrite Hpage; [by apply wr_out0|done|]. intros ->. by apply Hn, Hin.
  - intros q g. rewrite (cleaned_look p h) by done. case_decide as E.
    + intros [= <-]. subst q. destruct (wr_pages0 p h Hl) as (P1 & _ & _).
      split; [done|]. split; [|done]. intros _. cbn. by rewrite Hsame.
    + intros Hg. destruct (wr_pages0 q g Hg) as (P1 & P2 & P3). split; [done|]. split; [|done].
      destruct (c_pages _ Hok q g Hg) as (? & _). rewrite Hoth by done. done.
  - intros q Hq. destruct (wr_unsynced0 q Hq) as (g & Hg & Hs). setoid_rewrite (cleaned_look p h); [|done].
    case_decide; [|by eauto]. subst q. exists (pg_set_dirty false h). split; [done|]. cbn. congruence.
  - intros Hdf. destruct (wr_dirtyFile0 Hdf) as (_ & _ & _ & W4). by rewrite (W4 p h Hl) in Hd.
Qed.

Lemma wp_write_head f ps m s x d p h l (Q : Z -> World -> Prop) (C : World -> Prop) :
  no_err d -> writing f ps m s x d -> cache_ok x -> look x p = Some h -> dirty h = true ->
  expendable ps m p ->
  (forall x' d', recoverable d' -> C (mkWorld x' d')) ->
  (forall d', no_err d' -> written p (pgData h) d d' ->
     wp (pager_write_pagelist l) Q C (mkWorld (cleaned p x) d')) ->
  wp (pager_write_pagelist (p :: l)) Q C (mkWorld x d).
Proof.
  intros Hn Hw Hok Hl Hd He HC HQ. cbn [pager_write_pagelist]. wsteps.
  apply (wp_get_page _ h); [done|]. wsteps; [done|].
  destruct (c_pages _ Hok p h Hl) as (Hp & Hlen & _).
  assert (Hne : pgData h <> []).
  { intros E. rewrite E in Hlen. pose proof PSZ_pos. cbn in Hlen. lia. }
  apply wp_write; [by destruct d|]. intros fs Hfs. split.
  - cbn [negb Z.eqb SQLITE_OK]. wsteps. apply HQ; [by destruct d as [[]]|].
    destruct d as [[] []]. split; [|done|done]. cbn. by rewrite file_write_data.
  - intros k. apply HC. set (bs := take _ _).
    destruct (decide (bs = [])) as [E|E].
    { apply (session_recoverable x d); [right; eauto|].
      rewrite E. destruct d as [[] []]. by split. }
    assert (Hbl : (length bs <= PSZ)%nat) by (subst bs; rewrite length_take; lia).
    pose proof Hw as []. destruct wr_len0 as (z & Hz & Hzs).
    assert (Edb : f_data (d_db (write_file FD bs (set_faults fs (set_file FD
      (mk_file (f_data (get_file FD d)) (f_synced (get_file FD d)) (page_offset p)) d)))) =
      splice (f_data (d_db d)) (page_offset p) bs).
    { destruct d as [[] []]. cbn. by rewrite file_write_data. }
    apply (writing_files _ _ _ _ _ _ _ Hw); rewrite ?Edb; [by destruct d as [[] []]..| |].
    { rewrite splice_length, decide_False by done. lia. }
    intros q Hq HD Hn'. destruct (decide (q = p)) as [->|Hqp]; [by destruct (He Hq)|].
    rewrite <- (wr_db0 q) by done. destruct Hq.
    apply page_splice_other; [done|done|congruence|done|].
    transitivity (Z.to_nat size * PSZ)%nat; [by apply page_offset_le|].
    apply (npages_ge z); [done|lia].
Qed.

(** * Recycling a page *)

(** The page [v] is clean and off the free list; nothing a client sees changed. *)
Record recycled (v : Z) (h : PgHdr) (x : Pager) (d : disk) (x' : Pager) (d' : disk) : Prop := {
  ry_live : live x' d';
  ry_look : look x' v = Some h;
  ry_page : nRef h = 0 /\ dirty h = false /\ pgNeedSync h = false;
  ry_free : v ∉ pFree x';
  ry_pnRef : pnRef x' = pnRef x;
  ry_none : forall q, look x q = None -> look x' q = None;
  ry_kept : kept 0 x d x' d'
}.

(** Bookkeeping that no claim depends on. *)
Lemma live_core x x' d :
  live x d -> pAll x' = pAll x -> pFree x' = pFree x -> pFirstSynced x' = pFirstSynced x ->
  pnRef x' = pnRef x -> core x' = core x -> live x' d.
Proof.
  intros [Hok Hs Hse] E1 E2 E3 E4 Hc.
  assert (El : forall q, look x' q = look x q) by (intros; unfold look; by rewrite E1).
  split.
  - destruct Hok as [H1 H2 H3 H4 H5 H6]. split; rewrite ?E1, ?E2, ?E3, ?E4; try done.
    + intros q h. rewrite El. apply H2.
    + intros v. rewrite El. apply H4.
    + intros v. rewrite El. apply H5.
  - destruct Hs as [[? ?]|[? ?]]; [left|right].
    + by rewrite (core_needSync _ _ Hc), (core_journalOpen _ _ Hc).
    + split; [|congruence]. intros q h. rewrite El. eauto.
  - destruct (session_size x d Hse) as (k & Hk & _).
    apply (session_recached x x' d k); [done|by left| |done].
    split; intros q h; rewrite El; [intros ?; left; eauto|intros; eauto].
Qed.

Lemma unlink_live v x d : live x d -> live (unlink v x) d.
Proof.
  intros [Hok Hs Hse]. destruct (unlink_rest v x) as (Ea & Ec & _).
  split; [by apply unlink_ok|by apply unlink_sync|].
  destruct (session_size x d Hse) as (k & Hk & _).
  apply (session_recached x _ d k); [done|by left| |done].
  unfold recached, look. rewrite Ea. split; [intros; left; eauto|eauto].
Qed.

Lemma recycled_end v h ar x d x1 d1 :
  live x1 d1 -> look x1 v = Some h -> nRef h = 0 -> dirty h = false -> pgNeedSync h = false ->
  pnRef x1 = pnRef x -> (forall q, look x q = None -> look x1 q = None) -> kept 0 x d x1 d1 ->
  recycled v h x d (set_nOvfl (nOvfl x1 + 1) (unlink v (if ar : bool then set_alwaysRollback true x1 else x1))) d1.
Proof.
  intros Hlv Hl Hr Hd Hns Hp Hno Hk.
  set (x2 := if ar : bool then set_alwaysRollback true x1 else x1).
  assert (Ha : pAll x2 = pAll x1 /\ pnRef x2 = pnRef x1) by (subst x2; by destruct ar).
  assert (Hlv2 : live x2 d1) by (apply (live_core x1); [done|subst x2; by destruct ar..]).
  destruct (unlink_rest v x2) as (Eu & Ec & En & _).
  assert (El : forall q, look (set_nOvfl (nOvfl x1 + 1) (unlink v x2)) q = look x1 q).
  { intros q. unfold look. destruct Ha as [<- _]. by rewrite <- Eu. }
  split; [|by rewrite El|done| | | |].
  - apply (live_core (unlink v x2)); [by apply unlink_live|done..].
  - apply (unlink_not_free v x2).
  - transitivity (pnRef (unlink v x2)); [done|]. rewrite En. by destruct Ha as [_ ->].
  - intros q. rewrite El. apply Hno.
  - intros q Hq Hq1. unfold refcount, view, isdirty. rewrite El. by apply Hk.
Qed.

Lemma synced_kept f ps m s x d x' d' :
  synced f ps m s x d x' d' -> kept 0 x d x' d' /\ (forall q, look x q = None -> look x' q = None).
Proof.
  intros []. split.
  - intros q _ _. unfold refcount, view, isdirty. rewrite sy_look0, sy_db0. by destruct (look x q).
  - intros q E. by rewrite sy_look0, E.
Qed.

Lemma synced_live f ps m s x d x' d' : synced f ps m s x d x' d' -> live x' d'.
Proof. intros []. split; [apply sy_cache0..|]. right. eauto. Qed.

(** A dirty page of a session belongs to a transaction. *)
Lemma session_dirty x d v h : session x d -> look x v = Some h -> dirty h = true ->
  exists f ps m s, writing f ps m s x d.
Proof.
  intros [H|H] Hl Hd; [|done]. destruct (rd_pages _ _ H v h Hl) as [(? & _) _]. congruence.
Qed.

(** A dirty page that needs no sync may be written back. *)
Lemma synced_expendable f ps m s x d v h :
  writing f ps m s x d -> look x v = Some h -> dirty h = true -> pgNeedSync h = false ->
  expendable ps m v.
Proof.
  intros [] Hl Hd Hns Hin. destruct (wr_pages0 v h Hl) as (_ & _ & Hdp).
  destruct (Hdp Hd) as [_ Hs]. destruct (wr_s0 v (Hs Hin)) as [_ [Hps|?]]; [|by left].
  right. rewrite <- (take_drop m ps) in Hps. apply elem_of_app in Hps as [?|Hps]; [done|].
  destruct (wr_unsynced0 v Hps) as (g & Hg & ?). congruence.
Qed.

Lemma wp_recycle_victim v h x d x1 d1 (Q : Z + Z -> World -> Prop) (C : World -> Prop) :
  no_err d1 -> live x1 d1 -> look x1 v = Some h -> nRef h = 0 -> pgNeedSync h = false ->
  pnRef x1 = pnRef x -> (forall q, look x q = None -> look x1 q = None) -> kept 0 x d x1 d1 ->
  (forall x' d', recoverable d' -> C (mkWorld x' d')) ->
  (forall v h x' d', no_err d' -> recycled v h x d x' d' -> Q (inl v) (mkWorld x' d')) ->
  wp (h ← get_page v;
      assert (nRef h =? 0);;
      rc ← (if dirty h then
              assert (negb (pgNeedSync h));; pager_write_pagelist [v]
            else mret SQLITE_OK);
      if negb (rc =? SQLITE_OK) then
        sqlitepager_rollback;; mret (inr SQLITE_IOERR)
      else
        h ← get_page v;
        assert (negb (dirty h));;
        mwhen (pgAlwaysRollback h) (upd (set_alwaysRollback true));;
        unlink_free v;;
        upd (fun x => set_nOvfl (nOvfl x + 1) x);;
        mret (inl v)) Q C (mkWorld x1 d1).
Proof.
  intros Hn Hlv Hl Hr Hns Hpn Hno Hk HC HQ. wsteps.
  apply (wp_get_page _ h); [done|]. wsteps; [by rewrite Hr|].
  assert (Hfin : forall y g dy, no_err dy -> live y dy -> look y v = Some g -> nRef g = 0 ->
      pgNeedSync g = false -> dirty g = false -> pnRef y = pnRef x ->
      (forall q, look x q = None -> look y q = None) -> kept 0 x d y dy ->
      wp (h ← get_page v;
          assert (negb (dirty h));;
          mwhen (pgAlwaysRollback h) (upd (set_alwaysRollback true));;
          unlink_free v;;
          upd (fun x => set_nOvfl (nOvfl x + 1) x);;
          mret (inl v)) Q C (mkWorld y dy)).
  { intros y g dy H1 H2 H3 H4 H5 H6 H7 H8 H9. wsteps. apply (wp_get_page _ g); [done|].
    wsteps; [by rewrite H6|].
    pose proof (recycled_end v g (pgAlwaysRollback g) x d y dy H2 H3 H4 H6 H5 H7 H8 H9) as HR.
    apply wp_when; intros E; rewrite E in HR; wsteps; apply wp_unlink_free; wsteps.
    - eapply HQ; [done|].
      assert (Eo : nOvfl (unlink v (set_alwaysRollback true y)) = nOvfl y)
        by (unfold unlink; destruct (bool_decide _); by destruct y).
      rewrite Eo. exact HR.
    - eapply HQ; [done|].
      assert (Eo : nOvfl (unlink v y) = nOvfl y)
        by (unfold unlink; destruct (bool_decide _); by destruct y).
      rewrite Eo. exact HR. }
  destruct (dirty h) eqn:Hd.
  2:{ wsteps. cbn [negb Z.eqb SQLITE_OK]. by apply (Hfin x1 h). }
  wsteps; [by rewrite Hns|].
  destruct Hlv as [Hok Hs Hse].
  destruct (session_dirty x1 d1 v h Hse Hl Hd) as (f & ps & m & s & Hw).
  pose proof (synced_expendable f ps m s x1 d1 v h Hw Hl Hd Hns) as He.
  eapply wp_write_head; [done|done|done|done|done|done|done|]. intros d2 Hn2 Hwr.
  cbn [pager_write_pagelist]. wsteps. cbn [negb Z.eqb SQLITE_OK].
  destruct (written_writing f ps m s x1 d1 v h d2 Hw Hok Hl Hd He Hwr) as [Hw2 Hv2].
  destruct (cleaned_ok v h x1 Hok Hs Hl) as [Hok2 Hs2].
  assert (Hlk : look (cleaned v x1) v = Some (pg_set_dirty false h)).
  { rewrite (cleaned_look v h) by done. by rewrite decide_True. }
  apply (Hfin _ (pg_set_dirty false h)); [done| |done|done|done|done|done| |].
  - split; [done|done|]. right. eauto.
  - intros q E. rewrite (cleaned_look v h) by done. rewrite decide_False; [by apply Hno|].
    intros ->. apply Hno in E. congruence.
  - apply (kept_trans _ _ _ x1 d1); [done|]. intros q _ Hq.
    split; [|split; [by apply Hv2|]].
    + unfold refcount. rewrite (cleaned_look v h) by done. case_decide; [|done]. subst q. by rewrite Hl.
    + unfold refcount, isdirty. rewrite (cleaned_look v h) by done. case_decide; [|done].
      subst q. rewrite Hl. lia.
Qed.

Lemma wp_recycle x d (Q : Z + Z -> World -> Prop) (C : World -> Prop) :
  no_err d -> live x d -> pFree x <> [] ->
  (forall x' d', recoverable d' -> C (mkWorld x' d')) ->
  (forall v h x' d', no_err d' -> recycled v h x d x' d' -> Q (inl v) (mkWorld x' d')) ->
  wp get_recycle Q C (mkWorld x d).
Proof.
  intros Hn Hlv Hfree HC HQ. unfold get_recycle. wsteps.
  destruct Hlv as [Hok Hs Hse].
  destruct (pFirstSynced x) as [v|] eqn:Hfs.
  - wsteps. destruct (c_fs _ Hok v Hfs) as (Hv & h & Hl & Hns). apply wp_unbind.
    eapply wp_recycle_victim; [done|by split|done| |done|done|done|apply kept_refl|done|done].
    by apply (free_nRef x v).
  - assert (exists f ps m s, writing f ps m s x d) as (f & ps & m & s & Hw).
    { destruct Hse as [Hrd|?]; [|done]. destruct Hs as [[_ Hjo]|[_ E]].
      - rewrite (rd_jo _ _ Hrd) in Hjo. done.
      - rewrite Hfs in E. by destruct (pFree x). }
    wsteps. eapply wp_syncJournal; [done|done|done|done|done|]. intros f' m' x' d' Hn' Hsy.
    cbn [negb Z.eqb SQLITE_OK]. wsteps.
    pose proof Hsy as []. destruct sy_rest0 as (Ef & En & _). rewrite Ef.
    destruct (pFree x) as [|v l] eqn:E; [done|]. wsteps.
    destruct (c_free _ Hok v) as (h & Hl & Hr); [rewrite E; by left|].
    destruct (synced_kept _ _ _ _ _ _ _ _ Hsy) as [Hk Hno]. apply wp_unbind.
    eapply (wp_recycle_victim v (pg_set_pgNeedSync false h) x d);
      [done|by eapply synced_live| |done|done|done|done|done|done|done].
    by rewrite sy_look0, Hl.
Qed.

(** * Getting a page *)

(** Page [p] is referenced [n] times and shows what it showed before. *)
Record gotten (p n : Z) (x : Pager) (d : disk) (x' : Pager) (d' : disk) : Prop := {
  gt_live : live x' d';
  gt_kept : kept p x d x' d';
  gt_refs : refcount x' p = n;
  gt_view : view x' d' p = view x d p;
  gt_dirty : isdirty x' p = isdirty x p;
  gt_pnRef : 0 < pnRef x'
}.

(** The cache after the content of the new page [p] has arrived. *)
Definition loaded (p k : Z) (d : disk) (x : Pager) : Pager :=
  set_pAll (map_page p (pg_set_pgData (fpage (f_data (d_db d)) p)) (pAll x))
    (set_dbSize (known_size k x) x).

Lemma loaded_look p k d x dta ar y q :
  look x p = Some (fresh p y dta ar) ->
  look (loaded p k d x) q =
    if decide (q = p) then Some (fresh p y (fpage (f_data (d_db d)) p) ar) else look x q.
Proof.
  intros Hl. unfold look in *. cbn. rewrite find_page_map_page by done. case_decide; [|done].
  by rewrite Hl.
Qed.

Lemma loaded_live p k d x x1 dta ar :
  session x d -> npages k (f_data (d_db d)) -> cache_ok x1 -> sync_ok x1 -> core x1 = core x ->
  look x p = None -> look x1 p = Some (fresh p x dta ar) ->
  (forall q h, q <> p -> look x1 q = Some h -> look x q = Some h) ->
  (forall q h, look x q = Some h -> pgNeedSync h = true -> look x1 q = Some h) ->
  live (loaded p k d x1) d.
Proof.
  intros Hse Hk Hok Hs Hc Hnew Hl Hold Hns.
  assert (Hfree : p ∉ pFree x1).
  { intros Hin. pose proof (free_nRef _ _ _ Hok Hin Hl). done. }
  pose proof (loaded_look p k d x1 dta ar x) as Hlk.
  split.
  - pose proof (upd_page_ok x1 p _ (pg_set_pgData (fpage (f_data (d_db d)) p)) (pnRef x1) Hok Hl Hfree)
      as [H1 H2 H3 H4 H5 H6]; [done|apply fpage_length|done|done|done|].
    split; try done.
  - apply (looks_sync_ok p _ (fresh p x (fpage (f_data (d_db d)) p) ar) x1 _ Hl); try done.
    intros q. by apply Hlk.
  - assert (Hks : known_size k x1 = known_size k x).
    { unfold known_size. by core_same dbSize Hc. }
    apply (session_recached x _ d k); [done| |split|done].
    + right. rewrite <- Hks. transitivity (core (set_dbSize (known_size k x1) x1)); [by destruct x1|].
      destruct x, x1. unfold core in *. cbn in *. by simplify_eq.
    + intros q h. rewrite Hlk by done. case_decide as E; [|by eauto]. subst q.
      intros [= <-]. by right.
    + intros q g Hg Hn. setoid_rewrite Hlk; [|done]. case_decide; [congruence|]. eauto.
Qed.

Lemma healthy_installable p x d :
  session x d -> look x p = None -> 1 <= p -> installable p x.
Proof.
  intros Hse Hn Hp. destruct (hl_plain _ (session_healthy x d Hse)) as (_ & _ & ? & ?).
  split; [done|done|done|]. destruct Hse as [[]|(f & ps & m & s & [])]; congruence.
Qed.

Lemma reading_known_size k x d :
  reading x d -> npages k (f_data (d_db d)) -> known_size k x = k.
Proof.
  intros H Hk. assert (k = size) as ->.
  { eapply npages_inj; [done|]. rewrite (rd_db _ _ H). apply orig_npages. }
  unfold known_size. destruct (rd_dbs _ _ H); case_Zb; lia.
Qed.

Lemma wp_bring_new p x d (Q : Z -> World -> Prop) (C : World -> Prop) :
  no_err d -> live x d -> look x p = None -> 1 <= p -> p <= 4194303 \/ reading x d ->
  (forall x' d', recoverable d' -> C (mkWorld x' d')) ->
  (forall x' d', no_err d' -> gotten p 1 x d x' d' -> Q SQLITE_OK (mkWorld x' d')) ->
  wp (get_install p None;; get_load p) Q C (mkWorld x d).
Proof.
  intros Hn [Hok Hs Hse] Hnew Hp Hpm HC HQ. apply wp_bind.
  apply wp_install_none; [done|done|by eapply healthy_installable|].
  intros x1 Hok1 Hs1 Hc1 Hpn1 Hlk1.
  destruct (session_size x d Hse) as (k & Hk & Hsk & Hkd & Hst & _).
  assert (Hl1 : look x1 p = Some (fresh p x zero_page false)) by (rewrite Hlk1; by rewrite decide_True).
  eapply (wp_load k); [done|done| | | |exact Hl1|done| |apply zero_page_length|apply Hok1| |].
  - by core_same state Hc1.
  - core_same errMask Hc1. apply (session_healthy _ _ Hse).
  - by core_same dbSize Hc1.
  - destruct Hpm as [?|Hrd]; [by left|right].
    transitivity (known_size k x); [unfold known_size; by core_same dbSize Hc1|].
    by apply (reading_known_size k x d).
  - intros d' Hn' Hsf. fold (loaded p k d x1). pose proof (fun q => loaded_look p k d x1 _ _ _ q Hl1) as HL.
    apply HQ; [done|]. split.
    + assert (Hlv : live (loaded p k d x1) d).
      { eapply loaded_live; [done..|exact Hl1| |].
        - intros q h Hq. rewrite Hlk1, decide_False by done. done.
        - intros q h Hq _. rewrite Hlk1, decide_False; [done|congruence]. }
      destruct Hlv. split; [done|done|]. by eapply session_same_files.
    + intros q Hq Hq1. unfold refcount, view, isdirty. rewrite HL, decide_False by done.
      rewrite Hlk1, decide_False by done. by destruct Hsf as [-> _ _].
    + unfold refcount. rewrite HL. by rewrite decide_True.
    + unfold view. rewrite HL, Hnew. by rewrite decide_True.
    + unfold isdirty. rewrite HL, Hnew. by rewrite decide_True.
    + done.
  - intros x' d' Hsf. apply HC. by eapply session_recoverable.
Qed.

Lemma wp_bring_recycled p v h x0 d0 x d (Q : Z -> World -> Prop) (C : World -> Prop) :
  no_err d -> recycled v h x0 d0 x d -> look x0 p = None -> 1 <= p -> p <= 4194303 ->
  0 <= pnRef x0 ->
  (forall x' d', recoverable d' -> C (mkWorld x' d')) ->
  (forall x' d', no_err d' -> gotten p 1 x0 d0 x' d' -> Q SQLITE_OK (mkWorld x' d')) ->
  wp (get_install p (Some v);; get_load p) Q C (mkWorld x d).
Proof.
  intros Hn [[Hok Hs Hse] Hlv (Hr & Hd & Hns) Hvf Hpn Hno Hk0] Hnew0 Hp Hpm Hp0 HC HQ. apply wp_bind.
  assert (Hnew : look x p = None) by by apply Hno.
  apply (wp_install_some p v h); [done|done|by eapply healthy_installable|done..|].
  intros x1 ar Hok1 Hs1 Hc1 Hpn1 Hlk1.
  destruct (session_size x d Hse) as (k & Hk & Hsk & Hkd & Hst & _).
  destruct (c_pages _ Hok v h Hlv) as (Hv1 & Hlen & _).
  assert (Hl1 : look x1 p = Some (fresh p x (pgData h) ar)) by (rewrite Hlk1; by rewrite decide_True).
  eapply (wp_load k); [done|done| | | |exact Hl1|done|by left|exact Hlen|apply Hok1| |].
  - by core_same state Hc1.
  - core_same errMask Hc1. apply (session_healthy _ _ Hse).
  - by core_same dbSize Hc1.
  - intros d' Hn' Hsf. fold (loaded p k d x1). pose proof (fun q => loaded_look p k d x1 _ _ _ q Hl1) as HL.
    assert (Hvp : v <> p) by congruence.
    assert (Hcoh : pgData h = fpage (f_data (d_db d)) v).
    { destruct Hse as [Hse|(f & ps & m & s & Hse)].
      - by apply (rd_pages _ _ Hse v h).
      - destruct (wr_pages _ _ _ _ _ _ Hse v h Hlv) as (_ & E & _). by apply E. }
    apply HQ; [done|]. split.
    + assert (Hlv' : live (loaded p k d x1) d).
      { eapply loaded_live; [done..|exact Hl1| |].
        - intros q g Hq. rewrite Hlk1, decide_False by done. by case_decide.
        - intros q g Hq Hqs. rewrite Hlk1, decide_False, decide_False; congruence. }
      destruct Hlv'. split; [done|done|]. by eapply session_same_files.
    + apply (kept_trans _ _ _ x d).
      { intros q _ Hq. apply Hk0; lia. }
      intros q Hq Hq1. unfold refcount, view, isdirty. rewrite HL, decide_False by done.
      rewrite Hlk1, decide_False by done. destruct Hsf as [-> _ _].
      case_decide; [|done]. subst q. rewrite Hlv, Hr, Hcoh. done.
    + unfold refcount. rewrite HL. by rewrite decide_True.
    + destruct (Hk0 p) as (_ & Hv0 & _); [lia|done|]. rewrite <- Hv0.
      unfold view. rewrite HL, Hnew. by rewrite decide_True.
    + unfold isdirty. rewrite HL, Hnew0. by rewrite decide_True.
    + done.
  - intros x' d' Hsf. apply HC. by eapply session_recoverable.
Qed.

(** The branches of [sqlitepager_get] behind the lock. *)
Lemma wp_get_locked (first : bool) p x d (Q : Z -> World -> Prop) (C : World -> Prop) :
  no_err d -> live x d -> 1 <= p -> p <= 4194303 \/ reading x d /\ pAll x = [] ->
  0 <= pnRef x -> (first = true -> pAll x = []) ->
  (forall x' d', recoverable d' -> C (mkWorld x' d')) ->
  (forall x' d', no_err d' -> gotten p (refcount x p + 1) x d x' d' -> Q SQLITE_OK (mkWorld x' d')) ->
  wp (pPg ← (if first then mret None else pager_lookup p);
      match pPg with
      | Some _ =>
          upd (fun x => set_nHit (nHit x + 1) x);;
          page_ref p;;
          mret SQLITE_OK
      | None =>
          upd (fun x => set_nMiss (nMiss x + 1) x);;
          x ← get (fun x => x);
          if (nPage x <? mxPage x) || bool_decide (pFree x = []) then
            ok ← on_disk sqliteMalloc;
            if negb ok then
              pager_unwritelock;;
              or_errMask PAGER_ERR_MEM;;
              mret SQLITE_NOMEM
            else get_install p None;; get_load p
          else
            victim ← get_recycle;
            match victim with
            | inr rc => mret rc
            | inl v => get_install p (Some v);; get_load p
            end
      end) Q C (mkWorld x d).
Proof.
  intros Hn Hlv Hp Hpm Hpn He HC HQ. wsteps.
  apply (wp_mono _ (fun o w => w = mkWorld x d /\ o = look x p) _ C); [| |done].
  { destruct first; wsteps; [|done].
    split; [done|]. by rewrite look_nil by by apply He. }
  intros o w [-> ->]. destruct (look x p) as [h|] eqn:Hl.
  - wsteps. assert (Hlv' : live (set_nHit (nHit x + 1) x) d) by by apply (live_core x).
    apply (wp_ref p h); [done|done|]. intros x' Hr. wsteps. apply HQ; [done|].
    unfold refcount at 1. rewrite Hl. by destruct Hr.
  - wsteps. assert (Hlv' : live (set_nMiss (nMiss x + 1) x) d) by by apply (live_core x).
    assert (Hrc : refcount x p + 1 = 1) by (unfold refcount; by rewrite Hl).
    rewrite Hrc in HQ. destruct (_ || _) eqn:E.
    + wsteps. apply wp_malloc; [done|]. intros fs Hfs. split.
      2:{ apply HC. eapply session_recoverable; [apply Hlv|apply same_files_faults]. }
      cbn [negb]. eapply wp_bring_new; [done| |done|done| |done|].
      { destruct Hlv'. split; [done|done|]. eapply session_same_files; [done|apply same_files_faults]. }
      { destruct Hpm as [?|[Hrd _]]; [by left|right]. destruct Hrd.
        split; try done; try (destruct rd_healthy0; by split); by destruct d. }
      intros x' d' Hn' [G1 G2 G3 G4 G5 G6]. apply HQ; [done|].
      assert (Ef : f_data (d_db (set_faults fs d)) = f_data (d_db d)) by by destruct d.
      unfold kept, view in *. rewrite Ef in *. by split.
    + apply orb_false_iff in E as [_ E]. apply bool_decide_eq_false in E.
      wsteps. apply wp_recycle; [done|done|done|done|]. intros v h x1 d1 Hn1 Hry.
      assert (Hps : p <= 4194303).
      { destruct Hpm as [?|[_ Ha]]; [done|]. destruct E. apply elem_of_nil_inv. intros q Hq.
        destruct (c_free _ (lv_cache _ _ Hlv) q Hq) as (g & Hg & _). by rewrite look_nil in Hg. }
      eapply (wp_bring_recycled p v h); [done|exact Hry|done|done|done|done|done|].
      intros x' d' Hn' [G1 G2 G3 G4 G5 G6]. apply HQ; [done|]. by split.
Qed.

(** [sqlitepager_get] while pages are held. *)
Lemma wp_get_live p x d (Q : Z -> World -> Prop) (C : World -> Prop) :
  no_err d -> live x d -> 1 <= p <= 4194303 -> 0 < pnRef x ->
  (forall x' d', recoverable d' -> C (mkWorld x' d')) ->
  (forall x' d', no_err d' -> gotten p (refcount x p + 1) x d x' d' -> Q SQLITE_OK (mkWorld x' d')) ->
  wp (sqlitepager_get p) Q C (mkWorld x d).
Proof.
  intros Hn Hlv [Hp Hpm] Hpn HC HQ. unfold sqlitepager_get. wsteps; [lia|].
  rewrite (hl_err _ (session_healthy x d (lv_session _ _ Hlv))).
  change (Z.land 0 (Z.lnot PAGER_ERR_FULL) =? 0) with true. cbn [negb].
  apply wp_bind, wp_get. cbn [pg]. rewrite (proj2 (Z.eqb_neq (pnRef x) 0)) by lia.
  apply wp_bind, wp_ret, (wp_get_locked false); (done || lia).
Qed.

(** * Rollback *)

Lemma recoverable_ext d d' :
  f_data (d_db d') = f_data (d_db d) -> f_data (d_journal d') = f_data (d_journal d) ->
  d_jexists d' = d_jexists d -> recoverable d -> recoverable d'.
Proof.
  intros E1 E2 E3 []; [eapply rec_clean|eapply rec_header|eapply rec_journal];
    rewrite ?E1, ?E2, ?E3; done.
Qed.

Lemma restored_cache_nil l : restored_cache orig [] l = l.
Proof.
  unfold restored_cache. rewrite <- map_id. apply map_ext. intros h.
  by rewrite decide_False by apply not_elem_of_nil.
Qed.

Lemma refetched_clean db l : Forall (fun h => dirty h = false) l -> map (refetched size db) l = l.
Proof.
  induction 1 as [|h l Hh Hl IH]; [done|]. cbn [map]. rewrite IH. unfold refetched. by rewrite Hh.
Qed.

(** The files of a running transaction belong to a pager [x] with the same core;
    its pages may have been thrown away. *)
Lemma wp_rollback f ps m s x0 x d (Q : Z -> World -> Prop) (C : World -> Prop) :
  no_err d -> writing f ps m s x0 d -> core x = core x0 ->
  NoDup (map pgno (pAll x)) -> Forall (fun h => 1 <= pgno h) (pAll x) -> rollbackable (pAll x) ->
  (dirtyFile x0 = false -> Forall (fun h => dirty h = false) (pAll x)) ->
  (forall x' d', recoverable d' -> C (mkWorld x' d')) ->
  (forall x' d', no_err d' -> rolled_back orig size D x x' d' ->
     map page_view (pAll x') =
       map page_view (map (refetched size (f_data (d_db d'))) (restored_cache orig ps (pAll x))) ->
     Q SQLITE_OK (mkWorld (set_dbSize (-1) x') d')) ->
  wp sqlitepager_rollback Q C (mkWorld x d).
Proof.
  intros Hn Hw Hc Hnd Hpos Hrb Hcl HC HQ. pose proof Hw as [].
  assert (Hh : healthy x) by (apply (healthy_core x0 x (dbSize x0)); [by destruct x0|done]).
  assert (Hst : state x = SQLITE_WRITELOCK) by (by core_same state Hc).
  assert (Hjo : journalOpen x = true) by (by core_same journalOpen Hc).
  assert (Hck : ckptInUse x = false) by apply (hl_plain _ Hh).
  unfold sqlitepager_rollback. wsteps. rewrite Hjo, orb_false_r.
  destruct (dirtyFile x) eqn:Hdf; cbn [negb].
  - wsteps. rewrite (hl_err _ Hh), Hst. change (0 =? 0) with true.
    change (SQLITE_WRITELOCK =? SQLITE_WRITELOCK) with true. cbn [negb andb]. wsteps.
    destruct wr_len0 as (k & Hk & Hks).
    eapply (wp_playback orig size D Hsize Horig true f (cksumInit x0) ps [] m); try done.
    + by rewrite app_nil_r.
    + simpl. lia.
    + by eapply counted_mode.
    + apply (npages_ge k); [done|lia].
    + left. by core_same origDbSize Hc.
    + intros x' d' Hn' Hrbk Hv. cbn [negb Z.eqb SQLITE_OK]. wsteps. apply HQ; [done|done|].
      unfold played in Hv. rewrite orb_true_r in Hv. by rewrite take_ge in Hv.
  - assert (Hdf0 : dirtyFile x0 = false) by (rewrite <- Hdf; symmetry; exact (f_equal dirtyFile Hc)).
    destruct (wr_dirtyFile0 Hdf0) as (_ & -> & Hl & _).
    assert (Hi : intact [] (f_data (d_db d))) by (by rewrite take_nil in wr_db0).
    wsteps. apply wp_unwritelock; [done..| |].
    + intros x' d' Hu. apply HC. eapply unlocking_recoverable; [done|done| |done].
      eapply (session_recoverable x0); [right; eauto|apply same_files_refl].
    + intros x' d' Hn' Hu Hje Hlk [U1 U2 U3 Ud U6 U7 U4 U5 U8]. wsteps. apply HQ; [done| |].
      * destruct Hu as [E _].
        split; [done|by rewrite E|by rewrite E|done..|by right|done|done|done|done].
      * rewrite restored_cache_nil, refetched_clean by auto. done.
Qed.

(** * The end of a session *)

Lemma wp_reset x0 x d (Q : unit -> World -> Prop) (C : World -> Prop) :
  no_err d -> session x0 d -> core x = core x0 ->
  (forall x' d', recoverable d' -> C (mkWorld x' d')) ->
  (forall x' d', no_err d' -> rested x' d' -> recoverable d' -> Q tt (mkWorld x' d')) ->
  wp pager_reset Q C (mkWorld x d).
Proof.
  intros Hn Hse Hc HC HQ. unfold pager_reset. wsteps.
  assert (Hh : healthy x).
  { apply (healthy_core x0 x (dbSize x0)); [by destruct x0|by eapply session_healthy]. }
  assert (Hfin : forall y d1, no_err d1 -> recoverable d1 -> healthy y -> journalOpen y = false ->
    aInJournal y = None -> pAll y = [] -> pFree y = [] -> pFirstSynced y = None ->
    d_jexists d1 = false ->
    wp (on_disk sqliteOsUnlock;;
        upd (fun x => set_state SQLITE_UNLOCK (set_dbSize (-1) (set_pnRef 0 x)));;
        jo ← get journalOpen;
        assert (negb jo)) Q C (mkWorld y d1)).
  { intros y d1 Hn1 Hr1 Hhy Hjy Hiy Hay Hfy Hfsy Hoy. wsteps. apply wp_os_call; [done|].
    intros fs Hfs.
    assert (HR : forall l, recoverable (set_lock l (set_faults fs d1)) /\ recoverable (set_faults fs d1)).
    { intros l. split; apply (recoverable_ext d1); by destruct d1. }
    destruct (HR NoLock) as [R1 R2]. split; [|split; by apply HC]. wsteps.
    { cbn. by rewrite Hjy. }
    apply HQ; [by destruct d1| |done]. split; try done; [destruct Hhy; by split|].
    right. by destruct d1. }
  cbn [state set_pFree set_pFirstSynced set_pAll set_nPage].
  destruct Hse as [Hrd|(f & ps & m & s & Hw)].
  - pose proof (session_recoverable x0 d d (or_introl Hrd) (same_files_refl d)) as Hrec.
    destruct Hrd. replace (state x) with SQLITE_READLOCK by (by core_same state Hc).
    change (SQLITE_WRITELOCK <=? SQLITE_READLOCK) with false. apply wp_ret, Hfin; try done.
    + destruct Hh. by split.
    + cbn. by core_same journalOpen Hc.
    + cbn. by core_same aInJournal Hc.
  - pose proof Hw as []. replace (state x) with SQLITE_WRITELOCK by (by core_same state Hc).
    change (SQLITE_WRITELOCK <=? SQLITE_WRITELOCK) with true. cbn [mwhen]. wsteps.
    eapply (wp_rollback f ps m s x0); [done|done| | | | | |done|].
    + rewrite <- Hc. by destruct x.
    + constructor.
    + by apply Forall_nil.
    + by apply Forall_nil.
    + intros _. by apply Forall_nil.
    + intros x' d' Hn' Hrb Hv. apply wp_ret. destruct Hrb. cbn in Hv.
      rename rb_cfg into Hcfg. unfold cfg in Hcfg. cbn in Hcfg. simplify_eq.
      assert (Hax : pAll x' = []) by by destruct (pAll x').
      apply Hfin; try done.
      * by apply rec_clean.
      * destruct Hh. split; cbn; [congruence..|]. by apply rb_plain.
Qed.

Lemma wp_unref_live p h x d (Q : Z -> World -> Prop) (C : World -> Prop) :
  no_err d -> live x d -> look x p = Some h -> 0 < nRef h ->
  (forall x' d', recoverable d' -> C (mkWorld x' d')) ->
  (forall x', rereferenced p (nRef h - 1) x d x' -> Q SQLITE_OK (mkWorld x' d)) ->
  (forall x' d', nRef h = 1 -> pnRef x = 1 -> no_err d' -> rested x' d' -> recoverable d' ->
     Q SQLITE_OK (mkWorld x' d')) ->
  wp (sqlitepager_unref p) Q C (mkWorld x d).
Proof.
  intros Hn Hlv Hl Hr HC HQ HR. pose proof Hlv as [Hok Hs Hse].
  apply (wp_unref p h); [done..| |].
  - intros x' H1 H2 H3 H4 H5. apply HQ. apply (looks_rereferenced p h); auto.
  - intros x' Hc Hr1 Hp1. apply (wp_reset x); [done..|]. intros x2 d2 ? ? ?. by apply HR.
Qed.

End Session.

(** * Entering a session: the shared lock and a hot journal

    What is in the file afterwards is the content of the new session; it agrees
    with the content before on every page that has not been given up. *)
Section Enter.

Context (orig : list Z) (size : Z) (D : gset Z).
Context (Hsize : 0 <= size <= 1073741823).
Context (Horig : length orig = (Z.to_nat size * PSZ)%nat).

Definition agrees (o : list Z) : Prop :=
  length o = length orig /\ forall p, in_db size p -> p ∉ D -> page o p = page orig p.

Lemma agrees_intact db :
  length db = (Z.to_nat size * PSZ)%nat -> intact orig size D [] db -> agrees db.
Proof.
  intros Hl Hi. split; [congruence|]. intros p Hp HD. apply Hi; [done|done|apply not_elem_of_nil].
Qed.

(** The state in which [sqlitepager_get] goes on. *)
Record entered (x : Pager) (d : disk) : Prop := {
  en_agrees : agrees (f_data (d_db d));
  en_live : live (f_data (d_db d)) size D x d;
  en_reading : reading (f_data (d_db d)) size x d;
  en_empty : pAll x = [] /\ pnRef x = 0
}.

Lemma rested_recoverable_clean x d d' :
  recoverable orig size D d -> d_jexists d = false -> same_files d d' -> rested x d ->
  entered (set_state SQLITE_READLOCK x) d'.
Proof.
  intros [Hj Hl Hi|?|?] Hj' [E1 _ E3] [Hh ? (Ha & Hf & Hfs & Hp) ? ? ? ?]; try congruence.
  assert (Hrd : reading (f_data (d_db d')) size (set_state SQLITE_READLOCK x) d').
  { split; try done; rewrite ?E3; try done.
    - destruct Hh. by split.
    - by left.
    - intros q h. by rewrite look_nil. }
  destruct (cache_ok_empty (set_state SQLITE_READLOCK x)) as [K1 K2]; [done..|].
  split; [apply agrees_intact; by rewrite E1|split; [done|done|by left]|done|done].
Qed.

(** A complete rollback of a pager without pages. *)
Lemma rolled_back_entered x d y x' d' :
  rested x d -> cfg y = cfg x -> plain y -> dbSize y = -1 -> rolled_back orig size D y x' d' ->
  map page_view (pAll x') = [] -> entered x' d'.
Proof.
  intros [Hh ? (Ha & Hf & Hfs & Hp) ? ? ? Ho] Hc Hpl Hdy Hrb Hv. destruct Hrb.
  assert (Ha' : pAll x' = []) by by destruct (pAll x').
  rewrite Hc in rb_cfg. unfold cfg in rb_cfg. simplify_eq.
  assert (Hrd : reading (f_data (d_db d')) size x' d').
  { split; try done.
    - destruct Hh. split; [congruence..|]. by apply rb_plain.
    - rewrite Hdy in rb_dbs. tauto.
    - intros q h. by rewrite look_nil. }
  destruct (cache_ok_empty x') as [K1 K2]; [congruence..|].
  split; [by apply agrees_intact|split; [done|done|by left]|done|split; congruence].
Qed.

Lemma wp_first_lock x d (Q : option Z -> World -> Prop) (C : World -> Prop) :
  no_err d -> rested x d -> recoverable orig size D d ->
  (forall x' d', recoverable orig size D d' -> C (mkWorld x' d')) ->
  (forall x' d', no_err d' -> entered x' d' -> Q None (mkWorld x' d')) ->
  wp get_first_lock Q C (mkWorld x d).
Proof.
  intros Hn Hre Hrec HC HQ. unfold get_first_lock. wsteps.
  apply wp_os_call; [done|]. intros fs1 Hn1.
  split; [|split; apply HC; apply (recoverable_ext orig size D d); by destruct d].
  cbn [negb Z.eqb SQLITE_OK]. wsteps. apply wp_file_exists. cbn [useJournal set_state].
  rewrite (hl_uj _ (re_healthy _ _ Hre)).
  replace (d_jexists (set_lock ReadLock (set_faults fs1 d))) with (d_jexists d) by by destruct d.
  destruct (d_jexists d) eqn:Hj; cbn [andb negb]; wsteps.
  2:{ apply HQ; [by destruct d|]. by apply (rested_recoverable_clean x d); [..|destruct d|]. }
  apply wp_os_call; [by destruct d|]. intros fs2 Hn2.
  split; [|split; apply HC; apply (recoverable_ext orig size D d); by destruct d].
  cbn [negb Z.eqb SQLITE_OK]. wsteps.
  apply wp_open_readonly; [by destruct d|by destruct d|]. intros fs3 Hn3.
  split; [|split; apply HC; apply (recoverable_ext orig size D d); by destruct d].
  cbn [negb Z.eqb SQLITE_OK]. wsteps.
  match goal with |- wp _ _ _ (mkWorld ?y ?dd) => set (x1 := y); set (d1 := dd) end.
  assert (Hd1 : f_data (d_db d1) = f_data (d_db d) /\ f_data (d_journal d1) = f_data (d_journal d) /\
    d_jexists d1 = true /\ no_err d1) by (subst d1; by destruct d).
  destruct Hd1 as (B1 & J1 & X1 & Hn4).
  assert (HE : forall x' d', no_err d' -> rolled_back orig size D x1 x' d' ->
      map page_view (pAll x') = [] -> Q None (mkWorld x' d')).
  { intros x' d' Hn' Hrb Hv. apply HQ; [done|]. apply (rolled_back_entered x d x1); try done.
    - exact (hl_plain _ (re_healthy _ _ Hre)).
    - exact (re_dbs _ _ Hre). }
  assert (Ha : pAll x1 = []) by apply (re_empty _ _ Hre).
  assert (Hck : ckptInUse x1 = false) by apply (hl_plain _ (re_healthy _ _ Hre)).
  destruct Hrec as [?|k f init Hj' Hk HJ Hl Hi|f init ps tail m Hj' HJ Ht Hin Hg Hc Hl Hi]; [congruence| |].
  - eapply (wp_playback_header orig size D Horig false k f init); rewrite ?B1, ?J1; try done.
    intros x' d' Hn' Hrb Hv. cbn [negb Z.eqb SQLITE_OK]. wsteps. apply HE; [done|done|].
    by rewrite Hv, Ha.
  - eapply (wp_playback orig size D Hsize Horig false f init ps tail m);
      rewrite ?Ha, ?B1, ?J1; try done.
    + unfold orig_ok. rewrite Ha. destruct (re_orig _ _ Hre) as [E|E]; [right; done|congruence].
    + constructor.
    + constructor.
Qed.

(** The files lead back to a content that agrees with [orig]. *)
Definition restorable (d : disk) : Prop := exists o, agrees o /\ recoverable o size D d.

Lemma agrees_refl : agrees orig.
Proof. done. Qed.

Lemma recoverable_restorable d : recoverable orig size D d -> restorable d.
Proof. intros H. exists orig. by split. Qed.

(** The first [sqlitepager_get] of a session. *)
Lemma wp_get_rested p x d (Q : Z -> World -> Prop) (C : World -> Prop) :
  no_err d -> rested x d -> recoverable orig size D d -> 1 <= p ->
  (forall x' d', restorable d' -> C (mkWorld x' d')) ->
  (forall x1 d1 x' d', no_err d' -> entered x1 d1 -> gotten (f_data (d_db d1)) size D p 1 x1 d1 x' d' ->
     Q SQLITE_OK (mkWorld x' d')) ->
  wp (sqlitepager_get p) Q C (mkWorld x d).
Proof.
  intros Hn Hre Hrec Hp HC HQ. unfold sqlitepager_get. wsteps; [lia|].
  rewrite (hl_err _ (re_healthy _ _ Hre)). change (Z.land 0 (Z.lnot PAGER_ERR_FULL) =? 0) with true. cbn [negb].
  apply wp_bind, wp_get. cbn [pg]. destruct (re_empty _ _ Hre) as (_ & _ & _ & ->).
  change (0 =? 0) with true. apply wp_bind, wp_first_lock; [done..| |].
  { intros x1 d1 Hr. by apply HC, recoverable_restorable. }
  intros x1 d1 Hn1 He. destruct (en_empty _ _ He) as [Ha Hp0].
  pose proof (en_agrees _ _ He) as Hag.
  assert (Hlen : length (f_data (d_db d1)) = (Z.to_nat size * PSZ)%nat)
    by (destruct Hag; congruence).
  apply (wp_get_locked (f_data (d_db d1)) size D Hsize Hlen true);
    [done|apply He|done|right; split; [apply He|done]|lia|done| |].
  { intros x' d' Hr. apply HC. by exists (f_data (d_db d1)). }
  intros x' d' Hn' Hg. eapply HQ; [done|done|].
  assert (E : refcount x1 p = 0) by (unfold refcount; by rewrite look_nil).
  by rewrite E in Hg.
Qed.

End Enter.
