(* ===== verification/PagerWrite.v ===== *)
(** Transactions of a session: opening the journal, journalling a page before it
    is changed, giving up its content, committing. *)
From S2P Require Import Prelude OsFile Pager PagerBytes PagerPlayback PagerCache PagerTxn PagerSession.

(** * Appending to the journal *)

(** The journal of [d'] is [J], positioned at its end; nothing else changed. *)
Record journal_is (J : list Z) (d d' : disk) : Prop := {
  ji_data : f_data (d_journal d') = J;
  ji_pos : f_pos (d_journal d') = length J;
  ji_db : f_data (d_db d') = f_data (d_db d);
  ji_jexists : d_jexists d' = d_jexists d
}.

Lemma wp_append bs J d0 d (Q : Z -> disk -> Prop) (C : disk -> Prop) :
  no_err d -> journal_is J d0 d ->
  (forall d' k, journal_is (J ++ take k bs) d0 d' -> C d') ->
  (forall d', no_err d' -> journal_is (J ++ bs) d0 d' -> Q SQLITE_OK d') ->
  wp (sqliteOsWrite JFD bs) Q C d.
Proof.
  intros Hn [H1 H2 H3 H4] HC HQ.
  assert (Hw : forall fs l, journal_is (J ++ l) d0 (write_file JFD l (set_faults fs d))).
  { intros fs l. destruct (decide (l = [])) as [->|Hl].
    - unfold write_file. rewrite file_write_nil, app_nil_r. by destruct d as [? [] ? ? ? ? ?].
    - destruct d as [? [] ? ? ? ? ?]. cbn in *. subst. split; cbn.
      + rewrite file_write_data by done. cbn. apply splice_end.
      + rewrite file_write_pos. cbn. by rewrite length_app.
      + done.
      + done. }
  apply wp_write; [done|]. intros fs Hfs. split.
  - apply HQ; [by destruct d|]. apply Hw.
  - intros k. eapply HC. apply Hw.
Qed.

Section Write.

Context (orig : list Z) (size : Z) (D : gset Z).
Context (Hsize : 0 <= size <= 1073741823).
Context (Horig : length orig = (Z.to_nat size * PSZ)%nat).

Abbreviation in_db := (in_db size).
Abbreviation intact := (intact orig size D).
Abbreviation recoverable := (recoverable orig size D).
Abbreviation records := (records orig).
Abbreviation good_recs := (good_recs size).
Abbreviation reading := (reading orig size).
Abbreviation writing := (writing orig size D).
Abbreviation session := (session orig size D).
Abbreviation live := (live orig size D).

(** * Opening the journal *)

(** While the header is being written the database file is untouched. *)
Lemma header_recoverable f init k d d0 :
  f = 4294967295 \/ f = 0 -> is_u32 init -> d_jexists d0 = true ->
  npages size (f_data (d_db d0)) -> intact [] (f_data (d_db d0)) ->
  journal_is (take k (journal_header f init size)) d0 d -> recoverable d.
Proof.
  intros Hf Hi Hj [_ Hl] Hin [J1 _ J3 J4].
  destruct (decide (k < 20)%nat) as [Hk|Hk].
  - eapply (rec_header _ _ _ _ k f init); [congruence|done|done|by rewrite J3|by rewrite J3].
  - rewrite take_ge in J1 by (rewrite journal_header_length; lia).
    apply (rec_journal _ _ _ _ f init [] [] 0); try done.
    + congruence.
    + simpl. lia.
    + split; [constructor|by apply Forall_nil].
    + destruct Hf as [-> | ->]; [left|right]; done.
    + rewrite J3. lia.
    + by rewrite J3.
Qed.

Lemma wp_header_write f init a bs d0 d (Q : Z -> disk -> Prop) (C : disk -> Prop) :
  no_err d -> take (a + length bs) (journal_header f init size) =
    take a (journal_header f init size) ++ bs ->
  journal_is (take a (journal_header f init size)) d0 d ->
  (a + length bs <= 20)%nat ->
  f = 4294967295 \/ f = 0 -> is_u32 init -> d_jexists d0 = true ->
  npages size (f_data (d_db d0)) -> intact [] (f_data (d_db d0)) ->
  (forall d', recoverable d' -> C d') ->
  (forall d', no_err d' -> journal_is (take (a + length bs) (journal_header f init size)) d0 d' ->
     Q SQLITE_OK d') ->
  wp (sqliteOsWrite JFD bs) Q C d.
Proof.
  intros Hn Hcut Hj Ha Hf Hi Hje Hnp Hin HC HQ.
  eapply wp_append; [done|exact Hj| |].
  - intros d' k Hd'. apply HC.
    eapply (header_recoverable f init (a + (k `min` length bs))%nat _ d0); [done..|].
    replace (take (a + k `min` length bs) (journal_header f init size))
      with (take a (journal_header f init size) ++ take k bs); [done|].
    replace (a + k `min` length bs)%nat with ((a + k `min` length bs) `min` (a + length bs))%nat by lia.
    rewrite <- take_take, Hcut, take_app, take_take, length_take, journal_header_length.
    f_equal; [f_equal; lia|].
    replace (a + k `min` length bs - a `min` 20)%nat with (k `min` length bs)%nat by lia.
    rewrite <- take_take. by rewrite (take_ge bs (length bs)).
  - intros d' Hn' Hd'. apply HQ; [done|]. by rewrite Hcut.
Qed.

(** The pager that has just opened its journal. *)
Definition opened (init : Z) (x : Pager) : Pager :=
  set_cksumInit init (set_origDbSize size (set_journalOpen true (set_journalStarted false
    (set_needSync false (set_alwaysRollback false (set_nRec 0
      (set_aInJournal (Some ∅) (set_dbSize size x)))))))).

Lemma opened_writing init x x0 d0 d :
  reading x0 d0 -> state x = SQLITE_WRITELOCK -> dirtyFile x = false ->
  core (set_dirtyFile (dirtyFile x0) (set_state SQLITE_READLOCK x)) = core x0 ->
  pAll x = pAll x0 ->
  is_u32 init -> d_jexists d = true -> f_data (d_db d) = f_data (d_db d0) ->
  f_data (d_journal d) = journal_header (if noSync x then 4294967295 else 0) init size ->
  f_pos (d_journal d) = length (f_data (d_journal d)) ->
  writing (if noSync x then 4294967295 else 0) [] 0 ∅ (opened init x) d.
Proof.
  intros [] Hst Hdf Hc Ha Hi Hj Hdb HJ Hp.
  assert (El : forall q, look (opened init x) q = look x0 q) by (intros; unfold look; cbn; by rewrite Ha).
  split; try done; rewrite ?Hdb, ?rd_db; try done.
  - destruct rd_healthy as [H1 H2 H3 H4 (H5 & H6 & H7 & H8)].
    split; cbn; [exact (eq_trans (f_equal useJournal Hc) H1)|
      exact (eq_trans (f_equal tempFile Hc) H2)|exact (eq_trans (f_equal readOnly Hc) H3)|
      exact (eq_trans (f_equal errMask Hc) H4)|].
    split_and!; cbn; [exact (eq_trans (f_equal ckptInUse Hc) H5)|
      exact (eq_trans (f_equal ckptAutoopen Hc) H6)|exact (eq_trans (f_equal aInCkpt Hc) H7)|
      exact (eq_trans (f_equal pCkpt Hc) H8)].
  - cbn. lia.
  - split; [constructor|by apply Forall_nil].
  - cbn. destruct (noSync x); [left|right]; done.
  - exists size. split; [by apply orig_npages|]. cbn. lia.
  - by intros p ?%elem_of_nil.
  - intros q h. rewrite El. intros Hq. destruct (rd_pages q h Hq) as [(U1 & U2 & U3) U4].
    split; [by rewrite U2|]. split; [congruence|congruence].
  - intros p Hq. by apply not_elem_of_nil in Hq.
  - intros _. split_and!; [done|done|done|]. intros q h. rewrite El. intros Hq.
    by destruct (rd_pages q h Hq) as [(U1 & _) _].
Qed.

Lemma opened_live init x x0 d0 d :
  live x0 d0 -> reading x0 d0 -> core (set_dirtyFile (dirtyFile x0) (set_state SQLITE_READLOCK x)) = core x0 ->
  pAll x = pAll x0 -> pFree x = pFree x0 -> pFirstSynced x = pFirstSynced x0 -> pnRef x = pnRef x0 ->
  writing (if noSync x then 4294967295 else 0) [] 0 ∅ (opened init x) d ->
  live (opened init x) d.
Proof.
  intros [Hok Hs _] Hrd Hc E1 E2 E3 E4 Hw.
  assert (El : forall q, look (opened init x) q = look x0 q) by (intros; unfold look; cbn; by rewrite E1).
  split; [| |right; eauto].
  - destruct Hok as [H1 H2 H3 H4 H5 H6].
    split; cbn [opened pAll pFree pFirstSynced pnRef set_pAll set_cksumInit set_origDbSize
      set_journalOpen set_journalStarted set_needSync set_alwaysRollback set_nRec set_aInJournal set_dbSize];
      rewrite ?E1, ?E2, ?E3, ?E4; try done.
    + intros q h. rewrite El. apply H2.
    + intros v. rewrite El. apply H4.
    + intros v. rewrite El. apply H5.
  - right. destruct Hs as [[_ Hjo]|[Hn Hh]]; [rewrite (rd_jo _ _ _ _ Hrd) in Hjo; done|].
    split; [|cbn; congruence]. intros q h. rewrite El. apply Hn.
Qed.

(** [pager_open_journal] under the write lock. *)
Lemma wp_open_journal x0 x d (Q : Z -> World -> Prop) (C : World -> Prop) :
  no_err d -> live x0 d -> reading x0 d -> state x = SQLITE_WRITELOCK -> dirtyFile x = false ->
  core (set_dirtyFile (dirtyFile x0) (set_state SQLITE_READLOCK x)) = core x0 ->
  pFree x = pFree x0 -> pFirstSynced x = pFirstSynced x0 -> pnRef x = pnRef x0 ->
  (forall x' d', recoverable d' -> C (mkWorld x' d')) ->
  (forall init f d', no_err d' -> f_data (d_db d') = f_data (d_db d) ->
     live (opened init (set_pAll (pAll x0) x)) d' ->
     writing f [] 0 ∅ (opened init (set_pAll (pAll x0) x)) d' ->
     Q SQLITE_OK (mkWorld (opened init x) d')) ->
  wp pager_open_journal Q C (mkWorld x d).
Proof.
  intros Hn Hlv Hrd Hst Hdf Hc E2 E3 E4 HC HQ. pose proof Hrd as [].
  destruct rd_healthy as [H1 H2 H3 H4 (H5 & H6 & H7 & H8)].
  pose proof (session_recoverable orig size D Horig x0 d) as HR.
  unfold pager_open_journal. wsteps.
  { by rewrite Hst. }
  { assert (E : journalOpen x = journalOpen x0) by exact (f_equal journalOpen Hc). by rewrite E, rd_jo. }
  { exact (eq_trans (f_equal useJournal Hc) H1). }
  eapply (wp_pagecount size); [done|rewrite rd_db; by apply orig_npages|by rewrite Hst| |].
  2:{ intros d' Hsf. apply HC, HR; [by left|done]. }
  intros d1 Hn1 Hsf1.
  assert (Hks : known_size size x = size).
  { unfold known_size. assert (E : dbSize x = dbSize x0) by exact (f_equal dbSize Hc).
    rewrite E. case_Zb; lia. }
  rewrite Hks. wsteps. apply wp_malloc; [done|]. intros fs2 Hn2. split.
  2:{ apply HC, HR; [by left|]. eapply same_files_trans; [done|apply same_files_faults]. }
  cbn [negb]. wsteps.
  assert (Htf : tempFile x = false) by exact (eq_trans (f_equal tempFile Hc) H2).
  cbn [tempFile set_aInJournal set_dbSize]. rewrite Htf.
  destruct Hsf1 as [B1 J1 X1].
  apply wp_open_exclusive; [done|by destruct d1; cbn in *; congruence|]. intros fs3 Hn3.
  set (d3 := fresh_journal (set_faults fs3 (set_faults fs2 d1))).
  assert (Hnp : npages size (f_data (d_db d3))) by (destruct d1; cbn in *; rewrite B1, rd_db; by try apply orig_npages).
  assert (Hin : intact [] (f_data (d_db d3))) by (destruct d1; cbn in *; rewrite B1, rd_db; by try apply orig_npages).
  assert (Hje : d_jexists d3 = true) by by destruct d1.
  assert (Hj0 : journal_is [] d3 d3) by by destruct d1.
  set (f := if noSync x then 4294967295 else 0).
  assert (Hf : f = 4294967295 \/ f = 0) by (subst f; destruct (noSync x); auto).
  assert (HD : forall d', journal_is [] d3 d' -> recoverable d').
  { intros d' Hd'. by apply (header_recoverable f 0 0 d' d3). }
  split; [|split; apply HC; [apply HR; [by left|destruct d1; split; cbn in *; congruence]|by apply HD]].
  assert (Hn4 : no_err d3) by by destruct d1.
  assert (Hdb3 : f_data (d_db d3) = f_data (d_db d)) by (destruct d1; cbn in *; congruence).
  clearbody d3. clear J1 X1 B1 Hn2 Hn3.
  assert (Herr : errMask x = 0) by exact (eq_trans (f_equal errMask Hc) H4).
  cbn [negb Z.eqb SQLITE_OK]. wsteps.
  cbn [errMask set_aInJournal set_dbSize set_journalOpen set_journalStarted set_needSync
    set_alwaysRollback set_nRec]. rewrite Herr. cbn [negb Z.eqb]. wsteps.
  apply (wp_header_write f 0 0 aJournalMagic3 d3); [done|done|done|cbn; lia|done|done|done|done|done|by intros; apply HC|].
  intros d4 Hn5 Hj4. cbn [negb Z.eqb SQLITE_OK]. unfold write32bits. wsteps. cbn [noSync set_aInJournal
    set_dbSize set_journalOpen set_journalStarted set_needSync set_alwaysRollback set_nRec set_origDbSize].
  fold f.
  apply (wp_header_write f 0 8 (be32 f) d3); [done|done|done|cbn; lia|done|done|done|done|done|by intros; apply HC|].
  intros d5 Hn6 Hj5. cbn [negb Z.eqb SQLITE_OK]. wsteps.
  assert (HRn : forall (Q : Z -> disk -> Prop) C,
      (forall r d', is_u32 r -> no_err d' -> journal_is (take 12 (journal_header f r size)) d3 d' -> Q r d') ->
      wp os_random32 Q C d5).
  { intros Q' C' H. unfold wp, os_random32. destruct (d_random d5) as [|r rs].
    - by apply H.
    - apply H; [unfold is_u32; apply Z.mod_pos_bound; lia|by destruct d5|].
      by destruct d5, Hj5. }
  apply HRn. intros r d6 Hr Hn7 Hj6. wsteps.
  apply (wp_header_write f r 12 (be32 r) d3); [done|done|done|cbn; lia|done|done|done|done|done|by intros; apply HC|].
  intros d7 Hn8 Hj7. cbn [negb Z.eqb SQLITE_OK]. wsteps. cbn [dbSize set_aInJournal
    set_dbSize set_journalOpen set_journalStarted set_needSync set_alwaysRollback set_nRec set_origDbSize set_cksumInit].
  apply (wp_header_write f r 16 (be32 size) d3); [done|done|done|cbn; lia|done|done|done|done|done|by intros; apply HC|].
  intros d8 Hn9 [G1 G2 G3 G4]. wsteps. cbn [ckptAutoopen set_aInJournal
    set_dbSize set_journalOpen set_journalStarted set_needSync set_alwaysRollback set_nRec set_origDbSize set_cksumInit].
  assert (Hauto : ckptAutoopen x = false) by exact (eq_trans (f_equal ckptAutoopen Hc) H6).
  rewrite Hauto. cbn [andb]. wsteps. cbn [negb Z.eqb SQLITE_OK]. wsteps.
  match goal with |- Q _ (mkWorld ?y _) => replace y with (opened r x) by (by destruct x) end.
  assert (Hw : writing f [] 0 ∅ (opened r (set_pAll (pAll x0) x)) d8).
  { apply (opened_writing r (set_pAll (pAll x0) x) x0 d); try done; congruence. }
  apply (HQ r f); [done|congruence| |done].
  by apply (opened_live r (set_pAll (pAll x0) x) x0 d).
Qed.

(** [sqlitepager_begin]: the pages of [x] may differ from those of the session
    [y], which is what its journal is opened for. *)
Lemma wp_begin p h y x d (Q : Z -> World -> Prop) (C : World -> Prop) :
  no_err d -> live y d -> core x = core y ->
  pFree x = pFree y -> pFirstSynced x = pFirstSynced y -> pnRef x = pnRef y ->
  look x p = Some h -> 0 < nRef h ->
  (forall x' d', recoverable d' -> C (mkWorld x' d')) ->
  (forall f ps m s x' d', no_err d' -> f_data (d_db d') = f_data (d_db d) ->
     pAll x' = pAll x -> pnRef x' = pnRef y -> live (set_pAll (pAll y) x') d' ->
     writing f ps m s (set_pAll (pAll y) x') d' -> Q SQLITE_OK (mkWorld x' d')) ->
  wp (sqlitepager_begin p) Q C (mkWorld x d).
Proof.
  intros Hn Hlv Hc E2 E3 E4 Hl Hr HC HQ. unfold sqlitepager_begin. wsteps.
  apply (wp_get_page _ h); [done|].
  assert (Est : state x = state y) by exact (f_equal state Hc).
  pose proof (lv_session _ _ _ _ _ Hlv) as [Hrd|(f & ps & m & s & Hw)].
  - pose proof Hrd as []. destruct rd_healthy as [H1 H2 H3 H4 H5].
    wsteps; [lia|by rewrite Est, rd_state|]. rewrite Est, rd_state.
    change (SQLITE_READLOCK =? SQLITE_READLOCK) with true. cbn iota. wsteps.
    { apply bool_decide_eq_true. by core_same aInJournal Hc. }
    pose proof (session_recoverable orig size D Horig y d) as HR.
    apply wp_os_call; [done|]. intros fs Hfs.
    split; [|split; apply HC, HR; (by left) || by destruct d].
    cbn [negb Z.eqb SQLITE_OK]. wsteps.
    assert (Huj : useJournal x = true) by (by core_same useJournal Hc).
    assert (Htf : tempFile x = false) by (by core_same tempFile Hc).
    rewrite Huj, Htf. cbn [andb negb].
    set (d1 := set_lock WriteLock (set_faults fs d)).
    assert (Hsf : same_files d d1) by by destruct d.
    assert (Hlv1 : live y d1).
    { destruct Hlv. split; [done|done|]. by apply (session_same_files _ _ _ y d). }
    assert (Hrd1 : reading y d1).
    { destruct Hsf as [B J X]. split; rewrite ?B, ?J, ?X; done. }
    apply (wp_open_journal y); [by destruct d|done|done|done|done| |done|done|done|done|].
    { rewrite <- Hc. clear -Hc Est rd_state.
      assert (Ed : dirtyFile y = dirtyFile x) by (symmetry; exact (f_equal dirtyFile Hc)).
      rewrite Ed. rewrite <- rd_state, <- Est. by destruct x. }
    intros init f d' Hn' Hdb Hlv' Hw. apply (HQ f [] 0%nat ∅); [done|by rewrite Hdb; destruct d|done|done|done|done].
  - pose proof Hw as []. wsteps; [lia|by rewrite Est, wr_state|]. rewrite Est, wr_state.
    change (SQLITE_WRITELOCK =? SQLITE_READLOCK) with false. cbn iota. wsteps.
    assert (Hcy : core (set_pAll (pAll y) x) = core y) by (by rewrite <- Hc; destruct x).
    assert (Hrc : recached y (set_pAll (pAll y) x) d).
    { split; intros q g Hg; [left|]; exists g; done. }
    assert (Hw' : writing f ps m s (set_pAll (pAll y) x) d).
    { apply (writing_recached orig size D Horig f ps m s y); done. }
    apply (HQ f ps m s); [done|done|done|done| |done].
    apply (live_core orig size D Hsize Horig y); done.
Qed.

(** * Making a page writable *)

Definition make_dirty (ij ns : bool) (h : PgHdr) : PgHdr :=
  pg_set_inJournal ij (pg_set_pgNeedSync ns (pg_set_dirty true h)).

Definition dirtied (p : Z) (ij ns : bool) (x : Pager) : Pager :=
  set_pAll (map_page p (make_dirty ij ns) (pAll x))
    (set_dirtyFile true (set_needSync (ns || needSync x) x)).

Lemma dirtied_look p ij ns h x q :
  look x p = Some h ->
  look (dirtied p ij ns x) q = if decide (q = p) then Some (make_dirty ij ns h) else look x q.
Proof. intros Hl. by apply (looks_map_page p (make_dirty ij ns) h x). Qed.

(** The cache part of the invariant for the page made dirty. *)
Lemma dirtied_ok p ij ns h x z :
  cache_ok x -> sync_ok x -> look x p = Some h -> 0 < nRef h -> journalOpen x = true ->
  pAll z = pAll (dirtied p ij ns x) -> pFree z = pFree x -> pFirstSynced z = pFirstSynced x ->
  pnRef z = pnRef x -> needSync z = ns || needSync x -> journalOpen z = true ->
  cache_ok z /\ sync_ok z.
Proof.
  intros Hok Hs Hl Hr Hjo E1 E2 E3 E4 E5 E6.
  assert (Hfree : p ∉ pFree x) by (intros Hin; pose proof (free_nRef _ _ _ Hok Hin Hl); lia).
  destruct (c_pages _ Hok p h Hl) as (_ & Hd & Hr0 & Hc).
  destruct (upd_page_ok x p h (make_dirty ij ns) (pnRef x) Hok Hl Hfree) as [H1 H2 H3 H4 H5 H6];
    [done|done|done|done|done|].
  assert (El : forall q, look z q = look (set_pnRef (pnRef x)
    (set_pAll (map_page p (make_dirty ij ns) (pAll x)) x)) q) by (intros; unfold look; by rewrite E1).
  split.
  - split; rewrite ?E1, ?E2, ?E3, ?E4; try done.
    + intros q g. rewrite El. apply H2.
    + intros v. rewrite El. apply H4.
    + intros v. rewrite El. apply H5.
  - unfold sync_ok. rewrite E2, E3, E5, E6. destruct ns; [by left|]. cbn [orb].
    destruct Hs as [[? ?]|[Hn Hh]]; [by left|right]. split; [|done].
    intros q g. rewrite El. change (look _ q) with (look (dirtied p ij false x) q).
    rewrite (dirtied_look p ij false h) by done. case_decide; [by intros [= <-]|apply Hn].
Qed.

(** What a client may rely on after [sqlitepager_write]. *)
Record wrote (p : Z) (x : Pager) (d : disk) (x' : Pager) (d' : disk) : Prop := {
  wt_live : live x' d';
  wt_kept : kept p x d x' d';
  wt_refs : refcount x' p = refcount x p;
  wt_view : view x' d' p = view x d p;
  wt_dirty : isdirty x' p = true;
  wt_pnRef : pnRef x' = pnRef x;
  wt_writing : exists f ps m s, writing f ps m s x' d'
}.

Lemma dirtied_wrote p ij ns h f ps m s y z d d0 d' :
  live y d -> look y p = Some h -> 0 < nRef h -> journalOpen y = true ->
  pAll z = pAll (dirtied p ij ns y) -> pFree z = pFree y -> pFirstSynced z = pFirstSynced y ->
  pnRef z = pnRef y -> needSync z = ns || needSync y -> journalOpen z = true ->
  f_data (d_db d0) = f_data (d_db d) -> f_data (d_db d') = f_data (d_db d) ->
  writing f ps m s z d' -> wrote p y d0 z d'.
Proof.
  intros [Hok Hs _] Hl Hr Hjo E1 E2 E3 E4 E5 E6 Edb0 Edb Hw.
  destruct (dirtied_ok p ij ns h y z) as [K1 K2]; [done..|].
  assert (El : forall q, look z q = if decide (q = p) then Some (make_dirty ij ns h) else look y q).
  { intros q. rewrite <- (dirtied_look p ij ns h) by done. unfold look. by rewrite E1. }
  split; [split; [done|done|right; eauto]| | | | |done|by eauto].
  - intros q Hq _. unfold refcount, view, isdirty. rewrite El, decide_False by done. by rewrite Edb, Edb0.
  - unfold refcount. rewrite El, decide_True by done. by rewrite Hl.
  - unfold view. rewrite El, decide_True by done. by rewrite Hl.
  - unfold isdirty. rewrite El, decide_True by done. done.
Qed.

(** A page that is in the journal already. *)
Lemma writing_again p h f ps m s y d :
  writing f ps m s y d -> sync_ok y -> look y p = Some h -> inJournal h = true ->
  writing f ps m s (dirtied p true (pgNeedSync h) y) d /\
  needSync (dirtied p true (pgNeedSync h) y) = needSync y.
Proof.
  intros [] Hs Hl Hij.
  assert (Hns : pgNeedSync h || needSync y = needSync y).
  { destruct Hs as [[-> _]|[Hn _]]; [by rewrite orb_true_r|]. by rewrite (Hn p h Hl). }
  assert (Hps : p ∈ s).
  { destruct (wr_pages p h Hl) as (E & _). rewrite Hij in E. symmetry in E.
    by apply bool_decide_eq_true in E. }
  split; [|done]. destruct (wr_s p Hps) as [[Hp1 Hp2] _].
  split; cbn [dirtied set_pAll set_dirtyFile set_needSync cksumInit]; try done.
  - destruct wr_healthy. by split.
  - cbn. by rewrite Hns.
  - intros q g. rewrite (dirtied_look p true (pgNeedSync h) h) by done. case_decide; [|apply wr_pages].
    intros [= <-]. subst q. split; [by rewrite bool_decide_true|]. split; [done|].
    intros _. split; [cbn; lia|done].
  - intros q Hq. destruct (wr_unsynced q Hq) as (g & Hg & Hn).
    setoid_rewrite (dirtied_look p true (pgNeedSync h) h); [|done].
    case_decide; [|by eauto]. subst q. eexists. split; [done|]. cbn. congruence.
Qed.

(** A page behind the end of the database. *)
Lemma writing_beyond p h f ps m s y d ns :
  writing f ps m s y d -> look y p = Some h -> inJournal h = false -> size < p <= 1073741823 ->
  (noSync y = true -> ns = false) ->
  writing f ps m s (set_dbSize (Z.max (dbSize y) p) (dirtied p false ns y)) d.
Proof.
  intros [] Hl Hij Hp Hns.
  split; cbn [dirtied set_pAll set_dirtyFile set_needSync set_dbSize cksumInit]; try done.
  - destruct wr_healthy. by split.
  - cbn. lia.
  - cbn. destruct wr_mode as [(E1 & E2 & E3)|?]; [left|by right]. by rewrite (Hns E1).
  - destruct wr_len as (k & ? & ?). exists k. split; [done|]. cbn. lia.
  - intros q g. change (look _ q) with (look (dirtied p false ns y) q).
    rewrite (dirtied_look p false ns h) by done. case_decide as E.
    + intros [= <-]. subst q. split.
      { symmetry. apply bool_decide_eq_false. intros [[? ?] _]%wr_s. lia. }
      split; [done|]. intros _. split; [cbn; lia|]. intros [? ?]. lia.
    + intros Hg. destruct (wr_pages q g Hg) as (P1 & P2 & P3). split; [done|]. split; [done|].
      intros Hd. destruct (P3 Hd). cbn. split; [lia|done].
  - intros q Hq. destruct (wr_unsynced q Hq) as (g & Hg & Hn).
    change (look (set_dbSize ?a ?b)) with (look b).
    setoid_rewrite (dirtied_look p false ns h); [|done].
    case_decide; [|by eauto]. subst q. exfalso.
    destruct wr_good as [_ Hin]. rewrite Forall_forall in Hin.
    assert (Hps : p ∈ ps) by (rewrite <- (take_drop m ps); apply elem_of_app; by right).
    destruct (Hin p Hps). lia.
Qed.

(** ** Journalling a page *)

Definition journalled (p : Z) (s : gset Z) (y : Pager) : Pager :=
  set_nRec (nRec y + 1) (set_aInJournal (Some ({[ p ]} ∪ s)) (dirtied p true (negb (noSync y)) y)).

(** The content a record saves is the original one. *)
Lemma unjournalled_data p h f ps m s y d :
  writing f ps m s y d -> look y p = Some h -> inJournal h = false -> in_db p ->
  p ∉ s /\ pgData h = page orig p.
Proof.
  intros [] Hl Hij Hp. destruct (wr_pages p h Hl) as (E & P2 & P3).
  rewrite Hij in E. symmetry in E. apply bool_decide_eq_false in E. split; [done|].
  destruct (dirty h) eqn:Hd; [destruct (P3 eq_refl) as [_ Hs]; by destruct E; apply Hs|].
  rewrite P2 by done. destruct wr_len as (k & Hk & Hks). rewrite fpage_page; [by apply wr_out|].
  apply (page_length _ _ size); [done|]. by apply (npages_ge orig size Horig k); [|lia].
Qed.

Lemma writing_journalled p h f ps m s y d d' :
  writing f ps m s y d -> look y p = Some h -> inJournal h = false -> in_db p ->
  journal_is (f_data (d_journal d) ++ journal_record (cksumInit y) p (pgData h)) d d' ->
  exists m', writing f (ps ++ [p]) m' ({[ p ]} ∪ s) (journalled p s y) d'.
Proof.
  intros Hw Hl Hij Hp [J1 J2 J3 J4].
  destruct (unjournalled_data p h f ps m s y d Hw Hl Hij Hp) as [Hns Hd]. destruct Hw.
  assert (Hnps : p ∉ ps) by (intros Hin; by apply Hns, wr_ps).
  assert (Hlk : forall q, look (journalled p s y) q =
      if decide (q = p) then Some (make_dirty true (negb (noSync y)) h) else look y q).
  { intros q. by apply (dirtied_look p true (negb (noSync y)) h). }
  assert (Hm : (m <= length ps)%nat) by (destruct wr_mode as [(_ & _ & _ & ->)|(_ & _ & ?)]; lia).
  exists (if noSync y then S m else m).
  split; rewrite ?J1, ?J3, ?J4; try done.
  - destruct wr_healthy. by split.
  - rewrite wr_journal, Hd, <- app_assoc, (records_app orig). cbn. by rewrite app_nil_r.
  - destruct wr_good as [G1 G2]. split.
    + apply NoDup_app. split; [done|]. split; [|apply NoDup_singleton].
      intros q Hq ->%list_elem_of_singleton. done.
    + apply Forall_app. split; [done|]. by constructor.
  - cbn. rewrite wr_nrec, length_app. cbn. lia.
  - cbn. rewrite length_app. cbn.
    destruct wr_mode as [(-> & -> & -> & ->)|(-> & -> & ?)]; [left|right]; split_and!; (done || lia).
  - intros q Hq HD Hn. apply wr_db; [done|done|]. intros Hin. apply Hn.
    destruct (noSync y).
    + rewrite take_app. apply elem_of_app. left. destruct wr_mode as [(_ & _ & _ & ->)|(? & _)]; [|done].
      rewrite take_ge by lia. by rewrite take_ge in Hin.
    + by rewrite take_app_le.
  - intros q Hq Hn. apply wr_out; [done|]. set_solver.
  - intros q [->%elem_of_singleton|Hq]%elem_of_union.
    + split; [done|]. left. apply elem_of_app. right. by apply list_elem_of_singleton.
    + destruct (wr_s q Hq) as [? [?|?]]; (split; [done|]); [left|by right]. apply elem_of_app. by left.
  - intros q [Hq | ->%list_elem_of_singleton]%elem_of_app; [apply wr_ps in Hq|]; set_solver.
  - intros q g. rewrite Hlk. case_decide as E.
    + intros [= <-]. subst q. split; [symmetry; apply bool_decide_eq_true; set_solver|].
      split; [done|]. intros _. cbn. split; [destruct Hp; lia|set_solver].
    + intros Hg. destruct (wr_pages q g Hg) as (P1 & P2 & P3). split; [|split; [done|]].
      * rewrite P1. apply bool_decide_ext. set_solver.
      * intros Hdg. destruct (P3 Hdg). split; [done|]. set_solver.
  - intros q Hq. setoid_rewrite Hlk. destruct wr_mode as [(E & _ & _ & Em)|(E & _ & _)]; rewrite E in *.
    { rewrite drop_ge in Hq by (rewrite length_app; cbn; lia). by apply elem_of_nil in Hq. }
    rewrite drop_app_le in Hq by done. apply elem_of_app in Hq as [Hq|Hq].
    + destruct (wr_unsynced q Hq) as (g & Hg & Hn). case_decide; [|by eauto]. subst q.
      destruct Hnps. rewrite <- (take_drop m ps). apply elem_of_app. by right.
    + apply list_elem_of_singleton in Hq as ->. rewrite decide_True by done.
      eexists. split; [done|]. done.
Qed.

(** A record that was cut off is ignored by a later playback. *)
Lemma partial_record_recoverable p f ps m s y d d' k data :
  writing f ps m s y d -> in_db p -> length data = PSZ -> (k < PSZ + 8)%nat ->
  journal_is (f_data (d_journal d) ++ take k (journal_record (cksumInit y) p data)) d d' ->
  recoverable d'.
Proof.
  intros [] Hp Hl Hk [J1 _ J3 J4]. destruct wr_len as (z & Hz & Hzs).
  apply (rec_journal _ _ _ _ f (cksumInit y) ps (take k (journal_record (cksumInit y) p data)) m).
  - congruence.
  - by rewrite J1, wr_journal, <- app_assoc.
  - rewrite length_take. lia.
  - done.
  - done.
  - by eapply counted_mode.
  - rewrite J3. by apply (npages_ge orig size Horig z); [|lia].
  - by rewrite J3.
Qed.

Lemma map_page_map_page p f g l :
  (forall h, pgno (g h) = pgno h) -> map_page p f (map_page p g l) = map_page p (fun h => f (g h)) l.
Proof.
  intros Hg. unfold map_page. rewrite map_map. apply map_ext. intros h.
  destruct (Z.eqb_spec (pgno h) p) as [E|E].
  - rewrite Hg. by rewrite (proj2 (Z.eqb_eq _ _)).
  - by rewrite (proj2 (Z.eqb_neq _ _)).
Qed.

(** The state in which [sqlitepager_write] starts to journal page [p]. *)
Definition touched (p : Z) (y : Pager) : Pager :=
  set_pAll (map_page p (pg_set_dirty true) (pAll y)) (set_dirtyFile true y).

Lemma touched_find p h y :
  look y p = Some h -> find_page p (pAll (touched p y)) = Some (pg_set_dirty true h).
Proof.
  intros Hl. cbn. rewrite find_page_map_page by done. rewrite decide_True by done.
  unfold look in Hl. by rewrite Hl.
Qed.

Lemma wp_write_to_journal_in p h f ps m s y d (Q : Z -> World -> Prop) (C : World -> Prop) :
  no_err d -> writing f ps m s y d -> look y p = Some h -> length (pgData h) = PSZ ->
  inJournal h = false -> in_db p ->
  (forall x' d', recoverable d' -> C (mkWorld x' d')) ->
  (forall m' d', no_err d' -> f_data (d_db d') = f_data (d_db d) ->
     writing f (ps ++ [p]) m' ({[ p ]} ∪ s) (journalled p s y) d' ->
     Q SQLITE_OK (mkWorld (journalled p s y) d')) ->
  wp (write_to_journal p) Q C (mkWorld (touched p y) d).
Proof.
  intros Hn Hw Hl Hlen Hij Hp HC HQ. pose proof Hw as []. pose proof Hp as [Hp1 Hp2].
  destruct wr_healthy as [_ _ _ _ (Hck & _)].
  unfold write_to_journal. wsteps. eapply wp_get_page; [by apply touched_find|]. wsteps.
  cbn [origDbSize touched set_pAll set_dirtyFile]. rewrite wr_orig.
  rewrite (proj2 (Z.leb_le _ _)) by done. wsteps.
  cbn [cksumInit touched set_pAll set_dirtyFile pgData pg_set_dirty].
  eapply wp_append; [done| | |].
  { split; [reflexivity|exact wr_pos|reflexivity|reflexivity]. }
  { intros d' k Hj. apply HC. destruct (decide (k < PSZ + 8)%nat) as [Hk|Hk].
    - by apply (partial_record_recoverable p f ps m s y d d' k (pgData h)).
    - rewrite take_ge in Hj.
      2:{ unfold journal_record. rewrite !length_app, Hlen, !be32_length. lia. }
      destruct (writing_journalled p h f ps m s y d d' Hw Hl Hij Hp Hj) as (m' & Hw').
      apply (session_recoverable orig size D Horig (journalled p s y) d'); [|done].
      right. eauto. }
  intros d' Hn' Hj. destruct (writing_journalled p h f ps m s y d d' Hw Hl Hij Hp Hj) as (m' & Hw').
  cbn [negb Z.eqb SQLITE_OK]. unfold mark_journal. wsteps.
  cbn [aInJournal touched set_nRec set_pAll set_dirtyFile]. rewrite wr_inj. wsteps.
  cbn [pAll noSync ckptInUse touched set_nRec set_aInJournal set_pAll set_dirtyFile].
  rewrite Hck. cbn [mwhen]. wsteps. cbn [negb Z.eqb SQLITE_OK]. wsteps.
  cbn [pAll noSync ckptInUse touched set_nRec set_aInJournal set_pAll set_dirtyFile].
  rewrite map_page_map_page by done.
  match goal with |- wp (get_page p) _ _ (mkWorld ?z _) => set (zz := z) end.
  assert (Hz : find_page p (pAll zz) = Some (make_dirty true (negb (noSync y)) h)).
  { subst zz. cbn. rewrite find_page_map_page by done. rewrite decide_True by done.
    unfold look in Hl. by rewrite Hl. }
  eapply wp_get_page; [exact Hz|]. wsteps.
  assert (Ez : (if negb (noSync y) then set_needSync true zz else zz) = journalled p s y).
  { subst zz. unfold journalled, dirtied. destruct y. cbn. by destruct noSync. }
  cbn [make_dirty pgNeedSync pg_set_inJournal pg_set_pgNeedSync].
  destruct (negb (noSync y)) eqn:E; cbn [mwhen]; wsteps; rewrite Ez; apply (HQ m'); try done.
  all: by destruct Hj.
Qed.

Lemma wp_write_to_journal_out p h f ps m s y d (Q : Z -> World -> Prop) (C : World -> Prop) :
  writing f ps m s y d -> cache_ok y -> look y p = Some h -> inJournal h = false -> size < p ->
  Q SQLITE_OK (mkWorld (dirtied p false (negb (journalStarted y) && negb (noSync y)) y) d) ->
  wp (write_to_journal p) Q C (mkWorld (touched p y) d).
Proof.
  intros [] Hok Hl Hij Hp HQ. unfold write_to_journal. wsteps.
  eapply wp_get_page; [by apply touched_find|]. wsteps.
  cbn [origDbSize touched set_pAll set_dirtyFile]. rewrite wr_orig.
  rewrite (proj2 (Z.leb_gt _ _)) by done. wsteps. cbn [negb Z.eqb SQLITE_OK]. wsteps.
  cbn [journalStarted noSync pAll touched set_pAll set_dirtyFile].
  rewrite map_page_map_page by done.
  set (ns := negb (journalStarted y) && negb (noSync y)) in *.
  match goal with |- wp (get_page p) _ _ (mkWorld ?z _) => set (zz := z) end.
  assert (Hz : find_page p (pAll zz) = Some (make_dirty false ns h)).
  { subst zz. cbn. rewrite find_page_map_page by done. rewrite decide_True by done.
    unfold look in Hl. rewrite Hl. cbn. f_equal. unfold make_dirty. destruct h. cbn in *. by subst. }
  eapply wp_get_page; [exact Hz|]. wsteps. cbn [make_dirty pgNeedSync pg_set_inJournal pg_set_pgNeedSync].
  assert (Ez : (if ns then set_needSync true zz else zz) = dirtied p false ns y).
  { subst zz. unfold dirtied.
    replace (map_page p (fun h => pg_set_pgNeedSync ns (pg_set_dirty true h)) (pAll y))
      with (map_page p (make_dirty false ns) (pAll y)).
    - destruct y. cbn. by destruct ns.
    - apply map_page_ext. intros g Hg Hgp.
      assert (E : inJournal g = false).
      { apply (find_page_unique _ _ (c_nd _ Hok)) in Hg. rewrite Hgp in Hg.
        unfold look in Hl. congruence. }
      unfold make_dirty. destruct g. cbn in *. by subst. }
  destruct ns; cbn [mwhen]; wsteps; by rewrite Ez.
Qed.

(** * [sqlitepager_write] *)

(** What the function does once the journal is open. *)
Definition write_tail (p : Z) : M World Z :=
  x ← get (fun x => x);
  assert (journalOpen x || negb (useJournal x));;
  upd (set_dirtyFile true);;
  h ← get_page p;
  rc ← (if negb (inJournal h) && useJournal x then write_to_journal p else mret SQLITE_OK);
  if negb (rc =? SQLITE_OK) then mret rc else
  h ← get_page p;
  x ← get (fun x => x);
  rc ← (if ckptInUse x && negb (inCkpt h) && (p <=? ckptSize x)
        then write_to_ckpt p else mret SQLITE_OK);
  if negb (rc =? SQLITE_OK) then mret rc else
  upd (fun x => if dbSize x <? p then set_dbSize p x else x);;
  mret SQLITE_OK.

Lemma wp_write_tail p h f ps m s y x d0 d (Q : Z -> World -> Prop) (C : World -> Prop) :
  no_err d -> live y d -> writing f ps m s y d -> look y p = Some h -> 0 < nRef h ->
  inJournal h = false -> p <= 1073741823 ->
  set_dirtyFile true x = touched p y -> f_data (d_db d0) = f_data (d_db d) ->
  (forall x' d', recoverable d' -> C (mkWorld x' d')) ->
  (forall x' d', no_err d' -> wrote p y d0 x' d' -> Q SQLITE_OK (mkWorld x' d')) ->
  wp (write_tail p) Q C (mkWorld x d).
Proof.
  intros Hn Hlv Hw Hl Hr Hij Hp Hx Hdb0 HC HQ. pose proof Hw as [].
  pose proof (lv_cache _ _ _ _ _ Hlv) as Hok.
  destruct (c_pages _ Hok p h Hl) as (Hp1 & Hlen & _).
  pose proof wr_healthy as [Huj _ _ _ (Hck & _)].
  assert (Hxj : journalOpen x = true) by (rewrite <- wr_jo; exact (f_equal journalOpen Hx)).
  assert (Hxu : useJournal x = true) by (rewrite <- Huj; exact (f_equal useJournal Hx)).
  unfold write_tail. wsteps; [by rewrite Hxj|]. rewrite Hx.
  eapply wp_get_page; [by apply touched_find|]. rewrite Hxu. cbn [inJournal pg_set_dirty].
  rewrite Hij. cbn [negb andb]. wsteps.
  assert (Hend : forall z d', no_err d' -> find_page p (pAll z) <> None -> ckptInUse z = false ->
      wrote p y d0 (if dbSize z <? p then set_dbSize p z else z) d' ->
      wp (h ← get_page p;
          x ← get (fun x => x);
          rc ← (if ckptInUse x && negb (inCkpt h) && (p <=? ckptSize x)
                then write_to_ckpt p else mret SQLITE_OK);
          if negb (rc =? SQLITE_OK) then mret rc else
          upd (fun x => if dbSize x <? p then set_dbSize p x else x);;
          mret SQLITE_OK) Q C (mkWorld z d')).
  { intros z d' Hn' Hz Hcz Hwr. destruct (find_page p (pAll z)) as [g|] eqn:Eg; [|done].
    wsteps. apply (wp_get_page _ g); [done|]. wsteps. rewrite Hcz. cbn [andb]. wsteps.
    cbn [negb Z.eqb SQLITE_OK]. wsteps. by apply HQ. }
  destruct (Z.le_gt_cases p size) as [Hps|Hps].
  - eapply (wp_write_to_journal_in p h f ps m s y d); [done|done|done|done|done|by split|done|].
    intros m' d' Hn' Hdb Hw'. cbn [negb Z.eqb SQLITE_OK]. apply Hend; [done| |done|].
    + pose proof (dirtied_look p true (negb (noSync y)) h y p Hl) as E.
      rewrite decide_True in E by done. unfold look in E. cbn in *. by rewrite E.
    + cbn [journalled dbSize set_nRec set_aInJournal dirtied set_pAll set_dirtyFile set_needSync].
      rewrite (proj2 (Z.ltb_ge _ _)) by lia.
      by apply (dirtied_wrote p true (negb (noSync y)) h f (ps ++ [p]) m' ({[ p ]} ∪ s) y _ d).
  - eapply (wp_write_to_journal_out p h f ps m s y d); [done|done|done|done|lia|].
    cbn [negb Z.eqb SQLITE_OK]. set (ns := negb (journalStarted y) && negb (noSync y)).
    apply Hend; [done| |done|].
    + pose proof (dirtied_look p false ns h y p Hl) as E.
      rewrite decide_True in E by done. unfold look in E. by rewrite E.
    + assert (Hw' : writing f ps m s (set_dbSize (Z.max (dbSize y) p) (dirtied p false ns y)) d).
      { apply (writing_beyond p h); [done|done|done|lia|]. subst ns. intros ->. by rewrite andb_false_r. }
      assert (E : (if dbSize (dirtied p false ns y) <? p then set_dbSize p (dirtied p false ns y)
          else dirtied p false ns y) = set_dbSize (Z.max (dbSize y) p) (dirtied p false ns y)).
      { cbn [dbSize dirtied set_pAll set_dirtyFile set_needSync]. case_Zb.
        - by rewrite Z.max_r by lia.
        - rewrite Z.max_l by lia. by destruct y. }
      rewrite E. by apply (dirtied_wrote p false ns h f ps m s y _ d).
Qed.

Lemma wp_write_page p h x d (Q : Z -> World -> Prop) (C : World -> Prop) :
  no_err d -> live x d -> look x p = Some h -> 0 < nRef h -> p <= 1073741823 ->
  (forall x' d', recoverable d' -> C (mkWorld x' d')) ->
  (forall x' d', no_err d' -> wrote p x d x' d' -> Q SQLITE_OK (mkWorld x' d')) ->
  wp (sqlitepager_write p) Q C (mkWorld x d).
Proof.
  intros Hn Hlv Hl Hr Hp HC HQ. pose proof Hlv as [Hok Hs Hse].
  pose proof (session_healthy _ _ _ x d Hse) as [Huj Htf Hro Herr (Hck & _)].
  unfold sqlitepager_write. wsteps. rewrite Herr. cbn [negb Z.eqb]. wsteps. rewrite Hro. wsteps.
  set (x1 := set_pAll (map_page p (pg_set_dirty true) (pAll x)) x).
  assert (Hl1 : look x1 p = Some (pg_set_dirty true h)).
  { unfold look. cbn. rewrite find_page_map_page by done. rewrite decide_True by done.
    unfold look in Hl. by rewrite Hl. }
  apply (wp_get_page _ (pg_set_dirty true h)); [exact Hl1|]. wsteps.
  cbn [inJournal pg_set_dirty ckptInUse x1 set_pAll]. rewrite Hck, orb_true_r, andb_true_r.
  destruct (inJournal h) eqn:Hij.
  { wsteps. destruct Hse as [Hrd|(f & ps & m & s & Hw)].
    { destruct (rd_pages _ _ _ _ Hrd p h Hl) as [(_ & U & _) _]. congruence. }
    destruct (writing_again p h f ps m s x d Hw Hs Hl Hij) as [Hw' Hns].
    assert (Ez : set_dirtyFile true x1 = dirtied p true (pgNeedSync h) x).
    { subst x1. unfold dirtied in *. cbn in Hns. rewrite Hns.
      rewrite (look_map_page_const x p h (pg_set_dirty true)) by done.
      rewrite (look_map_page_const x p h (make_dirty true (pgNeedSync h))) by done.
      replace (make_dirty true (pgNeedSync h) h) with (pg_set_dirty true h); [by destruct x|].
      unfold make_dirty. destruct h. cbn in *. by subst. }
    rewrite Ez. apply HQ; [done|].
    by apply (dirtied_wrote p true (pgNeedSync h) h f ps m s x _ d); try apply Hw. }
  destruct (session_size orig size D Hsize Horig x d Hse) as (_ & _ & _ & _ & Hst & _).
  wsteps.
  { cbn [state x1 set_pAll]. apply negb_true_iff, Z.eqb_neq. exact Hst. }
  eapply (wp_begin p (pg_set_dirty true h) x x1); [done|done|by destruct x|done|done|done|exact Hl1|done|done|].
  intros f ps m s x' d' Hn' Hdb Ha Hpn Hlv' Hw. pose proof Hw as [].
  set (y := set_pAll (pAll x) x') in *. cbn [negb Z.eqb SQLITE_OK]. wsteps.
  { replace (state x') with (state y) by done. by rewrite wr_state. }
  replace (journalOpen x') with (journalOpen y) by done. rewrite wr_jo. cbn [negb andb]. wsteps.
  cbn [negb Z.eqb SQLITE_OK]. fold (write_tail p).
  assert (Hly : look y p = Some h) by exact Hl.
  eapply (wp_write_tail p h f ps m s y x' d); [done|done|done|done|done|done|done| |done|done|].
  - subst y x1. change (pAll x' = map_page p (pg_set_dirty true) (pAll x)) in Ha.
    unfold touched. cbn [pAll set_pAll]. rewrite <- Ha. by destruct x'.
  - intros z dz Hnz [W1 W2 W3 W4 W5 W6 W7]. apply HQ; [done|]. split; try done. cbn in W6. congruence.
Qed.

End Write.
