(* ===== verification/PagerCommit.v ===== *)
(** Storing to a page, giving up its old content, and committing. *)
From S2P Require Import Prelude OsFile Pager PagerBytes PagerPlayback PagerCache PagerTxn PagerSession PagerWrite.

Section Commit.

Context (orig : list Z) (size : Z) (D : gset Z).
Context (Hsize : 0 <= size <= 1073741823).
Context (Horig : length orig = (Z.to_nat size * PSZ)%nat).

Abbreviation in_db := (in_db size).
Abbreviation intact := (intact orig size D).
Abbreviation recoverable := (recoverable orig size D).
Abbreviation reading := (reading orig size).
Abbreviation writing := (writing orig size D).
Abbreviation session := (session orig size D).
Abbreviation live := (live orig size D).

(** * Storing *)

(** The client has stored [dta] in page [p]. *)
Record stored (p : Z) (dta : list Z) (x : Pager) (d : disk) (x' : Pager) : Prop := {
  st_live : live x' d;
  st_kept : kept p x d x' d;
  st_refs : refcount x' p = refcount x p;
  st_view : view x' d p = dta;
  st_dirty : isdirty x' p = true;
  st_pnRef : pnRef x' = pnRef x
}.

Lemma wp_store_page p dta h x d (Q : unit -> World -> Prop) (C : World -> Prop) :
  live x d -> look x p = Some h -> 0 < nRef h -> dirty h = true -> length dta = PSZ ->
  (forall x', stored p dta x d x' -> Q tt (mkWorld x' d)) ->
  wp (store_page p dta) Q C (mkWorld x d).
Proof.
  intros [Hok Hs Hse] Hl Hr Hd Hlen HQ. unfold store_page. wsteps.
  apply (wp_get_page _ h); [done|]. wsteps.
  set (x' := set_pAll (map_page p (pg_set_pgData dta) (pAll x)) x).
  assert (Hlk : looks p (pg_set_pgData dta h) x x') by (apply (looks_map_page p (pg_set_pgData dta) h); done).
  assert (Hp : look x' p = Some (pg_set_pgData dta h)) by (rewrite Hlk; by rewrite decide_True).
  assert (Hfree : p ∉ pFree x) by (intros Hin; pose proof (free_nRef _ _ _ Hok Hin Hl); lia).
  destruct (c_pages _ Hok p h Hl) as (_ & _ & Hr0 & Hc).
  assert (Hok' : cache_ok x').
  { destruct (upd_page_ok x p h (pg_set_pgData dta) (pnRef x) Hok Hl Hfree); done. }
  assert (Hs' : sync_ok x') by (by apply (looks_sync_ok p h (pg_set_pgData dta h) x)).
  apply HQ. split; [split; [done|done|]| | | | |done].
  - destruct (session_dirty _ _ _ x d p h Hse Hl Hd) as (f & ps & m & s & []).
    right. exists f, ps, m, s. split; try done.
    + destruct wr_healthy. by split.
    + intros q g. rewrite Hlk. case_decide as E; [|apply wr_pages]. intros [= <-]. subst q.
      destruct (wr_pages p h Hl) as (P1 & P2 & P3). split; [done|]. cbn. split; [congruence|done].
    + intros q Hq. destruct (wr_unsynced q Hq) as (g & Hg & Hn).
      destruct (decide (q = p)) as [->|Hqp].
      * exists (pg_set_pgData dta h). split; [done|]. cbn. congruence.
      * exists g. by rewrite Hlk, decide_False.
    + intros Hdf. destruct (wr_dirtyFile Hdf) as (W1 & W2 & W3 & W4).
      by rewrite (W4 p h Hl) in Hd.
  - intros q Hq _. unfold refcount, view, isdirty. by rewrite Hlk, decide_False.
  - unfold refcount. by rewrite Hp, Hl.
  - unfold view. by rewrite Hp.
  - unfold isdirty. by rewrite Hp.
Qed.

(** * Giving up the old content of a page *)

Lemma marked_writing p h f ps m s x d :
  writing f ps m s x d -> look x p = Some h -> in_db p -> p ∈ D ->
  writing f ps m ({[ p ]} ∪ s)
    (set_pAll (map_page p (pg_set_inJournal true) (pAll x)) (set_aInJournal (Some ({[ p ]} ∪ s)) x)) d.
Proof.
  intros [] Hl Hp HD.
  assert (Hlk : forall q, look (set_pAll (map_page p (pg_set_inJournal true) (pAll x))
      (set_aInJournal (Some ({[ p ]} ∪ s)) x)) q =
      if decide (q = p) then Some (pg_set_inJournal true h) else look x q).
  { intros q. by apply (looks_map_page p (pg_set_inJournal true) h x). }
  split; try done.
  - destruct wr_healthy. by split.
  - intros q Hq Hn. apply wr_out; [done|]. set_solver.
  - intros q [->%elem_of_singleton|Hq]%elem_of_union; [by auto|by apply wr_s].
  - intros q Hq. apply wr_ps in Hq. set_solver.
  - intros q g. rewrite Hlk. case_decide as E.
    + intros [= <-]. subst q. destruct (wr_pages p h Hl) as (_ & P2 & P3).
      split; [symmetry; apply bool_decide_eq_true; set_solver|]. split; [done|].
      intros Hd. destruct (P3 Hd). cbn. split; [done|set_solver].
    + intros Hg. destruct (wr_pages q g Hg) as (P1 & P2 & P3). split; [|split; [done|]].
      * rewrite P1. apply bool_decide_ext. set_solver.
      * intros Hdg. destruct (P3 Hdg). cbn. split; [done|set_solver].
  - intros q Hq. destruct (wr_unsynced q Hq) as (g & Hg & Hn). setoid_rewrite Hlk.
    case_decide; [|by eauto]. subst q. eexists. split; [done|]. cbn. congruence.
  - intros Hdf. destruct (wr_dirtyFile Hdf) as (W1 & W2 & W3 & W4). split_and!; [done..|].
    intros q g. rewrite Hlk. case_decide; [|apply W4]. intros [= <-]. exact (W4 p h Hl).
Qed.

Lemma wp_dont_rollback p h x d (Q : unit -> World -> Prop) (C : World -> Prop) :
  live x d -> look x p = Some h -> 0 < nRef h -> p ∈ D ->
  (forall x', live x' d -> kept 0 x d x' d -> pnRef x' = pnRef x -> Q tt (mkWorld x' d)) ->
  wp (sqlitepager_dont_rollback p) Q C (mkWorld x d).
Proof.
  intros Hlv Hl Hr HD HQ. pose proof Hlv as [Hok Hs Hse].
  pose proof (session_healthy _ _ _ x d Hse) as [_ _ _ _ (Hck & _)].
  unfold sqlitepager_dont_rollback. wsteps. apply (wp_get_page _ h); [done|]. wsteps.
  destruct (_ || _) eqn:E1; [wsteps; by apply HQ|].
  destruct (pgAlwaysRollback h || alwaysRollback x); [wsteps; by apply HQ|].
  wsteps. rewrite Hck.
  assert (Hend : forall z, find_page p (pAll z) <> None -> live z d -> kept 0 x d z d ->
      pnRef z = pnRef x ->
      wp (h ← get_page p;
          mwhen (false && negb (inCkpt h) && (p <=? ckptSize x))
            (assert (inJournal h || (origDbSize x <? p));;
             mark_ckpt p;; page_add_to_ckpt_list p)) Q C (mkWorld z d)).
  { intros z Hz Hlz Hkz Hpz. destruct (find_page p (pAll z)) as [g|] eqn:Eg; [|done].
    wsteps. apply (wp_get_page _ g); [done|]. by apply wp_ret, HQ. }
  destruct (negb (inJournal h) && (p <=? origDbSize x)) eqn:E2; cbn [mwhen].
  2:{ wsteps. apply wp_unbind, Hend; try done. unfold look in Hl. by rewrite Hl. }
  apply andb_true_iff in E2 as [_ E2]. apply Z.leb_le in E2.
  destruct Hse as [Hrd|(f & ps & m & s & Hw)].
  { rewrite (rd_state _ _ _ _ Hrd) in E1. done. }
  destruct (c_pages _ Hok p h Hl) as (Hp1 & Hlen & Hr0 & Hc).
  rewrite (wr_orig _ _ _ _ _ _ _ _ _ Hw) in E2.
  pose proof (marked_writing p h f ps m s x d Hw Hl (conj Hp1 E2) HD) as Hw'.
  set (z := set_pAll (map_page p (pg_set_inJournal true) (pAll x)) (set_aInJournal (Some ({[ p ]} ∪ s)) x)) in *.
  assert (Hlk : looks p (pg_set_inJournal true h) x z) by (apply (looks_map_page p (pg_set_inJournal true) h); done).
  assert (Hfree : p ∉ pFree x) by (intros Hin; pose proof (free_nRef _ _ _ Hok Hin Hl); lia).
  unfold mark_journal. wsteps. rewrite (wr_inj _ _ _ _ _ _ _ _ _ Hw). wsteps.
  cbn [pAll set_aInJournal]. fold z. apply wp_unbind.
  apply Hend; [| | |done].
  - pose proof (Hlk p) as E. rewrite decide_True in E by done. unfold look in E. by rewrite E.
  - split; [| |right; eauto].
    + destruct (upd_page_ok x p h (pg_set_inJournal true) (pnRef x) Hok Hl Hfree); done.
    + by apply (looks_sync_ok p h (pg_set_inJournal true h) x).
  - intros q _ _. unfold refcount, view, isdirty. rewrite Hlk. case_decide; [|done].
    subst q. by rewrite Hl.
Qed.

(** * Writing all dirty pages *)

Lemma dirty_pages_list l acc :
  fold_left (fun l h => if dirty h then pgno h :: l else l) l acc =
  rev (map pgno (filter (fun h => Is_true (dirty h)) l)) ++ acc.
Proof.
  revert acc. induction l as [|h l IH]; intros acc; [done|]. cbn [fold_left]. rewrite IH, filter_cons.
  destruct (dirty h) eqn:E; case_decide as Hd; try done.
  cbn [map rev]. by rewrite <- app_assoc.
Qed.

Definition dirty_list (x : Pager) : list Z :=
  rev (map pgno (filter (fun h => Is_true (dirty h)) (pAll x))).

Lemma wp_dirty_pages x d (Q : list Z -> World -> Prop) (C : World -> Prop) :
  Q (dirty_list x) (mkWorld x d) -> wp pager_get_all_dirty_pages Q C (mkWorld x d).
Proof.
  intros HQ. unfold pager_get_all_dirty_pages. wsteps. by rewrite dirty_pages_list, app_nil_r.
Qed.

Lemma dirty_list_in x p :
  cache_ok x -> p ∈ dirty_list x <-> exists h, look x p = Some h /\ dirty h = true.
Proof.
  intros Hok. unfold dirty_list. rewrite list_elem_of_In, <- in_rev, in_map_iff. split.
  - intros (h & <- & Hh). apply list_elem_of_In, list_elem_of_filter in Hh as [Hd Hh].
    exists h. split; [by apply find_page_unique; [apply Hok|]|by apply Is_true_true].
  - intros (h & Hl & Hd). apply find_page_Some in Hl as [Hin Hp]. exists h. split; [done|].
    apply list_elem_of_In, list_elem_of_filter. split; [by apply Is_true_true|done].
Qed.

Lemma NoDup_filter_map (P : PgHdr -> Prop) `{forall x, Decision (P x)} l :
  NoDup (map pgno l) -> NoDup (map pgno (filter P l)).
Proof.
  induction l as [|h l IH]; [done|]. cbn [map]. intros [Hh Hl]%NoDup_cons.
  rewrite filter_cons. case_decide; [|by apply IH]. cbn [map]. apply NoDup_cons.
  split; [|by apply IH]. intros Hin. apply Hh.
  apply list_elem_of_In, in_map_iff in Hin as (g & <- & Hg).
  apply list_elem_of_In, list_elem_of_filter in Hg as [_ Hg].
  by apply list_elem_of_In, in_map, list_elem_of_In.
Qed.

Lemma dirty_list_NoDup x : cache_ok x -> NoDup (dirty_list x).
Proof.
  intros Hok. unfold dirty_list. rewrite <- Permutation_rev. apply NoDup_filter_map, Hok.
Qed.

(** The pages of [l] have been written, everything else is as before. *)
Record flushed (f : Z) (ps : list Z) (m : nat) (s : gset Z) (l : list Z)
    (x : Pager) (d : disk) (x' : Pager) (d' : disk) : Prop := {
  fl_writing : writing f ps m s x' d';
  fl_cache : cache_ok x' /\ sync_ok x';
  fl_look : forall q, look x' q = (fun h => if decide (q ∈ l) then pg_set_dirty false h else h) <$> look x q;
  fl_view : forall q, 1 <= q -> view x' d' q = view x d q;
  fl_rest : pFree x' = pFree x /\ pFirstSynced x' = pFirstSynced x /\ pnRef x' = pnRef x /\
    noSync x' = noSync x
}.

Lemma flushed_nil f ps m s x d :
  writing f ps m s x d -> cache_ok x -> sync_ok x -> flushed f ps m s [] x d x d.
Proof.
  intros Hw Hok Hs. split; try done. intros q. destruct (look x q); [|done]. done.
Qed.

Lemma flushed_cons f ps m s p h l x d d1 x' d' :
  look x p = Some h -> p ∉ l -> view (cleaned p x) d1 p = view x d p ->
  (forall q, 1 <= q -> view (cleaned p x) d1 q = view x d q) ->
  flushed f ps m s l (cleaned p x) d1 x' d' -> flushed f ps m s (p :: l) x d x' d'.
Proof.
  intros Hl Hn _ Hv []. split; try done.
  - intros q. rewrite fl_look0, (cleaned_look p h) by done.
    destruct (decide (q = p)) as [->|Hq].
    + rewrite Hl. cbn. rewrite decide_False by done. by rewrite decide_True by (by left).
    + destruct (look x q); [|done]. cbn. f_equal.
      destruct (decide (q ∈ l)); [rewrite decide_True by (by right)|rewrite decide_False by set_solver]; done.
  - intros q Hq. by rewrite fl_view0, Hv.
Qed.

Lemma wp_write_pagelist f ps m s l : forall x d (Q : Z -> World -> Prop) (C : World -> Prop),
  no_err d -> writing f ps m s x d -> cache_ok x -> sync_ok x -> NoDup l ->
  (forall p, p ∈ l -> exists h, look x p = Some h /\ dirty h = true /\ pgNeedSync h = false) ->
  (forall x' d', recoverable d' -> C (mkWorld x' d')) ->
  (forall x' d', no_err d' -> flushed f ps m s l x d x' d' -> Q SQLITE_OK (mkWorld x' d')) ->
  wp (pager_write_pagelist l) Q C (mkWorld x d).
Proof.
  induction l as [|p l IH]; intros x d Q C Hn Hw Hok Hs Hnd Hl HC HQ.
  { cbn. wsteps. by apply HQ, flushed_nil. }
  destruct (Hl p) as (h & Hp & Hd & Hns); [by left|]. apply NoDup_cons in Hnd as [Hpl Hnd].
  pose proof (synced_expendable _ _ _ f ps m s x d p h Hw Hp Hd Hns) as He.
  eapply wp_write_head; [exact Horig|done|exact Hw|done|exact Hp|done|done|done|].
  intros d1 Hn1 Hwr.
  destruct (written_writing orig size D Hsize Horig f ps m s x d p h d1 Hw Hok Hp Hd He Hwr) as [Hw1 Hv1].
  destruct (cleaned_ok p h x Hok Hs Hp) as [Hok1 Hs1].
  apply IH; [done..| |done|].
  - intros q Hq. destruct (Hl q) as (g & Hg & ? & ?); [by right|]. exists g.
    rewrite (cleaned_look p h) by done. rewrite decide_False; [done|]. by intros ->.
  - intros x' d' Hn' Hfl. apply HQ; [done|]. apply (flushed_cons f ps m s p h l x d d1); try done.
    apply Hv1. by apply (c_pages _ Hok p h).
Qed.

(** * Unlocking after everything has been written *)

Lemma page_view_find q l l' h' :
  map page_view l' = map page_view l -> find_page q l' = Some h' ->
  exists h, find_page q l = Some h /\ page_view h' = page_view h.
Proof.
  revert l'. induction l as [|g l IH]; intros [|g' l']; try done.
  cbn [map]. intros [= E1 E2 E3 El]. rewrite !find_page_cons, E1.
  case_decide; [|by apply IH]. intros [= <-]. exists g. split; [done|].
  unfold page_view. by rewrite E1, E2, E3.
Qed.

Lemma page_view_pgno l l' : map page_view l' = map page_view l -> map pgno l' = map pgno l.
Proof.
  revert l'. induction l as [|g l IH]; intros [|g' l']; try done.
  cbn [map]. intros [= E1 E2 E3 El]. by rewrite E1, (IH l').
Qed.

Lemma page_view_refd l l' : map page_view l' = map page_view l -> refd l' = refd l.
Proof.
  revert l'. induction l as [|g l IH]; intros [|g' l']; try done.
  cbn [map]. intros [= E1 E2 E3 El]. rewrite !refd_cons, (IH l') by done. unfold held. by rewrite E2.
Qed.

Lemma map_inCkpt_false l l' :
  map inCkpt l' = map inCkpt l -> Forall (fun h => inCkpt h = false) l ->
  Forall (fun h => inCkpt h = false) l'.
Proof.
  intros E H. apply Forall_forall. intros h Hh.
  assert (Hin : inCkpt h ∈ map inCkpt l) by (rewrite <- E; by apply list_elem_of_In, in_map, list_elem_of_In).
  apply list_elem_of_In, in_map_iff in Hin as (g & <- & Hg). rewrite Forall_forall in H.
  by apply H, list_elem_of_In.
Qed.

(** The content a committed database shows. *)
Record new_content (x : Pager) (d : disk) (o : list Z) (sz : Z) : Prop := {
  nc_pages : npages sz o;
  nc_size : 0 <= sz <= 1073741823;
  nc_view : forall q, 1 <= q -> fpage o q = view x d q
}.

(** What a client may rely on after a commit. *)
Record committed (x : Pager) (d : disk) (x' : Pager) (d' : disk) (sz : Z) : Prop := {
  cm_content : new_content x d (f_data (d_db d')) sz;
  cm_live : PagerSession.live (f_data (d_db d')) sz D x' d';
  cm_reading : PagerSession.reading (f_data (d_db d')) sz x' d';
  cm_same : forall q, 1 <= q -> refcount x' q = refcount x q /\ view x' d' q = view x d q;
  cm_pnRef : pnRef x' = pnRef x
}.

Lemma clean_view x d :
  (forall q h, look x q = Some h -> pgData h = fpage (f_data (d_db d)) q) ->
  forall q, view x d q = fpage (f_data (d_db d)) q.
Proof. intros H q. unfold view. destruct (look x q) eqn:E; [by apply H|done]. Qed.

Lemma unlocked_committed x0 d0 x d x' d' f ps m s :
  writing f ps m s x d -> cache_ok x -> pFirstSynced x = head (pFree x) ->
  (forall q h, look x q = Some h -> dirty h = false) ->
  (forall q, 1 <= q -> refcount x q = refcount x0 q /\ view x d q = view x0 d0 q) ->
  pnRef x = pnRef x0 ->
  unlocked x x' -> f_data (d_db d') = f_data (d_db d) -> d_jexists d' = false ->
  exists sz, committed x0 d0 (set_dbSize (-1) x') d' sz.
Proof.
  intros [] Hok Hfs Hcl Hsame Hpn [U1 U2 U3 Ud U6 U7 U4 U5 U8] Edb Hje.
  destruct wr_len as (k & Hk & Hks). exists k.
  assert (Hcoh : forall q h, look x q = Some h -> pgData h = fpage (f_data (d_db d)) q).
  { intros q h Hl. destruct (wr_pages q h Hl) as (_ & P2 & _). by apply P2, (Hcl q h). }
  assert (Hlk : forall q h', look x' q = Some h' -> exists h, look x q = Some h /\ page_view h' = page_view h).
  { intros q h'. by apply page_view_find. }
  assert (Hlk2 : forall q h, look x q = Some h -> exists h', look x' q = Some h' /\ page_view h' = page_view h).
  { intros q h Hl. destruct (page_view_find q (pAll x') (pAll x) h) as (g & Hg & E);
      [by symmetry|done|]. exists g. by split. }
  unfold cfg in U3. injection U3 as C1 C2 C3 C4 C5 C6 C7 C8 C9 C10 C11 C12.
  destruct wr_healthy as [Hh1 Hh2 Hh3 Hh4 Hh5]. destruct (U8 Hh5) as [Hpl Hck].
  assert (Hrd : PagerSession.reading (f_data (d_db d')) k (set_dbSize (-1) x') d').
  { split; try done.
    - split; cbn; [congruence..|]. exact Hpl.
    - by left.
    - intros q h' Hl'. destruct (Hlk q h' Hl') as (h & Hl & E). unfold page_view in E.
      injection E as _ _ E. rewrite Edb, E. split; [|by apply Hcoh].
      by apply (look_Forall unmarked x' q h'). }
  destruct Hok as [G1 G2 G3 G4 G5 G6].
  assert (Hok' : cache_ok (set_dbSize (-1) x')).
  { split; cbn [pAll pFree pFirstSynced pnRef set_dbSize]; rewrite ?C5, ?C6, ?C7; try done.
    - by rewrite (page_view_pgno _ _ U4).
    - intros q h' Hl'. destruct (Hlk q h' Hl') as (h & Hl & E). unfold page_view in E.
      injection E as _ E1 E2. rewrite E1, E2. destruct (G2 q h Hl) as (? & ? & ? & _).
      split_and!; try done. apply (look_Forall (fun h => inCkpt h = false) x' q h'); [|done].
      apply (map_inCkpt_false _ _ Hck). apply Forall_look; [done|]. intros r g Hg. by apply (G2 r).
    - intros v Hv. destruct (G4 v Hv) as (h & Hl & Hr). destruct (Hlk2 v h Hl) as (h' & Hl' & E).
      unfold page_view in E. injection E as _ E1 E2. exists h'. split; [done|congruence].
    - intros v Hv. destruct (G5 v Hv) as (Hf & h & Hl & _). destruct (Hlk2 v h Hl) as (h' & Hl' & _).
      split; [done|]. exists h'. split; [done|]. by apply (look_Forall unmarked x' v h').
    - by rewrite (page_view_refd _ _ U4). }
  split.
  - rewrite Edb. split; [done|lia|]. intros q Hq. destruct (Hsame q Hq) as [_ <-].
    by rewrite clean_view.
  - split; [done| |by left]. right. cbn. split; [|congruence]. intros q h' Hl'.
    by apply (look_Forall unmarked x' q h').
  - done.
  - intros q Hq. destruct (Hsame q Hq) as [<- <-]. unfold refcount, view.
    change (look (set_dbSize (-1) x') q) with (look x' q).
    destruct (look x' q) as [h'|] eqn:Hl'.
    + destruct (Hlk q h' Hl') as (h & -> & E). unfold page_view in E. by injection E.
    + destruct (look x q) as [h|] eqn:Hl; [|by rewrite Edb].
      destruct (Hlk2 q h Hl) as (h' & ? & _). congruence.
  - cbn. congruence.
Qed.

(** * [sqlitepager_commit] *)

(** A process that dies in a commit leaves the old or the new content. *)
Definition old_or_new (x : Pager) (d : disk) (d' : disk) : Prop :=
  recoverable d' \/
  exists o sz, new_content x d o sz /\ PagerPlayback.recoverable o sz D d'.

Lemma unlocking_old_or_new x0 d0 x d d' f ps m s :
  writing f ps m s x d ->
  (forall q h, look x q = Some h -> dirty h = false) ->
  (forall q, 1 <= q -> refcount x q = refcount x0 q /\ view x d q = view x0 d0 q) ->
  unlocking d d' -> old_or_new x0 d0 d'.
Proof.
  intros Hw Hcl Hsame [Edb [[Fj Fe]|Hje]].
  - left. apply (writing_files orig size D Horig _ _ _ _ _ _ _ Hw); [done|done|by rewrite Edb|].
    rewrite Edb. apply Hw.
  - right. destruct Hw. destruct wr_len as (k & Hk & Hks).
    exists (f_data (d_db d)), k. split.
    + split; [done|lia|]. intros q Hq. destruct (Hsame q Hq) as [_ <-]. symmetry. apply clean_view.
      intros r h Hl. destruct (wr_pages r h Hl) as (_ & P2 & _). by apply P2, (Hcl r h).
    + apply rec_clean; [done|rewrite Edb; apply Hk|by rewrite Edb].
Qed.

Lemma wp_commit_unlock x0 d0 x d f ps m s (Q : Z -> World -> Prop) (C : World -> Prop) :
  no_err d -> writing f ps m s x d -> cache_ok x -> pFirstSynced x = head (pFree x) ->
  (forall q h, look x q = Some h -> dirty h = false) ->
  (forall q, 1 <= q -> refcount x q = refcount x0 q /\ view x d q = view x0 d0 q) ->
  pnRef x = pnRef x0 ->
  (forall x' d', old_or_new x0 d0 d' -> C (mkWorld x' d')) ->
  (forall x' d' sz, no_err d' -> committed x0 d0 x' d' sz -> Q SQLITE_OK (mkWorld x' d')) ->
  wp (rc ← pager_unwritelock; upd (set_dbSize (-1));; mret rc) Q C (mkWorld x d).
Proof.
  intros Hn Hw Hok Hfs Hcl Hsame Hpn HC HQ. wsteps.
  apply wp_unwritelock; [done|apply Hw|apply Hw|apply (hl_plain _ (wr_healthy _ _ _ _ _ _ _ _ _ Hw))| |].
  - intros x' d' Hu. apply HC. by eapply unlocking_old_or_new.
  - intros x' d' Hn' Hu Hje _ Hul. wsteps.
    destruct (unlocked_committed x0 d0 x d x' d' f ps m s) as [sz Hcm];
      try done; [apply Hu|]. by eapply HQ.
Qed.

(** The pages after [syncJournal] and [pager_write_pagelist]. *)
Lemma flushed_clean f ps m s x d x' d' :
  cache_ok x -> flushed f ps m s (dirty_list x) x d x' d' ->
  (forall q h, look x' q = Some h -> dirty h = false) /\
  (forall q, 1 <= q -> refcount x' q = refcount x q).
Proof.
  intros Hok []. split; intros q.
  - intros h. rewrite fl_look0. intros (g & Hg & ->)%fmap_Some. case_decide as E; [done|].
    destruct (dirty g) eqn:Hd; [|done]. destruct E. apply dirty_list_in; eauto.
  - intros _. unfold refcount. rewrite fl_look0. destruct (look x q); [|done]. cbn. by case_decide.
Qed.

Lemma wp_commit x d (Q : Z -> World -> Prop) (C : World -> Prop) :
  no_err d -> live x d -> (exists f ps m s, writing f ps m s x d) ->
  (forall x' d', old_or_new x d d' -> C (mkWorld x' d')) ->
  (forall x' d' sz, no_err d' -> committed x d x' d' sz -> Q SQLITE_OK (mkWorld x' d')) ->
  wp sqlitepager_commit Q C (mkWorld x d).
Proof.
  intros Hn [Hok Hs _] (f & ps & m & s & Hw) HC HQ. pose proof Hw as [].
  unfold sqlitepager_commit. wsteps. rewrite (hl_err _ wr_healthy).
  change (0 =? PAGER_ERR_FULL) with false. change (0 =? 0) with true. cbn [negb]. wsteps.
  rewrite wr_state. change (SQLITE_WRITELOCK =? SQLITE_WRITELOCK) with true. cbn [negb]. wsteps.
  destruct (dirtyFile x) eqn:Hdf; cbn [negb].
  2:{ destruct (wr_dirtyFile eq_refl) as (W1 & W2 & W3 & W4).
      wsteps; [by rewrite W1|]. apply wp_unbind.
      destruct (not_synced _ _ _ f ps m s x d Hw Hok Hs W1) as (_ & Hh & _).
      by apply (wp_commit_unlock x d x d f ps m s). }
  wsteps; [done|].
  eapply wp_syncJournal; [exact Horig|done|exact Hw|done|done| |].
  { intros x' d' Hr. apply HC. by left. }
  intros f' m' x1 d1 Hn1 Hsy. pose proof Hsy as []. destruct sy_cache as [Hok1 Hs1].
  cbn [negb Z.eqb SQLITE_OK]. wsteps. apply wp_dirty_pages. wsteps.
  assert (Hlist : forall p, p ∈ dirty_list x1 ->
      exists h, look x1 p = Some h /\ dirty h = true /\ pgNeedSync h = false).
  { intros p Hp. apply dirty_list_in in Hp as (h & Hl & Hd); [|done]. exists h. split_and!; try done.
    rewrite sy_look in Hl. by apply fmap_Some in Hl as (g & _ & ->). }
  destruct sy_rest as (R1 & R2 & R3).
  assert (Hfin : forall x2 d2, no_err d2 -> flushed f' ps m' s (dirty_list x1) x1 d1 x2 d2 ->
    wp (rc ← pager_unwritelock; upd (set_dbSize (-1));; mret rc) Q C (mkWorld x2 d2)).
  { intros x2 d2 Hn2 Hfl. destruct (flushed_clean _ _ _ _ _ _ _ _ Hok1 Hfl) as [Hcl Hrc].
    pose proof Hfl as []. destruct fl_cache0 as [Hok2 _]. destruct fl_rest0 as (F1 & F2 & F3 & F4).
    apply (wp_commit_unlock x d x2 d2 f' ps m' s); try done; [congruence| |congruence].
    intros q Hq. rewrite Hrc, fl_view0 by done. unfold refcount, view. rewrite sy_look, sy_db.
    by destruct (look x q). }
  destruct (decide (dirty_list x1 = [])) as [E|E].
  - rewrite bool_decide_true by done. wsteps. cbn [negb Z.eqb SQLITE_OK]. apply Hfin; [done|].
    rewrite E. by apply flushed_nil.
  - rewrite bool_decide_false by done. wsteps.
    eapply (wp_write_pagelist f' ps m' s); [done|done|done|done|by apply dirty_list_NoDup|done| |].
    { intros x' d' Hr. apply HC. by left. }
    intros x2 d2 Hn2 Hfl. cbn [negb Z.eqb SQLITE_OK]. wsteps.
    destruct (noSync x2).
    + wsteps. cbn [negb Z.eqb SQLITE_OK]. by apply Hfin.
    + wsteps. pose proof Hfl as [].
      assert (Hsf : forall dd, d_db dd = d_db d2 \/ d_db dd = mk_file (f_data (d_db d2)) (f_data (d_db d2)) (f_pos (d_db d2)) ->
        d_journal dd = d_journal d2 -> d_jexists dd = d_jexists d2 -> same_files d2 dd).
      { intros dd [E1|E1] E2 E3; split; rewrite ?E1; done. }
      apply wp_os_call; [done|]. intros fs Hfs. split.
      * cbn [negb Z.eqb SQLITE_OK]. apply Hfin; [by destruct d2|].
        match goal with |- flushed _ _ _ _ _ _ _ _ ?dd => assert (Hd2 : same_files d2 dd)
          by (apply Hsf; destruct d2; auto) end.
        destruct Hd2 as [B J X].
        split; [|done|done| |done].
        -- destruct fl_writing0. split; rewrite ?B, ?J, ?X; done.
        -- intros q Hq. rewrite <- fl_view0 by done. unfold view. by rewrite B.
      * split; apply HC; left; (eapply (session_recoverable orig size D Horig x2 d2);
          [right; eauto|apply Hsf; destruct d2; auto]).
Qed.

(** Without a transaction there is nothing to commit. *)
Lemma wp_commit_reading x d (Q : Z -> World -> Prop) (C : World -> Prop) :
  reading x d -> Q SQLITE_ERROR (mkWorld x d) -> wp sqlitepager_commit Q C (mkWorld x d).
Proof.
  intros [] HQ. unfold sqlitepager_commit. wsteps. rewrite (hl_err _ rd_healthy).
  change (0 =? PAGER_ERR_FULL) with false. change (0 =? 0) with true. cbn [negb]. wsteps.
  rewrite rd_state. change (SQLITE_READLOCK =? SQLITE_WRITELOCK) with false. cbn [negb].
  by apply wp_ret.
Qed.

End Commit.
