(* ===== verification/PagerRollback.v ===== *)
(** Rolling a transaction back: what [sqlitepager_rollback] leaves behind, and how
    the client gives its pages back in that state.  [needSync] and [pFirstSynced]
    stay as they were, so the state is not one in which pages may be loaded. *)
From S2P Require Import Prelude OsFile Pager PagerBytes PagerPlayback PagerCache PagerTxn PagerSession PagerCommit.

Section Rollback.

Context (orig : list Z) (size : Z) (D : gset Z).
Context (Hsize : 0 <= size <= 1073741823).
Context (Horig : length orig = (Z.to_nat size * PSZ)%nat).

(** A read lock and a cache without a trace of the transaction; [orig] is in the
    file, and in the cache on every page of the file that was not given up. *)
Record rolled (x : Pager) (d : disk) : Prop := {
  ro_cache : cache_ok x;
  ro_reading : reading orig size (set_pAll [] x) d;
  ro_clean : forall q h, look x q = Some h -> unmarked h;
  ro_view : forall q, in_db size q -> q ∉ D -> view x d q = page orig q
}.

Lemma reading_rolled x d :
  cache_ok x -> reading orig size x d -> rolled (set_dbSize (-1) x) d.
Proof.
  intros Hok Hrd. pose proof Hrd as [].
  split; [by destruct Hok| | |].
  - split; try done; [destruct rd_healthy; by split|by left].
  - intros q h Hl. by apply (rd_pages q h).
  - intros q Hq _. change (view (set_dbSize (-1) x) d q) with (view x d q).
    rewrite clean_view by (intros r h Hl; by apply (rd_pages r h)). rewrite rd_db.
    destruct Hq. apply fpage_page, (page_length _ _ size); [done|by rewrite Horig].
Qed.

Lemma rolled_recoverable x d : rolled x d -> recoverable orig size D d.
Proof.
  intros []. apply (session_recoverable orig size D Horig (set_pAll [] x) d d); [by left|apply same_files_refl].
Qed.

End Rollback.

(** The state after the rollback of a session [x]. *)
Record after_rollback (orig : list Z) (size : Z) (D : gset Z) (x x' : Pager) (d' : disk) : Prop := {
  ar_agrees : agrees orig size D (f_data (d_db d'));
  ar_rolled : rolled (f_data (d_db d')) size D x' d';
  ar_refs : forall q, refcount x' q = refcount x q;
  ar_pnRef : pnRef x' = pnRef x
}.

(** ** The cache *)

(** A cache with the same pages and counts and new contents. *)
Section Same_pages.

Context (x y : Pager) (g : PgHdr -> PgHdr).
Context (Hv : map page_view (pAll y) = map page_view (map g (pAll x))).
Context (Hg : forall h, pgno (g h) = pgno h).
Context (Hgr : forall h, nRef (g h) = nRef h).

Lemma same_pages_look q h : look y q = Some h ->
  exists k, look x q = Some k /\ nRef h = nRef k /\ pgData h = pgData (g k).
Proof using Hv Hg Hgr.
  intros Hl. destruct (page_view_find q _ _ h Hv Hl) as (k & Hk & E).
  rewrite find_page_map in Hk by done. apply fmap_Some in Hk as (k' & Hk & ->).
  unfold page_view in E. injection E as _ E1 E2. exists k'. split; [done|]. split; [|done].
  rewrite E1. apply Hgr.
Qed.

Lemma same_pages_look' q k : look x q = Some k ->
  exists h, look y q = Some h /\ nRef h = nRef k /\ pgData h = pgData (g k).
Proof using Hv Hg Hgr.
  intros Hl. destruct (page_view_find q (pAll y) (map g (pAll x)) (g k)) as (h & Hh & E).
  - by symmetry.
  - rewrite find_page_map by done. unfold look in Hl. by rewrite Hl.
  - unfold page_view in E. injection E as _ E1 E2. exists h. split; [done|].
    rewrite <- E1, <- E2. split; [apply Hgr|done].
Qed.

Lemma same_pages_refcount q : refcount y q = refcount x q.
Proof using Hv Hg Hgr.
  unfold refcount. destruct (look y q) as [h|] eqn:Hl.
  - by destruct (same_pages_look q h Hl) as (k & -> & -> & _).
  - destruct (look x q) as [k|] eqn:Hk; [|done].
    destruct (same_pages_look' q k Hk) as (h & ? & _). congruence.
Qed.

Lemma same_pages_cache :
  cache_ok x -> (pFree y, pFirstSynced y, pnRef y) = (pFree x, pFirstSynced x, pnRef x) ->
  (forall q k, look x q = Some k -> length (pgData (g k)) = PSZ) ->
  Forall unmarked (pAll y) -> map inCkpt (pAll y) = map inCkpt (pAll x) -> cache_ok y.
Proof using Hv Hg Hgr.
  intros [H1 H2 H3 H4 H5 H6] E Hd Hu Hck. injection E as E1 E2 E3.
  assert (Hpn : map pgno (pAll y) = map pgno (pAll x)).
  { rewrite (page_view_pgno _ _ Hv), map_map. by apply map_ext. }
  assert (Hfr : forall v, v ∈ pFree x -> exists h, look y v = Some h /\ nRef h = 0).
  { intros v Hin. destruct (H4 v Hin) as (k & Hk & Hr).
    destruct (same_pages_look' v k Hk) as (h & Hh & Er & _). exists h. split; [done|congruence]. }
  split; rewrite ?E1, ?E2, ?E3.
  - by rewrite Hpn.
  - intros q h Hq. destruct (same_pages_look q h Hq) as (k & Hk & Er & Ed).
    destruct (H2 q k Hk) as (P1 & P2 & P3 & _). rewrite Er, Ed. split_and!; [done|by eapply Hd|done|].
    apply (look_Forall (fun h => inCkpt h = false) y q h); [|done].
    apply (map_inCkpt_false _ _ Hck). apply Forall_look; [done|]. intros r k' Hk'. by apply (H2 r).
  - done.
  - exact Hfr.
  - intros v Hin. destruct (H5 v Hin) as [Hin' _]. split; [done|].
    destruct (Hfr v Hin') as (h & Hh & _). exists h. split; [done|].
    by apply (look_Forall unmarked y v h).
  - rewrite (page_view_refd _ _ Hv), refd_map by done. exact H6.
Qed.

End Same_pages.

(** ** [sqlitepager_rollback] *)

(** What the rollback makes of a cached page; [ps] are the journalled pages. *)
Definition rolled_page (orig : list Z) (size : Z) (db : list Z) (ps : list Z) (h : PgHdr) : PgHdr :=
  refetched size db (if decide (pgno h ∈ ps) then restore (page orig (pgno h)) h else h).

Lemma rolled_page_pgno orig size db ps h : pgno (rolled_page orig size db ps h) = pgno h.
Proof. unfold rolled_page. rewrite refetched_pgno. by case_decide. Qed.

Lemma rolled_page_nRef orig size db ps h : nRef (rolled_page orig size db ps h) = nRef h.
Proof. unfold rolled_page, refetched. by repeat case_match. Qed.

Section Run.

Context (orig : list Z) (size : Z) (D : gset Z).
Context (Hsize : 0 <= size <= 1073741823).
Context (Horig : length orig = (Z.to_nat size * PSZ)%nat).

Lemma rolled_page_length db ps h :
  length db = length orig -> length (pgData h) = PSZ -> 1 <= pgno h ->
  (forall p, p ∈ ps -> in_db size p) ->
  length (pgData (rolled_page orig size db ps h)) = PSZ.
Proof using Horig.
  intros Hdb Hd Hp Hps. unfold rolled_page, refetched.
  assert (Hpl : forall a, length a = length orig -> in_db size (pgno h) ->
    length (page a (pgno h)) = PSZ).
  { intros a Ha [? ?]. apply (page_length _ _ size); [done|]. by rewrite Ha, Horig. }
  case_decide as E; cbn.
  - apply Hpl; [done|by apply Hps].
  - repeat case_match; cbn; try (done || apply zero_page_length).
    apply Hpl; [done|]. split; [done|lia].
Qed.

(** What a page of the transaction shows after the rollback. *)
Lemma rolled_page_content f ps m s x d db q h :
  writing orig size D f ps m s x d -> look x q = Some h -> in_db size q -> q ∉ D ->
  page db q = page orig q ->
  pgData (rolled_page orig size db ps h) = page orig q.
Proof using Horig.
  intros Hw Hh Hq HD Hdb. pose proof (look_pgno _ _ _ Hh) as Hp. pose proof Hq as [Hq1 Hq2].
  destruct (wr_pages _ _ _ _ _ _ _ _ _ Hw q h Hh) as (P1 & P2 & P3).
  unfold rolled_page. rewrite Hp. destruct (decide (q ∈ ps)) as [Hin|Hin]; [reflexivity|].
  unfold refetched. rewrite Hp. destruct (dirty h) eqn:Hd.
  - by rewrite (proj2 (Z.leb_le _ _)).
  - rewrite P2 by done. destruct (wr_len _ _ _ _ _ _ _ _ _ Hw) as (k & Hk & Hks).
    assert (Hns : q ∉ s).
    { intros Hqs. by destruct (wr_s _ _ _ _ _ _ _ _ _ Hw q Hqs) as [_ [?|?]]. }
    rewrite fpage_page; [by apply (wr_out _ _ _ _ _ _ _ _ _ Hw)|].
    apply (page_length _ _ size); [done|]. by apply (npages_ge orig size Horig k); [|lia].
Qed.

Lemma wp_rollback_writing f ps m s x d (Q : Z -> World -> Prop) (C : World -> Prop) :
  no_err d -> cache_ok x -> writing orig size D f ps m s x d -> rollbackable (pAll x) ->
  (forall x' d', recoverable orig size D d' -> C (mkWorld x' d')) ->
  (forall x' d', no_err d' -> after_rollback orig size D x x' d' ->
     Q SQLITE_OK (mkWorld x' d')) ->
  wp sqlitepager_rollback Q C (mkWorld x d).
Proof using Hsize Horig.
  intros Hn Hok Hw Hrb HC HQ. pose proof (c_nd _ Hok) as Hnd.
  apply (wp_rollback orig size D Hsize Horig f ps m s x); try done.
  { apply Forall_look; [done|]. intros p h Hh. pose proof (look_pgno _ _ _ Hh) as <-.
    by apply (c_pages _ Hok (pgno h) h). }
  { intros Hdf. apply Forall_look; [done|]. by apply (wr_dirtyFile _ _ _ _ _ _ _ _ _ Hw Hdf). }
  intros x' d' Hn' [R1 R2 R3 R4 R5 R6 R7 R8 R9 R10 R11 R12] Hv. apply HQ; [done|].
  set (g := rolled_page orig size (f_data (d_db d')) ps).
  assert (Hgv : map page_view (pAll x') = map page_view (map g (pAll x))).
  { rewrite Hv. f_equal. unfold restored_cache. by rewrite map_map. }
  assert (Hg : forall h, pgno (g h) = pgno h) by (intros; apply rolled_page_pgno).
  assert (Hgr : forall h, nRef (g h) = nRef h) by (intros; apply rolled_page_nRef).
  destruct (R12 (hl_plain _ (wr_healthy _ _ _ _ _ _ _ _ _ Hw))) as [Hpl Hck].
  assert (Hh : healthy x') by (destruct (wr_healthy _ _ _ _ _ _ _ _ _ Hw);
    unfold cfg in R7; injection R7 as ? ? ? ? ? ? ? ? ? ? ? ?; split; try done; congruence).
  pose proof (wr_good _ _ _ _ _ _ _ _ _ Hw) as [_ Hgood]. rewrite Forall_forall in Hgood.
  assert (Hag : agrees orig size D (f_data (d_db d'))).
  { split; [congruence|]. intros p Hp HD. apply R3; [done|done|apply not_elem_of_nil]. }
  split; [done| |intros q; by apply (same_pages_refcount x x' g)|by injection R7].
  split.
  - apply (same_pages_cache x (set_dbSize (-1) x') g); try done.
    + unfold cfg in R7. injection R7 as C1 C2 C3 C4 C5 C6 C7 C8 C9 C10 C11 C12. cbn. congruence.
    + intros q k Hk. destruct (c_pages _ Hok q k Hk) as (P1 & P2 & _).
      apply rolled_page_length; [by destruct Hag|done|by rewrite (look_pgno _ _ _ Hk)|done].
  - split; try done; [destruct Hh; by split|by left].
  - intros q h Hl. by apply (look_Forall unmarked x' q h).
  - intros q Hq HD. destruct Hag as [Hlen Hpages]. unfold view.
    change (look (set_dbSize (-1) x') q) with (look x' q).
    destruct (look x' q) as [h'|] eqn:Hl'.
    + destruct (same_pages_look x x' g Hgv Hg Hgr q h' Hl') as (h & Hh' & _ & ->).
      subst g. by rewrite (rolled_page_content f ps m s x d _ q h), Hpages by (done || by apply Hpages).
    + destruct Hq. apply fpage_page, (page_length _ _ size); [done|]. by rewrite Hlen, Horig.
Qed.

(** Without a transaction there is nothing to roll back. *)
Lemma wp_rollback_reading x d (Q : Z -> World -> Prop) (C : World -> Prop) :
  reading orig size x d -> Q SQLITE_OK (mkWorld (set_dbSize (-1) x) d) ->
  wp sqlitepager_rollback Q C (mkWorld x d).
Proof.
  intros [] HQ. unfold sqlitepager_rollback. wsteps. rewrite rd_jo, orb_true_r.
  unfold pager_unwritelock. wsteps. rewrite rd_state.
  change (SQLITE_READLOCK <? SQLITE_WRITELOCK) with true. wsteps. exact HQ.
Qed.

Lemma wp_rollback_live x d (Q : Z -> World -> Prop) (C : World -> Prop) :
  no_err d -> live orig size D x d -> rollbackable (pAll x) ->
  (forall x' d', recoverable orig size D d' -> C (mkWorld x' d')) ->
  (forall x' d', no_err d' -> after_rollback orig size D x x' d' ->
     Q SQLITE_OK (mkWorld x' d')) ->
  wp sqlitepager_rollback Q C (mkWorld x d).
Proof using Hsize Horig.
  intros Hn [Hok _ [Hrd|(f & ps & m & s & Hw)]] Hrb HC HQ; [|by apply (wp_rollback_writing f ps m s)].
  apply (wp_rollback_reading x d); [done|]. apply HQ; [done|].
  pose proof (rd_db _ _ _ _ Hrd) as Edb. split; [by rewrite Edb| |done|done].
  rewrite Edb. by apply reading_rolled.
Qed.

End Run.

(** ** Giving the pages back *)

Section Rolled.

Context (orig : list Z) (size : Z) (D : gset Z).
Context (Hsize : 0 <= size <= 1073741823).
Context (Horig : length orig = (Z.to_nat size * PSZ)%nat).

Abbreviation rolled := (rolled orig size D).

(** [x'] differs from [x] in the number of references to page [p], now [n]. *)
Record rolled_ref (p n : Z) (x : Pager) (d : disk) (x' : Pager) : Prop := {
  rl_rolled : rolled x' d;
  rl_refs : forall q, refcount x' q = if decide (q = p) then n else refcount x q;
  rl_pnRef : 0 < pnRef x'
}.

Lemma looks_rolled p h n x x' d :
  rolled x d -> cache_ok x' -> core x' = core x -> 0 < pnRef x' -> look x p = Some h ->
  looks p (pg_set_nRef n h) x x' -> rolled_ref p n x d x'.
Proof.
  intros [R1 R2 R3 R4] Hok Hc Hpn Hl Hlk. split; [split| |done].
  - done.
  - apply (reading_recached orig size Horig (set_pAll [] x) _ d (dbSize x)); [|apply R2|done|done].
    transitivity (core x'); [by destruct x'|]. rewrite Hc. by destruct x.
  - intros q g. rewrite Hlk. case_decide; [|apply R3]. intros [= <-]. apply (R3 p h Hl).
  - intros q Hq HD. rewrite <- R4 by done. unfold view. rewrite Hlk.
    case_decide; [|done]. subst. by rewrite Hl.
  - intros q. unfold refcount. rewrite Hlk. by case_decide.
Qed.

Lemma wp_ref_rolled p h x d (Q : unit -> World -> Prop) (C : World -> Prop) :
  rolled x d -> look x p = Some h ->
  (forall x', rolled_ref p (nRef h + 1) x d x' -> Q tt (mkWorld x' d)) ->
  wp (page_ref p) Q C (mkWorld x d).
Proof.
  intros Hro Hl HQ. apply (wp_page_ref p h); [apply Hro|done|].
  intros x' H1 _ H3 H4 H5. by apply HQ, (looks_rolled p h).
Qed.

(** Giving up the last reference ends the session. *)
Lemma wp_unref_rolled p h x d (Q : Z -> World -> Prop) (C : World -> Prop) :
  no_err d -> rolled x d -> look x p = Some h -> 0 < nRef h ->
  (forall x' d', recoverable orig size D d' -> C (mkWorld x' d')) ->
  (forall x', rolled_ref p (nRef h - 1) x d x' -> Q SQLITE_OK (mkWorld x' d)) ->
  (forall x' d', nRef h = 1 -> pnRef x = 1 -> no_err d' -> rested x' d' ->
     recoverable orig size D d' -> Q SQLITE_OK (mkWorld x' d')) ->
  wp (sqlitepager_unref p) Q C (mkWorld x d).
Proof using Hsize Horig.
  intros Hn Hro Hl Hr HC HQ HR. apply (wp_unref p h); [apply Hro|done|done| |].
  - intros x' H1 _ H3 H4 H5. by apply HQ, (looks_rolled p h).
  - intros x' Hc Hr1 Hp1.
    apply (wp_reset orig size D Hsize Horig (set_pAll [] x)); [done|left; apply Hro| | |].
    + transitivity (core x); [done|by destruct x].
    + done.
    + intros x2 d2 ? ? ?. by apply HR.
Qed.

End Rolled.
