(* ===== verification/PagerSpec.v ===== *)
(** What the page cache promises its client: a store of pages with references
    and atomic transactions, and the proof that [pager.c] implements it under
    every way the process can die.  Page numbers are at most 4194303: beyond that
    the product [pgno*SQLITE_PAGE_SIZE] in [sqlitepager_get] leaves 32 bits. *)
From S2P Require Import Prelude OsFile Pager PagerBytes PagerPlayback PagerCache PagerTxn PagerSession PagerWrite PagerCommit PagerRollback.

(** * The specification *)

(** The references the client holds (a bag), the pages it may store to, the
    content it sees, the committed content, and whether it has rolled a transaction
    back and has to give its pages back. *)
Record store := mkStore {
  s_refs : list Z;
  s_writable : gset Z;
  s_cur : Z -> list Z;
  s_com : Z -> list Z;
  s_over : bool
}.

(** The calls of the pager's interface the theorems are about: all but
    [sqlitepager_truncate], [sqlitepager_overwrite], [sqlitepager_dont_write] and the
    statement checkpoints.  [O_store] is the client's writing into a page;
    [O_dont_rollback] gives up the old content of a page. *)
Inductive op :=
| O_get (p : Z)
| O_lookup (p : Z)
| O_ref (p : Z)
| O_unref (p : Z)
| O_begin (p : Z)
| O_write (p : Z)
| O_store (p : Z) (dta : list Z)
| O_dont_rollback (p : Z)
| O_commit
| O_rollback.

Fixpoint remove_one (p : Z) (l : list Z) : list Z :=
  match l with
  | [] => []
  | q :: l' => if q =? p then l' else q :: remove_one p l'
  end.

Definition held_in (p : Z) (l : list Z) : bool := bool_decide (p ∈ l).

Definition spec_step (o : op) (a : store) : store :=
  match o with
  | O_get p | O_ref p => mkStore (p :: s_refs a) (s_writable a) (s_cur a) (s_com a) (s_over a)
  | O_lookup p =>
      if held_in p (s_refs a)
      then mkStore (p :: s_refs a) (s_writable a) (s_cur a) (s_com a) (s_over a) else a
  | O_unref p =>
      let l := remove_one p (s_refs a) in
      match l with
      | [] => mkStore [] ∅ (s_com a) (s_com a) false
      | _ => mkStore l (if held_in p l then s_writable a else s_writable a ∖ {[ p ]})
               (s_cur a) (s_com a) (s_over a)
      end
  | O_begin _ | O_dont_rollback _ => a
  | O_write p => mkStore (s_refs a) ({[ p ]} ∪ s_writable a) (s_cur a) (s_com a) (s_over a)
  | O_store p dta =>
      mkStore (s_refs a) (s_writable a) (fun q => if q =? p then dta else s_cur a q) (s_com a)
        (s_over a)
  | O_commit => mkStore (s_refs a) ∅ (s_cur a) (s_cur a) (s_over a)
  | O_rollback => mkStore (s_refs a) ∅ (s_com a) (s_com a) true
  end.

(** The calls a client may make: it names pages it holds, stores to pages it
    asked to write, gives up only pages of [D], holds no page but page 1 when it
    rolls back, and from then on only gives its pages back. *)
Definition allowed (D : gset Z) (o : op) (a : store) : bool :=
  match o with
  | O_lookup p | O_ref p | O_unref p => held_in p (s_refs a)
  | _ => negb (s_over a) &&
    match o with
    | O_get p => (1 <=? p) && (p <=? 4194303)
    | O_store p dta => held_in p (s_refs a) && bool_decide (p ∈ s_writable a) &&
                       Nat.eqb (length dta) SQLITE_PAGE_SIZE
    | O_dont_rollback p => held_in p (s_refs a) && bool_decide (p ∈ D)
    | O_commit => negb (bool_decide (s_refs a = []))
    | O_rollback => negb (bool_decide (s_refs a = [])) && forallb (Z.eqb 1) (s_refs a)
    | O_lookup p | O_ref p | O_unref p | O_begin p | O_write p => held_in p (s_refs a)
    end
  end.

Fixpoint client_ok (D : gset Z) (os : list op) (a : store) : bool :=
  match os with
  | [] => true
  | o :: os' => allowed D o a && client_ok D os' (spec_step o a)
  end.

Fixpoint spec_run (os : list op) (a : store) : store :=
  match os with [] => a | o :: os' => spec_run os' (spec_step o a) end.

(** * The implementation *)

Definition run_op (o : op) : M World Z :=
  match o with
  | O_get p => sqlitepager_get p
  | O_lookup p => r ← sqlitepager_lookup p; mret (if r is Some _ then SQLITE_OK else SQLITE_ERROR)
  | O_ref p => sqlitepager_ref p
  | O_unref p => sqlitepager_unref p
  | O_begin p => sqlitepager_begin p
  | O_write p => sqlitepager_write p
  | O_store p dta => store_page p dta;; mret SQLITE_OK
  | O_dont_rollback p => sqlitepager_dont_rollback p;; mret SQLITE_OK
  | O_commit => sqlitepager_commit
  | O_rollback => sqlitepager_rollback
  end.

Fixpoint run_ops (os : list op) : M World unit :=
  match os with
  | [] => mret tt
  | o :: os' => run_op o;; run_ops os'
  end.

(** * The refinement relation *)

Section Refine.

Context (D : gset Z).

(** Contents that agree on every page that has not been given up. *)
Definition same_content (c1 c2 : Z -> list Z) : Prop :=
  forall q, 1 <= q -> q ∉ D -> c1 q = c2 q.

(** The files lead back to the content [c]. *)
Definition survives (c : Z -> list Z) (d : disk) : Prop :=
  exists orig size, 0 <= size <= 1073741823 /\ length orig = (Z.to_nat size * PSZ)%nat /\
    same_content (fpage orig) c /\ recoverable orig size D d.

Definition refs_of (l : list Z) (q : Z) : Z := Z.of_nat (count_occ Z.eq_dec l q).

(** Nobody holds a page, a session is open, or it has been rolled back. *)
Inductive refines (a : store) (x : Pager) (d : disk) : Prop :=
| rf_rested :
    rested x d -> survives (s_com a) d -> s_refs a = [] -> s_writable a = ∅ ->
    same_content (s_cur a) (s_com a) -> s_over a = false -> refines a x d
| rf_live orig size :
    0 <= size <= 1073741823 -> length orig = (Z.to_nat size * PSZ)%nat ->
    same_content (fpage orig) (s_com a) -> live orig size D x d -> 0 < pnRef x ->
    s_refs a <> [] -> Forall (fun q => 1 <= q <= 1073741823) (s_refs a) ->
    (forall q, 1 <= q -> refcount x q = refs_of (s_refs a) q) ->
    same_content (view x d) (s_cur a) ->
    (forall q, q ∈ s_writable a -> q ∈ s_refs a /\ isdirty x q = true) ->
    s_over a = false -> refines a x d
| rf_rolled orig size :
    0 <= size <= 1073741823 -> length orig = (Z.to_nat size * PSZ)%nat ->
    same_content (fpage orig) (s_com a) -> rolled orig size D x d -> 0 < pnRef x ->
    s_refs a <> [] -> Forall (fun q => 1 <= q <= 1073741823) (s_refs a) ->
    (forall q, 1 <= q -> refcount x q = refs_of (s_refs a) q) ->
    s_cur a = s_com a -> s_writable a = ∅ -> s_over a = true -> refines a x d.

Lemma same_content_trans c1 c2 c3 :
  same_content c1 c2 -> same_content c2 c3 -> same_content c1 c3.
Proof. intros H1 H2 q Hq HD. by rewrite H1, H2. Qed.

Lemma same_content_sym c1 c2 : same_content c1 c2 -> same_content c2 c1.
Proof. intros H q Hq HD. by rewrite H. Qed.

#[local] Instance same_content_equiv : Equivalence same_content.
Proof.
  split; [by intros c q|exact same_content_sym|exact same_content_trans].
Qed.

Lemma fpage_same a b p : page a p = page b p -> fpage a p = fpage b p.
Proof. unfold fpage. by intros ->. Qed.

Lemma agrees_content orig size o :
  length orig = (Z.to_nat size * PSZ)%nat -> agrees orig size D o ->
  same_content (fpage o) (fpage orig).
Proof.
  intros Hl [Hlen Hp] q Hq HD. destruct (Z.le_gt_cases q size) as [Hs|Hs].
  - apply fpage_same, Hp; [by split|done].
  - assert (Hb : (Z.to_nat size * PSZ <= page_offset q)%nat).
    { unfold page_offset. apply Nat.mul_le_mono_r. lia. }
    rewrite !fpage_beyond; [done|lia|lia].
Qed.

Lemma recoverable_survives orig size c d :
  0 <= size <= 1073741823 -> length orig = (Z.to_nat size * PSZ)%nat ->
  same_content (fpage orig) c -> recoverable orig size D d -> survives c d.
Proof. intros. by exists orig, size. Qed.

Lemma survives_same c c' d : same_content c c' -> survives c d -> survives c' d.
Proof.
  intros H (o & sz & H1 & H2 & H3 & H4). exists o, sz. split; [done|]. split; [done|]. split; [|done]. by apply (same_content_trans _ c).
Qed.

(** ** Bags of references *)

Lemma refs_of_cons p l q : refs_of (p :: l) q = refs_of l q + (if decide (q = p) then 1 else 0).
Proof.
  unfold refs_of. cbn [count_occ]. destruct (Z.eq_dec p q); case_decide; try congruence; lia.
Qed.

Lemma refs_of_pos l q : 0 < refs_of l q <-> q ∈ l.
Proof.
  unfold refs_of. rewrite list_elem_of_In. rewrite (count_occ_In Z.eq_dec). lia.
Qed.

Lemma remove_one_refs p l q :
  p ∈ l -> refs_of (remove_one p l) q = refs_of l q - (if decide (q = p) then 1 else 0).
Proof.
  induction l as [|r l IH]; [by intros ?%elem_of_nil|]. intros Hp. cbn [remove_one].
  destruct (Z.eqb_spec r p) as [->|Hr].
  - rewrite refs_of_cons. lia.
  - apply elem_of_cons in Hp as [->|Hp]; [done|]. rewrite !refs_of_cons, IH by done. lia.
Qed.

Lemma remove_one_Forall (P : Z -> Prop) p l : Forall P l -> Forall P (remove_one p l).
Proof.
  induction 1 as [|r l Hr Hl IH]; [done|]. cbn [remove_one]. destruct (r =? p); [done|].
  by constructor.
Qed.

(** A page the client holds is in the cache. *)
Lemma held_look x l p :
  (forall q, 1 <= q -> refcount x q = refs_of l q) -> Forall (fun q => 1 <= q <= 1073741823) l ->
  held_in p l = true -> exists h, look x p = Some h /\ 0 < nRef h /\ nRef h = refs_of l p /\
    1 <= p <= 1073741823.
Proof.
  intros Hr Hf Hp. apply bool_decide_eq_true in Hp. pose proof Hp as Hin.
  rewrite Forall_forall in Hf. destruct (Hf p Hin) as [Hp1 Hp2].
  apply refs_of_pos in Hin. rewrite <- Hr in Hin by done. unfold refcount in *.
  specialize (Hr p Hp1). destruct (look x p) as [h|]; [|lia]. by exists h.
Qed.

(** ** One call *)

Definition op_post (o : op) (a : store) (rc : Z) (w : World) : Prop :=
  (o <> O_commit -> rc = SQLITE_OK) /\ no_err (dk w) /\ refines (spec_step o a) (pg w) (dk w).

Definition op_crash (o : op) (a : store) (w : World) : Prop :=
  survives (s_com a) (dk w) \/ survives (s_com (spec_step o a)) (dk w).

(** What [rf_live] says, for the lemmas about single calls. *)
Record in_session (orig : list Z) (size : Z) (a : store) (x : Pager) (d : disk) : Prop := {
  is_size : 0 <= size <= 1073741823;
  is_orig : length orig = (Z.to_nat size * PSZ)%nat;
  is_com : same_content (fpage orig) (s_com a);
  is_live : live orig size D x d;
  is_pnRef : 0 < pnRef x;
  is_held : s_refs a <> [];
  is_pages : Forall (fun q => 1 <= q <= 1073741823) (s_refs a);
  is_refs : forall q, 1 <= q -> refcount x q = refs_of (s_refs a) q;
  is_cur : same_content (view x d) (s_cur a);
  is_writable : forall q, q ∈ s_writable a -> q ∈ s_refs a /\ isdirty x q = true;
  is_over : s_over a = false
}.

Lemma in_session_refines orig size a x d : in_session orig size a x d -> refines a x d.
Proof. intros []. by apply (rf_live _ _ _ orig size). Qed.

(** A call that touches page [p] only, which the client holds afterwards. *)
Lemma session_page p a b orig size x d x' d' :
  in_session orig size a x d ->
  s_com b = s_com a -> s_over b = s_over a -> (forall q, q <> p -> s_cur b q = s_cur a q) ->
  (forall q, q <> p -> refs_of (s_refs b) q = refs_of (s_refs a) q) ->
  s_refs b <> [] -> Forall (fun q => 1 <= q <= 1073741823) (s_refs b) ->
  (forall q, q ∈ s_writable b -> q <> p -> q ∈ s_writable a) ->
  live orig size D x' d' -> kept p x d x' d' -> 0 < pnRef x' ->
  (1 <= p -> refcount x' p = refs_of (s_refs b) p) ->
  (1 <= p -> p ∉ D -> view x' d' p = s_cur b p) ->
  (p ∈ s_writable b -> p ∈ s_refs b /\ isdirty x' p = true) ->
  in_session orig size b x' d'.
Proof.
  intros [] Ecom Eov Ecur Eref Hne Hf Hw Hlv Hk Hpn Hr Hv Hd. split; try (done || congruence).
  - by rewrite Ecom.
  - intros q Hq. destruct (decide (q = p)) as [->|Hqp]; [by apply Hr|].
    destruct (Hk q Hqp Hq) as (-> & _). rewrite Eref by done. by apply is_refs0.
  - intros q Hq HD. destruct (decide (q = p)) as [->|Hqp]; [by apply Hv|].
    destruct (Hk q Hqp Hq) as (_ & -> & _). rewrite Ecur by done. by apply is_cur0.
  - intros q Hq. destruct (decide (q = p)) as [->|Hqp]; [by apply Hd|].
    destruct (is_writable0 q (Hw q Hq Hqp)) as [Hqr Hqd].
    assert (Hq1 : 1 <= q) by (rewrite Forall_forall in is_pages0; by apply is_pages0).
    split; [apply refs_of_pos; rewrite Eref by done; by apply refs_of_pos|].
    destruct (Hk q Hqp Hq1) as (_ & _ & Hkd). rewrite Hkd; [done|].
    rewrite is_refs0 by done. by apply refs_of_pos.
Qed.

Definition more_refs (p : Z) (a : store) : store :=
  mkStore (p :: s_refs a) (s_writable a) (s_cur a) (s_com a) (s_over a).

(** Another reference to a page of the session. *)
Lemma session_more p a orig size x d x' d' :
  in_session orig size a x d -> 1 <= p <= 1073741823 ->
  live orig size D x' d' -> kept p x d x' d' -> 0 < pnRef x' ->
  refcount x' p = refcount x p + 1 -> view x' d' p = view x d p -> isdirty x' p = isdirty x p ->
  in_session orig size (more_refs p a) x' d'.
Proof.
  intros Hse Hp Hlv Hk Hpn Hr Hv Hd. pose proof Hse as [].
  apply (session_page p a _ orig size x d); try done; cbn [more_refs s_refs s_cur s_writable].
  - intros q Hq. rewrite refs_of_cons, decide_False by done. lia.
  - by constructor.
  - intros _. rewrite refs_of_cons, decide_True by done. rewrite Hr, is_refs0 by lia. done.
  - intros _ HD. rewrite Hv. by apply is_cur0; [lia|].
  - intros Hq. destruct (is_writable0 p Hq). split; [by left|congruence].
Qed.

(** The session begins. *)
Lemma entered_session orig size a x d :
  0 <= size <= 1073741823 -> length orig = (Z.to_nat size * PSZ)%nat ->
  same_content (fpage orig) (s_com a) -> s_refs a = [] -> s_writable a = ∅ ->
  same_content (s_cur a) (s_com a) -> s_over a = false -> entered orig size D x d ->
  forall p x' d', 1 <= p <= 1073741823 -> gotten (f_data (d_db d)) size D p 1 x d x' d' ->
  in_session (f_data (d_db d)) size (more_refs p a) x' d'.
Proof.
  intros Hs Hl Hcom Hr Hw Hcur Hov [Hag Hlv Hrd [Ha Hp0]] p x' d' Hp [].
  assert (Hlk : forall q, look x q = None) by (intros; by apply look_nil).
  assert (Hview : forall q, view x d q = fpage (f_data (d_db d)) q) by (intros q; unfold view; by rewrite Hlk).
  pose proof (agrees_content orig size _ Hl Hag) as Hsame.
  split; cbn [more_refs s_refs s_cur s_com s_writable]; try done.
  - destruct Hag. congruence.
  - by transitivity (fpage orig).
  - rewrite Hr. by constructor.
  - intros q Hq. rewrite Hr, refs_of_cons. case_decide as E; [by subst|].
    destruct (gt_kept q E Hq) as (-> & _). unfold refcount. by rewrite Hlk.
  - intros q Hq HD. transitivity (view x d q).
    + destruct (decide (q = p)) as [->|E]; [done|]. by destruct (gt_kept q E Hq) as (_ & -> & _).
    + rewrite Hview, Hsame, Hcom by done. symmetry. by apply Hcur.
  - intros q. rewrite Hw. set_solver.
Qed.

(** * One call refines one step of the specification *)

(** The call returns [rc] in a state that refines [b]; a death on the way leaves
    the content committed in [a] or in [b]. *)
Definition steps_to (a b : store) (m : M World Z) (w : World) : Prop :=
  wp m (fun rc w' => no_err (dk w') /\ refines b (pg w') (dk w') /\
          (rc = SQLITE_OK \/ rc = SQLITE_ERROR))
       (fun w' => survives (s_com a) (dk w') \/ survives (s_com b) (dk w')) w.

Lemma session_survives orig size a x d d' :
  in_session orig size a x d -> recoverable orig size D d' -> survives (s_com a) d'.
Proof. intros [] H. by eapply recoverable_survives. Qed.

Lemma session_held orig size a x d p :
  in_session orig size a x d -> held_in p (s_refs a) = true ->
  exists h, look x p = Some h /\ 0 < nRef h /\ nRef h = refs_of (s_refs a) p /\ 1 <= p <= 1073741823.
Proof. intros [] Hh. by apply (held_look x (s_refs a)). Qed.

Lemma look_refcount x p h : look x p = Some h -> refcount x p = nRef h.
Proof. unfold refcount. by intros ->. Qed.

Lemma session_ref orig size a x d p b m :
  no_err d -> in_session orig size a x d -> held_in p (s_refs a) = true -> b = more_refs p a ->
  (forall h Q C, look x p = Some h ->
     (forall x', rereferenced orig size D p (nRef h + 1) x d x' -> Q SQLITE_OK (mkWorld x' d)) ->
     wp m Q C (mkWorld x d)) ->
  steps_to a b m (mkWorld x d).
Proof.
  intros Hn Hse Hh -> Hm. destruct (session_held _ _ _ _ _ _ Hse Hh) as (h & Hl & Hr & Hr2 & Hp).
  apply (Hm h); [done|]. intros x' []. split; [done|]. split; [|by left].
  cbn [pg dk]. apply (in_session_refines orig size). apply (session_more p a orig size x d); try done.
  by rewrite rr_refs, (look_refcount x p h).
Qed.

Lemma spec_unref_cases p a :
  remove_one p (s_refs a) = [] /\ spec_step (O_unref p) a = mkStore [] ∅ (s_com a) (s_com a) false \/
  remove_one p (s_refs a) <> [] /\ spec_step (O_unref p) a =
    mkStore (remove_one p (s_refs a))
      (if held_in p (remove_one p (s_refs a)) then s_writable a else s_writable a ∖ {[ p ]})
      (s_cur a) (s_com a) (s_over a).
Proof. cbn [spec_step]. destruct (remove_one p (s_refs a)); [by left|by right]. Qed.

(** The last reference is dropped exactly when no page is held any more. *)
Lemma refd_one_page x p h q :
  cache_ok x -> pnRef x = 1 -> look x p = Some h -> 0 < nRef h -> q <> p -> refcount x q = 0.
Proof.
  intros Hok Hone Hl Hr Hq. unfold refcount. destruct (look x q) as [g|] eqn:Hg; [|done].
  destruct (c_pages _ Hok q g Hg) as (_ & _ & Hr0 & _).
  destruct (Z.eq_dec (nRef g) 0) as [?|Hne]; [done|exfalso].
  pose proof (c_cnt _ Hok) as Hc. rewrite Hone in Hc.
  pose proof (refd_map_page p (pg_set_nRef 0) (pAll x) h (c_nd _ Hok) Hl) as H1.
  assert (Hg' : find_page q (map_page p (pg_set_nRef 0) (pAll x)) = Some g).
  { rewrite find_page_map_page by done. rewrite decide_False by done. exact Hg. }
  assert (Hnd : NoDup (map pgno (map_page p (pg_set_nRef 0) (pAll x)))).
  { rewrite map_page_pgno by done. apply Hok. }
  pose proof (refd_last _ q g Hnd Hg') as H2. unfold held in H1.
  rewrite decide_True in H1 by done. cbn [nRef pg_set_nRef] in H1.
  rewrite decide_False in H1 by lia. lia.
Qed.

(** While the pager counts a page in use, the client holds one. *)
Lemma refs_of_pos_pager x l :
  cache_ok x -> 0 < pnRef x -> (forall q, 1 <= q -> refcount x q = refs_of l q) -> l <> [].
Proof.
  intros Hok Hpn Hr ->. pose proof (c_cnt _ Hok) as Hc. unfold refd in Hc.
  destruct (filter _ (pAll x)) as [|g r] eqn:Ef; [cbn in Hc; lia|].
  assert (Hg : g ∈ filter (fun h => 0 < nRef h) (pAll x)) by (rewrite Ef; by left).
  apply list_elem_of_filter in Hg as [Hg0 Hg].
  pose proof (find_page_unique _ _ (c_nd _ Hok) Hg) as Hgl.
  destruct (c_pages _ Hok _ _ Hgl) as (Hg1 & _).
  specialize (Hr (pgno g) Hg1). unfold refcount, look, refs_of in Hr. rewrite Hgl in Hr. cbn in Hr. lia.
Qed.

Lemma session_unref orig size a x d p :
  no_err d -> in_session orig size a x d -> held_in p (s_refs a) = true ->
  steps_to a (spec_step (O_unref p) a) (sqlitepager_unref p) (mkWorld x d).
Proof.
  intros Hn Hse Hh. destruct (session_held _ _ _ _ _ _ Hse Hh) as (h & Hl & Hr & Hr2 & Hp).
  pose proof Hh as Hin. apply bool_decide_eq_true in Hin. pose proof Hse as [].
  set (l := remove_one p (s_refs a)).
  assert (Hlp : forall q, refs_of l q = refs_of (s_refs a) q - (if decide (q = p) then 1 else 0)).
  { intros q. by apply remove_one_refs. }
  assert (Hcom : s_com (spec_step (O_unref p) a) = s_com a).
  { destruct (spec_unref_cases p a) as [[_ ->]|[_ ->]]; done. }
  apply (wp_unref_live orig size D is_size0 is_orig0 p h); [done|done|done|done| | |].
  - intros x' d' Hrec. left. by eapply session_survives.
  - intros x' []. split; [done|]. split; [|by left]. cbn [pg dk]. apply (in_session_refines orig size).
    destruct (spec_unref_cases p a) as [[El ->]|[El ->]].
    + exfalso. fold l in El. revert El. apply (refs_of_pos_pager x'); [apply rr_live|done|].
      intros q Hq. rewrite Hlp. case_decide as E; [subst q; lia|].
      destruct (rr_kept q E Hq) as (-> & _). by rewrite is_refs0, Z.sub_0_r.
    + fold l in El. fold l. apply (session_page p a _ orig size x d); try done;
        cbn [s_refs s_cur s_writable].
      * intros q Hq. rewrite Hlp, decide_False by done. lia.
      * by apply remove_one_Forall.
      * intros q. case_match; [done|]. set_solver.
      * intros _. rewrite rr_refs, Hlp, decide_True by done. lia.
      * intros _ HD. rewrite rr_view. apply is_cur0; [lia|done].
      * destruct (held_in p l) eqn:El2; [|set_solver].
        intros Hq. destruct (is_writable0 p Hq). split; [by apply bool_decide_eq_true in El2|congruence].
  - intros x' d' Hr1 Hp1 Hn' Hre Hrec. split; [done|]. split; [|by left].
    assert (El : l = []).
    { destruct l as [|q l'] eqn:El; [done|exfalso].
      assert (Hq : 0 < refs_of l q) by (rewrite El; apply refs_of_pos; by left).
      rewrite <- El in Hlp. rewrite Hlp in Hq. case_decide as Eq; [subst q; lia|].
      assert (Hq1 : 1 <= q).
      { assert (Hqa : q ∈ s_refs a) by (apply refs_of_pos; lia).
        rewrite Forall_forall in is_pages0. by apply is_pages0. }
      rewrite <- is_refs0 in Hq by done.
      rewrite (refd_one_page x p h q) in Hq; try done. apply is_live0. }
    destruct (spec_unref_cases p a) as [[_ ->]|[? _]]; [|done].
    apply rf_rested; try done. by apply (recoverable_survives orig size).
Qed.

Lemma session_get orig size a x d p :
  no_err d -> in_session orig size a x d -> 1 <= p <= 4194303 ->
  steps_to a (more_refs p a) (sqlitepager_get p) (mkWorld x d).
Proof.
  intros Hn Hse Hp. pose proof Hse as [].
  apply (wp_get_live orig size D is_size0 is_orig0); [done|done|done|done| |].
  - intros x' d' Hrec. left. by eapply session_survives.
  - intros x' d' Hn' []. split; [done|]. split; [|by left]. cbn [pg dk].
    apply (in_session_refines orig size). apply (session_more p a orig size x d); (done || lia).
Qed.

Lemma session_write orig size a x d p :
  no_err d -> in_session orig size a x d -> held_in p (s_refs a) = true ->
  steps_to a (spec_step (O_write p) a) (sqlitepager_write p) (mkWorld x d).
Proof.
  intros Hn Hse Hh. destruct (session_held _ _ _ _ _ _ Hse Hh) as (h & Hl & Hr & Hr2 & Hp).
  pose proof Hse as [].
  apply (wp_write_page orig size D is_size0 is_orig0 p h); [done..|lia| |].
  - intros x' d' Hrec. left. by eapply session_survives.
  - intros x' d' Hn' []. split; [done|]. split; [|by left]. cbn [pg dk].
    apply (in_session_refines orig size).
    apply (session_page p a _ orig size x d); try done; cbn [spec_step s_refs s_cur s_writable].
    + set_solver.
    + congruence.
    + intros _. rewrite wt_refs. by apply is_refs0; lia.
    + intros _ HD. rewrite wt_view. by apply is_cur0; [lia|].
    + intros _. split; [by apply bool_decide_eq_true in Hh|done].
Qed.

Lemma session_store orig size a x d p dta :
  no_err d -> in_session orig size a x d -> held_in p (s_refs a) = true -> p ∈ s_writable a ->
  length dta = PSZ ->
  steps_to a (spec_step (O_store p dta) a) (store_page p dta;; mret SQLITE_OK) (mkWorld x d).
Proof.
  intros Hn Hse Hh Hw Hlen. destruct (session_held _ _ _ _ _ _ Hse Hh) as (h & Hl & Hr & Hr2 & Hp).
  pose proof Hse as []. destruct (is_writable0 p Hw) as [Hpr Hd].
  assert (Hdh : dirty h = true) by (unfold isdirty in Hd; by rewrite Hl in Hd).
  apply wp_bind, (wp_store_page orig size D is_orig0 p dta h); [done..|].
  intros x' []. apply wp_ret. split; [done|]. split; [|by left]. cbn [pg dk].
  apply (in_session_refines orig size).
  apply (session_page p a _ orig size x d); try done; cbn [spec_step s_refs s_cur s_writable].
  - intros q Hq. by rewrite (proj2 (Z.eqb_neq _ _)).
  - congruence.
  - intros _. rewrite st_refs. by apply is_refs0; lia.
  - intros _ _. by rewrite Z.eqb_refl.
Qed.

(** A call that changes nothing a client sees. *)
Lemma session_silent orig size a x d x' d' :
  in_session orig size a x d -> live orig size D x' d' -> kept 0 x d x' d' -> pnRef x' = pnRef x ->
  in_session orig size a x' d'.
Proof.
  intros [] Hlv Hk Hpn.
  assert (Hk' : forall q, 1 <= q -> refcount x' q = refcount x q /\ view x' d' q = view x d q /\
    (0 < refcount x q -> isdirty x' q = isdirty x q)) by (intros; apply Hk; lia).
  split; try done.
  - congruence.
  - intros q Hq. destruct (Hk' q Hq) as (-> & _). by apply is_refs0.
  - intros q Hq HD. destruct (Hk' q Hq) as (_ & -> & _). by apply is_cur0.
  - intros q Hq. destruct (is_writable0 q Hq) as [Hr Hd]. split; [done|].
    rewrite Forall_forall in is_pages0. assert (Hq1 : 1 <= q) by by apply is_pages0.
    destruct (Hk' q Hq1) as (_ & _ & E). rewrite E; [done|]. rewrite is_refs0 by done. by apply refs_of_pos.
Qed.

Lemma session_begin orig size a x d p :
  no_err d -> in_session orig size a x d -> held_in p (s_refs a) = true ->
  steps_to a a (sqlitepager_begin p) (mkWorld x d).
Proof.
  intros Hn Hse Hh. destruct (session_held _ _ _ _ _ _ Hse Hh) as (h & Hl & Hr & Hr2 & Hp).
  pose proof Hse as [].
  apply (wp_begin orig size D is_size0 is_orig0 p h x x); [done..| |].
  - intros x' d' Hrec. left. by eapply session_survives.
  - intros f ps m s x' d' Hn' Hdb Ha Hpn Hlv Hw. split; [done|]. split; [|by left]. cbn [pg dk].
    replace (set_pAll (pAll x) x') with x' in Hlv by (rewrite <- Ha; by destruct x').
    apply (in_session_refines orig size). apply (session_silent orig size a x d); try done.
    intros q _ _. unfold refcount, view, isdirty, look. by rewrite Ha, Hdb.
Qed.

Lemma session_dont_rollback orig size a x d p :
  no_err d -> in_session orig size a x d -> held_in p (s_refs a) = true -> p ∈ D ->
  steps_to a a (sqlitepager_dont_rollback p;; mret SQLITE_OK) (mkWorld x d).
Proof.
  intros Hn Hse Hh HD. destruct (session_held _ _ _ _ _ _ Hse Hh) as (h & Hl & Hr & Hr2 & Hp).
  pose proof Hse as [].
  apply wp_bind, (wp_dont_rollback orig size D is_size0 is_orig0 p h); [done..|].
  intros x' Hlv Hk Hpn. apply wp_ret. split; [done|]. split; [|by left]. cbn [pg dk].
  apply (in_session_refines orig size). by apply (session_silent orig size a x d).
Qed.

Lemma session_commit orig size a x d :
  no_err d -> in_session orig size a x d ->
  steps_to a (spec_step O_commit a) sqlitepager_commit (mkWorld x d).
Proof.
  intros Hn Hse. pose proof Hse as [].
  assert (Hnew : forall o sz, new_content x d o sz -> same_content (fpage o) (s_cur a)).
  { intros o sz [_ _ Hv] q Hq HD. rewrite Hv by done. by apply is_cur0. }
  destruct (lv_session _ _ _ _ _ is_live0) as [Hrd|Hw].
  - apply (wp_commit_reading orig size); [done|]. split; [done|]. split; [|by right]. cbn [pg dk].
    apply (in_session_refines orig size). destruct is_live0.
    assert (Hclean : forall q, isdirty x q = false).
    { intros q. unfold isdirty. destruct (look x q) as [h|] eqn:Hl; [|done].
      by destruct (rd_pages _ _ _ _ Hrd q h Hl) as [(? & _) _]. }
    assert (Hv : forall q, view x d q = fpage orig q).
    { intros q. rewrite <- (rd_db _ _ _ _ Hrd). apply clean_view. intros r h Hl.
      by destruct (rd_pages _ _ _ _ Hrd r h Hl). }
    split; cbn [spec_step s_refs s_cur s_com s_writable]; try done.
    intros q Hq HD. rewrite <- Hv. by apply is_cur0.
  - apply (wp_commit orig size D is_size0 is_orig0); [done..| |].
    + intros x' d' [Hrec|(o & sz & Hnc & Hrec)]; [left; by eapply session_survives|right].
      cbn [spec_step s_com]. exists o, sz. destruct Hnc as [[? ?] ? ?] eqn:E. clear E.
      split; [done|]. split; [done|]. split; [|done]. by apply (Hnew o sz).
    + intros x' d' sz Hn' []. split; [done|]. split; [|by left]. cbn [pg dk].
      pose proof cm_content as [[Hsz Hlen] Hszb Hv].
      apply (in_session_refines (f_data (d_db d')) sz). split; cbn [spec_step s_refs s_cur s_com s_writable]; try done.
      * by apply (Hnew _ sz).
      * congruence.
      * intros q Hq. destruct (cm_same q Hq) as [-> _]. by apply is_refs0.
      * intros q Hq HD. destruct (cm_same q Hq) as [_ ->]. by apply is_cur0.
Qed.

Lemma session_lookup orig size a x d p :
  no_err d -> in_session orig size a x d -> held_in p (s_refs a) = true ->
  steps_to a (more_refs p a) (r ← sqlitepager_lookup p;
    mret (if r is Some _ then SQLITE_OK else SQLITE_ERROR)) (mkWorld x d).
Proof.
  intros Hn Hse Hh. destruct (session_held _ _ _ _ _ _ Hse Hh) as (h0 & _ & _ & _ & Hp).
  pose proof Hse as []. pose proof (session_healthy _ _ _ _ _ (lv_session _ _ _ _ _ is_live0)) as [_ _ _ Herr _].
  apply (session_ref orig size a x d p); [done|done|done|done|].
  intros h Q C Hl HQ. unfold sqlitepager_lookup. wsteps; [lia|]. rewrite Herr.
  change (Z.land 0 (Z.lnot PAGER_ERR_FULL) =? 0) with true. cbn [negb]. wsteps.
  unfold look in Hl. rewrite Hl. wsteps.
  apply (wp_ref orig size D is_size0 is_orig0 p h); [done|done|]. intros x' Hr. wsteps. by apply HQ.
Qed.

Lemma rested_get a x d p :
  no_err d -> rested x d -> survives (s_com a) d -> s_refs a = [] -> s_writable a = ∅ ->
  same_content (s_cur a) (s_com a) -> s_over a = false -> 1 <= p <= 1073741823 ->
  steps_to a (more_refs p a) (sqlitepager_get p) (mkWorld x d).
Proof.
  intros Hn Hre (orig & size & Hs & Hl & Hcom & Hrec) Hr Hw Hcur Hov Hp.
  apply (wp_get_rested orig size D Hs Hl); [done|done|done|lia| |].
  - intros x' d' (o & Hag & Ho). left. exists o, size. split; [done|].
    split; [destruct Hag; congruence|]. split; [|done].
    transitivity (fpage orig); [by apply (agrees_content orig size)|done].
  - intros x1 d1 x' d' Hn' He Hg. split; [done|]. split; [|by left]. cbn [pg dk].
    apply (in_session_refines (f_data (d_db d1)) size).
    by apply (entered_session orig size a x1 d1 Hs Hl Hcom Hr Hw Hcur Hov He).
Qed.

(** ** Rolling back *)

Lemma session_rollbackable orig size a x d :
  in_session orig size a x d -> forallb (Z.eqb 1) (s_refs a) = true -> rollbackable (pAll x).
Proof.
  intros [] Hone. rewrite forallb_forall in Hone.
  apply Forall_look; [apply is_live0|]. intros q h Hl. pose proof (look_pgno _ _ _ Hl) as <-.
  destruct (c_pages _ (lv_cache _ _ _ _ _ is_live0) _ h Hl) as (Hp1 & _ & Hr & _).
  destruct (Z.eq_dec (nRef h) 0) as [?|Hne]; [by left|right].
  assert (Hin : pgno h ∈ s_refs a).
  { apply refs_of_pos. rewrite <- is_refs0 by done. rewrite (look_refcount _ _ _ Hl). lia. }
  symmetry. apply Z.eqb_eq, Hone. by apply list_elem_of_In.
Qed.

Lemma session_rollback orig size a x d :
  no_err d -> in_session orig size a x d -> forallb (Z.eqb 1) (s_refs a) = true ->
  steps_to a (spec_step O_rollback a) sqlitepager_rollback (mkWorld x d).
Proof.
  intros Hn Hse Hone. pose proof Hse as [].
  pose proof (session_rollbackable orig size a x d Hse Hone) as Hrb.
  apply (wp_rollback_live orig size D is_size0 is_orig0); [done|done|done| |].
  - intros x' d' Hrec. left. by eapply session_survives.
  - intros x' d' Hn' [Hag Hro Hrc Hpn]. split; [done|]. split; [|by left]. cbn [pg dk].
    apply (rf_rolled _ _ _ (f_data (d_db d')) size); cbn [spec_step s_refs s_cur s_com s_writable s_over];
      try done.
    + destruct Hag. congruence.
    + apply (same_content_trans _ (fpage orig)); [by apply (agrees_content orig size)|done].
    + congruence.
    + intros q Hq. rewrite Hrc. by apply is_refs0.
Qed.

(** After the rollback the client gives its pages back. *)
Record in_rolled (orig : list Z) (size : Z) (a : store) (x : Pager) (d : disk) : Prop := {
  il_size : 0 <= size <= 1073741823;
  il_orig : length orig = (Z.to_nat size * PSZ)%nat;
  il_com : same_content (fpage orig) (s_com a);
  il_rolled : rolled orig size D x d;
  il_pnRef : 0 < pnRef x;
  il_held : s_refs a <> [];
  il_pages : Forall (fun q => 1 <= q <= 1073741823) (s_refs a);
  il_refs : forall q, 1 <= q -> refcount x q = refs_of (s_refs a) q;
  il_cur : s_cur a = s_com a;
  il_writable : s_writable a = ∅;
  il_over : s_over a = true
}.

Lemma in_rolled_refines orig size a x d : in_rolled orig size a x d -> refines a x d.
Proof. intros []. by apply (rf_rolled _ _ _ orig size). Qed.

Lemma rolled_survives orig size a x d d' :
  in_rolled orig size a x d -> recoverable orig size D d' -> survives (s_com a) d'.
Proof. intros [] H. by eapply recoverable_survives. Qed.

Lemma rolled_more orig size a x d p h x' :
  in_rolled orig size a x d -> look x p = Some h -> 1 <= p <= 1073741823 ->
  rolled_ref orig size D p (nRef h + 1) x d x' -> in_rolled orig size (more_refs p a) x' d.
Proof.
  intros [] Hl Hp []. split; cbn [more_refs s_refs s_cur s_com s_writable s_over]; try done.
  - by constructor.
  - intros q Hq. rewrite rl_refs, refs_of_cons. case_decide as E; [|rewrite il_refs0 by done; lia].
    subst q. rewrite <- il_refs0 by done. rewrite (look_refcount _ _ _ Hl). lia.
Qed.

Lemma rolled_ref_step orig size a x d p h m :
  no_err d -> in_rolled orig size a x d -> look x p = Some h -> 1 <= p <= 1073741823 ->
  (forall Q C, (forall x', rolled_ref orig size D p (nRef h + 1) x d x' ->
     Q SQLITE_OK (mkWorld x' d)) -> wp m Q C (mkWorld x d)) ->
  steps_to a (more_refs p a) m (mkWorld x d).
Proof.
  intros Hn Hro Hl Hp Hm. apply Hm. intros x' Hx'. split; [done|]. split; [|by left].
  cbn [pg dk]. apply (in_rolled_refines orig size). by apply (rolled_more orig size a x d p h).
Qed.

(** The client's last reference is the pager's last one. *)
Lemma remove_one_nil p l : p ∈ l -> remove_one p l = [] -> l = [p].
Proof.
  destruct l as [|q l]; [by intros ?%elem_of_nil|]. cbn [remove_one].
  destruct (Z.eqb_spec q p) as [->|E]; [by intros _ ->|done].
Qed.

Lemma rolled_unref orig size a x d p :
  no_err d -> in_rolled orig size a x d -> held_in p (s_refs a) = true ->
  steps_to a (spec_step (O_unref p) a) (sqlitepager_unref p) (mkWorld x d).
Proof.
  intros Hn Hse Hh. pose proof Hse as [].
  destruct (held_look x (s_refs a) p il_refs0 il_pages0 Hh) as (h & Hl & Hr & Hr2 & Hp).
  pose proof Hh as Hin. apply bool_decide_eq_true in Hin.
  set (l := remove_one p (s_refs a)).
  assert (Hlp : forall q, refs_of l q = refs_of (s_refs a) q - (if decide (q = p) then 1 else 0)).
  { intros q. by apply remove_one_refs. }
  apply (wp_unref_rolled orig size D il_size0 il_orig0 p h); [done|done|done|done| | |].
  - intros x' d' Hrec. left. by eapply rolled_survives.
  - intros x' []. split; [done|]. split; [|by left]. cbn [pg dk]. apply (in_rolled_refines orig size).
    assert (Hrefs : forall q, 1 <= q -> refcount x' q = refs_of l q).
    { intros q Hq. rewrite rl_refs, Hlp. destruct (decide (q = p)) as [->|E]; [lia|].
      by rewrite il_refs0, Z.sub_0_r. }
    destruct (spec_unref_cases p a) as [[El _]|[El ->]]; fold l in El.
    + destruct (refs_of_pos_pager x' l (ro_cache _ _ _ _ _ rl_rolled) rl_pnRef Hrefs El).
    + fold l. split; cbn [s_refs s_cur s_com s_writable s_over]; try done.
      * by apply remove_one_Forall.
      * rewrite il_writable0. case_match; [done|set_solver].
  - intros x' d' Hr1 Hp1 Hn' Hre Hrec. split; [done|]. split; [|by left].
    assert (El : l = []).
    { destruct l as [|q l'] eqn:El; [done|exfalso].
      assert (Hq : 0 < refs_of l q) by (rewrite El; apply refs_of_pos; by left).
      rewrite <- El in Hlp. rewrite Hlp in Hq. case_decide as Eq; [subst q; lia|].
      assert (Hq1 : 1 <= q).
      { assert (Hqa : q ∈ s_refs a) by (apply refs_of_pos; lia).
        rewrite Forall_forall in il_pages0. by apply il_pages0. }
      rewrite <- il_refs0 in Hq by done.
      rewrite (refd_one_page x p h q) in Hq; try done. apply il_rolled0. }
    destruct (spec_unref_cases p a) as [[_ ->]|[? _]]; [|done].
    apply rf_rested; try done. by apply (recoverable_survives orig size).
Qed.

(** The calls that are left after a rollback. *)
Lemma rolled_step orig size o a x d :
  no_err d -> in_rolled orig size a x d -> allowed D o a = true ->
  steps_to a (spec_step o a) (run_op o) (mkWorld x d).
Proof.
  intros Hn Hse Ho. pose proof Hse as [].
  destruct o; cbn [allowed] in Ho; rewrite ?il_over0 in Ho; try done; cbn [run_op];
    try (destruct (held_look x (s_refs a) p il_refs0 il_pages0 Ho) as (h & Hl & Hr & Hr2 & Hp)).
  - replace (spec_step (O_lookup p) a) with (more_refs p a) by (cbn [spec_step]; by rewrite Ho).
    apply (rolled_ref_step orig size a x d p h); [done..|]. intros Q C HQ.
    pose proof (rd_healthy _ _ _ _ (ro_reading _ _ _ _ _ il_rolled0)) as [_ _ _ Herr _].
    cbn in Herr. unfold sqlitepager_lookup. wsteps; [lia|]. rewrite Herr.
    change (Z.land 0 (Z.lnot PAGER_ERR_FULL) =? 0) with true. cbn [negb]. wsteps.
    pose proof Hl as Hl'. unfold look in Hl'. rewrite Hl'. wsteps.
    apply (wp_ref_rolled orig size D il_orig0 p h); [done|done|]. intros x' Hx'. wsteps. by apply HQ.
  - apply (rolled_ref_step orig size a x d p h); [done..|]. intros Q C HQ.
    unfold sqlitepager_ref. wsteps. apply (wp_ref_rolled orig size D il_orig0 p h); [done|done|].
    intros x' Hx'. wsteps. by apply HQ.
  - by apply (rolled_unref orig size).
Qed.

(** ** Every call *)

Lemma rested_step o a x d :
  no_err d -> rested x d -> survives (s_com a) d -> s_refs a = [] -> s_writable a = ∅ ->
  same_content (s_cur a) (s_com a) -> s_over a = false -> allowed D o a = true ->
  steps_to a (spec_step o a) (run_op o) (mkWorld x d).
Proof.
  intros Hn Hre Hsv Hr Hw Hcur Hov Ho.
  destruct o; cbn [allowed] in Ho; unfold held_in in Ho; rewrite ?Hr, ?Hov in Ho; try done.
  apply andb_true_iff in Ho as [_ [?%Z.leb_le ?%Z.leb_le]%andb_true_iff]. apply rested_get; (done || lia).
Qed.

Lemma session_step orig size o a x d :
  no_err d -> in_session orig size a x d -> allowed D o a = true ->
  steps_to a (spec_step o a) (run_op o) (mkWorld x d).
Proof.
  intros Hn Hse Ho. pose proof Hse as [].
  destruct o; cbn [allowed] in Ho; rewrite ?is_over0 in Ho; cbn [negb andb] in Ho; cbn [run_op].
  - apply andb_true_iff in Ho as [?%Z.leb_le ?%Z.leb_le]. by apply (session_get orig size).
  - replace (spec_step (O_lookup p) a) with (more_refs p a) by (cbn [spec_step]; by rewrite Ho).
    by apply (session_lookup orig size).
  - apply (session_ref orig size a x d p); [done..|]. intros h Q C Hl HQ.
    unfold sqlitepager_ref. wsteps. apply (wp_ref orig size D is_size0 is_orig0 p h); [done|done|].
    intros x' Hx'. wsteps. by apply HQ.
  - by apply (session_unref orig size).
  - by apply (session_begin orig size).
  - by apply (session_write orig size).
  - apply andb_true_iff in Ho as [[Hh Hw]%andb_true_iff Hlen]. apply bool_decide_eq_true in Hw.
    apply Nat.eqb_eq in Hlen. by apply (session_store orig size).
  - apply andb_true_iff in Ho as [Hh HD]. apply bool_decide_eq_true in HD.
    by apply (session_dont_rollback orig size).
  - by apply (session_commit orig size).
  - apply andb_true_iff in Ho as [_ Hone]. by apply (session_rollback orig size).
Qed.

Lemma op_refines o a x d :
  no_err d -> refines a x d -> allowed D o a = true ->
  steps_to a (spec_step o a) (run_op o) (mkWorld x d).
Proof.
  intros Hn Hrf Ho. destruct Hrf as [|orig size|orig size].
  - by apply rested_step.
  - by apply (session_step orig size).
  - by apply (rolled_step orig size).
Qed.

End Refine.
