(* ===== verification/PagerAtomic.v ===== *)
(** The theorems about the page cache of [pager.c]: it implements the
    transactional store of PagerSpec.v, its transactions are atomic when the
    process dies in any system call, a hot journal is rolled back when the
    database is opened again, and a rollback restores every page; and two states
    the code does not handle. *)
From S2P Require Import Prelude OsFile Pager PagerBytes PagerPlayback PagerCache PagerTxn PagerSession PagerWrite PagerCommit PagerRollback PagerSpec.

(** * Sequences of calls *)

Lemma run_ops_refines D os : forall a x d,
  no_err d -> refines D a x d -> client_ok D os a = true ->
  wp (run_ops os)
    (fun _ w => no_err (dk w) /\ refines D (spec_run os a) (pg w) (dk w))
    (fun w => exists k, survives D (s_com (spec_run (take k os) a)) (dk w))
    (mkWorld x d).
Proof.
  induction os as [|o os IH]; intros a x d Hn Hrf Hok; [by apply wp_ret|].
  cbn [client_ok] in Hok. apply andb_true_iff in Hok as [Ho Hok].
  cbn [run_ops]. apply wp_bind.
  eapply wp_mono; [by apply (op_refines D o a x d)| |].
  - intros rc [x' d'] (Hn' & Hrf' & _). eapply wp_mono; [by apply IH|done|].
    intros w (k & Hk). by exists (S k).
  - intros w [Hw|Hw]; [by exists 0%nat|by exists 1%nat].
Qed.

(** A pager that has just been opened on a database file. *)
Definition fresh_pager (mx : Z) : Pager := sqlitepager_open mx true false false.

Lemma fresh_pager_rested mx d : rested (fresh_pager mx) d.
Proof. split; try done. by left. Qed.

(** The specification's state for a database with content [c]. *)
Definition closed_store (c : Z -> list Z) : store := mkStore [] ∅ c c false.

Lemma fresh_refines D c mx d : survives D c d -> refines D (closed_store c) (fresh_pager mx) d.
Proof. intros H. apply rf_rested; [apply fresh_pager_rested|done|done|done|done|done]. Qed.

(** C1: The pager refines the transactional store.  The client makes any sequence of
    calls of get (page numbers up to 4194303), lookup, ref, unref, begin, write,
    store, dont_rollback, commit and rollback on a freshly opened database with a
    journal; it names only pages it holds, gives up only pages of [D], and after a
    rollback, which it makes holding page 1 only, it first gives its pages back.  No
    system call reports an error, but the process may die in any of them.  Then the
    pager never runs into a failed assertion or a dangling pointer; if all calls
    return, every page the client sees and every reference it holds is what the
    specification says; if the process dies, the files lead back to the content
    committed after some prefix of the calls. *)
Theorem pager_refines_store D c mx os d :
  no_err d -> survives D c d -> client_ok D os (closed_store c) = true ->
  wp (run_ops os)
    (fun _ w => no_err (dk w) /\ refines D (spec_run os (closed_store c)) (pg w) (dk w))
    (fun w => exists k, survives D (s_com (spec_run (take k os) (closed_store c))) (dk w))
    (mkWorld (fresh_pager mx) d).
Proof. intros Hn Hs Hok. apply run_ops_refines; [done|by apply fresh_refines|done]. Qed.

(** An empty database and a schedule of system calls. *)
Definition empty_disk (fs : list fault) : disk :=
  mk_disk (mk_file [] [] 0) (mk_file [] [] 0) false (mk_file [] [] 0) NoLock [12345] fs.

Lemma empty_disk_survives D fs : survives D (fpage []) (empty_disk fs).
Proof.
  exists [], 0. split; [lia|]. split; [done|]. split; [by intros q|].
  apply rec_clean; [done|done|]. intros p [? ?]. lia.
Qed.

Definition sample_ops : list op :=
  [O_get 1; O_write 1; O_store 1 (replicate 1024 7); O_get 2; O_write 2;
   O_store 2 (replicate 1024 8); O_unref 2; O_commit;
   O_write 1; O_store 1 (replicate 1024 9); O_rollback; O_unref 1].

Lemma pager_refines_store_witness :
  wp (run_ops sample_ops)
    (fun _ w => no_err (dk w) /\
       refines ∅ (spec_run sample_ops (closed_store (fpage []))) (pg w) (dk w))
    (fun w => exists k, survives ∅
       (s_com (spec_run (take k sample_ops) (closed_store (fpage [])))) (dk w))
    (mkWorld (fresh_pager 10) (empty_disk [F_ok; F_ok; F_ok; F_ok; F_crash 1])).
Proof.
  apply (pager_refines_store ∅ (fpage []) 10 sample_ops).
  - unfold no_err, empty_disk. cbn. repeat constructor.
  - apply empty_disk_survives.
  - vm_compute. reflexivity.
Defined.

(** The first access to a database, with or without a hot journal. *)
Lemma reopened D c mx p d :
  no_err d -> survives D c d -> 1 <= p <= 1073741823 ->
  wp (sqlitepager_get p)
    (fun rc w => rc = SQLITE_OK /\ refcount (pg w) p = 1 /\
       same_content D (view (pg w) (dk w)) c)
    (fun w => survives D c (dk w))
    (mkWorld (fresh_pager mx) d).
Proof.
  intros Hn Hs Hp. pose proof Hs as (orig & size & H1 & H2 & H3 & H4).
  apply (wp_get_rested orig size D H1 H2); [done|apply fresh_pager_rested|done|lia| |].
  - intros x' d' (o & Hag & Ho). exists o, size. split; [done|].
    split; [destruct Hag; congruence|]. split; [|done].
    apply (same_content_trans D _ (fpage orig)); [by apply (agrees_content D orig size)|done].
  - intros x1 d1 x' d' Hn' He Hg. split; [done|]. cbn [pg dk].
    assert (Hse : in_session D (f_data (d_db d1)) size (more_refs p (closed_store c)) x' d')
      by (by apply (entered_session D orig size (closed_store c) x1 d1)).
    destruct Hse. split; [|done]. rewrite is_refs by lia. cbn.
    unfold refs_of. cbn. by destruct (Z.eq_dec p p).
Qed.

(** C3: A hot journal is recovered.  Opening a database whose files lead back to
    the content [c] — with or without a journal that a dead process left behind —
    and asking for any page succeeds and shows [c] on every page that had not
    been given up; and if the process dies during the recovery the files still
    lead back to [c]. *)
Theorem hot_journal_recovery D c mx p d :
  no_err d -> survives D c d -> 1 <= p <= 1073741823 ->
  wp (sqlitepager_get p)
    (fun rc w => rc = SQLITE_OK /\ refcount (pg w) p = 1 /\
       same_content D (view (pg w) (dk w)) c)
    (fun w => survives D c (dk w))
    (mkWorld (fresh_pager mx) d).
Proof. apply reopened. Qed.

(** The journal of a transaction that changed page 1 of a one-page database from
    zeros to sevens and died before it was committed. *)
Definition crashed_disk : disk :=
  let db := replicate 1024 7 in
  mk_disk (mk_file db db 0)
    (mk_file (journal_header 1 99 1 ++ journal_record 99 1 (replicate 1024 0)) [] 0) true
    (mk_file [] [] 0) NoLock [] [].

Lemma crashed_disk_survives : survives ∅ (fpage (replicate 1024 0)) crashed_disk.
Proof.
  exists (replicate 1024 0), 1. split; [lia|]. split; [done|]. split; [by intros q|].
  apply (rec_journal _ _ _ _ 1 99 [1] [] 1).
  - reflexivity.
  - vm_compute. reflexivity.
  - vm_compute. lia.
  - unfold is_u32. lia.
  - split; [apply NoDup_singleton|]. constructor; [|by constructor]. unfold in_db. lia.
  - right. split; [done|simpl; lia].
  - vm_compute. lia.
  - intros p [? ?] _ Hn. destruct Hn. cbn. apply list_elem_of_singleton. lia.
Qed.

Lemma hot_journal_recovery_witness :
  wp (sqlitepager_get 1)
    (fun rc w => rc = SQLITE_OK /\ refcount (pg w) 1 = 1 /\
       same_content ∅ (view (pg w) (dk w)) (fpage (replicate 1024 0)))
    (fun w => survives ∅ (fpage (replicate 1024 0)) (dk w))
    (mkWorld (fresh_pager 10) crashed_disk).
Proof.
  apply (hot_journal_recovery ∅ (fpage (replicate 1024 0)) 10 1).
  - by constructor.
  - apply crashed_disk_survives.
  - lia.
Defined.

(** * Atomicity and durability *)

Lemma spec_run_app os os' a : spec_run (os ++ os') a = spec_run os' (spec_run os a).
Proof. revert a. induction os as [|o os IH]; intros a; [done|]. apply IH. Qed.

Lemma client_ok_app D os os' a :
  client_ok D (os ++ os') a = client_ok D os a && client_ok D os' (spec_run os a).
Proof.
  revert a. induction os as [|o os IH]; intros a; [done|]. cbn. rewrite IH. apply andb_assoc.
Qed.

(** C2: Transactions are atomic and durable.  An entitled client (as in C1: get,
    lookup, ref, unref, begin, write, store, dont_rollback, commit, rollback; no
    statement checkpoints, no truncation; no system call reports an error) has made
    the calls [os], and the process dies in a system call of the next call [o].
    Then opening the database again and asking for any page shows, on every page
    not given up by dont_rollback, the content committed before [o] or, if [o] is a
    commit, the content it commits; so no committed change is lost and no
    uncommitted one shows. *)
Theorem crash_atomicity D c mx os o d w1 w2 fs mx' p :
  no_err d -> survives D c d -> client_ok D (os ++ [o]) (closed_store c) = true ->
  run_ops os (mkWorld (fresh_pager mx) d) = Done tt w1 ->
  run_op o w1 = Crashed w2 ->
  no_err (set_faults fs (dk w2)) -> 1 <= p <= 1073741823 ->
  let a := spec_run os (closed_store c) in
  let after (c' : Z -> list Z) :=
    wp (sqlitepager_get p)
      (fun rc w => rc = SQLITE_OK /\ same_content D (view (pg w) (dk w)) c')
      (fun w => survives D c' (dk w))
      (mkWorld (fresh_pager mx') (set_faults fs (dk w2))) in
  after (s_com a) \/ o = O_commit /\ after (s_cur a).
Proof.
  intros Hn Hs Hok Hrun Hcrash Hfs Hp a after.
  rewrite client_ok_app in Hok. apply andb_true_iff in Hok as [Hok1 Hok2].
  cbn [client_ok] in Hok2. rewrite andb_true_r in Hok2.
  pose proof (run_ops_refines D os (closed_store c) (fresh_pager mx) d Hn (fresh_refines D c mx d Hs) Hok1) as H1.
  unfold wp in H1. rewrite Hrun in H1. destruct H1 as [Hn1 Hrf]. destruct w1 as [x1 d1].
  pose proof (op_refines D o _ x1 d1 Hn1 Hrf Hok2) as H2.
  unfold steps_to, wp in H2. rewrite Hcrash in H2. fold a in H2.
  assert (Hafter : forall c', survives D c' (dk w2) -> after c').
  { intros c' Hc'. subst after. cbn. eapply wp_mono.
    - apply (reopened D c' mx' p); [done| |done].
      destruct Hc' as (og & sz & K1 & K2 & K3 & K4). exists og, sz. split_and!; try (done || lia).
      apply (recoverable_ext og sz D (dk w2)); by destruct (dk w2).
    - intros rc w (? & _ & ?). done.
    - done. }
  destruct H2 as [H2|H2]; [left; by apply Hafter|].
  destruct o; try (left; apply Hafter; cbn in H2; done).
  - left. apply Hafter. cbn in H2. by case_match.
  - left. apply Hafter. by destruct (spec_unref_cases p0 a) as [[_ E]|[_ E]]; rewrite E in H2.
  - right. split; [done|]. by apply Hafter.
Qed.

(** The process dies five bytes into writing back the second page of a commit. *)
Definition commit_crash : disk := empty_disk (replicate 15 F_ok ++ [F_crash 5]).
Definition sample_prefix : list op := take 7 sample_ops.

Definition world_of {A} (o : outcome World A) (w : World) : World :=
  match o with Done _ w' => w' | Crashed w' => w' | Stuck => w end.
Definition before_commit : World :=
  world_of (run_ops sample_prefix (mkWorld (fresh_pager 10) commit_crash))
    (mkWorld (fresh_pager 10) commit_crash).
Definition in_commit : World := world_of (run_op O_commit before_commit) before_commit.

Lemma crash_atomicity_witness :
  let a := spec_run sample_prefix (closed_store (fpage [])) in
  let after (c' : Z -> list Z) :=
    wp (sqlitepager_get 1)
      (fun rc w => rc = SQLITE_OK /\ same_content ∅ (view (pg w) (dk w)) c')
      (fun w => survives ∅ c' (dk w))
      (mkWorld (fresh_pager 10) (set_faults [F_crash 1] (dk in_commit))) in
  after (s_com a) \/ O_commit = O_commit /\ after (s_cur a).
Proof.
  apply (crash_atomicity ∅ (fpage []) 10 sample_prefix O_commit commit_crash before_commit
    in_commit [F_crash 1] 10 1).
  - unfold no_err, commit_crash, empty_disk. cbn. repeat constructor.
  - apply empty_disk_survives.
  - vm_compute. reflexivity.
  - vm_compute. reflexivity.
  - vm_compute. reflexivity.
  - unfold no_err. destruct (dk in_commit). cbn. repeat constructor.
  - lia.
Defined.

(** * Rollback *)

(** The page lies within the file. *)
Definition in_file (q : Z) (d : disk) : Prop :=
  1 <= q /\ (Z.to_nat q * PSZ <= length (f_data (d_db d)))%nat.

(** C4: A rollback restores the database.  A client entitled as in C1 that has begun a
    session, and holds no page but page 1, calls [sqlitepager_rollback] — whatever
    was written back, evicted and loaded again in between.  The call returns
    [SQLITE_OK] with the journal gone; the database file holds the committed content
    on every page that has not been given up, and so does the cache on those of
    them that lie in the file; no cached page is marked dirty and every reference is
    as before.  If the process dies in the rollback, the files still lead back to
    the committed content. *)
Theorem rollback_restores D c mx os d w1 :
  no_err d -> survives D c d -> client_ok D (os ++ [O_rollback]) (closed_store c) = true ->
  run_ops os (mkWorld (fresh_pager mx) d) = Done tt w1 ->
  let com := s_com (spec_run os (closed_store c)) in
  wp sqlitepager_rollback
    (fun rc w => rc = SQLITE_OK /\ d_jexists (dk w) = false /\
       same_content D (fpage (f_data (d_db (dk w)))) com /\
       (forall q, in_file q (dk w) -> q ∉ D -> view (pg w) (dk w) q = com q) /\
       (forall q h, look (pg w) q = Some h -> dirty h = false) /\
       (forall q, refcount (pg w) q = refcount (pg w1) q))
    (fun w => survives D com (dk w)) w1.
Proof.
  intros Hn Hs Hok Hrun com.
  rewrite client_ok_app in Hok. apply andb_true_iff in Hok as [Hok1 Hok2].
  pose proof (run_ops_refines D os (closed_store c) (fresh_pager mx) d Hn (fresh_refines D c mx d Hs) Hok1) as H1.
  unfold wp in H1. rewrite Hrun in H1. destruct H1 as [Hn1 Hrf]. destruct w1 as [x1 d1]. cbn [pg dk] in *.
  cbn [client_ok allowed] in Hok2. rewrite andb_true_r in Hok2.
  apply andb_true_iff in Hok2 as [Hov [Hne Hone]%andb_true_iff].
  apply negb_true_iff in Hov. apply negb_true_iff, bool_decide_eq_false in Hne.
  destruct Hrf as [|orig size Hsz Hlen|]; [done| |congruence].
  assert (Hse : in_session D orig size (spec_run os (closed_store c)) x1 d1) by done.
  apply (wp_rollback_live orig size D); [done|done|done|done|by apply (session_rollbackable D orig size _ _ d1 Hse)| |].
  - intros x' d' Hrec. by eapply session_survives.
  - intros x' d' Hn' [Hag [Hok' Hrd Hcl Hvw] Hrc Hpn]. cbn [pg dk].
    assert (Hcom : same_content D (fpage (f_data (d_db d'))) com).
    { apply (same_content_trans D _ (fpage orig)); [by apply (agrees_content D orig size)|done]. }
    split; [done|]. split; [apply Hrd|]. split; [done|]. split; [|split; [|done]].
    + intros q [Hq1 Hq2] HD. assert (Hq : in_db size q).
      { split; [done|]. destruct Hag as [El _]. rewrite El, Hlen in Hq2. pose proof PSZ_pos. nia. }
      rewrite Hvw by done. rewrite <- Hcom by done. symmetry. apply fpage_page.
      apply (page_length _ _ size); [done|]. destruct Hag as [-> _]. by rewrite Hlen.
    + intros q h Hl. by destruct (Hcl q h Hl).
Qed.

(** Page 1 is committed, changed again, and the change is rolled back. *)
Definition rollback_ops : list op :=
  [O_get 1; O_write 1; O_store 1 (replicate 1024 7); O_commit;
   O_write 1; O_store 1 (replicate 1024 8)].
Definition before_rollback : World :=
  world_of (run_ops rollback_ops (mkWorld (fresh_pager 10) (empty_disk [])))
    (mkWorld (fresh_pager 10) (empty_disk [])).

Lemma rollback_restores_witness :
  let com := s_com (spec_run rollback_ops (closed_store (fpage []))) in
  wp sqlitepager_rollback
    (fun rc w => rc = SQLITE_OK /\ d_jexists (dk w) = false /\
       same_content ∅ (fpage (f_data (d_db (dk w)))) com /\
       (forall q, in_file q (dk w) -> q ∉ (∅ : gset Z) -> view (pg w) (dk w) q = com q) /\
       (forall q h, look (pg w) q = Some h -> dirty h = false) /\
       (forall q, refcount (pg w) q = refcount (pg before_rollback) q))
    (fun w => survives ∅ com (dk w)) before_rollback.
Proof.
  apply (rollback_restores ∅ (fpage []) 10 rollback_ops (empty_disk [])).
  - by constructor.
  - apply empty_disk_survives.
  - vm_compute. reflexivity.
  - vm_compute. reflexivity.
Defined.

(** * What the code does not handle *)

(** [sqlitepager_rollback] leaves [needSync] and [pFirstSynced] as they are.  A
    client that rolls back while it holds pages and an unsynced page is on the
    free list of a full cache, and then asks for a page that is not cached, makes
    [sqlitepager_get] call [syncJournal] without a journal:
    [assert( pPager->journalOpen )] fails. *)
Example get_after_rollback_fails :
  let db := replicate 7168 5 in
  let d := mk_disk (mk_file db db 0) (mk_file [] [] 0) false (mk_file [] [] 0) NoLock [1] [] in
  let prog : M World Z :=
    sqlitepager_get 1;; sqlitepager_get 3;; sqlitepager_get 4;; sqlitepager_get 5;;
    sqlitepager_get 6;; sqlitepager_get 2;;
    sqlitepager_write 2;; store_page 2 (replicate 1024 6);; sqlitepager_unref 2;;
    sqlitepager_rollback;;
    sqlitepager_get 7 in
  prog (mkWorld (fresh_pager 6) d) = Stuck.
Proof. vm_compute. reflexivity. Qed.

(** A statement rollback breaks atomicity.  [pager_ckpt_playback] copies pages
    back to the database file although the records of the main journal have not
    been counted in its header yet.  Page 2 of a two-page database full of fives
    is changed to sixes in a transaction, a statement changes it to sevens and is
    rolled back, and then the process dies: the next process to open the database
    finds a journal with no records and reads the uncommitted sixes. *)
Example ckpt_rollback_not_atomic :
  let db := replicate 2048 5 in
  let d := mk_disk (mk_file db db 0) (mk_file [] [] 0) false (mk_file [] [] 0) NoLock [1] [] in
  let transaction : M World Z :=
    sqlitepager_get 1;; sqlitepager_get 2;;
    sqlitepager_write 2;; store_page 2 (replicate 1024 6);;
    sqlitepager_ckpt_begin;;
    sqlitepager_write 2;; store_page 2 (replicate 1024 7);; sqlitepager_unref 2;;
    sqlitepager_ckpt_rollback in
  let after_crash := world_of (transaction (mkWorld (fresh_pager 10) d)) (mkWorld (fresh_pager 10) d) in
  let reopened := world_of (sqlitepager_get 2 (mkWorld (fresh_pager 10) (dk after_crash))) after_crash in
  page (f_data (d_db d)) 2 = replicate 1024 5 /\
  view (pg reopened) (dk reopened) 2 = replicate 1024 6.
Proof. vm_compute. split; reflexivity. Qed.
