(* ===== verification/Rbtree.v ===== *)
(** Tables in memory, [btree_rb.c]: red-black trees with parent pointers, cursors,
    and the log of operations that a rollback undoes.

    Nodes, trees and cursors live in stores of addresses, so that a use of something
    that was freed is [Stuck].  A pair of a pointer and a length, such as [pKey] and
    [nKey], is the list of the bytes; who owns the bytes is not modelled.  The lists
    that [pShared] and [pNext] link are lists: the cursors of a tree, and the two
    logs ([pCheckRollbackTail] is the last element of its log). *)
From S2P Require Import Prelude OsFile Util Hash.

(** * Data *)

Definition ROLLBACK_INSERT : Z := 1.
Definition ROLLBACK_DELETE : Z := 2.
Definition ROLLBACK_CREATE : Z := 3.
Definition ROLLBACK_DROP : Z := 4.

Definition TRANS_NONE : Z := 0.
Definition TRANS_INTRANSACTION : Z := 1.
Definition TRANS_INCHECKPOINT : Z := 2.
Definition TRANS_ROLLBACK : Z := 3.

Definition SKIP_NONE : Z := 0.
Definition SKIP_NEXT : Z := 1.
Definition SKIP_PREV : Z := 2.
Definition SKIP_INVALID : Z := 3.

Definition SQLITE_N_BTREE_META : Z := 10.
Definition SQLITE_LOCKED : Z := 6.

Record BtRollbackOp := mkOp { eOp : Z; iTab : Z; op_pKey : list Z; op_pData : list Z }.

Record BtRbNode := mkNode {
  pKey : list Z; pData : list Z; isBlack : bool;
  pParent : option addr; pLeft : option addr; pRight : option addr;
  nBlackHeight : Z
}.

Record BtRbTree := mkTree { pCursors : list addr; pHead : option addr }.

Record RbtCursor := mkCursor {
  pTree : addr; iTree : Z; pNode : option addr; eSkip : Z; wrFlag : bool
}.

(** An [Rbtree] with the stores; [tblHash] has the results of the calls of
    [sqliteMalloc] to come, and [malloc_failed] is [sqlite_malloc_failed]. *)
Record Rbtree := mkRbtree {
  aMetaData : list Z; next_idx : Z; tblHash : HW; eTransState : Z;
  pTransRollback : list BtRollbackOp; pCheckRollback : list BtRollbackOp;
  nodes : gmap addr BtRbNode; trees : gmap addr BtRbTree; cursors : gmap addr RbtCursor;
  malloc_failed : bool
}.

Definition set_isBlack (v : bool) (n : BtRbNode) : BtRbNode :=
  mkNode (pKey n) (pData n) v (pParent n) (pLeft n) (pRight n) (nBlackHeight n).
Definition set_pParent (v : option addr) (n : BtRbNode) : BtRbNode :=
  mkNode (pKey n) (pData n) (isBlack n) v (pLeft n) (pRight n) (nBlackHeight n).
Definition set_pLeft (v : option addr) (n : BtRbNode) : BtRbNode :=
  mkNode (pKey n) (pData n) (isBlack n) (pParent n) v (pRight n) (nBlackHeight n).
Definition set_pRight (v : option addr) (n : BtRbNode) : BtRbNode :=
  mkNode (pKey n) (pData n) (isBlack n) (pParent n) (pLeft n) v (nBlackHeight n).
Definition set_record (k d : list Z) (n : BtRbNode) : BtRbNode :=
  mkNode k d (isBlack n) (pParent n) (pLeft n) (pRight n) (nBlackHeight n).
Definition set_nBlackHeight (v : Z) (n : BtRbNode) : BtRbNode :=
  mkNode (pKey n) (pData n) (isBlack n) (pParent n) (pLeft n) (pRight n) v.

Definition set_pCursors (v : list addr) (t : BtRbTree) : BtRbTree := mkTree v (pHead t).
Definition set_pHead (v : option addr) (t : BtRbTree) : BtRbTree := mkTree (pCursors t) v.

Definition set_pNode (v : option addr) (c : RbtCursor) : RbtCursor :=
  mkCursor (pTree c) (iTree c) v (eSkip c) (wrFlag c).
Definition set_eSkip (v : Z) (c : RbtCursor) : RbtCursor :=
  mkCursor (pTree c) (iTree c) (pNode c) v (wrFlag c).
(** The assignments to [pTree], [iTree] and [eSkip] of the cursor of a rollback. *)
Definition set_table_of (t : addr) (n : Z) (c : RbtCursor) : RbtCursor :=
  mkCursor t n (pNode c) SKIP_NONE (wrFlag c).

Definition set_aMetaData (v : list Z) (w : Rbtree) : Rbtree :=
  mkRbtree v (next_idx w) (tblHash w) (eTransState w) (pTransRollback w) (pCheckRollback w)
    (nodes w) (trees w) (cursors w) (malloc_failed w).
Definition set_next_idx (v : Z) (w : Rbtree) : Rbtree :=
  mkRbtree (aMetaData w) v (tblHash w) (eTransState w) (pTransRollback w) (pCheckRollback w)
    (nodes w) (trees w) (cursors w) (malloc_failed w).
Definition set_tblHash (v : HW) (f : bool) (w : Rbtree) : Rbtree :=
  mkRbtree (aMetaData w) (next_idx w) v (eTransState w) (pTransRollback w) (pCheckRollback w)
    (nodes w) (trees w) (cursors w) f.
Definition set_eTransState (v : Z) (w : Rbtree) : Rbtree :=
  mkRbtree (aMetaData w) (next_idx w) (tblHash w) v (pTransRollback w) (pCheckRollback w)
    (nodes w) (trees w) (cursors w) (malloc_failed w).
Definition set_logs (t c : list BtRollbackOp) (w : Rbtree) : Rbtree :=
  mkRbtree (aMetaData w) (next_idx w) (tblHash w) (eTransState w) t c
    (nodes w) (trees w) (cursors w) (malloc_failed w).
Definition set_nodes (v : gmap addr BtRbNode) (w : Rbtree) : Rbtree :=
  mkRbtree (aMetaData w) (next_idx w) (tblHash w) (eTransState w) (pTransRollback w) (pCheckRollback w)
    v (trees w) (cursors w) (malloc_failed w).
Definition set_trees (v : gmap addr BtRbTree) (w : Rbtree) : Rbtree :=
  mkRbtree (aMetaData w) (next_idx w) (tblHash w) (eTransState w) (pTransRollback w) (pCheckRollback w)
    (nodes w) v (cursors w) (malloc_failed w).
Definition set_cursors (v : gmap addr RbtCursor) (w : Rbtree) : Rbtree :=
  mkRbtree (aMetaData w) (next_idx w) (tblHash w) (eTransState w) (pTransRollback w) (pCheckRollback w)
    (nodes w) (trees w) v (malloc_failed w).

(** * Access to the stores *)

Definition rget {A} (f : Rbtree -> A) : M Rbtree A := fun w => Done (f w) w.
Definition rupd (f : Rbtree -> Rbtree) : M Rbtree unit := fun w => Done tt (f w).

(** A pointer that is followed must not be NULL. *)
Definition nonnull (p : option addr) : M Rbtree addr :=
  match p with Some a => mret a | None => mstuck end.

Definition node (a : addr) : M Rbtree BtRbNode := fun w =>
  match nodes w !! a with Some n => Done n w | None => Stuck end.
Definition tree (a : addr) : M Rbtree BtRbTree := fun w =>
  match trees w !! a with Some t => Done t w | None => Stuck end.
Definition cursor (a : addr) : M Rbtree RbtCursor := fun w =>
  match cursors w !! a with Some c => Done c w | None => Stuck end.

Definition upd_node (a : addr) (f : BtRbNode -> BtRbNode) : M Rbtree unit :=
  n ← node a; rupd (fun w => set_nodes (<[a := f n]> (nodes w)) w).
Definition upd_tree (a : addr) (f : BtRbTree -> BtRbTree) : M Rbtree unit :=
  t ← tree a; rupd (fun w => set_trees (<[a := f t]> (trees w)) w).
Definition upd_cursor (a : addr) (f : RbtCursor -> RbtCursor) : M Rbtree unit :=
  c ← cursor a; rupd (fun w => set_cursors (<[a := f c]> (cursors w)) w).

Definition free_node (a : addr) : M Rbtree unit :=
  _ ← node a; rupd (fun w => set_nodes (delete a (nodes w)) w).
Definition free_tree (a : addr) : M Rbtree unit :=
  _ ← tree a; rupd (fun w => set_trees (delete a (trees w)) w).
Definition free_cursor (a : addr) : M Rbtree unit :=
  _ ← cursor a; rupd (fun w => set_cursors (delete a (cursors w)) w).

(** A call into the hash table; an allocation that fails there sets the flag too. *)
Definition htab {A} (m : M HW A) : M Rbtree A := fun w =>
  match m (tblHash w) with
  | Done a h =>
      let used := take (length (mallocs (tblHash w)) - length (mallocs h)) (mallocs (tblHash w)) in
      Done a (set_tblHash h (malloc_failed w || existsb negb used) w)
  | Crashed h => Crashed (set_tblHash h (malloc_failed w) w)
  | Stuck => Stuck
  end.

(** Whether a call of [sqliteMalloc] for more than 0 bytes succeeds. *)
Definition sqliteMalloc : M Rbtree bool := htab malloc_ok.

(** [sqliteMallocRaw(n)] for the copy of a byte string; for 0 bytes a NULL does no
    harm and is not counted. *)
Definition sqliteMallocRaw (n : Z) : M Rbtree unit := fun w =>
  match mallocs (tblHash w) with
  | [] => Done tt w
  | b :: bs =>
      Done tt (set_tblHash (mkHW (tbl (tblHash w)) (heap (tblHash w)) bs)
        (malloc_failed w || (negb b && (0 <? n))) w)
  end.

Definition new_node (n : BtRbNode) : M Rbtree addr := fun w =>
  let a := fresh (dom (nodes w)) in Done a (set_nodes (<[a := n]> (nodes w)) w).
Definition new_tree (t : BtRbTree) : M Rbtree addr := fun w =>
  let a := fresh (dom (trees w)) in Done a (set_trees (<[a := t]> (trees w)) w).
Definition new_cursor (c : RbtCursor) : M Rbtree addr := fun w =>
  let a := fresh (dom (cursors w)) in Done a (set_cursors (<[a := c]> (cursors w)) w).

(** * Keys and locks *)

Definition key_compare (pKey1 pKey2 : list Z) : Z :=
  let nKey1 := Z.of_nat (length pKey1) in
  let nKey2 := Z.of_nat (length pKey2) in
  let mcmp := memcmp pKey1 pKey2 (Z.to_nat (if nKey1 <=? nKey2 then nKey1 else nKey2)) in
  if mcmp =? 0 then
    if nKey1 =? nKey2 then 0 else if nKey1 <? nKey2 then -1 else 1
  else if 0 <? mcmp then 1 else -1.

Fixpoint checkReadLocks_loop (ps : list addr) (pCur : addr) : M Rbtree Z :=
  match ps with
  | [] => mret SQLITE_OK
  | p :: ps' =>
      if bool_decide (p = pCur) then checkReadLocks_loop ps' pCur else
      c ← cursor p;
      if negb (wrFlag c) then mret SQLITE_LOCKED else
      upd_cursor p (set_pNode None);;
      checkReadLocks_loop ps' pCur
  end.

Definition checkReadLocks (pCur : addr) : M Rbtree Z :=
  c ← cursor pCur;
  assert (wrFlag c);;
  t ← tree (pTree c);
  checkReadLocks_loop (pCursors t) pCur.

(** * Balancing *)

(** [if( pX->pParent ){ ... }] in both rotations: the parent of [pX] gets the child [pY]. *)
Definition relink_parent (pParent : option addr) (pX pY : addr) : M Rbtree unit :=
  match pParent with
  | Some pP =>
      p ← node pP;
      if bool_decide (pLeft p = Some pX) then upd_node pP (set_pLeft (Some pY))
      else upd_node pP (set_pRight (Some pY))
  | None => mret tt
  end.

Definition leftRotate (pTree pX : addr) : M Rbtree unit :=
  x ← node pX;
  pY ← nonnull (pRight x);
  y ← node pY;
  let pb := pLeft y in
  upd_node pY (set_pParent (pParent x));;
  x ← node pX;
  relink_parent (pParent x) pX pY;;
  upd_node pY (set_pLeft (Some pX));;
  upd_node pX (set_pParent (Some pY));;
  upd_node pX (set_pRight pb);;
  match pb with
  | Some b => upd_node b (set_pParent (Some pX))
  | None => mret tt
  end;;
  t ← tree pTree;
  mwhen (bool_decide (pHead t = Some pX)) (upd_tree pTree (set_pHead (Some pY))).

Definition rightRotate (pTree pX : addr) : M Rbtree unit :=
  x ← node pX;
  pY ← nonnull (pLeft x);
  y ← node pY;
  let pb := pRight y in
  upd_node pY (set_pParent (pParent x));;
  x ← node pX;
  relink_parent (pParent x) pX pY;;
  upd_node pY (set_pRight (Some pX));;
  upd_node pX (set_pParent (Some pY));;
  upd_node pX (set_pLeft pb);;
  match pb with
  | Some b => upd_node b (set_pParent (Some pX))
  | None => mret tt
  end;;
  t ← tree pTree;
  mwhen (bool_decide (pHead t = Some pX)) (upd_tree pTree (set_pHead (Some pY))).

(** [!p || p->isBlack] *)
Definition blackish (p : option addr) : M Rbtree bool :=
  match p with None => mret true | Some a => n ← node a; mret (isBlack n) end.

(** The loop of [do_insert_balancing]; [pX] climbs, so the number of nodes is fuel
    enough. *)
Fixpoint insert_balancing_loop (fuel : nat) (pTree pX : addr) : M Rbtree unit :=
  t ← tree pTree;
  if bool_decide (pHead t = Some pX) then mret tt else
  x ← node pX;
  pP ← nonnull (pParent x);
  p ← node pP;
  if isBlack p then mret tt else
  match fuel with
  | O => mstuck
  | S fuel' =>
      pGrandparent ← nonnull (pParent p);
      g ← node pGrandparent;
      assert (isBlack g);;
      let pUncle := if bool_decide (Some pP = pLeft g) then pRight g else pLeft g in
      b ← blackish pUncle;
      if negb b then
        upd_node pGrandparent (set_isBlack false);;
        u ← nonnull pUncle;
        upd_node u (set_isBlack true);;
        upd_node pP (set_isBlack true);;
        insert_balancing_loop fuel' pTree pGrandparent
      else if bool_decide (Some pP = pLeft g) then
        pX ← (if bool_decide (Some pX = pRight p) then leftRotate pTree pP;; mret pP else mret pX);
        x ← node pX;
        pP ← nonnull (pParent x);
        p ← node pP;
        assert (bool_decide (Some pGrandparent = pParent p));;
        upd_node pGrandparent (set_isBlack false);;
        upd_node pP (set_isBlack true);;
        rightRotate pTree pGrandparent;;
        insert_balancing_loop fuel' pTree pX
      else
        pX ← (if bool_decide (Some pX = pLeft p) then rightRotate pTree pP;; mret pP else mret pX);
        x ← node pX;
        pP ← nonnull (pParent x);
        p ← node pP;
        assert (bool_decide (Some pGrandparent = pParent p));;
        upd_node pGrandparent (set_isBlack false);;
        upd_node pP (set_isBlack true);;
        leftRotate pTree pGrandparent;;
        insert_balancing_loop fuel' pTree pX
  end.

Definition do_insert_balancing (pTree pX : addr) : M Rbtree unit :=
  w ← mget;
  insert_balancing_loop (size (nodes w)) pTree pX;;
  t ← tree pTree;
  h ← nonnull (pHead t);
  upd_node h (set_isBlack true).

(** The cases of [do_delete_balancing] for a sibling [pSib] that is not red, when [pX] is
    the left child of [pP] and when it is the right one; the result is the new [pX]. *)
Definition delete_fix_left (pTree pP : addr) (pSib : option addr) : M Rbtree (option addr) :=
  match pSib with
  | None => mret (Some pP)
  | Some s =>
      sib ← node s;
      bl ← blackish (pLeft sib);
      br ← blackish (pRight sib);
      if bl && br then
        upd_node s (set_isBlack false);;
        mret (Some pP)
      else
        s ← (if br then
          match pLeft sib with
          | Some l => upd_node l (set_isBlack true)
          | None => mret tt
          end;;
          upd_node s (set_isBlack false);;
          rightRotate pTree s;;
          p ← node pP; nonnull (pRight p)
        else mret s);
        p ← node pP;
        upd_node s (set_isBlack (isBlack p));;
        upd_node pP (set_isBlack true);;
        sib ← node s;
        match pRight sib with
        | Some r => upd_node r (set_isBlack true)
        | None => mret tt
        end;;
        leftRotate pTree pP;;
        t ← tree pTree; mret (pHead t)
  end.

Definition delete_fix_right (pTree pP : addr) (pSib : option addr) : M Rbtree (option addr) :=
  match pSib with
  | None => mret (Some pP)
  | Some s =>
      sib ← node s;
      bl ← blackish (pLeft sib);
      br ← blackish (pRight sib);
      if bl && br then
        upd_node s (set_isBlack false);;
        mret (Some pP)
      else
        s ← (if bl then
          match pRight sib with
          | Some r => upd_node r (set_isBlack true)
          | None => mret tt
          end;;
          upd_node s (set_isBlack false);;
          leftRotate pTree s;;
          p ← node pP; nonnull (pLeft p)
        else mret s);
        p ← node pP;
        upd_node s (set_isBlack (isBlack p));;
        upd_node pP (set_isBlack true);;
        sib ← node s;
        match pLeft sib with
        | Some l => upd_node l (set_isBlack true)
        | None => mret tt
        end;;
        rightRotate pTree pP;;
        t ← tree pTree; mret (pHead t)
  end.

(** The loop of [do_delete_balancing]; the result is the last value of [pX]. *)
Fixpoint delete_balancing_loop (fuel : nat) (pTree : addr) (pX pParent_ : option addr) : M Rbtree (option addr) :=
  t ← tree pTree;
  b ← blackish pX;
  if bool_decide (pX = pHead t) || negb b then mret pX else
  match fuel with
  | O => mstuck
  | S fuel' =>
      pP ← nonnull pParent_;
      p ← node pP;
      pX ← (if bool_decide (pX = pLeft p) then
        let pSib := pRight p in
        b ← blackish pSib;
        pSib ← (if negb b then
          s ← nonnull pSib;
          upd_node s (set_isBlack true);;
          upd_node pP (set_isBlack false);;
          leftRotate pTree pP;;
          p ← node pP; mret (pRight p)
        else mret pSib);
        delete_fix_left pTree pP pSib
      else
        let pSib := pLeft p in
        b ← blackish pSib;
        pSib ← (if negb b then
          s ← nonnull pSib;
          upd_node s (set_isBlack true);;
          upd_node pP (set_isBlack false);;
          rightRotate pTree pP;;
          p ← node pP; mret (pLeft p)
        else mret pSib);
        delete_fix_right pTree pP pSib);
      a ← nonnull pX;
      x ← node a;
      delete_balancing_loop fuel' pTree pX (pParent x)
  end.

Definition do_delete_balancing (pTree : addr) (pX pParent_ : option addr) : M Rbtree unit :=
  w ← mget;
  pX ← delete_balancing_loop (S (size (nodes w))) pTree pX pParent_;
  match pX with
  | Some a => upd_node a (set_isBlack true)
  | None => mret tt
  end.

(** * Moving a cursor *)

(** [while( pCur->pNode->pLeft ) pCur->pNode = pCur->pNode->pLeft;] and its mirror image *)
Fixpoint down_left (fuel : nat) (pCur : addr) : M Rbtree unit :=
  c ← cursor pCur;
  a ← nonnull (pNode c);
  n ← node a;
  match pLeft n with
  | None => mret tt
  | Some l =>
      match fuel with
      | O => mstuck
      | S fuel' => upd_cursor pCur (set_pNode (Some l));; down_left fuel' pCur
      end
  end.

Fixpoint down_right (fuel : nat) (pCur : addr) : M Rbtree unit :=
  c ← cursor pCur;
  a ← nonnull (pNode c);
  n ← node a;
  match pRight n with
  | None => mret tt
  | Some r =>
      match fuel with
      | O => mstuck
      | S fuel' => upd_cursor pCur (set_pNode (Some r));; down_right fuel' pCur
      end
  end.

(** The climb of [memRbtreeNext] from a node without a right child. *)
Fixpoint climb_right (fuel : nat) (pCur pX : addr) : M Rbtree unit :=
  c ← cursor pCur;
  match pNode c with
  | None => mret tt
  | Some a =>
      n ← node a;
      if negb (bool_decide (pRight n = Some pX)) then mret tt else
      match fuel with
      | O => mstuck
      | S fuel' => upd_cursor pCur (set_pNode (pParent n));; climb_right fuel' pCur a
      end
  end.

Fixpoint climb_left (fuel : nat) (pCur pX : addr) : M Rbtree unit :=
  c ← cursor pCur;
  match pNode c with
  | None => mret tt
  | Some a =>
      n ← node a;
      if negb (bool_decide (pLeft n = Some pX)) then mret tt else
      match fuel with
      | O => mstuck
      | S fuel' => upd_cursor pCur (set_pNode (pParent n));; climb_left fuel' pCur a
      end
  end.

(** The end of the functions that move a cursor: the result is [*pRes]. *)
Definition moved (pCur : addr) : M Rbtree Z :=
  upd_cursor pCur (set_eSkip SKIP_NONE);;
  c ← cursor pCur;
  mret (match pNode c with Some _ => 0 | None => 1 end).

Definition memRbtreeFirst (pCur : addr) : M Rbtree Z :=
  w ← mget;
  c ← cursor pCur;
  t ← tree (pTree c);
  match pHead t with
  | Some h => upd_cursor pCur (set_pNode (Some h));; down_left (size (nodes w)) pCur
  | None => mret tt
  end;;
  moved pCur.

Definition memRbtreeLast (pCur : addr) : M Rbtree Z :=
  w ← mget;
  c ← cursor pCur;
  t ← tree (pTree c);
  match pHead t with
  | Some h => upd_cursor pCur (set_pNode (Some h));; down_right (size (nodes w)) pCur
  | None => mret tt
  end;;
  moved pCur.

Definition memRbtreeNext (pCur : addr) : M Rbtree Z :=
  w ← mget;
  c ← cursor pCur;
  match pNode c with
  | Some a =>
      if negb (eSkip c =? SKIP_NEXT) then
        n ← node a;
        match pRight n with
        | Some r => upd_cursor pCur (set_pNode (Some r));; down_left (size (nodes w)) pCur
        | None => upd_cursor pCur (set_pNode (pParent n));; climb_right (size (nodes w)) pCur a
        end
      else mret tt
  | None => mret tt
  end;;
  moved pCur.

Definition memRbtreePrevious (pCur : addr) : M Rbtree Z :=
  w ← mget;
  c ← cursor pCur;
  match pNode c with
  | Some a =>
      if negb (eSkip c =? SKIP_PREV) then
        n ← node a;
        match pLeft n with
        | Some l => upd_cursor pCur (set_pNode (Some l));; down_right (size (nodes w)) pCur
        | None => upd_cursor pCur (set_pNode (pParent n));; climb_left (size (nodes w)) pCur a
        end
      else mret tt
  | None => mret tt
  end;;
  moved pCur.

(** The search of [memRbtreeMoveto]; the result is [*pRes] and [pTmp]. *)
Fixpoint moveto_loop (fuel : nat) (pCur : addr) (key : list Z) (res : Z) (pTmp : option addr) :
    M Rbtree (Z * option addr) :=
  c ← cursor pCur;
  match pNode c with
  | None => mret (res, pTmp)
  | Some a =>
      if res =? 0 then mret (res, pTmp) else
      match fuel with
      | O => mstuck
      | S fuel' =>
          n ← node a;
          let res := key_compare (pKey n) key in
          (if res =? 1 then upd_cursor pCur (set_pNode (pLeft n))
           else if res =? -1 then upd_cursor pCur (set_pNode (pRight n))
           else mret tt);;
          moveto_loop fuel' pCur key res (Some a)
      end
  end.

Definition memRbtreeMoveto (pCur : addr) (key : list Z) : M Rbtree Z :=
  w ← mget;
  c ← cursor pCur;
  t ← tree (pTree c);
  upd_cursor pCur (set_pNode (pHead t));;
  '(res, pTmp) ← moveto_loop (S (size (nodes w))) pCur key (-1) None;
  c ← cursor pCur;
  mwhen (bool_decide (pNode c = None)) (upd_cursor pCur (set_pNode pTmp));;
  upd_cursor pCur (set_eSkip SKIP_NONE);;
  mret res.

(** * The log *)

Definition btreeLogRollbackOp (pRollbackOp : BtRollbackOp) : M Rbtree unit :=
  st ← rget eTransState;
  assert ((st =? TRANS_INCHECKPOINT) || (st =? TRANS_INTRANSACTION));;
  mwhen (st =? TRANS_INTRANSACTION)
    (rupd (fun w => set_logs (pRollbackOp :: pTransRollback w) (pCheckRollback w) w));;
  mwhen (st =? TRANS_INCHECKPOINT)
    (rupd (fun w => set_logs (pTransRollback w) (pRollbackOp :: pCheckRollback w) w)).

(** * Tables *)

(** [sqliteHashFind(&tblHash, 0, n)] and [sqliteHashInsert(&tblHash, 0, n, p)] *)
Definition tbl_find (n : Z) : M Rbtree (option addr) :=
  z ← htab (sqliteHashFind [] n);
  mret (match z with Zpos a => Some a | _ => None end).
Definition tbl_insert (n : Z) (p : option addr) : M Rbtree (option addr) :=
  z ← htab (sqliteHashInsert [] n (match p with Some a => Zpos a | None => 0 end));
  mret (match z with Zpos a => Some a | _ => None end).

Definition btreeCreateTable (n : Z) : M Rbtree unit :=
  ok ← sqliteMalloc;
  if ok : bool then
    pNewTbl ← new_tree (mkTree [] None);
    _ ← tbl_insert n (Some pNewTbl); mret tt
  else _ ← tbl_insert n None; mret tt.

(** Log an operation unless a rollback is going on. *)
Definition log_table_op (op : BtRollbackOp) : M Rbtree Z :=
  st ← rget eTransState;
  if negb (st =? TRANS_ROLLBACK) then
    ok ← sqliteMalloc;
    if negb ok then mret SQLITE_NOMEM else
    btreeLogRollbackOp op;;
    mret SQLITE_OK
  else mret SQLITE_OK.

(** The result is the return code and [*n]. *)
Definition memRbtreeCreateTable : M Rbtree (Z * Z) :=
  st ← rget eTransState;
  assert (negb (st =? TRANS_NONE));;
  n ← rget next_idx;
  rupd (set_next_idx (n + 1));;
  btreeCreateTable n;;
  f ← rget malloc_failed;
  if f : bool then mret (SQLITE_NOMEM, n) else
  rc ← log_table_op (mkOp ROLLBACK_DROP n [] []);
  mret (rc, n).

(** The loop of [memRbtreeClearTable]; every step goes down one level or frees a
    node. *)
Fixpoint clear_table_loop (fuel : nat) (n : Z) (pNode : option addr) : M Rbtree Z :=
  match pNode with
  | None => mret SQLITE_OK
  | Some a =>
      match fuel with
      | O => mstuck
      | S fuel' =>
          x ← node a;
          match pLeft x, pRight x with
          | Some l, _ => clear_table_loop fuel' n (Some l)
          | None, Some r => clear_table_loop fuel' n (Some r)
          | None, None =>
              let pTmp := pParent x in
              st ← rget eTransState;
              rc ← (if st =? TRANS_ROLLBACK then mret SQLITE_OK else
                ok ← sqliteMalloc;
                if negb ok then mret SQLITE_NOMEM else
                btreeLogRollbackOp (mkOp ROLLBACK_INSERT n (pKey x) (pData x));;
                mret SQLITE_OK);
              if negb (rc =? SQLITE_OK) then mret rc else
              free_node a;;
              match pTmp with
              | Some t =>
                  p ← node t;
                  if bool_decide (pLeft p = Some a) then upd_node t (set_pLeft None)
                  else mwhen (bool_decide (pRight p = Some a)) (upd_node t (set_pRight None))
              | None => mret tt
              end;;
              clear_table_loop fuel' n pTmp
          end
      end
  end.

Definition memRbtreeClearTable (n : Z) : M Rbtree Z :=
  p ← tbl_find n;
  pTree ← nonnull p;
  t ← tree pTree;
  w ← mget;
  rc ← clear_table_loop (2 * size (nodes w)) n (pHead t);
  if negb (rc =? SQLITE_OK) then mret rc else
  upd_tree pTree (set_pHead None);;
  mret SQLITE_OK.

Definition memRbtreeDropTable (n : Z) : M Rbtree Z :=
  st ← rget eTransState;
  assert (negb (st =? TRANS_NONE));;
  _ ← memRbtreeClearTable n;
  p ← tbl_insert n None;
  pTree ← nonnull p;
  t ← tree pTree;
  assert (bool_decide (pCursors t = []));;
  free_tree pTree;;
  log_table_op (mkOp ROLLBACK_CREATE n [] []).

(** * Records *)

(** The result is the return code and [*ppCur]. *)
Definition memRbtreeCursor (iTable : Z) (wr : bool) : M Rbtree (Z * option addr) :=
  ok ← sqliteMalloc;
  f ← rget malloc_failed;
  if f : bool then mret (SQLITE_NOMEM, None) else
  p ← tbl_find iTable;
  pT ← nonnull p;
  pCur ← new_cursor (mkCursor pT iTable None SKIP_NONE wr);
  upd_tree pT (fun t => set_pCursors (pCur :: pCursors t) t);;
  mret (SQLITE_OK, Some pCur).

(** The list without the cursor, which must be on it. *)
Fixpoint unlink_cursor (pCur : addr) (ps : list addr) : option (list addr) :=
  match ps with
  | [] => None
  | p :: ps' => if bool_decide (p = pCur) then Some ps' else cons p <$> unlink_cursor pCur ps'
  end.

Definition memRbtreeCloseCursor (pCur : addr) : M Rbtree Z :=
  c ← cursor pCur;
  t ← tree (pTree c);
  match unlink_cursor pCur (pCursors t) with
  | Some l => upd_tree (pTree c) (set_pCursors l)
  | None => mstuck
  end;;
  free_cursor pCur;;
  mret SQLITE_OK.

(** Make the new node [pNode_] a child of [p], where [memRbtreeMoveto] left the cursor. *)
Definition link_new (pTree : addr) (p : option addr) (match_ : Z) (pNode_ : addr) : M Rbtree unit :=
  match p with
  | Some q =>
      n ← node q;
      if match_ =? -1 then
        assert (bool_decide (pRight n = None));;
        upd_node pNode_ (set_pParent (Some q));;
        upd_node q (set_pRight (Some pNode_))
      else
        assert (match_ =? 1);;
        assert (bool_decide (pLeft n = None));;
        upd_node pNode_ (set_pParent (Some q));;
        upd_node q (set_pLeft (Some pNode_))
  | None => upd_tree pTree (set_pHead (Some pNode_))
  end.

(** The branch of [memRbtreeInsert] for a new key. *)
Definition insert_new_node (pCur : addr) (match_ : Z) (key data : list Z) : M Rbtree Z :=
  ok ← sqliteMalloc;
  if negb ok then mret SQLITE_NOMEM else
  pNode_ ← new_node (mkNode [] [] false None None None 0);
  sqliteMallocRaw (Z.of_nat (length key));;
  f ← rget malloc_failed;
  if f : bool then mret SQLITE_NOMEM else
  upd_node pNode_ (set_record key data);;
  c ← cursor pCur;
  link_new (pTree c) (pNode c) match_ pNode_;;
  upd_cursor pCur (set_pNode (Some pNode_));;
  do_insert_balancing (pTree c) pNode_;;
  st ← rget eTransState;
  if negb (st =? TRANS_ROLLBACK) then
    ok ← sqliteMalloc;
    if negb ok then mret SQLITE_NOMEM else
    n ← node pNode_;
    sqliteMallocRaw (Z.of_nat (length (pKey n)));;
    f ← rget malloc_failed;
    if f : bool then mret SQLITE_NOMEM else
    btreeLogRollbackOp (mkOp ROLLBACK_DELETE (iTree c) (pKey n) []);;
    mret SQLITE_OK
  else mret SQLITE_OK.

(** The branch of [memRbtreeInsert] for a key the table has. *)
Definition replace_data (pCur : addr) (data : list Z) : M Rbtree Z :=
  c ← cursor pCur;
  a ← nonnull (pNode c);
  n ← node a;
  st ← rget eTransState;
  rc ← (if negb (st =? TRANS_ROLLBACK) then
    ok ← sqliteMalloc;
    if negb ok then mret SQLITE_NOMEM else
    sqliteMallocRaw (Z.of_nat (length (pKey n)));;
    f ← rget malloc_failed;
    if f : bool then mret SQLITE_NOMEM else
    btreeLogRollbackOp (mkOp ROLLBACK_INSERT (iTree c) (pKey n) (pData n));;
    mret SQLITE_OK
  else mret SQLITE_OK);
  if negb (rc =? SQLITE_OK) then mret rc else
  upd_node a (fun n => set_record (pKey n) data n);;
  mret SQLITE_OK.

Definition memRbtreeInsert (pCur : addr) (key dataInput : list Z) : M Rbtree Z :=
  st ← rget eTransState;
  assert (negb (st =? TRANS_NONE));;
  lock ← checkReadLocks pCur;
  if negb (lock =? SQLITE_OK) then mret SQLITE_LOCKED else
  sqliteMallocRaw (Z.of_nat (length dataInput));;
  f ← rget malloc_failed;
  if f : bool then mret SQLITE_NOMEM else
  match_ ← memRbtreeMoveto pCur key;
  if negb (match_ =? 0) then insert_new_node pCur match_ key dataInput
  else replace_data pCur dataInput.

(** Take the node [pZ], which has at most one child, out of the tree; the result is
    [pChild]. *)
Definition splice_out (pTree pZ : addr) : M Rbtree (option addr) :=
  z ← node pZ;
  assert (bool_decide (pLeft z = None) || bool_decide (pRight z = None));;
  let pChild := match pLeft z with Some l => Some l | None => pRight z end in
  match pParent z with
  | Some pP =>
      p ← node pP;
      assert (bool_decide (pLeft p = Some pZ) || bool_decide (pRight p = Some pZ));;
      if bool_decide (pLeft p = Some pZ) then upd_node pP (set_pLeft pChild)
      else upd_node pP (set_pRight pChild)
  | None => upd_tree pTree (set_pHead pChild)
  end;;
  match pChild with
  | Some c => upd_node c (set_pParent (pParent z))
  | None => mret tt
  end;;
  mret pChild.

(** The cursor moves off the record of [pZ]; the result is the node to be spliced out:
    [pZ], or the successor whose record [pZ] got. *)
Definition vacate (pCur pZ : addr) (z : BtRbNode) : M Rbtree addr :=
  match pLeft z, pRight z with
  | Some _, Some _ =>
      upd_cursor pCur (set_eSkip SKIP_NONE);;
      dummy ← memRbtreeNext pCur;
      assert (dummy =? 0);;
      c ← cursor pCur;
      a ← nonnull (pNode c);
      n ← node a;
      upd_node pZ (set_record (pKey n) (pData n));;
      upd_cursor pCur (set_pNode (Some pZ));;
      upd_cursor pCur (set_eSkip SKIP_NEXT);;
      mret a
  | _, _ =>
      upd_cursor pCur (set_eSkip SKIP_NONE);;
      res ← memRbtreeNext pCur;
      upd_cursor pCur (set_eSkip SKIP_NEXT);;
      mwhen (negb (res =? 0))
        (_ ← memRbtreeLast pCur;
         _ ← memRbtreePrevious pCur;
         upd_cursor pCur (set_eSkip SKIP_PREV));;
      mret pZ
  end.

(** The end of [memRbtreeDelete]: [pZ] is spliced out and freed. *)
Definition remove_node (pTree pZ : addr) : M Rbtree unit :=
  pChild ← splice_out pTree pZ;
  z ← node pZ;
  mwhen (isBlack z) (do_delete_balancing pTree pChild (pParent z));;
  free_node pZ.

Definition memRbtreeDelete (pCur : addr) : M Rbtree Z :=
  st ← rget eTransState;
  assert (negb (st =? TRANS_NONE));;
  lock ← checkReadLocks pCur;
  if negb (lock =? SQLITE_OK) then mret SQLITE_LOCKED else
  c ← cursor pCur;
  match pNode c with
  | None => mret SQLITE_OK
  | Some pZ =>
      z ← node pZ;
      rc ← (if negb (st =? TRANS_ROLLBACK) then
        ok ← sqliteMalloc;
        if negb ok then mret SQLITE_NOMEM else
        btreeLogRollbackOp (mkOp ROLLBACK_INSERT (iTree c) (pKey z) (pData z));;
        mret SQLITE_OK
      else mret SQLITE_OK);
      if negb (rc =? SQLITE_OK) then mret rc else
      pZ ← vacate pCur pZ z;
      remove_node (pTree c) pZ;;
      mret SQLITE_OK
  end.

Definition memRbtreeKeySize (pCur : addr) : M Rbtree Z :=
  c ← cursor pCur;
  match pNode c with
  | Some a => n ← node a; mret (Z.of_nat (length (pKey n)))
  | None => mret 0
  end.

Definition memRbtreeDataSize (pCur : addr) : M Rbtree Z :=
  c ← cursor pCur;
  match pNode c with
  | Some a => n ← node a; mret (Z.of_nat (length (pData n)))
  | None => mret 0
  end.

(** What [memcpy(zBuf, z+offset, amt)] reads; outside of [z] it is undefined. *)
Definition copied (z : list Z) (offset amt : Z) : M Rbtree (list Z) :=
  assert ((0 <=? offset) && (0 <=? amt) && (offset + amt <=? Z.of_nat (length z)));;
  mret (take (Z.to_nat amt) (drop (Z.to_nat offset) z)).

(** The sum of two [int]s; an overflow is undefined. *)
Definition int_sum (a b : Z) : M Rbtree Z :=
  assert ((-2147483648 <=? a + b) && (a + b <=? 2147483647));;
  mret (a + b).

(** The result is the return value and what is written to [zBuf].  [pKey] may be NULL
    when the key has no bytes (it is what [malloc(0)] returned): the first branch then
    copies [amt] bytes, and there is nothing to copy from. *)
Definition memRbtreeKey (pCur : addr) (offset amt : Z) : M Rbtree (Z * list Z) :=
  c ← cursor pCur;
  match pNode c with
  | None => mret (0, [])
  | Some a =>
      n ← node a;
      let nKey := Z.of_nat (length (pKey n)) in
      all ← (if bool_decide (pKey n = []) then mret true
             else s ← int_sum amt offset; mret (s <=? nKey));
      let amt := if all : bool then amt else nKey - offset in
      b ← copied (pKey n) offset amt;
      mret (amt, b)
  end.

Definition memRbtreeData (pCur : addr) (offset amt : Z) : M Rbtree (Z * list Z) :=
  c ← cursor pCur;
  match pNode c with
  | None => mret (0, [])
  | Some a =>
      n ← node a;
      let nData := Z.of_nat (length (pData n)) in
      s ← int_sum amt offset;
      let amt := if s <=? nData then amt else nData - offset in
      b ← copied (pData n) offset amt;
      mret (amt, b)
  end.

(** The result is [*pRes]; [nIgnore] must not be negative. *)
Definition memRbtreeKeyCompare (pCur : addr) (key : list Z) (nIgnore : Z) : M Rbtree Z :=
  c ← cursor pCur;
  match pNode c with
  | None => mret (-1)
  | Some a =>
      n ← node a;
      let nKey := Z.of_nat (length (pKey n)) in
      if nKey - nIgnore <? 0 then mret (-1) else
      assert (0 <=? nIgnore);;
      mret (key_compare (take (Z.to_nat (nKey - nIgnore)) (pKey n)) key)
  end.

(** * The database *)

Definition memRbtreeGetMeta : M Rbtree (list Z) := rget aMetaData.
(** The caller's array has [SQLITE_N_BTREE_META] elements. *)
Definition memRbtreeUpdateMeta (aMeta : list Z) : M Rbtree Z :=
  assert (Z.of_nat (length aMeta) =? SQLITE_N_BTREE_META);;
  rupd (set_aMetaData aMeta);;
  mret SQLITE_OK.

Definition memRbtreeSetCacheSize (sz : Z) : M Rbtree Z := mret SQLITE_OK.
Definition memRbtreeSetSafetyLevel (level : Z) : M Rbtree Z := mret SQLITE_OK.

(** [sqliteRbtreeOpen] on zeroed memory; [None] when there is no memory. *)
Definition sqliteRbtreeOpen (ms : list bool) : outcome Rbtree Z :=
  (ok ← sqliteMalloc;
   f ← rget malloc_failed;
   if f : bool then mret SQLITE_NOMEM else
   h ← match sqliteHashInit SQLITE_HASH_INT false with Some h => mret h | None => mstuck end;
   rupd (fun w => set_tblHash (mkHW h (heap (tblHash w)) (mallocs (tblHash w))) (malloc_failed w) w);;
   btreeCreateTable 2;;
   f ← rget malloc_failed;
   if f : bool then mret SQLITE_NOMEM else
   rupd (set_next_idx 3);;
   rupd (fun w => set_aMetaData (<[2%nat := 4]> (aMetaData w)) w);;
   mret SQLITE_OK)
  (mkRbtree (replicate (Z.to_nat SQLITE_N_BTREE_META) 0) 0 (mkHW (mkHash 0 false 0 None 0 []) ∅ ms)
     TRANS_NONE [] [] ∅ ∅ ∅ false).

Definition memRbtreeBeginTrans : M Rbtree Z :=
  st ← rget eTransState;
  if negb (st =? TRANS_NONE) then mret SQLITE_ERROR else
  l ← rget pTransRollback;
  assert (bool_decide (length l = 0%nat));;
  rupd (set_eTransState TRANS_INTRANSACTION);;
  mret SQLITE_OK.

Definition memRbtreeCommit : M Rbtree Z :=
  rupd (set_logs [] []);;
  rupd (set_eTransState TRANS_NONE);;
  mret SQLITE_OK.

(** One turn of the loop of [execute_rollback_list], with the local cursor [cur]. *)
Definition execute_rollback_op (cur : addr) (op : BtRollbackOp) : M Rbtree unit :=
  if eOp op =? ROLLBACK_INSERT then
    p ← tbl_find (iTab op);
    t ← nonnull p;
    upd_cursor cur (set_table_of t (iTab op));;
    _ ← memRbtreeInsert cur (op_pKey op) (op_pData op); mret tt
  else if eOp op =? ROLLBACK_DELETE then
    p ← tbl_find (iTab op);
    t ← nonnull p;
    upd_cursor cur (set_table_of t (iTab op));;
    res ← memRbtreeMoveto cur (op_pKey op);
    assert (res =? 0);;
    _ ← memRbtreeDelete cur; mret tt
  else if eOp op =? ROLLBACK_CREATE then btreeCreateTable (iTab op)
  else if eOp op =? ROLLBACK_DROP then _ ← memRbtreeDropTable (iTab op); mret tt
  else mstuck.

Fixpoint execute_rollback_loop (cur : addr) (pList : list BtRollbackOp) : M Rbtree unit :=
  match pList with
  | [] => mret tt
  | op :: pList' => execute_rollback_op cur op;; execute_rollback_loop cur pList'
  end.

(** [cur] is a variable of the function; no tree lists it. *)
Definition execute_rollback_list (pList : list BtRollbackOp) : M Rbtree unit :=
  cur ← new_cursor (mkCursor 1%positive 0 None SKIP_NONE true);
  execute_rollback_loop cur pList;;
  free_cursor cur.

Definition memRbtreeRollback : M Rbtree Z :=
  rupd (set_eTransState TRANS_ROLLBACK);;
  l ← rget pCheckRollback;
  execute_rollback_list l;;
  l ← rget pTransRollback;
  execute_rollback_list l;;
  rupd (set_logs [] []);;
  rupd (set_eTransState TRANS_NONE);;
  mret SQLITE_OK.

Definition memRbtreeBeginCkpt : M Rbtree Z :=
  st ← rget eTransState;
  if negb (st =? TRANS_INTRANSACTION) then mret SQLITE_ERROR else
  l ← rget pCheckRollback;
  assert (bool_decide (length l = 0%nat));;
  rupd (set_eTransState TRANS_INCHECKPOINT);;
  mret SQLITE_OK.

Definition memRbtreeCommitCkpt : M Rbtree Z :=
  st ← rget eTransState;
  mwhen (st =? TRANS_INCHECKPOINT)
    (rupd (fun w => set_logs (pCheckRollback w ++ pTransRollback w) [] w);;
     rupd (set_eTransState TRANS_INTRANSACTION));;
  mret SQLITE_OK.

Definition memRbtreeRollbackCkpt : M Rbtree Z :=
  st ← rget eTransState;
  if negb (st =? TRANS_INCHECKPOINT) then mret SQLITE_OK else
  rupd (set_eTransState TRANS_ROLLBACK);;
  l ← rget pCheckRollback;
  execute_rollback_list l;;
  rupd (fun w => set_logs (pTransRollback w) [] w);;
  rupd (set_eTransState TRANS_INTRANSACTION);;
  mret SQLITE_OK.

(** The loop of [memRbtreeClose]; every turn removes an element of the table. *)
Fixpoint close_loop (fuel : nat) : M Rbtree unit :=
  p ← htab (tget first);
  match p with
  | None => mret tt
  | Some e =>
      match fuel with
      | O => mstuck
      | S fuel' =>
          rupd (set_eTransState TRANS_ROLLBACK);;
          x ← htab (deref e);
          _ ← memRbtreeDropTable (Hash.nKey x);
          close_loop fuel'
      end
  end.

(** The [Rbtree] itself is freed last; what is left of the stores is the result. *)
Definition memRbtreeClose : M Rbtree Z :=
  _ ← memRbtreeCommit;
  w ← mget;
  close_loop (size (heap (tblHash w)));;
  htab sqliteHashClear;;
  mret SQLITE_OK.

(** * The integrity check *)

(** A complaint about the node at an address; its text is not modelled. *)
Inductive complaint := RedWithRedChild (a : addr) | DifferentBlackHeights (a : addr).

(** The checks on a node whose children were visited: the complaints. *)
Definition check_node (a : addr) : M Rbtree (list complaint) :=
  n ← node a;
  bl ← blackish (pLeft n);
  br ← blackish (pRight n);
  let height p := match p with
    | Some c => n ← node c; mret (nBlackHeight n + (if isBlack n then 1 else 0))
    | None => mret 0
    end in
  leftHeight ← height (pLeft n);
  rightHeight ← height (pRight n);
  upd_node a (set_nBlackHeight leftHeight);;
  mret ((if negb (isBlack n) && negb (bl && br) then [RedWithRedChild a] else []) ++
        (if negb (leftHeight =? rightHeight) then [DifferentBlackHeights a] else [])).

(** The loop of [check_redblack_tree], which visits every node three times. *)
Fixpoint check_loop (fuel : nat) (pNode : option addr) (prev_step : Z) : M Rbtree (list complaint) :=
  match pNode with
  | None => mret []
  | Some a =>
      match fuel with
      | O => mstuck
      | S fuel' =>
          n ← node a;
          if prev_step =? 0 then
            match pLeft n with
            | Some l => check_loop fuel' (Some l) 0
            | None => check_loop fuel' (Some a) 1
            end
          else if prev_step =? 1 then
            match pRight n with
            | Some r => check_loop fuel' (Some r) 0
            | None => check_loop fuel' (Some a) 2
            end
          else
            assert (prev_step =? 2);;
            msg ← check_node a;
            step ← match pParent n with
              | Some q => p ← node q; mret (if bool_decide (Some a = pLeft p) then 1 else 2)
              | None => mret prev_step
              end;
            rest ← check_loop fuel' (pParent n) step;
            mret (msg ++ rest)
      end
  end.

Definition check_redblack_tree (pTree : addr) : M Rbtree (list complaint) :=
  t ← tree pTree;
  w ← mget;
  check_loop (3 * size (nodes w)) (pHead t) 0.

Fixpoint integrity_loop (fuel : nat) (p : option addr) : M Rbtree (list complaint) :=
  match p with
  | None => mret []
  | Some e =>
      match fuel with
      | O => mstuck
      | S fuel' =>
          x ← htab (deref e);
          pTree ← match data x with Zpos a => mret a | _ => mstuck end;
          msg ← check_redblack_tree pTree;
          rest ← integrity_loop fuel' (next x);
          mret (msg ++ rest)
      end
  end.

(** [memRbtreeIntegrityCheck]: NULL is the empty list. *)
Definition memRbtreeIntegrityCheck : M Rbtree (list complaint) :=
  w ← mget;
  p ← htab (tget first);
  integrity_loop (size (heap (tblHash w))) p.
