(* ===== verification/RbShape.v ===== *)
(** Red-black trees as values: what it means that the store of nodes holds a tree,
    and what a change at one place of a tree does to it. *)
From S2P Require Import Prelude OsFile Util Hash Rbtree.

(** * Trees, and places in them *)

(** What a node holds besides its colour and its links. *)
Record entry := mkEntry { e_addr : addr; e_key : list Z; e_data : list Z; e_height : Z }.

Inductive T :=
| E
| N (black : bool) (l : T) (e : entry) (r : T).

(** The way from a place to the root: [FL] when the place is below the left link. *)
Inductive frame :=
| FL (black : bool) (e : entry) (r : T)
| FR (black : bool) (l : T) (e : entry).

Definition fill (f : frame) (t : T) : T :=
  match f with FL b e r => N b t e r | FR b l e => N b l e t end.

Fixpoint plug (t : T) (fs : list frame) : T :=
  match fs with [] => t | f :: fs' => plug (fill f t) fs' end.

(** The entries in order; [lefts] and [rights] are those before and behind a place. *)
Fixpoint elems (t : T) : list entry :=
  match t with E => [] | N _ l e r => elems l ++ e :: elems r end.

Fixpoint lefts (fs : list frame) : list entry :=
  match fs with
  | [] => []
  | FL _ _ _ :: fs' => lefts fs'
  | FR _ l e :: fs' => lefts fs' ++ elems l ++ [e]
  end.

Fixpoint rights (fs : list frame) : list entry :=
  match fs with
  | [] => []
  | FL _ e r :: fs' => e :: elems r ++ rights fs'
  | FR _ _ _ :: fs' => rights fs'
  end.

Lemma elems_plug fs : forall t, elems (plug t fs) = lefts fs ++ elems t ++ rights fs.
Proof.
  induction fs as [|[b e r|b l e] fs IH]; intros t; cbn [plug lefts rights]; [by rewrite app_nil_r|..];
    rewrite IH; cbn [fill elems]; by rewrite <- ?(assoc_L (++)).
Qed.

Definition root (t : T) : option addr := match t with E => None | N _ _ e _ => Some (e_addr e) end.
Definition frame_entry (f : frame) : entry := match f with FL _ e _ => e | FR _ _ e => e end.
Definition top (fs : list frame) : option addr :=
  match fs with [] => None | f :: _ => Some (e_addr (frame_entry f)) end.

(** The number of entries on the longest way down. *)
Fixpoint depth (t : T) : nat := match t with E => 0 | N _ l _ r => S (max (depth l) (depth r)) end.

Lemma depth_length t : (depth t <= length (elems t))%nat.
Proof. induction t as [|b l IHl e r IHr]; [done|]. cbn. rewrite length_app. cbn. lia. Qed.

Definition isblack (t : T) : bool := match t with E => true | N b _ _ _ => b end.

(** The addresses of the entries of a list. *)
Definition addrs (es : list entry) : list addr := e_addr <$> es.

Lemma addrs_app es1 es2 : addrs (es1 ++ es2) = addrs es1 ++ addrs es2.
Proof. apply fmap_app. Qed.
Lemma addrs_cons e es : addrs (e :: es) = e_addr e :: addrs es.
Proof. done. Qed.

(** Take the entries of a tree, and the fact that they are different, apart. *)
Ltac nodups :=
  cbn [elems lefts rights fill frame_entry] in *;
  repeat match goal with
  | H : context [addrs (_ ++ _)] |- _ => rewrite addrs_app in H
  | H : context [addrs (_ :: _)] |- _ => rewrite addrs_cons in H
  | |- context [addrs (_ ++ _)] => rewrite addrs_app
  | |- context [addrs (_ :: _)] => rewrite addrs_cons
  | H : NoDup (_ ++ _) |- _ => rewrite NoDup_app in H; destruct H as (? & ? & ?)
  | H : NoDup (_ :: _) |- _ => rewrite NoDup_cons in H; destruct H as (? & ?)
  end.

(** Decide whether an address is one of a list of entries. *)
Ltac mem :=
  cbn [elems lefts rights frame_entry] in *;
  repeat match goal with
  | H : context [addrs (_ ++ _)] |- _ => rewrite addrs_app in H
  | H : context [addrs (_ :: _)] |- _ => rewrite addrs_cons in H
  | |- context [addrs (_ ++ _)] => rewrite addrs_app
  | |- context [addrs (_ :: _)] => rewrite addrs_cons
  | H : context [_ ∈ _ ++ _] |- _ => rewrite elem_of_app in H
  | H : context [_ ∈ _ :: _] |- _ => rewrite elem_of_cons in H
  | |- context [_ ∈ _ ++ _] => rewrite elem_of_app
  | |- context [_ ∈ _ :: _] => rewrite elem_of_cons
  end; tauto.

(** The same with what [NoDup] says of the addresses in the context. *)
Ltac at_addr a :=
  repeat match goal with
  | H : forall x, x ∈ ?l -> x ∉ ?m |- _ =>
      lazymatch goal with
      | _ : a ∈ l -> a ∉ m |- _ => fail
      | _ => pose proof (H a)
      end
  end.
Ltac apart :=
  nodups;
  try match goal with |- _ <> _ => let E := fresh in intros E; try (subst || rewrite E in * ) end;
  intros;
  repeat match goal with
  | _ : ?a ∈ _ |- _ => progress at_addr a
  end;
  mem.

(** What is at a place, and what is around it. *)
Lemma nodup_place es1 es2 es3 : NoDup (addrs (es1 ++ es2 ++ es3)) ->
  NoDup (addrs es2) /\ NoDup (addrs (es1 ++ es3)) /\ forall x, x ∈ addrs es2 -> x ∉ addrs (es1 ++ es3).
Proof.
  intros H. assert (H' : NoDup (addrs (es2 ++ es1 ++ es3))).
  { unfold addrs in *. eapply NoDup_Permutation_proper; [|exact H]. apply fmap_Permutation.
    rewrite !(assoc_L (++)). by rewrite (Permutation_app_comm es2 es1). }
  rewrite addrs_app in H'. by apply NoDup_app in H' as (? & ? & ?).
Qed.

(** * Trees in the store *)

Definition to_node (b : bool) (p : option addr) (l : T) (e : entry) (r : T) : BtRbNode :=
  mkNode (e_key e) (e_data e) b p (root l) (root r) (e_height e).

Section Store.
Implicit Types h : gmap addr BtRbNode.

Fixpoint tree_at h (p : option addr) (t : T) : Prop :=
  match t with
  | E => True
  | N b l e r => h !! e_addr e = Some (to_node b p l e r) /\
      tree_at h (Some (e_addr e)) l /\ tree_at h (Some (e_addr e)) r
  end.

(** The nodes on the way to the root, with the place's subtree at [hole]. *)
Fixpoint way_at h (hole : option addr) (fs : list frame) : Prop :=
  match fs with
  | [] => True
  | FL b e r :: fs' =>
      h !! e_addr e = Some (mkNode (e_key e) (e_data e) b (top fs') hole (root r) (e_height e)) /\
      tree_at h (Some (e_addr e)) r /\ way_at h (Some (e_addr e)) fs'
  | FR b l e :: fs' =>
      h !! e_addr e = Some (mkNode (e_key e) (e_data e) b (top fs') (root l) hole (e_height e)) /\
      tree_at h (Some (e_addr e)) l /\ way_at h (Some (e_addr e)) fs'
  end.

Lemma tree_at_plug h fs : forall t,
  tree_at h None (plug t fs) <-> tree_at h (top fs) t /\ way_at h (root t) fs.
Proof.
  induction fs as [|[b e r|b l e] fs IH]; intros t; cbn [plug way_at top]; [by split; [|intros []]|..];
    rewrite IH; cbn [fill tree_at root frame_entry to_node]; tauto.
Qed.

Lemma tree_at_ext h h' t : forall p,
  tree_at h p t -> (forall x, x ∈ addrs (elems t) -> h' !! x = h !! x) -> tree_at h' p t.
Proof.
  induction t as [|b l IHl e r IHr]; intros p; cbn [tree_at elems]; [done|].
  intros (Hn & Hl & Hr) Hh. rewrite addrs_app, addrs_cons in Hh.
  split; [rewrite Hh; [done|set_solver]|]. split; [apply IHl|apply IHr]; try done; set_solver.
Qed.

(** Only the root of a tree knows what is above it. *)
Lemma tree_at_reparent h h' t p q :
  tree_at h p t -> NoDup (addrs (elems t)) ->
  (forall x, x ∈ addrs (elems t) -> root t <> Some x -> h' !! x = h !! x) ->
  (forall x n, root t = Some x -> h !! x = Some n -> h' !! x = Some (set_pParent q n)) ->
  tree_at h' q t.
Proof.
  destruct t as [|b l e r]; [done|]. cbn [tree_at elems root]. 
  rewrite addrs_app, addrs_cons. intros (Hn & Hl & Hr) Hnd Hh Hroot.
  apply NoDup_app in Hnd as (Hnl & Hd & Hnr). apply NoDup_cons in Hnr as [Hne Hnr].
  split; [by rewrite (Hroot _ _ eq_refl Hn)|]. split; eapply tree_at_ext; try done.
  all: intros x Hx; apply Hh; [set_solver|]; intros [= <-]; set_solver.
Qed.

Lemma way_at_ext h h' hole fs :
  way_at h hole fs -> (forall x, x ∈ addrs (lefts fs ++ rights fs) -> h' !! x = h !! x) ->
  way_at h' hole fs.
Proof.
  revert hole. induction fs as [|[b e r|b l e] fs IH]; intros hole; cbn [way_at lefts rights]; [done|..];
    rewrite ?addrs_app, ?addrs_cons; intros (Hn & Hs & Hw) Hh;
    (split; [rewrite Hh; [done|set_solver]|]);
    (split; [eapply tree_at_ext; [done|]; intros; apply Hh; set_solver|]);
    apply IH; try done; intros; apply Hh; set_solver.
Qed.

(** Only the first node above a place knows what is at the place. *)
Definition set_hole (f : frame) (v : option addr) (n : BtRbNode) : BtRbNode :=
  match f with FL _ _ _ => set_pLeft v n | FR _ _ _ => set_pRight v n end.

Lemma way_at_refill h h' hole hole' f fs :
  way_at h hole (f :: fs) -> NoDup (addrs (lefts (f :: fs) ++ rights (f :: fs))) ->
  (forall x, x ∈ addrs (lefts (f :: fs) ++ rights (f :: fs)) -> x <> e_addr (frame_entry f) -> h' !! x = h !! x) ->
  (forall n, h !! e_addr (frame_entry f) = Some n ->
     h' !! e_addr (frame_entry f) = Some (set_hole f hole' n)) ->
  way_at h' hole' (f :: fs).
Proof.
  destruct f as [b e r|b l e]; cbn [way_at lefts rights frame_entry set_hole]; 
    intros (Hn & Hs & Hw) Hnd Hh Hf; rewrite (Hf _ Hn); (split; [done|]);
    rewrite ?addrs_app, ?addrs_cons, ?NoDup_app, ?NoDup_cons in *;
    (split; [eapply tree_at_ext; [done|]|eapply way_at_ext; [done|]]);
    intros x Hx; rewrite ?addrs_app in Hx; apply Hh; set_solver.
Qed.

Lemma tree_at_lookup h p t x : tree_at h p t -> x ∈ addrs (elems t) -> is_Some (h !! x).
Proof.
  revert p. induction t as [|b l IHl e r IHr]; intros p; cbn [tree_at elems].
  { intros _ ?%elem_of_nil. done. }
  intros (Hn & Hl & Hr). rewrite addrs_app, addrs_cons, elem_of_app, elem_of_cons.
  intros [?|[->|?]]; [by eapply IHl|by rewrite Hn|by eapply IHr].
Qed.
End Store.

Lemma root_plug_addr t f fs : exists x, root (plug t (f :: fs)) = Some x /\ x ∈ addrs (lefts (f :: fs) ++ rights (f :: fs)).
Proof.
  revert t f. induction fs as [|g fs IH]; intros t f.
  - exists (e_addr (frame_entry f)). destruct f; cbn; rewrite ?addrs_app; set_solver.
  - destruct (IH (fill f t) g) as (x & Hx & Hin). exists x. split; [done|].
    destruct f; cbn [lefts rights] in *; rewrite ?addrs_app, ?addrs_cons in *; set_solver.
Qed.

Lemma root_plug_indep t t' f fs : root (plug t (f :: fs)) = root (plug t' (f :: fs)).
Proof.
  revert f t t'. induction fs as [|g fs IH]; intros f t t'; cbn [plug] in *; [by destruct f|]. apply IH.
Qed.
