(* ===== verification/RbRotate.v ===== *)
(** Changing colours, rotating, and [do_insert_balancing]. *)
From S2P Require Import Prelude OsFile Util Hash Rbtree RbShape.

(** * Stepping through the code *)

Lemma wp_rget {A} (f : Rbtree -> A) Q C w : Q (f w) w -> wp (rget f) Q C w.
Proof. done. Qed.
Lemma wp_rupd f (Q : unit -> Rbtree -> Prop) C w : Q tt (f w) -> wp (rupd f) Q C w.
Proof. done. Qed.
Lemma wp_rbget Q C (w : Rbtree) : Q w w -> wp mget Q C w.
Proof. done. Qed.
Lemma wp_nonnull a (Q : addr -> Rbtree -> Prop) C w : Q a w -> wp (nonnull (Some a)) Q C w.
Proof. done. Qed.
Lemma wp_node a n (Q : BtRbNode -> Rbtree -> Prop) C w :
  nodes w !! a = Some n -> Q n w -> wp (node a) Q C w.
Proof. unfold wp, node. by intros ->. Qed.
Lemma wp_tree a t (Q : BtRbTree -> Rbtree -> Prop) C w :
  trees w !! a = Some t -> Q t w -> wp (tree a) Q C w.
Proof. unfold wp, tree. by intros ->. Qed.
Lemma wp_cursor a c (Q : RbtCursor -> Rbtree -> Prop) C w :
  cursors w !! a = Some c -> Q c w -> wp (cursor a) Q C w.
Proof. unfold wp, cursor. by intros ->. Qed.
Lemma wp_upd_node a f n (Q : unit -> Rbtree -> Prop) C w : nodes w !! a = Some n ->
  Q tt (set_nodes (<[a := f n]> (nodes w)) w) -> wp (upd_node a f) Q C w.
Proof. intros Hn HQ. unfold upd_node. apply wp_bind. by eapply wp_node. Qed.
Lemma wp_upd_tree a f t (Q : unit -> Rbtree -> Prop) C w : trees w !! a = Some t ->
  Q tt (set_trees (<[a := f t]> (trees w)) w) -> wp (upd_tree a f) Q C w.
Proof. intros Hn HQ. unfold upd_tree. apply wp_bind. by eapply wp_tree. Qed.
Lemma wp_upd_cursor a f c (Q : unit -> Rbtree -> Prop) C w : cursors w !! a = Some c ->
  Q tt (set_cursors (<[a := f c]> (cursors w)) w) -> wp (upd_cursor a f) Q C w.
Proof. intros Hn HQ. unfold upd_cursor. apply wp_bind. by eapply wp_cursor. Qed.

Ltac rstep :=
  match goal with
  | |- wp (_ ≫= _) _ _ _ => apply wp_bind
  | |- wp (mret _) _ _ _ => apply wp_ret
  | |- wp (rget _) _ _ _ => apply wp_rget
  | |- wp (rupd _) _ _ _ => apply wp_rupd
  | |- wp mget _ _ _ => apply wp_rbget
  | |- wp (nonnull (Some _)) _ _ _ => apply wp_nonnull
  | |- wp (node _) _ _ _ => eapply wp_node; [by eauto|]
  | |- wp (tree _) _ _ _ => eapply wp_tree; [by eauto|]
  | |- wp (cursor _) _ _ _ => eapply wp_cursor; [by eauto|]
  | |- wp (upd_node _ _) _ _ _ => eapply wp_upd_node; [by eauto|]
  | |- wp (upd_tree _ _) _ _ _ => eapply wp_upd_tree; [by eauto|]
  | |- wp (upd_cursor _ _) _ _ _ => eapply wp_upd_cursor; [by eauto|]
  end.
Ltac rsteps := repeat (rstep; cbv beta).

(** * A tree that is being changed *)

(** What the code that rearranges a tree leaves alone. *)
Definition rest (w : Rbtree) : Rbtree := set_nodes ∅ (set_trees ∅ w).

(** The tree [pt] is [t] and has the entries [es] in order; nothing else has changed
    since [w0]. *)
Record now (w0 : Rbtree) (pt : addr) (es : list entry) (w : Rbtree) (t : T) : Prop := {
  n_head : pHead <$> trees w !! pt = Some (root t);
  n_tree : tree_at (nodes w) None t;
  n_elems : elems t = es;
  n_nodup : NoDup (addrs es);
  n_rest : rest w = rest w0;
  n_dom : dom (nodes w) = dom (nodes w0);
  n_nodes : forall x, x ∉ addrs es -> nodes w !! x = nodes w0 !! x;
  n_trees : forall q, q <> pt -> trees w !! q = trees w0 !! q;
  n_cursors : pCursors <$> trees w !! pt = pCursors <$> trees w0 !! pt
}.

Lemma now_place w0 pt es w b l e r fs : now w0 pt es w (plug (N b l e r) fs) ->
  nodes w !! e_addr e = Some (to_node b (top fs) l e r).
Proof. intros H. by apply n_tree, tree_at_plug in H as [[? _] _]. Qed.

Lemma now_nodup w0 pt es w t fs : now w0 pt es w (plug t fs) ->
  NoDup (addrs (lefts fs ++ elems t ++ rights fs)).
Proof. intros H. rewrite <- elems_plug, (n_elems _ _ _ _ _ H). by eapply n_nodup. Qed.

Lemma now_in w0 pt es w t fs x : now w0 pt es w (plug t fs) ->
  x ∈ addrs (elems t) -> x ∈ addrs es.
Proof.
  intros H Hx. rewrite <- (n_elems _ _ _ _ _ H), elems_plug. unfold addrs in *.
  rewrite !fmap_app. set_solver.
Qed.

Lemma dom_insert_same {A} (m : gmap addr A) a n : is_Some (m !! a) -> dom (<[a := n]> m) = dom m.
Proof. intros H%elem_of_dom. rewrite dom_insert_L. set_solver. Qed.

(** A change of the colour, or of the height the integrity check keeps. *)
Lemma wp_repaint w0 pt es w b b' l e r fs (Q : unit -> Rbtree -> Prop) C :
  now w0 pt es w (plug (N b l e r) fs) ->
  (forall w', now w0 pt es w' (plug (N b' l e r) fs) -> Q tt w') ->
  wp (upd_node (e_addr e) (set_isBlack b')) Q C w.
Proof.
  intros H HQ. pose proof (now_place _ _ _ _ _ _ _ _ _ H) as Hx.
  pose proof (now_nodup _ _ _ _ _ _ H) as Hnd. pose proof (now_in _ _ _ _ _ _ (e_addr e) H) as Hin.
  rstep. apply HQ. destruct H as [Hh Ht He Hn Hr Hd Ho Hq Hc].
  apply tree_at_plug in Ht as [(_ & Hl & Hrt) Hw]. nodups.
  assert (is_Some (nodes w !! e_addr e)) by eauto.
  split; cbn [nodes trees set_nodes rest]; try done.
  - rewrite Hh. f_equal. by destruct fs; [|apply root_plug_indep].
  - apply tree_at_plug. cbn [tree_at root]. rewrite lookup_insert_eq.
    split; [split; [done|split]|]; [eapply tree_at_ext|eapply tree_at_ext|eapply way_at_ext]; try done.
    all: intros y Hy; apply lookup_insert_ne; intros <-; nodups; set_solver.
  - rewrite <- He, !elems_plug. done.
  - rewrite dom_insert_same by done. done.
  - intros x Hx'. rewrite lookup_insert_ne; [by apply Ho|]. set_solver.
Qed.

(** * Rotations *)

Lemma wp_relink_parent w hole y fs (Q : unit -> Rbtree -> Prop) C :
  way_at (nodes w) (Some hole) fs -> NoDup (addrs (lefts fs ++ rights fs)) ->
  hole ∉ addrs (lefts fs ++ rights fs) ->
  (forall h, way_at h (Some y) fs -> dom h = dom (nodes w) ->
     (forall x, x ∉ addrs (lefts fs ++ rights fs) -> h !! x = nodes w !! x) -> Q tt (set_nodes h w)) ->
  wp (relink_parent (top fs) hole y) Q C w.
Proof.
  intros Hw Hnd Hx HQ. destruct fs as [|f fs]; cbn [relink_parent top].
  { rstep. replace w with (set_nodes (nodes w) w) by by destruct w. by apply HQ. }
  assert (exists n, nodes w !! e_addr (frame_entry f) = Some n) as [n Hn] by (destruct f; destruct Hw; eauto).
  assert (Hf : forall g : BtRbNode -> BtRbNode, g n = set_hole f (Some y) n ->
    Q tt (set_nodes (<[e_addr (frame_entry f) := g n]> (nodes w)) w)).
  { intros g Hg. apply HQ.
    - eapply way_at_refill; [exact Hw|exact Hnd|..].
      + intros z _ Hz. by rewrite lookup_insert_ne.
      + intros n' Hn'. rewrite lookup_insert_eq, Hg. congruence.
    - by rewrite dom_insert_same.
    - intros z Hz. apply lookup_insert_ne. intros <-. destruct f; nodups; set_solver. }
  rsteps. destruct f as [b e r|b l e]; destruct Hw as [Hn' Hw]; cbn [frame_entry set_hole] in *;
    rewrite Hn in Hn'; injection Hn' as ->; cbn [pLeft] in *.
  - rewrite bool_decide_eq_true_2 by done. rsteps. by apply Hf.
  - rewrite bool_decide_eq_false_2; [rsteps; by apply Hf|].
    destruct l as [|bl ll el lr]; [done|]. intros [= E]. nodups. set_solver.
Qed.

(** Giving a subtree another parent. *)
Lemma wp_adopt w t p q (Q : unit -> Rbtree -> Prop) C :
  tree_at (nodes w) p t -> NoDup (addrs (elems t)) ->
  (forall h, tree_at h q t -> dom h = dom (nodes w) ->
     (forall x, x ∉ addrs (elems t) -> h !! x = nodes w !! x) -> Q tt (set_nodes h w)) ->
  wp (match root t with Some b => upd_node b (set_pParent q) | None => mret tt end) Q C w.
Proof.
  intros Ht Hnd HQ. destruct t as [|b l e r]; cbn [root].
  { rstep. replace w with (set_nodes (nodes w) w) by by destruct w. by apply HQ. }
  pose proof Ht as (Hn & _). rstep. apply HQ.
  - eapply tree_at_reparent; [exact Ht|exact Hnd|..].
    + intros x _ Hx. apply lookup_insert_ne. cbn [root] in Hx. congruence.
    + intros x n [= <-] Hx. rewrite lookup_insert_eq. congruence.
  - apply dom_insert_same. eauto.
  - intros x Hx. apply lookup_insert_ne. intros <-. nodups. set_solver.
Qed.

(** The end of a rotation: the head of the tree, when the lower node has become it. *)
Lemma wp_head w0 pt es w w1 x y t t' fs (Q : unit -> Rbtree -> Prop) C :
  now w0 pt es w (plug t fs) -> root t = Some x -> root t' = Some y -> elems t' = elems t ->
  tree_at (nodes w1) (top fs) t' -> way_at (nodes w1) (Some y) fs ->
  dom (nodes w1) = dom (nodes w) -> trees w1 = trees w -> rest w1 = rest w ->
  (forall z, z ∉ addrs (elems (plug t fs)) -> nodes w1 !! z = nodes w !! z) ->
  (forall w', now w0 pt es w' (plug t' fs) -> Q tt w') ->
  wp (t ← tree pt; mwhen (bool_decide (pHead t = Some x)) (upd_tree pt (set_pHead (Some y)))) Q C w1.
Proof.
  intros [Hh Ht He Hn Hr Hd Ho Hq Hc] Ex Ey Eel Ht' Hw' Hdom Htr Hrest Hz HQ.
  destruct (trees w !! pt) as [tr|] eqn:Etr; [|done]. injection Hh as Hh.
  assert (Hel : elems (plug t' fs) = es) by (rewrite elems_plug, Eel, <- elems_plug; done).
  assert (Hpl : tree_at (nodes w1) None (plug t' fs)) by (apply tree_at_plug; by rewrite Ey).
  assert (Etr1 : trees w1 !! pt = Some tr) by (by rewrite Htr).
  rsteps. destruct fs as [|f fs].
  - cbn [plug] in *. rewrite bool_decide_eq_true_2 by congruence. cbn [mwhen].
    rsteps. apply HQ.
    split; cbn [nodes trees set_nodes set_trees rest]; rewrite ?Htr, ?lookup_insert_eq; try done.
    + by rewrite Ey.
    + by rewrite <- Hr, <- Hrest.
    + congruence.
    + intros z Hz'. rewrite Hz by (rewrite He; done). by apply Ho.
    + intros q Hq'. rewrite lookup_insert_ne by done. by apply Hq.
  - rewrite bool_decide_eq_false_2.
    + apply HQ. split; try done; rewrite ?Htr, ?Etr; try done.
      * cbn [fmap option_fmap option_map]. rewrite Hh. f_equal. apply root_plug_indep.
      * congruence.
      * congruence.
      * intros z Hz'. rewrite Hz by (rewrite He; done). by apply Ho.
    + rewrite Hh. destruct (root_plug_addr t f fs) as (q & Hq' & Hin). rewrite Hq'. intros [= ->].
      rewrite <- He, elems_plug in Hn. apply nodup_place in Hn as (_ & _ & Hap).
      apply (Hap x); [|done]. destruct t as [|bl l e r]; [done|]. injection Ex as <-. nodups. set_solver.
Qed.

Ltac rcbn := cbn [nodes trees cursors set_nodes set_trees set_cursors set_pParent set_pLeft set_pRight
  set_isBlack pKey pData isBlack pParent pLeft pRight nBlackHeight to_node root] in *.

Ltac look :=
  rcbn; repeat first [rewrite lookup_insert_eq | rewrite lookup_insert_ne by congruence];
  first [eassumption | reflexivity].
Ltac rlook := eapply wp_node || eapply wp_upd_node; [look|].

Lemma wp_leftRotate w0 pt es w c1 a x c2 b y d fs (Q : unit -> Rbtree -> Prop) C :
  now w0 pt es w (plug (N c1 a x (N c2 b y d)) fs) ->
  (forall w', now w0 pt es w' (plug (N c2 (N c1 a x b) y d) fs) -> Q tt w') ->
  wp (leftRotate pt (e_addr x)) Q C w.
Proof.
  intros H HQ. pose proof (nodup_place _ _ _ (now_nodup _ _ _ _ _ _ H)) as (Hnt & Hnf & Hap).
  pose proof (n_tree _ _ _ _ _ H) as Ht.
  apply tree_at_plug in Ht as [(Hx & Ha & Hy & Hb & Hdd) Hw].
  assert (Hxy : e_addr x <> e_addr y) by (clear - Hnt; nodups; at_addr (e_addr x); at_addr (e_addr y); mem).
  assert (Hpx : e_addr x ∉ addrs (lefts fs ++ rights fs)) by (apply Hap; mem).
  assert (Hpy : e_addr y ∉ addrs (lefts fs ++ rights fs)) by (apply Hap; mem).
  unfold leftRotate. rsteps. rcbn. rsteps. rlook. rstep. rcbn. eapply wp_relink_parent; [|done|done|].
  { rcbn. eapply way_at_ext; [exact Hw|]. intros z Hz. apply lookup_insert_ne. by intros <-. }
  intros h Hw' Hdom Hh. rcbn.
  assert (Hh' : forall z, z ∈ addrs (elems (N c1 a x (N c2 b y d))) -> z <> e_addr y -> h !! z = nodes w !! z).
  { intros z Hz Hne. rewrite Hh by by apply Hap. by rewrite lookup_insert_ne. }
  rewrite <- (Hh' (e_addr x)) in Hx by (nodups; set_solver).
  assert (Hy' := Hh (e_addr y) Hpy). rewrite lookup_insert_eq in Hy'.
  assert (Ha' : tree_at h (Some (e_addr x)) a).
  { eapply tree_at_ext; [exact Ha|]. intros z Hz. apply Hh'; [mem|]. clear - Hnt Hz. apart. }
  assert (Hb' : tree_at h (Some (e_addr y)) b).
  { eapply tree_at_ext; [exact Hb|]. intros z Hz. apply Hh'; [mem|]. clear - Hnt Hz. apart. }
  assert (Hd' : tree_at h (Some (e_addr y)) d).
  { eapply tree_at_ext; [exact Hdd|]. intros z Hz. apply Hh'; [mem|]. clear - Hnt Hz. apart. }
  clear Ha Hb Hdd Hw.
  rstep. rlook. rstep. rlook. rstep. rlook. rstep. rcbn.
  eapply wp_adopt.
  { rcbn. eapply tree_at_ext; [exact Hb'|]. intros z Hz.
    by rewrite !lookup_insert_ne by (clear - Hnt Hz; apart). }
  { nodups; done. }
  rcbn. intros h2 Hb2 Hdom2 Hh2.
  assert (Hh3 : forall z, z ∉ addrs (elems b) -> z <> e_addr x -> z <> e_addr y -> h2 !! z = h !! z).
  { intros z Hz Hzx Hzy. rewrite Hh2 by done. by rewrite !lookup_insert_ne by congruence. }
  assert (Hbx : e_addr x ∉ addrs (elems b) /\ e_addr y ∉ addrs (elems b)) by (clear - Hnt; nodups; at_addr (e_addr x); at_addr (e_addr y); mem).
  destruct Hbx as [Hbx Hby].
  eapply (wp_head w0 pt es w _ (e_addr x) (e_addr y) _ (N c2 (N c1 a x b) y d));
    [exact H|done|done|..|done|done| |exact HQ]; rcbn.
  - cbn [elems]. by rewrite <- (assoc_L (++)).
  - cbn [tree_at]. rewrite (Hh2 (e_addr y)), (Hh2 (e_addr x)) by done.
    split; [look|]. split; [split; [look|split; [|done]]|];
      (eapply tree_at_ext; [eassumption|]; intros z Hz; apply Hh3; clear - Hnt Hz; apart).
  - eapply way_at_ext; [exact Hw'|]. intros z Hz. apply Hh3; [|congruence..].
    intros Hzb. apply (Hap z); [mem|done].
  - rewrite Hdom2, !dom_insert_same, Hdom by (rewrite ?lookup_insert_ne by congruence; rewrite ?lookup_insert_eq; eauto).
    apply dom_insert_same. eauto.
  - intros z Hz. rewrite elems_plug in Hz. assert (Hzy : e_addr y <> z) by (intros <-; apply Hz; mem).
    rewrite Hh3, Hh, lookup_insert_ne; [done|done|mem..| |congruence]. intros ->. apply Hz. mem.
Qed.

Lemma wp_rightRotate w0 pt es w c1 a x c2 b y d fs (Q : unit -> Rbtree -> Prop) C :
  now w0 pt es w (plug (N c1 (N c2 d y b) x a) fs) ->
  (forall w', now w0 pt es w' (plug (N c2 d y (N c1 b x a)) fs) -> Q tt w') ->
  wp (rightRotate pt (e_addr x)) Q C w.
Proof.
  intros H HQ. pose proof (nodup_place _ _ _ (now_nodup _ _ _ _ _ _ H)) as (Hnt & Hnf & Hap).
  pose proof (n_tree _ _ _ _ _ H) as Ht.
  apply tree_at_plug in Ht as [(Hx & (Hy & Hdd & Hb) & Ha) Hw].
  assert (Hxy : e_addr x <> e_addr y) by (clear - Hnt; nodups; at_addr (e_addr x); at_addr (e_addr y); mem).
  assert (Hpx : e_addr x ∉ addrs (lefts fs ++ rights fs)) by (apply Hap; mem).
  assert (Hpy : e_addr y ∉ addrs (lefts fs ++ rights fs)) by (apply Hap; mem).
  unfold rightRotate. rsteps. rcbn. rsteps. rlook. rstep. rcbn. eapply wp_relink_parent; [|done|done|].
  { rcbn. eapply way_at_ext; [exact Hw|]. intros z Hz. apply lookup_insert_ne. by intros <-. }
  intros h Hw' Hdom Hh. rcbn.
  assert (Hh' : forall z, z ∈ addrs (elems (N c1 (N c2 d y b) x a)) -> z <> e_addr y -> h !! z = nodes w !! z).
  { intros z Hz Hne. rewrite Hh by by apply Hap. by rewrite lookup_insert_ne. }
  rewrite <- (Hh' (e_addr x)) in Hx by (nodups; set_solver).
  assert (Hy' := Hh (e_addr y) Hpy). rewrite lookup_insert_eq in Hy'.
  assert (Ha' : tree_at h (Some (e_addr x)) a).
  { eapply tree_at_ext; [exact Ha|]. intros z Hz. apply Hh'; [mem|]. clear - Hnt Hz. apart. }
  assert (Hb' : tree_at h (Some (e_addr y)) b).
  { eapply tree_at_ext; [exact Hb|]. intros z Hz. apply Hh'; [mem|]. clear - Hnt Hz. apart. }
  assert (Hd' : tree_at h (Some (e_addr y)) d).
  { eapply tree_at_ext; [exact Hdd|]. intros z Hz. apply Hh'; [mem|]. clear - Hnt Hz. apart. }
  clear Ha Hb Hdd Hw.
  rstep. rlook. rstep. rlook. rstep. rlook. rstep. rcbn.
  eapply wp_adopt.
  { rcbn. eapply tree_at_ext; [exact Hb'|]. intros z Hz.
    by rewrite !lookup_insert_ne by (clear - Hnt Hz; apart). }
  { nodups; done. }
  rcbn. intros h2 Hb2 Hdom2 Hh2.
  assert (Hh3 : forall z, z ∉ addrs (elems b) -> z <> e_addr x -> z <> e_addr y -> h2 !! z = h !! z).
  { intros z Hz Hzx Hzy. rewrite Hh2 by done. by rewrite !lookup_insert_ne by congruence. }
  assert (Hbx : e_addr x ∉ addrs (elems b) /\ e_addr y ∉ addrs (elems b)) by (clear - Hnt; nodups; at_addr (e_addr x); at_addr (e_addr y); mem).
  destruct Hbx as [Hbx Hby].
  eapply (wp_head w0 pt es w _ (e_addr x) (e_addr y) _ (N c2 d y (N c1 b x a)));
    [exact H|done|done|..|done|done| |exact HQ]; rcbn.
  - cbn [elems]. by rewrite <- !(assoc_L (++)).
  - cbn [tree_at]. rewrite (Hh2 (e_addr y)), (Hh2 (e_addr x)) by done.
    split; [look|]. split; [|split; [look|split; [done|]]];
      (eapply tree_at_ext; [eassumption|]; intros z Hz; apply Hh3; clear - Hnt Hz; apart).
  - eapply way_at_ext; [exact Hw'|]. intros z Hz. apply Hh3; [|congruence..].
    intros Hzb. apply (Hap z); [mem|done].
  - rewrite Hdom2, !dom_insert_same, Hdom by (rewrite ?lookup_insert_ne by congruence; rewrite ?lookup_insert_eq; eauto).
    apply dom_insert_same. eauto.
  - intros z Hz. rewrite elems_plug in Hz. assert (Hzy : e_addr y <> z) by (intros <-; apply Hz; mem).
    rewrite Hh3, Hh, lookup_insert_ne; [done|done|mem..| |congruence]. intros ->. apply Hz. mem.
Qed.
