(* ===== verification/RbInsert.v ===== *)
(** The red-black conditions, and [do_insert_balancing]. *)
From S2P Require Import Prelude OsFile Util Hash Rbtree RbShape RbRotate.

(** * Red-black trees *)

(** [t] is a red-black tree with [n] black nodes on every way down. *)
Fixpoint rb (n : nat) (t : T) : Prop :=
  match t with
  | E => n = O
  | N true l _ r => match n with O => False | S n' => rb n' l /\ rb n' r end
  | N false l _ r => isblack l = true /\ isblack r = true /\ rb n l /\ rb n r
  end.

Definition frame_black (f : frame) : bool := match f with FL b _ _ => b | FR b _ _ => b end.
Definition frame_sibling (f : frame) : T := match f with FL _ _ r => r | FR _ l _ => l end.

(** There is a node above, and it is black. *)
Definition below_black (fs : list frame) : Prop :=
  match fs with [] => False | f :: _ => frame_black f = true end.

(** A tree with [n] black nodes on every way down fits below [fs], but for its
    colour. *)
Fixpoint rb_way (n : nat) (fs : list frame) : Prop :=
  match fs with
  | [] => True
  | f :: fs' => rb n (frame_sibling f) /\
      if frame_black f then rb_way (S n) fs'
      else isblack (frame_sibling f) = true /\ below_black fs' /\ rb_way n fs'
  end.

Definition valid (t : T) : Prop := isblack t = true /\ exists n, rb n t.

Lemma rb_plug fs : forall n t, rb n t -> rb_way n fs -> isblack t = true \/ below_black fs ->
  valid (plug t fs).
Proof.
  induction fs as [|f fs IH]; intros n t Ht Hw Hc; cbn [plug].
  { destruct Hc as [Hc|[]]. split; eauto. }
  destruct Hw as [Hs Hw]. destruct (frame_black f) eqn:Ef.
  - eapply (IH (S n)); [|done|]; destruct f; cbn in Ef; subst; cbn; auto.
  - destruct Hw as (Hsb & Hbb & Hw). destruct Hc as [Hc|Hc]; [|cbn in Hc; congruence].
    eapply (IH n); [|done|]; destruct f; cbn in Ef; subst; cbn; auto.
Qed.

Lemma valid_plug fs : forall t, valid (plug t fs) ->
  exists n, rb n t /\ rb_way n fs /\ (isblack t = true \/ below_black fs).
Proof.
  induction fs as [|f fs IH]; intros t; cbn [plug].
  { intros [Hb [n Hn]]. exists n. cbn. auto. }
  intros H. destruct (IH _ H) as (n & Hn & Hw & Hc).
  destruct f as [[] e r|[] l e]; cbn in Hn, Hc |- *.
  1,3: destruct n as [|n]; [done|]; destruct Hn; exists n; auto.
  all: destruct Hn as (? & ? & ? & ?), Hc as [?|?]; [done|]; exists n; auto 10.
Qed.

(** * Reading a tree that is being changed *)

Lemma now_head w0 pt es w t : now w0 pt es w t ->
  exists tr, trees w !! pt = Some tr /\ pHead tr = root t.
Proof.
  intros H. pose proof (n_head _ _ _ _ _ H) as Hh. destruct (trees w !! pt) as [tr|]; [|done].
  injection Hh as Hh. eauto.
Qed.

Lemma now_below w0 pt es w b l e r f fs : now w0 pt es w (plug (N b l e r) (f :: fs)) ->
  exists tr, trees w !! pt = Some tr /\ pHead tr <> Some (e_addr e).
Proof.
  intros H. destruct (now_head _ _ _ _ _ H) as (tr & Ht & Hh). exists tr. split; [done|]. rewrite Hh.
  destruct (root_plug_addr (N b l e r) f fs) as (q & -> & Hq). intros [= ->].
  apply now_nodup, nodup_place in H as (_ & _ & Hap). apply (Hap (e_addr e)); [mem|done].
Qed.

Lemma wp_blackish w p t (Q : bool -> Rbtree -> Prop) C :
  tree_at (nodes w) p t -> Q (isblack t) w -> wp (blackish (root t)) Q C w.
Proof.
  destruct t as [|b l e r]; cbn [tree_at root isblack blackish]; intros Ht HQ; [by rstep|].
  destruct Ht as [Hn _]. rsteps. done.
Qed.

(** The nodes around a place, read off the store. *)
Ltac reveal H :=
  let Ht := fresh "Ht" in
  pose proof (n_tree _ _ _ _ _ H) as Ht;
  apply tree_at_plug in Ht;
  cbn [tree_at way_at top frame_entry] in Ht;
  repeat match goal with H : _ /\ _ |- _ => destruct H end.

(** Steps that do not change the store. *)
Ltac rread :=
  lazymatch goal with
  | |- wp (upd_node _ _) _ _ _ => fail
  | |- wp (upd_tree _ _) _ _ _ => fail
  | |- wp (upd_cursor _ _) _ _ _ => fail
  | |- wp (rupd _) _ _ _ => fail
  | |- _ => rstep
  end.
Ltac steps := repeat (rread; cbv beta; rcbn).
(** Change the colour of the node [e], which has the subtrees [l] and [r] and is below [fs]. *)
Ltac repaint H l e r fs :=
  steps;
  eapply (wp_repaint _ _ _ _ _ _ l e r fs); [exact H|];
  clear H; let w' := fresh "w" in intros w' H; cbv beta.

(** Whether the node at [a] is the root of a subtree that is elsewhere. *)
Lemma other_child t a : a ∉ addrs (elems t) -> bool_decide (Some a = root t) = false.
Proof.
  intros Ha. apply bool_decide_eq_false_2. destruct t as [|b l e r]; [done|]. intros [= ->].
  apply Ha. mem.
Qed.

(** * Insertion *)

(** What is left to do when the red node [e] with subtrees [l] and [r] is below [fs]. *)
Definition balanced w0 pt es fuel Q C : Prop := forall w l e r fs n,
  now w0 pt es w (plug (N false l e r) fs) -> rb n (N false l e r) -> rb_way n fs ->
  (length fs <= fuel)%nat -> wp (insert_balancing_loop fuel pt (e_addr e)) Q C w.

Ltac not_in H :=
  apply now_nodup, nodup_place in H as (H & _); clear - H; let Hin := fresh "Hin" in intros Hin; apart.

(** The parent [f] is red, so there is a grandparent [g], which is black. *)
Ltac grandparent :=
  steps; apply wp_assert; [done|]; steps.

Lemma wp_insert_LL w0 pt es fuel w l e r pe s ge u fs n (Q : unit -> Rbtree -> Prop) C :
  balanced w0 pt es fuel Q C ->
  now w0 pt es w (plug (N true (N false (N false l e r) pe s) ge u) fs) ->
  rb n (N false l e r) -> rb n s -> isblack s = true -> rb n u -> rb_way (S n) fs ->
  (length fs < fuel)%nat ->
  wp (insert_balancing_loop (S fuel) pt (e_addr e)) Q C w.
Proof.
  intros IH H Hrb Hs Hsb Hu Hw Hlen. cbn [insert_balancing_loop].
  destruct (now_below _ _ _ _ _ l e r (FL false pe s) (FL true ge u :: fs) H) as (tr & Ht & Hh). rsteps.
  rewrite bool_decide_eq_false_2 by done. reveal H. grandparent.
  rewrite bool_decide_eq_true_2 by done. steps. eapply wp_blackish; [eassumption|].
  destruct (isblack u) eqn:Eu; cbn [negb].
  - steps. rewrite (other_child s).
    2:{ not_in H. }
    steps. apply wp_assert; [by apply bool_decide_eq_true_2|].
    repaint H (N false (N false l e r) pe s) ge u fs. steps.
    repaint H (N false l e r) pe s (FL false ge u :: fs). steps.
    eapply wp_rightRotate; [exact H|]. clear H. intros w3 H.
    eapply (IH w3 l e r (FL true pe (N false s ge u) :: fs)); [exact H|exact Hrb| |cbn [length]; lia].
    cbn in *. auto.
  - destruct u as [|[] ul ue ur]; [done..|]. steps. cbn [root]. steps.
    repaint H (N false (N false l e r) pe s) ge (N false ul ue ur) fs. steps.
    repaint H ul ue ur (FR false (N false (N false l e r) pe s) ge :: fs). steps.
    repaint H (N false l e r) pe s (FL false ge (N true ul ue ur) :: fs).
    eapply (IH _ _ ge _ fs (S n)); [exact H| |exact Hw|lia]. cbn in *. tauto.
Qed.

Lemma wp_insert_LR w0 pt es fuel w l e r pe s ge u fs n (Q : unit -> Rbtree -> Prop) C :
  balanced w0 pt es fuel Q C ->
  now w0 pt es w (plug (N true (N false s pe (N false l e r)) ge u) fs) ->
  rb n (N false l e r) -> rb n s -> isblack s = true -> rb n u -> rb_way (S n) fs ->
  (length fs < fuel)%nat ->
  wp (insert_balancing_loop (S fuel) pt (e_addr e)) Q C w.
Proof.
  intros IH H Hrb Hs Hsb Hu Hw Hlen. cbn [insert_balancing_loop].
  destruct (now_below _ _ _ _ _ l e r (FR false s pe) (FL true ge u :: fs) H) as (tr & Ht & Hh). rsteps.
  rewrite bool_decide_eq_false_2 by done. reveal H. grandparent.
  rewrite bool_decide_eq_true_2 by done. steps. eapply wp_blackish; [eassumption|].
  destruct (isblack u) eqn:Eu; cbn [negb].
  - steps. rewrite bool_decide_eq_true_2 by done. steps.
    eapply (wp_leftRotate _ _ _ _ false s pe false l e r (FL true ge u :: fs)); [exact H|]. clear - IH Hrb Hs Hsb Hu Eu Hw Hlen.
    intros w1 H. reveal H. steps. apply wp_assert; [by apply bool_decide_eq_true_2|].
    repaint H (N false (N false s pe l) e r) ge u fs. steps.
    repaint H (N false s pe l) e r (FL false ge u :: fs). steps.
    eapply wp_rightRotate; [exact H|]. clear H. intros w4 H.
    eapply (IH w4 s pe l (FL true e (N false r ge u) :: fs) n); [exact H|..|cbn [length]; lia];
      cbn in *; tauto.
  - destruct u as [|[] ul ue ur]; [done..|]. steps. cbn [root]. steps.
    repaint H (N false s pe (N false l e r)) ge (N false ul ue ur) fs. steps.
    repaint H ul ue ur (FR false (N false s pe (N false l e r)) ge :: fs). steps.
    repaint H s pe (N false l e r) (FL false ge (N true ul ue ur) :: fs).
    eapply (IH _ _ ge _ fs (S n)); [exact H| |exact Hw|lia]. cbn in *. tauto.
Qed.

Lemma wp_insert_RR w0 pt es fuel w l e r pe s ge u fs n (Q : unit -> Rbtree -> Prop) C :
  balanced w0 pt es fuel Q C ->
  now w0 pt es w (plug (N true u ge (N false s pe (N false l e r))) fs) ->
  rb n (N false l e r) -> rb n s -> isblack s = true -> rb n u -> rb_way (S n) fs ->
  (length fs < fuel)%nat ->
  wp (insert_balancing_loop (S fuel) pt (e_addr e)) Q C w.
Proof.
  intros IH H Hrb Hs Hsb Hu Hw Hlen. cbn [insert_balancing_loop].
  destruct (now_below _ _ _ _ _ l e r (FR false s pe) (FR true u ge :: fs) H) as (tr & Ht & Hh). rsteps.
  rewrite bool_decide_eq_false_2 by done. reveal H. grandparent.
  rewrite (other_child u) by (not_in H). steps. eapply wp_blackish; [eassumption|].
  destruct (isblack u) eqn:Eu; cbn [negb].
  - steps. rewrite (other_child s).
    2:{ not_in H. }
    steps. apply wp_assert; [by apply bool_decide_eq_true_2|].
    repaint H u ge (N false s pe (N false l e r)) fs. steps.
    repaint H s pe (N false l e r) (FR false u ge :: fs). steps.
    eapply wp_leftRotate; [exact H|]. clear H. intros w3 H.
    eapply (IH w3 l e r (FR true (N false u ge s) pe :: fs)); [exact H|exact Hrb| |cbn [length]; lia].
    cbn in *. auto.
  - destruct u as [|[] ul ue ur]; [done..|]. steps. cbn [root]. steps.
    repaint H (N false ul ue ur) ge (N false s pe (N false l e r)) fs. steps.
    repaint H ul ue ur (FL false ge (N false s pe (N false l e r)) :: fs). steps.
    repaint H s pe (N false l e r) (FR false (N true ul ue ur) ge :: fs).
    eapply (IH _ _ ge _ fs (S n)); [exact H| |exact Hw|lia]. cbn in *. tauto.
Qed.

Lemma wp_insert_RL w0 pt es fuel w l e r pe s ge u fs n (Q : unit -> Rbtree -> Prop) C :
  balanced w0 pt es fuel Q C ->
  now w0 pt es w (plug (N true u ge (N false (N false l e r) pe s)) fs) ->
  rb n (N false l e r) -> rb n s -> isblack s = true -> rb n u -> rb_way (S n) fs ->
  (length fs < fuel)%nat ->
  wp (insert_balancing_loop (S fuel) pt (e_addr e)) Q C w.
Proof.
  intros IH H Hrb Hs Hsb Hu Hw Hlen. cbn [insert_balancing_loop].
  destruct (now_below _ _ _ _ _ l e r (FL false pe s) (FR true u ge :: fs) H) as (tr & Ht & Hh). rsteps.
  rewrite bool_decide_eq_false_2 by done. reveal H. grandparent.
  rewrite (other_child u) by (not_in H). steps. eapply wp_blackish; [eassumption|].
  destruct (isblack u) eqn:Eu; cbn [negb].
  - steps. rewrite bool_decide_eq_true_2 by done. steps.
    eapply (wp_rightRotate _ _ _ _ false s pe false r e l (FR true u ge :: fs)); [exact H|]. clear - IH Hrb Hs Hsb Hu Eu Hw Hlen.
    intros w1 H. reveal H. steps. apply wp_assert; [by apply bool_decide_eq_true_2|].
    repaint H u ge (N false l e (N false r pe s)) fs. steps.
    repaint H l e (N false r pe s) (FR false u ge :: fs). steps.
    eapply wp_leftRotate; [exact H|]. clear H. intros w4 H.
    eapply (IH w4 r pe s (FR true (N false u ge l) e :: fs) n); [exact H|..|cbn [length]; lia];
      cbn in *; tauto.
  - destruct u as [|[] ul ue ur]; [done..|]. steps. cbn [root]. steps.
    repaint H (N false ul ue ur) ge (N false (N false l e r) pe s) fs. steps.
    repaint H ul ue ur (FL false ge (N false (N false l e r) pe s) :: fs). steps.
    repaint H (N false l e r) pe s (FR false (N true ul ue ur) ge :: fs).
    eapply (IH _ _ ge _ fs (S n)); [exact H| |exact Hw|lia]. cbn in *. tauto.
Qed.

Lemma wp_insert_loop w0 pt es Q C fuel :
  (forall w' t m, now w0 pt es w' t -> rb m t -> Q tt w') -> balanced w0 pt es fuel Q C.
Proof.
  intros HQ. induction fuel as [|fuel IH]; intros w l e r fs n H Hrb Hw Hlen;
    (destruct fs as [|f fs]; cbn [length] in Hlen; [|try lia]).
  1,2: cbn [insert_balancing_loop]; destruct (now_head _ _ _ _ _ H) as (tr & Ht & Hh); rsteps; rewrite Hh;
    cbn [plug root]; rewrite bool_decide_eq_true_2 by done; rstep; by eapply HQ.
  destruct (frame_black f) eqn:Ef.
  - cbn [insert_balancing_loop]. destruct (now_below _ _ _ _ _ _ _ _ _ _ H) as (tr & Ht & Hh). rsteps.
    rewrite bool_decide_eq_false_2 by done.
    destruct (rb_plug (f :: fs) n (N false l e r)) as [_ [m Hm]]; [done..|by right|].
    destruct f as [b pe s|b s pe]; cbn in Ef; subst b; reveal H; steps; by eapply HQ.
  - destruct Hw as [Hs Hw]. rewrite Ef in Hw. destruct Hw as (Hsb & Hbb & Hw).
    destruct fs as [|g fs]; [done|]. cbn [below_black length] in *. destruct Hw as [Hu Hw]. rewrite Hbb in Hw.
    destruct f as [b pe s|b s pe]; cbn in Ef, Hs, Hsb; subst b;
    destruct g as [b ge u|b u ge]; cbn in Hbb, Hu; subst b.
    + eapply wp_insert_LL; try done. lia.
    + eapply wp_insert_RL; try done. lia.
    + eapply wp_insert_LR; try done. lia.
    + eapply wp_insert_RR; try done. lia.
Qed.

(** * Fuel *)

Lemma addrs_size (m : gmap addr BtRbNode) (l : list addr) :
  NoDup l -> (forall x, x ∈ l -> is_Some (m !! x)) -> (length l <= size m)%nat.
Proof.
  intros Hnd Hl. rewrite <- size_dom, <- (size_list_to_set (C:=gset addr)) by done.
  apply subseteq_size. intros x Hx%elem_of_list_to_set. by apply elem_of_dom, Hl.
Qed.

Lemma length_frames fs : forall t, (length fs + length (elems t) <= length (elems (plug t fs)))%nat.
Proof.
  induction fs as [|f fs IH]; intros t; cbn [plug length]; [lia|].
  specialize (IH (fill f t)). destruct f; cbn [fill elems] in *; rewrite !length_app in IH;
    cbn [length] in IH; lia.
Qed.

(** A tree has no more entries than the store has nodes. *)
Lemma now_size w0 pt es w t : now w0 pt es w t -> (length (elems t) <= size (nodes w))%nat.
Proof.
  intros H. pose proof (n_tree _ _ _ _ _ H) as Ht.
  rewrite <- (length_fmap e_addr). apply addrs_size.
  - rewrite (n_elems _ _ _ _ _ H). by eapply n_nodup.
  - intros x Hx. by eapply tree_at_lookup.
Qed.

Lemma wp_do_insert_balancing w0 pt es w l e r fs n (Q : unit -> Rbtree -> Prop) C :
  now w0 pt es w (plug (N false l e r) fs) -> rb n (N false l e r) -> rb_way n fs ->
  (forall w' t, now w0 pt es w' t -> valid t -> Q tt w') ->
  wp (do_insert_balancing pt (e_addr e)) Q C w.
Proof.
  intros H Hrb Hw HQ. unfold do_insert_balancing. steps.
  eapply (wp_insert_loop w0 pt es _ _ (size (nodes w))); [|exact H|exact Hrb|exact Hw|].
  - intros w' t m H' Hm. destruct (now_head _ _ _ _ _ H') as (tr & Htr & Hh). steps. rewrite Hh.
    destruct t as [|b l' e' r'].
    + apply n_elems in H, H'. rewrite <- H', elems_plug in H.
      apply (f_equal length) in H. cbn [elems] in H. rewrite !length_app in H. cbn [length] in H. lia.
    + cbn [root]. repaint H' l' e' r' (@nil frame). eapply HQ; [exact H'|]. split; [done|].
      destruct b; [by exists m|]. exists (S m). cbn in Hm |- *. tauto.
  - pose proof (now_size _ _ _ _ _ H). pose proof (length_frames fs (N false l e r)). lia.
Qed.
