(* ===== verification/RbDelete.v ===== *)
(** [do_delete_balancing]. *)
From S2P Require Import Prelude OsFile Util Hash Rbtree RbShape RbRotate RbInsert.

(** A tree with [n] black nodes on every way down fits below a node of colour [c]
    with the sibling of the same height. *)
Definition fits (n : nat) (c : bool) (fs : list frame) : Prop :=
  if c then rb_way (S n) fs else below_black fs /\ rb_way n fs.

Lemma valid_fits c n l e r fs :
  rb n l -> rb n r -> isblack l = true -> isblack r = true -> fits n c fs -> valid (plug (N c l e r) fs).
Proof.
  intros Hl Hr Bl Br Hf. destruct c.
  - apply (rb_plug fs (S n)); [done|exact Hf|by left].
  - destruct Hf as [Hb Hw]. apply (rb_plug fs n); [done|exact Hw|by right].
Qed.

Lemma wp_fix_left w0 pt es w c t pe sl se sr fs n (Q : option addr -> Rbtree -> Prop) C :
  now w0 pt es w (plug (N c t pe (N true sl se sr)) fs) -> rb n t -> rb n sl -> rb n sr ->
  fits (S n) c fs ->
  (isblack sl = true -> isblack sr = true ->
   forall w', now w0 pt es w' (plug (N c t pe (N false sl se sr)) fs) -> Q (Some (e_addr pe)) w') ->
  (forall w' t', now w0 pt es w' t' -> valid t' -> Q (root t') w') ->
  wp (delete_fix_left pt (e_addr pe) (Some (e_addr se))) Q C w.
Proof.
  intros H Ht Hsl Hsr Hf HQ1 HQ2. unfold delete_fix_left. reveal H. steps.
  eapply wp_blackish; [eassumption|]. steps. eapply wp_blackish; [eassumption|].
  destruct (isblack sl && isblack sr) eqn:E.
  { apply andb_true_iff in E as [Esl Esr]. repaint H sl se sr (FR c t pe :: fs). steps. by apply HQ1. }
  clear HQ1. steps.
  (* the end of the repair, when the far child of the sibling is red *)
  assert (Hend : forall w sl se rl re rr, now w0 pt es w (plug (N c t pe (N true sl se (N false rl re rr))) fs) ->
    rb n sl -> rb n rl -> rb n rr ->
    wp (upd_node (e_addr se) (set_isBlack c);;
        upd_node (e_addr pe) (set_isBlack true);;
        sib ← node (e_addr se);
        match pRight sib with Some r => upd_node r (set_isBlack true) | None => mret tt end;;
        leftRotate pt (e_addr pe);;
        t ← tree pt; mret (pHead t)) Q C w).
  { clear - Ht Hf HQ2. intros w sl se rl re rr H Hsl Hrl Hrr.
    repaint H sl se (N false rl re rr) (FR c t pe :: fs). 
    repaint H t pe (N c sl se (N false rl re rr)) fs. clear - Ht Hf HQ2 H Hsl Hrl Hrr. reveal H.
    repaint H rl re rr (FR c sl se :: FR true t pe :: fs). steps.
    eapply wp_leftRotate; [exact H|]. clear - Ht Hf HQ2 Hsl Hrl Hrr. intros w4 H.
    destruct (now_head _ _ _ _ _ H) as (tr & Htr & Hh). steps. rewrite Hh. apply HQ2; [done|].
    by apply (valid_fits c (S n)). }
  destruct (isblack sr) eqn:Esr.
  - rewrite andb_true_r in E. destruct sl as [|[] a le b]; [done..|]. cbn [root]. steps.
    repaint H a le b (FL true se sr :: FR c t pe :: fs). 
    repaint H (N true a le b) se sr (FR c t pe :: fs). steps.
    eapply (wp_rightRotate _ _ _ _ false sr se true b le a (FR c t pe :: fs)); [exact H|]. 
    clear - Hend Hsl Hsr. intros w3 H. cbn in Hsl.
    pose proof H as H'. reveal H'. steps.
    apply wp_unbind. eapply (Hend w3 a le b se sr); [exact H|tauto..].
  - destruct sr as [|[] rl re rr]; [done..|]. steps. cbn in Hsr. apply wp_unbind. eapply Hend; [exact H|tauto..].
Qed.

Lemma wp_fix_right w0 pt es w c t pe sl se sr fs n (Q : option addr -> Rbtree -> Prop) C :
  now w0 pt es w (plug (N c (N true sl se sr) pe t) fs) -> rb n t -> rb n sl -> rb n sr ->
  fits (S n) c fs ->
  (isblack sl = true -> isblack sr = true ->
   forall w', now w0 pt es w' (plug (N c (N false sl se sr) pe t) fs) -> Q (Some (e_addr pe)) w') ->
  (forall w' t', now w0 pt es w' t' -> valid t' -> Q (root t') w') ->
  wp (delete_fix_right pt (e_addr pe) (Some (e_addr se))) Q C w.
Proof.
  intros H Ht Hsl Hsr Hf HQ1 HQ2. unfold delete_fix_right. reveal H. steps.
  eapply wp_blackish; [eassumption|]. steps. eapply wp_blackish; [eassumption|].
  destruct (isblack sl && isblack sr) eqn:E.
  { apply andb_true_iff in E as [Esl Esr]. repaint H sl se sr (FL c pe t :: fs). steps. by apply HQ1. }
  clear HQ1. steps.
  (* the end of the repair, when the far child of the sibling is red *)
  assert (Hend : forall w sl se rl re rr, now w0 pt es w (plug (N c (N true (N false rl re rr) se sl) pe t) fs) ->
    rb n sl -> rb n rl -> rb n rr ->
    wp (upd_node (e_addr se) (set_isBlack c);;
        upd_node (e_addr pe) (set_isBlack true);;
        sib ← node (e_addr se);
        match pLeft sib with Some r => upd_node r (set_isBlack true) | None => mret tt end;;
        rightRotate pt (e_addr pe);;
        t ← tree pt; mret (pHead t)) Q C w).
  { clear - Ht Hf HQ2. intros w sl se rl re rr H Hsl Hrl Hrr.
    repaint H (N false rl re rr) se sl (FL c pe t :: fs). 
    repaint H (N c (N false rl re rr) se sl) pe t fs. clear - Ht Hf HQ2 H Hsl Hrl Hrr. reveal H.
    repaint H rl re rr (FL c se sl :: FL true pe t :: fs). steps.
    eapply wp_rightRotate; [exact H|]. clear - Ht Hf HQ2 Hsl Hrl Hrr. intros w4 H.
    destruct (now_head _ _ _ _ _ H) as (tr & Htr & Hh). steps. rewrite Hh. apply HQ2; [done|].
    by apply (valid_fits c (S n)). }
  destruct (isblack sl) eqn:Esl.
  - cbn [andb] in E. destruct sr as [|[] a le b]; [done..|]. cbn [root]. steps.
    repaint H a le b (FR true sl se :: FL c pe t :: fs). 
    repaint H sl se (N true a le b) (FL c pe t :: fs). steps.
    eapply (wp_leftRotate _ _ _ _ false sl se true a le b (FL c pe t :: fs)); [exact H|]. 
    clear - Hend Hsl Hsr. intros w3 H. cbn in Hsr.
    pose proof H as H'. reveal H'. steps.
    apply wp_unbind. eapply (Hend w3 b le sl se a); [exact H|tauto..].
  - destruct sl as [|[] rl re rr]; [done..|]. steps. cbn in Hsl. apply wp_unbind. eapply Hend; [exact H|tauto..].
Qed.

(** * The loop *)

(** As [rb], but a red root may have red children: it will be painted black. *)
Definition rb_below (n : nat) (t : T) : Prop :=
  match t with N false l _ r => rb n l /\ rb n r | _ => rb n t end.

Lemma rb_below_rb n t : rb_below n t -> isblack t = true -> rb n t.
Proof. by destruct t as [|[] l e r]. Qed.

(** The tree once the place [t] is painted black. *)
Definition paint (t : T) : T := match t with E => E | N _ l e r => N true l e r end.

Lemma paint_valid n t fs : rb_below n t -> rb_way (S n) fs -> isblack t = false \/ fs = [] ->
  valid (plug (paint t) fs).
Proof.
  intros Ht Hw Hc. destruct t as [|b l e r]; cbn [paint].
  { destruct Hc as [Hc | ->]; [done|]. split; [done|]. by exists O. }
  destruct Hc as [Hc | ->].
  - cbn in Hc. subst b. apply (rb_plug fs (S n)); [exact Ht|exact Hw|by left].
  - split; [done|]. destruct b; [by exists n|]. by exists (S n).
Qed.

(** What is left to do when a black node is missing on the ways through the place [t]. *)
Definition repairable w0 pt es fuel Q C : Prop := forall w t fs n,
  now w0 pt es w (plug t fs) -> rb_below n t -> rb_way (S n) fs ->
  (length fs <= fuel)%nat \/ isblack t = false ->
  wp (delete_balancing_loop fuel pt (root t) (top fs)) Q C w.

Lemma root_head w0 pt es w t f fs : now w0 pt es w (plug t (f :: fs)) ->
  exists tr, trees w !! pt = Some tr /\ bool_decide (root t = pHead tr) = false.
Proof.
  intros H. destruct (now_head _ _ _ _ _ H) as (tr & Ht & Hh). exists tr. split; [done|].
  apply bool_decide_eq_false_2. rewrite Hh. destruct (root_plug_addr t f fs) as (q & -> & Hq).
  destruct t as [|b l e r]; [done|]. intros [= <-].
  apply now_nodup, nodup_place in H as (_ & _ & Hap). apply (Hap (e_addr e)); [mem|done].
Qed.

(** The turn of the loop for a place that is a left child. *)
Lemma wp_turn_left w0 pt es w c t pe s fs n (Q : option addr -> Rbtree -> Prop) C :
  now w0 pt es w (plug (N c t pe s) fs) -> rb n t -> rb (S n) s ->
  (if c then rb_way (S (S n)) fs else isblack s = true /\ below_black fs /\ rb_way (S n) fs) ->
  (forall w' t' fs' m, now w0 pt es w' (plug t' fs') -> rb_below m t' -> rb_way (S m) fs' ->
     (length fs' <= length fs)%nat \/ isblack t' = false ->
     root t' = Some (e_addr pe) -> Q (root t') w') ->
  (forall w' t', now w0 pt es w' t' -> valid t' -> Q (root t') w') ->
  wp (b ← blackish (root s);
      pSib ← (if negb b then
          s ← nonnull (root s);
          upd_node s (set_isBlack true);;
          upd_node (e_addr pe) (set_isBlack false);;
          leftRotate pt (e_addr pe);;
          p ← node (e_addr pe); mret (pRight p)
        else mret (root s));
      delete_fix_left pt (e_addr pe) pSib) Q C w.
Proof.
  intros H Ht Hs Hf HQ1 HQ2. pose proof H as H'. reveal H'. steps. eapply wp_blackish; [eassumption|].
  destruct s as [|[] sl se sr]; cbn [isblack negb]; [done|..].
  - steps. cbn [root]. eapply wp_fix_left; [exact H|exact Ht|apply Hs|apply Hs| | |exact HQ2].
    { destruct c; [exact Hf|]. destruct Hf as (_ & ? & ?). done. }
    intros Bl Br w' HH. destruct Hs as [Hsl Hsr]. destruct c.
    + eapply (HQ1 w' (N true t pe (N false sl se sr)) fs (S n)); [exact HH| |exact Hf|by left|done]. cbn. auto.
    + eapply (HQ1 w' (N false t pe (N false sl se sr)) fs n); [exact HH| |apply Hf|by right|done]. cbn. auto.
  - steps. cbn [root]. destruct c; [|by destruct Hf].
    repaint H sl se sr (FR true t pe :: fs). repaint H t pe (N true sl se sr) fs. steps.
    eapply wp_leftRotate; [exact H|]. clear - Ht Hs Hf HQ1 HQ2. intros w1 H.
    destruct Hs as (Bl & Br & Hsl & Hsr). destruct sl as [|[] a le b]; [done| |done].
    pose proof H as H'. reveal H'. steps. cbn [root].
    eapply (wp_fix_left _ _ _ _ false t pe a le b (FL true se sr :: fs)); [exact H|exact Ht|apply Hsl|apply Hsl|..].
    + split; [done|]. split; [done|exact Hf].
    + intros Ba Bb w' HH.
      eapply (HQ1 w' (N false t pe (N false a le b)) (FL true se sr :: fs) n); [exact HH|..]; [|cbn; auto|by right|done].
      destruct Hsl. cbn. auto.
    + exact HQ2.
Qed.

(** The turn of the loop for a place that is a right child. *)
Lemma wp_turn_right w0 pt es w c t pe s fs n (Q : option addr -> Rbtree -> Prop) C :
  now w0 pt es w (plug (N c s pe t) fs) -> rb n t -> rb (S n) s ->
  (if c then rb_way (S (S n)) fs else isblack s = true /\ below_black fs /\ rb_way (S n) fs) ->
  (forall w' t' fs' m, now w0 pt es w' (plug t' fs') -> rb_below m t' -> rb_way (S m) fs' ->
     (length fs' <= length fs)%nat \/ isblack t' = false ->
     root t' = Some (e_addr pe) -> Q (root t') w') ->
  (forall w' t', now w0 pt es w' t' -> valid t' -> Q (root t') w') ->
  wp (b ← blackish (root s);
      pSib ← (if negb b then
          s ← nonnull (root s);
          upd_node s (set_isBlack true);;
          upd_node (e_addr pe) (set_isBlack false);;
          rightRotate pt (e_addr pe);;
          p ← node (e_addr pe); mret (pLeft p)
        else mret (root s));
      delete_fix_right pt (e_addr pe) pSib) Q C w.
Proof.
  intros H Ht Hs Hf HQ1 HQ2. pose proof H as H'. reveal H'. steps. eapply wp_blackish; [eassumption|].
  destruct s as [|[] sl se sr]; cbn [isblack negb]; [done|..].
  - steps. cbn [root]. eapply wp_fix_right; [exact H|exact Ht|apply Hs|apply Hs| | |exact HQ2].
    { destruct c; [exact Hf|]. destruct Hf as (_ & ? & ?). done. }
    intros Bl Br w' HH. destruct Hs as [Hsl Hsr]. destruct c.
    + eapply (HQ1 w' (N true (N false sl se sr) pe t) fs (S n)); [exact HH| |exact Hf|by left|done]. cbn. auto.
    + eapply (HQ1 w' (N false (N false sl se sr) pe t) fs n); [exact HH| |apply Hf|by right|done]. cbn. auto.
  - steps. cbn [root]. destruct c; [|by destruct Hf].
    repaint H sl se sr (FL true pe t :: fs). repaint H (N true sl se sr) pe t fs. steps.
    eapply wp_rightRotate; [exact H|]. clear - Ht Hs Hf HQ1 HQ2. intros w1 H.
    destruct Hs as (Bl & Br & Hsl & Hsr). destruct sr as [|[] a le b]; [done| |done].
    pose proof H as H'. reveal H'. steps. cbn [root].
    eapply (wp_fix_right _ _ _ _ false t pe a le b (FR true sl se :: fs)); [exact H|exact Ht|apply Hsr|apply Hsr|..].
    + split; [done|]. split; [done|exact Hf].
    + intros Ba Bb w' HH.
      eapply (HQ1 w' (N false (N false a le b) pe t) (FR true sl se :: fs) n); [exact HH|..]; [|cbn; auto|by right|done].
      destruct Hsr. cbn. auto.
    + exact HQ2.
Qed.

Lemma wp_delete_loop w0 pt es (Q : option addr -> Rbtree -> Prop) C fuel :
  (forall w' t fs, now w0 pt es w' (plug t fs) -> valid (plug (paint t) fs) -> Q (root t) w') ->
  repairable w0 pt es fuel Q C.
Proof.
  intros HQ. induction fuel as [|fuel IH]; intros w t fs n H Ht Hw Hlen; cbn [delete_balancing_loop];
    (destruct fs as [|f fs];
      [destruct (now_head _ _ _ _ _ H) as (tr & Htr & Hh)|destruct (root_head _ _ _ _ _ _ _ H) as (tr & Htr & Hh)]);
    pose proof H as H'; reveal H'; steps; (eapply wp_blackish; [eassumption|]);
    first [rewrite Hh; cbn [plug]; rewrite bool_decide_eq_true_2 by done | rewrite Hh]; cbn [orb].
  1,3: steps; eapply HQ; [exact H|]; eapply paint_valid; [done..|by right].
  all: destruct (isblack t) eqn:Eb; cbn [negb]; [|steps; eapply HQ; [exact H|]; eapply paint_valid; [done..|by left]].
  { destruct Hlen as [Hlen|]; [cbn [length] in Hlen; lia|done]. }
  destruct Hlen as [Hlen|]; [cbn [length] in Hlen|done].
  assert (Ht' : rb n t) by by apply rb_below_rb.
  assert (Hnext1 : forall w' t' fs' m, now w0 pt es w' (plug t' fs') -> rb_below m t' -> rb_way (S m) fs' ->
    (length fs' <= length fs)%nat \/ isblack t' = false -> is_Some (root t') ->
    wp (a ← nonnull (root t'); x ← node a; delete_balancing_loop fuel pt (root t') (pParent x)) Q C w').
  { intros w' t' fs' m HH Hm Hw' Hl Hr. destruct t' as [|b l e r]; [by destruct Hr|]. cbn [root].
    pose proof HH as HH'. reveal HH'. steps. apply (IH w' (N b l e r) fs' m); [done..|].
    destruct Hl; [left; lia|by right]. }
  assert (Hnext2 : forall w' t', now w0 pt es w' t' -> valid t' ->
    wp (a ← nonnull (root t'); x ← node a; delete_balancing_loop fuel pt (root t') (pParent x)) Q C w').
  { intros w' t' HH [Hb [m Hm]]. apply (Hnext1 w' t' [] m); [exact HH| |done|left; cbn; lia|].
    - destruct t' as [|[] l e r]; [done..|]. done.
    - destruct t' as [|b l e r]; [|by eexists]. apply n_elems in H, HH. rewrite <- HH, elems_plug in H.
      destruct f; cbn [lefts rights] in H; [|by destruct (lefts fs); destruct (elems l)].
      by destruct (lefts fs); destruct (elems t). }
  destruct Hw as [Hs Hw]. destruct f as [c pe s|c s pe]; cbn [frame_black frame_sibling] in Hs, Hw.
  - pose proof H as H''. reveal H''. cbn [top frame_entry]. steps.
    rewrite bool_decide_eq_true_2 by done.
    eapply wp_turn_left; [exact H|exact Ht'|exact Hs|exact Hw|..].
    + intros. eapply Hnext1; eauto.
    + intros. eapply Hnext2; eauto.
  - pose proof H as H''. reveal H''. cbn [top frame_entry]. steps.
    rewrite bool_decide_eq_false_2.
    2:{ destruct s as [|b l e r]; [done|]. destruct t as [|b' l' e' r']; [done|]. intros [= E].
        apply now_nodup, nodup_place in H as (_ & _ & Hap). apply (Hap (e_addr e')); [mem|]. rewrite E. mem. }
    eapply wp_turn_right; [exact H|exact Ht'|exact Hs|exact Hw|..].
    + intros. eapply Hnext1; eauto.
    + intros. eapply Hnext2; eauto.
Qed.

Lemma wp_do_delete_balancing w0 pt es w t fs n (Q : unit -> Rbtree -> Prop) C :
  now w0 pt es w (plug t fs) -> rb n t -> rb_way (S n) fs ->
  (forall w' t', now w0 pt es w' t' -> valid t' -> Q tt w') ->
  wp (do_delete_balancing pt (root t) (top fs)) Q C w.
Proof.
  intros H Ht Hw HQ. unfold do_delete_balancing. steps.
  eapply (wp_delete_loop w0 pt es); [|exact H| |exact Hw|].
  - clear - HQ. intros w t fs H Hv. destruct t as [|b l e r]; cbn [root paint] in *; steps.
    + eapply HQ; [exact H|exact Hv].
    + repaint H l e r fs. eapply HQ; [exact H|exact Hv].
  - destruct t as [|[] l e r]; [done..|]. cbn in Ht |- *. tauto.
  - left. pose proof (now_size _ _ _ _ _ H). pose proof (length_frames fs t). lia.
Qed.
