(* ===== verification/RbOrder.v ===== *)
(** The order of keys, and trees in order as maps from keys to data. *)
From S2P Require Import Prelude OsFile Util Hash Rbtree RbShape.
From Stdlib Require Import Sorting.Sorted.

(** * [key_compare] *)

Lemma key_compare_nil b : key_compare [] b = if bool_decide (b = []) then 0 else -1.
Proof. by destruct b. Qed.

Lemma key_compare_nil_r c a : key_compare (c :: a) [] = 1.
Proof. done. Qed.

Lemma key_compare_cons c a d b :
  key_compare (c :: a) (d :: b) = if c =? d then key_compare a b else if c <? d then -1 else 1.
Proof.
  unfold key_compare. cbn [length].
  assert (E : forall x y : nat, Z.to_nat (if Z.of_nat (S x) <=? Z.of_nat (S y) then Z.of_nat (S x) else Z.of_nat (S y))
    = S (Z.to_nat (if Z.of_nat x <=? Z.of_nat y then Z.of_nat x else Z.of_nat y))).
  { intros x y. case_Zb; lia. }
  rewrite E. cbn [memcmp chr tail]. destruct (Z.eqb_spec c d) as [->|Hne].
  - assert (E1 : (Z.of_nat (S (length a)) =? Z.of_nat (S (length b))) = (Z.of_nat (length a) =? Z.of_nat (length b)))
      by (case_Zb; lia || done).
    assert (E2 : (Z.of_nat (S (length a)) <? Z.of_nat (S (length b))) = (Z.of_nat (length a) <? Z.of_nat (length b)))
      by (case_Zb; lia || done).
    by rewrite E1, E2.
  - destruct (Z.eqb_spec (c - d) 0); [lia|]. case_Zb; lia || done.
Qed.

Definition klt (a b : list Z) : Prop := key_compare a b = -1.
#[export] Instance klt_dec a b : Decision (klt a b) := decide (key_compare a b = -1).

Lemma key_compare_refl a : key_compare a a = 0.
Proof. induction a as [|c a IH]; [done|]. by rewrite key_compare_cons, Z.eqb_refl. Qed.

Lemma key_compare_eq a : forall b, key_compare a b = 0 -> a = b.
Proof.
  induction a as [|c a IH]; intros [|d b]; try done. rewrite key_compare_cons.
  destruct (Z.eqb_spec c d) as [->|]; [by intros ->%IH|]. by destruct (c <? d).
Qed.

(** [key_compare] has three results, and changes sign when its arguments change places. *)
Lemma key_compare_flip a : forall b, key_compare b a = - key_compare a b.
Proof.
  induction a as [|c a IH]; intros [|d b]; try done. rewrite !key_compare_cons, (Z.eqb_sym d c).
  destruct (Z.eqb_spec c d) as [->|]; [apply IH|]. case_Zb; lia.
Qed.

Lemma key_compare_cases a b :
  (key_compare a b = -1 /\ klt a b) \/ (key_compare a b = 0 /\ a = b) \/ (key_compare a b = 1 /\ klt b a).
Proof.
  unfold klt. rewrite (key_compare_flip a b). enough (H : key_compare a b = -1 \/ key_compare a b = 0 \/ key_compare a b = 1).
  { destruct H as [H|[H|H]]; rewrite H; [auto..|]. right. left. split; [done|by apply key_compare_eq]. auto. }
  revert b. induction a as [|c a IH]; intros [|d b]; auto. rewrite key_compare_cons.
  case_Zb; auto.
Qed.

Lemma klt_irrefl a : ~ klt a a.
Proof. unfold klt. by rewrite key_compare_refl. Qed.

#[export] Instance klt_trans : Transitive klt.
Proof.
  intros a. unfold klt. induction a as [|c a IH]; intros [|d b] [|f g]; try done.
  rewrite !key_compare_cons.
  destruct (Z.eqb_spec c d), (Z.eqb_spec d f), (Z.eqb_spec c f); subst; try lia; eauto;
    repeat match goal with |- context [?x <? ?y] => destruct (Z.ltb_spec x y) end; lia.
Qed.

Lemma klt_asym a b : klt a b -> ~ klt b a.
Proof. intros H1 H2. eapply klt_irrefl. by etrans. Qed.

(** * Trees as maps *)

Definition keys (es : list entry) : list (list Z) := e_key <$> es.

(** The entries are in the order of their keys. *)
Definition ordered (es : list entry) : Prop := StronglySorted klt (keys es).

Definition table_of (es : list entry) : gmap (list Z) (list Z) :=
  list_to_map ((fun e => (e_key e, e_data e)) <$> es).

Lemma keys_app es1 es2 : keys (es1 ++ es2) = keys es1 ++ keys es2.
Proof. apply fmap_app. Qed.

Lemma ordered_app es1 es2 : ordered (es1 ++ es2) <->
  ordered es1 /\ ordered es2 /\ forall a b, a ∈ keys es1 -> b ∈ keys es2 -> klt a b.
Proof.
  unfold ordered. rewrite keys_app. induction (keys es1) as [|k ks IH]; cbn [app].
  { split; [intros H; split; [constructor|split; [done|]]|by intros (_ & H & _)].
    by intros a b ?%elem_of_nil. }
  split.
  - intros H. apply StronglySorted_inv in H as [H1 H2]. apply IH in H1 as (Ha & Hb & Hc).
    apply Forall_app in H2 as [H2 H3]. rewrite Forall_forall in H3.
    split; [by constructor|]. split; [done|]. intros a b [->|Ha']%elem_of_cons Hb'; eauto.
  - intros (H1 & H2 & H3). apply StronglySorted_inv in H1 as [H1 Hk]. constructor.
    + apply IH. split; [done|]. split; [done|]. intros. apply H3; [by right|done].
    + apply Forall_app. split; [done|]. apply Forall_forall. intros b Hb. apply H3; [by left|done].
Qed.

Lemma ordered_cons e es : ordered (e :: es) <-> ordered es /\ forall b, b ∈ keys es -> klt (e_key e) b.
Proof.
  unfold ordered. cbn. split.
  - intros [H1 H2]%StronglySorted_inv. rewrite Forall_forall in H2. done.
  - intros [H1 H2]. constructor; [done|]. by apply Forall_forall.
Qed.

Lemma ordered_nodup es : ordered es -> NoDup (keys es).
Proof.
  induction es as [|e es IH]; cbn; [constructor|]. rewrite ordered_cons. intros [H1 H2].
  constructor; [|by apply IH]. intros Hin. by eapply klt_irrefl, H2.
Qed.

Lemma fst_table es : ((fun e => (e_key e, e_data e)) <$> es).*1 = keys es.
Proof. unfold keys. rewrite <- list_fmap_compose. by apply list_fmap_ext. Qed.

Lemma table_of_in es e : ordered es -> e ∈ es -> table_of es !! e_key e = Some (e_data e).
Proof.
  intros Ho He. unfold table_of. apply elem_of_list_to_map; [by rewrite fst_table; apply ordered_nodup|].
  apply list_elem_of_fmap. eauto.
Qed.

Lemma table_of_none es k : k ∉ keys es -> table_of es !! k = None.
Proof. intros Hk. unfold table_of. apply not_elem_of_list_to_map. by rewrite fst_table. Qed.

Lemma table_of_lookup es k d : ordered es -> table_of es !! k = Some d ->
  exists e, e ∈ es /\ e_key e = k /\ e_data e = d.
Proof.
  intros Ho H. unfold table_of in H. apply elem_of_list_to_map in H; [|by rewrite fst_table; apply ordered_nodup].
  apply list_elem_of_fmap in H as (e & [= -> ->] & He). eauto.
Qed.

Lemma table_of_insert es1 e es2 : ordered (es1 ++ e :: es2) ->
  table_of (es1 ++ e :: es2) = <[e_key e := e_data e]> (table_of (es1 ++ es2)).
Proof.
  intros Ho. unfold table_of. rewrite !fmap_app.
  etrans; [apply list_to_map_proper with
    (l2 := (e_key e, e_data e) :: ((fun e => (e_key e, e_data e)) <$> es1) ++ ((fun e => (e_key e, e_data e)) <$> es2))|done].
  - assert (H : ((fun e => (e_key e, e_data e)) <$> es1 ++ e :: es2).*1 = keys (es1 ++ e :: es2)) by apply fst_table.
    rewrite fmap_app in H. rewrite H. by apply ordered_nodup.
  - symmetry. apply Permutation_middle.
Qed.
