(* ===== verification/RbCursor.v ===== *)
(** Moving a cursor: [memRbtreeFirst], [memRbtreeLast], [memRbtreeNext],
    [memRbtreePrevious] and the search of [memRbtreeMoveto], as moves in the list of
    the entries in order. *)
From S2P Require Import Prelude OsFile Util Hash Rbtree RbShape RbRotate RbInsert RbOrder.
From Stdlib Require Import Sorting.Sorted.

(** * Places *)

Lemma plug_app fs gs : forall t, plug t (fs ++ gs) = plug (plug t fs) gs.
Proof. induction fs as [|f fs IH]; intros t; [done|]. apply IH. Qed.

Lemma lefts_app fs gs : lefts (fs ++ gs) = lefts gs ++ lefts fs.
Proof.
  induction fs as [|[] fs IH]; cbn [app lefts]; [by rewrite app_nil_r|done|].
  by rewrite IH, <- (assoc_L (++)).
Qed.

Lemma rights_app fs gs : rights (fs ++ gs) = rights fs ++ rights gs.
Proof.
  induction fs as [|[] fs IH]; cbn [app rights]; [done| |done].
  by rewrite IH, <- (assoc_L (++)).
Qed.

(** Every entry is at a place. *)
Lemma find_place t : forall A e B, elems t = A ++ e :: B ->
  exists b l r fs, t = plug (N b l e r) fs /\ A = lefts fs ++ elems l /\ B = elems r ++ rights fs.
Proof.
  induction t as [|b l IHl e' r IHr]; intros A e B; cbn [elems]; [by destruct A|].
  assert (Htop : exists b0 l0 r0 fs, N b l e' r = plug (N b0 l0 e' r0) fs /\
    elems l = lefts fs ++ elems l0 /\ elems r = elems r0 ++ rights fs).
  { exists b, l, r, []. cbn. by rewrite app_nil_r. }
  intros H. apply app_eq_inv in H as [(k & E1 & E2)|(k & E1 & E2)]; destruct k as [|x k]; cbn in E2.
  - injection E2 as -> ->. rewrite app_nil_r in E1. by rewrite <- E1.
  - injection E2 as <- ->. destruct (IHl A e k E1) as (b' & l' & r' & fs & -> & -> & ->).
    exists b', l', r', (fs ++ [FL b e' r]). rewrite plug_app, lefts_app, rights_app. cbn.
    by rewrite app_nil_r, <- (assoc_L (++)).
  - injection E2 as <- <-. rewrite app_nil_r in E1. by rewrite E1.
  - injection E2 as <- E2. destruct (IHr k e B E2) as (b' & l' & r' & fs & -> & -> & ->).
    exists b', l', r', (fs ++ [FR b l e']). rewrite plug_app, lefts_app, rights_app. cbn.
    by rewrite E1, app_nil_r, <- !(assoc_L (++)).
Qed.

(** Lists of entries in one shape. *)
Ltac flatten := repeat first [rewrite <- (assoc_L (++)) | progress cbn [app]].
Ltac flatten_in H := repeat first [rewrite <- (assoc_L (++)) in H | progress cbn [app] in H].

(** * Changing one cursor *)

Definition put (pCur : addr) (c : RbtCursor) (w : Rbtree) : Rbtree :=
  set_cursors (<[pCur := c]> (cursors w)) w.

Lemma put_put a c c' w : put a c (put a c' w) = put a c w.
Proof. unfold put, set_cursors. cbn. by rewrite insert_insert_eq. Qed.

Lemma put_same a c w : cursors w !! a = Some c -> put a c w = w.
Proof. intros H. unfold put. rewrite insert_id by done. by destruct w. Qed.

Lemma put_lookup a c w : cursors (put a c w) !! a = Some c.
Proof. apply lookup_insert_eq. Qed.
#[export] Hint Resolve put_lookup : core.

Lemma wp_put a f c (Q : unit -> Rbtree -> Prop) C w :
  cursors w !! a = Some c -> Q tt (put a (f c) w) -> wp (upd_cursor a f) Q C w.
Proof. intros. by eapply wp_upd_cursor. Qed.

Definition head_addr (es : list entry) : option addr := e_addr <$> head es.
Definition last_addr (es : list entry) : option addr := e_addr <$> last es.

Section Moves.
Context (pCur : addr).
Implicit Types w : Rbtree.

Lemma wp_down_left l : forall fuel w c b e r p (Q : unit -> Rbtree -> Prop) C,
  tree_at (nodes w) p (N b l e r) -> cursors w !! pCur = Some c -> pNode c = Some (e_addr e) ->
  (length (elems l) <= fuel)%nat ->
  Q tt (put pCur (set_pNode (head_addr (elems l ++ [e])) c) w) -> wp (down_left fuel pCur) Q C w.
Proof.
  induction l as [|b' l' IH e' r' _]; intros fuel w c b e r p Q C Ht Hc Hn Hf HQ;
    cbn [tree_at] in Ht; destruct Ht as (Hx & Hl & _).
  - destruct fuel; cbn [down_left]; steps; rewrite Hn; steps; cbn [to_node pLeft root]; steps;
      cbn in HQ; rewrite put_same in HQ; by destruct c; cbn in *; subst.
  - cbn [elems] in Hf. rewrite length_app in Hf. cbn [length] in Hf. destruct fuel as [|fuel]; [lia|].
    cbn [down_left]. steps. rewrite Hn. steps. cbn [to_node pLeft root]. steps. eapply wp_put; [done|].
    eapply (IH fuel _ _ b' e' r'); [exact Hl|apply put_lookup|done|lia|].
    rewrite put_put. cbn [elems] in HQ. 
    replace (head_addr (elems l' ++ [e'])) with (head_addr ((elems l' ++ e' :: elems r') ++ [e])); [by destruct c|].
    by destruct (elems l').
Qed.

Lemma wp_down_right r : forall fuel w c b l e p (Q : unit -> Rbtree -> Prop) C,
  tree_at (nodes w) p (N b l e r) -> cursors w !! pCur = Some c -> pNode c = Some (e_addr e) ->
  (length (elems r) <= fuel)%nat ->
  Q tt (put pCur (set_pNode (last_addr (e :: elems r)) c) w) -> wp (down_right fuel pCur) Q C w.
Proof.
  induction r as [|b' l' _ e' r' IH]; intros fuel w c b l e p Q C Ht Hc Hn Hf HQ;
    cbn [tree_at] in Ht; destruct Ht as (Hx & _ & Hr).
  - destruct fuel; cbn [down_right]; steps; rewrite Hn; steps; cbn [to_node pRight root]; steps;
      cbn in HQ; rewrite put_same in HQ; by destruct c; cbn in *; subst.
  - cbn [elems] in Hf. rewrite length_app in Hf. cbn [length] in Hf. destruct fuel as [|fuel]; [lia|].
    cbn [down_right]. steps. rewrite Hn. steps. cbn [to_node pRight root]. steps. eapply wp_put; [done|].
    eapply (IH fuel _ _ b' l' e'); [exact Hr|apply put_lookup|done|lia|].
    rewrite put_put. cbn [elems] in HQ.
    replace (last_addr (e' :: elems r')) with (last_addr (e :: elems l' ++ e' :: elems r')); [by destruct c|].
    unfold last_addr. change (e :: elems l' ++ e' :: elems r') with ((e :: elems l') ++ e' :: elems r').
    by rewrite last_app_cons.
Qed.

Lemma wp_climb_right fs : forall fuel w c t (Q : unit -> Rbtree -> Prop) C,
  way_at (nodes w) (root t) fs -> NoDup (addrs (lefts fs ++ elems t ++ rights fs)) ->
  t <> E -> cursors w !! pCur = Some c -> pNode c = top fs ->
  (length fs <= fuel)%nat ->
  Q tt (put pCur (set_pNode (head_addr (rights fs)) c) w) ->
  wp (climb_right fuel pCur (default 1%positive (root t))) Q C w.
Proof.
  induction fs as [|f fs IH]; intros fuel w c t Q C Hw Hnd Ht Hc Hn Hf HQ.
  { destruct fuel; cbn [climb_right]; steps; rewrite Hn; cbn [top]; steps;
      cbn in HQ; rewrite put_same in HQ; by destruct c; cbn in *; subst. }
  destruct t as [|bt lt et rt]; [done|]. cbn [root default].
  destruct f as [b e r|b l e]; cbn [way_at] in Hw; destruct Hw as (He & Hs & Hw); cbn [top frame_entry] in Hn.
  - destruct fuel; cbn [climb_right]; steps; rewrite Hn; steps; cbn [pRight];
      (rewrite bool_decide_eq_false_2;
       [cbn [negb]; steps; cbn in HQ; rewrite put_same in HQ; by destruct c; cbn in *; subst|]);
      destruct r as [|br lr er rr]; try done; intros [= E]; clear - Hnd E; nodups; at_addr (e_addr et);
      rewrite E in *; mem.
  - cbn [length] in Hf. destruct fuel as [|fuel]; [lia|]. cbn [climb_right]. steps. rewrite Hn. steps.
    cbn [pRight root]. rewrite bool_decide_eq_true_2 by done. cbn [negb pParent]. steps.
    eapply wp_put; [done|].
    change (e_addr e) with (default 1%positive (root (N b l e (N bt lt et rt)))).
    eapply (IH fuel); [exact Hw| |done|apply put_lookup|done|lia|].
    + cbn [lefts rights elems] in *. flatten; flatten_in Hnd. exact Hnd.
    + rewrite put_put. cbn in HQ. by destruct c.
Qed.
Lemma wp_climb_left fs : forall fuel w c t (Q : unit -> Rbtree -> Prop) C,
  way_at (nodes w) (root t) fs -> NoDup (addrs (lefts fs ++ elems t ++ rights fs)) ->
  t <> E -> cursors w !! pCur = Some c -> pNode c = top fs ->
  (length fs <= fuel)%nat ->
  Q tt (put pCur (set_pNode (last_addr (lefts fs)) c) w) ->
  wp (climb_left fuel pCur (default 1%positive (root t))) Q C w.
Proof.
  induction fs as [|f fs IH]; intros fuel w c t Q C Hw Hnd Ht Hc Hn Hf HQ.
  { destruct fuel; cbn [climb_left]; steps; rewrite Hn; cbn [top]; steps;
      cbn in HQ; rewrite put_same in HQ; by destruct c; cbn in *; subst. }
  destruct t as [|bt lt et rt]; [done|]. cbn [root default].
  destruct f as [b e r|b l e]; cbn [way_at] in Hw; destruct Hw as (He & Hs & Hw); cbn [top frame_entry] in Hn.
  2: {
    assert (Hl : last_addr (lefts (FR b l e :: fs)) = Some (e_addr e)).
    { cbn [lefts]. unfold last_addr. by rewrite (assoc_L (++)), last_snoc. }
    rewrite Hl in HQ. destruct fuel; cbn [climb_left]; steps; rewrite Hn; steps; cbn [pLeft];
      (rewrite bool_decide_eq_false_2;
       [cbn [negb]; steps; rewrite put_same in HQ; by destruct c; cbn in *; subst|]);
      destruct l as [|br lr er rr]; try done; intros [= E]; clear - Hnd E; nodups; at_addr (e_addr et);
      rewrite E in *; mem. }
  cbn [length] in Hf. destruct fuel as [|fuel]; [lia|]. cbn [climb_left]. steps. rewrite Hn. steps.
    cbn [pLeft root]. rewrite bool_decide_eq_true_2 by done. cbn [negb pParent]. steps.
    eapply wp_put; [done|].
    change (e_addr e) with (default 1%positive (root (N b (N bt lt et rt) e r))).
    eapply (IH fuel); [exact Hw| |done|apply put_lookup|done|lia|].
    + cbn [lefts rights elems] in *. flatten; flatten_in Hnd. exact Hnd.
    + rewrite put_put. cbn in HQ. by destruct c.
Qed.
End Moves.

(** * The functions *)

(** The tree [pt] is [t]. *)
Record holds (w : Rbtree) (pt : addr) (t : T) : Prop := {
  h_head : pHead <$> trees w !! pt = Some (root t);
  h_at : tree_at (nodes w) None t;
  h_nodup : NoDup (addrs (elems t))
}.

Lemma now_holds w0 pt es w t : now w0 pt es w t -> holds w pt t.
Proof. intros []. split; [done..|]. by subst. Qed.

Lemma holds_head w pt t : holds w pt t -> exists tr, trees w !! pt = Some tr /\ pHead tr = root t.
Proof. intros [Hh _ _]. destruct (trees w !! pt) as [tr|]; [|done]. injection Hh as Hh. eauto. Qed.

Lemma holds_size w pt t : holds w pt t -> (length (elems t) <= size (nodes w))%nat.
Proof.
  intros [_ Ht Hn]. rewrite <- (length_fmap e_addr). apply addrs_size; [done|].
  intros x Hx. by eapply tree_at_lookup.
Qed.

Lemma place_size w pt b l e r fs : holds w pt (plug (N b l e r) fs) ->
  (length fs <= size (nodes w))%nat /\ (length (elems l) + length (elems r) <= size (nodes w))%nat.
Proof.
  intros H%holds_size. pose proof (length_frames fs (N b l e r)) as Hlf.
  cbn [elems] in Hlf. rewrite length_app in Hlf. cbn [length] in Hlf. lia.
Qed.

(** A cursor after a move, and what the move reports. *)
Definition goto (p : option addr) (c : RbtCursor) : RbtCursor :=
  mkCursor (pTree c) (iTree c) p SKIP_NONE (wrFlag c).
Definition miss (p : option addr) : Z := match p with Some _ => 0 | None => 1 end.

Lemma wp_moved pCur w c (Q : Z -> Rbtree -> Prop) C :
  cursors w !! pCur = Some c -> Q (miss (pNode c)) (put pCur (goto (pNode c) c) w) ->
  wp (moved pCur) Q C w.
Proof. intros Hc HQ. unfold moved. steps. eapply wp_put; [done|]. steps. done. Qed.

Lemma wp_moved_put pCur w c p (Q : Z -> Rbtree -> Prop) C :
  Q (miss p) (put pCur (goto p c) w) -> wp (moved pCur) Q C (put pCur (set_pNode p c) w).
Proof. intros HQ. eapply wp_moved; [apply put_lookup|]. by rewrite put_put. Qed.

Section Functions.
Context (pCur : addr) (w : Rbtree) (c : RbtCursor) (t : T).
Context (Hc : cursors w !! pCur = Some c) (Ht : holds w (pTree c) t).

Lemma wp_first (Q : Z -> Rbtree -> Prop) C : (t = E -> pNode c = None) ->
  Q (miss (head_addr (elems t))) (put pCur (goto (head_addr (elems t)) c) w) ->
  wp (memRbtreeFirst pCur) Q C w.
Proof.
  intros Hnone HQ. destruct (holds_head _ _ _ Ht) as (tr & Htr & Hh). pose proof (holds_size _ _ _ Ht).
  unfold memRbtreeFirst. steps. rewrite Hh. destruct t as [|b l e r]; cbn [root elems] in *.
  - steps. eapply wp_moved; [done|]. rewrite Hnone by done. done.
  - steps. eapply wp_put; [done|]. eapply wp_down_left; [apply Ht|apply put_lookup|done|..].
    { rewrite length_app in *. cbn [length] in *. cbn. lia. }
    rewrite put_put. apply (wp_moved_put _ _ (set_pNode _ c)). 
    replace (head_addr (elems l ++ [e])) with (head_addr (elems l ++ e :: elems r)) by by destruct (elems l).
    done.
Qed.

Lemma wp_last (Q : Z -> Rbtree -> Prop) C : (t = E -> pNode c = None) ->
  Q (miss (last_addr (elems t))) (put pCur (goto (last_addr (elems t)) c) w) ->
  wp (memRbtreeLast pCur) Q C w.
Proof.
  intros Hnone HQ. destruct (holds_head _ _ _ Ht) as (tr & Htr & Hh). pose proof (holds_size _ _ _ Ht).
  unfold memRbtreeLast. steps. rewrite Hh. destruct t as [|b l e r]; cbn [root elems] in *.
  - steps. eapply wp_moved; [done|]. rewrite Hnone by done. done.
  - steps. eapply wp_put; [done|]. eapply wp_down_right; [apply Ht|apply put_lookup|done|..].
    { rewrite length_app in *. cbn [length] in *. cbn. lia. }
    rewrite put_put. apply (wp_moved_put _ _ (set_pNode _ c)).
    unfold last_addr in *. by rewrite last_app_cons in HQ.
Qed.

Lemma wp_next A e B (Q : Z -> Rbtree -> Prop) C :
  elems t = A ++ e :: B -> pNode c = Some (e_addr e) -> eSkip c <> SKIP_NEXT ->
  Q (miss (head_addr B)) (put pCur (goto (head_addr B) c) w) -> wp (memRbtreeNext pCur) Q C w.
Proof.
  intros He Hn Hs HQ. destruct (find_place _ _ _ _ He) as (b & l & r & fs & -> & -> & ->).
  destruct (place_size _ _ _ _ _ _ _ Ht) as [Hfs Hlr].
  destruct Ht as [_ Hat Hnd]. pose proof Hat as Hat'. apply tree_at_plug in Hat' as [Hp Hw].
  unfold memRbtreeNext. steps. rewrite Hn, (proj2 (Z.eqb_neq _ _) Hs). cbn [negb].
  cbn [tree_at] in Hp. destruct Hp as (Hx & _ & Hr). steps. rewrite elems_plug in Hnd.
  destruct r as [|rb rl re rr]; cbn [root].
  - steps. eapply wp_put; [done|].
    eapply (wp_climb_right pCur fs _ _ _ (N b l e E)); [exact Hw|exact Hnd|done|apply put_lookup|done|..].
    { done. }
    rewrite put_put. by apply (wp_moved_put _ _ (set_pNode _ c)).
  - steps. eapply wp_put; [done|]. eapply wp_down_left; [exact Hr|apply put_lookup|done|..].
    { cbn [elems] in Hlr. rewrite length_app in Hlr. cbn [length] in Hlr. lia. }
    rewrite put_put. apply (wp_moved_put _ _ (set_pNode _ c)).
    replace (head_addr (elems rl ++ [re])) with (head_addr (elems (N rb rl re rr) ++ rights fs)); [done|].
    cbn [elems]. by destruct (elems rl).
Qed.

Lemma wp_previous A e B (Q : Z -> Rbtree -> Prop) C :
  elems t = A ++ e :: B -> pNode c = Some (e_addr e) -> eSkip c <> SKIP_PREV ->
  Q (miss (last_addr A)) (put pCur (goto (last_addr A) c) w) -> wp (memRbtreePrevious pCur) Q C w.
Proof.
  intros He Hn Hs HQ. destruct (find_place _ _ _ _ He) as (b & l & r & fs & -> & -> & ->).
  destruct (place_size _ _ _ _ _ _ _ Ht) as [Hfs Hlr].
  destruct Ht as [_ Hat Hnd]. pose proof Hat as Hat'. apply tree_at_plug in Hat' as [Hp Hw].
  unfold memRbtreePrevious. steps. rewrite Hn, (proj2 (Z.eqb_neq _ _) Hs). cbn [negb].
  cbn [tree_at] in Hp. destruct Hp as (Hx & Hl & _). steps. rewrite elems_plug in Hnd.
  destruct l as [|lb ll le lr]; cbn [root].
  - steps. eapply wp_put; [done|].
    eapply (wp_climb_left pCur fs _ _ _ (N b E e r)); [exact Hw|exact Hnd|done|apply put_lookup|done|..].
    { done. }
    rewrite put_put. apply (wp_moved_put _ _ (set_pNode _ c)). cbn [elems] in HQ. by rewrite app_nil_r in HQ.
  - steps. eapply wp_put; [done|]. eapply wp_down_right; [exact Hl|apply put_lookup|done|..].
    { cbn [elems] in Hlr. rewrite length_app in Hlr. cbn [length] in Hlr. lia. }
    rewrite put_put. apply (wp_moved_put _ _ (set_pNode _ c)).
    replace (last_addr (le :: elems lr)) with (last_addr (lefts fs ++ elems (N lb ll le lr))); [done|].
    unfold last_addr. cbn [elems]. by rewrite (assoc_L (++)), last_app_cons.
Qed.

(** A move that does not move. *)
Lemma wp_next_stay (Q : Z -> Rbtree -> Prop) C : pNode c = None \/ eSkip c = SKIP_NEXT ->
  Q (miss (pNode c)) (put pCur (goto (pNode c) c) w) -> wp (memRbtreeNext pCur) Q C w.
Proof.
  intros Hs HQ. unfold memRbtreeNext. steps. destruct (pNode c) eqn:En; [|steps; eapply wp_moved; [done|by rewrite En]].
  destruct Hs as [ | -> ]; [done|]. cbn. steps. eapply wp_moved; [done|by rewrite En].
Qed.

Lemma wp_previous_stay (Q : Z -> Rbtree -> Prop) C : pNode c = None \/ eSkip c = SKIP_PREV ->
  Q (miss (pNode c)) (put pCur (goto (pNode c) c) w) -> wp (memRbtreePrevious pCur) Q C w.
Proof.
  intros Hs HQ. unfold memRbtreePrevious. steps. destruct (pNode c) eqn:En; [|steps; eapply wp_moved; [done|by rewrite En]].
  destruct Hs as [ | -> ]; [done|]. cbn. steps. eapply wp_moved; [done|by rewrite En].
Qed.
End Functions.
