(* ===== verification/RbTable.v ===== *)
(** Searching a tree, linking a new node into it, and taking a node out of it. *)
From S2P Require Import Prelude OsFile Util Hash Rbtree RbShape RbRotate RbInsert RbDelete RbOrder RbCursor.
From Stdlib Require Import Sorting.Sorted.

(** * Searching *)

(** What [memRbtreeMoveto] reports when its search ends below [fs]. *)
Definition dir (fs : list frame) : Z := match fs with FL _ _ _ :: _ => 1 | _ => -1 end.

(** The key [k] belongs at this place. *)
Definition between (k : list Z) (fs : list frame) : Prop :=
  (forall x, x ∈ keys (lefts fs) -> klt x k) /\ (forall x, x ∈ keys (rights fs) -> klt k x).

Lemma dir_nonzero fs : (dir fs =? 0) = false.
Proof. by destruct fs as [|[] fs]. Qed.

Section Search.
Context (pCur : addr) (k : list Z).

Lemma wp_moveto_loop t : forall fuel fs w c (Q : Z * option addr -> Rbtree -> Prop) C,
  tree_at (nodes w) (top fs) t -> ordered (elems (plug t fs)) -> between k fs ->
  cursors w !! pCur = Some c -> pNode c = root t -> (depth t <= fuel)%nat ->
  (forall b l e r fs', plug t fs = plug (N b l e r) fs' -> e_key e = k ->
     Q (0, Some (e_addr e)) (put pCur (set_pNode (Some (e_addr e)) c) w)) ->
  (forall fs', plug t fs = plug E fs' -> between k fs' ->
     Q (dir fs', top fs') (put pCur (set_pNode None c) w)) ->
  wp (moveto_loop fuel pCur k (dir fs) (top fs)) Q C w.
Proof.
  induction t as [|b l IHl e r IHr]; intros fuel fs w c Q C Ht Ho Hb Hc Hn Hf HQ1 HQ2.
  - destruct fuel; cbn [moveto_loop]; steps; rewrite Hn; steps; cbn [root] in *;
    (replace w with (put pCur (set_pNode None c) w) by (rewrite put_same; [done|by destruct c; cbn in *; subst]));
    by apply HQ2.
  - cbn [depth] in Hf. destruct fuel as [|fuel]; [lia|]. cbn [moveto_loop].
    cbn [tree_at] in Ht. destruct Ht as (Hx & Hl & Hr). steps. rewrite Hn, dir_nonzero. steps.
    assert (Hord := Ho). rewrite elems_plug in Hord. cbn [elems] in Hord.
    apply ordered_app in Hord as (_ & Hord & Ho1). rewrite <- (assoc_L (++)) in Hord.
    apply ordered_app in Hord as (_ & Hord & Ho2). cbn [app] in Hord. apply ordered_cons in Hord as [_ Ho3].
    destruct Hb as [Hb1 Hb2].
    destruct (key_compare_cases (e_key e) k) as [[-> Hlt]|[[-> Heq]|[-> Hlt]]]; cbn; steps.
    + eapply wp_put; [done|].
      eapply (IHr fuel (FR b l e :: fs)); [exact Hr|exact Ho| |apply put_lookup|done|lia|..].
      * split; [|exact Hb2]. cbn [lefts]. intros x. rewrite !keys_app, !elem_of_app.
        intros [Hin|[Hin|Hin]]; [by apply Hb1| |by apply list_elem_of_singleton in Hin as ->].
        etrans; [|exact Hlt]. apply Ho2; [done|]. by left.
      * intros. rewrite put_put. by eapply HQ1.
      * intros. rewrite put_put. by eapply HQ2.
    + pose proof (HQ1 b l e r fs eq_refl Heq) as HQ.
      rewrite put_same in HQ by (by destruct c; cbn in *; subst).
      destruct fuel; cbn [moveto_loop]; steps; rewrite Hn; cbn; steps; done.
    + eapply wp_put; [done|].
      eapply (IHl fuel (FL b e r :: fs)); [exact Hl|exact Ho| |apply put_lookup|done|lia|..].
      * split; [exact Hb1|]. cbn [rights]. intros x. change (e :: elems r ++ rights fs) with ([e] ++ elems r ++ rights fs).
        rewrite !keys_app, !elem_of_app.
        intros [Hin|[Hin|Hin]]; [by apply list_elem_of_singleton in Hin as ->| |by apply Hb2].
        etrans; [exact Hlt|]. apply Ho3. rewrite keys_app, elem_of_app. by left.
      * intros. rewrite put_put. by eapply HQ1.
      * intros. rewrite put_put. by eapply HQ2.
Qed.

Lemma wp_moveto w c t (Q : Z -> Rbtree -> Prop) C :
  cursors w !! pCur = Some c -> holds w (pTree c) t -> ordered (elems t) ->
  (forall b l e r fs, t = plug (N b l e r) fs -> e_key e = k ->
     Q 0 (put pCur (goto (Some (e_addr e)) c) w)) ->
  (forall fs, t = plug E fs -> between k fs -> Q (dir fs) (put pCur (goto (top fs) c) w)) ->
  wp (memRbtreeMoveto pCur k) Q C w.
Proof.
  intros Hc Ht Ho HQ1 HQ2. destruct (holds_head _ _ _ Ht) as (tr & Htr & Hh).
  unfold memRbtreeMoveto. steps. eapply wp_put; [done|]. steps.
  eapply (wp_moveto_loop t _ []); [apply Ht|done| |apply put_lookup|done|..].
  { split; by intros x ?%elem_of_nil. }
  { pose proof (holds_size _ _ _ Ht). pose proof (depth_length t). lia. }
  - intros b l e r fs E Hk. rewrite put_put. steps. cbn [mwhen]. 
    rewrite bool_decide_eq_false_2 by done. cbn [mwhen]. steps. eapply wp_put; [apply put_lookup|]. steps.
    rewrite put_put. eapply (HQ1 b l e r fs); [exact E|exact Hk].
  - intros fs E Hb. rewrite put_put. steps. rewrite bool_decide_eq_true_2 by done. cbn [mwhen].
    eapply wp_put; [apply put_lookup|]. steps. eapply wp_put; [apply put_lookup|]. steps.
    rewrite !put_put. by apply HQ2.
Qed.
End Search.

(** * Changing what is at a place *)

(** The trees once the place [fs] of [pt] is linked to [p]. *)
Definition relinked (w : Rbtree) (pt : addr) (p : option addr) (fs : list frame) : gmap addr BtRbTree :=
  match fs with [] => alter (set_pHead p) pt (trees w) | _ => trees w end.

(** The store [h] has the tree [t'] in the place of [t]. *)
Lemma now_intro w pt t t' fs h es :
  holds w pt (plug t fs) -> elems (plug t' fs) = es -> NoDup (addrs es) ->
  tree_at h (top fs) t' -> way_at h (root t') fs -> dom h = dom (nodes w) ->
  (forall x, x ∉ addrs es -> h !! x = nodes w !! x) ->
  now w pt es (set_nodes h (set_trees (relinked w pt (root t') fs) w)) (plug t' fs).
Proof.
  intros Hh He Hn Ht Hw Hd Hx. destruct (holds_head _ _ _ Hh) as (tr & Htr & Hr).
  split; cbn [nodes trees set_nodes set_trees]; try done.
  - destruct fs as [|f fs]; cbn [relinked plug].
    + by rewrite lookup_alter_eq, Htr.
    + rewrite Htr. cbn. rewrite Hr. f_equal. apply root_plug_indep.
  - apply tree_at_plug. done.
  - intros q Hq. destruct fs; cbn [relinked]; [|done]. by rewrite lookup_alter_ne by congruence.
  - destruct fs; cbn [relinked]; [|done]. by rewrite lookup_alter_eq, Htr.
Qed.

Lemma alter_insert_eq `{Countable K} {A} (f : A -> A) (m : gmap K A) a x : m !! a = Some x -> alter f a m = <[a := f x]> m.
Proof.
  intros Hx. apply map_eq. intros b. destruct (decide (b = a)) as [->|Hne].
  - by rewrite lookup_alter_eq, Hx, lookup_insert_eq.
  - by rewrite lookup_alter_ne, lookup_insert_ne by congruence.
Qed.

Lemma wp_link_new w pt a k d fs (Q : unit -> Rbtree -> Prop) C :
  holds w pt (plug E fs) -> nodes w !! a = Some (mkNode k d false None None None 0) ->
  a ∉ addrs (lefts fs ++ rights fs) ->
  (forall w', now w pt (lefts fs ++ mkEntry a k d 0 :: rights fs) w' (plug (N false E (mkEntry a k d 0) E) fs) ->
     Q tt w') ->
  wp (link_new pt (top fs) (dir fs) a) Q C w.
Proof.
  intros Hh Ha Hna HQ. set (e := mkEntry a k d 0) in *. destruct (holds_head _ _ _ Hh) as (tr & Htr & Hr).
  pose proof Hh as [_ Hat Hnd]. apply tree_at_plug in Hat as [_ Hw]. rewrite elems_plug in Hnd. cbn [elems app root] in Hnd, Hw.
  assert (Hes : elems (plug (N false E e E) fs) = lefts fs ++ e :: rights fs) by (by rewrite elems_plug).
  assert (Hnd' : NoDup (addrs (lefts fs ++ e :: rights fs))).
  { eapply NoDup_Permutation_proper; [unfold addrs; rewrite <- Permutation_middle; reflexivity|].
    cbn. constructor; [exact Hna|exact Hnd]. }
  assert (Hintro : forall h, tree_at h (top fs) (N false E e E) -> way_at h (Some a) fs -> dom h = dom (nodes w) ->
    (forall x, x ∉ addrs (lefts fs ++ e :: rights fs) -> h !! x = nodes w !! x) ->
    Q tt (set_nodes h (set_trees (relinked w pt (Some a) fs) w))).
  { intros h H1 H2 H3 H4. apply HQ. eapply (now_intro _ _ E (N false E e E)); eauto. }
  clear HQ. destruct fs as [|f fs]; cbn [link_new top].
  { eapply wp_upd_tree; [done|]. specialize (Hintro (nodes w)). cbn [relinked] in Hintro.
    rewrite (alter_insert_eq _ _ _ _ Htr) in Hintro. apply Hintro; try done. }
  assert (Hfa : e_addr (frame_entry f) <> a).
  { intros <-. apply Hna. destruct f; mem. }
  assert (Hgo : forall n, nodes w !! e_addr (frame_entry f) = Some n ->
    Q tt (set_nodes (<[e_addr (frame_entry f) := set_hole f (Some a) n]>
                      (<[a := set_pParent (Some (e_addr (frame_entry f))) (mkNode k d false None None None 0)]> (nodes w))) w)).
  { intros n Hn. apply (Hintro (<[e_addr (frame_entry f) := set_hole f (Some a) n]> (<[a := _]> (nodes w)))).
    - cbn [tree_at e_addr e]. by rewrite lookup_insert_ne, lookup_insert_eq by done.
    - eapply way_at_refill; [exact Hw|exact Hnd|..].
      + intros x Hx Hxf. rewrite !lookup_insert_ne; [done|congruence..]. 
      + intros n' Hn'. rewrite lookup_insert_eq. congruence.
    - rewrite !dom_insert_same; [done|eauto|]. rewrite lookup_insert_ne by congruence. eauto.
    - intros x Hx. rewrite !lookup_insert_ne; [done|intros <-; apply Hx|intros <-; apply Hx].
      + cbn. unfold addrs. rewrite fmap_app. cbn. set_solver.
      + destruct f; mem. }
  destruct f as [b fe s|b s fe]; cbn [way_at frame_entry dir] in *; destruct Hw as (He & _ & _); steps; cbn.
  - steps. repeat (apply wp_assert; [done|]; steps). eapply wp_upd_node; [done|]. steps.
    eapply wp_upd_node; [cbn; by rewrite lookup_insert_ne|]. by apply Hgo.
  - steps. repeat (apply wp_assert; [done|]; steps). eapply wp_upd_node; [done|]. steps.
    eapply wp_upd_node; [cbn; by rewrite lookup_insert_ne|]. by apply Hgo.
Qed.

(** The link from above, in [splice_out]. *)
Lemma wp_splice_link w pt z p fs tr (Q : unit -> Rbtree -> Prop) C :
  way_at (nodes w) (Some z) fs -> NoDup (addrs (lefts fs ++ rights fs)) ->
  z ∉ addrs (lefts fs ++ rights fs) -> trees w !! pt = Some tr ->
  (forall h, way_at h p fs -> dom h = dom (nodes w) ->
     (forall x, x ∉ addrs (lefts fs ++ rights fs) -> h !! x = nodes w !! x) ->
     Q tt (set_nodes h (set_trees (relinked w pt p fs) w))) ->
  wp (match top fs with
      | Some pP =>
          n ← node pP;
          assert (bool_decide (pLeft n = Some z) || bool_decide (pRight n = Some z));;
          if bool_decide (pLeft n = Some z) then upd_node pP (set_pLeft p) else upd_node pP (set_pRight p)
      | None => upd_tree pt (set_pHead p)
      end) Q C w.
Proof.
  intros Hw Hnd Hz Htr HQ. destruct fs as [|f fs]; cbn [top].
  { eapply wp_upd_tree; [done|]. specialize (HQ (nodes w)). cbn [relinked] in HQ.
    rewrite (alter_insert_eq _ _ _ _ Htr) in HQ. by apply HQ. }
  assert (exists n, nodes w !! e_addr (frame_entry f) = Some n) as [n Hn] by (destruct f; destruct Hw; eauto).
  assert (Hgo : Q tt (set_nodes (<[e_addr (frame_entry f) := set_hole f p n]> (nodes w)) w)).
  { apply (HQ (<[e_addr (frame_entry f) := set_hole f p n]> (nodes w))).
    - eapply way_at_refill; [exact Hw|exact Hnd|..].
      + intros x _ Hx. by rewrite lookup_insert_ne.
      + intros n' Hn'. rewrite lookup_insert_eq. congruence.
    - rewrite dom_insert_same by eauto. done.
    - intros x Hx. apply lookup_insert_ne. intros <-. apply Hx. destruct f; mem. }
  steps. destruct f as [b fe s|b s fe]; cbn [way_at frame_entry set_hole] in *; destruct Hw as (He & _);
    rewrite Hn in He; injection He as ->; cbn [pLeft pRight] in *.
  - rewrite bool_decide_eq_true_2 by done. apply wp_assert; [done|]. by eapply wp_upd_node.
  - rewrite (bool_decide_eq_true_2 (Some z = Some z)), orb_true_r by done. apply wp_assert; [done|].
    rewrite bool_decide_eq_false_2; [by eapply wp_upd_node|].
    destruct s as [|sb sl se sr]; [done|]. intros [= <-]. apply Hz. mem.
Qed.

(** The only child of a node with at most one. *)
Definition only_child (l r : T) : T := match l with E => r | _ => l end.

Lemma wp_splice_out w pt b l e r fs (Q : option addr -> Rbtree -> Prop) C :
  holds w pt (plug (N b l e r) fs) -> l = E \/ r = E ->
  (forall w', now w pt (lefts fs ++ elems (only_child l r) ++ rights fs) w' (plug (only_child l r) fs) ->
     nodes w' !! e_addr e = Some (to_node b (top fs) l e r) -> Q (root (only_child l r)) w') ->
  wp (splice_out pt (e_addr e)) Q C w.
Proof.
  intros Hh Hlr HQ. destruct (holds_head _ _ _ Hh) as (tr & Htr & Hr). pose proof Hh as [_ Hat Hnd].
  apply tree_at_plug in Hat as [(He & Hl & Hrt) Hw]. rewrite elems_plug in Hnd.
  assert (Hel : elems (N b l e r) = [e] ++ elems (only_child l r) \/ elems (N b l e r) = elems (only_child l r) ++ [e]).
  { destruct Hlr as [-> | ->]; [by left|]. destruct l; [by left|by right]. }
  assert (Hne : NoDup (addrs (lefts fs ++ elems (only_child l r) ++ rights fs)) /\
    e_addr e ∉ addrs (lefts fs ++ elems (only_child l r) ++ rights fs)).
  { enough (H : NoDup (addrs (e :: lefts fs ++ elems (only_child l r) ++ rights fs))).
    { cbn in H. by apply NoDup_cons in H as [? ?]. }
    eapply NoDup_Permutation_proper; [|exact Hnd]. unfold addrs. apply fmap_Permutation.
    destruct Hel as [-> | ->]; rewrite Permutation_middle; [done|].
    f_equiv. rewrite <- (assoc_L (++)). cbn. apply Permutation_middle. }
  destruct Hne as [Hnd' Hne]. pose proof (nodup_place _ _ _ Hnd') as (Hnc & Hnf & Hap).
  assert (Hef : e_addr e ∉ addrs (lefts fs ++ rights fs)) by mem.
  assert (Hec : e_addr e ∉ addrs (elems (only_child l r))) by mem.
  unfold splice_out. steps.
  assert (Hch : match root l with Some l0 => Some l0 | None => root r end = root (only_child l r)) by by destruct l.
  apply wp_assert; [destruct Hlr as [-> | ->]; cbn; by rewrite ?orb_true_r|]. rewrite Hch. steps.
  eapply wp_splice_link; [exact Hw|exact Hnf|exact Hef|exact Htr|]. intros h Hwh Hdom Hh'. steps.
  assert (Hc : tree_at h (Some (e_addr e)) (only_child l r)).
  { eapply tree_at_ext; [|intros x Hx; apply Hh', Hap, Hx]. by destruct l. }
  eapply wp_adopt; [exact Hc|exact Hnc|]. intros h2 Hc2 Hdom2 Hh2. steps. apply HQ.
  - eapply (now_intro w pt (N b l e r) (only_child l r) fs h2); [exact Hh|by rewrite elems_plug|exact Hnd'|exact Hc2|..].
    + eapply way_at_ext; [exact Hwh|]. intros x Hx. apply Hh2. intros Hxc. by apply (Hap x).
    + by rewrite Hdom2.
    + intros x Hx. cbn in Hh2. rewrite Hh2, Hh' by mem. done.
  - cbn in *. rewrite Hh2, Hh' by done. done.
Qed.
