(* ===== verification/RbUpdate.v ===== *)
(** [memRbtreeInsert] and [memRbtreeDelete] on the tree a cursor points into. *)
From S2P Require Import Prelude Util Hash OsFile Rbtree RbShape RbRotate RbInsert RbDelete RbOrder RbCursor RbTable.
From Stdlib Require Import Sorting.Sorted.

(** * Allocation and the log *)

(** No allocation is set to fail. *)
Definition no_fail (w : Rbtree) : Prop := mallocs (tblHash w) = [] /\ malloc_failed w = false.

Lemma wp_sqliteMalloc w (Q : bool -> Rbtree -> Prop) C : no_fail w -> Q true w -> wp sqliteMalloc Q C w.
Proof.
  intros [Hm Hf] HQ. unfold wp, sqliteMalloc, htab, malloc_ok. rewrite Hm. cbn. rewrite Hm, Hf. cbn.
  destruct w; cbn in *. by subst.
Qed.

Lemma wp_sqliteMallocRaw n w (Q : unit -> Rbtree -> Prop) C : no_fail w -> Q tt w -> wp (sqliteMallocRaw n) Q C w.
Proof. intros [Hm _] HQ. unfold wp, sqliteMallocRaw. by rewrite Hm. Qed.

(** What logging an operation does in the state [st]. *)
Definition logged (op : BtRollbackOp) (w : Rbtree) : Rbtree :=
  if eTransState w =? TRANS_INTRANSACTION then set_logs (op :: pTransRollback w) (pCheckRollback w) w
  else if eTransState w =? TRANS_INCHECKPOINT then set_logs (pTransRollback w) (op :: pCheckRollback w) w
  else w.

(** The states between [memRbtreeBeginTrans] and the end of the transaction. *)
Definition in_trans (st : Z) : Prop :=
  st = TRANS_INTRANSACTION \/ st = TRANS_INCHECKPOINT \/ st = TRANS_ROLLBACK.

Lemma wp_log op w (Q : unit -> Rbtree -> Prop) C :
  in_trans (eTransState w) -> eTransState w <> TRANS_ROLLBACK -> Q tt (logged op w) ->
  wp (btreeLogRollbackOp op) Q C w.
Proof.
  intros [E|[E|E]] Hn HQ; [..|done]; unfold logged in HQ; rewrite E in HQ; cbn in HQ;
    unfold wp, btreeLogRollbackOp, rget, mbind, M_bind; rewrite E; exact HQ.
Qed.

(** Logging unless a rollback is going on: the end of [memRbtreeInsert] and of others. *)
Lemma logged_rollback op w : eTransState w = TRANS_ROLLBACK -> logged op w = w.
Proof. intros E. unfold logged. by rewrite E. Qed.

Lemma trans_state_cases w : in_trans (eTransState w) ->
  (eTransState w =? TRANS_NONE) = false /\
  (((eTransState w =? TRANS_ROLLBACK) = true /\ eTransState w = TRANS_ROLLBACK) \/
   ((eTransState w =? TRANS_ROLLBACK) = false /\ eTransState w <> TRANS_ROLLBACK)).
Proof. intros [-> | [-> | ->]]; (split; [done|]); [right|right|left]; done. Qed.

Lemma logged_nodes op w : nodes (logged op w) = nodes w.
Proof. unfold logged. by repeat case_match. Qed.
Lemma logged_trees op w : trees (logged op w) = trees w.
Proof. unfold logged. by repeat case_match. Qed.
Lemma logged_cursors op w : cursors (logged op w) = cursors w.
Proof. unfold logged. by repeat case_match. Qed.

(** * One tree changes *)

(** The parts of a database that records do not touch. *)
Record same_base (w w' : Rbtree) : Prop := {
  sb_hash : tblHash w' = tblHash w;
  sb_failed : malloc_failed w' = malloc_failed w;
  sb_next : next_idx w' = next_idx w;
  sb_meta : aMetaData w' = aMetaData w;
  sb_trans : eTransState w' = eTransState w
}.

(** From [w] to [w'] the tree [pt] changes from [t] to [t']. *)
Record changed (w w' : Rbtree) (pt : addr) (t t' : T) : Prop := {
  ch_base : same_base w w';
  ch_holds : holds w' pt t';
  ch_valid : valid t';
  ch_out : forall x, x ∉ addrs (elems t) -> x ∉ addrs (elems t') -> nodes w' !! x = nodes w !! x;
  ch_gone : forall x, x ∈ addrs (elems t) -> x ∉ addrs (elems t') -> nodes w' !! x = None;
  ch_new : forall x, x ∈ addrs (elems t') -> x ∈ addrs (elems t) \/ nodes w !! x = None;
  ch_trees : forall q, q <> pt -> trees w' !! q = trees w !! q;
  ch_cursors : pCursors <$> trees w' !! pt = pCursors <$> trees w !! pt
}.

Lemma rest_state w w' : rest w' = rest w -> w' = set_nodes (nodes w') (set_trees (trees w') w).
Proof. destruct w, w'. unfold rest, set_nodes, set_trees. cbn. by intros [= -> -> -> -> -> -> -> ->]. Qed.

(** A tree that nothing has happened to yet. *)
Lemma now_start w pt t : holds w pt t -> now w pt (elems t) w t.
Proof. intros []. by split. Qed.

(** The other parts of the state do not matter for a tree. *)
Lemma holds_ext w w' pt t : nodes w' = nodes w -> trees w' = trees w -> holds w pt t -> holds w' pt t.
Proof. intros En Et []. split; by rewrite ?En, ?Et. Qed.

Lemma tree_at_entry h t : forall p e, tree_at h p t -> e ∈ elems t ->
  exists n, h !! e_addr e = Some n /\ pKey n = e_key e /\ pData n = e_data e.
Proof.
  induction t as [|b l IHl e' r IHr]; intros p e; cbn [tree_at elems]; [by intros _ ?%elem_of_nil|].
  intros (Hn & Hl & Hr) Hin. apply elem_of_app in Hin as [Hin|Hin]; [eauto|].
  apply elem_of_cons in Hin as [-> | Hin]; eauto.
Qed.

(** The two logs. *)
Definition log_of (w : Rbtree) : list BtRollbackOp * list BtRollbackOp := (pTransRollback w, pCheckRollback w).

Lemma log_of_same w w' : rest w' = rest w -> log_of w' = log_of w.
Proof. intros E%rest_state. by rewrite E. Qed.

Lemma logged_log_of op w w' : log_of w' = log_of w -> eTransState w' = eTransState w ->
  log_of (logged op w') = log_of (logged op w).
Proof.
  unfold log_of, logged. intros [= Et Ec] ->. repeat case_match; cbn; by rewrite ?Et, ?Ec.
Qed.

Lemma base_logged op w : same_base w (logged op w).
Proof. unfold logged. repeat case_match; by split. Qed.

Lemma base_rest w w' : rest w' = rest w -> same_base w w'.
Proof. intros E%rest_state. rewrite E. by split. Qed.

Lemma base_trans w1 w2 w3 : same_base w1 w2 -> same_base w2 w3 -> same_base w1 w3.
Proof. intros [] []. split; congruence. Qed.

Lemma no_fail_base w w' : same_base w w' -> no_fail w -> no_fail w'.
Proof. intros [Eh Ef _ _ _] [Hm Hf]. split; by rewrite ?Eh, ?Ef. Qed.

(** The step from a tree in its first state to one that was rearranged, with the log. *)
Lemma changed_now w w0 w1 pt t t' op :
  now w0 pt (elems t') w1 t' -> valid t' -> same_base w w0 -> 
  (forall x, x ∉ addrs (elems t) -> x ∉ addrs (elems t') -> nodes w0 !! x = nodes w !! x) ->
  (forall x, x ∈ addrs (elems t) -> x ∈ addrs (elems t')) ->
  (forall x, x ∈ addrs (elems t') -> x ∈ addrs (elems t) \/ nodes w !! x = None) ->
  (forall q, q <> pt -> trees w0 !! q = trees w !! q) ->
  pCursors <$> trees w0 !! pt = pCursors <$> trees w !! pt ->
  changed w (logged op w1) pt t t'.
Proof.
  intros H Hv Hb Ho Hsub Hnew Ht Hc. split; rewrite ?logged_nodes, ?logged_trees; try done.
  - eapply base_trans; [exact Hb|]. eapply base_trans; [|apply base_logged].
    apply base_rest. by eapply n_rest.
  - eapply holds_ext; [apply logged_nodes|apply logged_trees|]. by eapply now_holds.
  - intros x H1 H2. rewrite (n_nodes _ _ _ _ _ H) by done. by apply Ho.
  - intros x H1 H2. by destruct H2; apply Hsub.
  - intros q Hq. rewrite (n_trees _ _ _ _ _ H) by done. by apply Ht.
  - by rewrite (n_cursors _ _ _ _ _ H).
Qed.

Lemma wp_insert_new_node pCur w c fs k d (Q : Z -> Rbtree -> Prop) C :
  cursors w !! pCur = Some c -> no_fail w -> in_trans (eTransState w) ->
  holds w (pTree c) (plug E fs) -> valid (plug E fs) -> pNode c = top fs ->
  (forall w' t' a h, changed w w' (pTree c) (plug E fs) t' ->
     elems t' = lefts fs ++ mkEntry a k d h :: rights fs ->
     cursors w' = <[pCur := set_pNode (Some a) c]> (cursors w) ->
     log_of w' = log_of (logged (mkOp ROLLBACK_DELETE (iTree c) k []) w) -> Q SQLITE_OK w') ->
  wp (insert_new_node pCur (dir fs) k d) Q C w.
Proof.
  intros Hc Hnf Htr Hh Hv Hp HQ. unfold insert_new_node. steps. apply wp_sqliteMalloc; [done|]. cbn [negb]. steps.
  set (a := fresh (dom (nodes w))).
  assert (Ha : nodes w !! a = None) by (apply not_elem_of_dom, is_fresh).
  unfold new_node at 1, wp at 1. fold a. steps. apply wp_sqliteMallocRaw; [by destruct Hnf|]. steps.
  cbn [malloc_failed set_nodes]. rewrite (proj2 Hnf). steps. eapply wp_upd_node; [apply lookup_insert_eq|]. steps. rewrite insert_insert_eq.
  set (w2 := set_nodes _ _).
  assert (Hnin : a ∉ addrs (lefts fs ++ rights fs)).
  { intros Hin. destruct Hh as [_ Hat _]. destruct (tree_at_lookup (nodes w) None (plug E fs) a) as [n Hn];
      [done|by rewrite elems_plug|congruence]. }
  assert (Hh2 : holds w2 (pTree c) (plug E fs)).
  { destruct Hh as [H1 H2 H3]. split; [done| |done]. eapply tree_at_ext; [exact H2|].
    intros x Hx. cbn. rewrite lookup_insert_ne; [done|]. intros <-. rewrite elems_plug in Hx. done. }
  rewrite Hp. eapply wp_link_new; [exact Hh2|apply lookup_insert_eq|done|]. intros w3 H3. steps.
  pose proof (n_rest _ _ _ _ _ H3) as R3. pose proof (rest_state _ _ R3) as E3.
  assert (C3 : cursors w3 = cursors w) by (by rewrite E3).
  eapply wp_put; [by rewrite C3|]. set (w4 := put _ _ _). steps.
  pose proof (n_elems _ _ _ _ _ H3) as Ee. set (e := mkEntry a k d 0) in *.
  assert (H4 : now w4 (pTree c) (lefts fs ++ e :: rights fs) w4 (plug (N false E e E) fs)).
  { rewrite <- Ee at 1. apply now_start. eapply holds_ext; [..|by eapply now_holds]; done. }
  destruct (valid_plug fs E Hv) as (n & Hn & Hw & _). cbn in Hn. subst n.
  change a with (e_addr e). eapply wp_do_insert_balancing; [exact H4|cbn; auto|exact Hw|].
  intros w5 t5 H5 Hv5. pose proof (n_elems _ _ _ _ _ H5) as Ee5.
  pose proof (n_rest _ _ _ _ _ H5) as R5. pose proof (rest_state _ _ R5) as E5.
  assert (B4 : same_base w w4) by (unfold w4; rewrite E3; by split).
  assert (B5 : same_base w w5) by (eapply base_trans; [exact B4|by apply base_rest]).
  assert (C5 : cursors w5 = <[pCur := set_pNode (Some a) c]> (cursors w)) by (rewrite E5; unfold w4; cbn; by rewrite C3).
  assert (L5 : log_of w5 = log_of w) by (rewrite E5; unfold w4; rewrite E3; done).
  set (op := mkOp ROLLBACK_DELETE (iTree c) k []).
  assert (Hfin : Q SQLITE_OK (logged op w5)).
  { eapply (HQ _ t5 a 0); [|exact Ee5|by rewrite logged_cursors|by apply logged_log_of; [|apply (sb_trans _ _ B5)]].
    eapply (changed_now _ w4); try done.
    - by rewrite Ee5.
    - intros x Hx1 Hx2. rewrite Ee5 in Hx2. unfold w4. cbn. rewrite (n_nodes _ _ _ _ _ H3) by done. cbn.
      rewrite lookup_insert_ne; [done|]. intros <-. apply Hx2. rewrite addrs_app, addrs_cons. set_solver.
    - rewrite elems_plug, Ee5. intros x Hx. cbn [elems app] in Hx. mem.
    - rewrite elems_plug, Ee5. intros x Hx. cbn [elems app]. destruct (decide (x = a)) as [->|Hne]; [by right|].
      left. cbn in *. mem.
    - intros q Hq. unfold w4. cbn. by rewrite (n_trees _ _ _ _ _ H3).
    - unfold w4. cbn. by rewrite (n_cursors _ _ _ _ _ H3). }
  steps. rewrite (sb_trans _ _ B5). destruct (trans_state_cases w Htr) as [_ [[-> Er]|[-> Er]]]; cbn [negb].
  - steps. rewrite logged_rollback in Hfin; [done|]. by rewrite (sb_trans _ _ B5).
  - steps. apply wp_sqliteMalloc; [by eapply no_fail_base|]. steps. cbn [negb]. steps.
    destruct (tree_at_entry (nodes w5) t5 None e) as (nd & Hnd & Hk & _); [apply (n_tree _ _ _ _ _ H5)|rewrite Ee5; set_solver|].
    steps. rewrite Hk. apply wp_sqliteMallocRaw; [by eapply no_fail_base|]. steps.
    rewrite (proj2 (no_fail_base _ _ B5 Hnf)). steps.
    apply wp_log; [by rewrite (sb_trans _ _ B5)..|]. steps. done.
Qed.

(** * Replacing a record *)

(** The entry [e] with another record. *)
Definition with_record (k d : list Z) (e : entry) : entry := mkEntry (e_addr e) k d (e_height e).

Lemma valid_record b l e e' r fs : valid (plug (N b l e r) fs) -> valid (plug (N b l e' r) fs).
Proof. intros H. destruct (valid_plug fs _ H) as (n & Hn & Hw & Hc). by eapply rb_plug. Qed.

Lemma addrs_record b l e r fs k d :
  addrs (elems (plug (N b l (with_record k d e) r) fs)) = addrs (elems (plug (N b l e r) fs)).
Proof. rewrite !elems_plug. cbn [elems]. unfold addrs. by rewrite !fmap_app. Qed.

Lemma holds_record w pt b l e r fs k d : holds w pt (plug (N b l e r) fs) ->
  nodes w !! e_addr e = Some (to_node b (top fs) l e r) /\
  holds (set_nodes (<[e_addr e := set_record k d (to_node b (top fs) l e r)]> (nodes w)) w) pt
    (plug (N b l (with_record k d e) r) fs).
Proof.
  intros [Hh Hat Hnd]. pose proof Hat as Hat'. apply tree_at_plug in Hat as [(Hx & Hl & Hr) Hw]. split; [done|].
  rewrite elems_plug in Hnd. pose proof (nodup_place _ _ _ Hnd) as (Hn1 & Hn2 & Hap).
  assert (Hne : e_addr e ∉ addrs (lefts fs ++ rights fs)) by (apply Hap; mem).
  split; cbn [trees set_nodes nodes].
  - rewrite Hh. f_equal. destruct fs; [done|]. apply root_plug_indep.
  - apply tree_at_plug. cbn [tree_at root with_record e_addr]. rewrite lookup_insert_eq. split; [split; [done|split]|].
    + eapply tree_at_ext; [exact Hl|]. intros x Hx'. apply lookup_insert_ne. intros <-. clear - Hn1 Hx'. apart.
    + eapply tree_at_ext; [exact Hr|]. intros x Hx'. apply lookup_insert_ne. intros <-. clear - Hn1 Hx'. apart.
    + eapply way_at_ext; [exact Hw|]. intros x Hx'. apply lookup_insert_ne. by intros <-.
  - rewrite addrs_record, elems_plug. done.
Qed.

(** Writing a record changes one tree. *)
Lemma changed_record w w1 pt b l e r fs k d :
  holds w pt (plug (N b l e r) fs) -> valid (plug (N b l e r) fs) ->
  same_base w w1 -> nodes w1 = nodes w -> trees w1 = trees w ->
  changed w (set_nodes (<[e_addr e := set_record k d (to_node b (top fs) l e r)]> (nodes w1)) w1) pt
    (plug (N b l e r) fs) (plug (N b l (with_record k d e) r) fs).
Proof.
  intros Hh Hv Hb En Et. destruct (holds_record w pt b l e r fs k d Hh) as [Hn Hh'].
  split; cbn [nodes trees set_nodes]; rewrite ?En, ?Et, ?addrs_record; try done.
  - eapply base_trans; [exact Hb|]. by split.
  - eapply holds_ext; [..|exact Hh']; cbn; by rewrite ?En, ?Et.
  - by eapply valid_record.
  - intros x Hx _. apply lookup_insert_ne. intros <-. apply Hx. rewrite elems_plug. mem.
  - intros x Hx. by left.
Qed.

Lemma wp_replace_data pCur w c b l e r fs d (Q : Z -> Rbtree -> Prop) C :
  cursors w !! pCur = Some c -> no_fail w -> in_trans (eTransState w) ->
  holds w (pTree c) (plug (N b l e r) fs) -> valid (plug (N b l e r) fs) -> pNode c = Some (e_addr e) ->
  (forall w', changed w w' (pTree c) (plug (N b l e r) fs) (plug (N b l (with_record (e_key e) d e) r) fs) ->
     cursors w' = cursors w ->
     log_of w' = log_of (logged (mkOp ROLLBACK_INSERT (iTree c) (e_key e) (e_data e)) w) -> Q SQLITE_OK w') ->
  wp (replace_data pCur d) Q C w.
Proof.
  intros Hc Hnf Htr Hh Hv Hp HQ. destruct (holds_record w _ _ _ _ _ _ (e_key e) d Hh) as [Hn _].
  unfold replace_data. steps. rewrite Hp. steps.
  set (op := mkOp ROLLBACK_INSERT (iTree c) (e_key e) (e_data e)) in *.
  assert (Hfin : wp (upd_node (e_addr e) (fun n => set_record (pKey n) d n);; mret SQLITE_OK) Q C (logged op w)).
  { steps. eapply wp_upd_node; [rewrite logged_nodes; exact Hn|]. steps. apply HQ.
    - apply changed_record; [done..|apply base_logged|apply logged_nodes|apply logged_trees].
    - cbn. apply logged_cursors.
    - done. }
  destruct (trans_state_cases w Htr) as [_ [[-> Er]|[-> Er]]]; cbn [negb].
  - steps. rewrite logged_rollback in Hfin by done. exact Hfin.
  - steps. apply wp_sqliteMalloc; [done|]. cbn [negb]. steps. apply wp_sqliteMallocRaw; [done|]. steps.
    rewrite (proj2 Hnf). steps. apply wp_log; [done..|]. steps. exact Hfin.
Qed.

(** * Removing a node *)

Lemma wp_remove_node w pt b l e r fs (Q : unit -> Rbtree -> Prop) C :
  holds w pt (plug (N b l e r) fs) -> valid (plug (N b l e r) fs) -> l = E \/ r = E ->
  (forall w' t', changed w w' pt (plug (N b l e r) fs) t' ->
     elems t' = lefts fs ++ elems l ++ elems r ++ rights fs ->
     cursors w' = cursors w -> log_of w' = log_of w -> Q tt w') ->
  wp (remove_node pt (e_addr e)) Q C w.
Proof.
  intros Hh Hv Hlr HQ. unfold remove_node. steps.
  assert (Eoc : elems (only_child l r) = elems l ++ elems r).
  { destruct Hlr as [-> | ->]; [done|]. cbn [elems]. rewrite app_nil_r. by destruct l. }
  set (es := lefts fs ++ elems l ++ elems r ++ rights fs) in *.
  assert (Ees : lefts fs ++ elems (only_child l r) ++ rights fs = es).
  { unfold es. by rewrite Eoc, <- (assoc_L (++)). }
  assert (Hne : e_addr e ∉ addrs es /\ forall x, x ∈ addrs (elems (plug (N b l e r) fs)) <-> x = e_addr e \/ x ∈ addrs es).
  { destruct Hh as [_ _ Hnd]. rewrite elems_plug in *. cbn [elems] in *. unfold es. split; [|intros x; mem].
    assert (Hnd' : NoDup (addrs (e :: lefts fs ++ elems l ++ elems r ++ rights fs))).
    { eapply NoDup_Permutation_proper; [|exact Hnd]. unfold addrs. apply fmap_Permutation.
      rewrite Permutation_middle. f_equiv. rewrite <- (assoc_L (++)). cbn. apply Permutation_middle. }
    cbn in Hnd'. by apply NoDup_cons in Hnd' as [? _]. }
  destruct Hne as [Hne Hin].
  assert (Hfin : forall w1 t1, now w pt es w1 t1 -> valid t1 -> nodes w1 !! e_addr e <> None ->
    wp (free_node (e_addr e)) Q C w1).
  { intros w1 t1 H1 Hv1 Hx. destruct (nodes w1 !! e_addr e) as [n|] eqn:En; [|done].
    pose proof (n_elems _ _ _ _ _ H1) as E1. unfold free_node. steps.
    pose proof (n_rest _ _ _ _ _ H1) as R1. pose proof (rest_state _ _ R1) as S1.
    apply (HQ _ t1); [|done|by rewrite S1|by rewrite S1].
    split; cbn [nodes trees set_nodes]; try done.
    - eapply base_trans; [by apply base_rest|]. by split.
    - destruct (now_holds _ _ _ _ _ H1) as [Ha Hb Hd]. split; [done| |done].
      eapply tree_at_ext; [exact Hb|]. intros x Hx'. apply lookup_delete_ne. intros <-. by rewrite E1 in Hx'.
    - intros x Hx1 Hx2. rewrite E1 in Hx2. rewrite lookup_delete_ne; [by apply (n_nodes _ _ _ _ _ H1)|].
      intros <-. apply Hx1, Hin. by left.
    - intros x Hx1%Hin Hx2. rewrite E1 in Hx2. destruct Hx1 as [->|]; [apply lookup_delete_eq|done].
    - intros x Hx1. rewrite E1 in Hx1. left. apply Hin. by right.
    - apply (n_trees _ _ _ _ _ H1).
    - apply (n_cursors _ _ _ _ _ H1). }
  destruct (valid_plug fs _ Hv) as (n & Hn & Hw & Hc).
  eapply wp_splice_out; [exact Hh|done|]. rewrite Ees. intros w1 H1 En. steps.
  destruct b; cbn [mwhen].
  - destruct n as [|n]; [done|]. destruct Hn as [Hl Hr].
    eapply (wp_do_delete_balancing w pt es w1 (only_child l r) fs n); [exact H1| |exact Hw|].
    { destruct Hlr as [-> | ->]; [done|]. by destruct l. }
    intros w2 t2 H2 Hv2. steps. eapply Hfin; [exact H2|exact Hv2|].
    rewrite (n_nodes _ _ _ _ _ H2), <- (n_nodes _ _ _ _ _ H1), En by done. done.
  - destruct Hn as (Bl & Br & Hl & Hr). steps. eapply Hfin; [exact H1| |by rewrite En].
    eapply (rb_plug fs n); [|exact Hw|left].
    + destruct Hlr as [-> | ->]; [done|]. by destruct l.
    + destruct Hlr as [-> | ->]; [done|]. by destruct l.
Qed.

(** [memRbtreeDelete] on the tree the cursor points into: where the cursor goes, and which
    node is taken out. *)

Lemma leftmost t : t <> E -> exists b s r gs, t = plug (N b E s r) gs /\ lefts gs = [].
Proof.
  induction t as [|b l IH e r _]; [done|]. intros _. destruct l as [|lb ll le lr].
  - by exists b, e, r, [].
  - destruct IH as (b' & s & r' & gs & E1 & E2); [done|].
    exists b', s, r', (gs ++ [FL b e r]). rewrite plug_app, lefts_app, E2, <- E1. done.
Qed.

Lemma changed_trans w1 w2 w3 pt t1 t2 t3 :
  changed w1 w2 pt t1 t2 -> addrs (elems t2) = addrs (elems t1) -> changed w2 w3 pt t2 t3 ->
  changed w1 w3 pt t1 t3.
Proof.
  intros [Hb1 _ _ Ho1 _ _ Ht1 Hc1] Ea [Hb2 Hh2 Hv2 Ho2 Hg2 Hn2 Ht2 Hc2]. split; try done.
  - by eapply base_trans.
  - intros x H1 H3. rewrite Ho2, Ho1; rewrite ?Ea; done.
  - intros x H1 H3. apply Hg2; by rewrite ?Ea.
  - intros x H3. destruct (decide (x ∈ addrs (elems t1))) as [|Hx]; [by left|]. right.
    destruct (Hn2 x H3) as [Hi|Hi]; [by rewrite Ea in Hi|]. rewrite Ho1 in Hi; rewrite ?Ea; done.
  - intros q Hq. by rewrite Ht2, Ht1.
  - by rewrite Hc2.
Qed.

(** Moving a cursor changes no tree. *)
Lemma changed_put w w' pt t t' a c : changed w w' pt t t' -> changed w (put a c w') pt t t'.
Proof. intros [[] [] ? ? ? ? ? ?]. split; try done; by split. Qed.

Lemma changed_from_put w w' pt t t' a c : changed (put a c w) w' pt t t' -> changed w w' pt t t'.
Proof. intros [[] [] ? ? ? ? ? ?]. split; try done; by split. Qed.

Lemma holds_put w pt t a c : holds w pt t -> holds (put a c w) pt t.
Proof. by apply holds_ext. Qed.

Section Delete.
Context (pCur : addr) (w : Rbtree) (c : RbtCursor).
Context (b : bool) (l : T) (e : entry) (r : T) (fs : list frame).
Notation t := (plug (N b l e r) fs).
Context (Hc : cursors w !! pCur = Some c) (Hp : pNode c = Some (e_addr e)).
Context (Hh : holds w (pTree c) t) (Hv : valid t).
Notation A := (lefts fs ++ elems l).
Notation B := (elems r ++ rights fs).

(** Where the cursor is, and how it will move, when the record of [e] is gone. *)
Definition moved_off (es' : list entry) (p : option addr) (sk : Z) : Prop :=
  match B with
  | s :: _ => sk = SKIP_NEXT /\ exists x, x ∈ es' /\ p = Some (e_addr x) /\ e_key x = e_key s
  | [] => sk = SKIP_PREV /\ p = last_addr A
  end.

(** The entries without the record of [e]. *)
Definition removed (es' : list entry) : Prop :=
  es' = A ++ B \/ exists s B', B = s :: B' /\ es' = A ++ with_record (e_key s) (e_data s) e :: B'.

Lemma elems_here : elems t = A ++ e :: B.
Proof. rewrite elems_plug. cbn [elems]. flatten. done. Qed.

Definition after_delete (Q : Z -> Rbtree -> Prop) : Prop := forall w' t' p sk,
  changed w w' (pTree c) t t' -> removed (elems t') -> moved_off (elems t') p sk ->
  cursors w' = <[pCur := mkCursor (pTree c) (iTree c) p sk (wrFlag c)]> (cursors w) ->
  log_of w' = log_of w -> Q SQLITE_OK w'.

Lemma wp_delete_inner (Q : Z -> Rbtree -> Prop) C : l <> E -> r <> E -> after_delete Q ->
  wp (pZ ← vacate pCur (e_addr e) (to_node b (top fs) l e r); remove_node (pTree c) pZ;; mret SQLITE_OK) Q C w.
Proof.
  intros Hl Hr HQ. destruct (leftmost r Hr) as (sb & s & sr & gs & Er & Egs).
  assert (EB : B = s :: elems sr ++ rights gs ++ rights fs).
  { rewrite Er, elems_plug, Egs. cbn. by rewrite <- (assoc_L (++)). }
  assert (exists al, root l = Some al) as [al Eal] by (destruct l; [done|by eexists]).
  assert (exists ar, root r = Some ar) as [ar Ear] by (destruct r; [done|by eexists]).
  unfold vacate. cbn [to_node pLeft pRight]. rewrite Eal, Ear. steps. eapply wp_put; [done|]. steps.
  eapply (wp_next pCur _ _ t); [apply put_lookup|by apply holds_put|exact elems_here|exact Hp|done|].
  rewrite EB. cbn [head_addr head fmap option_fmap option_map miss]. steps. apply wp_assert; [done|]. steps.
  rewrite put_put. cbn [goto pNode set_eSkip]. steps.
  destruct (tree_at_entry (nodes w) t None s) as (n & Hn & Hnk & Hnd).
  { apply Hh. } { rewrite elems_here, EB. set_solver. }
  steps. rewrite Hnk, Hnd.
  destruct (holds_record w _ _ _ _ _ _ (e_key s) (e_data s) Hh) as [He Hh1].
  eapply wp_upd_node; [exact He|]. steps. eapply wp_put; [apply put_lookup|]. steps.
  eapply wp_put; [apply put_lookup|]. steps.
  set (e' := with_record (e_key s) (e_data s) e) in *. set (w3 := put _ _ _).
  assert (E1 : plug (N b l e' r) fs = plug (N sb E s sr) (gs ++ FR b l e' :: fs)) by (by rewrite plug_app, Er).
  assert (C1 : changed w w3 (pTree c) t (plug (N b l e' r) fs)).
  { unfold w3. do 2 apply changed_put. eapply (changed_record w (put _ _ w)); [exact Hh|exact Hv|by split|done..]. }
  eapply (wp_remove_node w3 (pTree c) sb E s sr (gs ++ FR b l e' :: fs)).
  { rewrite <- E1. apply (ch_holds _ _ _ _ _ C1). }
  { rewrite <- E1. apply (ch_valid _ _ _ _ _ C1). }
  { by left. }
  rewrite <- E1. intros w' t' C2 Et' Cc Cl. steps.
  assert (Et : elems t' = A ++ e' :: elems sr ++ rights gs ++ rights fs).
  { rewrite Et', lefts_app, rights_app, Egs, app_nil_r. cbn [lefts rights elems]. flatten. done. }
  eapply (HQ w' t').
  - eapply changed_trans; [exact C1| |exact C2]. apply addrs_record.
  - right. rewrite Et. eauto.
  - unfold moved_off. rewrite EB. split; [reflexivity|]. exists e'. rewrite Et. split; [set_solver|]. by split; [reflexivity|].
  - rewrite Cc. unfold w3. cbn. by rewrite !insert_insert_eq.
  - by rewrite Cl.
Qed.

Lemma wp_delete_outer (Q : Z -> Rbtree -> Prop) C : l = E \/ r = E -> after_delete Q ->
  wp (pZ ← vacate pCur (e_addr e) (to_node b (top fs) l e r); remove_node (pTree c) pZ;; mret SQLITE_OK) Q C w.
Proof.
  intros Hlr HQ.
  assert (Hrem : forall p sk, moved_off (A ++ B) p sk -> forall w1,
    w1 = put pCur (mkCursor (pTree c) (iTree c) p sk (wrFlag c)) w ->
    wp (remove_node (pTree c) (e_addr e)) (fun _ => Q SQLITE_OK) C w1).
  { intros p sk Hm w1 ->. eapply (wp_remove_node _ (pTree c) b l e r fs); [by apply holds_put|exact Hv|exact Hlr|].
    intros w' t' C2 Et' Cc Cl. assert (Et : elems t' = A ++ B) by (rewrite Et'; by flatten).
    eapply (HQ w' t'); [by eapply changed_from_put|by left|by rewrite Et|exact Cc|done]. }
  assert (Hvac : forall Q' : addr -> Rbtree -> Prop,
    (forall p sk, moved_off (A ++ B) p sk -> Q' (e_addr e) (put pCur (mkCursor (pTree c) (iTree c) p sk (wrFlag c)) w)) ->
    wp (upd_cursor pCur (set_eSkip SKIP_NONE);;
        res ← memRbtreeNext pCur;
        upd_cursor pCur (set_eSkip SKIP_NEXT);;
        mwhen (negb (res =? 0))
          (_ ← memRbtreeLast pCur;
           _ ← memRbtreePrevious pCur;
           upd_cursor pCur (set_eSkip SKIP_PREV));;
        mret (e_addr e)) Q' C w).
  { intros Q' HQ'. steps. eapply wp_put; [done|]. steps.
    eapply (wp_next pCur _ _ t); [apply put_lookup|by apply holds_put|exact elems_here|exact Hp|done|].
    rewrite put_put. steps. eapply wp_put; [apply put_lookup|]. rewrite put_put. steps.
    unfold moved_off in HQ'. destruct B as [|s B'] eqn:EB; cbn [head_addr head fmap option_fmap option_map miss]; cbn [mwhen negb Z.eqb].
    - steps. eapply (wp_last pCur _ _ t); [apply put_lookup|by apply holds_put| |].
      { intros Et. pose proof elems_here as He. rewrite Et in He. by destruct A. }
      rewrite put_put. assert (Ela : last_addr (elems t) = Some (e_addr e)).
      { rewrite elems_here, EB. unfold last_addr. by rewrite last_snoc. }
      rewrite Ela. steps.
      eapply (wp_previous pCur _ _ t); [apply put_lookup|by apply holds_put|exact elems_here|done|done|].
      rewrite put_put. steps. eapply wp_put; [apply put_lookup|]. rewrite put_put. steps. by apply HQ'.
    - steps. eapply HQ'. split; [done|]. exists s. split; [set_solver|done]. }
  steps. unfold vacate. cbn [to_node pLeft pRight].
  destruct Hlr as [-> | ->]; [|destruct l]; cbn [root];
    eapply Hvac; intros p sk Hm; steps; (eapply wp_mono; [eapply Hrem; [exact Hm|done]| |done]); intros; by steps.
Qed.
End Delete.
