(* ===== verification/RbSpec.v ===== *)
(** What the tables in memory promise: tables as finite maps, cursors at keys, and
    transactions that a rollback undoes. *)
From S2P Require Import Prelude Util Hash OsFile Rbtree RbShape RbOrder.
From Stdlib Require Import Sorting.Sorted.

(** * State *)

Abbreviation table := (gmap (list Z) (list Z)).

(** A cursor: its table, the key it is at, what the next step does, and whether it may
    write. *)
Record Cur := mkCur { c_tab : Z; c_pos : option (list Z); c_skip : Z; c_wr : bool }.

(** [d_saved] is what a rollback of the transaction brings back, [d_ck] what a rollback
    of the checkpoint does; the cursor opened last comes first. *)
Record Db := mkDb {
  d_tabs : gmap Z table; d_curs : list (addr * Cur); d_trans : Z;
  d_saved : gmap Z table; d_ck : gmap Z table; d_next : Z; d_meta : list Z
}.

Definition with_tabs (ts : gmap Z table) (d : Db) : Db :=
  mkDb ts (d_curs d) (d_trans d) (d_saved d) (d_ck d) (d_next d) (d_meta d).
Definition with_curs (l : list (addr * Cur)) (d : Db) : Db :=
  mkDb (d_tabs d) l (d_trans d) (d_saved d) (d_ck d) (d_next d) (d_meta d).
Definition with_trans (st : Z) (saved ck : gmap Z table) (d : Db) : Db :=
  mkDb (d_tabs d) (d_curs d) st saved ck (d_next d) (d_meta d).

(** * Keys in order *)

(** The least and the greatest of a list of keys. *)
Fixpoint least (ks : list (list Z)) : option (list Z) :=
  match ks with
  | [] => None
  | k :: ks' => match least ks' with Some k' => Some (if decide (klt k k') then k else k') | None => Some k end
  end.
Fixpoint greatest (ks : list (list Z)) : option (list Z) :=
  match ks with
  | [] => None
  | k :: ks' => match greatest ks' with Some k' => Some (if decide (klt k' k) then k else k') | None => Some k end
  end.

Definition keys_of (m : table) : list (list Z) := (map_to_list m).*1.
Definition first_key (m : table) : option (list Z) := least (keys_of m).
Definition last_key (m : table) : option (list Z) := greatest (keys_of m).
Definition next_key (m : table) (k : list Z) : option (list Z) := least (filter (klt k) (keys_of m)).
Definition prev_key (m : table) (k : list Z) : option (list Z) := greatest (filter (fun x => klt x k) (keys_of m)).

(** * Cursors *)

Fixpoint cur_at (p : addr) (l : list (addr * Cur)) : option Cur :=
  match l with
  | [] => None
  | (q, cu) :: l' => if decide (q = p) then Some cu else cur_at p l'
  end.

Definition set_cur (p : addr) (cu : Cur) (l : list (addr * Cur)) : list (addr * Cur) :=
  (fun x => if decide (x.1 = p) then (p, cu) else x) <$> l.

Definition close_cur (p : addr) (l : list (addr * Cur)) : list (addr * Cur) :=
  filter (fun x => x.1 <> p) l.

(** The cursors of table [n]. *)
Definition curs_of (n : Z) (l : list (addr * Cur)) : list (addr * Cur) := filter (fun x => c_tab x.2 = n) l.

(** Before table [n] changes through the cursor [self], the other cursors of the table
    lose their place, up to the first that must not write; whether there is one. *)
Fixpoint lock_table (self : addr) (n : Z) (l : list (addr * Cur)) : bool * list (addr * Cur) :=
  match l with
  | [] => (false, [])
  | (p, cu) :: l' =>
      if decide (c_tab cu = n /\ p <> self) then
        if c_wr cu then
          let '(b, l'') := lock_table self n l' in (b, (p, mkCur (c_tab cu) None (c_skip cu) true) :: l'')
        else (true, (p, cu) :: l')
      else let '(b, l'') := lock_table self n l' in (b, (p, cu) :: l'')
  end.

(** * Operations *)

Inductive rb_op :=
| RBegin | RCommit | RRollback | RBeginCkpt | RCommitCkpt | RRollbackCkpt
| RCreate | RDrop (n : Z) | RClear (n : Z)
| ROpen (n : Z) (wr : bool) | RClose (p : addr)
| RMoveto (p : addr) (k : list Z) | RInsert (p : addr) (k v : list Z) | RDelete (p : addr)
| RFirst (p : addr) | RLast (p : addr) | RNext (p : addr) | RPrev (p : addr)
| RKeySize (p : addr) | RDataSize (p : addr)
| RKey (p : addr) (offset amt : Z) | RData (p : addr) (offset amt : Z)
| RCompare (p : addr) (k : list Z) (nIgnore : Z)
| RGetMeta | RSetMeta (m : list Z).

(** A new place of the cursor [p], and whether there is none. *)
Definition miss_key (k : option (list Z)) : Z := match k with Some _ => 0 | None => 1 end.
Definition move_cur (p : addr) (f : Cur -> table -> option (list Z)) (d : Db) : list Z * Db :=
  match cur_at p (d_curs d) with
  | None => ([], d)
  | Some cu =>
      let k := f cu (default ∅ (d_tabs d !! c_tab cu)) in
      ([miss_key k], with_curs (set_cur p (mkCur (c_tab cu) k SKIP_NONE (c_wr cu)) (d_curs d)) d)
  end.

Definition next_place (cu : Cur) (m : table) : option (list Z) :=
  match c_pos cu with
  | Some k => if c_skip cu =? SKIP_NEXT then Some k else next_key m k
  | None => None
  end.
Definition prev_place (cu : Cur) (m : table) : option (list Z) :=
  match c_pos cu with
  | Some k => if c_skip cu =? SKIP_PREV then Some k else prev_key m k
  | None => None
  end.

(** The record the cursor is at. *)
Definition record_at (p : addr) (d : Db) : option (list Z * list Z) :=
  cu ← cur_at p (d_curs d);
  k ← c_pos cu;
  m ← d_tabs d !! c_tab cu;
  v ← m !! k;
  Some (k, v).

(** [amt] bytes from [offset] on, or those there are. *)
Definition part (z : list Z) (offset amt : Z) : list Z :=
  let amt := if amt + offset <=? Z.of_nat (length z) then amt else Z.of_nat (length z) - offset in
  amt :: take (Z.to_nat amt) (drop (Z.to_nat offset) z).

Definition insert_spec (p : addr) (k v : list Z) (d : Db) : list Z * Db :=
  match cur_at p (d_curs d) with
  | None => ([], d)
  | Some cu =>
      let '(locked, l) := lock_table p (c_tab cu) (d_curs d) in
      if locked : bool then ([SQLITE_LOCKED], with_curs l d)
      else ([SQLITE_OK], with_tabs (alter (<[k := v]>) (c_tab cu) (d_tabs d))
             (with_curs (set_cur p (mkCur (c_tab cu) (Some k) SKIP_NONE (c_wr cu)) l) d))
  end.

(** The cursor goes to the next key, or to the one before when there is none. *)
Definition delete_spec (p : addr) (d : Db) : list Z * Db :=
  match cur_at p (d_curs d) with
  | None => ([], d)
  | Some cu =>
      let '(locked, l) := lock_table p (c_tab cu) (d_curs d) in
      if locked : bool then ([SQLITE_LOCKED], with_curs l d)
      else match c_pos cu with
      | None => ([SQLITE_OK], with_curs l d)
      | Some k =>
          let m := default ∅ (d_tabs d !! c_tab cu) in
          let cu' := match next_key m k with
            | Some k' => mkCur (c_tab cu) (Some k') SKIP_NEXT (c_wr cu)
            | None => mkCur (c_tab cu) (prev_key m k) SKIP_PREV (c_wr cu)
            end in
          ([SQLITE_OK], with_tabs (alter (delete k) (c_tab cu) (d_tabs d)) (with_curs (set_cur p cu' l) d))
      end
  end.

(** The search for a key the table lacks ends at one of its neighbours. *)
Definition moveto_spec (p : addr) (k : list Z) (d : Db) (r : list Z) (d' : Db) : Prop :=
  exists cu m, cur_at p (d_curs d) = Some cu /\ d_tabs d !! c_tab cu = Some m /\
  exists res pos, r = [res] /\
    d' = with_curs (set_cur p (mkCur (c_tab cu) pos SKIP_NONE (c_wr cu)) (d_curs d)) d /\
    match m !! k with
    | Some _ => res = 0 /\ pos = Some k
    | None => (res = -1 /\ pos = prev_key m k) \/ (res = 1 /\ pos = next_key m k /\ pos <> None)
    end.

(** The operations but for [RMoveto]: their results and the state they leave. *)
Definition spec_fun (d : Db) (o : rb_op) : list Z * Db :=
  match o with
  | RBegin =>
      if negb (d_trans d =? TRANS_NONE) then ([SQLITE_ERROR], d)
      else ([SQLITE_OK], with_trans TRANS_INTRANSACTION (d_tabs d) (d_ck d) d)
  | RCommit => ([SQLITE_OK], with_trans TRANS_NONE (d_saved d) (d_ck d) d)
  | RRollback =>
      ([SQLITE_OK], with_trans TRANS_NONE (d_saved d) (d_ck d)
        (if d_trans d =? TRANS_NONE then d else with_tabs (d_saved d) d))
  | RBeginCkpt =>
      if negb (d_trans d =? TRANS_INTRANSACTION) then ([SQLITE_ERROR], d)
      else ([SQLITE_OK], with_trans TRANS_INCHECKPOINT (d_saved d) (d_tabs d) d)
  | RCommitCkpt =>
      ([SQLITE_OK], if d_trans d =? TRANS_INCHECKPOINT
                    then with_trans TRANS_INTRANSACTION (d_saved d) (d_ck d) d else d)
  | RRollbackCkpt =>
      ([SQLITE_OK], if d_trans d =? TRANS_INCHECKPOINT
                    then with_trans TRANS_INTRANSACTION (d_saved d) (d_ck d) (with_tabs (d_ck d) d) else d)
  | RCreate =>
      ([SQLITE_OK; d_next d],
       mkDb (<[d_next d := ∅]> (d_tabs d)) (d_curs d) (d_trans d) (d_saved d) (d_ck d) (d_next d + 1) (d_meta d))
  | RDrop n => ([SQLITE_OK], with_tabs (delete n (d_tabs d)) d)
  | RClear n => ([SQLITE_OK], with_tabs (<[n := ∅]> (d_tabs d)) d)
  | ROpen n wr =>
      let p := fresh (list_to_set (d_curs d).*1 : gset addr) in
      ([SQLITE_OK; Zpos p], with_curs ((p, mkCur n None SKIP_NONE wr) :: d_curs d) d)
  | RClose p => ([SQLITE_OK], with_curs (close_cur p (d_curs d)) d)
  | RMoveto p k => ([], d)
  | RInsert p k v => insert_spec p k v d
  | RDelete p => delete_spec p d
  | RFirst p => move_cur p (fun _ m => first_key m) d
  | RLast p => move_cur p (fun _ m => last_key m) d
  | RNext p => move_cur p next_place d
  | RPrev p => move_cur p prev_place d
  | RKeySize p => ([default 0 ((fun x => Z.of_nat (length x.1)) <$> record_at p d)], d)
  | RDataSize p => ([default 0 ((fun x => Z.of_nat (length x.2)) <$> record_at p d)], d)
  | RKey p offset amt => (default [0] ((fun x => part x.1 offset amt) <$> record_at p d), d)
  | RData p offset amt => (default [0] ((fun x => part x.2 offset amt) <$> record_at p d), d)
  | RCompare p k nIgnore =>
      ([match record_at p d with
        | Some (x, _) => if Z.of_nat (length x) <? nIgnore then -1
                         else key_compare (take (length x - Z.to_nat nIgnore) x) k
        | None => -1
        end], d)
  | RGetMeta => (d_meta d, d)
  | RSetMeta m => ([SQLITE_OK], mkDb (d_tabs d) (d_curs d) (d_trans d) (d_saved d) (d_ck d) (d_next d) m)
  end.

Definition spec_step (d : Db) (o : rb_op) (r : list Z) (d' : Db) : Prop :=
  match o with
  | RMoveto p k => moveto_spec p k d r d'
  | _ => spec_fun d o = (r, d')
  end.

(** * What the client must see to *)

(** No cursor is open when something is rolled back; a table has no cursors when it is
    dropped, and no cursor is at a record of it when it is cleared; changes happen in a
    transaction and through cursors that may write.  Lengths are [int]s, also the sum
    of an offset and an amount; nothing is asked of a key without bytes. *)
Definition INT_MAX : Z := 2147483647.

Definition allowed (d : Db) (o : rb_op) : Prop :=
  match o with
  | RBegin | RCommit | RBeginCkpt | RCommitCkpt | RGetMeta => True
  | RRollback | RRollbackCkpt => d_curs d = []
  | RCreate => d_trans d <> TRANS_NONE /\ d_next d < 2147483647
  | RDrop n => d_trans d <> TRANS_NONE /\ is_Some (d_tabs d !! n) /\ curs_of n (d_curs d) = []
  | RClear n => d_trans d <> TRANS_NONE /\ is_Some (d_tabs d !! n) /\
      forall p cu, (p, cu) ∈ curs_of n (d_curs d) -> c_pos cu = None
  | ROpen n _ => is_Some (d_tabs d !! n)
  | RInsert p k v =>
      (d_trans d <> TRANS_NONE /\ exists cu, cur_at p (d_curs d) = Some cu /\ c_wr cu = true) /\
      Z.of_nat (length k) <= INT_MAX /\ Z.of_nat (length v) <= INT_MAX
  | RDelete p =>
      d_trans d <> TRANS_NONE /\ exists cu, cur_at p (d_curs d) = Some cu /\ c_wr cu = true
  | RClose p | RMoveto p _ | RFirst p | RLast p | RNext p | RPrev p | RKeySize p | RDataSize p =>
      is_Some (cur_at p (d_curs d))
  | RKey p offset amt =>
      is_Some (cur_at p (d_curs d)) /\ 0 <= offset /\ 0 <= amt /\ amt + offset <= INT_MAX /\
      forall x, record_at p d = Some x -> offset <= Z.of_nat (length x.1) /\ (x.1 = [] -> amt = 0)
  | RData p offset amt =>
      is_Some (cur_at p (d_curs d)) /\ 0 <= offset /\ 0 <= amt /\ amt + offset <= INT_MAX /\
      forall x, record_at p d = Some x -> offset <= Z.of_nat (length x.2)
  | RCompare p _ nIgnore => is_Some (cur_at p (d_curs d)) /\ 0 <= nIgnore
  | RSetMeta m => Z.of_nat (length m) = SQLITE_N_BTREE_META
  end.

(** * The code *)

Definition run_rb_op (o : rb_op) : M Rbtree (list Z) :=
  match o with
  | RBegin => r ← memRbtreeBeginTrans; mret [r]
  | RCommit => r ← memRbtreeCommit; mret [r]
  | RRollback => r ← memRbtreeRollback; mret [r]
  | RBeginCkpt => r ← memRbtreeBeginCkpt; mret [r]
  | RCommitCkpt => r ← memRbtreeCommitCkpt; mret [r]
  | RRollbackCkpt => r ← memRbtreeRollbackCkpt; mret [r]
  | RCreate => '(rc, n) ← memRbtreeCreateTable; mret [rc; n]
  | RDrop n => r ← memRbtreeDropTable n; mret [r]
  | RClear n => r ← memRbtreeClearTable n; mret [r]
  | ROpen n wr => '(rc, p) ← memRbtreeCursor n wr; mret (rc :: match p with Some p => [Zpos p] | None => [] end)
  | RClose p => r ← memRbtreeCloseCursor p; mret [r]
  | RMoveto p k => r ← memRbtreeMoveto p k; mret [r]
  | RInsert p k v => r ← memRbtreeInsert p k v; mret [r]
  | RDelete p => r ← memRbtreeDelete p; mret [r]
  | RFirst p => r ← memRbtreeFirst p; mret [r]
  | RLast p => r ← memRbtreeLast p; mret [r]
  | RNext p => r ← memRbtreeNext p; mret [r]
  | RPrev p => r ← memRbtreePrevious p; mret [r]
  | RKeySize p => r ← memRbtreeKeySize p; mret [r]
  | RDataSize p => r ← memRbtreeDataSize p; mret [r]
  | RKey p offset amt => '(n, z) ← memRbtreeKey p offset amt; mret (n :: z)
  | RData p offset amt => '(n, z) ← memRbtreeData p offset amt; mret (n :: z)
  | RCompare p k nIgnore => r ← memRbtreeKeyCompare p k nIgnore; mret [r]
  | RGetMeta => memRbtreeGetMeta
  | RSetMeta m => r ← memRbtreeUpdateMeta m; mret [r]
  end.

(** A client decides on its next call from the results so far. *)
Fixpoint run_client (n : nat) (client : list (list Z) -> rb_op) (rs : list (list Z)) : M Rbtree (list (list Z)) :=
  match n with
  | O => mret rs
  | S n' => r ← run_rb_op (client rs); run_client n' client (rs ++ [r])
  end.

(** The states a client and the specification can get to from [d]. *)
Inductive reaches (client : list (list Z) -> rb_op) (d : Db) : list (list Z) -> Db -> Prop :=
| reach_start : reaches client d [] d
| reach_step rs r d1 d2 : reaches client d rs d1 -> spec_step d1 (client rs) r d2 ->
    reaches client d (rs ++ [r]) d2.

Definition well_behaved (client : list (list Z) -> rb_op) (d : Db) : Prop :=
  forall rs d', reaches client d rs d' -> allowed d' (client rs).

(** Every record of a table is one that was inserted. *)
Definition small (m : table) : Prop :=
  forall k v, m !! k = Some v -> Z.of_nat (length k) <= INT_MAX /\ Z.of_nat (length v) <= INT_MAX.
Definition all_small (ts : gmap Z table) : Prop := forall n m, ts !! n = Some m -> small m.

Lemma all_small_alter f n ts : all_small ts -> (forall m, small m -> small (f m)) -> all_small (alter f n ts).
Proof.
  intros H Hf i m. rewrite lookup_alter_Some. intros [(-> & m' & Hm & ->)|[_ Hm]]; [|by apply (H i)].
  apply Hf. by eapply H.
Qed.

Lemma all_small_insert n m ts : all_small ts -> small m -> all_small (<[n := m]> ts).
Proof. intros H Hm i m'. rewrite lookup_insert_Some. intros [[_ <-]|[_ Hi]]; [done|by apply (H i)]. Qed.

Lemma small_empty : small ∅.
Proof. intros k v. by rewrite lookup_empty. Qed.

Definition db_small (d : Db) : Prop := all_small (d_tabs d) /\ all_small (d_saved d) /\ all_small (d_ck d).

Lemma spec_fun_small d o : db_small d -> allowed d o -> db_small (spec_fun d o).2.
Proof.
  intros (H1 & H2 & H3) Ho. pose proof small_empty as H0.
  destruct o; cbn [spec_fun]; unfold insert_spec, delete_spec, move_cur;
    repeat case_match; try done; split_and!; cbn; try done;
    try (by apply all_small_insert); try (intros i m [_ Hm]%lookup_delete_Some; by apply (H1 i));
    (apply all_small_alter; [done|]); intros m Hm k' v'.
  - rewrite lookup_insert_Some. intros [[<- <-]|[_ Hk]]; [by destruct Ho|by apply Hm].
  - intros [_ Hk]%lookup_delete_Some. by apply Hm.
  - intros [_ Hk]%lookup_delete_Some. by apply Hm.
Qed.

Lemma reaches_small client d rs d' :
  well_behaved client d -> db_small d -> reaches client d rs d' -> db_small d'.
Proof.
  intros Hwb Hd Hr. induction Hr as [|rs r d1 d2 Hr IH Hs]; [done|].
  pose proof (Hwb rs d1 Hr) as Ho. destruct (client rs) as [| | | | | | | | | | |p k| | | | | | | | | | | | |] eqn:E;
    try (cbn [spec_step] in Hs; pose proof (spec_fun_small d1 _ IH Ho) as H; by rewrite Hs in H).
  destruct Hs as (cu & m & _ & _ & res & pos & _ & -> & _). exact IH.
Qed.

(** A database that was just opened has the table of the schema. *)
Definition opened : Db :=
  mkDb {[ 2 := ∅ ]} [] TRANS_NONE ∅ ∅ 3 (<[2%nat := 4]> (replicate 10 0)).

(** The least and the greatest keys of a table, and the entries of a tree in order. *)

Lemma least_none ks : least ks = None -> ks = [].
Proof. destruct ks as [|a ks]; [done|]. cbn. by destruct (least ks). Qed.

Lemma least_some ks k : least ks = Some k -> k ∈ ks /\ forall x, x ∈ ks -> x = k \/ klt k x.
Proof.
  revert k. induction ks as [|a ks IH]; intros k; [done|]. cbn [least].
  destruct (least ks) as [k'|] eqn:El.
  - destruct (IH _ eq_refl) as [H1 H2]. case_decide as Hd; intros [= <-]; (split; [set_solver|]);
      intros x [->|Hx]%elem_of_cons; auto.
    + right. by destruct (H2 _ Hx) as [->|]; [|etrans].
    + destruct (key_compare_cases a k') as [[_ Hlt]|[[_ Heq]|[_ Hlt]]]; [contradiction|auto|auto].
  - intros [= <-]. apply least_none in El as ->.
    split; [by left|]. intros x [->|[]%elem_of_nil]%elem_of_cons. by left.
Qed.

Lemma greatest_none ks : greatest ks = None -> ks = [].
Proof. destruct ks as [|a ks]; [done|]. cbn. by destruct (greatest ks). Qed.

Lemma greatest_some ks k : greatest ks = Some k -> k ∈ ks /\ forall x, x ∈ ks -> x = k \/ klt x k.
Proof.
  revert k. induction ks as [|a ks IH]; intros k; [done|]. cbn [greatest].
  destruct (greatest ks) as [k'|] eqn:El.
  - destruct (IH _ eq_refl) as [H1 H2]. case_decide as Hd; intros [= <-]; (split; [set_solver|]);
      intros x [->|Hx]%elem_of_cons; auto.
    + right. by destruct (H2 _ Hx) as [->|]; [|etrans].
    + destruct (key_compare_cases a k') as [[_ Hlt]|[[_ Heq]|[_ Hlt]]]; [auto|auto|contradiction].
  - intros [= <-]. apply greatest_none in El as ->.
    split; [by left|]. intros x [->|[]%elem_of_nil]%elem_of_cons. by left.
Qed.

(** The least of the keys of an ordered list is the first. *)
Lemma least_ordered ks es : ordered es -> (forall x, x ∈ ks <-> x ∈ keys es) -> least ks = e_key <$> head es.
Proof.
  intros Ho Hk. destruct es as [|e es]; cbn.
  - destruct ks as [|k ks]; [done|]. destruct (not_elem_of_nil k). apply Hk. by left.
  - apply ordered_cons in Ho as [_ Ho]. destruct (least ks) as [k|] eqn:El.
    + apply least_some in El as [H1 H2]. f_equal. apply Hk in H1. cbn in H1.
      apply elem_of_cons in H1 as [->|H1]; [done|]. pose proof (Ho _ H1) as Hlt.
      destruct (H2 (e_key e)) as [->|Hlt2]; [apply Hk; by left|done|]. by destruct (klt_asym _ _ Hlt).
    + apply least_none in El as ->. destruct (not_elem_of_nil (e_key e)). apply Hk. by left.
Qed.

Lemma greatest_ordered ks es : ordered es -> (forall x, x ∈ ks <-> x ∈ keys es) -> greatest ks = e_key <$> last es.
Proof.
  intros Ho Hk. destruct es as [|e es _] using rev_ind; cbn.
  - destruct ks as [|k ks]; [done|]. destruct (not_elem_of_nil k). apply Hk. by left.
  - rewrite last_snoc. cbn. apply ordered_app in Ho as (_ & _ & Ho).
    assert (Hin : forall x, x ∈ ks <-> x ∈ keys es \/ x = e_key e).
    { intros x. rewrite Hk, keys_app, elem_of_app. cbn. by rewrite list_elem_of_singleton. }
    destruct (greatest ks) as [k|] eqn:El.
    + apply greatest_some in El as [H1 H2]. f_equal. apply Hin in H1 as [H1| -> ]; [|done].
      assert (Hlt : klt k (e_key e)) by (apply Ho; [done|by left]).
      destruct (H2 (e_key e)) as [->|Hlt2]; [apply Hin; by right|done|]. by destruct (klt_asym _ _ Hlt).
    + apply greatest_none in El as ->. destruct (not_elem_of_nil (e_key e)). apply Hin. by right.
Qed.

(** * Tables *)

Lemma keys_of_table es x : ordered es -> x ∈ keys_of (table_of es) <-> x ∈ keys es.
Proof.
  intros Ho. unfold keys_of. rewrite list_elem_of_fmap. split.
  - intros ([k v] & -> & Hin%elem_of_map_to_list). destruct (table_of_lookup _ _ _ Ho Hin) as (e & He & <- & _).
    unfold keys. cbn. by apply list_elem_of_fmap_2.
  - intros (e & -> & He)%list_elem_of_fmap. exists (e_key e, e_data e). split; [done|].
    apply elem_of_map_to_list. by apply table_of_in.
Qed.

Lemma first_key_table es : ordered es -> first_key (table_of es) = e_key <$> head es.
Proof. intros Ho. apply least_ordered; [done|]. intros x. by apply keys_of_table. Qed.

Lemma last_key_table es : ordered es -> last_key (table_of es) = e_key <$> last es.
Proof. intros Ho. apply greatest_ordered; [done|]. intros x. by apply keys_of_table. Qed.

Lemma next_key_table A B k : ordered (A ++ B) -> (forall x, x ∈ keys A -> ~ klt k x) ->
  (forall x, x ∈ keys B -> klt k x) -> next_key (table_of (A ++ B)) k = e_key <$> head B.
Proof.
  intros Ho HA HB. apply least_ordered; [by apply ordered_app in Ho as (_ & ? & _)|]. intros x.
  rewrite list_elem_of_filter, keys_of_table, keys_app, elem_of_app by done. naive_solver.
Qed.

Lemma prev_key_table A B k : ordered (A ++ B) -> (forall x, x ∈ keys A -> klt x k) ->
  (forall x, x ∈ keys B -> ~ klt x k) -> prev_key (table_of (A ++ B)) k = e_key <$> last A.
Proof.
  intros Ho HA HB. apply greatest_ordered; [by apply ordered_app in Ho as (? & _)|]. intros x.
  rewrite list_elem_of_filter, keys_of_table, keys_app, elem_of_app by done. naive_solver.
Qed.

(** From the key of an entry, the next and the previous. *)
Lemma next_key_here A e B : ordered (A ++ e :: B) -> next_key (table_of (A ++ e :: B)) (e_key e) = e_key <$> head B.
Proof.
  intros Ho. pose proof Ho as (_ & HB & HAB)%ordered_app. apply ordered_cons in HB as [_ HB].
  rewrite cons_middle, (assoc_L (++)) in Ho |- *. apply next_key_table; [done| |exact HB].
  intros x. rewrite keys_app, elem_of_app. cbn. rewrite list_elem_of_singleton. intros [Hx| -> ]; [|apply klt_irrefl].
  apply klt_asym, HAB; [done|by left].
Qed.

Lemma prev_key_here A e B : ordered (A ++ e :: B) -> prev_key (table_of (A ++ e :: B)) (e_key e) = e_key <$> last A.
Proof.
  intros Ho. pose proof Ho as (_ & HB & HAB)%ordered_app. apply ordered_cons in HB as [_ HB].
  apply prev_key_table; [done|intros x Hx; apply HAB; [done|by left]|].
  intros x. cbn. intros [->|Hx]%elem_of_cons; [apply klt_irrefl|]. by apply klt_asym, HB.
Qed.
