(* ===== verification/RbDb.v ===== *)
(** The invariant of a database in memory: its table of tables, its trees, its cursors,
    and how the cursors of a client stand for places in the tables. *)
From S2P Require Import Prelude Util Hash HashKey HashList HashSpec HashMap OsFile Rbtree RbShape RbRotate RbInsert RbDelete RbOrder RbCursor RbTable RbUpdate RbSpec.
From Stdlib Require Import Sorting.Sorted.

(** * The table of tables *)

(** The tables by number: where the tree is, and the tree. *)
Abbreviation tabs := (gmap Z (addr * T)).

(** The hash table of the database points to the trees. *)
Definition hash_tables (h : HW) (Ts : tabs) : Prop := exists m, table_ok SQLITE_HASH_INT h m /\
  forall q, m !! q = match q with [n] => (fun x : addr * T => Zpos x.1) <$> Ts !! n | _ => None end.

Lemma wp_htab {A} (m : M HW A) (Q : A -> Rbtree -> Prop) C w : no_fail w ->
  wp m (fun a h => mallocs h = [] /\ Q a (set_tblHash h false w)) (fun _ => False) (tblHash w) ->
  wp (htab m) Q C w.
Proof.
  intros [Hm Hf] H. unfold wp, htab in *. rewrite Hf. destruct (m (tblHash w)) as [a h| |]; [|done..].
  destruct H as [Hh HQ]. rewrite Hm. done.
Qed.

Lemma set_tblHash_same w : no_fail w -> set_tblHash (tblHash w) false w = w.
Proof. intros [_ Hf]. destruct w. cbn in *. by subst. Qed.

Lemma wp_tbl_find w Ts n (Q : option addr -> Rbtree -> Prop) C :
  no_fail w -> hash_tables (tblHash w) Ts -> is_int32 n ->
  Q (fst <$> Ts !! n) w -> wp (tbl_find n) Q C w.
Proof.
  intros Hnf (m & Hm & Hq) Hn HQ. unfold tbl_find. apply wp_bind, wp_htab; [done|].
  eapply (wp_find SQLITE_HASH_INT _ m); [done|done|]. split; [apply Hnf|].
  rewrite set_tblHash_same by done. cbn [norm int_keys]. rewrite Hq. steps.
  by destruct (Ts !! n) as [[a t]|].
Qed.

Lemma wp_tbl_set w Ts n p x (Q : option addr -> Rbtree -> Prop) C :
  no_fail w -> hash_tables (tblHash w) Ts -> is_int32 n -> p = fst <$> x ->
  (forall h', hash_tables h' (partial_alter (fun _ => x) n Ts) -> mallocs h' = [] ->
     Q (fst <$> Ts !! n) (set_tblHash h' false w)) ->
  wp (tbl_insert n p) Q C w.
Proof.
  intros Hnf (m & Hm & Hq) Hn Hp HQ. unfold tbl_insert. apply wp_bind, wp_htab; [done|].
  set (z := match p with Some a => Zpos a | None => 0 end).
  change (sqliteHashInsert [] n z) with (run_hash_op (HInsert [] n z)).
  eapply (wp_hash_op SQLITE_HASH_INT _ _ m); [done|apply Hnf|done|]. intros h' Hh' Hmh'.
  cbn [map_op fst snd norm int_keys] in *. split; [done|]. steps. rewrite Hq.
  replace (match default 0 ((fun x0 : addr * T => Zpos x0.1) <$> Ts !! n) with Zpos a => Some a | _ => None end)
    with (fst <$> Ts !! n) by by destruct (Ts !! n) as [[a t]|].
  apply HQ; [|done]. eexists. split; [exact Hh'|]. intros q.
  assert (Hz : z = match x with Some (a, _) => Zpos a | None => 0 end).
  { unfold z. rewrite Hp. by destruct x as [[]|]. }
  destruct q as [|n' [|]].
  - destruct (z =? 0); rewrite ?lookup_delete_ne, ?lookup_insert_ne by done; by rewrite Hq.
  - destruct (decide (n' = n)) as [->|Hne].
    + rewrite lookup_partial_alter_eq, Hz. destruct x as [[a t]|]; cbn.
      * by rewrite lookup_insert_eq.
      * by rewrite lookup_delete_eq.
    + rewrite lookup_partial_alter_ne by congruence.
      destruct (z =? 0); rewrite ?lookup_delete_ne, ?lookup_insert_ne by congruence; by rewrite Hq.
  - destruct (z =? 0); rewrite ?lookup_delete_ne, ?lookup_insert_ne by done; by rewrite Hq.
Qed.

(** * Trees *)

Record db_inv (w : Rbtree) (Ts : tabs) : Prop := {
  i_fail : no_fail w;
  i_hash : hash_tables (tblHash w) Ts;
  i_int : forall n x, Ts !! n = Some x -> is_int32 n;
  i_tree : forall n pt t, Ts !! n = Some (pt, t) -> holds w pt t /\ valid t /\ ordered (elems t);
  i_inj : forall n n' pt t t', Ts !! n = Some (pt, t) -> Ts !! n' = Some (pt, t') -> n = n';
  i_sep : forall n n' pt pt' t t' x, Ts !! n = Some (pt, t) -> Ts !! n' = Some (pt', t') ->
    x ∈ addrs (elems t) -> x ∈ addrs (elems t') -> n = n';
  i_nodes : forall x, is_Some (nodes w !! x) <-> exists n pt t, Ts !! n = Some (pt, t) /\ x ∈ addrs (elems t);
  i_trees : forall q, is_Some (trees w !! q) <-> exists n t, Ts !! n = Some (q, t)
}.

(** The tables as the client sees them. *)
Definition contents (Ts : tabs) : gmap Z table := (fun x => table_of (elems x.2)) <$> Ts.

(** A tree that is not touched stays what it is. *)
Lemma holds_other w w' pt t :
  (forall x, x ∈ addrs (elems t) -> nodes w' !! x = nodes w !! x) -> trees w' !! pt = trees w !! pt ->
  holds w pt t -> holds w' pt t.
Proof.
  intros Hn Ht [H1 H2 H3]. split; [by rewrite Ht| |done]. by eapply tree_at_ext.
Qed.

Lemma db_update w w' Ts n pt t t' :
  db_inv w Ts -> Ts !! n = Some (pt, t) -> changed w w' pt t t' -> ordered (elems t') ->
  db_inv w' (<[n := (pt, t')]> Ts).
Proof.
  intros [If Ih Ii It Ij Is In Iq] Hn [Hb Hh Hv Ho Hg Hnew Ht Hc] Hord.
  assert (Hother : forall n' pt1 t1, n' <> n -> Ts !! n' = Some (pt1, t1) ->
    pt1 <> pt /\ forall x, x ∈ addrs (elems t1) -> x ∉ addrs (elems t) /\ x ∉ addrs (elems t')).
  { intros n' pt1 t1 Hne Hn'. split; [intros ->; by eapply Hne, Ij|]. intros x Hx.
    assert (x ∉ addrs (elems t)) by (intros Hx'; by eapply Hne, Is). split; [done|].
    intros Hx'. destruct (Hnew x Hx') as [|Hnone]; [done|].
    destruct (proj2 (In x)) as [? ?]; [by exists n', pt1, t1|]. congruence. }
  split.
  - by eapply no_fail_base.
  - destruct Ih as (m & Hm & Hq). exists m. rewrite (sb_hash _ _ Hb). split; [done|].
    intros q. rewrite Hq. destruct q as [|n' [|]]; try done. destruct (decide (n' = n)) as [->|].
    + by rewrite lookup_insert_eq, Hn.
    + by rewrite lookup_insert_ne.
  - intros n' x. destruct (decide (n' = n)) as [->|]; [by rewrite lookup_insert_eq; intros _; eapply Ii|].
    rewrite lookup_insert_ne by done. apply Ii.
  - intros n' pt1 t1. destruct (decide (n' = n)) as [->|Hne].
    + rewrite lookup_insert_eq. by intros [= <- <-].
    + rewrite lookup_insert_ne by done. intros Hn'. destruct (It _ _ _ Hn') as (H1 & H2 & H3).
      destruct (Hother _ _ _ Hne Hn') as [Hpt Hx]. split; [|done].
      eapply holds_other; [|by apply Ht|done]. intros x Hx'. destruct (Hx x Hx'). by apply Ho.
  - intros n1 n2 q t1 t2. destruct (decide (n1 = n)) as [->|Hne1], (decide (n2 = n)) as [->|Hne2];
      rewrite ?lookup_insert_eq, ?lookup_insert_ne by done.
    + done.
    + intros [= <- <-] H2. by destruct (Hother _ _ _ Hne2 H2).
    + intros H1 [= <- <-]. by destruct (Hother _ _ _ Hne1 H1).
    + apply Ij.
  - intros n1 n2 q1 q2 t1 t2 x. destruct (decide (n1 = n)) as [->|Hne1], (decide (n2 = n)) as [->|Hne2];
      rewrite ?lookup_insert_eq, ?lookup_insert_ne by done.
    + done.
    + intros [= <- <-] H2 Hx1 Hx2. destruct (Hother _ _ _ Hne2 H2) as [_ Hx]. by destruct (Hx _ Hx2).
    + intros H1 [= <- <-] Hx1 Hx2. destruct (Hother _ _ _ Hne1 H1) as [_ Hx]. by destruct (Hx _ Hx1).
    + apply Is.
  - intros x. destruct (decide (x ∈ addrs (elems t'))) as [Hx'|Hx'].
    { split; [|intros _; destruct Hh; by eapply tree_at_lookup].
      intros _. exists n, pt, t'. by rewrite lookup_insert_eq. }
    destruct (decide (x ∈ addrs (elems t))) as [Hx|Hx].
    { rewrite (Hg x Hx Hx'). split; [by intros [? ?]|]. intros (n' & pt1 & t1 & Hn' & Hx1).
      destruct (decide (n' = n)) as [->|Hne]; [rewrite lookup_insert_eq in Hn'; by injection Hn' as <- <-|].
      rewrite lookup_insert_ne in Hn' by done. destruct (Hother _ _ _ Hne Hn') as [_ Ho']. by destruct (Ho' x Hx1). }
    rewrite (Ho x Hx Hx'), In. split; intros (n' & pt1 & t1 & Hn' & Hx1); exists n', pt1, t1.
    + destruct (decide (n' = n)) as [->|]; [|by rewrite lookup_insert_ne].
      rewrite Hn in Hn'. by injection Hn' as <- <-.
    + destruct (decide (n' = n)) as [->|]; [|by rewrite lookup_insert_ne in Hn'].
      rewrite lookup_insert_eq in Hn'. by injection Hn' as <- <-.
  - intros q. destruct (decide (q = pt)) as [->|Hq].
    + split; [intros _; exists n, t'; by rewrite lookup_insert_eq|]. intros _.
      destruct Hh as [Hh _ _]. by destruct (trees w' !! pt).
    + rewrite Ht, Iq by done. split; intros (n' & t1 & Hn'); exists n', t1.
      * rewrite lookup_insert_ne; [done|]. intros <-. congruence.
      * rewrite lookup_insert_ne in Hn'; [done|]. intros <-. rewrite lookup_insert_eq in Hn'. congruence.
Qed.

(** The cursors of a client: how they stand for places in the tables, and what
    [checkReadLocks] and changes of a tree do to them. *)

(** * Lists of cursors *)

Lemma cur_at_in p cu l : NoDup l.*1 -> cur_at p l = Some cu <-> (p, cu) ∈ l.
Proof.
  induction l as [|[q cv] l IH]; cbn [cur_at fmap list_fmap fst]; [by split; [|intros ?%elem_of_nil]|].
  intros [Hq Hl]%NoDup_cons. rewrite elem_of_cons. case_decide as Hd.
  - subst q. split; [intros [= ->]; by left|]. intros [[= ->]|Hin]; [done|].
    destruct Hq. apply list_elem_of_fmap. by exists (p, cu).
  - rewrite IH by done. split; [by right|]. intros [[= <- <-]|]; done.
Qed.

Lemma cur_at_none p l : cur_at p l = None <-> p ∉ l.*1.
Proof.
  induction l as [|[q cv] l IH]; cbn [cur_at fmap list_fmap fst]; [by split; [intros _ ?%elem_of_nil|]|].
  rewrite elem_of_cons. case_decide; [subst; split; [done|]; intros H; by destruct H; left|]. rewrite IH.
  split; [intros H1 [|]; congruence|]. intros H1 H2. by apply H1; right.
Qed.

Lemma set_cur_fst p cu l : (set_cur p cu l).*1 = l.*1.
Proof.
  induction l as [|[q cv] l IH]; [done|]. cbn. f_equal; [by case_decide|exact IH].
Qed.

Lemma set_cur_absent p cu l : p ∉ l.*1 -> set_cur p cu l = l.
Proof.
  induction l as [|[q cv] l IH]; [done|]. cbn. intros [Hq Hl]%not_elem_of_cons.
  rewrite decide_False by done. f_equal. by apply IH.
Qed.

Lemma set_cur_in p cu l q cv : (q, cv) ∈ set_cur p cu l <-> (q <> p /\ (q, cv) ∈ l) \/ (q = p /\ cv = cu /\ p ∈ l.*1).
Proof.
  unfold set_cur. rewrite list_elem_of_fmap. split.
  - intros ([q' cv'] & E & Hin). cbn in E. case_decide; simplify_eq; [|by left].
    right. split; [done|]. split; [done|]. apply list_elem_of_fmap. by exists (p, cv').
  - intros [[Hne Hin]|(-> & -> & Hin)].
    + exists (q, cv). cbn. by rewrite decide_False.
    + apply list_elem_of_fmap in Hin as ([q' cv'] & -> & Hin). exists (q', cv'). cbn. by rewrite decide_True.
Qed.

Lemma cur_at_set p cu l : p ∈ l.*1 -> cur_at p (set_cur p cu l) = Some cu.
Proof.
  induction l as [|[q cv] l IH]; [by intros ?%elem_of_nil|]. cbn. case_decide as Hd; cbn.
  - by rewrite decide_True.
  - rewrite elem_of_cons. intros [->|Hin]; [done|]. rewrite decide_False by done. by apply IH.
Qed.

Lemma set_cur_middle p cu cu' l1 l2 : NoDup (l1 ++ (p, cu) :: l2).*1 ->
  set_cur p cu' (l1 ++ (p, cu) :: l2) = l1 ++ (p, cu') :: l2.
Proof.
  rewrite fmap_app. cbn. intros (_ & Hd & Hn)%NoDup_app. apply NoDup_cons in Hn as [Hp _].
  unfold set_cur. rewrite fmap_app. cbn. rewrite decide_True by done.
  fold (set_cur p cu' l1) (set_cur p cu' l2). rewrite !set_cur_absent; [done|done|].
  intros Hin. apply (Hd _ Hin). by left.
Qed.

Lemma curs_of_set n p cu l : (forall cv, (p, cv) ∈ l -> c_tab cv = c_tab cu) ->
  (curs_of n (set_cur p cu l)).*1 = (curs_of n l).*1.
Proof.
  unfold curs_of. induction l as [|[q cv] l IH]; intros Hl; [done|].
  cbn [set_cur fmap list_fmap]. fold (set_cur p cu l). rewrite !filter_cons. cbn [fst snd].
  destruct (decide (q = p)) as [->|Hne]; cbn [fst snd].
  - rewrite <- (Hl cv) by by left. case_decide; cbn; [f_equal|]; apply IH; intros; apply Hl; by right.
  - case_decide; cbn; [f_equal|]; apply IH; intros; apply Hl; by right.
Qed.

(** * Cursors and their abstraction *)

(** The place [p] among the entries [es] is the key [k]. *)
Definition pos_rel (es : list entry) (p : option addr) (k : option (list Z)) : Prop :=
  match p, k with
  | Some a, Some k => exists e, e ∈ es /\ e_addr e = a /\ e_key e = k
  | None, None => True
  | _, _ => False
  end.

Record cur_rel (Ts : tabs) (c : RbtCursor) (cu : Cur) : Prop := {
  cr_tab : iTree c = c_tab cu;
  cr_skip : eSkip c = c_skip cu;
  cr_wr : wrFlag c = c_wr cu;
  cr_tree : exists t, Ts !! c_tab cu = Some (pTree c, t) /\ pos_rel (elems t) (pNode c) (c_pos cu)
}.

(** The cursors of the client are [l]; a rollback has a cursor of its own, [L]. *)
Record curs_inv (w : Rbtree) (Ts : tabs) (L : option addr) (l : list (addr * Cur)) : Prop := {
  k_nodup : NoDup l.*1;
  k_dom : dom (cursors w) = list_to_set l.*1 ∪ (match L with Some p => {[p]} | None => ∅ end);
  k_local : match L with Some p => p ∉ l.*1 | None => True end;
  k_rel : forall p cu, (p, cu) ∈ l -> exists c, cursors w !! p = Some c /\ cur_rel Ts c cu;
  k_lists : forall n pt t, Ts !! n = Some (pt, t) -> pCursors <$> trees w !! pt = Some (curs_of n l).*1
}.

(** One cursor is given other values. *)
Lemma curs_set w Ts L l p c c' cu' :
  curs_inv w Ts L l -> cursors w !! p = Some c ->
  (forall cu, (p, cu) ∈ l -> c_tab cu = c_tab cu' /\ cur_rel Ts c' cu') ->
  curs_inv (put p c' w) Ts L (set_cur p cu' l).
Proof.
  intros [Hn Hd Hl Hr Hs] Hc Hcu. split; rewrite ?set_cur_fst; try done.
  - cbn. rewrite dom_insert_same by eauto. done.
  - intros q cv [(Hne & Hin)|(-> & -> & Hin)]%set_cur_in.
    + destruct (Hr _ _ Hin) as (c0 & Hc0 & Hr0). exists c0. split; [|done]. cbn. by rewrite lookup_insert_ne.
    + apply list_elem_of_fmap in Hin as ([q cv] & -> & Hin). exists c'. cbn. rewrite lookup_insert_eq.
      split; [done|]. by eapply Hcu.
  - intros n pt t HT. cbn. rewrite (Hs _ _ _ HT). f_equal. symmetry. apply curs_of_set.
    intros cv Hin. by apply Hcu.
Qed.

(** The cursor [self] is one of the database. *)
Lemma curs_dom w Ts L l p cu : curs_inv w Ts L l -> cur_at p l = Some cu ->
  exists c, cursors w !! p = Some c /\ cur_rel Ts c cu.
Proof. intros H Hp%cur_at_in; [|by eapply k_nodup]. by eapply k_rel. Qed.

(** Entries that stay, as far as a cursor can see. *)
Lemma curs_change w w' Ts L l n pt t t' self c' cu' :
  curs_inv w Ts L l -> Ts !! n = Some (pt, t) -> changed w w' pt t t' ->
  cursors w' = <[self := c']> (cursors w) -> is_Some (cursors w !! self) ->
  (forall p cu, (p, cu) ∈ l -> c_tab cu = n -> p <> self -> c_pos cu = None) ->
  (forall cu, (self, cu) ∈ l -> c_tab cu = c_tab cu' /\ cur_rel (<[n := (pt, t')]> Ts) c' cu') ->
  (forall n' t1, Ts !! n' = Some (pt, t1) -> n' = n) ->
  curs_inv w' (<[n := (pt, t')]> Ts) L (set_cur self cu' l).
Proof.
  intros [Hn Hd Hl Hr Hs] HT Hch Hcs Hself Hoth Hcu Hinj. split; rewrite ?set_cur_fst; try done.
  - rewrite Hcs, dom_insert_same by done. done.
  - intros q cv [(Hne & Hin)|(-> & -> & Hin)]%set_cur_in.
    + destruct (Hr _ _ Hin) as (c0 & Hc0 & [R1 R2 R3 (t0 & R4 & R5)]). exists c0.
      split; [by rewrite Hcs, lookup_insert_ne|]. split; [done..|].
      destruct (decide (c_tab cv = n)) as [Htab|Htab].
      * exists t'. rewrite Htab, lookup_insert_eq. rewrite Htab, HT in R4. injection R4 as <- <-.
        split; [done|]. rewrite (Hoth _ _ Hin Htab Hne) in *. by destruct (pNode c0).
      * exists t0. by rewrite lookup_insert_ne.
    + apply list_elem_of_fmap in Hin as ([q cv] & -> & Hin). exists c'. rewrite Hcs, lookup_insert_eq.
      split; [done|]. by eapply Hcu.
  - intros n' pt' t1. rewrite curs_of_set by (intros cv Hin; by apply Hcu).
    destruct (decide (n' = n)) as [->|Hne].
    + rewrite lookup_insert_eq. intros [= <- <-]. rewrite (ch_cursors _ _ _ _ _ Hch). by eapply Hs.
    + rewrite lookup_insert_ne by done. intros HT'. rewrite (ch_trees _ _ _ _ _ Hch); [by eapply Hs|].
      intros ->. by eapply Hne, Hinj.
Qed.

(** * Locks *)

Lemma lock_table_fst self n l : (lock_table self n l).2.*1 = l.*1.
Proof.
  induction l as [|[p cu] l IH]; [done|]. cbn [lock_table].
  case_decide; [destruct (c_wr cu)|]; destruct (lock_table self n l) as [b l'] eqn:E; cbn in *; by f_equal.
Qed.

Lemma lock_table_tab self n l p cu : (p, cu) ∈ (lock_table self n l).2 ->
  exists cv, (p, cv) ∈ l /\ c_tab cv = c_tab cu /\ c_wr cv = c_wr cu /\ c_skip cv = c_skip cu /\
    (p = self \/ c_tab cu <> n -> cv = cu).
Proof.
  induction l as [|[q cv] l IH]; [by intros ?%elem_of_nil|]. cbn [lock_table].
  assert (Hhere : (p, cu) = (q, cv) -> exists cv', (p, cv') ∈ (q, cv) :: l /\ c_tab cv' = c_tab cu /\ c_wr cv' = c_wr cu /\
    c_skip cv' = c_skip cu /\ (p = self \/ c_tab cu <> n -> cv' = cu)).
  { intros [= -> ->]. exists cv. split; [by left|done]. }
  assert (Hthere : (p, cu) ∈ (lock_table self n l).2 -> exists cv', (p, cv') ∈ (q, cv) :: l /\ c_tab cv' = c_tab cu /\
    c_wr cv' = c_wr cu /\ c_skip cv' = c_skip cu /\ (p = self \/ c_tab cu <> n -> cv' = cu)).
  { intros Hin. destruct (IH Hin) as (cv' & H1 & H2). exists cv'. split; [by right|done]. }
  destruct (lock_table self n l) as [b l'] eqn:E. cbn in Hthere.
  case_decide as Hd; [destruct (c_wr cv) eqn:Ew|]; cbn [snd]; rewrite elem_of_cons; intros [Heq|Hin]; eauto.
  - injection Heq as -> ->. exists cv. cbn. split; [by left|]. split; [done|]. split; [done|]. split; [done|].
    intros [->|]; by destruct Hd.
  - exists cu. split; [by right|done].
Qed.

Lemma lock_table_free self n l : (lock_table self n l).1 = false ->
  forall p cu, (p, cu) ∈ (lock_table self n l).2 -> c_tab cu = n -> p <> self -> c_pos cu = None.
Proof.
  induction l as [|[q cv] l IH]; cbn [lock_table]; [by intros _ p cu ?%elem_of_nil|].
  destruct (lock_table self n l) as [b l'] eqn:E. cbn in IH.
  case_decide as Hd; [destruct (c_wr cv) eqn:Ew|]; cbn [fst snd]; intros Hb p cu Hin; try done;
    apply elem_of_cons in Hin as [[= -> ->]|Hin]; eauto.
  intros Ht Hp. by destruct Hd.
Qed.

(** The part of the state that cursors and logs do not belong to. *)
Lemma holds_same w w' pt t : nodes w' = nodes w -> trees w' = trees w -> holds w pt t -> holds w' pt t.
Proof. apply holds_ext. Qed.

Lemma db_inv_ext w w' Ts : nodes w' = nodes w -> trees w' = trees w -> tblHash w' = tblHash w ->
  malloc_failed w' = malloc_failed w -> db_inv w Ts -> db_inv w' Ts.
Proof.
  intros En Et Eh Ef [[Hm Hf] Ih Ii It Ij Is In Iq]. split; rewrite ?En, ?Et, ?Eh; try done.
  - split; by rewrite ?Eh, ?Ef.
  - intros n pt t HT. destruct (It _ _ _ HT) as (H1 & H2 & H3). split; [by eapply holds_ext|done].
Qed.

Section Locks.
Context (w : Rbtree) (Ts : tabs) (L : option addr) (self : addr) (n : Z) (c : RbtCursor).

(** The list of cursors was checked up to [l1]. *)
Lemma wp_lock_loop l2 : forall l1 cs (Q : Z -> Rbtree -> Prop) C,
  curs_inv (set_cursors cs w) Ts L (l1 ++ l2) -> cs !! self = Some c ->
  (forall cs', curs_inv (set_cursors cs' w) Ts L (l1 ++ (lock_table self n l2).2) -> cs' !! self = Some c ->
     Q (if (lock_table self n l2).1 then SQLITE_LOCKED else SQLITE_OK) (set_cursors cs' w)) ->
  wp (checkReadLocks_loop (curs_of n l2).*1 self) Q C (set_cursors cs w).
Proof.
  induction l2 as [|[p cu] l2 IH]; intros l1 cs Q C Hi Hc HQ; [by apply wp_ret, HQ|].
  unfold curs_of. rewrite filter_cons. cbn [fst snd]. cbn [lock_table] in HQ.
  assert (Hskip : (p = self \/ c_tab cu <> n) ->
    wp (checkReadLocks_loop (curs_of n l2).*1 self) Q C (set_cursors cs w)).
  { intros Hs. eapply (IH (l1 ++ [(p, cu)])); [by rewrite <- (assoc_L (++))|done|].
    rewrite decide_False in HQ by (destruct Hs; tauto).
    destruct (lock_table self n l2) as [b l'] eqn:E. cbn [fst snd] in *. intros cs' H1 H2. apply HQ; [|done].
    by rewrite <- (assoc_L (++)) in H1. }
  destruct (decide (c_tab cu = n)) as [Ht|Ht]; [|apply Hskip; by right].
  cbn [fmap list_fmap checkReadLocks_loop fst].
  destruct (decide (p = self)) as [Hp|Hp]; [rewrite bool_decide_eq_true_2 by done; apply Hskip; by left|].
  rewrite bool_decide_eq_false_2 by done. rewrite decide_True in HQ by done.
  destruct (k_rel _ _ _ _ Hi p cu) as (c0 & Hc0 & [R1 R2 R3 (t0 & R4 & R5)]); [set_solver|].
  steps. rewrite R3. destruct (c_wr cu) eqn:Ew; cbn [negb]; [|steps; by apply HQ].
  steps. eapply wp_put; [done|]. steps. cbn in Hc0.
  change (put p _ _) with (set_cursors (<[p := set_pNode None c0]> cs) w).
  pose proof (curs_set _ _ _ _ p c0 (set_pNode None c0) (mkCur (c_tab cu) None (c_skip cu) true) Hi Hc0) as Hset.
  rewrite set_cur_middle in Hset by by apply (k_nodup _ _ _ _ Hi).
  eapply (IH (l1 ++ [(p, mkCur (c_tab cu) None (c_skip cu) true)])).
  - rewrite <- (assoc_L (++)). apply Hset. intros cv Hin.
    assert (cv = cu) as ->.
    { pose proof (k_nodup _ _ _ _ Hi) as Hnd. apply (cur_at_in _ _ _ Hnd) in Hin.
      assert (H2 : cur_at p (l1 ++ (p, cu) :: l2) = Some cu) by (apply (cur_at_in _ _ _ Hnd); set_solver).
      congruence. }
    split; [done|]. split; cbn; try done; eauto.
  - by rewrite lookup_insert_ne.
  - destruct (lock_table self n l2) as [b l'] eqn:E. cbn [fst snd] in *. intros cs' H1 H2. apply HQ; [|done].
    by rewrite <- (assoc_L (++)) in H1.
Qed.

Lemma wp_checkReadLocks l t (Q : Z -> Rbtree -> Prop) C :
  curs_inv w Ts L l -> cursors w !! self = Some c -> wrFlag c = true -> Ts !! n = Some (pTree c, t) ->
  (forall cs', curs_inv (set_cursors cs' w) Ts L (lock_table self n l).2 -> cs' !! self = Some c ->
     Q (if (lock_table self n l).1 then SQLITE_LOCKED else SQLITE_OK) (set_cursors cs' w)) ->
  wp (checkReadLocks self) Q C w.
Proof.
  intros Hi Hc Hw HT HQ. pose proof (k_lists _ _ _ _ Hi _ _ _ HT) as Hl.
  destruct (trees w !! pTree c) as [tr|] eqn:Et; [|done]. injection Hl as Hl.
  unfold checkReadLocks. steps. rewrite Hw. apply wp_assert; [done|]. steps. rewrite Hl.
  assert (Ew : w = set_cursors (cursors w) w) by by destruct w. rewrite Ew in Hi |- *.
  by apply (wp_lock_loop l []).
Qed.
End Locks.
