(* ===== verification/RbLog.v ===== *)
(** Inserting and deleting records in a database, and what the log of an operation
    undoes. *)
From S2P Require Import Prelude OsFile Util Hash HashKey HashList HashSpec HashMap Rbtree RbShape RbRotate RbInsert RbDelete RbOrder RbCursor RbTable RbUpdate RbSpec RbDb.
From Stdlib Require Import Sorting.Sorted.

(** * Undoing *)

(** What executing an entry of the log does to the tables. *)
Definition undo_op (op : BtRollbackOp) (ts : gmap Z table) : option (gmap Z table) :=
  if eOp op =? ROLLBACK_INSERT then
    m ← ts !! iTab op; Some (<[iTab op := <[op_pKey op := op_pData op]> m]> ts)
  else if eOp op =? ROLLBACK_DELETE then
    m ← ts !! iTab op; _ ← m !! op_pKey op; Some (<[iTab op := delete (op_pKey op) m]> ts)
  else if eOp op =? ROLLBACK_CREATE then
    match ts !! iTab op with None => Some (<[iTab op := ∅]> ts) | Some _ => None end
  else if eOp op =? ROLLBACK_DROP then
    _ ← ts !! iTab op; Some (delete (iTab op) ts)
  else None.

Fixpoint undo_list (ops : list BtRollbackOp) (ts : gmap Z table) : option (gmap Z table) :=
  match ops with
  | [] => Some ts
  | op :: ops' => ts' ← undo_op op ts; undo_list ops' ts'
  end.

Lemma undo_app ops1 ops2 : forall ts, undo_list (ops1 ++ ops2) ts = undo_list ops1 ts ≫= undo_list ops2.
Proof.
  induction ops1 as [|op ops1 IH]; intros ts; [done|]. cbn. destruct (undo_op op ts); cbn; [apply IH|done].
Qed.

Lemma undo_insert n k v v' m ts : ts !! n = Some m -> m !! k = Some v ->
  undo_op (mkOp ROLLBACK_INSERT n k v) (<[n := <[k := v']> m]> ts) = Some ts.
Proof.
  intros Hn Hk. unfold undo_op. cbn. rewrite lookup_insert_eq. cbn. f_equal.
  by rewrite !insert_insert_eq, (insert_id m), insert_id.
Qed.

Lemma undo_reinsert n k v m ts : ts !! n = Some m -> m !! k = Some v ->
  undo_op (mkOp ROLLBACK_INSERT n k v) (<[n := delete k m]> ts) = Some ts.
Proof.
  intros Hn Hk. unfold undo_op. cbn. rewrite lookup_insert_eq. cbn. f_equal.
  by rewrite insert_insert_eq, insert_delete_id, insert_id.
Qed.

Lemma undo_delete n k v m ts : ts !! n = Some m -> m !! k = None ->
  undo_op (mkOp ROLLBACK_DELETE n k []) (<[n := <[k := v]> m]> ts) = Some ts.
Proof.
  intros Hn Hk. unfold undo_op. cbn. rewrite lookup_insert_eq. cbn. rewrite lookup_insert_eq. cbn. f_equal.
  by rewrite insert_insert_eq, delete_insert_id, insert_id.
Qed.

Lemma undo_create n m ts : ts !! n = Some m -> m = ∅ ->
  undo_op (mkOp ROLLBACK_CREATE n [] []) (delete n ts) = Some ts.
Proof.
  intros Hn ->. unfold undo_op. cbn. rewrite lookup_delete_eq. f_equal. by rewrite insert_delete_id.
Qed.

Lemma undo_drop n ts : ts !! n = None -> undo_op (mkOp ROLLBACK_DROP n [] []) (<[n := ∅]> ts) = Some ts.
Proof. intros Hn. unfold undo_op. cbn. rewrite lookup_insert_eq. cbn. f_equal. by rewrite delete_insert_id. Qed.

(** * Records of a database *)

Lemma contents_lookup Ts n pt t : Ts !! n = Some (pt, t) -> contents Ts !! n = Some (table_of (elems t)).
Proof. intros H. unfold contents. by rewrite lookup_fmap, H. Qed.

Lemma contents_insert Ts n pt t : contents (<[n := (pt, t)]> Ts) = <[n := table_of (elems t)]> (contents Ts).
Proof. unfold contents. by rewrite fmap_insert. Qed.

(** A record belongs between two others. *)
Lemma ordered_insert es1 e es2 : ordered (es1 ++ es2) ->
  (forall x, x ∈ keys es1 -> klt x (e_key e)) -> (forall x, x ∈ keys es2 -> klt (e_key e) x) ->
  ordered (es1 ++ e :: es2) /\ e_key e ∉ keys (es1 ++ es2).
Proof.
  intros (H1 & H2 & H3)%ordered_app Ha Hb. split.
  - apply ordered_app. split; [done|]. split; [by apply ordered_cons|].
    intros a b Hin1 [->|Hin2]%elem_of_cons; [by apply Ha|by apply H3].
  - rewrite keys_app, elem_of_app. intros [Hin|Hin]; [by eapply klt_irrefl, Ha|by eapply klt_irrefl, Hb].
Qed.

Lemma ordered_record A e B v : ordered (A ++ e :: B) ->
  ordered (A ++ with_record (e_key e) v e :: B) /\
  table_of (A ++ with_record (e_key e) v e :: B) = <[e_key e := v]> (table_of (A ++ e :: B)).
Proof.
  intros Ho. assert (Ho' : ordered (A ++ with_record (e_key e) v e :: B)).
  { unfold ordered in Ho |- *. rewrite keys_app in Ho |- *. exact Ho. }
  split; [done|]. by rewrite !table_of_insert, insert_insert_eq.
Qed.

(** The record of [e] is taken out, and an entry of it may get the record behind it. *)
Lemma ordered_removed A e B es' : ordered (A ++ e :: B) ->
  (es' = A ++ B \/ exists s B', B = s :: B' /\ es' = A ++ with_record (e_key s) (e_data s) e :: B') ->
  ordered es' /\ table_of es' = delete (e_key e) (table_of (A ++ e :: B)).
Proof.
  intros Ho Hes. assert (Hdel : ordered (A ++ B) /\ table_of (A ++ B) = delete (e_key e) (table_of (A ++ e :: B))).
  { pose proof (ordered_nodup _ Ho) as Hnd. split.
    - apply ordered_app in Ho as (H1 & [H2 _]%ordered_cons & H3). apply ordered_app. split; [done|]. split; [done|].
      intros a b Ha Hb. apply H3; [done|]. by right.
    - rewrite table_of_insert, delete_insert_id; [done| |done]. apply table_of_none.
      rewrite keys_app in Hnd |- *. cbn in Hnd. rewrite elem_of_app.
      apply NoDup_app in Hnd as (_ & H1 & H2). apply NoDup_cons in H2 as [H2 _].
      intros [Hin|Hin]; [apply (H1 _ Hin); by left|done]. }
  destruct Hes as [->|(s & B' & -> & ->)]; [done|]. destruct Hdel as [H1 H2]. rewrite <- H2.
  assert (Ek : keys (A ++ with_record (e_key s) (e_data s) e :: B') = keys (A ++ s :: B')) by by rewrite !keys_app.
  split; [unfold ordered in *; by rewrite Ek|]. unfold table_of. by rewrite !fmap_app.
Qed.

(** The fields that neither records nor cursors touch. *)
Definition same_rest (w w' : Rbtree) : Prop :=
  next_idx w' = next_idx w /\ aMetaData w' = aMetaData w /\ eTransState w' = eTransState w.

Lemma changed_ext w w0 w' pt t t' : nodes w0 = nodes w -> trees w0 = trees w -> same_base w w0 ->
  changed w0 w' pt t t' -> changed w w' pt t t'.
Proof.
  intros En Et Hb [Hb' H1 H2 H3 H4 H5 H6 H7]. rewrite En, Et in *. split; try done. by eapply base_trans.
Qed.

(** What an operation on the table [n] leads to: the table is [m], the cursors are [l],
    and the log has an entry that undoes it. *)
Definition after_op (w w' : Rbtree) (Ts : tabs) (L : option addr) (self : addr) (n : Z) (m : table) (l : list (addr * Cur)) : Prop :=
  exists Ts' op, (wrFlag <$> cursors w' !! self = Some true) /\ db_inv w' Ts' /\ contents Ts' = <[n := m]> (contents Ts) /\ curs_inv w' Ts' L l /\
    (forall n', is_Some (Ts' !! n') <-> is_Some (Ts !! n')) /\ same_rest w w' /\
    log_of w' = log_of (logged op w) /\ iTab op = n /\ undo_op op (contents Ts') = Some (contents Ts).

Lemma lookup_insert_is_Some_same (Ts : tabs) n x n' : is_Some (Ts !! n) ->
  is_Some (<[n := x]> Ts !! n') <-> is_Some (Ts !! n').
Proof. intros H. rewrite lookup_insert_is_Some. destruct (decide (n = n')); naive_solver. Qed.

Section Records.
Context (w : Rbtree) (Ts : tabs) (L : option addr) (l : list (addr * Cur)) (self : addr) (c : RbtCursor) (t : T).
Context (Hdb : db_inv w Ts) (Hcu : curs_inv w Ts L l) (Htr : in_trans (eTransState w)).
Context (Hc : cursors w !! self = Some c) (HT : Ts !! iTree c = Some (pTree c, t)).

(** The end of a change of the tree of [self], given the lists after the locks [l]. *)
Lemma finish_op w1 w' t' c' cu' op m :
  (forall p cu, (p, cu) ∈ l -> c_tab cu = iTree c -> p <> self -> c_pos cu = None) ->
  nodes w1 = nodes w -> trees w1 = trees w -> same_base w w1 ->
  changed w1 w' (pTree c) t t' -> ordered (elems t') -> table_of (elems t') = m ->
  cursors w' = <[self := c']> (cursors w) -> log_of w' = log_of (logged op w) ->
  wrFlag c' = true -> iTab op = iTree c -> undo_op op (<[iTree c := m]> (contents Ts)) = Some (contents Ts) ->
  (forall cu, (self, cu) ∈ l -> c_tab cu = c_tab cu' /\ cur_rel (<[iTree c := (pTree c, t')]> Ts) c' cu') ->
  after_op w w' Ts L self (iTree c) m (set_cur self cu' l).
Proof.
  intros Hfree En Et Hb Hch Hord Hm Hcs Hl Hw Hop Hun Hself.
  pose proof (changed_ext w w1 w' _ _ _ En Et Hb Hch) as Hch'.
  exists (<[iTree c := (pTree c, t')]> Ts), op. split; [by rewrite Hcs, lookup_insert_eq; cbn; rewrite Hw|]. split; [by eapply db_update|].
  rewrite contents_insert, Hm. split; [done|]. split.
  { eapply curs_change; [exact Hcu|exact HT|exact Hch'|exact Hcs|by eexists|exact Hfree|exact Hself|].
    intros n' t1 H1. by eapply (i_inj _ _ Hdb). }
  split; [intros n'; apply lookup_insert_is_Some_same; by eexists|].
  split; [destruct (ch_base _ _ _ _ _ Hch'); done|].
  done.
Qed.
End Records.

Lemma after_op_cursors cs w w' Ts L self n m l : after_op (set_cursors cs w) w' Ts L self n m l -> after_op w w' Ts L self n m l.
Proof.
  intros (Ts' & op & H0 & H1 & H2 & H3 & H4 & H5 & H6 & H7). exists Ts', op. repeat (split; [done|]).
  split; [|done]. rewrite H6. unfold logged. cbn. by repeat case_match.
Qed.

(** The cursor of an operation, as the client sees it. *)
Lemma self_rel w Ts L l self c cu : curs_inv w Ts L l -> cursors w !! self = Some c -> (self, cu) ∈ l ->
  cur_rel Ts c cu.
Proof. intros Hi Hc Hin. destruct (k_rel _ _ _ _ Hi _ _ Hin) as (c0 & Hc0 & H). congruence. Qed.

Lemma self_goto w Ts L l self c cu n t' x k : curs_inv w Ts L l -> cursors w !! self = Some c -> (self, cu) ∈ l ->
  iTree c = n -> wrFlag c = true -> x ∈ elems t' -> e_key x = k -> forall sk,
  c_tab cu = c_tab (mkCur n (Some k) sk true) /\
  cur_rel (<[n := (pTree c, t')]> Ts) (mkCursor (pTree c) (iTree c) (Some (e_addr x)) sk (wrFlag c)) (mkCur n (Some k) sk true).
Proof.
  intros Hi Hc Hin Hn Hw Hx Hk sk. destruct (self_rel _ _ _ _ _ _ _ Hi Hc Hin) as [R1 R2 R3 _].
  split; [cbn; congruence|]. split; cbn; try done. exists t'. rewrite lookup_insert_eq. split; [done|]. by exists x.
Qed.

Section Operations.
Context (w : Rbtree) (Ts : tabs) (L : option addr) (l : list (addr * Cur)) (self : addr) (c : RbtCursor) (t : T).
Context (Hdb : db_inv w Ts) (Hcu : curs_inv w Ts L l) (Htr : in_trans (eTransState w)).
Context (Hc : cursors w !! self = Some c) (HT : Ts !! iTree c = Some (pTree c, t)) (Hw : wrFlag c = true).
Notation n := (iTree c).
Notation m := (table_of (elems t)).

(** What is there once the locks are passed. *)
Lemma wp_locked (k : M Rbtree Z) (Q : Z -> Rbtree -> Prop) C :
  ((lock_table self n l).1 = true -> forall cs', curs_inv (set_cursors cs' w) Ts L (lock_table self n l).2 ->
     Q SQLITE_LOCKED (set_cursors cs' w)) ->
  ((lock_table self n l).1 = false -> forall cs', curs_inv (set_cursors cs' w) Ts L (lock_table self n l).2 ->
     cs' !! self = Some c -> wp k Q C (set_cursors cs' w)) ->
  wp (lock ← checkReadLocks self; if negb (lock =? SQLITE_OK) then mret SQLITE_LOCKED else k) Q C w.
Proof.
  intros H1 H2. steps. eapply (wp_checkReadLocks w Ts L self n c l t); [done..|].
  intros cs' Hi Hs. destruct (lock_table self n l).1 eqn:E; cbn; steps; eauto.
Qed.

Lemma wp_insert_db k v (Q : Z -> Rbtree -> Prop) C :
  ((lock_table self n l).1 = true -> forall cs', curs_inv (set_cursors cs' w) Ts L (lock_table self n l).2 ->
     Q SQLITE_LOCKED (set_cursors cs' w)) ->
  ((lock_table self n l).1 = false -> forall w',
     after_op w w' Ts L self n (<[k := v]> m) (set_cur self (mkCur n (Some k) SKIP_NONE true) (lock_table self n l).2) ->
     Q SQLITE_OK w') ->
  wp (memRbtreeInsert self k v) Q C w.
Proof.
  intros HQ1 HQ2. unfold memRbtreeInsert. steps.
  destruct (trans_state_cases w Htr) as [Hnone _]. rewrite Hnone. apply wp_assert; [done|]. 
  apply wp_locked; [exact HQ1|]. intros Hb cs' Hi Hs. specialize (HQ2 Hb).
  pose proof (lock_table_free _ _ _ Hb) as Hfree. set (l1 := (lock_table self n l).2) in *.
  destruct (i_tree _ _ Hdb _ _ _ HT) as (Hh & Hv & Ho). set (w1 := set_cursors cs' w) in *.
  assert (Hdb1 : db_inv w1 Ts) by by apply (db_inv_ext w).
  assert (Hh1 : holds w1 (pTree c) t) by by apply (holds_ext w).
  pose proof (i_fail _ _ Hdb1) as Hnf.
  steps. apply wp_sqliteMallocRaw; [done|]. steps. cbn [malloc_failed w1 set_cursors]. rewrite (proj2 (i_fail _ _ Hdb)).
  steps. eapply wp_moveto; [exact Hs|exact Hh1|exact Ho|..].
  - intros b lt e r fs Et Hk. cbn. set (c2 := goto _ c). set (w2 := put self c2 w1).
    assert (Hm : m !! k = Some (e_data e)).
    { rewrite <- Hk. apply table_of_in; [done|]. rewrite Et, elems_plug. cbn [elems]. set_solver. }
    rewrite Et in Hh1, Hv, Ho.
    eapply (wp_replace_data self w2 c2 b lt e r fs v); [apply put_lookup|done|exact Htr|by apply holds_put|exact Hv|done|].
    intros w' Hch Hcs Hlog. apply HQ2.
    assert (Ees : exists A B, elems (plug (N b lt e r) fs) = A ++ e :: B /\
      elems (plug (N b lt (with_record (e_key e) v e) r) fs) = A ++ with_record (e_key e) v e :: B).
    { exists (lefts fs ++ elems lt), (elems r ++ rights fs). rewrite !elems_plug. cbn [elems]. split; by flatten. }
    destruct Ees as (A & B & E1 & E2).
    rewrite E1 in Ho. destruct (ordered_record A e B v Ho) as [Hord Hm'].
    assert (HTm : contents Ts !! n = Some m) by by eapply contents_lookup.
    rewrite Et in HT. apply (after_op_cursors cs').
    eapply (finish_op w1 Ts L l1 self c _ Hdb1 Hi Hs HT w2 w' _ c2); try done.
    + by rewrite E2.
    + rewrite E2, Hm', Et, E1, Hk. done.
    + rewrite Hlog. by apply logged_log_of.
    + done.
    + cbn. rewrite Hk. by apply undo_insert.
    + intros cu Hin. apply (self_goto w1 Ts L l1 self c cu n _ (with_record (e_key e) v e) k Hi Hs Hin eq_refl Hw); [|done].
      rewrite E2. set_solver.
  - intros fs Et [Hb1 Hb2]. rewrite dir_nonzero. cbn. set (c2 := goto _ c). set (w2 := put self c2 w1).
    rewrite Et in Hh1, Hv, Ho. rewrite elems_plug in Ho. cbn [elems app] in Ho.
    eapply (wp_insert_new_node self w2 c2 fs k v); [apply put_lookup|done|exact Htr|by apply holds_put|exact Hv|done|].
    intros w' t' a h Hch Et' Hcs Hlog. apply HQ2. set (e := mkEntry a k v h) in *.
    destruct (ordered_insert (lefts fs) e (rights fs) Ho Hb1 Hb2) as [Hord Hnin].
    assert (HTm : contents Ts !! n = Some m) by by eapply contents_lookup.
    assert (Em : m = table_of (lefts fs ++ rights fs)) by by rewrite Et, elems_plug.
    rewrite Et in HT. apply (after_op_cursors cs').
    eapply (finish_op w1 Ts L l1 self c _ Hdb1 Hi Hs HT w2 w' t' (goto (Some a) c)); try done.
    + by rewrite Et'.
    + rewrite Et', table_of_insert, Em by done. done.
    + rewrite Hcs. cbn. by rewrite insert_insert_eq.
    + rewrite Hlog. by apply logged_log_of.
    + done.
    + cbn. apply undo_delete; [done|]. rewrite Em. by apply table_of_none.
    + intros cu Hin. apply (self_goto w1 Ts L l1 self c cu n _ e k Hi Hs Hin eq_refl Hw); [|done].
      rewrite Et'. set_solver.
Qed.

(** Where [memRbtreeDelete] leaves a cursor that was at [k]. *)
Definition off (k : list Z) : Cur :=
  match next_key m k with
  | Some k' => mkCur n (Some k') SKIP_NEXT true
  | None => mkCur n (prev_key m k) SKIP_PREV true
  end.

Lemma moved_off_rel w1 l1 b lt e r fs t' p sk :
  curs_inv w1 Ts L l1 -> cursors w1 !! self = Some c -> t = plug (N b lt e r) fs -> ordered (elems t) ->
  removed lt e r fs (elems t') -> moved_off lt r fs (elems t') p sk -> forall cu, (self, cu) ∈ l1 ->
  c_tab cu = c_tab (off (e_key e)) /\
  cur_rel (<[n := (pTree c, t')]> Ts) (mkCursor (pTree c) n p sk (wrFlag c)) (off (e_key e)).
Proof.
  intros Hi Hs Et Ho Hrem Hoff cu Hin. destruct (self_rel _ _ _ _ _ _ _ Hi Hs Hin) as [R1 R2 R3 _].
  assert (Ees : elems t = (lefts fs ++ elems lt) ++ e :: elems r ++ rights fs).
  { rewrite Et, elems_plug. cbn [elems]. by flatten. }
  unfold off. rewrite Ees in Ho |- *. rewrite next_key_here, prev_key_here by done.
  unfold moved_off in Hoff. destruct (elems r ++ rights fs) as [|s B] eqn:EB; cbn [head fmap option_fmap option_map].
  - destruct Hoff as [-> ->]. split; [done|]. split; cbn; try done.
    exists t'. rewrite lookup_insert_eq. split; [done|]. unfold removed in Hrem. rewrite EB in Hrem.
    destruct Hrem as [E1|(s & B & [=] & _)]. rewrite E1, app_nil_r.
    unfold last_addr. destruct (last _) as [x|] eqn:El; [|done]. cbn. exists x. split; [|done].
    by apply last_Some_elem_of.
  - destruct Hoff as [-> (x & Hx & -> & Hk)]. split; [done|]. split; cbn; try done.
    exists t'. rewrite lookup_insert_eq. split; [done|]. cbn. eauto.
Qed.

Lemma wp_delete_db (Q : Z -> Rbtree -> Prop) C :
  ((lock_table self n l).1 = true -> forall cs', curs_inv (set_cursors cs' w) Ts L (lock_table self n l).2 ->
     Q SQLITE_LOCKED (set_cursors cs' w)) ->
  ((lock_table self n l).1 = false -> forall cs', curs_inv (set_cursors cs' w) Ts L (lock_table self n l).2 ->
     pNode c = None -> Q SQLITE_OK (set_cursors cs' w)) ->
  ((lock_table self n l).1 = false -> forall w' e, e ∈ elems t -> pNode c = Some (e_addr e) ->
     after_op w w' Ts L self n (delete (e_key e) m) (set_cur self (off (e_key e)) (lock_table self n l).2) ->
     Q SQLITE_OK w') ->
  match pNode c with Some a => exists e, e ∈ elems t /\ a = e_addr e | None => True end ->
  wp (memRbtreeDelete self) Q C w.
Proof.
  intros HQ1 HQ2 HQ3 Hp. unfold memRbtreeDelete. steps.
  destruct (trans_state_cases w Htr) as [Hnone Hst]. rewrite Hnone. apply wp_assert; [done|].
  apply wp_locked; [exact HQ1|]. intros Hb cs' Hi Hs. specialize (HQ2 Hb). specialize (HQ3 Hb).
  pose proof (lock_table_free _ _ _ Hb) as Hfree. set (l1 := (lock_table self n l).2) in *.
  destruct (i_tree _ _ Hdb _ _ _ HT) as (Hh & Hv & Ho). set (w1 := set_cursors cs' w) in *.
  assert (Hdb1 : db_inv w1 Ts) by by apply (db_inv_ext w).
  assert (Hh1 : holds w1 (pTree c) t) by by apply (holds_ext w).
  steps. destruct (pNode c) as [a|] eqn:Ep; [|steps; by apply HQ2].
  destruct Hp as (e & Hin & ->). apply list_elem_of_split in Hin as (A & B & Ees).
  destruct (find_place _ _ _ _ Ees) as (b & lt & r & fs & Et & EA & EB).
  assert (Hat : tree_at (nodes w) None t) by apply Hh. rewrite Et in Hat. apply tree_at_plug in Hat as [(Hx & _ & _) _].
  steps. set (op := mkOp ROLLBACK_INSERT n (e_key e) (e_data e)).
  assert (Hfin : wp (pZ ← vacate self (e_addr e) (to_node b (top fs) lt e r); remove_node (pTree c) pZ;; mret SQLITE_OK)
    Q C (logged op w1)).
  { assert (Hh2 : holds (logged op w1) (pTree c) (plug (N b lt e r) fs)).
    { rewrite <- Et. eapply holds_ext; [apply logged_nodes|apply logged_trees|done]. }
    assert (Hs2 : cursors (logged op w1) !! self = Some c) by by rewrite logged_cursors.
    rewrite Et in Hv.
    assert (Hdone : after_delete self (logged op w1) c b lt e r fs Q).
    { intros w' t' p sk Hch Hrem Hoff Hcs Hlog. apply (HQ3 w' e); [rewrite Ees; set_solver|done|].
      apply (after_op_cursors cs'). fold w1.
      assert (Hr : removed lt e r fs (elems t')) by done.
      unfold removed in Hrem. rewrite <- EA, <- EB in Hrem. rewrite Ees in Ho.
      destruct (ordered_removed A e B (elems t') Ho Hrem) as [Hord Hm'].
      rewrite <- Ees in Ho, Hm'.
      eapply (finish_op w1 Ts L l1 self c t Hdb1 Hi Hs HT (logged op w1) w' t' (mkCursor (pTree c) n p sk (wrFlag c)) _ op); try done.
      - apply logged_nodes.
      - apply logged_trees.
      - apply base_logged.
      - by rewrite Et.
      - by rewrite Hcs, logged_cursors.
      - apply undo_reinsert; [by eapply contents_lookup|]. apply table_of_in; [done|]. rewrite Ees. set_solver.
      - intros cu Hin. by eapply moved_off_rel. }
    destruct lt as [|b1 l2 e2 r2] eqn:El; [|destruct r as [|b2 l3 e3 r3] eqn:Er].
    - eapply wp_delete_outer; eauto.
    - eapply wp_delete_outer; eauto.
    - eapply wp_delete_inner; eauto. }
  destruct Hst as [[-> Er]|[-> Er]]; cbn [negb].
  - steps. rewrite logged_rollback in Hfin by done. exact Hfin.
  - steps. apply wp_sqliteMalloc; [apply Hdb1|]. cbn [negb]. steps. apply wp_log; [done..|]. steps. exact Hfin.
Qed.
End Operations.
