(* ===== verification/RbClear.v ===== *)
(** Clearing a table ([memRbtreeClearTable]: every node of a tree is freed, and every
    record logged), creating and dropping tables. *)
From S2P Require Import Prelude Util Hash HashKey HashList HashSpec HashMap OsFile Rbtree RbShape RbRotate RbInsert RbDelete RbOrder RbCursor RbTable RbUpdate RbSpec RbDb RbLog.

(** * Logging several operations *)

(** The last operation logged comes first. *)
Fixpoint log_all (ops : list BtRollbackOp) (w : Rbtree) : Rbtree :=
  match ops with [] => w | op :: ops' => logged op (log_all ops' w) end.

Lemma log_all_trans ops w : eTransState (log_all ops w) = eTransState w.
Proof. induction ops as [|op ops IH]; [done|]. cbn. rewrite <- IH. apply sb_trans, base_logged. Qed.

Lemma log_all_log_of ops w w' : log_of w' = log_of w -> eTransState w' = eTransState w ->
  log_of (log_all ops w') = log_of (log_all ops w).
Proof.
  intros Hl Ht. induction ops as [|op ops IH]; [done|]. cbn. apply logged_log_of; [exact IH|].
  by rewrite !log_all_trans.
Qed.

Lemma log_all_app ops1 ops2 w : log_all (ops1 ++ ops2) w = log_all ops1 (log_all ops2 w).
Proof. induction ops1 as [|op ops1 IH]; [done|]. cbn. by rewrite IH. Qed.

(** Logging, unless a rollback is going on. *)
Lemma wp_log_unless w op (Q : Z -> Rbtree -> Prop) C : no_fail w -> in_trans (eTransState w) -> Q SQLITE_OK (logged op w) ->
  wp (if eTransState w =? TRANS_ROLLBACK then mret SQLITE_OK else
      ok ← sqliteMalloc; if negb ok then mret SQLITE_NOMEM else btreeLogRollbackOp op;; mret SQLITE_OK) Q C w.
Proof.
  intros Hnf Htr HQ. destruct (trans_state_cases w Htr) as [_ [[-> Er]|[-> Er]]].
  - steps. by rewrite logged_rollback in HQ.
  - steps. apply wp_sqliteMalloc; [done|]. cbn [negb]. steps. apply wp_log; [done..|]. by steps.
Qed.

(** * The loop *)

(** The entry of the log for a record of table [n]. *)
Definition undo_ins (n : Z) (e : entry) : BtRollbackOp := mkOp ROLLBACK_INSERT n (e_key e) (e_data e).

Record cleared (w w' : Rbtree) (n : Z) (es : list entry) : Prop := {
  cl_base : same_base w w';
  cl_trees : trees w' = trees w;
  cl_cursors : cursors w' = cursors w;
  cl_gone : forall x, x ∈ addrs es -> nodes w' !! x = None;
  cl_out : forall x, x ∉ addrs es -> nodes w' !! x = nodes w !! x;
  cl_log : exists es', es' ≡ₚ es /\ log_of w' = log_of (log_all (undo_ins n <$> es') w)
}.

Lemma cleared_nil w n : cleared w w n [].
Proof. split; try done. { by intros x ?%elem_of_nil. } by exists []. Qed.

Lemma cleared_step w w1 w' n e es1 es2 : cleared w1 w' n (es1 ++ es2) -> same_base w w1 -> trees w1 = trees w ->
  cursors w1 = cursors w -> nodes w1 !! e_addr e = None -> e_addr e ∉ addrs (es1 ++ es2) ->
  (forall x, x ∉ addrs (es1 ++ e :: es2) -> nodes w1 !! x = nodes w !! x) ->
  log_of w1 = log_of (logged (undo_ins n e) w) -> cleared w w' n (es1 ++ e :: es2).
Proof.
  intros [Hb Ht Hc Hg Ho (es' & Hp & Hl)] Hb1 Ht1 Hc1 Hn1 Hne Ho1 Hl1. split; try congruence.
  - by eapply base_trans.
  - intros x Hx. destruct (decide (x ∈ addrs (es1 ++ es2))) as [|Hx']; [by apply Hg|].
    rewrite Ho by done. rewrite addrs_app, addrs_cons in Hx. rewrite addrs_app in Hx'. set_unfold.
    assert (x = e_addr e) as -> by tauto. done.
  - intros x Hx. rewrite Ho, Ho1; [done|done|]. rewrite addrs_app, addrs_cons in Hx. rewrite addrs_app. set_solver.
  - exists (es' ++ [e]). split; [by rewrite <- Permutation_cons_append, Hp, Permutation_middle|].
    rewrite Hl, fmap_app, log_all_app. apply log_all_log_of; [exact Hl1|].
    rewrite (sb_trans _ _ Hb1). symmetry. apply log_all_trans.
Qed.

(** The link to a leaf that was freed is cut. *)
Lemma wp_cut_leaf w a fs (Q : unit -> Rbtree -> Prop) C :
  way_at (nodes w) (Some a) fs -> NoDup (addrs (lefts fs ++ rights fs)) -> a ∉ addrs (lefts fs ++ rights fs) ->
  (forall h, way_at h None fs -> (forall x, x ∉ addrs (lefts fs ++ rights fs) -> h !! x = nodes w !! x) ->
     Q tt (set_nodes h w)) ->
  wp (match top fs with
      | Some t =>
          p ← node t;
          if bool_decide (pLeft p = Some a) then upd_node t (set_pLeft None)
          else mwhen (bool_decide (pRight p = Some a)) (upd_node t (set_pRight None))
      | None => mret tt
      end) Q C w.
Proof.
  intros Hw Hnd Hx HQ. destruct fs as [|f fs]; cbn [top].
  { rstep. replace w with (set_nodes (nodes w) w) by by destruct w. by apply HQ. }
  assert (exists n, nodes w !! e_addr (frame_entry f) = Some n) as [n Hn] by (destruct f; destruct Hw; eauto).
  assert (Hf : forall g : BtRbNode -> BtRbNode, g n = set_hole f None n ->
    Q tt (set_nodes (<[e_addr (frame_entry f) := g n]> (nodes w)) w)).
  { intros g Hg. apply HQ.
    - eapply way_at_refill; [exact Hw|exact Hnd|..].
      + intros z _ Hz. by rewrite lookup_insert_ne.
      + intros n' Hn'. rewrite lookup_insert_eq, Hg. congruence.
    - intros z Hz. apply lookup_insert_ne. intros <-. destruct f; nodups; set_solver. }
  rsteps. destruct f as [b e r|b l e]; destruct Hw as [Hn' Hw]; cbn [frame_entry set_hole] in *;
    rewrite Hn in Hn'; injection Hn' as ->; cbn [pLeft pRight] in *.
  - rewrite bool_decide_eq_true_2 by done. rsteps. by apply Hf.
  - rewrite bool_decide_eq_false_2.
    + rewrite bool_decide_eq_true_2 by done. cbn [mwhen]. rsteps. by apply Hf.
    + destruct l as [|bl ll el lr]; [done|]. intros [= E]. nodups. set_solver.
Qed.

(** How many steps are left when the loop is at [t] below [fs]. *)
Definition siblings (fs : list frame) : nat := sum_list_with (fun f => length (elems (frame_sibling f))) fs.
Definition cost (t : T) (fs : list frame) : nat := 2 * length (elems t) + length fs + 2 * siblings fs.

Lemma wp_clear_table_loop n fuel : forall t fs w (Q : Z -> Rbtree -> Prop) C,
  no_fail w -> in_trans (eTransState w) -> tree_at (nodes w) None (plug t fs) -> NoDup (addrs (elems (plug t fs))) ->
  (t = E -> fs = []) -> (cost t fs <= fuel)%nat ->
  (forall w', cleared w w' n (elems (plug t fs)) -> Q SQLITE_OK w') ->
  wp (clear_table_loop fuel n (root t)) Q C w.
Proof.
  induction fuel as [|fuel IH]; intros t fs w Q C Hnf Htr Hat Hnd Hne Hc HQ.
  { destruct t as [|b l e r]; [rewrite (Hne eq_refl) in *; apply wp_ret, HQ, cleared_nil|].
    unfold cost in Hc. cbn [elems] in Hc. rewrite length_app in Hc. cbn in Hc. lia. }
  destruct t as [|b l e r]; [rewrite (Hne eq_refl) in *; apply wp_ret, HQ, cleared_nil|].
  pose proof Hat as Hat'. apply tree_at_plug in Hat' as [(Hx & Hl & Hr) Hw].
  cbn [clear_table_loop root]. steps. cbn [to_node pLeft pRight].
  unfold cost in Hc. cbn [elems] in Hc. rewrite length_app in Hc. cbn [length] in Hc.
  destruct l as [|lb ll le lr]; [destruct r as [|rb rl re rr]|]; cbn [root].
  - steps. cbn [to_node pParent pKey pData]. apply wp_log_unless; [done..|].
    change (mkOp _ _ _ _) with (undo_ins n e). cbn [negb Z.eqb SQLITE_OK]. unfold free_node. steps.
    rewrite elems_plug in Hnd, HQ. cbn [elems app] in Hnd, HQ.
    pose proof (nodup_place _ [e] _ Hnd) as (_ & Hnd2 & Hap).
    assert (He : e_addr e ∉ addrs (lefts fs ++ rights fs)) by (apply Hap; cbn; by left).
    eapply wp_node; [rewrite logged_nodes; exact Hx|]. steps. apply wp_rupd. rewrite logged_nodes.
    set (w1 := set_nodes _ _).
    steps. eapply (wp_cut_leaf w1 (e_addr e) fs); [|done|done|].
    { eapply way_at_ext; [exact Hw|]. intros x Hx'. apply lookup_delete_ne. by intros <-. }
    intros h Hw' Hh. steps.
    assert (Hpost : forall w', cleared (set_nodes h w1) w' n (lefts fs ++ rights fs) -> Q SQLITE_OK w').
    { intros w' Hcl. apply HQ. eapply cleared_step; [exact Hcl|..]; cbn [nodes trees cursors set_nodes w1]; try done.
      - eapply base_trans; [apply (base_logged (undo_ins n e))|by split].
      - apply logged_trees.
      - apply logged_cursors.
      - rewrite Hh by done. apply lookup_delete_eq.
      - intros x Hx'. rewrite addrs_app, addrs_cons in Hx'. rewrite Hh by (rewrite addrs_app; set_solver).
        apply lookup_delete_ne. intros <-. set_solver. }
    destruct fs as [|f fs]; cbn [top].
    { destruct fuel; apply wp_ret, Hpost; apply cleared_nil. }
    assert (Epl : plug E (f :: fs) = plug (fill f E) fs) by done.
    assert (Er : Some (e_addr (frame_entry f)) = root (fill f E)) by by destruct f. rewrite Er.
    apply (IH (fill f E) fs); cbn [nodes set_nodes]; rewrite <- ?Epl.
    + eapply no_fail_base; [|exact Hnf]. eapply base_trans; [apply (base_logged (undo_ins n e))|by split].
    + cbn. by rewrite (sb_trans _ _ (base_logged (undo_ins n e) w)).
    + apply tree_at_plug. split; [done|exact Hw'].
    + by rewrite elems_plug.
    + by destruct f.
    + unfold cost, siblings in *. cbn [sum_list_with length] in Hc.
      assert (length (elems (fill f E)) = S (length (elems (frame_sibling f)))) as ->; [|lia].
      destruct f; cbn [fill elems frame_sibling]; [done|]. rewrite length_app. cbn. lia.
    + rewrite elems_plug. exact Hpost.
  - apply (IH (N rb rl re rr) (FR b E e :: fs)); try done.
    unfold cost, siblings in *. cbn [sum_list_with frame_sibling elems length] in *. lia.
  - assert (H : wp (clear_table_loop fuel n (root (N lb ll le lr))) Q C w).
    { apply (IH (N lb ll le lr) (FL b e r :: fs)); try done.
      unfold cost, siblings in *. cbn [sum_list_with frame_sibling length] in *. lia. }
    exact H.
Qed.

(** * Clearing a table *)

(** The tables may be changed by an operation whose log is [ops]. *)
Record logged_step (w w' : Rbtree) (Ts Ts' : tabs) (n : Z) (ops : list BtRollbackOp) : Prop := {
  ls_inv : db_inv w' Ts';
  ls_log : log_of w' = log_of (log_all ops w);
  ls_undo : undo_list ops (contents Ts') = Some (contents Ts);
  ls_tab : Forall (fun op => iTab op = n) ops;
  ls_meta : aMetaData w' = aMetaData w;
  ls_trans : eTransState w' = eTransState w;
  ls_cursors : cursors w' = cursors w
}.

Lemma undo_ins_all n es : forall m ts, NoDup (keys es) ->
  undo_list (undo_ins n <$> es) (<[n := m]> ts) = Some (<[n := table_of es ∪ m]> ts).
Proof.
  induction es as [|e es IH]; intros m ts Hnd; cbn [fmap list_fmap undo_list].
  { unfold table_of. cbn. by rewrite (left_id_L ∅ (∪)). }
  cbn in Hnd. apply NoDup_cons in Hnd as [Hk Hnd]. unfold undo_op. cbn. rewrite lookup_insert_eq. cbn.
  rewrite insert_insert_eq, IH by done. do 2 f_equal. unfold table_of. cbn.
  rewrite <- insert_union_r by (by apply table_of_none). by rewrite insert_union_l.
Qed.

Lemma table_of_perm es es' : es ≡ₚ es' -> NoDup (keys es) -> table_of es = table_of es'.
Proof.
  intros Hp Hnd. unfold table_of. apply list_to_map_proper; [by rewrite fst_table|by rewrite Hp].
Qed.

Lemma valid_E : valid E.
Proof. split; [done|]. by exists 0%nat. Qed.

(** Cursors that are at no record do not see a change. *)
Lemma curs_keep w w' Ts L l n pt t t' : curs_inv w Ts L l -> Ts !! n = Some (pt, t) -> changed w w' pt t t' ->
  cursors w' = cursors w -> (forall p cu, (p, cu) ∈ l -> c_tab cu = n -> c_pos cu = None) ->
  (forall n' t1, Ts !! n' = Some (pt, t1) -> n' = n) -> curs_inv w' (<[n := (pt, t')]> Ts) L l.
Proof.
  intros [Hn Hd Hl Hr Hs] HT Hch Hcs Hpos Hinj. split; rewrite ?Hcs; try done.
  - intros p cu Hin. destruct (Hr _ _ Hin) as (c & Hc & [R1 R2 R3 (t0 & R4 & R5)]). exists c. split; [done|].
    split; [done..|]. destruct (decide (c_tab cu = n)) as [Htab|Htab].
    + exists t'. rewrite Htab, lookup_insert_eq. rewrite Htab, HT in R4. injection R4 as <- <-.
      split; [done|]. rewrite (Hpos _ _ Hin Htab) in *. by destruct (pNode c).
    + exists t0. by rewrite lookup_insert_ne.
  - intros n' pt' t1. destruct (decide (n' = n)) as [->|Hne].
    + rewrite lookup_insert_eq. intros [= <- <-]. rewrite (ch_cursors _ _ _ _ _ Hch). by eapply Hs.
    + rewrite lookup_insert_ne by done. intros HT'. rewrite (ch_trees _ _ _ _ _ Hch); [by eapply Hs|].
      intros ->. by eapply Hne, Hinj.
Qed.

Lemma wp_clear_db w Ts L l n pt t (Q : Z -> Rbtree -> Prop) C :
  db_inv w Ts -> curs_inv w Ts L l -> in_trans (eTransState w) -> Ts !! n = Some (pt, t) ->
  (forall p cu, (p, cu) ∈ l -> c_tab cu = n -> c_pos cu = None) ->
  (forall w' ops, logged_step w w' Ts (<[n := (pt, E)]> Ts) n ops -> next_idx w' = next_idx w ->
     curs_inv w' (<[n := (pt, E)]> Ts) L l -> Q SQLITE_OK w') ->
  wp (memRbtreeClearTable n) Q C w.
Proof.
  intros Hdb Hcu Htr HT Hpos HQ. destruct (i_tree _ _ Hdb _ _ _ HT) as (Hh & Hv & Ho).
  destruct (holds_head _ _ _ Hh) as (tr & Htr' & Hhd). pose proof (holds_size _ _ _ Hh) as Hsz.
  unfold memRbtreeClearTable. steps.
  eapply (wp_tbl_find w Ts); [apply Hdb|apply Hdb|by eapply (i_int _ _ Hdb)|]. rewrite HT. cbn [fmap option_fmap option_map fst].
  steps. rewrite Hhd.
  eapply (wp_clear_table_loop n _ t []); [apply Hdb|done|apply Hh|apply Hh|done| |].
  { unfold cost, siblings. cbn. lia. }
  cbn [plug]. intros w' [Hb Ht Hc Hg Hout (es' & Hp & Hl)]. cbn [negb Z.eqb SQLITE_OK]. steps.
  eapply wp_upd_tree; [by rewrite Ht|]. steps. set (w2 := set_trees _ _).
  assert (Hch : changed w w2 pt t E).
  { split; cbn [nodes trees set_trees w2 elems]; rewrite ?Ht, ?lookup_insert_eq, ?Htr'; try done.
    - eapply base_trans; [exact Hb|by split].
    - split; cbn [nodes trees set_trees w2 elems]; rewrite ?Ht, ?lookup_insert_eq; [done|done|constructor].
    - apply valid_E.
    - intros x Hx _. by apply Hout.
    - intros x Hx _. by apply Hg.
    - intros x Hx. by apply elem_of_nil in Hx.
    - intros q Hq. by rewrite lookup_insert_ne. }
  pose proof (ordered_nodup _ Ho) as Hnd.
  assert (Hnd' : NoDup (keys es')) by (unfold keys; by rewrite Hp).
  apply (HQ w2 (undo_ins n <$> es')); [|by rewrite (sb_next _ _ (ch_base _ _ _ _ _ Hch))|].
  - split; try apply (ch_base _ _ _ _ _ Hch).
    + eapply db_update; [exact Hdb|exact HT|exact Hch|constructor].
    + exact Hl.
    + rewrite contents_insert, undo_ins_all by done. f_equal.
      change (table_of (elems E)) with (∅ : table). rewrite (right_id_L ∅ (∪)), (table_of_perm es' (elems t)) by done.
      apply insert_id. by eapply contents_lookup.
    + apply Forall_fmap, Forall_true. done.
    + exact Hc.
  - eapply curs_keep; [exact Hcu|exact HT|exact Hch|exact Hc|exact Hpos|].
    intros n' t1 H1. by eapply (i_inj _ _ Hdb).
Qed.

(** Creating and dropping tables. *)

(** * The database with one table more, and with one less *)

Lemma db_insert w w' Ts n q : db_inv w Ts -> Ts !! n = None -> is_int32 n -> trees w !! q = None ->
  no_fail w' -> hash_tables (tblHash w') (<[n := (q, E)]> Ts) -> nodes w' = nodes w ->
  trees w' = <[q := mkTree [] None]> (trees w) -> db_inv w' (<[n := (q, E)]> Ts).
Proof.
  intros [If Ih Ii It Ij Is In Iq] Hn Hint Hq Hnf Hh En Et.
  assert (Hne : forall n' pt t, Ts !! n' = Some (pt, t) -> pt <> q /\ n' <> n).
  { intros n' pt t H. split; [|congruence]. intros ->.
    destruct (proj2 (Iq q)) as [? ?]; [by exists n', t|congruence]. }
  split; rewrite ?En, ?Et; try done.
  - intros n' x [[-> _]|[_ H]]%lookup_insert_Some; [done|by eapply Ii].
  - intros n' pt t [[-> [= <- <-]]|[_ H]]%lookup_insert_Some.
    + split; [|split; [apply valid_E|constructor]].
      split; rewrite ?Et, ?lookup_insert_eq; [done|done|constructor].
    + destruct (It _ _ _ H) as (H1 & H2 & H3). split; [|done]. destruct (Hne _ _ _ H) as [Hpq _].
      eapply holds_other; [by intros; rewrite En|by rewrite Et, lookup_insert_ne|exact H1].
  - intros n1 n2 pt t1 t2 [[-> [= <- <-]]|[_ H1]]%lookup_insert_Some [[-> [=]]|[_ H2]]%lookup_insert_Some; try done.
    + by destruct (Hne _ _ _ H2).
    + subst. by destruct (Hne _ _ _ H1).
    + by eapply Ij.
  - intros n1 n2 p1 p2 t1 t2 x [[-> [= <- <-]]|[_ H1]]%lookup_insert_Some [[-> [=]]|[_ H2]]%lookup_insert_Some; try done.
    + by intros ?%elem_of_nil.
    + subst. by intros _ ?%elem_of_nil.
    + by eapply Is.
  - intros x. rewrite In. split; intros (n' & pt & t & H & Hx); exists n', pt, t; (split; [|done]).
    + rewrite lookup_insert_ne; [done|]. by destruct (Hne _ _ _ H).
    + apply lookup_insert_Some in H as [[-> [= <- <-]]|[_ H]]; [by apply elem_of_nil in Hx|done].
  - intros p. rewrite lookup_insert_is_Some, Iq. split.
    + intros [->|[Hp (n' & t & H)]]; [exists n, E; by rewrite lookup_insert_eq|].
      exists n', t. rewrite lookup_insert_ne; [done|]. by destruct (Hne _ _ _ H).
    + intros (n' & t & [[-> [= <- <-]]|[_ H]]%lookup_insert_Some); [by left|right].
      destruct (Hne _ _ _ H). eauto.
Qed.

Lemma db_delete w w' Ts n q : db_inv w Ts -> Ts !! n = Some (q, E) ->
  no_fail w' -> hash_tables (tblHash w') (delete n Ts) -> nodes w' = nodes w ->
  trees w' = delete q (trees w) -> db_inv w' (delete n Ts).
Proof.
  intros [If Ih Ii It Ij Is In Iq] Hn Hnf Hh En Et.
  assert (Hne : forall n' pt t, n' <> n -> Ts !! n' = Some (pt, t) -> pt <> q).
  { intros n' pt t Hne H ->. by eapply Hne, Ij. }
  split; rewrite ?En, ?Et; try done.
  - intros n' x [_ H]%lookup_delete_Some. by eapply Ii.
  - intros n' pt t [Hd H]%lookup_delete_Some. destruct (It _ _ _ H) as (H1 & H2 & H3). split; [|done].
    eapply holds_other; [by intros; rewrite En| |exact H1]. rewrite Et, lookup_delete_ne; [done|].
    intros <-. by eapply (Hne n').
  - intros n1 n2 pt t1 t2 [_ H1]%lookup_delete_Some [_ H2]%lookup_delete_Some. by eapply Ij.
  - intros n1 n2 p1 p2 t1 t2 x [_ H1]%lookup_delete_Some [_ H2]%lookup_delete_Some. by eapply Is.
  - intros x. rewrite In. split; intros (n' & pt & t & H & Hx); exists n', pt, t; (split; [|done]).
    + apply lookup_delete_Some. split; [|done]. intros <-. rewrite Hn in H. injection H as <- <-.
      by apply elem_of_nil in Hx.
    + by apply lookup_delete_Some in H as [_ H].
  - intros p. rewrite lookup_delete_is_Some, Iq. split.
    + intros [Hp (n' & t & H)]. exists n', t. apply lookup_delete_Some. split; [|done]. intros <-. congruence.
    + intros (n' & t & [Hd H]%lookup_delete_Some). split; [|eauto]. intros <-. by eapply (Hne n').
Qed.

Lemma contents_delete Ts n : contents (delete n Ts) = delete n (contents Ts).
Proof. apply fmap_delete. Qed.

(** The cursors of other tables. *)
Lemma curs_insert w w' Ts L l n q : curs_inv w Ts L l -> Ts !! n = None -> trees w !! q = None ->
  cursors w' = cursors w -> trees w' = <[q := mkTree [] None]> (trees w) -> curs_inv w' (<[n := (q, E)]> Ts) L l.
Proof.
  intros [Hn Hd Hl Hr Hs] HT Hq Hcs Et.
  assert (Hne : forall p cu, (p, cu) ∈ l -> c_tab cu <> n).
  { intros p cu Hin Hc. destruct (Hr _ _ Hin) as (c & _ & [_ _ _ (t & H & _)]). congruence. }
  assert (Hnil : curs_of n l = []).
  { destruct (curs_of n l) as [|[p cu] l'] eqn:El; [done|].
    assert (Hin : (p, cu) ∈ curs_of n l) by (rewrite El; by left).
    apply list_elem_of_filter in Hin as [Hc Hin]. by destruct (Hne _ _ Hin). }
  split; rewrite ?Hcs; try done.
  - intros p cu Hin. destruct (Hr _ _ Hin) as (c & Hc & [R1 R2 R3 (t0 & R4 & R5)]). exists c. split; [done|].
    split; [done..|]. exists t0. pose proof (Hne _ _ Hin). by rewrite lookup_insert_ne.
  - intros n' pt t [[-> [= <- <-]]|[_ H]]%lookup_insert_Some.
    + by rewrite Et, lookup_insert_eq, Hnil.
    + rewrite Et, lookup_insert_ne; [by eapply Hs|]. intros <-. pose proof (Hs _ _ _ H) as Hp. by rewrite Hq in Hp.
Qed.

Lemma curs_delete w w' Ts L l n q : curs_inv w Ts L l -> Ts !! n = Some (q, E) -> curs_of n l = [] ->
  (forall n' t, Ts !! n' = Some (q, t) -> n' = n) ->
  cursors w' = cursors w -> trees w' = delete q (trees w) -> curs_inv w' (delete n Ts) L l.
Proof.
  intros [Hn Hd Hl Hr Hs] HT Hno Hinj Hcs Et.
  assert (Hne : forall p cu, (p, cu) ∈ l -> c_tab cu <> n).
  { intros p cu Hin Hc. assert (Hx : (p, cu) ∈ curs_of n l) by (apply list_elem_of_filter; done).
    rewrite Hno in Hx. by apply elem_of_nil in Hx. }
  split; rewrite ?Hcs; try done.
  - intros p cu Hin. destruct (Hr _ _ Hin) as (c & Hc & [R1 R2 R3 (t0 & R4 & R5)]). exists c. split; [done|].
    split; [done..|]. exists t0. pose proof (Hne _ _ Hin). by rewrite lookup_delete_ne.
  - intros n' pt t [Hd' H]%lookup_delete_Some. rewrite Et, lookup_delete_ne; [by eapply Hs|].
    intros <-. by eapply Hd', eq_sym, Hinj.
Qed.

(** * The functions *)

(** Logging leaves tables and cursors alone. *)
Lemma db_logged op w Ts : db_inv w Ts -> db_inv (logged op w) Ts.
Proof.
  apply db_inv_ext; [apply logged_nodes|apply logged_trees|apply sb_hash, base_logged|apply sb_failed, base_logged].
Qed.

Lemma curs_ext w w' Ts L l : cursors w' = cursors w -> trees w' = trees w -> curs_inv w Ts L l -> curs_inv w' Ts L l.
Proof. intros Ec Et [H1 H2 H3 H4 H5]. split; rewrite ?Ec, ?Et; done. Qed.

Lemma curs_logged op w Ts L l : curs_inv w Ts L l -> curs_inv (logged op w) Ts L l.
Proof. apply curs_ext; [apply logged_cursors|apply logged_trees]. Qed.

Lemma wp_log_table_op w op (Q : Z -> Rbtree -> Prop) C : no_fail w -> in_trans (eTransState w) ->
  Q SQLITE_OK (logged op w) -> wp (log_table_op op) Q C w.
Proof.
  intros Hnf Htr HQ. unfold log_table_op. steps. 
  destruct (trans_state_cases w Htr) as [_ [[-> Er]|[-> Er]]]; cbn [negb].
  - steps. by rewrite logged_rollback in HQ.
  - steps. apply wp_sqliteMalloc; [done|]. cbn [negb]. steps. apply wp_log; [done..|]. by steps.
Qed.

Lemma wp_new_table w Ts L l n (Q : unit -> Rbtree -> Prop) C :
  db_inv w Ts -> curs_inv w Ts L l -> Ts !! n = None -> is_int32 n ->
  (forall w' q, db_inv w' (<[n := (q, E)]> Ts) -> curs_inv w' (<[n := (q, E)]> Ts) L l ->
     same_rest w w' -> log_of w' = log_of w -> cursors w' = cursors w -> Q tt w') ->
  wp (btreeCreateTable n) Q C w.
Proof.
  intros Hdb Hcu Hn Hint HQ. unfold btreeCreateTable. steps. apply wp_sqliteMalloc; [apply Hdb|]. steps.
  unfold new_tree at 1, wp at 1. set (q := fresh (dom (trees w))).
  assert (Hq : trees w !! q = None) by (apply not_elem_of_dom, is_fresh). steps.
  set (w1 := set_trees _ _).
  eapply (wp_tbl_set w1 Ts n _ (Some (q, E))); [apply Hdb|apply Hdb|done|done|].
  intros h' Hh Hm. steps. apply (HQ _ q); [|by eapply (curs_insert w)|done..].
  eapply (db_insert w); try done.
Qed.

Lemma wp_create_db w Ts L l (Q : Z * Z -> Rbtree -> Prop) C :
  let n := next_idx w in
  db_inv w Ts -> curs_inv w Ts L l -> in_trans (eTransState w) -> Ts !! n = None -> is_int32 n ->
  (forall w' q, logged_step w w' Ts (<[n := (q, E)]> Ts) n [mkOp ROLLBACK_DROP n [] []] ->
     next_idx w' = n + 1 -> curs_inv w' (<[n := (q, E)]> Ts) L l -> Q (SQLITE_OK, n) w') ->
  wp memRbtreeCreateTable Q C w.
Proof.
  intros n Hdb Hcu Htr Hn Hint HQ. unfold memRbtreeCreateTable. steps.
  destruct (trans_state_cases w Htr) as [-> _]. apply wp_assert; [done|]. steps. apply wp_rupd. steps. fold n.
  set (w1 := set_next_idx (n + 1) w).
  assert (Hdb1 : db_inv w1 Ts) by by apply (db_inv_ext w).
  assert (Hcu1 : curs_inv w1 Ts L l) by by apply (curs_ext w).
  eapply (wp_new_table w1 Ts L l n); [done..|]. intros w2 q Hdb2 Hcu2 (Hnx & Hme & Ht) Hl Hcs.
  destruct (i_fail _ _ Hdb2) as [Hm Hf]. steps. rewrite Hf. steps.
  apply wp_log_table_op; [done|by rewrite Ht|]. steps.
  set (op := mkOp _ _ _ _). apply (HQ _ q).
  - split; try done.
    + by apply db_logged.
    + by apply logged_log_of.
    + cbn [undo_list]. rewrite contents_insert. change (table_of (elems E)) with (∅ : table).
      rewrite undo_drop; [done|]. unfold contents. by rewrite lookup_fmap, Hn.
    + by repeat constructor.
    + by rewrite (sb_meta _ _ (base_logged op w2)).
    + by rewrite (sb_trans _ _ (base_logged op w2)).
    + by rewrite logged_cursors.
  - by rewrite (sb_next _ _ (base_logged op w2)), Hnx.
  - by apply curs_logged.
Qed.

Lemma wp_drop_db w Ts L l n pt t (Q : Z -> Rbtree -> Prop) C :
  db_inv w Ts -> curs_inv w Ts L l -> in_trans (eTransState w) -> Ts !! n = Some (pt, t) -> curs_of n l = [] ->
  (forall w' ops, logged_step w w' Ts (delete n Ts) n ops -> next_idx w' = next_idx w ->
     curs_inv w' (delete n Ts) L l -> Q SQLITE_OK w') ->
  wp (memRbtreeDropTable n) Q C w.
Proof.
  intros Hdb Hcu Htr HT Hno HQ. unfold memRbtreeDropTable. steps.
  destruct (trans_state_cases w Htr) as [-> _]. apply wp_assert; [done|]. steps.
  eapply wp_clear_db; [done..| |].
  { intros p cu Hin Ht. assert (Hx : (p, cu) ∈ curs_of n l) by (apply list_elem_of_filter; done).
    rewrite Hno in Hx. by apply elem_of_nil in Hx. }
  intros w1 ops [Hdb1 Hl1 Hu1 Ht1 Hm1 Hs1 Hc1] Hn1 Hcu1. steps.
  set (Ts1 := <[n := (pt, E)]> Ts) in *. assert (HT1 : Ts1 !! n = Some (pt, E)) by apply lookup_insert_eq.
  assert (Hdel : delete n Ts1 = delete n Ts) by apply delete_insert_eq.
  eapply (wp_tbl_set w1 Ts1 n None None); [apply Hdb1|apply Hdb1|by eapply (i_int _ _ Hdb1)|done|].
  intros h' Hh Hm. rewrite HT1. cbn [fmap option_fmap option_map fst]. steps.
  pose proof (k_lists _ _ _ _ Hcu1 _ _ _ HT1) as Hlist. rewrite Hno in Hlist.
  destruct (trees w1 !! pt) as [tr|] eqn:Etr; [|done]. injection Hlist as Hlist.
  steps. rewrite Hlist. apply wp_assert; [done|]. steps. unfold free_tree. steps. apply wp_rupd. cbn [trees set_tblHash].
  set (w2 := set_trees _ _). 
  assert (Hdb2 : db_inv w2 (delete n Ts1)).
  { eapply (db_delete w1); [exact Hdb1|exact HT1|..]; try done. }
  assert (Hcu2 : curs_inv w2 (delete n Ts1) L l).
  { eapply (curs_delete w1); [exact Hcu1|exact HT1|exact Hno| |done..]. intros n' t' H. by eapply (i_inj _ _ Hdb1). }
  apply wp_log_table_op; [done|by cbn; rewrite Hs1|]. rewrite Hdel in *.
  set (op := mkOp _ _ _ _). apply (HQ _ (op :: ops)).
  - split.
    + by apply db_logged.
    + cbn [log_all]. apply logged_log_of; [exact Hl1|]. rewrite log_all_trans. exact Hs1.
    + cbn [undo_list]. unfold op; rewrite <- Hdel, contents_delete, undo_create with (m := ∅).
      * exact Hu1.
      * unfold Ts1. by rewrite contents_insert, lookup_insert_eq.
      * done.
    + by constructor.
    + by rewrite (sb_meta _ _ (base_logged op w2)).
    + by rewrite (sb_trans _ _ (base_logged op w2)).
    + rewrite logged_cursors. exact Hc1.
  - by rewrite (sb_next _ _ (base_logged op w2)).
  - by apply curs_logged.
Qed.
