(* ===== verification/RbSim.v ===== *)
(** Rolling back, the relation between the code's state and the promised one, and the
    operations that keep it. Executing a log undoes the operations it was written for. *)
From S2P Require Import Prelude Util Hash HashKey HashList HashSpec HashMap OsFile Rbtree RbShape RbRotate RbInsert RbDelete RbOrder RbCursor RbTable RbUpdate RbSpec RbDb RbLog RbClear.

(** * One entry *)

(** An entry was undone through the local cursor [cur]; the tables are [ts']. *)
Record undone (w w' : Rbtree) (cur : addr) (Ts' : tabs) (ts' : gmap Z table) : Prop := {
  ud_inv : db_inv w' Ts';
  ud_tabs : contents Ts' = ts';
  ud_curs : curs_inv w' Ts' (Some cur) [];
  ud_wr : wrFlag <$> cursors w' !! cur = Some true;
  ud_rest : same_rest w w';
  ud_log : log_of w' = log_of w
}.

Lemma same_rest_trans w1 w2 w3 : same_rest w1 w2 -> same_rest w2 w3 -> same_rest w1 w3.
Proof. intros (? & ? & ?) (? & ? & ?). split_and!; congruence. Qed.

Lemma undone_trans w1 w2 w3 cur Ts2 Ts3 ts2 ts3 :
  undone w1 w2 cur Ts2 ts2 -> undone w2 w3 cur Ts3 ts3 -> undone w1 w3 cur Ts3 ts3.
Proof. intros [] []. split; try done; [by eapply same_rest_trans|congruence]. Qed.

Lemma same_addr es e e' : NoDup (addrs es) -> e ∈ es -> e' ∈ es -> e_addr e = e_addr e' -> e = e'.
Proof.
  intros Hnd (i & Hi)%list_elem_of_lookup (j & Hj)%list_elem_of_lookup Ha.
  enough (i = j) as -> by congruence. apply (NoDup_lookup _ _ _ (e_addr e) Hnd); unfold addrs; rewrite list_lookup_fmap.
  - by rewrite Hi.
  - by rewrite Hj, Ha.
Qed.

Section Op.
Context (w : Rbtree) (Ts : tabs) (cur : addr) (c : RbtCursor).
Context (Hdb : db_inv w Ts) (Hcu : curs_inv w Ts (Some cur) []) (Hst : eTransState w = TRANS_ROLLBACK).
Context (Hc : cursors w !! cur = Some c) (Hw : wrFlag c = true).

Lemma rollback_in_trans : in_trans (eTransState w).
Proof. rewrite Hst. by right; right. Qed.

Lemma put_cur c' : curs_inv (put cur c' w) Ts (Some cur) [].
Proof.
  apply (curs_set _ _ _ _ _ _ c' (mkCur 0 None 0 true) Hcu Hc). by intros cu ?%elem_of_nil.
Qed.

Lemma db_put c' : db_inv (put cur c' w) Ts.
Proof. by apply (db_inv_ext w). Qed.

(** A change through the cursor is not logged. *)
Lemma undone_after c1 w' n m ts' : after_op (put cur c1 w) w' Ts (Some cur) cur n m [] ->
  ts' = <[n := m]> (contents Ts) -> exists Ts', undone w w' cur Ts' ts'.
Proof.
  intros (Ts' & op & H0 & H1 & H2 & H3 & H4 & H5 & H6 & _) ->. exists Ts'. split; try done.
  rewrite H6. by rewrite logged_rollback.
Qed.

Lemma undone_step w' Ts' n ops ts' : logged_step w w' Ts Ts' n ops -> next_idx w' = next_idx w ->
  curs_inv w' Ts' (Some cur) [] -> contents Ts' = ts' -> undone w w' cur Ts' ts'.
Proof.
  intros [H1 H2 _ _ H5 H6 Hcs] Hn Hcu' Hts. split; try done.
  - by rewrite Hcs, Hc; cbn; rewrite Hw.
  - rewrite H2. clear - Hst. induction ops as [|op ops IH]; [done|]. cbn. 
    rewrite logged_rollback; [exact IH|]. by rewrite log_all_trans.
Qed.

Lemma wp_rollback_insert n k v m (Q : unit -> Rbtree -> Prop) C : contents Ts !! n = Some m -> is_int32 n ->
  (forall w' Ts', undone w w' cur Ts' (<[n := <[k := v]> m]> (contents Ts)) -> Q tt w') ->
  wp (execute_rollback_op cur (mkOp ROLLBACK_INSERT n k v)) Q C w.
Proof.
  intros Hm Hint HQ. unfold contents in Hm. rewrite lookup_fmap in Hm.
  destruct (Ts !! n) as [[pt t]|] eqn:HT; [|done]. injection Hm as <-. cbn [snd] in HQ.
  unfold execute_rollback_op. cbn. steps. eapply (wp_tbl_find w Ts); [apply Hdb|apply Hdb|done|].
  rewrite HT. cbn [fmap option_fmap option_map fst]. steps. eapply wp_put; [done|]. steps.
  set (c1 := set_table_of _ _ _). 
  eapply (wp_insert_db (put cur c1 w) Ts (Some cur) [] cur c1 t); [by apply db_put|by apply put_cur|by apply rollback_in_trans|apply put_lookup|done|done|done|].
  intros _ w' Ha. steps. destruct (undone_after _ _ _ _ _ Ha eq_refl) as [Ts' Hu]. by eapply HQ.
Qed.

Lemma wp_rollback_delete n k d m v (Q : unit -> Rbtree -> Prop) C : contents Ts !! n = Some m -> m !! k = Some v ->
  is_int32 n -> (forall w' Ts', undone w w' cur Ts' (<[n := delete k m]> (contents Ts)) -> Q tt w') ->
  wp (execute_rollback_op cur (mkOp ROLLBACK_DELETE n k d)) Q C w.
Proof.
  intros Hm Hk Hint HQ. unfold contents in Hm. rewrite lookup_fmap in Hm.
  destruct (Ts !! n) as [[pt t]|] eqn:HT; [|done]. injection Hm as <-. cbn [snd] in HQ, Hk.
  destruct (i_tree _ _ Hdb _ _ _ HT) as (Hh & Hv & Ho).
  unfold execute_rollback_op. cbn. steps. eapply (wp_tbl_find w Ts); [apply Hdb|apply Hdb|done|].
  rewrite HT. cbn [fmap option_fmap option_map fst]. steps. eapply wp_put; [done|]. steps.
  set (c1 := set_table_of _ _ _).
  eapply (wp_moveto cur k _ c1 t); [apply put_lookup|by apply holds_put|exact Ho|..].
  - intros b l e r fs Et Hke. rewrite put_put. steps. apply wp_assert; [done|]. steps. set (c2 := goto _ _).
    assert (Hin : e ∈ elems t) by (rewrite Et, elems_plug; set_solver).
    eapply (wp_delete_db (put cur c2 w) Ts (Some cur) [] cur c2 t); 
      [by apply db_put|by apply put_cur|by apply rollback_in_trans|apply put_lookup|done|done|done|done|..].
    + intros _ w' e' Hin' [= Ha] Hop. steps.
      assert (e' = e) as -> by (by eapply same_addr, eq_sym; [apply Hh|..]).
      rewrite Hke in Hop. destruct (undone_after _ _ _ _ _ Hop eq_refl) as [Ts' Hu]. by eapply HQ.
    + by exists e.
  - intros fs Et [Hb1 Hb2]. exfalso. apply table_of_lookup in Hk as (e & He & <- & _); [|done].
    rewrite Et, elems_plug in He. cbn [elems app] in He. apply elem_of_app in He as [He|He].
    + by eapply klt_irrefl, Hb1, list_elem_of_fmap_2.
    + by eapply klt_irrefl, Hb2, list_elem_of_fmap_2.
Qed.

Lemma wp_rollback_op op ts' (Q : unit -> Rbtree -> Prop) C : undo_op op (contents Ts) = Some ts' ->
  is_int32 (iTab op) -> (forall w' Ts', undone w w' cur Ts' ts' -> Q tt w') ->
  wp (execute_rollback_op cur op) Q C w.
Proof.
  destruct op as [e n k d]. unfold undo_op. cbn [eOp iTab op_pKey op_pData]. intros Hun Hint HQ.
  destruct (Z.eqb_spec e ROLLBACK_INSERT) as [->|H1].
  { destruct (contents Ts !! n) as [m|] eqn:Hm; [|done]. injection Hun as <-. by eapply wp_rollback_insert. }
  destruct (Z.eqb_spec e ROLLBACK_DELETE) as [->|H2].
  { destruct (contents Ts !! n) as [m|] eqn:Hm; [|done]. cbn in Hun. destruct (m !! k) as [v|] eqn:Hk; [|done].
    injection Hun as <-. by eapply wp_rollback_delete. }
  unfold execute_rollback_op. cbn [eOp iTab]. rewrite !(proj2 (Z.eqb_neq _ _)) by done.
  assert (HT : contents Ts !! n = (fun x : addr * T => table_of (elems x.2)) <$> Ts !! n) by apply lookup_fmap.
  rewrite HT in Hun. destruct (Z.eqb_spec e ROLLBACK_CREATE) as [->|H3].
  { cbn. destruct (Ts !! n) as [[pt t]|] eqn:Hn; [done|]. injection Hun as <-.
    eapply (wp_new_table w Ts (Some cur) [] n); [done..|]. intros w' q Hdb' Hcu' Hrest Hlog Hcs. eapply HQ.
    split; [exact Hdb'|by rewrite contents_insert|exact Hcu'| |done..]. by rewrite Hcs, Hc; cbn; rewrite Hw. }
  destruct (Z.eqb_spec e ROLLBACK_DROP) as [->|H4]; [|done].
  cbn [Z.eqb ROLLBACK_DROP ROLLBACK_CREATE Pos.eqb]. destruct (Ts !! n) as [[pt t]|] eqn:Hn; [|done]. injection Hun as <-.
  steps. eapply (wp_drop_db w Ts (Some cur) []); [done..|apply rollback_in_trans|exact Hn|done|].
  intros w' ops Hls Hnx Hcu'. steps. eapply HQ, undone_step; [exact Hls|done|done|apply contents_delete].
Qed.
End Op.

(** * A log *)

Lemma wp_rollback_loop cur ops : forall w Ts ts' (Q : unit -> Rbtree -> Prop) C,
  db_inv w Ts -> curs_inv w Ts (Some cur) [] -> eTransState w = TRANS_ROLLBACK ->
  wrFlag <$> cursors w !! cur = Some true -> undo_list ops (contents Ts) = Some ts' ->
  Forall (fun op => is_int32 (iTab op)) ops -> (forall w' Ts', undone w w' cur Ts' ts' -> Q tt w') ->
  wp (execute_rollback_loop cur ops) Q C w.
Proof.
  induction ops as [|op ops IH]; intros w Ts ts' Q C Hdb Hcu Hst Hw Hun Hint HQ; cbn [execute_rollback_loop].
  { injection Hun as <-. apply wp_ret. apply (HQ _ Ts). by split. }
  cbn [undo_list] in Hun. destruct (undo_op op (contents Ts)) as [ts1|] eqn:E1; [|done]. cbn in Hun.
  apply Forall_cons in Hint as [Hi Hint]. destruct (cursors w !! cur) as [c|] eqn:Hc; [|done]. injection Hw as Hw.
  steps. eapply (wp_rollback_op w Ts cur c); [done..|]. intros w1 Ts1 Hu. pose proof Hu as [U1 U2 U3 U4 (U5 & U6 & U7) U8].
  eapply (IH w1 Ts1); [done|done|congruence|done|by rewrite U2|done|].
  intros w2 Ts2 Hu2. by eapply HQ, undone_trans.
Qed.

(** A rollback has no other cursors around. *)
Lemma wp_rollback_list w Ts ops ts' (Q : unit -> Rbtree -> Prop) C :
  db_inv w Ts -> curs_inv w Ts None [] -> eTransState w = TRANS_ROLLBACK ->
  undo_list ops (contents Ts) = Some ts' -> Forall (fun op => is_int32 (iTab op)) ops ->
  (forall w' Ts', db_inv w' Ts' -> contents Ts' = ts' -> curs_inv w' Ts' None [] -> same_rest w w' ->
     log_of w' = log_of w -> Q tt w') ->
  wp (execute_rollback_list ops) Q C w.
Proof.
  intros Hdb [_ Hd _ _ Hs] Hst Hun Hint HQ. unfold execute_rollback_list. steps.
  unfold new_cursor at 1, wp at 1. set (cur := fresh _). steps. set (w1 := set_cursors _ w).
  assert (Hdom : dom (cursors w) = ∅) by (rewrite Hd; set_solver).
  eapply (wp_rollback_loop cur ops w1 Ts); [by apply (db_inv_ext w)| |done| |exact Hun|done|].
  - split; cbn [cursors trees set_cursors w1]; try done; [constructor|rewrite dom_insert_L, Hdom; set_solver| |].
    + by intros ?%elem_of_nil.
    + by intros p cu ?%elem_of_nil.
  - cbn. by rewrite lookup_insert_eq.
  - intros w2 Ts2 [U1 U2 [_ U3 _ _ U3'] U4 U5 U6]. destruct (cursors w2 !! cur) as [c|] eqn:Hc; [|done]. steps. 
    unfold free_cursor. steps. apply wp_rupd. apply (HQ _ Ts2); try done; [by apply (db_inv_ext w2)|].
    split; cbn [cursors trees set_cursors]; try done; [constructor|rewrite dom_delete_L, U3; set_solver|].
    by intros p cu ?%elem_of_nil.
Qed.

(** What relates the code's state to the promised one, and the operations on cursors. *)

(** * The relation *)

(** What the logs say: the first undoes the transaction, up to the checkpoint if there
    is one, and the second the checkpoint. *)
Inductive logs_ok : Z -> list BtRollbackOp -> list BtRollbackOp -> gmap Z table -> gmap Z table -> gmap Z table -> Prop :=
| logs_none ts saved ck : logs_ok TRANS_NONE [] [] ts saved ck
| logs_trans lt ts saved ck : undo_list lt ts = Some saved -> logs_ok TRANS_INTRANSACTION lt [] ts saved ck
| logs_ckpt lt lc ts saved ck : undo_list lc ts = Some ck -> undo_list lt ck = Some saved ->
    logs_ok TRANS_INCHECKPOINT lt lc ts saved ck.

Record sim (w : Rbtree) (d : Db) (Ts : tabs) : Prop := {
  s_inv : db_inv w Ts;
  s_tabs : contents Ts = d_tabs d;
  s_curs : curs_inv w Ts None (d_curs d);
  s_next : next_idx w = d_next d;
  s_meta : aMetaData w = d_meta d;
  s_trans : eTransState w = d_trans d;
  s_bound : forall n, is_Some (d_tabs d !! n) -> n < d_next d;
  s_range : is_int32 (d_next d);
  s_ops : Forall (fun op => is_int32 (iTab op) /\ iTab op < d_next d) (pTransRollback w ++ pCheckRollback w);
  s_logs : logs_ok (d_trans d) (pTransRollback w) (pCheckRollback w) (d_tabs d) (d_saved d) (d_ck d)
}.

(** What is to be shown of an operation. *)
Definition step_ok (o : rb_op) : Prop := forall w d Ts C, sim w d Ts -> allowed d o ->
  wp (run_rb_op o) (fun r w' => exists d' Ts', spec_step d o r d' /\ sim w' d' Ts') C w.

Lemma sim_trans_state w d Ts : sim w d Ts -> d_trans d <> TRANS_NONE -> in_trans (eTransState w).
Proof.
  intros Hs Hn. rewrite (s_trans _ _ _ Hs). destruct (s_logs _ _ _ Hs); [done|by left|by right; left].
Qed.

(** A cursor of the client, and what it stands for. *)
Lemma sim_cursor w d Ts p cu : sim w d Ts -> cur_at p (d_curs d) = Some cu ->
  exists c t, cursors w !! p = Some c /\ Ts !! c_tab cu = Some (pTree c, t) /\ iTree c = c_tab cu /\
    eSkip c = c_skip cu /\ wrFlag c = c_wr cu /\ pos_rel (elems t) (pNode c) (c_pos cu) /\
    holds w (pTree c) t /\ valid t /\ ordered (elems t) /\ d_tabs d !! c_tab cu = Some (table_of (elems t)).
Proof.
  intros Hs Hp. destruct (curs_dom _ _ _ _ _ _ (s_curs _ _ _ Hs) Hp) as (c & Hc & [R1 R2 R3 (t & R4 & R5)]).
  exists c, t. destruct (i_tree _ _ (s_inv _ _ _ Hs) _ _ _ R4) as (H1 & H2 & H3).
  repeat (split; [done|]). rewrite <- (s_tabs _ _ _ Hs). by eapply contents_lookup.
Qed.

(** A cursor moves. *)
Lemma sim_put w d Ts p c c' cu' : sim w d Ts -> cursors w !! p = Some c ->
  (forall cu, (p, cu) ∈ d_curs d -> c_tab cu = c_tab cu' /\ cur_rel Ts c' cu') ->
  sim (put p c' w) (with_curs (set_cur p cu' (d_curs d)) d) Ts.
Proof.
  intros [] Hc Hcu. split; cbn; try done; [by apply (db_inv_ext w)|by eapply curs_set].
Qed.

Lemma sim_goto w d Ts p cu c t pos k : sim w d Ts -> cur_at p (d_curs d) = Some cu ->
  cursors w !! p = Some c -> Ts !! c_tab cu = Some (pTree c, t) -> pos_rel (elems t) pos k ->
  sim (put p (goto pos c) w) (with_curs (set_cur p (mkCur (c_tab cu) k SKIP_NONE (c_wr cu)) (d_curs d)) d) Ts.
Proof.
  intros Hs Hp Hc HT Hpos. eapply sim_put; [done|done|]. intros cv Hin.
  apply cur_at_in in Hp; [|by eapply k_nodup, s_curs].
  assert (cv = cu) as ->.
  { apply cur_at_in in Hp, Hin; [congruence|by eapply k_nodup, s_curs..]. }
  split; [done|]. destruct (self_rel _ _ _ _ _ _ _ (s_curs _ _ _ Hs) Hc Hin) as [R1 R2 R3 _].
  split; cbn; try done. eauto.
Qed.

Lemma miss_rel es pos k : pos_rel es pos k -> miss pos = miss_key k.
Proof. by destruct pos, k. Qed.

Lemma pos_head es es' : (forall e, e ∈ es -> e ∈ es') -> pos_rel es' (head_addr es) (e_key <$> head es).
Proof. intros Hin. destruct es as [|e es]; [done|]. exists e. split; [apply Hin; by left|done]. Qed.

Lemma pos_last es es' : (forall e, e ∈ es -> e ∈ es') -> pos_rel es' (last_addr es) (e_key <$> last es).
Proof.
  intros Hin. unfold last_addr. destruct (last es) as [e|] eqn:El; [|done].
  exists e. split; [by apply Hin, last_Some_elem_of|done].
Qed.

Lemma pos_empty pos k : pos_rel [] pos k -> pos = None.
Proof. destruct pos, k; try done. by intros (e & He%elem_of_nil & _). Qed.

(** The entry at a place. *)
Lemma pos_some es a k : pos_rel es a (Some k) -> exists A e B, es = A ++ e :: B /\ a = Some (e_addr e) /\ k = e_key e.
Proof.
  destruct a as [a|]; [|done]. intros (e & He & <- & <-). apply list_elem_of_split in He as (A & B & ->). eauto 6.
Qed.

(** * Moves *)

(** The client's cursor [p], with everything that is known of it. *)
Ltac the_cursor Hs Hp :=
  destruct (sim_cursor _ _ _ _ _ Hs Hp) as (c & t & Hc & HT & Htab & Hskip & Hwr & Hpos & Hh & Hv & Ho & Hd).

(** The end of a move. *)
Lemma move_done w d Ts p cu c t f pos : sim w d Ts -> cur_at p (d_curs d) = Some cu -> cursors w !! p = Some c ->
  Ts !! c_tab cu = Some (pTree c, t) -> d_tabs d !! c_tab cu = Some (table_of (elems t)) ->
  pos_rel (elems t) pos (f cu (table_of (elems t))) ->
  exists d' Ts', move_cur p f d = ([miss pos], d') /\ sim (put p (goto pos c) w) d' Ts'.
Proof.
  intros Hs Hp Hc HT Hd Hpos. unfold move_cur. rewrite Hp, Hd. cbn [default]. 
  eexists _, Ts. split; [by rewrite (miss_rel _ _ _ Hpos)|]. by eapply sim_goto.
Qed.

Lemma ok_first p : step_ok (RFirst p).
Proof.
  intros w d Ts C Hs [cu Hp]. the_cursor Hs Hp. cbn [run_rb_op spec_step spec_fun]. steps.
  eapply (wp_first p w c t); [done|done|by intros ->; eapply pos_empty|]. steps.
  eapply move_done; [done..|]. rewrite first_key_table by done. by apply pos_head.
Qed.

Lemma ok_last p : step_ok (RLast p).
Proof.
  intros w d Ts C Hs [cu Hp]. the_cursor Hs Hp. cbn [run_rb_op spec_step spec_fun]. steps.
  eapply (wp_last p w c t); [done|done|by intros ->; eapply pos_empty|]. steps.
  eapply move_done; [done..|]. rewrite last_key_table by done. by apply pos_last.
Qed.

Lemma ok_next p : step_ok (RNext p).
Proof.
  intros w d Ts C Hs [cu Hp]. the_cursor Hs Hp. cbn [run_rb_op spec_step spec_fun]. steps.
  destruct (c_pos cu) as [k|] eqn:Ek.
  - destruct (pos_some _ _ _ Hpos) as (A & e & B & Ees & Ea & ->). destruct (Z.eqb_spec (c_skip cu) SKIP_NEXT) as [Esk|Esk].
    + eapply (wp_next_stay p w c); [done|right; congruence|]. steps. eapply move_done; [done..|].
      unfold next_place. by rewrite Ek, Esk.
    + eapply (wp_next p w c t); [done|done|exact Ees|done|congruence|]. steps. eapply move_done; [done..|].
      unfold next_place. rewrite Ek, (proj2 (Z.eqb_neq _ _) Esk), Ees in *. rewrite next_key_here by done.
      apply pos_head. set_solver.
  - assert (En : pNode c = None) by by destruct (pNode c).
    eapply (wp_next_stay p w c); [done|by left|]. steps. eapply move_done; [done..|].
    unfold next_place. by rewrite Ek.
Qed.

Lemma ok_prev p : step_ok (RPrev p).
Proof.
  intros w d Ts C Hs [cu Hp]. the_cursor Hs Hp. cbn [run_rb_op spec_step spec_fun]. steps.
  destruct (c_pos cu) as [k|] eqn:Ek.
  - destruct (pos_some _ _ _ Hpos) as (A & e & B & Ees & Ea & ->). destruct (Z.eqb_spec (c_skip cu) SKIP_PREV) as [Esk|Esk].
    + eapply (wp_previous_stay p w c); [done|right; congruence|]. steps. eapply move_done; [done..|].
      unfold prev_place. by rewrite Ek, Esk.
    + eapply (wp_previous p w c t); [done|done|exact Ees|done|congruence|]. steps. eapply move_done; [done..|].
      unfold prev_place. rewrite Ek, (proj2 (Z.eqb_neq _ _) Esk), Ees in *. rewrite prev_key_here by done.
      apply pos_last. set_solver.
  - assert (En : pNode c = None) by by destruct (pNode c).
    eapply (wp_previous_stay p w c); [done|by left|]. steps. eapply move_done; [done..|].
    unfold prev_place. by rewrite Ek.
Qed.

(** The search ends at the key, or at the entry before or behind its place. *)
Lemma top_neighbour fs : (dir fs = -1 /\ top fs = last_addr (lefts fs)) \/
  (dir fs = 1 /\ top fs = head_addr (rights fs) /\ top fs <> None).
Proof.
  destruct fs as [|[b e r|b l e] fs]; cbn; [by left|by right|left]. split; [done|]. unfold last_addr.
  by rewrite (assoc_L (++)), last_snoc.
Qed.

Lemma ok_moveto p k : step_ok (RMoveto p k).
Proof.
  intros w d Ts C Hs [cu Hp]. the_cursor Hs Hp. cbn [run_rb_op spec_step]. steps.
  eapply (wp_moveto p k w c t); [done..| |].
  - intros b l e r fs Et Hk. steps. assert (He : e ∈ elems t) by (rewrite Et, elems_plug; set_solver).
    assert (Hm : table_of (elems t) !! k = Some (e_data e)) by (rewrite <- Hk; by apply table_of_in).
    eexists _, Ts. split; [|eapply (sim_goto _ _ _ _ _ _ _ _ (Some k)); [done..|by exists e]].
    exists cu, (table_of (elems t)). split; [done|]. split; [done|]. exists 0, (Some k).
    split; [done|]. split; [done|]. by rewrite Hm.
  - intros fs Et [Hb1 Hb2]. steps.
    assert (Ees : elems t = lefts fs ++ rights fs) by by rewrite Et, elems_plug.
    assert (Hm : table_of (elems t) !! k = None).
    { apply table_of_none. rewrite Ees, keys_app, elem_of_app.
      intros [Hin|Hin]; [by eapply klt_irrefl, Hb1|by eapply klt_irrefl, Hb2]. }
    rewrite Ees in Ho.
    assert (Hprev : prev_key (table_of (elems t)) k = e_key <$> last (lefts fs)).
    { rewrite Ees. apply prev_key_table; [done|done|]. intros x Hx. by apply klt_asym, Hb2. }
    assert (Hnext : next_key (table_of (elems t)) k = e_key <$> head (rights fs)).
    { rewrite Ees. apply next_key_table; [done| |done]. intros x Hx. by apply klt_asym, Hb1. }
    destruct (top_neighbour fs) as [[-> Etop]|(-> & Etop & Hne)].
    + eexists _, Ts. split; [|eapply (sim_goto _ _ _ _ _ _ _ _ (e_key <$> last (lefts fs))); [done..|]].
      * exists cu, (table_of (elems t)). split; [done|]. split; [done|]. eexists (-1), _.
        split; [done|]. split; [done|]. rewrite Hm. by left.
      * rewrite Etop. apply pos_last. rewrite Ees. set_solver.
    + eexists _, Ts. split; [|eapply (sim_goto _ _ _ _ _ _ _ _ (e_key <$> head (rights fs))); [done..|]].
      * exists cu, (table_of (elems t)). split; [done|]. split; [done|]. eexists 1, _.
        split; [done|]. split; [done|]. rewrite Hm. right. split; [done|]. split; [done|].
        rewrite Etop in Hne. by destruct (rights fs).
      * rewrite Etop. apply pos_head. rewrite Ees. set_solver.
Qed.

(** The operations of a database in memory that read and change records, open and close
    cursors, and change tables. *)

(** * Reading *)

Lemma sim_record w d Ts p cu : sim w d Ts -> cur_at p (d_curs d) = Some cu -> exists c, cursors w !! p = Some c /\
  match pNode c with
  | None => record_at p d = None
  | Some a => exists n, nodes w !! a = Some n /\ record_at p d = Some (pKey n, pData n)
  end.
Proof.
  intros Hs Hp. the_cursor Hs Hp. exists c. split; [done|]. unfold record_at. rewrite Hp. cbn.
  destruct (c_pos cu) as [k|]; [|by destruct (pNode c)].
  destruct (pos_some _ _ _ Hpos) as (A & e & B & Ees & -> & ->).
  destruct (tree_at_entry (nodes w) t None e) as (n & Hn & Hk & Hda); [apply Hh|rewrite Ees; set_solver|].
  exists n. split; [done|]. rewrite Hd. cbn.
  rewrite (table_of_in _ e) by (done || (rewrite Ees; set_solver)). cbn. by rewrite Hk, Hda.
Qed.

(** An operation that only reads. *)
Lemma read_done w d Ts o r : sim w d Ts -> spec_step d o r d ->
  exists d' Ts', spec_step d o r d' /\ sim w d' Ts'.
Proof. intros. by exists d, Ts. Qed.

Ltac the_record Hs Hp :=
  destruct (sim_record _ _ _ _ _ Hs Hp) as (c & Hc & Hr); steps;
  destruct (pNode c) as [a|]; [destruct Hr as (n & Hn & Hr)|]; steps.

Lemma ok_key_size p : step_ok (RKeySize p).
Proof.
  intros w d Ts C Hs [cu Hp]. cbn [run_rb_op]. unfold memRbtreeKeySize. the_record Hs Hp;
    (apply read_done with Ts; [done|]); cbn; by rewrite Hr.
Qed.

Lemma ok_data_size p : step_ok (RDataSize p).
Proof.
  intros w d Ts C Hs [cu Hp]. cbn [run_rb_op]. unfold memRbtreeDataSize. the_record Hs Hp;
    (apply read_done with Ts; [done|]); cbn; by rewrite Hr.
Qed.

(** The part that is copied is there. *)
Lemma wp_copied z offset amt (Q : list Z -> Rbtree -> Prop) C w : 0 <= offset -> 0 <= amt -> offset <= Z.of_nat (length z) ->
  let amt' := if amt + offset <=? Z.of_nat (length z) then amt else Z.of_nat (length z) - offset in
  Q (take (Z.to_nat amt') (drop (Z.to_nat offset) z)) w -> wp (copied z offset amt') Q C w.
Proof.
  intros H1 H2 H3 amt' HQ. unfold copied. steps. apply wp_assert; [|by steps].
  rewrite !andb_true_iff, !Z.leb_le. unfold amt'. destruct (Z.leb_spec (amt + offset) (Z.of_nat (length z))); lia.
Qed.

Lemma wp_int_sum a b (Q : Z -> Rbtree -> Prop) C w :
  0 <= a -> 0 <= b -> a + b <= INT_MAX -> Q (a + b) w -> wp (int_sum a b) Q C w.
Proof.
  intros Ha Hb Hs HQ. unfold int_sum, INT_MAX in *. steps. apply wp_assert; [|by steps].
  rewrite andb_true_iff, !Z.leb_le. lia.
Qed.

(** Whether all the bytes asked for are there; nothing is asked of a key without bytes. *)
Lemma wp_key_fits (z : list Z) offset amt (Q : bool -> Rbtree -> Prop) C w :
  0 <= offset -> 0 <= amt -> amt + offset <= INT_MAX -> offset <= Z.of_nat (length z) -> (z = [] -> amt = 0) ->
  (forall all : bool, (if all then amt else Z.of_nat (length z) - offset) =
     (if amt + offset <=? Z.of_nat (length z) then amt else Z.of_nat (length z) - offset) -> Q all w) ->
  wp (if bool_decide (z = []) then mret true
      else s ← int_sum amt offset; mret (s <=? Z.of_nat (length z))) Q C w.
Proof.
  intros H1 H2 Hsum H3 H4 HQ. case_bool_decide as E.
  - apply wp_ret, HQ. rewrite (H4 E). subst z. cbn in *. case_Zb; lia.
  - apply wp_bind, wp_int_sum; [done..|]. by apply wp_ret, HQ.
Qed.

Lemma ok_key p offset amt : step_ok (RKey p offset amt).
Proof.
  intros w d Ts C Hs ([cu Hp] & H1 & H2 & Hsum & H3). cbn [run_rb_op]. unfold memRbtreeKey. the_record Hs Hp.
  - destruct (H3 _ Hr) as [H4 H5]. apply (wp_key_fits _ offset amt); [done..|]. intros all Eall. steps.
    rewrite Eall. apply wp_copied; [done..|]. steps.
    apply read_done with Ts; [done|]. cbn. by rewrite Hr.
  - apply read_done with Ts; [done|]. cbn. by rewrite Hr.
Qed.

Lemma ok_data p offset amt : step_ok (RData p offset amt).
Proof.
  intros w d Ts C Hs ([cu Hp] & H1 & H2 & Hsum & H3). cbn [run_rb_op]. unfold memRbtreeData. the_record Hs Hp.
  - apply wp_int_sum; [done..|]. steps. apply wp_copied; [done|done|by apply (H3 _ Hr)|]. steps. apply read_done with Ts; [done|]. cbn. by rewrite Hr.
  - apply read_done with Ts; [done|]. cbn. by rewrite Hr.
Qed.

Lemma ok_compare p k nIgnore : step_ok (RCompare p k nIgnore).
Proof.
  intros w d Ts C Hs [[cu Hp] Hn0]. cbn [run_rb_op]. unfold memRbtreeKeyCompare. the_record Hs Hp.
  - assert (Ei : (Z.of_nat (length (pKey n)) - nIgnore <? 0) = (Z.of_nat (length (pKey n)) <? nIgnore)) by (case_Zb; lia).
    rewrite Ei. destruct (Z.ltb_spec (Z.of_nat (length (pKey n))) nIgnore) as [Hlt|Hge].
    + steps. apply read_done with Ts; [done|]. cbn. rewrite Hr. by rewrite (proj2 (Z.ltb_lt _ _) Hlt).
    + steps. apply wp_assert; [by apply Z.leb_le|]. steps. apply read_done with Ts; [done|]. cbn. rewrite Hr.
      rewrite (proj2 (Z.ltb_ge _ _) Hge). do 4 f_equal. lia.
  - apply read_done with Ts; [done|]. cbn. by rewrite Hr.
Qed.

Lemma ok_get_meta : step_ok RGetMeta.
Proof.
  intros w d Ts C Hs _. cbn [run_rb_op]. unfold memRbtreeGetMeta. steps. apply read_done with Ts; [done|].
  cbn. by rewrite (s_meta _ _ _ Hs).
Qed.

Lemma ok_set_meta m : step_ok (RSetMeta m).
Proof.
  intros w d Ts C Hs Hm. cbn [run_rb_op allowed] in *. unfold memRbtreeUpdateMeta. steps.
  apply wp_assert; [by rewrite Hm|]. steps. apply wp_rupd. steps. eexists _, Ts. split; [done|].
  destruct Hs. split; cbn; try done; [by apply (db_inv_ext w)|by apply (curs_ext w)].
Qed.

(** * Cursors *)

Lemma list_fresh (l : list (addr * Cur)) : fresh (list_to_set l.*1 : gset addr) ∉ l.*1.
Proof. intros Hin. by apply (is_fresh (list_to_set l.*1 : gset addr)), elem_of_list_to_set. Qed.

(** Only the list of cursors of a tree changes. *)
Lemma db_list w w' Ts pt tr ps : db_inv w Ts -> trees w !! pt = Some tr -> nodes w' = nodes w ->
  trees w' = <[pt := set_pCursors ps tr]> (trees w) -> tblHash w' = tblHash w -> malloc_failed w' = malloc_failed w ->
  db_inv w' Ts.
Proof.
  intros [[Hm Hf] Ih Ii It Ij Is In Iq] Etr En Et Eh Ef. split; rewrite ?En, ?Eh; try done.
  - split; by rewrite ?Eh, ?Ef.
  - intros n pt' t H. destruct (It _ _ _ H) as ([H1 H2 H3] & H4 & H5). split; [|done].
    split; [|by rewrite En|done]. rewrite Et. destruct (decide (pt' = pt)) as [->|Hne].
    + rewrite lookup_insert_eq. by rewrite Etr in H1.
    + by rewrite lookup_insert_ne.
  - intros q. rewrite Et, lookup_insert_is_Some, <- Iq. split; [intros [ <- | [_ ?]]; [by rewrite Etr|done]|].
    intros Hq. destruct (decide (pt = q)); [by left|by right].
Qed.

Lemma ok_open n wr : step_ok (ROpen n wr).
Proof.
  intros w d Ts C Hs [m Hm]. cbn [run_rb_op spec_step spec_fun]. unfold memRbtreeCursor. steps.
  pose proof (s_inv _ _ _ Hs) as Hdb. destruct (i_fail _ _ Hdb) as [Hmm Hf].
  apply wp_sqliteMalloc; [done|]. steps. rewrite Hf. steps.
  rewrite <- (s_tabs _ _ _ Hs) in Hm. unfold contents in Hm. rewrite lookup_fmap in Hm.
  destruct (Ts !! n) as [[pt t]|] eqn:HT; [|done].
  eapply (wp_tbl_find w Ts); [apply Hdb|apply Hdb|by eapply (i_int _ _ Hdb)|]. rewrite HT. cbn [fmap option_fmap option_map fst].
  steps. destruct (s_curs _ _ _ Hs) as [Hnd Hdom _ Hr Hl]. rewrite (right_id_L ∅ (∪)) in Hdom.
  unfold new_cursor at 1, wp at 1. rewrite Hdom. set (p := fresh _). steps. set (w1 := set_cursors _ w).
  assert (Hp : p ∉ (d_curs d).*1) by apply list_fresh.
  pose proof (Hl _ _ _ HT) as Hlist. destruct (trees w !! pt) as [tr|] eqn:Etr; [|done]. injection Hlist as Hlist.
  eapply wp_upd_tree; [exact Etr|]. steps. set (w2 := set_trees _ w1).
  eexists _, Ts. split; [reflexivity|]. fold p. destruct Hs. split; cbn [d_tabs d_curs d_next d_meta d_trans d_saved d_ck with_curs]; try done.
  - by apply (db_list w w2 Ts pt tr (p :: pCursors tr)).
  - split; cbn [cursors trees w1 w2 set_trees set_cursors fmap list_fmap fst]; [by constructor|rewrite dom_insert_L, Hdom; set_solver|done|..].
    + intros q cv [[= -> ->]|Hin]%elem_of_cons.
      * eexists. rewrite lookup_insert_eq. split; [done|]. split; try done. cbn. eauto.
      * destruct (Hr _ _ Hin) as (c0 & Hc0 & Hr0). exists c0. rewrite lookup_insert_ne; [done|].
        intros <-. apply Hp, list_elem_of_fmap. by exists (p, cv).
    + intros n' pt' t' H'. unfold curs_of. rewrite filter_cons. cbn [snd c_tab].
      destruct (decide (pt' = pt)) as [->|Hne].
      * rewrite lookup_insert_eq. assert (n' = n) as -> by (by eapply (i_inj _ _ Hdb)).
        rewrite decide_True by done. cbn. by rewrite Hlist.
      * rewrite lookup_insert_ne by done. rewrite decide_False; [by eapply Hl|]. intros <-. congruence.
Qed.

Lemma close_absent p l : p ∉ l.*1 -> close_cur p l = l.
Proof.
  intros Hp. apply filter_all, Forall_forall. intros [q cv] Hin Hq. cbn in Hq. subst q. apply Hp, list_elem_of_fmap. by exists (p, cv).
Qed.

Lemma close_in p l q cv : (q, cv) ∈ close_cur p l <-> q <> p /\ (q, cv) ∈ l.
Proof. unfold close_cur. by rewrite list_elem_of_filter. Qed.

Lemma close_fst p l x : x ∈ (close_cur p l).*1 <-> x <> p /\ x ∈ l.*1.
Proof.
  rewrite !list_elem_of_fmap. split.
  - intros ([q cv] & -> & [H1 H2]%close_in). split; [done|]. by exists (q, cv).
  - intros (H1 & [q cv] & -> & H2). exists (q, cv). by rewrite close_in.
Qed.

Lemma close_nodup p l : NoDup l.*1 -> NoDup (close_cur p l).*1.
Proof.
  induction l as [|[q cv] l IH]; [done|]. cbn. intros [Hq Hnd]%NoDup_cons.
  assert (Hc : q ∉ (close_cur p l).*1) by (rewrite close_fst; by intros [_ ?]).
  case_decide; [|by apply IH]. constructor; [done|by apply IH].
Qed.

(** The cursor is taken off the list of its table and off no other. *)
Lemma unlink_curs p cu l : NoDup l.*1 -> (p, cu) ∈ l ->
  unlink_cursor p (curs_of (c_tab cu) l).*1 = Some (curs_of (c_tab cu) (close_cur p l)).*1 /\
  forall n, n <> c_tab cu -> curs_of n (close_cur p l) = curs_of n l.
Proof.
  induction l as [|[q cv] l IH]; [by intros _ ?%elem_of_nil|]. cbn [fmap list_fmap fst].
  intros [Hq Hnd]%NoDup_cons Hin. unfold close_cur, curs_of in *. rewrite !filter_cons. cbn [fst snd].
  apply elem_of_cons in Hin as [[= <- <-]|Hin].
  - rewrite decide_True by done. rewrite (decide_False (P := p <> p)) by (by intros H).
    fold (close_cur p l). rewrite close_absent by done. cbn. rewrite bool_decide_eq_true_2 by done.
    split; [done|]. intros n Hn. rewrite decide_False; done.
  - destruct (IH Hnd Hin) as [IH1 IH2].
    assert (Hne : q <> p) by (intros ->; by apply Hq, list_elem_of_fmap; exists (p, cu)).
    rewrite (decide_True (P := q <> p)) by done. rewrite !filter_cons. cbn [snd]. split.
    + destruct (decide (c_tab cv = c_tab cu)); cbn; [|exact IH1].
      rewrite bool_decide_eq_false_2 by done. by rewrite IH1.
    + intros n Hn. rewrite !filter_cons. cbn [snd]. destruct (decide (c_tab cv = n)); rewrite IH2 by done; done.
Qed.

Lemma ok_close p : step_ok (RClose p).
Proof.
  intros w d Ts C Hs [cu Hp]. the_cursor Hs Hp. cbn [run_rb_op spec_step spec_fun]. unfold memRbtreeCloseCursor. steps.
  destruct (s_curs _ _ _ Hs) as [Hnd Hdom _ Hr Hl]. pose proof (s_inv _ _ _ Hs) as Hdb.
  pose proof Hp as Hin. apply cur_at_in in Hin; [|done].
  destruct (unlink_curs p cu (d_curs d) Hnd Hin) as [Hun Hoth].
  pose proof (Hl _ _ _ HT) as Hlist. destruct (trees w !! pTree c) as [tr|] eqn:Etr; [|done]. injection Hlist as Hlist.
  steps. rewrite Hlist, Hun. eapply wp_upd_tree; [exact Etr|]. steps. unfold free_cursor. steps. apply wp_rupd. steps.
  eexists _, Ts. split; [reflexivity|]. set (w1 := set_cursors _ _).
  destruct Hs. split; cbn [d_tabs d_curs d_next d_meta d_trans d_saved d_ck with_curs]; try done.
  - by eapply (db_list w w1 Ts (pTree c) tr).
  - split; cbn [cursors trees w1 set_trees set_cursors]; [|rewrite dom_delete_L, Hdom|done|..].
    + by apply close_nodup.
    + rewrite !(right_id_L ∅ (∪)). apply set_eq. intros x. rewrite elem_of_difference, !elem_of_list_to_set, close_fst. set_solver.
    + intros q cv [Hne Hin']%close_in. destruct (Hr _ _ Hin') as (c0 & Hc0 & Hr0). exists c0. by rewrite lookup_delete_ne.
    + intros n' pt' t' H'. destruct (decide (pt' = pTree c)) as [->|Hne].
      * rewrite lookup_insert_eq. by assert (n' = c_tab cu) as -> by (by eapply (i_inj _ _ Hdb)).
      * rewrite lookup_insert_ne by done. rewrite Hoth; [by eapply Hl|]. intros ->. congruence.
Qed.
