(* ===== verification/RbRefine.v ===== *)
(** The operations of a database in memory that change tables and transactions, and the
    whole of it. *)
From S2P Require Import Prelude OsFile Util Hash HashKey HashList HashSpec HashMap Rbtree RbShape RbRotate RbInsert RbDelete RbOrder RbCursor RbTable RbUpdate RbSpec RbDb RbLog RbClear RbSim.

(** * The logs *)

Lemma log_all_trans_state ops w : eTransState w = TRANS_INTRANSACTION ->
  log_of (log_all ops w) = (ops ++ pTransRollback w, pCheckRollback w).
Proof.
  intros E. induction ops as [|op ops IH]; [done|]. cbn. unfold log_of, logged in *.
  rewrite log_all_trans, E. cbn. injection IH as -> ->. done.
Qed.

Lemma log_all_ckpt_state ops w : eTransState w = TRANS_INCHECKPOINT ->
  log_of (log_all ops w) = (pTransRollback w, ops ++ pCheckRollback w).
Proof.
  intros E. induction ops as [|op ops IH]; [done|]. cbn. unfold log_of, logged in *.
  rewrite log_all_trans, E. cbn. injection IH as -> ->. done.
Qed.

(** The entries of an operation on table [n] are logged. *)
Lemma sim_logs w w' d Ts n ops ts' nx : sim w d Ts -> d_trans d <> TRANS_NONE ->
  log_of w' = log_of (log_all ops w) -> undo_list ops ts' = Some (d_tabs d) ->
  Forall (fun op => iTab op = n) ops -> is_int32 n -> n < nx -> d_next d <= nx ->
  Forall (fun op => is_int32 (iTab op) /\ iTab op < nx) (pTransRollback w' ++ pCheckRollback w') /\
  logs_ok (d_trans d) (pTransRollback w') (pCheckRollback w') ts' (d_saved d) (d_ck d).
Proof.
  intros [Hinv Htabs Hcurs Hnext Hmeta Htrans Hbound Hrange Hsops Hslogs] Hst Hl Hun Hops Hn Hlt Hle.
  assert (Hall : Forall (fun op => is_int32 (iTab op) /\ iTab op < nx) (ops ++ pTransRollback w ++ pCheckRollback w)).
  { apply Forall_app. split; [by eapply Forall_impl; [exact Hops|]; intros ? ->|].
    eapply Forall_impl; [exact Hsops|]. intros op [? ?]. split; [done|lia]. }
  rewrite !Forall_app in Hall. destruct Hall as (H1 & H2 & H3).
  inversion Hslogs as [ts sv k E1 E2 E3|lt ts sv k Hu E1 E2 E3|lt lc ts sv k Hu1 Hu2 E1 E2 E3]; subst; [congruence|..].
  - rewrite log_all_trans_state in Hl by congruence. injection Hl as -> ->. rewrite <- E3.
    split; [by rewrite !Forall_app|]. constructor. by rewrite undo_app, Hun.
  - rewrite log_all_ckpt_state in Hl by congruence. injection Hl as -> ->.
    split; [by rewrite !Forall_app|]. constructor; [|done]. by rewrite undo_app, Hun.
Qed.

(** * Records *)

Lemma sim_locked w d Ts cs l : sim w d Ts -> curs_inv (set_cursors cs w) Ts None l ->
  sim (set_cursors cs w) (with_curs l d) Ts.
Proof. intros [] Hcu. split; cbn; try done. by apply (db_inv_ext w). Qed.

Lemma sim_after w w' d Ts p n m l : sim w d Ts -> d_trans d <> TRANS_NONE -> after_op w w' Ts None p n m l ->
  is_Some (d_tabs d !! n) -> exists Ts', sim w' (with_tabs (<[n := m]> (d_tabs d)) (with_curs l d)) Ts'.
Proof.
  intros Hs Hst (Ts' & op & _ & H1 & H2 & H3 & H4 & (H5 & H6 & H7) & H8 & H9 & H10) Hn. exists Ts'.
  assert (Hint : is_int32 n).
  { destruct Hn as [m0 Hn]. rewrite <- (s_tabs _ _ _ Hs) in Hn. unfold contents in Hn. rewrite lookup_fmap in Hn.
    destruct (Ts !! n) eqn:HT; [|done]. by eapply (i_int _ _ (s_inv _ _ _ Hs)). }
  assert (Hlt : n < d_next d) by by apply (s_bound _ _ _ Hs).
  rewrite (s_tabs _ _ _ Hs) in H2, H10.
  destruct (sim_logs w w' d Ts n [op] (contents Ts') (d_next d)) as [Ho Hl]; try done.
  { cbn. by rewrite H10. }
  { by constructor. }
  rewrite H2 in Hl. destruct Hs as [Hinv Htabs Hcurs Hnext Hmeta Htrans Hbound Hrange Hsops Hslogs]. split; cbn [d_tabs d_curs d_next d_meta d_trans d_saved d_ck with_tabs with_curs]; try done; try congruence.
  intros n' [<-|[_ Hn']]%lookup_insert_is_Some; [done|by apply Hbound].
Qed.

Lemma ok_insert p k v : step_ok (RInsert p k v).
Proof.
  intros w d Ts C Hs ([Hst (cu & Hp & Hwc)] & _). the_cursor Hs Hp. cbn [run_rb_op spec_step spec_fun]. unfold insert_spec. rewrite Hp. steps.
  rewrite <- Htab in HT, Hd |- *. pose proof (sim_trans_state _ _ _ Hs Hst) as Htr.
  eapply (wp_insert_db w Ts None (d_curs d) p c t); [apply Hs|apply Hs|done|done|done|congruence|..];
    destruct (lock_table p (iTree c) (d_curs d)) as [b l] eqn:El; cbn [fst snd].
  - intros -> cs' Hi. steps. eexists _, Ts. split; [reflexivity|]. by apply sim_locked.
  - intros -> w' Ha. steps. destruct (sim_after _ _ _ _ _ _ _ _ Hs Hst Ha) as [Ts' Hs']; [by eexists|].
    eexists _, Ts'. split; [reflexivity|]. rewrite Hwc. by rewrite (alter_insert_eq _ _ _ _ Hd).
Qed.

Lemma pos_node es pos k : pos_rel es pos k ->
  match pos with Some a => exists e, e ∈ es /\ a = e_addr e | None => True end.
Proof. destruct pos, k; try done. intros (e & He & <- & _). eauto. Qed.

Lemma ok_delete p : step_ok (RDelete p).
Proof.
  intros w d Ts C Hs (Hst & cu & Hp & Hwc). the_cursor Hs Hp. cbn [run_rb_op spec_step spec_fun]. unfold delete_spec. rewrite Hp. steps.
  rewrite <- Htab in HT, Hd |- *. pose proof (sim_trans_state _ _ _ Hs Hst) as Htr.
  eapply (wp_delete_db w Ts None (d_curs d) p c t); [apply Hs|apply Hs|done|done|done|congruence|..|by eapply pos_node];
    destruct (lock_table p (iTree c) (d_curs d)) as [b l] eqn:El; cbn [fst snd].
  - intros -> cs' Hi. steps. eexists _, Ts. split; [reflexivity|]. by apply sim_locked.
  - intros -> cs' Hi Hn. steps. eexists _, Ts. rewrite Hn in Hpos. destruct (c_pos cu); [done|].
    split; [reflexivity|]. by apply sim_locked.
  - intros -> w' e He Hn Ha. steps. destruct (sim_after _ _ _ _ _ _ _ _ Hs Hst Ha) as [Ts' Hs']; [by eexists|].
    rewrite Hn in Hpos. destruct (c_pos cu) as [k|]; [|done]. destruct Hpos as (e' & He' & Hae & <-).
    assert (e' = e) as -> by (eapply same_addr; [apply Hh|done..]).
    eexists _, Ts'. split; [reflexivity|]. rewrite Hd, (alter_insert_eq _ _ _ _ Hd), Hwc. exact Hs'.
Qed.

(** * Tables *)

Lemma sim_step w w' d Ts Ts' n ops nx ts' : sim w d Ts -> d_trans d <> TRANS_NONE ->
  logged_step w w' Ts Ts' n ops -> next_idx w' = nx -> curs_inv w' Ts' None (d_curs d) ->
  contents Ts' = ts' -> d_next d <= nx -> is_int32 nx -> is_int32 n -> n < nx ->
  (forall n', is_Some (ts' !! n') -> n' = n \/ is_Some (d_tabs d !! n')) ->
  sim w' (mkDb ts' (d_curs d) (d_trans d) (d_saved d) (d_ck d) nx (d_meta d)) Ts'.
Proof.
  intros Hs Hst [H1 H2 H3 H4 H5 H6 H7] Hnx Hcu Hts Hle Hr Hn Hlt Hdom. rewrite (s_tabs _ _ _ Hs), Hts in H3.
  destruct (sim_logs w w' d Ts n ops ts' nx) as [Ho Hl]; try done.
  destruct Hs as [Hinv Htabs Hcurs Hnext Hmeta Htrans Hbound Hrange Hsops Hslogs].
  split; cbn [d_tabs d_curs d_next d_meta d_trans d_saved d_ck]; try done; try congruence.
  intros n' [->|Hn']%Hdom; [done|]. apply Hbound in Hn'. lia.
Qed.

(** The table of a number, in the code. *)
Lemma sim_table w d Ts n : sim w d Ts -> is_Some (d_tabs d !! n) -> n < d_next d /\ is_int32 n /\
  exists pt t, Ts !! n = Some (pt, t).
Proof.
  intros Hs Hn. split; [by apply (s_bound _ _ _ Hs)|]. destruct Hn as [m Hn].
  rewrite <- (s_tabs _ _ _ Hs) in Hn. unfold contents in Hn. rewrite lookup_fmap in Hn.
  destruct (Ts !! n) as [[pt t]|] eqn:HT; [|done]. split; [by eapply (i_int _ _ (s_inv _ _ _ Hs))|eauto].
Qed.

Lemma ok_clear n : step_ok (RClear n).
Proof.
  intros w d Ts C Hs (Hst & Hn & Hpos). destruct (sim_table _ _ _ _ Hs Hn) as (Hlt & Hint & pt & t & HT).
  cbn [run_rb_op spec_step spec_fun]. steps.
  eapply (wp_clear_db w Ts None (d_curs d)); [apply Hs|apply Hs|by eapply sim_trans_state|exact HT|..].
  { intros p cu Hin Htab. apply (Hpos p). by apply list_elem_of_filter. }
  intros w' ops Hls Hnx Hcu. steps. eexists _, _. split; [reflexivity|].
  eapply sim_step; [exact Hs|done|exact Hls|rewrite Hnx; apply Hs|exact Hcu| |lia|apply Hs|done|done|].
  - rewrite contents_insert, (s_tabs _ _ _ Hs). done.
  - intros n' [<-|[_ Hn']]%lookup_insert_is_Some; auto.
Qed.

Lemma ok_drop n : step_ok (RDrop n).
Proof.
  intros w d Ts C Hs (Hst & Hn & Hno). destruct (sim_table _ _ _ _ Hs Hn) as (Hlt & Hint & pt & t & HT).
  cbn [run_rb_op spec_step spec_fun]. steps.
  eapply (wp_drop_db w Ts None (d_curs d)); [apply Hs|apply Hs|by eapply sim_trans_state|exact HT|done|..].
  intros w' ops Hls Hnx Hcu. steps. eexists _, _. split; [reflexivity|].
  eapply sim_step; [exact Hs|done|exact Hls|rewrite Hnx; apply Hs|exact Hcu| |lia|apply Hs|done|done|].
  - by rewrite contents_delete, (s_tabs _ _ _ Hs).
  - intros n' [_ Hn']%lookup_delete_is_Some. auto.
Qed.

Lemma ok_create : step_ok RCreate.
Proof.
  intros w d Ts C Hs [Hst Hlt]. cbn [run_rb_op spec_step spec_fun]. steps.
  assert (Hnone : Ts !! d_next d = None).
  { destruct (Ts !! d_next d) as [[pt t]|] eqn:HT; [|done].
    assert (d_next d < d_next d); [|lia]. apply (s_bound _ _ _ Hs).
    rewrite <- (s_tabs _ _ _ Hs), (contents_lookup _ _ _ _ HT). by eexists. }
  pose proof (s_range _ _ _ Hs) as Hr. rewrite <- (s_next _ _ _ Hs) in Hnone, Hr.
  eapply (wp_create_db w Ts None (d_curs d)); [apply Hs|apply Hs|by eapply sim_trans_state|exact Hnone|exact Hr|].
  intros w' q Hls Hnx Hcu. steps. eexists _, _. rewrite (s_next _ _ _ Hs) in *. split; [reflexivity|].
  eapply sim_step; [exact Hs|done|exact Hls|exact Hnx|exact Hcu| |lia| |done|lia|].
  - rewrite contents_insert, (s_tabs _ _ _ Hs). done.
  - unfold is_int32 in *. lia.
  - intros n' [<-|[_ Hn']]%lookup_insert_is_Some; auto.
Qed.

(** * Transactions *)

Lemma undo_bound b ops : forall ts ts', undo_list ops ts = Some ts' ->
  Forall (fun op => is_int32 (iTab op) /\ iTab op < b) ops ->
  (forall n, is_Some (ts !! n) -> n < b) -> forall n, is_Some (ts' !! n) -> n < b.
Proof.
  induction ops as [|op ops IH]; cbn [undo_list]; intros ts ts' Hun Hb Hts; [by injection Hun as <-|].
  destruct (undo_op op ts) as [ts1|] eqn:E; [|done]. apply Forall_cons in Hb as [[_ Hop] Hb].
  eapply IH; [exact Hun|exact Hb|]. intros n Hn. unfold undo_op in E.
  repeat case_match; simplify_option_eq;
    first [apply lookup_insert_is_Some in Hn as [<-|[_ Hn]]; auto | apply lookup_delete_is_Some in Hn as [_ Hn]; auto].
Qed.

(** Only the state of the transaction changes. *)
Lemma sim_state w d Ts st lt lc saved ck : sim w d Ts ->
  logs_ok st lt lc (d_tabs d) saved ck ->
  (forall op, op ∈ lt ++ lc -> op ∈ pTransRollback w ++ pCheckRollback w) ->
  sim (set_eTransState st (set_logs lt lc w)) (with_trans st saved ck d) Ts.
Proof.
  intros [Hinv Htabs Hcurs Hnext Hmeta Htrans Hbound Hrange Hsops Hslogs] Hl Hin.
  split; cbn; try done; [by apply (db_inv_ext w)|by apply (curs_ext w)|].
  rewrite Forall_forall in Hsops |- *. auto.
Qed.

Lemma logs_id w : w = set_logs (pTransRollback w) (pCheckRollback w) w.
Proof. by destruct w. Qed.

Lemma state_none w d Ts : sim w d Ts -> d_trans d = TRANS_NONE -> pTransRollback w = [] /\ pCheckRollback w = [].
Proof. intros Hs E. pose proof (s_logs _ _ _ Hs) as Hl. rewrite E in Hl. by inversion Hl. Qed.

Lemma state_trans w d Ts : sim w d Ts -> d_trans d = TRANS_INTRANSACTION ->
  pCheckRollback w = [] /\ undo_list (pTransRollback w) (d_tabs d) = Some (d_saved d).
Proof. intros Hs E. pose proof (s_logs _ _ _ Hs) as Hl. rewrite E in Hl. by inversion Hl. Qed.

Lemma state_ckpt w d Ts : sim w d Ts -> d_trans d = TRANS_INCHECKPOINT ->
  undo_list (pCheckRollback w) (d_tabs d) = Some (d_ck d) /\ undo_list (pTransRollback w) (d_ck d) = Some (d_saved d).
Proof. intros Hs E. pose proof (s_logs _ _ _ Hs) as Hl. rewrite E in Hl. by inversion Hl. Qed.

Lemma ok_begin : step_ok RBegin.
Proof.
  intros w d Ts C Hs _. cbn [run_rb_op spec_step spec_fun]. unfold memRbtreeBeginTrans. steps. rewrite (s_trans _ _ _ Hs).
  destruct (Z.eqb_spec (d_trans d) TRANS_NONE) as [E|Hne]; cbn [negb]; steps; [|by exists d, Ts].
  destruct (state_none _ _ _ Hs E) as [El Ec]. rewrite El. apply wp_assert; [done|]. steps. apply wp_rupd. steps.
  eexists _, Ts. split; [reflexivity|]. rewrite (logs_id w) at 1. rewrite El, Ec.
  apply sim_state; [done| |by intros op ?%elem_of_nil]. by constructor.
Qed.

Lemma ok_commit : step_ok RCommit.
Proof.
  intros w d Ts C Hs _. cbn [run_rb_op spec_step spec_fun]. unfold memRbtreeCommit. steps. apply wp_rupd. steps.
  apply wp_rupd. steps. eexists _, Ts. split; [reflexivity|].
  apply sim_state; [done|constructor|by intros op ?%elem_of_nil].
Qed.

Lemma ok_begin_ckpt : step_ok RBeginCkpt.
Proof.
  intros w d Ts C Hs _. cbn [run_rb_op spec_step spec_fun]. unfold memRbtreeBeginCkpt. steps. rewrite (s_trans _ _ _ Hs).
  destruct (Z.eqb_spec (d_trans d) TRANS_INTRANSACTION) as [E|Hne]; cbn [negb]; steps; [|by exists d, Ts].
  destruct (state_trans _ _ _ Hs E) as [Ec El]. rewrite Ec. apply wp_assert; [done|]. steps. apply wp_rupd. steps.
  eexists _, Ts. split; [reflexivity|]. rewrite (logs_id w) at 1. rewrite Ec.
  apply sim_state; [done|by constructor|by rewrite Ec].
Qed.

Lemma ok_commit_ckpt : step_ok RCommitCkpt.
Proof.
  intros w d Ts C Hs _. cbn [run_rb_op spec_step spec_fun]. unfold memRbtreeCommitCkpt. steps. rewrite (s_trans _ _ _ Hs).
  destruct (Z.eqb_spec (d_trans d) TRANS_INCHECKPOINT) as [E|Hne]; cbn [mwhen]; steps; [|by exists d, Ts].
  destruct (state_ckpt _ _ _ Hs E) as [Ec El]. apply wp_rupd. steps. apply wp_rupd. steps.
  eexists _, Ts. split; [reflexivity|]. apply sim_state; [done| |].
  - constructor. by rewrite undo_app, Ec.
  - rewrite app_nil_r. intros op. rewrite !elem_of_app. tauto.
Qed.

(** The end of a rollback that brought the tables to [ts']. *)
Lemma sim_rolled w w' d Ts Ts' st lt saved ck : sim w d Ts -> d_curs d = [] -> db_inv w' Ts' ->
  curs_inv w' Ts' None [] -> same_rest (set_eTransState TRANS_ROLLBACK w) w' ->
  (forall n, is_Some (contents Ts' !! n) -> n < d_next d) ->
  logs_ok st lt [] (contents Ts') saved ck -> (forall op, op ∈ lt -> op ∈ pTransRollback w ++ pCheckRollback w) ->
  sim (set_eTransState st (set_logs lt [] w')) (with_trans st saved ck (with_tabs (contents Ts') d)) Ts'.
Proof.
  intros [Hinv Htabs Hcurs Hnext Hmeta Htrans Hbound Hrange Hsops Hslogs] Hno Hinv' Hcu' (H1 & H2 & H3) Hb' Hl Hin.
  cbn in H1, H2.
  split; cbn; try done; try congruence; [by apply (db_inv_ext w')|rewrite Hno; by apply (curs_ext w')|].
  rewrite app_nil_r. rewrite Forall_forall in Hsops |- *. auto.
Qed.

Lemma ok_rollback_ckpt : step_ok RRollbackCkpt.
Proof.
  intros w d Ts C Hs Hno. cbn [run_rb_op spec_step spec_fun allowed] in *. unfold memRbtreeRollbackCkpt. steps. rewrite (s_trans _ _ _ Hs).
  destruct (Z.eqb_spec (d_trans d) TRANS_INCHECKPOINT) as [E|Hne]; cbn [negb]; steps; [|by exists d, Ts].
  destruct (state_ckpt _ _ _ Hs E) as [Ec El]. apply wp_rupd. steps. cbn [pCheckRollback set_eTransState].
  pose proof (s_curs _ _ _ Hs) as Hcu. rewrite Hno in Hcu. pose proof (s_ops _ _ _ Hs) as Hops.
  apply Forall_app in Hops as [Hol Hoc].
  eapply (wp_rollback_list _ Ts _ (d_ck d)); [by apply (db_inv_ext w), Hs|by apply (curs_ext w)|done|by rewrite (s_tabs _ _ _ Hs)| |].
  { eapply Forall_impl; [exact Hoc|]. by intros op [? _]. }
  intros w' Ts' Hdb' Hts' Hcu' Hrest Hlog. steps. apply wp_rupd. steps. apply wp_rupd. steps.
  eexists _, Ts'. split; [reflexivity|]. rewrite <- Hts' in *. injection Hlog as -> _.
  apply (sim_rolled w _ d Ts); try done.
  - by eapply undo_bound; [exact Ec|exact Hoc|apply Hs].
  - by constructor.
  - intros op Hin. apply elem_of_app. by left.
Qed.

Lemma ok_rollback : step_ok RRollback.
Proof.
  intros w d Ts C Hs Hno. cbn [run_rb_op spec_step spec_fun allowed] in *. unfold memRbtreeRollback. steps. apply wp_rupd. steps.
  cbn [pCheckRollback set_eTransState].
  pose proof (s_curs _ _ _ Hs) as Hcu. rewrite Hno in Hcu. pose proof (s_ops _ _ _ Hs) as Hops.
  apply Forall_app in Hops as [Hol Hoc].
  assert (exists ts1, undo_list (pCheckRollback w) (d_tabs d) = Some ts1 /\ undo_list (pTransRollback w) ts1 =
    Some (if d_trans d =? TRANS_NONE then d_tabs d else d_saved d)) as (ts1 & E1 & E2).
  { destruct (s_logs _ _ _ Hs); cbn; eauto. }
  assert (Hint : forall l, Forall (fun op => is_int32 (iTab op) /\ iTab op < d_next d) l -> Forall (fun op => is_int32 (iTab op)) l).
  { intros l Hl. eapply Forall_impl; [exact Hl|]. by intros op [? _]. }
  eapply (wp_rollback_list _ Ts _ ts1); [by apply (db_inv_ext w), Hs|by apply (curs_ext w)|done|by rewrite (s_tabs _ _ _ Hs)|auto|].
  intros w1 Ts1 Hdb1 Hts1 Hcu1 Hrest1 Hlog1. steps. injection Hlog1 as -> _.
  eapply (wp_rollback_list w1 Ts1 _ _); [done|done|by destruct Hrest1 as (_ & _ & ->)|by rewrite Hts1|auto|].
  intros w2 Ts2 Hdb2 Hts2 Hcu2 Hrest2 Hlog2. steps. apply wp_rupd. steps. apply wp_rupd. steps.
  eexists _, Ts2. split; [reflexivity|].
  replace (if d_trans d =? TRANS_NONE then d else with_tabs (d_saved d) d) with (with_tabs (contents Ts2) d)
    by (rewrite Hts2; by destruct d as [? ? st ? ? ? ?]; cbn; destruct (st =? TRANS_NONE)).
  apply (sim_rolled w _ d Ts); try done.
  - by eapply same_rest_trans.
  - intros n. rewrite Hts2. eapply undo_bound; [exact E2|exact Hol|].
    by eapply undo_bound; [exact E1|exact Hoc|apply Hs].
  - constructor.
  - by intros op ?%elem_of_nil.
Qed.

(** * The whole *)

Lemma rb_step_ok o : step_ok o.
Proof.
  destruct o; [apply ok_begin|apply ok_commit|apply ok_rollback|apply ok_begin_ckpt|apply ok_commit_ckpt
    |apply ok_rollback_ckpt|apply ok_create|apply ok_drop|apply ok_clear|apply ok_open|apply ok_close|apply ok_moveto
    |apply ok_insert|apply ok_delete|apply ok_first|apply ok_last|apply ok_next|apply ok_prev|apply ok_key_size
    |apply ok_data_size|apply ok_key|apply ok_data|apply ok_compare|apply ok_get_meta|apply ok_set_meta].
Qed.

(** The state of a database on which nothing was done yet. *)
Lemma open_ok : exists w Ts, sqliteRbtreeOpen [] = Done SQLITE_OK w /\ sim w opened Ts.
Proof.
  unfold sqliteRbtreeOpen. match goal with |- context [?m (mkRbtree ?a ?b ?c ?d ?e ?f ?g ?h ?i ?j)] =>
    set (w0 := mkRbtree a b c d e f g h i j); set (prog := m) end.
  cut (wp prog (fun rc w => rc = SQLITE_OK /\ exists Ts, sim w opened Ts) (fun _ => False) w0).
  { intros (rc & w & E & -> & Ts & Hs)%wp_returns. by exists w, Ts. }
  unfold prog. steps. apply wp_sqliteMalloc; [done|]. steps. cbn [malloc_failed w0]. steps.
  destruct (sqliteHashInit SQLITE_HASH_INT false) as [h|] eqn:Eh; [|done]. steps. apply wp_rupd. steps.
  set (w1 := set_tblHash _ _ _).
  assert (Hdb : db_inv w1 ∅).
  { split.
    - done.
    - exists ∅. split; [|by intros [|n [|]]; rewrite !lookup_empty].
      exists (fun _ => ([], 0)), []. by eapply init_rep.
    - intros n x. by rewrite lookup_empty.
    - intros n pt t. by rewrite lookup_empty.
    - intros n n' pt t t'. by rewrite lookup_empty.
    - intros n n' pt pt' t t' x. by rewrite lookup_empty.
    - intros x. cbn. rewrite lookup_empty. split; [by intros [? ?]|]. intros (n & pt & t & H & _). by rewrite lookup_empty in H.
    - intros q. cbn. rewrite lookup_empty. split; [by intros [? ?]|]. intros (n & t & H). by rewrite lookup_empty in H. }
  assert (Hcu : curs_inv w1 ∅ None []).
  { split; cbn; [constructor|set_solver|done|by intros p cu ?%elem_of_nil|].
    intros n pt t. by rewrite lookup_empty. }
  eapply (wp_new_table w1 ∅ None [] 2); [done..|]. intros w2 q Hdb2 Hcu2 (H1 & H2 & H3) Hl Hcs. steps.
  rewrite (proj2 (i_fail _ _ Hdb2)). steps. apply wp_rupd. steps. apply wp_rupd. steps. split; [done|].
  eexists. injection Hl as Hl1 Hl2. split; cbn; try done.
  - by apply (db_inv_ext w2).
  - rewrite contents_insert. unfold contents. by rewrite fmap_empty.
  - by apply (curs_ext w2).
  - by rewrite H2.
  - by intros n [x [<- _]%lookup_singleton_Some].
  - by rewrite Hl1, Hl2.
  - rewrite Hl1, Hl2. constructor.
Qed.

(** A client's calls, one after the other. *)
Lemma wp_client client d0 n : forall rs w d Ts, well_behaved client d0 -> sim w d Ts -> reaches client d0 rs d ->
  wp (run_client n client rs) (fun rs' w' => length rs' = (length rs + n)%nat /\
    exists d' Ts', reaches client d0 rs' d' /\ sim w' d' Ts') (fun _ => False) w.
Proof.
  induction n as [|n IH]; intros rs w d Ts Hwb Hs Hr; cbn [run_client].
  { apply wp_ret. split; [lia|eauto]. }
  apply wp_bind. eapply wp_mono; [by apply (rb_step_ok (client rs) w d Ts (fun _ => False) Hs), (Hwb rs)| |done].
  intros r w' (d' & Ts' & Hstep & Hs'). cbn. eapply wp_mono; [eapply (IH (rs ++ [r])); [done|exact Hs'|]| |done].
  - by eapply reach_step.
  - cbn. intros rs' w2 [Hlen Hex]. split; [|done]. rewrite Hlen, length_app. cbn. lia.
Qed.
