(* ===== verification/RbCheck.v ===== *)
(** [check_redblack_tree]: what it complains about, and that it finds nothing in a
    database in memory; the depth of its trees; [memRbtreeClose]. *)
From S2P Require Import Prelude Util Hash HashKey HashList HashSpec HashMap OsFile Rbtree RbShape RbRotate RbInsert RbDelete RbOrder RbCursor RbTable RbUpdate RbSpec RbDb RbLog RbClear.

(** * The depth of a red-black tree *)

Lemma rb_depth t : forall n, rb n t -> (depth t <= 2 * n + if isblack t then 0 else 1)%nat.
Proof.
  induction t as [|[] l IHl e r IHr]; intros n H; cbn in *; [lia| |].
  - destruct n as [|n]; [done|]. destruct H as [Hl Hr]. apply IHl in Hl. apply IHr in Hr.
    destruct (isblack l), (isblack r); lia.
  - destruct H as (Bl & Br & Hl & Hr). apply IHl in Hl. apply IHr in Hr. rewrite Bl in Hl. rewrite Br in Hr. lia.
Qed.

Lemma rb_length t : forall n, rb n t -> (2 ^ n <= S (length (elems t)))%nat.
Proof.
  induction t as [|[] l IHl e r IHr]; intros n H; cbn [rb elems] in *; [subst; done| |]; rewrite length_app; cbn [length].
  - destruct n as [|n]; [done|]. destruct H as [Hl Hr]. apply IHl in Hl. apply IHr in Hr. rewrite Nat.pow_succ_r'. lia.
  - destruct H as (Bl & Br & Hl & Hr). apply IHl in Hl. lia.
Qed.

Lemma valid_depth t : valid t -> (depth t <= 2 * Nat.log2 (S (length (elems t))))%nat.
Proof.
  intros [Hb [n Hn]]. pose proof (rb_depth t n Hn) as Hd. rewrite Hb in Hd. pose proof (rb_length t n Hn) as Hl.
  apply Nat.log2_le_mono in Hl. rewrite Nat.log2_pow2 in Hl by lia. lia.
Qed.

(** * What the check says *)

(** The number of black nodes below, counted on the left. *)
Fixpoint black_height (t : T) : Z :=
  match t with E => 0 | N b l _ _ => black_height l + (if b then 1 else 0) end.

(** The complaints about a tree, in the order in which they are found. *)
Fixpoint complaints (t : T) : list complaint :=
  match t with
  | E => []
  | N b l e r =>
      complaints l ++ complaints r ++
      (if negb b && negb (isblack l && isblack r) then [RedWithRedChild (e_addr e)] else []) ++
      (if negb (black_height l =? black_height r) then [DifferentBlackHeights (e_addr e)] else [])
  end.

Lemma rb_height t : forall n, rb n t -> black_height t = Z.of_nat n.
Proof.
  induction t as [|[] l IHl e r IHr]; intros n H; cbn [rb black_height] in *; [by subst| |].
  - destruct n as [|n]; [done|]. destruct H as [Hl Hr]. rewrite (IHl n) by done. lia.
  - destruct H as (_ & _ & Hl & Hr). rewrite (IHl n) by done. lia.
Qed.

(** The check finds nothing exactly in the trees that meet the red-black conditions. *)
Lemma complaints_nil t : complaints t = [] <-> exists n, rb n t.
Proof.
  induction t as [|b l IHl e r IHr]; cbn [complaints]; [by split; [exists 0%nat|]|].
  rewrite !app_nil, IHl, IHr. split.
  - intros ([nl Hl] & [nr Hr] & Hc & Hh). rewrite (rb_height _ _ Hl), (rb_height _ _ Hr) in Hh.
    destruct (Z.eqb_spec (Z.of_nat nl) (Z.of_nat nr)) as [Eh|]; [|done].
    assert (nl = nr) as -> by lia. destruct b; cbn in Hc |- *; [by exists (S nr)|].
    exists nr. destruct (isblack l), (isblack r); done.
  - intros [n Hn]. destruct b; cbn in Hn.
    + destruct n as [|n]; [done|]. destruct Hn as [Hl Hr]. 
      rewrite (rb_height _ _ Hl), (rb_height _ _ Hr), Z.eqb_refl. cbn. split_and!; eauto.
    + destruct Hn as (Bl & Br & Hl & Hr). rewrite (rb_height _ _ Hl), (rb_height _ _ Hr), Z.eqb_refl, Bl, Br. cbn. split_and!; eauto.
Qed.

(** The tree once the check has written down the heights. *)
Fixpoint mark (t : T) : T :=
  match t with
  | E => E
  | N b l e r => N b (mark l) (mkEntry (e_addr e) (e_key e) (e_data e) (black_height l)) (mark r)
  end.

Lemma mark_root t : root (mark t) = root t.
Proof. by destruct t. Qed.
Lemma mark_isblack t : isblack (mark t) = isblack t.
Proof. by destruct t. Qed.
Lemma mark_rb t : forall n, rb n t -> rb n (mark t).
Proof.
  induction t as [|[] l IHl e r IHr]; intros n; cbn; rewrite ?mark_isblack; [done| |naive_solver].
  destruct n; naive_solver.
Qed.
Lemma mark_addrs t : addrs (elems (mark t)) = addrs (elems t).
Proof. induction t as [|b l IHl e r IHr]; [done|]. cbn. by rewrite !addrs_app, !addrs_cons, IHl, IHr. Qed.
Lemma mark_keys t : keys (elems (mark t)) = keys (elems t).
Proof. induction t as [|b l IHl e r IHr]; [done|]. cbn. rewrite !keys_app. cbn. unfold keys in *. by rewrite IHl, IHr. Qed.

Lemma wp_height w p t (Q : Z -> Rbtree -> Prop) C : tree_at (nodes w) p (mark t) -> Q (black_height t) w ->
  wp (match root t with
      | Some c => n ← node c; mret (nBlackHeight n + (if isBlack n then 1 else 0))
      | None => mret 0
      end) Q C w.
Proof. destruct t as [|b l e r]; cbn; [by intros _ HQ; steps|]. intros (Hn & _) HQ. steps. done. Qed.

(** * The loop *)

(** The step above the place [fs]. *)
Definition step_above (fs : list frame) : Z := match fs with FL _ _ _ :: _ => 1 | _ => 2 end.

(** The last of the three visits of a node. *)
Lemma wp_check_here b l e r fs fuel w (Q : list complaint -> Rbtree -> Prop) C :
  tree_at (nodes w) None (plug (N b (mark l) e (mark r)) fs) ->
  NoDup (addrs (elems (plug (N b (mark l) e (mark r)) fs))) ->
  (forall w', tree_at (nodes w') None (plug (mark (N b l e r)) fs) ->
     (forall x, x <> e_addr e -> nodes w' !! x = nodes w !! x) -> w' = set_nodes (nodes w') w ->
     wp (check_loop fuel (top fs) (step_above fs)) (fun rest => Q
       ((if negb b && negb (isblack l && isblack r) then [RedWithRedChild (e_addr e)] else []) ++
        (if negb (black_height l =? black_height r) then [DifferentBlackHeights (e_addr e)] else []) ++ rest)) C w') ->
  wp (check_loop (S fuel) (Some (e_addr e)) 2) Q C w.
Proof.
  intros Hat Hnd HQ. pose proof Hat as Hat'. apply tree_at_plug in Hat' as [(Hx & Hl & Hr) Hw].
  rewrite elems_plug in Hnd. destruct (nodup_place _ _ _ Hnd) as (Hn1 & Hn2 & Hap).
  cbn [check_loop]. steps. cbn [Z.eqb Pos.eqb]. steps. apply wp_assert; [done|]. unfold check_node. steps. 
  cbn [to_node pLeft pRight isBlack].
  eapply wp_blackish; [exact Hl|]. steps. eapply wp_blackish; [exact Hr|]. rewrite !mark_isblack. steps.
  rewrite mark_root. eapply wp_height; [exact Hl|]. steps. rewrite mark_root. eapply wp_height; [exact Hr|]. steps.
  eapply wp_upd_node; [exact Hx|]. steps. cbn [to_node pParent]. set (w1 := set_nodes _ w).
  assert (Hat1 : tree_at (nodes w1) None (plug (mark (N b l e r)) fs)).
  { apply tree_at_plug. cbn [mark tree_at root nodes w1 set_nodes e_addr]. rewrite lookup_insert_eq. cbn [elems] in *.
    split; [split; [|split]|].
    - unfold to_node. by rewrite !mark_root.
    - eapply tree_at_ext; [exact Hl|]. intros x Hx'. apply lookup_insert_ne. intros <-. clear - Hn1 Hx'. apart.
    - eapply tree_at_ext; [exact Hr|]. intros x Hx'. apply lookup_insert_ne. intros <-. clear - Hn1 Hx'. apart.
    - eapply way_at_ext; [exact Hw|]. intros x Hx'. apply lookup_insert_ne. intros <-. eapply Hap; [|exact Hx']. mem. }
  assert (Hrest : wp (check_loop fuel (top fs) (step_above fs)) (fun rest w' => Q
    (((if negb b && negb (isblack l && isblack r) then [RedWithRedChild (e_addr e)] else []) ++
     (if negb (black_height l =? black_height r) then [DifferentBlackHeights (e_addr e)] else [])) ++ rest) w') C w1).
  { eapply wp_mono; [apply (HQ w1); [exact Hat1| |done]| |done].
    - intros x Hne. by apply lookup_insert_ne.
    - intros rest w' H. cbv beta in H. by rewrite <- (assoc_L (++)). }
  destruct fs as [|f fs]; cbn [top].
  - steps. eapply wp_mono; [exact Hrest| |done]. intros rest w' HQ'. by steps.
  - apply tree_at_plug in Hat1 as [_ Hw1]. cbn [mark root] in Hw1.
    destruct f as [fb fe fr|fb fl fe]; destruct Hw1 as (Hf & _); steps; cbn [pLeft].
    + rewrite bool_decide_eq_true_2 by done. eapply wp_mono; [exact Hrest| |done]. intros rest w' HQ'. by steps.
    + rewrite other_child.
      * eapply wp_mono; [exact Hrest| |done]. intros rest w' HQ'. by steps.
      * intros Hin. apply (Hap (e_addr e)); [mem|]. cbn [lefts]. clear - Hin. mem.
Qed.

Lemma root_cases t : t = E \/ (t <> E /\ exists a, root t = Some a).
Proof. destruct t as [|b l e r]; [by left|right]. split; [done|by eexists]. Qed.

(** The nodes of [t] are visited and marked. *)
Lemma wp_check_loop t : forall fs fuel w (Q : list complaint -> Rbtree -> Prop) C, t <> E ->
  tree_at (nodes w) None (plug t fs) -> NoDup (addrs (elems (plug t fs))) ->
  (forall w', tree_at (nodes w') None (plug (mark t) fs) -> 
     (forall x, x ∉ addrs (elems t) -> nodes w' !! x = nodes w !! x) -> w' = set_nodes (nodes w') w ->
     wp (check_loop fuel (top fs) (step_above fs)) (fun rest => Q (complaints t ++ rest)) C w') ->
  wp (check_loop (3 * length (elems t) + fuel) (root t) 0) Q C w.
Proof.
  induction t as [|b l IHl e r IHr]; intros fs fuel w Q C Hne Hat Hnd HQ; [done|]. clear Hne.
  assert (Hmark : forall l' r', addrs (elems l') = addrs (elems l) -> addrs (elems r') = addrs (elems r) ->
    NoDup (addrs (elems (plug (N b l' e r') fs)))).
  { intros l' r' El Er. rewrite elems_plug in Hnd |- *. cbn [elems] in *. rewrite !addrs_app, !addrs_cons in *. by rewrite El, Er. }
  assert (Hlast : forall w1, tree_at (nodes w1) None (plug (N b (mark l) e (mark r)) fs) ->
    (forall x, x ∉ addrs (elems (N b l e r)) -> nodes w1 !! x = nodes w !! x) -> w1 = set_nodes (nodes w1) w ->
    wp (check_loop (S fuel) (Some (e_addr e)) 2) (fun rest => Q (complaints l ++ complaints r ++ rest)) C w1).
  { intros w1 Hat1 Ho1 Ew1. eapply wp_check_here; [exact Hat1|by apply Hmark; apply mark_addrs|].
    intros w2 Hat2 Ho2 Ew2. eapply wp_mono; [apply (HQ w2 Hat2)| |done].
    - intros x Hx. rewrite Ho2, Ho1; [done|done|]. intros ->. apply Hx. cbn. mem.
    - rewrite Ew2, Ew1. done.
    - intros rest w'. cbn [complaints]. by rewrite <- !(assoc_L (++)). }
  assert (Hright : forall w1, tree_at (nodes w1) None (plug (N b (mark l) e r) fs) ->
    (forall x, x ∉ addrs (elems (N b l e r)) -> nodes w1 !! x = nodes w !! x) -> w1 = set_nodes (nodes w1) w ->
    wp (check_loop (S (3 * length (elems r) + S fuel)) (Some (e_addr e)) 1) (fun rest => Q (complaints l ++ rest)) C w1).
  { intros w1 Hat1 Ho1 Ew1. pose proof Hat1 as Hat'. apply tree_at_plug in Hat' as [(Hx & _ & _) _].
    cbn [check_loop]. steps. cbn [Z.eqb Pos.eqb to_node pRight].
    destruct (root_cases r) as [->|(Hne & a & Ea)]; [by apply Hlast|]. rewrite Ea, <- Ea.
    eapply (IHr (FR b (mark l) e :: fs)); [done|exact Hat1|apply Hmark; [apply mark_addrs|done]|].
    intros w2 Hat2 Ho2 Ew2. apply Hlast; [exact Hat2| |by rewrite Ew2, Ew1].
    intros x Hx'. rewrite Ho2, Ho1; [done|done|]. intros Hin. apply Hx'. cbn [elems]. clear - Hin. mem. }
  pose proof Hat as Hat'. apply tree_at_plug in Hat' as [(Hx & _ & _) _].
  replace (3 * length (elems (N b l e r)) + fuel)%nat
    with (S (3 * length (elems l) + S (3 * length (elems r) + S fuel)))%nat by (cbn; rewrite length_app; cbn; lia).
  cbn [check_loop root]. steps. cbn [Z.eqb to_node pLeft].
  destruct (root_cases l) as [->|(Hne & a & Ea)]; [apply Hright; [exact Hat|done|by destruct w]|]. rewrite Ea, <- Ea.
  eapply (IHl (FL b e r :: fs)); [done|exact Hat|exact Hnd|].
  intros w2 Hat2 Ho2 Ew2. apply Hright; [exact Hat2| |done].
  intros x Hx'. rewrite Ho2; [done|]. intros Hin. apply Hx'. cbn [elems]. clear - Hin. mem.
Qed.

Lemma wp_check_tree w pt t (Q : list complaint -> Rbtree -> Prop) C : holds w pt t ->
  (forall w', holds w' pt (mark t) -> (forall x, x ∉ addrs (elems t) -> nodes w' !! x = nodes w !! x) ->
     w' = set_nodes (nodes w') w -> Q (complaints t) w') ->
  wp (check_redblack_tree pt) Q C w.
Proof.
  intros Hh HQ. destruct (holds_head _ _ _ Hh) as (tr & Htr & Hhd). pose proof (holds_size _ _ _ Hh) as Hsz.
  unfold check_redblack_tree. steps. rewrite Hhd.
  assert (Hend : forall fuel s (Q' : list complaint -> Rbtree -> Prop) w', Q' [] w' -> wp (check_loop fuel None s) Q' C w').
  { intros fuel s Q' w' HQ'. by destruct fuel; apply wp_ret. }
  destruct (root_cases t) as [->|(Hne & _)]; [apply Hend, HQ; [done..|by destruct w]|].
  replace (3 * size (nodes w))%nat with (3 * length (elems t) + 3 * (size (nodes w) - length (elems t)))%nat by lia.
  destruct Hh as [H1 H2 H3]. eapply (wp_check_loop t []); [done|exact H2|exact H3|].
  intros w' Hat Ho Ew. cbn [top]. apply Hend. rewrite app_nil_r. apply HQ; [|done|done].
  split; [|done|by rewrite mark_addrs]. rewrite Ew. cbn. by rewrite mark_root.
Qed.

(** * The whole database *)

(** The elements of the table of tables, one after the other. *)
Lemma hash_walk h Ts : hash_tables h Ts -> exists κ l, first (tbl h) = head l /\ (length l <= size (heap h))%nat /\
  forward κ (heap h) l /\ (l = [] -> Ts = ∅) /\
  forall e x, e ∈ l -> heap h !! e = Some x -> exists pt t, Ts !! Hash.nKey x = Some (pt, t) /\ data x = Zpos pt.
Proof.
  intros (m & (κ & l & [[Hc Hnd Hf Hl Hb] _ _ _ Hh Hm _]) & Hq). exists κ, l. split; [done|].
  split; [by eapply linked_fuel|]. split; [by eapply linked_forward|]. split.
  - intros ->. apply map_empty. intros n. specialize (Hq [n]). cbn in Hq.
    destruct (Ts !! n) as [x|]; [|done]. cbn in Hq. apply Hm in Hq as (e & ?%elem_of_nil & _). done.
  - intros e x He Hx. apply list_elem_of_split in He as He'. destruct He' as (l1 & l2 & El).
    destruct (linked_forward _ _ _ Hl l1 e l2 El) as (p & x' & Hx' & _ & _ & Hk).
    rewrite Hx in Hx'. injection Hx' as <-.
    assert (Hme : m !! [(κ e).2] = Some (data x)).
    { apply Hm. exists e. rewrite Hx. done. }
    rewrite <- Hk in Hme. cbn [snd] in Hme. rewrite Hq in Hme.
    destruct (Ts !! Hash.nKey x) as [[pt t]|]; [|done]. injection Hme as <-. eauto.
Qed.

(** Marking a tree changes no entry. *)
Lemma changed_mark w w' pt t : holds w pt t -> valid t -> holds w' pt (mark t) ->
  (forall x, x ∉ addrs (elems t) -> nodes w' !! x = nodes w !! x) -> w' = set_nodes (nodes w') w ->
  changed w w' pt t (mark t).
Proof.
  intros Hh [Hb [n Hn]] Hh' Ho Ew. rewrite Ew in Hh' |- *. 
  split; cbn [nodes trees set_nodes]; rewrite ?mark_addrs; try done.
  - split; [by rewrite mark_isblack|]. exists n. by apply mark_rb.
  - intros x Hx _. by apply Ho.
  - intros x Hx. by left.
Qed.

Lemma wp_integrity_loop κ l : forall fuel w Ts (Q : list complaint -> Rbtree -> Prop) C,
  db_inv w Ts -> (length l <= fuel)%nat -> forward κ (heap (tblHash w)) l ->
  (forall e x, e ∈ l -> heap (tblHash w) !! e = Some x -> exists pt t, Ts !! Hash.nKey x = Some (pt, t) /\ data x = Zpos pt) ->
  (forall w' Ts', db_inv w' Ts' -> Q [] w') -> wp (integrity_loop fuel (head l)) Q C w.
Proof.
  induction l as [|e l IH]; intros fuel w Ts Q C Hdb Hf Hfw Hx HQ.
  { cbn [head]. destruct fuel; apply wp_ret; by eapply HQ. }
  destruct fuel as [|fuel]; [cbn in Hf; lia|]. cbn [integrity_loop head].
  apply forward_cons in Hfw as [(p & x & Hex & Hn & _ & _) Hfw].
  destruct (Hx e x) as (pt & t & HT & Hd); [by left|done|].
  destruct (i_tree _ _ Hdb _ _ _ HT) as (Hh & Hv & Ho).
  steps. apply wp_htab; [apply Hdb|]. eapply wp_deref; [exact Hex|]. split; [apply Hdb|].
  rewrite set_tblHash_same by apply Hdb. rewrite Hd. steps.
  eapply wp_check_tree; [exact Hh|]. intros w' Hh' Hout Ew. rewrite (proj2 (complaints_nil t)) by apply Hv. steps. rewrite Hn.
  pose proof (changed_mark w w' pt t Hh Hv Hh' Hout Ew) as Hch.
  assert (Hdb' : db_inv w' (<[Hash.nKey x := (pt, mark t)]> Ts)).
  { eapply db_update; [exact Hdb|exact HT|exact Hch|]. unfold ordered. by rewrite mark_keys. }
  assert (Eh : tblHash w' = tblHash w) by by rewrite Ew.
  eapply (IH fuel); [exact Hdb'|cbn in Hf; lia|by rewrite Eh|rewrite Eh|].
  - intros e' x' He' Hx'. destruct (Hx e' x') as (pt' & t' & HT' & Hd'); [by right|done|].
    destruct (decide (Hash.nKey x' = Hash.nKey x)) as [E|Hne].
    + rewrite E in *. rewrite HT in HT'. injection HT' as <- <-. exists pt, (mark t). by rewrite lookup_insert_eq.
    + exists pt', t'. by rewrite lookup_insert_ne.
  - intros w2 Ts2 Hdb2. steps. by eapply HQ.
Qed.

Lemma wp_integrity w Ts (Q : list complaint -> Rbtree -> Prop) C : db_inv w Ts ->
  (forall w' Ts', db_inv w' Ts' -> Q [] w') -> wp memRbtreeIntegrityCheck Q C w.
Proof.
  intros Hdb HQ. destruct (hash_walk _ _ (i_hash _ _ Hdb)) as (κ & l & Hf & Hsz & Hfw & _ & Hx).
  unfold memRbtreeIntegrityCheck. steps. apply wp_htab; [apply Hdb|]. apply wp_tget. split; [apply Hdb|].
  rewrite set_tblHash_same by apply Hdb. rewrite Hf. by eapply wp_integrity_loop.
Qed.

(** [memRbtreeClose]: all that a database in memory owns is freed. *)

Lemma wp_close_loop fuel : forall w Ts (Q : unit -> Rbtree -> Prop) C,
  db_inv w Ts -> curs_inv w Ts None [] -> (size Ts <= fuel)%nat ->
  (forall w', db_inv w' ∅ -> curs_inv w' ∅ None [] -> Q tt w') -> wp (close_loop fuel) Q C w.
Proof.
  induction fuel as [|fuel IH]; intros w Ts Q C Hdb Hcu Hsz HQ;
    destruct (hash_walk _ _ (i_hash _ _ Hdb)) as (κ & l & Hf & _ & Hfw & Hnil & Hx); cbn [close_loop]; steps;
    (apply wp_htab; [apply Hdb|]); apply wp_tget; (split; [apply Hdb|]); rewrite set_tblHash_same by apply Hdb; rewrite Hf.
  - assert (Ts = ∅) as -> by (apply map_size_empty_iff; lia).
    destruct l as [|e l]; cbn [head]; [steps; by apply HQ|].
    apply forward_cons in Hfw as [(p & x & Hex & _) _]. destruct (Hx e x) as (pt & t & HT & _); [by left|done|].
    by rewrite lookup_empty in HT.
  - destruct l as [|e l]; cbn [head].
    { rewrite Hnil in Hdb, Hcu by done. steps. by apply HQ. }
    apply forward_cons in Hfw as [(p & x & Hex & _) _]. destruct (Hx e x) as (pt & t & HT & _); [by left|done|].
    steps. apply wp_rupd. steps. set (w1 := set_eTransState _ w).
    assert (Hdb1 : db_inv w1 Ts) by by apply (db_inv_ext w).
    assert (Hcu1 : curs_inv w1 Ts None []) by by apply (curs_ext w).
    apply wp_htab; [apply Hdb1|]. eapply wp_deref; [exact Hex|]. split; [apply Hdb1|].
    change (tblHash w) with (tblHash w1). rewrite set_tblHash_same by apply Hdb1. steps.
    eapply (wp_drop_db w1 Ts None []); [done|done|by right; right|exact HT|done|].
    intros w2 ops Hls _ Hcu2. steps. eapply IH; [by apply Hls|exact Hcu2| |exact HQ].
    assert (Hs : size (delete (Hash.nKey x) Ts) = pred (size Ts)) by (by eapply map_size_delete_Some).
    lia.
Qed.

Lemma size_list_to_set_le (l : list Z) : (size (list_to_set l : gset Z) <= length l)%nat.
Proof.
  induction l as [|x l IH]; [done|]. cbn [list_to_set length]. rewrite size_union_alt, size_singleton.
  assert (size ((list_to_set l : gset Z) ∖ {[x]}) <= size (list_to_set l : gset Z))%nat by (apply subseteq_size; set_solver).
  lia.
Qed.

Lemma hash_size h Ts : hash_tables h Ts -> (size Ts <= size (heap h))%nat.
Proof.
  intros (m & (κ & l & [[Hc Hnd Hf Hl Hb] _ _ _ Hh Hm _]) & Hq).
  etrans; [|by eapply linked_fuel]. rewrite <- size_dom.
  assert (Hsub : dom Ts ⊆ (list_to_set ((fun e => (κ e).2) <$> l) : gset Z)).
  { intros n (x & Hx)%elem_of_dom. apply elem_of_list_to_set, list_elem_of_fmap.
    specialize (Hq [n]). cbv beta iota in Hq. rewrite Hx in Hq. apply Hm in Hq as (e & He & Hn & _).
    exists e. by injection Hn. }
  apply subseteq_size in Hsub. etrans; [exact Hsub|].
  etrans; [apply size_list_to_set_le|]. by rewrite length_fmap.
Qed.

Lemma plenty_clear : plenty sqliteHashClear.
Proof. unfold sqliteHashClear. plenty_tac. Qed.

Lemma wp_close w Ts (Q : Z -> Rbtree -> Prop) C : db_inv w Ts -> curs_inv w Ts None [] ->
  (forall w', nodes w' = ∅ -> trees w' = ∅ -> cursors w' = ∅ -> heap (tblHash w') = ∅ -> Q SQLITE_OK w') ->
  wp memRbtreeClose Q C w.
Proof.
  intros Hdb Hcu HQ. unfold memRbtreeClose, memRbtreeCommit. steps. apply wp_rupd. steps. apply wp_rupd. steps.
  eapply wp_close_loop; [by apply (db_inv_ext w)|by apply (curs_ext w)|apply hash_size; apply Hdb|].
  intros w1 Hdb1 [_ Hd _ _ _]. steps. apply wp_htab; [apply Hdb1|].
  destruct (i_hash _ _ Hdb1) as (m & Hm & _).
  assert (Hfree : wp sqliteHashClear (fun _ h => heap h = ∅ /\ mallocs h = []) (fun _ => False) (tblHash w1)).
  { assert (Hwp : wp sqliteHashClear (fun _ h => heap h = ∅) (fun _ => False) (tblHash w1)) by by eapply (wp_clear _ _ m).
    unfold wp in Hwp |- *. destruct (sqliteHashClear (tblHash w1)) as [u h'| |] eqn:Eh; [|done..]. split; [done|].
    eapply plenty_clear; [exact Eh|apply Hdb1]. }
  eapply wp_mono; [exact Hfree| |done]. intros u h' [Hh Hmm]. cbn. split; [done|]. steps. 
  apply HQ; cbn; [| |apply dom_empty_inv_L; rewrite Hd; set_solver|done].
  - apply map_empty. intros x. destruct (nodes w1 !! x) eqn:E; [|done].
    destruct (proj1 (i_nodes _ _ Hdb1 x)) as (n & pt & t & H & _); [by eexists|]. by rewrite lookup_empty in H.
  - apply map_empty. intros x. destruct (trees w1 !! x) eqn:E; [|done].
    destruct (proj1 (i_trees _ _ Hdb1 x)) as (n & t & H); [by eexists|]. by rewrite lookup_empty in H.
Qed.
