(* ===== verification/RbTheorems.v ===== *)
(** Tables in memory: what a client can rely on. *)
From S2P Require Import Prelude OsFile Util Hash HashKey HashList HashSpec HashMap Rbtree RbShape RbRotate RbInsert RbDelete RbOrder RbCursor RbTable RbUpdate RbSpec RbDb RbLog RbClear RbSim RbRefine RbCheck.
From Stdlib Require Import Sorting.Sorted.

#[local] Opaque sqliteRbtreeOpen run_client.

(** [n] calls of the client on a new database had the results [rs] and led to [w]. *)
Definition run_to (client : list (list Z) -> rb_op) (n : nat) (rs : list (list Z)) (w : Rbtree) : Prop :=
  exists w0, sqliteRbtreeOpen [] = Done SQLITE_OK w0 /\ run_client n client [] w0 = Done rs w.

Lemma run_exists client n : well_behaved client opened -> exists rs w d Ts, run_to client n rs w /\
  length rs = n /\ reaches client opened rs d /\ sim w d Ts.
Proof.
  intros Hwb. destruct open_ok as (w0 & Ts & E & Hs).
  destruct (wp_returns _ _ _ (wp_client client opened n [] w0 opened Ts Hwb Hs (reach_start _ _)))
    as (rs & w & Hr & Hl & d & Ts' & Hd & Hs'). exists rs, w, d, Ts'.
  split; [exists w0; split; [exact E|exact Hr]|split; [exact Hl|split; [exact Hd|exact Hs']]].
Qed.

Lemma run_sim client n rs w : well_behaved client opened -> run_to client n rs w ->
  exists d Ts, reaches client opened rs d /\ sim w d Ts.
Proof.
  intros Hwb (w0 & E & Hr). destruct (run_exists client n Hwb) as (rs' & w' & d & Ts & (w0' & E' & Hr') & _ & Hd & Hs).
  rewrite E in E'. injection E' as <-. rewrite Hr in Hr'. injection Hr' as <- <-.
  exists d, Ts. split; [exact Hd|exact Hs].
Qed.

(** * A client that reads a table from its start to its end *)

Definition read_record (p : addr) : M Rbtree (list Z * list Z) :=
  nk ← memRbtreeKeySize p;
  '(_, k) ← memRbtreeKey p 0 nk;
  nd ← memRbtreeDataSize p;
  '(_, v) ← memRbtreeData p 0 nd;
  mret (k, v).

Fixpoint scan_from (fuel : nat) (p : addr) (res : Z) : M Rbtree (list (list Z * list Z)) :=
  if negb (res =? 0) then mret [] else
  match fuel with
  | O => mstuck
  | S fuel' =>
      x ← read_record p;
      res ← memRbtreeNext p;
      rest ← scan_from fuel' p res;
      mret (x :: rest)
  end.

Definition scan (p : addr) : M Rbtree (list (list Z * list Z)) :=
  w ← mget;
  res ← memRbtreeFirst p;
  scan_from (size (nodes w)) p res.

Lemma wp_read_record w p c t e (Q : list Z * list Z -> Rbtree -> Prop) C : cursors w !! p = Some c ->
  holds w (pTree c) t -> small (table_of (elems t)) -> ordered (elems t) -> e ∈ elems t ->
  pNode c = Some (e_addr e) -> Q (e_key e, e_data e) w -> wp (read_record p) Q C w.
Proof.
  intros Hc [_ Hat _] Hsm Ho He Hp HQ.
  destruct (Hsm (e_key e) (e_data e)) as [Hsk Hsd]; [by apply table_of_in|]. destruct (tree_at_entry (nodes w) t None e Hat He) as (n & Hn & Hk & Hd).
  assert (Hall : forall z : list Z, take (Z.to_nat (Z.of_nat (length z))) (drop (Z.to_nat 0) z) = z).
  { intros z. rewrite Nat2Z.id. apply take_ge. done. }
  assert (Hcp : forall z (b : bool) (Q' : list Z -> Rbtree -> Prop), Q' z w ->
    wp (copied z 0 (if b then Z.of_nat (length z) else Z.of_nat (length z) - 0)) Q' C w).
  { intros z b Q' HQ'. rewrite Z.sub_0_r. replace (if b then _ else _) with (Z.of_nat (length z)) by by destruct b.
    unfold copied. steps. apply wp_assert; [rewrite !andb_true_iff, !Z.leb_le; lia|]. steps. by rewrite Hall. }
  unfold read_record, memRbtreeKeySize, memRbtreeKey, memRbtreeDataSize, memRbtreeData.
  steps. rewrite Hp. steps. rewrite Hp. steps.
  apply (wp_mono _ (fun _ w' => w' = w) _ (fun _ => False)); [| |done].
  { case_bool_decide; [by apply wp_ret|]. apply wp_bind, wp_int_sum; [lia|lia|rewrite Hk; lia|]. by apply wp_ret. }
  intros b w' ->. steps. apply Hcp. steps. rewrite Hp. steps. rewrite Hp. steps.
  apply wp_int_sum; [lia|lia|rewrite Hd; lia|]. steps. apply Hcp. steps.
  by rewrite Hk, Hd.
Qed.

Definition record_of (e : entry) : list Z * list Z := (e_key e, e_data e).

Lemma wp_scan_from p t B : forall fuel w c A (Q : list (list Z * list Z) -> Rbtree -> Prop) C,
  cursors w !! p = Some c -> holds w (pTree c) t -> small (table_of (elems t)) -> ordered (elems t) ->
  elems t = A ++ B -> pNode c = head_addr B -> eSkip c = SKIP_NONE ->
  (length B <= fuel)%nat -> (forall c', Q (record_of <$> B) (put p c' w)) -> wp (scan_from fuel p (miss (pNode c))) Q C w.
Proof.
  induction B as [|e B IH]; intros fuel w c A Q C Hc Hh Hsm Ho Ees Hp Hsk Hf HQ; rewrite Hp; cbn [head_addr head fmap option_fmap option_map miss].
  - destruct fuel; cbn [scan_from negb Z.eqb]; steps; rewrite <- (put_same p c w) by done; apply HQ.
  - destruct fuel as [|fuel]; [cbn in Hf; lia|]. cbn [scan_from negb Z.eqb]. steps.
    eapply wp_read_record; [exact Hc|exact Hh|exact Hsm|exact Ho| |exact Hp|]; [rewrite Ees; set_solver|]. steps.
    eapply (wp_next p w c t); [exact Hc|exact Hh|exact Ees|exact Hp|by rewrite Hsk|]. steps.
    change (head_addr B) with (pNode (goto (head_addr B) c)).
    eapply (IH fuel _ _ (A ++ [e])); [apply put_lookup|by apply holds_put|done|done|by rewrite Ees, <- (assoc_L (++))|done|done|cbn in Hf; lia|].
    intros c'. rewrite put_put. steps. apply HQ.
Qed.

Lemma wp_scan w p c t (Q : list (list Z * list Z) -> Rbtree -> Prop) C :
  cursors w !! p = Some c -> holds w (pTree c) t -> small (table_of (elems t)) -> ordered (elems t) ->
  (t = E -> pNode c = None) ->
  (forall c', Q (record_of <$> elems t) (put p c' w)) -> wp (scan p) Q C w.
Proof.
  intros Hc Hh Hsm Ho Hnone HQ. unfold scan. steps. eapply (wp_first p w c t); [done|done|done|].
  change (head_addr (elems t)) with (pNode (goto (head_addr (elems t)) c)) at 1.
  eapply (wp_scan_from p t (elems t) _ _ _ []); [apply put_lookup|by apply holds_put|done|done|done|done|done|by eapply holds_size|].
  intros c'. rewrite put_put. apply HQ.
Qed.

(** A cursor in the store is one of the client's. *)
Lemma sim_open_cursor w d Ts p c : sim w d Ts -> cursors w !! p = Some c ->
  exists t, holds w (pTree c) t /\ valid t /\ ordered (elems t) /\ (t = E -> pNode c = None) /\
    d_tabs d !! iTree c = Some (table_of (elems t)).
Proof.
  intros Hs Hc. assert (Hin : p ∈ (d_curs d).*1).
  { assert (Hd : p ∈ dom (cursors w)) by (apply elem_of_dom; by eexists).
    rewrite (k_dom _ _ _ _ (s_curs _ _ _ Hs)) in Hd. set_solver. }
  destruct (cur_at p (d_curs d)) as [cu|] eqn:Hp; [|by apply cur_at_none in Hp].
  destruct (sim_cursor _ _ _ _ _ Hs Hp) as (c' & t & Hc' & HT & Htab & _ & _ & Hpos & Hh & Hv & Ho & Hd).
  assert (c' = c) as -> by congruence. exists t. rewrite Htab. repeat (split; [done|]). split; [|done].
  intros ->. by eapply pos_empty.
Qed.

Lemma size_table es : ordered es -> size (table_of es) = length es.
Proof.
  intros Ho. unfold table_of. rewrite <- length_map_to_list, map_to_list_to_map; [by rewrite length_fmap|].
  rewrite fst_table. by apply ordered_nodup.
Qed.

Lemma opened_small : db_small opened.
Proof.
  assert (H0 : all_small ∅) by (intros n m; by rewrite lookup_empty).
  split_and!; [|done|done]. apply all_small_insert; [done|apply small_empty].
Qed.

(** * Scripts *)

(** A client that makes the calls of a list, and then only reads the meta data. *)
Definition script (os : list rb_op) (rs : list (list Z)) : rb_op := nth (length rs) os RGetMeta.

Definition certain (o : rb_op) : Prop := match o with RMoveto _ _ => False | _ => True end.

Fixpoint script_allowed (d : Db) (os : list rb_op) : Prop :=
  match os with
  | [] => True
  | o :: os' => certain o /\ allowed d o /\ script_allowed (spec_fun d o).2 os'
  end.

Fixpoint state_after (k : nat) (d : Db) (os : list rb_op) {struct k} : Db :=
  match k, os with S k', o :: os' => state_after k' (spec_fun d o).2 os' | _, _ => d end.

Lemma state_after_allowed os : forall k d, script_allowed d os ->
  certain (nth k os RGetMeta) /\ allowed (state_after k d os) (nth k os RGetMeta).
Proof.
  induction os as [|o os IH]; intros [|k] d; cbn [nth state_after script_allowed]; try done.
  - by intros (H1 & H2 & _).
  - intros (_ & _ & H). by apply IH.
Qed.

Lemma state_after_step os : forall k d, state_after (S k) d os = (spec_fun (state_after k d os) (nth k os RGetMeta)).2.
Proof. induction os as [|o os IH]; intros [|k] d; try done. exact (IH k (spec_fun d o).2). Qed.

Lemma script_reaches os d rs d' : script_allowed d os -> reaches (script os) d rs d' -> d' = state_after (length rs) d os.
Proof.
  intros Hs. induction 1 as [|rs r d1 d2 Hr IH Hstep]; [done|].
  rewrite length_app, Nat.add_comm, state_after_step, <- IH. unfold script in Hstep.
  destruct (state_after_allowed os (length rs) d Hs) as [Hc _]. unfold spec_step in Hstep.
  destruct (nth (length rs) os RGetMeta); try done; by rewrite Hstep.
Qed.

Lemma script_well_behaved os d : script_allowed d os -> well_behaved (script os) d.
Proof. intros Hs rs d' Hr. rewrite (script_reaches os d rs d' Hs Hr). by apply state_after_allowed. Qed.

(** Three records are stored and one is deleted, in a transaction that is committed. *)
Definition session : list rb_op :=
  [RBegin; ROpen 2 true; RInsert 1%positive [98] [1]; RInsert 1%positive [97] [2];
   RInsert 1%positive [99] [3]; RDelete 1%positive; RCommit].

Ltac allowed_tac := repeat match goal with
  | |- _ /\ _ => split
  | |- True => exact I
  | |- is_Some _ => eexists; vm_compute; reflexivity
  | |- exists _, _ => eexists; split; vm_compute; reflexivity
  | |- _ <> _ => vm_compute; discriminate
  | |- _ <= _ => vm_compute; discriminate
  end.

Lemma session_allowed : script_allowed opened session.
Proof. unfold session. cbn [script_allowed certain allowed]. allowed_tac. Qed.

Lemma session_ok : well_behaved (script session) opened.
Proof. apply script_well_behaved, session_allowed. Qed.

Definition closed_session : list rb_op := session ++ [RClose 1%positive].

Lemma closed_allowed : script_allowed opened closed_session.
Proof. unfold closed_session, session. cbn [app script_allowed certain allowed]. allowed_tac. Qed.

Lemma closed_session_ok : well_behaved (script closed_session) opened.
Proof. apply script_well_behaved, closed_allowed. Qed.

(** After the session, its cursor is in the store, and so is the tree of the table. *)
Lemma session_state : exists rs w c tr t, run_to (script session) 7 rs w /\ cursors w !! 1%positive = Some c /\
  trees w !! pTree c = Some tr /\ holds w (pTree c) t.
Proof.
  destruct (run_exists (script session) 7 session_ok) as (rs & w & d & Ts & Hr & Hl & Hd & Hs).
  apply script_reaches in Hd; [|apply session_allowed]. rewrite Hl in Hd.
  assert (Hp : exists cu, cur_at 1%positive (d_curs d) = Some cu) by (rewrite Hd; eexists; vm_compute; reflexivity).
  destruct Hp as [cu Hp]. destruct (sim_cursor _ _ _ _ _ Hs Hp) as (c & t & Hc & _ & _ & _ & _ & _ & Hh & _).
  destruct (holds_head _ _ _ Hh) as (tr & Htr & _).
  exists rs, w, c, tr, t. split; [exact Hr|]. split; [exact Hc|]. split; [exact Htr|exact Hh].
Qed.

Lemma closed_state : exists rs w, run_to (script closed_session) 8 rs w /\ cursors w = ∅.
Proof.
  destruct (run_exists (script closed_session) 8 closed_session_ok) as (rs & w & d & Ts & Hr & Hl & Hd & Hs).
  apply script_reaches in Hd; [|apply closed_allowed]. rewrite Hl in Hd.
  assert (Hno : d_curs d = []) by (rewrite Hd; vm_compute; reflexivity).
  exists rs, w. split; [exact Hr|]. apply dom_empty_inv_L. rewrite (k_dom _ _ _ _ (s_curs _ _ _ Hs)), Hno. set_solver.
Qed.

(** * Theorems *)

(** C16: a client that keeps to the rules of [well_behaved] (changes in a transaction and
    through cursors that may write, no cursor open in a rollback, none on a table that is
    dropped and none at a record of one that is cleared; keys, data and the sum of an
    offset and an amount within an [int], nothing read from a key without bytes) gets,
    from a database in memory that was opened with enough memory, the results of the
    specification: tables are finite maps, cursors are at keys, and a rollback brings
    back the tables of the start of the transaction or of the checkpoint; every call
    returns. *)
Theorem rbtree_refines client n : well_behaved client opened ->
  exists rs w d, run_to client n rs w /\ length rs = n /\ reaches client opened rs d.
Proof.
  intros Hwb. destruct (run_exists client n Hwb) as (rs & w & d & Ts & Hr & Hl & Hd & _).
  exists rs, w, d. split; [exact Hr|split; [exact Hl|exact Hd]].
Qed.

Lemma rbtree_refines_witness : exists rs w d, run_to (script session) 7 rs w /\ length rs = 7%nat /\
  reaches (script session) opened rs d.
Proof. apply (rbtree_refines (script session) 7). exact session_ok. Defined.

(** C17: in every state that a client can get to, the store holds exactly the nodes of the
    trees of the tables, linked both ways, each a red-black tree with its keys in
    ascending order, and [memRbtreeIntegrityCheck] has nothing to complain about. *)
Theorem rbtree_wellformed client n rs w : well_behaved client opened -> run_to client n rs w ->
  (exists Ts, db_inv w Ts) /\ exists w', memRbtreeIntegrityCheck w = Done [] w'.
Proof.
  intros Hwb Hr. destruct (run_sim client n rs w Hwb Hr) as (d & Ts & _ & Hs).
  pose proof (s_inv _ _ _ Hs) as Hdb. split; [exists Ts; exact Hdb|].
  assert (Hi : wp memRbtreeIntegrityCheck (fun msg _ => msg = []) (fun _ => False) w) by by eapply wp_integrity.
  apply wp_returns in Hi as (msg & w' & E & ->). exists w'. exact E.
Qed.

Lemma rbtree_wellformed_witness : exists rs w, run_to (script session) 7 rs w /\
  (exists Ts, db_inv w Ts) /\ exists w', memRbtreeIntegrityCheck w = Done [] w'.
Proof.
  destruct (run_exists (script session) 7 session_ok) as (rs & w & d & Ts & Hr & _).
  exists rs, w. split; [exact Hr|]. exact (rbtree_wellformed (script session) 7 rs w session_ok Hr).
Defined.

(** C21: [check_redblack_tree] on any tree in the store returns the complaints that belong to
    it, and there are none exactly when no red node has a red child and all ways down
    have as many black nodes. *)
Theorem check_redblack_tree_exact w pt t : holds w pt t ->
  (exists w', check_redblack_tree pt w = Done (complaints t) w') /\ (complaints t = [] <-> exists n, rb n t).
Proof.
  intros Hh. split; [|apply complaints_nil].
  assert (Hc : wp (check_redblack_tree pt) (fun msg _ => msg = complaints t) (fun _ => False) w).
  { eapply wp_check_tree; [exact Hh|]. by intros w' _ _ _. }
  apply wp_returns in Hc as (msg & w' & E & ->). by exists w'.
Qed.

Lemma check_redblack_tree_exact_witness : exists w pt t, holds w pt t /\
  (exists w', check_redblack_tree pt w = Done (complaints t) w') /\ (complaints t = [] <-> exists n, rb n t).
Proof.
  destruct session_state as (rs & w & c & tr & t & _ & _ & _ & Hh). exists w, (pTree c), t.
  split; [exact Hh|]. exact (check_redblack_tree_exact w (pTree c) t Hh).
Defined.

(** C19: a search among [N] records compares the key with no more than [2 * log2 (N + 1)]
    of them: the fuel of [moveto_loop] is the number of comparisons it may make. *)
Theorem moveto_logarithmic client n rs w p c tr k : well_behaved client opened -> run_to client n rs w ->
  cursors w !! p = Some c -> trees w !! pTree c = Some tr ->
  exists d m r w', reaches client opened rs d /\ d_tabs d !! iTree c = Some m /\
    moveto_loop (2 * Nat.log2 (S (size m))) p k (-1) None (put p (set_pNode (pHead tr) c) w) = Done r w'.
Proof.
  intros Hwb Hr Hc Htr. destruct (run_sim client n rs w Hwb Hr) as (d & Ts & Hd & Hs).
  destruct (sim_open_cursor w d Ts p c Hs Hc) as (t & Hh & Hv & Ho & _ & Hm).
  exists d, (table_of (elems t)). rewrite size_table by done. pose proof (valid_depth t Hv) as Hdep.
  destruct (holds_head _ _ _ Hh) as (tr' & Htr' & Hroot). rewrite Htr in Htr'. injection Htr' as <-.
  assert (Hw : wp (moveto_loop (2 * Nat.log2 (S (length (elems t)))) p k (-1) None) (fun _ _ => True) (fun _ => False)
    (put p (set_pNode (pHead tr) c) w)).
  { eapply (wp_moveto_loop p k t _ []); [apply Hh|exact Ho| |apply put_lookup|exact Hroot|lia|done|done].
    split; by intros x ?%elem_of_nil. }
  apply wp_returns in Hw as (r & w' & E & _). exists r, w'. split; [exact Hd|split; [exact Hm|exact E]].
Qed.

Lemma moveto_logarithmic_witness : exists rs w c tr, run_to (script session) 7 rs w /\
  cursors w !! 1%positive = Some c /\ trees w !! pTree c = Some tr /\
  exists d m r w', reaches (script session) opened rs d /\ d_tabs d !! iTree c = Some m /\
    moveto_loop (2 * Nat.log2 (S (size m))) 1%positive [99] (-1) None
      (put 1%positive (set_pNode (pHead tr) c) w) = Done r w'.
Proof.
  destruct session_state as (rs & w & c & tr & t & Hr & Hc & Htr & _). exists rs, w, c, tr.
  split; [exact Hr|]. split; [exact Hc|]. split; [exact Htr|].
  exact (moveto_logarithmic (script session) 7 rs w 1%positive c tr [99] session_ok Hr Hc Htr).
Defined.

(** C20: [memRbtreeClose], once the cursors are closed, frees every node, every tree and every
    element of the table of tables. *)
Theorem rbtree_close_frees client n rs w : well_behaved client opened -> run_to client n rs w -> cursors w = ∅ ->
  exists w', memRbtreeClose w = Done SQLITE_OK w' /\ nodes w' = ∅ /\ trees w' = ∅ /\ cursors w' = ∅ /\
    heap (tblHash w') = ∅.
Proof.
  intros Hwb Hr Hc. destruct (run_sim client n rs w Hwb Hr) as (d & Ts & _ & Hs).
  pose proof (s_curs _ _ _ Hs) as Hcu.
  assert (Hno : d_curs d = []).
  { pose proof (k_dom _ _ _ _ Hcu) as Hd. rewrite Hc, dom_empty_L in Hd. destruct (d_curs d) as [|[p cu] l]; [done|].
    assert (Hp : p ∈ (∅ : gset addr)) by (rewrite Hd; set_solver). set_solver. }
  rewrite Hno in Hcu.
  assert (Hw : wp memRbtreeClose (fun rc w' => rc = SQLITE_OK /\ nodes w' = ∅ /\ trees w' = ∅ /\ cursors w' = ∅ /\
    heap (tblHash w') = ∅) (fun _ => False) w).
  { eapply wp_close; [apply Hs|exact Hcu|]. done. }
  apply wp_returns in Hw as (rc & w' & E & -> & H). exists w'. split; [exact E|exact H].
Qed.

Lemma rbtree_close_frees_witness : exists rs w, run_to (script closed_session) 8 rs w /\ cursors w = ∅ /\
  exists w', memRbtreeClose w = Done SQLITE_OK w' /\ nodes w' = ∅ /\ trees w' = ∅ /\ cursors w' = ∅ /\
    heap (tblHash w') = ∅.
Proof.
  destruct closed_state as (rs & w & Hr & Hc). exists rs, w. split; [exact Hr|]. split; [exact Hc|].
  exact (rbtree_close_frees (script closed_session) 8 rs w closed_session_ok Hr Hc).
Defined.

(** C18: a client that goes through a table with [memRbtreeFirst] and [memRbtreeNext] comes to
    the end, and has then seen every record once, in the order of the keys. *)
Theorem rbtree_scan_complete client n rs w p c : well_behaved client opened -> run_to client n rs w ->
  cursors w !! p = Some c ->
  exists d m recs w', reaches client opened rs d /\ d_tabs d !! iTree c = Some m /\ scan p w = Done recs w' /\
    list_to_map recs = m /\ length recs = size m /\ StronglySorted klt recs.*1.
Proof.
  intros Hwb Hr Hc. destruct (run_sim client n rs w Hwb Hr) as (d & Ts & Hd & Hs).
  destruct (sim_open_cursor w d Ts p c Hs Hc) as (t & Hh & Hv & Ho & Hnone & Hm).
  assert (Hw : wp (scan p) (fun recs _ => recs = record_of <$> elems t) (fun _ => False) w).
  { eapply wp_scan; [exact Hc|exact Hh| |done|done|done].
    destruct (reaches_small client opened rs d Hwb opened_small Hd) as [Hsm _]. by apply (Hsm (iTree c)). }
  apply wp_returns in Hw as (recs & w' & E & ->). exists d, (table_of (elems t)), (record_of <$> elems t), w'.
  split; [exact Hd|]. split; [exact Hm|]. split; [exact E|]. split; [done|].
  split; [by rewrite length_fmap, size_table|]. unfold ordered in Ho. by rewrite <- fst_table in Ho.
Qed.

Lemma rbtree_scan_complete_witness : exists rs w c, run_to (script session) 7 rs w /\
  cursors w !! 1%positive = Some c /\
  exists d m recs w', reaches (script session) opened rs d /\ d_tabs d !! iTree c = Some m /\
    scan 1%positive w = Done recs w' /\ list_to_map recs = m /\ length recs = size m /\ StronglySorted klt recs.*1.
Proof.
  destruct session_state as (rs & w & c & tr & t & Hr & Hc & _ & _). exists rs, w, c.
  split; [exact Hr|]. split; [exact Hc|].
  exact (rbtree_scan_complete (script session) 7 rs w 1%positive c session_ok Hr Hc).
Defined.

(** * Outside the rules *)

Definition run_open (os : list rb_op) : outcome Rbtree (list (list Z)) :=
  match sqliteRbtreeOpen [] with
  | Done _ w => run_client (length os) (script os) [] w
  | Crashed w => Crashed w
  | Stuck => Stuck
  end.

(** While a cursor for reading is open, nothing is rolled back: [execute_rollback_list]
    ignores that [memRbtreeDelete] answers [SQLITE_LOCKED].  The rollback reports success,
    and the record is still there. *)
Example rollback_with_reader : exists w,
  run_open [RBegin; ROpen 2 true; RInsert 1%positive [97] [1]; ROpen 2 false; RRollback; RFirst 2%positive; RKeySize 2%positive]
  = Done [[SQLITE_OK]; [SQLITE_OK; 1]; [SQLITE_OK]; [SQLITE_OK; 2]; [SQLITE_OK]; [0]; [1]] w.
Proof. eexists. vm_compute. reflexivity. Qed.

(** [memRbtreeClearTable] does not look at the cursors: one that was at a record follows a
    pointer to a node that was freed. *)
Example clear_under_cursor :
  run_open [RBegin; ROpen 2 true; RInsert 1%positive [97] [1]; RClear 2; RKeySize 1%positive] = Stuck.
Proof. vm_compute. reflexivity. Qed.

(** A rollback does not bring back the meta data. *)
Example rollback_keeps_meta : exists w,
  run_open [RBegin; RSetMeta [1; 2; 3; 4; 5; 6; 7; 8; 9; 10]; RRollback; RGetMeta]
  = Done [[SQLITE_OK]; [SQLITE_OK]; [SQLITE_OK]; [1; 2; 3; 4; 5; 6; 7; 8; 9; 10]] w.
Proof. eexists. vm_compute. reflexivity. Qed.
