(* ===== verification/VdbeAux.v ===== *)
(** The program builder of the virtual machine, [vdbeaux.c]: an array of instructions
    that grows, labels that stand for addresses to come, and the operand P3.  The
    allocations of the two arrays succeed or fail as a schedule says; the strings of
    P3 are values. *)
From S2P Require Import Prelude Util CFloat.

(** * Instructions *)

(** The opcodes, in the order of their [case] labels in [vdbe.c]: the makefile numbers
    them in this order. *)
Inductive opcode :=
  | OP_Goto | OP_Gosub | OP_Return | OP_Halt | OP_Integer | OP_String | OP_Variable | OP_Pop
  | OP_Dup | OP_Pull | OP_Push | OP_ColumnName | OP_Callback | OP_Concat | OP_Add | OP_Subtract
  | OP_Multiply | OP_Divide | OP_Remainder | OP_Function | OP_BitAnd | OP_BitOr | OP_ShiftLeft
  | OP_ShiftRight | OP_AddImm | OP_ForceInt | OP_MustBeInt | OP_Eq | OP_Ne | OP_Lt | OP_Le
  | OP_Gt | OP_Ge | OP_StrEq | OP_StrNe | OP_StrLt | OP_StrLe | OP_StrGt | OP_StrGe | OP_And
  | OP_Or | OP_Negative | OP_AbsValue | OP_Not | OP_BitNot | OP_Noop | OP_If | OP_IfNot
  | OP_IsNull | OP_NotNull | OP_MakeRecord | OP_MakeIdxKey | OP_MakeKey | OP_IncrKey
  | OP_Checkpoint | OP_Transaction | OP_Commit | OP_Rollback | OP_ReadCookie | OP_SetCookie
  | OP_VerifyCookie | OP_OpenRead | OP_OpenWrite | OP_OpenTemp | OP_OpenPseudo | OP_Close
  | OP_MoveLt | OP_MoveTo | OP_Distinct | OP_NotFound | OP_Found | OP_IsUnique | OP_NotExists
  | OP_NewRecno | OP_PutIntKey | OP_PutStrKey | OP_Delete | OP_SetCounts | OP_KeyAsData
  | OP_RowKey | OP_RowData | OP_Column | OP_Recno | OP_FullKey | OP_NullRow | OP_Last
  | OP_Rewind | OP_Prev | OP_Next | OP_IdxPut | OP_IdxDelete | OP_IdxRecno | OP_IdxLT
  | OP_IdxGT | OP_IdxGE | OP_IdxIsNull | OP_Destroy | OP_Clear | OP_CreateIndex
  | OP_CreateTable | OP_IntegrityCk | OP_ListWrite | OP_ListRewind | OP_ListRead | OP_ListReset
  | OP_ListPush | OP_ListPop | OP_ContextPush | OP_ContextPop | OP_SortPut | OP_SortMakeRec
  | OP_SortMakeKey | OP_Sort | OP_SortNext | OP_SortCallback | OP_SortReset | OP_FileOpen
  | OP_FileRead | OP_FileColumn | OP_MemStore | OP_MemLoad | OP_MemIncr | OP_AggReset
  | OP_AggInit | OP_AggFunc | OP_AggFocus | OP_AggSet | OP_AggGet | OP_AggNext | OP_SetInsert
  | OP_SetFound | OP_SetNotFound | OP_SetFirst | OP_SetNext | OP_Vacuum | OP_StackDepth
  | OP_StackReset.

Definition all_opcodes : list opcode := [
  OP_Goto; OP_Gosub; OP_Return; OP_Halt; OP_Integer; OP_String; OP_Variable; OP_Pop; OP_Dup;
  OP_Pull; OP_Push; OP_ColumnName; OP_Callback; OP_Concat; OP_Add; OP_Subtract; OP_Multiply;
  OP_Divide; OP_Remainder; OP_Function; OP_BitAnd; OP_BitOr; OP_ShiftLeft; OP_ShiftRight;
  OP_AddImm; OP_ForceInt; OP_MustBeInt; OP_Eq; OP_Ne; OP_Lt; OP_Le; OP_Gt; OP_Ge; OP_StrEq;
  OP_StrNe; OP_StrLt; OP_StrLe; OP_StrGt; OP_StrGe; OP_And; OP_Or; OP_Negative; OP_AbsValue;
  OP_Not; OP_BitNot; OP_Noop; OP_If; OP_IfNot; OP_IsNull; OP_NotNull; OP_MakeRecord;
  OP_MakeIdxKey; OP_MakeKey; OP_IncrKey; OP_Checkpoint; OP_Transaction; OP_Commit; OP_Rollback;
  OP_ReadCookie; OP_SetCookie; OP_VerifyCookie; OP_OpenRead; OP_OpenWrite; OP_OpenTemp;
  OP_OpenPseudo; OP_Close; OP_MoveLt; OP_MoveTo; OP_Distinct; OP_NotFound; OP_Found;
  OP_IsUnique; OP_NotExists; OP_NewRecno; OP_PutIntKey; OP_PutStrKey; OP_Delete; OP_SetCounts;
  OP_KeyAsData; OP_RowKey; OP_RowData; OP_Column; OP_Recno; OP_FullKey; OP_NullRow; OP_Last;
  OP_Rewind; OP_Prev; OP_Next; OP_IdxPut; OP_IdxDelete; OP_IdxRecno; OP_IdxLT; OP_IdxGT;
  OP_IdxGE; OP_IdxIsNull; OP_Destroy; OP_Clear; OP_CreateIndex; OP_CreateTable; OP_IntegrityCk;
  OP_ListWrite; OP_ListRewind; OP_ListRead; OP_ListReset; OP_ListPush; OP_ListPop;
  OP_ContextPush; OP_ContextPop; OP_SortPut; OP_SortMakeRec; OP_SortMakeKey; OP_Sort;
  OP_SortNext; OP_SortCallback; OP_SortReset; OP_FileOpen; OP_FileRead; OP_FileColumn;
  OP_MemStore; OP_MemLoad; OP_MemIncr; OP_AggReset; OP_AggInit; OP_AggFunc; OP_AggFocus;
  OP_AggSet; OP_AggGet; OP_AggNext; OP_SetInsert; OP_SetFound; OP_SetNotFound; OP_SetFirst;
  OP_SetNext; OP_Vacuum; OP_StackDepth; OP_StackReset].


(** Opcode numbers: the code generator adds 6 to a numeric comparison to get the text
    comparison. *)
#[export] Instance opcode_eq : EqDecision opcode.
Proof. solve_decision. Defined.

Definition opcode_number (o : opcode) : option nat := fst <$> list_find (eq o) all_opcodes.

Definition opcode_plus (o : opcode) (k : nat) : option opcode :=
  n ← opcode_number o; all_opcodes !! (n + k)%nat.

(** What an SQL function returns through [sqlite_set_result_...]. *)
Inductive fresult :=
| FNull
| FInt (i : Z)
| FReal (r : spec_float)
| FText (s : list Z)
| FError (msg : option (list Z)).

(** An SQL function.  [xFunc] is the application's: it maps the texts of the arguments
    to a result. *)
Record FuncDef := mkFunc {
  xFunc : option (list (option (list Z)) -> fresult);
  xStep : bool;
  nArg : Z;
  f_dataType : Z;
  includeTypes : bool
}.

(** [p3] with [p3type]. *)
Inductive operand3 :=
| P3_NOTUSED
| P3_DYNAMIC (s : list Z)
| P3_STATIC (s : list Z)
| P3_POINTER (f : FuncDef).

(** An instruction; a cleared slot of the array has no opcode. *)
Record Op := mkOp { op_code : option opcode; p1 : Z; p2 : Z; p3 : operand3 }.

Definition op0 : Op := mkOp None 0 0 P3_NOTUSED.
Definition set_p1 (v : Z) (o : Op) : Op := mkOp (op_code o) v (p2 o) (p3 o).
Definition set_p2 (v : Z) (o : Op) : Op := mkOp (op_code o) (p1 o) v (p3 o).
Definition set_p3 (v : operand3) (o : Op) : Op := mkOp (op_code o) (p1 o) (p2 o) v.

(** * The program under construction *)

Inductive vdbe_magic := VDBE_MAGIC_INIT | VDBE_MAGIC_RUN | VDBE_MAGIC_HALT | VDBE_MAGIC_DEAD.

(** The fields of [struct Vdbe] that the builder uses.  [aOp] has all its slots,
    [aLabel] the slots that were written; [allocs] are the results of the
    reallocations to come, which all succeed when the list has run out. *)
Record program := mkProgram {
  magic : vdbe_magic;
  nOp : Z;
  nOpAlloc : Z;
  aOp : option (list Op);
  nLabel : Z;
  nLabelAlloc : Z;
  aLabel : option (list Z);
  allocs : list bool
}.

Definition sqliteVdbeCreate : program := mkProgram VDBE_MAGIC_INIT 0 0 None 0 0 None [].

Definition set_nOp (v : Z) (p : program) : program :=
  mkProgram (magic p) v (nOpAlloc p) (aOp p) (nLabel p) (nLabelAlloc p) (aLabel p) (allocs p).
Definition set_ops (n : Z) (a : option (list Op)) (p : program) : program :=
  mkProgram (magic p) (nOp p) n a (nLabel p) (nLabelAlloc p) (aLabel p) (allocs p).
Definition set_labels (n n' : Z) (a : option (list Z)) (p : program) : program :=
  mkProgram (magic p) (nOp p) (nOpAlloc p) (aOp p) n n' a (allocs p).
Definition set_allocs (v : list bool) (p : program) : program :=
  mkProgram (magic p) (nOp p) (nOpAlloc p) (aOp p) (nLabel p) (nLabelAlloc p) (aLabel p) v.

Definition pupd (f : program -> program) : M program unit := fun p => Done tt (f p).

Definition initial : M program unit :=
  p ← mget; assert (match magic p with VDBE_MAGIC_INIT => true | _ => false end).

Definition realloc_ok : M program bool := fun p =>
  match allocs p with [] => Done true p | b :: bs => Done b (set_allocs bs p) end.

(** [&p->aOp[i]] *)
Definition get_op (i : Z) : M program Op :=
  p ← mget;
  match aOp p with
  | Some a => match a !! Z.to_nat i with Some o => if 0 <=? i then mret o else mstuck | None => mstuck end
  | None => mstuck
  end.

Definition put_op (i : Z) (o : Op) : M program unit :=
  get_op i;;
  p ← mget;
  match aOp p with
  | Some a => pupd (set_ops (nOpAlloc p) (Some (<[Z.to_nat i := o]> a)))
  | None => mstuck
  end.

(** [sqliteRealloc(p->aOp, n*sizeof(Op))] and the [memset] of the new slots. *)
Definition grow_ops (n : Z) : M program bool :=
  ok ← realloc_ok;
  p ← mget;
  if ok : bool then
    let a := default [] (aOp p) in
    pupd (set_ops n (Some (a ++ replicate (Z.to_nat n - length a) op0)));;
    mret true
  else mret false.

(** * The functions *)

(** [p->aLabel[i]] *)
Definition get_label (i : Z) : M program Z :=
  p ← mget;
  match aLabel p with
  | Some a => match a !! Z.to_nat i with Some v => if 0 <=? i then mret v else mstuck | None => mstuck end
  | None => mstuck
  end.

(** A label that is resolved already. *)
Definition resolved (p2 : Z) : M program Z :=
  p ← mget;
  if (p2 <? 0) && (-1 - p2 <? nLabel p) then
    a ← get_label (-1 - p2);
    mret (if 0 <=? a then a else p2)
  else mret p2.

Definition sqliteVdbeAddOp (op : opcode) (p1 p2 : Z) : M program Z :=
  p ← mget;
  let i := nOp p in
  pupd (set_nOp (i + 1));;
  initial;;
  ok ← (if nOpAlloc p <=? i then grow_ops (nOpAlloc p * 2 + 100) else mret true);
  if ok : bool then
    p2 ← resolved p2;
    put_op i (mkOp (Some op) p1 p2 P3_NOTUSED);;
    mret i
  else mret 0.

(** The third operand: no string, a static one, a pointer, or a copy of the first
    [n] bytes of a string (all of it when [n] is 0). *)
Inductive p3source := Z_null | Z_static (s : list Z) | Z_pointer (f : FuncDef) | Z_copy (s : list Z) (n : Z).

Definition operand_of (zP3 : p3source) : operand3 :=
  match zP3 with
  | Z_null => P3_NOTUSED
  | Z_static s => P3_STATIC s
  | Z_pointer f => P3_POINTER f
  | Z_copy s n => P3_DYNAMIC (if n <=? 0 then cstr s else take (Z.to_nat n) (cstr s))
  end.

(** [if( addr<0 || addr>=p->nOp ){ addr = p->nOp - 1; if( addr<0 ) return; }] *)
Definition op_or_last (addr : Z) (p : program) : Z :=
  if (addr <? 0) || (nOp p <=? addr) then nOp p - 1 else addr.

Definition sqliteVdbeChangeP3 (addr : Z) (zP3 : p3source) : M program unit :=
  initial;;
  p ← mget;
  if aOp p is None then mret tt
  else
    let addr := op_or_last addr p in
    if addr <? 0 then mret tt
    else o ← get_op addr; put_op addr (set_p3 (operand_of zP3) o).

Definition sqliteVdbeOp3 (op : opcode) (p1 p2 : Z) (zP3 : p3source) : M program Z :=
  addr ← sqliteVdbeAddOp op p1 p2;
  sqliteVdbeChangeP3 addr zP3;;
  mret addr.

Fixpoint add_ops (l : list (opcode * Z * Z)) : M program unit :=
  match l with
  | [] => mret tt
  | (op, p1, p2) :: l' => sqliteVdbeAddOp op p1 p2;; add_ops l'
  end.

Definition sqliteVdbeCode (l : list (opcode * Z * Z)) : M program Z :=
  p ← mget;
  add_ops l;;
  mret (nOp p).

Definition sqliteVdbeMakeLabel : M program Z :=
  p ← mget;
  let i := nLabel p in
  initial;;
  (if nLabelAlloc p <=? i then
     ok ← realloc_ok;
     pupd (set_labels (i + 1) (nLabelAlloc p * 2 + 10)
       (if ok : bool then Some (default [] (aLabel p)) else None))
   else pupd (set_labels (i + 1) (nLabelAlloc p) (aLabel p)));;
  p ← mget;
  match aLabel p with
  | None => pupd (set_labels 0 0 None);; mret 0
  | Some a =>
      assert (Z.of_nat (length a) =? i);;
      pupd (set_labels (nLabel p) (nLabelAlloc p) (Some (a ++ [-1])));;
      mret (-1 - i)
  end.

(** [if( p->aOp[j].p2==x ) p->aOp[j].p2 = p->nOp;] for the instructions below [n] *)
Definition patch (n : Z) (x : Z) (a : list Op) : list Op :=
  map (fun o => if p2 o =? x then set_p2 n o else o) (take (Z.to_nat n) a) ++ drop (Z.to_nat n) a.

Definition sqliteVdbeResolveLabel (x : Z) : M program unit :=
  initial;;
  p ← mget;
  match aOp p with
  | Some a =>
      if (x <? 0) && (- x <=? nLabel p) then
        l ← get_label (-1 - x);
        if l =? nOp p then mret tt
        else
          assert (l <? 0);;
          pupd (set_labels (nLabel p) (nLabelAlloc p)
            ((fun ls => <[Z.to_nat (-1 - x) := nOp p]> ls) <$> aLabel p));;
          assert (nOp p <=? Z.of_nat (length a));;
          pupd (set_ops (nOpAlloc p) (Some (patch (nOp p) x a)))
      else mret tt
  | None => mret tt
  end.

Definition sqliteVdbeCurrentAddr : M program Z := initial;; p ← mget; mret (nOp p).

(** [#define ADDR(X)  (-1-(X))] *)
Definition ADDR (x : Z) : Z := -1 - x.

(** The instruction that an entry of a list stands for, at the address [addr]. *)
Definition list_op (addr : Z) (e : opcode * Z * Z * option (list Z)) : Op :=
  let '(op, p1, p2, p3) := e in
  mkOp (Some op) p1 (if p2 <? 0 then addr + ADDR p2 else p2)
    (match p3 with Some s => P3_STATIC s | None => P3_NOTUSED end).

Fixpoint put_ops (i : Z) (l : list Op) : M program unit :=
  match l with
  | [] => mret tt
  | o :: l' => put_op i o;; put_ops (i + 1) l'
  end.

Definition sqliteVdbeAddOpList (aOp : list (opcode * Z * Z * option (list Z))) : M program Z :=
  initial;;
  p ← mget;
  let n := Z.of_nat (length aOp) in
  ok ← (if nOpAlloc p <=? nOp p + n then grow_ops (nOpAlloc p * 2 + n + 10) else mret true);
  if ok : bool then
    put_ops (nOp p) (map (list_op (nOp p)) aOp);;
    pupd (set_nOp (nOp p + n));;
    mret (nOp p)
  else mret 0.

(** [if( p && addr>=0 && p->nOp>addr && p->aOp )] *)
Definition change_op (addr : Z) (f : Op -> Op) : M program unit :=
  initial;;
  p ← mget;
  if (0 <=? addr) && (addr <? nOp p) && (if aOp p is Some _ then true else false) then
    o ← get_op addr; put_op addr (f o)
  else mret tt.

Definition sqliteVdbeChangeP1 (addr val : Z) : M program unit := change_op addr (set_p1 val).

Definition sqliteVdbeChangeP2 (addr val : Z) : M program unit :=
  assert (0 <=? val);;
  change_op addr (set_p2 val).

Definition dequoted (o : operand3) : operand3 :=
  match o with
  | P3_DYNAMIC (c :: s) => P3_DYNAMIC (cstr (sqliteDequote (c :: s)))
  | P3_STATIC (c :: s) => P3_DYNAMIC (cstr (sqliteDequote (c :: s)))
  | _ => o
  end.

Definition sqliteVdbeDequoteP3 (addr : Z) : M program unit :=
  initial;;
  p ← mget;
  if aOp p is None then mret tt
  else
    let addr := op_or_last addr p in
    if addr <? 0 then mret tt
    else o ← get_op addr; put_op addr (set_p3 (dequoted (p3 o)) o).

(** [isspace] of the C library, in the C locale. *)
Definition isspace (c : Z) : bool := (c =? 32) || ((9 <=? c) && (c <=? 13)).

Fixpoint skip_space (z : list Z) : list Z :=
  match z with c :: z' => if isspace c then skip_space z' else z | [] => [] end.

(** A run of spaces becomes one space. *)
Fixpoint squeeze (in_space : bool) (z : list Z) : list Z :=
  match z with
  | [] => []
  | c :: z' =>
      if isspace c then (if in_space then squeeze true z' else 32 :: squeeze true z')
      else c :: squeeze false z'
  end.

Definition compress_space (z : list Z) : list Z :=
  reverse (skip_space (reverse (squeeze false (skip_space z)))).

Definition compressed (o : operand3) : operand3 :=
  match o with
  | P3_DYNAMIC s => P3_DYNAMIC (compress_space (cstr s))
  | P3_STATIC s => P3_DYNAMIC (compress_space (cstr s))
  | _ => o
  end.

Definition sqliteVdbeCompressSpace (addr : Z) : M program unit :=
  initial;;
  p ← mget;
  if (if aOp p is None then true else false) || (addr <? 0) || (nOp p <=? addr) then mret tt
  else o ← get_op addr; put_op addr (set_p3 (compressed (p3 o)) o).

Fixpoint find_op_loop (op : opcode) (p2' : Z) (i : Z) (a : list Op) : Z :=
  match a with
  | [] => 0
  | o :: a' =>
      if bool_decide (op_code o = Some op) && (p2 o =? p2') then i + 1 else find_op_loop op p2' (i + 1) a'
  end.

(** The address plus one of the first instruction with this opcode and P2. *)
Definition sqliteVdbeFindOp (op : opcode) (p2 : Z) : M program Z :=
  initial;;
  p ← mget;
  mret (find_op_loop op p2 0 (take (Z.to_nat (nOp p)) (default [] (aOp p)))).

Definition sqliteVdbeGetOp (addr : Z) : M program Op :=
  initial;;
  p ← mget;
  assert ((0 <=? addr) && (addr <? nOp p));;
  get_op addr.

(** The program is complete: a [Halt] at its end. *)
Definition sqliteVdbeMakeReady : M program unit :=
  initial;;
  p ← mget;
  let last := match aOp p with Some a => a !! Z.to_nat (nOp p - 1) | None => None end in
  (if (nOp p =? 0) ||
      (match last with Some o => negb (bool_decide (op_code o = Some OP_Halt)) | None => false end)
   then sqliteVdbeAddOp OP_Halt 0 0;; mret tt else mret tt);;
  pupd (fun p => mkProgram VDBE_MAGIC_RUN (nOp p) (nOpAlloc p) (aOp p) (nLabel p) (nLabelAlloc p)
                   (aLabel p) (allocs p)).
