(* ===== verification/VdbeAuxProofs.v ===== *)
(** What the program builder does: an instruction per call, and labels that end up as
    addresses whether they are resolved before or after their use.  The one pass of
    the builder, with its patches, gives the program of an assembler with two. *)
From S2P Require Import Prelude Util CMem CFloat VdbeAux.

(** * The state of the builder *)

(** [p] holds the instructions [l]; [ls] are the addresses of the labels, -1 for a
    label that is not resolved. *)
Definition builds (p : program) (l : list Op) (ls : list Z) : Prop :=
  magic p = VDBE_MAGIC_INIT /\ allocs p = [] /\
  nOp p = Z.of_nat (length l) /\
  match aOp p with
  | None => l = [] /\ nOpAlloc p = 0
  | Some a => exists rest, a = l ++ rest /\ nOpAlloc p = Z.of_nat (length a)
  end /\
  nLabel p = Z.of_nat (length ls) /\
  match aLabel p with
  | None => ls = [] /\ nLabelAlloc p = 0
  | Some a => a = ls /\ Z.of_nat (length ls) <= nLabelAlloc p
  end.

Lemma builds_create : builds sqliteVdbeCreate [] [].
Proof. done. Qed.

(** P2 of an instruction that is added now. *)
Definition known (ls : list Z) (p2 : Z) : Z :=
  if p2 <? 0 then
    match ls !! Z.to_nat (-1 - p2) with
    | Some a => if 0 <=? a then a else p2
    | None => p2
    end
  else p2.

Lemma known_nonneg ls v : 0 <= v -> known ls v = v.
Proof. intros H. unfold known. by destruct (Z.ltb_spec v 0); [lia|]. Qed.

(** P2 of the instructions when the label [x] becomes the address [n]. *)
Definition relabel (x n : Z) (o : Op) : Op := if p2 o =? x then set_p2 n o else o.

Lemma wp_initial (Q : unit -> program -> Prop) C p :
  magic p = VDBE_MAGIC_INIT -> Q tt p -> wp initial Q C p.
Proof. intros H. unfold wp, initial, mbind, M_bind, mget. by rewrite H. Qed.

Lemma wp_program_upd f (Q : unit -> program -> Prop) C p : Q tt (f p) -> wp (pupd f) Q C p.
Proof. done. Qed.

Lemma wp_state {S} (Q : S -> S -> Prop) C s : Q s s -> wp mget Q C s.
Proof. done. Qed.

Lemma wp_get_op i o a (Q : Op -> program -> Prop) C p :
  aOp p = Some a -> a !! Z.to_nat i = Some o -> 0 <= i -> Q o p -> wp (get_op i) Q C p.
Proof.
  intros Ha Ho Hi H. unfold wp, get_op, mbind, M_bind, mget. rewrite Ha, Ho.
  by destruct (Z.leb_spec 0 i); [|lia].
Qed.

Lemma wp_put_op i v o a (Q : unit -> program -> Prop) C p :
  aOp p = Some a -> a !! Z.to_nat i = Some o -> 0 <= i ->
  Q tt (set_ops (nOpAlloc p) (Some (<[Z.to_nat i := v]> a)) p) -> wp (put_op i v) Q C p.
Proof.
  intros Ha Ho Hi H. unfold put_op. apply wp_bind. eapply wp_get_op; [done..|].
  apply wp_bind, wp_state. by rewrite Ha.
Qed.

Lemma wp_grow_ops n (Q : bool -> program -> Prop) C p :
  allocs p = [] ->
  Q true (set_ops n (Some (let a := default [] (aOp p) in
                           a ++ replicate (Z.to_nat n - length a) op0)) p) ->
  wp (grow_ops n) Q C p.
Proof.
  intros Ha H. unfold grow_ops. apply wp_bind. unfold realloc_ok, wp at 1. rewrite Ha.
  apply wp_bind, wp_state. by apply wp_bind, wp_program_upd, wp_ret.
Qed.

Lemma wp_get_label k v (Q : Z -> program -> Prop) C p l ls :
  builds p l ls -> ls !! Z.to_nat k = Some v -> 0 <= k -> Q v p -> wp (get_label k) Q C p.
Proof.
  intros (_ & _ & _ & _ & _ & Hl) Hk H0 H. unfold wp, get_label, mbind, M_bind, mget.
  destruct (aLabel p) as [a|]; [|destruct Hl as [-> _]; done].
  destruct Hl as [-> _]. rewrite Hk. by destruct (Z.leb_spec 0 k); [|lia].
Qed.

Lemma wp_resolved v (Q : Z -> program -> Prop) C p l ls :
  builds p l ls -> Q (known ls v) p -> wp (resolved v) Q C p.
Proof.
  intros Hb H. unfold resolved. apply wp_bind, wp_state. unfold known in H.
  pose proof Hb as (_ & _ & _ & _ & Hn & _). rewrite Hn.
  destruct (Z.ltb_spec v 0) as [Hv|Hv]; cbn [andb]; [|by apply wp_ret].
  destruct (Z.ltb_spec (-1 - v) (Z.of_nat (length ls))) as [Hlt|Hge].
  - destruct (lookup_lt_is_Some_2 ls (Z.to_nat (-1 - v))) as [a Ha]; [lia|].
    rewrite Ha in H. apply wp_bind. eapply wp_get_label; [done|done|lia|]. by apply wp_ret.
  - rewrite lookup_ge_None_2 in H by lia. by apply wp_ret.
Qed.

(** * The operations *)

(** There is room for an instruction behind [l], and it is written there. *)
Lemma builds_set (p : program) l ls a c rest o :
  builds p l ls -> aOp p = Some a -> a = l ++ c :: rest -> nOpAlloc p = Z.of_nat (length a) ->
  builds (set_ops (nOpAlloc p) (Some (<[length l := o]> a)) (set_nOp (Z.of_nat (length l) + 1) p))
    (l ++ [o]) ls.
Proof.
  intros (Hm & Hal & Hn & Ho & Hnl & Hl) Ha -> Hsz. split_and!; try done; cbn.
  - rewrite length_app. simpl. lia.
  - exists rest. split; [|by rewrite length_insert].
    replace (length l) with (length l + 0)%nat at 1 by lia. rewrite insert_app_r.
    by rewrite <-app_assoc.
Qed.

Lemma builds_grown p l ls n a :
  builds p l ls -> a = default [] (aOp p) -> Z.of_nat (length l) < n -> nOpAlloc p <= n ->
  exists c rest, a ++ replicate (Z.to_nat n - length a) op0 = l ++ c :: rest /\
    Z.of_nat (length (a ++ replicate (Z.to_nat n - length a) op0)) = n.
Proof.
  intros (_ & _ & _ & Ho & _) -> Hn Hle. destruct (aOp p) as [a|] eqn:E; cbn [default].
  - destruct Ho as (rest & -> & Hsz). rewrite length_app in *.
    exists (default op0 ((rest ++ replicate (Z.to_nat n - (length l + length rest)) op0) !! O)),
      (tail (rest ++ replicate (Z.to_nat n - (length l + length rest)) op0)).
    unfold id. rewrite !length_app, length_replicate. split; [|lia]. rewrite <-app_assoc. f_equal.
    destruct (rest ++ _) as [|c r] eqn:Er; [|done].
    apply (f_equal length) in Er. rewrite length_app, length_replicate in Er. simpl in Er. lia.
  - destruct Ho as [-> Hz]. simpl in *. rewrite Nat.sub_0_r.
    destruct (Z.to_nat n) as [|m] eqn:Em; [lia|]. simpl. exists op0, (replicate m op0).
    rewrite length_replicate. split; [done|lia].
Qed.

Lemma wp_AddOp op v1 v2 (Q : Z -> program -> Prop) C p l ls :
  builds p l ls ->
  (forall p', builds p' (l ++ [mkOp (Some op) v1 (known ls v2) P3_NOTUSED]) ls ->
     Q (Z.of_nat (length l)) p') ->
  wp (sqliteVdbeAddOp op v1 v2) Q C p.
Proof.
  intros Hb H. pose proof Hb as (Hm & Hal & Hn & Ho & Hnl & Hl).
  unfold sqliteVdbeAddOp. apply wp_bind, wp_state. rewrite Hn.
  apply wp_bind, wp_program_upd, wp_bind, wp_initial; [done|]. apply wp_bind.
  assert (Hpos : 0 <= nOpAlloc p).
  { destruct (aOp p); [destruct Ho as (r & _ & ->)|destruct Ho as [_ ->]]; lia. }
  assert (Hcap : Z.of_nat (length l) <= nOpAlloc p).
  { destruct (aOp p); [destruct Ho as (r & -> & ->); rewrite length_app|destruct Ho as [-> ->]; simpl]; lia. }
  destruct (Z.leb_spec (nOpAlloc p) (Z.of_nat (length l))) as [Hfull|Hroom].
  - apply wp_grow_ops; [done|]. cbn zeta. apply wp_bind. cbn [aOp set_nOp].
    destruct (builds_grown p l ls (nOpAlloc p * 2 + 100) _ Hb eq_refl) as (c & rest & Ea & Esz).
    { lia. } { lia. }
    set (a := default [] (aOp p) ++ replicate _ _) in *. set (p1 := set_ops (nOpAlloc p * 2 + 100) (Some a) p).
    assert (Hb1 : builds p1 l ls).
    { split_and!; try done. cbn. exists (c :: rest). split; [done|by rewrite Esz]. }
    eapply (wp_resolved _ _ _ _ (l ++ [c])).
    { split_and!; try done; cbn.
      - rewrite length_app. simpl. lia.
      - exists rest. split; [by rewrite <-app_assoc|by rewrite Esz]. }
    apply wp_bind. eapply wp_put_op with (o := c).
    { done. } { rewrite Ea, Nat2Z.id. apply list_lookup_middle. lia. } { lia. }
    apply wp_ret. rewrite Nat2Z.id. apply H.
    by apply (builds_set p1 l ls a c rest).
  - apply wp_ret. destruct (aOp p) as [a|] eqn:Ea; [|destruct Ho as [-> E]; simpl in *; lia].
    destruct Ho as (rest & -> & Hsz). destruct rest as [|c rest]; [rewrite app_nil_r in Hsz; lia|].
    apply wp_bind. eapply (wp_resolved _ _ _ _ (l ++ [c]) ls).
    { split_and!; try done; cbn.
      - rewrite length_app. simpl. lia.
      - rewrite Ea. exists rest. split; [by rewrite <-app_assoc|done]. }
    apply wp_bind. eapply wp_put_op with (o := c); [exact Ea| |lia|].
    { rewrite Nat2Z.id. apply list_lookup_middle. lia. }
    apply wp_ret. rewrite Nat2Z.id. apply H.
    by apply (builds_set p l ls (l ++ c :: rest) c rest).
Qed.

(** An instruction that is changed in its place. *)
Lemma builds_change p l ls i o a v :
  builds p l ls -> aOp p = Some a -> l !! i = Some o ->
  builds (set_ops (nOpAlloc p) (Some (<[i := v]> a)) p) (<[i := v]> l) ls.
Proof.
  intros (Hm & Hal & Hn & Ho & Hnl & Hl) Ha Hi. split_and!; try done; cbn.
  - by rewrite length_insert.
  - rewrite Ha in Ho. destruct Ho as (rest & -> & Hsz). exists rest.
    split; [|by rewrite length_insert]. rewrite insert_app_l; [done|].
    by eapply lookup_lt_Some.
Qed.

Lemma builds_lookup p l ls i o : builds p l ls -> l !! i = Some o ->
  exists a, aOp p = Some a /\ a !! i = Some o.
Proof.
  intros (_ & _ & _ & Ho & _) Hi. destruct (aOp p) as [a|]; [|destruct Ho as [-> _]; done].
  destruct Ho as (rest & -> & _). exists (l ++ rest). split; [done|]. by apply lookup_app_l_Some.
Qed.

Lemma wp_change_op i f o (Q : unit -> program -> Prop) C p l ls :
  builds p l ls -> l !! i = Some o ->
  (forall p', builds p' (<[i := f o]> l) ls -> Q tt p') -> wp (change_op (Z.of_nat i) f) Q C p.
Proof.
  intros Hb Hi H. pose proof Hb as (Hm & _ & Hn & _). unfold change_op.
  apply wp_bind, wp_initial; [done|]. apply wp_bind, wp_state.
  destruct (builds_lookup p l ls i o Hb Hi) as (a & Ha & Hai). rewrite Ha, Hn.
  pose proof (lookup_lt_Some _ _ _ Hi). destruct (Z.leb_spec 0 (Z.of_nat i)); [|lia].
  destruct (Z.ltb_spec (Z.of_nat i) (Z.of_nat (length l))); [|lia]. cbn [andb].
  apply wp_bind. eapply wp_get_op; [done|by rewrite Nat2Z.id|lia|].
  eapply wp_put_op; [done|by rewrite Nat2Z.id|lia|]. rewrite Nat2Z.id.
  apply H. by eapply builds_change.
Qed.

Lemma wp_ChangeP2 i v o (Q : unit -> program -> Prop) C p l ls :
  builds p l ls -> l !! i = Some o -> 0 <= v ->
  (forall p', builds p' (<[i := set_p2 v o]> l) ls -> Q tt p') ->
  wp (sqliteVdbeChangeP2 (Z.of_nat i) v) Q C p.
Proof.
  intros Hb Hi Hv H. unfold sqliteVdbeChangeP2. apply wp_bind, wp_assert; [lia|].
  by eapply wp_change_op.
Qed.

(** The functions that change P3 of the last instruction, or of a given one. *)
Lemma op_or_last_at p l ls i o : builds p l ls -> l !! i = Some o ->
  op_or_last (Z.of_nat i) p = Z.of_nat i.
Proof.
  intros (_ & _ & Hn & _) Hi. pose proof (lookup_lt_Some _ _ _ Hi). unfold op_or_last. rewrite Hn.
  destruct (Z.ltb_spec (Z.of_nat i) 0); [lia|].
  destruct (Z.leb_spec (Z.of_nat (length l)) (Z.of_nat i)); [lia|done].
Qed.

Lemma wp_ChangeP3 i z o (Q : unit -> program -> Prop) C p l ls :
  builds p l ls -> l !! i = Some o ->
  (forall p', builds p' (<[i := set_p3 (operand_of z) o]> l) ls -> Q tt p') ->
  wp (sqliteVdbeChangeP3 (Z.of_nat i) z) Q C p.
Proof.
  intros Hb Hi H. pose proof Hb as (Hm & _). unfold sqliteVdbeChangeP3.
  apply wp_bind, wp_initial; [done|]. apply wp_bind, wp_state.
  destruct (builds_lookup p l ls i o Hb Hi) as (a & Ha & Hai). rewrite Ha.
  rewrite (op_or_last_at p l ls i o Hb Hi).
  destruct (Z.ltb_spec (Z.of_nat i) 0); [lia|]. apply wp_bind.
  eapply wp_get_op; [done|by rewrite Nat2Z.id|lia|].
  eapply wp_put_op; [done|by rewrite Nat2Z.id|lia|]. rewrite Nat2Z.id.
  apply H. by eapply builds_change.
Qed.

Lemma op_or_last_last p l ls o : builds p (l ++ [o]) ls -> op_or_last (-1) p = Z.of_nat (length l).
Proof.
  intros (_ & _ & Hn & _). unfold op_or_last. simpl. rewrite Hn, length_app. simpl. lia.
Qed.

Lemma wp_ChangeP3_last z o (Q : unit -> program -> Prop) C p l ls :
  builds p (l ++ [o]) ls ->
  (forall p', builds p' (l ++ [set_p3 (operand_of z) o]) ls -> Q tt p') ->
  wp (sqliteVdbeChangeP3 (-1) z) Q C p.
Proof.
  intros Hb H.
  assert (Hi : (l ++ [o]) !! length l = Some o) by (apply list_lookup_middle; lia).
  assert (E : sqliteVdbeChangeP3 (-1) z p = sqliteVdbeChangeP3 (Z.of_nat (length l)) z p).
  { assert (Ei : initial p = Done tt p).
    { destruct Hb as (Hm & _). unfold initial, mbind, M_bind, mget. by rewrite Hm. }
    unfold sqliteVdbeChangeP3, mbind, M_bind. rewrite Ei. unfold mget.
    destruct (aOp p); [|done]. by rewrite (op_or_last_last p l ls o Hb), (op_or_last_at p _ ls _ o Hb Hi). }
  unfold wp. rewrite E. apply (wp_ChangeP3 _ z o Q C p _ ls Hb Hi). intros p' Hp'. apply H.
  by rewrite insert_app_r_alt, Nat.sub_diag in Hp' by lia.
Qed.

Lemma wp_DequoteP3_last o (Q : unit -> program -> Prop) C p l ls :
  builds p (l ++ [o]) ls ->
  (forall p', builds p' (l ++ [set_p3 (dequoted (p3 o)) o]) ls -> Q tt p') ->
  wp (sqliteVdbeDequoteP3 (-1)) Q C p.
Proof.
  intros Hb H. pose proof Hb as (Hm & _). unfold sqliteVdbeDequoteP3.
  assert (Hi : (l ++ [o]) !! length l = Some o) by (apply list_lookup_middle; lia).
  apply wp_bind, wp_initial; [done|]. apply wp_bind, wp_state.
  destruct (builds_lookup p _ ls _ o Hb Hi) as (a & Ha & Hai). rewrite Ha.
  rewrite (op_or_last_last p l ls o Hb). destruct (Z.ltb_spec (Z.of_nat (length l)) 0); [lia|].
  apply wp_bind. eapply wp_get_op; [done|by rewrite Nat2Z.id|lia|].
  eapply wp_put_op; [done|by rewrite Nat2Z.id|lia|]. rewrite Nat2Z.id.
  apply H. replace (l ++ [set_p3 (dequoted (p3 o)) o]) with
    (<[length l := set_p3 (dequoted (p3 o)) o]> (l ++ [o])).
  - by eapply builds_change.
  - by rewrite insert_app_r_alt, Nat.sub_diag by lia.
Qed.

Lemma wp_MakeLabel (Q : Z -> program -> Prop) C p l ls :
  builds p l ls ->
  (forall p', builds p' l (ls ++ [-1]) -> Q (-1 - Z.of_nat (length ls)) p') ->
  wp sqliteVdbeMakeLabel Q C p.
Proof.
  intros Hb H. pose proof Hb as (Hm & Hal & Hn & Ho & Hnl & Hl).
  unfold sqliteVdbeMakeLabel. apply wp_bind, wp_state. apply wp_bind, wp_initial; [done|].
  rewrite Hnl. set (k := Z.of_nat (length ls)).
  assert (Hend : forall n, k + 1 <= n ->
    wp (pupd (set_labels (k + 1) n (Some ls)))
      (fun _ => wp (p ← mget;
         match aLabel p with
         | None => pupd (set_labels 0 0 None);; mret 0
         | Some a =>
             assert (Z.of_nat (length a) =? k);;
             pupd (set_labels (nLabel p) (nLabelAlloc p) (Some (a ++ [-1])));;
             mret (-1 - k)
         end) Q C) C p).
  { intros n Hk. apply wp_program_upd, wp_bind, wp_state. cbn.
    apply wp_bind, wp_assert; [by apply Z.eqb_eq|]. unfold k in Hk.
    apply wp_bind, wp_program_upd, wp_ret. apply H. split_and!; try done; cbn.
    - rewrite length_app. simpl. lia.
    - split; [done|]. rewrite length_app. simpl. lia. }
  apply wp_bind. destruct (Z.leb_spec (nLabelAlloc p) k) as [Hfull|Hroom].
  - apply wp_bind. unfold realloc_ok, wp at 1. rewrite Hal.
    replace (Some (default [] (aLabel p))) with (Some ls)
      by (destruct (aLabel p); [by destruct Hl as [-> _]|by destruct Hl as [-> _]]).
    apply Hend. subst k. destruct (aLabel p); [destruct Hl as [_ ?]|destruct Hl as [-> ->]]; simpl in *; lia.
  - destruct (aLabel p) as [a|]; [|destruct Hl as [-> E]; simpl in *; lia].
    destruct Hl as [-> _]. apply Hend. subst k. lia.
Qed.

Lemma wp_ResolveLabel k (Q : unit -> program -> Prop) C p l ls :
  builds p l ls -> ls !! k = Some (-1) -> l <> [] ->
  (forall p', builds p' (map (relabel (-1 - Z.of_nat k) (Z.of_nat (length l))) l)
                (<[k := Z.of_nat (length l)]> ls) -> Q tt p') ->
  wp (sqliteVdbeResolveLabel (-1 - Z.of_nat k)) Q C p.
Proof.
  intros Hb Hk Hne H. pose proof Hb as (Hm & Hal & Hn & Ho & Hnl & Hl).
  pose proof (lookup_lt_Some _ _ _ Hk) as Hlt.
  unfold sqliteVdbeResolveLabel. apply wp_bind, wp_initial; [done|]. apply wp_bind, wp_state.
  destruct (aOp p) as [a|] eqn:Ea; [|by destruct Ho].
  destruct Ho as (rest & -> & Hsz).
  destruct (Z.ltb_spec (-1 - Z.of_nat k) 0); [|lia].
  destruct (Z.leb_spec (- (-1 - Z.of_nat k)) (nLabel p)); [|lia]. cbn [andb].
  replace (-1 - (-1 - Z.of_nat k)) with (Z.of_nat k) by lia.
  apply wp_bind. eapply wp_get_label; [done|by rewrite Nat2Z.id|lia|].
  rewrite Hn. destruct (Z.eqb_spec (-1) (Z.of_nat (length l))); [lia|].
  apply wp_bind, wp_assert; [done|]. apply wp_bind, wp_program_upd. cbn [nOp nLabel set_labels].
  apply wp_bind, wp_assert; [apply Z.leb_le; rewrite ?Hn, length_app; lia|].
  apply wp_program_upd. apply H. split_and!; try done; cbn.
  - by rewrite length_map.
  - exists rest. unfold patch. rewrite Nat2Z.id, take_app_length, drop_app_length.
    split; [done|]. rewrite Hsz, !length_app, length_map. done.
  - by rewrite length_insert.
  - destruct (aLabel p) as [b|]; cbn; [|destruct Hl as [-> _]; done].
    destruct Hl as [-> ?]. rewrite Nat2Z.id. split; [done|]. by rewrite length_insert.
Qed.

(** * One pass and two passes *)

(** What a client does: an instruction with an address or a label as its target, a
    new label, the resolution of a label at the current address. *)
Inductive command :=
| Emit (op : opcode) (p1 : Z) (t : Z + nat)
| NewLabel
| Here (k : nat).

Definition operand (t : Z + nat) : Z := match t with inl v => v | inr k => -1 - Z.of_nat k end.

Definition do_command (c : command) : M program unit :=
  match c with
  | Emit op p1 t => sqliteVdbeAddOp op p1 (operand t);; mret tt
  | NewLabel => sqliteVdbeMakeLabel;; mret tt
  | Here k => sqliteVdbeResolveLabel (-1 - Z.of_nat k)
  end.

Fixpoint do_commands (cs : list command) : M program unit :=
  match cs with
  | [] => mret tt
  | c :: cs' => do_command c;; do_commands cs'
  end.

(** The first pass of an assembler: the address of a label, counting from [n]. *)
Fixpoint address (n : Z) (cs : list command) (k : nat) : option Z :=
  match cs with
  | [] => None
  | Emit _ _ _ :: cs' => address (n + 1) cs' k
  | NewLabel :: cs' => address n cs' k
  | Here j :: cs' => if decide (j = k) then Some n else address n cs' k
  end.

(** The second pass: the instructions, with the targets as [cs0] has them. *)
Definition target (cs0 : list command) (t : Z + nat) : Z :=
  match t with
  | inl v => v
  | inr k => default (operand t) (address 0 cs0 k)
  end.

Fixpoint instructions (cs0 cs : list command) : list Op :=
  match cs with
  | [] => []
  | Emit op p1 t :: cs' => mkOp (Some op) p1 (target cs0 t) P3_NOTUSED :: instructions cs0 cs'
  | _ :: cs' => instructions cs0 cs'
  end.

Definition assemble (cs : list command) : list Op := instructions cs cs.

(** The labels made so far. *)
Fixpoint labels_made (cs : list command) : nat :=
  match cs with
  | [] => O
  | NewLabel :: cs' => S (labels_made cs')
  | _ :: cs' => labels_made cs'
  end.

(** A client is well behaved when it uses only labels that it has made, resolves each
    at most once and not before the first instruction, and gives no negative number
    as an address. *)
Definition command_ok (before : list command) (c : command) : Prop :=
  match c with
  | Emit _ _ (inl v) => 0 <= v
  | Emit _ _ (inr k) => (k < labels_made before)%nat
  | NewLabel => True
  | Here k => (k < labels_made before)%nat /\ address 0 before k = None /\ instructions [] before <> []
  end.

Fixpoint commands_ok (before cs : list command) : Prop :=
  match cs with
  | [] => True
  | c :: cs' => command_ok before c /\ commands_ok (before ++ [c]) cs'
  end.

Definition label_table (cs : list command) : list Z :=
  map (fun k => default (-1) (address 0 cs k)) (seq 0 (labels_made cs)).

Definition immediate_ok (c : command) : Prop :=
  match c with Emit _ _ (inl v) => 0 <= v | _ => True end.

Lemma labels_made_app cs cs' : labels_made (cs ++ cs') = (labels_made cs + labels_made cs')%nat.
Proof. induction cs as [|[] cs IH]; simpl; [done|..]; by rewrite IH. Qed.

Lemma instructions_app cs0 cs cs' :
  instructions cs0 (cs ++ cs') = instructions cs0 cs ++ instructions cs0 cs'.
Proof. induction cs as [|[] cs IH]; simpl; [done|..]; by rewrite IH. Qed.

Lemma instructions_length cs0 cs1 cs : length (instructions cs0 cs) = length (instructions cs1 cs).
Proof. induction cs as [|[] cs IH]; simpl; [done|..]; by rewrite IH. Qed.

Lemma address_app n cs cs' k :
  address n (cs ++ cs') k =
    match address n cs k with
    | Some a => Some a
    | None => address (n + Z.of_nat (length (instructions [] cs))) cs' k
    end.
Proof.
  revert n. induction cs as [|c cs IH]; intros n; [by rewrite Z.add_0_r|].
  destruct c as [op v t| |j]; simpl.
  - rewrite IH. destruct (address (n + 1) cs k); [done|]. f_equal. lia.
  - apply IH.
  - destruct (decide (j = k)); [done|]. apply IH.
Qed.

Lemma address_nonneg n cs k a : 0 <= n -> address n cs k = Some a -> 0 <= a.
Proof.
  revert n. induction cs as [|[op v t| |j] cs IH]; intros n Hn; simpl; [done|..].
  - apply IH. lia.
  - by apply IH.
  - case_decide; [intros [= <-]; done|]. by apply IH.
Qed.

Lemma label_table_lookup cs k : (k < labels_made cs)%nat ->
  label_table cs !! k = Some (default (-1) (address 0 cs k)).
Proof.
  intros H. unfold label_table. rewrite list_lookup_fmap, lookup_seq_lt by done. done.
Qed.

Lemma known_operand cs t : immediate_ok (Emit OP_Noop 0 t) ->
  (if t is inr k then (k < labels_made cs)%nat else True) ->
  known (label_table cs) (operand t) = target cs t.
Proof.
  intros Hi Hk. destruct t as [v|k]; cbn in *; [by apply known_nonneg|].
  unfold known. destruct (Z.ltb_spec (-1 - Z.of_nat k) 0); [|lia].
  replace (Z.to_nat (-1 - (-1 - Z.of_nat k))) with k by lia.
  rewrite label_table_lookup by done.
  destruct (address 0 cs k) as [a|] eqn:E; cbn; [|done].
  apply address_nonneg in E; [|done]. by destruct (Z.leb_spec 0 a); [|lia].
Qed.

Lemma label_table_snoc cs c : (if c is Here _ then False else True) ->
  label_table (cs ++ [c]) = label_table cs ++ (if c is NewLabel then
    [default (-1) (address 0 cs (labels_made cs))] else []).
Proof.
  intros Hc. unfold label_table.
  assert (Ha : forall k, address 0 (cs ++ [c]) k = address 0 cs k).
  { intros k. rewrite address_app. destruct (address 0 cs k); [done|]. by destruct c. }
  rewrite labels_made_app. destruct c; cbn [labels_made]; [| |done].
  - rewrite Nat.add_0_r, app_nil_r. apply list_fmap_ext. intros i k _. by rewrite Ha.
  - rewrite Nat.add_1_r, seq_S, fmap_app. cbn. rewrite Ha. f_equal.
    apply list_fmap_ext. intros i k _. by rewrite Ha.
Qed.

(** A label gets its address in the table and in the instructions. *)
Lemma label_table_here cs k : address 0 cs k = None -> (k < labels_made cs)%nat ->
  label_table (cs ++ [Here k]) =
    <[k := Z.of_nat (length (instructions [] cs))]> (label_table cs).
Proof.
  intros Hk Hlt. apply list_eq. intros j. unfold label_table at 1. rewrite labels_made_app.
  cbn [labels_made]. rewrite Nat.add_0_r, list_lookup_fmap.
  destruct (decide (j < labels_made cs)%nat) as [Hj|Hj].
  - rewrite lookup_seq_lt by done. cbn. rewrite address_app. cbn [address].
    destruct (decide (k = j)) as [->|Hne].
    + rewrite Hk. cbn. rewrite list_lookup_insert_eq; [done|].
      unfold label_table. by rewrite length_map, length_seq.
    + rewrite list_lookup_insert_ne by done. rewrite label_table_lookup by done.
      by destruct (address 0 cs j).
  - rewrite lookup_seq_ge by lia. symmetry. apply lookup_ge_None_2.
    rewrite length_insert. unfold label_table. rewrite length_map, length_seq. lia.
Qed.

Lemma target_here cs k t : address 0 cs k = None -> immediate_ok (Emit OP_Noop 0 t) ->
  (if target cs t =? -1 - Z.of_nat k then Z.of_nat (length (instructions [] cs)) else target cs t) =
  target (cs ++ [Here k]) t.
Proof.
  intros Hk Hi. destruct t as [v|j]; cbn in *.
  { by destruct (Z.eqb_spec v (-1 - Z.of_nat k)); [lia|]. }
  rewrite address_app. cbn [address]. destruct (address 0 cs j) as [a|] eqn:E; cbn.
  - apply address_nonneg in E; [|done]. by destruct (Z.eqb_spec a (-1 - Z.of_nat k)); [lia|].
  - destruct (decide (k = j)) as [->|Hne]; cbn; [by rewrite Z.eqb_refl|].
    by destruct (Z.eqb_spec (-1 - Z.of_nat j) (-1 - Z.of_nat k)); [lia|].
Qed.

Lemma instructions_here cs0 cs k : address 0 cs0 k = None -> Forall immediate_ok cs ->
  map (relabel (-1 - Z.of_nat k) (Z.of_nat (length (instructions [] cs0)))) (instructions cs0 cs) =
  instructions (cs0 ++ [Here k]) cs.
Proof.
  intros Hk. induction 1 as [|c cs Hc Hcs IH]; [done|]. destruct c as [op v t| |j]; cbn; try exact IH.
  rewrite IH. f_equal. unfold relabel. cbn [p2 set_p2].
  rewrite <-target_here by done. by destruct (_ =? _).
Qed.

Lemma instructions_same cs cs' l :
  (forall k, address 0 cs k = address 0 cs' k) -> instructions cs l = instructions cs' l.
Proof.
  intros H. induction l as [|[op v t| |j] l IH]; cbn; try done. rewrite IH. f_equal.
  destruct t as [w|k]; cbn; [done|]. by rewrite H.
Qed.

(** What has been resolved has been made. *)
Definition resolved_made (cs : list command) : Prop :=
  forall k, (labels_made cs <= k)%nat -> address 0 cs k = None.

Lemma resolved_made_snoc cs c : resolved_made cs -> command_ok cs c -> resolved_made (cs ++ [c]).
Proof.
  intros H Hc k Hk. rewrite labels_made_app in Hk. rewrite address_app, H by lia.
  destruct c as [op v t| |j]; cbn in *; try done. destruct Hc as (Hj & _).
  by destruct (decide (j = k)); [lia|].
Qed.

(** One command. *)
Lemma wp_do_command c cs p (Q : unit -> program -> Prop) C :
  builds p (assemble cs) (label_table cs) -> command_ok cs c -> Forall immediate_ok cs ->
  resolved_made cs ->
  (forall p', builds p' (assemble (cs ++ [c])) (label_table (cs ++ [c])) -> Q tt p') ->
  wp (do_command c) Q C p.
Proof.
  intros Hb Hc Hi Hm H. unfold assemble in *.
  assert (Hsame : (if c is Here _ then False else True) ->
    instructions (cs ++ [c]) cs = instructions cs cs).
  { intros Hh. apply instructions_same. intros k. rewrite address_app.
    destruct (address 0 cs k); [done|]. by destruct c. }
  destruct c as [op v t| |k]; cbn [do_command].
  - apply wp_bind. eapply wp_AddOp; [exact Hb|]. intros p' Hp'. apply wp_ret, H.
    rewrite instructions_app, Hsame, label_table_snoc, app_nil_r by done. cbn [instructions].
    rewrite known_operand in Hp' by (destruct t; done).
    replace (target (cs ++ [Emit op v t]) t) with (target cs t); [done|].
    destruct t as [w|j]; cbn; [done|]. rewrite address_app. cbn. by destruct (address 0 cs j).
  - apply wp_bind. eapply wp_MakeLabel; [exact Hb|]. intros p' Hp'. apply wp_ret, H.
    rewrite instructions_app, Hsame, label_table_snoc by done. cbn [instructions]. rewrite app_nil_r.
    by rewrite Hm by done.
  - destruct Hc as (Hk & Hnone & Hne).
    eapply wp_ResolveLabel; [exact Hb| | |].
    + by rewrite label_table_lookup, Hnone by done.
    + intros E. apply Hne. apply (f_equal length) in E.
      rewrite (instructions_length cs []) in E. by apply nil_length_inv.
    + intros p' Hp'. apply H. rewrite instructions_app, label_table_here by done.
      cbn [instructions]. rewrite app_nil_r, <-instructions_here by done.
      by rewrite (instructions_length [] cs).
Qed.

Lemma wp_do_commands cs' cs p (Q : unit -> program -> Prop) C :
  builds p (assemble cs) (label_table cs) -> commands_ok cs cs' -> Forall immediate_ok cs ->
  resolved_made cs ->
  (forall p', builds p' (assemble (cs ++ cs')) (label_table (cs ++ cs')) -> Q tt p') ->
  wp (do_commands cs') Q C p.
Proof.
  revert cs p. induction cs' as [|c cs' IH]; intros cs p Hb Hok Hi Hm H.
  - apply wp_ret, H. by rewrite app_nil_r.
  - destruct Hok as [Hc Hok]. cbn [do_commands]. apply wp_bind.
    eapply wp_do_command; [exact Hb|done..|]. intros p' Hp'.
    eapply IH; [exact Hp'|done| |by apply resolved_made_snoc|].
    + apply Forall_app. split; [done|]. apply Forall_singleton.
      destruct c as [op v [w|k]| |k]; cbn in *; done.
    + intros p'' Hp''. apply H. by rewrite <-app_assoc in Hp''.
Qed.

(** C12: back-patching is right.  Take any order of instructions (immediate operands are
    not negative), new labels and resolutions in which a label is used only after it is
    made, is resolved at most once, and none is resolved before the first instruction;
    allocations succeed.  The program that the builder ends up with in one pass is the
    program of an assembler that first computes the address of every label and then
    emits the instructions. *)
Theorem labels_assembled cs :
  commands_ok [] cs ->
  returns (do_commands cs) (fun _ p => builds p (assemble cs) (label_table cs)) sqliteVdbeCreate.
Proof.
  intros H. eapply wp_do_commands with (cs := []); [exact builds_create|done|done|done|done].
Qed.

(** A loop with a jump forward and one backward. *)
Definition sample_commands : list command :=
  [NewLabel; NewLabel; Emit OP_Integer 3 (inl 0); Here 1; Emit OP_If 0 (inr 0%nat); Emit OP_Goto 0 (inr 1%nat);
   Here 0; Emit OP_Goto 0 (inr 0%nat)].

Lemma labels_assembled_witness :
  assemble sample_commands =
    [mkOp (Some OP_Integer) 3 0 P3_NOTUSED; mkOp (Some OP_If) 0 3 P3_NOTUSED;
     mkOp (Some OP_Goto) 0 1 P3_NOTUSED; mkOp (Some OP_Goto) 0 3 P3_NOTUSED] /\
  returns (do_commands sample_commands)
    (fun _ p => builds p (assemble sample_commands) (label_table sample_commands)) sqliteVdbeCreate.
Proof.
  split; [reflexivity|]. apply labels_assembled. cbn. split_and!; try done; try lia.
Defined.

(** When the array cannot grow, the count of instructions has been raised already: the
    slot that was skipped holds no instruction. *)
Example failed_growth_leaves_a_hole :
  returns (do_commands (repeat (Emit OP_Noop 0 (inl 0)) 102))
    (fun _ p => nOp p = 102 /\ default [] (aOp p) !! 100%nat = Some op0)
    (set_allocs [true; false] sqliteVdbeCreate).
Proof. vm_compute. by split. Qed.

(** A label that is resolved before the first instruction is forgotten. *)
Example early_label_is_lost :
  returns (do_commands [NewLabel; Here 0; Emit OP_Goto 0 (inr 0%nat)])
    (fun _ p => take 1 (default [] (aOp p)) = [mkOp (Some OP_Goto) 0 (-1) P3_NOTUSED])
    sqliteVdbeCreate.
Proof. vm_compute. reflexivity. Qed.

(** The text comparisons are six opcodes behind the numeric ones, as the generator of
    expressions assumes. *)
Lemma text_opcodes :
  map (fun o => opcode_plus o 6) [OP_Eq; OP_Ne; OP_Lt; OP_Le; OP_Gt; OP_Ge] =
  map Some [OP_StrEq; OP_StrNe; OP_StrLt; OP_StrLe; OP_StrGt; OP_StrGe].
Proof. vm_compute. reflexivity. Qed.
