(* ===== verification/VdbeMem.v ===== *)
(** The state of the virtual machine, [vdbe.c] and [vdbeInt.h]: memory cells with their
    flags and their strings, the stack, and the conversions between types of values. *)
From S2P Require Import Prelude Util CMem CFloat Printf VdbeAux.

(** * Memory cells *)

Definition NBFS : Z := 32.

(** Where [z] points: into a constant string, a block of the heap, or the [zShort] of
    an entry of the stack or of a memory cell. *)
Inductive zptr :=
| ZNull
| ZConst (s : list Z)
| ZHeap (p : positive) (off : Z)
| ZTos (k off : Z)
| ZCell (k off : Z).

Record Mem := mkCell {
  mi : Z;
  mn : Z;
  mflags : Z;
  mr : spec_float;
  mz : zptr;
  zShort : list Z
}.

Definition set_mi (v : Z) (x : Mem) : Mem :=
  mkCell v (mn x) (mflags x) (mr x) (mz x) (zShort x).
Definition set_mn (v : Z) (x : Mem) : Mem :=
  mkCell (mi x) v (mflags x) (mr x) (mz x) (zShort x).
Definition set_mflags (v : Z) (x : Mem) : Mem :=
  mkCell (mi x) (mn x) v (mr x) (mz x) (zShort x).
Definition set_mr (v : spec_float) (x : Mem) : Mem :=
  mkCell (mi x) (mn x) (mflags x) v (mz x) (zShort x).
Definition set_mz (v : zptr) (x : Mem) : Mem :=
  mkCell (mi x) (mn x) (mflags x) (mr x) v (zShort x).
Definition set_zShort (v : list Z) (x : Mem) : Mem :=
  mkCell (mi x) (mn x) (mflags x) (mr x) (mz x) v.

Definition MEM_Null : Z := 1.
Definition MEM_Str : Z := 2.
Definition MEM_Int : Z := 4.
Definition MEM_Real : Z := 8.
Definition MEM_Dyn : Z := 16.
Definition MEM_Static : Z := 32.
Definition MEM_Ephem : Z := 64.
Definition MEM_Short : Z := 128.

(** [(p->flags & f)!=0] *)
Definition has (f : Z) (m : Mem) : bool := negb (Z.land (mflags m) f =? 0).

(** What [sqliteMalloc] leaves in a cell. *)
Definition blank : Mem := mkCell 0 0 0 (S754_zero false) ZNull (replicate 32 0).

(** * The machine *)

(** A cursor: the key and data of the entry that its [pCursor] is at, or the data of a
    pseudo-table. *)
Record Cursor := mkCursor {
  pCursor : option (list Z * list Z);
  lastRecno : Z;
  recnoIsValid : bool;
  keyAsData : bool;
  nullRow : bool;
  pseudoTable : bool;
  deferredMoveto : bool;
  pData : option (list Z);
  iKey : Z
}.

(** An element of the sorter; the key and the data are blocks of the heap. *)
Record Sorter := mkSorter { nKey : Z; zKey : zptr; nData : Z; sData : zptr; sNext : option positive }.

(** The message of an error: a text, or that of a result code. *)
Inductive errmsg := Text (s : list Z) | ErrorString (rc : Z).

Record Vm := mkVm {
  aStack : list Mem;
  pTos : Z;
  vheap : mem;
  aMem : list Mem;
  azVar : list (option (list Z));
  aSet : list (gset (list Z));
  aCsr : list Cursor;
  returnStack : list Z;
  uniqueCnt : Z;
  popCount : Z;
  vpc : Z;
  vrc : Z;
  vmagic : vdbe_magic;
  errorAction : Z;
  zErrMsg : option errmsg;
  azColName : gmap Z (list Z);
  nResColumn : Z;
  nCallback : Z;
  azResColumn : list (option zptr);
  pSort : option positive;
  sorters : gmap positive Sorter;
  interrupted : bool
}.

Definition set_aStack (v : list Mem) (x : Vm) : Vm :=
  mkVm v (pTos x) (vheap x) (aMem x) (azVar x) (aSet x) (aCsr x) (returnStack x) (uniqueCnt x)
    (popCount x) (vpc x) (vrc x) (vmagic x) (errorAction x) (zErrMsg x) (azColName x) (nResColumn x) (nCallback x) (azResColumn x) (pSort x) (sorters x) (interrupted x).
Definition set_pTos (v : Z) (x : Vm) : Vm :=
  mkVm (aStack x) v (vheap x) (aMem x) (azVar x) (aSet x) (aCsr x) (returnStack x) (uniqueCnt
    x) (popCount x) (vpc x) (vrc x) (vmagic x) (errorAction x) (zErrMsg x) (azColName x) (nResColumn x) (nCallback x) (azResColumn x) (pSort x) (sorters x) (interrupted x).
Definition set_vheap (v : mem) (x : Vm) : Vm :=
  mkVm (aStack x) (pTos x) v (aMem x) (azVar x) (aSet x) (aCsr x) (returnStack x) (uniqueCnt x)
    (popCount x) (vpc x) (vrc x) (vmagic x) (errorAction x) (zErrMsg x) (azColName x) (nResColumn x) (nCallback x) (azResColumn x) (pSort x) (sorters x) (interrupted x).
Definition set_aMem (v : list Mem) (x : Vm) : Vm :=
  mkVm (aStack x) (pTos x) (vheap x) v (azVar x) (aSet x) (aCsr x) (returnStack x) (uniqueCnt
    x) (popCount x) (vpc x) (vrc x) (vmagic x) (errorAction x) (zErrMsg x) (azColName x) (nResColumn x) (nCallback x) (azResColumn x) (pSort x) (sorters x) (interrupted x).
Definition set_azVar (v : list (option (list Z))) (x : Vm) : Vm :=
  mkVm (aStack x) (pTos x) (vheap x) (aMem x) v (aSet x) (aCsr x) (returnStack x) (uniqueCnt x)
    (popCount x) (vpc x) (vrc x) (vmagic x) (errorAction x) (zErrMsg x) (azColName x) (nResColumn x) (nCallback x) (azResColumn x) (pSort x) (sorters x) (interrupted x).
Definition set_aSet (v : list (gset (list Z))) (x : Vm) : Vm :=
  mkVm (aStack x) (pTos x) (vheap x) (aMem x) (azVar x) v (aCsr x) (returnStack x) (uniqueCnt
    x) (popCount x) (vpc x) (vrc x) (vmagic x) (errorAction x) (zErrMsg x) (azColName x) (nResColumn x) (nCallback x) (azResColumn x) (pSort x) (sorters x) (interrupted x).
Definition set_aCsr (v : list Cursor) (x : Vm) : Vm :=
  mkVm (aStack x) (pTos x) (vheap x) (aMem x) (azVar x) (aSet x) v (returnStack x) (uniqueCnt
    x) (popCount x) (vpc x) (vrc x) (vmagic x) (errorAction x) (zErrMsg x) (azColName x) (nResColumn x) (nCallback x) (azResColumn x) (pSort x) (sorters x) (interrupted x).
Definition set_returnStack (v : list Z) (x : Vm) : Vm :=
  mkVm (aStack x) (pTos x) (vheap x) (aMem x) (azVar x) (aSet x) (aCsr x) v (uniqueCnt x)
    (popCount x) (vpc x) (vrc x) (vmagic x) (errorAction x) (zErrMsg x) (azColName x) (nResColumn x) (nCallback x) (azResColumn x) (pSort x) (sorters x) (interrupted x).
Definition set_uniqueCnt (v : Z) (x : Vm) : Vm :=
  mkVm (aStack x) (pTos x) (vheap x) (aMem x) (azVar x) (aSet x) (aCsr x) (returnStack x) v
    (popCount x) (vpc x) (vrc x) (vmagic x) (errorAction x) (zErrMsg x) (azColName x) (nResColumn x) (nCallback x) (azResColumn x) (pSort x) (sorters x) (interrupted x).
Definition set_popCount (v : Z) (x : Vm) : Vm :=
  mkVm (aStack x) (pTos x) (vheap x) (aMem x) (azVar x) (aSet x) (aCsr x) (returnStack x)
    (uniqueCnt x) v (vpc x) (vrc x) (vmagic x) (errorAction x) (zErrMsg x) (azColName x) (nResColumn x) (nCallback x) (azResColumn x) (pSort x) (sorters x) (interrupted x).
Definition set_vpc (v : Z) (x : Vm) : Vm :=
  mkVm (aStack x) (pTos x) (vheap x) (aMem x) (azVar x) (aSet x) (aCsr x) (returnStack x)
    (uniqueCnt x) (popCount x) v (vrc x) (vmagic x) (errorAction x) (zErrMsg x) (azColName x) (nResColumn x) (nCallback x) (azResColumn x) (pSort x) (sorters x) (interrupted x).
Definition set_vrc (v : Z) (x : Vm) : Vm :=
  mkVm (aStack x) (pTos x) (vheap x) (aMem x) (azVar x) (aSet x) (aCsr x) (returnStack x)
    (uniqueCnt x) (popCount x) (vpc x) v (vmagic x) (errorAction x) (zErrMsg x) (azColName x) (nResColumn x) (nCallback x) (azResColumn x) (pSort x) (sorters x) (interrupted x).
Definition set_vmagic (v : vdbe_magic) (x : Vm) : Vm :=
  mkVm (aStack x) (pTos x) (vheap x) (aMem x) (azVar x) (aSet x) (aCsr x) (returnStack x)
    (uniqueCnt x) (popCount x) (vpc x) (vrc x) v (errorAction x) (zErrMsg x) (azColName x) (nResColumn x) (nCallback x) (azResColumn x) (pSort x) (sorters x) (interrupted x).
Definition set_errorAction (v : Z) (x : Vm) : Vm :=
  mkVm (aStack x) (pTos x) (vheap x) (aMem x) (azVar x) (aSet x) (aCsr x) (returnStack x)
    (uniqueCnt x) (popCount x) (vpc x) (vrc x) (vmagic x) v (zErrMsg x) (azColName x) (nResColumn x) (nCallback x) (azResColumn x) (pSort x) (sorters x) (interrupted x).
Definition set_zErrMsg (v : option errmsg) (x : Vm) : Vm :=
  mkVm (aStack x) (pTos x) (vheap x) (aMem x) (azVar x) (aSet x) (aCsr x) (returnStack x)
    (uniqueCnt x) (popCount x) (vpc x) (vrc x) (vmagic x) (errorAction x) v (azColName x) (nResColumn x) (nCallback x) (azResColumn x) (pSort x) (sorters x) (interrupted x).
Definition set_azColName (v : gmap Z (list Z)) (x : Vm) : Vm :=
  mkVm (aStack x) (pTos x) (vheap x) (aMem x) (azVar x) (aSet x) (aCsr x) (returnStack x)
    (uniqueCnt x) (popCount x) (vpc x) (vrc x) (vmagic x) (errorAction x) (zErrMsg x) v (nResColumn x) (nCallback x) (azResColumn x) (pSort x) (sorters x) (interrupted x).
Definition set_nResColumn (v : Z) (x : Vm) : Vm :=
  mkVm (aStack x) (pTos x) (vheap x) (aMem x) (azVar x) (aSet x) (aCsr x) (returnStack x)
    (uniqueCnt x) (popCount x) (vpc x) (vrc x) (vmagic x) (errorAction x) (zErrMsg x) (azColName x) v (nCallback x) (azResColumn x) (pSort x) (sorters x) (interrupted x).
Definition set_nCallback (v : Z) (x : Vm) : Vm :=
  mkVm (aStack x) (pTos x) (vheap x) (aMem x) (azVar x) (aSet x) (aCsr x) (returnStack x)
    (uniqueCnt x) (popCount x) (vpc x) (vrc x) (vmagic x) (errorAction x) (zErrMsg x) (azColName x) (nResColumn x) v (azResColumn x) (pSort x) (sorters x) (interrupted x).
Definition set_azResColumn (v : list (option zptr)) (x : Vm) : Vm :=
  mkVm (aStack x) (pTos x) (vheap x) (aMem x) (azVar x) (aSet x) (aCsr x) (returnStack x)
    (uniqueCnt x) (popCount x) (vpc x) (vrc x) (vmagic x) (errorAction x) (zErrMsg x) (azColName x) (nResColumn x) (nCallback x) v (pSort x) (sorters x) (interrupted x).
Definition set_pSort (v : option positive) (x : Vm) : Vm :=
  mkVm (aStack x) (pTos x) (vheap x) (aMem x) (azVar x) (aSet x) (aCsr x) (returnStack x)
    (uniqueCnt x) (popCount x) (vpc x) (vrc x) (vmagic x) (errorAction x) (zErrMsg x) (azColName x) (nResColumn x) (nCallback x) (azResColumn x) v (sorters x) (interrupted x).
Definition set_sorters (v : gmap positive Sorter) (x : Vm) : Vm :=
  mkVm (aStack x) (pTos x) (vheap x) (aMem x) (azVar x) (aSet x) (aCsr x) (returnStack x)
    (uniqueCnt x) (popCount x) (vpc x) (vrc x) (vmagic x) (errorAction x) (zErrMsg x) (azColName x) (nResColumn x) (nCallback x) (azResColumn x) (pSort x) v (interrupted x).
Definition set_interrupted (v : bool) (x : Vm) : Vm :=
  mkVm (aStack x) (pTos x) (vheap x) (aMem x) (azVar x) (aSet x) (aCsr x) (returnStack x)
    (uniqueCnt x) (popCount x) (vpc x) (vrc x) (vmagic x) (errorAction x) (zErrMsg x) (azColName x) (nResColumn x) (nCallback x) (azResColumn x) (pSort x) (sorters x) v.

Definition SQLITE_OK : Z := 0.
Definition SQLITE_ERROR : Z := 1.
Definition SQLITE_INTERNAL : Z := 2.
Definition SQLITE_BUSY : Z := 5.
Definition SQLITE_NOMEM : Z := 7.
Definition SQLITE_INTERRUPT : Z := 9.
Definition SQLITE_CORRUPT : Z := 11.
Definition SQLITE_TOOBIG : Z := 18.
Definition SQLITE_MISMATCH : Z := 20.
Definition SQLITE_MISUSE : Z := 21.
Definition SQLITE_ROW : Z := 100.
Definition SQLITE_DONE : Z := 101.

Definition onheap {A} (m : M mem A) : M Vm A := fun s =>
  match m (vheap s) with
  | Done a h => Done a (set_vheap h s)
  | Crashed h => Crashed (set_vheap h s)
  | Stuck => Stuck
  end.

Definition vget {A} (f : Vm -> A) : M Vm A := fun s => Done (f s) s.
Definition vupd (f : Vm -> Vm) : M Vm unit := fun s => Done tt (f s).

(** An element of a list at a C index. *)
Definition at_ {A} (l : list A) (k : Z) : option A := if 0 <=? k then l !! Z.to_nat k else None.

Definition of_option {S A} (x : option A) : M S A :=
  match x with Some a => mret a | None => mstuck end.

(** [p->aStack[k]], a change of it, and the same for [p->aMem[k]] *)
Definition stk (k : Z) : M Vm Mem := l ← vget aStack; of_option (at_ l k).
Definition stk_upd (k : Z) (f : Mem -> Mem) : M Vm unit :=
  m ← stk k; vupd (fun s => set_aStack (<[Z.to_nat k := f m]> (aStack s)) s).
Definition cell (k : Z) : M Vm Mem := l ← vget aMem; of_option (at_ l k).
Definition cell_upd (k : Z) (f : Mem -> Mem) : M Vm unit :=
  m ← cell k; vupd (fun s => set_aMem (<[Z.to_nat k := f m]> (aMem s)) s).

(** The bytes from where a pointer points to. *)
Definition z_bytes (z : zptr) : M Vm (list (option Z)) :=
  match z with
  | ZNull => mstuck
  | ZConst s => mret (map Some s)
  | ZHeap p off => b ← onheap (get_block p); assert (0 <=? off);; mret (drop (Z.to_nat off) b)
  | ZTos k off => m ← stk k; assert (0 <=? off);; mret (drop (Z.to_nat off) (map Some (zShort m)))
  | ZCell k off => m ← cell k; assert (0 <=? off);; mret (drop (Z.to_nat off) (map Some (zShort m)))
  end.

(** The string a pointer points to, and [n] bytes of it. *)
Definition z_str (z : zptr) : M Vm (list Z) := b ← z_bytes z; of_option (block_str b).
Definition z_read (z : zptr) (n : Z) : M Vm (list Z) := b ← z_bytes z; of_option (block_bytes (Z.to_nat n) b).

Definition z_free (z : zptr) : M Vm unit :=
  match z with
  | ZHeap p off => assert (off =? 0);; onheap (free p)
  | ZNull => mret tt
  | _ => mstuck
  end.

(** A block of [n] bytes that holds [s]; [None] when there is no memory. *)
Definition new_string (n : Z) (s : list Z) : M Vm (option zptr) :=
  p ← onheap (sqliteMallocRaw n);
  match p with
  | Some p => onheap (store_bytes p 0 s);; mret (Some (ZHeap p 0))
  | None => mret None
  end.

(** ** Conversions *)

(** The text that [sqlite_snprintf(sizeof(p->zShort), p->zShort, ...)] leaves there; the
    local array of [vxprintf] starts with zeros. *)
Definition printed (fmt : list Z) (a : arg) : option (list Z) :=
  match sqlite_snprintf (replicate 1000 0) NBFS 1 fmt [a] (mkMem {[1%positive := replicate 32 None]} [] 0) with
  | Done _ h => b ← blocks h !! 1%positive; block_str (take 32 b)
  | _ => None
  end.

(** The formats [%.15g] and [%d] *)
Definition fmt_real : list Z := [37; 46; 49; 53; 103].
Definition fmt_int : list Z := [37; 100].

(** [zShort] with a string and its terminator written to it. *)
Definition short_text (t short : list Z) : list Z := t ++ [0] ++ drop (S (length t)) short.

Definition hardStringify (k : Z) : M Vm unit :=
  m ← stk k;
  t ← of_option
    (if has MEM_Real m then printed fmt_real (ADouble (mr m))
     else if has MEM_Int m then printed fmt_int (AInt (mi m))
     else Some []);
  stk_upd k (fun m => set_zShort (short_text t (zShort m)) (set_mz (ZTos k 0)
    (set_mn (strlen t + 1) (set_mflags (MEM_Str + MEM_Short) m)))).

Definition Stringify (k : Z) : M Vm unit :=
  m ← stk k; if has MEM_Str m then mret tt else hardStringify k.

(** [true] when there is no memory. *)
Definition hardDynamicify (k : Z) : M Vm bool :=
  m ← stk k;
  (if has MEM_Str m then mret tt else hardStringify k);;
  m ← stk k;
  assert (negb (has MEM_Dyn m));;
  s ← z_read (mz m) (mn m);
  z ← new_string (mn m) s;
  match z with
  | None => mret true
  | Some z => stk_upd k (fun m => set_mz z (set_mflags (Z.lor (mflags m) MEM_Dyn) m));; mret false
  end.

Definition Dynamicify (k : Z) : M Vm bool :=
  m ← stk k; if has MEM_Dyn m then mret false else hardDynamicify k.

Definition hardDeephem (k : Z) : M Vm bool :=
  m ← stk k;
  assert (has MEM_Ephem m);;
  s ← z_read (mz m) (mn m);
  z ← new_string (mn m) s;
  match z with
  | None => mret true
  | Some z =>
      stk_upd k (fun m => set_mz z
        (set_mflags (Z.lor (Z.land (mflags m) (Z.lnot MEM_Ephem)) MEM_Dyn) m));;
      mret false
  end.

Definition Deephemeralize (k : Z) : M Vm bool :=
  m ← stk k; if has MEM_Ephem m then hardDeephem k else mret false.

Definition Release (m : Mem) : M Vm unit := if has MEM_Dyn m then z_free (mz m) else mret tt.

Fixpoint pop_stack (n : nat) : M Vm unit :=
  match n with
  | O => mret tt
  | S n' =>
      k ← vget pTos;
      m ← stk k;
      Release m;;
      vupd (set_pTos (k - 1));;
      pop_stack n'
  end.

Definition popStack (n : Z) : M Vm unit := pop_stack (Z.to_nat n).

(** [for(i=0; (c=zNum[i])>='0' && c<='9'; i++){ v = v*10 + c - '0'; }] *)
Fixpoint toInt_loop (z : list Z) (v i : Z) : list Z * Z * Z :=
  match z with
  | [] => (z, v, i)
  | c :: z' => if isdigit c then toInt_loop z' (wrap32 (v * 10 + c - 48)) (i + 1) else (z, v, i)
  end.

(** The result and the number. *)
Definition toInt (zNum : list Z) : bool * Z :=
  let neg := chr zNum =? 45 in
  let zNum := if neg || (chr zNum =? 43) then tail zNum else zNum in
  let '(rest, v, i) := toInt_loop zNum 0 0 in
  ((chr rest =? 0) && (0 <? i) &&
     ((i <? 10) || ((i =? 10) && (memcmp zNum max_int_text 10 <=? 0))),
   if neg then wrap32 (- v) else v).

Definition hardIntegerify (k : Z) : M Vm unit :=
  m ← stk k;
  (if has MEM_Real m then
     v ← of_option (to_int (mr m));
     stk_upd k (set_mi v);;
     Release m
   else if has MEM_Str m then
     s ← z_str (mz m);
     stk_upd k (set_mi (snd (toInt s)));;
     Release m
   else stk_upd k (set_mi 0));;
  stk_upd k (set_mflags MEM_Int).

Definition Integerify (k : Z) : M Vm unit :=
  m ← stk k; if has MEM_Int m then mret tt else hardIntegerify k.

Definition hardRealify (k : Z) : M Vm unit :=
  m ← stk k;
  (if has MEM_Str m then s ← z_str (mz m); stk_upd k (set_mr (fst (sqliteAtoF s)))
   else if has MEM_Int m then stk_upd k (set_mr (dint (mi m)))
   else stk_upd k (set_mr (S754_zero false)));;
  stk_upd k (fun m => set_mflags (Z.lor (mflags m) MEM_Real) m).

Definition Realify (k : Z) : M Vm unit :=
  m ← stk k; if has MEM_Real m then mret tt else hardRealify k.
