(* ===== verification/Vdbe.v ===== *)
(** The virtual machine of [vdbe.c]: the instructions, and the loop of [sqliteVdbeExec]. *)
From S2P Require Import Prelude Util CMem CFloat Printf VdbeAux VdbeMem.

(** * Instructions *)

(** What an instruction leads to: on to the next one (from the value of [pc] at the end
    of the [case]), [rc] set to an error, [return], or one of the labels behind the
    loop. *)
Inductive ctl :=
| Go (pc : Z)
| Fail (rc : Z)
| Return (rc : Z)
| no_mem
| abort_due_to_error (rc : Z)
| abort_due_to_interrupt.

(** [pTos++] *)
Definition grow : M Vm Z := k ← vget pTos; vupd (set_pTos (k + 1));; mret (k + 1).

Definition push_null : M Vm unit := k ← grow; stk_upd k (set_mflags MEM_Null).
Definition push_int (v : Z) : M Vm unit :=
  k ← grow; stk_upd k (fun m => set_mi v (set_mflags MEM_Int m)).
Definition push_real (v : spec_float) : M Vm unit :=
  k ← grow; stk_upd k (fun m => set_mr v (set_mflags MEM_Real m)).

(** ** Integers and reals *)

Inductive arith := ANum (v : Z) | AReal (v : spec_float) | ANull | AUndefined.

Definition int_op (o : opcode) (b a : Z) : arith :=
  match o with
  | OP_Add => ANum (wrap32 (b + a))
  | OP_Subtract => ANum (wrap32 (b - a))
  | OP_Multiply => ANum (wrap32 (b * a))
  | OP_Divide =>
      if a =? 0 then ANull
      else if (b =? -2147483648) && (a =? -1) then AUndefined else ANum (Z.quot b a)
  | _ =>
      if a =? 0 then ANull
      else if (b =? -2147483648) && (a =? -1) then AUndefined else ANum (Z.rem b a)
  end.

Definition real_op (o : opcode) (b a : spec_float) : arith :=
  match o with
  | OP_Add => AReal (dadd b a)
  | OP_Subtract => AReal (dsub b a)
  | OP_Multiply => AReal (dmul b a)
  | OP_Divide => if SFeqb a (S754_zero false) then ANull else AReal (ddiv b a)
  | _ =>
      match to_int a, to_int b with
      | Some ia, Some ib =>
          if ia =? 0 then ANull
          else if (ib =? -2147483648) && (ia =? -1) then AUndefined else AReal (dint (Z.rem ib ia))
      | _, _ => AUndefined
      end
  end.

(** A shift by a count that is no bit number is undefined. *)
Definition bit_op (o : opcode) (a b : Z) : option Z :=
  match o with
  | OP_BitAnd => Some (Z.land a b)
  | OP_BitOr => Some (Z.lor a b)
  | OP_ShiftLeft => if (0 <=? b) && (b <? 32) then Some (wrap32 (Z.shiftl a b)) else None
  | _ => if (0 <=? b) && (b <? 32) then Some (Z.shiftr a b) else None
  end.

Definition compare_op (o : opcode) (c : Z) : bool :=
  match o with
  | OP_Eq | OP_StrEq => c =? 0
  | OP_Ne | OP_StrNe => negb (c =? 0)
  | OP_Lt | OP_StrLt => c <? 0
  | OP_Le | OP_StrLe => c <=? 0
  | OP_Gt | OP_StrGt => 0 <? c
  | _ => 0 <=? c
  end.

(** [0] is true, [1] is false, [2] is unknown. *)
Definition and_logic : list Z := [0; 1; 2; 1; 1; 1; 2; 1; 2].
Definition or_logic : list Z := [0; 0; 0; 0; 1; 2; 0; 2; 2].

(** ** Stack *)

(** [x] is copied to the entry [k], with its [zShort] or without it. *)
Definition stk_put (k : Z) (x : Mem) : M Vm unit := stk_upd k (fun _ => x).

Definition op_Dup (o : Op) (pc : Z) : M Vm ctl :=
  k ← vget pTos;
  let kf := k - p1 o in
  assert ((kf <=? k) && (0 <=? kf));;
  from ← stk kf;
  k ← grow;
  stk_upd k (fun m => set_zShort (zShort m) from);;
  if has MEM_Str from then
    if negb (p2 o =? 0) && (has MEM_Dyn from || has MEM_Ephem from) then
      stk_upd k (fun m => set_mflags (Z.lor (Z.land (mflags m) (Z.lnot MEM_Dyn)) MEM_Ephem) m);;
      mret (Go pc)
    else if has MEM_Short from then
      assert ((0 <=? mn from) && (mn from <=? NBFS));;
      stk_upd k (fun m => set_mz (ZTos k 0)
        (set_zShort (take (Z.to_nat (mn from)) (zShort from) ++ drop (Z.to_nat (mn from)) (zShort m)) m));;
      mret (Go pc)
    else if negb (has MEM_Static from) then
      s ← z_read (mz from) (mn from);
      z ← new_string (mn from) s;
      match z with
      | None => mret no_mem
      | Some z =>
          stk_upd k (fun m => set_mz z (set_mflags
            (Z.lor (Z.land (mflags m) (Z.lnot (MEM_Static + MEM_Ephem + MEM_Short))) MEM_Dyn) m));;
          mret (Go pc)
      end
    else mret (Go pc)
  else mret (Go pc).

(** The entries above [kf] go down one level. *)
Fixpoint pull_loop (n : nat) (kf : Z) : M Vm bool :=
  match n with
  | O => mret false
  | S n' =>
      nomem ← Deephemeralize (kf + 1);
      if nomem : bool then mret true
      else
        m ← stk (kf + 1);
        assert (negb (has MEM_Ephem m));;
        (if has MEM_Short m then
           assert (has MEM_Str m && match mz m with ZTos j 0 => j =? kf + 1 | _ => false end);;
           stk_put kf (set_mz (ZTos kf 0) m)
         else stk_put kf m);;
        pull_loop n' (kf + 1)
  end.

Definition op_Pull (o : Op) (pc : Z) : M Vm ctl :=
  k ← vget pTos;
  let kf := k - p1 o in
  ts ← stk kf;
  nomem ← Deephemeralize k;
  if nomem : bool then mret no_mem
  else
    nomem ← pull_loop (Z.to_nat (p1 o)) kf;
    if nomem : bool then mret no_mem
    else
      (if has MEM_Short ts then
         assert (has MEM_Str ts && match mz ts with ZTos j 0 => j =? kf | _ => false end);;
         stk_put k (set_mz (ZTos k 0) ts)
       else stk_put k ts);;
      mret (Go pc).

Definition op_Push (o : Op) (pc : Z) : M Vm ctl :=
  k ← vget pTos;
  let kt := k - p1 o in
  assert (0 <=? kt);;
  nomem ← Deephemeralize k;
  if nomem : bool then mret no_mem
  else
    to ← stk kt;
    Release to;;
    m ← stk k;
    (if has MEM_Short m then
       assert (match mz m with ZTos j 0 => j =? k | _ => false end);;
       stk_put kt (set_mz (ZTos kt 0) m)
     else stk_put kt m);;
    vupd (set_pTos (k - 1));;
    mret (Go pc).

(** The column names and the pointers to the texts of a row of the result. *)
Definition op_ColumnName (o : Op) (pc nOp : Z) : M Vm ctl :=
  assert ((0 <=? p1 o) && (p1 o <? nOp));;
  vupd (fun s => set_azColName
    (match p3 o with
     | P3_DYNAMIC t | P3_STATIC t => <[p1 o := t]> (azColName s)
     | _ => delete (p1 o) (azColName s)
     end) (set_nCallback 0 s));;
  (if p2 o =? 0 then mret tt else vupd (set_nResColumn (p1 o + 1)));;
  mret (Go pc).

(** The texts of the entries from [k] on. *)
Fixpoint argument_texts (n : nat) (k : Z) : M Vm (list (option zptr)) :=
  match n with
  | O => mret []
  | S n' =>
      m ← stk k;
      a ← (if has MEM_Null m then mret None
           else Stringify k;; m ← stk k; mret (Some (mz m)));
      l ← argument_texts n' (k + 1);
      mret (a :: l)
  end.

Definition op_Callback (o : Op) (pc : Z) : M Vm ctl :=
  k ← vget pTos;
  let kc := k + 1 - p1 o in
  assert (0 <=? kc);;
  a ← argument_texts (Z.to_nat (p1 o)) kc;
  n ← vget nResColumn;
  assert (n =? p1 o);;
  vupd (fun s => set_nCallback (nCallback s + 1) (set_azResColumn a
    (set_popCount (p1 o) (set_vpc (pc + 1) s))));;
  mret (Return SQLITE_ROW).

(** ** Operators *)

(** The number of bytes of the concatenation, [-1] when an operand is NULL. *)
Fixpoint concat_size (n : nat) (k nSep nByte : Z) : M Vm Z :=
  match n with
  | O => mret nByte
  | S n' =>
      m ← stk k;
      if has MEM_Null m then mret (-1)
      else
        Stringify k;;
        m ← stk k;
        concat_size n' (k + 1) nSep (nByte + (mn m - 1 + nSep))
  end.

Fixpoint concat_bytes (n : nat) (k : Z) (zSep : list Z) : M Vm (list Z) :=
  match n with
  | O => mret []
  | S n' =>
      m ← stk k;
      assert (has MEM_Str m);;
      s ← z_read (mz m) (mn m - 1);
      l ← concat_bytes n' (k + 1) zSep;
      mret (s ++ (if n' is O then [] else zSep) ++ l)
  end.

Definition p3_text (o : Op) : option (list Z) :=
  match p3 o with P3_DYNAMIC s | P3_STATIC s => Some s | _ => None end.

Definition op_Concat (o : Op) (pc : Z) : M Vm ctl :=
  k ← vget pTos;
  let nField := p1 o in
  let zSep := default [] (p3_text o) in
  let nSep := strlen zSep in
  let kt := k + 1 - nField in
  assert (0 <=? kt);;
  nByte ← concat_size (Z.to_nat nField) kt nSep (1 - nSep);
  if nByte <? 0 then
    (if p2 o =? 0 then popStack nField else mret tt);;
    push_null;;
    mret (Go pc)
  else
    s ← concat_bytes (Z.to_nat nField) kt zSep;
    z ← new_string nByte (s ++ [0]);
    match z with
    | None => mret no_mem
    | Some z =>
        (if p2 o =? 0 then popStack nField else mret tt);;
        k ← grow;
        stk_upd k (fun m => set_mn nByte (set_mflags (MEM_Str + MEM_Dyn) (set_mz z m)));;
        mret (Go pc)
    end.

(** [Release(pTos); pTos--; Release(pTos);] and the new value of the entry *)
Definition replace_two (f : Mem -> Mem) : M Vm unit :=
  k ← vget pTos;
  m ← stk k;
  Release m;;
  vupd (set_pTos (k - 1));;
  m ← stk (k - 1);
  Release m;;
  stk_upd (k - 1) f.

Definition op_arith (op : opcode) (pc : Z) : M Vm ctl :=
  k ← vget pTos;
  assert (0 <=? k - 1);;
  t ← stk k;
  n ← stk (k - 1);
  if has MEM_Null t || has MEM_Null n then replace_two (set_mflags MEM_Null);; mret (Go pc)
  else
    r ← (if has MEM_Int t && has MEM_Int n then mret (int_op op (mi n) (mi t))
         else
           Realify k;; Realify (k - 1);;
           t ← stk k; n ← stk (k - 1);
           mret (real_op op (mr n) (mr t)));
    match r with
    | ANum v => replace_two (fun m => set_mi v (set_mflags MEM_Int m));; mret (Go pc)
    | AReal v => replace_two (fun m => set_mr v (set_mflags MEM_Real m));; mret (Go pc)
    | ANull => replace_two (set_mflags MEM_Null);; mret (Go pc)
    | AUndefined => mstuck
    end.

Definition op_bits (op : opcode) (pc : Z) : M Vm ctl :=
  k ← vget pTos;
  assert (0 <=? k - 1);;
  t ← stk k;
  n ← stk (k - 1);
  if has MEM_Null t || has MEM_Null n then popStack 2;; push_null;; mret (Go pc)
  else
    Integerify k;; Integerify (k - 1);;
    t ← stk k; n ← stk (k - 1);
    v ← of_option (bit_op op (mi t) (mi n));
    assert (negb (has MEM_Dyn t) && negb (has MEM_Dyn n));;
    vupd (set_pTos (k - 1));;
    Release n;;
    stk_upd (k - 1) (fun m => set_mi v (set_mflags MEM_Int m));;
    mret (Go pc).

Definition op_AddImm (o : Op) (pc : Z) : M Vm ctl :=
  k ← vget pTos;
  assert (0 <=? k);;
  Integerify k;;
  stk_upd k (fun m => set_mi (wrap32 (mi m + p1 o)) m);;
  mret (Go pc).

Definition op_ForceInt (o : Op) (pc : Z) : M Vm ctl :=
  k ← vget pTos;
  assert (0 <=? k);;
  m ← stk k;
  number ← (if has MEM_Int m || has MEM_Real m then mret true
            else if has MEM_Str m then s ← z_str (mz m); mret (sqliteIsNumber s)
            else mret false);
  if negb number then Release m;; vupd (set_pTos (k - 1));; mret (Go (p2 o - 1))
  else
    v ← (if has MEM_Int m then mret (wrap32 (mi m + (if p1 o =? 0 then 0 else 1)))
         else
           Realify k;;
           m ← stk k;
           v ← of_option (to_int (mr m));
           let v := if SFltb (dint v) (mr m) then wrap32 (v + 1) else v in
           mret (if negb (p1 o =? 0) && SFeqb (mr m) (dint v) then wrap32 (v + 1) else v));
    m ← stk k;
    Release m;;
    stk_upd k (fun m => set_mi v (set_mflags MEM_Int m));;
    mret (Go pc).

(** The integer an entry can be converted into without loss. *)
Definition must_be_int (k : Z) : M Vm (option Z) :=
  m ← stk k;
  if has MEM_Int m then mret (Some (mi m))
  else if has MEM_Real m then
    i ← of_option (to_int (mr m));
    mret (if SFeqb (dint i) (mr m) then Some i else None)
  else if has MEM_Str m then
    s ← z_str (mz m);
    let '(ok, v) := toInt s in
    if ok : bool then mret (Some v)
    else if negb (sqliteIsNumber s) then mret None
    else
      Realify k;;
      m ← stk k;
      v ← of_option (to_int (mr m));
      mret (if SFeqb (dint v) (mr m) then Some v else None)
  else mret None.

Definition op_MustBeInt (o : Op) (pc : Z) : M Vm ctl :=
  k ← vget pTos;
  assert (0 <=? k);;
  v ← must_be_int k;
  match v with
  | Some v =>
      m ← stk k;
      Release m;;
      stk_upd k (fun m => set_mi v (set_mflags MEM_Int m));;
      mret (Go pc)
  | None =>
      if p2 o =? 0 then mret (abort_due_to_error SQLITE_MISMATCH)
      else
        (if p1 o =? 0 then mret tt else popStack 1);;
        mret (Go (p2 o - 1))
  end.

(** What the comparison instructions do with the result of the comparison. *)
Definition branch_or_push (o : Op) (c : bool) (pc : Z) : M Vm ctl :=
  popStack 2;;
  if negb (p2 o =? 0) then mret (Go (if c then p2 o - 1 else pc))
  else push_int (if c then 1 else 0);; mret (Go pc).

Definition branch_null (o : Op) (pc : Z) : M Vm ctl :=
  popStack 2;;
  if negb (p2 o =? 0) then mret (Go (if p1 o =? 0 then pc else p2 o - 1))
  else push_null;; mret (Go pc).

(** [toInt(p->z, &v)] for an entry with a string *)
Definition string_int (m : Mem) : M Vm (option Z) :=
  if has MEM_Str m then
    s ← z_str (mz m);
    mret (if fst (toInt s) then Some (snd (toInt s)) else None)
  else mret None.

Definition compare_texts (cmp : list Z -> list Z -> Z) (k : Z) : M Vm Z :=
  Stringify k;;
  Stringify (k - 1);;
  t ← stk k; n ← stk (k - 1);
  st ← z_str (mz t);
  sn ← z_str (mz n);
  mret (cmp sn st).

Definition compare_top (k : Z) : M Vm Z :=
  t ← stk k; n ← stk (k - 1);
  if has MEM_Int t && has MEM_Int n then mret (wrap32 (mi n - mi t))
  else
    vn ← (if has MEM_Int t then string_int n else mret None);
    match vn with
    | Some v => mret (wrap32 (v - mi t))
    | None =>
        vt ← (if has MEM_Int n then string_int t else mret None);
        match vt with
        | Some v => mret (wrap32 (mi n - v))
        | None => compare_texts (fun a b => sqliteCompare (Some a) (Some b)) k
        end
    end.

Definition op_compare (op : opcode) (o : Op) (pc : Z) : M Vm ctl :=
  k ← vget pTos;
  assert (0 <=? k - 1);;
  t ← stk k; n ← stk (k - 1);
  if has MEM_Null t || has MEM_Null n then branch_null o pc
  else c ← compare_top k; branch_or_push o (compare_op op c) pc.

Definition op_strcompare (op : opcode) (o : Op) (pc : Z) : M Vm ctl :=
  k ← vget pTos;
  assert (0 <=? k - 1);;
  t ← stk k; n ← stk (k - 1);
  if has MEM_Null t || has MEM_Null n then branch_null o pc
  else c ← compare_texts strcmp k; branch_or_push o (compare_op op c) pc.

(** The number of a truth value in the tables. *)
Definition truth_code (k : Z) : M Vm Z :=
  m ← stk k;
  if has MEM_Null m then mret 2
  else Integerify k;; m ← stk k; mret (if mi m =? 0 then 1 else 0).

Definition op_logic (op : opcode) (pc : Z) : M Vm ctl :=
  k ← vget pTos;
  assert (0 <=? k - 1);;
  v1 ← truth_code k;
  v2 ← truth_code (k - 1);
  let v := (match op with OP_And => and_logic | _ => or_logic end).[v1 * 3 + v2] in
  popStack 2;;
  (if v =? 2 then push_null else push_int (if v =? 0 then 1 else 0));;
  mret (Go pc).

Definition op_sign (op : opcode) (pc : Z) : M Vm ctl :=
  k ← vget pTos;
  assert (0 <=? k);;
  m ← stk k;
  let negative_real (m : Mem) :=
    match op with OP_Negative => true | _ => SFltb (mr m) (S754_zero false) end in
  let negate_real := stk_upd k (fun m => set_mflags MEM_Real
    (if negative_real m then set_mr (SFopp (mr m)) m else m)) in
  (if has MEM_Real m then Release m;; negate_real
   else if has MEM_Int m then
     Release m;;
     stk_upd k (fun m => set_mflags MEM_Int
       (if (match op with OP_Negative => true | _ => mi m <? 0 end) then set_mi (wrap32 (- mi m)) m else m))
   else if has MEM_Null m then mret tt
   else
     Realify k;;
     m ← stk k;
     Release m;;
     negate_real);;
  mret (Go pc).

(** [Not] and [BitNot] *)
Definition op_integer (f : Z -> Z) (pc : Z) : M Vm ctl :=
  k ← vget pTos;
  assert (0 <=? k);;
  m ← stk k;
  if has MEM_Null m then mret (Go pc)
  else
    Integerify k;;
    m ← stk k;
    Release m;;
    stk_upd k (fun m => set_mi (f (mi m)) (set_mflags MEM_Int m));;
    mret (Go pc).

Definition op_If (op : opcode) (o : Op) (pc : Z) : M Vm ctl :=
  k ← vget pTos;
  assert (0 <=? k);;
  m ← stk k;
  c ← (if has MEM_Null m then mret (negb (p1 o =? 0))
       else
         Integerify k;;
         m ← stk k;
         let c := negb (mi m =? 0) in
         mret (match op with OP_IfNot => negb c | _ => c end));
  m ← stk k;
  assert (negb (has MEM_Dyn m));;
  vupd (set_pTos (k - 1));;
  mret (Go (if (c : bool) then p2 o - 1 else pc)).

Fixpoint any_null (n : nat) (k : Z) : M Vm bool :=
  match n with
  | O => mret false
  | S n' => m ← stk k; if has MEM_Null m then mret true else any_null n' (k + 1)
  end.

(** [IsNull] and [NotNull] *)
Definition op_null (op : opcode) (o : Op) (pc : Z) : M Vm ctl :=
  let cnt := Z.abs (p1 o) in
  k ← vget pTos;
  let kt := k + 1 - cnt in
  assert (0 <=? kt);;
  null ← any_null (Z.to_nat cnt) kt;
  (if 0 <? p1 o then popStack cnt else mret tt);;
  let c := match op with OP_NotNull => negb null | _ => null end in
  mret (Go (if c then p2 o - 1 else pc)).

(** ** Functions *)

(** [sqlite_set_result_string] on a new context: the cell, and the pointer to its text
    when it is not in the cell; [None] without memory. *)
Definition set_result_string (s : list Z) (m : Mem) : M Vm (option Mem) :=
  let n := Z.of_nat (length s) in
  if n <? NBFS - 1 then
    mret (Some (set_mn (n + 1) (set_mflags (MEM_Str + MEM_Short)
      (set_zShort (s ++ [0] ++ drop (S (length s)) (zShort m)) m))))
  else
    z ← new_string (n + 1) (s ++ [0]);
    match z with
    | Some z => mret (Some (set_mn (n + 1) (set_mflags (MEM_Str + MEM_Dyn) (set_mz z m))))
    | None => mret None
    end.

(** The context after the call of [xFunc], and [isError]. *)
Definition call_function (r : fresult) : M Vm (option (Mem * bool)) :=
  let s0 := set_mflags MEM_Null blank in
  match r with
  | FNull | FError None => mret (Some (s0, match r with FError _ => true | _ => false end))
  | FInt v => mret (Some (set_mi v (set_mflags MEM_Int s0), false))
  | FReal v => mret (Some (set_mr v (set_mflags MEM_Real s0), false))
  | FText s => m ← set_result_string s s0; mret ((fun m => (m, false)) <$> m)
  | FError (Some s) => m ← set_result_string s s0; mret ((fun m => (m, true)) <$> m)
  end.

Fixpoint read_texts (l : list (option zptr)) : M Vm (list (option (list Z))) :=
  match l with
  | [] => mret []
  | a :: l' =>
      s ← match a with Some z => s ← z_str z; mret (Some s) | None => mret None end;
      r ← read_texts l';
      mret (s :: r)
  end.

Definition op_Function (o : Op) (pc : Z) : M Vm ctl :=
  k ← vget pTos;
  let n := p1 o in
  azArgv ← argument_texts (Z.to_nat n) (k + 1 - n);
  args ← read_texts azArgv;
  f ← of_option (match p3 o with P3_POINTER f => xFunc f | _ => None end);
  r ← call_function (f args);
  match r with
  | None => mstuck
  | Some (m, isError) =>
      popStack n;;
      k ← grow;
      stk_put k (if has MEM_Short m then set_mz (ZTos k 0) m else m);;
      if isError : bool then
        m ← stk k;
        msg ← (if has MEM_Str m then z_str (mz m) else mret (bytes_of_string "user function error"));
        vupd (set_zErrMsg (Some (Text msg)));;
        mret (Fail SQLITE_ERROR)
      else mret (Go pc)
  end.

(** ** Records *)

Definition MAX_BYTES_PER_ROW : Z := 1048576.

(** The entries as texts, and the number of their bytes; and whether one is NULL. *)
Fixpoint record_size (n : nat) (k nByte : Z) (null : bool) : M Vm (Z * bool) :=
  match n with
  | O => mret (nByte, null)
  | S n' =>
      m ← stk k;
      if has MEM_Null m then record_size n' (k + 1) nByte true
      else
        Stringify k;;
        m ← stk k;
        record_size n' (k + 1) (nByte + mn m) null
  end.

(** An entry of the header: [idxWidth] bytes, the least significant first. *)
Definition idx_bytes (idxWidth addr : Z) : list Z :=
  [Z.land addr 255] ++
  (if 1 <? idxWidth then [Z.land (Z.shiftr addr 8) 255] else []) ++
  (if 2 <? idxWidth then [Z.land (Z.shiftr addr 16) 255] else []).

(** The entries of the header but the last, with the address of the end. *)
Fixpoint record_header (n : nat) (k idxWidth addr : Z) : M Vm (list Z * Z) :=
  match n with
  | O => mret ([], addr)
  | S n' =>
      m ← stk k;
      '(l, addr') ← record_header n' (k + 1) idxWidth (if has MEM_Null m then addr else addr + mn m);
      mret (idx_bytes idxWidth addr ++ l, addr')
  end.

Fixpoint record_data (n : nat) (k : Z) : M Vm (list Z) :=
  match n with
  | O => mret []
  | S n' =>
      m ← stk k;
      s ← (if has MEM_Null m then mret [] else z_read (mz m) (mn m));
      l ← record_data n' (k + 1);
      mret (s ++ l)
  end.

Definition idx_width (nByte nField : Z) : Z :=
  if nByte + nField + 1 <? 256 then 1
  else if nByte + 2 * nField + 2 <? 65536 then 2 else 3.

(** [nByte] bytes on the stack, in [zShort] if there is room. *)
Definition push_bytes (nByte : Z) (s : list Z) (z : option zptr) : M Vm unit :=
  k ← grow;
  match z with
  | None => stk_upd k (fun m => set_mn nByte (set_mflags (MEM_Str + MEM_Short) (set_mz (ZTos k 0)
              (set_zShort (s ++ drop (length s) (zShort m)) m))))
  | Some z => stk_upd k (fun m => set_mn nByte (set_mflags (MEM_Str + MEM_Dyn) (set_mz z m)))
  end.

(** The four bytes of the counter [uniqueCnt]. *)
Definition u32_bytes (v : Z) : list Z :=
  [Z.land v 255; Z.land (Z.shiftr v 8) 255; Z.land (Z.shiftr v 16) 255; Z.land (Z.shiftr v 24) 255].

Definition op_MakeRecord (o : Op) (pc : Z) : M Vm ctl :=
  let nField := p1 o in
  k ← vget pTos;
  let k0 := k + 1 - nField in
  assert (0 <=? k0);;
  '(nByte, null) ← record_size (Z.to_nat nField) k0 0 false;
  let addUnique := if null : bool then p2 o else 0 in
  let nByte := if addUnique =? 0 then nByte else nByte + 4 in
  let idxWidth := idx_width nByte nField in
  let nByte := nByte + idxWidth * (nField + 1) in
  if MAX_BYTES_PER_ROW <? nByte then mret (abort_due_to_error SQLITE_TOOBIG)
  else
    '(hdr, addr) ← record_header (Z.to_nat nField) k0 idxWidth (idxWidth * (nField + 1) + addUnique * 4);
    u ← vget uniqueCnt;
    (if addUnique =? 0 then mret tt else vupd (set_uniqueCnt ((u + 1) `mod` 4294967296)));;
    data ← record_data (Z.to_nat nField) k0;
    let rec := hdr ++ idx_bytes idxWidth addr ++ (if addUnique =? 0 then [] else u32_bytes u) ++ data in
    z ← (if nByte <=? NBFS then mret (Some None)
         else z ← new_string nByte rec; mret (Some <$> z));
    match z with
    | None => mret no_mem
    | Some z => popStack nField;; push_bytes nByte rec z;; mret (Go pc)
    end.

(** A field of the header: [idxWidth] bytes from [l]. *)
Definition idx_value (idxWidth : Z) (l : list Z) : Z :=
  let v := l.[0] in
  let v := if 1 <? idxWidth then Z.lor v (Z.shiftl (l.[1]) 8) else v in
  if 2 <? idxWidth then Z.lor v (Z.shiftl (l.[2]) 16) else v.

(** Where [OP_Column] finds its record: nothing, memory that it may point into, or the
    entry of a cursor, which it copies. *)
Inductive rec_source := NoRecord | InMemory (z : zptr) (n : Z) | InTable (s : list Z).

Definition z_add (z : zptr) (n : Z) : zptr :=
  match z with
  | ZNull => ZNull
  | ZConst s => ZConst (drop (Z.to_nat n) s)
  | ZHeap p off => ZHeap p (off + n)
  | ZTos k off => ZTos k (off + n)
  | ZCell k off => ZCell k (off + n)
  end.

Definition record_of (o : Op) (k : Z) : M Vm rec_source :=
  let i := p1 o in
  if i <? 0 then
    assert (0 <=? k + i);;
    m ← stk (k + i);
    assert (has MEM_Str m);;
    mret (InMemory (mz m) (mn m))
  else
    l ← vget aCsr;
    pC ← of_option (at_ l i);
    match pCursor pC with
    | Some (key, data) =>
        assert (negb (deferredMoveto pC));;
        mret (if nullRow pC then NoRecord else InTable (if keyAsData pC then key else data))
    | None =>
        if pseudoTable pC then
          match pData pC with
          | Some d => mret (InMemory (ZConst d) (Z.of_nat (length d)))
          | None => mret NoRecord
          end
        else mret NoRecord
    end.

(** [n] bytes of the record from the offset [off] on. *)
Definition rec_bytes (r : rec_source) (off n : Z) : M Vm (list Z) :=
  match r with
  | NoRecord => mstuck
  | InMemory z _ => z_read (z_add z off) n
  | InTable s => of_option (block_bytes (Z.to_nat n) (map Some (drop (Z.to_nat off) s)))
  end.

Definition op_Column (o : Op) (pc : Z) : M Vm ctl :=
  k ← grow;
  r ← record_of o k;
  let payloadSize := match r with NoRecord => 0 | InMemory _ n => n | InTable s => Z.of_nat (length s) end in
  if payloadSize =? 0 then stk_upd k (set_mflags MEM_Null);; mret (Go pc)
  else
    let idxWidth := if payloadSize <? 256 then 1 else if payloadSize <? 65536 then 2 else 3 in
    if payloadSize <? idxWidth * (p2 o + 1) then mret (abort_due_to_error SQLITE_CORRUPT)
    else
      aHdr ← rec_bytes r (idxWidth * p2 o) (idxWidth * 2);
      let offset := idx_value idxWidth aHdr in
      let end_ := idx_value idxWidth (drop (Z.to_nat idxWidth) aHdr) in
      let amt := end_ - offset in
      if (amt <? 0) || (offset <? 0) || (payloadSize <? end_) then mret (abort_due_to_error SQLITE_CORRUPT)
      else
        stk_upd k (set_mn amt);;
        if amt =? 0 then stk_upd k (set_mflags MEM_Null);; mret (Go pc)
        else
          match r with
          | NoRecord => mstuck
          | InMemory z _ =>
              stk_upd k (fun m => set_mflags (MEM_Str + MEM_Ephem) (set_mz (z_add z offset) m));;
              mret (Go pc)
          | InTable _ =>
              s ← rec_bytes r offset amt;
              if amt <=? NBFS then
                stk_upd k (fun m => set_mflags (MEM_Str + MEM_Short) (set_mz (ZTos k 0)
                  (set_zShort (s ++ drop (length s) (zShort m)) m)));;
                mret (Go pc)
              else
                z ← new_string amt s;
                match z with
                | None => mret no_mem
                | Some z =>
                    stk_upd k (fun m => set_mflags (MEM_Str + MEM_Dyn) (set_mz z m));;
                    mret (Go pc)
                end
          end.

(** [sqliteVdbeByteSwap] and [keyToInt]; the four bytes of a record number *)
Definition sqliteVdbeByteSwap (x : Z) : Z :=
  let b i := Z.land (Z.shiftr x (8 * i)) 255 in
  wrap32 (Z.shiftl (b 0) 24 + Z.shiftl (b 1) 16 + Z.shiftl (b 2) 8 + b 3).

Definition keyToInt (x : Z) : Z := wrap32 (Z.lxor (sqliteVdbeByteSwap x) 2147483648).
Definition intToKey (x : Z) : Z := sqliteVdbeByteSwap (wrap32 (Z.lxor x 2147483648)).

Definition int_of_bytes (s : list Z) : Z :=
  wrap32 (s.[0] + Z.shiftl (s.[1]) 8 + Z.shiftl (s.[2]) 16 + Z.shiftl (s.[3]) 24).

Definition op_Recno (o : Op) (pc : Z) : M Vm ctl :=
  l ← vget aCsr;
  pC ← of_option (at_ l (p1 o));
  assert (negb (deferredMoveto pC));;
  (if recnoIsValid pC then push_int (lastRecno pC)
   else if pseudoTable pC then push_int (keyToInt (iKey pC))
   else if nullRow pC then push_null
   else
     match pCursor pC with
     | None => push_null
     | Some (key, _) =>
         s ← of_option (block_bytes 4 (map Some key));
         push_int (keyToInt (int_of_bytes s))
     end);;
  mret (Go pc).

(** The virtual machine of [vdbe.c]: the instructions on memory cells, on sets, and on the
    sorter, and the loop of [sqliteVdbeExec]. *)

(** ** Memory cells and sets *)

(** Memory cells for the indices up to [i]. *)
Definition grow_cells (i : Z) : M Vm bool :=
  l ← vget aMem;
  if Z.of_nat (length l) <=? i then
    ok ← onheap malloc_ok;
    if ok : bool then
      vupd (set_aMem (l ++ replicate (Z.to_nat (i + 5) - length l) blank));; mret true
    else mret false
  else mret true.

Definition op_MemStore (o : Op) (pc : Z) : M Vm ctl :=
  let i := p1 o in
  k ← vget pTos;
  assert (0 <=? k);;
  ok ← grow_cells i;
  if negb ok then mret no_mem
  else
    nomem ← Deephemeralize k;
    if nomem : bool then mret no_mem
    else
      pMem ← cell i;
      Release pMem;;
      m ← stk k;
      cell_upd i (fun _ => m);;
      r ← (if has MEM_Dyn m then
             if negb (p2 o =? 0) then stk_upd k (set_mflags MEM_Null);; mret true
             else
               s ← z_read (mz m) (mn m);
               z ← new_string (mn m) s;
               match z with
               | None => mret false
               | Some z => cell_upd i (set_mz z);; mret true
               end
           else if has MEM_Short m then cell_upd i (set_mz (ZCell i 0));; mret true
           else mret true);
      if negb r then mret no_mem
      else
        (if p2 o =? 0 then mret tt
         else m ← stk k; Release m;; vupd (set_pTos (k - 1)));;
        mret (Go pc).

Definition op_MemLoad (o : Op) (pc : Z) : M Vm ctl :=
  pMem ← cell (p1 o);
  k ← grow;
  stk_upd k (fun m =>
    let m' := set_zShort (zShort m) pMem in
    if has MEM_Str pMem then
      set_mflags (Z.land (Z.lor (mflags m') MEM_Ephem) (Z.lnot (MEM_Dyn + MEM_Static + MEM_Short))) m'
    else m');;
  mret (Go pc).

Definition op_MemIncr (o : Op) (pc : Z) : M Vm ctl :=
  pMem ← cell (p1 o);
  assert (mflags pMem =? MEM_Int);;
  let v := wrap32 (mi pMem + 1) in
  cell_upd (p1 o) (set_mi v);;
  mret (Go (if (0 <? p2 o) && (0 <? v) then p2 o - 1 else pc)).

Definition op_SetInsert (o : Op) (pc : Z) : M Vm ctl :=
  let i := p1 o in
  l ← vget aSet;
  let insert (s : list Z) : M Vm unit :=
    vupd (fun x => set_aSet (alter (fun set : gset (list Z) => {[ s ]} ∪ set) (Z.to_nat i) (aSet x)) x) in
  vupd (set_aSet (l ++ replicate (Z.to_nat (i + 1) - length l) (∅ : gset (list Z))));;
  match p3_text o with
  | Some s => insert (s ++ [0]);; mret (Go pc)
  | None =>
      k ← vget pTos;
      assert (0 <=? k);;
      Stringify k;;
      m ← stk k;
      s ← z_read (mz m) (mn m);
      insert s;;
      Release m;;
      vupd (set_pTos (k - 1));;
      mret (Go pc)
  end.

(** [SetFound] and [SetNotFound] *)
Definition op_SetFound (op : opcode) (o : Op) (pc : Z) : M Vm ctl :=
  k ← vget pTos;
  assert (0 <=? k);;
  Stringify k;;
  m ← stk k;
  s ← z_read (mz m) (mn m);
  l ← vget aSet;
  let found := match at_ l (p1 o) with Some set => bool_decide (s ∈ set) | None => false end in
  Release m;;
  vupd (set_pTos (k - 1));;
  mret (Go (if (match op with OP_SetFound => found | _ => negb found end) then p2 o - 1 else pc)).

(** ** The sorter *)

Definition new_sorter (x : Sorter) : M Vm positive := fun s =>
  let p := fresh (dom (sorters s)) in Done p (set_sorters (<[p := x]> (sorters s)) s).

Definition get_sorter (p : positive) : M Vm Sorter := l ← vget sorters; of_option (l !! p).
Definition free_sorter (p : positive) : M Vm unit :=
  get_sorter p;; vupd (fun s => set_sorters (delete p (sorters s)) s).
Definition set_sNext (v : option positive) (x : Sorter) : Sorter :=
  mkSorter (nKey x) (zKey x) (nData x) (sData x) v.
Definition put_next (p : positive) (v : option positive) : M Vm unit :=
  x ← get_sorter p; vupd (fun s => set_sorters (<[p := set_sNext v x]> (sorters s)) s).

Definition op_SortPut (pc : Z) : M Vm ctl :=
  k ← vget pTos;
  assert (0 <=? k - 1);;
  nomem ← Dynamicify k;
  nomem ← (if nomem : bool then mret true else Dynamicify (k - 1));
  if nomem : bool then mret no_mem
  else
    ok ← onheap malloc_ok;
    if negb ok then mret no_mem
    else
      t ← stk k; n ← stk (k - 1);
      assert (has MEM_Dyn t && has MEM_Dyn n);;
      next ← vget pSort;
      p ← new_sorter (mkSorter (mn t) (mz t) (mn n) (mz n) next);
      vupd (set_pSort (Some p));;
      vupd (set_pTos (k - 2));;
      mret (Go pc).

Fixpoint sort_key_size (n : nat) (k nByte : Z) : M Vm Z :=
  match n with
  | O => mret nByte
  | S n' =>
      m ← stk k;
      if has MEM_Null m then sort_key_size n' (k + 1) (nByte + 2)
      else
        Stringify k;;
        m ← stk k;
        sort_key_size n' (k + 1) (nByte + (mn m + 2))
  end.

(** The elements of the key, [dirs] being the characters of P3. *)
Fixpoint sort_key_bytes (dirs : list Z) (k : Z) : M Vm (list Z) :=
  match dirs with
  | [] => mret []
  | c :: dirs' =>
      m ← stk k;
      s ← (if has MEM_Null m then mret [78; 0]
           else s ← z_read (mz m) (mn m - 1); mret (c :: s ++ [0]));
      l ← sort_key_bytes dirs' (k + 1);
      mret (s ++ l)
  end.

Definition op_SortMakeKey (o : Op) (pc : Z) : M Vm ctl :=
  dirs ← of_option (p3_text o);
  let nField := Z.of_nat (length dirs) in
  k ← vget pTos;
  let k0 := k + 1 - nField in
  nByte ← sort_key_size (length dirs) k0 1;
  s ← sort_key_bytes dirs k0;
  z ← new_string nByte (s ++ [0]);
  match z with
  | None => mret no_mem
  | Some z =>
      assert (Z.of_nat (length s) <? nByte);;
      popStack nField;;
      k ← grow;
      stk_upd k (fun m => set_mn nByte (set_mflags (MEM_Str + MEM_Dyn) (set_mz z m)));;
      mret (Go pc)
  end.

(** [pTail->pNext = p], [None] being the head on the stack of [Merge]; its [pNext] is the
    first result. *)
Definition link (tail : option positive) (head p : option positive) : M Vm (option positive) :=
  match tail with
  | None => mret p
  | Some t => put_next t p;; mret head
  end.

Definition compare_keys (x y : Sorter) : M Vm Z :=
  a ← z_read (zKey x) (nKey x);
  b ← z_read (zKey y) (nKey y);
  of_option (sqliteSortCompare a b).

(** The loop of [Merge]; the result is [sHead.pNext]. *)
Fixpoint merge_loop (fuel : nat) (tail head left right : option positive) : M Vm (option positive) :=
  match fuel with
  | O => mstuck
  | S fuel' =>
      match left, right with
      | Some l, Some r =>
          x ← get_sorter l;
          y ← get_sorter r;
          c ← compare_keys x y;
          if c <=? 0 then
            head ← link tail head left; merge_loop fuel' left head (sNext x) right
          else
            head ← link tail head right; merge_loop fuel' right head left (sNext y)
      | Some _, None => link tail head left
      | None, Some _ => link tail head right
      | None, None => mret head
      end
  end.

Definition Merge (left right : option positive) : M Vm (option positive) :=
  s ← mget;
  merge_loop (2 * size (sorters s) + 1) None None left right.

Definition NSORT : nat := 30.

(** The inner loop of [OP_Sort], from the bucket [i] on. *)
Fixpoint sort_carry (i : nat) (ap : list (option positive)) (pElem : option positive)
    : M Vm (list (option positive)) :=
  match ap with
  | [] => mstuck
  | [last] => p ← Merge last pElem; mret [p]
  | b :: ap' =>
      match b with
      | None => mret (pElem :: ap')
      | Some _ => p ← Merge b pElem; l ← sort_carry (S i) ap' p; mret (None :: l)
      end
  end.

Fixpoint sort_loop (fuel : nat) (ap : list (option positive)) : M Vm (list (option positive)) :=
  match fuel with
  | O => mstuck
  | S fuel' =>
      p ← vget pSort;
      match p with
      | None => mret ap
      | Some e =>
          x ← get_sorter e;
          vupd (set_pSort (sNext x));;
          put_next e None;;
          ap ← sort_carry 0 ap (Some e);
          sort_loop fuel' ap
      end
  end.

Fixpoint merge_all (ap : list (option positive)) (pElem : option positive) : M Vm (option positive) :=
  match ap with
  | [] => mret pElem
  | b :: ap' => p ← Merge b pElem; merge_all ap' p
  end.

Definition op_Sort (pc : Z) : M Vm ctl :=
  s ← mget;
  ap ← sort_loop (S (size (sorters s))) (replicate NSORT None);
  p ← merge_all ap None;
  vupd (set_pSort p);;
  mret (Go pc).

Definition op_SortNext (o : Op) (pc : Z) : M Vm ctl :=
  p ← vget pSort;
  int ← vget interrupted;
  if int : bool then mret abort_due_to_interrupt
  else
    match p with
    | Some e =>
        x ← get_sorter e;
        vupd (set_pSort (sNext x));;
        k ← grow;
        stk_upd k (fun m => set_mz (sData x) (set_mn (nData x) (set_mflags (MEM_Str + MEM_Dyn) m)));;
        z_free (zKey x);;
        free_sorter e;;
        mret (Go pc)
    | None => mret (Go (p2 o - 1))
    end.

Fixpoint sorter_reset_loop (fuel : nat) : M Vm unit :=
  match fuel with
  | O => mstuck
  | S fuel' =>
      p ← vget pSort;
      match p with
      | None => mret tt
      | Some e =>
          x ← get_sorter e;
          vupd (set_pSort (sNext x));;
          z_free (zKey x);;
          z_free (sData x);;
          free_sorter e;;
          sorter_reset_loop fuel'
      end
  end.

Definition sqliteVdbeSorterReset : M Vm unit :=
  s ← mget; sorter_reset_loop (S (size (sorters s))).

(** ** The program *)

Definition RETURN_STACK : nat := 100.

Definition jump (p : Z) : M Vm ctl :=
  int ← vget interrupted;
  if int : bool then mret abort_due_to_interrupt else mret (Go (p - 1)).

Definition op_Halt (o : Op) : M Vm ctl :=
  vupd (set_vmagic VDBE_MAGIC_HALT);;
  if p1 o =? SQLITE_OK then vupd (set_vrc SQLITE_OK);; mret (Return SQLITE_DONE)
  else
    vupd (fun s => set_vrc (p1 o) (set_errorAction (p2 o)
      (match p3_text o with Some t => set_zErrMsg (Some (Text t)) s | None => s end)));;
    mret (Return SQLITE_ERROR).

Definition return_stack_error (msg : list Z) : M Vm ctl :=
  vupd (fun s => set_vrc SQLITE_INTERNAL (set_zErrMsg (Some (Text msg)) s));;
  mret (Return SQLITE_ERROR).

Definition op_Gosub (o : Op) (pc : Z) : M Vm ctl :=
  l ← vget returnStack;
  if bool_decide (RETURN_STACK <= length l)%nat then return_stack_error (bytes_of_string "return address stack overflow")
  else vupd (set_returnStack (l ++ [pc + 1]));; mret (Go (p2 o - 1)).

Definition op_Return : M Vm ctl :=
  l ← vget returnStack;
  match last l with
  | None => return_stack_error (bytes_of_string "return address stack underflow")
  | Some a => vupd (set_returnStack (removelast l));; mret (Go (a - 1))
  end.

Definition op_Integer (o : Op) (pc : Z) : M Vm ctl :=
  k ← grow;
  stk_upd k (fun m => set_mi (p1 o) (set_mflags MEM_Int m));;
  (match p3_text o with
   | Some s => stk_upd k (fun m => set_mz (ZConst (s ++ [0])) (set_mn (strlen s + 1)
                 (set_mflags (MEM_Int + MEM_Str + MEM_Static) m)))
   | None => mret tt
   end);;
  mret (Go pc).

Definition push_static (s : list Z) (n : Z) : M Vm unit :=
  k ← grow;
  stk_upd k (fun m => set_mz (ZConst s) (set_mn n (set_mflags (MEM_Str + MEM_Static) m))).

Definition op_String (o : Op) (pc : Z) : M Vm ctl :=
  (match p3_text o with
   | None => push_null
   | Some s => push_static (s ++ [0]) (strlen s + 1)
   end);;
  mret (Go pc).

(** A variable is bound to [anVar] bytes. *)
Definition op_Variable (o : Op) (pc : Z) : M Vm ctl :=
  l ← vget azVar;
  (match at_ l (p1 o - 1) with
   | Some (Some s) => push_static s (Z.of_nat (length s))
   | _ => push_null
   end);;
  mret (Go pc).

Definition op_Pop (o : Op) (pc : Z) : M Vm ctl :=
  assert (0 <=? p1 o);;
  popStack (p1 o);;
  k ← vget pTos;
  assert (-1 <=? k);;
  mret (Go pc).

Definition op_StackReset (pc : Z) : M Vm ctl :=
  k ← vget pTos;
  assert (0 <=? k);;
  Integerify k;;
  m ← stk k;
  assert (mi m <? k + 1);;
  popStack (k + 1 - mi m);;
  mret (Go pc).

(** One [case] of the [switch].  The instructions on tables, indices, transactions,
    files and aggregates have no rule here. *)
Definition exec_op (nOp : Z) (o : Op) (pc : Z) : M Vm ctl :=
  match op_code o with
  | Some op =>
      match op with
      | OP_Goto => jump (p2 o)
      | OP_Gosub => op_Gosub o pc
      | OP_Return => op_Return
      | OP_Halt => op_Halt o
      | OP_Integer => op_Integer o pc
      | OP_String => op_String o pc
      | OP_Variable => op_Variable o pc
      | OP_Pop => op_Pop o pc
      | OP_Dup => op_Dup o pc
      | OP_Pull => op_Pull o pc
      | OP_Push => op_Push o pc
      | OP_ColumnName => op_ColumnName o pc nOp
      | OP_Callback => op_Callback o pc
      | OP_Concat => op_Concat o pc
      | OP_Add | OP_Subtract | OP_Multiply | OP_Divide | OP_Remainder => op_arith op pc
      | OP_Function => op_Function o pc
      | OP_BitAnd | OP_BitOr | OP_ShiftLeft | OP_ShiftRight => op_bits op pc
      | OP_AddImm => op_AddImm o pc
      | OP_ForceInt => op_ForceInt o pc
      | OP_MustBeInt => op_MustBeInt o pc
      | OP_Eq | OP_Ne | OP_Lt | OP_Le | OP_Gt | OP_Ge => op_compare op o pc
      | OP_StrEq | OP_StrNe | OP_StrLt | OP_StrLe | OP_StrGt | OP_StrGe => op_strcompare op o pc
      | OP_And | OP_Or => op_logic op pc
      | OP_Negative | OP_AbsValue => op_sign op pc
      | OP_Not => op_integer (fun v => if v =? 0 then 1 else 0) pc
      | OP_BitNot => op_integer Z.lnot pc
      | OP_Noop => mret (Go pc)
      | OP_If | OP_IfNot => op_If op o pc
      | OP_IsNull | OP_NotNull => op_null op o pc
      | OP_MakeRecord => op_MakeRecord o pc
      | OP_Column => op_Column o pc
      | OP_Recno => op_Recno o pc
      | OP_MemStore => op_MemStore o pc
      | OP_MemLoad => op_MemLoad o pc
      | OP_MemIncr => op_MemIncr o pc
      | OP_SetInsert => op_SetInsert o pc
      | OP_SetFound | OP_SetNotFound => op_SetFound op o pc
      | OP_SortPut => op_SortPut pc
      | OP_SortMakeKey => op_SortMakeKey o pc
      | OP_Sort => op_Sort pc
      | OP_SortNext => op_SortNext o pc
      | OP_SortReset => sqliteVdbeSorterReset;; mret (Go pc)
      | OP_StackDepth => k ← vget pTos; push_int (k + 1);; mret (Go pc)
      | OP_StackReset => op_StackReset pc
      | _ => mstuck
      end
  | None =>
      vupd (set_zErrMsg (Some (Text (bytes_of_string "unknown opcode 0"))));;
      mret (Fail SQLITE_INTERNAL)
  end.

(** The checks on the top of the stack behind every instruction. *)
Definition check_top : M Vm unit :=
  k ← vget pTos;
  if k <? 0 then mret tt
  else
    m ← stk k;
    assert (negb (mflags m =? 0));;
    (if has MEM_Str m then
       let x := Z.land (mflags m) (MEM_Static + MEM_Dyn + MEM_Ephem + MEM_Short) in
       assert (negb (x =? 0));;
       assert (Z.land x (x - 1) =? 0);;
       assert (match mz m with ZNull => false | _ => true end);;
       let own := match mz m with ZTos j 0 => j =? k | _ => false end in
       assert (Bool.eqb (has MEM_Short m) own)
     else
       assert (Z.land (mflags m) (MEM_Static + MEM_Dyn + MEM_Ephem + MEM_Short) =? 0));;
    assert ((mflags m =? MEM_Null) || negb (has MEM_Null m)).

(** One round of the loop of [sqliteVdbeExec]. *)
Definition vdbe_step (prog : list Op) (pc : Z) : M Vm ctl :=
  let nOp := Z.of_nat (length prog) in
  assert ((0 <=? pc) && (pc <? nOp));;
  k ← vget pTos;
  assert (k <=? pc);;
  o ← of_option (at_ prog pc);
  r ← exec_op nOp o pc;
  match r with
  | Go pc' =>
      check_top;;
      if (pc' <? -1) || (nOp <=? pc') then
        vupd (set_zErrMsg (Some (Text (bytes_of_string "jump destination out of range"))));;
        mret (Fail SQLITE_INTERNAL)
      else mret (Go (pc' + 1))
  | Fail rc => check_top;; mret r
  | _ => mret r
  end.

(** [vdbe_halt] *)
Definition vdbe_halt (rc : Z) : M Vm Z :=
  int ← vget interrupted;
  rc ← (if int : bool then
          vupd (fun s => set_zErrMsg (Some (ErrorString SQLITE_INTERRUPT)) (set_interrupted false s));;
          mret SQLITE_INTERRUPT
        else mret rc);
  r ← (if rc =? 0 then mret SQLITE_DONE else vupd (set_vrc rc);; mret SQLITE_ERROR);
  vupd (set_vmagic VDBE_MAGIC_HALT);;
  mret r.

Definition leave (c : ctl) : M Vm Z :=
  match c with
  | Go _ => mstuck
  | Fail rc => vdbe_halt rc
  | Return rc => mret rc
  | no_mem => vupd (set_zErrMsg (Some (Text (bytes_of_string "out of memory"))));; vdbe_halt SQLITE_NOMEM
  | abort_due_to_error rc =>
      s ← mget;
      let rc := if negb (CMem.sqlite_malloc_failed (vheap s) =? 0)
                   && (if zErrMsg s is None then true else false) then SQLITE_NOMEM else rc in
      (if zErrMsg s is None then vupd (set_zErrMsg (Some (ErrorString rc))) else mret tt);;
      vdbe_halt rc
  | abort_due_to_interrupt =>
      vupd (fun s => set_zErrMsg (Some (ErrorString SQLITE_INTERRUPT)) (set_interrupted false s));;
      vdbe_halt SQLITE_INTERRUPT
  end.

Fixpoint exec_loop (fuel : nat) (prog : list Op) (pc : Z) : M Vm Z :=
  match fuel with
  | O => mstuck
  | S fuel' =>
      c ← vdbe_step prog pc;
      match c with
      | Go pc' => exec_loop fuel' prog pc'
      | _ => leave c
      end
  end.

Definition sqliteVdbeExec (fuel : nat) (prog : list Op) : M Vm Z :=
  s ← mget;
  match vmagic s with
  | VDBE_MAGIC_RUN =>
      assert ((vrc s =? SQLITE_OK) || (vrc s =? SQLITE_BUSY));;
      vupd (set_vrc SQLITE_OK);;
      if negb (CMem.sqlite_malloc_failed (vheap s) =? 0) then leave no_mem
      else
        (if popCount s =? 0 then mret tt else popStack (popCount s);; vupd (set_popCount 0));;
        int ← vget interrupted;
        if int : bool then leave abort_due_to_interrupt else exec_loop fuel prog (vpc s)
  | _ => mret SQLITE_MISUSE
  end.

(** The machine as [sqliteVdbeMakeReady] leaves it, for a program of [nOp] instructions. *)
Definition ready (nOp : nat) (vars : list (option (list Z))) (csr : list Cursor) (h : mem) : Vm :=
  mkVm (replicate nOp blank) (-1) h [] vars [] csr [] 0 0 0 0 VDBE_MAGIC_RUN 2 None ∅ 0 0 [] None ∅ false.
