(* ===== verification/VdbeStack.v ===== *)
(** SQL values without memory, and the stack of the virtual machine as a list of them: who
    owns the blocks that the strings are in, which entries only point to the blocks of
    others, and the effect of the conversions and of pushing and popping. A value is
    NULL, or an integer, a real and a text of which at least one is there. *)
From S2P Require Import Prelude Util CMem CFloat Printf VdbeAux VdbeMem Vdbe.

(** * Values *)

(** [v_heavy]: an integer with a text may be in an entry that owns the text; the code
    expects this only where it compares values. *)
Record value := mkValue {
  v_int : option Z; v_real : option spec_float; v_text : option (list Z); v_heavy : bool
}.

Definition VNull : value := mkValue None None None false.
Definition VInt (v : Z) : value := mkValue (Some v) None None false.
Definition VReal (r : spec_float) : value := mkValue None (Some r) None false.
Definition VText (t : list Z) : value := mkValue None None (Some t) false.
Definition with_heavy (b : bool) (v : value) : value := mkValue (v_int v) (v_real v) (v_text v) b.

Definition some {A} (x : option A) : bool := match x with Some _ => true | None => false end.

Definition is_null (v : value) : bool := negb (some (v_int v) || some (v_real v) || some (v_text v)).

(** A text has no NUL. *)
Definition nulfree (t : list Z) : Prop := Forall (fun c => c <> 0) t.

(** ** Conversions.  [None]: the code has no defined result. *)

(** An integer is in the range of an [int]. *)
Definition in_int (i : Z) : bool := (-2147483648 <=? i) && (i <=? 2147483647).
Definition exactly (i : Z) : option Z := if in_int i then Some i else None.

(** The number at the start of a text, 0 when there is none: a sign and digits. *)
Fixpoint digit_prefix (t : list Z) : list Z :=
  match t with
  | c :: t' => if isdigit c then c :: digit_prefix t' else []
  | [] => []
  end.

Definition text_integer (t : list Z) : option Z :=
  let neg := chr t =? 45 in
  let ds := digit_prefix (if neg || (chr t =? 43) then tail t else t) in
  if dec_value ds <=? 2147483647 then Some (if neg then - dec_value ds else dec_value ds) else None.

Definition to_text (v : value) : option (list Z) :=
  match v_text v with
  | Some t => Some t
  | None =>
      match v_real v with
      | Some r => printed fmt_real (ADouble r)
      | None => match v_int v with Some i => printed fmt_int (AInt i) | None => Some [] end
      end
  end.

Definition to_integer (v : value) : option Z :=
  match v_int v with
  | Some i => Some i
  | None =>
      match v_real v with
      | Some r => to_int r
      | None => match v_text v with Some t => text_integer t | None => Some 0 end
      end
  end.

Definition to_real (v : value) : spec_float :=
  match v_real v with
  | Some r => r
  | None =>
      match v_text v with
      | Some t => fst (sqliteAtoF t)
      | None => match v_int v with Some i => dint i | None => S754_zero false end
      end
  end.

(** * Operators *)

(** Integers, when the results (of a remainder, the quotient) are [int]s. *)
Definition int_arith (op : opcode) (a b : Z) : option value :=
  match op with
  | OP_Add => VInt <$> exactly (a + b)
  | OP_Subtract => VInt <$> exactly (a - b)
  | OP_Multiply => VInt <$> exactly (a * b)
  | _ =>
      if b =? 0 then Some VNull
      else
        q ← exactly (Z.quot a b);
        Some (VInt match op with OP_Divide => q | _ => Z.rem a b end)
  end.

(** The integer that a real is. *)
Definition whole (r : spec_float) : option Z :=
  i ← to_int r; if SFeqb (dint i) r then Some i else None.

(** Reals; a remainder is defined for those that are integers. *)
Definition real_arith (op : opcode) (a b : spec_float) : option value :=
  match op with
  | OP_Add => Some (VReal (dadd a b))
  | OP_Subtract => Some (VReal (dsub a b))
  | OP_Multiply => Some (VReal (dmul a b))
  | OP_Divide => Some (if SFeqb b (S754_zero false) then VNull else VReal (ddiv a b))
  | _ =>
      i ← whole a; j ← whole b;
      if j =? 0 then Some VNull
      else if (i =? -2147483648) && (j =? -1) then None
      else Some (VReal (dint (Z.rem i j)))
  end.

(** NULL if an operand is. *)
Definition strict (l r : value) (f : option value) : option value :=
  if is_null l || is_null r then Some VNull else f.

Definition arith_value (op : opcode) (l r : value) : option value :=
  strict l r
    match v_int l, v_int r with
    | Some a, Some b => int_arith op a b
    | _, _ => real_arith op (to_real l) (to_real r)
    end.

(** The shift of [a] by [n] bits to the left has to be an [int]. *)
Definition bits_result (op : opcode) (a n : Z) : option Z :=
  match op with
  | OP_BitAnd => Some (Z.land a n)
  | OP_BitOr => Some (Z.lor a n)
  | OP_ShiftLeft => if (0 <=? n) && (n <? 32) && (0 <=? a) then exactly (Z.shiftl a n) else None
  | _ => if (0 <=? n) && (n <? 32) then Some (Z.shiftr a n) else None
  end.

(** The second operand of the opcode is the top of the stack. *)
Definition bits_value (op : opcode) (nos tos : value) : option value :=
  strict nos tos
    (t ← to_integer tos; n ← to_integer nos; v ← bits_result op t n; Some (VInt v)).

(** The left operand is converted before the right one is looked at. *)
Definition concat_value (l r : value) : option value :=
  if is_null l then Some VNull
  else
    a ← to_text l;
    if is_null r then Some VNull else b ← to_text r; Some (VText (a ++ b)).

(** A text with a number of at most nine digits, or one that an [int] holds. *)
Definition text_number (t : option (list Z)) : option Z :=
  t ← t; if fst (toInt t) then Some (snd (toInt t)) else None.

(** The code compares a real by its text with 15 digits: this has to be the real. *)
Definition faithful (v : value) : bool :=
  match v_text v, v_real v with
  | None, Some r =>
      match printed fmt_real (ADouble r) with
      | Some t => sqliteIsNumber t && SFeqb (fst (sqliteAtoF t)) r
      | None => false
      end
  | _, _ => true
  end.

(** The result of a comparison: negative, zero or positive.  The difference of two
    integers has to be an [int]. *)
Definition compare_values (l r : value) : option Z :=
  let by_text :=
    if faithful l && faithful r
    then a ← to_text l; b ← to_text r; Some (sqliteCompare (Some a) (Some b)) else None in
  match v_int l, v_int r with
  | Some a, Some b => exactly (a - b)
  | None, Some b =>
      match text_number (v_text l) with Some a => exactly (a - b) | None => by_text end
  | Some a, None =>
      match text_number (v_text r) with Some b => exactly (a - b) | None => by_text end
  | None, None => by_text
  end.

Definition compare_strings (l r : value) : option Z :=
  a ← to_text l; b ← to_text r; Some (strcmp a b).

(** * Truth *)

(** [None] is unknown. *)
Definition of_truth (b : option bool) : value :=
  match b with Some b => VInt (Z.b2z b) | None => VNull end.

(** The truth of a value: an integer or a real is false if it is zero, a text if it is
    empty.  It is defined where the code agrees, which takes the integer part of a real
    and the integer at the start of a text. *)
Definition truth (v : value) : option (option bool) :=
  match v_int v, v_real v, v_text v with
  | Some i, _, _ => Some (Some (negb (i =? 0)))
  | None, Some r, _ =>
      i ← to_int r;
      if SFeqb r (S754_zero false) then Some (Some false)
      else if i =? 0 then None else Some (Some true)
  | None, None, Some [] => Some (Some false)
  | None, None, Some t => i ← text_integer t; if i =? 0 then None else Some (Some true)
  | None, None, None => Some None
  end.

Definition k_not (a : option bool) : option bool := negb <$> a.

Definition k_and (a b : option bool) : option bool :=
  match a, b with
  | Some false, _ | _, Some false => Some false
  | Some true, Some true => Some true
  | _, _ => None
  end.

Definition k_or (a b : option bool) : option bool := k_not (k_and (k_not a) (k_not b)).

(** The comparison of two values as a truth value. *)
Definition compared (text : bool) (op : opcode) (l r : value) : option (option bool) :=
  if is_null l || is_null r then Some None
  else c ← (if text then compare_strings l r else compare_values l r); Some (Some (compare_op op c)).

Definition negate_value (v : value) : option value :=
  match v_real v, v_int v with
  | Some r, _ => Some (VReal (SFopp r))
  | None, Some i => VInt <$> exactly (- i)
  | None, None => if is_null v then Some VNull else Some (VReal (SFopp (to_real v)))
  end.

(** [Not] and [BitNot] *)
Definition integer_value (f : Z -> Z) (v : value) : option value :=
  if is_null v then Some VNull else i ← to_integer v; Some (VInt (f i)).

(** * Facts about values *)

Lemma exactly_wrap x i : exactly x = Some i -> i = wrap32 x /\ i = x.
Proof.
  unfold exactly, in_int. destruct (_ && _) eqn:E; [|done]. intros [= <-].
  rewrite wrap32_small; [done|]. unfold is_int32. lia.
Qed.

Lemma digit_prefix_digits t : Forall (fun c => isdigit c = true) (digit_prefix t).
Proof. induction t as [|d t IH]; cbn; [constructor|]. destruct (isdigit d) eqn:E; by constructor. Qed.

Lemma toInt_loop_prefix t : forall v i, 0 <= v -> fold_left (fun v c => v * 10 + (c - 48)) (digit_prefix t) v <= 2147483647 ->
  exists rest j, toInt_loop t v i = (rest, fold_left (fun v c => v * 10 + (c - 48)) (digit_prefix t) v, j).
Proof.
  induction t as [|c t IH]; intros v i Hv Hm; cbn [digit_prefix toInt_loop fold_left] in *; [by eexists _, _|].
  destruct (isdigit c) eqn:Hc; [|by eexists _, _]. cbn [fold_left] in *.
  pose proof (digit_prefix_digits t) as Hds.
  apply isdigit_spec in Hc.
  assert (Hle : v * 10 + (c - 48) <= 2147483647).
  { rewrite dec_value_app in Hm. pose proof (dec_value_bound _ Hds).
    assert (1 <= 10 ^ Z.of_nat (length (digit_prefix t))) by (change 1 with (10 ^ 0); apply Z.pow_le_mono_r; lia).
    nia. }
  rewrite wrap32_small by (unfold is_int32; lia).
  replace (v * 10 + c - 48) with (v * 10 + (c - 48)) by lia. apply IH; [lia|done].
Qed.

Lemma text_integer_toInt t i : text_integer t = Some i -> snd (toInt t) = i.
Proof.
  unfold text_integer, toInt. set (u := if _ || _ then tail t else t).
  destruct (Z.leb_spec (dec_value (digit_prefix u)) 2147483647) as [Hm|]; [|done]. intros [= <-].
  destruct (toInt_loop_prefix u 0 0 ltac:(lia) Hm) as (rest & j & ->). cbn [snd].
  fold (dec_value (digit_prefix u)). destruct (chr t =? 45); [|done]. apply wrap32_small.
  pose proof (dec_value_bound _ (digit_prefix_digits u)). unfold is_int32. lia.
Qed.

(** What the definitions above mean for the operations of the code. *)
Definition of_arith (a : arith) : option value :=
  match a with
  | ANum v => Some (VInt v)
  | AReal r => Some (VReal r)
  | ANull => Some VNull
  | AUndefined => None
  end.

Lemma int_arith_op op a b v : int_arith op a b = Some v -> of_arith (int_op op a b) = Some v.
Proof.
  intros H.
  assert (Hw : forall x (f : Z -> value), f <$> exactly x = Some v -> v = f (wrap32 x) /\ v = f x /\ in_int x = true).
  { intros x f Hx. unfold exactly in Hx. destruct (in_int x) eqn:E; [|done]. injection Hx as <-.
    rewrite wrap32_small by (unfold in_int in E; unfold is_int32; lia). done. }
  unfold int_op, int_arith in *. destruct op; try (by destruct (Hw _ _ H) as [-> _]);
    (destruct (Z.eqb_spec b 0); [by injection H|]); apply Hw in H as (_ & -> & Hi);
    (destruct (Z.eqb_spec a (-2147483648)) as [->|], (Z.eqb_spec b (-1)) as [->|]; cbn [andb]); done.
Qed.

Lemma real_arith_op op a b v : real_arith op a b = Some v -> of_arith (real_op op a b) = Some v.
Proof.
  unfold real_arith, real_op. destruct op; try done; try (by destruct (SFeqb b (S754_zero false)));
    (unfold whole; intros H; destruct (to_int a) as [i|]; [|done]; destruct (to_int b) as [j|]; cbn in H;
      [|by destruct (SFeqb (dint i) a)];
     destruct (SFeqb (dint i) a), (SFeqb (dint j) b); cbn in H; try done;
     destruct (j =? 0); [done|]; by destruct ((i =? -2147483648) && (j =? -1))).
Qed.

Lemma bits_result_op op a n c : bits_result op a n = Some c -> bit_op op a n = Some c.
Proof.
  unfold bits_result, bit_op. destruct op; try done. destruct ((0 <=? n) && (n <? 32)); [|done]. cbn [andb].
  destruct (0 <=? a); [|done]. by intros [-> _]%exactly_wrap.
Qed.

(** A truth value is that of the integer the code takes. *)
Lemma truth_integer v b : truth v = Some b ->
  if is_null v then b = None else exists i, to_integer v = Some i /\ b = Some (negb (i =? 0)).
Proof.
  destruct v as [[i|] [r|] [t|] hv]; cbn; try (by intros [= <-]); try (by intros [= <-]; exists i);
    try (destruct (to_int r) as [j|] eqn:E; [|done]; cbn; destruct (SFeqb r (S754_zero false)) eqn:Ez;
      [intros [= <-]; exists 0; split; [|done]; rewrite <-E; destruct r as [[]|[]| |[]]; done
      |destruct (Z.eqb_spec j 0); [done|]; intros [= <-]; exists j; split; [done|];
       by destruct (Z.eqb_spec j 0)]).
  destruct t as [|c t]; [intros [= <-]; by exists 0|].
  destruct (text_integer (c :: t)) as [j|]; [|done]. cbn. destruct (Z.eqb_spec j 0); [done|].
  intros [= <-]. exists j. split; [done|]. by destruct (Z.eqb_spec j 0).
Qed.

Lemma nulfree_nil : nulfree [].
Proof. constructor. Qed.

Lemma nulfree_app a b : nulfree (a ++ b) <-> nulfree a /\ nulfree b.
Proof. apply Forall_app. Qed.

Lemma block_str_nulfree b t : CMem.block_str b = Some t -> nulfree t.
Proof.
  revert t. induction b as [|[c|] b IH]; intros t; simpl; try done.
  destruct (Z.eqb_spec c 0) as [->|Hc]; [intros [= <-]; constructor|].
  destruct (CMem.block_str b) as [u|]; [|done]. intros [= <-]. constructor; [done|]. by apply IH.
Qed.

Lemma block_str_text t rest : nulfree t -> CMem.block_str (map Some (t ++ [0]) ++ rest) = Some t.
Proof.
  induction 1 as [|c t Hc Ht IH]; [done|]. simpl. destruct (Z.eqb_spec c 0); [done|].
  by rewrite IH.
Qed.

Lemma strlen_nulfree t : nulfree t -> strlen t = Z.of_nat (length t).
Proof.
  induction 1 as [|c t Hc Ht IH]; [done|]. simpl. destruct (Z.eqb_spec c 0); [done|].
  rewrite IH. lia.
Qed.

Lemma printed_nulfree f a t : printed f a = Some t -> nulfree t.
Proof.
  unfold printed. destruct (sqlite_snprintf _ _ _ _ _ _); [|done..].
  destruct (CMem.blocks s !! 1%positive) as [b|]; [|done]. apply block_str_nulfree.
Qed.

(** The texts of a value are C strings. *)
Definition value_ok (v : value) : Prop := match v_text v with Some t => nulfree t | None => True end.

Lemma to_text_nulfree v t : value_ok v -> to_text v = Some t -> nulfree t.
Proof.
  unfold value_ok, to_text. destruct (v_text v); [by intros H [= <-]|]. intros _.
  destruct (v_real v); [apply printed_nulfree|]. destruct (v_int v); [apply printed_nulfree|].
  intros [= <-]. constructor.
Qed.

(** The printed text fits the cell. *)
Lemma block_str_length b t : CMem.block_str b = Some t -> (length t < length b)%nat.
Proof.
  revert t. induction b as [|[c|] b IH]; intros t; simpl; try done.
  destruct (c =? 0); [intros [= <-]; simpl; lia|].
  destruct (CMem.block_str b) as [u|]; [|done]. intros [= <-]. simpl.
  specialize (IH u eq_refl). lia.
Qed.

Lemma printed_length f a t : printed f a = Some t -> (length t < 32)%nat.
Proof.
  unfold printed. destruct (sqlite_snprintf _ _ _ _ _ _) as [r h|h|]; [|done..].
  destruct (CMem.blocks h !! 1%positive) as [b|]; [|done]. intros H.
  apply block_str_length in H. rewrite length_take in H. lia.
Qed.

(** The stack of the virtual machine as a list of values: who owns the blocks that the
    strings are in, which entries only point to the blocks of others, and the effect
    of the conversions and of pushing and popping. *)

(** * What an entry holds *)

Abbreviation heap := (gmap positive (list (option Z))).

(** The string [t] with its terminator is where [z] points; [k] is the index of the
    entry and [own] its [zShort]. *)
Definition text_at (h : heap) (cells : list Mem) (k : Z) (own : list Z) (z : zptr) (t : list Z) : Prop :=
  match z with
  | ZNull => False
  | ZConst s => exists rest, s = t ++ 0 :: rest
  | ZHeap p off => 0 <= off /\ exists b rest, h !! p = Some b /\ drop (Z.to_nat off) b = map Some (t ++ [0]) ++ rest
  | ZTos j off => j = k /\ off = 0 /\ exists rest, own = t ++ 0 :: rest
  | ZCell j off => off = 0 /\ exists m rest, at_ cells j = Some m /\ zShort m = t ++ 0 :: rest
  end.

(** Who looks after the memory of a text: [O] are the blocks that the entries below and
    the memory cells own. *)
Inductive storage := Dyn | Static | Ephem | Short.

#[export] Instance storage_eq : EqDecision storage.
Proof. solve_decision. Defined.

Definition storage_flag (x : storage) : Z :=
  match x with Dyn => MEM_Dyn | Static => MEM_Static | Ephem => MEM_Ephem | Short => MEM_Short end.

Definition storage_ok (O : gset positive) (k : Z) (x : storage) (z : zptr) : Prop :=
  match x, z with
  | Dyn, ZHeap p off => off = 0 /\ p ∉ O
  | Static, ZConst _ => True
  | Ephem, ZHeap p _ => p ∈ O
  | Ephem, ZConst _ => True
  | Ephem, ZCell _ _ => True
  | Short, ZTos j off => j = k /\ off = 0
  | _, _ => False
  end.

Definition in_block (z : zptr) : Prop := match z with ZHeap _ _ => True | _ => False end.

(** No block of an entry below is needed by the entry of such a value. *)
Definition loose (v : value) : Prop := v_text v = None \/ (v_int v <> None /\ v_heavy v = false).

Definition type_flags (v : value) : Z :=
  (if v_int v then MEM_Int else 0) + (if v_real v then MEM_Real else 0) + (if v_text v then MEM_Str else 0).

Definition entry_ok (O : gset positive) (h : heap) (cells : list Mem) (k : Z) (m : Mem) (v : value) : Prop :=
  length (zShort m) = 32%nat /\
  (forall i, v_int v = Some i -> mi m = i) /\
  (forall r, v_real v = Some r -> mr m = r) /\
  match v_text v with
  | None => mflags m = if is_null v then MEM_Null else type_flags v
  | Some t =>
      nulfree t /\ mn m = Z.of_nat (length t) + 1 /\
      exists x, mflags m = type_flags v + storage_flag x /\ storage_ok O k x (mz m) /\
        (in_block (mz m) -> v_int v = None \/ v_heavy v = true) /\ text_at h cells k (zShort m) (mz m) t
  end.

Definition owned (m : Mem) : gset positive :=
  if has MEM_Dyn m then match mz m with ZHeap p _ => {[p]} | _ => ∅ end else ∅.

(** The entries, the top first, hold the values; [O] are the blocks they and the
    memory cells own. *)
Inductive stack_ok (F : gset positive) (h : heap) (cells : list Mem) :
    list Mem -> list value -> gset positive -> Prop :=
| stack_nil : stack_ok F h cells [] [] F
| stack_cons m ms v vs O :
    stack_ok F h cells ms vs O ->
    entry_ok O h cells (Z.of_nat (length ms)) m v ->
    stack_ok F h cells (m :: ms) (v :: vs) (owned m ∪ O).

(** ** Flags *)

Lemma type_flags_land v f : f ∈ [MEM_Null; MEM_Dyn; MEM_Static; MEM_Ephem; MEM_Short] ->
  Z.land (type_flags v) f = 0.
Proof.
  intros Hf. destruct v as [[i|] [r|] [t|] hv]; repeat (apply elem_of_cons in Hf as [->|Hf]; [reflexivity|]);
    by apply not_elem_of_nil in Hf.
Qed.

Lemma entry_flags O h cells k m v : entry_ok O h cells k m v ->
  has MEM_Null m = is_null v /\ has MEM_Int m = some (v_int v) /\ has MEM_Real m = some (v_real v) /\
  has MEM_Str m = some (v_text v) /\ (v_text v = None -> has MEM_Dyn m = false /\ has MEM_Ephem m = false /\
    has MEM_Short m = false /\ has MEM_Static m = false).
Proof.
  intros (_ & _ & _ & H). unfold has, is_null in *. destruct v as [i r [t|] hv]; cbn in *.
  - destruct H as (_ & _ & x & -> & _). destruct i, r, x; by vm_compute.
  - rewrite H. destruct i, r; by vm_compute.
Qed.

(** The storage of a text from the flags. *)
Lemma storage_flags O h cells k m v t : entry_ok O h cells k m v -> v_text v = Some t ->
  exists x, storage_ok O k x (mz m) /\ text_at h cells k (zShort m) (mz m) t /\
    (in_block (mz m) -> v_int v = None \/ v_heavy v = true) /\
    mflags m = type_flags v + storage_flag x /\
    has MEM_Dyn m = bool_decide (x = Dyn) /\ has MEM_Static m = bool_decide (x = Static) /\
    has MEM_Ephem m = bool_decide (x = Ephem) /\ has MEM_Short m = bool_decide (x = Short).
Proof.
  intros (_ & _ & _ & H) E. rewrite E in H. destruct H as (_ & _ & x & Ef & Hs & Hv & Ht).
  exists x. split; [done|]. split; [done|]. split; [done|]. split; [done|]. unfold has. rewrite Ef.
  destruct v as [[i|] [r|] [u|] hv]; cbn in E; try done; destruct x; by vm_compute.
Qed.

Lemma owned_text O h cells k m v : entry_ok O h cells k m v -> v_text v = None -> owned m = ∅.
Proof.
  intros H E. unfold owned. destruct (entry_flags _ _ _ _ _ _ H) as (_ & _ & _ & _ & Hd).
  by destruct (Hd E) as [-> _].
Qed.

(** What is owned is a block of the heap that nobody else owns. *)
Lemma owned_cases O h cells k m v : entry_ok O h cells k m v ->
  (owned m = ∅ /\ has MEM_Dyn m = false) \/
  (exists p b t rest, owned m = {[p]} /\ mz m = ZHeap p 0 /\ p ∉ O /\ h !! p = Some b /\ has MEM_Dyn m = true /\
     v_text v = Some t /\ b = map Some (t ++ [0]) ++ rest).
Proof.
  intros H. destruct (v_text v) as [t|] eqn:E.
  - destruct (storage_flags _ _ _ _ _ _ _ H E) as (x & Hs & Ht & _ & _ & Hd & _). unfold owned. rewrite Hd.
    destruct (decide (x = Dyn)) as [->|Hx].
    + right. destruct (mz m) as [|s|p off|j off|j off]; try done. destruct Hs as [-> Hp].
      destruct Ht as (_ & b & rest & Hb & Hr). rewrite drop_0 in Hr. subst b. by repeat econstructor.
    + left. by rewrite bool_decide_eq_false_2 by done.
  - left. split; [by eapply owned_text|]. by destruct (entry_flags _ _ _ _ _ _ H) as (_ & _ & _ & _ & [-> _]).
Qed.

(** * Changes elsewhere *)

Lemma text_at_heap h h' O cells k x own z t :
  storage_ok O k x z -> text_at h cells k own z t ->
  (forall q, q ∈ O -> h' !! q = h !! q) -> (forall q, x = Dyn -> z = ZHeap q 0 -> h' !! q = h !! q) ->
  text_at h' cells k own z t.
Proof.
  intros Hs Ht HO Hown. destruct z as [|s|p off|j off|j off]; try done.
  destruct Ht as (Hoff & b & rest & Hb & Hd). split; [done|]. exists b, rest. split; [|done].
  destruct x; try done; cbn in Hs.
  - destruct Hs as [-> _]. by rewrite Hown.
  - by rewrite HO.
Qed.

Lemma entry_heap O h h' cells k m v :
  entry_ok O h cells k m v -> (forall q, q ∈ owned m ∪ O -> h' !! q = h !! q) -> entry_ok O h' cells k m v.
Proof.
  intros H Hh. pose proof H as (Hl & Hi & Hr & Ht). split_and!; try done.
  destruct (v_text v) as [t|] eqn:E; [|done]. destruct Ht as (Hn & Hlen & x & Hf & Hs & Hv & Ht).
  split; [done|]. split; [done|]. exists x. split; [done|]. split; [done|]. split; [done|].
  eapply text_at_heap; [done|done| |].
  - intros q Hq. apply Hh. set_solver.
  - intros q -> Hz. apply Hh. destruct (owned_cases _ _ _ _ _ _ H) as [[_ Hd]|(p & b & t' & rest & Eo & Ez & _)].
    + unfold has in Hd. rewrite Hf in Hd. destruct v as [[i|] [r|] [u|] hv]; cbn in E; try done; by vm_compute in Hd.
    + rewrite Ez in Hz. injection Hz as ->. rewrite Eo. set_solver.
Qed.

Lemma stack_length F h cells ms vs O : stack_ok F h cells ms vs O -> length ms = length vs.
Proof. induction 1; simpl; congruence. Qed.

Lemma stack_frame F h cells ms vs O : stack_ok F h cells ms vs O -> F ⊆ O.
Proof. induction 1; set_solver. Qed.

Lemma stack_heap F h h' cells ms vs O :
  stack_ok F h cells ms vs O -> (forall q, q ∈ O -> h' !! q = h !! q) -> stack_ok F h' cells ms vs O.
Proof.
  induction 1 as [|m ms v vs O Hs IH He]; intros Hh; [constructor|].
  constructor; [apply IH; set_solver|]. by eapply entry_heap.
Qed.

(** An entry in the middle that changes without a change of the blocks. *)
Lemma stack_replace F h cells us m m' ms ws v v' vs O :
  length us = length ws ->
  stack_ok F h cells (us ++ m :: ms) (ws ++ v :: vs) O ->
  (forall O', entry_ok O' h cells (Z.of_nat (length ms)) m v -> entry_ok O' h cells (Z.of_nat (length ms)) m' v') ->
  owned m' = owned m ->
  stack_ok F h cells (us ++ m' :: ms) (ws ++ v' :: vs) O.
Proof.
  intros Hl H Hm Ho. revert ws O Hl H. induction us as [|u us IH]; intros [|w ws] O Hl H; try done; simpl in *.
  - inversion H; subst. rewrite <-Ho. constructor; [done|]. by apply Hm.
  - inversion H; subst. constructor; [apply IH; [lia|done]|].
    rewrite length_app in *. simpl in *. done.
Qed.

(** The entry of a loose value does not depend on the heap. *)
Lemma loose_entry O O' h h' cells k m v :
  entry_ok O h cells k m v -> loose v -> owned m = ∅ /\ entry_ok O' h' cells k m v.
Proof.
  intros He Hl. destruct (v_text v) as [t|] eqn:Et.
  - destruct (storage_flags _ _ _ _ _ _ _ He Et) as (x & Hs & Ht & Hb & _ & Hd & _).
    destruct Hl as [Hl|[Hi Hh]]; [congruence|].
    assert (Hz : ~ in_block (mz m)) by (intros Hz; destruct (Hb Hz); congruence).
    pose proof He as (E1 & E2 & E3 & E4). split.
    + unfold owned. destruct (has MEM_Dyn m); [|done]. by destruct (mz m); try done; destruct Hz.
    + split_and!; try done. rewrite Et in E4 |- *. destruct E4 as (A1 & A2 & y & A3 & A4 & A5 & A6).
      split; [done|]. split; [done|]. exists y.
      destruct (mz m); [done|done|by destruct Hz|done|done].
  - split; [by eapply owned_text|]. destruct He as (E1 & E2 & E3 & E4). rewrite Et in E4. split_and!; try done.
    by rewrite Et.
Qed.

(** An entry in the middle that loses its text, and the block with it, while the
    entries above it do not need it. *)
Lemma stack_release F h h' cells us m m' ms ws v v' vs O :
  length us = length ws -> Forall loose ws ->
  stack_ok F h cells (us ++ m :: ms) (ws ++ v :: vs) O ->
  v_text v' = None ->
  (forall O' h, entry_ok O' h cells (Z.of_nat (length ms)) m' v') ->
  (forall q, q ∉ owned m -> h' !! q = h !! q) ->
  stack_ok F h' cells (us ++ m' :: ms) (ws ++ v' :: vs) (O ∖ owned m).
Proof.
  intros Hl Hw H Hv' Hm' Hh. revert ws O Hl Hw H.
  induction us as [|u us IH]; intros [|w ws] O Hl Hw H; try done; simpl in *.
  - inversion H as [|? ? ? ? O1 Hs He]; subst.
    assert (Hdis : owned m ## O1).
    { destruct (owned_cases _ _ _ _ _ _ He) as [[-> _]|(p & b & t & rest & -> & _ & Hp & _)]; set_solver. }
    replace ((owned m ∪ O1) ∖ owned m) with (owned m' ∪ O1).
    + constructor; [|apply Hm']. eapply stack_heap; [done|]. intros q Hq. apply Hh. set_solver.
    + rewrite (owned_text ∅ ∅ cells _ m' v' (Hm' _ _) Hv'). set_solver.
  - inversion H as [|? ? ? ? O1 Hs He]; subst. apply Forall_cons_1 in Hw as [Hw0 Hw].
    destruct (loose_entry _ (O1 ∖ owned m) _ h' _ _ _ _ He Hw0) as [Eu He'].
    replace ((owned u ∪ O1) ∖ owned m) with (owned u ∪ (O1 ∖ owned m)) by (rewrite Eu; set_solver).
    constructor; [apply IH; [lia|done|done]|]. by rewrite length_app in *.
Qed.

(** * The rules *)

Section Rules.

(** The machine but for the stack and the heap, and the blocks of its memory cells. *)
Context (E : Vm) (B : heap).

Definition st (l : list Mem) (k : Z) (h : mem) : Vm := set_vheap h (set_pTos k (set_aStack l E)).

(** The heap: the blocks [O] of the stack and of the memory cells, and the blocks [X]
    that an instruction has in its hands. *)
Definition heap_ok (X : heap) (h : mem) (O : gset positive) : Prop :=
  B ⊆ blocks h /\ X ⊆ blocks h /\ dom X ## O /\ dom (blocks h) = dom X ∪ O /\ mallocs h = [].

(** The machine with these values on its stack. *)
Definition rep (X : heap) (s : Vm) (vs : list value) : Prop :=
  exists ms rest h O,
    s = st (rev ms ++ rest) (Z.of_nat (length vs) - 1) h /\
    length (rev ms ++ rest) = length (aStack E) /\
    stack_ok (dom B) (blocks h) (aMem E) ms vs O /\ heap_ok X h O /\
    Forall (fun m => length (zShort m) = 32%nat) rest.

Lemma wp_vget {A} (f : Vm -> A) (Q : A -> Vm -> Prop) C s : Q (f s) s -> wp (vget f) Q C s.
Proof. done. Qed.

Lemma wp_vupd f (Q : unit -> Vm -> Prop) C s : Q tt (f s) -> wp (vupd f) Q C s.
Proof. done. Qed.

Lemma wp_of_option {A} (x : option A) a (Q : A -> Vm -> Prop) C s :
  x = Some a -> Q a s -> wp (of_option x) Q C s.
Proof. by intros ->. Qed.

Lemma wp_onheap {A} (m : M mem A) (Q : A -> Vm -> Prop) C s :
  wp m (fun a h => Q a (set_vheap h s)) (fun h => C (set_vheap h s)) (vheap s) -> wp (onheap m) Q C s.
Proof. unfold wp, onheap. by destruct (m (vheap s)). Qed.

Lemma at_middle {A} (l : list A) x r k : k = Z.of_nat (length l) -> at_ (l ++ x :: r) k = Some x.
Proof.
  intros ->. unfold at_. destruct (Z.leb_spec 0 (Z.of_nat (length l))); [|lia].
  rewrite Nat2Z.id. by apply list_lookup_middle.
Qed.

Lemma wp_stk j l m r k h (Q : Mem -> Vm -> Prop) C :
  j = Z.of_nat (length l) -> Q m (st (l ++ m :: r) k h) -> wp (stk j) Q C (st (l ++ m :: r) k h).
Proof.
  intros Hj H. unfold stk. apply wp_bind, wp_vget. cbn [aStack st set_vheap set_pTos set_aStack].
  rewrite (at_middle l m r j Hj). exact H.
Qed.

Lemma wp_stk_upd j f l m r k h (Q : unit -> Vm -> Prop) C :
  j = Z.of_nat (length l) -> Q tt (st (l ++ f m :: r) k h) -> wp (stk_upd j f) Q C (st (l ++ m :: r) k h).
Proof.
  intros Hj H. unfold stk_upd. apply wp_bind, (wp_stk j l m r); [done|]. apply wp_vupd.
  cbn. rewrite Hj, Nat2Z.id.
  replace (<[length l:=f m]> (l ++ m :: r)) with (l ++ f m :: r); [exact H|].
  replace (length l) with (length l + 0)%nat by lia. by rewrite insert_app_r.
Qed.

(** The string of an entry. *)
Lemma wp_z_bytes j l m r k h O v t (Q : list (option Z) -> Vm -> Prop) C :
  j = Z.of_nat (length l) -> entry_ok O (blocks h) (aMem E) j m v -> v_text v = Some t ->
  (forall rest, Q (map Some (t ++ [0]) ++ rest) (st (l ++ m :: r) k h)) ->
  wp (z_bytes (mz m)) Q C (st (l ++ m :: r) k h).
Proof.
  intros Hj He Et H. destruct (storage_flags _ _ _ _ _ _ _ He Et) as (x & _ & Ht & _).
  assert (Hmap : forall s rest, s = t ++ 0 :: rest -> map Some s = map Some (t ++ [0]) ++ map Some rest).
  { intros s rest ->. rewrite !map_app. cbn. by rewrite <-app_assoc. }
  unfold z_bytes. destruct (mz m) as [|s|p off|i off|i off]; [done|..].
  - destruct Ht as [rest Er]. rewrite (Hmap _ _ Er). apply wp_ret, H.
  - destruct Ht as (Hoff & b & rest & Hb & Hd). apply wp_bind, wp_onheap.
    eapply wp_get_block; [exact Hb|]. apply wp_bind, wp_assert; [lia|]. rewrite Hd. apply wp_ret, H.
  - destruct Ht as (-> & -> & rest & Er). apply wp_bind, (wp_stk _ l m r); [done|].
    apply wp_bind, wp_assert; [done|]. rewrite drop_0, (Hmap _ _ Er). apply wp_ret, H.
  - destruct Ht as (-> & m' & rest & Hm' & Er). apply wp_bind. unfold cell. apply wp_bind, wp_vget.
    cbn [aMem st set_vheap set_pTos set_aStack]. apply (wp_of_option _ m'); [exact Hm'|].
    apply wp_bind, wp_assert; [done|]. rewrite drop_0, (Hmap _ _ Er). apply wp_ret, H.
Qed.

Lemma wp_z_str j l m r k h O v t (Q : list Z -> Vm -> Prop) C :
  j = Z.of_nat (length l) -> entry_ok O (blocks h) (aMem E) j m v -> v_text v = Some t ->
  Q t (st (l ++ m :: r) k h) -> wp (z_str (mz m)) Q C (st (l ++ m :: r) k h).
Proof.
  intros Hj He Et H. unfold z_str. apply wp_bind. eapply wp_z_bytes; [done..|]. intros rest.
  apply (wp_of_option _ t); [|exact H]. apply block_str_text.
  pose proof He as (_ & _ & _ & Ht). rewrite Et in Ht. by destruct Ht.
Qed.

(** [n] bytes of it, the terminator included or not. *)
Lemma wp_z_read j l m r k h O v t n (Q : list Z -> Vm -> Prop) C :
  j = Z.of_nat (length l) -> entry_ok O (blocks h) (aMem E) j m v -> v_text v = Some t ->
  0 <= n <= Z.of_nat (length t) + 1 ->
  Q (take (Z.to_nat n) (t ++ [0])) (st (l ++ m :: r) k h) -> wp (z_read (mz m) n) Q C (st (l ++ m :: r) k h).
Proof.
  intros Hj He Et Hn H. unfold z_read. apply wp_bind. eapply wp_z_bytes; [done..|]. intros rest.
  eapply wp_of_option; [|exact H]. apply block_bytes_take. rewrite length_app. simpl. lia.
Qed.

(** ** Conversions in place *)

(** An entry that changes without a change of the blocks. *)
Definition becomes (h : mem) (j : Z) (m : Mem) (v : value) (m' : Mem) (v' : value) : Prop :=
  (forall O, entry_ok O (blocks h) (aMem E) j m v -> entry_ok O (blocks h) (aMem E) j m' v') /\ owned m' = owned m.

Lemma becomes_refl h j m v : becomes h j m v m v.
Proof. done. Qed.

(** A value as a text. *)
Definition text_value (v : value) (t : list Z) : value :=
  match v_text v with Some _ => v | None => VText t end.

Lemma wp_Stringify j l m r k h O v t (Q : unit -> Vm -> Prop) C :
  j = Z.of_nat (length l) -> entry_ok O (blocks h) (aMem E) j m v -> is_null v = false ->
  to_text v = Some t ->
  (forall m', becomes h j m v m' (text_value v t) -> Q tt (st (l ++ m' :: r) k h)) ->
  wp (Stringify j) Q C (st (l ++ m :: r) k h).
Proof.
  intros Hj He Hn Ht H. unfold Stringify. apply wp_bind, (wp_stk _ l m r); [done|].
  destruct (entry_flags _ _ _ _ _ _ He) as (_ & Hi & Hr & Hs & Hd). rewrite Hs.
  unfold text_value in H. destruct (v_text v) as [u|] eqn:Eu; cbn [some].
  - apply wp_ret, H, becomes_refl.
  - unfold hardStringify. apply wp_bind, (wp_stk _ l m r); [done|]. apply wp_bind.
    assert (Htl : nulfree t /\ (length t < 32)%nat).
    { unfold to_text in Ht. rewrite Eu in Ht. destruct (v_real v); [split; by eauto using printed_nulfree, printed_length|].
      destruct (v_int v); [split; by eauto using printed_nulfree, printed_length|].
      injection Ht as <-. split; [constructor|simpl; lia]. }
    destruct Htl as [Hnf Hlen]. destruct He as (Hl & Hmi & Hmr & _).
    apply (wp_of_option _ t).
    { unfold to_text in Ht. rewrite Eu in Ht. rewrite Hr, Hi.
      destruct (v_real v) as [x|]; cbn [some]; [by rewrite (Hmr x)|].
      destruct (v_int v) as [x|]; cbn [some]; [by rewrite (Hmi x)|done]. }
    apply (wp_stk_upd _ _ l m r); [done|]. apply H. split.
    + intros O' _. split; [|split; [done|split; [done|]]]; cbn.
      * unfold short_text. rewrite length_app. cbn. rewrite length_drop. lia.
      * split; [done|]. rewrite strlen_nulfree by done. split; [lia|]. exists Short.
        split; [done|]. split; [done|]. split; [done|]. split; [done|]. split; [done|]. by eexists.
    + unfold owned. destruct (Hd eq_refl) as [-> _]. done.
Qed.

(** A value with its real representation. *)
Definition real_value (v : value) : value := mkValue (v_int v) (Some (to_real v)) (v_text v) (v_heavy v).

Lemma wp_Realify j l m r k h O v (Q : unit -> Vm -> Prop) C :
  j = Z.of_nat (length l) -> entry_ok O (blocks h) (aMem E) j m v -> is_null v = false ->
  (forall m', becomes h j m v m' (real_value v) -> mr m' = to_real v -> Q tt (st (l ++ m' :: r) k h)) ->
  wp (Realify j) Q C (st (l ++ m :: r) k h).
Proof.
  intros Hj He Hn H. unfold Realify. apply wp_bind, (wp_stk _ l m r); [done|].
  destruct (entry_flags _ _ _ _ _ _ He) as (_ & Hi & Hr & Hs & _). rewrite Hr.
  destruct (v_real v) as [x|] eqn:Ex; cbn [some].
  { apply wp_ret, H.
    - unfold real_value, to_real. rewrite Ex, <-Ex. destruct v; apply becomes_refl.
    - unfold to_real. rewrite Ex. destruct He as (_ & _ & Hmr & _). by apply Hmr. }
  assert (Hend : forall m', m' = set_mr (to_real v) m ->
    wp (stk_upd j (fun m => set_mflags (Z.lor (mflags m) MEM_Real) m)) Q C (st (l ++ m' :: r) k h)).
  { intros m' ->. apply (wp_stk_upd _ _ l _ r); [done|]. apply H; [|done]. split.
    - intros O' (E1 & E2 & E3 & E4). split; [done|]. split; [done|]. split; [by intros ? [= <-]|].
      cbn [real_value v_text v_int v_heavy mflags mz mn zShort set_mflags set_mr].
      destruct (v_text v) as [u|] eqn:Eu.
      + destruct E4 as (A1 & A2 & y & D & G). split; [done|]. split; [done|]. exists y. split; [|done].
        rewrite D. destruct v as [[i|] [q|] [w|] hv]; cbn in Ex, Eu; try done; destruct y; by vm_compute.
      + rewrite E4. destruct v as [[i|] [q|] [w|] hv]; cbn in Ex, Eu, Hn; try done; by vm_compute.
    - unfold owned. cbn [mz set_mflags set_mr]. destruct He as (_ & _ & _ & He).
      replace (has MEM_Dyn (set_mflags _ _)) with (has MEM_Dyn m); [done|].
      unfold has. cbn [mflags set_mflags set_mr]. rewrite Z.land_lor_distr_l.
      change (Z.land MEM_Real MEM_Dyn) with 0. by rewrite Z.lor_0_r. }
  unfold hardRealify. apply wp_bind, (wp_stk _ l m r); [done|]. rewrite Hs, Hi. unfold to_real in Hend.
  rewrite Ex in Hend. apply wp_bind. destruct (v_text v) as [t|] eqn:Et; cbn [some].
  - apply wp_bind. eapply wp_z_str; [done|exact He|exact Et|]. apply (wp_stk_upd _ _ l m r); [done|]. by apply Hend.
  - destruct He as (_ & Hmi & _). destruct (v_int v) as [i|]; cbn [some].
    + apply (wp_stk_upd _ _ l m r); [done|]. rewrite (Hmi i) by done. by apply Hend.
    + apply (wp_stk_upd _ _ l m r); [done|]. by apply Hend.
Qed.

(** The blocks [X] have been freed. *)
Definition freed (X : gset positive) (h h' : mem) : Prop :=
  (forall q, q ∉ X -> blocks h' !! q = blocks h !! q) /\ dom (blocks h') = dom (blocks h) ∖ X /\
  mallocs h' = mallocs h.

Lemma wp_Release O j m v l k h (Q : unit -> Vm -> Prop) C :
  entry_ok O (blocks h) (aMem E) j m v ->
  (forall h', freed (owned m) h h' -> Q tt (st l k h')) -> wp (Release m) Q C (st l k h).
Proof.
  intros He H. unfold Release.
  destruct (owned_cases _ _ _ _ _ _ He) as [[Eo ->]|(p & b & t & rest & Eo & Ez & _ & Hb & -> & _)].
  - apply wp_ret, (H h). rewrite Eo. split; [done|]. split; [set_solver|done].
  - rewrite Ez. cbn [z_free]. apply wp_bind, wp_assert; [done|]. apply wp_onheap.
    eapply mem_wp_free; [exact Hb|]. apply (H (set_blocks (delete p (blocks h)) h)). rewrite Eo.
    split; [|split; [|done]]; cbn.
    + intros q Hq. apply lookup_delete_ne. set_solver.
    + apply dom_delete_L.
Qed.

Lemma freed_included X h h' (D : heap) : D ⊆ blocks h -> dom D ## X -> freed X h h' -> D ⊆ blocks h'.
Proof.
  intros HD Hdis (F1 & _). apply map_subseteq_spec. intros q b Hq. rewrite F1.
  - by apply (lookup_weaken D).
  - apply elem_of_dom_2 in Hq. set_solver.
Qed.

Lemma heap_freed X h h' O Y : heap_ok X h O -> Y ⊆ O -> Y ## dom B -> freed Y h h' -> heap_ok X h' (O ∖ Y).
Proof.
  intros (H1 & H2 & H3 & H4 & H5) HY HB Hf. pose proof Hf as (_ & F2 & F3). split_and!.
  - eapply freed_included; [done| |done]. set_solver.
  - eapply freed_included; [done| |done]. set_solver.
  - set_solver.
  - rewrite F2, H4. set_solver.
  - by rewrite F3.
Qed.

(** An entry without text: it is right whatever the heap is. *)
Definition plain_entry (j : Z) (m : Mem) (v : value) : Prop :=
  forall O h, entry_ok O h (aMem E) j m v.

Lemma plain_int j m i : length (zShort m) = 32%nat -> plain_entry j (set_mi i (set_mflags MEM_Int m)) (VInt i).
Proof. intros Hl O h. split; [done|]. split; [by intros ? [= <-]|]. done. Qed.

Lemma plain_real j m r : length (zShort m) = 32%nat -> plain_entry j (set_mr r (set_mflags MEM_Real m)) (VReal r).
Proof. intros Hl O h. split; [done|]. split; [done|]. split; [by intros ? [= <-]|]. done. Qed.

Lemma plain_null j m : length (zShort m) = 32%nat -> plain_entry j (set_mflags MEM_Null m) VNull.
Proof. intros Hl O h. split; [done|]. split; [done|]. done. Qed.

(** A value as an integer. *)
Definition int_value (v : value) (i : Z) : value :=
  match v_int v with Some _ => v | None => VInt i end.

Lemma wp_Integerify j l m r k h O v i (Q : unit -> Vm -> Prop) C :
  j = Z.of_nat (length l) -> entry_ok O (blocks h) (aMem E) j m v -> is_null v = false ->
  to_integer v = Some i ->
  (v_int v = Some i -> Q tt (st (l ++ m :: r) k h)) ->
  (forall m' h', v_int v = None -> plain_entry j m' (VInt i) -> freed (owned m) h h' -> Q tt (st (l ++ m' :: r) k h')) ->
  wp (Integerify j) Q C (st (l ++ m :: r) k h).
Proof.
  intros Hj He Hn Hi H1 H2. unfold Integerify. apply wp_bind, (wp_stk _ l m r); [done|].
  destruct (entry_flags _ _ _ _ _ _ He) as (_ & Hfi & Hfr & Hfs & _). rewrite Hfi. unfold to_integer in Hi.
  destruct (v_int v) as [a|] eqn:Ei; cbn [some].
  { injection Hi as ->. by apply wp_ret, H1. }
  pose proof He as (Hl & _ & Hmr & _).
  assert (Hend : forall l' h', freed (owned m) h h' -> l' = l ++ set_mi i m :: r ->
    wp (stk_upd j (set_mflags MEM_Int)) Q C (st l' k h')).
  { intros l' h' Hf ->. apply (wp_stk_upd _ _ l _ r); [done|]. apply H2; [done| |done]. by apply plain_int. }
  assert (Hrel : forall l', l' = l ++ set_mi i m :: r ->
    wp (Release m) (fun _ => wp (stk_upd j (set_mflags MEM_Int)) Q C) C (st l' k h)).
  { intros l' ->. eapply wp_Release; [exact He|]. intros h' Hf. by eapply Hend. }
  unfold hardIntegerify. apply wp_bind, (wp_stk _ l m r); [done|]. rewrite Hfr, Hfs. apply wp_bind.
  destruct (v_real v) as [x|] eqn:Ex; cbn [some].
  - apply wp_bind. rewrite (Hmr x) by done. apply (wp_of_option _ i); [done|].
    apply wp_bind, (wp_stk_upd _ _ l m r); [done|]. by apply Hrel.
  - destruct (v_text v) as [t|] eqn:Et; cbn [some].
    + apply wp_bind. eapply wp_z_str; [done|exact He|exact Et|].
      rewrite (text_integer_toInt _ _ Hi).
      apply wp_bind, (wp_stk_upd _ _ l m r); [done|]. by apply Hrel.
    + unfold is_null in Hn. by rewrite Ei, Ex, Et in Hn.
Qed.

(** ** An entry in the stack *)

Lemma rev_middle {A} (us : list A) m ms rest :
  rev (us ++ m :: ms) ++ rest = rev ms ++ m :: (rev us ++ rest).
Proof. rewrite rev_app_distr. simpl. by rewrite <-!app_assoc. Qed.

Lemma rep_focus X s ws v vs : rep X s (ws ++ v :: vs) ->
  exists l m r k h O,
    s = st (l ++ m :: r) k h /\ length l = length vs /\ k = Z.of_nat (length (ws ++ v :: vs)) - 1 /\
    entry_ok O (blocks h) (aMem E) (Z.of_nat (length vs)) m v /\
    (forall m' v', becomes h (Z.of_nat (length vs)) m v m' v' ->
       rep X (st (l ++ m' :: r) k h) (ws ++ v' :: vs)) /\
    (forall m' v' h', Forall loose ws -> v_text v' = None ->
       plain_entry (Z.of_nat (length vs)) m' v' -> freed (owned m) h h' ->
       rep X (st (l ++ m' :: r) k h') (ws ++ v' :: vs)).
Proof.
  intros (ms & rest & h & O & -> & Hlen & Hs & Hh & Hr).
  pose proof (stack_length _ _ _ _ _ _ Hs) as Hl. rewrite length_app in Hl. cbn in Hl.
  assert (Hms : exists us m ms', ms = us ++ m :: ms' /\ length us = length ws /\ length ms' = length vs).
  { exists (take (length ws) ms). destruct (drop (length ws) ms) as [|m ms'] eqn:Ed.
    { apply (f_equal length) in Ed. rewrite length_drop in Ed. simpl in Ed. lia. }
    exists m, ms'. rewrite <-Ed, take_drop, length_take. split; [done|]. split; [lia|].
    apply (f_equal length) in Ed. rewrite length_drop in Ed. simpl in Ed. lia. }
  destruct Hms as (us & m & ms' & -> & Hus & Hms').
  exists (rev ms'), m, (rev us ++ rest), (Z.of_nat (length (ws ++ v :: vs)) - 1), h.
  assert (He : exists O', entry_ok O' (blocks h) (aMem E) (Z.of_nat (length vs)) m v /\
      owned m ⊆ O /\ owned m ## dom B).
  { clear -Hs Hus Hms'. revert ws O Hus Hs. induction us as [|u us IH]; intros [|w ws] O Hus Hs; try done; simpl in *.
    - inversion Hs as [|? ? ? ? O1 Hs' He]; subst. rewrite <-Hms'. exists O1. split; [done|].
      pose proof (stack_frame _ _ _ _ _ _ Hs').
      destruct (owned_cases _ _ _ _ _ _ He) as [[-> _]|(p & b & t & rest & -> & _ & Hp & _)]; set_solver.
    - inversion Hs as [|? ? ? ? O1 Hs' He']; subst. destruct (IH ws O1) as (O' & ? & ? & ?); [lia|done|].
      exists O'. set_solver. }
  destruct He as (O' & He & HsubO & HdisB). exists O'. rewrite rev_middle in *. split_and!; try done.
  - by rewrite length_rev.
  - intros m' v' [H1 H2]. exists (us ++ m' :: ms'), rest, h, O. rewrite rev_middle. split_and!; try done.
    + f_equal. rewrite !length_app. done.
    + by rewrite length_app in *.
    + eapply stack_replace; [done|exact Hs| |done]. by rewrite Hms'.
  - intros m' v' h' Hw Hv' Hm' Hf. exists (us ++ m' :: ms'), rest, h', (O ∖ owned m).
    rewrite rev_middle. split_and!; try done.
    + f_equal. rewrite !length_app. done.
    + by rewrite length_app in *.
    + destruct Hf as (F1 & _). eapply stack_release; [done|done|exact Hs|done| |done].
      intros O0 h0. rewrite Hms'. apply Hm'.
    + by eapply heap_freed.
Qed.

(** * The rules on stacks of values *)

Lemma rep_pos X s vs : rep X s vs -> pTos s = Z.of_nat (length vs) - 1.
Proof. by intros (ms & rest & h & O & -> & _). Qed.

Lemma rep_pTos X s vs (Q : Z -> Vm -> Prop) C : rep X s vs -> Q (Z.of_nat (length vs) - 1) s -> wp (vget pTos) Q C s.
Proof. intros H HQ. apply wp_vget. by rewrite (rep_pos X s vs H). Qed.

(** What can be seen of an entry. *)
Record views (s : Vm) (m : Mem) (v : value) : Prop := {
  view_null : has MEM_Null m = is_null v;
  view_int : has MEM_Int m = some (v_int v);
  view_real : has MEM_Real m = some (v_real v);
  view_str : has MEM_Str m = some (v_text v);
  view_mi : forall i, v_int v = Some i -> mi m = i;
  view_mr : forall r, v_real v = Some r -> mr m = r;
  view_light : v_int v <> None -> v_heavy v = false -> has MEM_Dyn m = false;
  view_dyn : v_text v = None -> has MEM_Dyn m = false;
  view_text : forall t, v_text v = Some t ->
    nulfree t /\ mn m = Z.of_nat (length t) + 1 /\ z_str (mz m) s = Done t s /\
    forall n, 0 <= n <= Z.of_nat (length t) + 1 -> z_read (mz m) n s = Done (take (Z.to_nat n) (t ++ [0])) s
}.

Lemma entry_views l m r k h O v : entry_ok O (blocks h) (aMem E) (Z.of_nat (length l)) m v ->
  views (st (l ++ m :: r) k h) m v.
Proof.
  intros He. destruct (entry_flags _ _ _ _ _ _ He) as (A1 & A2 & A3 & A4 & A5).
  pose proof He as (_ & Hi & Hr & Ht). split; try done.
  - intros Hv Hh. destruct (v_text v) as [t|] eqn:Et; [|by destruct (A5 eq_refl)].
    destruct (storage_flags _ _ _ _ _ _ _ He Et) as (x & Hsx & _ & Hx & _ & -> & _).
    apply bool_decide_eq_false_2. intros ->. destruct (mz m); try done. destruct (Hx Logic.I) as [|Hx']; [done|congruence].
  - intros Et. by destruct (A5 Et).
  - intros t Et. rewrite Et in Ht. destruct Ht as (Hn & Hm & _). split; [done|]. split; [done|].
    assert (Hret : forall A (c : M Vm A) (a : A) s, wp c (fun b s' => b = a /\ s' = s) (fun _ => False) s -> c s = Done a s).
    { intros A0 c a s. unfold wp. destruct (c s) as [b s'| |]; [by intros [-> ->]|done..]. }
    split.
    + apply Hret. eapply wp_z_str; [done|exact He|exact Et|done].
    + intros n Hrange. apply Hret. eapply wp_z_read; [done|exact He|exact Et|done|done].
Qed.

Lemma wp_equation {S A} (c : M S A) a s s' (Q : A -> S -> Prop) C : c s = Done a s' -> Q a s' -> wp c Q C s.
Proof. unfold wp. by intros ->. Qed.

Lemma rep_stk X s ws v vs j (Q : Mem -> Vm -> Prop) C :
  rep X s (ws ++ v :: vs) -> j = Z.of_nat (length vs) ->
  (forall m, at_ (aStack s) j = Some m -> views s m v -> Q m s) -> wp (stk j) Q C s.
Proof.
  intros H -> HQ. destruct (rep_focus X s ws v vs H) as (l & m & r & k & h & O & -> & Hl & _ & He & _).
  apply wp_stk; [by rewrite Hl|]. apply HQ; [by apply at_middle; rewrite Hl|].
  rewrite <-Hl in He. by eapply entry_views.
Qed.

Lemma rep_Stringify X s ws v vs j t (Q : unit -> Vm -> Prop) C :
  rep X s (ws ++ v :: vs) -> j = Z.of_nat (length vs) -> is_null v = false -> to_text v = Some t ->
  (forall s', rep X s' (ws ++ text_value v t :: vs) -> Q tt s') -> wp (Stringify j) Q C s.
Proof.
  intros H -> Hn Ht HQ. destruct (rep_focus X s ws v vs H) as (l & m & r & k & h & O & -> & Hl & _ & He & Hb & _).
  eapply wp_Stringify; [by rewrite Hl|exact He|done|done|]. intros m' Hm'. by apply HQ, Hb.
Qed.

Lemma rep_Realify X s ws v vs j (Q : unit -> Vm -> Prop) C :
  rep X s (ws ++ v :: vs) -> j = Z.of_nat (length vs) -> is_null v = false ->
  (forall s', rep X s' (ws ++ real_value v :: vs) -> Q tt s') -> wp (Realify j) Q C s.
Proof.
  intros H -> Hn HQ. destruct (rep_focus X s ws v vs H) as (l & m & r & k & h & O & -> & Hl & _ & He & Hb & _).
  eapply wp_Realify; [by rewrite Hl|exact He|done|]. intros m' Hm' _. by apply HQ, Hb.
Qed.

Lemma rep_Integerify X s ws v vs j i (Q : unit -> Vm -> Prop) C :
  rep X s (ws ++ v :: vs) -> j = Z.of_nat (length vs) -> is_null v = false -> to_integer v = Some i ->
  Forall loose ws \/ v_int v = Some i ->
  (forall s', rep X s' (ws ++ int_value v i :: vs) -> Q tt s') -> wp (Integerify j) Q C s.
Proof.
  intros H -> Hn Hi Hw HQ. pose proof H as H0.
  destruct (rep_focus X s ws v vs H) as (l & m & r & k & h & O & -> & Hl & _ & He & _ & Hf).
  eapply wp_Integerify; [by rewrite Hl|exact He|done|done| |].
  - intros Ev. apply HQ. unfold int_value. by rewrite Ev.
  - intros m' h' Ev Hm' Hfree. apply HQ. unfold int_value. rewrite Ev. apply Hf; try done.
    destruct Hw as [Hw|Hw]; [done|congruence].
Qed.

(** ** Popping and pushing *)

Lemma rep_pop_one {A} X s v vs (Q : A -> Vm -> Prop) C (f : Z -> M Vm A) :
  rep X s (v :: vs) ->
  (forall s', rep X s' vs -> wp (f (Z.of_nat (length vs))) Q C s') ->
  wp (k ← vget pTos; m ← stk k; Release m;; vupd (set_pTos (k - 1));; f k) Q C s.
Proof.
  intros (ms & rest & h & O & -> & Hlen & Hs & Hh & Hr) HQ.
  inversion Hs as [|m ms' ? ? O1 Hs' He]; subst. pose proof (stack_length _ _ _ _ _ _ Hs') as Hl.
  apply wp_bind, wp_vget. cbn [pTos st set_vheap set_pTos set_aStack length rev].
  replace (Z.of_nat (S (length vs)) - 1) with (Z.of_nat (length (rev ms'))) by (rewrite length_rev; lia).
  cbn [rev] in Hlen. rewrite <-app_assoc in Hlen |- *. cbn in Hlen |- *. apply wp_bind, wp_stk; [done|]. apply wp_bind.
  eapply wp_Release; [exact He|]. intros h' Hf. apply wp_bind, wp_vupd. rewrite length_rev, Hl. apply HQ.
  assert (Hdis : owned m ## O1).
  { destruct (owned_cases _ _ _ _ _ _ He) as [[-> _]|(p & b & t & r & -> & _ & Hp & _)]; set_solver. }
  pose proof (stack_frame _ _ _ _ _ _ Hs') as HF.
  exists ms', (m :: rest), h', O1. split_and!.
  - unfold st. cbn. done.
  - done.
  - destruct Hf as (F1 & _). eapply stack_heap; [done|]. intros q Hq. apply F1. set_solver.
  - replace O1 with ((owned m ∪ O1) ∖ owned m) by set_solver. eapply heap_freed; [done|set_solver|set_solver|done].
  - constructor; [|done]. by destruct He.
Qed.

Lemma rep_popStack X s ws vs n (Q : unit -> Vm -> Prop) C :
  rep X s (ws ++ vs) -> n = Z.of_nat (length ws) -> (forall s', rep X s' vs -> Q tt s') -> wp (popStack n) Q C s.
Proof.
  intros H -> HQ. unfold popStack. rewrite Nat2Z.id. revert s H.
  induction ws as [|w ws IH]; intros s H; cbn [length pop_stack]; [by apply wp_ret, HQ|].
  eapply (rep_pop_one _ _ _ _ _ _ (fun _ => pop_stack (length ws))); [exact H|]. intros s' H'. by apply IH.
Qed.

(** Room for one more entry. *)
Definition room (vs : list value) : Prop := (length vs < length (aStack E))%nat.

Lemma rep_grow X s vs (Q : Z -> Vm -> Prop) C :
  rep X s vs -> room vs ->
  (forall ms x rest h O,
     length ms = length vs -> length (zShort x) = 32%nat -> heap_ok X h O ->
     s = st (rev ms ++ x :: rest) (Z.of_nat (length vs) - 1) h -> stack_ok (dom B) (blocks h) (aMem E) ms vs O ->
     (forall m v X' h' O', stack_ok (dom B) (blocks h') (aMem E) ms vs O' ->
        entry_ok O' (blocks h') (aMem E) (Z.of_nat (length vs)) m v ->
        heap_ok X' h' (owned m ∪ O') ->
        rep X' (st (rev ms ++ m :: rest) (Z.of_nat (length vs)) h') (v :: vs)) ->
     Q (Z.of_nat (length vs)) (st (rev ms ++ x :: rest) (Z.of_nat (length vs)) h)) ->
  wp grow Q C s.
Proof.
  intros (ms & rest & h & O & -> & Hlen & Hs & Hh & Hr) Hroom HQ.
  pose proof (stack_length _ _ _ _ _ _ Hs) as Hl. unfold room in Hroom.
  rewrite length_app, length_rev in Hlen. destruct rest as [|x rest]; [simpl in Hlen; lia|].
  apply Forall_cons_1 in Hr as [Hx Hr]. unfold grow. apply wp_bind, wp_vget.
  cbn [pTos st set_vheap set_pTos set_aStack]. apply wp_bind, wp_vupd, wp_ret.
  replace (Z.of_nat (length vs) - 1 + 1) with (Z.of_nat (length vs)) by lia.
  apply (HQ ms x rest h O); try done.
  intros m v X' h' O' Hs' He Hh'. exists (m :: ms), rest, h', (owned m ∪ O'). split_and!; try done.
  - cbn [length rev]. rewrite <-app_assoc. f_equal. lia.
  - cbn [rev]. rewrite !length_app, length_rev. simpl in *. lia.
  - constructor; [done|]. by rewrite Hl.
Qed.

(** A value without text is pushed. *)
Lemma rep_push X s vs v f (Q : unit -> Vm -> Prop) C :
  rep X s vs -> room vs -> v_text v = None ->
  (forall j x, length (zShort x) = 32%nat -> plain_entry j (f x) v) ->
  (forall s', rep X s' (v :: vs) -> Q tt s') ->
  wp (k ← grow; stk_upd k f) Q C s.
Proof.
  intros H Hroom Hv Hf HQ. apply wp_bind. eapply rep_grow; [done|done|].
  intros ms x rest h O Hl Hx Hh -> Hs Hrep. apply wp_stk_upd; [by rewrite length_rev, Hl|].
  apply HQ, (Hrep _ _ _ _ O); [done|by apply Hf|].
  rewrite (owned_text O (blocks h) (aMem E) (Z.of_nat (length vs)) (f x) v); [|by apply Hf|done].
  by rewrite union_empty_l_L.
Qed.

Lemma rep_push_null X s vs (Q : unit -> Vm -> Prop) C :
  rep X s vs -> room vs -> (forall s', rep X s' (VNull :: vs) -> Q tt s') -> wp push_null Q C s.
Proof. intros H Hroom HQ. eapply (rep_push _ _ _ VNull); [done|done|done|intros; by apply plain_null|done]. Qed.

Lemma rep_push_int X s vs i (Q : unit -> Vm -> Prop) C :
  rep X s vs -> room vs -> (forall s', rep X s' (VInt i :: vs) -> Q tt s') -> wp (push_int i) Q C s.
Proof. intros H Hroom HQ. eapply (rep_push _ _ _ (VInt i)); [done|done|done|intros; by apply plain_int|done]. Qed.

Lemma heap_alloc X h O p b : heap_ok X h O -> blocks h !! p = None ->
  heap_ok (<[p := b]> X) (set_blocks (<[p := b]> (blocks h)) h) O.
Proof.
  intros (H1 & H2 & H3 & H4 & H5) Hp.
  assert (Hp' : p ∉ dom X ∪ O) by (rewrite <-H4; by apply not_elem_of_dom). split_and!; cbn.
  - apply insert_subseteq_r; [|done]. eapply lookup_weaken_None; done.
  - by apply insert_mono.
  - rewrite dom_insert_L. set_solver.
  - rewrite !dom_insert_L, H4. set_solver.
  - done.
Qed.

Lemma rep_new_string X s vs n bytes (Q : option zptr -> Vm -> Prop) C :
  rep X s vs -> n = Z.of_nat (length bytes) ->
  (forall p s', X !! p = None -> rep (<[p := map Some bytes]> X) s' vs -> Q (Some (ZHeap p 0)) s') ->
  wp (new_string n bytes) Q C s.
Proof.
  intros (ms & rest & h & O & -> & Hlen & Hs & Hh & Hr) -> HQ. unfold new_string. apply wp_bind, wp_onheap.
  pose proof Hh as (H1 & H2 & H3 & H4 & H5).
  apply mem_wp_sqliteMallocRaw; [done|]. intros p Hp. cbn [vheap st set_vheap].
  apply wp_bind, wp_onheap. cbn [vheap st set_vheap].
  eapply wp_store_bytes; cbn [blocks set_blocks]; [by rewrite lookup_insert_eq|lia| |].
  { rewrite length_replicate, Nat2Z.id. lia. }
  apply wp_ret. rewrite insert_insert_eq, Nat2Z.id. cbn [Z.to_nat take app plus].
  rewrite drop_ge by (rewrite length_replicate; lia). rewrite app_nil_r.
  assert (Hp' : p ∉ dom X ∪ O) by (rewrite <-H4; by apply not_elem_of_dom).
  apply HQ; [apply not_elem_of_dom; set_solver|].
  exists ms, rest, (set_blocks (<[p := map Some bytes]> (blocks h)) h), O. split_and!; try done.
  - eapply stack_heap; [done|]. cbn. intros q Hq. apply lookup_insert_ne. set_solver.
  - by apply heap_alloc.
Qed.

(** The block becomes the property of an entry. *)
Lemma rep_push_block X s vs p v t f (Q : unit -> Vm -> Prop) C :
  X !! p = None -> rep (<[p := map Some (t ++ [0])]> X) s vs -> room vs ->
  v_text v = Some t -> nulfree t -> (v_int v = None \/ v_heavy v = true) ->
  (forall x, length (zShort x) = 32%nat ->
     length (zShort (f x)) = 32%nat /\ mflags (f x) = type_flags v + MEM_Dyn /\ mz (f x) = ZHeap p 0 /\
     mn (f x) = Z.of_nat (length t) + 1 /\ (forall i, v_int v = Some i -> mi (f x) = i) /\
     (forall r, v_real v = Some r -> mr (f x) = r)) ->
  (forall s', rep X s' (v :: vs) -> Q tt s') ->
  wp (k ← grow; stk_upd k f) Q C s.
Proof.
  intros HX H Hroom Ht Hnf Hv Hf HQ. apply wp_bind. eapply rep_grow; [done|done|].
  intros ms x rest h O Hl Hx Hh -> Hs Hrep. apply wp_stk_upd; [by rewrite length_rev, Hl|].
  destruct (Hf x Hx) as (G1 & G2 & G3 & G4 & G5 & G6). pose proof Hh as (H1 & H2 & H3 & H4 & H5).
  rewrite dom_insert_L in H3, H4.
  assert (Hp : p ∉ O) by set_solver.
  assert (Hb : blocks h !! p = Some (map Some (t ++ [0]))) by (eapply lookup_weaken; [|done]; apply lookup_insert_eq).
  apply HQ, (Hrep _ _ _ _ O); [done|..].
  - split_and!; try done. rewrite Ht. split; [done|]. split; [done|]. exists Dyn. rewrite G3.
    split; [done|]. split; [done|]. split; [done|]. split; [done|]. eexists _, []. split; [exact Hb|].
    by rewrite app_nil_r.
  - assert (Eo : owned (f x) = {[p]}).
    { unfold owned, has. rewrite G2, G3. destruct v as [[i|] [r|] [u|] hv]; cbn in Ht; done. }
    rewrite Eo. split_and!; try done.
    + etrans; [|exact H2]. by apply insert_subseteq.
    + apply not_elem_of_dom in HX. set_solver.
    + rewrite H4. set_solver.
Qed.

(** A value whose text is constant, or belongs to a memory cell. *)
Lemma rep_push_pointer X s vs v t f x (Q : unit -> Vm -> Prop) C :
  rep X s vs -> room vs -> v_text v = Some t -> nulfree t -> x = Static \/ x = Ephem ->
  (forall m, length (zShort m) = 32%nat ->
     length (zShort (f m)) = 32%nat /\ mflags (f m) = type_flags v + storage_flag x /\
     storage_ok (dom B) 0 x (mz (f m)) /\ (in_block (mz (f m)) -> v_int v = None \/ v_heavy v = true) /\
     (forall own k, text_at B (aMem E) k own (mz (f m)) t) /\
     mn (f m) = Z.of_nat (length t) + 1 /\ (forall i, v_int v = Some i -> mi (f m) = i) /\
     (forall r, v_real v = Some r -> mr (f m) = r)) ->
  (forall s', rep X s' (v :: vs) -> Q tt s') ->
  wp (k ← grow; stk_upd k f) Q C s.
Proof.
  intros H Hroom Ht Hnf Hx Hf HQ. apply wp_bind. eapply rep_grow; [done|done|].
  intros ms m rest h O Hl Hm Hh -> Hs Hrep. apply wp_stk_upd; [by rewrite length_rev, Hl|].
  destruct (Hf m Hm) as (G1 & G2 & G3 & Gb & G4 & G5 & G6 & G7). pose proof Hh as (H1 & H2 & H3 & H4 & H5).
  assert (HBO : dom B ⊆ O) by (by eapply stack_frame). apply HQ, (Hrep _ _ _ _ O); [done|..].
  - split_and!; try done. rewrite Ht. split; [done|]. split; [done|]. exists x.
    split; [done|]. split.
    { destruct Hx as [-> | ->]; cbn in *; destruct (mz (f m)); try done. set_solver. }
    split; [done|]. specialize (G4 (zShort (f m)) (Z.of_nat (length vs))).
    destruct (mz (f m)) as [|c|p off|j off|j off]; try done.
    cbn in G4 |- *. destruct G4 as (Ho & b & r & Hb & Hd). split; [done|]. exists b, r. split; [|done].
    by apply (lookup_weaken B).
  - assert (Eo : owned (f m) = ∅).
    { unfold owned, has. rewrite G2. destruct v as [[i|] [r|] [u|] hv]; cbn in Ht; try done;
        destruct Hx as [-> | ->]; done. }
    by rewrite Eo, union_empty_l_L.
Qed.

Lemma rep_push_static X s vs t (Q : unit -> Vm -> Prop) C :
  rep X s vs -> room vs -> nulfree t -> (forall s', rep X s' (VText t :: vs) -> Q tt s') ->
  wp (push_static (t ++ [0]) (Z.of_nat (length t) + 1)) Q C s.
Proof.
  intros H Hroom Hnf HQ. eapply (rep_push_pointer X s vs (VText t) t _ Static); try done; [by left|].
  intros m Hm. split_and!; try done. intros own k. by exists [].
Qed.

End Rules.
