(* ===== verification/VdbeEffects.v ===== *)
(** What the instructions do to a stack of values, and what they leave of the heap. *)
From S2P Require Import Prelude Util CMem CFloat Printf VdbeAux VdbeMem Vdbe VdbeStack.

Section Effects.
Context (E : Vm) (B : heap).
Abbreviation rep := (rep E B).
Abbreviation st := (st E).

(** ** The top of the stack *)

Lemma length_cons_Z {A} (x : A) l : Z.of_nat (length (x :: l)) - 1 = Z.of_nat (length l).
Proof. simpl. lia. Qed.

(** The top entry is given up: its block is freed, or it has none. *)
Lemma rep_release X s v vs j m k (Q : unit -> Vm -> Prop) C :
  rep X s (v :: vs) -> j = Z.of_nat (length vs) -> at_ (aStack s) j = Some m -> k = j - 1 ->
  (forall s', rep X (set_pTos k s') vs -> Q tt s') -> wp (Release m) Q C s.
Proof.
  intros (ms & rest & h & O & -> & Hlen & Hs & Hh & Hr) -> Hm -> HQ.
  inversion Hs as [|m1 ms' ? ? O1 Hs' He]; subst. pose proof (stack_length _ _ _ _ _ _ Hs') as Hl.
  cbn [rev] in Hm, Hlen |- *. rewrite <-app_assoc in Hm, Hlen |- *.
  cbn [aStack VdbeStack.st set_vheap set_pTos set_aStack app] in Hm, Hlen |- *.
  rewrite at_middle in Hm by (rewrite length_rev; lia). injection Hm as <-.
  eapply wp_Release; [exact He|]. intros h' Hf. apply HQ.
  assert (Hdis : owned m1 ## O1).
  { destruct (owned_cases _ _ _ _ _ _ He) as [[-> _]|(p & b & t & r & -> & _ & Hp & _)]; set_solver. }
  pose proof (stack_frame _ _ _ _ _ _ Hs') as HF.
  exists ms', (m1 :: rest), h', O1. split_and!; try done.
  - destruct Hf as (F1 & _). eapply stack_heap; [done|]. intros q Hq. apply F1. set_solver.
  - replace O1 with ((owned m1 ∪ O1) ∖ owned m1) by set_solver. eapply heap_freed; [done|set_solver|set_solver|done].
  - constructor; [|done]. by destruct He.
Qed.

(** An entry without a block is dropped. *)
Lemma rep_drop X s v vs j m :
  rep X s (v :: vs) -> j = Z.of_nat (length vs) -> at_ (aStack s) j = Some m -> has MEM_Dyn m = false ->
  rep X (set_pTos (j - 1) s) vs.
Proof.
  intros H Hj Hm Hd.
  assert (Hw : wp (Release m) (fun _ s' => s' = s -> rep X (set_pTos (j - 1) s) vs) (fun _ => True) s).
  { eapply rep_release with (k := j - 1); [done..|]. by intros s' H' ->. }
  unfold wp, Release in Hw. rewrite Hd in Hw. by apply Hw.
Qed.

(** The top entry can be overwritten by a value without a text. *)
Definition writable X (s : Vm) (v : value) (vs : list value) : Prop :=
  forall f v' (Q : unit -> Vm -> Prop) C,
    v_text v' = None ->
    (forall x, length (zShort x) = 32%nat -> (forall i, v_int v = Some i -> mi x = i) ->
       (forall r, v_real v = Some r -> mr x = r) -> plain_entry E (Z.of_nat (length vs)) (f x) v') ->
    (forall s', rep X s' (v' :: vs) -> Q tt s') ->
    wp (stk_upd (Z.of_nat (length vs)) f) Q C s.

Lemma rep_Release X s v vs m (Q : unit -> Vm -> Prop) C :
  rep X s (v :: vs) -> at_ (aStack s) (Z.of_nat (length vs)) = Some m ->
  (forall s', writable X s' v vs -> Q tt s') -> wp (Release m) Q C s.
Proof.
  intros H Hm HQ.
  destruct (rep_focus E B X s [] v vs H) as (l & m' & r & k & h & O & -> & Hl & _ & He & _ & Hfree).
  cbn [aStack VdbeStack.st set_vheap set_pTos set_aStack] in Hm. rewrite at_middle in Hm by (by rewrite Hl).
  injection Hm as ->. eapply wp_Release; [exact He|]. intros h' Hfr. apply HQ.
  intros f v' Q' C' Ht Hf HQ'. apply wp_stk_upd; [by rewrite Hl|]. apply HQ'.
  pose proof He as (E1 & E2 & E3 & _). apply Hfree; [constructor|done|by apply Hf|done].
Qed.

(** Two operands are replaced by a result. *)
Lemma rep_replace_two X s t n vs v' f (Q : unit -> Vm -> Prop) C :
  rep X s (t :: n :: vs) -> v_text v' = None ->
  (forall j x, length (zShort x) = 32%nat -> plain_entry E j (f x) v') ->
  (forall s', rep X s' (v' :: vs) -> Q tt s') ->
  wp (replace_two f) Q C s.
Proof.
  intros H Ht Hf HQ. unfold replace_two. eapply rep_pop_one; [exact H|]. intros s' H'. cbn [length].
  replace (Z.of_nat (S (length vs)) - 1) with (Z.of_nat (length vs)) by lia.
  apply wp_bind. eapply (rep_stk _ _ _ _ []); [exact H'|done|]. intros m Hm _.
  apply wp_bind. eapply rep_Release; [exact H'|exact Hm|]. intros s2 H2. eapply H2; [exact Ht| |exact HQ]. by auto.
Qed.

(** ** Comparisons *)

Ltac top := rewrite ?length_cons_Z; cbn [length]; lia.

Lemma rep_branch_or_push X s t n vs o (c : bool) pc (Q : ctl -> Vm -> Prop) C :
  rep X s (t :: n :: vs) -> room E vs ->
  (p2 o <> 0 -> forall s', rep X s' vs -> Q (Go (if c then p2 o - 1 else pc)) s') ->
  (p2 o = 0 -> forall s', rep X s' (VInt (Z.b2z c) :: vs) -> Q (Go pc) s') ->
  wp (branch_or_push o c pc) Q C s.
Proof.
  intros H Hroom H1 H2. unfold branch_or_push. apply wp_bind.
  eapply (rep_popStack E B X s [t; n]); [exact H|done|]. intros s' H'.
  destruct (Z.eqb_spec (p2 o) 0) as [Hz|Hz]; cbn [negb].
  - apply wp_bind. eapply rep_push_int; [exact H'|done|]. intros s2 Hs2. apply wp_ret, H2; [done|].
    by destruct c.
  - by apply wp_ret, H1.
Qed.

Lemma rep_branch_null X s t n vs o pc (Q : ctl -> Vm -> Prop) C :
  rep X s (t :: n :: vs) -> room E vs ->
  (p2 o <> 0 -> forall s', rep X s' vs -> Q (Go (if p1 o =? 0 then pc else p2 o - 1)) s') ->
  (p2 o = 0 -> forall s', rep X s' (VNull :: vs) -> Q (Go pc) s') ->
  wp (branch_null o pc) Q C s.
Proof.
  intros H Hroom H1 H2. unfold branch_null. apply wp_bind.
  eapply (rep_popStack E B X s [t; n]); [exact H|done|]. intros s' H'.
  destruct (Z.eqb_spec (p2 o) 0) as [Hz|Hz]; cbn [negb].
  - apply wp_bind. eapply rep_push_null; [exact H'|done|]. intros s2 Hs2. by apply wp_ret, H2.
  - by apply wp_ret, H1.
Qed.

(** The values are turned into texts in their places. *)
Lemma rep_compare_texts X s t n vs a b cmp j (Q : Z -> Vm -> Prop) C :
  rep X s (t :: n :: vs) -> j = Z.of_nat (length vs) + 1 -> is_null t = false -> is_null n = false ->
  to_text n = Some a -> to_text t = Some b ->
  (forall t' n' s', rep X s' (t' :: n' :: vs) -> Q (cmp a b) s') ->
  wp (compare_texts cmp j) Q C s.
Proof.
  intros H -> Ht Hn Ha Hb HQ. unfold compare_texts. apply wp_bind.
  eapply (rep_Stringify _ _ _ _ []); [exact H|top|done|done|]. intros s1 H1. cbn [app] in H1.
  apply wp_bind. eapply (rep_Stringify _ _ _ _ [_]); [exact H1|lia|done|done|]. intros s2 H2. cbn [app] in H2.
  apply wp_bind. eapply (rep_stk _ _ _ _ []); [exact H2|top|]. intros m _ Vm.
  apply wp_bind. eapply (rep_stk _ _ _ _ [_]); [exact H2|lia|]. intros m' _ Vm'.
  assert (Ht' : forall v u, to_text v = Some u -> v_text (text_value v u) = Some u).
  { intros v u. unfold to_text, text_value. destruct (v_text v) eqn:Ev; [by rewrite Ev; intros [= ->]|done]. }
  destruct (view_text _ _ _ Vm b) as (_ & _ & Eb & _); [by apply Ht'|].
  destruct (view_text _ _ _ Vm' a) as (_ & _ & Ea & _); [by apply Ht'|].
  apply wp_bind. eapply wp_equation; [exact Eb|]. apply wp_bind. eapply wp_equation; [exact Ea|].
  by eapply wp_ret, HQ.
Qed.

Lemma rep_string_int s m v (Q : option Z -> Vm -> Prop) C :
  views s m v ->
  Q (match v_text v with Some t => if fst (toInt t) then Some (snd (toInt t)) else None | None => None end) s ->
  wp (string_int m) Q C s.
Proof.
  intros Hv HQ. unfold string_int. rewrite (view_str _ _ _ Hv).
  destruct (v_text v) as [t|] eqn:Et; cbn [some]; [|by apply wp_ret].
  destruct (view_text _ _ _ Hv t Et) as (_ & _ & Ez & _). apply wp_bind. eapply wp_equation; [exact Ez|].
  by apply wp_ret.
Qed.

Lemma rep_compare_top X s t n vs c j (Q : Z -> Vm -> Prop) C :
  rep X s (t :: n :: vs) -> j = Z.of_nat (length vs) + 1 -> is_null t = false -> is_null n = false ->
  compare_values n t = Some c ->
  (forall t' n' s', rep X s' (t' :: n' :: vs) -> Q c s') ->
  wp (compare_top j) Q C s.
Proof.
  intros H -> Ht Hn Hc HQ. unfold compare_top.
  apply wp_bind. eapply (rep_stk _ _ _ _ []); [exact H|top|]. intros mt _ Vt.
  apply wp_bind. eapply (rep_stk _ _ _ _ [_]); [exact H|lia|]. intros mn' _ Vn.
  rewrite (view_int _ _ _ Vt), (view_int _ _ _ Vn). unfold compare_values in Hc.
  assert (Htext : (if faithful n && faithful t
      then a ← to_text n; b ← to_text t; Some (sqliteCompare (Some a) (Some b)) else None) = Some c ->
    wp (compare_texts (fun a b => sqliteCompare (Some a) (Some b)) (Z.of_nat (length vs) + 1)) Q C s).
  { intros Hx. destruct (faithful n && faithful t); [|done]. destruct (to_text n) as [a|] eqn:Ea; [|done]. destruct (to_text t) as [b|] eqn:Eb; [|done].
    injection Hx as <-. eapply rep_compare_texts; [exact H|done..|]. exact HQ. }
  destruct (v_int t) as [b|] eqn:Eb, (v_int n) as [a|] eqn:Ea; cbn [some andb].
  - rewrite (view_mi _ _ _ Vt b Eb), (view_mi _ _ _ Vn a Ea). apply exactly_wrap in Hc as [-> _]. by eapply wp_ret, HQ.
  - apply wp_bind. eapply rep_string_int; [exact Vn|]. rewrite (view_mi _ _ _ Vt b Eb).
    destruct (v_text n) as [u|]; cbn in Hc; [|by apply wp_bind, wp_ret, Htext].
    destruct (toInt u).1; [apply exactly_wrap in Hc as [-> _]; by eapply wp_ret, HQ|by apply wp_bind, wp_ret, Htext].
  - apply wp_bind, wp_ret, wp_bind. eapply rep_string_int; [exact Vt|]. rewrite (view_mi _ _ _ Vn a Ea).
    destruct (v_text t) as [u|]; cbn in Hc; [|by apply Htext].
    destruct (toInt u).1; [apply exactly_wrap in Hc as [-> _]; by eapply wp_ret, HQ|by apply Htext].
  - apply wp_bind, wp_ret, wp_bind, wp_ret. by apply Htext.
Qed.

(** A comparison that pushes its result, and one that jumps. *)
Lemma rep_compare X s t n vs (text : bool) op o pc r (Q : ctl -> Vm -> Prop) C :
  rep X s (t :: n :: vs) -> room E vs -> compared text op n t = Some r ->
  (p2 o <> 0 -> forall s', rep X s' vs ->
     Q (Go (if (match r with Some b => b | None => negb (p1 o =? 0) end) then p2 o - 1 else pc)) s') ->
  (p2 o = 0 -> forall s', rep X s' (of_truth r :: vs) -> Q (Go pc) s') ->
  wp (if text then op_strcompare op o pc else op_compare op o pc) Q C s.
Proof.
  intros H Hroom Hr H1 H2.
  assert (Hpos := rep_pos _ _ _ _ _ H). cbn [length] in Hpos.
  unfold compared in Hr.
  assert (Hbr : forall c s', rep X s' (t :: n :: vs) -> r = Some (compare_op op c) ->
    forall t' n' s', rep X s' (t' :: n' :: vs) -> wp (branch_or_push o (compare_op op c) pc) Q C s').
  { intros c s' _ Er t' n' s2 Hs2. rewrite Er in H1, H2. by eapply rep_branch_or_push. }
  assert (Hnull : r = None -> wp (branch_null o pc) Q C s).
  { intros Er. rewrite Er in H1, H2. eapply rep_branch_null; [exact H|done| |done].
    intros Hz s' Hs'. specialize (H1 Hz s' Hs'). by destruct (p1 o =? 0). }
  destruct text; [unfold op_strcompare|unfold op_compare]; apply wp_bind, wp_vget, wp_bind;
    (apply wp_assert; [rewrite Hpos; apply Z.leb_le; lia|]);
    (apply wp_bind; eapply (rep_stk _ _ _ _ []); [exact H|rewrite Hpos; top|]; intros mt _ Vt;
     apply wp_bind; eapply (rep_stk _ _ _ _ [_]); [exact H|rewrite Hpos; lia|]; intros mn' _ Vn);
    rewrite (view_null _ _ _ Vt), (view_null _ _ _ Vn), orb_comm;
    destruct (is_null n) eqn:En, (is_null t) eqn:Et; cbn [orb] in Hr |- *; try (injection Hr as <-; by apply Hnull).
  - apply wp_bind. unfold compare_strings in Hr.
    destruct (to_text n) as [a|] eqn:Ea; [|done]. destruct (to_text t) as [b|] eqn:Eb; [|done].
    injection Hr as <-. eapply rep_compare_texts; [exact H|rewrite Hpos; lia|done..|]. by eapply Hbr.
  - apply wp_bind. destruct (compare_values n t) as [c|] eqn:Ec; [|done]. injection Hr as <-.
    eapply rep_compare_top; [exact H|rewrite Hpos; lia|done..|]. by eapply Hbr.
Qed.

(** ** Operators *)

Lemma null_value v : is_null v = true -> v_heavy v = false -> v = VNull.
Proof. destruct v as [[i|] [r|] [t|] hv]; cbn; try done. by intros _ ->. Qed.

(** [pTos], which is the index of the top entry. *)
Lemma rep_top {A} X s v vs (f : Z -> M Vm A) Q C :
  rep X s (v :: vs) -> wp (f (Z.of_nat (length vs))) Q C s -> wp (k ← vget pTos; f k) Q C s.
Proof.
  intros H Hf. apply wp_bind, wp_vget. rewrite (rep_pos _ _ _ _ _ H).
  by replace (Z.of_nat (length (v :: vs)) - 1) with (Z.of_nat (length vs)) by top.
Qed.

Ltac at_top := first [top | apply Z.leb_le; top].

Lemma rep_arith X s t n vs op pc v (Q : ctl -> Vm -> Prop) C :
  rep X s (t :: n :: vs) -> arith_value op n t = Some v ->
  (forall s', rep X s' (v :: vs) -> Q (Go pc) s') -> wp (op_arith op pc) Q C s.
Proof.
  intros H Hv HQ. unfold op_arith. eapply rep_top; [exact H|].
  apply wp_bind, wp_assert; [at_top|].
  apply wp_bind. eapply (rep_stk _ _ _ _ []); [exact H|top|]. intros mt _ Vt.
  apply wp_bind. eapply (rep_stk _ _ _ _ [_]); [exact H|top|]. intros mn' _ Vn.
  rewrite (view_null _ _ _ Vt), (view_null _ _ _ Vn), orb_comm. unfold arith_value, strict in Hv.
  assert (Hnull : forall s t n, rep X s (t :: n :: vs) -> v = VNull ->
    wp (replace_two (set_mflags MEM_Null);; mret (Go pc)) Q C s).
  { intros s0 t0 n0 H0 ->. apply wp_bind. eapply rep_replace_two with (v' := VNull); [exact H0|done| |].
    - intros. by apply plain_null.
    - intros s' Hs'. by apply wp_ret, HQ. }
  destruct (is_null n || is_null t) eqn:En; [injection Hv as <-; by eapply Hnull|].
  apply orb_false_iff in En as [En Et].
  assert (Hend : forall a s t n, rep X s (t :: n :: vs) -> of_arith a = Some v ->
    wp (match a with
        | ANum v => replace_two (fun m => set_mi v (set_mflags MEM_Int m));; mret (Go pc)
        | AReal v => replace_two (fun m => set_mr v (set_mflags MEM_Real m));; mret (Go pc)
        | ANull => replace_two (set_mflags MEM_Null);; mret (Go pc)
        | AUndefined => mstuck
        end) Q C s).
  { intros a s0 t0 n0 H0 Ha. destruct a as [i|r| |]; [| | |done]; injection Ha as <-; [| |by eapply Hnull]; apply wp_bind.
    - eapply rep_replace_two with (v' := VInt i); [exact H0|done|intros; by apply plain_int|].
      intros s' Hs'. by apply wp_ret, HQ.
    - eapply rep_replace_two with (v' := VReal r); [exact H0|done|intros; by apply plain_real|].
      intros s' Hs'. by apply wp_ret, HQ. }
  rewrite (view_int _ _ _ Vt), (view_int _ _ _ Vn), andb_comm.
  assert (Hreal : of_arith (real_op op (to_real n) (to_real t)) = Some v ->
    wp (Realify (Z.of_nat (length (n :: vs)));; Realify (Z.of_nat (length (n :: vs)) - 1);;
        t ← stk (Z.of_nat (length (n :: vs))); n ← stk (Z.of_nat (length (n :: vs)) - 1);
        mret (real_op op (mr n) (mr t)))
      (fun r s => exists t n, rep X s (t :: n :: vs) /\ of_arith r = Some v) C s).
  { intros Ha. apply wp_bind. eapply (rep_Realify _ _ _ _ []); [exact H|done|done|]. intros s1 H1. cbn [app] in H1.
    apply wp_bind. eapply (rep_Realify _ _ _ _ [_]); [exact H1|top|done|]. intros s2 H2. cbn [app] in H2.
    apply wp_bind. eapply (rep_stk _ _ _ _ []); [exact H2|top|]. intros m1 _ V1.
    apply wp_bind. eapply (rep_stk _ _ _ _ [_]); [exact H2|top|]. intros m2 _ V2.
    apply wp_ret. do 2 eexists. split; [exact H2|].
    by rewrite (view_mr _ _ _ V1 (to_real t)), (view_mr _ _ _ V2 (to_real n)). }
  apply wp_bind. destruct (v_int n) as [a|] eqn:Ea, (v_int t) as [b|] eqn:Eb; cbn [some andb].
  - apply wp_ret. eapply Hend; [exact H|]. rewrite (view_mi _ _ _ Vt b Eb), (view_mi _ _ _ Vn a Ea).
    by apply int_arith_op.
  - eapply wp_mono; [by apply Hreal, real_arith_op| |done]. intros r s' (t' & n' & H' & Hr). by eapply Hend.
  - eapply wp_mono; [by apply Hreal, real_arith_op| |done]. intros r s' (t' & n' & H' & Hr). by eapply Hend.
  - eapply wp_mono; [by apply Hreal, real_arith_op| |done]. intros r s' (t' & n' & H' & Hr). by eapply Hend.
Qed.

(** An integer that is not a copy does not own a block. *)
Lemma int_value_light s m v i : views s m (int_value v i) -> v_heavy v = false -> has MEM_Dyn m = false.
Proof.
  intros Hv Hh. unfold int_value in Hv. destruct (v_int v) as [j|] eqn:Ej.
  - apply (view_light _ _ _ Hv); [by rewrite Ej|done].
  - by apply (view_dyn _ _ _ Hv).
Qed.

Lemma int_value_int v i : to_integer v = Some i -> v_int (int_value v i) = Some i.
Proof. unfold to_integer, int_value. destruct (v_int v) as [j|] eqn:Ej; [by rewrite Ej; intros [= ->]|done]. Qed.

Lemma int_value_loose v i : v_heavy v = false -> loose (int_value v i).
Proof. intros Hh. unfold loose, int_value. destruct (v_int v) as [j|] eqn:Ej; [right; split; [by rewrite Ej|done]|by left]. Qed.

(** An integer is written over the top entry, which owns no block. *)
Lemma rep_bits X s t n vs op pc v (Q : ctl -> Vm -> Prop) C :
  rep X s (t :: n :: vs) -> v_heavy t = false -> v_heavy n = false -> room E vs -> bits_value op n t = Some v ->
  (forall s', rep X s' (v :: vs) -> Q (Go pc) s') -> wp (op_bits op pc) Q C s.
Proof.
  intros H Lt Ln Hroom Hv HQ. unfold op_bits. eapply rep_top; [exact H|].
  apply wp_bind, wp_assert; [at_top|].
  apply wp_bind. eapply (rep_stk _ _ _ _ []); [exact H|top|]. intros mt _ Vt.
  apply wp_bind. eapply (rep_stk _ _ _ _ [_]); [exact H|top|]. intros mn' _ Vn.
  rewrite (view_null _ _ _ Vt), (view_null _ _ _ Vn), orb_comm. unfold bits_value, strict in Hv.
  destruct (is_null n || is_null t) eqn:En.
  { injection Hv as <-. apply wp_bind. eapply (rep_popStack _ _ _ _ [_; _]); [exact H|done|]. intros s1 H1.
    apply wp_bind. eapply rep_push_null; [exact H1|done|]. intros s2 H2. by apply wp_ret, HQ. }
  apply orb_false_iff in En as [En Et].
  destruct (to_integer t) as [a|] eqn:Ea; [|done]. destruct (to_integer n) as [b|] eqn:Eb; [|done].
  cbn in Hv. destruct (bits_result op a b) as [c|] eqn:Ec; [|done]. injection Hv as <-.
  apply bits_result_op in Ec.
  apply wp_bind. eapply (rep_Integerify _ _ _ _ []); [exact H|done|done|done|by left; constructor|]. intros s1 H1. cbn [app] in H1.
  apply wp_bind. eapply (rep_Integerify _ _ _ _ [_]); [exact H1|top|done|done|left|].
  { by apply Forall_singleton, int_value_loose. }
  intros s2 H2. cbn [app] in H2.
  apply wp_bind. eapply (rep_stk _ _ _ _ []); [exact H2|top|]. intros m1 A1 V1.
  apply wp_bind. eapply (rep_stk _ _ _ _ [_]); [exact H2|top|]. intros m2 A2 V2.
  rewrite (view_mi _ _ _ V1 a) by by apply int_value_int. rewrite (view_mi _ _ _ V2 b) by by apply int_value_int.
  apply wp_bind, (wp_of_option _ c); [done|].
  pose proof (int_value_light _ _ _ _ V1 Lt) as D1. pose proof (int_value_light _ _ _ _ V2 Ln) as D2.
  apply wp_bind, wp_assert; [by rewrite D1, D2|].
  apply wp_bind, wp_vupd. pose proof (rep_drop _ _ _ _ _ m1 H2 eq_refl) as H3.
  replace (Z.of_nat (length (int_value n b :: vs))) with (Z.of_nat (length (n :: vs))) in H3 by done.
  specialize (H3 A1 D1).
  replace (Z.of_nat (length (n :: vs)) - 1) with (Z.of_nat (length vs)) in * by top.
  apply wp_bind. eapply rep_Release; [exact H3|exact A2|]. intros s4 H4.
  apply wp_bind. eapply H4 with (v' := VInt c); [done|intros; by apply plain_int|]. intros s5 H5.
  by apply wp_ret, HQ.
Qed.

(** The truth of an entry, as the number that the tables of the logic use. *)
Lemma rep_truth_code X s ws v vs j b (Q : Z -> Vm -> Prop) C :
  rep X s (ws ++ v :: vs) -> j = Z.of_nat (length vs) -> truth v = Some b -> Forall loose ws ->
  (forall v' s', rep X s' (ws ++ v' :: vs) ->
     (v_heavy v = false -> loose v') -> Q (match b with Some true => 0 | Some false => 1 | None => 2 end) s') ->
  wp (truth_code j) Q C s.
Proof.
  intros H -> Hb Hw HQ. unfold truth_code. apply wp_bind. eapply rep_stk; [exact H|done|]. intros m _ V.
  rewrite (view_null _ _ _ V). apply truth_integer in Hb. destruct (is_null v) eqn:En.
  { rewrite Hb in HQ. apply wp_ret, (HQ v); [done|]. intros _. left. unfold is_null in En.
    destruct (v_text v); [|done]. by rewrite orb_true_r in En. }
  destruct Hb as (i & Ei & ->).
  apply wp_bind. eapply rep_Integerify; [exact H|done|done|done|by left|]. intros s1 H1.
  apply wp_bind. eapply rep_stk; [exact H1|done|]. intros m1 _ V1.
  rewrite (view_mi _ _ _ V1 i) by by apply int_value_int.
  apply wp_ret. specialize (HQ _ _ H1). destruct (i =? 0); apply HQ;
    apply int_value_loose.
Qed.

Lemma rep_logic X s t n vs op pc a b (Q : ctl -> Vm -> Prop) C :
  rep X s (t :: n :: vs) -> v_heavy t = false -> room E vs -> truth n = Some a -> truth t = Some b ->
  op = OP_And \/ op = OP_Or ->
  (forall s', rep X s' (of_truth (match op with OP_And => k_and a b | _ => k_or a b end) :: vs) -> Q (Go pc) s') ->
  wp (op_logic op pc) Q C s.
Proof.
  intros H Lt Hroom Ha Hb Hop HQ. unfold op_logic. eapply rep_top; [exact H|].
  apply wp_bind, wp_assert; [at_top|].
  apply wp_bind. eapply (rep_truth_code _ _ []); [exact H|done|exact Hb|constructor|]. intros t' s1 H1 Ht'. cbn [app] in H1.
  apply wp_bind. eapply (rep_truth_code _ _ [_]); [exact H1|top|exact Ha|by apply Forall_singleton, Ht'|].
  intros n' s2 H2 _. cbn [app] in H2.
  apply wp_bind. eapply (rep_popStack _ _ _ _ [_; _]); [exact H2|done|]. intros s3 H3.
  assert (Hval : forall r, (forall s', rep X s' (of_truth r :: vs) -> Q (Go pc) s') ->
    forall v, v = match r with Some true => 0 | Some false => 1 | None => 2 end ->
    wp ((if v =? 2 then push_null else push_int (if v =? 0 then 1 else 0));; mret (Go pc)) Q C s3).
  { intros r Hr v ->. apply wp_bind. destruct r as [[|]|]; cbn.
    - eapply rep_push_int; [exact H3|done|]. intros s4 H4. by apply wp_ret, Hr.
    - eapply rep_push_int; [exact H3|done|]. intros s4 H4. by apply wp_ret, Hr.
    - eapply rep_push_null; [exact H3|done|]. intros s4 H4. by apply wp_ret, Hr. }
  eapply Hval; [exact HQ|]. by destruct Hop as [-> | ->], a as [[|]|], b as [[|]|].
Qed.

(** [Not], [BitNot] and [Negative] *)
Lemma rep_integer X s t vs f pc v (Q : ctl -> Vm -> Prop) C :
  rep X s (t :: vs) -> v_heavy t = false -> integer_value f t = Some v ->
  (forall s', rep X s' (v :: vs) -> Q (Go pc) s') -> wp (op_integer f pc) Q C s.
Proof.
  intros H Lt Hv HQ. unfold op_integer. eapply rep_top; [exact H|]. apply wp_bind, wp_assert; [at_top|].
  apply wp_bind. eapply (rep_stk _ _ _ _ []); [exact H|done|]. intros m _ V.
  rewrite (view_null _ _ _ V). unfold integer_value in Hv. destruct (is_null t) eqn:En.
  { injection Hv as <-. apply wp_ret, HQ. by rewrite (null_value t En Lt) in H. }
  destruct (to_integer t) as [i|] eqn:Ei; [|done]. injection Hv as <-.
  apply wp_bind. eapply (rep_Integerify _ _ _ _ []); [exact H|done|done|done|by left; constructor|]. intros s1 H1.
  apply wp_bind. eapply (rep_stk _ _ _ _ []); [exact H1|done|]. intros m1 A1 V1.
  apply wp_bind. eapply rep_Release; [exact H1|exact A1|]. intros s2 H2.
  apply wp_bind. eapply H2 with (v' := VInt (f i)); [done| |].
  - intros x Hx Hi _. rewrite (Hi i) by by apply int_value_int. by apply plain_int.
  - intros s3 H3. by apply wp_ret, HQ.
Qed.

Lemma rep_negative X s t vs pc v (Q : ctl -> Vm -> Prop) C :
  rep X s (t :: vs) -> v_heavy t = false -> negate_value t = Some v ->
  (forall s', rep X s' (v :: vs) -> Q (Go pc) s') -> wp (op_sign OP_Negative pc) Q C s.
Proof.
  intros H Lt Hv HQ. unfold op_sign. eapply rep_top; [exact H|]. apply wp_bind, wp_assert; [at_top|].
  apply wp_bind. eapply (rep_stk _ _ _ _ []); [exact H|done|]. intros m A V.
  rewrite (view_real _ _ _ V), (view_int _ _ _ V), (view_null _ _ _ V). unfold negate_value in Hv.
  assert (Hreal : forall s t m, rep X s (t :: vs) -> at_ (aStack s) (Z.of_nat (length vs)) = Some m ->
    forall r, v_real t = Some r -> v = VReal (SFopp r) ->
    wp (Release m;; stk_upd (Z.of_nat (length vs)) (fun m => set_mflags MEM_Real (set_mr (SFopp (mr m)) m)))
      (fun _ s => Q (Go pc) s) C s).
  { intros s0 t0 m0 H0 A0 r Hr ->. apply wp_bind. eapply rep_Release; [exact H0|exact A0|]. intros s1 H1.
    eapply H1 with (v' := VReal (SFopp r)); [done| |by intros; apply HQ].
    intros x Hx _ Hxr. rewrite (Hxr r Hr). by apply (plain_real E _ (set_mflags MEM_Real x)). }
  apply wp_bind. destruct (v_real t) as [r|] eqn:Er; cbn [some].
  { injection Hv as <-. eapply Hreal; [exact H|exact A|exact Er|done]. }
  destruct (v_int t) as [i|] eqn:Ei; cbn [some].
  { destruct (exactly (- i)) as [j|] eqn:Ej; [|done]. injection Hv as <-.
    apply exactly_wrap in Ej as [-> _]. apply wp_bind. eapply rep_Release; [exact H|exact A|]. intros s1 H1.
    eapply H1 with (v' := VInt (wrap32 (- i))); [done| |by intros; apply wp_ret, HQ].
    intros x Hx Hxi _. rewrite (Hxi i Ei). by apply (plain_int E _ (set_mflags MEM_Int x)). }
  destruct (is_null t) eqn:En.
  { injection Hv as <-. apply wp_ret, wp_ret, HQ. by rewrite (null_value t En Lt) in H. }
  injection Hv as <-. apply wp_bind. eapply (rep_Realify _ _ _ _ []); [exact H|done|done|]. intros s1 H1.
  apply wp_bind. eapply (rep_stk _ _ _ _ []); [exact H1|done|]. intros m1 A1 V1.
  eapply Hreal; [exact H1|exact A1|done|done].
Qed.

(** ** Jumps on values *)

(** [OP_If] and [OP_IfNot] *)
Definition jump_taken (sense : bool) (p : Z) (b : option bool) : bool :=
  match b with Some b => Bool.eqb b sense | None => negb (p =? 0) end.

Lemma rep_If X s t vs (sense : bool) o pc b (Q : ctl -> Vm -> Prop) C :
  rep X s (t :: vs) -> v_heavy t = false -> truth t = Some b ->
  (forall s', rep X s' vs -> Q (Go (if jump_taken sense (p1 o) b then p2 o - 1 else pc)) s') ->
  wp (op_If (if sense then OP_If else OP_IfNot) o pc) Q C s.
Proof.
  intros H Lt Hb HQ. unfold op_If. eapply rep_top; [exact H|]. apply wp_bind, wp_assert; [at_top|].
  apply wp_bind. eapply (rep_stk _ _ _ _ []); [exact H|done|]. intros m _ V. rewrite (view_null _ _ _ V).
  apply truth_integer in Hb. apply wp_bind.
  assert (Hend : forall s v c, rep X s (v :: vs) -> (forall m, views s m v -> has MEM_Dyn m = false) ->
    c = jump_taken sense (p1 o) b ->
    wp (m ← stk (Z.of_nat (length vs)); assert (negb (has MEM_Dyn m));;
        vupd (set_pTos (Z.of_nat (length vs) - 1));; mret (Go (if (c : bool) then p2 o - 1 else pc))) Q C s).
  { intros s0 v c H0 Hd ->. apply wp_bind. eapply (rep_stk _ _ _ _ []); [exact H0|done|]. intros m0 A0 V0.
    apply wp_bind, wp_assert; [by rewrite Hd|]. apply wp_bind, wp_vupd, wp_ret, HQ.
    eapply rep_drop; [exact H0|done|exact A0|by apply Hd]. }
  destruct (is_null t) eqn:En.
  - subst b. apply wp_ret. eapply Hend; [exact H| |done]. intros m0 V0.
    rewrite (null_value t En Lt) in V0. by apply (view_dyn _ _ _ V0).
  - destruct Hb as (i & Ei & ->). apply wp_bind. eapply (rep_Integerify _ _ _ _ []); [exact H|done|done|done|by left; constructor|]. intros s1 H1.
    apply wp_bind. eapply (rep_stk _ _ _ _ []); [exact H1|done|]. intros m1 _ V1.
    rewrite (view_mi _ _ _ V1 i) by by apply int_value_int. apply wp_ret.
    eapply Hend; [exact H1| |by destruct sense, (i =? 0)]. intros m0 V0. by eapply int_value_light.
Qed.

(** [OP_IsNull 1] and [OP_NotNull 1], which pop the value. *)
Lemma rep_null_pop X s t vs (isnull : bool) o pc (Q : ctl -> Vm -> Prop) C :
  rep X s (t :: vs) -> p1 o = 1 ->
  (forall s', rep X s' vs -> Q (Go (if Bool.eqb (is_null t) isnull then p2 o - 1 else pc)) s') ->
  wp (op_null (if isnull then OP_IsNull else OP_NotNull) o pc) Q C s.
Proof.
  intros H Hp HQ. unfold op_null. rewrite Hp. change (Z.abs 1) with 1. eapply rep_top; [exact H|].
  apply wp_bind, wp_assert; [at_top|]. apply wp_bind. change (Z.to_nat 1) with 1%nat. cbn [any_null].
  apply wp_bind. eapply (rep_stk _ _ _ _ []); [exact H|top|]. intros m _ V. rewrite (view_null _ _ _ V).
  eapply (wp_mono _ (fun b s' => b = is_null t /\ s' = s)); [by destruct (is_null t)| |intros ? Hf; exact Hf].
  intros b s' [-> ->]. apply wp_bind. eapply (rep_popStack _ _ _ _ [_]); [exact H|done|]. intros s1 H1.
  apply wp_ret. specialize (HQ s1 H1). by destruct isnull, (is_null t).
Qed.

(** [OP_NotNull -1], which leaves it. *)
Lemma rep_null_keep X s t vs o pc (Q : ctl -> Vm -> Prop) C :
  rep X s (t :: vs) -> p1 o = -1 ->
  Q (Go (if is_null t then pc else p2 o - 1)) s ->
  wp (op_null OP_NotNull o pc) Q C s.
Proof.
  intros H Hp HQ. unfold op_null. rewrite Hp. change (Z.abs (-1)) with 1. eapply rep_top; [exact H|].
  apply wp_bind, wp_assert; [at_top|]. apply wp_bind. change (Z.to_nat 1) with 1%nat. cbn [any_null].
  apply wp_bind. eapply (rep_stk _ _ _ _ []); [exact H|top|]. intros m _ V. rewrite (view_null _ _ _ V).
  eapply (wp_mono _ (fun b s' => b = is_null t /\ s' = s)); [by destruct (is_null t)| |intros ? Hf; exact Hf].
  intros b s' [-> ->]. apply wp_bind, wp_ret, wp_ret. by destruct (is_null t).
Qed.

(** ** Constants *)

Lemma rep_update X s v v' vs f (Q : unit -> Vm -> Prop) C :
  rep X s (v :: vs) ->
  (forall O h m, entry_ok O h (aMem E) (Z.of_nat (length vs)) m v ->
     entry_ok O h (aMem E) (Z.of_nat (length vs)) (f m) v' /\ owned (f m) = owned m) ->
  (forall s', rep X s' (v' :: vs) -> Q tt s') -> wp (stk_upd (Z.of_nat (length vs)) f) Q C s.
Proof.
  intros H Hf HQ.
  destruct (rep_focus E B X s [] v vs H) as (l & m & r & k & h & O & -> & Hl & _ & He & Hb & _).
  apply wp_stk_upd; [by rewrite Hl|]. apply HQ, Hb. split; [by intros O' He'; apply Hf|]. by eapply Hf.
Qed.

Lemma rep_AddImm X s i vs o pc (Q : ctl -> Vm -> Prop) C :
  rep X s (VInt i :: vs) ->
  (forall s', rep X s' (VInt (wrap32 (i + p1 o)) :: vs) -> Q (Go pc) s') ->
  wp (op_AddImm o pc) Q C s.
Proof.
  intros H HQ. unfold op_AddImm. eapply rep_top; [exact H|]. apply wp_bind, wp_assert; [at_top|].
  apply wp_bind. eapply (rep_Integerify _ _ _ _ []); [exact H|done|done|done|by left; constructor|].
  intros s1 H1. cbn in H1. apply wp_bind. eapply rep_update with (v' := VInt (wrap32 (i + p1 o))); [exact H1| |].
  - intros O h m (E1 & E2 & E3 & E4). cbn in E2, E4. rewrite (E2 i eq_refl). split; [|done].
    split_and!; try done. by intros ? [= <-].
  - intros s2 H2. by apply wp_ret, HQ.
Qed.

Lemma rep_String X s vs o pc (Q : ctl -> Vm -> Prop) C :
  rep X s vs -> room E vs ->
  match p3_text o with Some t => nulfree t | None => True end ->
  (forall s', rep X s' (match p3_text o with Some t => VText t | None => VNull end :: vs) -> Q (Go pc) s') ->
  wp (op_String o pc) Q C s.
Proof.
  intros H Hroom Hn HQ. unfold op_String. apply wp_bind. destruct (p3_text o) as [t|].
  - rewrite strlen_nulfree by done. eapply rep_push_static; [exact H|done|done|]. intros s1 H1. by apply wp_ret, HQ.
  - eapply rep_push_null; [exact H|done|]. intros s1 H1. by apply wp_ret, HQ.
Qed.

Lemma rep_Integer X s vs o pc (Q : ctl -> Vm -> Prop) C :
  rep X s vs -> room E vs ->
  match p3_text o with Some t => nulfree t | None => True end ->
  (forall s', rep X s' (mkValue (Some (p1 o)) None (p3_text o) false :: vs) -> Q (Go pc) s') ->
  wp (op_Integer o pc) Q C s.
Proof.
  intros H Hroom Hn HQ. unfold op_Integer. apply wp_bind. eapply rep_grow; [done|done|].
  intros ms x rest h O Hl Hx Hh -> Hs Hrep. apply wp_bind, wp_stk_upd; [by rewrite length_rev, Hl|].
  set (m1 := set_mi (p1 o) (set_mflags MEM_Int x)). apply wp_bind.
  destruct (p3_text o) as [t|].
  - apply wp_stk_upd; [by rewrite length_rev, Hl|]. apply wp_ret, HQ. eapply (Hrep _ _ _ _ O); [done| |].
    + split; [done|]. split; [by intros ? [= <-]|]. split; [done|]. cbn. split; [done|].
      rewrite strlen_nulfree by done. split; [done|]. exists Static. split_and!; try done. by exists [].
    + match goal with |- heap_ok _ _ _ (owned ?m ∪ _) => change (owned m) with (∅ : gset positive) end.
      by rewrite union_empty_l_L.
  - apply wp_ret, wp_ret, HQ. eapply (Hrep _ _ _ _ O); [done| |].
    + by apply plain_int.
    + match goal with |- heap_ok _ _ _ (owned ?m ∪ _) => change (owned m) with (∅ : gset positive) end.
      by rewrite union_empty_l_L.
Qed.

Lemma rep_Variable X s vs o pc v (Q : ctl -> Vm -> Prop) C :
  rep X s vs -> room E vs ->
  match at_ (azVar s) (p1 o - 1) with
  | Some (Some b) => exists t, v = VText t /\ nulfree t /\ b = t ++ [0]
  | _ => v = VNull
  end ->
  (forall s', rep X s' (v :: vs) -> Q (Go pc) s') ->
  wp (op_Variable o pc) Q C s.
Proof.
  intros H Hroom Hv HQ. unfold op_Variable. apply wp_bind, wp_vget, wp_bind.
  destruct (at_ (azVar s) (p1 o - 1)) as [[b|]|].
  - destruct Hv as (t & -> & Hn & ->). replace (Z.of_nat (length (t ++ [0]))) with (Z.of_nat (length t) + 1)
      by (rewrite length_app; simpl; lia).
    eapply rep_push_static; [exact H|done|done|]. intros s1 H1. by apply wp_ret, HQ.
  - subst v. eapply rep_push_null; [exact H|done|]. intros s1 H1. by apply wp_ret, HQ.
  - subst v. eapply rep_push_null; [exact H|done|]. intros s1 H1. by apply wp_ret, HQ.
Qed.

Lemma rep_Pop X s ws vs o pc (Q : ctl -> Vm -> Prop) C :
  rep X s (ws ++ vs) -> p1 o = Z.of_nat (length ws) ->
  (forall s', rep X s' vs -> Q (Go pc) s') -> wp (op_Pop o pc) Q C s.
Proof.
  intros H Hp HQ. unfold op_Pop. rewrite Hp. apply wp_bind, wp_assert; [apply Z.leb_le; lia|].
  apply wp_bind. eapply rep_popStack; [exact H|done|]. intros s1 H1.
  apply wp_bind. eapply rep_pTos; [exact H1|]. apply wp_bind, wp_assert; [apply Z.leb_le; lia|]. by apply wp_ret, HQ.
Qed.

(** ** Texts *)

Lemma text_value_text v t : to_text v = Some t -> v_text (text_value v t) = Some t.
Proof. unfold to_text, text_value. destruct (v_text v) eqn:Ev; [by rewrite Ev; intros [= ->]|done]. Qed.

(** A new block becomes a text on the stack. *)
Lemma rep_push_text X s vs p t (Q : unit -> Vm -> Prop) C :
  X !! p = None -> rep (<[p := map Some (t ++ [0])]> X) s vs -> room E vs -> nulfree t ->
  (forall s', rep X s' (VText t :: vs) -> Q tt s') ->
  wp (k ← grow; stk_upd k (fun m => set_mn (Z.of_nat (length t) + 1)
        (set_mflags (MEM_Str + MEM_Dyn) (set_mz (ZHeap p 0) m)))) Q C s.
Proof.
  intros HX H Hroom Hn HQ. eapply rep_push_block with (v := VText t) (t := t); [exact HX|exact H|done|done|done|by left| |exact HQ].
  intros x Hx. by split_and!.
Qed.

Lemma wp_assoc {S A D F} (m : M S A) (f : A -> M S D) (g : D -> M S F) Q C s :
  wp (mbind g (mbind f m)) Q C s -> wp (mbind (fun a => mbind g (f a)) m) Q C s.
Proof. unfold wp, mbind, M_bind. by destruct (m s). Qed.

Lemma take_text t n : n = Z.of_nat (length t) -> take (Z.to_nat n) (t ++ [0]) = t.
Proof. intros ->. by rewrite Nat2Z.id, take_app_length. Qed.

Lemma rep_concat_bytes X s r l a b vs (Q : list Z -> Vm -> Prop) C :
  rep X s (text_value r b :: text_value l a :: vs) -> to_text l = Some a -> to_text r = Some b ->
  Q (a ++ b ++ []) s ->
  wp (concat_bytes 2 (Z.of_nat (length vs)) []) Q C s.
Proof.
  intros H Ha Hb HQ. cbn [concat_bytes].
  apply wp_bind. eapply (rep_stk _ _ _ _ [_]); [exact H|done|]. intros ml _ Vl.
  destruct (view_text _ _ _ Vl a) as (_ & El & _ & Rl); [by apply text_value_text|].
  apply wp_bind, wp_assert; [by rewrite (view_str _ _ _ Vl), text_value_text with (t := a)|].
  apply wp_bind. eapply wp_equation; [apply Rl; lia|]. rewrite take_text by lia.
  apply wp_bind, wp_bind. eapply (rep_stk _ _ _ _ []); [exact H|top|]. intros mr _ Vr.
  destruct (view_text _ _ _ Vr b) as (_ & Er & _ & Rr); [by apply text_value_text|].
  apply wp_bind, wp_assert; [by rewrite (view_str _ _ _ Vr), text_value_text with (t := b)|].
  apply wp_bind. eapply wp_equation; [apply Rr; lia|]. rewrite take_text by lia.
  apply wp_bind, wp_ret, wp_ret, wp_ret. exact HQ.
Qed.

Lemma rep_Concat X s r l vs o pc v (Q : ctl -> Vm -> Prop) C :
  rep X s (r :: l :: vs) -> room E vs -> value_ok l -> value_ok r ->
  p1 o = 2 -> p2 o = 0 -> p3_text o = None -> concat_value l r = Some v ->
  (forall s', rep X s' (v :: vs) -> Q (Go pc) s') -> wp (op_Concat o pc) Q C s.
Proof.
  intros H Hroom Hol Hor Hp1 Hp2 Hp3 Hv HQ. unfold op_Concat. rewrite Hp1, Hp2, Hp3. eapply rep_top; [exact H|].
  cbn [default strlen]. replace (Z.of_nat (length (l :: vs)) + 1 - 2) with (Z.of_nat (length vs)) by top.
  apply wp_bind, wp_assert; [apply Z.leb_le; lia|]. change (Z.to_nat 2) with 2%nat. change (1 - 0) with 1. cbn [concat_size].
  unfold concat_value in Hv.
  assert (Hnull : forall s w1 w2, rep X s (w1 :: w2 :: vs) -> v = VNull ->
     wp (popStack 2;; push_null;; mret (Go pc)) Q C s).
  { intros s0 w1 w2 H0 ->. apply wp_bind. eapply (rep_popStack _ _ _ _ [_; _]); [exact H0|done|]. intros s1 H1.
    apply wp_bind. eapply rep_push_null; [exact H1|done|]. intros s2 H2. by apply wp_ret, HQ. }
  apply wp_bind, wp_bind. eapply (rep_stk _ _ _ _ [_]); [exact H|done|]. intros ml _ Vl. rewrite (view_null _ _ _ Vl).
  destruct (is_null l) eqn:El; [injection Hv as <-; apply wp_ret; by eapply Hnull|].
  destruct (to_text l) as [a|] eqn:Ea; [|done]. cbn in Hv.
  apply wp_bind. eapply (rep_Stringify _ _ _ _ [_]); [exact H|done|done|done|]. intros s1 H1. cbn [app] in H1.
  apply wp_bind. eapply (rep_stk _ _ _ _ [_]); [exact H1|done|]. intros ml1 _ Vl1.
  destruct (view_text _ _ _ Vl1 a) as (_ & El1 & _ & Rl1); [by apply text_value_text|].
  apply wp_bind. eapply (rep_stk _ _ _ _ []); [exact H1|top|]. intros mr _ Vr. rewrite (view_null _ _ _ Vr).
  destruct (is_null r) eqn:Er; [injection Hv as <-; apply wp_ret; eapply Hnull; [exact H1|done]|].
  destruct (to_text r) as [b|] eqn:Eb; [|done]. injection Hv as <-.
  apply wp_bind. eapply (rep_Stringify _ _ _ _ []); [exact H1|top|done|done|]. intros s2 H2. cbn [app] in H2.
  apply wp_bind. eapply (rep_stk _ _ _ _ []); [exact H2|top|]. intros mr1 _ Vr1.
  destruct (view_text _ _ _ Vr1 b) as (_ & Er1 & _ & Rr1); [by apply text_value_text|].
  apply wp_ret. rewrite El1, Er1.
  destruct (Z.ltb_spec (1 + (Z.of_nat (length a) + 1 - 1 + 0) + (Z.of_nat (length b) + 1 - 1 + 0)) 0); [lia|].
  replace (1 + (Z.of_nat (length a) + 1 - 1 + 0) + (Z.of_nat (length b) + 1 - 1 + 0))
    with (Z.of_nat (length (a ++ b)) + 1) by (rewrite length_app; lia).
  apply wp_bind. eapply (rep_concat_bytes _ s2 r l); [exact H2|done|done|].
  apply wp_bind. eapply rep_new_string; [exact H2|rewrite !length_app; simpl; lia|]. intros p s3 Hp H3.
  rewrite app_nil_r, app_assoc in H3 || rewrite app_nil_r in H3.
  apply wp_bind. eapply (rep_popStack _ _ _ _ [_; _]); [exact H3|done|]. intros s4 H4.
  apply wp_assoc, wp_bind. eapply rep_push_text; [exact Hp| |done| |].
  { exact H4. }
  { apply nulfree_app. split; [exact (to_text_nulfree l a Hol Ea)|exact (to_text_nulfree r b Hor Eb)]. }
  intros s5 H5. by apply wp_ret, HQ.
Qed.

(** ** Copies *)

(** An entry in the middle, for the blocks of the whole stack. *)
Lemma stack_entry F h cells us m ms ws v vs O :
  length us = length ws -> stack_ok F h cells (us ++ m :: ms) (ws ++ v :: vs) O ->
  exists O', entry_ok O' h cells (Z.of_nat (length ms)) m v /\ O' ⊆ O /\ owned m ⊆ O.
Proof.
  revert ws O. induction us as [|u us IH]; intros [|w ws] O Hl H; try done; cbn in *; inversion H; subst.
  - exists O0. set_solver.
  - destruct (IH ws O0) as (O' & ? & ? & ?); [lia|done|]. exists O'. set_solver.
Qed.

(** A copy that points to the text of the original. *)
Lemma entry_shared O' O h cells j k m v m' :
  entry_ok O' h cells j m v -> O' ⊆ O -> owned m ⊆ O -> has MEM_Short m = false ->
  length (zShort m') = 32%nat -> mi m' = mi m -> mr m' = mr m -> mn m' = mn m -> mz m' = mz m ->
  (v_text v = None -> mflags m' = mflags m) ->
  (has MEM_Static m = true -> mflags m' = mflags m) ->
  (has MEM_Dyn m || has MEM_Ephem m = true ->
     mflags m' = Z.lor (Z.land (mflags m) (Z.lnot MEM_Dyn)) MEM_Ephem) ->
  entry_ok O h cells k m' (with_heavy true v) /\ owned m' = ∅.
Proof.
  intros He HO Hown Hsh Hl Ei Er En Ez Hnone Hstat Hdyn.
  pose proof He as (E1 & E2 & E3 & E4). destruct (v_text v) as [t|] eqn:Et.
  - destruct (storage_flags _ _ _ _ _ _ _ He Et) as (x & Hs & Ht & _ & Hf & Hd & Hst & Hep & Hs').
    destruct E4 as (Hn & Hlen & _).
    assert (Hx : exists y, mflags m' = type_flags v + storage_flag y /\ storage_ok O k y (mz m') /\ y <> Dyn).
    { rewrite Hd, Hep in Hdyn. rewrite Hst in Hstat. rewrite Ez. destruct x.
      - exists Ephem. rewrite Hdyn, Hf by done. split; [|split; [|done]].
        + destruct v as [[i|] [r|] [u|] hv]; by vm_compute.
        + destruct (owned_cases _ _ _ _ _ _ He) as [[_ Hd']|(p & b & u & rest & Eo & Ep & _)]; [by rewrite Hd in Hd'|].
          rewrite Ep. cbn. set_solver.
      - exists Static. rewrite Hstat, Hf by done. split; [done|]. split; [|done]. by destruct (mz m).
      - exists Ephem. rewrite Hdyn, Hf by done. split; [|split; [|done]].
        + destruct v as [[i|] [r|] [u|] hv]; by vm_compute.
        + destruct (mz m); try done. cbn in Hs |- *. set_solver.
      - by rewrite Hs' in Hsh. }
    destruct Hx as (y & Hfy & Hsy & Hny). split.
    + split; [done|]. cbn. rewrite Ei, Er, Et. split; [done|]. split; [done|]. split; [done|].
      rewrite En. split; [done|]. exists y. split; [done|]. split; [done|]. split; [by right|].
      rewrite Ez in *. destruct (mz m); try done. destruct x; try done. by rewrite Hs' in Hsh.
    + unfold owned, has. rewrite Hfy. destruct v as [[i|] [r|] [u|] hv]; cbn in Et; try done; by destruct y.
  - rewrite Hnone in * by done. assert (Hp : entry_ok O h cells k m' (with_heavy true v)).
    { split; [done|]. cbn. rewrite Ei, Er, Et. split; [done|]. split; [done|]. by rewrite Hnone. }
    split; [exact Hp|]. by eapply owned_text.
Qed.

(** A text of its own [zShort] and the copy of it in another entry. *)
Lemma entry_short_copy O' O h cells j k m v m' own :
  entry_ok O' h cells j m v -> has MEM_Short m = true -> length own = 32%nat ->
  m' = set_mz (ZTos k 0) (set_zShort (take (Z.to_nat (mn m)) (zShort m) ++ drop (Z.to_nat (mn m)) own)
         (set_zShort own m)) ->
  0 <= mn m <= NBFS /\ entry_ok O h cells k m' (with_heavy true v) /\ owned m' = ∅.
Proof.
  intros He Hsh Hl ->. pose proof He as (E1 & E2 & E3 & E4).
  destruct (v_text v) as [t|] eqn:Et.
  2: { destruct (entry_flags _ _ _ _ _ _ He) as (_ & _ & _ & _ & A). destruct (A Et) as (_ & _ & A3 & _). congruence. }
  destruct (storage_flags _ _ _ _ _ _ _ He Et) as (x & Hs & Ht & _ & Hf & Hd & Hst & Hep & Hs').
  assert (Hx : x = Short) by (rewrite Hsh in Hs'; symmetry in Hs'; by apply bool_decide_eq_true in Hs').
  subst x. destruct (mz m) as [|c|p off|i off|i off] eqn:Ez; try done. destruct Ht as (-> & -> & rest & Er).
  destruct E4 as (Hn & Hlen & _). assert (Hlt : (length t < 32)%nat).
  { rewrite <-E1, Er, length_app. simpl. lia. }
  rewrite Hlen. split; [unfold NBFS; lia|]. split.
  - split; [|split; [done|split; [done|]]].
    + cbn. rewrite length_app, length_take, length_drop, E1, Hl. lia.
    + cbn. rewrite Et. split; [done|]. split; [done|]. exists Short. split; [done|]. split; [done|].
      split; [by right|]. split; [done|]. split; [done|].
      rewrite Er. replace (Z.to_nat (Z.of_nat (length t) + 1)) with (S (length t)) by lia.
      exists (drop (S (length t)) own). replace (t ++ 0 :: rest) with ((t ++ [0]) ++ rest) by (by rewrite <-app_assoc).
      rewrite take_app_le by (rewrite length_app; simpl; lia).
      rewrite take_ge by (rewrite length_app; simpl; lia). by rewrite <-app_assoc.
  - unfold owned. match goal with |- (if ?b then _ else _) = _ => change b with (has MEM_Dyn m) end. by rewrite Hd.
Qed.

(** A text in a new block. *)
Lemma entry_new_block O h cells k v t p m' b :
  length (zShort m') = 32%nat ->
  (forall i, v_int v = Some i -> mi m' = i) -> (forall r, v_real v = Some r -> mr m' = r) ->
  v_text v = Some t -> nulfree t -> mn m' = Z.of_nat (length t) + 1 ->
  mflags m' = type_flags v + MEM_Dyn -> mz m' = ZHeap p 0 -> p ∉ O -> h !! p = Some b ->
  b = map Some (t ++ [0]) -> (v_int v = None \/ v_heavy v = true) ->
  entry_ok O h cells k m' v /\ owned m' = {[p]}.
Proof.
  intros Hl Hi Hr Ht Hn Hlen Hf Hz Hp Hb -> Hv. split.
  - split_and!; try done. rewrite Ht. split; [done|]. split; [done|]. exists Dyn. rewrite Hz.
    split; [done|]. split; [done|]. split; [done|]. split; [done|]. eexists _, []. split; [exact Hb|]. by rewrite app_nil_r.
  - unfold owned, has. rewrite Hf, Hz. destruct v as [[i|] [r|] [u|] hv]; cbn in Ht; done.
Qed.

(** A new block while the top entry is under construction. *)
Lemma wp_alloc l k h X O ms vs n bytes (Q : option zptr -> Vm -> Prop) C :
  stack_ok (dom B) (blocks h) (aMem E) ms vs O -> heap_ok B X h O -> n = Z.of_nat (length bytes) ->
  (forall p h', p ∉ O -> X !! p = None -> blocks h' !! p = Some (map Some bytes) ->
     stack_ok (dom B) (blocks h') (aMem E) ms vs O -> heap_ok B X h' ({[p]} ∪ O) ->
     Q (Some (ZHeap p 0)) (st l k h')) ->
  wp (new_string n bytes) Q C (st l k h).
Proof.
  intros Hs Hh -> HQ. unfold new_string. apply wp_bind, wp_onheap.
  pose proof Hh as (H1 & H2 & H3 & H4 & H5).
  apply mem_wp_sqliteMallocRaw; [done|]. intros p Hp. cbn [vheap VdbeStack.st set_vheap].
  apply wp_bind, wp_onheap. cbn [vheap VdbeStack.st set_vheap].
  eapply wp_store_bytes; cbn [blocks set_blocks]; [by rewrite lookup_insert_eq|lia| |].
  { rewrite length_replicate, Nat2Z.id. lia. }
  apply wp_ret. rewrite insert_insert_eq, Nat2Z.id. cbn [Z.to_nat take app plus].
  rewrite drop_ge by (rewrite length_replicate; lia). rewrite app_nil_r.
  assert (Hp' : p ∉ dom X ∪ O) by (rewrite <-H4; by apply not_elem_of_dom).
  apply (HQ p (set_blocks (<[p := map Some bytes]> (blocks h)) h)).
  - set_solver.
  - apply not_elem_of_dom. set_solver.
  - apply lookup_insert_eq.
  - eapply stack_heap; [done|]. cbn. intros q Hq. apply lookup_insert_ne. set_solver.
  - destruct (heap_alloc B X h O p (map Some bytes) Hh) as (G1 & G2 & G3 & G4 & G5); [done|].
    split_and!; [done| |set_solver| |done].
    + etrans; [|exact G2]. apply insert_subseteq, not_elem_of_dom. set_solver.
    + rewrite G4, dom_insert_L. set_solver.
Qed.

(** [OP_Dup] after the new entry has been added. *)
Definition dup_entry (o : Op) (pc : Z) (from : Mem) (k : Z) : M Vm ctl :=
  stk_upd k (fun m => set_zShort (zShort m) from);;
  if has MEM_Str from then
    if negb (p2 o =? 0) && (has MEM_Dyn from || has MEM_Ephem from) then
      stk_upd k (fun m => set_mflags (Z.lor (Z.land (mflags m) (Z.lnot MEM_Dyn)) MEM_Ephem) m);;
      mret (Go pc)
    else if has MEM_Short from then
      assert ((0 <=? mn from) && (mn from <=? NBFS));;
      stk_upd k (fun m => set_mz (ZTos k 0)
        (set_zShort (take (Z.to_nat (mn from)) (zShort from) ++ drop (Z.to_nat (mn from)) (zShort m)) m));;
      mret (Go pc)
    else if negb (has MEM_Static from) then
      s ← z_read (mz from) (mn from);
      z ← new_string (mn from) s;
      match z with
      | None => mret no_mem
      | Some z =>
          stk_upd k (fun m => set_mz z (set_mflags
            (Z.lor (Z.land (mflags m) (Z.lnot (MEM_Static + MEM_Ephem + MEM_Short))) MEM_Dyn) m));;
          mret (Go pc)
      end
    else mret (Go pc)
  else mret (Go pc).

Lemma rep_dup_entry X us from ms x rest ws v vs o pc h O (Q : ctl -> Vm -> Prop) C :
  length us = length ws -> length (zShort x) = 32%nat ->
  stack_ok (dom B) (blocks h) (aMem E) (us ++ from :: ms) (ws ++ v :: vs) O -> heap_ok B X h O ->
  (forall m h' O', stack_ok (dom B) (blocks h') (aMem E) (us ++ from :: ms) (ws ++ v :: vs) O' ->
     entry_ok O' (blocks h') (aMem E) (Z.of_nat (length (us ++ from :: ms))) m (with_heavy true v) ->
     heap_ok B X h' (owned m ∪ O') ->
     Q (Go pc) (st (rev (us ++ from :: ms) ++ m :: rest) (Z.of_nat (length (us ++ from :: ms))) h')) ->
  wp (dup_entry o pc from (Z.of_nat (length (us ++ from :: ms)))) Q C
    (st (rev (us ++ from :: ms) ++ x :: rest) (Z.of_nat (length (us ++ from :: ms))) h).
Proof.
  intros Hl Hx Hs Hh HQ. set (k := Z.of_nat (length (us ++ from :: ms))) in *.
  destruct (stack_entry _ _ _ _ _ _ _ _ _ _ Hl Hs) as (O1 & He & HO1 & Hown).
  destruct (entry_flags _ _ _ _ _ _ He) as (_ & _ & _ & Fs & Fnone).
  set (m1 := set_zShort (zShort x) from).
  assert (Hk : k = Z.of_nat (length (rev (us ++ from :: ms)))) by (by rewrite length_rev).
  assert (Hshare : forall m', (v_text v = None \/ has MEM_Short from = false) ->
     length (zShort m') = 32%nat -> mi m' = mi from -> mr m' = mr from -> mn m' = mn from -> mz m' = mz from ->
     (v_text v = None -> mflags m' = mflags from) -> (has MEM_Static from = true -> mflags m' = mflags from) ->
     (has MEM_Dyn from || has MEM_Ephem from = true ->
        mflags m' = Z.lor (Z.land (mflags from) (Z.lnot MEM_Dyn)) MEM_Ephem) ->
     Q (Go pc) (st (rev (us ++ from :: ms) ++ m' :: rest) k h)).
  { intros m' Hor G1 G2 G3 G4 G5 G6 G7 G8.
    destruct (entry_shared O1 O (blocks h) (aMem E) (Z.of_nat (length ms)) k from v m') as [He' Ho']; try done.
    { destruct Hor as [Hnone|]; [|done]. by destruct (Fnone Hnone) as (_ & _ & ? & _). }
    eapply HQ; [exact Hs|exact He'|]. by rewrite Ho', union_empty_l_L. }
  unfold dup_entry. apply wp_bind, wp_stk_upd; [done|]. fold m1. rewrite Fs.
  destruct (v_text v) as [t|] eqn:Et; cbn [some].
  2: { apply wp_ret, Hshare; try done; [by left|..]; destruct (Fnone eq_refl) as (D1 & D2 & _ & D4);
         rewrite ?D1, ?D2, ?D4; done. }
  destruct (storage_flags _ _ _ _ _ _ _ He Et) as (y & Hsy & _ & _ & Hf & Hd & Hst & Hep & Hsh).
  destruct (negb (p2 o =? 0) && (has MEM_Dyn from || has MEM_Ephem from)) eqn:Eshare.
  { apply andb_true_iff in Eshare as [_ Eor]. apply wp_bind, wp_stk_upd; [done|]. apply wp_ret, Hshare; try done.
    - right. rewrite Hsh, Hd, Hep in *. by destruct y.
    - intros Hst'. rewrite Hst, Hd, Hep in *. by destruct y. }
  destruct (has MEM_Short from) eqn:Esh.
  { destruct (entry_short_copy O1 O (blocks h) (aMem E) (Z.of_nat (length ms)) k from v _ (zShort x) He Esh Hx eq_refl)
      as (Hmn & He' & Ho').
    apply wp_bind, wp_assert; [apply andb_true_iff; split; apply Z.leb_le; lia|].
    apply wp_bind, wp_stk_upd; [done|]. apply wp_ret. eapply HQ; [exact Hs|exact He'|].
    match goal with |- heap_ok _ _ _ (owned ?m ∪ _) => replace (owned m) with (∅ : gset positive) by (symmetry; exact Ho') end.
    by rewrite union_empty_l_L. }
  destruct (has MEM_Static from) eqn:Est; cbn [negb].
  { apply wp_ret, Hshare; try done; [by right|]. intros Eor. rewrite Hst, Hd, Hep in *. by destruct y. }
  pose proof He as (E1 & E2 & E3 & E4). rewrite Et in E4. destruct E4 as (Hn & Hlen & _).
  apply wp_bind. rewrite rev_middle. eapply wp_z_read; [|exact He|exact Et|lia|]; [by rewrite length_rev|].
  rewrite Hlen. rewrite take_ge by (rewrite length_app; simpl; lia).
  apply wp_bind. eapply wp_alloc; [exact Hs|exact Hh|rewrite length_app; simpl; lia|].
  intros p h' Hp HX Hb Hs' Hh'. rewrite <-rev_middle. apply wp_bind, wp_stk_upd; [done|]. apply wp_ret.
  destruct (entry_new_block O (blocks h') (aMem E) k (with_heavy true v) t p
    (set_mz (ZHeap p 0) (set_mflags (Z.lor (Z.land (mflags m1) (Z.lnot (MEM_Static + MEM_Ephem + MEM_Short))) MEM_Dyn) m1))
    (map Some (t ++ [0]))) as [He' Ho']; try done.
  - cbn. rewrite Hf. rewrite Hd, Hst, Hep, Hsh in *.
    destruct v as [[i|] [r|] [u|] hv]; cbn in Et; try done; destruct y; by vm_compute.
  - by right.
  - eapply HQ; [exact Hs'|exact He'|]. by rewrite Ho'.
Qed.

Lemma split_at_length {A} (l : list A) a b : length l = (a + S b)%nat ->
  exists l1 x l2, l = l1 ++ x :: l2 /\ length l1 = a /\ length l2 = b.
Proof.
  intros H. exists (take a l). destruct (drop a l) as [|x l2] eqn:Ed.
  { apply (f_equal length) in Ed. rewrite length_drop in Ed. simpl in Ed. lia. }
  exists x, l2. rewrite <-Ed, take_drop, length_take. split; [done|]. split; [lia|].
  apply (f_equal length) in Ed. rewrite length_drop in Ed. simpl in Ed. lia.
Qed.

Lemma rep_Dup X s ws v vs o pc (Q : ctl -> Vm -> Prop) C :
  rep X s (ws ++ v :: vs) -> room E (ws ++ v :: vs) -> p1 o = Z.of_nat (length ws) ->
  (forall s', rep X s' (with_heavy true v :: ws ++ v :: vs) -> Q (Go pc) s') ->
  wp (op_Dup o pc) Q C s.
Proof.
  intros H Hroom Hp HQ. unfold op_Dup. apply wp_bind, wp_vget. rewrite (rep_pos _ _ _ _ _ H), Hp.
  rewrite length_app. cbn [length].
  replace (Z.of_nat (length ws + S (length vs)) - 1 - Z.of_nat (length ws)) with (Z.of_nat (length vs)) by lia.
  apply wp_bind, wp_assert; [apply andb_true_iff; split; apply Z.leb_le; lia|].
  apply wp_bind. eapply rep_stk; [exact H|done|]. intros from A _.
  apply wp_bind. eapply rep_grow; [exact H|exact Hroom|].
  intros ms x rest h O Hl Hx Hh -> Hs Hrep. rewrite length_app in Hl. cbn [length] in Hl.
  destruct (split_at_length ms (length ws) (length vs)) as (us & m & ms' & -> & Hus & Hms'); [lia|].
  cbn [aStack VdbeStack.st set_vheap set_pTos set_aStack] in A.
  rewrite rev_middle in A. rewrite at_middle in A by (rewrite length_rev; lia). injection A as ->.
  assert (Ek : Z.of_nat (length (ws ++ v :: vs)) = Z.of_nat (length (us ++ from :: ms'))).
  { rewrite !length_app. cbn [length]. lia. }
  rewrite Ek. eapply (rep_dup_entry X us from ms' x rest ws v vs); [done|done|exact Hs|exact Hh|].
  intros m h' O' Hs' He' Hh'. rewrite <-Ek in *. apply HQ. by eapply (Hrep m _ X h' O').
Qed.

(** The two entries on top change places; the upper one has no text. *)
Lemma rep_Pull X s t v vs o pc (Q : ctl -> Vm -> Prop) C :
  rep X s (t :: v :: vs) -> v_text t = None -> p1 o = 1 ->
  (forall s', rep X s' (v :: t :: vs) -> Q (Go pc) s') ->
  wp (op_Pull o pc) Q C s.
Proof.
  intros H Ht Hp HQ. unfold op_Pull. rewrite Hp. eapply rep_top; [exact H|].
  replace (Z.of_nat (length (v :: vs)) - 1) with (Z.of_nat (length vs)) by top.
  destruct H as (ms & rest & h & O & -> & Hlen & Hs & Hh & Hr).
  inversion Hs as [|mt ms1 ? ? O1 Hs1 Het]; subst. inversion Hs1 as [|mv ms2 ? ? O2 Hs2 Hev]; subst.
  pose proof (stack_length _ _ _ _ _ _ Hs2) as Hl. cbn [rev length] in Hlen, Het |- *.
  rewrite <-!app_assoc in Hlen |- *. cbn [app] in Hlen |- *.
  pose proof (owned_text _ _ _ _ _ _ Het Ht) as Eo.
  destruct (entry_flags _ _ _ _ _ _ Het) as (_ & _ & _ & _ & Fnone). destruct (Fnone Ht) as (Fd & Fe & Fsh & Fst).
  set (k := Z.of_nat (S (length vs))). set (pt := Z.of_nat (S (S (length vs))) - 1).
  assert (Hj : Z.of_nat (length vs) = Z.of_nat (length (rev ms2))) by (by rewrite length_rev, Hl).
  assert (Hk : forall m, k = Z.of_nat (length (rev ms2 ++ [m]))) by (intros m; rewrite length_app, length_rev, Hl; simpl; lia).
  assert (Happ : forall a b, rev ms2 ++ a :: b :: rest = (rev ms2 ++ [a]) ++ b :: rest) by (intros; by rewrite <-app_assoc).
  apply wp_bind, wp_stk; [done|]. apply wp_bind. unfold Deephemeralize at 1. rewrite Happ.
  apply wp_bind, wp_stk; [apply Hk|]. rewrite Fe. apply wp_ret. rewrite <-Happ.
  apply wp_bind. change (Z.to_nat 1) with 1%nat. cbn [pull_loop]. unfold Deephemeralize.
  replace (Z.of_nat (length vs) + 1) with k by lia. rewrite Happ.
  apply wp_bind, wp_bind, wp_stk; [apply Hk|]. rewrite Fe. apply wp_ret.
  apply wp_bind, wp_stk; [apply Hk|]. rewrite Fe, Fsh. apply wp_bind, wp_assert; [done|].
  rewrite <-Happ. apply wp_bind. unfold stk_put at 1. apply wp_stk_upd; [done|]. apply wp_ret.
  assert (Hend : forall mv', entry_ok (owned mt ∪ O2) (blocks h) (aMem E) k mv' v -> owned mv' = owned mv ->
    Q (Go pc) (st (rev ms2 ++ mt :: mv' :: rest) pt h)).
  { intros mv' He' Ho'. apply HQ. exists (mv' :: mt :: ms2), rest, h, (owned mv' ∪ (owned mt ∪ O2)). split_and!; try done.
    - cbn [rev]. rewrite <-!app_assoc. done.
    - cbn [rev]. rewrite <-!app_assoc. cbn [app]. by rewrite !length_app in *.
    - constructor; [constructor; [done|]|].
      + destruct Het as (E1 & E2 & E3 & E4). rewrite Ht in E4. split_and!; try done. by rewrite Ht.
      + cbn [length]. by rewrite Hl.
    - rewrite Ho'. by replace (owned mv ∪ (owned mt ∪ O2)) with (owned mt ∪ (owned mv ∪ O2)) by set_solver. }
  pose proof Hev as (E1 & E2 & E3 & E4).
  destruct (has MEM_Short mv) eqn:Esh.
  - destruct (v_text v) as [u|] eqn:Eu.
    2: { destruct (entry_flags _ _ _ _ _ _ Hev) as (_ & _ & _ & _ & A). destruct (A Eu) as (_ & _ & ? & _). congruence. }
    destruct (storage_flags _ _ _ _ _ _ _ Hev Eu) as (y & Hsy & Hty & Hby & Hfy & Hdy & _ & _ & Hshy).
    assert (y = Short) as -> by (rewrite Esh in Hshy; symmetry in Hshy; by apply bool_decide_eq_true in Hshy).
    destruct (mz mv) as [|c|p off|i off|i off] eqn:Ez; try done. destruct Hsy as [-> ->].
    destruct (entry_flags _ _ _ _ _ _ Hev) as (_ & _ & _ & Fs & _). rewrite Eu in Fs.
    apply wp_bind, wp_bind, wp_assert; [rewrite Fs; cbn; apply Z.eqb_eq; lia|].
    rewrite Happ. apply wp_stk_upd; [apply Hk|]. rewrite <-Happ. apply wp_ret, Hend.
    + split; [done|]. split; [done|]. split; [done|]. destruct E4 as (A1 & A2 & _). rewrite Eu.
      split; [done|]. split; [done|]. exists Short. split; [done|]. split; [done|]. split; [done|]. split; [done|].
      split; [done|]. by destruct Hty as (_ & _ & ?).
    + unfold owned. rewrite Ez. by destruct (has _ _), (has _ _).
  - apply wp_bind. rewrite Happ. apply wp_stk_upd; [apply Hk|]. rewrite <-Happ. apply wp_ret, Hend; [|done].
    split; [done|]. split; [done|]. split; [done|]. destruct (v_text v) as [u|] eqn:Eu; [|done].
    destruct E4 as (A1 & A2 & y & A3 & A4 & A5 & A6). split; [done|]. split; [done|]. exists y.
    split; [done|]. rewrite Eo, union_empty_l_L. split; [|split; [done|]].
    + destruct (storage_flags _ _ _ _ _ _ _ Hev Eu) as (y' & _ & _ & _ & Hfy & _ & _ & _ & Hshy).
      rewrite Esh in Hshy. destruct y, (mz mv); try done. exfalso. unfold has in Esh. rewrite A3 in Esh.
      destruct v as [[i|] [r|] [w|] hv]; cbn in Eu; done.
    + destruct (mz mv); try done. destruct y; try done. exfalso. unfold has in Esh. rewrite A3 in Esh.
      destruct v as [[i|] [r|] [w|] hv]; cbn in Eu; done.
Qed.

End Effects.
