(* ===== verification/Expr.v ===== *)
(** Expressions, [expr.c]: the nodes of the parse tree, their types, the lookup of
    functions, and the generation of code for values and for jumps. *)
From S2P Require Import Prelude Util CFloat VdbeAux.

(** * Nodes *)

(** The operators of expression nodes: tokens of the grammar. *)
Inductive TK :=
| TK_COLUMN | TK_STRING | TK_FLOAT | TK_INTEGER | TK_NULL | TK_VARIABLE
| TK_LT | TK_LE | TK_GT | TK_GE | TK_NE | TK_EQ
| TK_AND | TK_OR | TK_PLUS | TK_STAR | TK_MINUS | TK_REM | TK_BITAND | TK_BITOR | TK_SLASH
| TK_LSHIFT | TK_RSHIFT | TK_CONCAT | TK_UMINUS | TK_BITNOT | TK_NOT | TK_ISNULL | TK_NOTNULL
| TK_AGG_FUNCTION | TK_GLOB | TK_LIKE | TK_FUNCTION | TK_SELECT | TK_IN | TK_BETWEEN
| TK_UPLUS | TK_AS | TK_CASE | TK_RAISE.

(** [token_z] is the text from the token on, of which [token_n] characters are the token;
    of a sub-select only the list of results matters here. *)
Inductive Expr := mkExpr {
  op : TK;
  dataType : Z;
  pLeft : option Expr;
  pRight : option Expr;
  pList : option (list Expr);
  token_z : list Z;
  token_n : Z;
  iTable : Z;
  iColumn : Z;
  iAgg : Z;
  pSelect : option (list Expr)
}.

Definition SQLITE_SO_TEXT : Z := 2.
Definition SQLITE_SO_NUM : Z := 4.

(** The elements with an odd index: the results of a CASE. *)
Fixpoint any_odd (f : Expr -> bool) (l : list Expr) : bool :=
  match l with
  | _ :: x :: l' => f x || any_odd f l'
  | _ => false
  end.

(** [SQLITE_SO_NUM] or [SQLITE_SO_TEXT], for the order of the values. *)
Fixpoint sqliteExprType (p : Expr) : Z :=
  match p with
  | mkExpr op dataType pLeft pRight pList _ _ _ _ _ pSelect =>
      match op with
      | TK_PLUS | TK_MINUS | TK_STAR | TK_SLASH | TK_AND | TK_OR | TK_ISNULL | TK_NOTNULL | TK_NOT
      | TK_UMINUS | TK_UPLUS | TK_BITAND | TK_BITOR | TK_BITNOT | TK_LSHIFT | TK_RSHIFT | TK_REM
      | TK_INTEGER | TK_FLOAT | TK_IN | TK_BETWEEN | TK_GLOB | TK_LIKE => SQLITE_SO_NUM
      | TK_STRING | TK_NULL | TK_CONCAT | TK_VARIABLE => SQLITE_SO_TEXT
      | TK_LT | TK_LE | TK_GT | TK_GE | TK_NE | TK_EQ =>
          if match pLeft with Some l => sqliteExprType l | None => SQLITE_SO_NUM end =? SQLITE_SO_NUM
          then SQLITE_SO_NUM
          else match pRight with Some r => sqliteExprType r | None => SQLITE_SO_NUM end
      | TK_AS => match pLeft with Some l => sqliteExprType l | None => SQLITE_SO_NUM end
      | TK_COLUMN | TK_FUNCTION | TK_AGG_FUNCTION => dataType
      | TK_SELECT =>
          match pSelect with Some (e :: _) => sqliteExprType e | _ => SQLITE_SO_NUM end
      | TK_CASE =>
          if match pRight with Some r => sqliteExprType r =? SQLITE_SO_NUM | None => false end
          then SQLITE_SO_NUM
          else if match pList with
                  | Some l => any_odd (fun e => sqliteExprType e =? SQLITE_SO_NUM) l
                  | None => false
                  end
          then SQLITE_SO_NUM else SQLITE_SO_TEXT
      | TK_RAISE => SQLITE_SO_NUM
      end
  end.

Definition expr_type (p : option Expr) : Z :=
  match p with Some e => sqliteExprType e | None => SQLITE_SO_NUM end.

(** * Functions *)

Definition callable (f : FuncDef) : bool := (if xFunc f is Some _ then true else false) || xStep f.

(** The loop over the chain: the function with [nArg] arguments, and the last one that
    takes any number. *)
Fixpoint find_args (nArg' : Z) (l : list FuncDef) (pMaybe : option FuncDef) : option FuncDef * option FuncDef :=
  match l with
  | [] => (None, pMaybe)
  | f :: l' =>
      if nArg f =? nArg' then (Some f, pMaybe)
      else find_args nArg' l' (if (nArg f <? 0) && callable f then Some f else pMaybe)
  end.

(** The hash table [db->aFunc]: a chain of functions for every name. *)
Definition func_table := list (list Z * list FuncDef).

Definition name_chain (aFunc : func_table) (zName : list Z) (nName : Z) : list FuncDef :=
  match list_find (fun e => strlen e.1 = nName /\ sqliteStrNICmp zName e.1 nName = 0) aFunc with
  | Some (_, e) => e.2
  | None => []
  end.

(** [sqliteFindFunction] without [createFlag]. *)
Definition sqliteFindFunction (aFunc : func_table) (zName : list Z) (nName nArg : Z) : option FuncDef :=
  let l := name_chain aFunc zName nName in
  if nArg <? 0 then snd <$> list_find (fun f => callable f = true) l
  else
    match find_args nArg l None with
    | (Some f, _) => if callable f then Some f else None
    | (None, pMaybe) => pMaybe
    end.

Definition getFunctionName (op : TK) (token_z : list Z) (token_n : Z) : list Z * Z :=
  match op with
  | TK_FUNCTION => (token_z, token_n)
  | TK_LIKE => (bytes_of_string "like", 4)
  | TK_GLOB => (bytes_of_string "glob", 4)
  | _ => (bytes_of_string "can't happen", 12)
  end.

(** * The generator *)

(** The parser's context: the program under construction and the errors. *)
Record Parse := mkParse { pVdbe : option program; nErr : Z; zErr : option (list Z) }.

Definition onvdbe {A} (m : M program A) : M Parse A := fun s =>
  match pVdbe s with
  | Some v =>
      match m v with
      | Done a v' => Done a (mkParse (Some v') (nErr s) (zErr s))
      | Crashed v' => Crashed (mkParse (Some v') (nErr s) (zErr s))
      | Stuck => Stuck
      end
  | None => Stuck
  end.

Definition add_op (o : opcode) (p1 p2 : Z) : M Parse Z := onvdbe (sqliteVdbeAddOp o p1 p2).
Definition current : M Parse Z := onvdbe sqliteVdbeCurrentAddr.

Definition sqliteErrorMsg (msg : list Z) : M Parse unit := fun s =>
  Done tt (mkParse (pVdbe s) (nErr s + 1) (Some msg)).

(** [if( v==0 ) return;] *)
Definition if_vdbe (m : M Parse unit) : M Parse unit := fun s =>
  if pVdbe s is Some _ then m s else Done tt s.

(** The first [switch] of [sqliteExprCode]. *)
Definition value_opcode (o : TK) : option opcode :=
  match o with
  | TK_PLUS => Some OP_Add | TK_MINUS => Some OP_Subtract | TK_STAR => Some OP_Multiply
  | TK_SLASH => Some OP_Divide | TK_AND => Some OP_And | TK_OR => Some OP_Or
  | TK_LT => Some OP_Lt | TK_LE => Some OP_Le | TK_GT => Some OP_Gt | TK_GE => Some OP_Ge
  | TK_NE => Some OP_Ne | TK_EQ => Some OP_Eq
  | TK_ISNULL => Some OP_IsNull | TK_NOTNULL => Some OP_NotNull
  | TK_NOT => Some OP_Not | TK_UMINUS => Some OP_Negative
  | TK_BITAND => Some OP_BitAnd | TK_BITOR => Some OP_BitOr | TK_BITNOT => Some OP_BitNot
  | TK_LSHIFT => Some OP_ShiftLeft | TK_RSHIFT => Some OP_ShiftRight
  | TK_REM => Some OP_Remainder
  | _ => None
  end.

(** The opcode of the jump that [sqliteExprIfFalse] wants. *)
Definition negated_opcode (o : TK) : option opcode :=
  match o with
  | TK_LT => Some OP_Ge | TK_LE => Some OP_Gt | TK_GT => Some OP_Le | TK_GE => Some OP_Lt
  | TK_NE => Some OP_Eq | TK_EQ => Some OP_Ne
  | TK_ISNULL => Some OP_NotNull | TK_NOTNULL => Some OP_IsNull
  | _ => None
  end.

(** [atoi] of the C library. *)
Definition atoi (z : list Z) : Z :=
  let z := skip_space z in
  let neg := chr z =? 45 in
  let z := skip_sign z in
  let v := dec_value (take (length z - length (skip_digits z)) z) in
  wrap32 (if neg then - v else v).

(** Values on the stack, with the names of their types when a function asks for them. *)
Fixpoint code_list (code : Expr -> M Parse unit) (includeTypes : bool) (l : list Expr) : M Parse unit :=
  match l with
  | [] => mret tt
  | e :: l' =>
      code e;;
      (if includeTypes then
         onvdbe (sqliteVdbeOp3 OP_String 0 0
           (Z_static (if sqliteExprType e =? SQLITE_SO_NUM then bytes_of_string "numeric"
                      else bytes_of_string "text")));;
         mret tt
       else mret tt);;
      code_list code includeTypes l'
  end.

Definition list_count (includeTypes : bool) (l : list Expr) : Z :=
  Z.of_nat (length l) * (if includeTypes then 2 else 1).

(** The WHEN ... THEN ... pairs of a CASE. *)
Fixpoint code_cases (code : Expr -> M Parse unit) (base : bool) (expr_end_label : Z) (l : list Expr) : M Parse unit :=
  match l with
  | w :: t :: l' =>
      code w;;
      jumpInst ←
        (if base then
           add_op OP_Dup 1 1;;
           j ← add_op OP_Ne 1 0;
           add_op OP_Pop 1 0;;
           mret j
         else add_op OP_IfNot 1 0);
      code t;;
      add_op OP_Goto 0 expr_end_label;;
      addr ← current;
      onvdbe (sqliteVdbeChangeP2 jumpInst addr);;
      code_cases code base expr_end_label l'
  | _ => mret tt
  end.

Definition SQLITE_CONSTRAINT : Z := 19.
Definition OE_Rollback : Z := 1.
Definition OE_Abort : Z := 2.
Definition OE_Fail : Z := 3.
Definition OE_Ignore : Z := 4.

Section Generator.

(** [pParse->db->file_format], [pParse->useAgg], [pParse->trigStack->ignoreJump] and
    [pParse->db->aFunc] *)
Context (file_format : Z) (useAgg : bool) (ignoreJump : option Z) (aFunc : func_table).

(** [op += 6] for the comparison of texts *)
Definition comparison (o : opcode) (e : Expr) : M Parse opcode :=
  if (4 <=? file_format) && (sqliteExprType e =? SQLITE_SO_TEXT) then
    match opcode_plus o 6 with Some o' => mret o' | None => mstuck end
  else mret o.

Definition code_number (o : TK) (z : list Z) : M Parse unit :=
  (match o with
   | TK_INTEGER =>
       if sqliteFitsIn32Bits z then add_op OP_Integer (atoi z) 0 else add_op OP_String 0 0
   | _ => add_op OP_String 0 0
   end);;
  mret tt.

(** [Found] or [SetFound]: the list of an IN is a table or a set. *)
Definition in_opcode (found : bool) (pSelect : option (list Expr)) : opcode :=
  match pSelect with
  | Some _ => if found then OP_Found else OP_NotFound
  | None => if found then OP_SetFound else OP_SetNotFound
  end.

Definition code_raise (e : Expr) : M Parse unit :=
  match ignoreJump with
  | None =>
      sqliteErrorMsg (bytes_of_string "RAISE() may only be used within a trigger-program");;
      ((fun s => Done tt (mkParse (pVdbe s) (nErr s + 1) (zErr s))) : M Parse unit)
  | Some j =>
      if (iColumn e =? OE_Rollback) || (iColumn e =? OE_Abort) || (iColumn e =? OE_Fail) then
        onvdbe (sqliteVdbeOp3 OP_Halt SQLITE_CONSTRAINT (iColumn e) (Z_copy (token_z e) (token_n e)));;
        onvdbe (sqliteVdbeDequoteP3 (-1))
      else
        assert (iColumn e =? OE_Ignore);;
        onvdbe (sqliteVdbeOp3 OP_Goto 0 j (Z_copy (bytes_of_string "(IGNORE jump)") 0));;
        mret tt
  end.

(** A function with its arguments on the stack. *)
Definition code_function (code : Expr -> M Parse unit) (name : list Z * Z) (pList : option (list Expr)) : M Parse unit :=
  let '(zId, nId) := name in
  let nExpr := Z.of_nat (length (default [] pList)) in
  match sqliteFindFunction aFunc zId nId nExpr with
  | None => mstuck
  | Some pDef =>
      match pList with Some l => code_list code (includeTypes pDef) l | None => mret tt end;;
      onvdbe (sqliteVdbeOp3 OP_Function (list_count (includeTypes pDef) (default [] pList)) 0 (Z_pointer pDef));;
      mret tt
  end.

Fixpoint sqliteExprCode (pExpr : Expr) : M Parse unit :=
  if_vdbe
  match pExpr with
  | mkExpr op dataType pLeft pRight pList token_z token_n iTable iColumn iAgg pSelect =>
      let code_left := match pLeft with Some e => sqliteExprCode e | None => mret tt end in
      let code_right := match pRight with Some e => sqliteExprCode e | None => mret tt end in
      match op with
      | TK_COLUMN =>
          (if useAgg then add_op OP_AggGet 0 iAgg
           else if 0 <=? iColumn then add_op OP_Column iTable iColumn
           else add_op OP_Recno iTable 0);;
          mret tt
      | TK_STRING | TK_FLOAT | TK_INTEGER =>
          code_number op token_z;;
          onvdbe (sqliteVdbeChangeP3 (-1) (Z_copy token_z token_n));;
          onvdbe (sqliteVdbeDequoteP3 (-1))
      | TK_NULL => add_op OP_String 0 0;; mret tt
      | TK_VARIABLE => add_op OP_Variable iTable 0;; mret tt
      | TK_LT | TK_LE | TK_GT | TK_GE | TK_NE | TK_EQ =>
          o ← match value_opcode op with Some o => comparison o pExpr | None => mstuck end;
          code_left;; code_right;; add_op o 0 0;; mret tt
      | TK_AND | TK_OR | TK_PLUS | TK_STAR | TK_MINUS | TK_REM | TK_BITAND | TK_BITOR | TK_SLASH =>
          match value_opcode op with
          | Some o => code_left;; code_right;; add_op o 0 0;; mret tt
          | None => mstuck
          end
      | TK_LSHIFT | TK_RSHIFT =>
          match value_opcode op with
          | Some o => code_right;; code_left;; add_op o 0 0;; mret tt
          | None => mstuck
          end
      | TK_CONCAT => code_left;; code_right;; add_op OP_Concat 2 0;; mret tt
      | TK_UMINUS =>
          match pLeft with
          | None => mstuck
          | Some e =>
              match Expr.op e with
              | TK_FLOAT | TK_INTEGER =>
                  let z := 45 :: take (Z.to_nat (Expr.token_n e)) (Expr.token_z e) in
                  code_number (Expr.op e) z;;
                  onvdbe (sqliteVdbeChangeP3 (-1) (Z_copy z (Expr.token_n e + 1)))
              | _ => sqliteExprCode e;; add_op OP_Negative 0 0;; mret tt
              end
          end
      | TK_BITNOT => code_left;; add_op OP_BitNot 0 0;; mret tt
      | TK_NOT => code_left;; add_op OP_Not 0 0;; mret tt
      | TK_ISNULL | TK_NOTNULL =>
          add_op OP_Integer 1 0;;
          code_left;;
          a ← current;
          add_op (match op with TK_ISNULL => OP_IsNull | _ => OP_NotNull end) 1 (a + 2);;
          add_op OP_AddImm (-1) 0;;
          mret tt
      | TK_AGG_FUNCTION => add_op OP_AggGet 0 iAgg;; mret tt
      | TK_GLOB | TK_LIKE | TK_FUNCTION =>
          code_function sqliteExprCode (getFunctionName op token_z token_n) pList
      | TK_SELECT => add_op OP_MemLoad iColumn 0;; mret tt
      | TK_IN =>
          add_op OP_Integer 1 0;;
          code_left;;
          addr ← current;
          add_op OP_NotNull (-1) (addr + 4);;
          add_op OP_Pop 2 0;;
          add_op OP_String 0 0;;
          add_op OP_Goto 0 (addr + 6);;
          add_op (in_opcode true pSelect) iTable (addr + 6);;
          add_op OP_AddImm (-1) 0;;
          mret tt
      | TK_BETWEEN =>
          match pList with
          | Some (lo :: hi :: _) =>
              code_left;;
              add_op OP_Dup 0 0;;
              sqliteExprCode lo;;
              add_op OP_Ge 0 0;;
              add_op OP_Pull 1 0;;
              sqliteExprCode hi;;
              add_op OP_Le 0 0;;
              add_op OP_And 0 0;;
              mret tt
          | _ => mstuck
          end
      | TK_UPLUS | TK_AS => code_left
      | TK_CASE =>
          match pList with
          | None => mstuck
          | Some l =>
              assert (Nat.even (length l) && negb (length l =? 0)%nat);;
              expr_end_label ← onvdbe sqliteVdbeMakeLabel;
              code_left;;
              code_cases sqliteExprCode (if pLeft is Some _ then true else false) expr_end_label l;;
              (if pLeft is Some _ then add_op OP_Pop 1 0;; mret tt else mret tt);;
              match pRight with
              | Some e => sqliteExprCode e
              | None => add_op OP_String 0 0;; mret tt
              end;;
              onvdbe (sqliteVdbeResolveLabel expr_end_label)
          end
      | TK_RAISE => code_raise pExpr
      end
  end.

(** [None]: a NULL pointer, for which there is no code. *)
Definition expr_code (e : option Expr) : M Parse unit :=
  match e with Some e => sqliteExprCode e | None => mret tt end.

Definition sqliteExprCodeExprList (l : option (list Expr)) (types : bool) : M Parse Z :=
  match l with
  | None => mret 0
  | Some l => code_list sqliteExprCode types l;; mret (list_count types l)
  end.

(** A comparison and the jump on its result. *)
Definition code_compare_jump (e : Expr) (o : opcode) (dest : Z) (jumpIfNull : bool) : M Parse unit :=
  expr_code (pLeft e);;
  expr_code (pRight e);;
  o ← comparison o e;
  add_op o (Z.b2z jumpIfNull) dest;;
  mret tt.

(** The list of an IN: what both jumps share. *)
Definition code_in_jump (e : Expr) (o : opcode) (dest : Z) (jumpIfNull : bool) : M Parse unit :=
  expr_code (pLeft e);;
  addr ← current;
  add_op OP_NotNull (-1) (addr + 3);;
  add_op OP_Pop 1 0;;
  add_op OP_Goto 0 (if jumpIfNull then dest else addr + 4);;
  add_op o (iTable e) dest;;
  mret tt.

Fixpoint sqliteExprIfTrue (pExpr : Expr) (dest : Z) (jumpIfNull : bool) : M Parse unit :=
  if_vdbe
  match pExpr with
  | mkExpr op _ pLeft pRight pList _ _ _ _ _ pSelect =>
      match op with
      | TK_AND =>
          d2 ← onvdbe sqliteVdbeMakeLabel;
          match pLeft with Some e => sqliteExprIfFalse e d2 (negb jumpIfNull) | None => mret tt end;;
          match pRight with Some e => sqliteExprIfTrue e dest jumpIfNull | None => mret tt end;;
          onvdbe (sqliteVdbeResolveLabel d2)
      | TK_OR =>
          match pLeft with Some e => sqliteExprIfTrue e dest jumpIfNull | None => mret tt end;;
          match pRight with Some e => sqliteExprIfTrue e dest jumpIfNull | None => mret tt end
      | TK_NOT => match pLeft with Some e => sqliteExprIfFalse e dest jumpIfNull | None => mret tt end
      | TK_LT | TK_LE | TK_GT | TK_GE | TK_NE | TK_EQ =>
          match value_opcode op with Some o => code_compare_jump pExpr o dest jumpIfNull | None => mstuck end
      | TK_ISNULL | TK_NOTNULL =>
          expr_code pLeft;;
          add_op (match op with TK_ISNULL => OP_IsNull | _ => OP_NotNull end) 1 dest;;
          mret tt
      | TK_IN => code_in_jump pExpr (in_opcode true pSelect) dest jumpIfNull
      | TK_BETWEEN =>
          match pList with
          | Some (lo :: hi :: _) =>
              expr_code pLeft;;
              add_op OP_Dup 0 0;;
              sqliteExprCode lo;;
              addr ← add_op OP_Lt (Z.b2z (negb jumpIfNull)) 0;
              sqliteExprCode hi;;
              add_op OP_Le (Z.b2z jumpIfNull) dest;;
              add_op OP_Integer 0 0;;
              a ← current;
              onvdbe (sqliteVdbeChangeP2 addr a);;
              add_op OP_Pop 1 0;;
              mret tt
          | _ => mstuck
          end
      | _ =>
          sqliteExprCode pExpr;;
          add_op OP_If (Z.b2z jumpIfNull) dest;;
          mret tt
      end
  end
with sqliteExprIfFalse (pExpr : Expr) (dest : Z) (jumpIfNull : bool) : M Parse unit :=
  if_vdbe
  match pExpr with
  | mkExpr op _ pLeft pRight pList _ _ _ _ _ pSelect =>
      match op with
      | TK_AND =>
          match pLeft with Some e => sqliteExprIfFalse e dest jumpIfNull | None => mret tt end;;
          match pRight with Some e => sqliteExprIfFalse e dest jumpIfNull | None => mret tt end
      | TK_OR =>
          d2 ← onvdbe sqliteVdbeMakeLabel;
          match pLeft with Some e => sqliteExprIfTrue e d2 (negb jumpIfNull) | None => mret tt end;;
          match pRight with Some e => sqliteExprIfFalse e dest jumpIfNull | None => mret tt end;;
          onvdbe (sqliteVdbeResolveLabel d2)
      | TK_NOT => match pLeft with Some e => sqliteExprIfTrue e dest jumpIfNull | None => mret tt end
      | TK_LT | TK_LE | TK_GT | TK_GE | TK_NE | TK_EQ =>
          match negated_opcode op with Some o => code_compare_jump pExpr o dest jumpIfNull | None => mstuck end
      | TK_ISNULL | TK_NOTNULL =>
          expr_code pLeft;;
          add_op (match op with TK_ISNULL => OP_NotNull | _ => OP_IsNull end) 1 dest;;
          mret tt
      | TK_IN => code_in_jump pExpr (in_opcode false pSelect) dest jumpIfNull
      | TK_BETWEEN =>
          match pList with
          | Some (lo :: hi :: _) =>
              expr_code pLeft;;
              add_op OP_Dup 0 0;;
              sqliteExprCode lo;;
              addr ← current;
              add_op OP_Ge (Z.b2z (negb jumpIfNull)) (addr + 3);;
              add_op OP_Pop 1 0;;
              add_op OP_Goto 0 dest;;
              sqliteExprCode hi;;
              add_op OP_Gt (Z.b2z jumpIfNull) dest;;
              mret tt
          | _ => mstuck
          end
      | _ =>
          sqliteExprCode pExpr;;
          add_op OP_IfNot (Z.b2z jumpIfNull) dest;;
          mret tt
      end
  end.
End Generator.
