(* ===== verification/ExprSpec.v ===== *)
(** What expressions mean, and the code they are to have. The values are those of SQL's
    logic with three truth values, without a machine; [None] stands for what the code
    leaves undefined or reports as an error. The code is a list of instructions with
    final addresses: no labels, no patches, no state. *)
From S2P Require Import Prelude Util CMem CFloat Printf VdbeAux VdbeAuxProofs VdbeMem Vdbe VdbeStack Expr.

(** Bytes that are a C string with its terminator. *)
Definition text_of_bytes (s : list Z) : option (list Z) :=
  if decide (s = cstr s ++ [0]) then Some (cstr s) else None.

(** ** Rows *)

(** The field [c] of a record. *)
Definition field_value (rec : list Z) (c : Z) : option value :=
  let n := Z.of_nat (length rec) in
  if n =? 0 then Some VNull
  else
    let w := if n <? 256 then 1 else if n <? 65536 then 2 else 3 in
    if n <? w * (c + 2) then None
    else
      let hdr := take (Z.to_nat (w * 2)) (drop (Z.to_nat (w * c)) rec) in
      let offset := idx_value w hdr in
      let end_ := idx_value w (drop (Z.to_nat w) hdr) in
      if (end_ <? offset) || (offset <? 0) || (n <? end_) then None
      else if end_ =? offset then Some VNull
      else VText <$> text_of_bytes (take (Z.to_nat (end_ - offset)) (drop (Z.to_nat offset) rec)).

Definition column_value (pC : Cursor) (c : Z) : option value :=
  match pCursor pC with
  | Some (key, data) =>
      if deferredMoveto pC then None
      else if nullRow pC then Some VNull else field_value (if keyAsData pC then key else data) c
  | None =>
      if pseudoTable pC then match pData pC with Some d => field_value d c | None => Some VNull end
      else Some VNull
  end.

Definition recno_value (pC : Cursor) : option value :=
  if deferredMoveto pC then None
  else if recnoIsValid pC then Some (VInt (lastRecno pC))
  else if pseudoTable pC then Some (VInt (keyToInt (iKey pC)))
  else if nullRow pC then Some VNull
  else
    match pCursor pC with
    | None => Some VNull
    | Some (key, _) => s ← CMem.block_bytes 4 (map Some key); Some (VInt (keyToInt (int_of_bytes s)))
    end.

(** ** Literals *)

(** P3 of a literal_value: the text without its quotes. *)
Definition literal_text (z : list Z) (n : Z) : list Z :=
  match dequoted (operand_of (Z_copy z n)) with P3_DYNAMIC s => s | _ => [] end.

Definition literal_value (op : TK) (z t : list Z) : value :=
  match op with
  | TK_INTEGER => if sqliteFitsIn32Bits z then mkValue (Some (atoi z)) None (Some t) false else VText t
  | _ => VText t
  end.

(** The text of a negative number. *)
Definition negative_text (z : list Z) (n : Z) : list Z := 45 :: take (Z.to_nat n) z.

(** ** Functions *)

Definition result_value (r : fresult) : option value :=
  match r with
  | FNull => Some VNull
  | FInt i => Some (VInt i)
  | FReal r => Some (VReal r)
  | FText s => if decide (nulfree s) then Some (VText s) else None
  | FError _ => None
  end.

Definition type_name (t : Z) : list Z :=
  if t =? SQLITE_SO_NUM then bytes_of_string "numeric" else bytes_of_string "text".

Definition argument (v : value) : option (option (list Z)) :=
  if is_null v then Some None else t ← to_text v; Some (Some t).

(** * The value of an expression *)

Section Eval.

(** The file format and the functions of the database; the variables, cursors and sets
    of the machine, and the values of its memory cells. *)
Context (file_format : Z) (aFunc : func_table) (E : Vm) (cells : Z -> option value).

(** Is the comparison one of texts? *)
Definition text_comparison (e : Expr) : bool :=
  (4 <=? file_format) && (sqliteExprType e =? SQLITE_SO_TEXT).

(** BETWEEN and CASE always compare as for numbers.  When both operands have the type
    text, their comparison is defined where this makes no difference. *)
Definition text_pair (x y : Expr) : bool :=
  (4 <=? file_format) && (sqliteExprType x =? SQLITE_SO_TEXT) && (sqliteExprType y =? SQLITE_SO_TEXT).

Definition compared_as (text : bool) (o : opcode) (l r : value) : option (option bool) :=
  c ← compared false o l r;
  if text then t ← compared true o l r; if bool_decide (t = c) then Some c else None
  else Some c.

Definition variable_value (i : Z) : option value :=
  match at_ (azVar E) (i - 1) with
  | Some (Some s) => VText <$> text_of_bytes s
  | _ => Some VNull
  end.

Definition in_set (i : Z) (t : list Z) : bool :=
  match at_ (aSet E) i with Some set => bool_decide (t ++ [0] ∈ set) | None => false end.

(** The arguments of a function, with the names of their types when it asks for them. *)
Fixpoint eval_list (eval : Expr -> option value) (types : bool) (l : list Expr) : option (list value) :=
  match l with
  | [] => Some []
  | e :: l' =>
      v ← eval e;
      r ← eval_list eval types l';
      Some (v :: (if types then [VText (type_name (sqliteExprType e))] else []) ++ r)
  end.

(** The first WHEN that is true, or equal to the base. *)
Fixpoint eval_cases (eval : Expr -> option value) (text : Expr -> bool) (base : option value) (l : list Expr)
    (otherwise : option value) : option value :=
  match l with
  | w :: t :: l' =>
      v ← eval w;
      c ← match base with Some x => compared_as (text w) OP_Eq v x | None => truth v end;
      match c with Some true => eval t | _ => eval_cases eval text base l' otherwise end
  | _ => otherwise
  end.

Definition call_value (name : list Z * Z) (args : option (list value)) (n : Z) : option value :=
  f ← sqliteFindFunction aFunc name.1 name.2 n;
  x ← xFunc f;
  l ← args;
  a ← mapM argument l;
  result_value (x a).

Definition function_types (name : list Z * Z) (n : Z) : bool :=
  match sqliteFindFunction aFunc name.1 name.2 n with Some f => includeTypes f | None => false end.

Fixpoint eval (e : Expr) : option value :=
  match e with
  | mkExpr op _ pLeft pRight pList tz tn iTable iColumn _ pSelect =>
      let left := match pLeft with Some e => eval e | None => None end in
      let right := match pRight with Some e => eval e | None => None end in
      match op with
      | TK_COLUMN =>
          pC ← at_ (aCsr E) iTable;
          if 0 <=? iColumn then column_value pC iColumn else recno_value pC
      | TK_STRING | TK_FLOAT | TK_INTEGER => Some (literal_value op tz (literal_text tz tn))
      | TK_NULL => Some VNull
      | TK_VARIABLE => variable_value iTable
      | TK_LT | TK_LE | TK_GT | TK_GE | TK_NE | TK_EQ =>
          o ← value_opcode op;
          l ← left; r ← right;
          of_truth <$> compared (text_comparison e) o l r
      | TK_AND => l ← left; r ← right; a ← truth l; b ← truth r; Some (of_truth (k_and a b))
      | TK_OR => l ← left; r ← right; a ← truth l; b ← truth r; Some (of_truth (k_or a b))
      | TK_PLUS | TK_MINUS | TK_STAR | TK_SLASH | TK_REM =>
          o ← value_opcode op; l ← left; r ← right; arith_value o l r
      | TK_BITAND | TK_BITOR => o ← value_opcode op; l ← left; r ← right; bits_value o l r
      | TK_LSHIFT | TK_RSHIFT => o ← value_opcode op; r ← right; l ← left; bits_value o r l
      | TK_CONCAT => l ← left; r ← right; concat_value l r
      | TK_UMINUS =>
          match pLeft with
          | None => None
          | Some x =>
              match Expr.op x with
              | TK_FLOAT | TK_INTEGER =>
                  let z := negative_text (token_z x) (token_n x) in
                  Some (literal_value (Expr.op x) z (cstr z))
              | _ => v ← eval x; negate_value v
              end
          end
      | TK_BITNOT => v ← left; integer_value Z.lnot v
      | TK_NOT => v ← left; a ← truth v; Some (of_truth (k_not a))
      | TK_ISNULL => v ← left; Some (of_truth (Some (is_null v)))
      | TK_NOTNULL => v ← left; Some (of_truth (Some (negb (is_null v))))
      | TK_GLOB | TK_LIKE | TK_FUNCTION =>
          let name := getFunctionName op tz tn in
          let n := Z.of_nat (length (default [] pList)) in
          call_value name
            (match pList with Some l => eval_list eval (function_types name n) l | None => Some [] end) n
      | TK_SELECT => cells iColumn
      | TK_IN =>
          v ← left;
          if is_null v then Some VNull
          else t ← to_text v; Some (of_truth (Some (in_set iTable t)))
      | TK_BETWEEN =>
          match pLeft, pList with
          | Some e, Some (lo :: hi :: _) =>
              x ← left;
              l ← eval lo; a ← compared_as (text_pair e lo) OP_Ge x l;
              h ← eval hi; b ← compared_as (text_pair e hi) OP_Le x h;
              Some (of_truth (k_and a b))
          | _, _ => None
          end
      | TK_UPLUS | TK_AS => left
      | TK_CASE =>
          match pList with
          | None => None
          | Some l =>
              let otherwise := match pRight with Some e => eval e | None => Some VNull end in
              match pLeft with
              | Some x => v ← eval x; eval_cases eval (text_pair x) (Some v) l otherwise
              | None => eval_cases eval (fun _ => false) None l otherwise
              end
          end
      | TK_AGG_FUNCTION | TK_RAISE => None
      end
  end.

End Eval.

Lemma compared_as_plain text o l r b : compared_as text o l r = Some b -> compared false o l r = Some b.
Proof.
  unfold compared_as. destruct (compared false o l r) as [c|]; [|done]. cbn.
  destruct text; [|done]. destruct (compared true o l r) as [t|]; [|done]. cbn.
  by case_bool_decide.
Qed.

(** The code that [expr.c] generates, as lists of instructions with their final addresses:
    no labels, no patches, no state. The generator emits exactly these lists. *)

(** Induction on expressions, with the operands in options and lists. *)
Definition opt_prop {A} (P : A -> Prop) (x : option A) : Prop := match x with Some a => P a | None => True end.

Lemma Expr_induction (P : Expr -> Prop) :
  (forall op dt l r li tz tn it ic ia sel,
     opt_prop P l -> opt_prop P r -> opt_prop (Forall P) li ->
     P (mkExpr op dt l r li tz tn it ic ia sel)) ->
  forall e, P e.
Proof.
  intros H. fix IH 1. intros [op dt l r li tz tn it ic ia sel]. apply H.
  - destruct l as [x|]; [apply IH|exact I].
  - destruct r as [x|]; [apply IH|exact I].
  - destruct li as [x|]; [|exact I]. cbn.
    revert x. fix IHl 1. intros [|e x]; constructor; [apply IH|apply IHl].
Qed.

Definition I (o : opcode) (p1 p2 : Z) : Op := mkOp (Some o) p1 p2 P3_NOTUSED.
Definition I3 (o : opcode) (p1 p2 : Z) (p3 : operand3) : Op := mkOp (Some o) p1 p2 p3.
Definition len (l : list Op) : Z := Z.of_nat (length l).

(** * The code *)

Section Code.
Context (file_format : Z) (aFunc : func_table).

Definition is_text_comparison (e : Expr) : bool :=
  (4 <=? file_format) && (sqliteExprType e =? SQLITE_SO_TEXT).

Definition comparison_opcode (o : opcode) (e : Expr) : opcode :=
  if is_text_comparison e then default o (opcode_plus o 6) else o.

(** A literal, with the operand P3 that it gets. *)
Definition literal_code (op : TK) (z : list Z) (p3 : operand3) : list Op :=
  match op with
  | TK_INTEGER => if sqliteFitsIn32Bits z then [I3 OP_Integer (atoi z) 0 p3] else [I3 OP_String 0 0 p3]
  | _ => [I3 OP_String 0 0 p3]
  end.

Definition type_string (e : Expr) : list Z :=
  if sqliteExprType e =? SQLITE_SO_NUM then bytes_of_string "numeric" else bytes_of_string "text".

Fixpoint list_code (code : Expr -> Z -> list Op) (types : bool) (l : list Expr) (a : Z) : list Op :=
  match l with
  | [] => []
  | e :: l' =>
      let c := code e a ++ (if types then [I3 OP_String 0 0 (P3_STATIC (type_string e))] else []) in
      c ++ list_code code types l' (a + len c)
  end.

Fixpoint cases_code (code : Expr -> Z -> list Op) (base : bool) (dest : Z) (l : list Expr) (a : Z) : list Op :=
  match l with
  | w :: t :: l' =>
      let cw := code w a in
      let a1 := a + len cw + (if base then 3 else 1) in
      let ct := code t a1 in
      let next := a1 + len ct + 1 in
      cw ++ (if base then [I OP_Dup 1 1; I OP_Ne 1 next; I OP_Pop 1 0] else [I OP_IfNot 1 next]) ++
      ct ++ [I OP_Goto 0 dest] ++ cases_code code base dest l' next
  | _ => []
  end.

(** A call, after its arguments. *)
Definition function_code (code : Expr -> Z -> list Op) (name : list Z * Z) (pList : option (list Expr)) (a : Z) : list Op :=
  match sqliteFindFunction aFunc name.1 name.2 (Z.of_nat (length (default [] pList))) with
  | Some f =>
      match pList with Some l => list_code code (includeTypes f) l a | None => [] end ++
      [I3 OP_Function (list_count (includeTypes f) (default [] pList)) 0 (P3_POINTER f)]
  | None => []
  end.

(** A CASE whose end is at [dest]. *)
Definition case_code (code : Expr -> Z -> list Op) (pLeft pRight : option Expr) (l : list Expr) (a dest : Z) : list Op :=
  let base := if pLeft is Some _ then true else false in
  let c := match pLeft with Some e => code e a | None => [] end in
  let c := c ++ cases_code code base dest l (a + len c) in
  let c := c ++ (if base then [I OP_Pop 1 0] else []) in
  c ++ match pRight with Some e => code e (a + len c) | None => [I OP_String 0 0] end.

(** Code whose end is one of its targets. *)
Definition to_end (a : Z) (c : Z -> list Op) : list Op := c (a + len (c 0)).

Fixpoint cexpr (e : Expr) (a : Z) : list Op :=
  match e with
  | mkExpr op dt pLeft pRight pList tz tn it ic ia sel =>
      let left a := match pLeft with Some e => cexpr e a | None => [] end in
      let right a := match pRight with Some e => cexpr e a | None => [] end in
      match op with
      | TK_COLUMN => if 0 <=? ic then [I OP_Column it ic] else [I OP_Recno it 0]
      | TK_STRING | TK_FLOAT | TK_INTEGER => literal_code op tz (dequoted (operand_of (Z_copy tz tn)))
      | TK_NULL => [I OP_String 0 0]
      | TK_VARIABLE => [I OP_Variable it 0]
      | TK_LT | TK_LE | TK_GT | TK_GE | TK_NE | TK_EQ =>
          let c := left a in
          c ++ right (a + len c) ++
          [I (comparison_opcode (default OP_Noop (value_opcode op)) e) 0 0]
      | TK_AND | TK_OR | TK_PLUS | TK_STAR | TK_MINUS | TK_REM | TK_BITAND | TK_BITOR | TK_SLASH =>
          let c := left a in
          c ++ right (a + len c) ++ [I (default OP_Noop (value_opcode op)) 0 0]
      | TK_LSHIFT | TK_RSHIFT =>
          let c := right a in
          c ++ left (a + len c) ++ [I (default OP_Noop (value_opcode op)) 0 0]
      | TK_CONCAT => let c := left a in c ++ right (a + len c) ++ [I OP_Concat 2 0]
      | TK_UMINUS =>
          match pLeft with
          | None => []
          | Some x =>
              match Expr.op x with
              | TK_FLOAT | TK_INTEGER =>
                  let z := 45 :: take (Z.to_nat (token_n x)) (token_z x) in
                  literal_code (Expr.op x) z (operand_of (Z_copy z (token_n x + 1)))
              | _ => cexpr x a ++ [I OP_Negative 0 0]
              end
          end
      | TK_BITNOT => left a ++ [I OP_BitNot 0 0]
      | TK_NOT => left a ++ [I OP_Not 0 0]
      | TK_ISNULL | TK_NOTNULL =>
          let c := left (a + 1) in
          [I OP_Integer 1 0] ++ c ++
          [I (match op with TK_ISNULL => OP_IsNull | _ => OP_NotNull end) 1 (a + 1 + len c + 2);
           I OP_AddImm (-1) 0]
      | TK_GLOB | TK_LIKE | TK_FUNCTION =>
          function_code cexpr (getFunctionName op tz tn) pList a
      | TK_SELECT => [I OP_MemLoad ic 0]
      | TK_IN =>
          let c := left (a + 1) in
          let b := a + 1 + len c in
          [I OP_Integer 1 0] ++ c ++
          [I OP_NotNull (-1) (b + 4); I OP_Pop 2 0; I OP_String 0 0; I OP_Goto 0 (b + 6);
           I OP_SetFound it (b + 6); I OP_AddImm (-1) 0]
      | TK_BETWEEN =>
          match pList with
          | Some (lo :: hi :: _) =>
              let c := left a ++ [I OP_Dup 0 0] in
              let c := c ++ cexpr lo (a + len c) ++ [I OP_Ge 0 0; I OP_Pull 1 0] in
              c ++ cexpr hi (a + len c) ++ [I OP_Le 0 0; I OP_And 0 0]
          | _ => []
          end
      | TK_UPLUS | TK_AS => left a
      | TK_CASE =>
          match pList with
          | None => []
          | Some l =>
              to_end a (case_code cexpr pLeft pRight l a)
          end
      | TK_AGG_FUNCTION | TK_RAISE => []
      end
  end.

Definition expr_at (e : option Expr) (a : Z) : list Op := match e with Some e => cexpr e a | None => [] end.

(** A jump on a comparison; a jump on the members of a set. *)
Definition compare_jump_code (e : Expr) (o : opcode) (dest : Z) (j : bool) (a : Z) : list Op :=
  let c := expr_at (pLeft e) a in
  c ++ expr_at (pRight e) (a + len c) ++ [I (comparison_opcode o e) (Z.b2z j) dest].

Definition in_jump_code (e : Expr) (o : opcode) (dest : Z) (j : bool) (a : Z) : list Op :=
  let c := expr_at (pLeft e) a in
  let b := a + len c in
  c ++ [I OP_NotNull (-1) (b + 3); I OP_Pop 1 0; I OP_Goto 0 (if j then dest else b + 4); I o (iTable e) dest].

(** A jump on whether a value is in a range. *)
Definition between_jump_code (sense : bool) (pLeft : option Expr) (lo hi : Expr) (dest : Z) (j : bool) (a : Z) : list Op :=
  let c := expr_at pLeft a ++ [I OP_Dup 0 0] in
  let c := c ++ cexpr lo (a + len c) in
  if sense then
    let b := a + len c + 1 in
    let ch := cexpr hi b in
    c ++ [I OP_Lt (Z.b2z (negb j)) (b + len ch + 2)] ++ ch ++
    [I OP_Le (Z.b2z j) dest; I OP_Integer 0 0; I OP_Pop 1 0]
  else
    let b := a + len c in
    c ++ [I OP_Ge (Z.b2z (negb j)) (b + 3); I OP_Pop 1 0; I OP_Goto 0 dest] ++
    cexpr hi (b + 3) ++ [I OP_Gt (Z.b2z j) dest].

(** The code of a jump: [sense] is the truth value on which it jumps. *)
Fixpoint cjump (sense : bool) (e : Expr) (dest : Z) (j : bool) (a : Z) : list Op :=
  match e with
  | mkExpr op dt pLeft pRight pList tz tn it ic ia sel =>
      let left sense dest j a := match pLeft with Some e => cjump sense e dest j a | None => [] end in
      let right dest j a := match pRight with Some e => cjump sense e dest j a | None => [] end in
      (** both operands have to have the other truth value *)
      let both :=
        let c := left sense dest j a in c ++ right dest j (a + len c) in
      (** one operand with the other truth value is enough *)
      let either :=
        to_end a (fun d2 =>
          let c := left (negb sense) d2 (negb j) a in c ++ right dest j (a + len c)) in
      match op with
      | TK_AND => if sense then either else both
      | TK_OR => if sense then both else either
      | TK_NOT => left (negb sense) dest j a
      | TK_LT | TK_LE | TK_GT | TK_GE | TK_NE | TK_EQ =>
          compare_jump_code e
            (default OP_Noop (if sense then value_opcode op else negated_opcode op)) dest j a
      | TK_ISNULL | TK_NOTNULL =>
          expr_at pLeft a ++
          [I (if Bool.eqb sense (match op with TK_ISNULL => true | _ => false end)
              then OP_IsNull else OP_NotNull) 1 dest]
      | TK_IN => in_jump_code e (if sense then OP_SetFound else OP_SetNotFound) dest j a
      | TK_BETWEEN =>
          match pList with
          | Some (lo :: hi :: _) =>
              between_jump_code sense pLeft lo hi dest j a
          | _ => []
          end
      | _ => cexpr e a ++ [I (if sense then OP_If else OP_IfNot) (Z.b2z j) dest]
      end
  end.

(** * Well-formed expressions *)

(** What the parser and the name resolution provide: the operators have their operands,
    the functions exist.  Aggregates, RAISE and IN (SELECT ...) are left out. *)
Fixpoint wf (e : Expr) : bool :=
  match e with
  | mkExpr op dt l r li tz tn it ic ia sel =>
      let wl := match l with Some e => wf e | None => false end in
      let wr := match r with Some e => wf e | None => false end in
      match op with
      | TK_COLUMN => 0 <=? it
      | TK_STRING | TK_FLOAT | TK_INTEGER | TK_NULL | TK_VARIABLE | TK_SELECT => true
      | TK_LT | TK_LE | TK_GT | TK_GE | TK_NE | TK_EQ | TK_AND | TK_OR | TK_PLUS | TK_STAR | TK_MINUS
      | TK_REM | TK_BITAND | TK_BITOR | TK_SLASH | TK_LSHIFT | TK_RSHIFT | TK_CONCAT => wl && wr
      | TK_UMINUS | TK_BITNOT | TK_NOT | TK_ISNULL | TK_NOTNULL | TK_UPLUS | TK_AS => wl
      | TK_GLOB | TK_LIKE | TK_FUNCTION =>
          let name := getFunctionName op tz tn in
          match sqliteFindFunction aFunc name.1 name.2 (Z.of_nat (length (default [] li))) with
          | Some f => if xFunc f is Some _ then true else false
          | None => false
          end && match li with Some es => forallb wf es | None => true end
      | TK_IN => wl && (if sel is None then true else false)
      | TK_BETWEEN => wl && match li with Some [lo; hi] => wf lo && wf hi | _ => false end
      | TK_CASE =>
          match l with Some e => wf e | None => true end &&
          match r with Some e => wf e | None => true end &&
          match li with
          | Some es => Nat.even (length es) && negb (length es =? 0)%nat && forallb wf es
          | None => false
          end
      | TK_AGG_FUNCTION | TK_RAISE => false
      end
  end.

End Code.
