(* ===== verification/ExprEmit.v ===== *)
(** The generator of [expr.c] emits the code of ExprSpec.v: labels, patches and the
    state of the builder leave no trace. *)
From S2P Require Import Prelude Util CMem CFloat VdbeAux VdbeAuxProofs Expr ExprSpec.

(** * Lists of instructions and labels *)

Definition nonneg (c : list Op) : Prop := Forall (fun o => 0 <= p2 o) c.

Lemma nonneg_app a b : nonneg (a ++ b) <-> nonneg a /\ nonneg b.
Proof. apply Forall_app. Qed.

Lemma nonneg_nil : nonneg [].
Proof. constructor. Qed.

Lemma nonneg_cons o c : 0 <= p2 o -> nonneg c -> nonneg (o :: c).
Proof. by constructor. Qed.

Lemma relabel_nonneg x n c : x < 0 -> nonneg c -> map (relabel x n) c = c.
Proof.
  intros Hx. induction 1 as [|o c Ho Hc IH]; [done|]. cbn. rewrite IH. f_equal.
  unfold relabel. by destruct (Z.eqb_spec (p2 o) x); [lia|].
Qed.

Lemma len_app a b : len (a ++ b) = len a + len b.
Proof. unfold len. rewrite length_app. lia. Qed.

Lemma len_cons o a : len (o :: a) = 1 + len a.
Proof. unfold len. simpl. lia. Qed.

Lemma len_nil : len [] = 0.
Proof. done. Qed.

Lemma len_pos a : 0 <= len a.
Proof. unfold len. lia. Qed.

(** Addresses are not negative. *)
Ltac len_lia :=
  repeat match goal with
    | |- context [len ?c] =>
        lazymatch goal with
        | _ : 0 <= len c |- _ => fail
        | _ => pose proof (len_pos c)
        end
    end; lia.

Ltac nonneg_tac :=
  lazymatch goal with
  | |- nonneg (_ ++ _) => apply nonneg_app; split; nonneg_tac
  | |- nonneg (_ :: _) => apply nonneg_cons; [cbn [p2 I I3]; len_lia|nonneg_tac]
  | |- nonneg [] => apply nonneg_nil
  | |- nonneg _ => match goal with H : _ |- _ => apply H; len_lia end
  end.

(** A label below the count, or an address. *)
Definition dest_ok (ls : list Z) (d : Z) : Prop := - Z.of_nat (length ls) <= d.

Lemma known_app ls ls' d : dest_ok ls d -> known (ls ++ ls') d = known ls d.
Proof.
  unfold dest_ok, known. intros H. destruct (Z.ltb_spec d 0); [|done].
  by rewrite lookup_app_l by lia.
Qed.

Lemma known_bound ls d : dest_ok ls d -> 0 <= known ls d \/ known ls d = d.
Proof.
  intros H. unfold known. destruct (Z.ltb_spec d 0); [|lia].
  destruct (ls !! _); [|by right]. destruct (Z.leb_spec 0 z); [by left|by right].
Qed.

Lemma dest_ok_app ls ls' d : dest_ok ls d -> dest_ok (ls ++ ls') d.
Proof. unfold dest_ok. rewrite length_app. lia. Qed.

(** * What a piece of the generator emits *)

(** The context holds the instructions [l]; their targets are addresses and labels that
    have been made. *)
Definition gen (s : Parse) (l : list Op) (ls : list Z) : Prop :=
  (exists v, pVdbe s = Some v /\ builds v l ls) /\ Forall (fun o => dest_ok ls (p2 o)) l.

(** [m] emits [c], whose arguments are what is known of the targets [d1] and [d2], and the
    address of the code. *)
Definition emits (d1 d2 : Z) (m : M Parse unit) (c : Z -> Z -> Z -> list Op) : Prop :=
  forall s l ls (Q : unit -> Parse -> Prop) C,
    gen s l ls -> dest_ok ls d1 -> dest_ok ls d2 ->
    (forall s' ls', gen s' (l ++ c (known ls d1) (known ls d2) (len l)) (ls ++ ls') -> Q tt s') ->
    wp m Q C s.

Lemma wp_onvdbe {A} (m : M program A) s v (Q : A -> Parse -> Prop) C :
  pVdbe s = Some v ->
  wp m (fun a v' => Q a (mkParse (Some v') (nErr s) (zErr s))) (fun v' => C (mkParse (Some v') (nErr s) (zErr s))) v ->
  wp (onvdbe m) Q C s.
Proof. intros E. unfold wp, onvdbe. rewrite E. by destruct (m v). Qed.

Lemma gen_add_op o v1 v2 s l ls (Q : Z -> Parse -> Prop) C :
  gen s l ls -> dest_ok ls v2 ->
  (forall s', gen s' (l ++ [I o v1 (known ls v2)]) ls -> Q (len l) s') -> wp (add_op o v1 v2) Q C s.
Proof.
  intros ((v & Ev & Hb) & Hl) Hd H. unfold add_op. eapply wp_onvdbe; [done|].
  eapply wp_AddOp; [exact Hb|]. intros p' Hp'. apply H. split; [by eexists|].
  apply Forall_app. split; [done|]. apply Forall_singleton. cbn.
  destruct (known_bound ls v2 Hd) as [?| ->]; [unfold dest_ok; lia|done].
Qed.

Lemma gen_current s l ls (Q : Z -> Parse -> Prop) C : gen s l ls -> Q (len l) s -> wp current Q C s.
Proof.
  intros ((v & Ev & Hb) & Hl) H. unfold current. eapply wp_onvdbe; [done|].
  pose proof Hb as (Hm & _ & Hn & _). unfold sqliteVdbeCurrentAddr.
  apply wp_bind, wp_initial; [done|]. apply wp_bind, wp_state, wp_ret. rewrite Hn.
  destruct s as [pv n z]. cbn in *. subst pv. exact H.
Qed.

Lemma gen_ChangeP2 i a o s l ls (Q : unit -> Parse -> Prop) C :
  gen s l ls -> l !! i = Some o -> 0 <= a ->
  (forall s', gen s' (<[i := set_p2 a o]> l) ls -> Q tt s') ->
  wp (onvdbe (sqliteVdbeChangeP2 (Z.of_nat i) a)) Q C s.
Proof.
  intros ((v & Ev & Hb) & Hl) Hi Ha H. eapply wp_onvdbe; [done|].
  eapply wp_ChangeP2; [exact Hb|done|done|]. intros p' Hp'. apply H. split; [by eexists|].
  apply Forall_insert; [done|]. cbn. unfold dest_ok. lia.
Qed.

(** P3 of the last instruction. *)
Lemma gen_ChangeP3 z o s l ls (Q : unit -> Parse -> Prop) C :
  gen s (l ++ [o]) ls -> (forall s', gen s' (l ++ [set_p3 (operand_of z) o]) ls -> Q tt s') ->
  wp (onvdbe (sqliteVdbeChangeP3 (-1) z)) Q C s.
Proof.
  intros ((v & Ev & Hb) & Hl) H. eapply wp_onvdbe; [done|].
  eapply wp_ChangeP3_last; [exact Hb|]. intros p' Hp'. apply H. split; [by eexists|].
  apply Forall_app in Hl as [Hl Ho]. apply Forall_app. split; [done|].
  rewrite Forall_singleton in Ho. apply Forall_singleton. destruct o. exact Ho.
Qed.

Lemma gen_DequoteP3 o s l ls (Q : unit -> Parse -> Prop) C :
  gen s (l ++ [o]) ls -> (forall s', gen s' (l ++ [set_p3 (dequoted (p3 o)) o]) ls -> Q tt s') ->
  wp (onvdbe (sqliteVdbeDequoteP3 (-1))) Q C s.
Proof.
  intros ((v & Ev & Hb) & Hl) H. eapply wp_onvdbe; [done|].
  eapply wp_DequoteP3_last; [exact Hb|]. intros p' Hp'. apply H. split; [by eexists|].
  apply Forall_app in Hl as [Hl Ho]. apply Forall_app. split; [done|].
  rewrite Forall_singleton in Ho. apply Forall_singleton. destruct o. exact Ho.
Qed.

Lemma gen_Op3 o v1 v2 z s l ls (Q : Z -> Parse -> Prop) C :
  gen s l ls -> 0 <= v2 ->
  (forall s', gen s' (l ++ [I3 o v1 v2 (operand_of z)]) ls -> Q (len l) s') ->
  wp (onvdbe (sqliteVdbeOp3 o v1 v2 z)) Q C s.
Proof.
  intros ((v & Ev & Hb) & Hl) Hv H. eapply wp_onvdbe; [done|]. unfold sqliteVdbeOp3. apply wp_bind.
  eapply wp_AddOp; [exact Hb|]. intros p1 Hp1. apply wp_bind. rewrite known_nonneg in Hp1 by done.
  eapply wp_ChangeP3; [exact Hp1|by apply list_lookup_middle|].
  intros p' Hp'. apply wp_ret, H. rewrite insert_app_r_alt, Nat.sub_diag in Hp' by done.
  split; [by eexists|]. apply Forall_app. split; [done|]. apply Forall_singleton. cbn. unfold dest_ok. lia.
Qed.

(** ** Sequences *)

Lemma emits_ext d1 d2 m c c' :
  (forall y z a, 0 <= a -> c y z a = c' y z a) -> emits d1 d2 m c -> emits d1 d2 m c'.
Proof.
  intros E H s l ls Q C Hg H1 H2 HQ. eapply H; [done..|]. intros s' ls' Hg'. apply (HQ _ ls').
  by rewrite <-E by (unfold len; lia).
Qed.

Lemma emits_swap d1 d2 m c : emits d1 d2 m c -> emits d2 d1 m (fun y z a => c z y a).
Proof. intros H s l ls Q C Hg H1 H2 HQ. by eapply H. Qed.

Lemma emits_nothing d1 d2 : emits d1 d2 (mret tt) (fun _ _ _ => []).
Proof. intros s l ls Q C Hg H1 H2 HQ. apply wp_ret, (HQ _ []). by rewrite !app_nil_r. Qed.

Lemma emits_seq d1 d2 m m' c c' :
  emits d1 d2 m c -> emits d1 d2 m' c' ->
  emits d1 d2 (m;; m') (fun y z a => let k := c y z a in k ++ c' y z (a + len k)).
Proof.
  intros H H' s l ls Q C Hg H1 H2 HQ. apply wp_bind. eapply H; [done..|]. intros s1 ls1 Hg1.
  eapply H'; [exact Hg1|by apply dest_ok_app..|]. intros s2 ls2 Hg2. apply (HQ _ (ls1 ++ ls2)).
  rewrite !known_app in Hg2 by done. rewrite len_app, <-!app_assoc in Hg2. exact Hg2.
Qed.

(** An instruction whose target is an address, and one that jumps to [d1]. *)
Lemma emits_op d1 d2 o v1 v2 m c :
  0 <= v2 -> emits d1 d2 m c ->
  emits d1 d2 (add_op o v1 v2;; m) (fun y z a => I o v1 v2 :: c y z (a + 1)).
Proof.
  intros Hv H s l ls Q C Hg H1 H2 HQ. apply wp_bind. eapply gen_add_op; [done|unfold dest_ok; lia|].
  intros s1 Hg1. rewrite known_nonneg in Hg1 by done. eapply H; [exact Hg1|done..|].
  intros s2 ls2 Hg2. apply (HQ _ ls2). rewrite len_app, <-app_assoc in Hg2. exact Hg2.
Qed.

Lemma emits_jump d1 d2 o v1 m c :
  emits d1 d2 m c -> emits d1 d2 (add_op o v1 d1;; m) (fun y z a => I o v1 y :: c y z (a + 1)).
Proof.
  intros H s l ls Q C Hg H1 H2 HQ. apply wp_bind. eapply gen_add_op; [done..|].
  intros s1 Hg1. eapply H; [exact Hg1|done..|].
  intros s2 ls2 Hg2. apply (HQ _ ls2). rewrite len_app, <-app_assoc in Hg2. exact Hg2.
Qed.

Lemma emits_current d1 d2 (f : Z -> M Parse unit) c :
  (forall x, 0 <= x -> emits d1 d2 (f x) (c x)) ->
  emits d1 d2 (a ← current; f a) (fun y z a => c a y z a).
Proof.
  intros H s l ls Q C Hg H1 H2 HQ. apply wp_bind. eapply gen_current; [done|].
  eapply (H (len l) (len_pos l)); done.
Qed.

Lemma emits_if_vdbe d1 d2 m c : emits d1 d2 m c -> emits d1 d2 (if_vdbe m) c.
Proof.
  intros H s l ls Q C Hg H1 H2 HQ. pose proof Hg as ((v & Ev & _) & _).
  unfold wp, if_vdbe. rewrite Ev. by eapply H.
Qed.

(** A label that is resolved at the end of the code that uses it. *)
Lemma emits_label d1 d2 (f : Z -> M Parse unit) (c : Z -> Z -> Z -> list Op) :
  (forall x, emits x d2 (f x) c) ->
  (forall x n y a, x < 0 -> 0 <= n -> y <> x -> 0 <= a -> map (relabel x n) (c x y a) = c n y a) ->
  (forall x y a, c x y a <> []) ->
  emits d1 d2 (x ← onvdbe sqliteVdbeMakeLabel; f x;; onvdbe (sqliteVdbeResolveLabel x))
    (fun _ z a => to_end a (fun t => c t z a)).
Proof.
  intros Hf Hrel Hne s l ls Q C ((v & Ev & Hb) & Hl) H1 H2 HQ. apply wp_bind. eapply wp_onvdbe; [done|].
  eapply wp_MakeLabel; [exact Hb|]. intros v1 Hb1. set (x := -1 - Z.of_nat (length ls)).
  assert (Hx : known (ls ++ [-1]) x = x).
  { unfold known. destruct (Z.ltb_spec x 0); [|lia]. rewrite lookup_app_r by (unfold x; lia).
    by replace (Z.to_nat (-1 - x) - length ls)%nat with O by (unfold x; lia). }
  apply wp_bind. eapply (Hf x _ l (ls ++ [-1])).
  - split; [by eexists|]. eapply Forall_impl; [exact Hl|]. intros o Ho. by apply dest_ok_app.
  - unfold dest_ok, x. rewrite length_app. simpl. lia.
  - by apply dest_ok_app.
  - intros s2 ls2 ((v2 & Ev2 & Hb2) & Hl2). eapply wp_onvdbe; [done|].
    rewrite Hx, known_app in Hb2, Hl2 by done. set (y := known ls d2) in *. set (a := len l) in *.
    eapply wp_ResolveLabel; [exact Hb2| | |].
    + rewrite <-app_assoc. rewrite lookup_app_r by lia. by rewrite Nat.sub_diag.
    + intros E. apply app_eq_nil in E as [_ E]. by apply Hne in E.
    + intros v3 Hb3. fold x in Hb3. fold (len (l ++ c x y a)) in Hb3. set (n := len (l ++ c x y a)) in *.
      assert (Hyx : y <> x).
      { destruct (known_bound ls d2 H2); unfold y, x, dest_ok in *; lia. }
      assert (Hn : 0 <= n) by apply len_pos.
      rewrite map_app, Hrel in Hb3; [|unfold x; lia|done|done|apply len_pos].
      replace (map (relabel x n) l) with l in Hb3.
      * rewrite <-app_assoc in Hb3. rewrite insert_app_r_alt, Nat.sub_diag in Hb3 by lia. cbn in Hb3.
        assert (Elen : forall t, 0 <= t -> len (c t y a) = len (c x y a)).
        { intros t Ht. rewrite <-(Hrel x t y a); [|unfold x; lia|done|done|apply len_pos].
          unfold len. by rewrite length_map. }
        assert (En : a + len (c 0 y a) = n) by (rewrite Elen by done; unfold n; rewrite len_app; done).
        apply (HQ _ (n :: ls2)). unfold to_end. fold y a. rewrite En. split; [by eexists|].
        apply Forall_app. apply Forall_app in Hl2 as [_ Hl2]. split.
        -- eapply Forall_impl; [exact Hl|]. intros o Ho. by apply dest_ok_app.
        -- rewrite <-(Hrel x n y a); [|unfold x; lia|done|done|apply len_pos]. apply Forall_map.
           eapply Forall_impl; [exact Hl2|]. intros o Ho. unfold relabel, dest_ok in *.
           rewrite !length_app in *. cbn [length] in *. destruct (_ =? _); cbn [p2 set_p2]; lia.
      * symmetry. generalize n. intros m. clear -Hl. induction Hl as [|o l Ho Hl IH]; [done|]. cbn. rewrite IH. f_equal.
        unfold relabel, dest_ok in *. by destruct (Z.eqb_spec (p2 o) x); [unfold x in *; lia|].
Qed.

(** Reassociated sequences of calls. *)
Ltac monad_eq :=
  intros ?s; cbv [mbind M_bind mret M_ret]; repeat (case_match; simplify_eq; try done); try congruence.

(** Two ways to write a piece of code and its addresses. *)
Ltac one_address :=
  repeat match goal with
    | |- context [ExprSpec.cexpr ?f ?t ?e ?x] =>
        match goal with
        | |- context [ExprSpec.cexpr f t e ?y] =>
            assert_fails (constr_eq x y);
            replace (ExprSpec.cexpr f t e x) with (ExprSpec.cexpr f t e y) by (f_equal; lia)
        end
    end.

Ltac code_eq :=
  intros; cbn -[len Z.add]; rewrite <-?app_assoc; cbn -[len Z.add];
  rewrite ?len_app, ?len_cons, ?len_nil; one_address;
  rewrite ?len_app, ?len_cons, ?len_nil;
  repeat first [reflexivity | lia | f_equal].

(** ** Calls that leave an operand P3, and patches *)

Lemma emits_eq d1 d2 m m' c : (forall s, m s = m' s) -> emits d1 d2 m' c -> emits d1 d2 m c.
Proof. intros E H s l ls Q C Hg H1 H2 HQ. unfold wp. rewrite E. by eapply H. Qed.

Lemma M_assoc {S A B D} (m : M S A) (f : A -> M S B) (g : B -> M S D) s :
  mbind g (mbind f m) s = mbind (fun a => mbind g (f a)) m s.
Proof. unfold mbind, M_bind. by destruct (m s). Qed.

Lemma emits_assoc {A B} d1 d2 (m : M Parse A) (f : A -> M Parse B) (g : B -> M Parse unit) c :
  emits d1 d2 (mbind (fun a => mbind g (f a)) m) c -> emits d1 d2 (mbind g (mbind f m)) c.
Proof. apply emits_eq. intros s. apply M_assoc. Qed.

Lemma emits_op3 d1 d2 o v1 v2 z m c :
  0 <= v2 -> emits d1 d2 m c ->
  emits d1 d2 (onvdbe (sqliteVdbeOp3 o v1 v2 z);; m) (fun y x a => I3 o v1 v2 (operand_of z) :: c y x (a + 1)).
Proof.
  intros Hv H s l ls Q C Hg H1 H2 HQ. apply wp_bind. eapply gen_Op3; [done..|].
  intros s1 Hg1. eapply H; [exact Hg1|done..|].
  intros s2 ls2 Hg2. apply (HQ _ ls2). rewrite len_app, <-app_assoc in Hg2. exact Hg2.
Qed.

(** A jump to the end of the code [m] that follows it. *)
Lemma emits_forward d1 d2 o v1 m c m' c' :
  emits d1 d2 m c -> emits d1 d2 m' c' ->
  emits d1 d2 (j ← add_op o v1 0; m;; a ← current; onvdbe (sqliteVdbeChangeP2 j a);; m')
    (fun y z a => let k := c y z (a + 1) in
       (I o v1 (a + 1 + len k) :: k) ++ c' y z (a + 1 + len k)).
Proof.
  intros Hm Hm' s l ls Q C Hg H1 H2 HQ. apply wp_bind.
  eapply gen_add_op; [done|unfold dest_ok; lia|]. rewrite known_nonneg by done. intros s1 Hg1.
  assert (E1 : len (l ++ [I o v1 0]) = len l + 1) by (rewrite len_app; done).
  apply wp_bind. eapply Hm; [exact Hg1|done..|]. intros s2 ls2. rewrite E1.
  remember (c (known ls d1) (known ls d2) (len l + 1)) as k eqn:Ek. intros Hg2.
  apply wp_bind. eapply gen_current; [exact Hg2|]. apply wp_bind.
  eapply (gen_ChangeP2 (length l)); [exact Hg2| |apply len_pos|].
  { rewrite <-app_assoc. by apply list_lookup_middle. }
  rewrite len_app, E1. intros s3 Hg3.
  rewrite <-app_assoc, insert_app_r_alt, Nat.sub_diag in Hg3 by done. cbn in Hg3.
  eapply Hm'; [exact Hg3|by apply dest_ok_app..|]. intros s4 ls4 Hg4.
  apply (HQ _ (ls2 ++ ls4)). cbn beta zeta. rewrite !known_app in Hg4 by done.
  rewrite len_app, len_cons, <-!app_assoc in Hg4. cbn in Hg4 |- *.
  by replace (len l + (1 + len k)) with (len l + 1 + len k) in Hg4 by lia.
Qed.

(** A literal. *)
Lemma emits_number d1 d2 op z (m : M Parse unit) c :
  (forall s l ls o (Q : unit -> Parse -> Prop) C, gen s (l ++ [o]) ls ->
     (forall s', gen s' (l ++ [set_p3 (c (p3 o)) o]) ls -> Q tt s') -> wp m Q C s) ->
  emits d1 d2 (code_number op z;; m) (fun _ _ _ => literal_code op z (c P3_NOTUSED)).
Proof.
  intros Hm s l ls Q C Hg H1 H2 HQ. apply wp_bind. unfold code_number, literal_code in *.
  assert (Hone : forall o v, (forall s', gen s' (l ++ [I3 o v 0 (c P3_NOTUSED)]) ls -> Q tt s') ->
    wp (add_op o v 0) (fun _ => wp (mret tt) (fun _ => wp m Q C) C) C s).
  { intros o v Hq. eapply gen_add_op; [done|unfold dest_ok; lia|]. intros s1 Hg1.
    apply wp_ret. eapply Hm; [exact Hg1|]. done. }
  destruct op; try (apply wp_bind, Hone; intros s' Hs'; apply (HQ _ []); by rewrite app_nil_r).
  destruct (sqliteFitsIn32Bits z); apply wp_bind, Hone; intros s' Hs'; apply (HQ _ []); by rewrite app_nil_r.
Qed.

Lemma emits_literal d1 d2 op z p :
  emits d1 d2 (code_number op z;; onvdbe (sqliteVdbeChangeP3 (-1) p))
    (fun _ _ _ => literal_code op z (operand_of p)).
Proof. eapply (emits_number _ _ _ _ _ (fun _ => operand_of p)). intros. by eapply gen_ChangeP3. Qed.

Lemma emits_quoted_literal d1 d2 op z p :
  emits d1 d2 (code_number op z;; onvdbe (sqliteVdbeChangeP3 (-1) p);; onvdbe (sqliteVdbeDequoteP3 (-1)))
    (fun _ _ _ => literal_code op z (dequoted (operand_of p))).
Proof.
  eapply (emits_number _ _ _ _ _ (fun _ => dequoted (operand_of p))). intros s l ls o Q C Hg H.
  apply wp_bind. eapply gen_ChangeP3; [exact Hg|]. intros s' Hs'. eapply gen_DequoteP3; [exact Hs'|].
  destruct o. exact H.
Qed.

(** * The code and its targets *)

Section Code.
Context (file_format : Z) (aFunc : func_table).
Abbreviation cexpr := (cexpr file_format aFunc).
Abbreviation cjump := (cjump file_format aFunc).

Definition nonneg_code (code : Expr -> Z -> list Op) (e : Expr) : Prop := forall a, 0 <= a -> nonneg (code e a).

Lemma list_code_nonneg code types l a :
  Forall (nonneg_code code) l -> 0 <= a -> nonneg (list_code code types l a).
Proof.
  intros H. revert a. induction H as [|e l He Hl IH]; intros a Ha; [constructor|]. cbn.
  apply nonneg_app. split; [|apply IH; unfold len; lia]. apply nonneg_app. split; [by apply He|].
  destruct types; [|constructor]. by apply Forall_singleton.
Qed.

Lemma pairs_ind {A} (P : list A -> Prop) :
  P [] -> (forall x, P [x]) -> (forall x y l, P l -> P (x :: y :: l)) -> forall l, P l.
Proof. intros H0 H1 H2. fix IH 1. intros [|x [|y l]]; [done|done|]. apply H2, IH. Qed.

(** A jump to [d] becomes one to [retarget x n d]. *)
Definition retarget (x n d : Z) : Z := if d =? x then n else d.

Lemma retarget_nonneg x n d : x < 0 -> 0 <= d -> retarget x n d = d.
Proof. intros. unfold retarget. by destruct (Z.eqb_spec d x); [lia|]. Qed.

Lemma relabel_I x n o v d : relabel x n (I o v d) = I o v (retarget x n d).
Proof. unfold relabel, retarget. cbn. by destruct (d =? x). Qed.

Lemma cases_code_nonneg code base d l : forall a,
  Forall (nonneg_code code) l -> 0 <= a -> 0 <= d -> nonneg (cases_code code base d l a).
Proof.
  induction l as [|x|w t l IH] using pairs_ind; intros a Hc Ha Hd; [constructor..|]. cbn.
  apply Forall_cons_1 in Hc as [Hw Hc]. apply Forall_cons_1 in Hc as [Ht Hc].
  assert (0 <= (if base then 3 else 1)) by (destruct base; lia).
  pose proof (len_pos (code w a)). pose proof (len_pos (code t (a + len (code w a) + (if base then 3 else 1)))).
  apply nonneg_app. split; [by apply Hw|]. apply nonneg_app. split.
  { destruct base; repeat constructor; cbn; lia. }
  apply nonneg_app. split; [apply Ht; lia|]. constructor; [done|]. apply IH; [done|lia|done].
Qed.

Lemma cases_code_relabel code base d x n l : forall a,
  Forall (nonneg_code code) l -> 0 <= a -> x < 0 ->
  map (relabel x n) (cases_code code base d l a) = cases_code code base (retarget x n d) l a.
Proof.
  induction l as [|y|w t l IH] using pairs_ind; intros a Hc Ha Hx; [done..|]. cbn.
  apply Forall_cons_1 in Hc as [Hw Hc]. apply Forall_cons_1 in Hc as [Ht Hc].
  assert (0 <= (if base then 3 else 1)) by (destruct base; lia).
  pose proof (len_pos (code w a)). pose proof (len_pos (code t (a + len (code w a) + (if base then 3 else 1)))).
  rewrite !map_app, relabel_nonneg; [|done|by apply Hw]. f_equal.
  f_equal. { destruct base; cbn; by rewrite !relabel_I, !retarget_nonneg by lia. }
  rewrite relabel_nonneg; [|done|apply Ht; lia]. f_equal. cbn. rewrite relabel_I. f_equal.
  apply IH; [done|lia|done].
Qed.

Definition opt_nonneg (code : Expr -> Z -> list Op) (e : option Expr) : Prop :=
  forall a, 0 <= a -> nonneg (match e with Some e => code e a | None => [] end).

Lemma case_code_nonneg code l r es a d :
  opt_nonneg code l -> opt_nonneg code r -> Forall (nonneg_code code) es -> 0 <= a -> 0 <= d ->
  nonneg (case_code code l r es a d).
Proof.
  intros HL HR Hes Ha Hd. unfold case_code. cbv zeta.
  assert (forall b a, 0 <= a -> nonneg (cases_code code b d es a)) by (intros; by apply cases_code_nonneg).
  assert (nonneg (if if l is Some _ then true else false then [I OP_Pop 1 0] else []))
    by (destruct l; nonneg_tac).
  repeat (apply nonneg_app; split); try nonneg_tac.
  destruct r as [e|]; [|nonneg_tac]. apply (HR _). len_lia.
Qed.

Lemma cases_code_len code base d d' l : forall a,
  len (cases_code code base d l a) = len (cases_code code base d' l a).
Proof.
  induction l as [|y|w t l IH] using pairs_ind; intros a; [done..|]. cbn.
  by rewrite !len_app, !len_cons, (IH (_ + 1)).
Qed.

Lemma case_code_relabel code l r es a d x n :
  opt_nonneg code l -> opt_nonneg code r -> Forall (nonneg_code code) es -> 0 <= a -> x < 0 ->
  map (relabel x n) (case_code code l r es a d) = case_code code l r es a (retarget x n d).
Proof.
  intros HL HR Hes Ha Hx. unfold case_code. cbv zeta. rewrite !map_app.
  rewrite cases_code_relabel; [|done|len_lia|done]. rewrite relabel_nonneg; [|done|by apply HL].
  rewrite <-!app_assoc. f_equal. f_equal. rewrite !len_app, (cases_code_len _ _ d (retarget x n d)).
  f_equal; apply relabel_nonneg; try done.
  - destruct l; nonneg_tac.
  - destruct r as [e|]; [|nonneg_tac]. apply (HR _). len_lia.
Qed.

Lemma case_code_nonempty code l r es a d : es <> [] -> Nat.even (length es) = true -> case_code code l r es a d <> [].
Proof.
  destruct es as [|w [|t es]]; [done..|]. intros _ _. unfold case_code. cbv zeta. cbn.
  intros E. do 2 apply app_eq_nil in E as [E _].
  apply app_eq_nil in E as [_ E]. repeat (apply app_eq_nil in E as [? E]). done.
Qed.

Lemma function_nonneg name li a :
  opt_prop (Forall (nonneg_code cexpr)) li -> 0 <= a ->
  nonneg (function_code aFunc cexpr name li a).
Proof.
  intros H Ha. unfold function_code. destruct (sqliteFindFunction _ _ _ _); [|nonneg_tac].
  apply nonneg_app. split; [|nonneg_tac]. destruct li; [by apply list_code_nonneg|nonneg_tac].
Qed.

Lemma cexpr_nonneg e : forall a, 0 <= a -> nonneg (cexpr e a).
Proof.
  induction e as [op dt l r li tz tn it ic ia sel IHl IHr IHli] using Expr_induction. intros a Ha.
  assert (HL : forall a, 0 <= a -> nonneg (match l with Some e => cexpr e a | None => [] end)).
  { intros b Hb. destruct l; [by apply IHl|constructor]. }
  assert (HR : forall a, 0 <= a -> nonneg (match r with Some e => cexpr e a | None => [] end)).
  { intros b Hb. destruct r; [by apply IHr|constructor]. }
  assert (Hlit : forall o z p, nonneg (literal_code o z p)).
  { intros o z p. unfold literal_code. repeat case_match; by repeat constructor. }
  destruct op; cbn [ExprSpec.cexpr]; cbv zeta; try solve [apply Hlit | nonneg_tac].
  - destruct (_ <=? _) eqn:E; nonneg_tac.
  - destruct l as [x|]; [|nonneg_tac]. specialize (HL a Ha). cbn in HL.
    destruct (op x); try apply Hlit; nonneg_tac.
  - by apply function_nonneg.
  - by apply function_nonneg.
  - by apply function_nonneg.
  - destruct li as [[|lo [|hi li]]|]; try nonneg_tac. cbn in IHli.
    apply Forall_cons_1 in IHli as [Hlo Hli]. apply Forall_cons_1 in Hli as [Hhi _]. nonneg_tac.
  - destruct li as [es|]; [|nonneg_tac]. unfold to_end. apply case_code_nonneg; [done..|len_lia].
Qed.

Lemma expr_at_nonneg e a : 0 <= a -> nonneg (expr_at file_format aFunc e a).
Proof. intros Ha. destruct e; [by apply cexpr_nonneg|constructor]. Qed.

(** Where a jump goes shows in its target only. *)
Definition relabels (c : Z -> Z -> list Op) : Prop :=
  forall x n d a, x < 0 -> 0 <= a -> map (relabel x n) (c d a) = c (retarget x n d) a.

Lemma relabels_len c d d' a : relabels c -> 0 <= a -> len (c d a) = len (c d' a).
Proof.
  intros H Ha. set (x := Z.min (-1) (Z.min d d' - 1)).
  assert (E : forall d, x < d -> len (c d a) = len (c x a)).
  { intros e He. pose proof (H x e x a) as Hx. unfold retarget in Hx. rewrite Z.eqb_refl in Hx.
    rewrite <-Hx by lia. unfold len. by rewrite length_map. }
  by rewrite (E d), (E d') by lia.
Qed.

(** A jump to the end of the code. *)
Lemma relabels_to_end (c1 c2 : Z -> Z -> list Op) d :
  relabels c1 -> relabels c2 ->
  forall x n a, x < 0 -> 0 <= a ->
    let code d a := to_end a (fun d2 => let c := c1 d2 a in c ++ c2 d (a + len c)) in
    map (relabel x n) (code d a) = code (retarget x n d) a.
Proof.
  intros H1 H2 x n a Hx Ha. cbv zeta. unfold to_end.
  rewrite map_app, H1, H2 by len_lia. rewrite !len_app.
  rewrite (relabels_len c2 d (retarget x n d) (a + len (c1 0 a)) H2) by len_lia.
  by rewrite retarget_nonneg by len_lia.
Qed.

Ltac relabel_tac :=
  rewrite ?map_app; cbn [map]; rewrite ?relabel_I;
  rewrite ?relabel_nonneg by (try done; first [apply expr_at_nonneg | apply cexpr_nonneg]; len_lia);
  rewrite ?retarget_nonneg by len_lia; try done.

Lemma compare_jump_relabels e o j : relabels (fun d a => compare_jump_code file_format aFunc e o d j a).
Proof. intros x n d a Hx Ha. unfold compare_jump_code. cbv zeta. relabel_tac. Qed.

Lemma in_jump_relabels e o j : relabels (fun d a => in_jump_code file_format aFunc e o d j a).
Proof. intros x n d a Hx Ha. unfold in_jump_code. cbv zeta. relabel_tac. destruct j; relabel_tac. Qed.

Lemma between_jump_relabels l lo hi (s j : bool) :
  relabels (fun d a => between_jump_code file_format aFunc s l lo hi d j a).
Proof.
  intros x n d a Hx Ha. unfold between_jump_code. cbv zeta. destruct s; relabel_tac.
Qed.

Lemma cjump_relabels e : forall s j, relabels (fun d a => cjump s e d j a).
Proof.
  induction e as [op dt l r li tz tn it ic ia sel IHl IHr _] using Expr_induction. intros s j.
  assert (HL : forall s j, relabels (fun d a => match l with Some e => cjump s e d j a | None => [] end)).
  { intros s' j'. destruct l; [by apply IHl|done]. }
  assert (HR : forall s j, relabels (fun d a => match r with Some e => cjump s e d j a | None => [] end)).
  { intros s' j'. destruct r; [by apply IHr|done]. }
  assert (Hboth : forall s' s'' j' j'', relabels (fun d a =>
    let c := match l with Some e => cjump s' e d j' a | None => [] end in
    c ++ match r with Some e => cjump s'' e d j'' (a + len c) | None => [] end)).
  { intros s1 s2 j1 j2 x n d a Hx Ha. cbv zeta. rewrite map_app.
    rewrite (HL s1 j1 x n d a Hx Ha), (HR s2 j2 x n d) by len_lia.
    by rewrite (relabels_len _ d (retarget x n d) a (HL s1 j1) Ha). }
  assert (Hone : forall o k, relabels (fun d a => cexpr (mkExpr op dt l r li tz tn it ic ia sel) a ++ [I o k d])).
  { intros o k x n d a Hx Ha. relabel_tac. }
  intros x n d a Hx Ha. destruct op; cbn [ExprSpec.cjump]; try (by apply compare_jump_relabels);
    try (by apply (Hone _ _ x n d a)).
  - destruct s; [exact (relabels_to_end _ _ d (HL _ _) (HR _ _) x n a Hx Ha)|by apply Hboth].
  - destruct s; [by apply Hboth|exact (relabels_to_end _ _ d (HL _ _) (HR _ _) x n a Hx Ha)].
  - by apply HL.
  - by relabel_tac.
  - by relabel_tac.
  - by apply in_jump_relabels.
  - destruct li as [[|lo [|hi li]]|]; try done. by apply between_jump_relabels.
Qed.

Lemma cjump_nonempty e : forall s d j a, wf aFunc e = true -> cjump s e d j a <> [].
Proof.
  induction e as [op dt l r li tz tn it ic ia sel IHl IHr _] using Expr_induction.
  intros s d j a Hwf.
  assert (Hlast : forall (c : list Op) o, c ++ [o] <> []) by (by intros [|] ?).
  assert (HL : forall s d j a, match l with Some e => wf aFunc e | None => false end = true ->
    match l with Some e => cjump s e d j a | None => [] end <> []).
  { intros s' d' j' a' H. destruct l; [by apply IHl|done]. }
  destruct op; cbn [ExprSpec.cjump]; try apply Hlast; cbn in Hwf; try (apply andb_true_iff in Hwf as [Hl Hr]);
    unfold compare_jump_code, in_jump_code, between_jump_code, to_end; cbv zeta.
  1-6: intros E; apply app_eq_nil in E as [_ E]; by apply app_eq_nil in E as [_ E].
  - destruct s; intros E; apply app_eq_nil in E as [E _]; by apply HL in E.
  - destruct s; intros E; apply app_eq_nil in E as [E _]; by apply HL in E.
  - by apply HL.
  - intros E. by apply app_eq_nil in E as [_ E].
  - destruct li as [[|lo [|hi [|x li]]]|]; try done.
    destruct s; intros E; apply app_eq_nil in E as [E _]; apply app_eq_nil in E as [E _];
      by apply app_eq_nil in E as [_ E].
Qed.

(** * The generator *)

Context (ignoreJump : option Z).
Abbreviation code := (sqliteExprCode file_format false ignoreJump aFunc).
Abbreviation if_true := (sqliteExprIfTrue file_format false ignoreJump aFunc).
Abbreviation if_false := (sqliteExprIfFalse file_format false ignoreJump aFunc).

Definition emits_code (e : Expr) : Prop := forall d1 d2, emits d1 d2 (code e) (fun _ _ a => cexpr e a).

Lemma emits_list types l d1 d2 : Forall emits_code l ->
  emits d1 d2 (code_list code types l) (fun _ _ a => list_code cexpr types l a).
Proof.
  induction 1 as [|e l He Hl IH]; [apply emits_nothing|].
  eapply emits_ext; [|apply emits_seq; [apply He|apply emits_seq; [|exact IH]]].
  2: { instantiate (1 := fun _ _ _ => if types then [I3 OP_String 0 0 (P3_STATIC (type_string e))] else []).
       destruct types; [|apply emits_nothing]. unfold type_string.
       eapply emits_ext; [|apply emits_op3; [done|apply emits_nothing]]. intros y z a Ha. cbn.
       by destruct (_ =? _). }
  intros y z a Ha. cbn. rewrite <-app_assoc, len_app. by rewrite Z.add_assoc.
Qed.

Lemma emits_function name li d1 d2 :
  opt_prop (Forall emits_code) li ->
  (if sqliteFindFunction aFunc name.1 name.2 (Z.of_nat (length (default [] li))) is Some _ then true else false) = true ->
  emits d1 d2 (code_function aFunc code name li) (fun _ _ a => function_code aFunc cexpr name li a).
Proof.
  intros Hli Hf. unfold code_function, function_code. destruct name as [zId nId]. cbn in Hf |- *.
  destruct (sqliteFindFunction _ _ _ _) as [f|]; [|done].
  eapply emits_ext; [|apply emits_seq; [|apply emits_op3; [done|apply emits_nothing]]].
  2: { instantiate (1 := fun _ _ a => match li with Some l => list_code cexpr (includeTypes f) l a | None => [] end).
       destruct li; [by apply emits_list|apply emits_nothing]. }
  done.
Qed.

Definition opt_emits (e : option Expr) : Prop :=
  forall d1 d2, emits d1 d2 (expr_code file_format false ignoreJump aFunc e) (fun _ _ a => expr_at file_format aFunc e a).

Lemma emits_cases base x d2 l : Forall emits_code l -> Nat.even (length l) = true ->
  emits x d2 (code_cases code base x l) (fun y _ a => cases_code cexpr base y l a).
Proof.
  induction l as [|y|w t l IH] using pairs_ind; intros Hl Hev; [apply emits_nothing|done|].
  apply Forall_cons_1 in Hl as [Hw Hl]. apply Forall_cons_1 in Hl as [Ht Hl]. specialize (IH Hl Hev).
  cbn [code_cases cases_code]. destruct base.
  - eapply emits_ext; [|apply emits_seq; [apply Hw|]].
    2: { apply emits_assoc, emits_op; [done|].
         apply emits_eq with (m' := j ← add_op OP_Ne 1 0;
           (add_op OP_Pop 1 0;; code t;; add_op OP_Goto 0 x;; mret tt);;
           a ← current; onvdbe (sqliteVdbeChangeP2 j a);; code_cases code true x l).
         { monad_eq. }
         apply emits_forward; [|exact IH]. apply emits_op; [done|]. apply emits_seq; [apply Ht|].
         apply emits_jump, emits_nothing. }
    code_eq.
  - eapply emits_ext; [|apply emits_seq; [apply Hw|]].
    2: { apply emits_eq with (m' := j ← add_op OP_IfNot 1 0;
           (code t;; add_op OP_Goto 0 x;; mret tt);;
           a ← current; onvdbe (sqliteVdbeChangeP2 j a);; code_cases code false x l).
         { monad_eq. }
         apply emits_forward; [|exact IH]. apply emits_seq; [apply Ht|]. apply emits_jump, emits_nothing. }
    code_eq.
Qed.

Lemma emits_opt e d1 d2 : opt_prop emits_code e ->
  emits d1 d2 (match e with Some e => code e | None => mret tt end)
    (fun _ _ a => match e with Some e => cexpr e a | None => [] end).
Proof. intros H. destruct e; [apply H|apply emits_nothing]. Qed.

Lemma emits_assert d1 d2 b m c : b = true -> emits d1 d2 m c -> emits d1 d2 (assert b;; m) c.
Proof. intros -> H. eapply emits_eq; [|exact H]. done. Qed.

Lemma emits_case l r es d1 d2 :
  opt_prop emits_code l -> opt_prop emits_code r -> Forall emits_code es ->
  Nat.even (length es) = true -> es <> [] ->
  emits d1 d2
    (x ← onvdbe sqliteVdbeMakeLabel;
     match l with Some e => code e | None => mret tt end;;
     code_cases code (if l is Some _ then true else false) x es;;
     (if l is Some _ then add_op OP_Pop 1 0;; mret tt else mret tt);;
     match r with Some e => code e | None => add_op OP_String 0 0;; mret tt end;;
     onvdbe (sqliteVdbeResolveLabel x))
    (fun _ _ a => to_end a (case_code cexpr l r es a)).
Proof.
  intros Hl Hr Hes Hev Hne.
  assert (Hn : Forall (nonneg_code cexpr) es) by (apply Forall_forall; intros e _ a; apply cexpr_nonneg).
  assert (Ho : forall e, opt_nonneg cexpr e) by (intros [e|] a Ha; [by apply cexpr_nonneg|constructor]).
  set (f x := match l with Some e => code e | None => mret tt end;;
     code_cases code (if l is Some _ then true else false) x es;;
     (if l is Some _ then add_op OP_Pop 1 0;; mret tt else mret tt);;
     match r with Some e => code e | None => add_op OP_String 0 0;; mret tt end).
  apply emits_eq with (m' := x ← onvdbe sqliteVdbeMakeLabel; f x;; onvdbe (sqliteVdbeResolveLabel x)).
  { unfold f. monad_eq. }
  apply (emits_label _ _ f (fun x _ a => case_code cexpr l r es a x)).
  - intros x. unfold f. eapply emits_ext.
    2: { apply emits_seq; [by apply emits_opt|]. apply emits_seq; [by apply emits_cases|].
         apply emits_seq.
         - instantiate (1 := fun _ _ _ => if if l is Some _ then true else false then [I OP_Pop 1 0] else []).
           destruct l; [|apply emits_nothing]. eapply emits_ext; [|apply emits_op; [done|apply emits_nothing]]. done.
         - instantiate (1 := fun _ _ a => match r with Some e => cexpr e a | None => [I OP_String 0 0] end).
           destruct r; [apply Hr|]. eapply emits_ext; [|apply emits_op; [done|apply emits_nothing]]. done. }
    intros y z a Ha. unfold case_code. cbv zeta. destruct r; code_eq.
  - intros x n y a Hx Hn0 _ Ha. rewrite case_code_relabel by done. unfold retarget. by rewrite Z.eqb_refl.
  - intros x y a. by apply case_code_nonempty.
Qed.

(** The comparison of a pair of operands. *)
Lemma wp_comparison o e s (Q : opcode -> Parse -> Prop) C :
  (if opcode_plus o 6 is Some _ then true else false) = true ->
  Q (comparison_opcode file_format o e) s -> wp (comparison file_format o e) Q C s.
Proof.
  unfold comparison, comparison_opcode, is_text_comparison. destruct (_ && _); [|done].
  destruct (opcode_plus o 6); done.
Qed.

Lemma emits_comparison o e (f : opcode -> M Parse unit) d1 d2 c :
  (if opcode_plus o 6 is Some _ then true else false) = true ->
  emits d1 d2 (f (comparison_opcode file_format o e)) c ->
  emits d1 d2 (o ← comparison file_format o e; f o) c.
Proof.
  intros Ho Hf s l ls Q C Hg H1 H2 HQ. apply wp_bind, wp_comparison; [done|]. by eapply Hf.
Qed.

Ltac emit :=
  lazymatch goal with
  | |- emits _ _ (mret tt) _ => apply emits_nothing
  | |- emits _ _ (mbind _ (add_op _ _ _)) _ => first [apply emits_op; [lia|]; emit | apply emits_jump; emit]
  | |- emits _ _ (mbind _ current) _ => apply emits_current; intros ? ?; emit
  | |- emits _ _ (mbind _ (onvdbe (sqliteVdbeOp3 _ _ _ _))) _ => apply emits_op3; [lia|emit]
  | |- emits _ _ (mbind _ (comparison _ _ _)) _ => apply emits_comparison; [done|emit]
  | |- emits _ _ (mbind _ _) _ => apply emits_seq; emit
  | |- _ => match goal with H : _ |- _ => apply H end
  end.

Ltac by_emit := eapply emits_ext; [|emit]; [try code_eq].

Lemma args_emit li :
  opt_prop (Forall (fun e => wf aFunc e = true -> emits_code e)) li ->
  match li with Some es => forallb (wf aFunc) es | None => true end = true ->
  opt_prop (Forall emits_code) li.
Proof.
  destruct li as [es|]; [|done]. cbn. induction 1 as [|e es He Hes IH]; [done|]. cbn.
  intros H. apply andb_true_iff in H as [H1 H2]. constructor; [by apply He|by apply IH].
Qed.

Lemma sqliteExprCode_emits e : wf aFunc e = true -> emits_code e.
Proof.
  induction e as [op dt l r li tz tn it ic ia sel IHl IHr IHli] using Expr_induction.
  intros Hwf d1 d2. apply emits_if_vdbe.
  destruct op; cbn [ExprSpec.cexpr] in Hwf |- *; cbv zeta; cbn in Hwf; try done.
  all: try (apply andb_true_iff in Hwf as [Hl Hr];
     destruct l as [l|]; [|done]; destruct r as [r|]; [|done];
     specialize (IHl Hl); specialize (IHr Hr); cbn [value_opcode]).
  all: try solve [by_emit]; try apply emits_quoted_literal.
  - destruct (0 <=? ic) eqn:E; apply Z.leb_le in E || clear E; by_emit.
  - destruct l as [l|]; [|done]. specialize (IHl Hwf). destruct (Expr.op l); try apply emits_literal; by_emit.
  - destruct l as [l|]; [|done]. specialize (IHl Hwf). by_emit.
  - destruct l as [l|]; [|done]. specialize (IHl Hwf). by_emit.
  - destruct l as [l|]; [|done]. specialize (IHl Hwf). by_emit.
  - destruct l as [l|]; [|done]. specialize (IHl Hwf). by_emit.
  - apply andb_true_iff in Hwf as [Hf Hli].  apply (emits_function (_, _)); [by apply args_emit|].
    by destruct (sqliteFindFunction _ _ _ _) as [f|].
  - apply andb_true_iff in Hwf as [Hf Hli].  apply (emits_function (_, _)); [by apply args_emit|].
    by destruct (sqliteFindFunction _ _ _ _) as [f|].
  - apply andb_true_iff in Hwf as [Hf Hli].  apply (emits_function (_, _)); [by apply args_emit|].
    by destruct (sqliteFindFunction _ _ _ _) as [f|].
  - apply andb_true_iff in Hwf as [Hl Hs]. destruct l as [l|]; [|done]. specialize (IHl Hl).
    destruct sel; [done|]. by_emit.
  - apply andb_true_iff in Hwf as [Hl Hs]. destruct l as [l|]; [|done]. specialize (IHl Hl).
    destruct li as [[|lo [|hi [|x li]]]|]; try done. apply andb_true_iff in Hs as [Hlo Hhi].
    apply Forall_cons_1 in IHli as [IHlo IHhi]. apply Forall_cons_1 in IHhi as [IHhi _].
    specialize (IHlo Hlo). specialize (IHhi Hhi). by_emit.
  - destruct l as [l|]; [|done]. specialize (IHl Hwf). by_emit.
  - destruct l as [l|]; [|done]. specialize (IHl Hwf). by_emit.
  - destruct li as [es|]; [|by rewrite andb_false_r in Hwf].
    apply andb_true_iff in Hwf as [Hlr Hes]. apply andb_true_iff in Hlr as [Hl Hr].
    apply andb_true_iff in Hes as [Hlen Hes]. apply emits_assert; [done|].
    apply andb_true_iff in Hlen as [Hev Hne].
    apply emits_case; [..|done|by intros ->].
    + destruct l; [by apply IHl|done].
    + destruct r; [by apply IHr|done].
    + by apply (args_emit (Some es)).
Qed.

(** ** Jumps *)

Definition jump_code (s : bool) (e : Expr) (d : Z) (j : bool) : M Parse unit :=
  if s then if_true e d j else if_false e d j.

Definition emits_jumps (e : Expr) : Prop :=
  forall s d1 d2 j, emits d1 d2 (jump_code s e d1 j) (fun y _ a => cjump s e y j a).

Lemma opt_emits_wf e : match e with Some e => wf aFunc e | None => false end = true -> opt_emits e.
Proof. destruct e as [e|]; [|done]. intros H d1 d2. by apply sqliteExprCode_emits. Qed.

Lemma emits_compare_jump e o d1 d2 j :
  opt_emits (pLeft e) -> opt_emits (pRight e) ->
  (if opcode_plus o 6 is Some _ then true else false) = true ->
  emits d1 d2 (code_compare_jump file_format false ignoreJump aFunc e o d1 j)
    (fun y _ a => compare_jump_code file_format aFunc e o y j a).
Proof.
  intros HL HR Ho. unfold code_compare_jump, compare_jump_code. by_emit.
Qed.

Lemma emits_in_jump e o d1 d2 j :
  opt_emits (pLeft e) ->
  emits d1 d2 (code_in_jump file_format false ignoreJump aFunc e o d1 j)
    (fun y _ a => in_jump_code file_format aFunc e o y j a).
Proof. intros HL. unfold code_in_jump, in_jump_code. destruct j; by_emit. Qed.

Lemma emits_between_true l lo hi d1 d2 j :
  opt_emits l -> emits_code lo -> emits_code hi ->
  emits d1 d2
    (expr_code file_format false ignoreJump aFunc l;;
     add_op OP_Dup 0 0;;
     code lo;;
     addr ← add_op OP_Lt (Z.b2z (negb j)) 0;
     code hi;;
     add_op OP_Le (Z.b2z j) d1;;
     add_op OP_Integer 0 0;;
     a ← current;
     onvdbe (sqliteVdbeChangeP2 addr a);;
     add_op OP_Pop 1 0;;
     mret tt)
    (fun y _ a => between_jump_code file_format aFunc true l lo hi y j a).
Proof.
  intros Hl Hlo Hhi. unfold between_jump_code. cbv zeta.
  eapply emits_ext.
  2: { apply emits_seq; [apply Hl|]. apply emits_op; [done|]. apply emits_seq; [apply Hlo|].
       apply emits_eq with (m' := addr ← add_op OP_Lt (Z.b2z (negb j)) 0;
         (code hi;; add_op OP_Le (Z.b2z j) d1;; add_op OP_Integer 0 0;; mret tt);;
         a ← current; onvdbe (sqliteVdbeChangeP2 addr a);; add_op OP_Pop 1 0;; mret tt).
       { monad_eq. }
       apply emits_forward; emit. }
  code_eq.
Qed.

Lemma emits_between_false l lo hi d1 d2 j :
  opt_emits l -> emits_code lo -> emits_code hi ->
  emits d1 d2
    (expr_code file_format false ignoreJump aFunc l;;
     add_op OP_Dup 0 0;;
     code lo;;
     addr ← current;
     add_op OP_Ge (Z.b2z (negb j)) (addr + 3);;
     add_op OP_Pop 1 0;;
     add_op OP_Goto 0 d1;;
     code hi;;
     add_op OP_Gt (Z.b2z j) d1;;
     mret tt)
    (fun y _ a => between_jump_code file_format aFunc false l lo hi y j a).
Proof. intros Hl Hlo Hhi. unfold between_jump_code. cbv zeta. by_emit. Qed.

(** A condition on both operands, the first of which jumps to the end. *)
Lemma emits_either l r s d1 d2 j :
  wf aFunc l = true -> emits_jumps l -> emits_jumps r ->
  emits d1 d2
    (x ← onvdbe sqliteVdbeMakeLabel;
     jump_code (negb s) l x (negb j);; jump_code s r d1 j;; onvdbe (sqliteVdbeResolveLabel x))
    (fun y _ a => to_end a (fun d2 => let c := cjump (negb s) l d2 (negb j) a in c ++ cjump s r y j (a + len c))).
Proof.
  intros Hwf Hl Hr. apply emits_swap.
  set (f x := jump_code (negb s) l x (negb j);; jump_code s r d1 j).
  apply emits_eq with (m' := x ← onvdbe sqliteVdbeMakeLabel; f x;; onvdbe (sqliteVdbeResolveLabel x)).
  { unfold f. monad_eq. }
  apply (emits_label _ _ f (fun x y a => let c := cjump (negb s) l x (negb j) a in c ++ cjump s r y j (a + len c))).
  - intros x. eapply emits_ext; [|apply emits_seq; [apply Hl|eapply emits_swap; apply Hr]]. done.
  - intros x n y a Hx Hn Hy Ha. cbv zeta.
    assert (Hmx : retarget x n x = n) by (unfold retarget; by rewrite Z.eqb_refl).
    assert (Hmy : retarget x n y = y) by (unfold retarget; by destruct (Z.eqb_spec y x)).
    rewrite map_app, (cjump_relabels l _ _ x n x a Hx Ha), (cjump_relabels r _ _ x n y) by len_lia.
    rewrite Hmx, Hmy. by rewrite (relabels_len _ x n a (cjump_relabels l _ _) Ha).
  - intros x y a E. apply app_eq_nil in E as [E _]. by apply cjump_nonempty in E.
Qed.

Lemma emits_jump_either l r s d1 d2 j :
  wf aFunc l = true -> emits_jumps l -> emits_jumps r ->
  emits d1 d2 (jump_code s l d1 j;; jump_code s r d1 j)
    (fun y _ a => let c := cjump s l y j a in c ++ cjump s r y j (a + len c)).
Proof.
  intros Hwf Hl Hr. eapply emits_ext; [|apply emits_seq; [apply Hl|apply Hr]]. done.
Qed.

(** The generators of jumps, an operator at a time. *)
Definition jumps_on_value (o : TK) : bool :=
  match o with
  | TK_AND | TK_OR | TK_NOT | TK_LT | TK_LE | TK_GT | TK_GE | TK_NE | TK_EQ | TK_ISNULL | TK_NOTNULL
  | TK_IN | TK_BETWEEN => false
  | _ => true
  end.

Lemma jump_value s e d j : jumps_on_value (op e) = true ->
  jump_code s e d j = if_vdbe (code e;; add_op (if s then OP_If else OP_IfNot) (Z.b2z j) d;; mret tt).
Proof. destruct e as [o dt l r li tz tn it ic ia sel]. cbn [op]. by destruct o, s. Qed.

Lemma cjump_value s e d j a : jumps_on_value (op e) = true ->
  cjump s e d j a = cexpr e a ++ [I (if s then OP_If else OP_IfNot) (Z.b2z j) d].
Proof. destruct e as [o dt l r li tz tn it ic ia sel]. cbn [op]. by destruct o. Qed.

Section Node.
Context (dt : Z) (l r : Expr) (li : option (list Expr)) (tz : list Z) (tn it ic ia : Z) (sel : option (list Expr)).

(** The operator whose operands both need the truth value [s] for the jump. *)
Definition conjunction (s : bool) : TK := if s then TK_AND else TK_OR.

Lemma jump_either s d j :
  jump_code s (mkExpr (conjunction s) dt (Some l) (Some r) li tz tn it ic ia sel) d j =
  if_vdbe (x ← onvdbe sqliteVdbeMakeLabel;
     jump_code (negb s) l x (negb j);; jump_code s r d j;; onvdbe (sqliteVdbeResolveLabel x)).
Proof. by destruct s. Qed.

Lemma jump_both s d j :
  jump_code s (mkExpr (conjunction (negb s)) dt (Some l) (Some r) li tz tn it ic ia sel) d j =
  if_vdbe (jump_code s l d j;; jump_code s r d j).
Proof. by destruct s. Qed.

End Node.

Section Node.
Context (dt : Z) (l r : option Expr) (li : option (list Expr)) (tz : list Z) (tn it ic ia : Z) (sel : option (list Expr)).

Lemma jump_not x s d j :
  jump_code s (mkExpr TK_NOT dt (Some x) r li tz tn it ic ia sel) d j =
  if_vdbe (jump_code (negb s) x d j).
Proof. by destruct s. Qed.

Lemma jump_compare o o' (s : bool) d j :
  (if s then value_opcode o else negated_opcode o) = Some o' ->
  (match o with TK_LT | TK_LE | TK_GT | TK_GE | TK_NE | TK_EQ => true | _ => false end) = true ->
  jump_code s (mkExpr o dt l r li tz tn it ic ia sel) d j =
  if_vdbe (code_compare_jump file_format false ignoreJump aFunc
             (mkExpr o dt l r li tz tn it ic ia sel) o' d j).
Proof. intros H1 H2. by destruct s, o; try done; injection H1 as <-. Qed.

Lemma jump_null s d j (b : bool) :
  jump_code s (mkExpr (if b then TK_ISNULL else TK_NOTNULL) dt l r li tz tn it ic ia sel) d j =
  if_vdbe (expr_code file_format false ignoreJump aFunc l;;
           add_op (if Bool.eqb s b then OP_IsNull else OP_NotNull) 1 d;; mret tt).
Proof. by destruct s, b. Qed.

Lemma jump_in s d j :
  jump_code s (mkExpr TK_IN dt l r li tz tn it ic ia None) d j =
  if_vdbe (code_in_jump file_format false ignoreJump aFunc (mkExpr TK_IN dt l r li tz tn it ic ia None)
             (if s then OP_SetFound else OP_SetNotFound) d j).
Proof. by destruct s. Qed.
End Node.

(** The jumps of a value, and those of an operator on conditions. *)
Lemma jumps_emit_value e : wf aFunc e = true -> jumps_on_value (op e) = true -> emits_jumps e.
Proof.
  intros Hwf Ho s d1 d2 j. rewrite jump_value by done. apply emits_if_vdbe.
  pose proof (sqliteExprCode_emits e Hwf) as Hc.
  eapply emits_ext; [|emit]. intros y z a Ha. cbn. by rewrite cjump_value.
Qed.

Lemma jumps_emit_pair dt l r li tz tn it ic ia sel (b : bool) :
  wf aFunc l = true -> emits_jumps l -> emits_jumps r ->
  emits_jumps (mkExpr (conjunction b) dt (Some l) (Some r) li tz tn it ic ia sel).
Proof.
  intros Hwf Hl Hr s d1 d2 j. destruct (Bool.bool_dec s b) as [->|Hne].
  - rewrite jump_either. apply emits_if_vdbe.
    eapply emits_ext; [|by apply emits_either]. by destruct b.
  - replace b with (negb s) by (by destruct s, b). rewrite jump_both. apply emits_if_vdbe.
    eapply emits_ext; [|by apply emits_jump_either]. by destruct s.
Qed.

Lemma jumps_emit_compare o dt l r li tz tn it ic ia sel :
  opt_emits l -> opt_emits r ->
  (match o with TK_LT | TK_LE | TK_GT | TK_GE | TK_NE | TK_EQ => true | _ => false end) = true ->
  emits_jumps (mkExpr o dt l r li tz tn it ic ia sel).
Proof.
  intros Hl Hr Ho s d1 d2 j.
  destruct (if s then value_opcode o else negated_opcode o) as [o'|] eqn:E; [|by destruct s, o].
  rewrite (jump_compare _ _ _ _ _ _ _ _ _ _ o o' s d1 j E Ho). apply emits_if_vdbe.
  eapply emits_ext; [|apply emits_compare_jump; [done|done|destruct s, o; try done; by injection E as <-]].
  intros y z a Ha. destruct s, o; try done; by injection E as <-.
Qed.

Lemma jumps_emit_null dt l r li tz tn it ic ia sel (b : bool) : opt_emits l ->
  emits_jumps (mkExpr (if b then TK_ISNULL else TK_NOTNULL) dt l r li tz tn it ic ia sel).
Proof.
  intros Hl s d1 d2 j. rewrite jump_null. apply emits_if_vdbe.
  eapply emits_ext; [|emit]. by destruct b.
Qed.

Lemma jumps_emit_between dt l r lo hi li tz tn it ic ia sel :
  opt_emits l -> emits_code lo -> emits_code hi ->
  emits_jumps (mkExpr TK_BETWEEN dt l r (Some (lo :: hi :: li)) tz tn it ic ia sel).
Proof.
  intros Hl Hlo Hhi s d1 d2 j. destruct s; apply emits_if_vdbe.
  - by apply emits_between_true.
  - by apply emits_between_false.
Qed.

(** The generators of jumps. *)
Lemma jumps_emit e : wf aFunc e = true -> emits_jumps e.
Proof.
  induction e as [op dt l r li tz tn it ic ia sel IHl IHr _] using Expr_induction.
  intros Hwf. destruct (jumps_on_value op) eqn:Ho; [by apply jumps_emit_value|].
  destruct op; try done; cbn in Hwf.
  1-6: apply andb_true_iff in Hwf as [Hl Hr]; apply jumps_emit_compare; [by apply opt_emits_wf..|done].
  - apply andb_true_iff in Hwf as [Hl Hr]. destruct l as [l|]; [|done]. destruct r as [r|]; [|done].
    by apply (jumps_emit_pair _ _ _ _ _ _ _ _ _ _ true); [|apply IHl|apply IHr].
  - apply andb_true_iff in Hwf as [Hl Hr]. destruct l as [l|]; [|done]. destruct r as [r|]; [|done].
    by apply (jumps_emit_pair _ _ _ _ _ _ _ _ _ _ false); [|apply IHl|apply IHr].
  - destruct l as [l|]; [|done]. intros s d1 d2 j. rewrite jump_not. apply emits_if_vdbe. by apply IHl.
  - by apply (jumps_emit_null _ _ _ _ _ _ _ _ _ _ true), opt_emits_wf.
  - by apply (jumps_emit_null _ _ _ _ _ _ _ _ _ _ false), opt_emits_wf.
  - apply andb_true_iff in Hwf as [Hl Hs]. destruct sel; [done|]. intros s d1 d2 j.
    rewrite jump_in. apply emits_if_vdbe. by apply emits_in_jump, opt_emits_wf.
  - apply andb_true_iff in Hwf as [Hl Hs]. destruct li as [[|lo [|hi [|x li]]]|]; try done.
    apply andb_true_iff in Hs as [Hlo Hhi].
    by apply jumps_emit_between; [apply opt_emits_wf|apply sqliteExprCode_emits..].
Qed.

End Code.
