(* ===== verification/VdbeRun.v ===== *)
(** Runs of programs: the instructions that read (memory cells, rows of tables, members of
    sets, the results of functions), and every instruction of expressions as a step of
    the loop of [sqliteVdbeExec] from one stack of values to the next. *)
From S2P Require Import Prelude Util CMem CFloat Printf VdbeAux VdbeMem Vdbe VdbeStack VdbeEffects Expr ExprSpec.

(** * Memory cells *)

(** A cell that holds a value; an integer with a text does not own the text. *)
Definition cell_text (B : heap) (i : Z) (x : storage) (m : Mem) (v : value) : Prop :=
  match x, mz m with
  | Static, ZConst _ => True
  | Dyn, ZHeap p off => off = 0 /\ p ∈ dom B /\ v_int v = None
  | Short, ZCell j off => j = i /\ off = 0
  | _, _ => False
  end.

Definition cell_ok (B : heap) (cells : list Mem) (i : Z) (m : Mem) (v : value) : Prop :=
  v_heavy v = false /\
  (forall a, v_int v = Some a -> mi m = a) /\ (forall r, v_real v = Some r -> mr m = r) /\
  match v_text v with
  | None => mflags m = if is_null v then MEM_Null else type_flags v
  | Some t =>
      nulfree t /\ mn m = Z.of_nat (length t) + 1 /\
      exists x, mflags m = type_flags v + storage_flag x /\ cell_text B i x m v /\
        text_at B cells 0 [] (mz m) t
  end.

Section Read.
Context (E : Vm) (B : heap).
Abbreviation rep := (rep E B).
Abbreviation st := (st E).

(** The fields that an instruction on the stack leaves alone. *)
Lemma rep_fields X s vs : rep X s vs ->
  aMem s = aMem E /\ azVar s = azVar E /\ aSet s = aSet E /\ aCsr s = aCsr E /\ interrupted s = interrupted E.
Proof. by intros (ms & rest & h & O & -> & _). Qed.

Lemma rep_MemLoad X s vs o pc m v (Q : ctl -> Vm -> Prop) C :
  rep X s vs -> room E vs -> at_ (aMem E) (p1 o) = Some m -> cell_ok B (aMem E) (p1 o) m v ->
  (forall s', rep X s' (v :: vs) -> Q (Go pc) s') -> wp (op_MemLoad o pc) Q C s.
Proof.
  intros H Hroom Hm (Hh & Hi & Hr & Ht) HQ. unfold op_MemLoad, cell.
  apply wp_bind, wp_bind, wp_vget. destruct (rep_fields _ _ _ H) as (-> & _). rewrite Hm. apply wp_ret.
  apply wp_assoc, wp_bind. destruct (v_text v) as [t|] eqn:Et.
  - destruct Ht as (Hn & Hlen & x & Hf & Hc & Htx). unfold cell_text in Hc.
    assert (Hstr : has MEM_Str m = true).
    { unfold has. rewrite Hf. destruct v as [[a|] [r|] [u|] hv]; cbn in Et; try done; by destruct x. }
    eapply (rep_push_pointer _ _ _ _ _ v t _ Ephem); [exact H|done|done|done|by right| |].
    + intros y Hy. rewrite Hstr. cbn [mn mi mr mz mflags zShort set_mflags set_zShort].
      split; [done|]. split.
      { rewrite Hf. destruct v as [[a|] [r|] [u|] hv]; cbn in Et; try done; destruct x; by vm_compute. }
      split; [destruct x, (mz m); try done; by destruct Hc as (_ & ? & _)|].
      split; [intros Hz; left; destruct x, (mz m); try done; by destruct Hc as (_ & _ & ?)|].
      split; [|done]. intros own k. destruct (mz m) as [|c|p off|j off|j off]; try done. by destruct x.
    + intros s' Hs'. by apply wp_ret, HQ.
  - assert (Hstr : has MEM_Str m = false).
    { unfold has. rewrite Ht. destruct v as [[a|] [r|] [u|] hv]; done. }
    eapply (rep_push _ _ _ _ _ v); [exact H|done|done| |].
    + intros j y Hy O h. rewrite Hstr. split; [done|]. split; [done|]. split; [done|]. by rewrite Et.
    + intros s' Hs'. by apply wp_ret, HQ.
Qed.

(** ** Members of sets *)

Lemma rep_SetFound X s v vs t (sense : bool) o pc (Q : ctl -> Vm -> Prop) C :
  rep X s (v :: vs) -> is_null v = false -> to_text v = Some t ->
  (forall s', rep X s' vs -> Q (Go (if Bool.eqb (in_set E (p1 o) t) sense then p2 o - 1 else pc)) s') ->
  wp (op_SetFound (if sense then OP_SetFound else OP_SetNotFound) o pc) Q C s.
Proof.
  intros H Hn Ht HQ. unfold op_SetFound. eapply rep_top; [exact H|]. apply wp_bind, wp_assert; [apply Z.leb_le; lia|].
  apply wp_bind. eapply (rep_Stringify _ _ _ _ []); [exact H|done|done|done|]. intros s1 H1. cbn [app] in H1.
  apply wp_bind. eapply (rep_stk _ _ _ _ []); [exact H1|done|]. intros m A V.
  destruct (view_text _ _ _ V t) as (_ & El & _ & Rd); [by apply text_value_text|].
  apply wp_bind. eapply wp_equation; [apply Rd; lia|]. rewrite El, take_ge by (rewrite length_app; simpl; lia).
  apply wp_bind, wp_vget. destruct (rep_fields _ _ _ H1) as (_ & _ & -> & _).
  apply wp_bind. eapply rep_release with (k := Z.of_nat (length vs) - 1); [exact H1|done|exact A|done|].
  intros s2 H2. apply wp_bind, wp_vupd, wp_ret. specialize (HQ _ H2). unfold in_set in HQ.
  destruct sense, (match at_ (aSet E) (p1 o) with Some set => _ | None => _ end); exact HQ.
Qed.

(** ** Record numbers *)

Lemma rep_Recno X s vs o pc pC v (Q : ctl -> Vm -> Prop) C :
  rep X s vs -> room E vs -> at_ (aCsr E) (p1 o) = Some pC -> recno_value pC = Some v ->
  (forall s', rep X s' (v :: vs) -> Q (Go pc) s') -> wp (op_Recno o pc) Q C s.
Proof.
  intros H Hroom Hc Hv HQ. unfold op_Recno. apply wp_bind, wp_vget.
  destruct (rep_fields _ _ _ H) as (_ & _ & _ & -> & _). rewrite Hc. apply wp_bind, wp_ret.
  unfold recno_value in Hv. destruct (deferredMoveto pC); [done|]. apply wp_bind, wp_assert; [done|].
  assert (Hint : forall i, Some (VInt i) = Some v -> wp (push_int i) (fun _ => wp (mret (Go pc)) Q C) C s).
  { intros i [= <-]. eapply rep_push_int; [exact H|done|]. intros s1 H1. by apply wp_ret, HQ. }
  assert (Hnull : Some VNull = Some v -> wp push_null (fun _ => wp (mret (Go pc)) Q C) C s).
  { intros [= <-]. eapply rep_push_null; [exact H|done|]. intros s1 H1. by apply wp_ret, HQ. }
  apply wp_bind. destruct (recnoIsValid pC); [by apply Hint|]. destruct (pseudoTable pC); [by apply Hint|].
  destruct (nullRow pC); [by apply Hnull|]. destruct (pCursor pC) as [[key d]|]; [|by apply Hnull].
  destruct (block_bytes 4 (map Some key)) as [b|]; [|done]. apply wp_bind, wp_ret. by apply Hint.
Qed.

(** ** Columns *)

(** The record of a row: [NoRecord] is an empty one. *)
Definition record_bytes (r : rec_source) (rec : list Z) : Prop :=
  match r with
  | NoRecord => rec = []
  | InMemory z n => z = ZConst rec /\ n = Z.of_nat (length rec)
  | InTable s => s = rec
  end.

Lemma field_value_nil c : field_value [] c = Some VNull.
Proof. done. Qed.

Lemma wp_record_of o k s pC v (Q : rec_source -> Vm -> Prop) C :
  aCsr s = aCsr E -> 0 <= p1 o -> at_ (aCsr E) (p1 o) = Some pC -> column_value pC (p2 o) = Some v ->
  (forall r rec, record_bytes r rec -> field_value rec (p2 o) = Some v -> Q r s) ->
  wp (record_of o k) Q C s.
Proof.
  intros Ea Hp Hc Hv HQ. unfold record_of. destruct (Z.ltb_spec (p1 o) 0); [lia|].
  apply wp_bind, wp_vget. rewrite Ea, Hc. apply wp_bind, wp_ret. unfold column_value in Hv.
  destruct (pCursor pC) as [[key d]|].
  - destruct (deferredMoveto pC); [done|]. apply wp_bind, wp_assert; [done|]. apply wp_ret.
    destruct (nullRow pC); [by apply (HQ _ [])|by eapply HQ].
  - destruct (pseudoTable pC); [|by apply wp_ret, (HQ _ [])].
    destruct (pData pC) as [d|]; [|by apply wp_ret, (HQ _ [])]. by apply wp_ret, (HQ _ d).
Qed.

Lemma drop_map_some (l : list Z) n : drop n (map Some l) = map Some (drop n l).
Proof. by rewrite <-skipn_map. Qed.

Lemma wp_rec_bytes r rec off n s (Q : list Z -> Vm -> Prop) C :
  record_bytes r rec -> rec <> [] -> 0 <= off -> 0 <= n -> off + n <= Z.of_nat (length rec) ->
  Q (take (Z.to_nat n) (drop (Z.to_nat off) rec)) s -> wp (rec_bytes r off n) Q C s.
Proof.
  intros Hr Hne Hoff Hn Hlen HQ.
  assert (Hb : block_bytes (Z.to_nat n) (map Some (drop (Z.to_nat off) rec)) =
    Some (take (Z.to_nat n) (drop (Z.to_nat off) rec))).
  { rewrite <-(app_nil_r (map Some _)). apply block_bytes_take. rewrite length_drop. lia. }
  destruct r as [|z k|x]; cbn in Hr |- *; [done|destruct Hr as [-> ->]|subst x].
  - cbn [z_add]. unfold z_read. apply wp_bind. cbn [z_bytes]. apply wp_ret, (wp_of_option _ _ _ _ _ Hb), HQ.
  - exact (wp_of_option _ _ _ _ _ Hb HQ).
Qed.

Lemma nulfree_cstr s : nulfree (cstr s).
Proof. induction s as [|c s IH]; cbn; [constructor|]. destruct (Z.eqb_spec c 0); constructor; done. Qed.

(** The text of a field. *)
Lemma text_of_bytes_text s t : text_of_bytes s = Some t -> s = t ++ [0] /\ nulfree t.
Proof.
  unfold text_of_bytes. case_decide as H; [|done]. intros [= <-]. split; [done|]. apply nulfree_cstr.
Qed.

Lemma rep_Column X s vs o pc pC v (Q : ctl -> Vm -> Prop) C :
  rep X s vs -> room E vs -> 0 <= p1 o -> 0 <= p2 o -> at_ (aCsr E) (p1 o) = Some pC ->
  column_value pC (p2 o) = Some v ->
  (forall s', rep X s' (v :: vs) -> Q (Go pc) s') -> wp (op_Column o pc) Q C s.
Proof.
  intros H Hroom Hp1 Hp2 Hc Hv HQ. unfold op_Column. apply wp_bind. eapply rep_grow; [exact H|exact Hroom|].
  intros ms x rest h O Hl Hx Hh -> Hs Hrep. apply wp_bind. eapply wp_record_of; [done|done|exact Hc|exact Hv|].
  intros r rec Hr Hf. set (k := Z.of_nat (length vs)) in *.
  assert (Hk : k = Z.of_nat (length (rev ms))) by (by rewrite length_rev, Hl).
  assert (Hpay : match r with NoRecord => 0 | InMemory _ n => n | InTable s => Z.of_nat (length s) end = Z.of_nat (length rec)).
  { destruct r; cbn in Hr; [by subst|by destruct Hr|by subst]. }
  rewrite Hpay. unfold field_value in Hf.
  assert (Hnull : forall y, length (zShort y) = 32%nat -> v = VNull ->
    wp (stk_upd k (set_mflags MEM_Null);; mret (Go pc)) Q C (st (rev ms ++ y :: rest) k h)).
  { intros y Hy ->. apply wp_bind, wp_stk_upd; [done|]. apply wp_ret, HQ. eapply (Hrep _ _ _ _ O); [done|by apply plain_null|].
    match goal with |- heap_ok _ _ _ (owned ?m ∪ _) => change (owned m) with (∅ : gset positive) end.
    by rewrite union_empty_l_L. }
  destruct (Z.eqb_spec (Z.of_nat (length rec)) 0) as [Hz|Hz].
  { injection Hf as <-. by apply Hnull. }
  assert (Hne : rec <> []) by (by intros ->).
  set (w := if Z.of_nat (length rec) <? 256 then 1 else if Z.of_nat (length rec) <? 65536 then 2 else 3) in *.
  assert (Hw : 1 <= w) by (unfold w; repeat destruct (_ <? _); lia).
  destruct (Z.ltb_spec (Z.of_nat (length rec)) (w * (p2 o + 2))) as [|Hroom2]; [done|].
  destruct (Z.ltb_spec (Z.of_nat (length rec)) (w * (p2 o + 1))); [nia|].
  apply wp_bind. eapply wp_rec_bytes; [exact Hr|done|nia|lia|nia|].
  set (hdr := take (Z.to_nat (w * 2)) (drop (Z.to_nat (w * p2 o)) rec)) in *.
  set (offset := idx_value w hdr) in *. set (end_ := idx_value w (drop (Z.to_nat w) hdr)) in *.
  destruct ((end_ <? offset) || (offset <? 0) || (Z.of_nat (length rec) <? end_)) eqn:Ebad; [done|].
  apply orb_false_iff in Ebad as [Ebad E3]. apply orb_false_iff in Ebad as [E1 E2].
  apply Z.ltb_ge in E1, E2, E3.
  destruct (Z.ltb_spec (end_ - offset) 0); [lia|]. destruct (Z.ltb_spec offset 0); [lia|].
  destruct (Z.ltb_spec (Z.of_nat (length rec)) end_); [lia|]. cbn [orb].
  apply wp_bind, wp_stk_upd; [done|]. set (y := set_mn (end_ - offset) x).
  destruct (Z.eqb_spec end_ offset) as [Heq|Hneq].
  { injection Hf as <-. destruct (Z.eqb_spec (end_ - offset) 0); [|lia]. by apply Hnull. }
  destruct (Z.eqb_spec (end_ - offset) 0); [lia|].
  destruct (text_of_bytes _) as [t|] eqn:Et; [|done]. injection Hf as <-.
  apply text_of_bytes_text in Et as [Et Hnf].
  assert (Hlt : end_ - offset = Z.of_nat (length t) + 1).
  { apply (f_equal length) in Et. rewrite length_take, length_drop, length_app in Et. cbn in Et. lia. }
  assert (Hfree : forall m x, mflags m = MEM_Str + storage_flag x -> x <> Dyn -> heap_ok B X h (owned m ∪ O)).
  { intros m y0 Hfm Hy0. replace (owned m) with (∅ : gset positive); [by rewrite union_empty_l_L|].
    unfold owned, has. rewrite Hfm. by destruct y0. }
  destruct r as [|zr nr|b]; cbn in Hr; [by subst rec| |].
  - destruct Hr as [-> ->]. apply wp_bind, wp_stk_upd; [done|]. apply wp_ret, HQ.
    eapply (Hrep _ _ _ _ O); [done| |by apply (Hfree _ Ephem)].
    split; [done|]. split; [done|]. split; [done|]. cbn. split; [done|]. split; [done|].
    exists Ephem. split; [done|]. split; [done|]. split; [by left|].
    exists (drop (Z.to_nat (end_ - offset)) (drop (Z.to_nat offset) rec)).
    rewrite <-(take_drop (Z.to_nat (end_ - offset)) (drop (Z.to_nat offset) rec)) at 1.
    by rewrite Et, <-app_assoc.
  - subst b. apply wp_bind. eapply (wp_rec_bytes (InTable rec) rec); [done|done|lia|lia|lia|]. rewrite Et.
    destruct (Z.leb_spec (end_ - offset) NBFS) as [Hsmall|Hbig].
    + apply wp_bind, wp_stk_upd; [done|]. apply wp_ret, HQ.
      eapply (Hrep _ _ _ _ O); [done| |by apply (Hfree _ Short)].
      unfold NBFS in Hsmall. split.
      { cbn. rewrite length_app, length_drop, Hx, length_app. cbn. lia. }
      split; [done|]. split; [done|]. cbn. split; [done|]. split; [done|].
      exists Short. split; [done|]. split; [done|]. split; [by left|]. split; [done|]. split; [done|].
      rewrite <-app_assoc. by eexists.
    + apply wp_bind. rewrite Hlt.
      eapply (wp_alloc E B); [exact Hs|exact Hh|rewrite length_app; simpl; lia|]. intros p h' Hp HX Hb Hs' Hh'.
      apply wp_bind, wp_stk_upd; [done|]. apply wp_ret, HQ.
      destruct (entry_new_block O (blocks h') (aMem E) k (VText t) t p
        (set_mflags (MEM_Str + MEM_Dyn) (set_mz (ZHeap p 0) y)) (map Some (t ++ [0]))) as [He' Ho']; try done.
      { by left. }
      eapply (Hrep _ _ _ _ O); [exact Hs'|exact He'|]. by rewrite Ho'.
Qed.

(** ** Functions *)

(** An entry that is seen through the machine. *)
Lemma rep_view X s ws v vs m :
  rep X s (ws ++ v :: vs) -> at_ (aStack s) (Z.of_nat (length vs)) = Some m -> views s m v.
Proof.
  intros H Hm. destruct (rep_focus E B X s ws v vs H) as (l & m' & r & k & h & O & -> & Hl & _ & He & _).
  cbn [aStack VdbeStack.st set_vheap set_pTos set_aStack] in Hm. rewrite at_middle in Hm by (by rewrite Hl).
  injection Hm as ->. rewrite <-Hl in He. by eapply entry_views.
Qed.

(** [Stringify] changes its entry only. *)
Lemma rep_Stringify_at X s ws v vs j t (Q : unit -> Vm -> Prop) C :
  rep X s (ws ++ v :: vs) -> j = Z.of_nat (length vs) -> is_null v = false -> to_text v = Some t ->
  (forall s', rep X s' (ws ++ text_value v t :: vs) ->
     (forall i, i < j -> at_ (aStack s') i = at_ (aStack s) i) -> Q tt s') -> wp (Stringify j) Q C s.
Proof.
  intros H -> Hn Ht HQ. destruct (rep_focus E B X s ws v vs H) as (l & m & r & k & h & O & -> & Hl & _ & He & Hb & _).
  eapply wp_Stringify; [by rewrite Hl|exact He|done|done|]. intros m' Hm'. apply HQ; [by apply Hb|].
  intros i Hi. cbn. unfold at_. destruct (Z.leb_spec 0 i); [|done]. rewrite !lookup_app_l by lia. done.
Qed.

(** The value as an argument sees it, and the pointer to its text. *)
Definition stringified (v : value) : value :=
  if is_null v then v else match to_text v with Some t => text_value v t | None => v end.

Fixpoint args_at (s : Vm) (k : Z) (args : list value) (l : list (option zptr)) : Prop :=
  match args, l with
  | [], [] => True
  | v :: args', p :: l' =>
      match p with
      | None => is_null v = true
      | Some z => is_null v = false /\ exists m, at_ (aStack s) k = Some m /\ mz m = z
      end /\ args_at s (k + 1) args' l'
  | _, _ => False
  end.

Lemma args_at_same s s' k args l :
  (forall i, k <= i -> i < k + Z.of_nat (length args) -> at_ (aStack s') i = at_ (aStack s) i) ->
  args_at s k args l -> args_at s' k args l.
Proof.
  revert k l. induction args as [|v args IH]; intros k [|p l] Hs; cbn in *; try done.
  intros [H1 H2]. split.
  - destruct p; [|done]. destruct H1 as (? & m & Hm & ?). split; [done|]. exists m.
    split; [|done]. rewrite Hs by lia. done.
  - apply IH; [|done]. intros i ? ?. apply Hs; lia.
Qed.

Lemma rep_argument_texts X args : forall s vs texts (Q : list (option zptr) -> Vm -> Prop) C,
  rep X s (rev args ++ vs) -> mapM argument args = Some texts ->
  (forall l s', rep X s' (rev (map stringified args) ++ vs) -> args_at s' (Z.of_nat (length vs)) args l ->
     (forall i, i < Z.of_nat (length vs) -> at_ (aStack s') i = at_ (aStack s) i) -> Q l s') ->
  wp (argument_texts (length args) (Z.of_nat (length vs))) Q C s.
Proof.
  induction args as [|v args IH]; intros s vs texts Q C H Ht HQ; cbn [argument_texts length].
  { by apply wp_ret, HQ. }
  cbn in Ht. destruct (argument v) as [a|] eqn:Ea; [|done]. cbn in Ht.
  destruct (mapM argument args) as [r|] eqn:Er; [|done].
  cbn [rev] in H. rewrite <-app_assoc in H. cbn [app] in H.
  apply wp_bind. eapply rep_stk; [exact H|done|]. intros m Hm V. rewrite (view_null _ _ _ V).
  replace (Z.of_nat (length vs) + 1) with (Z.of_nat (length (stringified v :: vs))) by (simpl; lia).
  assert (Hrest : forall s1 p, rep X s1 (rev args ++ stringified v :: vs) ->
     (forall i, i < Z.of_nat (length vs) -> at_ (aStack s1) i = at_ (aStack s) i) ->
     match p with
     | None => is_null v = true
     | Some z => is_null v = false /\ exists m, at_ (aStack s1) (Z.of_nat (length vs)) = Some m /\ mz m = z
     end ->
     wp (l ← argument_texts (length args) (Z.of_nat (length (stringified v :: vs))); mret (p :: l)) Q C s1).
  { intros s1 p H1 Hsame Hp. apply wp_bind. eapply IH; [exact H1|done|]. intros l s2 H2 Hl Hs2. apply wp_ret, HQ.
    - cbn [map rev]. rewrite <-app_assoc. exact H2.
    - cbn [args_at]. split.
      + destruct p; [|done]. destruct Hp as (? & m' & Hm' & ?). split; [done|]. exists m'.
        split; [|done]. rewrite Hs2 by (cbn [length]; lia). done.
      + by replace (Z.of_nat (length vs) + 1) with (Z.of_nat (length (stringified v :: vs))) by (simpl; lia).
    - intros i Hi. rewrite Hs2 by (cbn [length]; lia). by apply Hsame. }
  apply wp_bind. unfold argument in Ea. unfold stringified in Hrest |- * at 1. destruct (is_null v) eqn:En.
  - apply wp_ret. by apply Hrest.
  - destruct (to_text v) as [t|] eqn:Et; [|done].
    apply wp_bind. eapply rep_Stringify_at; [exact H|done|done|exact Et|]. intros s1 H1 Hsame.
    apply wp_bind. eapply rep_stk; [exact H1|done|]. intros m1 A1 _. apply wp_ret.
    apply Hrest; [done|exact Hsame|]. split; [done|]. by exists m1.
Qed.

Lemma rep_read_texts X args : forall s vs ws texts l (Q : list (option (list Z)) -> Vm -> Prop) C,
  rep X s (ws ++ rev (map stringified args) ++ vs) -> args_at s (Z.of_nat (length vs)) args l ->
  mapM argument args = Some texts -> Q texts s -> wp (read_texts l) Q C s.
Proof.
  induction args as [|v args IH]; intros s vs ws texts [|p l] Q C H Hl Ht HQ; try done.
  - cbn in Ht. injection Ht as <-. by apply wp_ret.
  - cbn [args_at] in Hl. destruct Hl as [Hp Hl]. cbn in Ht.
    destruct (argument v) as [a|] eqn:Ea; [|done]. cbn in Ht.
    destruct (mapM argument args) as [r|] eqn:Er; [|done]. injection Ht as <-.
    cbn [map rev] in H. rewrite <-!app_assoc in H. cbn [app] in H.
    assert (Hrest : wp (r ← read_texts l; mret (a :: r)) Q C s).
    { apply wp_bind. eapply (IH _ (stringified v :: vs) ws); [exact H| |done|by apply wp_ret].
      by replace (Z.of_nat (length (stringified v :: vs))) with (Z.of_nat (length vs) + 1) by (simpl; lia). }
    cbn [read_texts]. apply wp_bind. unfold argument in Ea. destruct p as [z|].
    + destruct Hp as (En & m & Hm & <-). rewrite En in Ea. destruct (to_text v) as [t|] eqn:Et; [|done].
      injection Ea as <-. rewrite app_assoc in H. pose proof (rep_view _ _ _ _ _ _ H Hm) as V.
      unfold stringified in V. rewrite En, Et in V.
      destruct (view_text _ _ _ V t) as (_ & _ & Ez & _); [by apply text_value_text|].
      apply wp_bind. eapply wp_equation; [exact Ez|]. by apply wp_ret.
    + rewrite Hp in Ea. injection Ea as <-. by apply wp_ret.
Qed.

Lemma blank_short : length (zShort blank) = 32%nat.
Proof. reflexivity. Qed.

(** The result replaces the arguments. *)
Definition put_result (n : Z) (m : Mem) (pc : Z) : M Vm ctl :=
  popStack n;;
  k ← grow;
  stk_put k (if has MEM_Short m then set_mz (ZTos k 0) m else m);;
  mret (Go pc).

Lemma rep_put_result X s ws vs n m pc v (Q : ctl -> Vm -> Prop) C :
  rep X s (ws ++ vs) -> room E vs -> n = Z.of_nat (length ws) -> v_text v = None ->
  (forall j, plain_entry E j m v) ->
  (forall s', rep X s' (v :: vs) -> Q (Go pc) s') -> wp (put_result n m pc) Q C s.
Proof.
  intros H Hroom -> Hv Hm HQ. unfold put_result. apply wp_bind.
  eapply rep_popStack; [exact H|done|]. intros s1 H1. apply wp_assoc, wp_bind.
  assert (Hsh : has MEM_Short m = false).
  { destruct (entry_flags _ _ _ _ _ _ (Hm 0 ∅ ∅)) as (_ & _ & _ & _ & A). by destruct (A Hv) as (_ & _ & ? & _). }
  unfold stk_put. eapply (rep_push _ _ _ _ _ v); [exact H1|done|done| |].
  - intros j x Hx. rewrite Hsh. apply Hm.
  - intros s2 H2. by apply wp_ret, HQ.
Qed.

Lemma rep_put_text X s ws vs n t pc (Q : ctl -> Vm -> Prop) C :
  rep X s (ws ++ vs) -> room E vs -> n = Z.of_nat (length ws) -> nulfree t ->
  (forall s', rep X s' (VText t :: vs) -> Q (Go pc) s') ->
  wp (m ← set_result_string t (set_mflags MEM_Null blank);
      match m with Some m => put_result n m pc | None => mstuck end) Q C s.
Proof.
  intros H Hroom -> Hn HQ. apply wp_bind. unfold set_result_string.
  destruct (Z.ltb_spec (Z.of_nat (length t)) (NBFS - 1)) as [Hsmall|Hbig].
  - apply wp_ret. unfold put_result. apply wp_bind.
    eapply rep_popStack; [exact H|done|]. intros s1 H1. apply wp_bind. eapply rep_grow; [exact H1|exact Hroom|].
    intros ms x rest h O Hl Hx Hh -> Hs Hrep. apply wp_bind. unfold stk_put.
    match goal with |- context [has MEM_Short ?m] => change (has MEM_Short m) with true end. cbv iota.
    apply wp_stk_upd; [by rewrite length_rev, Hl|]. apply wp_ret, HQ. unfold NBFS in Hsmall.
    eapply (Hrep _ _ _ _ O); [done| |].
    + split.
      { change (length (t ++ [0] ++ drop (S (length t)) (zShort blank)) = 32%nat).
        rewrite !length_app, length_drop, blank_short. simpl. lia. }
      split; [done|]. split; [done|]. cbn -[drop blank]. split; [done|]. split; [done|]. exists Short.
      split; [done|]. split; [done|]. split; [by left|]. split; [done|]. split; [done|]. by eexists.
    + match goal with |- heap_ok _ _ _ (owned ?m ∪ _) => change (owned m) with (∅ : gset positive) end.
      by rewrite union_empty_l_L.
  - apply wp_bind. eapply rep_new_string; [exact H|rewrite length_app; simpl; lia|]. intros p s1 Hp H1.
    apply wp_ret. unfold put_result. apply wp_bind. eapply rep_popStack; [exact H1|done|]. intros s2 H2.
    apply wp_assoc, wp_bind. unfold stk_put.
    eapply (rep_push_block E B X s2 vs p (VText t) t); [exact Hp|exact H2|done|done|done|by left| |].
    + intros x Hx. split; [by apply blank_short|]. done.
    + intros s3 H3. by apply wp_ret, HQ.
Qed.

Lemma rep_Function X s args vs o pc f x texts v (Q : ctl -> Vm -> Prop) C :
  rep X s (rev args ++ vs) -> room E vs -> p1 o = Z.of_nat (length args) -> p3 o = P3_POINTER f ->
  xFunc f = Some x -> mapM argument args = Some texts -> result_value (x texts) = Some v ->
  (forall s', rep X s' (v :: vs) -> Q (Go pc) s') -> wp (op_Function o pc) Q C s.
Proof.
  intros H Hroom Hp1 Hp3 Hx Ht Hv HQ. unfold op_Function. apply wp_bind, wp_vget.
  rewrite (rep_pos _ _ _ _ _ H), Hp1, Nat2Z.id, length_app, length_rev.
  replace (Z.of_nat (length args + length vs) - 1 + 1 - Z.of_nat (length args)) with (Z.of_nat (length vs)) by lia.
  apply wp_bind. eapply rep_argument_texts; [exact H|exact Ht|]. intros l s1 H1 Hl _.
  apply wp_bind. eapply (rep_read_texts _ _ _ _ []); [exact H1|exact Hl|exact Ht|].
  rewrite Hp3. apply wp_bind. eapply wp_of_option; [exact Hx|].
  set (n := Z.of_nat (length args)).
  assert (Hn : n = Z.of_nat (length (rev (map stringified args)))) by (by rewrite length_rev, length_map).
  assert (Hplain : forall m v', v_text v' = None -> (forall j, plain_entry E j m v') -> v' = v ->
    wp (put_result n m pc) Q C s1).
  { intros m v' Hv' Hm ->. by eapply rep_put_result. }
  unfold call_function. destruct (x texts) as [|i|r|t|[t|]]; try done.
  - injection Hv as <-. apply wp_bind, wp_ret. apply (Hplain _ VNull); [done| |done].
    intros j. by apply plain_null.
  - injection Hv as <-. apply wp_bind, wp_ret. apply (Hplain _ (VInt i)); [done| |done].
    intros j. by apply (plain_int E j (set_mflags MEM_Null blank)).
  - injection Hv as <-. apply wp_bind, wp_ret. apply (Hplain _ (VReal r)); [done| |done].
    intros j. by apply (plain_real E j (set_mflags MEM_Null blank)).
  - cbn in Hv. case_decide as Hnf; [|done]. injection Hv as <-.
    pose proof (rep_put_text X s1 _ vs n t pc Q C H1 Hroom Hn Hnf HQ) as Hw.
    apply wp_unbind in Hw. apply wp_bind, wp_bind.
    eapply wp_mono; [exact Hw| |by auto]. intros [m|] s2 H2; apply wp_ret; [exact H2|exact H2].
Qed.

(** ** Jumps *)

Lemma rep_jump X s vs p (Q : ctl -> Vm -> Prop) C :
  rep X s vs -> interrupted E = false -> Q (Go (p - 1)) s -> wp (jump p) Q C s.
Proof.
  intros H Hi HQ. unfold jump. apply wp_bind, wp_vget. destruct (rep_fields _ _ _ H) as (_ & _ & _ & _ & ->).
  rewrite Hi. by apply wp_ret.
Qed.

(** The checks on the top of the stack hold. *)
Lemma rep_check_top X s vs (Q : unit -> Vm -> Prop) C : rep X s vs -> Q tt s -> wp check_top Q C s.
Proof.
  intros H HQ. unfold check_top. apply wp_bind, wp_vget. rewrite (rep_pos _ _ _ _ _ H).
  destruct vs as [|v vs]; [by apply wp_ret|].
  destruct (Z.ltb_spec (Z.of_nat (length (v :: vs)) - 1) 0); [simpl in *; lia|].
  destruct (rep_focus E B X s [] v vs H) as (l & m & r & k & h & O & -> & Hl & _ & He & _).
  replace (Z.of_nat (length (v :: vs)) - 1) with (Z.of_nat (length vs)) by (simpl; lia).
  apply wp_bind, wp_stk; [by rewrite Hl|].
  destruct (entry_flags _ _ _ _ _ _ He) as (F1 & _ & _ & F4 & _). rewrite F1, F4.
  pose proof He as (_ & _ & _ & E4). destruct (v_text v) as [t|] eqn:Et; cbn [some].
  - destruct (storage_flags _ _ _ _ _ _ _ He Et) as (y & Hy & _ & _ & Hf & _ & _ & _ & Hsh). rewrite Hsh, Hf.
    assert (Hnn : is_null v = false) by (unfold is_null; rewrite Et; cbn; by rewrite !orb_true_r).
    assert (Hland : Z.land (type_flags v + storage_flag y) (MEM_Static + MEM_Dyn + MEM_Ephem + MEM_Short) = storage_flag y).
    { destruct v as [[i|] [q|] [u|] hv]; cbn in Et; try done; by destruct y. }
    assert (Hnz : (type_flags v + storage_flag y =? 0) = false).
    { destruct v as [[i|] [q|] [u|] hv]; cbn in Et; try done; by destruct y. }
    rewrite Hland, Hnz, Hnn, orb_true_r. apply wp_bind, wp_assert; [done|].
    apply wp_bind. apply wp_bind, wp_assert; [by destruct y|]. apply wp_bind, wp_assert; [by destruct y|].
    apply wp_bind, wp_assert; [by destruct y, (mz m)|]. apply wp_assert.
    { destruct y, (mz m) as [|c|p off|i off|i off]; try done. destruct Hy as [-> ->]. cbn. by rewrite Z.eqb_refl. }
    by apply wp_assert.
  - assert (Hnz : (mflags m =? 0) = false).
    { rewrite E4. destruct v as [[i|] [q|] [u|] hv]; cbn in Et; done. }
    rewrite Hnz. apply wp_bind, wp_assert; [done|]. apply wp_bind, wp_assert.
    { rewrite E4. destruct v as [[i|] [q|] [u|] hv]; cbn in Et; done. }
    apply wp_assert; [|done]. rewrite E4. destruct (is_null v); [done|by rewrite orb_true_r].
Qed.

End Read.

(** Runs of programs: what an instruction does at its address, as steps of the loop of
    [sqliteVdbeExec] from one stack of values to the next. *)

(** A round of the loop, with the address and the machine before and after it. *)
Definition vstep (prog : list Op) (x y : Z * Vm) : Prop := vdbe_step prog x.1 x.2 = Done (Go y.1) y.2.

Section Run.
Context (E : Vm) (B : heap) (prog : list Op).
Abbreviation rep := (rep E B ∅).

(** The machine is ready for the program, and nobody interrupts it. *)
Context (Hsize : length (aStack E) = length prog) (Hint : interrupted E = false).

Definition nOps : Z := Z.of_nat (length prog).

(** From the address [pc] with the values [vs] the program runs to [pc'] with [vs']. *)
Definition reaches (pc : Z) (vs : list value) (pc' : Z) (vs' : list value) : Prop :=
  forall s, rep s vs -> exists s', rtc (vstep prog) (pc, s) (pc', s') /\ rep s' vs'.

Lemma reaches_refl pc vs : reaches pc vs pc vs.
Proof. intros s H. exists s. by split. Qed.

Lemma reaches_trans pc1 vs1 pc2 vs2 pc3 vs3 :
  reaches pc1 vs1 pc2 vs2 -> reaches pc2 vs2 pc3 vs3 -> reaches pc1 vs1 pc3 vs3.
Proof.
  intros H1 H2 s Hs. destruct (H1 s Hs) as (s1 & R1 & Hs1). destruct (H2 s1 Hs1) as (s2 & R2 & Hs2).
  exists s2. split; [by etrans|done].
Qed.

(** The effect of an instruction. *)
Definition effect (o : Op) (pc : Z) (vs : list value) (pc' : Z) (vs' : list value) : Prop :=
  forall s (Q : ctl -> Vm -> Prop) C, rep s vs ->
    (forall s', rep s' vs' -> Q (Go (pc' - 1)) s') -> wp (exec_op nOps o pc) Q C s.

Lemma reaches_op o pc vs pc' vs' :
  at_ prog pc = Some o -> Z.of_nat (length vs) <= pc + 1 -> 0 <= pc' <= nOps ->
  effect o pc vs pc' vs' -> reaches pc vs pc' vs'.
Proof.
  intros Ho Hd Hpc He s Hs.
  assert (Hr : 0 <= pc < nOps).
  { unfold at_ in Ho. destruct (Z.leb_spec 0 pc); [|done]. apply lookup_lt_Some in Ho. unfold nOps. lia. }
  assert (Hw : wp (vdbe_step prog pc) (fun r s' => r = Go pc' /\ rep s' vs') (fun _ => False) s).
  { unfold vdbe_step. fold nOps.
    apply wp_bind, wp_assert; [apply andb_true_iff; split; [apply Z.leb_le|apply Z.ltb_lt]; lia|].
    apply wp_bind, wp_vget. rewrite (rep_pos _ _ _ _ _ Hs). apply wp_bind, wp_assert; [apply Z.leb_le; lia|].
    rewrite Ho. apply wp_bind, wp_ret, wp_bind. apply He; [done|]. intros s' Hs'.
    apply wp_bind. eapply rep_check_top; [exact Hs'|].
    destruct (Z.ltb_spec (pc' - 1) (-1)); [lia|]. destruct (Z.leb_spec nOps (pc' - 1)); [lia|].
    apply wp_ret. split; [f_equal; lia|done]. }
  apply wp_returns in Hw as (r & s' & Er & -> & Hs'). exists s'. split; [|done].
  by apply rtc_once.
Qed.

(** On to the next instruction, and a jump. *)
Lemma reaches_next o pc vs vs' :
  at_ prog pc = Some o -> Z.of_nat (length vs) <= pc + 1 ->
  (forall s (Q : ctl -> Vm -> Prop) C, rep s vs ->
     (forall s', rep s' vs' -> Q (Go pc) s') -> wp (exec_op nOps o pc) Q C s) ->
  reaches pc vs (pc + 1) vs'.
Proof.
  intros Ho Hd He.
  assert (Hr : 0 <= pc < nOps).
  { unfold at_ in Ho. destruct (Z.leb_spec 0 pc); [|done]. apply lookup_lt_Some in Ho. unfold nOps. lia. }
  eapply reaches_op; [exact Ho|exact Hd|lia|]. intros s Q C Hs HQ. apply He; [done|].
  intros s' Hs'. replace pc with (pc + 1 - 1) by lia. by apply HQ.
Qed.

Lemma reaches_branch o pc (c : bool) vs vs' :
  at_ prog pc = Some o -> Z.of_nat (length vs) <= pc + 1 -> 0 <= p2 o <= nOps ->
  (forall s (Q : ctl -> Vm -> Prop) C, rep s vs ->
     (forall s', rep s' vs' -> Q (Go (if c then p2 o - 1 else pc)) s') -> wp (exec_op nOps o pc) Q C s) ->
  reaches pc vs (if c then p2 o else pc + 1) vs'.
Proof.
  intros Ho Hd Hp He. destruct c.
  - eapply reaches_op; [exact Ho|exact Hd|lia|]. intros s Q C Hs HQ. by apply He.
  - by eapply reaches_next.
Qed.

(** Room for a value. *)
Lemma room_below pc o vs : at_ prog pc = Some o -> Z.of_nat (length vs) <= pc -> room E vs.
Proof.
  intros Ho Hd. unfold at_ in Ho. destruct (Z.leb_spec 0 pc); [|done]. apply lookup_lt_Some in Ho.
  unfold room. lia.
Qed.

(** ** The instructions of expressions *)

Context (pc : Z) (vs : list value).

(** The depth of the stack does not exceed the address. *)
Definition fits (ws : list value) : Prop := Z.of_nat (length ws) <= pc + 1.

Lemma fits_room o w ws : at_ prog pc = Some o -> fits (w :: ws) -> room E ws.
Proof. intros Ho Hf. eapply room_below; [exact Ho|]. unfold fits in Hf. simpl in Hf. lia. Qed.

Lemma fits_room2 o w1 w2 ws : at_ prog pc = Some o -> fits (w1 :: w2 :: ws) -> room E ws.
Proof. intros Ho Hf. eapply room_below; [exact Ho|]. unfold fits in Hf. simpl in Hf. lia. Qed.

Ltac start Ec := intros s Q C Hs HQ; unfold exec_op; rewrite Ec.
Ltac which Hop H := repeat (apply elem_of_cons in Hop as [->|Hop]; [exact H|]); by apply not_elem_of_nil in Hop.

Lemma run_goto o : at_ prog pc = Some o -> op_code o = Some OP_Goto -> fits vs -> 0 <= p2 o <= nOps ->
  reaches pc vs (p2 o) vs.
Proof.
  intros Ho Ec Hd Hp. apply (reaches_branch o pc true); [done|exact Hd|done|]. start Ec.
  eapply rep_jump; [exact Hs|done|]. by apply HQ.
Qed.

Lemma run_arith o op t n v : at_ prog pc = Some o -> op_code o = Some op ->
  op ∈ [OP_Add; OP_Subtract; OP_Multiply; OP_Divide; OP_Remainder] ->
  fits (t :: n :: vs) -> arith_value op n t = Some v -> reaches pc (t :: n :: vs) (pc + 1) (v :: vs).
Proof.
  intros Ho Ec Hop Hd Hv. eapply reaches_next; [exact Ho|exact Hd|]. start Ec.
  assert (Hw : wp (op_arith op pc) Q C s) by (by eapply rep_arith). which Hop Hw.
Qed.

Lemma run_bits o op t n v : at_ prog pc = Some o -> op_code o = Some op ->
  op ∈ [OP_BitAnd; OP_BitOr; OP_ShiftLeft; OP_ShiftRight] ->
  fits (t :: n :: vs) -> v_heavy t = false -> v_heavy n = false -> bits_value op n t = Some v ->
  reaches pc (t :: n :: vs) (pc + 1) (v :: vs).
Proof.
  intros Ho Ec Hop Hd Lt Ln Hv. eapply reaches_next; [exact Ho|exact Hd|]. start Ec.
  assert (Hw : wp (op_bits op pc) Q C s) by (eapply rep_bits; try done; by eapply fits_room2). which Hop Hw.
Qed.

Lemma run_logic o op t n a b : at_ prog pc = Some o -> op_code o = Some op -> op = OP_And \/ op = OP_Or ->
  fits (t :: n :: vs) -> v_heavy t = false -> truth n = Some a -> truth t = Some b ->
  reaches pc (t :: n :: vs) (pc + 1) (of_truth (match op with OP_And => k_and a b | _ => k_or a b end) :: vs).
Proof.
  intros Ho Ec Hop Hd Lt Ha Hb. eapply reaches_next; [exact Ho|exact Hd|]. start Ec.
  assert (Hw : wp (op_logic op pc) Q C s) by (eapply rep_logic; try done; by eapply fits_room2).
  by destruct Hop as [-> | ->].
Qed.

Lemma run_not o t v : at_ prog pc = Some o -> op_code o = Some OP_Not -> fits (t :: vs) -> v_heavy t = false ->
  integer_value (fun v => if v =? 0 then 1 else 0) t = Some v -> reaches pc (t :: vs) (pc + 1) (v :: vs).
Proof.
  intros Ho Ec Hd Lt Hv. eapply reaches_next; [exact Ho|exact Hd|]. start Ec. by eapply rep_integer.
Qed.

Lemma run_bitnot o t v : at_ prog pc = Some o -> op_code o = Some OP_BitNot -> fits (t :: vs) -> v_heavy t = false ->
  integer_value Z.lnot t = Some v -> reaches pc (t :: vs) (pc + 1) (v :: vs).
Proof.
  intros Ho Ec Hd Lt Hv. eapply reaches_next; [exact Ho|exact Hd|]. start Ec. by eapply rep_integer.
Qed.

Lemma run_negative o t v : at_ prog pc = Some o -> op_code o = Some OP_Negative -> fits (t :: vs) ->
  v_heavy t = false -> negate_value t = Some v -> reaches pc (t :: vs) (pc + 1) (v :: vs).
Proof.
  intros Ho Ec Hd Lt Hv. eapply reaches_next; [exact Ho|exact Hd|]. start Ec. by eapply rep_negative.
Qed.

Lemma run_concat o r l v : at_ prog pc = Some o -> op_code o = Some OP_Concat -> p1 o = 2 -> p2 o = 0 ->
  p3_text o = None -> fits (r :: l :: vs) -> value_ok l -> value_ok r -> concat_value l r = Some v ->
  reaches pc (r :: l :: vs) (pc + 1) (v :: vs).
Proof.
  intros Ho Ec H1 H2 H3 Hd Hl Hr Hv. eapply reaches_next; [exact Ho|exact Hd|]. start Ec.
  eapply rep_Concat; try done. by eapply fits_room2.
Qed.

(** The comparisons: the numeric opcode and the textual one. *)
Definition comparisons : list opcode := [OP_Lt; OP_Le; OP_Gt; OP_Ge; OP_Ne; OP_Eq].

Definition compare_code (text : bool) (op : opcode) : opcode :=
  if text then default op (opcode_plus op 6) else op.

Definition exec_comparison (text : bool) (op : opcode) (o : Op) : M Vm ctl :=
  if text then op_strcompare op o pc else op_compare op o pc.

Lemma exec_compare o (text : bool) op : op_code o = Some (compare_code text op) -> op ∈ comparisons ->
  exec_op nOps o pc = exec_comparison text (compare_code text op) o /\
  forall n t, compared text (compare_code text op) n t = compared text op n t.
Proof.
  intros Ec Hop. unfold exec_op. rewrite Ec. unfold comparisons in Hop.
  repeat (apply elem_of_cons in Hop as [->|Hop]; [by destruct text|]). by apply not_elem_of_nil in Hop.
Qed.

Lemma run_compare o text op t n r : at_ prog pc = Some o -> op_code o = Some (compare_code text op) ->
  op ∈ comparisons -> p2 o = 0 -> fits (t :: n :: vs) -> compared text op n t = Some r ->
  reaches pc (t :: n :: vs) (pc + 1) (of_truth r :: vs).
Proof.
  intros Ho Ec Hop H2 Hd Hr. eapply reaches_next; [exact Ho|exact Hd|]. intros s Q C Hs HQ.
  destruct (exec_compare o text op Ec Hop) as [-> Hc]. rewrite <-Hc in Hr.
  eapply rep_compare; [exact Hs|by eapply fits_room2|exact Hr|done|]. intros _. exact HQ.
Qed.

Lemma run_compare_jump o text op t n r (j : bool) : at_ prog pc = Some o -> op_code o = Some (compare_code text op) ->
  op ∈ comparisons -> 0 < p2 o <= nOps -> p1 o = Z.b2z j -> fits (t :: n :: vs) -> compared text op n t = Some r ->
  reaches pc (t :: n :: vs) (if (match r with Some b => b | None => j end) then p2 o else pc + 1) vs.
Proof.
  intros Ho Ec Hop H2 H1 Hd Hr. eapply reaches_branch; [exact Ho|exact Hd|lia|]. intros s Q C Hs HQ.
  destruct (exec_compare o text op Ec Hop) as [-> Hc]. rewrite <-Hc in Hr.
  eapply rep_compare; [exact Hs|by eapply fits_room2|exact Hr| |lia]. intros _ s' Hs'. specialize (HQ s' Hs').
  rewrite H1. by destruct r, j.
Qed.

Lemma run_if o (sense j : bool) t b : at_ prog pc = Some o ->
  op_code o = Some (if sense then OP_If else OP_IfNot) -> p1 o = Z.b2z j -> 0 <= p2 o <= nOps ->
  fits (t :: vs) -> v_heavy t = false -> truth t = Some b ->
  reaches pc (t :: vs) (if (match b with Some b => Bool.eqb b sense | None => j end) then p2 o else pc + 1) vs.
Proof.
  intros Ho Ec H1 H2 Hd Lt Hb. eapply reaches_branch; [exact Ho|exact Hd|done|]. start Ec.
  assert (Hw : wp (op_If (if sense then OP_If else OP_IfNot) o pc) Q C s).
  { eapply rep_If; [exact Hs|done|exact Hb|]. intros s' Hs'. specialize (HQ s' Hs').
    unfold jump_taken. rewrite H1. by destruct b, j. }
  by destruct sense.
Qed.

Lemma run_null_pop o (isnull : bool) t : at_ prog pc = Some o ->
  op_code o = Some (if isnull then OP_IsNull else OP_NotNull) -> p1 o = 1 -> 0 <= p2 o <= nOps ->
  fits (t :: vs) ->
  reaches pc (t :: vs) (if Bool.eqb (is_null t) isnull then p2 o else pc + 1) vs.
Proof.
  intros Ho Ec H1 H2 Hd. eapply reaches_branch; [exact Ho|exact Hd|done|]. start Ec.
  assert (Hw : wp (op_null (if isnull then OP_IsNull else OP_NotNull) o pc) Q C s).
  { eapply rep_null_pop; [exact Hs|exact H1|]. intros s' Hs'. specialize (HQ s' Hs').
    by destruct (Bool.eqb (is_null t) isnull). }
  by destruct isnull.
Qed.

Lemma run_null_keep o t : at_ prog pc = Some o -> op_code o = Some OP_NotNull -> p1 o = -1 ->
  0 <= p2 o <= nOps -> fits (t :: vs) ->
  reaches pc (t :: vs) (if is_null t then pc + 1 else p2 o) (t :: vs).
Proof.
  intros Ho Ec H1 H2 Hd.
  replace (if is_null t then pc + 1 else p2 o) with (if negb (is_null t) then p2 o else pc + 1) by (by destruct (is_null t)).
  eapply reaches_branch; [exact Ho|exact Hd|done|]. start Ec.
  eapply rep_null_keep; [exact Hs|exact H1|]. specialize (HQ s Hs). by destruct (is_null t).
Qed.

Lemma run_AddImm o i : at_ prog pc = Some o -> op_code o = Some OP_AddImm -> fits (VInt i :: vs) ->
  reaches pc (VInt i :: vs) (pc + 1) (VInt (wrap32 (i + p1 o)) :: vs).
Proof.
  intros Ho Ec Hd. eapply reaches_next; [exact Ho|exact Hd|]. start Ec. by eapply rep_AddImm.
Qed.

Lemma run_Pop o ws : at_ prog pc = Some o -> op_code o = Some OP_Pop -> fits (ws ++ vs) ->
  p1 o = Z.of_nat (length ws) -> reaches pc (ws ++ vs) (pc + 1) vs.
Proof.
  intros Ho Ec Hd H1. eapply reaches_next; [exact Ho|exact Hd|]. start Ec. by eapply rep_Pop.
Qed.

Lemma run_Pull o t v : at_ prog pc = Some o -> op_code o = Some OP_Pull -> p1 o = 1 -> fits (t :: v :: vs) ->
  v_text t = None -> reaches pc (t :: v :: vs) (pc + 1) (v :: t :: vs).
Proof.
  intros Ho Ec H1 Hd Ht. eapply reaches_next; [exact Ho|exact Hd|]. start Ec. by eapply rep_Pull.
Qed.

Lemma run_Dup o ws v : at_ prog pc = Some o -> op_code o = Some OP_Dup -> p1 o = Z.of_nat (length ws) ->
  Z.of_nat (length (ws ++ v :: vs)) <= pc ->
  reaches pc (ws ++ v :: vs) (pc + 1) (with_heavy true v :: ws ++ v :: vs).
Proof.
  intros Ho Ec H1 Hd. eapply reaches_next; [exact Ho|lia|]. start Ec.
  eapply rep_Dup; [exact Hs|by eapply room_below|exact H1|done].
Qed.

Lemma run_SetFound o (sense : bool) v t : at_ prog pc = Some o ->
  op_code o = Some (if sense then OP_SetFound else OP_SetNotFound) -> 0 <= p2 o <= nOps -> fits (v :: vs) ->
  is_null v = false -> to_text v = Some t ->
  reaches pc (v :: vs) (if Bool.eqb (in_set E (p1 o) t) sense then p2 o else pc + 1) vs.
Proof.
  intros Ho Ec H2 Hd Hn Ht. eapply reaches_branch; [exact Ho|exact Hd|done|]. start Ec.
  assert (Hw : wp (op_SetFound (if sense then OP_SetFound else OP_SetNotFound) o pc) Q C s).
  { eapply rep_SetFound; [exact Hs|done|exact Ht|]. intros s' Hs'. specialize (HQ s' Hs').
    by destruct (Bool.eqb _ sense). }
  by destruct sense.
Qed.

Lemma run_Function o args f x texts v : at_ prog pc = Some o -> op_code o = Some OP_Function ->
  Z.of_nat (length (rev args ++ vs)) <= pc + 1 -> Z.of_nat (length vs) <= pc ->
  p1 o = Z.of_nat (length args) -> p3 o = P3_POINTER f ->
  xFunc f = Some x -> mapM argument args = Some texts -> result_value (x texts) = Some v ->
  reaches pc (rev args ++ vs) (pc + 1) (v :: vs).
Proof.
  intros Ho Ec Hd Hd' H1 H3 Hx Ht Hv. eapply reaches_next; [exact Ho|exact Hd|]. start Ec.
  eapply rep_Function; [exact Hs|by eapply room_below|done..].
Qed.

(** The instructions that push need room. *)
Context (Hd : Z.of_nat (length vs) <= pc).

Lemma run_String o : at_ prog pc = Some o -> op_code o = Some OP_String ->
  match p3_text o with Some t => nulfree t | None => True end ->
  reaches pc vs (pc + 1) (match p3_text o with Some t => VText t | None => VNull end :: vs).
Proof.
  intros Ho Ec H3. eapply reaches_next; [exact Ho|lia|]. start Ec.
  eapply rep_String; [exact Hs|by eapply room_below|done|done].
Qed.

Lemma run_Integer o : at_ prog pc = Some o -> op_code o = Some OP_Integer ->
  match p3_text o with Some t => nulfree t | None => True end ->
  reaches pc vs (pc + 1) (mkValue (Some (p1 o)) None (p3_text o) false :: vs).
Proof.
  intros Ho Ec H3. eapply reaches_next; [exact Ho|lia|]. start Ec.
  eapply rep_Integer; [exact Hs|by eapply room_below|done|done].
Qed.

Lemma run_Variable o v : at_ prog pc = Some o -> op_code o = Some OP_Variable ->
  variable_value E (p1 o) = Some v -> reaches pc vs (pc + 1) (v :: vs).
Proof.
  intros Ho Ec Hv. eapply reaches_next; [exact Ho|lia|]. start Ec.
  eapply rep_Variable; [exact Hs|by eapply room_below| |exact HQ].
  destruct (rep_fields _ _ _ _ _ Hs) as (_ & -> & _). unfold variable_value in Hv.
  destruct (at_ (azVar E) (p1 o - 1)) as [[b|]|]; [|by injection Hv..].
  destruct (text_of_bytes b) as [t|] eqn:Et; [|done]. injection Hv as <-.
  apply text_of_bytes_text in Et as [-> Hn]. by exists t.
Qed.

Lemma run_MemLoad o m v : at_ prog pc = Some o -> op_code o = Some OP_MemLoad ->
  at_ (aMem E) (p1 o) = Some m -> cell_ok B (aMem E) (p1 o) m v -> reaches pc vs (pc + 1) (v :: vs).
Proof.
  intros Ho Ec Hm Hc. eapply reaches_next; [exact Ho|lia|]. start Ec.
  eapply rep_MemLoad; [exact Hs|by eapply room_below|exact Hm|done|done].
Qed.

Lemma run_Column o pC v : at_ prog pc = Some o -> op_code o = Some OP_Column -> 0 <= p1 o -> 0 <= p2 o ->
  at_ (aCsr E) (p1 o) = Some pC -> column_value pC (p2 o) = Some v -> reaches pc vs (pc + 1) (v :: vs).
Proof.
  intros Ho Ec H1 H2 Hc Hv. eapply reaches_next; [exact Ho|lia|]. start Ec.
  eapply rep_Column; [exact Hs|by eapply room_below|done|done|exact Hc|done|done].
Qed.

Lemma run_Recno o pC v : at_ prog pc = Some o -> op_code o = Some OP_Recno ->
  at_ (aCsr E) (p1 o) = Some pC -> recno_value pC = Some v -> reaches pc vs (pc + 1) (v :: vs).
Proof.
  intros Ho Ec Hc Hv. eapply reaches_next; [exact Ho|lia|]. start Ec.
  eapply rep_Recno; [exact Hs|by eapply room_below|exact Hc|done|done].
Qed.

End Run.
