(* ===== verification/ExprRun.v ===== *)
(** The code of an expression, run by the machine, leaves the value of the expression on
    the stack. *)
From S2P Require Import Prelude Util CMem CFloat Printf VdbeAux VdbeAuxProofs VdbeMem Vdbe VdbeStack VdbeEffects Expr ExprSpec ExprEmit VdbeRun.

(** * Values of expressions *)

(** What the machine can hold without a copy: every integer owns no block. *)
Definition value_light (v : value) : Prop := v_heavy v = false /\ value_ok v.

Lemma light_null : value_light VNull.
Proof. done. Qed.

Lemma light_int i : value_light (VInt i).
Proof. done. Qed.

Lemma light_real r : value_light (VReal r).
Proof. done. Qed.

Lemma light_text t : nulfree t -> value_light (VText t).
Proof. done. Qed.

Lemma light_truth b : value_light (of_truth b).
Proof. by destruct b. Qed.

Create HintDb light.
#[export] Hint Resolve light_null light_int light_real light_text light_truth : light.

Lemma light_strict l r f v : (forall w, f = Some w -> value_light w) -> strict l r f = Some v -> value_light v.
Proof. intros Hf. unfold strict. destruct (_ || _); [intros [= <-]; auto with light|apply Hf]. Qed.

Lemma light_arith op l r v : arith_value op l r = Some v -> value_light v.
Proof.
  apply light_strict. intros w H.
  assert (Hw : exists a, of_arith a = Some w).
  { destruct (v_int l), (v_int r); eexists; first [by eapply int_arith_op|by eapply real_arith_op]. }
  destruct Hw as [[] Hw]; try done; injection Hw as <-; auto with light.
Qed.

Lemma light_bits op l r v : bits_value op l r = Some v -> value_light v.
Proof.
  apply light_strict. intros w. destruct (to_integer r) as [a|]; [|done]. destruct (to_integer l) as [b|]; [|done].
  cbn. destruct (bits_result op a b); intros [= <-]. auto with light.
Qed.

Lemma light_concat l r v : value_light l -> value_light r -> concat_value l r = Some v -> value_light v.
Proof.
  intros [_ Hl] [_ Hr]. unfold concat_value. destruct (is_null l); [intros [= <-]; auto with light|].
  destruct (to_text l) as [a|] eqn:Ea; [|done]. cbn. destruct (is_null r); [intros [= <-]; auto with light|].
  destruct (to_text r) as [b|] eqn:Eb; [|done]. intros [= <-]. apply light_text, nulfree_app.
  split; [exact (to_text_nulfree l a Hl Ea)|exact (to_text_nulfree r b Hr Eb)].
Qed.

Lemma light_negate v w : negate_value v = Some w -> value_light w.
Proof.
  unfold negate_value. destruct (v_real v), (v_int v); try (intros [= <-]; auto with light).
  { destruct (exactly _); intros [= <-]; auto with light. }
  destruct (is_null v); intros [= <-]; auto with light.
Qed.

Lemma light_integer f v w : integer_value f v = Some w -> value_light w.
Proof.
  unfold integer_value. destruct (is_null v); [intros [= <-]; auto with light|].
  destruct (to_integer v); intros [= <-]. auto with light.
Qed.

Lemma light_bytes s v : VText <$> text_of_bytes s = Some v -> value_light v.
Proof.
  destruct (text_of_bytes s) as [t|] eqn:Et; intros [= <-]. apply text_of_bytes_text in Et as [_ Ht]. auto with light.
Qed.

Lemma light_result r v : result_value r = Some v -> value_light v.
Proof.
  destruct r; cbn; try (intros [= <-]; auto with light); try done. case_decide; intros [= <-]. auto with light.
Qed.

Lemma light_field rec c v : field_value rec c = Some v -> value_light v.
Proof.
  unfold field_value. destruct (_ =? 0); [intros [= <-]; auto with light|].
  destruct (_ <? _); [done|]. destruct (_ || _ || _); [done|]. destruct (_ =? _); [intros [= <-]; auto with light|].
  apply light_bytes.
Qed.

Lemma light_column pC c v : column_value pC c = Some v -> value_light v.
Proof.
  unfold column_value. destruct (pCursor pC) as [[key d]|].
  - destruct (deferredMoveto pC); [done|]. destruct (nullRow pC); [intros [= <-]; auto with light|apply light_field].
  - destruct (pseudoTable pC); [|intros [= <-]; auto with light].
    destruct (pData pC); [apply light_field|intros [= <-]; auto with light].
Qed.

Lemma light_recno pC v : recno_value pC = Some v -> value_light v.
Proof.
  unfold recno_value. destruct (deferredMoveto pC); [done|]. destruct (recnoIsValid pC); [intros [= <-]; auto with light|].
  destruct (pseudoTable pC); [intros [= <-]; auto with light|]. destruct (nullRow pC); [intros [= <-]; auto with light|].
  destruct (pCursor pC) as [[key d]|]; [|intros [= <-]; auto with light].
  destruct (block_bytes 4 (map Some key)); intros [= <-]. auto with light.
Qed.

(** The text of a literal is the operand P3 of its instruction. *)
Lemma literal_text_p3 z n : dequoted (operand_of (Z_copy z n)) = P3_DYNAMIC (literal_text z n).
Proof. unfold literal_text. cbn. by destruct (if n <=? 0 then cstr z else take (Z.to_nat n) (cstr z)) as [|c s]. Qed.

Lemma nulfree_take n t : nulfree t -> nulfree (take n t).
Proof. apply Forall_take. Qed.

Lemma literal_text_nulfree z n : nulfree (literal_text z n).
Proof.
  unfold literal_text. cbn.
  assert (Ht : nulfree (if n <=? 0 then cstr z else take (Z.to_nat n) (cstr z))).
  { destruct (n <=? 0); [|apply nulfree_take]; apply nulfree_cstr. }
  destruct (if n <=? 0 then cstr z else take (Z.to_nat n) (cstr z)); cbn; [done|]. apply nulfree_cstr.
Qed.

(** The copy of a negative number. *)
Lemma negative_text_p3 z n : operand_of (Z_copy (negative_text z n) (n + 1)) = P3_DYNAMIC (cstr (negative_text z n)).
Proof.
  cbn. destruct (Z.leb_spec (n + 1) 0); [done|]. rewrite take_ge; [done|].
  assert (Hc : forall s, (length (cstr s) <= length s)%nat).
  { induction s as [|c s IH]; cbn; [done|]. destruct (c =? 0); cbn; lia. }
  etrans; [exact (Hc (45 :: take (Z.to_nat n) z))|]. cbn. rewrite length_take. lia.
Qed.

Lemma light_literal op z t : nulfree t -> value_light (literal_value op z t).
Proof. intros Ht. destruct op; cbn; try by auto with light. destruct (sqliteFitsIn32Bits z); done. Qed.

Section Light.
Context (file_format : Z) (aFunc : func_table) (E : Vm) (cells : Z -> option value).
Context (Hcells : forall i v, cells i = Some v -> value_light v).
Abbreviation eval := (eval file_format aFunc E cells).

Lemma light_variable i v : variable_value E i = Some v -> value_light v.
Proof.
  unfold variable_value. destruct (at_ (azVar E) (i - 1)) as [[s|]|]; [apply light_bytes|intros [= <-]; auto with light..].
Qed.

Lemma light_call name args n v : call_value aFunc name args n = Some v -> value_light v.
Proof.
  unfold call_value. destruct (sqliteFindFunction _ _ _ _) as [f|]; [|done]. cbn.
  destruct (xFunc f) as [x|]; [|done]. cbn. destruct args as [l|]; [|done]. cbn.
  destruct (mapM argument l) as [a|]; [|done]. cbn. apply light_result.
Qed.

Lemma light_cases text base es otherwise v :
  Forall (fun e => forall v, eval e = Some v -> value_light v) es ->
  (forall v, otherwise = Some v -> value_light v) ->
  eval_cases eval text base es otherwise = Some v -> value_light v.
Proof.
  intros Hes Ho. induction es as [|x|w t es IH] using pairs_ind; cbn; [apply Ho..|].
  apply Forall_cons_1 in Hes as [_ Hes]. apply Forall_cons_1 in Hes as [Ht Hes].
  destruct (eval w) as [a|]; [|done]. cbn. destruct (match base with Some x => compared_as _ _ _ _ | None => _ end) as [[[|]|]|]; cbn;
    [apply Ht|by apply IH..|done].
Qed.

Lemma eval_light e : forall v, eval e = Some v -> value_light v.
Proof.
  induction e as [op dt l r li tz tn it ic ia sel IHl IHr IHli] using Expr_induction. intros v.
  assert (HL : forall w, match l with Some e => eval e | None => None end = Some w -> value_light w) by (by destruct l).
  assert (HR : forall w, match r with Some e => eval e | None => None end = Some w -> value_light w) by (by destruct r).
  set (left := match l with Some e => eval e | None => None end) in *.
  set (right := match r with Some e => eval e | None => None end) in *.
  assert (Hbin : forall f : value -> value -> option value,
    (forall a b w, value_light a -> value_light b -> f a b = Some w -> value_light w) ->
    (a ← left; b ← right; f a b) = Some v -> value_light v).
  { intros f Hf. destruct left as [a|]; [|done]. cbn. destruct right as [b|]; [|done]. cbn.
    apply Hf; [by apply HL|by apply HR]. }
  assert (Hun : forall f : value -> option value, (forall a w, f a = Some w -> value_light w) ->
    (a ← left; f a) = Some v -> value_light v).
  { intros f Hf. destruct left as [a|]; [|done]. apply Hf. }
  assert (Hcomp : forall o (e : Expr), (o ← value_opcode o; a ← left; b ← right;
      of_truth <$> compared (text_comparison file_format e) o a b) = Some v -> value_light v).
  { intros o e. destruct (value_opcode o); [|done]. cbn. apply Hbin. intros a b w _ _.
    destruct (compared _ _ a b); intros [= <-]. auto with light. }
  destruct op; cbn [ExprSpec.eval]; fold left right; try (apply Hcomp).
  - destruct (at_ (aCsr E) it) as [pC|]; [|done]. cbn. destruct (0 <=? ic); [apply light_column|apply light_recno].
  - intros [= <-]. exact (light_literal TK_STRING tz _ (literal_text_nulfree tz tn)).
  - intros [= <-]. exact (light_literal TK_FLOAT tz _ (literal_text_nulfree tz tn)).
  - intros [= <-]. exact (light_literal TK_INTEGER tz _ (literal_text_nulfree tz tn)).
  - intros [= <-]. auto with light.
  - apply light_variable.
  - apply Hbin. intros a b w _ _. destruct (truth a); [|done]. cbn. destruct (truth b); [|done]. intros [= <-]. auto with light.
  - apply Hbin. intros a b w _ _. destruct (truth a); [|done]. cbn. destruct (truth b); [|done]. intros [= <-]. auto with light.
  - cbn. apply Hbin. intros a b w _ _. apply light_arith.
  - cbn. apply Hbin. intros a b w _ _. apply light_arith.
  - cbn. apply Hbin. intros a b w _ _. apply light_arith.
  - cbn. apply Hbin. intros a b w _ _. apply light_arith.
  - cbn. apply Hbin. intros a b w _ _. apply light_bits.
  - cbn. apply Hbin. intros a b w _ _. apply light_bits.
  - cbn. apply Hbin. intros a b w _ _. apply light_arith.
  - cbn. destruct right as [b|]; [|done]. cbn. apply Hun. intros a w. apply light_bits.
  - cbn. destruct right as [b|]; [|done]. cbn. apply Hun. intros a w. apply light_bits.
  - apply Hbin. apply light_concat.
  - destruct l as [x|]; [|done].
    destruct (Expr.op x);
      try solve [intros Hv; apply (inj Some) in Hv; rewrite <-Hv; apply light_literal, nulfree_cstr];
      (destruct (eval x); [|done]; apply light_negate).
  - apply Hun. apply light_integer.
  - apply Hun. intros a w. destruct (truth a); intros [= <-]. auto with light.
  - apply Hun. intros a w [= <-]. auto with light.
  - apply Hun. intros a w [= <-]. auto with light.
  - done.
  - apply light_call.
  - apply light_call.
  - apply light_call.
  - apply Hcells.
  - apply Hun. intros a w. destruct (is_null a); [intros [= <-]; auto with light|].
    destruct (to_text a); intros [= <-]. auto with light.
  - destruct l as [e|]; [|done]. destruct li as [[|lo [|hi li]]|]; try done. apply Hun. intros a w.
    destruct (eval lo); [|done]. cbn. destruct (compared_as _ _ _ _); [|done]. cbn.
    destruct (eval hi); [|done]. cbn. destruct (compared_as _ OP_Le _ _); intros [= <-]. auto with light.
  - apply HL.
  - apply HL.
  - destruct li as [es|]; [|done].
    assert (Ho : forall w, match r with Some e => eval e | None => Some VNull end = Some w -> value_light w).
    { intros w. destruct r; [apply IHr|intros [= <-]; auto with light]. }
    destruct l as [x|]; [|by apply light_cases].
    destruct (eval x); [|done]. by apply light_cases.
  - done.
Qed.

End Light.

(** * Pieces of programs *)

Section Lengths.
Context (file_format : Z) (aFunc : func_table).
Abbreviation cexpr := (cexpr file_format aFunc).

Lemma type_string_nulfree e : nulfree (type_string e).
Proof. unfold type_string. destruct (_ =? _); by repeat constructor. Qed.

Lemma function_pos name li a :
  match sqliteFindFunction aFunc name.1 name.2 (Z.of_nat (length (default [] li))) with
  | Some f => if xFunc f is Some _ then true else false
  | None => false
  end && match li with Some es => forallb (wf aFunc) es | None => true end = true ->
  1 <= len (function_code aFunc cexpr name li a).
Proof.
  intros H. apply andb_true_iff in H as [H _]. unfold function_code.
  destruct (sqliteFindFunction _ _ _ _); [|done]. rewrite len_app, len_cons. len_lia.
Qed.

(** There is code for every value. *)
Lemma len_one o : len [o] = 1.
Proof. done. Qed.

Lemma cexpr_pos e : forall a, wf aFunc e = true -> 1 <= len (cexpr e a).
Proof.
  induction e as [op dt l r li tz tn it ic ia sel IHl IHr _] using Expr_induction. intros a Hwf.
  assert (HL : forall a, match l with Some e => wf aFunc e | None => false end = true ->
    1 <= len (match l with Some e => cexpr e a | None => [] end)).
  { intros b H. destruct l; [by apply IHl|done]. }
  destruct op; cbn [ExprSpec.cexpr]; cbv zeta; try done;
    try (rewrite ?len_app, ?len_cons, ?len_nil; len_lia).
  all: cbn in Hwf.
  - by destruct (0 <=? ic).
  - cbn. by destruct (sqliteFitsIn32Bits tz).
  - destruct l as [x|]; [|done]. destruct (Expr.op x); cbn [literal_code]; try case_match;
      rewrite ?len_app, ?len_cons, ?len_nil; len_lia.
  - by apply function_pos.
  - by apply function_pos.
  - by apply function_pos.
  - apply andb_true_iff in Hwf as [_ Hs]. destruct li as [[|lo [|hi li]]|]; try done.
    rewrite ?len_app, ?len_cons, ?len_nil. len_lia.
  - by apply HL.
  - by apply HL.
  - apply andb_true_iff in Hwf as [_ Hs]. destruct li as [es|]; [|done]. apply andb_true_iff in Hs as [Hs _].
    apply andb_true_iff in Hs as [Hev Hne]. unfold to_end.
    pose proof (case_code_nonempty cexpr l r es a (a + len (case_code cexpr l r es a 0))) as Hc.
    destruct (case_code cexpr l r es a (a + len (case_code cexpr l r es a 0))) as [|o c].
    + destruct Hc; [|done..]. by intros ->.
    + rewrite len_cons. len_lia.
Qed.

(** ** Pieces of code *)

End Lengths.

Section Pieces.
Context (prog : list Op).

(** The piece [c] of the program begins at [a]. *)
Definition code_at (a : Z) (c : list Op) : Prop := exists l r, prog = l ++ c ++ r /\ a = len l.

Lemma code_at_app a c c' : code_at a (c ++ c') <-> code_at a c /\ code_at (a + len c) c'.
Proof.
  split.
  - intros (l & r & Ep & ->). split.
    + exists l, (c' ++ r). by rewrite Ep, <-!app_assoc.
    + exists (l ++ c), r. rewrite len_app. split; [by rewrite Ep, <-!app_assoc|done].
  - intros [(l & r & E1 & ->) (l' & r' & E2 & Hl)]. exists l, r'.
    assert (l' = l ++ c) as ->.
    { assert (Hlen : length l' = length (l ++ c)) by (rewrite length_app; unfold len in Hl; lia).
      assert (E3 : l' ++ (c' ++ r') = (l ++ c) ++ r) by (by rewrite <-E2, E1, <-app_assoc).
      by apply app_inj_1 in E3 as [-> _]. }
    split; [by rewrite E2, <-!app_assoc|]. rewrite len_app in Hl. unfold len in *. lia.
Qed.

Lemma code_at_cons a o c : code_at a (o :: c) -> at_ prog a = Some o /\ code_at (a + 1) c.
Proof.
  intros (l & r & Ep & ->). split; [rewrite Ep; by apply at_middle|].
  exists (l ++ [o]), r. rewrite len_app. split; [by rewrite Ep, <-app_assoc|done].
Qed.

Lemma code_at_bounds a c : code_at a c -> 0 <= a /\ a + len c <= nOps prog.
Proof. intros (l & r & Ep & ->). unfold VdbeRun.nOps, len. rewrite Ep, !length_app. lia. Qed.

End Pieces.

(** * The code at work *)

Section Correct.
Context (file_format : Z) (aFunc : func_table) (E : Vm) (B : heap) (prog : list Op) (cells : Z -> option value).
Abbreviation eval := (eval file_format aFunc E cells).
Abbreviation cexpr := (cexpr file_format aFunc).
Abbreviation cjump := (cjump file_format aFunc).
Abbreviation reaches := (reaches E B prog).
Abbreviation nOps := (nOps prog).
Abbreviation code_at := (code_at prog).
Abbreviation cexpr_pos := (cexpr_pos file_format aFunc).

(** The stack has an entry for every instruction, nobody interrupts, and the memory
    cells hold what [cells] says. *)
Context (Hsize : length (aStack E) = length prog) (Hint : interrupted E = false).
Context (Hcells : forall i v, cells i = Some v -> exists m, at_ (aMem E) i = Some m /\ cell_ok B (aMem E) i m v).

Lemma cells_light i v : cells i = Some v -> value_light v.
Proof.
  intros H. destruct (Hcells i v H) as (m & _ & Hh & _ & _ & Ht). split; [done|]. unfold value_ok.
  destruct (v_text v); [by destruct Ht|done].
Qed.

Lemma eval_ok e v : eval e = Some v -> value_light v.
Proof. apply eval_light. exact cells_light. Qed.

Lemma reaches_via pc vs pc1 vs1 pc2 vs2 :
  reaches pc vs pc1 vs1 -> reaches pc1 vs1 pc2 vs2 -> reaches pc vs pc2 vs2.
Proof. apply reaches_trans. Qed.

Lemma reaches_same pc vs pc1 pc2 vs' : reaches pc vs pc1 vs' -> pc1 = pc2 -> reaches pc vs pc2 vs'.
Proof. by intros H <-. Qed.

(** The depth of the stack, as the instructions want it. *)
Lemma fits_here pc vs : Z.of_nat (length vs) <= pc -> fits pc vs.
Proof. unfold fits. lia. Qed.

Lemma fits_one pc v vs : Z.of_nat (length vs) <= pc -> fits pc (v :: vs).
Proof. unfold fits. simpl. lia. Qed.

(** The code of a value leaves it on the stack. *)
Definition runs (e : Expr) : Prop := forall a vs v,
  wf aFunc e = true -> eval e = Some v -> code_at a (cexpr e a) -> Z.of_nat (length vs) <= a ->
  reaches a vs (a + len (cexpr e a)) (v :: vs).

(** The code [c] at [a] leaves [v] on the stack. *)
Definition delivers (c : list Op) (a : Z) (v : value) : Prop :=
  forall vs, code_at a c -> Z.of_nat (length vs) <= a -> reaches a vs (a + len c) (v :: vs).

Lemma deliver_push o a v :
  (forall vs, at_ prog a = Some o -> Z.of_nat (length vs) <= a -> reaches a vs (a + 1) (v :: vs)) ->
  delivers [o] a v.
Proof. intros H vs Hc Hd. apply (code_at_cons prog) in Hc as [Ho _]. by apply H. Qed.

Lemma deliver_one c o a v w : delivers c a v ->
  (forall pc vs, at_ prog pc = Some o -> fits pc (v :: vs) -> reaches pc (v :: vs) (pc + 1) (w :: vs)) ->
  delivers (c ++ [o]) a w.
Proof.
  intros Hc Ho vs Hat Hd. apply (code_at_app prog) in Hat as [Hat1 Hat2]. apply (code_at_cons prog) in Hat2 as [Hat2 _].
  eapply reaches_via; [by apply Hc|]. rewrite len_app, len_one, Z.add_assoc. apply Ho; [done|].
  unfold fits. simpl. len_lia.
Qed.

Lemma deliver_two c1 c2 o a v1 v2 w : 1 <= len c1 -> delivers c1 a v1 -> delivers c2 (a + len c1) v2 ->
  (forall pc vs, at_ prog pc = Some o -> fits pc (v2 :: v1 :: vs) -> reaches pc (v2 :: v1 :: vs) (pc + 1) (w :: vs)) ->
  delivers (c1 ++ c2 ++ [o]) a w.
Proof.
  intros Hpos H1 H2 Ho vs Hat Hd. apply (code_at_app prog) in Hat as [Hat1 Hat2]. apply (code_at_app prog) in Hat2 as [Hat2 Hat3].
  apply (code_at_cons prog) in Hat3 as [Hat3 _].
  eapply reaches_via; [by apply H1|]. eapply reaches_via; [apply H2; [done|simpl; lia]|].
  rewrite !len_app, len_one, !Z.add_assoc. apply Ho; [done|]. unfold fits. simpl. len_lia.
Qed.

(** A row of arguments, the last one on top. *)
Definition delivers_all (c : list Op) (a : Z) (args : list value) : Prop :=
  forall vs, code_at a c -> Z.of_nat (length vs) <= a ->
    reaches a vs (a + len c) (rev args ++ vs) /\ Z.of_nat (length (rev args ++ vs)) <= a + len c.

Lemma deliver_list types es : Forall runs es -> forall a args, forallb (wf aFunc) es = true ->
  eval_list eval types es = Some args -> delivers_all (list_code cexpr types es a) a args.
Proof.
  induction 1 as [|e es He Hes IH]; intros a args Hwf Hv vs Hat Hd.
  { injection Hv as <-. cbn. rewrite Z.add_0_r. split; [apply reaches_refl|done]. }
  cbn in Hwf, Hv. apply andb_true_iff in Hwf as [Hwe Hwes].
  destruct (eval e) as [v|] eqn:Ev; [|done]. cbn in Hv.
  destruct (eval_list eval types es) as [r|] eqn:Er; [|done]. injection Hv as <-.
  cbn [list_code] in Hat |- *. apply (code_at_app prog) in Hat as [Hat1 Hat2].
  set (c := cexpr e a ++ (if types then [I3 OP_String 0 0 (P3_STATIC (type_string e))] else [])) in *.
  set (ts := if types then [VText (type_name (sqliteExprType e))] else []) in *.
  assert (Hpos := cexpr_pos e a Hwe).
  assert (Hfirst : reaches a vs (a + len c) (ts ++ v :: vs) /\ Z.of_nat (length (ts ++ v :: vs)) <= a + len c).
  { apply (code_at_app prog) in Hat1 as [Hc1 Hc2]. pose proof (He a vs v Hwe Ev Hc1 Hd) as Hr. unfold c, ts.
    rewrite len_app. destruct types; cbn [app length].
    - apply (code_at_cons prog) in Hc2 as [Ho _]. rewrite len_one, Z.add_assoc. split; [|lia].
      eapply reaches_via; [exact Hr|].
      refine (run_String E B prog Hsize _ (v :: vs) _ _ Ho _ _); [simpl; lia|done|by apply type_string_nulfree].
    - rewrite len_nil, Z.add_0_r. split; [exact Hr|lia]. }
  destruct Hfirst as [Hr1 Hd1]. destruct (IH _ r Hwes eq_refl _ Hat2 Hd1) as [Hr2 Hd2].
  replace (rev (v :: ts ++ r) ++ vs) with (rev r ++ ts ++ v :: vs).
  - rewrite len_app, Z.add_assoc. split; [|done]. by eapply reaches_via.
  - cbn [rev]. rewrite rev_app_distr, <-!app_assoc. f_equal. unfold ts. by destruct types.
Qed.

(** ** CASE *)

Lemma compared_heavy text op n b v : compared text op n (with_heavy b v) = compared text op n v.
Proof. by destruct v. Qed.

(** Opposite comparisons. *)
Lemma compared_not op op' text n t r :
  (forall c, compare_op op' c = negb (compare_op op c)) ->
  compared text op n t = Some r -> compared text op' n t = Some (k_not r).
Proof.
  intros Hop. unfold compared. destruct (is_null n || is_null t); [by intros [= <-]|].
  destruct (if text then compare_strings n t else compare_values n t); [|done]. intros [= <-]. cbn. by rewrite Hop.
Qed.

Definition base_entry (base : option value) : list value := match base with Some x => [x] | None => [] end.

(** The test of a WHEN: on to the THEN, or to the next one. *)
Lemma run_when base w a vs c next v b :
  runs w -> wf aFunc w = true -> eval w = Some v ->
  match base with Some x => compared false OP_Eq v x | None => truth v end = Some b ->
  c = cexpr w a ++ (if (if base is Some _ then true else false) then [I OP_Dup 1 1; I OP_Ne 1 next; I OP_Pop 1 0] else [I OP_IfNot 1 next]) ->
  code_at a c -> Z.of_nat (length (base_entry base ++ vs)) <= a -> 0 < next <= nOps ->
  match b with
  | Some true => reaches a (base_entry base ++ vs) (a + len c) vs
  | _ => reaches a (base_entry base ++ vs) next (base_entry base ++ vs)
  end.
Proof.
  intros Hw Hwf Hv Hb -> Hat Hd Hnext. apply (code_at_app prog) in Hat as [Hat1 Hat2].
  pose proof (Hw a _ v Hwf Hv Hat1 Hd) as Hr. pose proof (cexpr_pos w a Hwf) as Hpos.
  rewrite len_app. set (p := a + len (cexpr w a)) in *. destruct base as [x|]; cbn [base_entry app] in *.
  - apply (code_at_cons prog) in Hat2 as [O1 Hat2]. apply (code_at_cons prog) in Hat2 as [O2 Hat2]. apply (code_at_cons prog) in Hat2 as [O3 _].
    pose proof (run_Dup E B prog Hsize p vs _ [v] x O1 eq_refl eq_refl) as R1. cbn [app length] in R1.
    specialize (R1 ltac:(cbn [length] in Hd; lia)).
    assert (Hne : compared false OP_Ne v (with_heavy true x) = Some (k_not b)).
    { rewrite compared_heavy. by apply (compared_not OP_Eq). }
    assert (Hf : fits (p + 1) (with_heavy true x :: v :: x :: vs)) by (unfold fits; cbn [length] in *; lia).
    assert (R2 : reaches (p + 1) (with_heavy true x :: v :: x :: vs)
      (if match k_not b with Some b => b | None => true end then next else p + 1 + 1) (x :: vs)).
    { apply (run_compare_jump E B prog Hsize (p + 1) (x :: vs) (I OP_Ne 1 next) false OP_Ne _ _ (k_not b) true);
        try done. unfold comparisons. set_solver. }
    pose proof (reaches_via _ _ _ _ _ _ Hr (reaches_via _ _ _ _ _ _ R1 R2)) as R3.
    destruct b as [[|]|]; cbn in R3; [|exact R3..].
    eapply reaches_via; [exact R3|].
    replace (a + (len (cexpr w a) + len [I OP_Dup 1 1; I OP_Ne 1 next; I OP_Pop 1 0])) with (p + 1 + 1 + 1)
      by (unfold p, len; simpl; lia).
    apply (run_Pop E B prog Hsize (p + 1 + 1) vs _ [x] O3 eq_refl); [|done]. unfold fits. cbn [app length] in *. lia.
  - apply (code_at_cons prog) in Hat2 as [O1 _]. destruct (eval_ok w v Hv) as [Lv _].
    assert (R1 : reaches p (v :: vs)
      (if (match b with Some b => Bool.eqb b false | None => true end) then next else p + 1) vs).
    { apply (run_if E B prog Hsize p vs (I OP_IfNot 1 next) false true v b); try done; [cbn; lia|].
      unfold fits. cbn [length] in *. lia. }
    pose proof (reaches_via _ _ _ _ _ _ Hr R1) as R2.
    destruct b as [[|]|]; cbn in R2; [|exact R2..].
    rewrite len_one. eapply reaches_same; [exact R2|]. unfold p. lia.
Qed.

Lemma run_cases text base d otherwise es : Forall runs es -> forall a vs v,
  forallb (wf aFunc) es = true -> Nat.even (length es) = true ->
  eval_cases eval text base es otherwise = Some v ->
  code_at a (cases_code cexpr (if base is Some _ then true else false) d es a) ->
  Z.of_nat (length (base_entry base ++ vs)) <= a -> 0 <= d <= nOps ->
  reaches a (base_entry base ++ vs) d (v :: vs) \/
  (otherwise = Some v /\
   reaches a (base_entry base ++ vs)
     (a + len (cases_code cexpr (if base is Some _ then true else false) d es a)) (base_entry base ++ vs)).
Proof.
  induction es as [|x|w t es IH] using pairs_ind; intros Hes a vs v Hwf Hev Hv Hat Hd Hdest.
  { right. split; [done|]. cbn. rewrite Z.add_0_r. apply reaches_refl. }
  { done. }
  apply Forall_cons_1 in Hes as [Hw Hes]. apply Forall_cons_1 in Hes as [Ht Hes].
  cbn in Hwf. apply andb_true_iff in Hwf as [Wfw Hwf]. apply andb_true_iff in Hwf as [Wft Hwf].
  cbn [eval_cases] in Hv. destruct (eval w) as [vw|] eqn:Ew; [|done]. cbn in Hv.
  destruct (match base with Some x => compared_as (text w) OP_Eq vw x | None => truth vw end) as [b|] eqn:Ec; [|done].
  assert (Eb : match base with Some x => compared false OP_Eq vw x | None => truth vw end = Some b)
    by (destruct base; [by eapply compared_as_plain|done]).
  cbn in Hv. cbn [cases_code] in Hat |- *.
  set (a1 := a + len (cexpr w a) + (if (if base is Some _ then true else false) then 3 else 1)) in *.
  set (next := a1 + len (cexpr t a1) + 1) in *. rewrite app_assoc in Hat |- *.
  set (test := cexpr w a ++ _) in *.
  assert (Ha1 : a + len test = a1).
  { unfold test, a1. rewrite len_app. destruct base; [unfold len at 2|unfold len at 2]; simpl; lia. }
  apply (code_at_app prog) in Hat as [Hat1 Hat2]. rewrite Ha1 in Hat2.
  apply (code_at_app prog) in Hat2 as [Hat2 Hat3]. apply (code_at_cons prog) in Hat3 as [Og Hat3]. cbn [app] in Hat3.
  fold next in Hat3. pose proof (code_at_bounds prog _ _ Hat3) as Hb3. pose proof (code_at_bounds prog _ _ Hat1) as Hb1.
  pose proof (len_pos (cases_code cexpr (if base is Some _ then true else false) d es next)) as Hl3.
  pose proof (cexpr_pos w a Wfw) as Hpos. pose proof (len_pos (cexpr t a1)) as Hlt.
  assert (Hlow : a + 1 <= a1) by (unfold a1; destruct base; lia).
  pose proof (run_when base w a vs test next vw b Hw Wfw Ew Eb eq_refl Hat1 Hd) as Htest.
  specialize (Htest ltac:(lia)). rewrite Ha1 in Htest.
  assert (Hnext : eval_cases eval text base es otherwise = Some v ->
    reaches a (base_entry base ++ vs) next (base_entry base ++ vs) ->
    reaches a (base_entry base ++ vs) d (v :: vs) \/
    (otherwise = Some v /\ reaches a (base_entry base ++ vs)
       (a + len (test ++ cexpr t a1 ++ [I OP_Goto 0 d] ++ cases_code cexpr (if base is Some _ then true else false) d es next))
       (base_entry base ++ vs))).
  { intros Hv' Hr. destruct (IH Hes next vs v Hwf Hev Hv' Hat3) as [R|[Ho R]]; [lia|done| |].
    - left. by eapply reaches_via.
    - right. split; [done|]. rewrite !len_app, len_one.
      eapply reaches_same; [by eapply reaches_via|]. unfold next. lia. }
  destruct b as [[|]|]; [|by apply Hnext..].
  left. eapply reaches_via; [exact Htest|].
  assert (Hd1 : Z.of_nat (length vs) <= a1) by (rewrite length_app in Hd; lia).
  eapply reaches_via; [by apply Ht|].
  eapply (run_goto E B prog Hsize Hint _ _ (I OP_Goto 0 d)); [exact Og|done| |done].
  unfold fits. cbn [length]. lia.
Qed.

Lemma case_code_len l r es a d d' : len (case_code cexpr l r es a d) = len (case_code cexpr l r es a d').
Proof.
  unfold case_code. cbv zeta. rewrite !len_app. by rewrite (cases_code_len _ _ d d').
Qed.

(** The way out of a CASE: the rest of its code, with the base still there. *)
Lemma run_otherwise base r p vs v c :
  opt_prop runs r -> match r with Some e => wf aFunc e | None => true end = true ->
  match r with Some e => eval e | None => Some VNull end = Some v ->
  c = (if (if base is Some _ then true else false) then [I OP_Pop 1 0] else []) ++
      match r with
      | Some e => cexpr e (p + len (if (if base is Some _ then true else false) then [I OP_Pop 1 0] else []))
      | None => [I OP_String 0 0]
      end ->
  code_at p c -> Z.of_nat (length (base_entry base ++ vs)) <= p ->
  reaches p (base_entry base ++ vs) (p + len c) (v :: vs).
Proof.
  intros Hr Hwf Hv -> Hat Hd. apply (code_at_app prog) in Hat as [Hat1 Hat2].
  set (q := p + len _) in *.
  assert (Hpop : reaches p (base_entry base ++ vs) q vs /\ Z.of_nat (length vs) <= q).
  { unfold q. destruct base as [x|]; cbn [base_entry app length] in *.
    - apply (code_at_cons prog) in Hat1 as [O1 _]. rewrite len_one. split; [|lia].
      apply (run_Pop E B prog Hsize p vs _ [x] O1 eq_refl); [|done]. unfold fits. cbn [app length]. lia.
    - rewrite len_nil, Z.add_0_r. split; [apply reaches_refl|done]. }
  destruct Hpop as [Hpop Hd2]. eapply reaches_via; [exact Hpop|]. rewrite len_app, Z.add_assoc. fold q.
  destruct r as [e|].
  - by apply Hr.
  - injection Hv as <-. apply (code_at_cons prog) in Hat2 as [O1 _]. rewrite len_one.
    by apply (run_String E B prog Hsize q vs Hd2 _ O1).
Qed.

Lemma deliver_case l r es a v :
  opt_prop runs l -> opt_prop runs r -> Forall runs es ->
  match l with Some e => wf aFunc e | None => true end = true ->
  match r with Some e => wf aFunc e | None => true end = true ->
  forallb (wf aFunc) es = true -> Nat.even (length es) = true ->
  match l with
  | Some x => v ← eval x; eval_cases eval (text_pair file_format x) (Some v) es (match r with Some e => eval e | None => Some VNull end)
  | None => eval_cases eval (fun _ => false) None es (match r with Some e => eval e | None => Some VNull end)
  end = Some v ->
  delivers (to_end a (case_code cexpr l r es a)) a v.
Proof.
  intros Hl Hr Hes Wl Wr Wes Hev Hv vs Hat Hd. unfold to_end in *. set (d := a + len (case_code cexpr l r es a 0)) in *.
  rewrite (case_code_len l r es a d 0). fold d. pose proof (code_at_bounds prog _ _ Hat) as Hb.
  rewrite (case_code_len l r es a d 0) in Hb. fold d in Hb.
  pose proof (len_pos (case_code cexpr l r es a 0)) as Hpos0.
  assert (Hbase : exists text base, (if l is Some _ then true else false) = (if base is Some _ then true else false) /\
    eval_cases eval text base es (match r with Some e => eval e | None => Some VNull end) = Some v /\
    (code_at a (match l with Some e => cexpr e a | None => [] end) ->
     reaches a vs (a + len (match l with Some e => cexpr e a | None => [] end)) (base_entry base ++ vs) /\
     Z.of_nat (length (base_entry base ++ vs)) <= a + len (match l with Some e => cexpr e a | None => [] end))).
  { destruct l as [x|].
    - destruct (eval x) as [b|] eqn:Ex; [|done]. exists (text_pair file_format x), (Some b). split; [done|]. split; [done|]. intros Hx.
      split; [by apply Hl|]. pose proof (cexpr_pos x a Wl). simpl. lia.
    - exists (fun _ => false), None. split; [done|]. split; [done|]. intros _. rewrite len_nil, Z.add_0_r. split; [apply reaches_refl|done]. }
  destruct Hbase as (text & base & Eb & Hcases & Hfirst). unfold case_code in Hat. cbv zeta in Hat. rewrite Eb in Hat.
  rewrite <-!app_assoc in Hat.
  apply (code_at_app prog) in Hat as [Hat1 Hat2]. destruct (Hfirst Hat1) as [R1 Hd1].
  set (p1 := a + len (match l with Some e => cexpr e a | None => [] end)) in *.
  apply (code_at_app prog) in Hat2 as [Hat2 Hat3].
  eapply reaches_via; [exact R1|].
  destruct (run_cases text base d _ es Hes p1 vs v Wes Hev Hcases Hat2 Hd1) as [R2|[Ho R2]]; [lia|exact R2|].
  eapply reaches_via; [exact R2|].
  eapply reaches_same.
  - eapply run_otherwise; [exact Hr|exact Wr|exact Ho|reflexivity| |].
    + match goal with |- code_at ?p ?c => match type of Hat3 with code_at ?q ?c' => replace c with c'; [exact Hat3|] end end.
      f_equal. destruct r; [|done]. f_equal. rewrite !len_app. unfold p1. lia.
    + pose proof (len_pos (cases_code cexpr (if base is Some _ then true else false) d es p1)). lia.
  - assert (Ed : d = a + len (case_code cexpr l r es a d)) by (unfold d at 1; f_equal; apply case_code_len).
    etrans; [|symmetry; exact Ed]. unfold case_code. cbv zeta. rewrite Eb, !len_app. fold p1.
    unfold p1. destruct r; [one_address|]; lia.
Qed.

(** ** The operators *)

Lemma truth_of_truth b : truth (of_truth b) = Some b.
Proof. by destruct b as [[|]|]. Qed.

Lemma deliver_literal op z t a : nulfree t -> delivers (literal_code op z (P3_DYNAMIC t)) a (literal_value op z t).
Proof.
  intros Ht. unfold literal_code, literal_value. destruct op; try (apply deliver_push; intros vs Ho Hd;
    by apply (run_String E B prog Hsize a vs Hd _ Ho)).
  destruct (sqliteFitsIn32Bits z); apply deliver_push; intros vs Ho Hd.
  - by apply (run_Integer E B prog Hsize a vs Hd _ Ho).
  - by apply (run_String E B prog Hsize a vs Hd _ Ho).
Qed.

Lemma deliver_isnull (isnull : bool) e a v : runs e -> wf aFunc e = true -> eval e = Some v ->
  delivers ([I OP_Integer 1 0] ++ cexpr e (a + 1) ++
    [I (if isnull then OP_IsNull else OP_NotNull) 1 (a + 1 + len (cexpr e (a + 1)) + 2); I OP_AddImm (-1) 0])
    a (of_truth (Some (Bool.eqb (is_null v) isnull))).
Proof.
  intros He Hwf Hv vs Hat Hd. set (q := a + 1 + len (cexpr e (a + 1))) in *.
  apply (code_at_app prog) in Hat as [Hat1 Hat2]. apply (code_at_cons prog) in Hat1 as [O1 _]. rewrite len_one in Hat2.
  apply (code_at_app prog) in Hat2 as [Hat2 Hat3]. fold q in Hat3. pose proof (code_at_bounds prog _ _ Hat3) as Hb.
  apply (code_at_cons prog) in Hat3 as [O2 Hat3]. apply (code_at_cons prog) in Hat3 as [O3 _].
  pose proof (cexpr_pos e (a + 1) Hwf) as Hpos.
  eapply reaches_via; [by apply (run_Integer E B prog Hsize a vs Hd _ O1)|]. cbn [p1 p3_text p3 I].
  eapply reaches_via; [apply He; [done|done|exact Hat2|simpl; lia]|]. fold q.
  eapply reaches_via.
  { eapply (run_null_pop E B prog Hsize q _ _ isnull v O2); [by destruct isnull|done| |].
    - cbn. unfold len in Hb. simpl in Hb. lia.
    - unfold fits. simpl. lia. }
  rewrite !len_app, len_one. change (len [_; _]) with 2. rewrite !Z.add_assoc. fold q.
  destruct (Bool.eqb (is_null v) isnull); [apply reaches_refl|].
  eapply reaches_same; [apply (run_AddImm E B prog Hsize (q + 1) vs (I OP_AddImm (-1) 0) 1 O3 eq_refl)|lia].
  unfold fits. simpl. lia.
Qed.

Lemma deliver_in e it a v w : runs e -> wf aFunc e = true -> eval e = Some v ->
  (if is_null v then Some VNull else t ← to_text v; Some (of_truth (Some (in_set E it t)))) = Some w ->
  let b := a + 1 + len (cexpr e (a + 1)) in
  delivers ([I OP_Integer 1 0] ++ cexpr e (a + 1) ++
    [I OP_NotNull (-1) (b + 4); I OP_Pop 2 0; I OP_String 0 0; I OP_Goto 0 (b + 6);
     I OP_SetFound it (b + 6); I OP_AddImm (-1) 0]) a w.
Proof.
  intros He Hwf Hv Hw q vs Hat Hd.
  apply (code_at_app prog) in Hat as [Hat1 Hat2]. apply (code_at_cons prog) in Hat1 as [O1 _]. rewrite len_one in Hat2.
  apply (code_at_app prog) in Hat2 as [Hat2 Hat3]. fold q in Hat3. pose proof (code_at_bounds prog _ _ Hat3) as Hb.
  change (len [_; _; _; _; _; _]) with 6 in Hb.
  apply (code_at_cons prog) in Hat3 as [O2 Hat3]. apply (code_at_cons prog) in Hat3 as [O3 Hat3].
  apply (code_at_cons prog) in Hat3 as [O4 Hat3]. apply (code_at_cons prog) in Hat3 as [O5 Hat3].
  apply (code_at_cons prog) in Hat3 as [O6 Hat3]. apply (code_at_cons prog) in Hat3 as [O7 _].
  pose proof (cexpr_pos e (a + 1) Hwf) as Hpos.
  eapply reaches_via; [by apply (run_Integer E B prog Hsize a vs Hd _ O1)|]. cbn [p1 p3_text p3 I].
  eapply reaches_via; [apply He; [done|done|exact Hat2|simpl; lia]|]. fold q.
  eapply reaches_via.
  { eapply (run_null_keep E B prog Hsize q _ _ v O2); [done|done|cbn; lia|unfold fits; simpl; lia]. }
  rewrite !len_app, len_one. change (len [_; _; _; _; _; _]) with 6. rewrite !Z.add_assoc. fold q.
  destruct (is_null v) eqn:En.
  - injection Hw as <-.
    eapply reaches_via.
    { apply (run_Pop E B prog Hsize (q + 1) vs _ [v; VInt 1] O3 eq_refl); [unfold fits; simpl; lia|done]. }
    eapply reaches_via; [apply (run_String E B prog Hsize (q + 1 + 1) vs ltac:(lia) _ O4); done|].
    apply (run_goto E B prog Hsize Hint _ _ (I OP_Goto 0 (q + 6)) O5 eq_refl); [unfold fits; simpl; lia|cbn; lia].
  - destruct (to_text v) as [t|] eqn:Et; [|done]. injection Hw as <-. cbn [p2 I].
    replace (q + 4) with (q + 1 + 1 + 1 + 1) in * by lia. eapply reaches_via.
    { eapply (run_SetFound E B prog Hsize _ _ _ true v t O6); [done|cbn; lia|unfold fits; simpl; lia|done|done]. }
    cbn [p1 p2 I]. destruct (in_set E it t); cbn [Bool.eqb]; [apply reaches_refl|].
    eapply reaches_same; [apply (run_AddImm E B prog Hsize _ vs (I OP_AddImm (-1) 0) 1 O7 eq_refl)|lia].
    unfold fits. simpl. lia.
Qed.

Lemma deliver_between l lo hi a v vlo vhi r1 r2 :
  runs l -> runs lo -> runs hi -> wf aFunc l = true -> wf aFunc lo = true -> wf aFunc hi = true ->
  eval l = Some v -> eval lo = Some vlo -> eval hi = Some vhi ->
  compared false OP_Ge v vlo = Some r1 -> compared false OP_Le v vhi = Some r2 ->
  let c1 := cexpr l a ++ [I OP_Dup 0 0] in
  let c2 := c1 ++ cexpr lo (a + len c1) ++ [I OP_Ge 0 0; I OP_Pull 1 0] in
  delivers (c2 ++ cexpr hi (a + len c2) ++ [I OP_Le 0 0; I OP_And 0 0]) a (of_truth (k_and r1 r2)).
Proof.
  intros Hl Hlo Hhi Wl Wlo Whi Vl Vlo Vhi E1 E2 c1 c2 vs Hat Hd.
  pose proof (cexpr_pos l a Wl) as P1. pose proof (cexpr_pos lo (a + len c1) Wlo) as P2.
  pose proof (cexpr_pos hi (a + len c2) Whi) as P3.
  assert (L1 : len c1 = len (cexpr l a) + 1) by (unfold c1; by rewrite len_app).
  assert (L2 : len c2 = len c1 + len (cexpr lo (a + len c1)) + 2).
  { unfold c2. rewrite !len_app. change (len [_; _]) with 2. lia. }
  apply (code_at_app prog) in Hat as [Hat2 Hat3]. apply (code_at_app prog) in Hat3 as [Hat3 Hat4].
  unfold c2 in Hat2. apply (code_at_app prog) in Hat2 as [Hat1 Hat2]. apply (code_at_app prog) in Hat2 as [Hat2 Hat5].
  unfold c1 in Hat1. apply (code_at_app prog) in Hat1 as [Hat1 Hat6].
  apply (code_at_cons prog) in Hat6 as [O1 _]. apply (code_at_cons prog) in Hat5 as [O2 Hat5].
  apply (code_at_cons prog) in Hat5 as [O3 _]. apply (code_at_cons prog) in Hat4 as [O4 Hat4].
  apply (code_at_cons prog) in Hat4 as [O5 _].
  eapply reaches_via; [by apply Hl|].
  eapply reaches_via; [apply (run_Dup E B prog Hsize _ vs _ [] v O1 eq_refl eq_refl); simpl; lia|]. cbn [app].
  replace (a + len (cexpr l a) + 1) with (a + len c1) by lia.
  eapply reaches_via; [apply Hlo; [done|exact Vlo|exact Hat2|simpl; lia]|].
  eapply reaches_via.
  { eapply (run_compare E B prog Hsize _ _ _ false OP_Ge _ _ r1 O2); [done|unfold comparisons; set_solver|done| |].
    - unfold fits. simpl. lia.
    - by destruct v. }
  eapply reaches_via.
  { apply (run_Pull E B prog Hsize _ vs _ (of_truth r1) v O3 eq_refl eq_refl); [unfold fits; simpl; lia|by destruct r1]. }
  replace (a + len c1 + len (cexpr lo (a + len c1)) + 1 + 1) with (a + len c2) by lia.
  eapply reaches_via; [apply Hhi; [done|exact Vhi|exact Hat3|simpl; lia]|].
  eapply reaches_via.
  { eapply (run_compare E B prog Hsize _ _ _ false OP_Le _ _ r2 O4); [done|unfold comparisons; set_solver|done| |exact E2].
    unfold fits. simpl. lia. }
  eapply reaches_same.
  { apply (run_logic E B prog Hsize _ vs _ OP_And (of_truth r2) (of_truth r1) r1 r2 O5); [done|by left| |by destruct r2|apply truth_of_truth..].
    unfold fits. simpl. lia. }
  rewrite !len_app. change (len [_; _]) with 2. lia.
Qed.

Lemma list_count_args (f : Expr -> option value) types li args :
  match li with Some l => eval_list f types l | None => Some [] end = Some args ->
  list_count types (default [] li) = Z.of_nat (length args).
Proof.
  destruct li as [es|]; cbn [default]; [|by intros [= <-]]. revert args.
  induction es as [|e es IH]; intros args; cbn; [by intros [= <-]|].
  destruct (f e) as [v|]; [|done]. cbn. destruct (eval_list f types es) as [r|]; [|done]. intros [= <-].
  specialize (IH r eq_refl). unfold id, list_count in *. cbn [length]. rewrite length_app. destruct types; simpl in *; lia.
Qed.

Lemma deliver_call name li args a v n :
  n = Z.of_nat (length (default [] li)) ->
  opt_prop (Forall runs) li -> match li with Some es => forallb (wf aFunc) es | None => true end = true ->
  match li with Some l => eval_list eval (function_types aFunc name n) l | None => Some [] end = args ->
  call_value aFunc name args n = Some v ->
  delivers (function_code aFunc cexpr name li a) a v.
Proof.
  intros -> Hli Hwf <- Hv vs Hat Hd. unfold call_value, function_types in Hv. unfold function_code in *.
  destruct (sqliteFindFunction aFunc name.1 name.2 _) as [f|]; [|done]. cbn in Hv.
  destruct (xFunc f) as [x|] eqn:Ex; [|done]. cbn in Hv.
  destruct (match li with Some l => eval_list eval (includeTypes f) l | None => Some [] end) as [args|] eqn:Ea; [|done].
  cbn in Hv. destruct (mapM argument args) as [texts|] eqn:Et; [|done]. cbn in Hv.
  apply (code_at_app prog) in Hat as [Hat1 Hat2]. apply (code_at_cons prog) in Hat2 as [O1 _].
  set (c := match li with Some l => list_code cexpr (includeTypes f) l a | None => [] end) in *.
  assert (Hargs : reaches a vs (a + len c) (rev args ++ vs) /\ Z.of_nat (length (rev args ++ vs)) <= a + len c).
  { unfold c in *. destruct li as [es|].
    - by eapply deliver_list.
    - injection Ea as <-. cbn. rewrite Z.add_0_r. split; [apply reaches_refl|done]. }
  destruct Hargs as [R1 Hd1]. eapply reaches_via; [exact R1|].
  rewrite len_app, len_one, Z.add_assoc.
  eapply (run_Function E B prog Hsize _ vs _ args f x texts v O1); [done|lia|pose proof (len_pos c); lia| |done|done|done|done].
  cbn [p1 I3]. apply list_count_args with (types := includeTypes f) (f := eval).
  destruct li; [done|]. by injection Ea as <-.
Qed.

Lemma not_value x b : truth x = Some b ->
  integer_value (fun v => if v =? 0 then 1 else 0) x = Some (of_truth (k_not b)).
Proof.
  intros H%truth_integer. unfold integer_value. destruct (is_null x); [by rewrite H|].
  destruct H as (i & -> & ->). cbn. by destruct (i =? 0).
Qed.

(** Values. *)
Lemma all_run e : runs e.
Proof.
  induction e as [op dt l r li tz tn it ic ia sel IHl IHr IHli] using Expr_induction.
  intros a vs v Hwf Hv Hat Hd. revert vs Hat Hd. change (delivers (cexpr (mkExpr op dt l r li tz tn it ic ia sel) a) a v).
  assert (Hbin : forall o (f : value -> value -> option value),
    match l with Some e => wf aFunc e | None => false end && match r with Some e => wf aFunc e | None => false end = true ->
    (x ← match l with Some e => eval e | None => None end;
     y ← match r with Some e => eval e | None => None end; f x y) = Some v ->
    (forall x y pc vs, value_light x -> value_light y -> f x y = Some v ->
       at_ prog pc = Some o -> fits pc (y :: x :: vs) -> reaches pc (y :: x :: vs) (pc + 1) (v :: vs)) ->
    delivers (let c := match l with Some e => cexpr e a | None => [] end in
      c ++ match r with Some e => cexpr e (a + len c) | None => [] end ++ [o]) a v).
  { intros o f Hw Hf Ho. apply andb_true_iff in Hw as [Wl Wr]. destruct l as [l|]; [|done]. destruct r as [r|]; [|done].
    destruct (eval l) as [x|] eqn:Ex; [|done]. destruct (eval r) as [y|] eqn:Ey; [|done]. cbn in Hf. cbv zeta.
    eapply deliver_two; [by apply cexpr_pos| | |].
    - intros vs. by apply IHl.
    - intros vs. by apply IHr.
    - intros pc vs. apply Ho; [by eapply eval_ok..|done]. }
  assert (Hun : forall o (f : value -> option value), match l with Some e => wf aFunc e | None => false end = true ->
    (x ← match l with Some e => eval e | None => None end; f x) = Some v ->
    (forall x pc vs, value_light x -> f x = Some v ->
       at_ prog pc = Some o -> fits pc (x :: vs) -> reaches pc (x :: vs) (pc + 1) (v :: vs)) ->
    delivers (match l with Some e => cexpr e a | None => [] end ++ [o]) a v).
  { intros o f Wl Hf Ho. destruct l as [l|]; [|done]. destruct (eval l) as [x|] eqn:Ex; [|done]. cbn in Hf.
    eapply deliver_one; [intros vs; by apply IHl|]. intros pc vs. apply Ho; [by eapply eval_ok|done]. }
  assert (Hcmp : forall o o', value_opcode o = Some o' -> o' ∈ comparisons ->
    match l with Some e => wf aFunc e | None => false end && match r with Some e => wf aFunc e | None => false end = true ->
    let e := mkExpr op dt l r li tz tn it ic ia sel in
    (x ← match l with Some e => eval e | None => None end;
     y ← match r with Some e => eval e | None => None end;
     of_truth <$> compared (text_comparison file_format e) o' x y) = Some v ->
    delivers (let c := match l with Some e => cexpr e a | None => [] end in
      c ++ match r with Some e => cexpr e (a + len c) | None => [] end ++ [I (comparison_opcode file_format o' e) 0 0]) a v).
  { intros o o' _ Hin Hw e Hv'. eapply Hbin; [exact Hw|exact Hv'|]. intros x y pc vs _ _ Hc Ho Hf.
    cbv beta in Hc. destruct (compared (text_comparison file_format e) o' x y) as [b|] eqn:Eb; [|done]. injection Hc as <-.
    by eapply (run_compare E B prog Hsize _ _ _ (text_comparison file_format e) o' y x b Ho). }
  destruct op; cbn [ExprSpec.cexpr]; cbv zeta; cbn [ExprSpec.eval] in Hv; cbn in Hwf; try done.
  - destruct (at_ (aCsr E) it) as [pC|] eqn:Ec; [|done]. cbn in Hv. apply Z.leb_le in Hwf.
    destruct (Z.leb_spec 0 ic); apply deliver_push; intros vs Ho Hd.
    + by apply (run_Column E B prog Hsize a vs Hd _ pC v Ho).
    + by apply (run_Recno E B prog Hsize a vs Hd _ pC v Ho).
  - injection Hv as <-. rewrite literal_text_p3. apply (deliver_literal TK_STRING), literal_text_nulfree.
  - injection Hv as <-. rewrite literal_text_p3. apply (deliver_literal TK_FLOAT), literal_text_nulfree.
  - apply (inj Some) in Hv. rewrite <-Hv, literal_text_p3. apply deliver_literal, literal_text_nulfree.
  - injection Hv as <-. apply deliver_push. intros vs Ho Hd. by apply (run_String E B prog Hsize a vs Hd _ Ho).
  - apply deliver_push. intros vs Ho Hd. by apply (run_Variable E B prog Hsize a vs Hd _ v Ho).
  - apply (Hcmp TK_LT OP_Lt); [done|unfold comparisons; set_solver|exact Hwf|exact Hv].
  - apply (Hcmp TK_LE OP_Le); [done|unfold comparisons; set_solver|exact Hwf|exact Hv].
  - apply (Hcmp TK_GT OP_Gt); [done|unfold comparisons; set_solver|exact Hwf|exact Hv].
  - apply (Hcmp TK_GE OP_Ge); [done|unfold comparisons; set_solver|exact Hwf|exact Hv].
  - apply (Hcmp TK_NE OP_Ne); [done|unfold comparisons; set_solver|exact Hwf|exact Hv].
  - apply (Hcmp TK_EQ OP_Eq); [done|unfold comparisons; set_solver|exact Hwf|exact Hv].
  - eapply Hbin; [exact Hwf|exact Hv|]. intros x y pc vs [Lx _] [Ly _] Hx Ho Hf. cbv beta in Hx.
    destruct (truth x) as [b1|] eqn:E1; [|done]. destruct (truth y) as [b2|] eqn:E2; [|done]. injection Hx as <-.
    by apply (run_logic E B prog Hsize _ _ _ OP_And y x b1 b2 Ho); [|by left|..].
  - eapply Hbin; [exact Hwf|exact Hv|]. intros x y pc vs [Lx _] [Ly _] Hx Ho Hf. cbv beta in Hx.
    destruct (truth x) as [b1|] eqn:E1; [|done]. destruct (truth y) as [b2|] eqn:E2; [|done]. injection Hx as <-.
    by apply (run_logic E B prog Hsize _ _ _ OP_Or y x b1 b2 Ho); [|by right|..].
  - eapply Hbin; [exact Hwf|exact Hv|]. intros x y pc vs _ _ Hx Ho Hf. by eapply (run_arith E B prog Hsize _ _ _ OP_Add y x); [exact Ho|done|set_solver|done|].
  - eapply Hbin; [exact Hwf|exact Hv|]. intros x y pc vs _ _ Hx Ho Hf. by eapply (run_arith E B prog Hsize _ _ _ OP_Multiply y x); [exact Ho|done|set_solver|done|].
  - eapply Hbin; [exact Hwf|exact Hv|]. intros x y pc vs _ _ Hx Ho Hf. by eapply (run_arith E B prog Hsize _ _ _ OP_Subtract y x); [exact Ho|done|set_solver|done|].
  - eapply Hbin; [exact Hwf|exact Hv|]. intros x y pc vs _ _ Hx Ho Hf. by eapply (run_arith E B prog Hsize _ _ _ OP_Remainder y x); [exact Ho|done|set_solver|done|].
  - eapply Hbin; [exact Hwf|exact Hv|]. intros x y pc vs [Lx _] [Ly _] Hx Ho Hf. by eapply (run_bits E B prog Hsize _ _ _ OP_BitAnd y x); [exact Ho|done|set_solver|done..|].
  - eapply Hbin; [exact Hwf|exact Hv|]. intros x y pc vs [Lx _] [Ly _] Hx Ho Hf. by eapply (run_bits E B prog Hsize _ _ _ OP_BitOr y x); [exact Ho|done|set_solver|done..|].
  - eapply Hbin; [exact Hwf|exact Hv|]. intros x y pc vs _ _ Hx Ho Hf. by eapply (run_arith E B prog Hsize _ _ _ OP_Divide y x); [exact Ho|done|set_solver|done|].
  - apply andb_true_iff in Hwf as [Wl Wr]. destruct l as [l|]; [|done]. destruct r as [r|]; [|done].
    cbn in Hv. destruct (eval r) as [y|] eqn:Ey; [|done]. destruct (eval l) as [x|] eqn:Ex; [|done]. cbn in Hv.
    eapply deliver_two; [by apply cexpr_pos|intros vs; by apply IHr|intros vs; by apply IHl|].
    intros pc vs Ho Hf. destruct (eval_ok l x Ex) as [Lx _]. destruct (eval_ok r y Ey) as [Ly _].
    by eapply (run_bits E B prog Hsize _ _ _ OP_ShiftLeft x y); [exact Ho|done|set_solver|done..|].
  - apply andb_true_iff in Hwf as [Wl Wr]. destruct l as [l|]; [|done]. destruct r as [r|]; [|done].
    cbn in Hv. destruct (eval r) as [y|] eqn:Ey; [|done]. destruct (eval l) as [x|] eqn:Ex; [|done]. cbn in Hv.
    eapply deliver_two; [by apply cexpr_pos|intros vs; by apply IHr|intros vs; by apply IHl|].
    intros pc vs Ho Hf. destruct (eval_ok l x Ex) as [Lx _]. destruct (eval_ok r y Ey) as [Ly _].
    by eapply (run_bits E B prog Hsize _ _ _ OP_ShiftRight x y); [exact Ho|done|set_solver|done..|].
  - eapply Hbin; [exact Hwf|exact Hv|]. intros x y pc vs [_ Lx] [_ Ly] Hx Ho Hf.
    by apply (run_concat E B prog Hsize _ _ _ y x v Ho).
  - destruct l as [x|]; [|done].
    assert (Hneg : forall w, eval x = Some w -> negate_value w = Some v -> delivers (cexpr x a ++ [I OP_Negative 0 0]) a v).
    { intros w Ew Hn. eapply deliver_one; [intros vs; by apply IHl|]. intros pc vs Ho Hf.
      destruct (eval_ok x w Ew) as [Lw _]. by apply (run_negative E B prog Hsize _ _ _ w v Ho). }
    pose proof (negative_text_p3 (token_z x) (token_n x)) as Hp3. unfold negative_text in Hp3.
    destruct (Expr.op x); try (destruct (eval x) as [w|]; [|done]; by eapply Hneg);
      apply (inj Some) in Hv; rewrite <-Hv, Hp3; apply deliver_literal, nulfree_cstr.
  - eapply Hun; [exact Hwf|exact Hv|]. intros x pc vs [Lx _] Hx Ho Hf. by apply (run_bitnot E B prog Hsize _ _ _ x v Ho).
  - eapply Hun; [exact Hwf|exact Hv|]. intros x pc vs [Lx _] Hx Ho Hf. cbv beta in Hx.
    destruct (truth x) as [b|] eqn:Eb; [|done]. injection Hx as <-.
    apply (run_not E B prog Hsize _ _ _ x _ Ho); [done..|]. by apply not_value.
  - destruct l as [l|]; [|done]. destruct (eval l) as [x|] eqn:Ex; [|done]. injection Hv as <-.
    replace (is_null x) with (Bool.eqb (is_null x) true) by (by destruct (is_null x)).
    by apply (deliver_isnull true l a x).
  - destruct l as [l|]; [|done]. destruct (eval l) as [x|] eqn:Ex; [|done]. injection Hv as <-.
    replace (negb (is_null x)) with (Bool.eqb (is_null x) false) by (by destruct (is_null x)).
    by apply (deliver_isnull false l a x).
  - apply andb_true_iff in Hwf as [_ Hli]. by eapply deliver_call.
  - apply andb_true_iff in Hwf as [_ Hli]. by eapply deliver_call.
  - apply andb_true_iff in Hwf as [_ Hli]. by eapply deliver_call.
  - destruct (Hcells ic v Hv) as (m & Hm & Hc). apply deliver_push. intros vs Ho Hd.
    by apply (run_MemLoad E B prog Hsize a vs Hd _ m v Ho).
  - apply andb_true_iff in Hwf as [Wl _]. destruct l as [l|]; [|done]. destruct (eval l) as [x|] eqn:Ex; [|done].
    cbn in Hv. by eapply deliver_in.
  - apply andb_true_iff in Hwf as [Wl Ws]. destruct l as [l|]; [|done].
    destruct li as [[|lo [|hi [|x li]]]|]; try done. apply andb_true_iff in Ws as [Wlo Whi].
    cbn in IHli. apply Forall_cons_1 in IHli as [Hlo Hli]. apply Forall_cons_1 in Hli as [Hhi _].
    destruct (eval l) as [x|] eqn:Ex; [|done]. destruct (eval lo) as [xlo|] eqn:Elo; [|done]. cbn in Hv.
    destruct (compared_as _ OP_Ge x xlo) as [r1|] eqn:E1; [|done].
    destruct (eval hi) as [xhi|] eqn:Ehi; [|done]. cbn in Hv.
    destruct (compared_as _ OP_Le x xhi) as [r2|] eqn:E2; [|done]. injection Hv as <-.
    apply compared_as_plain in E1, E2. by eapply deliver_between.
  - destruct l as [l|]; [|done]. intros vs. by apply IHl.
  - destruct l as [l|]; [|done]. intros vs. by apply IHl.
  - destruct li as [es|]; [|by rewrite andb_false_r in Hwf].
    apply andb_true_iff in Hwf as [Hlr Hes]. apply andb_true_iff in Hlr as [Wl Wr].
    apply andb_true_iff in Hes as [Hlen Hes]. apply andb_true_iff in Hlen as [Hev _].
    by apply deliver_case.
Qed.

End Correct.
