(* ===== verification/ExprJump.v ===== *)
(** The code of a condition, run by the machine, jumps when the condition is true, or
    when it is false, and leaves the stack as it was. *)
From S2P Require Import Prelude Util CMem CFloat Printf VdbeAux VdbeAuxProofs VdbeMem Vdbe VdbeStack VdbeEffects Expr ExprSpec ExprEmit VdbeRun ExprRun.

(** When a jump on the truth value [s] is taken: [j] says what unknown does. *)
Definition jump_if (s j : bool) (b : option bool) : bool := match b with Some t => Bool.eqb t s | None => j end.

Lemma jump_if_not (s j : bool) b : jump_if (negb s) j b = jump_if s j (k_not b).
Proof. by destruct s, b as [[|]|]. Qed.

Section Correct.
Context (file_format : Z) (aFunc : func_table) (E : Vm) (B : heap) (prog : list Op) (cells : Z -> option value).
Abbreviation eval := (eval file_format aFunc E cells).
Abbreviation cexpr := (cexpr file_format aFunc).
Abbreviation cjump := (cjump file_format aFunc).
Abbreviation reaches := (reaches E B prog).
Abbreviation nOps := (nOps prog).
Abbreviation code_at := (code_at prog).

Context (Hsize : length (aStack E) = length prog) (Hint : interrupted E = false).
Context (Hcells : forall i v, cells i = Some v -> exists m, at_ (aMem E) i = Some m /\ cell_ok B (aMem E) i m v).
Abbreviation all_run := (all_run file_format aFunc E B prog cells Hsize Hint Hcells).
Abbreviation cexpr_pos := (cexpr_pos file_format aFunc).
Abbreviation eval_ok := (eval_ok file_format aFunc E B cells Hcells).

(** The code [c] at [a] jumps to [d] when [t] holds, and goes on behind itself otherwise. *)
Definition branches (c : list Op) (a d : Z) (t : bool) : Prop :=
  forall vs, code_at a c -> Z.of_nat (length vs) <= a -> 0 < d <= nOps ->
    reaches a vs (if t then d else a + len c) vs.

Lemma jump_on_value e (s j : bool) d a v b : wf aFunc e = true -> eval e = Some v -> truth v = Some b ->
  branches (cexpr e a ++ [I (if s then OP_If else OP_IfNot) (Z.b2z j) d]) a d (jump_if s j b).
Proof.
  intros Hwf Hv Hb vs Hat Hd Hdest. apply (code_at_app prog) in Hat as [Hat1 Hat2]. apply (code_at_cons prog) in Hat2 as [O1 _].
  pose proof (cexpr_pos e a Hwf) as Hpos. destruct (eval_ok e v Hv) as [Lv _].
  eapply reaches_via; [by apply all_run|]. rewrite len_app, len_one, Z.add_assoc.
  eapply (run_if E B prog Hsize _ vs (I (if s then OP_If else OP_IfNot) (Z.b2z j) d)); try done; [cbn; lia|].
  unfold fits. simpl. lia.
Qed.

(** Two operands: the first decides or leaves it to the second. *)
Lemma jump_either_runs c1 c2 a d (t1 t2 t : bool) :
  let d2 := a + len c1 + len c2 in
  branches c1 a d2 t1 -> branches c2 (a + len c1) d t2 -> 1 <= len c1 ->
  (if t1 then t = false else t = t2) ->
  branches (c1 ++ c2) a d t.
Proof.
  intros d2 H1 H2 Hpos Ht vs Hat Hd Hdest. pose proof (code_at_bounds prog _ _ Hat) as Hb. rewrite len_app in Hb |- *.
  apply (code_at_app prog) in Hat as [Hat1 Hat2]. pose proof (len_pos c2) as P2.
  assert (Hd2 : 0 < d2 <= nOps) by (unfold d2; lia).
  pose proof (H1 vs Hat1 Hd Hd2) as R1. destruct t1; subst t.
  - by rewrite Z.add_assoc.
  - eapply reaches_via; [exact R1|]. rewrite Z.add_assoc. apply H2; [done|lia|done].
Qed.

Lemma jump_both_runs c1 c2 a d (t1 t2 t : bool) :
  branches c1 a d t1 -> branches c2 (a + len c1) d t2 ->
  (if t1 then t = true else t = t2) ->
  branches (c1 ++ c2) a d t.
Proof.
  intros H1 H2 Ht vs Hat Hd Hdest. rewrite len_app.
  apply (code_at_app prog) in Hat as [Hat1 Hat2]. pose proof (len_pos c1) as P1.
  pose proof (H1 vs Hat1 Hd Hdest) as R1. destruct t1; subst t; [exact R1|].
  eapply reaches_via; [exact R1|]. rewrite Z.add_assoc. apply H2; [done|lia|done].
Qed.

Lemma jump_on_comparison l r (text : bool) op (j : bool) a d vl vr b :
  wf aFunc l = true -> wf aFunc r = true -> eval l = Some vl -> eval r = Some vr -> op ∈ comparisons ->
  compared text op vl vr = Some b ->
  branches (cexpr l a ++ cexpr r (a + len (cexpr l a)) ++ [I (compare_code text op) (Z.b2z j) d]) a d
    (match b with Some t => t | None => j end).
Proof.
  intros Wl Wr El Er Hop Hb vs Hat Hd Hdest. apply (code_at_app prog) in Hat as [Hat1 Hat2].
  apply (code_at_app prog) in Hat2 as [Hat2 Hat3]. apply (code_at_cons prog) in Hat3 as [O1 _].
  pose proof (cexpr_pos l a Wl) as P1. pose proof (cexpr_pos r (a + len (cexpr l a)) Wr) as P2.
  eapply reaches_via; [apply all_run; [exact Wl|exact El|done|done]|].
  eapply reaches_via; [apply all_run; [exact Wr|exact Er|done|simpl; lia]|].
  rewrite !len_app, len_one, !Z.add_assoc.
  eapply (run_compare_jump E B prog Hsize _ vs (I (compare_code text op) (Z.b2z j) d) text op _ _ b j); try done.
  unfold fits. simpl. lia.
Qed.

Lemma jump_on_null l (isnull : bool) a d v :
  wf aFunc l = true -> eval l = Some v ->
  branches (cexpr l a ++ [I (if isnull then OP_IsNull else OP_NotNull) 1 d]) a d (Bool.eqb (is_null v) isnull).
Proof.
  intros Wl El vs Hat Hd Hdest. apply (code_at_app prog) in Hat as [Hat1 Hat2]. apply (code_at_cons prog) in Hat2 as [O1 _].
  pose proof (cexpr_pos l a Wl) as P1. eapply reaches_via; [by apply all_run|].
  rewrite len_app, len_one, Z.add_assoc.
  eapply (run_null_pop E B prog Hsize _ vs (I (if isnull then OP_IsNull else OP_NotNull) 1 d)); try done; [cbn; lia|].
  unfold fits. simpl. lia.
Qed.

(** Members of a set. *)
Lemma jump_on_member l it (s j : bool) a d v b :
  wf aFunc l = true -> eval l = Some v ->
  (if is_null v then Some None else t ← to_text v; Some (Some (in_set E it t))) = Some b ->
  let q := a + len (cexpr l a) in
  branches (cexpr l a ++ [I OP_NotNull (-1) (q + 3); I OP_Pop 1 0; I OP_Goto 0 (if j then d else q + 4);
    I (if s then OP_SetFound else OP_SetNotFound) it d]) a d (jump_if s j b).
Proof.
  intros Wl El Hb q vs Hat Hd Hdest. pose proof (code_at_bounds prog _ _ Hat) as Hbd. rewrite len_app in Hbd |- *.
  change (len [_; _; _; _]) with 4 in *.
  apply (code_at_app prog) in Hat as [Hat1 Hat2]. fold q in Hat2. apply (code_at_cons prog) in Hat2 as [O1 Hat2].
  apply (code_at_cons prog) in Hat2 as [O2 Hat2]. apply (code_at_cons prog) in Hat2 as [O3 Hat2]. apply (code_at_cons prog) in Hat2 as [O4 _].
  pose proof (cexpr_pos l a Wl) as P1. assert (Hq : a + (len (cexpr l a) + 4) = q + 4) by (unfold q; lia). rewrite Hq.
  eapply reaches_via; [by apply all_run|]. fold q.
  eapply reaches_via.
  { eapply (run_null_keep E B prog Hsize q vs _ v O1); [done|done|cbn; unfold q; lia|unfold fits; simpl; unfold q; lia]. }
  destruct (is_null v) eqn:En.
  - injection Hb as <-. cbn [jump_if].
    eapply reaches_via.
    { apply (run_Pop E B prog Hsize (q + 1) vs _ [v] O2 eq_refl); [unfold fits; simpl; unfold q; lia|done]. }
    eapply reaches_same.
    { apply (run_goto E B prog Hsize Hint _ _ _ O3 eq_refl); [unfold fits; unfold q; lia|cbn; destruct j; unfold q; lia]. }
    cbn. by destruct j.
  - destruct (to_text v) as [t|] eqn:Et; [|done]. injection Hb as <-. cbn [p2 I jump_if].
    replace (q + 3) with (q + 1 + 1 + 1) in * by lia. eapply reaches_same.
    { eapply (run_SetFound E B prog Hsize _ vs _ s v t O4); [done|cbn; lia|unfold fits; simpl; unfold q; lia|done|done]. }
    cbn. destruct (Bool.eqb (in_set E it t) s); lia.
Qed.

(** Ranges: after the copy and the lower bound, the value is still on the stack. *)
Lemma range_start l lo a v vlo vs :
  wf aFunc l = true -> wf aFunc lo = true -> eval l = Some v -> eval lo = Some vlo ->
  let c := cexpr l a ++ [I OP_Dup 0 0] in
  let c2 := c ++ cexpr lo (a + len c) in
  code_at a c2 -> Z.of_nat (length vs) <= a ->
  2 <= len c2 /\ reaches a vs (a + len c2) (vlo :: with_heavy true v :: v :: vs).
Proof.
  intros Wl Wlo El Elo c c2 Hat Hd.
  pose proof (cexpr_pos l a Wl) as P1. pose proof (cexpr_pos lo (a + len c) Wlo) as P2.
  assert (L1 : len c = len (cexpr l a) + 1) by (unfold c; by rewrite len_app).
  assert (L2 : len c2 = len c + len (cexpr lo (a + len c))) by (unfold c2; by rewrite len_app).
  unfold c2 in Hat. apply (code_at_app prog) in Hat as [Hat1 Hat2].
  unfold c in Hat1. apply (code_at_app prog) in Hat1 as [Hat1 Hat3]. apply (code_at_cons prog) in Hat3 as [O1 _].
  split; [lia|].
  eapply reaches_via; [apply all_run; [exact Wl|exact El|done|done]|].
  eapply reaches_via; [apply (run_Dup E B prog Hsize _ vs _ [] v O1 eq_refl eq_refl); simpl; lia|]. cbn [app].
  replace (a + len (cexpr l a) + 1) with (a + len c) by lia.
  rewrite L2, Z.add_assoc. apply all_run; [exact Wlo|exact Elo|done|simpl; lia].
Qed.

(** A comparison of the two values on top, as a jump. *)
Lemma jump_compared pc vs op (j : bool) d n t b :
  at_ prog pc = Some (I op (Z.b2z j) d) -> op ∈ comparisons -> 0 < d <= nOps ->
  Z.of_nat (length vs) + 2 <= pc + 1 -> compared false op n t = Some b ->
  reaches pc (t :: n :: vs) (if (match b with Some t => t | None => j end) then d else pc + 1) vs.
Proof.
  intros Ho Hop Hdest Hd Hb.
  apply (run_compare_jump E B prog Hsize pc vs (I op (Z.b2z j) d) false op t n b j Ho); try done.
  unfold fits. simpl. lia.
Qed.

Lemma compared_heavy_left text op h v t : compared text op (with_heavy h v) t = compared text op v t.
Proof. by destruct v. Qed.

Lemma jump_between (s j : bool) l lo hi d a v vlo vhi r1 r2 :
  wf aFunc l = true -> wf aFunc lo = true -> wf aFunc hi = true ->
  eval l = Some v -> eval lo = Some vlo -> eval hi = Some vhi ->
  compared false OP_Ge v vlo = Some r1 -> compared false OP_Le v vhi = Some r2 ->
  branches (between_jump_code file_format aFunc s (Some l) lo hi d j a) a d (jump_if s j (k_and r1 r2)).
Proof.
  intros Wl Wlo Whi El Elo Ehi E1 E2 vs Hat Hd Hdest. unfold between_jump_code, expr_at in *. cbv zeta in *.
  set (c1 := cexpr l a ++ [I OP_Dup 0 0]) in *. set (c := c1 ++ cexpr lo (a + len c1)) in *.
  pose proof (code_at_bounds prog _ _ Hat) as Hb.
  assert (Hstart : code_at a c) by (destruct s; by apply (code_at_app prog) in Hat as [? _]).
  destruct (range_start l lo a v vlo vs Wl Wlo El Elo Hstart Hd) as [Hc R1]. fold c1 in Hc, R1. fold c in Hc, R1.
  destruct s.
  - set (b := a + len c + 1) in *. assert (Eb : b = a + len c + 1) by done. set (ch := cexpr hi b) in *. pose proof (cexpr_pos hi b Whi) as P. fold ch in P.
    apply (code_at_app prog) in Hat as [_ Hat]. apply (code_at_cons prog) in Hat as [O1 Hat].
    apply (code_at_app prog) in Hat as [Hhi Hat]. apply (code_at_cons prog) in Hat as [O2 Hat].
    apply (code_at_cons prog) in Hat as [O3 Hat]. apply (code_at_cons prog) in Hat as [O4 _].
    rewrite !len_app, !len_cons, !len_nil in Hb |- *.
    rewrite <-!Eb in Hhi, O2, O3, O4. replace (b + len ch + 1 + 1) with (b + len ch + 2) in O4 by lia.
    eapply reaches_via; [exact R1|].
    eapply reaches_via.
    { eapply (jump_compared _ (v :: vs) OP_Lt (negb j) _ _ _ (k_not r1) O1); [unfold comparisons; set_solver|lia|simpl; lia|].
      rewrite compared_heavy_left. apply (compared_not OP_Ge); [intros c'; apply Z.ltb_antisym|exact E1]. }
    assert (R2 : forall w, reaches (b + len ch + 2) (w :: vs) (b + len ch + 3) vs).
    { intros w. eapply reaches_same;
        [apply (run_Pop E B prog Hsize _ vs _ [w] O4 eq_refl); [unfold fits; simpl; lia|done]|lia]. }
    assert (R3 : reaches b (v :: vs) (if match r2 with Some t => t | None => j end then d else b + len ch + 3) vs).
    { eapply reaches_via; [apply all_run; [exact Whi|exact Ehi|exact Hhi|simpl; lia]|]. fold ch.
      eapply reaches_via; [eapply (jump_compared _ vs OP_Le j _ _ _ r2 O2); [unfold comparisons; set_solver|done|lia|done]|].
      destruct (match r2 with Some t => t | None => j end); [apply reaches_refl|].
      eapply reaches_via; [apply (run_Integer E B prog Hsize (b + len ch + 1) vs ltac:(lia) _ O3); done|].
      replace (b + len ch + 1 + 1) with (b + len ch + 2) by lia. apply R2. }
    replace (a + (len c + (1 + 0 + (len ch + (1 + (1 + (1 + 0))))))) with (b + len ch + 3) by lia.
    destruct (match k_not r1 with Some t => t | None => negb j end) eqn:Ej.
    + replace (jump_if true j (k_and r1 r2)) with false by (by destruct r1 as [[|]|], r2 as [[|]|], j). apply R2.
    + replace (jump_if true j (k_and r1 r2)) with (match r2 with Some t => t | None => j end)
        by (by destruct r1 as [[|]|], r2 as [[|]|], j). by rewrite <-Eb.
  - set (b := a + len c) in *. assert (Eb : b = a + len c) by done.
    set (ch := cexpr hi (b + 3)) in *. pose proof (cexpr_pos hi (b + 3) Whi) as P. fold ch in P.
    apply (code_at_app prog) in Hat as [_ Hat]. apply (code_at_cons prog) in Hat as [O1 Hat].
    apply (code_at_cons prog) in Hat as [O2 Hat]. apply (code_at_cons prog) in Hat as [O3 Hat].
    apply (code_at_app prog) in Hat as [Hhi Hat]. apply (code_at_cons prog) in Hat as [O4 _].
    rewrite !len_app, !len_cons, !len_nil in Hb |- *. rewrite <-!Eb in O1, O2, O3, O4, Hhi.
    replace (b + 1 + 1 + 1) with (b + 3) in Hhi, O4 by lia.
    eapply reaches_via; [exact R1|].
    eapply reaches_via.
    { eapply (jump_compared _ (v :: vs) OP_Ge (negb j) _ _ _ r1 O1); [unfold comparisons; set_solver|lia|simpl; lia|].
      by rewrite compared_heavy_left. }
    assert (R2 : reaches (b + 1) (v :: vs) d vs).
    { eapply reaches_via;
        [apply (run_Pop E B prog Hsize _ vs _ [v] O2 eq_refl); [unfold fits; simpl; lia|done]|].
      apply (run_goto E B prog Hsize Hint _ _ (I OP_Goto 0 d) O3 eq_refl); [unfold fits; lia|cbn; lia]. }
    assert (R3 : reaches (b + 3) (v :: vs) (if match k_not r2 with Some t => t | None => j end then d else b + 3 + len ch + 1) vs).
    { eapply reaches_via; [apply all_run; [exact Whi|exact Ehi|exact Hhi|simpl; lia]|]. fold ch.
      apply (jump_compared _ vs OP_Gt j _ _ _ (k_not r2) O4); [unfold comparisons; set_solver|done|lia|].
      apply (compared_not OP_Le); [intros c'; apply Z.ltb_antisym|exact E2]. }
    replace (a + (len c + (1 + (1 + (1 + 0)) + (len ch + (1 + 0))))) with (b + 3 + len ch + 1) by lia.
    destruct (match r1 with Some t => t | None => negb j end) eqn:Ej.
    + replace (jump_if false j (k_and r1 r2)) with (match k_not r2 with Some t => t | None => j end)
        by (by destruct r1 as [[|]|], r2 as [[|]|], j). exact R3.
    + replace (jump_if false j (k_and r1 r2)) with true by (by destruct r1 as [[|]|], r2 as [[|]|], j). exact R2.
Qed.

(** The code of a condition: on its value, or on those of its operands. *)
Definition jumps (e : Expr) : Prop := forall (s j : bool) d a v b,
  wf aFunc e = true -> eval e = Some v -> truth v = Some b ->
  branches (cjump s e d j a) a d (jump_if s j b).

Definition k_conj (s : bool) (a b : option bool) : option bool := if s then k_and a b else k_or a b.

Lemma jump_either_at (s j : bool) l r d a bl br :
  0 <= a -> 1 <= len (cjump (negb s) l 0 (negb j) a) ->
  (forall d2, branches (cjump (negb s) l d2 (negb j) a) a d2 (jump_if (negb s) (negb j) bl)) ->
  (forall a2, branches (cjump s r d j a2) a2 d (jump_if s j br)) ->
  branches (to_end a (fun d2 => let c := cjump (negb s) l d2 (negb j) a in c ++ cjump s r d j (a + len c)))
    a d (jump_if s j (k_conj s bl br)).
Proof.
  intros Ha Hpos Hl Hr. unfold to_end. cbv zeta. rewrite len_app, Z.add_assoc.
  assert (Hlen : forall d2, len (cjump (negb s) l d2 (negb j) a) = len (cjump (negb s) l 0 (negb j) a)).
  { intros d2. apply (relabels_len _ d2 0 a (cjump_relabels file_format aFunc l (negb s) (negb j)) Ha). }
  set (d2 := a + len (cjump (negb s) l 0 (negb j) a) + _).
  apply (jump_either_runs _ _ a d (jump_if (negb s) (negb j) bl) (jump_if s j br)).
  - rewrite Hlen. apply Hl.
  - apply Hr.
  - by rewrite Hlen.
  - by destruct s, j, bl as [[|]|], br as [[|]|].
Qed.

Lemma jump_both_at (s j : bool) l r d a bl br :
  branches (cjump s l d j a) a d (jump_if s j bl) ->
  (forall a2, branches (cjump s r d j a2) a2 d (jump_if s j br)) ->
  branches (let c := cjump s l d j a in c ++ cjump s r d j (a + len c)) a d (jump_if s j (k_conj (negb s) bl br)).
Proof.
  intros Hl Hr. apply (jump_both_runs _ _ a d (jump_if s j bl) (jump_if s j br)); [done|apply Hr|].
  by destruct s, j, bl as [[|]|], br as [[|]|].
Qed.

Lemma cjump_pos s e d j a : wf aFunc e = true -> 1 <= len (cjump s e d j a).
Proof.
  intros Hwf. pose proof (cjump_nonempty file_format aFunc e s d j a Hwf) as Hne.
  destruct (cjump s e d j a); [done|]. rewrite len_cons. pose proof (len_pos l). lia.
Qed.

Lemma jumps_pair (b : bool) dt l r li tz tn it ic ia sel :
  jumps l -> jumps r -> jumps (mkExpr (conjunction b) dt (Some l) (Some r) li tz tn it ic ia sel).
Proof.
  intros Hl Hr s j d a v t Hwf Hv Ht.
  assert (H : exists vl vr bl br, wf aFunc l = true /\ wf aFunc r = true /\ eval l = Some vl /\ eval r = Some vr /\
    truth vl = Some bl /\ truth vr = Some br /\ t = k_conj b bl br).
  { assert (Hw : wf aFunc l && wf aFunc r = true) by (by destruct b). apply andb_true_iff in Hw as [Wl Wr].
    destruct b; cbn in Hv; destruct (eval l) as [vl|] eqn:El; try done; destruct (eval r) as [vr|] eqn:Er; try done;
      cbn in Hv; destruct (truth vl) as [bl|] eqn:Tl; try done; destruct (truth vr) as [br|] eqn:Tr; try done;
      injection Hv as <-; rewrite truth_of_truth in Ht; injection Ht as <-; by exists vl, vr, bl, br. }
  destruct H as (vl & vr & bl & br & Wl & Wr & El & Er & Tl & Tr & ->).
  intros vs Hat. pose proof (code_at_bounds prog _ _ Hat) as [Ha _]. revert vs Hat.
  destruct (Bool.bool_dec s b) as [->|Hne].
  - assert (G : branches (to_end a (fun d2 => let c := cjump (negb b) l d2 (negb j) a in c ++ cjump b r d j (a + len c)))
      a d (jump_if b j (k_conj b bl br))).
    { apply jump_either_at; [done|by apply cjump_pos|intros d2; by eapply Hl|intros a2; by eapply Hr]. }
    intros vs Hat. specialize (G vs). by destruct b; apply G.
  - replace b with (negb s) in * by (by destruct s, b). clear Hne.
    assert (G : branches (let c := cjump s l d j a in c ++ cjump s r d j (a + len c)) a d (jump_if s j (k_conj (negb s) bl br))).
    { apply jump_both_at; [by eapply Hl|intros a2; by eapply Hr]. }
    intros vs Hat. specialize (G vs). by destruct s; apply G.
Qed.

Lemma negated_compare o op op' c : value_opcode o = Some op -> negated_opcode o = Some op' ->
  (match o with TK_LT | TK_LE | TK_GT | TK_GE | TK_NE | TK_EQ => true | _ => false end) = true ->
  compare_op op' c = negb (compare_op op c).
Proof.
  intros H1 H2 Ho. destruct o; try done; injection H1 as <-; injection H2 as <-; unfold compare_op;
    first [reflexivity | apply Z.leb_antisym | apply Z.ltb_antisym | by rewrite negb_involutive].
Qed.

Lemma jumps_comparison o dt l r li tz tn it ic ia sel :
  (match o with TK_LT | TK_LE | TK_GT | TK_GE | TK_NE | TK_EQ => true | _ => false end) = true ->
  jumps (mkExpr o dt l r li tz tn it ic ia sel).
Proof.
  intros Ho s j d a v b Hwf Hv Hb. set (e := mkExpr o dt l r li tz tn it ic ia sel) in *.
  assert (H : exists x y vx vy op, l = Some x /\ r = Some y /\ wf aFunc x = true /\ wf aFunc y = true /\
    eval x = Some vx /\ eval y = Some vy /\ value_opcode o = Some op /\
    compared (text_comparison file_format e) op vx vy = Some b).
  { unfold e in Hwf, Hv. destruct o; try done; cbn in Hwf; apply andb_true_iff in Hwf as [Wl Wr];
      destruct l as [x|]; try done; destruct r as [y|]; try done; cbn in Hv;
      destruct (eval x) as [vx|] eqn:Ex; try done; destruct (eval y) as [vy|] eqn:Ey; try done; cbn in Hv;
      fold e in Hv; destruct (compared (text_comparison file_format e) _ vx vy) as [c|] eqn:Ec; try done;
      injection Hv as <-; rewrite truth_of_truth in Hb; injection Hb as <-; by eexists x, y, vx, vy, _. }
  destruct H as (x & y & vx & vy & op & -> & -> & Wx & Wy & Ex & Ey & Eo & Ec).
  assert (H : exists op', op' ∈ comparisons /\ compared (text_comparison file_format e) op' vx vy = Some (if s then b else k_not b) /\
    cjump s e d j a = cexpr x a ++ cexpr y (a + len (cexpr x a)) ++
      [I (compare_code (text_comparison file_format e) op') (Z.b2z j) d]).
  { destruct s.
    - exists op. split; [|split; [done|]]; unfold e; destruct o; try done; injection Eo as <-;
        first [reflexivity | unfold comparisons; set_solver].
    - destruct (negated_opcode o) as [op'|] eqn:En; [|by destruct o]. exists op'. split; [|split].
      + destruct o; try done; injection En as <-; unfold comparisons; set_solver.
      + apply (compared_not op); [|done]. intros c. by apply (negated_compare o).
      + unfold e. destruct o; try done; injection En as <-; reflexivity. }
  destruct H as (op' & Hop' & Ec' & ->).
  replace (jump_if s j b) with (match (if s then b else k_not b) with Some t => t | None => j end)
    by (by destruct s, b as [[|]|]).
  by eapply jump_on_comparison.
Qed.

(** Every condition. *)
Lemma all_jump e : jumps e.
Proof.
  induction e as [op dt l r li tz tn it ic ia sel IHl IHr _] using Expr_induction.
  destruct (jumps_on_value op) eqn:Hop.
  { intros s j d a v b Hwf Hv Hb. rewrite cjump_value by done. by eapply jump_on_value. }
  destruct op; try done; try (by apply jumps_comparison).
  - destruct l as [l|]; [|by intros s j d a v b Hwf]. destruct r as [r|]; [by apply (jumps_pair true)|].
    intros s j d a v b Hwf. cbn in Hwf. by rewrite andb_false_r in Hwf.
  - destruct l as [l|]; [|by intros s j d a v b Hwf]. destruct r as [r|]; [by apply (jumps_pair false)|].
    intros s j d a v b Hwf. cbn in Hwf. by rewrite andb_false_r in Hwf.
  - intros s j d a v b Hwf Hv Hb. destruct l as [l|]; [|done]. cbn in Hwf, Hv.
    destruct (eval l) as [x|] eqn:Ex; [|done]. cbn in Hv. destruct (truth x) as [c|] eqn:Ec; [|done]. injection Hv as <-.
    rewrite truth_of_truth in Hb. injection Hb as <-. rewrite <-jump_if_not. by eapply IHl.
  - intros s j d a v b Hwf Hv Hb. destruct l as [l|]; [|done]. cbn in Hwf, Hv.
    destruct (eval l) as [x|] eqn:Ex; [|done]. injection Hv as <-.
    assert (b = Some (is_null x)) as -> by (by destruct (is_null x); injection Hb as <-).
    replace (jump_if s j (Some (is_null x))) with (Bool.eqb (is_null x) (Bool.eqb s true)) by (by destruct s, (is_null x)).
    by eapply jump_on_null.
  - intros s j d a v b Hwf Hv Hb. destruct l as [l|]; [|done]. cbn in Hwf, Hv.
    destruct (eval l) as [x|] eqn:Ex; [|done]. injection Hv as <-.
    assert (b = Some (negb (is_null x))) as -> by (by destruct (is_null x); injection Hb as <-).
    replace (jump_if s j (Some (negb (is_null x)))) with (Bool.eqb (is_null x) (Bool.eqb s false)) by (by destruct s, (is_null x)).
    by eapply jump_on_null.
  - intros s j d a v b Hwf Hv Hb. cbn in Hwf. apply andb_true_iff in Hwf as [Wl _]. destruct l as [l|]; [|done]. cbn in Hv.
    destruct (eval l) as [x|] eqn:Ex; [|done]. cbn in Hv.
    eapply jump_on_member; [exact Wl|exact Ex|].
    destruct (is_null x); [injection Hv as <-; exact Hb|]. destruct (to_text x) as [t|]; [|done]. cbn in Hv |- *.
    injection Hv as <-. rewrite <-Hb. by destruct (in_set E it t).
  - intros s j d a v b Hwf Hv Hb. cbn in Hwf. apply andb_true_iff in Hwf as [Wl Wli]. destruct l as [l|]; [|done].
    destruct li as [[|lo [|hi [|? li]]]|]; try done. apply andb_true_iff in Wli as [Wlo Whi]. cbn in Hv.
    destruct (eval l) as [x|] eqn:Ex; [|done]. cbn in Hv. destruct (eval lo) as [xlo|] eqn:Elo; [|done]. cbn in Hv.
    destruct (compared_as _ OP_Ge x xlo) as [r1|] eqn:E1; [|done]. cbn in Hv.
    destruct (eval hi) as [xhi|] eqn:Ehi; [|done]. cbn in Hv.
    destruct (compared_as _ OP_Le x xhi) as [r2|] eqn:E2; [|done]. injection Hv as <-.
    apply compared_as_plain in E1, E2.
    rewrite truth_of_truth in Hb. injection Hb as <-. by eapply jump_between.
Qed.

End Correct.
