(* ===== verification/ExprCorrect.v ===== *)
(** The expression compiler and the machine together: what the generated code is, that
    it computes the values of the expressions, that conditions jump as they should, and
    that a row of expressions comes out of [sqliteVdbeExec]. *)
From S2P Require Import Prelude Util CMem CFloat Printf VdbeAux VdbeAuxProofs VdbeMem Vdbe VdbeStack VdbeEffects Expr ExprSpec ExprEmit VdbeRun ExprRun ExprJump.

(** * The loop *)

(** The machine [E], with an empty stack, is about to run [prog]. *)
Definition started (E : Vm) (B : heap) (prog : list Op) : Prop :=
  rep E B ∅ E [] /\ length (aStack E) = length prog /\
  vmagic E = VDBE_MAGIC_RUN /\ vpc E = 0 /\ vrc E = SQLITE_OK /\ popCount E = 0 /\ interrupted E = false /\
  sqlite_malloc_failed (vheap E) = 0.

(** The memory cells hold what [cells] says. *)
Definition cells_hold (E : Vm) (B : heap) (cells : Z -> option value) : Prop :=
  forall i v, cells i = Some v -> exists m, at_ (aMem E) i = Some m /\ cell_ok B (aMem E) i m v.

Lemma loop_steps prog x y : rtc (vstep prog) x y ->
  exists n, forall fuel, exec_loop (n + fuel) prog x.1 x.2 = exec_loop fuel prog y.1 y.2.
Proof.
  induction 1 as [x|x y z Hxy _ [n IH]]; [by exists 0%nat|]. exists (S n). intros fuel. cbn [exec_loop Nat.add].
  unfold mbind, M_bind, vstep in *. rewrite Hxy. apply IH.
Qed.

Lemma loop_returns fuel prog pc s rc s' :
  vdbe_step prog pc s = Done (Return rc) s' -> exec_loop (S fuel) prog pc s = Done rc s'.
Proof. intros H. cbn [exec_loop]. unfold mbind, M_bind. by rewrite H. Qed.

Lemma exec_started E B prog fuel : started E B prog -> sqliteVdbeExec fuel prog E = exec_loop fuel prog 0 E.
Proof.
  intros (_ & _ & Hm & Hpc & Hrc & Hpop & Hint & Hfail). unfold sqliteVdbeExec, mbind, M_bind, mget.
  rewrite Hm, Hrc, Hpop, Hfail.
  assert (Hset : set_vrc SQLITE_OK E = E) by (destruct E; cbn in Hrc; by subst).
  change (assert _ E) with (Done tt E). cbv beta iota. change (vupd (set_vrc SQLITE_OK) E) with (Done tt (set_vrc SQLITE_OK E)).
  rewrite Hset. cbv beta iota. change (negb (0 =? 0)) with false. cbv beta iota.
  change (0 =? 0) with true. cbv beta iota. change ((mret tt : M Vm unit) E) with (Done tt E). cbv beta iota.
  change (vget interrupted E) with (Done (interrupted E) E). cbv beta iota. by rewrite Hint, Hpc.
Qed.

Lemma started_ready prog n vars csr :
  started (set_nResColumn n (ready (length prog) vars csr (mkMem ∅ [] 0))) ∅ prog.
Proof.
  split; [|by simpl; rewrite length_replicate]. exists [], (replicate (length prog) blank), (mkMem ∅ [] 0), ∅.
  split; [done|]. split; [done|]. split; [rewrite dom_empty_L; constructor|]. split.
  - split; [done|]. split; [done|]. split; [set_solver|]. split; [|done]. cbn. set_solver.
  - apply Forall_replicate. reflexivity.
Qed.

Lemma rep_nResColumn E B X s vs : rep E B X s vs -> nResColumn s = nResColumn E.
Proof. by intros (ms & rest & h & O & -> & _). Qed.

(** The texts of a row stay readable when the machine is told about the row. *)
Definition with_row (l : list (option zptr)) (n : Z) (k pc : Z) (s : Vm) : Vm :=
  set_nCallback n (set_azResColumn l (set_popCount k (set_vpc pc s))).

Lemma rep_with_row E B X s vs l n k pc : rep E B X s vs -> rep (with_row l n k pc E) B X (with_row l n k pc s) vs.
Proof. intros (ms & rest & h & O & -> & H). exists ms, rest, h, O. split; [reflexivity|exact H]. Qed.

(** The instruction that delivers a row. *)
Lemma row_delivered E B prog pc s o args texts :
  rep E B ∅ s (rev args) -> at_ prog pc = Some o -> op_code o = Some OP_Callback ->
  p1 o = Z.of_nat (length args) -> nResColumn E = Z.of_nat (length args) -> Z.of_nat (length args) <= pc ->
  mapM argument args = Some texts ->
  wp (vdbe_step prog pc)
    (fun c s' => c = Return SQLITE_ROW /\ vpc s' = pc + 1 /\ popCount s' = p1 o /\
       read_texts (azResColumn s') s' = Done texts s') (fun _ => False) s.
Proof.
  intros Hs Ho Ec H1 Hn Hpc Ht. unfold vdbe_step. rewrite <-(app_nil_r (rev args)) in Hs.
  assert (Hr : 0 <= pc < Z.of_nat (length prog)).
  { unfold at_ in Ho. destruct (Z.leb_spec 0 pc); [|done]. apply lookup_lt_Some in Ho. lia. }
  assert (Hlen : Z.of_nat (length (rev args ++ [])) = Z.of_nat (length args)) by (by rewrite app_nil_r, length_rev).
  apply wp_bind, wp_assert; [apply andb_true_iff; split; [apply Z.leb_le|apply Z.ltb_lt]; lia|].
  apply wp_bind, wp_vget. rewrite (rep_pos _ _ _ _ _ Hs), Hlen. apply wp_bind, wp_assert; [apply Z.leb_le; lia|].
  rewrite Ho. apply wp_bind, wp_ret, wp_bind. unfold exec_op. rewrite Ec. unfold op_Callback.
  apply wp_bind, wp_vget. rewrite (rep_pos _ _ _ _ _ Hs), Hlen, H1, Nat2Z.id.
  apply wp_bind, wp_assert; [apply Z.leb_le; lia|].
  replace (Z.of_nat (length args) - 1 + 1 - Z.of_nat (length args)) with (Z.of_nat (length (@nil value))) by (cbn; lia).
  apply wp_bind. eapply rep_argument_texts; [exact Hs|exact Ht|]. intros l s1 H2 Hl _.
  apply wp_bind, wp_vget. rewrite (rep_nResColumn _ _ _ _ _ H2), Hn.
  apply wp_bind, wp_assert; [by rewrite Z.eqb_refl|]. apply wp_bind, wp_vupd, wp_ret, wp_ret.
  split; [done|]. split; [done|]. split; [done|].
  set (s2 := with_row l (nCallback s1 + 1) (Z.of_nat (length args)) (pc + 1) s1).
  change (read_texts l s2 = Done texts s2).
  assert (Hw : wp (read_texts l) (fun t s' => t = texts /\ s' = s2) (fun _ => False) s2).
  { eapply (rep_read_texts _ B ∅ args s2 [] []); [by apply rep_with_row|by eapply args_at_same; [|exact Hl]|exact Ht|done]. }
  by apply wp_returns in Hw as (t & s' & -> & -> & ->).
Qed.

(** * The pieces, composed *)

Section Facts.
Context (file_format : Z) (ignoreJump : option Z) (aFunc : func_table).

Lemma code_returns e s l ls : wf aFunc e = true -> gen s l ls ->
  exists s' ls', sqliteExprCode file_format false ignoreJump aFunc e s = Done tt s' /\
    gen s' (l ++ cexpr file_format aFunc e (len l)) (ls ++ ls').
Proof.
  intros Hwf Hs.
  assert (Hw : wp (sqliteExprCode file_format false ignoreJump aFunc e)
    (fun _ s' => exists ls', gen s' (l ++ cexpr file_format aFunc e (len l)) (ls ++ ls')) (fun _ => False) s).
  { eapply (sqliteExprCode_emits file_format aFunc ignoreJump e Hwf 0 0); [exact Hs|unfold dest_ok; lia..|].
    intros s' ls' H. by exists ls'. }
  apply wp_returns in Hw as ([] & s' & H & ls' & Hg). by exists s', ls'.
Qed.

Lemma list_returns es types s l ls : forallb (wf aFunc) es = true -> gen s l ls ->
  exists s' ls', sqliteExprCodeExprList file_format false ignoreJump aFunc (Some es) types s = Done (list_count types es) s' /\
    gen s' (l ++ list_code (cexpr file_format aFunc) types es (len l)) (ls ++ ls').
Proof.
  intros Hwf Hs.
  assert (Hw : wp (sqliteExprCodeExprList file_format false ignoreJump aFunc (Some es) types)
    (fun n s' => n = list_count types es /\
       exists ls', gen s' (l ++ list_code (cexpr file_format aFunc) types es (len l)) (ls ++ ls')) (fun _ => False) s).
  { unfold sqliteExprCodeExprList. apply wp_bind.
    eapply (emits_list file_format aFunc ignoreJump types es 0 0); [|exact Hs|unfold dest_ok; lia..|].
    - apply Forall_forall. intros e He. apply sqliteExprCode_emits.
      apply (proj1 (forallb_forall _ _) Hwf). by apply list_elem_of_In.
    - intros s' ls' H. apply wp_ret. split; [done|]. by exists ls'. }
  apply wp_returns in Hw as (n & s' & H & -> & ls' & Hg). by exists s', ls'.
Qed.

Lemma jump_returns (sense j : bool) e d s l ls : wf aFunc e = true -> gen s l ls -> dest_ok ls d ->
  exists s' ls', jump_code file_format aFunc ignoreJump sense e d j s = Done tt s' /\
    gen s' (l ++ cjump file_format aFunc sense e (known ls d) j (len l)) (ls ++ ls').
Proof.
  intros Hwf Hs Hd.
  assert (Hw : wp (jump_code file_format aFunc ignoreJump sense e d j)
    (fun _ s' => exists ls', gen s' (l ++ cjump file_format aFunc sense e (known ls d) j (len l)) (ls ++ ls')) (fun _ => False) s).
  { eapply (jumps_emit file_format aFunc ignoreJump e Hwf sense d 0 j); [exact Hs|exact Hd|unfold dest_ok; lia|].
    intros s' ls' H. by exists ls'. }
  apply wp_returns in Hw as ([] & s' & H & ls' & Hg). by exists s', ls'.
Qed.

(** The target of a jump, when the label has its address. *)
Lemma relabel_jump (sense j : bool) e d n a : 0 <= a -> d < 0 \/ n = d ->
  map (relabel d n) (cjump file_format aFunc sense e d j a) = cjump file_format aFunc sense e n j a.
Proof.
  intros Ha [Hd| ->].
  - rewrite (cjump_relabels file_format aFunc e sense j d n d a Hd Ha). unfold retarget. by rewrite Z.eqb_refl.
  - rewrite <-(map_id (cjump _ _ _ _ _ _ _)) at 2. apply map_ext. intros o. unfold relabel.
    destruct (Z.eqb_spec (p2 o) d) as [<-|]; [|done]. by destruct o.
Qed.

End Facts.

(** The address where a piece of code begins. *)
Lemma code_at_here l c r : code_at (l ++ c ++ r) (len l) c.
Proof. by exists l, r. Qed.

(** An empty program, and the expressions [1+2], [1+2>2] and ['abc']. *)
Definition parse0 : Parse := mkParse (Some sqliteVdbeCreate) 0 None.

Lemma gen_parse0 : gen parse0 [] [].
Proof. split; [by exists sqliteVdbeCreate|constructor]. Qed.

Definition leaf (o : TK) (z : list Z) : Expr :=
  mkExpr o 0 None None None z (Z.of_nat (length z)) 0 0 0 None.
Definition binary (o : TK) (l r : Expr) : Expr := mkExpr o 0 (Some l) (Some r) None [] 0 0 0 0 None.
Definition sum_expr : Expr := binary TK_PLUS (leaf TK_INTEGER (bytes_of_string "1")) (leaf TK_INTEGER (bytes_of_string "2")).
Definition cond_expr : Expr := binary TK_GT sum_expr (leaf TK_INTEGER (bytes_of_string "2")).
Definition row_exprs : list Expr := [sum_expr; leaf TK_STRING (bytes_of_string "'abc'")].
Definition machine0 : Vm := ready 4 [] [] (mkMem ∅ [] 0).

Lemma cells_none E B : cells_hold E B (fun _ => None).
Proof. by intros i v H. Qed.

(** * What the compiler promises *)

(** C8: the generators of [expr.c], started with any program under construction, return,
    and what they add to it is exactly the code of the reference definitions: of a value,
    of a list of values, and of a jump on a condition.  The labels they make, the
    addresses they patch and the branches they resolve leave no trace in it; the
    reference definitions know addresses only. *)
Theorem expression_code_emitted file_format ignoreJump aFunc s l ls (Hs : gen s l ls) :
  (forall e, wf aFunc e = true ->
     exists s' ls', sqliteExprCode file_format false ignoreJump aFunc e s = Done tt s' /\
       gen s' (l ++ cexpr file_format aFunc e (len l)) (ls ++ ls')) /\
  (forall es types, forallb (wf aFunc) es = true ->
     exists s' ls', sqliteExprCodeExprList file_format false ignoreJump aFunc (Some es) types s =
         Done (list_count types es) s' /\
       gen s' (l ++ list_code (cexpr file_format aFunc) types es (len l)) (ls ++ ls')) /\
  (forall e dest (j : bool), wf aFunc e = true -> dest_ok ls dest ->
     (exists s' ls', sqliteExprIfTrue file_format false ignoreJump aFunc e dest j s = Done tt s' /\
       gen s' (l ++ cjump file_format aFunc true e (known ls dest) j (len l)) (ls ++ ls')) /\
     (exists s' ls', sqliteExprIfFalse file_format false ignoreJump aFunc e dest j s = Done tt s' /\
       gen s' (l ++ cjump file_format aFunc false e (known ls dest) j (len l)) (ls ++ ls'))).
Proof.
  split; [|split].
  - intros e Hwf. by apply code_returns.
  - intros es types Hwf. by apply list_returns.
  - intros e dest j Hwf Hd.
    split; [by apply (jump_returns _ _ _ true)|by apply (jump_returns _ _ _ false)].
Qed.

Lemma expression_code_emitted_witness :
  exists s' ls', sqliteExprCode 4 false None [] sum_expr parse0 = Done tt s' /\
    gen s' (cexpr 4 [] sum_expr 0) ls'.
Proof. exact (proj1 (expression_code_emitted 4 None [] parse0 [] [] gen_parse0) sum_expr eq_refl). Defined.

(** C9: the code that [sqliteExprCode] emits for an expression, wherever it stands in a
    program, takes the machine from its first address to the one behind it and leaves the
    value of the expression on top of the stack: the values below it, the memory cells
    and the blocks that they own are what they were, and no block is lost.  [eval] is
    [Some v] where the operators are defined: no integer leaves the [int]s, the truth
    of a text or a real is the same for the code and for the comments, a real compares
    as its 15 digits do, BETWEEN and CASE compare two texts as numbers and as texts
    alike, and a remainder of reals is one of integers. *)
Theorem expression_value file_format ignoreJump aFunc E B cells e v s l ls vs
    (Hwf : wf aFunc e = true) (Hv : eval file_format aFunc E cells e = Some v) (Hs : gen s l ls)
    (Hint : interrupted E = false) (Hcells : cells_hold E B cells) (Hd : Z.of_nat (length vs) <= len l) :
  exists s' c ls', sqliteExprCode file_format false ignoreJump aFunc e s = Done tt s' /\ gen s' (l ++ c) (ls ++ ls') /\
    forall rest, length (aStack E) = length (l ++ c ++ rest) ->
      reaches E B (l ++ c ++ rest) (len l) vs (len (l ++ c)) (v :: vs).
Proof.
  destruct (code_returns file_format ignoreJump aFunc e s l ls Hwf Hs) as (s' & ls' & Hr & Hg).
  exists s', (cexpr file_format aFunc e (len l)), ls'. split; [done|]. split; [done|]. intros rest Hsize.
  rewrite len_app. eapply all_run; [exact Hsize|exact Hint|exact Hcells|done|exact Hv|apply code_at_here|done].
Qed.

Lemma expression_value_witness :
  exists s' c ls', sqliteExprCode 4 false None [] sum_expr parse0 = Done tt s' /\ gen s' c ls' /\
    forall rest, length (aStack machine0) = length (c ++ rest) ->
      reaches machine0 ∅ (c ++ rest) 0 [] (len c) [VInt 3].
Proof.
  exact (expression_value 4 None [] machine0 ∅ (fun _ => None) sum_expr (VInt 3) parse0 [] [] [] eq_refl eq_refl
    gen_parse0 eq_refl (cells_none _ _) (Z.le_refl 0)).
Defined.

(** C10: the code that [sqliteExprIfTrue] and [sqliteExprIfFalse] emit jumps to its target,
    an address or a label that gets the address [n] later, exactly when the condition has
    the truth value of the jump in SQL's logic with three truth values, or is unknown
    and the jump is asked for; otherwise it goes on behind itself.  Either way the stack
    is what it was.  The condition has a value ([eval]) and a truth ([truth]: a text is
    false if it is empty, where the integer that the code reads from it agrees). *)
Theorem condition_jumps file_format ignoreJump aFunc E B cells e v b (sense j : bool) dest n s l ls vs
    (Hwf : wf aFunc e = true) (Hv : eval file_format aFunc E cells e = Some v) (Hb : truth v = Some b)
    (Hs : gen s l ls) (Hdest : dest_ok ls dest) (Hn : known ls dest < 0 \/ n = known ls dest)
    (Hint : interrupted E = false) (Hcells : cells_hold E B cells) (Hd : Z.of_nat (length vs) <= len l) :
  exists s' c ls', jump_code file_format aFunc ignoreJump sense e dest j s = Done tt s' /\ gen s' (l ++ c) (ls ++ ls') /\
    forall rest, let prog := l ++ map (relabel (known ls dest) n) c ++ rest in
      length (aStack E) = length prog -> 0 < n <= len prog ->
      reaches E B prog (len l) vs (if jump_if sense j b then n else len (l ++ c)) vs.
Proof.
  destruct (jump_returns file_format ignoreJump aFunc sense j e dest s l ls Hwf Hs Hdest) as (s' & ls' & Hr & Hg).
  eexists s', _, ls'. split; [done|]. split; [exact Hg|]. cbv zeta. intros rest.
  set (c := cjump file_format aFunc sense e (known ls dest) j (len l)).
  assert (Hlen : len c = len (map (relabel (known ls dest) n) c)) by (unfold len; by rewrite length_map).
  rewrite (len_app l c), Hlen. unfold c. rewrite relabel_jump by (done || len_lia). intros Hsize Hin.
  eapply all_jump; [exact Hsize|exact Hint|exact Hcells|done|exact Hv|exact Hb|apply code_at_here|done|exact Hin].
Qed.

Lemma condition_jumps_witness :
  exists s' c ls', jump_code 4 [] None true cond_expr 9 false parse0 = Done tt s' /\ gen s' c ls' /\
    forall rest, let prog := map (relabel 9 9) c ++ rest in
      length (aStack machine0) = length prog -> 0 < 9 <= len prog -> reaches machine0 ∅ prog 0 [] 9 [].
Proof.
  destruct (condition_jumps 4 None [] machine0 ∅ (fun _ => None) cond_expr (VInt 1) (Some true) true false 9 9 parse0 [] [] [])
    as (s' & c & ls' & Hr & Hg & H).
  - reflexivity.
  - vm_compute. reflexivity.
  - reflexivity.
  - exact gen_parse0.
  - unfold dest_ok. simpl. lia.
  - by right.
  - reflexivity.
  - apply cells_none.
  - done.
  - exists s', c, ls'. split; [exact Hr|]. split; [exact Hg|]. exact H.
Defined.

(** C11: a row of expressions comes out of the machine: [sqliteVdbeExec], on the program
    that computes the expressions and calls back, returns [SQLITE_ROW] after finitely
    many rounds, and the column pointers it leaves give the texts of the values, with a
    null pointer for NULL.  The expressions have values in the sense of [eval]. *)
Theorem row_of_expressions file_format aFunc E B cells es args texts
    (prog := list_code (cexpr file_format aFunc) false es 0 ++ [I OP_Callback (Z.of_nat (length es)) 0; I OP_Halt 0 0])
    (Hwf : forallb (wf aFunc) es = true)
    (Hargs : eval_list (eval file_format aFunc E cells) false es = Some args) (Htexts : mapM argument args = Some texts)
    (HE : started E B prog) (Hcols : nResColumn E = Z.of_nat (length es)) (Hcells : cells_hold E B cells) :
  exists fuel s', (forall more, sqliteVdbeExec (fuel + more) prog E = Done SQLITE_ROW s') /\
    read_texts (azResColumn s') s' = Done texts s' /\ popCount s' = Z.of_nat (length es).
Proof.
  pose proof HE as (Hrep & Hsize & Hm & Hpc & Hrc & Hpop & Hint & _).
  assert (Hlen : length args = length es).
  { clear -Hargs. revert args Hargs. induction es as [|e es IH]; intros args Ha; cbn in Ha; [by injection Ha as <-|].
    destruct (eval file_format aFunc E cells e); [|done]. cbn in Ha.
    destruct (eval_list _ _ es) as [r|]; [|done]. injection Ha as <-. simpl. by rewrite (IH r). }
  set (c := list_code (cexpr file_format aFunc) false es 0) in *.
  destruct (deliver_list file_format aFunc E B prog cells Hsize false es) with (a := 0) (args := args) (vs := @nil value)
    as [Hreach Hdepth]; [|done|done|apply (code_at_here [] c)|simpl; lia|].
  { apply Forall_forall. intros e _. by apply all_run. }
  destruct (Hreach E Hrep) as (s1 & Hsteps & Hs1).
  assert (Ho : at_ prog (0 + len c) = Some (I OP_Callback (Z.of_nat (length args)) 0)).
  { unfold prog. rewrite Z.add_0_l, Hlen. by apply at_middle. }
  destruct (loop_steps _ _ _ Hsteps) as [k Hk]. cbn [fst snd] in Hk. rewrite app_nil_r in Hs1, Hdepth.
  assert (Hw := row_delivered E B prog (0 + len c) s1 (I OP_Callback (Z.of_nat (length es)) 0) args texts Hs1).
  rewrite length_rev in Hdepth. rewrite <-Hlen in Hw, Hcols. specialize (Hw Ho eq_refl eq_refl Hcols Hdepth Htexts).
  apply wp_returns in Hw as (r & s2 & Hstep & -> & _ & Hp & Hread).
  exists (k + 1)%nat, s2. split; [|by rewrite Hp, <-Hlen].
  intros more. rewrite (exec_started E B prog _ HE). replace (k + 1 + more)%nat with (k + S more)%nat by lia.
  rewrite Hk. by apply (loop_returns _ _ _ _ _ _ Hstep).
Qed.

Definition row_prog : list Op :=
  list_code (cexpr 4 []) false row_exprs 0 ++ [I OP_Callback (Z.of_nat (length row_exprs)) 0; I OP_Halt 0 0].
Definition row_machine : Vm := set_nResColumn (Z.of_nat (length row_exprs)) (ready (length row_prog) [] [] (mkMem ∅ [] 0)).

Lemma row_of_expressions_witness :
  exists fuel s', (forall more, sqliteVdbeExec (fuel + more) row_prog row_machine = Done SQLITE_ROW s') /\
    read_texts (azResColumn s') s' = Done [Some (bytes_of_string "3"); Some (bytes_of_string "abc")] s' /\
    popCount s' = Z.of_nat (length row_exprs).
Proof.
  apply (row_of_expressions 4 [] row_machine ∅ (fun _ => None) row_exprs [VInt 3; VText (bytes_of_string "abc")]).
  - reflexivity.
  - vm_compute. reflexivity.
  - vm_compute. reflexivity.
  - apply started_ready.
  - reflexivity.
  - apply cells_none.
Defined.

(** The machine as it runs. *)
Example row_by_computation :
  match sqliteVdbeExec 10 row_prog row_machine with
  | Done r s =>
      match read_texts (azResColumn s) s with
      | Done l _ => r = SQLITE_ROW /\ l = [Some (bytes_of_string "3"); Some (bytes_of_string "abc")]
      | _ => False
      end
  | _ => False
  end.
Proof. vm_compute. by split. Qed.
